(* ===== verification/_CoqProject ===== *)
-Q . S2P
Prelude.v
Utils.v
Constants.v
EncodingFacts.v
Words.v
CWords.v
Memory.v
Float.v
SimState.v
SimInteger.v
SimFloat.v
Simulator.v
Exec.v
SimFacts.v
SimCalls.v
Effects.v
AsmState.v
MicroAssembler.v
Emission.v
Computes.v
Macros.v
ObjectHeader.v
PointerBlocks.v
WorkLists.v
WriteBarrier.v
ObjectMacros.v
MacroFacts.v
Branches.v
Arithmetic.v
Accesses.v
Offsets.v
FloatAccesses.v
Programs.v
Stack.v
Frames.v
Patching.v
Labels.v
Forward.v
MacroBranches.v
Overflow.v
Barriers.v
Tagging.v
HeaderAccess.v
EndToEnd.v
Findings.v
Locations.v
ParallelMoves.v
MoveCode.v
MoveEffects.v
MoveResolution.v
Resolver.v
Safepoint.v
SafepointInvariant.v
SafepointSteps.v
SafepointOperations.v
SafepointSchedule.v
BitSet.v
FreeList.v
FreeListInvariant.v
FreeListSteps.v
FreeListAllocation.v
FreeListSearch.v
FreeListRequests.v
FreeListClient.v
Sweeper.v
SweeperProofs.v
DataStream.v
DataStreamReading.v
DataStreamWriting.v
RangeAnalysis.v
Instances.v
AssemblerProps.v
ObjectProps.v
HeapProps.v
MoveProps.v
SafepointProps.v
FreeListProps.v
DataStreamProps.v
RangeProps.v
SimulatorProps.v
