(* ===== verification/Prelude.v ===== *)
(** * The RISC-V backend of the Dart VM and its heap and thread protocols

    The Dart virtual machine generates machine code at run time.  For RISC-V the repository
    holds both ends of that: an assembler, which turns calls into bytes, and a simulator,
    which runs those bytes on a host of another architecture.  This library models both from
    the C++ sources and proves that they agree: the code an assembler method emits, loaded
    anywhere in the simulator's memory and reached by its program counter, does what the
    method promises.  Generated code and runtime share the object header and the write
    barrier; the library also models these, the buffers the barrier fills, and the protocol
    by which parallel marking drains them.  Between the two are the compiler's resolver of
    parallel moves, which is proved down to the simulated instructions, and the safepoints at
    which the threads that run the code stop for the collector.  Of the collector's old
    generation the library has the free list, from which objects are allocated, and the
    sweeper, which fills it.  Snapshots and messages are written to and read from byte streams,
    whose formats of numbers are modelled too.  Of the optimising compiler the library has the
    integer ranges from which it concludes that an operation cannot overflow and that a bounds
    check cannot fail.

    ** The parts and their files

    A build is described by the class [Target] below: 32 or 64 bit registers ([XLEN]), and
    debug or release ([ASSERT] fails or does nothing).  All definitions and theorems hold for
    the four combinations unless a hypothesis restricts them.

    - [Utils]: the integer templates of [src/runtime/platform/utils.h].
    - [Constants]: [src/runtime/vm/constants_riscv.h], registers, calling convention, opcodes,
      the encoders and decoders of every instruction field, the accessors of [Instr] and
      [CInstr].  [EncodingFacts] has the round trips of the immediates; [Words] and [CWords]
      the fields read back from assembled 32-bit and 16-bit instructions.
    - [Memory]: bytes, little-endian words, partial memory (an unmapped access is a host
      fault).  [Float]: IEEE formats on bit patterns, over Stdlib's [SpecFloat]; the payload
      of a NaN result is a parameter ([HostFloat]).
    - [SimState], [SimInteger], [SimFloat], [Simulator]: [class Simulator] of
      [src/runtime/vm/simulator_riscv.{h,cc}].  The object's fields are the record
      [Simulator]; each [Interpret...] method is a definition of that name from a state to a
      [result]; [step] is the body of the loop of [Execute], [Execute] runs it with fuel.
      [Random] ([src/runtime/vm/random.cc]) is in [SimState].  Functions of the host that
      simulated code calls through [ecall] are a parameter ([Host]).
    - [AsmState]: [Label] and [AssemblerBuffer]
      ([src/runtime/vm/compiler/assembler/assembler_base.h]) and the fields of the assembler.
      Labels are shared objects, so the state holds a store of labels.  A method is a
      computation of the state-and-error monad [M].
    - [MicroAssembler]: the emitters of [assembler_riscv.cc], one definition each, with their
      choice of compressed forms; branches, jumps, [Bind].
    - [Macros]: the methods of [class Assembler] listed in its header.  [ObjectMacros]: its
      methods on frames and objects; the stubs they call are parameters.
    - [ObjectHeader]: [src/runtime/vm/bitfield.h], the header fields of
      [src/runtime/vm/raw_object.h] and the class numbers of [src/runtime/vm/class_id.h].
    - [PointerBlocks]: [PointerBlock], [BlockStack] and [StoreBuffer]
      ([src/runtime/vm/heap/pointer_block.{h,cc}]); a block is the list of its pointers, the
      cache of empty blocks is part of the state.
    - [WorkLists]: [BlockWorkList] and the protocol of [WaitForWork] with the draining loop of
      [ParallelMarkTask] ([src/runtime/vm/heap/marker.cc]) as a step relation over tasks.  The
      monitor is part of it: operations tell whether they notify, and a task that waits takes
      no step until it is notified, or is woken by the operating system.
    - [WriteBarrier]: [StorePointer] and its barrier ([src/runtime/vm/raw_object.h],
      [src/runtime/vm/tagged_pointer.h]) with the buffer methods of [Thread]
      ([src/runtime/vm/thread.cc]), over a heap of headers and fields.
    - [Locations]: [class Location] ([src/runtime/vm/compiler/backend/locations.h]), an
      inductive type with the word that encodes it.
    - [ParallelMoves]: [MoveOperands] ([src/runtime/vm/compiler/backend/il.h]),
      [ParallelMoveResolver] ([src/runtime/vm/compiler/backend/flow_graph_compiler.cc]) and the
      code it emits ([flow_graph_compiler_riscv.cc], [il_riscv.cc]).  The list of moves is
      passed from call to call, the code goes to the assembler.
    - [Safepoint]: [SafepointHandler] and the transitions of [src/runtime/vm/heap/safepoint.h]
      and [safepoint.cc], the safepoint word of [Thread] ([src/runtime/vm/thread.h]) and the
      scheduling of threads ([src/runtime/vm/isolate.cc], [thread_registry.cc]): the state of
      an isolate group with any number of threads, each at a point of the protocol, and one
      step for each atomic access or critical section.
    - [BitSet]: [src/runtime/vm/bit_set.h].  [FreeList]: [FreeListElement] and [FreeList]
      ([src/runtime/vm/heap/freelist.{h,cc}]) with the operations of [PageSpace] that allocate
      from it ([src/runtime/vm/heap/pages.{h,cc}]) and [VirtualMemory::Protect]; the state is
      the list, the words of memory and which pages are writable.  [Sweeper]:
      [src/runtime/vm/heap/sweeper.cc] on the same state; the sizes of classes
      ([UntaggedObject::HeapSizeFromClass]) are a parameter.
    - [DataStream]: [ReadStream] and the write streams of [src/runtime/vm/datastream.{h,cc}]; a
      stream is its buffer, its position and what it has flushed, [realloc] is a parameter.
    - [RangeAnalysis]: [RangeBoundary] and [Range] with the operations on them, constraints, joins,
      widening and [IsRedundantBasedOnRangeInformation] of
      [src/runtime/vm/compiler/backend/range_analysis.{h,cc}]; definitions are numbers, the ranges
      of the definitions a function that is passed on, and what the analysis asks of other
      instructions is the class [FlowGraph].

    ** How the theorems are built

    [Exec] defines [executes code f]: in every well-formed state whose program counter points
    at [code], some number of steps leads behind the code with registers changed by [f] and
    nothing else.  [Effects] gives this for every instruction; [Emission] says which bytes an
    emitter appends; [Computes] joins them as [computes n m f]: the method [m] succeeds in
    every assembler state and appends at most [n] words that execute [f].  [computes] composes
    along the method's own sequencing, so a macro's theorem follows the macro's text
    ([MacroFacts], [Tagging]).  [Branches] is the analogue for code that may leave through a
    branch to a bound label.  [MacroBranches] (comparisons) and [Overflow] use it, and extend
    it to labels that are bound later ([destination]).  [Accesses],
    [Offsets] and [Stack] treat loads and stores, whose outcome depends on memory.  [Patching]
    and [Labels] treat unbound labels: the invariant [linked] says that a label heads five
    lists threaded through the emitted code, emitters keep it, and [Bind] resolves the lists.
    [Programs] generalises both to sequences of operations on registers and memory
    ([realizes], [implements]); [FloatAccesses] and [Frames] use it for register
    saving and frames.  [Forward] bounds the code a method emits, and verifies methods
    that branch forward to a label of their own and bind it at their end, as [Barriers] does
    for class tests and the write barrier; [HeaderAccess] relates the bytes such code reads to
    the header fields of the runtime.  [WorkLists] ends with the termination measure of the
    marking protocol.
    [MoveCode] and [MoveEffects] say what the resolver's searches find and what the
    code for one move or swap does to the values of locations, [MoveResolution] lifts this to
    [EmitMove] and [EmitSwap], and [Resolver] has the invariant of [PerformMove]: pending moves
    form a path, and what has been moved is what was asked for.  [SafepointInvariant]
    reads the safepoint word as seven flags and is the invariant of the protocol (who
    owns a level, who is requested, how many have not parked, why a thread may sleep), and
    [SafepointSteps], [SafepointOperations] and [SafepointSchedule] show that every step keeps it.
    [FreeListInvariant] says which blocks are in which list, that they are disjoint, and that the
    map of lists describes them; free space is a function that counts the free blocks an address
    is in.  [FreeListSteps], [FreeListAllocation], [FreeListSearch] and [FreeListRequests] show
    what each operation does to it, [FreeListClient] states the contract of an allocation, shows
    that all ways to allocate keep it, and runs a client that uses them in any order.
    [SweeperProofs] describes a page as a sequence of objects and follows the sweeper over it.
    [DataStreamReading] defines the formats as relations between numbers and bytes and shows that
    the readers, the unrolled ones included, read them; [DataStreamWriting] shows that a write
    stream only ever appends, whatever happens to its buffer, and that the writers append these
    formats.
    [RangeProps] gives boundaries and ranges a meaning in the values of the definitions they name;
    [sound] says that the ranges are true of these values and that no chain of definitions is
    endless.
    [Arithmetic] proves the multiplications and divisions of the simulator correct.
    [SimFacts] has the invariant [sim_wf] of the simulator and [SimCalls] its execution loop,
    calls, redirections and atomic accesses.  [EndToEnd] runs emitted code through
    [Simulator::CallX].

    ** What is proved

    [AssemblerProps], [ObjectProps], [HeapProps], [MoveProps], [SafepointProps],
    [FreeListProps], [DataStreamProps], [RangeProps] and [SimulatorProps] collect the properties, each with an
    instance at a concrete state, most of them of [Instances].
    - Code generation: emitted code can be called and returns the right value; constants,
      arithmetic with constants, comparisons, overflow checks, small-integer tagging, memory
      at offsets, stack operations.
    - Labels: backward branches, forward branches, binding, and what a bound branch does.
    - Objects: saving and restoring registers, entering and leaving frames, class identifiers;
      the emitted write barrier calls its stub for exactly the stores for which the runtime's
      barrier does something.
    - Heap: header fields are independent; a store with its barrier keeps the heap invariant;
      parallel marking ends, in every interleaving, with all work done and no task left asleep.
    - Old generation: allocation hands out free memory only, loses none, touches no memory in use
      and no page without permission, whatever the client did before; sweeping frees exactly the
      unmarked objects and clears the marks of the others.
    - Streams: what is written, in any format to any kind of stream, is read back, or memory ran
      out; the unrolled readers are the loop they unroll.
    - Compiler: the code of a parallel move assigns all destinations at once, whatever chains the
      moves form and in all cycles whose exchanges are implemented; the word of a location determines it; inferred ranges have the
      results of operations, also at comparisons and joins, operations said not to overflow do
      not, and bounds checks are removed only where the index is in bounds.
    - Threads: while a safepoint operation runs all other threads are stopped, no assertion of
      the protocol fails, and it does not deadlock, in every interleaving.
    - Simulator: state invariant, the state in which a call starts the code and what it checks
      afterwards, memory and its guards, atomics, arithmetic, immediate fields, NaN boxing.
    - [Findings] shows where methods do not do what they mean to, and so do the last lemmas of
      [MoveProps] and [RangeProps]; hypotheses of the properties exclude these cases.

    ** Bounds and fuel

    [LoadImmediate] recurs with fuel 4: each level removes twelve bits of at most 64, and
    [LoadImmediate_computes] shows the fuel is never exhausted.  [bind_loop] has the length of
    the buffer plus one as fuel: positions in a list decrease.  [Execute] takes fuel because
    simulated programs may not end; [Execute_more] shows that the outcome does not depend on
    it, and theorems that promise a result say that some fuel gives it.  Label positions
    are 32-bit in the source, so the theorems on labels assume less than 2^30 or 2^31 bytes.
    [PerformMove] recurs at most once per move, because each level marks one more move pending;
    [EmitNativeCode] gives it that fuel and the theorem shows that it is enough.
    The searches of the last free list end when the search budget, 1000 plus the words asked for,
    is used up; the definitions have that much fuel.  Sweeping has the size of the page in units
    of alignment as fuel, and an object has at least one unit.
    The writers of streams have fuel 11: a number of at most 64 bits has at most ten groups of
    seven bits.  The readers have the length of the buffer, and read a byte per iteration.
    The fuel of range analysis is the length of the longest chain of definitions ([s_fuel]).
    Methods with a label of their own use near branches: [reach] (120 bytes) is in range of
    every encoding, and the call of the barrier stub may take 48 of them (it takes 8).

    ** Not modelled

    [Simulator::JumpToFrame] (a [longjmp] of the host that also reads the thread and the heap)
    and the printing methods; macros that read the object pool, allocate, enter frames of Dart
    code with a constant pool, or make safepoint transitions; the code of the stubs.  Of the
    heap: new pages and the accounting and policy of growth (an allocation that may map pages is a
    parameter with the contract of allocations), the printing of free lists, the concurrent
    sweeper's scheduling, scavenging, compaction, card marking of large arrays, weak
    properties and the phases of marking after draining.  Of the safepoints: the timeout of the
    wait for threads to park only prints, and is modelled as polling; the interrupt that makes a
    running thread check is not, a thread may check at any time.  Of the streams: [Printf] and
    [WriteTargetWord].  Of range analysis: the walk over the flow graph, the insertion of
    constraints and the selection of representations.  The other instruction sets, the
    rest of the compiler, isolates, snapshots and embedder are clients of the assembler or
    independent of it.  Memory orderings of atomic accesses are decoded but have no effect: simulated code
    runs as one thread, and each critical section of the marking and safepoint protocols is one
    step. *)
From stdpp Require Export base numbers list gmap option tactics.
From Stdlib Require Export ZArith Lia.

#[export] Set Default Goal Selector "!".

(** ** Notation for C++ integer expressions *)

Declare Scope cpp_scope.
Delimit Scope cpp_scope with cpp.
Notation "x << n" := (Z.shiftl x n) (at level 37, left associativity) : cpp_scope.
Notation "x >> n" := (Z.shiftr x n) (at level 37, left associativity) : cpp_scope.
Notation "x .& y" := (Z.land x y) (at level 51, left associativity) : cpp_scope.
Notation "x .^ y" := (Z.lxor x y) (at level 52, left associativity) : cpp_scope.
Notation "x .| y" := (Z.lor x y) (at level 53, left associativity) : cpp_scope.
#[global] Open Scope Z_scope.
#[global] Open Scope cpp_scope.

(** ** Results and state-passing computations

    A C++ call either returns or ends the process ([FATAL], a failed [ASSERT], a
    host fault), and the assembler can also leave by a [longjmp] that asks for the
    code to be generated again with longer branches. *)

Inductive error :=
| IllegalInstructionError (encoding : Z)
| EbreakError
| StackAccessError
| BadMemoryAccessError
| MisalignedAtomicError
| StackMisalignedError
| UnknownCSRError (csr : Z)
| NotPreservedError (reg : Z)
| HostFault (address : Z)
| UndefinedShift
| AssertFailure
| Unimplemented
| Unreachable
| FatalError
| BranchOffsetError
| OutOfMemoryError
| LoopFuelExhausted.

Inductive result (A : Type) :=
| Ok (a : A)
| Err (e : error).
Arguments Ok {A} a.
Arguments Err {A} e.

#[export] Instance error_eq_dec : EqDecision error.
Proof. solve_decision. Defined.

#[export] Instance result_ret : MRet result := fun A a => Ok a.
#[export] Instance result_bind : MBind result := fun A B f m =>
  match m with Ok a => f a | Err e => Err e end.

(** A computation over a state [S]. *)
Definition M (S A : Type) : Type := S -> result (A * S).

#[export] Instance M_ret {S} : MRet (M S) := fun A a s => Ok (a, s).
#[export] Instance M_bind {S} : MBind (M S) := fun A B f m s =>
  match m s with Ok (a, s') => f a s' | Err e => Err e end.

Definition fail {S A} (e : error) : M S A := fun _ => Err e.

Lemma result_bind_Ok {A B} (m : result A) (f : A -> result B) b :
  m ≫= f = Ok b -> exists a, m = Ok a /\ f a = Ok b.
Proof. destruct m as [a|e]; unfold mbind, result_bind; [eauto | discriminate]. Qed.

Lemma M_bind_Ok {S A B} (m : M S A) (f : A -> M S B) s b s' :
  (m ≫= f) s = Ok (b, s') -> exists a s1, m s = Ok (a, s1) /\ f a s1 = Ok (b, s').
Proof. unfold mbind, M_bind. destruct (m s) as [[a s1]|e]; [eauto | discriminate]. Qed.

(** ** Machine integers

    An [n]-bit unsigned value is a [Z] in [0, 2^n), a signed one a [Z] in
    [-2^(n-1), 2^(n-1)).  [uwrap] and [swrap] are the conversions to the two types. *)

Definition uwrap (n z : Z) : Z := z mod 2 ^ n.
Definition swrap (n z : Z) : Z := (z + 2 ^ (n - 1)) mod 2 ^ n - 2 ^ (n - 1).

Definition uint8 := uwrap 8.
Definition uint16 := uwrap 16.
Definition uint32 := uwrap 32.
Definition uint64 := uwrap 64.
Definition int8 := swrap 8.
Definition int16 := swrap 16.
Definition int32 := swrap 32.
Definition int64 := swrap 64.

Create HintDb wrap discriminated.

Section Wrap.
Context (n : Z) (Hn : 0 < n).
#[local] Set Default Proof Using "All".

Lemma pow2_pos : 0 < 2 ^ n.
Proof. apply Z.pow_pos_nonneg; lia. Qed.

Lemma pow2_half : 2 ^ n = 2 * 2 ^ (n - 1).
Proof. rewrite <- Z.pow_succ_r by lia. f_equal; lia. Qed.

Lemma uwrap_bound z : 0 <= uwrap n z < 2 ^ n.
Proof. apply Z.mod_pos_bound, pow2_pos. Qed.

Lemma swrap_bound z : - 2 ^ (n - 1) <= swrap n z < 2 ^ (n - 1).
Proof.
  unfold swrap. pose proof pow2_half.
  pose proof (Z.mod_pos_bound (z + 2 ^ (n - 1)) (2 ^ n) pow2_pos). lia.
Qed.

Lemma uwrap_small z : 0 <= z < 2 ^ n -> uwrap n z = z.
Proof. apply Z.mod_small. Qed.

Lemma swrap_small z : - 2 ^ (n - 1) <= z < 2 ^ (n - 1) -> swrap n z = z.
Proof. intros. unfold swrap. pose proof pow2_half. rewrite Z.mod_small; lia. Qed.

Lemma uwrap_spec z : exists k, uwrap n z = z + k * 2 ^ n.
Proof.
  exists (- (z / 2 ^ n)). unfold uwrap.
  pose proof (Z.div_mod z (2 ^ n)) as E. pose proof pow2_pos. lia.
Qed.

Lemma swrap_spec z : exists k, swrap n z = z + k * 2 ^ n.
Proof.
  destruct (uwrap_spec (z + 2 ^ (n - 1))) as [k Hk].
  exists k. unfold swrap, uwrap in *. lia.
Qed.

Lemma uwrap_plus_mul z k : uwrap n (z + k * 2 ^ n) = uwrap n z.
Proof. apply Z.mod_add. pose proof pow2_pos; lia. Qed.

Lemma swrap_plus_mul z k : swrap n (z + k * 2 ^ n) = swrap n z.
Proof.
  unfold swrap. rewrite <- Z.add_assoc, (Z.add_comm (k * _)), Z.add_assoc.
  rewrite Z.mod_add; [done | pose proof pow2_pos; lia].
Qed.

Lemma uwrap_idem z : uwrap n (uwrap n z) = uwrap n z.
Proof. apply uwrap_small, uwrap_bound. Qed.

Lemma uwrap_swrap z : uwrap n (swrap n z) = uwrap n z.
Proof. destruct (swrap_spec z) as [k ->]. apply uwrap_plus_mul. Qed.

Lemma swrap_uwrap z : swrap n (uwrap n z) = swrap n z.
Proof. destruct (uwrap_spec z) as [k ->]. apply swrap_plus_mul. Qed.

Lemma swrap_idem z : swrap n (swrap n z) = swrap n z.
Proof. apply swrap_small, swrap_bound. Qed.

Lemma uwrap_add_l a b : uwrap n (uwrap n a + b) = uwrap n (a + b).
Proof.
  destruct (uwrap_spec a) as [k ->].
  replace (a + k * 2 ^ n + b) with (a + b + k * 2 ^ n) by lia. apply uwrap_plus_mul.
Qed.

Lemma uwrap_add_r a b : uwrap n (a + uwrap n b) = uwrap n (a + b).
Proof. rewrite Z.add_comm, uwrap_add_l. f_equal; lia. Qed.

Lemma uwrap_sub_l a b : uwrap n (uwrap n a - b) = uwrap n (a - b).
Proof. apply (uwrap_add_l a (- b)). Qed.

Lemma uwrap_sub_r a b : uwrap n (a - uwrap n b) = uwrap n (a - b).
Proof.
  destruct (uwrap_spec b) as [k ->].
  replace (a - (b + k * 2 ^ n)) with (a - b + (- k) * 2 ^ n) by lia. apply uwrap_plus_mul.
Qed.

Lemma uwrap_mul_l a b : uwrap n (uwrap n a * b) = uwrap n (a * b).
Proof.
  destruct (uwrap_spec a) as [k ->].
  replace ((a + k * 2 ^ n) * b) with (a * b + (k * b) * 2 ^ n) by lia. apply uwrap_plus_mul.
Qed.

Lemma uwrap_mul_r a b : uwrap n (a * uwrap n b) = uwrap n (a * b).
Proof. rewrite Z.mul_comm, uwrap_mul_l. f_equal; lia. Qed.

Lemma uwrap_eq_swrap a b : uwrap n a = uwrap n b -> swrap n a = swrap n b.
Proof. intros E. rewrite <- swrap_uwrap, E, swrap_uwrap. done. Qed.

Lemma uwrap_land z : uwrap n z = Z.land z (Z.ones n).
Proof. unfold uwrap. rewrite Z.land_ones by lia. done. Qed.

Lemma testbit_uwrap z i : 0 <= i -> Z.testbit (uwrap n z) i = (i <? n) && Z.testbit z i.
Proof.
  intros Hi. unfold uwrap. destruct (Z.ltb_spec i n).
  - rewrite Z.mod_pow2_bits_low by lia. done.
  - rewrite Z.mod_pow2_bits_high by lia. done.
Qed.

(** Signed and unsigned readings of the same word. *)
Lemma swrap_of_unsigned z : 0 <= z < 2 ^ n ->
  swrap n z = if z <? 2 ^ (n - 1) then z else z - 2 ^ n.
Proof.
  intros Hz. pose proof pow2_half. destruct (Z.ltb_spec z (2 ^ (n - 1))).
  - apply swrap_small. lia.
  - rewrite <- (swrap_small (z - 2 ^ n)) by lia.
    replace (z - 2 ^ n) with (z + (- 1) * 2 ^ n) by lia. by rewrite swrap_plus_mul.
Qed.
End Wrap.

Lemma uwrap_uwrap_le m n z : 0 < m <= n -> uwrap m (uwrap n z) = uwrap m z.
Proof.
  intros. destruct (uwrap_spec n ltac:(lia) z) as [k ->].
  replace n with (m + (n - m)) by lia. rewrite Z.pow_add_r by lia.
  replace (z + k * (2 ^ m * 2 ^ (n - m))) with (z + (k * 2 ^ (n - m)) * 2 ^ m) by lia.
  apply uwrap_plus_mul; lia.
Qed.

Lemma swrap_uwrap_le m n z : 0 < m <= n -> swrap m (uwrap n z) = swrap m z.
Proof.
  intros. apply uwrap_eq_swrap; [lia|]. by apply uwrap_uwrap_le.
Qed.

#[export] Hint Resolve uwrap_bound swrap_bound : wrap.

(** ** Bit fields

    Instruction words are built by [or]-ing disjoint shifted fields and read back by
    shifting and masking.  Reading distributes over the [or], and a shifted field is
    seen entirely or not at all, which the tactic [fields] uses to evaluate any read
    of a word assembled from parts of known width. *)

Lemma field_lor a b s m : ((a .| b) >> s) .& m = ((a >> s) .& m) .| ((b >> s) .& m).
Proof. by rewrite Z.shiftr_lor, Z.land_lor_distr_l. Qed.

Lemma field_same v k m p :
  0 <= k -> m = p - 1 -> p = 2 ^ Z.log2 p -> 0 <= v < p -> ((v << k) >> k) .& m = v.
Proof.
  intros Hk -> Hp Hv. rewrite Z.shiftr_shiftl_l, Z.sub_diag, Z.shiftl_0_r by lia.
  replace (p - 1) with (Z.ones (Z.log2 p)) by (rewrite Z.ones_equiv; lia).
  rewrite Z.land_ones by apply Z.log2_nonneg. rewrite <- Hp. by apply Z.mod_small.
Qed.

Lemma field_below v k s m p :
  0 <= k <= s -> 2 ^ (s - k) = p -> 0 <= v < p -> ((v << k) >> s) .& m = 0.
Proof.
  intros Hk <- Hv. rewrite Z.shiftr_shiftl_r, Z.shiftr_div_pow2, Z.div_small by lia.
  apply Z.land_0_l.
Qed.

Lemma field_above v k s m p :
  0 <= s <= k -> m = p - 1 -> p = 2 ^ Z.log2 p -> Z.log2 p <= k - s ->
  ((v << k) >> s) .& m = 0.
Proof.
  intros Hs -> Hp Hk. rewrite Z.shiftr_shiftl_l by lia.
  replace (p - 1) with (Z.ones (Z.log2 p)) by (rewrite Z.ones_equiv; lia).
  rewrite Z.land_ones, Z.shiftl_mul_pow2 by (try apply Z.log2_nonneg; lia).
  replace (k - s) with (k - s - Z.log2 p + Z.log2 p) by lia.
  rewrite Z.pow_add_r, Z.mul_assoc by (try apply Z.log2_nonneg; lia).
  apply Z.mod_mul. rewrite <- Hp. intros ->. simpl in Hp. lia.
Qed.

Lemma field_inside v k s m :
  0 <= k <= s -> ((v << k) >> s) .& m = (v >> (s - k)) .& m.
Proof. intros. by rewrite Z.shiftr_shiftl_r by lia. Qed.

Lemma land_mask_bound x m p :
  m = p - 1 -> p = 2 ^ Z.log2 p -> 0 <= x .& m < p.
Proof.
  intros -> Hp. replace (p - 1) with (Z.ones (Z.log2 p)) by (rewrite Z.ones_equiv; lia).
  rewrite Z.land_ones by apply Z.log2_nonneg. rewrite <- Hp. apply Z.mod_pos_bound.
  rewrite Hp. apply Z.pow_pos_nonneg; [lia | apply Z.log2_nonneg].
Qed.

Lemma field_zero s m : (0 >> s) .& m = 0.
Proof. by rewrite Z.shiftr_0_l, Z.land_0_l. Qed.

Ltac is_Z_literal t :=
  lazymatch t with
  | Z0 => idtac
  | Zpos ?p => is_pos_literal p
  | Zneg ?p => is_pos_literal p
  end
with is_pos_literal p :=
  lazymatch p with
  | xH => idtac
  | xO ?q => is_pos_literal q
  | xI ?q => is_pos_literal q
  end.


Ltac field_side :=
  first
    [ lia
    | reflexivity
    | match goal with
      | |- 0 <= ?x .& ?m < ?q =>
          let p := eval vm_compute in (m + 1) in
          pose proof (land_mask_bound x m p eq_refl eq_refl); lia
      end ].

Ltac field_step :=
  match goal with
  | |- context [((?a .| ?b) >> ?s) .& ?m] => rewrite (field_lor a b s m)
  | |- context [(0 >> ?s) .& ?m] => rewrite (field_zero s m)
  | |- context [((?v << ?k) >> ?s) .& ?m] =>
      is_Z_literal k; is_Z_literal s; is_Z_literal m;
      let p := eval vm_compute in (m + 1) in
      let q := eval vm_compute in (2 ^ (s - k)) in
      first
        [ rewrite (field_same v k m p) by field_side
        | rewrite (field_below v k s m q) by field_side
        | rewrite (field_above v k s m p) by (first [lia | reflexivity | vm_compute; discriminate]) ]
  | |- context [0 .| ?x] => rewrite (Z.lor_0_l x)
  | |- context [?x .| 0] => rewrite (Z.lor_0_r x)
  | |- context [0 << ?k] => rewrite (Z.shiftl_0_l k)
  end.

Ltac fields := repeat field_step.

Example fields_demo r i : 0 <= r < 32 -> 0 <= i < 4096 ->
  (((i << 20) .| (r << 15) .| (3 << 12)) >> 15) .& 31 = r.
Proof. intros. fields. done. Qed.

(** ** The build configuration

    The sources are compiled once per target ([XLEN] is 32 or 64) and per mode: in a
    [DEBUG] build a failed [ASSERT] ends the process, in a release build it is not
    evaluated.  Both choices are parameters of every definition that depends on them. *)

Class Target := { TARGET_64 : bool; DEBUG : bool }.

Definition ASSERT `{Target} (b : bool) : result unit :=
  if DEBUG && negb b then Err AssertFailure else Ok tt.

Lemma ASSERT_true `{Target} b : b = true -> ASSERT b = Ok tt.
Proof. intros ->. unfold ASSERT. by rewrite andb_false_r. Qed.

Lemma ASSERT_bind `{Target} {A} b (k : unit -> result A) :
  b = true -> (ASSERT b ≫= k) = k tt.
Proof. intros Hb. by rewrite ASSERT_true by done. Qed.

Lemma ASSERT_fails `{Target} b : DEBUG = true -> b = false -> ASSERT b = Err AssertFailure.
Proof. unfold ASSERT. by intros -> ->. Qed.

Lemma ASSERT_release `{Target} b : DEBUG = false -> ASSERT b = Ok tt.
Proof. unfold ASSERT. by intros ->. Qed.

(** Turn the boolean tests of the code into propositions. *)
Ltac to_prop :=
  repeat match goal with
  | H : _ && _ = true |- _ => apply andb_true_iff in H; destruct H
  | H : _ || _ = false |- _ => apply orb_false_iff in H; destruct H
  | H : negb _ = true |- _ => apply negb_true_iff in H
  | H : negb _ = false |- _ => apply negb_false_iff in H
  | H : (_ =? _) = true |- _ => apply Z.eqb_eq in H
  | H : (_ =? _) = false |- _ => apply Z.eqb_neq in H
  | H : (_ <=? _) = true |- _ => apply Z.leb_le in H
  | H : (_ <=? _) = false |- _ => apply Z.leb_gt in H
  | H : (_ <? _) = true |- _ => apply Z.ltb_lt in H
  | H : (_ <? _) = false |- _ => apply Z.ltb_ge in H
  end.
