(* ===== verification/Utils.v ===== *)
(** * Integer helpers of the platform library

    Models the templates of [src/runtime/platform/utils.h] that the assembler and the
    simulator use.  A C++ integer type is described by its width and signedness. *)
From S2P Require Import Prelude.

(** A fixed-width C++ integer type. *)
Record ctype := CType { bits_of : Z; is_signed : bool }.

Definition int8_t := CType 8 true.
Definition int16_t := CType 16 true.
Definition int32_t := CType 32 true.
Definition int64_t := CType 64 true.
Definition uint8_t := CType 8 false.
Definition uint16_t := CType 16 false.
Definition uint32_t := CType 32 false.
Definition uint64_t := CType 64 false.

(** Conversion of a value to a type, and [sizeof]. *)
Definition cast (T : ctype) (z : Z) : Z :=
  if is_signed T then swrap (bits_of T) z else uwrap (bits_of T) z.
Definition sizeof (T : ctype) : Z := bits_of T / 8.

Section Utils.
Context `{Target}.

(** The host's [intptr_t].  Every build has a host word as wide as the target's: the
    simulator for the 32-bit target is built as a 32-bit program. *)
Definition intptr_t : ctype := if TARGET_64 then int64_t else int32_t.

Definition IsPowerOfTwo (x : Z) : bool := ((x .& (x - 1)) =? 0) && negb (x =? 0).

(** [n] is a power of two at every call. *)
Definition IsAligned (x n : Z) : bool := (x .& (n - 1)) =? 0.

Definition RoundDown (x n : Z) : result Z :=
  _ ← ASSERT (IsPowerOfTwo n); Ok (x .& - n).

Definition RoundUp (x n : Z) : result Z := RoundDown (x + n - 1) n.

(** [IsInt] and [IsUint] for a value of type [T]; [N >= 1]. *)
Definition IsInt (T : ctype) (N value : Z) : bool :=
  let value_size_in_bits := bits_of T in
  let in_limits :=
    let limit := cast T (1 << (N - 1)) in
    (cast T (- limit) <=? value) && (value <? limit) in
  if is_signed T then
    if value_size_in_bits <=? N then true else in_limits
  else
    if value_size_in_bits <? N then true
    else if N =? value_size_in_bits then 0 <=? swrap value_size_in_bits value
    else in_limits.

Definition IsUint (T : ctype) (N value : Z) : bool :=
  let value_size_in_bits := bits_of T in
  let in_limit :=
    let limit := cast T (cast T (1 << N) - 1) in value <=? limit in
  if is_signed T then
    if value <? 0 then false
    else if value_size_in_bits - 1 <=? N then true else in_limit
  else
    if value_size_in_bits <=? N then true else in_limit.

Definition Low32Bits (value : Z) : Z := int32 value.
Definition High32Bits (value : Z) : Z := int32 (value >> 32).
Definition LowHighTo64Bits (low high : Z) : Z :=
  int64 ((uint64 high << 32) .| (low .& 0x0ffffffff)).
End Utils.

Lemma intptr_t_width `{Target} : exists b, 32 <= b /\ intptr_t = CType b true.
Proof. unfold intptr_t. destruct TARGET_64; [exists 64 | exists 32]; done. Qed.

Lemma IsInt_spec `{Target} N v : 1 <= N < 32 ->
  IsInt intptr_t N v = true <-> - 2 ^ (N - 1) <= v < 2 ^ (N - 1).
Proof.
  intros HN. unfold IsInt.
  assert (2 ^ (N - 1) <= 2 ^ 30) by (apply Z.pow_le_mono_r; lia).
  assert (0 < 2 ^ (N - 1)) by (apply Z.pow_pos_nonneg; lia).
  destruct intptr_t_width as (b & Hb & ->). cbn [is_signed bits_of cast].
  assert (2 ^ 30 < 2 ^ (b - 1)) by (apply Z.pow_lt_mono_r; lia).
  rewrite (proj2 (Z.leb_gt b N)) by lia. unfold cast. cbn [is_signed bits_of].
  rewrite Z.shiftl_1_l, (swrap_small b ltac:(lia) (2 ^ (N - 1))) by lia.
  rewrite (swrap_small b) by lia. rewrite andb_true_iff, Z.leb_le, Z.ltb_lt. done.
Qed.

Lemma IsUint_spec `{Target} N v : 1 <= N < 31 ->
  IsUint intptr_t N v = true <-> 0 <= v < 2 ^ N.
Proof.
  intros HN. unfold IsUint.
  assert (2 ^ N <= 2 ^ 30) by (apply Z.pow_le_mono_r; lia).
  assert (0 < 2 ^ N) by (apply Z.pow_pos_nonneg; lia).
  destruct intptr_t_width as (b & Hb & ->). cbn [is_signed bits_of cast].
  assert (2 ^ 30 < 2 ^ (b - 1)) by (apply Z.pow_lt_mono_r; lia).
  rewrite (proj2 (Z.leb_gt (b - 1) N)) by lia. unfold cast. cbn [is_signed bits_of].
  rewrite Z.shiftl_1_l, (swrap_small b ltac:(lia) (2 ^ N)) by lia.
  rewrite (swrap_small b) by lia. destruct (Z.ltb_spec v 0); [lia|].
  rewrite Z.leb_le. lia.
Qed.

Lemma IsAligned_spec v k : 0 <= k -> IsAligned v (2 ^ k) = true <-> v mod 2 ^ k = 0.
Proof.
  intros Hk. unfold IsAligned.
  replace (2 ^ k - 1) with (Z.ones k) by (rewrite Z.ones_equiv; lia).
  rewrite Z.land_ones by lia. apply Z.eqb_eq.
Qed.

Lemma IsPowerOfTwo_pow2 k : 0 <= k -> IsPowerOfTwo (2 ^ k) = true.
Proof.
  intros Hk. unfold IsPowerOfTwo. assert (0 < 2 ^ k) by (apply Z.pow_pos_nonneg; lia).
  replace (2 ^ k - 1) with (Z.ones k) by (rewrite Z.ones_equiv; lia).
  rewrite Z.land_ones, Z.mod_same by lia. cbn. apply negb_true_iff, Z.eqb_neq. lia.
Qed.

(** [RoundDown] gives the greatest multiple of [n] that is not above [x]. *)
Lemma RoundDown_spec `{Target} x k : 0 <= k -> RoundDown x (2 ^ k) = Ok (x - x mod 2 ^ k).
Proof.
  intros Hk. unfold RoundDown. rewrite ASSERT_bind by by apply IsPowerOfTwo_pow2.
  f_equal. assert (0 < 2 ^ k) by (apply Z.pow_pos_nonneg; lia).
  replace (- 2 ^ k) with (Z.lnot (Z.ones k)) by (rewrite Z.ones_equiv; unfold Z.lnot; lia).
  rewrite <- Z.ldiff_land, Z.ldiff_ones_r, Z.shiftr_div_pow2, Z.shiftl_mul_pow2 by lia.
  pose proof (Z.div_mod x (2 ^ k)). lia.
Qed.

Lemma cast_bound T z : 0 < bits_of T -> is_signed T = false -> 0 <= cast T z < 2 ^ bits_of T.
Proof. intros Hb Hs. unfold cast. rewrite Hs. by apply uwrap_bound. Qed.
