(* ===== verification/Constants.v ===== *)
(** * Registers, instruction fields and encodings

    Models [src/runtime/vm/constants_riscv.h]: the register and opcode enumerations,
    the register lists of the calling convention, the encoders and decoders of every
    instruction field, and the accessors of the classes [Instr] and [CInstr].

    A C++ enumeration is its integer type: an enumerator is a constant of type [Z], in
    a module that carries the enumeration's name where two enumerations share names.
    The encoders check their operand with [ASSERT], so they return a [result]. *)
From S2P Require Import Prelude Utils.

Abbreviation Register := Z (only parsing).
Abbreviation FRegister := Z (only parsing).

(** [enum Register]. *)
Definition ZR : Z := 0.
Definition RA : Z := 1.
Definition SP : Z := 2.
Definition GP : Z := 3.
Definition TP : Z := 4.
Definition T0 : Z := 5.
Definition T1 : Z := 6.
Definition T2 : Z := 7.
Definition FP : Z := 8.
Definition S1 : Z := 9.
Definition A0 : Z := 10.
Definition A1 : Z := 11.
Definition A2 : Z := 12.
Definition A3 : Z := 13.
Definition A4 : Z := 14.
Definition A5 : Z := 15.
Definition A6 : Z := 16.
Definition A7 : Z := 17.
Definition S2 : Z := 18.
Definition S3 : Z := 19.
Definition S4 : Z := 20.
Definition S5 : Z := 21.
Definition S6 : Z := 22.
Definition S7 : Z := 23.
Definition S8 : Z := 24.
Definition S9 : Z := 25.
Definition S10 : Z := 26.
Definition S11 : Z := 27.
Definition T3 : Z := 28.
Definition T4 : Z := 29.
Definition T5 : Z := 30.
Definition T6 : Z := 31.
Definition kNumberOfCpuRegisters : Z := 32.
Definition kNoRegister : Z := (-1).
Definition RA2 : Z := T0.
Definition S0 : Z := FP.

(** [enum FRegister]. *)
Definition FT0 : Z := 0.
Definition FT1 : Z := 1.
Definition FT2 : Z := 2.
Definition FT3 : Z := 3.
Definition FT4 : Z := 4.
Definition FT5 : Z := 5.
Definition FT6 : Z := 6.
Definition FT7 : Z := 7.
Definition FS0 : Z := 8.
Definition FS1 : Z := 9.
Definition FA0 : Z := 10.
Definition FA1 : Z := 11.
Definition FA2 : Z := 12.
Definition FA3 : Z := 13.
Definition FA4 : Z := 14.
Definition FA5 : Z := 15.
Definition FA6 : Z := 16.
Definition FA7 : Z := 17.
Definition FS2 : Z := 18.
Definition FS3 : Z := 19.
Definition FS4 : Z := 20.
Definition FS5 : Z := 21.
Definition FS6 : Z := 22.
Definition FS7 : Z := 23.
Definition FS8 : Z := 24.
Definition FS9 : Z := 25.
Definition FS10 : Z := 26.
Definition FS11 : Z := 27.
Definition FT8 : Z := 28.
Definition FT9 : Z := 29.
Definition FT10 : Z := 30.
Definition FT11 : Z := 31.
Definition kNumberOfFpuRegisters : Z := 32.
Definition kNoFpuRegister : Z := (-1).

(** [enum Condition]. *)
Module Condition.
Definition kNoCondition : Z := (-1).
Definition EQ : Z := 0.
Definition NE : Z := 1.
Definition CS : Z := 2.
Definition CC : Z := 3.
Definition MI : Z := 4.
Definition PL : Z := 5.
Definition VS : Z := 6.
Definition VC : Z := 7.
Definition HI : Z := 8.
Definition LS : Z := 9.
Definition GE : Z := 10.
Definition LT : Z := 11.
Definition GT : Z := 12.
Definition LE : Z := 13.
Definition AL : Z := 14.
Definition NV : Z := 15.
Definition kNumberOfConditions : Z := 16.
Definition EQUAL : Z := EQ.
Definition ZERO : Z := EQUAL.
Definition NOT_EQUAL : Z := NE.
Definition NOT_ZERO : Z := NOT_EQUAL.
Definition LESS : Z := LT.
Definition LESS_EQUAL : Z := LE.
Definition GREATER_EQUAL : Z := GE.
Definition GREATER : Z := GT.
Definition UNSIGNED_LESS : Z := CC.
Definition UNSIGNED_LESS_EQUAL : Z := LS.
Definition UNSIGNED_GREATER : Z := HI.
Definition UNSIGNED_GREATER_EQUAL : Z := CS.
Definition OVERFLOW : Z := VS.
Definition NO_OVERFLOW : Z := VC.
Definition kInvalidCondition : Z := 16.
End Condition.

(** [enum Opcode]. *)
Module Opcode.
Definition LUI : Z := 55.
Definition AUIPC : Z := 23.
Definition JAL : Z := 111.
Definition JALR : Z := 103.
Definition BRANCH : Z := 99.
Definition LOAD : Z := 3.
Definition STORE : Z := 35.
Definition OPIMM : Z := 19.
Definition OP : Z := 51.
Definition MISCMEM : Z := 15.
Definition SYSTEM : Z := 115.
Definition OP32 : Z := 59.
Definition OPIMM32 : Z := 27.
Definition AMO : Z := 47.
Definition LOADFP : Z := 7.
Definition STOREFP : Z := 39.
Definition FMADD : Z := 67.
Definition FMSUB : Z := 71.
Definition FNMSUB : Z := 75.
Definition FNMADD : Z := 79.
Definition OPFP : Z := 83.
End Opcode.

(** [enum Funct12]. *)
Module Funct12.
Definition ECALL : Z := 0.
Definition EBREAK : Z := 1.
End Funct12.

(** [enum Funct3]. *)
Module Funct3.
Definition F3_0 : Z := 0.
Definition F3_1 : Z := 1.
Definition BEQ : Z := 0.
Definition BNE : Z := 1.
Definition BLT : Z := 4.
Definition BGE : Z := 5.
Definition BLTU : Z := 6.
Definition BGEU : Z := 7.
Definition LB : Z := 0.
Definition LH : Z := 1.
Definition LW : Z := 2.
Definition LBU : Z := 4.
Definition LHU : Z := 5.
Definition LWU : Z := 6.
Definition LD : Z := 3.
Definition SB : Z := 0.
Definition SH : Z := 1.
Definition SW : Z := 2.
Definition SD : Z := 3.
Definition ADDI : Z := 0.
Definition SLLI : Z := 1.
Definition SLTI : Z := 2.
Definition SLTIU : Z := 3.
Definition XORI : Z := 4.
Definition SRI : Z := 5.
Definition ORI : Z := 6.
Definition ANDI : Z := 7.
Definition ADD : Z := 0.
Definition SLL : Z := 1.
Definition SLT : Z := 2.
Definition SLTU : Z := 3.
Definition XOR : Z := 4.
Definition SR : Z := 5.
Definition OR : Z := 6.
Definition AND : Z := 7.
Definition FENCE : Z := 0.
Definition FENCEI : Z := 1.
Definition CSRRW : Z := 1.
Definition CSRRS : Z := 2.
Definition CSRRC : Z := 3.
Definition CSRRWI : Z := 5.
Definition CSRRSI : Z := 6.
Definition CSRRCI : Z := 7.
Definition MUL : Z := 0.
Definition MULH : Z := 1.
Definition MULHSU : Z := 2.
Definition MULHU : Z := 3.
Definition DIV : Z := 4.
Definition DIVU : Z := 5.
Definition REM : Z := 6.
Definition REMU : Z := 7.
Definition MULW : Z := 0.
Definition DIVW : Z := 4.
Definition DIVUW : Z := 5.
Definition REMW : Z := 6.
Definition REMUW : Z := 7.
Definition WIDTH32 : Z := 2.
Definition WIDTH64 : Z := 3.
Definition S : Z := 2.
Definition D : Z := 3.
Definition J : Z := 0.
Definition JN : Z := 1.
Definition JX : Z := 2.
Definition MIN : Z := 0.
Definition MAX : Z := 1.
Definition FEQ : Z := 2.
Definition FLT : Z := 1.
Definition FLE : Z := 0.
End Funct3.

(** [enum Funct7]. *)
Module Funct7.
Definition F7_0 : Z := 0.
Definition SRA : Z := 32.
Definition SUB : Z := 32.
Definition MULDIV : Z := 1.
Definition FADDS : Z := 0.
Definition FSUBS : Z := 4.
Definition FMULS : Z := 8.
Definition FDIVS : Z := 12.
Definition FSQRTS : Z := 44.
Definition FSGNJS : Z := 16.
Definition FMINMAXS : Z := 20.
Definition FCMPS : Z := 80.
Definition FCLASSS : Z := 112.
Definition FCVTintS : Z := 96.
Definition FCVTSint : Z := 104.
Definition FMVXW : Z := 112.
Definition FMVWX : Z := 120.
Definition FADDD : Z := 1.
Definition FSUBD : Z := 5.
Definition FMULD : Z := 9.
Definition FDIVD : Z := 13.
Definition FSQRTD : Z := 45.
Definition FSGNJD : Z := 17.
Definition FMINMAXD : Z := 21.
Definition FCVTS : Z := 32.
Definition FCVTD : Z := 33.
Definition FCMPD : Z := 81.
Definition FCLASSD : Z := 113.
Definition FCVTintD : Z := 97.
Definition FCVTDint : Z := 105.
Definition FMVXD : Z := 113.
Definition FMVDX : Z := 121.
End Funct7.

(** [enum Funct5]. *)
Module Funct5.
Definition LR : Z := 2.
Definition SC : Z := 3.
Definition AMOSWAP : Z := 1.
Definition AMOADD : Z := 0.
Definition AMOXOR : Z := 4.
Definition AMOAND : Z := 12.
Definition AMOOR : Z := 8.
Definition AMOMIN : Z := 16.
Definition AMOMAX : Z := 20.
Definition AMOMINU : Z := 24.
Definition AMOMAXU : Z := 28.
End Funct5.

(** [enum Funct2]. *)
Module Funct2.
Definition F2_S : Z := 0.
Definition F2_D : Z := 1.
End Funct2.

(** [enum RoundingMode]. *)
Module RoundingMode.
Definition RNE : Z := 0.
Definition RTZ : Z := 1.
Definition RDN : Z := 2.
Definition RUP : Z := 3.
Definition RMM : Z := 4.
Definition DYN : Z := 7.
End RoundingMode.

(** [enum FcvtRs2]. *)
Module FcvtRs2.
Definition W : Z := 0.
Definition WU : Z := 1.
Definition L : Z := 2.
Definition LU : Z := 3.
End FcvtRs2.

(** [enum FClass]. *)
Module FClass.
Definition kFClassNegInfinity : Z := 1.
Definition kFClassNegNormal : Z := 2.
Definition kFClassNegSubnormal : Z := 4.
Definition kFClassNegZero : Z := 8.
Definition kFClassPosZero : Z := 16.
Definition kFClassPosSubnormal : Z := 32.
Definition kFClassPosNormal : Z := 64.
Definition kFClassPosInfinity : Z := 128.
Definition kFClassSignallingNan : Z := 256.
Definition kFClassQuietNan : Z := 512.
End FClass.

(** [enum HartEffects]. *)
Module HartEffects.
Definition kWrite : Z := 1.
Definition kRead : Z := 2.
Definition kOutput : Z := 4.
Definition kInput : Z := 8.
Definition kMemory : Z := kWrite .| kRead.
Definition kIO : Z := kOutput .| kInput.
Definition kAll : Z := kMemory .| kIO.
End HartEffects.

(** [enum COpcode]. *)
Module COpcode.
Definition C_OP_MASK : Z := 0xe003.
Definition C_ADDI4SPN : Z := 0x0.
Definition C_FLD : Z := 0x2000.
Definition C_LW : Z := 0x4000.
Definition C_FLW : Z := 0x6000.
Definition C_LD : Z := 0x6000.
Definition C_FSD : Z := 0xa000.
Definition C_SW : Z := 0xc000.
Definition C_FSW : Z := 0xe000.
Definition C_SD : Z := 0xe000.
Definition C_ADDI : Z := 0x1.
Definition C_JAL : Z := 0x2001.
Definition C_ADDIW : Z := 0x2001.
Definition C_LI : Z := 0x4001.
Definition C_ADDI16SP : Z := 0x6001.
Definition C_LUI : Z := 0x6001.
Definition C_MISCALU : Z := 0x8001.
Definition C_MISCALU_MASK : Z := 0xec03.
Definition C_SRLI : Z := 0x8001.
Definition C_SRAI : Z := 0x8401.
Definition C_ANDI : Z := 0x8801.
Definition C_RR : Z := 0x8c01.
Definition C_RR_MASK : Z := 0xfc63.
Definition C_SUB : Z := 0x8c01.
Definition C_XOR : Z := 0x8c21.
Definition C_OR : Z := 0x8c41.
Definition C_AND : Z := 0x8c61.
Definition C_SUBW : Z := 0x9c01.
Definition C_ADDW : Z := 0x9c21.
Definition C_J : Z := 0xa001.
Definition C_BEQZ : Z := 0xc001.
Definition C_BNEZ : Z := 0xe001.
Definition C_SLLI : Z := 0x2.
Definition C_FLDSP : Z := 0x2002.
Definition C_LWSP : Z := 0x4002.
Definition C_FLWSP : Z := 0x6002.
Definition C_LDSP : Z := 0x6002.
Definition C_JR : Z := 0x8002.
Definition C_MV : Z := 0x8002.
Definition C_JALR : Z := 0x9002.
Definition C_ADD : Z := 0x9002.
Definition C_FSDSP : Z := 0xa002.
Definition C_SWSP : Z := 0xc002.
Definition C_FSWSP : Z := 0xe002.
Definition C_SDSP : Z := 0xe002.
Definition C_NOP : Z := 0x1.
Definition C_EBREAK : Z := 0x9002.
End COpcode.

(** Register aliases. *)
Definition FTMP : Z := FT11.
Definition TMP : Z := A3.
Definition TMP2 : Z := A4.
Definition FAR_TMP : Z := S8.
Definition PP : Z := A5.
Definition DISPATCH_TABLE_REG : Z := S9.
Definition CODE_REG : Z := A2.
Definition FPREG : Z := FP.
Definition SPREG : Z := SP.
Definition IC_DATA_REG : Z := S5.
Definition ARGS_DESC_REG : Z := S4.
Definition THR : Z := S1.
Definition CALLEE_SAVED_TEMP : Z := S8.
Definition CALLEE_SAVED_TEMP2 : Z := S7.
Definition WRITE_BARRIER_MASK : Z := S11.
Definition NULL_REG : Z := S10.
Definition kFpuRegisterSize : Z := 8.

(** [#define R(REG) (1 << REG)] and the register lists. *)
Definition R (reg : Z) : Z := 1 << reg.
Definition kAllCpuRegistersList : Z := 0xFFFFFFFF.
Definition kAbiArgumentCpuRegs : Z :=
  R A0 .| R A1 .| R A2 .| R A3 .| R A4 .| R A5 .| R A6 .| R A7.
Definition kAbiVolatileCpuRegs : Z :=
  kAbiArgumentCpuRegs .| R T0 .| R T1 .| R T2 .| R T3 .| R T4 .| R T5 .| R T6.
Definition kAbiPreservedCpuRegs : Z :=
  R S1 .| R S2 .| R S3 .| R S4 .| R S5 .| R S6 .| R S7 .| R S8 .| R S9 .| R S10 .| R S11.
Definition kReservedCpuRegisters : Z :=
  R ZR .| R TP .| R GP .| R SP .| R FP .| R TMP .| R TMP2 .| R PP .| R THR .|
  R RA .| R WRITE_BARRIER_MASK .| R NULL_REG .| R DISPATCH_TABLE_REG .| R FAR_TMP.
Definition kNumberOfReservedCpuRegisters : Z := 14.
Definition kDartAvailableCpuRegs : Z := Z.ldiff kAllCpuRegistersList kReservedCpuRegisters.
Definition kNumberOfDartAvailableCpuRegs : Z := 18.
Definition kDartVolatileCpuRegs : Z := Z.ldiff kDartAvailableCpuRegs kAbiPreservedCpuRegs.
Definition kAbiArgumentFpuRegs : Z :=
  R FA0 .| R FA1 .| R FA2 .| R FA3 .| R FA4 .| R FA5 .| R FA6 .| R FA7.
Definition kAbiVolatileFpuRegs : Z :=
  kAbiArgumentFpuRegs .| R FT0 .| R FT1 .| R FT2 .| R FT3 .| R FT4 .| R FT5 .|
  R FT6 .| R FT7 .| R FT8 .| R FT9 .| R FT10 .| R FT11.
Definition kAbiPreservedFpuRegs : Z :=
  R FS0 .| R FS1 .| R FS2 .| R FS3 .| R FS4 .| R FS5 .| R FS6 .| R FS7 .| R FS8 .|
  R FS9 .| R FS10 .| R FS11.
Definition kAbiPreservedCpuRegCount : Z := 11.
Definition kAbiPreservedFpuRegCount : Z := 12.

Section Width.
Context `{Target}.

(** [XLEN], [uintx_t], [intx_t] and their limits. *)
Definition XLEN : Z := if TARGET_64 then 64 else 32.
Definition uintx (z : Z) : Z := uwrap XLEN z.
Definition intx (z : Z) : Z := swrap XLEN z.
Definition kMaxIntX : Z := 2 ^ (XLEN - 1) - 1.
Definition kMaxUIntX : Z := 2 ^ XLEN - 1.
Definition kMinIntX : Z := - 2 ^ (XLEN - 1).

Definition InvertCondition (c : Z) : result Z :=
  _ ← ASSERT (negb (c =? Condition.AL));
  _ ← ASSERT (negb (c =? Condition.kInvalidCondition));
  Ok (c .^ 1).

Definition SignExtend (N value : Z) : Z :=
  int32 (int32 value << (32 - N)) >> (32 - N).

(** The four overloads of [sign_extend], by the argument's type. *)
Definition sign_extend_int32 (x : Z) : Z := intx x.
Definition sign_extend_int64 (x : Z) : Z := intx x.
Definition sign_extend_uint32 (x : Z) : Z := intx (int32 x).
Definition sign_extend_uint64 (x : Z) : Z := intx (int64 x).

Definition kReleaseShift : Z := 25.
Definition kAcquireShift : Z := 26.

(** [DEFINE_REG_ENCODING]. *)
Definition IsReg (r : Z) : bool := uint32 r <? 32.
Definition EncodeReg (shift r : Z) : result Z :=
  _ ← ASSERT (IsReg r); Ok (uint32 (uint32 r << shift)).
Definition DecodeReg (shift encoding : Z) : Z := (encoding >> shift) .& 31.

Definition EncodeRd := EncodeReg 7.
Definition DecodeRd := DecodeReg 7.
Definition EncodeRs1 := EncodeReg 15.
Definition DecodeRs1 := DecodeReg 15.
Definition EncodeRs2 := EncodeReg 20.
Definition DecodeRs2 := DecodeReg 20.
Definition EncodeFRd := EncodeReg 7.
Definition DecodeFRd := DecodeReg 7.
Definition EncodeFRs1 := EncodeReg 15.
Definition DecodeFRs1 := DecodeReg 15.
Definition EncodeFRs2 := EncodeReg 20.
Definition DecodeFRs2 := DecodeReg 20.
Definition EncodeFRs3 := EncodeReg 27.
Definition DecodeFRs3 := DecodeReg 27.

(** [DEFINE_FUNCT_ENCODING]. *)
Definition IsFunct (mask f : Z) : bool := (f .& mask) =? f.
Definition EncodeFunct (shift mask f : Z) : result Z :=
  _ ← ASSERT (IsFunct mask f); Ok (uint32 (f << shift)).
Definition DecodeFunct (shift mask encoding : Z) : Z := (encoding >> shift) .& mask.

Definition EncodeOpcode := EncodeFunct 0 0x7F.
Definition DecodeOpcode := DecodeFunct 0 0x7F.
Definition EncodeFunct2 := EncodeFunct 25 0x3.
Definition DecodeFunct2 := DecodeFunct 25 0x3.
Definition EncodeFunct3 := EncodeFunct 12 0x7.
Definition DecodeFunct3 := DecodeFunct 12 0x7.
Definition EncodeFunct5 := EncodeFunct 27 0x1F.
Definition DecodeFunct5 := DecodeFunct 27 0x1F.
Definition EncodeFunct7 := EncodeFunct 25 0x7F.
Definition DecodeFunct7 := DecodeFunct 25 0x7F.
Definition EncodeFunct12 := EncodeFunct 20 0xFFF.
Definition DecodeFunct12 := DecodeFunct 20 0xFFF.
Definition EncodeShamt := EncodeFunct 20 (if TARGET_64 then 0x3F else 0x1F).
Definition DecodeShamt := DecodeFunct 20 (if TARGET_64 then 0x3F else 0x1F).
Definition EncodeRoundingMode := EncodeFunct 12 0x7.
Definition DecodeRoundingMode := DecodeFunct 12 0x7.

(** *** Immediates of the 32-bit formats *)

Definition IsBTypeImm (imm : Z) : bool := IsInt intptr_t 12 imm && IsAligned imm 2.
Definition EncodeBTypeImm (imm : Z) : result Z :=
  _ ← ASSERT (IsBTypeImm imm);
  Ok ((((imm >> 12) .& 0x1) << 31) .|
      (((imm >> 5) .& 0x3f) << 25) .|
      (((imm >> 1) .& 0xf) << 8) .|
      (((imm >> 11) .& 0x1) << 7)).
Definition DecodeBTypeImm (encoded : Z) : Z :=
  SignExtend 12
    ((((encoded >> 31) .& 0x1) << 12) .|
     (((encoded >> 25) .& 0x3f) << 5) .|
     (((encoded >> 8) .& 0xf) << 1) .|
     (((encoded >> 7) .& 0x1) << 11)).

Definition IsJTypeImm (imm : Z) : bool := IsInt intptr_t 20 imm && IsAligned imm 2.
Definition EncodeJTypeImm (imm : Z) : result Z :=
  _ ← ASSERT (IsJTypeImm imm);
  Ok ((((imm >> 20) .& 0x1) << 31) .|
      (((imm >> 1) .& 0x3ff) << 21) .|
      (((imm >> 11) .& 0x1) << 20) .|
      (((imm >> 12) .& 0xff) << 12)).
Definition DecodeJTypeImm (encoded : Z) : Z :=
  SignExtend 20
    ((((encoded >> 31) .& 0x1) << 20) .|
     (((encoded >> 21) .& 0x3ff) << 1) .|
     (((encoded >> 20) .& 0x1) << 11) .|
     (((encoded >> 12) .& 0xff) << 12)).

Definition IsITypeImm (imm : Z) : bool := IsInt intptr_t 12 imm.
Definition EncodeITypeImm (imm : Z) : result Z :=
  _ ← ASSERT (IsITypeImm imm); Ok (uint32 (imm << 20)).
Definition DecodeITypeImm (encoded : Z) : Z := SignExtend 12 (encoded >> 20).

Definition IsUTypeImm (imm : Z) : bool := IsInt intptr_t 32 imm && IsAligned imm (1 << 12).
Definition EncodeUTypeImm (imm : Z) : result Z :=
  _ ← ASSERT (IsUTypeImm imm); Ok (uint32 imm).
Definition DecodeUTypeImm (encoded : Z) : Z :=
  SignExtend 32 (encoded .& uint32 (Z.lnot ((1 << 12) - 1))).

Definition IsSTypeImm (imm : Z) : bool := IsInt intptr_t 12 imm.
Definition EncodeSTypeImm (imm : Z) : result Z :=
  _ ← ASSERT (IsSTypeImm imm);
  Ok ((((imm >> 5) .& 0x7f) << 25) .|
      (((imm >> 0) .& 0x1f) << 7)).
Definition DecodeSTypeImm (encoded : Z) : Z :=
  SignExtend 12
    ((((encoded >> 25) .& 0x7f) << 5) .|
     (((encoded >> 7) .& 0x1f) << 0)).

Definition IsCInstruction (parcel : Z) : bool := negb ((parcel .& 3) =? 3).

(** *** [class Instr]: a 32-bit instruction is its encoding *)

Definition opcode (encoding_ : Z) : Z := DecodeOpcode encoding_.
Definition rd (encoding_ : Z) : Z := DecodeRd encoding_.
Definition rs1 (encoding_ : Z) : Z := DecodeRs1 encoding_.
Definition rs2 (encoding_ : Z) : Z := DecodeRs2 encoding_.
Definition frd (encoding_ : Z) : Z := DecodeFRd encoding_.
Definition frs1 (encoding_ : Z) : Z := DecodeFRs1 encoding_.
Definition frs2 (encoding_ : Z) : Z := DecodeFRs2 encoding_.
Definition frs3 (encoding_ : Z) : Z := DecodeFRs3 encoding_.
Definition funct2 (encoding_ : Z) : Z := DecodeFunct2 encoding_.
Definition funct3 (encoding_ : Z) : Z := DecodeFunct3 encoding_.
Definition funct5 (encoding_ : Z) : Z := DecodeFunct5 encoding_.
Definition funct7 (encoding_ : Z) : Z := DecodeFunct7 encoding_.
Definition funct12 (encoding_ : Z) : Z := DecodeFunct12 encoding_.
Definition shamt (encoding_ : Z) : Z := DecodeShamt encoding_.
Definition rounding (encoding_ : Z) : Z := DecodeRoundingMode encoding_.
Definition itype_imm (encoding_ : Z) : Z := DecodeITypeImm encoding_.
Definition stype_imm (encoding_ : Z) : Z := DecodeSTypeImm encoding_.
Definition btype_imm (encoding_ : Z) : Z := DecodeBTypeImm encoding_.
Definition utype_imm (encoding_ : Z) : Z := DecodeUTypeImm encoding_.
Definition jtype_imm (encoding_ : Z) : Z := DecodeJTypeImm encoding_.
Definition csr (encoding_ : Z) : Z := encoding_ >> 20.
Definition zimm (encoding_ : Z) : Z := rs1 encoding_.
Definition Instr_length : Z := 4.
Definition kSimulatorRedirectInstruction : Z := (Funct12.ECALL << 20) .| Opcode.SYSTEM.

Inductive memory_order :=
| memory_order_relaxed
| memory_order_consume
| memory_order_acquire
| memory_order_release
| memory_order_acq_rel
| memory_order_seq_cst.

Definition Instr_memory_order (encoding_ : Z) : memory_order :=
  let acquire := negb (((encoding_ >> kAcquireShift) .& 1) =? 0) in
  let release := negb (((encoding_ >> kReleaseShift) .& 1) =? 0) in
  if acquire && release then memory_order_acq_rel
  else if acquire then memory_order_acquire
  else if release then memory_order_release
  else memory_order_relaxed.

(** *** Registers of the compressed formats *)

Definition EncodeCRd := EncodeReg 7.
Definition DecodeCRd := DecodeReg 7.
Definition EncodeCRs1 := EncodeReg 7.
Definition DecodeCRs1 := DecodeReg 7.
Definition EncodeCRs2 := EncodeReg 2.
Definition DecodeCRs2 := DecodeReg 2.
Definition EncodeCFRd := EncodeReg 7.
Definition DecodeCFRd := DecodeReg 7.
Definition EncodeCFRs1 := EncodeReg 7.
Definition DecodeCFRs1 := DecodeReg 7.
Definition EncodeCFRs2 := EncodeReg 2.
Definition DecodeCFRs2 := DecodeReg 2.

(** [DEFINE_REG_PRIME_ENCODING]. *)
Definition IsRegPrime (r : Z) : bool := (8 <=? r) && (r <? 16).
Definition EncodeRegPrime (shift r : Z) : result Z :=
  _ ← ASSERT (IsRegPrime r); Ok ((uint32 r .& 7) << shift).
Definition DecodeRegPrime (shift encoding : Z) : Z := ((encoding >> shift) .& 7) + 8.

Definition IsCRdp := IsRegPrime.
Definition EncodeCRdp := EncodeRegPrime 2.
Definition DecodeCRdp := DecodeRegPrime 2.
Definition IsCRs1p := IsRegPrime.
Definition EncodeCRs1p := EncodeRegPrime 7.
Definition DecodeCRs1p := DecodeRegPrime 7.
Definition IsCRs2p := IsRegPrime.
Definition EncodeCRs2p := EncodeRegPrime 2.
Definition DecodeCRs2p := DecodeRegPrime 2.
Definition IsCFRdp := IsRegPrime.
Definition EncodeCFRdp := EncodeRegPrime 2.
Definition DecodeCFRdp := DecodeRegPrime 2.
Definition IsCFRs1p := IsRegPrime.
Definition EncodeCFRs1p := EncodeRegPrime 7.
Definition DecodeCFRs1p := DecodeRegPrime 7.
Definition IsCFRs2p := IsRegPrime.
Definition EncodeCFRs2p := EncodeRegPrime 2.
Definition DecodeCFRs2p := DecodeRegPrime 2.

(** *** Immediates of the compressed formats *)

Definition IsCSPLoad4Imm (imm : Z) : bool :=
  IsUint intptr_t 8 imm && IsAligned imm 4.
Definition EncodeCSPLoad4Imm (imm : Z) : result Z :=
  _ ← ASSERT (IsCSPLoad4Imm imm);
  Ok ((((imm >> 5) .& 0x1) << 12) .|
      (((imm >> 2) .& 0x7) << 4) .|
      (((imm >> 6) .& 0x3) << 2)).
Definition DecodeCSPLoad4Imm (encoding : Z) : Z :=
    ((((encoding >> 12) .& 0x1) << 5) .|
     (((encoding >> 4) .& 0x7) << 2) .|
     (((encoding >> 2) .& 0x3) << 6)).

Definition IsCSPLoad8Imm (imm : Z) : bool :=
  IsUint intptr_t 9 imm && IsAligned imm 8.
Definition EncodeCSPLoad8Imm (imm : Z) : result Z :=
  _ ← ASSERT (IsCSPLoad8Imm imm);
  Ok ((((imm >> 5) .& 0x1) << 12) .|
      (((imm >> 3) .& 0x3) << 5) .|
      (((imm >> 6) .& 0x7) << 2)).
Definition DecodeCSPLoad8Imm (encoding : Z) : Z :=
    ((((encoding >> 12) .& 0x1) << 5) .|
     (((encoding >> 5) .& 0x3) << 3) .|
     (((encoding >> 2) .& 0x7) << 6)).

Definition IsCSPStore4Imm (imm : Z) : bool :=
  IsUint intptr_t 8 imm && IsAligned imm 4.
Definition EncodeCSPStore4Imm (imm : Z) : result Z :=
  _ ← ASSERT (IsCSPStore4Imm imm);
  Ok ((((imm >> 2) .& 0xF) << 9) .|
      (((imm >> 6) .& 0x3) << 7)).
Definition DecodeCSPStore4Imm (encoding : Z) : Z :=
    ((((encoding >> 9) .& 0xF) << 2) .|
     (((encoding >> 7) .& 0x3) << 6)).

Definition IsCSPStore8Imm (imm : Z) : bool :=
  IsUint intptr_t 9 imm && IsAligned imm 8.
Definition EncodeCSPStore8Imm (imm : Z) : result Z :=
  _ ← ASSERT (IsCSPStore8Imm imm);
  Ok ((((imm >> 3) .& 0x7) << 10) .|
      (((imm >> 6) .& 0x7) << 7)).
Definition DecodeCSPStore8Imm (encoding : Z) : Z :=
    ((((encoding >> 10) .& 0x7) << 3) .|
     (((encoding >> 7) .& 0x7) << 6)).

Definition IsCMem4Imm (imm : Z) : bool :=
  IsUint intptr_t 7 imm && IsAligned imm 4.
Definition EncodeCMem4Imm (imm : Z) : result Z :=
  _ ← ASSERT (IsCMem4Imm imm);
  Ok ((((imm >> 3) .& 0x7) << 10) .|
      (((imm >> 2) .& 0x1) << 6) .|
      (((imm >> 6) .& 0x1) << 5)).
Definition DecodeCMem4Imm (encoding : Z) : Z :=
    ((((encoding >> 10) .& 0x7) << 3) .|
     (((encoding >> 6) .& 0x1) << 2) .|
     (((encoding >> 5) .& 0x1) << 6)).

Definition IsCMem8Imm (imm : Z) : bool :=
  IsUint intptr_t 8 imm && IsAligned imm 8.
Definition EncodeCMem8Imm (imm : Z) : result Z :=
  _ ← ASSERT (IsCMem8Imm imm);
  Ok ((((imm >> 3) .& 0x7) << 10) .|
      (((imm >> 6) .& 0x3) << 5)).
Definition DecodeCMem8Imm (encoding : Z) : Z :=
    ((((encoding >> 10) .& 0x7) << 3) .|
     (((encoding >> 5) .& 0x3) << 6)).

Definition IsCJImm (imm : Z) : bool :=
  IsInt intptr_t 11 imm && IsAligned imm 2.
Definition EncodeCJImm (imm : Z) : result Z :=
  _ ← ASSERT (IsCJImm imm);
  Ok ((((imm >> 11) .& 0x1) << 12) .|
      (((imm >> 4) .& 0x1) << 11) .|
      (((imm >> 8) .& 0x3) << 9) .|
      (((imm >> 10) .& 0x1) << 8) .|
      (((imm >> 6) .& 0x1) << 7) .|
      (((imm >> 7) .& 0x1) << 6) .|
      (((imm >> 1) .& 0x7) << 3) .|
      (((imm >> 5) .& 0x1) << 2)).
Definition DecodeCJImm (encoding : Z) : Z :=
  SignExtend 11
    ((((encoding >> 12) .& 0x1) << 11) .|
     (((encoding >> 11) .& 0x1) << 4) .|
     (((encoding >> 9) .& 0x3) << 8) .|
     (((encoding >> 8) .& 0x1) << 10) .|
     (((encoding >> 7) .& 0x1) << 6) .|
     (((encoding >> 6) .& 0x1) << 7) .|
     (((encoding >> 3) .& 0x7) << 1) .|
     (((encoding >> 2) .& 0x1) << 5)).

Definition IsCBImm (imm : Z) : bool :=
  IsInt intptr_t 8 imm && IsAligned imm 2.
Definition EncodeCBImm (imm : Z) : result Z :=
  _ ← ASSERT (IsCBImm imm);
  Ok ((((imm >> 8) .& 0x1) << 12) .|
      (((imm >> 3) .& 0x3) << 10) .|
      (((imm >> 6) .& 0x3) << 5) .|
      (((imm >> 1) .& 0x3) << 3) .|
      (((imm >> 5) .& 0x1) << 2)).
Definition DecodeCBImm (encoding : Z) : Z :=
  SignExtend 8
    ((((encoding >> 12) .& 0x1) << 8) .|
     (((encoding >> 10) .& 0x3) << 3) .|
     (((encoding >> 5) .& 0x3) << 6) .|
     (((encoding >> 3) .& 0x3) << 1) .|
     (((encoding >> 2) .& 0x1) << 5)).

Definition IsCIImm (imm : Z) : bool :=
  IsInt intptr_t 6 imm && IsAligned imm 1.
Definition EncodeCIImm (imm : Z) : result Z :=
  _ ← ASSERT (IsCIImm imm);
  Ok ((((imm >> 5) .& 0x1) << 12) .|
      (((imm >> 0) .& 0x1F) << 2)).
Definition DecodeCIImm (encoding : Z) : Z :=
  SignExtend 6
    ((((encoding >> 12) .& 0x1) << 5) .|
     (((encoding >> 2) .& 0x1F) << 0)).

Definition IsCUImm (imm : Z) : bool :=
  IsInt intptr_t 17 imm && IsAligned imm (1 << 12).
Definition EncodeCUImm (imm : Z) : result Z :=
  _ ← ASSERT (IsCUImm imm);
  Ok ((((imm >> 17) .& 0x1) << 12) .|
      (((imm >> 12) .& 0x1F) << 2)).
Definition DecodeCUImm (encoding : Z) : Z :=
  SignExtend 17
    ((((encoding >> 12) .& 0x1) << 17) .|
     (((encoding >> 2) .& 0x1F) << 12)).

Definition IsCI16Imm (imm : Z) : bool :=
  IsInt intptr_t 10 imm && IsAligned imm 16.
Definition EncodeCI16Imm (imm : Z) : result Z :=
  _ ← ASSERT (IsCI16Imm imm);
  Ok ((((imm >> 9) .& 0x1) << 12) .|
      (((imm >> 4) .& 0x1) << 6) .|
      (((imm >> 6) .& 0x1) << 5) .|
      (((imm >> 7) .& 0x3) << 3) .|
      (((imm >> 5) .& 0x1) << 2)).
Definition DecodeCI16Imm (encoding : Z) : Z :=
  SignExtend 10
    ((((encoding >> 12) .& 0x1) << 9) .|
     (((encoding >> 6) .& 0x1) << 4) .|
     (((encoding >> 5) .& 0x1) << 6) .|
     (((encoding >> 3) .& 0x3) << 7) .|
     (((encoding >> 2) .& 0x1) << 5)).

Definition IsCI4SPNImm (imm : Z) : bool :=
  IsUint intptr_t 9 imm && IsAligned imm 4.
Definition EncodeCI4SPNImm (imm : Z) : result Z :=
  _ ← ASSERT (IsCI4SPNImm imm);
  Ok ((((imm >> 4) .& 0x3) << 11) .|
      (((imm >> 6) .& 0xF) << 7) .|
      (((imm >> 2) .& 0x1) << 6) .|
      (((imm >> 3) .& 0x1) << 5)).
Definition DecodeCI4SPNImm (encoding : Z) : Z :=
    ((((encoding >> 11) .& 0x3) << 4) .|
     (((encoding >> 7) .& 0xF) << 6) .|
     (((encoding >> 6) .& 0x1) << 2) .|
     (((encoding >> 5) .& 0x1) << 3)).

(** *** [class CInstr]: a 16-bit instruction is its encoding *)

Definition c_opcode (encoding_ : Z) : Z := encoding_ .& COpcode.C_OP_MASK.
Definition c_rd (encoding_ : Z) : Z := DecodeCRd encoding_.
Definition c_rs1 (encoding_ : Z) : Z := DecodeCRd encoding_.
Definition c_rs2 (encoding_ : Z) : Z := DecodeCRs2 encoding_.
Definition c_rdp (encoding_ : Z) : Z := DecodeCRdp encoding_.
Definition c_rs1p (encoding_ : Z) : Z := DecodeCRs1p encoding_.
Definition c_rs2p (encoding_ : Z) : Z := DecodeCRs2p encoding_.
Definition c_frd (encoding_ : Z) : Z := DecodeCFRd encoding_.
Definition c_frs1 (encoding_ : Z) : Z := DecodeCFRd encoding_.
Definition c_frs2 (encoding_ : Z) : Z := DecodeCFRs2 encoding_.
Definition c_frdp (encoding_ : Z) : Z := DecodeCFRdp encoding_.
Definition c_frs1p (encoding_ : Z) : Z := DecodeCFRs1p encoding_.
Definition c_frs2p (encoding_ : Z) : Z := DecodeCFRs2p encoding_.
Definition c_spload4_imm (encoding_ : Z) : Z := DecodeCSPLoad4Imm encoding_.
Definition c_spload8_imm (encoding_ : Z) : Z := DecodeCSPLoad8Imm encoding_.
Definition c_spstore4_imm (encoding_ : Z) : Z := DecodeCSPStore4Imm encoding_.
Definition c_spstore8_imm (encoding_ : Z) : Z := DecodeCSPStore8Imm encoding_.
Definition c_mem4_imm (encoding_ : Z) : Z := DecodeCMem4Imm encoding_.
Definition c_mem8_imm (encoding_ : Z) : Z := DecodeCMem8Imm encoding_.
Definition c_j_imm (encoding_ : Z) : Z := DecodeCJImm encoding_.
Definition c_b_imm (encoding_ : Z) : Z := DecodeCBImm encoding_.
Definition c_i_imm (encoding_ : Z) : Z := DecodeCIImm encoding_.
Definition c_u_imm (encoding_ : Z) : Z := DecodeCUImm encoding_.
Definition c_i16_imm (encoding_ : Z) : Z := DecodeCI16Imm encoding_.
Definition c_i4spn_imm (encoding_ : Z) : Z := DecodeCI4SPNImm encoding_.
Definition CInstr_length : Z := 2.

(** *** Extension sets *)

Definition RV_I : Z := 0.
Definition RV_M : Z := 1.
Definition RV_A : Z := 2.
Definition RV_F : Z := 3.
Definition RV_D : Z := 4.
Definition RV_C : Z := 5.
Definition ExtensionSet_of (e : Z) : Z := uint32 (1 << e).
Definition ExtensionSet_Includes (encoding_ r : Z) : bool := negb ((encoding_ .& (1 << r)) =? 0).
Definition ExtensionSet_IncludesAll (encoding_ other : Z) : bool := (encoding_ .& other) =? other.
Definition ExtensionSet_or (encoding_ other : Z) : Z := encoding_ .| other.
Definition RV_G : Z :=
  ExtensionSet_or (ExtensionSet_or (ExtensionSet_or (ExtensionSet_or
    (ExtensionSet_of RV_I) (ExtensionSet_of RV_M)) (ExtensionSet_of RV_A))
    (ExtensionSet_of RV_F)) (ExtensionSet_of RV_D).
Definition RV_GC : Z := ExtensionSet_or RV_G (ExtensionSet_of RV_C).
End Width.
