(* ===== verification/EncodingFacts.v ===== *)
(** * Every field that is encoded is decoded back

    Facts about the encoders and decoders of [Constants]: sign extension, the round
    trip of each immediate format over the whole range its [Is...Imm] test admits, and
    the reads of a word that was assembled from several fields. *)
From S2P Require Import Prelude Utils Constants.

(** ** Sign extension *)

Lemma SignExtend_swrap N v : 0 < N <= 32 -> SignExtend N v = swrap N v.
Proof.
  intros HN. unfold SignExtend, int32.
  destruct (swrap_spec 32 eq_refl v) as [a ->].
  rewrite !Z.shiftl_mul_pow2, Z.shiftr_div_pow2, Z.mul_add_distr_r by lia.
  replace (v * 2 ^ (32 - N) + a * 2 ^ 32 * 2 ^ (32 - N))
    with (v * 2 ^ (32 - N) + a * 2 ^ (32 - N) * 2 ^ 32) by lia.
  rewrite swrap_plus_mul by lia. unfold swrap.
  assert (2 ^ 32 = 2 ^ (32 - N) * 2 ^ N) as -> by (rewrite <- Z.pow_add_r by lia; f_equal; lia).
  assert (2 ^ (32 - 1) = 2 ^ (32 - N) * 2 ^ (N - 1)) as ->
    by (rewrite <- Z.pow_add_r by lia; f_equal; lia).
  assert (0 < 2 ^ (32 - N)) by (apply Z.pow_pos_nonneg; lia).
  assert (0 < 2 ^ N) by (apply Z.pow_pos_nonneg; lia).
  replace (v * 2 ^ (32 - N) + 2 ^ (32 - N) * 2 ^ (N - 1))
    with (2 ^ (32 - N) * (v + 2 ^ (N - 1))) by lia.
  rewrite Z.mul_mod_distr_l, <- Z.mul_sub_distr_l, Z.mul_comm, Z.div_mul by lia. done.
Qed.

(** ** Slices of an immediate *)

Lemma testbit_slice x k m w i : m = Z.ones w -> 0 <= k -> 0 <= w -> 0 <= i ->
  Z.testbit (((x >> k) .& m) << k) i = (k <=? i) && (i <? k + w) && Z.testbit x i.
Proof.
  intros -> Hk Hw Hi. destruct (Z.leb_spec k i); cbn.
  - rewrite Z.shiftl_spec, Z.land_spec, Z.shiftr_spec by lia.
    replace (i - k + k) with i by lia. destruct (Z.ltb_spec i (k + w)); cbn.
    + rewrite Z.ones_spec_low by lia. apply andb_true_r.
    + rewrite Z.ones_spec_high by lia. apply andb_false_r.
  - apply Z.shiftl_spec_low. lia.
Qed.

Lemma swrap_of_bits N x v : 0 < N -> - 2 ^ (N - 1) <= v < 2 ^ (N - 1) ->
  (forall i, 0 <= i < N -> Z.testbit x i = Z.testbit v i) -> swrap N x = v.
Proof.
  intros HN Hv Hb. rewrite <- (swrap_small N HN v Hv). apply uwrap_eq_swrap; [done|].
  apply Z.bits_inj'. intros i Hi. rewrite !testbit_uwrap by done.
  destruct (Z.ltb_spec i N); [cbn; auto | done].
Qed.

Lemma bits_above N v i : 0 <= v < 2 ^ N -> 0 <= N <= i -> Z.testbit v i = false.
Proof.
  intros Hv Hi. destruct (decide (v = 0)) as [->|]; [apply Z.testbit_0_l|].
  apply Z.bits_above_log2; [lia|]. apply Z.log2_lt_pow2; [lia|].
  eapply Z.lt_le_trans; [apply Hv|]. apply Z.pow_le_mono_r; lia.
Qed.

Lemma eq_of_bits N x v : 0 <= N -> 0 <= v < 2 ^ N ->
  (forall i, 0 <= i < N -> Z.testbit x i = Z.testbit v i) ->
  (forall i, N <= i -> Z.testbit x i = false) -> x = v.
Proof.
  intros HN Hv Hlo Hhi. apply Z.bits_inj'. intros i Hi.
  destruct (Z.lt_ge_cases i N); [auto|]. rewrite Hhi by done.
  symmetry. by apply (bits_above N).
Qed.

Lemma aligned_bit v k i : IsAligned v (2 ^ k) = true -> 0 <= i < k -> Z.testbit v i = false.
Proof.
  intros Ha Hi. apply IsAligned_spec in Ha; [|lia].
  apply Z.div_exact in Ha; [|apply Z.pow_nonzero; lia]. rewrite Ha, Z.mul_comm.
  apply Z.mul_pow2_bits_low. lia.
Qed.

(** Split [0 <= i < n] into its [n] cases. *)
Ltac bit_cases i n :=
  lazymatch n with
  | 0 => lia
  | _ => let m := eval vm_compute in (n - 1) in
         destruct (decide (i = m)) as [->|]; [ | bit_cases i m ]
  end.

Ltac mask_width m := let w := eval vm_compute in (Z.log2 (m + 1)) in w.

Ltac slice_bits :=
  repeat match goal with
  | |- context [Z.testbit (_ .| _) _] => rewrite Z.lor_spec
  | |- context [Z.testbit (((?x >> ?k) .& ?m) << ?k) ?i] =>
      let w := mask_width m in rewrite (testbit_slice x k m w i) by (first [reflexivity | lia])
  end.

(** Close a goal on one bit below the immediate's width. *)
Ltac low_bit Ha k :=
  slice_bits;
  first
    [ match goal with
      | |- context [Z.testbit ?v ?i] =>
          rewrite (aligned_bit v k i Ha) by lia; reflexivity
      end
    | match goal with
      | |- context [Z.testbit ?v ?i] =>
          generalize (Z.testbit v i); intros []; reflexivity
      end ].

Ltac high_bit N Hi :=
  slice_bits;
  match goal with
  | |- context [Z.testbit ?v ?i] => rewrite (bits_above N v i Hi) by lia
  end;
  rewrite ?andb_false_r; done.

(** ** Ranges of the immediates *)

Section Ranges.
Context `{Target}.

Lemma IsITypeImm_spec imm : IsITypeImm imm = true <-> - 2 ^ 11 <= imm < 2 ^ 11.
Proof. by apply IsInt_spec. Qed.

Lemma IsSTypeImm_spec imm : IsSTypeImm imm = true <-> - 2 ^ 11 <= imm < 2 ^ 11.
Proof. by apply IsInt_spec. Qed.

Lemma IsCIImm_spec imm : IsCIImm imm = true <-> - 2 ^ 5 <= imm < 2 ^ 5.
Proof.
  unfold IsCIImm. change 1 with (2 ^ 0) at 1. rewrite andb_true_iff, IsInt_spec by lia.
  rewrite IsAligned_spec by lia. rewrite Z.mod_1_r. tauto.
Qed.

Lemma aligned_spec imm k p : 0 <= k -> p = 2 ^ k ->
  IsAligned imm p = true <-> imm mod p = 0.
Proof. intros Hk ->. by apply IsAligned_spec. Qed.

Lemma IsUTypeImm_ok imm : - 2 ^ 31 <= imm < 2 ^ 31 -> imm mod 4096 = 0 -> IsUTypeImm imm = true.
Proof.
  intros Hi Ha. unfold IsUTypeImm. apply andb_true_iff. split.
  - unfold IsInt, intptr_t. destruct TARGET_64; [|done]. apply andb_true_iff; split; [apply Z.leb_le | apply Z.ltb_lt]; apply Hi.
  - by apply (aligned_spec imm 12).
Qed.
End Ranges.

Section RoundTrip.
Context `{Target}.

Ltac open_encode Hi :=
  match goal with |- context [ASSERT ?b] => rewrite (ASSERT_bind b) by exact Hi end.

(** A signed immediate of [N] bits that is a multiple of [2^k]. *)
Ltac signed_roundtrip N k :=
  let Hi := fresh "Hi" in let Ha := fresh "Ha" in
  intros Hi; eexists; split; [open_encode Hi; reflexivity|];
  fields;
  apply andb_true_iff in Hi; destruct Hi as [Hi Ha]; apply IsInt_spec in Hi; [|lia];
  rewrite SignExtend_swrap by lia; apply swrap_of_bits; [lia | exact Hi |];
  let i := fresh "i" in intros i ?; bit_cases i N; low_bit Ha k.

Ltac unsigned_roundtrip N k :=
  let Hi := fresh "Hi" in let Ha := fresh "Ha" in
  intros Hi; eexists; split; [open_encode Hi; reflexivity|];
  fields;
  apply andb_true_iff in Hi; destruct Hi as [Hi Ha]; apply IsUint_spec in Hi; [|lia];
  let i := fresh "i" in
  apply (eq_of_bits N);
  [ lia | exact Hi | intros i ?; bit_cases i N; low_bit Ha k | intros i ?; high_bit N Hi ].

Lemma BTypeImm_roundtrip imm : IsBTypeImm imm = true ->
  exists e, EncodeBTypeImm imm = Ok e /\ DecodeBTypeImm e = imm.
Proof. unfold EncodeBTypeImm, DecodeBTypeImm. signed_roundtrip 12 1. Qed.

Lemma JTypeImm_roundtrip imm : IsJTypeImm imm = true ->
  exists e, EncodeJTypeImm imm = Ok e /\ DecodeJTypeImm e = imm.
Proof. unfold EncodeJTypeImm, DecodeJTypeImm. signed_roundtrip 20 1. Qed.

Lemma STypeImm_roundtrip imm : IsSTypeImm imm = true ->
  exists e, EncodeSTypeImm imm = Ok e /\ DecodeSTypeImm e = imm.
Proof.
  unfold EncodeSTypeImm, DecodeSTypeImm. intros Hi. eexists. split; [open_encode Hi; reflexivity|].
  fields. apply IsSTypeImm_spec in Hi. rewrite SignExtend_swrap by lia.
  apply swrap_of_bits; [lia | exact Hi |]. intros i ?. bit_cases i 12; low_bit Hi 0.
Qed.

Lemma ITypeImm_roundtrip imm : IsITypeImm imm = true ->
  exists e, EncodeITypeImm imm = Ok e /\ DecodeITypeImm e = imm.
Proof.
  unfold EncodeITypeImm, DecodeITypeImm. intros Hi. eexists. split; [open_encode Hi; reflexivity|].
  apply IsITypeImm_spec in Hi. rewrite SignExtend_swrap by lia.
  apply swrap_of_bits; [lia | exact Hi |]. intros i ?. unfold uint32.
  rewrite Z.shiftr_spec, testbit_uwrap, Z.shiftl_spec by lia.
  rewrite (proj2 (Z.ltb_lt _ _)) by lia. cbn [andb]. f_equal. lia.
Qed.

(** The argument is an [intptr_t], so on RV32 every aligned one is admitted. *)
Lemma UTypeImm_roundtrip imm : IsUTypeImm imm && (cast intptr_t imm =? imm) = true ->
  exists e, EncodeUTypeImm imm = Ok e /\ DecodeUTypeImm e = imm.
Proof.
  intros [Hi Hc]%andb_true_iff. unfold EncodeUTypeImm, DecodeUTypeImm.
  eexists. split; [open_encode Hi; reflexivity|]. apply Z.eqb_eq in Hc.
  apply andb_true_iff in Hi as [Hi Ha]. rewrite SignExtend_swrap by lia.
  apply swrap_of_bits; [lia | |].
  - revert Hi Hc. unfold IsInt, intptr_t. destruct TARGET_64.
    + cbn. rewrite andb_true_iff, Z.leb_le, Z.ltb_lt. by intros [].
    + intros _ <-. unfold cast. cbn. apply (swrap_bound 32). lia.
  - intros i ?. unfold uint32. rewrite Z.land_spec, testbit_uwrap by lia.
    rewrite (proj2 (Z.ltb_lt _ _)) by lia.
    destruct (Z.lt_ge_cases i 12).
    + rewrite (aligned_bit imm 12 i Ha) by lia. done.
    + replace (Z.testbit (uwrap 32 (Z.lnot ((1 << 12) - 1))) i) with true; [apply andb_true_r|].
      rewrite testbit_uwrap, Z.lnot_spec by lia. rewrite (proj2 (Z.ltb_lt _ _)) by lia.
      change ((1 << 12) - 1) with (Z.ones 12). by rewrite Z.ones_spec_high by lia.
Qed.

(** A shift amount has one bit more on RV64. *)
Lemma Shamt_roundtrip n : (0 <=? n) && (n <? XLEN) = true ->
  exists e, EncodeShamt n = Ok e /\ DecodeShamt e = n.
Proof.
  rewrite andb_true_iff, Z.leb_le, Z.ltb_lt. unfold EncodeShamt, DecodeShamt, EncodeFunct, DecodeFunct, XLEN.
  intros Hn.
  assert (exists w, 0 <= w <= 12 /\ (if TARGET_64 then 0x3F else 0x1F) = Z.ones w /\ 0 <= n < 2 ^ w)
    as (w & Hw & -> & Hr) by (destruct TARGET_64; [exists 6 | exists 5]; split_and!; done || lia).
  assert (n .& Z.ones w = n) as Hm by (rewrite Z.land_ones, Z.mod_small by lia; done).
  eexists. split; [rewrite ASSERT_bind by (unfold IsFunct; by rewrite Hm, Z.eqb_refl); reflexivity|].
  apply Z.bits_inj'. intros i Hi. rewrite <- Hm at 2. rewrite !Z.land_spec.
  destruct (Z.lt_ge_cases i w).
  - f_equal. unfold uint32. rewrite Z.shiftr_spec, testbit_uwrap, Z.shiftl_spec by lia.
    rewrite (proj2 (Z.ltb_lt _ _)) by lia. cbn [andb]. f_equal. lia.
  - rewrite Z.ones_spec_high, !andb_false_r by lia. done.
Qed.

Lemma CSPLoad4Imm_roundtrip imm : IsCSPLoad4Imm imm = true ->
  exists e, EncodeCSPLoad4Imm imm = Ok e /\ DecodeCSPLoad4Imm e = imm.
Proof. unfold EncodeCSPLoad4Imm, DecodeCSPLoad4Imm. unsigned_roundtrip 8 2. Qed.

Lemma CSPLoad8Imm_roundtrip imm : IsCSPLoad8Imm imm = true ->
  exists e, EncodeCSPLoad8Imm imm = Ok e /\ DecodeCSPLoad8Imm e = imm.
Proof. unfold EncodeCSPLoad8Imm, DecodeCSPLoad8Imm. unsigned_roundtrip 9 3. Qed.

Lemma CSPStore4Imm_roundtrip imm : IsCSPStore4Imm imm = true ->
  exists e, EncodeCSPStore4Imm imm = Ok e /\ DecodeCSPStore4Imm e = imm.
Proof. unfold EncodeCSPStore4Imm, DecodeCSPStore4Imm. unsigned_roundtrip 8 2. Qed.

Lemma CSPStore8Imm_roundtrip imm : IsCSPStore8Imm imm = true ->
  exists e, EncodeCSPStore8Imm imm = Ok e /\ DecodeCSPStore8Imm e = imm.
Proof. unfold EncodeCSPStore8Imm, DecodeCSPStore8Imm. unsigned_roundtrip 9 3. Qed.

Lemma CMem4Imm_roundtrip imm : IsCMem4Imm imm = true ->
  exists e, EncodeCMem4Imm imm = Ok e /\ DecodeCMem4Imm e = imm.
Proof. unfold EncodeCMem4Imm, DecodeCMem4Imm. unsigned_roundtrip 7 2. Qed.

Lemma CMem8Imm_roundtrip imm : IsCMem8Imm imm = true ->
  exists e, EncodeCMem8Imm imm = Ok e /\ DecodeCMem8Imm e = imm.
Proof. unfold EncodeCMem8Imm, DecodeCMem8Imm. unsigned_roundtrip 8 3. Qed.

Lemma CJImm_roundtrip imm : IsCJImm imm = true ->
  exists e, EncodeCJImm imm = Ok e /\ DecodeCJImm e = imm.
Proof. unfold EncodeCJImm, DecodeCJImm. signed_roundtrip 11 1. Qed.

Lemma CBImm_roundtrip imm : IsCBImm imm = true ->
  exists e, EncodeCBImm imm = Ok e /\ DecodeCBImm e = imm.
Proof. unfold EncodeCBImm, DecodeCBImm. signed_roundtrip 8 1. Qed.

Lemma CIImm_roundtrip imm : IsCIImm imm = true ->
  exists e, EncodeCIImm imm = Ok e /\ DecodeCIImm e = imm.
Proof. unfold EncodeCIImm, DecodeCIImm. signed_roundtrip 6 0. Qed.

Lemma CUImm_roundtrip imm : IsCUImm imm = true ->
  exists e, EncodeCUImm imm = Ok e /\ DecodeCUImm e = imm.
Proof. unfold EncodeCUImm, DecodeCUImm. signed_roundtrip 17 12. Qed.

Lemma CI16Imm_roundtrip imm : IsCI16Imm imm = true ->
  exists e, EncodeCI16Imm imm = Ok e /\ DecodeCI16Imm e = imm.
Proof. unfold EncodeCI16Imm, DecodeCI16Imm. signed_roundtrip 10 4. Qed.

Lemma CI4SPNImm_roundtrip imm : IsCI4SPNImm imm = true ->
  exists e, EncodeCI4SPNImm imm = Ok e /\ DecodeCI4SPNImm e = imm.
Proof. unfold EncodeCI4SPNImm, DecodeCI4SPNImm. unsigned_roundtrip 9 2. Qed.

End RoundTrip.
