(* ===== verification/Words.v ===== *)
(** * Instruction words

    The 32-bit words the emitters assemble, and what the accessors of [class Instr] read
    back from them.  Registers and minor fields are in the ranges their encoders check. *)
From S2P Require Import Prelude Utils Constants EncodingFacts.

Definition Rword (funct7 rs2 rs1 funct3 rd opcode : Z) : Z :=
  (funct7 << 25) .| (rs2 << 20) .| (rs1 << 15) .| (funct3 << 12) .| (rd << 7) .| (opcode << 0).
Definition R4word (rs3 funct2 rs2 rs1 funct3 rd opcode : Z) : Z :=
  (rs3 << 27) .| (funct2 << 25) .| (rs2 << 20) .| (rs1 << 15) .| (funct3 << 12) .| (rd << 7)
    .| (opcode << 0).
Definition Iword (imm rs1 funct3 rd opcode : Z) : Z :=
  ((imm .& 0xfff) << 20) .| (rs1 << 15) .| (funct3 << 12) .| (rd << 7) .| (opcode << 0).
Definition Sword (imm rs2 rs1 funct3 opcode : Z) : Z :=
  ((((imm >> 5) .& 0x7f) << 25) .| (((imm >> 0) .& 0x1f) << 7))
    .| (rs2 << 20) .| (rs1 << 15) .| (funct3 << 12) .| (opcode << 0).
Definition Bword (imm rs2 rs1 funct3 opcode : Z) : Z :=
  ((((imm >> 12) .& 0x1) << 31) .| (((imm >> 5) .& 0x3f) << 25) .|
   (((imm >> 1) .& 0xf) << 8) .| (((imm >> 11) .& 0x1) << 7))
    .| (rs2 << 20) .| (rs1 << 15) .| (funct3 << 12) .| (opcode << 0).
Definition Uword (imm rd opcode : Z) : Z :=
  (((imm >> 12) .& 0xfffff) << 12) .| (rd << 7) .| (opcode << 0).
Definition Jword (imm rd opcode : Z) : Z :=
  ((((imm >> 20) .& 0x1) << 31) .| (((imm >> 1) .& 0x3ff) << 21) .|
   (((imm >> 11) .& 0x1) << 20) .| (((imm >> 12) .& 0xff) << 12))
    .| (rd << 7) .| (opcode << 0).

(** ** Bounds *)

Lemma lor_bound n a b : 0 < n -> 0 <= a < 2 ^ n -> 0 <= b < 2 ^ n -> 0 <= a .| b < 2 ^ n.
Proof.
  intros Hn Ha Hb. replace (a .| b) with (uwrap n (a .| b)); [by apply uwrap_bound|].
  apply Z.bits_inj'. intros i Hi. rewrite testbit_uwrap by done.
  destruct (Z.ltb_spec i n); [done|]. cbn.
  rewrite Z.lor_spec, (bits_above n a), (bits_above n b) by (done || lia). done.
Qed.

Lemma shiftl_bound v k w n : 0 <= v < 2 ^ w -> 0 <= k -> 0 <= w -> k + w <= n -> 0 <= v << k < 2 ^ n.
Proof.
  intros Hv Hk Hw Hn. rewrite Z.shiftl_mul_pow2 by done.
  assert (0 < 2 ^ k) by (apply Z.pow_pos_nonneg; lia).
  assert (2 ^ (k + w) <= 2 ^ n) by (apply Z.pow_le_mono_r; lia).
  rewrite Z.pow_add_r in * by lia. nia.
Qed.

(** Bound a word assembled from shifted fields. *)
Ltac field_bound :=
  first
    [ lia
    | match goal with
      | |- 0 <= ?x .& ?m < ?q =>
          let p := eval vm_compute in (m + 1) in
          pose proof (land_mask_bound x m p eq_refl eq_refl); lia
      end ].

Ltac word_bound :=
  lazymatch goal with
  | |- 0 <= _ .| _ < 2 ^ _ => apply lor_bound; [lia | word_bound | word_bound]
  | |- 0 <= ?v << ?k < 2 ^ ?n =>
      let w := eval vm_compute in (n - k) in
      apply (shiftl_bound v k w n); [ let p := eval vm_compute in (2 ^ w) in
                                      change (2 ^ w) with p; field_bound | lia | lia | lia ]
  end.

Section Reads.
Context `{Target}.

(** Each group reads every field of one format. *)
Context (imm funct7 funct2 rs3 rs2 rs1 funct3 rd opcode : Z).
Context (H7 : 0 <= funct7 < 128) (H2 : 0 <= funct2 < 4) (Hr3 : 0 <= rs3 < 32)
  (Hr2 : 0 <= rs2 < 32) (Hr1 : 0 <= rs1 < 32) (H3 : 0 <= funct3 < 8)
  (Hrd : 0 <= rd < 32) (Hop : 0 <= opcode < 128).

Ltac read :=
  unfold Constants.opcode, Constants.rd, Constants.rs1, Constants.rs2, Constants.frd,
    Constants.frs1, Constants.frs2, Constants.frs3, Constants.funct3, Constants.funct7,
    Constants.funct2, Constants.funct5, Constants.rounding, Constants.funct12,
    DecodeOpcode, DecodeRd, DecodeRs1, DecodeRs2, DecodeFRd, DecodeFRs1, DecodeFRs2, DecodeFRs3,
    DecodeFunct2, DecodeFunct3, DecodeFunct5, DecodeFunct7, DecodeFunct12, DecodeRoundingMode,
    DecodeReg, DecodeFunct, Rword, R4word, Iword, Sword, Bword, Uword, Jword; fields; done.

Lemma Rword_bound : 0 <= Rword funct7 rs2 rs1 funct3 rd opcode < 2 ^ 32.
Proof. unfold Rword. word_bound. Qed.
Lemma Rword_opcode : Constants.opcode (Rword funct7 rs2 rs1 funct3 rd opcode) = opcode.
Proof. read. Qed.
Lemma Rword_rd : Constants.rd (Rword funct7 rs2 rs1 funct3 rd opcode) = rd.
Proof. read. Qed.
Lemma Rword_rs1 : Constants.rs1 (Rword funct7 rs2 rs1 funct3 rd opcode) = rs1.
Proof. read. Qed.
Lemma Rword_rs2 : Constants.rs2 (Rword funct7 rs2 rs1 funct3 rd opcode) = rs2.
Proof. read. Qed.
Lemma Rword_funct3 : Constants.funct3 (Rword funct7 rs2 rs1 funct3 rd opcode) = funct3.
Proof. read. Qed.
Lemma Rword_funct7 : Constants.funct7 (Rword funct7 rs2 rs1 funct3 rd opcode) = funct7.
Proof. read. Qed.

Lemma Iword_bound : 0 <= Iword imm rs1 funct3 rd opcode < 2 ^ 32.
Proof. unfold Iword. word_bound. Qed.
Lemma Iword_opcode : Constants.opcode (Iword imm rs1 funct3 rd opcode) = opcode.
Proof. read. Qed.
Lemma Iword_rd : Constants.rd (Iword imm rs1 funct3 rd opcode) = rd.
Proof. read. Qed.
Lemma Iword_rs1 : Constants.rs1 (Iword imm rs1 funct3 rd opcode) = rs1.
Proof. read. Qed.
Lemma Iword_funct3 : Constants.funct3 (Iword imm rs1 funct3 rd opcode) = funct3.
Proof. read. Qed.

Lemma Sword_bound : 0 <= Sword imm rs2 rs1 funct3 opcode < 2 ^ 32.
Proof. unfold Sword. word_bound. Qed.
Lemma Sword_opcode : Constants.opcode (Sword imm rs2 rs1 funct3 opcode) = opcode.
Proof. read. Qed.
Lemma Sword_rs1 : Constants.rs1 (Sword imm rs2 rs1 funct3 opcode) = rs1.
Proof. read. Qed.
Lemma Sword_rs2 : Constants.rs2 (Sword imm rs2 rs1 funct3 opcode) = rs2.
Proof. read. Qed.
Lemma Sword_funct3 : Constants.funct3 (Sword imm rs2 rs1 funct3 opcode) = funct3.
Proof. read. Qed.

Lemma Bword_bound : 0 <= Bword imm rs2 rs1 funct3 opcode < 2 ^ 32.
Proof. unfold Bword. word_bound. Qed.
Lemma Bword_opcode : Constants.opcode (Bword imm rs2 rs1 funct3 opcode) = opcode.
Proof. read. Qed.
Lemma Bword_rs1 : Constants.rs1 (Bword imm rs2 rs1 funct3 opcode) = rs1.
Proof. read. Qed.
Lemma Bword_rs2 : Constants.rs2 (Bword imm rs2 rs1 funct3 opcode) = rs2.
Proof. read. Qed.
Lemma Bword_funct3 : Constants.funct3 (Bword imm rs2 rs1 funct3 opcode) = funct3.
Proof. read. Qed.

Lemma Uword_bound : 0 <= Uword imm rd opcode < 2 ^ 32.
Proof. unfold Uword. word_bound. Qed.
Lemma Uword_opcode : Constants.opcode (Uword imm rd opcode) = opcode.
Proof. read. Qed.
Lemma Uword_rd : Constants.rd (Uword imm rd opcode) = rd.
Proof. read. Qed.

Lemma Jword_bound : 0 <= Jword imm rd opcode < 2 ^ 32.
Proof. unfold Jword. word_bound. Qed.
Lemma Jword_opcode : Constants.opcode (Jword imm rd opcode) = opcode.
Proof. read. Qed.
Lemma Jword_rd : Constants.rd (Jword imm rd opcode) = rd.
Proof. read. Qed.
End Reads.

(** ** Immediates *)

Lemma swrap_low N m x : 0 < N -> m = Z.ones N -> swrap N (x .& m) = swrap N x.
Proof.
  intros HN ->. apply uwrap_eq_swrap; [done|].
  by rewrite <- uwrap_land, uwrap_idem by done.
Qed.

(** The fields below an immediate held in the top bits of a word. *)
Lemma read_top x y k N : 0 <= k -> 0 < N -> 0 <= y < 2 ^ k ->
  swrap N (((x << k) .| y) >> k) = swrap N x.
Proof.
  intros Hk HN Hy. rewrite Z.shiftr_lor, Z.shiftr_shiftl_l, Z.sub_diag, Z.shiftl_0_r by lia.
  rewrite (Z.shiftr_div_pow2 y), Z.div_small, Z.lor_0_r by lia. done.
Qed.

Section Immediates.
Context `{Target}.
Context (imm rs2 rs1 funct3 rd opcode : Z).
Context (Hr2 : 0 <= rs2 < 32) (Hr1 : 0 <= rs1 < 32) (H3 : 0 <= funct3 < 8)
  (Hrd : 0 <= rd < 32) (Hop : 0 <= opcode < 128).

Lemma Iword_imm : IsITypeImm imm = true -> itype_imm (Iword imm rs1 funct3 rd opcode) = imm.
Proof.
  intros Hi. unfold itype_imm, DecodeITypeImm, Iword. rewrite SignExtend_swrap by lia.
  rewrite <- !Z.lor_assoc, (read_top _ _ 20 12) by (lia || word_bound).
  rewrite swrap_low by done. apply swrap_small; [lia|]. apply IsInt_spec in Hi; lia.
Qed.

Lemma Sword_imm : IsSTypeImm imm = true -> stype_imm (Sword imm rs2 rs1 funct3 opcode) = imm.
Proof.
  intros Hi. unfold stype_imm, DecodeSTypeImm, Sword. fields.
  apply IsInt_spec in Hi; [|lia].
  rewrite SignExtend_swrap by lia. apply swrap_of_bits; [lia | exact Hi |].
  intros i Hr. assert (Ha : IsAligned imm (2 ^ 0) = true) by (unfold IsAligned; cbn; by rewrite Z.land_0_r).
  bit_cases i 12; low_bit Ha 0.
Qed.

Lemma Bword_imm : IsBTypeImm imm = true -> btype_imm (Bword imm rs2 rs1 funct3 opcode) = imm.
Proof.
  intros Hi. unfold btype_imm, DecodeBTypeImm, Bword. fields.
  apply andb_true_iff in Hi as [Hi Ha]. apply IsInt_spec in Hi; [|lia].
  rewrite SignExtend_swrap by lia. apply swrap_of_bits; [lia | exact Hi |].
  intros i Hr. bit_cases i 12; low_bit Ha 1.
Qed.

Lemma Jword_imm : IsJTypeImm imm = true -> jtype_imm (Jword imm rd opcode) = imm.
Proof.
  intros Hi. unfold jtype_imm, DecodeJTypeImm, Jword. fields.
  apply andb_true_iff in Hi as [Hi Ha]. apply IsInt_spec in Hi; [|lia].
  rewrite SignExtend_swrap by lia. apply swrap_of_bits; [lia | exact Hi |].
  intros i Hr. bit_cases i 20; low_bit Ha 1.
Qed.

(** An upper immediate is a signed 32-bit multiple of 4096. *)
Lemma Uword_imm : - 2 ^ 31 <= imm < 2 ^ 31 -> IsAligned imm (1 << 12) = true ->
  utype_imm (Uword imm rd opcode) = imm.
Proof.
  intros Hi Ha. unfold utype_imm, DecodeUTypeImm, Uword.
  rewrite SignExtend_swrap by lia. apply swrap_of_bits; [lia | exact Hi |].
  intros i Hr. change (uint32 (Z.lnot ((1 << 12) - 1))) with (Z.ones 20 << 12).
  rewrite Z.land_spec, !Z.lor_spec.
  rewrite (testbit_slice imm 12 0xfffff 20) by (reflexivity || lia).
  destruct (Z.lt_ge_cases i 12).
  - rewrite (aligned_bit imm 12 i Ha) by lia. rewrite (Z.shiftl_spec_low (Z.ones 20)) by lia.
    apply andb_false_r.
  - rewrite (bits_above 12 (rd << 7)), (bits_above 12 (opcode << 0)) by (lia || word_bound).
    rewrite !orb_false_r, (Z.shiftl_spec (Z.ones 20)), Z.ones_spec_low, andb_true_r by lia.
    rewrite (proj2 (Z.leb_le 12 i)), (proj2 (Z.ltb_lt i (12 + 20))) by lia. done.
Qed.
End Immediates.
