(* ===== verification/CWords.v ===== *)
(** * Compressed instruction words

    The 16-bit words the emitters assemble, by format, and what the accessors of
    [class CInstr] read back.  An opcode is given by its fields: the function bits 15..13,
    the quadrant in bits 1..0, and for the arithmetic group bits 12, 11..10 and 6..5. *)
From S2P Require Import Prelude Utils Constants EncodingFacts Words.

(** Opcodes by their fields. *)
Definition cop (hi lo : Z) : Z := (hi << 13) .| (lo << 0).
Definition cop_alu (f2 : Z) : Z := (4 << 13) .| (f2 << 10) .| (1 << 0).
Definition cop_rr (b12 f2 : Z) : Z :=
  (4 << 13) .| (b12 << 12) .| (3 << 10) .| (f2 << 5) .| (1 << 0).

Definition ci_bits (imm : Z) : Z := (((imm >> 5) .& 0x1) << 12) .| (((imm >> 0) .& 0x1F) << 2).
Definition cu_bits (imm : Z) : Z := (((imm >> 17) .& 0x1) << 12) .| (((imm >> 12) .& 0x1F) << 2).
Definition ci16_bits (imm : Z) : Z :=
  (((imm >> 9) .& 0x1) << 12) .| (((imm >> 4) .& 0x1) << 6) .| (((imm >> 6) .& 0x1) << 5) .|
  (((imm >> 7) .& 0x3) << 3) .| (((imm >> 5) .& 0x1) << 2).
Definition ci4spn_bits (imm : Z) : Z :=
  (((imm >> 4) .& 0x3) << 11) .| (((imm >> 6) .& 0xF) << 7) .| (((imm >> 2) .& 0x1) << 6) .|
  (((imm >> 3) .& 0x1) << 5).
Definition cspload4_bits (imm : Z) : Z :=
  (((imm >> 5) .& 0x1) << 12) .| (((imm >> 2) .& 0x7) << 4) .| (((imm >> 6) .& 0x3) << 2).
Definition cspload8_bits (imm : Z) : Z :=
  (((imm >> 5) .& 0x1) << 12) .| (((imm >> 3) .& 0x3) << 5) .| (((imm >> 6) .& 0x7) << 2).
Definition cspstore4_bits (imm : Z) : Z :=
  (((imm >> 2) .& 0xF) << 9) .| (((imm >> 6) .& 0x3) << 7).
Definition cspstore8_bits (imm : Z) : Z :=
  (((imm >> 3) .& 0x7) << 10) .| (((imm >> 6) .& 0x7) << 7).
Definition cmem4_bits (imm : Z) : Z :=
  (((imm >> 3) .& 0x7) << 10) .| (((imm >> 2) .& 0x1) << 6) .| (((imm >> 6) .& 0x1) << 5).
Definition cmem8_bits (imm : Z) : Z :=
  (((imm >> 3) .& 0x7) << 10) .| (((imm >> 6) .& 0x3) << 5).
Definition cj_bits (imm : Z) : Z :=
  (((imm >> 11) .& 0x1) << 12) .| (((imm >> 4) .& 0x1) << 11) .| (((imm >> 8) .& 0x3) << 9) .|
  (((imm >> 10) .& 0x1) << 8) .| (((imm >> 6) .& 0x1) << 7) .| (((imm >> 7) .& 0x1) << 6) .|
  (((imm >> 1) .& 0x7) << 3) .| (((imm >> 5) .& 0x1) << 2).
Definition cb_bits (imm : Z) : Z :=
  (((imm >> 8) .& 0x1) << 12) .| (((imm >> 3) .& 0x3) << 10) .| (((imm >> 6) .& 0x3) << 5) .|
  (((imm >> 1) .& 0x3) << 3) .| (((imm >> 5) .& 0x1) << 2).

(** A compressed register is encoded by its low three bits. *)
Definition prime (r : Z) : Z := r .& 7.

Lemma prime_decode r : IsRegPrime r = true -> prime r + 8 = r.
Proof.
  unfold IsRegPrime, prime. intros Hr. to_prop.
  assert (r = 8 \/ r = 9 \/ r = 10 \/ r = 11 \/ r = 12 \/ r = 13 \/ r = 14 \/ r = 15)
    as Hc by lia.
  by repeat destruct Hc as [->|Hc]; [..|subst r].
Qed.

Lemma prime_bound r : 0 <= prime r < 8.
Proof. apply (land_mask_bound r 7 8); reflexivity. Qed.

(** Reading several fields at once. *)
Lemma land_shift_mask w m s : 0 <= s -> w .& (m << s) = ((w >> s) .& m) << s.
Proof.
  intros Hs. apply Z.bits_inj'. intros i Hi.
  rewrite Z.land_spec. destruct (Z.lt_ge_cases i s).
  - rewrite !Z.shiftl_spec_low, andb_false_r by lia. done.
  - rewrite !Z.shiftl_spec, Z.land_spec, Z.shiftr_spec by lia. do 2 f_equal. lia.
Qed.

Lemma c_opcode_fields w :
  c_opcode w = (((w >> 13) .& 7) << 13) .| (((w >> 0) .& 3) << 0).
Proof.
  unfold c_opcode. change COpcode.C_OP_MASK with ((7 << 13) .| (3 << 0)).
  by rewrite Z.land_lor_distr_r, !land_shift_mask by lia.
Qed.

Lemma miscalu_fields w : w .& COpcode.C_MISCALU_MASK =
  (((w >> 13) .& 7) << 13) .| (((w >> 10) .& 3) << 10) .| (((w >> 0) .& 3) << 0).
Proof.
  change COpcode.C_MISCALU_MASK with ((7 << 13) .| (3 << 10) .| (3 << 0)).
  by rewrite !Z.land_lor_distr_r, !land_shift_mask by lia.
Qed.

Lemma rr_fields w : w .& COpcode.C_RR_MASK =
  (((w >> 13) .& 7) << 13) .| (((w >> 12) .& 1) << 12) .| (((w >> 10) .& 3) << 10) .|
  (((w >> 5) .& 3) << 5) .| (((w >> 0) .& 3) << 0).
Proof.
  change COpcode.C_RR_MASK with ((7 << 13) .| (1 << 12) .| (3 << 10) .| (3 << 5) .| (3 << 0)).
  by rewrite !Z.land_lor_distr_r, !land_shift_mask by lia.
Qed.

Lemma parcel_fields w : w .& 3 = ((w >> 0) .& 3).
Proof. by rewrite Z.shiftr_0_r. Qed.

(** Evaluate every read of a compressed word. *)
Ltac cread_unfold :=
  unfold c_rd, c_rs1, c_rs2, c_rdp, c_rs1p, c_rs2p, c_frd, c_frs1, c_frs2, c_frdp, c_frs1p,
    c_frs2p, DecodeCRd, DecodeCRs1, DecodeCRs2, DecodeCRdp, DecodeCRs1p, DecodeCRs2p, DecodeCFRd,
    DecodeCFRs2, DecodeCFRdp, DecodeCFRs1p, DecodeCFRs2p, DecodeReg, DecodeRegPrime,
    cop, cop_alu, cop_rr, ci_bits, cu_bits, ci16_bits, ci4spn_bits, cspload4_bits,
    cspload8_bits, cspstore4_bits, cspstore8_bits, cmem4_bits, cmem8_bits, cj_bits, cb_bits, prime.

Ltac cread := cread_unfold; fields; try reflexivity.

Ltac cimm_signed Hi N k :=
  let Ha := fresh "Ha" in let i := fresh "i" in
  apply andb_true_iff in Hi; destruct Hi as [Hi Ha]; apply IsInt_spec in Hi; [|lia];
  rewrite SignExtend_swrap by lia; apply swrap_of_bits; [lia | exact Hi |];
  intros i ?; bit_cases i N; low_bit Ha k.

Ltac cimm_unsigned Hi N k :=
  let Ha := fresh "Ha" in let i := fresh "i" in
  apply andb_true_iff in Hi; destruct Hi as [Hi Ha]; apply IsUint_spec in Hi; [|lia];
  apply (eq_of_bits N);
  [ lia | exact Hi | intros i ?; bit_cases i N; low_bit Ha k | intros i ?; high_bit N Hi ].

Section Formats.
Context `{Target} (hi lo b12 f2 rd rs2 imm : Z).
Context (Hhi : 0 <= hi < 8) (Hlo : 0 <= lo < 4) (Hb : 0 <= b12 < 2) (Hf : 0 <= f2 < 4)
  (Hrd : 0 <= rd < 32) (Hrs2 : 0 <= rs2 < 32).

Ltac bound := split; [cread_unfold; word_bound|].

(** CI: a register and a six-bit immediate. *)
Definition CIword : Z := cop hi lo .| (rd << 7) .| ci_bits imm.
Lemma CIword_reads : IsCIImm imm = true ->
  0 <= CIword < 2 ^ 16 /\ CIword .& 3 = lo /\ c_opcode CIword = cop hi lo /\
  c_rd CIword = rd /\ c_rs1 CIword = rd /\ c_i_imm CIword = imm.
Proof.
  intros Hi. unfold CIword. rewrite c_opcode_fields, parcel_fields.
  bound. split_and!; [cread..|].
  unfold c_i_imm, DecodeCIImm. cread. cimm_signed Hi 6 0.
Qed.

(** CI with the upper immediate of [c.lui]. *)
Definition CUword : Z := cop hi lo .| (rd << 7) .| cu_bits imm.
Lemma CUword_reads : IsCUImm imm = true ->
  0 <= CUword < 2 ^ 16 /\ CUword .& 3 = lo /\ c_opcode CUword = cop hi lo /\
  c_rd CUword = rd /\ c_u_imm CUword = imm.
Proof.
  intros Hi. unfold CUword. rewrite c_opcode_fields, parcel_fields.
  bound. split_and!; [cread..|].
  unfold c_u_imm, DecodeCUImm. cread. cimm_signed Hi 17 12.
Qed.

(** CI with the scaled immediate of [c.addi16sp]. *)
Definition CI16word : Z := cop hi lo .| (rd << 7) .| ci16_bits imm.
Lemma CI16word_reads : IsCI16Imm imm = true ->
  0 <= CI16word < 2 ^ 16 /\ CI16word .& 3 = lo /\ c_opcode CI16word = cop hi lo /\
  c_rd CI16word = rd /\ c_rs1 CI16word = rd /\ c_i16_imm CI16word = imm.
Proof.
  intros Hi. unfold CI16word. rewrite c_opcode_fields, parcel_fields.
  bound. split_and!; [cread..|].
  unfold c_i16_imm, DecodeCI16Imm. cread. cimm_signed Hi 10 4.
Qed.

(** CIW: [c.addi4spn]. *)
Definition CIWword (rdp : Z) : Z := cop hi lo .| (prime rdp << 2) .| ci4spn_bits imm.
Lemma CIWword_reads rdp : IsCRdp rdp = true -> IsCI4SPNImm imm = true ->
  0 <= CIWword rdp < 2 ^ 16 /\ CIWword rdp .& 3 = lo /\ c_opcode (CIWword rdp) = cop hi lo /\
  c_rdp (CIWword rdp) = rdp /\ c_i4spn_imm (CIWword rdp) = imm.
Proof.
  intros Hr Hi. unfold CIWword. rewrite c_opcode_fields, parcel_fields.
  bound. split_and!; [cread | cread | cread; by apply prime_decode |].
  unfold c_i4spn_imm, DecodeCI4SPNImm. cread. cimm_unsigned Hi 9 2.
Qed.

(** CI and CSS: accesses relative to the stack pointer. *)
Definition CSPLoad4word : Z := cop hi lo .| (rd << 7) .| cspload4_bits imm.
Lemma CSPLoad4word_reads : IsCSPLoad4Imm imm = true ->
  0 <= CSPLoad4word < 2 ^ 16 /\ CSPLoad4word .& 3 = lo /\ c_opcode CSPLoad4word = cop hi lo /\
  c_rd CSPLoad4word = rd /\ c_spload4_imm CSPLoad4word = imm.
Proof.
  intros Hi. unfold CSPLoad4word. rewrite c_opcode_fields, parcel_fields.
  bound. split_and!; [cread..|].
  unfold c_spload4_imm, DecodeCSPLoad4Imm. cread. cimm_unsigned Hi 8 2.
Qed.

Definition CSPLoad8word : Z := cop hi lo .| (rd << 7) .| cspload8_bits imm.
Lemma CSPLoad8word_reads : IsCSPLoad8Imm imm = true ->
  0 <= CSPLoad8word < 2 ^ 16 /\ CSPLoad8word .& 3 = lo /\ c_opcode CSPLoad8word = cop hi lo /\
  c_rd CSPLoad8word = rd /\ c_spload8_imm CSPLoad8word = imm.
Proof.
  intros Hi. unfold CSPLoad8word. rewrite c_opcode_fields, parcel_fields.
  bound. split_and!; [cread..|].
  unfold c_spload8_imm, DecodeCSPLoad8Imm. cread. cimm_unsigned Hi 9 3.
Qed.

Definition CSPStore4word : Z := cop hi lo .| (rs2 << 2) .| cspstore4_bits imm.
Lemma CSPStore4word_reads : IsCSPStore4Imm imm = true ->
  0 <= CSPStore4word < 2 ^ 16 /\ CSPStore4word .& 3 = lo /\
  c_opcode CSPStore4word = cop hi lo /\
  c_rs2 CSPStore4word = rs2 /\ c_spstore4_imm CSPStore4word = imm.
Proof.
  intros Hi. unfold CSPStore4word. rewrite c_opcode_fields, parcel_fields.
  bound. split_and!; [cread..|].
  unfold c_spstore4_imm, DecodeCSPStore4Imm. cread. cimm_unsigned Hi 8 2.
Qed.

Definition CSPStore8word : Z := cop hi lo .| (rs2 << 2) .| cspstore8_bits imm.
Lemma CSPStore8word_reads : IsCSPStore8Imm imm = true ->
  0 <= CSPStore8word < 2 ^ 16 /\ CSPStore8word .& 3 = lo /\
  c_opcode CSPStore8word = cop hi lo /\
  c_rs2 CSPStore8word = rs2 /\ c_spstore8_imm CSPStore8word = imm.
Proof.
  intros Hi. unfold CSPStore8word. rewrite c_opcode_fields, parcel_fields.
  bound. split_and!; [cread..|].
  unfold c_spstore8_imm, DecodeCSPStore8Imm. cread. cimm_unsigned Hi 9 3.
Qed.

(** CL and CS: accesses relative to a compressed register. *)
Definition CMem4word (rs1p rdp : Z) : Z :=
  cop hi lo .| (prime rs1p << 7) .| (prime rdp << 2) .| cmem4_bits imm.
Lemma CMem4word_reads rs1p rdp :
  IsRegPrime rs1p = true -> IsRegPrime rdp = true -> IsCMem4Imm imm = true ->
  0 <= CMem4word rs1p rdp < 2 ^ 16 /\ CMem4word rs1p rdp .& 3 = lo /\
  c_opcode (CMem4word rs1p rdp) = cop hi lo /\
  c_rs1p (CMem4word rs1p rdp) = rs1p /\ c_rdp (CMem4word rs1p rdp) = rdp /\
  c_mem4_imm (CMem4word rs1p rdp) = imm.
Proof.
  intros Hr1 Hr Hi. unfold CMem4word. rewrite c_opcode_fields, parcel_fields.
  bound. split_and!; [cread | cread | cread; by apply prime_decode
                     | cread; by apply prime_decode |].
  unfold c_mem4_imm, DecodeCMem4Imm. cread. cimm_unsigned Hi 7 2.
Qed.

Definition CMem8word (rs1p rdp : Z) : Z :=
  cop hi lo .| (prime rs1p << 7) .| (prime rdp << 2) .| cmem8_bits imm.
Lemma CMem8word_reads rs1p rdp :
  IsRegPrime rs1p = true -> IsRegPrime rdp = true -> IsCMem8Imm imm = true ->
  0 <= CMem8word rs1p rdp < 2 ^ 16 /\ CMem8word rs1p rdp .& 3 = lo /\
  c_opcode (CMem8word rs1p rdp) = cop hi lo /\
  c_rs1p (CMem8word rs1p rdp) = rs1p /\ c_rdp (CMem8word rs1p rdp) = rdp /\
  c_mem8_imm (CMem8word rs1p rdp) = imm.
Proof.
  intros Hr1 Hr Hi. unfold CMem8word. rewrite c_opcode_fields, parcel_fields.
  bound. split_and!; [cread | cread | cread; by apply prime_decode
                     | cread; by apply prime_decode |].
  unfold c_mem8_imm, DecodeCMem8Imm. cread. cimm_unsigned Hi 8 3.
Qed.

(** CJ and CB. *)
Definition CJword : Z := cop hi lo .| cj_bits imm.
Lemma CJword_reads : IsCJImm imm = true ->
  0 <= CJword < 2 ^ 16 /\ CJword .& 3 = lo /\ c_opcode CJword = cop hi lo /\
  c_j_imm CJword = imm.
Proof.
  intros Hi. unfold CJword. rewrite c_opcode_fields, parcel_fields.
  bound. split_and!; [cread..|].
  unfold c_j_imm, DecodeCJImm. cread. cimm_signed Hi 11 1.
Qed.

Definition CBword (rs1p : Z) : Z := cop hi lo .| (prime rs1p << 7) .| cb_bits imm.
Lemma CBword_reads rs1p : IsRegPrime rs1p = true -> IsCBImm imm = true ->
  0 <= CBword rs1p < 2 ^ 16 /\ CBword rs1p .& 3 = lo /\ c_opcode (CBword rs1p) = cop hi lo /\
  c_rs1p (CBword rs1p) = rs1p /\ c_b_imm (CBword rs1p) = imm.
Proof.
  intros Hr Hi. unfold CBword. rewrite c_opcode_fields, parcel_fields.
  bound. split_and!; [cread | cread | cread; by apply prime_decode |].
  unfold c_b_imm, DecodeCBImm. cread. cimm_signed Hi 8 1.
Qed.

(** CB: shifts and masks by an immediate. *)
Definition CALUword (rs1p : Z) : Z := cop_alu f2 .| (prime rs1p << 7) .| ci_bits imm.
Lemma CALUword_reads rs1p : IsRegPrime rs1p = true -> IsCIImm imm = true ->
  0 <= CALUword rs1p < 2 ^ 16 /\ CALUword rs1p .& 3 = 1 /\
  c_opcode (CALUword rs1p) = COpcode.C_MISCALU /\
  CALUword rs1p .& COpcode.C_MISCALU_MASK = cop_alu f2 /\
  c_rs1p (CALUword rs1p) = rs1p /\ c_i_imm (CALUword rs1p) = imm.
Proof.
  intros Hr Hi. unfold CALUword. rewrite c_opcode_fields, parcel_fields, miscalu_fields.
  bound. split_and!; [cread | cread | cread | cread; by apply prime_decode |].
  unfold c_i_imm, DecodeCIImm. cread. cimm_signed Hi 6 0.
Qed.

(** CA: operations on two compressed registers. *)
Definition CAword (rs1p rs2p : Z) : Z :=
  cop_rr b12 f2 .| (prime rs1p << 7) .| (prime rs2p << 2).
Lemma CAword_reads rs1p rs2p : IsRegPrime rs1p = true -> IsRegPrime rs2p = true ->
  0 <= CAword rs1p rs2p < 2 ^ 16 /\ CAword rs1p rs2p .& 3 = 1 /\
  c_opcode (CAword rs1p rs2p) = COpcode.C_MISCALU /\
  CAword rs1p rs2p .& COpcode.C_MISCALU_MASK = COpcode.C_RR /\
  CAword rs1p rs2p .& COpcode.C_RR_MASK = cop_rr b12 f2 /\
  c_rs1p (CAword rs1p rs2p) = rs1p /\ c_rs2p (CAword rs1p rs2p) = rs2p.
Proof.
  intros Hr1 Hr2. unfold CAword. rewrite c_opcode_fields, parcel_fields, miscalu_fields, rr_fields.
  bound. split_and!; [cread | cread | cread | cread | cread; by apply prime_decode
                     | cread; by apply prime_decode].
Qed.

(** CR: two full registers; bit 12 tells [c.jr]/[c.mv] from [c.jalr]/[c.add]. *)
Definition CRword : Z := cop 4 2 .| (b12 << 12) .| (rd << 7) .| (rs2 << 2).
Lemma CRword_reads :
  0 <= CRword < 2 ^ 16 /\ CRword .& 3 = 2 /\ c_opcode CRword = COpcode.C_JR /\
  CRword .& (COpcode.C_JALR .^ COpcode.C_JR) = b12 << 12 /\
  c_rd CRword = rd /\ c_rs1 CRword = rd /\ c_rs2 CRword = rs2.
Proof.
  unfold CRword. rewrite c_opcode_fields, parcel_fields.
  bound. split_and!; [cread | cread | | cread..].
  change (COpcode.C_JALR .^ COpcode.C_JR) with (1 << 12).
  rewrite land_shift_mask by lia. cread.
Qed.
End Formats.
