(* ===== verification/Memory.v ===== *)
(** * Host memory

    The simulator dereferences target addresses directly and the assembler's buffer is
    copied into memory before it runs.  Memory is a finite map from addresses to bytes;
    an access to an address that is not mapped is a host fault.  Multi-byte values are
    little-endian. *)
From S2P Require Import Prelude.

Abbreviation memory := (gmap Z Z).

Fixpoint le_bytes (n : nat) (v : Z) : list Z :=
  match n with
  | O => []
  | S n => v mod 256 :: le_bytes n (v / 256)
  end.

Fixpoint le_value (bs : list Z) : Z :=
  match bs with
  | [] => 0
  | b :: bs => b + 256 * le_value bs
  end.

(** [*reinterpret_cast<T*>(addr)] for a [T] of [n] bytes, as an unsigned number. *)
Fixpoint mem_load (m : memory) (addr : Z) (n : nat) : result Z :=
  match n with
  | O => Ok 0
  | S n =>
      match m !! addr with
      | Some b => v ← mem_load m (addr + 1) n; Ok (b + 256 * v)
      | None => Err (HostFault addr)
      end
  end.

(** [*reinterpret_cast<T*>(addr) = v]. *)
Fixpoint mem_store (m : memory) (addr : Z) (n : nat) (v : Z) : result memory :=
  match n with
  | O => Ok m
  | S n =>
      match m !! addr with
      | Some _ => mem_store (<[addr := v mod 256]> m) (addr + 1) n (v / 256)
      | None => Err (HostFault addr)
      end
  end.

Lemma length_le_bytes n v : length (le_bytes n v) = n.
Proof. revert v; induction n; cbn; auto. Qed.

Lemma le_bytes_bound n v : Forall (fun b => 0 <= b < 256) (le_bytes n v).
Proof.
  revert v; induction n as [|n IH]; intros v; cbn; constructor; [|apply IH].
  apply Z.mod_pos_bound; lia.
Qed.

Lemma pow256_S n : 256 ^ Z.of_nat (S n) = 256 * 256 ^ Z.of_nat n.
Proof. rewrite Nat2Z.inj_succ, Z.pow_succ_r by lia. done. Qed.

Lemma le_value_bytes n v : le_value (le_bytes n v) = v mod 256 ^ Z.of_nat n.
Proof.
  revert v. induction n as [|n IH]; intros v; cbn [le_bytes le_value].
  - by rewrite Z.mod_1_r.
  - rewrite IH, pow256_S.
    rewrite Z.rem_mul_r by (try apply Z.pow_pos_nonneg; lia). done.
Qed.

Lemma le_value_bound bs : Forall (fun b => 0 <= b < 256) bs ->
  0 <= le_value bs < 256 ^ Z.of_nat (length bs).
Proof.
  induction 1 as [|b bs Hb _ IH]; cbn [le_value length]; [lia|].
  rewrite pow256_S. lia.
Qed.

(** The bytes [bs] are stored at [addr]. *)
Definition code_at (m : memory) (addr : Z) (bs : list Z) : Prop :=
  forall i b, bs !! i = Some b -> m !! (addr + Z.of_nat i) = Some b.

Lemma code_at_app m addr bs1 bs2 :
  code_at m addr (bs1 ++ bs2) <->
  code_at m addr bs1 /\ code_at m (addr + Z.of_nat (length bs1)) bs2.
Proof.
  split.
  - intros Hc. split; intros i b Hi.
    + apply Hc. by apply lookup_app_l_Some.
    + rewrite <- Z.add_assoc, <- Nat2Z.inj_add. apply Hc.
      rewrite lookup_app_r by lia.
      by replace (length bs1 + i - length bs1)%nat with i by lia.
  - intros [H1 H2] i b Hi. apply lookup_app_Some in Hi as [Hi|[Hl Hi]]; [auto|].
    replace (addr + Z.of_nat i)
      with (addr + Z.of_nat (length bs1) + Z.of_nat (i - length bs1)) by lia. auto.
Qed.

Lemma mem_load_code m addr bs :
  code_at m addr bs -> mem_load m addr (length bs) = Ok (le_value bs).
Proof.
  revert addr. induction bs as [|b bs IH]; intros addr Hc; cbn; [done|].
  pose proof (Hc 0%nat b eq_refl) as Hb. rewrite Z.add_0_r in Hb. rewrite Hb.
  rewrite IH; [done|]. intros i c Hi.
  replace (addr + 1 + Z.of_nat i) with (addr + Z.of_nat (S i)) by lia. by apply Hc.
Qed.

Lemma mem_load_le_bytes m addr n v :
  code_at m addr (le_bytes n v) -> mem_load m addr n = Ok (v mod 256 ^ Z.of_nat n).
Proof.
  intros Hc. apply mem_load_code in Hc. by rewrite length_le_bytes, le_value_bytes in Hc.
Qed.

(** All bytes of the memory are bytes. *)
Definition mem_wf (m : memory) : Prop := map_Forall (fun _ b => 0 <= b < 256) m.

Lemma mem_load_bound m addr n v : mem_wf m ->
  mem_load m addr n = Ok v -> 0 <= v < 256 ^ Z.of_nat n.
Proof.
  intros Hwf. revert addr v. induction n as [|n IH]; intros addr v; cbn [mem_load].
  - intros [= <-]. cbn. lia.
  - destruct (m !! addr) as [b|] eqn:Hb; [|discriminate].
    intros (w & Hw & [= <-])%result_bind_Ok. apply IH in Hw.
    apply Hwf in Hb. rewrite pow256_S. lia.
Qed.

Lemma mem_store_wf m addr n v m' : mem_wf m -> mem_store m addr n v = Ok m' -> mem_wf m'.
Proof.
  revert m addr v. induction n as [|n IH]; intros m addr v Hwf; cbn [mem_store].
  - by intros [= <-].
  - destruct (m !! addr) as [b|] eqn:Hb; [|discriminate]. apply IH.
    apply map_Forall_insert_2; [apply Z.mod_pos_bound; lia | done].
Qed.

(** A store changes nothing outside the bytes it writes, and keeps the mapped set. *)
Lemma mem_store_other m addr n v m' a : mem_store m addr n v = Ok m' ->
  a < addr \/ addr + Z.of_nat n <= a -> m' !! a = m !! a.
Proof.
  revert m addr v. induction n as [|n IH]; intros m addr v; cbn [mem_store].
  - by intros [= <-].
  - destruct (m !! addr) as [b|] eqn:Hb; [|discriminate]. intros Hs Ha.
    rewrite (IH _ _ _ Hs) by lia. rewrite lookup_insert_ne by lia. done.
Qed.

Lemma mem_store_dom m addr n v m' a : mem_store m addr n v = Ok m' ->
  is_Some (m' !! a) <-> is_Some (m !! a).
Proof.
  revert m addr v. induction n as [|n IH]; intros m addr v; cbn [mem_store].
  - by intros [= <-].
  - destruct (m !! addr) as [b|] eqn:Hb; [|discriminate]. intros Hs.
    rewrite (IH _ _ _ Hs), lookup_insert. case_decide as E; [|done].
    subst. split; intros _; eauto.
Qed.

(** Reading back what was stored. *)
Lemma mem_store_load m addr n v m' : mem_store m addr n v = Ok m' ->
  mem_load m' addr n = Ok (v mod 256 ^ Z.of_nat n).
Proof.
  revert m addr v. induction n as [|n IH]; intros m addr v; cbn [mem_store mem_load].
  - intros _. by rewrite Z.mod_1_r.
  - destruct (m !! addr) as [b|] eqn:Hb; [|discriminate]. intros Hs.
    rewrite (mem_store_other _ _ _ _ _ addr Hs) by lia.
    rewrite lookup_insert_eq. rewrite (IH _ _ _ Hs), pow256_S.
    rewrite Z.rem_mul_r by (try apply Z.pow_pos_nonneg; lia). done.
Qed.

Lemma mem_load_other m addr n v m' a k : mem_store m addr n v = Ok m' ->
  a + Z.of_nat k <= addr \/ addr + Z.of_nat n <= a -> mem_load m' a k = mem_load m a k.
Proof.
  intros Hs. revert a. induction k as [|k IH]; intros a Ha; cbn [mem_load]; [done|].
  rewrite (mem_store_other _ _ _ _ _ a Hs) by lia.
  destruct (m !! a); [|done]. by rewrite IH by lia.
Qed.

Lemma code_at_store m addr n v m' a bs : mem_store m addr n v = Ok m' ->
  a + Z.of_nat (length bs) <= addr \/ addr + Z.of_nat n <= a ->
  code_at m a bs -> code_at m' a bs.
Proof.
  intros Hs Ha Hc i b Hi. pose proof (lookup_lt_Some _ _ _ Hi).
  rewrite (mem_store_other _ _ _ _ _ _ Hs) by lia. by apply Hc.
Qed.

(** Every byte of a range is mapped. *)
Definition mapped (m : memory) (addr : Z) (n : nat) : Prop :=
  forall i, addr <= i < addr + Z.of_nat n -> is_Some (m !! i).

Lemma mem_store_mapped m addr n v : mapped m addr n -> exists m', mem_store m addr n v = Ok m'.
Proof.
  revert m addr v. induction n as [|n IH]; intros m addr v Hm; cbn [mem_store]; [eauto|].
  destruct (Hm addr) as [b Hb]; [lia|]. rewrite Hb. apply IH. intros i Hi.
  rewrite lookup_insert_ne by lia. apply Hm. lia.
Qed.

Lemma mem_load_mapped m addr n v : mem_load m addr n = Ok v -> mapped m addr n.
Proof.
  revert addr v. induction n as [|n IH]; intros addr v; cbn [mem_load]; [intros _ i Hi; lia|].
  destruct (m !! addr) as [b|] eqn:Hb; [|done]. intros (w & Hw & _)%result_bind_Ok i Hi.
  destruct (decide (i = addr)) as [->|]; [eauto|]. apply (IH _ _ Hw). lia.
Qed.
