(* ===== verification/Float.v ===== *)
(** * Host floating point

    The simulator computes with the host's [float] and [double].  A floating-point
    value is its bit pattern, so that [bit_cast] is the identity; the operations decode
    the patterns into the specification floats of the standard library, which round to
    nearest even, and encode the result.  The pattern of a NaN that an operation
    produces is left open by the language: it is a parameter, [host_nan].  The math
    functions the simulator calls ([round], [trunc], [fmod], [fmin], ...) are defined
    on the decoded values. *)
From S2P Require Import Prelude.
From Stdlib Require Import SpecFloat.

(** A binary interchange format: significand width without the hidden bit, exponent
    width.  [fmt_prec], [fmt_emax] and [fmt_emin] are the parameters of [SpecFloat]. *)
Record format := Format { sig_width : Z; exp_width : Z }.
Definition binary32 := Format 23 8.
Definition binary64 := Format 52 11.
Definition fmt_bits (f : format) : Z := 1 + exp_width f + sig_width f.
Definition fmt_prec (f : format) : Z := sig_width f + 1.
Definition fmt_emax (f : format) : Z := 2 ^ (exp_width f - 1).
Definition fmt_emin (f : format) : Z := 3 - fmt_emax f - fmt_prec f.

(** What the host leaves open: the NaN produced from the operands' patterns. *)
Class HostFloat := { host_nan : format -> Z -> Z -> Z }.

Definition sign_bit (f : format) (x : Z) : bool := Z.testbit x (fmt_bits f - 1).
Definition exp_field (f : format) (x : Z) : Z := (x >> sig_width f) .& Z.ones (exp_width f).
Definition sig_field (f : format) (x : Z) : Z := x .& Z.ones (sig_width f).

Definition decode (f : format) (x : Z) : spec_float :=
  let s := sign_bit f x in
  let e := exp_field f x in
  let m := sig_field f x in
  if e =? 0 then
    match m with Zpos p => S754_finite s p (fmt_emin f) | _ => S754_zero s end
  else if e =? Z.ones (exp_width f) then
    if m =? 0 then S754_infinity s else S754_nan
  else
    match m + 2 ^ sig_width f with
    | Zpos p => S754_finite s p (e + fmt_emin f - 1)
    | _ => S754_nan
    end.

Definition pack (f : format) (s : bool) (e m : Z) : Z :=
  ((if s then 1 else 0) << (fmt_bits f - 1)) .| (e << sig_width f) .| m.

(** [nan] is the pattern used when the value is a NaN. *)
Definition encode (f : format) (nan : Z) (x : spec_float) : Z :=
  match x with
  | S754_zero s => pack f s 0 0
  | S754_infinity s => pack f s (Z.ones (exp_width f)) 0
  | S754_nan => nan
  | S754_finite s m e =>
      if Zpos m <? 2 ^ sig_width f then pack f s 0 (Zpos m)
      else pack f s (e - fmt_emin f + 1) (Zpos m - 2 ^ sig_width f)
  end.

Section Float.
Context `{HostFloat}.
Variable f : format.

Let prec := fmt_prec f.
Let emax := fmt_emax f.

Definition fp_add (x y : Z) : Z :=
  encode f (host_nan f x y) (SFadd prec emax (decode f x) (decode f y)).
Definition fp_sub (x y : Z) : Z :=
  encode f (host_nan f x y) (SFsub prec emax (decode f x) (decode f y)).
Definition fp_mul (x y : Z) : Z :=
  encode f (host_nan f x y) (SFmul prec emax (decode f x) (decode f y)).
Definition fp_div (x y : Z) : Z :=
  encode f (host_nan f x y) (SFdiv prec emax (decode f x) (decode f y)).
Definition fp_sqrt (x : Z) : Z :=
  encode f (host_nan f x x) (SFsqrt prec emax (decode f x)).
Definition fp_neg (x : Z) : Z := x .^ (1 << (fmt_bits f - 1)).
Definition fp_abs (x : Z) : Z := x .& Z.ones (fmt_bits f - 1).
Definition fp_eq (x y : Z) : bool := SFeqb (decode f x) (decode f y).
Definition fp_lt (x y : Z) : bool := SFltb (decode f x) (decode f y).
Definition fp_le (x y : Z) : bool := SFleb (decode f x) (decode f y).
Definition is_nan (x : Z) : bool :=
  match decode f x with S754_nan => true | _ => false end.

(** [fmin] and [fmax] return the number when one operand is a NaN. *)
Definition fp_min (x y : Z) : Z :=
  if is_nan x then y else if is_nan y then x else if fp_lt y x then y else x.
Definition fp_max (x y : Z) : Z :=
  if is_nan x then y else if is_nan y then x else if fp_lt x y then y else x.

(** Conversion of an integer to the nearest float. *)
Definition fp_of_int (z : Z) : Z :=
  encode f 0 (binary_normalize prec emax z 0 false).

(** The integer a finite, integral float denotes (truncation in general). *)
Definition sf_trunc (x : spec_float) : Z :=
  match x with
  | S754_finite s m e =>
      let q := if 0 <=? e then Zpos m * 2 ^ e else Zpos m / 2 ^ (- e) in
      if s then - q else q
  | _ => 0
  end.
Definition fp_to_int (x : Z) : Z := sf_trunc (decode f x).

(** Rounding to an integral value: [pick s q r d] chooses the magnitude between
    [q] and [q + 1] where the value is [q + r / d]. *)
Definition fp_integral (pick : bool -> Z -> Z -> Z -> Z) (x : Z) : Z :=
  match decode f x with
  | S754_finite s m e =>
      if 0 <=? e then x
      else
        let d := 2 ^ (- e) in
        let n := pick s (Zpos m / d) (Zpos m mod d) d in
        encode f 0 (binary_normalize prec emax (if s then - n else n) 0 s)
  | _ => x
  end.
Definition fp_trunc : Z -> Z := fp_integral (fun _ q _ _ => q).
Definition fp_floor : Z -> Z :=
  fp_integral (fun s q r _ => if s && negb (r =? 0) then q + 1 else q).
Definition fp_ceil : Z -> Z :=
  fp_integral (fun s q r _ => if negb s && negb (r =? 0) then q + 1 else q).
Definition fp_round : Z -> Z :=
  fp_integral (fun _ q r d => if d <=? 2 * r then q + 1 else q).

(** [fmod(x, 2)]. *)
Definition fp_mod2 (x : Z) : Z :=
  match decode f x with
  | S754_finite s m e =>
      let n := if 1 <=? e then 0 else (Zpos m mod 2 ^ (1 - e)) in
      encode f 0 (binary_normalize prec emax (if s then - n else n) (Z.min e 0) s)
  | S754_zero s => x
  | _ => host_nan f x x
  end.

(** [fpclassify]. *)
Inductive fp_class := FP_INFINITE | FP_NAN | FP_ZERO | FP_SUBNORMAL | FP_NORMAL.
Definition fpclassify (x : Z) : fp_class :=
  if exp_field f x =? Z.ones (exp_width f) then
    if sig_field f x =? 0 then FP_INFINITE else FP_NAN
  else if exp_field f x =? 0 then
    if sig_field f x =? 0 then FP_ZERO else FP_SUBNORMAL
  else FP_NORMAL.
End Float.

(** [static_cast] between the two formats. *)
Definition fp_convert `{HostFloat} (from to : format) (x : Z) : Z :=
  match decode from x with
  | S754_finite s m e =>
      encode to 0 (binary_normalize (fmt_prec to) (fmt_emax to)
                     (if s then Zneg m else Zpos m) e s)
  | S754_nan => host_nan to x x
  | y => encode to 0 y
  end.

(** The constants [1.0], [0.5] and [0.0] of a format. *)
Definition fp_one (f : format) : Z := pack f false (2 ^ (exp_width f - 1) - 1) 0.
Definition fp_half (f : format) : Z := pack f false (2 ^ (exp_width f - 1) - 2) 0.
Definition fp_zero (f : format) : Z := 0.

#[local] Instance test_host : HostFloat := {| host_nan f _ _ := pack f false (Z.ones (exp_width f)) (2 ^ (sig_width f - 1)) |}.
Example fp_sum : fp_add binary64 (fp_of_int binary64 3) (fp_of_int binary64 4) = fp_of_int binary64 7.
Proof. reflexivity. Qed.
Example fp_third :
  fp_div binary64 (fp_one binary64) (fp_of_int binary64 3) = 0x3FD5555555555555.
Proof. reflexivity. Qed.
Example fp_round_half :
  fp_round binary32 (fp_div binary32 (fp_of_int binary32 (-5)) (fp_of_int binary32 2))
  = fp_of_int binary32 (-3).
Proof. reflexivity. Qed.
Example fp_narrow : fp_convert binary64 binary32 0x3FD5555555555555 = 0x3EAAAAAB.
Proof. reflexivity. Qed.
