(* ===== verification/SimState.v ===== *)
(** * Simulator state

    The fields of [class Simulator] ([src/runtime/vm/simulator_riscv.h]), its register
    accessors with NaN boxing, the checked memory accesses and the control and status
    registers of [src/runtime/vm/simulator_riscv.cc], and the multiply-with-carry
    generator of [src/runtime/vm/random.cc] that fills clobbered registers.

    The simulator dereferences target addresses, so a host word has [XLEN] bits.
    [xregs_] and [fregs_] are arrays indexed by register number; a double is its bit
    pattern.  Host memory is a component of the state. *)
From S2P Require Import Prelude Utils Constants Memory.

(** [class Random]: the 64-bit state. *)
Definition MASK_32 : Z := 0xffffffff.
Definition NextState (state : Z) : Z :=
  let A := 0xffffda61 in
  let state_lo := state .& MASK_32 in
  let state_hi := (state >> 32) .& MASK_32 in
  uint64 (A * state_lo + state_hi).
Definition NextUInt32 (state : Z) : Z * Z :=
  let state := NextState state in (uint32 (state .& MASK_32), state).
Definition NextUInt64 (state : Z) : Z * Z :=
  let '(hi, state) := NextUInt32 state in
  let '(lo, state) := NextUInt32 state in
  ((hi << 32) .| lo, state).
Definition Random_Initialize `{Target} (seed : Z) : result Z :=
  _ ← ASSERT (negb (seed =? 0));
  Ok (NextState (NextState (NextState (NextState seed)))).

(** [enum CallKind] and [class Redirection]; [address_of_ecall] is the address of the
    object's [ecall_instruction_] field. *)
Inductive CallKind := kRuntimeCall | kLeafRuntimeCall | kLeafFloatRuntimeCall | kNativeCallWrapper.

Record Redirection := {
  address_of_ecall_instruction : Z;
  external_function : Z;
  call_kind : CallKind;
  argument_count : Z
}.

Record Simulator := {
  pc_ : Z;
  xregs_ : Z -> Z;
  instret_ : Z;
  reserved_address_ : Z;
  reserved_value_ : Z;
  fregs_ : Z -> Z;
  fcsr_ : Z;
  stack_limit_ : Z;
  overflow_stack_limit_ : Z;
  stack_base_ : Z;
  random_ : Z;
  mem_ : memory;
  redirections_ : list Redirection
}.

Definition with_pc (st : Simulator) (v : Z) : Simulator :=
  {| pc_ := v; xregs_ := xregs_ st; instret_ := instret_ st;
     reserved_address_ := reserved_address_ st; reserved_value_ := reserved_value_ st;
     fregs_ := fregs_ st; fcsr_ := fcsr_ st; stack_limit_ := stack_limit_ st;
     overflow_stack_limit_ := overflow_stack_limit_ st; stack_base_ := stack_base_ st;
     random_ := random_ st; mem_ := mem_ st; redirections_ := redirections_ st |}.
Definition with_xregs (st : Simulator) (v : Z -> Z) : Simulator :=
  {| pc_ := pc_ st; xregs_ := v; instret_ := instret_ st;
     reserved_address_ := reserved_address_ st; reserved_value_ := reserved_value_ st;
     fregs_ := fregs_ st; fcsr_ := fcsr_ st; stack_limit_ := stack_limit_ st;
     overflow_stack_limit_ := overflow_stack_limit_ st; stack_base_ := stack_base_ st;
     random_ := random_ st; mem_ := mem_ st; redirections_ := redirections_ st |}.
Definition with_instret (st : Simulator) (v : Z) : Simulator :=
  {| pc_ := pc_ st; xregs_ := xregs_ st; instret_ := v;
     reserved_address_ := reserved_address_ st; reserved_value_ := reserved_value_ st;
     fregs_ := fregs_ st; fcsr_ := fcsr_ st; stack_limit_ := stack_limit_ st;
     overflow_stack_limit_ := overflow_stack_limit_ st; stack_base_ := stack_base_ st;
     random_ := random_ st; mem_ := mem_ st; redirections_ := redirections_ st |}.
Definition with_reservation (st : Simulator) (a v : Z) : Simulator :=
  {| pc_ := pc_ st; xregs_ := xregs_ st; instret_ := instret_ st;
     reserved_address_ := a; reserved_value_ := v;
     fregs_ := fregs_ st; fcsr_ := fcsr_ st; stack_limit_ := stack_limit_ st;
     overflow_stack_limit_ := overflow_stack_limit_ st; stack_base_ := stack_base_ st;
     random_ := random_ st; mem_ := mem_ st; redirections_ := redirections_ st |}.
Definition with_fregs (st : Simulator) (v : Z -> Z) : Simulator :=
  {| pc_ := pc_ st; xregs_ := xregs_ st; instret_ := instret_ st;
     reserved_address_ := reserved_address_ st; reserved_value_ := reserved_value_ st;
     fregs_ := v; fcsr_ := fcsr_ st; stack_limit_ := stack_limit_ st;
     overflow_stack_limit_ := overflow_stack_limit_ st; stack_base_ := stack_base_ st;
     random_ := random_ st; mem_ := mem_ st; redirections_ := redirections_ st |}.
Definition with_random (st : Simulator) (v : Z) : Simulator :=
  {| pc_ := pc_ st; xregs_ := xregs_ st; instret_ := instret_ st;
     reserved_address_ := reserved_address_ st; reserved_value_ := reserved_value_ st;
     fregs_ := fregs_ st; fcsr_ := fcsr_ st; stack_limit_ := stack_limit_ st;
     overflow_stack_limit_ := overflow_stack_limit_ st; stack_base_ := stack_base_ st;
     random_ := v; mem_ := mem_ st; redirections_ := redirections_ st |}.
Definition with_mem (st : Simulator) (v : memory) : Simulator :=
  {| pc_ := pc_ st; xregs_ := xregs_ st; instret_ := instret_ st;
     reserved_address_ := reserved_address_ st; reserved_value_ := reserved_value_ st;
     fregs_ := fregs_ st; fcsr_ := fcsr_ st; stack_limit_ := stack_limit_ st;
     overflow_stack_limit_ := overflow_stack_limit_ st; stack_base_ := stack_base_ st;
     random_ := random_ st; mem_ := v; redirections_ := redirections_ st |}.
Definition with_redirections (st : Simulator) (v : list Redirection) : Simulator :=
  {| pc_ := pc_ st; xregs_ := xregs_ st; instret_ := instret_ st;
     reserved_address_ := reserved_address_ st; reserved_value_ := reserved_value_ st;
     fregs_ := fregs_ st; fcsr_ := fcsr_ st; stack_limit_ := stack_limit_ st;
     overflow_stack_limit_ := overflow_stack_limit_ st; stack_base_ := stack_base_ st;
     random_ := random_ st; mem_ := mem_ st; redirections_ := v |}.

(** An array update. *)
Definition array_set (a : Z -> Z) (i v : Z) : Z -> Z := fun j => if j =? i then v else a j.

Section State.
Context `{Target}.

Definition get_xreg (st : Simulator) (rs : Z) : Z := xregs_ st rs.
Definition set_xreg (st : Simulator) (rd value : Z) : Simulator :=
  if negb (rd =? ZR) then with_xregs st (array_set (xregs_ st) rd (uintx value)) else st.

Definition get_fregd (st : Simulator) (rs : Z) : Z := fregs_ st rs.
Definition set_fregd (st : Simulator) (rd value : Z) : Simulator :=
  with_fregs st (array_set (fregs_ st) rd value).

Definition kNaNBox : Z := 0xFFFFFFFF00000000.

Definition get_fregs (st : Simulator) (rs : Z) : Z :=
  let bits64 := fregs_ st rs in
  if negb ((bits64 .& kNaNBox) =? kNaNBox) then 0x7fc00000
  else uint32 bits64.
Definition set_fregs (st : Simulator) (rd value : Z) : Simulator :=
  let bits32 := value in
  let bits64 := bits32 .| kNaNBox in
  with_fregs st (array_set (fregs_ st) rd bits64).

Definition kBadLR : Z := uintx (-1).
Definition kEndSimulatingPC : Z := uintx (-2).

(** [pc_ += offset]. *)
Definition pc_add (st : Simulator) (offset : Z) : Simulator := with_pc st (uintx (pc_ st + offset)).

(** The typed accesses behind the checks. *)
Definition load_as (T : ctype) (m : memory) (addr : Z) : result Z :=
  v ← mem_load m addr (Z.to_nat (sizeof T)); Ok (cast T v).
Definition store_as (T : ctype) (m : memory) (addr value : Z) : result memory :=
  mem_store m addr (Z.to_nat (sizeof T)) (uwrap (bits_of T) value).

Definition KB : Z := 1024.
Definition check_access (T : ctype) (st : Simulator) (addr base : Z) : result unit :=
  if DEBUG then
    if (base =? SP) || (base =? FP) then
      if (stack_base_ st <? uintx (addr + sizeof T)) || (addr <? get_xreg st SP)
      then Err StackAccessError else Ok tt
    else
      let kPageSize := 16 * KB in
      if (addr <? kPageSize) || (uintx (Z.lnot kPageSize) <=? uintx (addr + sizeof T))
      then Err BadMemoryAccessError else Ok tt
  else Ok tt.

Definition MemoryRead (T : ctype) (st : Simulator) (addr base : Z) : result Z :=
  _ ← check_access T st addr base; load_as T (mem_ st) addr.

Definition MemoryWrite (T : ctype) (st : Simulator) (addr value base : Z) : result Simulator :=
  _ ← check_access T st addr base;
  m ← store_as T (mem_ st) addr value; Ok (with_mem st m).

(** [enum ControlStatusRegister] and the CSR accesses. *)
Definition csr_fcsr : Z := 0x003.
Definition csr_cycle : Z := 0xC00.
Definition csr_time : Z := 0xC01.
Definition csr_instret : Z := 0xC02.
Definition csr_cycleh : Z := 0xC80.
Definition csr_timeh : Z := 0xC81.
Definition csr_instreth : Z := 0xC82.

Definition CSRRead (st : Simulator) (csr : Z) : result Z :=
  if csr =? csr_fcsr then Ok (intx (fcsr_ st))
  else if csr =? csr_cycle then Ok (intx (instret_ st / 2))
  else if csr =? csr_time then Ok 0
  else if csr =? csr_instret then Ok (intx (instret_ st))
  else if negb TARGET_64 && (csr =? csr_cycleh) then Ok (intx ((instret_ st / 2) >> 32))
  else if negb TARGET_64 && (csr =? csr_timeh) then Ok 0
  else if negb TARGET_64 && (csr =? csr_instreth) then Ok (intx (instret_ st >> 32))
  else Err (UnknownCSRError csr).
Definition CSRWrite (st : Simulator) (csr value : Z) : result Simulator := Err Unimplemented.
Definition CSRSet (st : Simulator) (csr mask : Z) : result Simulator := Err Unimplemented.
Definition CSRClear (st : Simulator) (csr mask : Z) : result Simulator := Err Unimplemented.

Definition IllegalInstruction (st : Simulator) (encoding : Z) : result Simulator :=
  Err (IllegalInstructionError encoding).
Definition InterpretEBREAK (st : Simulator) (instr : Z) : result Simulator := Err EbreakError.
End State.
