(* ===== verification/SimInteger.v ===== *)
(** * Integer, atomic and system instructions of the simulator

    One definition per [Interpret...] method of [src/runtime/vm/simulator_riscv.cc] for
    the base integer, multiply/divide, atomic and CSR instructions, and the helpers
    [mul] ... [remuw].  [#if XLEN] sections become tests of [TARGET_64].  A shift by at
    least the operand's width, which C++ leaves undefined, is [UndefinedShift]; signed
    arithmetic wraps.  The atomics act on the sequential memory of the model, where a
    weak compare-exchange succeeds at once and memory orders have no effect. *)
From S2P Require Import Prelude Utils Constants Memory SimState.

Section Integer.
Context `{Target}.

Definition InterpretLUI (st : Simulator) (instr : Z) : result Simulator :=
  let st := set_xreg st (rd instr) (sign_extend_int64 (utype_imm instr)) in
  Ok (pc_add st Instr_length).

Definition InterpretAUIPC (st : Simulator) (instr : Z) : result Simulator :=
  let st := set_xreg st (rd instr) (pc_ st + sign_extend_int64 (utype_imm instr)) in
  Ok (pc_add st Instr_length).

Definition InterpretJAL (st : Simulator) (instr : Z) : result Simulator :=
  let st := set_xreg st (rd instr) (pc_ st + Instr_length) in
  Ok (pc_add st (sign_extend_int64 (jtype_imm instr))).

Definition InterpretJALR (st : Simulator) (instr : Z) : result Simulator :=
  let base := get_xreg st (rs1 instr) in
  let offset := uintx (itype_imm instr) in
  let st := set_xreg st (rd instr) (pc_ st + Instr_length) in
  Ok (with_pc st (uintx (base + offset))).

Definition branch_if (st : Simulator) (instr : Z) (taken : bool) : result Simulator :=
  if taken then Ok (pc_add st (btype_imm instr)) else Ok (pc_add st Instr_length).

Definition InterpretBRANCH (st : Simulator) (instr : Z) : result Simulator :=
  let a := get_xreg st (rs1 instr) in
  let b := get_xreg st (rs2 instr) in
  let f := funct3 instr in
  if f =? Funct3.BEQ then branch_if st instr (a =? b)
  else if f =? Funct3.BNE then branch_if st instr (negb (a =? b))
  else if f =? Funct3.BLT then branch_if st instr (intx a <? intx b)
  else if f =? Funct3.BGE then branch_if st instr (intx b <=? intx a)
  else if f =? Funct3.BLTU then branch_if st instr (a <? b)
  else if f =? Funct3.BGEU then branch_if st instr (b <=? a)
  else IllegalInstruction st instr.

Definition load_xreg (T : ctype) (st : Simulator) (addr rd base : Z) : result Simulator :=
  v ← MemoryRead T st addr base; Ok (set_xreg st rd v).

Definition InterpretLOAD (st : Simulator) (instr : Z) : result Simulator :=
  let addr := uintx (get_xreg st (rs1 instr) + itype_imm instr) in
  let f := funct3 instr in
  st ← (if f =? Funct3.LB then load_xreg int8_t st addr (rd instr) (rs1 instr)
        else if f =? Funct3.LH then load_xreg int16_t st addr (rd instr) (rs1 instr)
        else if f =? Funct3.LW then load_xreg int32_t st addr (rd instr) (rs1 instr)
        else if f =? Funct3.LBU then load_xreg uint8_t st addr (rd instr) (rs1 instr)
        else if f =? Funct3.LHU then load_xreg uint16_t st addr (rd instr) (rs1 instr)
        else if TARGET_64 && (f =? Funct3.LWU) then
          load_xreg uint32_t st addr (rd instr) (rs1 instr)
        else if TARGET_64 && (f =? Funct3.LD) then
          load_xreg int64_t st addr (rd instr) (rs1 instr)
        else IllegalInstruction st instr);
  Ok (pc_add st Instr_length).

Definition InterpretSTORE (st : Simulator) (instr : Z) : result Simulator :=
  let addr := uintx (get_xreg st (rs1 instr) + stype_imm instr) in
  let f := funct3 instr in
  let value := get_xreg st (rs2 instr) in
  st ← (if f =? Funct3.SB then MemoryWrite uint8_t st addr value (rs1 instr)
        else if f =? Funct3.SH then MemoryWrite uint16_t st addr value (rs1 instr)
        else if f =? Funct3.SW then MemoryWrite uint32_t st addr value (rs1 instr)
        else if TARGET_64 && (f =? Funct3.SD) then
          MemoryWrite uint64_t st addr value (rs1 instr)
        else IllegalInstruction st instr);
  Ok (pc_add st Instr_length).

(** [cond ? 1 : 0]. *)
Definition b2z (b : bool) : Z := if b then 1 else 0.

Definition InterpretOPIMM (st : Simulator) (instr : Z) : result Simulator :=
  let a := get_xreg st (rs1 instr) in
  let imm := itype_imm instr in
  let f := funct3 instr in
  let set v := Ok (set_xreg st (rd instr) v) in
  st ← (if f =? Funct3.ADDI then set (a + imm)
        else if f =? Funct3.SLTI then set (b2z (intx a <? intx imm))
        else if f =? Funct3.SLTIU then set (b2z (a <? uintx imm))
        else if f =? Funct3.XORI then set (a .^ uintx imm)
        else if f =? Funct3.ORI then set (a .| uintx imm)
        else if f =? Funct3.ANDI then set (a .& uintx imm)
        else if f =? Funct3.SLLI then set (a << shamt instr)
        else if f =? Funct3.SRI then
          if (funct7 instr .& 0x7E) =? Funct7.SRA then set (intx a >> shamt instr)
          else set (a >> shamt instr)
        else IllegalInstruction st instr);
  Ok (pc_add st Instr_length).

(** A shift of a 32-bit operand. *)
Definition shift32 (st : Simulator) (rd b v : Z) : result Simulator :=
  if b <? 32 then Ok (set_xreg st rd v) else Err UndefinedShift.

Definition InterpretOPIMM32 (st : Simulator) (instr : Z) : result Simulator :=
  let a := uint32 (get_xreg st (rs1 instr)) in
  let b := shamt instr in
  let f := funct3 instr in
  st ← (if f =? Funct3.ADDI then
          Ok (set_xreg st (rd instr)
                (sign_extend_uint32 (uint32 (a + uint32 (itype_imm instr)))))
        else if f =? Funct3.SLLI then
          shift32 st (rd instr) b (sign_extend_uint32 (uint32 (a << b)))
        else if f =? Funct3.SRI then
          if funct7 instr =? Funct7.SRA then
            shift32 st (rd instr) b
              (sign_extend_int32 (int32 (get_xreg st (rs1 instr)) >> b))
          else shift32 st (rd instr) b (sign_extend_uint32 (a >> b))
        else IllegalInstruction st instr);
  Ok (pc_add st Instr_length).

Definition InterpretOP_0 (st : Simulator) (instr : Z) : result Simulator :=
  let a := get_xreg st (rs1 instr) in
  let b := get_xreg st (rs2 instr) in
  let f := funct3 instr in
  let set v := Ok (set_xreg st (rd instr) v) in
  st ← (if f =? Funct3.ADD then set (a + b)
        else if f =? Funct3.SLL then set (a << (b .& (XLEN - 1)))
        else if f =? Funct3.SLT then set (b2z (intx a <? intx b))
        else if f =? Funct3.SLTU then set (b2z (a <? b))
        else if f =? Funct3.XOR then set (a .^ b)
        else if f =? Funct3.SR then set (a >> (b .& (XLEN - 1)))
        else if f =? Funct3.OR then set (a .| b)
        else if f =? Funct3.AND then set (a .& b)
        else IllegalInstruction st instr);
  Ok (pc_add st Instr_length).

(** *** Multiplication and division helpers; operands and results of type [intx_t] or
    [uintx_t] as in the source *)

Definition kHiShift : Z := XLEN / 2.
Definition kLoMask : Z := (1 << (XLEN / 2)) - 1.

Definition mul (a b : Z) : Z := intx (a * b).

Definition mulh (a b : Z) : Z :=
  let a_lo := uintx a .& kLoMask in
  let a_hi := a >> kHiShift in
  let b_lo := uintx b .& kLoMask in
  let b_hi := b >> kHiShift in
  let x := uintx (a_lo * b_lo) in
  let y := intx (uintx a_hi * b_lo) in
  let z := intx (a_lo * uintx b_hi) in
  let w := intx (a_hi * b_hi) in
  let r0 := intx (uintx ((x >> kHiShift) + uintx y)) in
  let r1 := intx (uintx ((uintx r0 .& kLoMask) + uintx z)) in
  intx (w + (r0 >> kHiShift) + (r1 >> kHiShift)).

Definition mulhu (a b : Z) : Z :=
  let a_lo := a .& kLoMask in
  let a_hi := a >> kHiShift in
  let b_lo := b .& kLoMask in
  let b_hi := b >> kHiShift in
  let x := uintx (a_lo * b_lo) in
  let y := uintx (a_hi * b_lo) in
  let z := uintx (a_lo * b_hi) in
  let w := uintx (a_hi * b_hi) in
  let r0 := uintx ((x >> kHiShift) + y) in
  let r1 := uintx ((r0 .& kLoMask) + z) in
  uintx (w + (r0 >> kHiShift) + (r1 >> kHiShift)).

Definition mulhsu (a b : Z) : Z :=
  let a_lo := uintx a .& kLoMask in
  let a_hi := a >> kHiShift in
  let b_lo := b .& kLoMask in
  let b_hi := b >> kHiShift in
  let x := uintx (a_lo * b_lo) in
  let y := intx (uintx a_hi * b_lo) in
  let z := uintx (a_lo * b_hi) in
  let w := intx (uintx a_hi * b_hi) in
  let r0 := intx (uintx ((x >> kHiShift) + uintx y)) in
  let r1 := uintx ((uintx r0 .& kLoMask) + z) in
  uintx (uintx (w + (r0 >> kHiShift)) + (r1 >> kHiShift)).

Definition div (a b : Z) : Z :=
  if b =? 0 then -1
  else if (b =? -1) && (a =? kMinIntX) then kMinIntX
  else Z.quot a b.

Definition divu (a b : Z) : Z := if b =? 0 then kMaxUIntX else a / b.

Definition rem (a b : Z) : Z :=
  if b =? 0 then a
  else if (b =? -1) && (a =? kMinIntX) then 0
  else Z.rem a b.

Definition remu (a b : Z) : Z := if b =? 0 then a else a mod b.

Definition kMinInt32 : Z := - 2 ^ 31.
Definition kMaxInt32 : Z := 2 ^ 31 - 1.
Definition kMaxUint32 : Z := 2 ^ 32 - 1.

Definition mulw (a b : Z) : Z := int32 (a * b).

Definition divw (a b : Z) : Z :=
  if b =? 0 then -1
  else if (b =? -1) && (a =? kMinInt32) then kMinInt32
  else Z.quot a b.

Definition divuw (a b : Z) : Z := if b =? 0 then kMaxUint32 else a / b.

Definition remw (a b : Z) : Z :=
  if b =? 0 then a
  else if (b =? -1) && (a =? kMinInt32) then 0
  else Z.rem a b.

Definition remuw (a b : Z) : Z := if b =? 0 then a else a mod b.

Definition InterpretOP_MULDIV (st : Simulator) (instr : Z) : result Simulator :=
  let a := get_xreg st (rs1 instr) in
  let b := get_xreg st (rs2 instr) in
  let f := funct3 instr in
  let set v := Ok (set_xreg st (rd instr) v) in
  st ← (if f =? Funct3.MUL then set (mul (intx a) (intx b))
        else if f =? Funct3.MULH then set (mulh (intx a) (intx b))
        else if f =? Funct3.MULHSU then set (mulhsu (intx a) b)
        else if f =? Funct3.MULHU then set (mulhu a b)
        else if f =? Funct3.DIV then set (div (intx a) (intx b))
        else if f =? Funct3.DIVU then set (divu a b)
        else if f =? Funct3.REM then set (rem (intx a) (intx b))
        else if f =? Funct3.REMU then set (remu a b)
        else IllegalInstruction st instr);
  Ok (pc_add st Instr_length).

Definition InterpretOP_SUB (st : Simulator) (instr : Z) : result Simulator :=
  let a := get_xreg st (rs1 instr) in
  let b := get_xreg st (rs2 instr) in
  let f := funct3 instr in
  let set v := Ok (set_xreg st (rd instr) v) in
  st ← (if f =? Funct3.ADD then set (a - b)
        else if f =? Funct3.SR then set (intx a >> (b .& (XLEN - 1)))
        else IllegalInstruction st instr);
  Ok (pc_add st Instr_length).

Definition InterpretOP (st : Simulator) (instr : Z) : result Simulator :=
  let f := funct7 instr in
  if f =? 0 then InterpretOP_0 st instr
  else if f =? Funct7.SUB then InterpretOP_SUB st instr
  else if f =? Funct7.MULDIV then InterpretOP_MULDIV st instr
  else IllegalInstruction st instr.

Definition InterpretOP32_0 (st : Simulator) (instr : Z) : result Simulator :=
  let a := uint32 (get_xreg st (rs1 instr)) in
  let f := funct3 instr in
  let set v := Ok (set_xreg st (rd instr) v) in
  let b5 := uint32 (get_xreg st (rs2 instr)) .& (32 - 1) in
  st ← (if TARGET_64 && (f =? Funct3.ADD) then
          set (sign_extend_uint32 (uint32 (a + uint32 (get_xreg st (rs2 instr)))))
        else if TARGET_64 && (f =? Funct3.SLL) then
          set (sign_extend_uint32 (uint32 (a << b5)))
        else if TARGET_64 && (f =? Funct3.SR) then
          set (sign_extend_uint32 (a >> b5))
        else IllegalInstruction st instr);
  Ok (pc_add st Instr_length).

Definition InterpretOP32_SUB (st : Simulator) (instr : Z) : result Simulator :=
  let a := uint32 (get_xreg st (rs1 instr)) in
  let f := funct3 instr in
  let set v := Ok (set_xreg st (rd instr) v) in
  let b5 := uint32 (get_xreg st (rs2 instr)) .& (32 - 1) in
  st ← (if TARGET_64 && (f =? Funct3.ADD) then
          set (sign_extend_uint32 (uint32 (a - uint32 (get_xreg st (rs2 instr)))))
        else if TARGET_64 && (f =? Funct3.SR) then
          set (sign_extend_int32 (int32 (get_xreg st (rs1 instr)) >> b5))
        else IllegalInstruction st instr);
  Ok (pc_add st Instr_length).

Definition InterpretOP32_MULDIV (st : Simulator) (instr : Z) : result Simulator :=
  let a := get_xreg st (rs1 instr) in
  let b := get_xreg st (rs2 instr) in
  let f := funct3 instr in
  let set v := Ok (set_xreg st (rd instr) v) in
  st ← (if TARGET_64 && (f =? Funct3.MULW) then
          set (sign_extend_int32 (mulw (int32 a) (int32 b)))
        else if TARGET_64 && (f =? Funct3.DIVW) then
          set (sign_extend_int32 (divw (int32 a) (int32 b)))
        else if TARGET_64 && (f =? Funct3.DIVUW) then
          set (sign_extend_uint32 (divuw (uint32 a) (uint32 b)))
        else if TARGET_64 && (f =? Funct3.REMW) then
          set (sign_extend_int32 (remw (int32 a) (int32 b)))
        else if TARGET_64 && (f =? Funct3.REMUW) then
          set (sign_extend_uint32 (remuw (uint32 a) (uint32 b)))
        else IllegalInstruction st instr);
  Ok (pc_add st Instr_length).

Definition InterpretOP32 (st : Simulator) (instr : Z) : result Simulator :=
  let f := funct7 instr in
  if TARGET_64 && (f =? 0) then InterpretOP32_0 st instr
  else if TARGET_64 && (f =? Funct7.SUB) then InterpretOP32_SUB st instr
  else if TARGET_64 && (f =? Funct7.MULDIV) then InterpretOP32_MULDIV st instr
  else IllegalInstruction st instr.

Definition InterpretMISCMEM (st : Simulator) (instr : Z) : result Simulator :=
  let f := funct3 instr in
  st ← (if f =? Funct3.FENCE then Ok st
        else if f =? Funct3.FENCEI then Ok st
        else IllegalInstruction st instr);
  Ok (pc_add st Instr_length).

(** *** Atomics: [type] is the template argument *)

Definition sign_extend_as (T : ctype) (v : Z) : Z :=
  if bits_of T =? 32 then
    if is_signed T then sign_extend_int32 v else sign_extend_uint32 v
  else if is_signed T then sign_extend_int64 v else sign_extend_uint64 v.

Definition atomic_address (T : ctype) (st : Simulator) (instr : Z) : result Z :=
  let addr := get_xreg st (rs1 instr) in
  if negb ((addr .& (sizeof T - 1)) =? 0) then Err MisalignedAtomicError else Ok addr.

Definition InterpretLR (T : ctype) (st : Simulator) (instr : Z) : result Simulator :=
  addr ← atomic_address T st instr;
  v ← load_as T (mem_ st) addr;
  let st := with_reservation st addr (uintx v) in
  Ok (set_xreg st (rd instr) (reserved_value_ st)).

Definition InterpretSC (T : ctype) (st : Simulator) (instr : Z) : result Simulator :=
  addr ← atomic_address T st instr;
  if negb (addr =? reserved_address_ st) then Ok (set_xreg st (rd instr) 1)
  else
    let expected := cast T (reserved_value_ st) in
    let desired := cast T (get_xreg st (rs2 instr)) in
    current ← load_as T (mem_ st) addr;
    if current =? expected then
      m ← store_as T (mem_ st) addr desired;
      Ok (set_xreg (with_mem st m) (rd instr) 0)
    else Ok (set_xreg st (rd instr) 1).

(** The read-modify-write shared by the [InterpretAMO...] templates: [op] gives the
    stored value from the one in memory and the operand. *)
Definition amo (T : ctype) (op : Z -> Z -> Z) (st : Simulator) (instr : Z) : result Simulator :=
  addr ← atomic_address T st instr;
  let arg := cast T (get_xreg st (rs2 instr)) in
  old ← load_as T (mem_ st) addr;
  m ← store_as T (mem_ st) addr (op old arg);
  Ok (set_xreg (with_mem st m) (rd instr) (sign_extend_as T old)).

Definition InterpretAMOSWAP (T : ctype) := amo T (fun _ desired => desired).
Definition InterpretAMOADD (T : ctype) := amo T (fun old arg => cast T (old + arg)).
Definition InterpretAMOXOR (T : ctype) := amo T (fun old arg => old .^ arg).
Definition InterpretAMOAND (T : ctype) := amo T (fun old arg => old .& arg).
Definition InterpretAMOOR (T : ctype) := amo T (fun old arg => old .| arg).
Definition InterpretAMOMIN (T : ctype) :=
  amo T (fun expected compare => if expected <? compare then expected else compare).
Definition InterpretAMOMAX (T : ctype) :=
  amo T (fun expected compare => if compare <? expected then expected else compare).

Definition InterpretAMO32 (st : Simulator) (instr : Z) : result Simulator :=
  let f := funct5 instr in
  st ← (if f =? Funct5.LR then InterpretLR int32_t st instr
        else if f =? Funct5.SC then InterpretSC int32_t st instr
        else if f =? Funct5.AMOSWAP then InterpretAMOSWAP int32_t st instr
        else if f =? Funct5.AMOADD then InterpretAMOADD int32_t st instr
        else if f =? Funct5.AMOXOR then InterpretAMOXOR int32_t st instr
        else if f =? Funct5.AMOAND then InterpretAMOAND int32_t st instr
        else if f =? Funct5.AMOOR then InterpretAMOOR int32_t st instr
        else if f =? Funct5.AMOMIN then InterpretAMOMIN int32_t st instr
        else if f =? Funct5.AMOMAX then InterpretAMOMAX int32_t st instr
        else if f =? Funct5.AMOMINU then InterpretAMOMIN uint32_t st instr
        else if f =? Funct5.AMOMAXU then InterpretAMOMAX uint32_t st instr
        else IllegalInstruction st instr);
  Ok (pc_add st Instr_length).

Definition InterpretAMO64 (st : Simulator) (instr : Z) : result Simulator :=
  let f := funct5 instr in
  st ← (if negb TARGET_64 then IllegalInstruction st instr
        else if f =? Funct5.LR then InterpretLR int64_t st instr
        else if f =? Funct5.SC then InterpretSC int64_t st instr
        else if f =? Funct5.AMOSWAP then InterpretAMOSWAP int64_t st instr
        else if f =? Funct5.AMOADD then InterpretAMOADD int64_t st instr
        else if f =? Funct5.AMOXOR then InterpretAMOXOR int64_t st instr
        else if f =? Funct5.AMOAND then InterpretAMOAND int64_t st instr
        else if f =? Funct5.AMOOR then InterpretAMOOR int64_t st instr
        else if f =? Funct5.AMOMIN then InterpretAMOMIN int64_t st instr
        else if f =? Funct5.AMOMAX then InterpretAMOMAX int64_t st instr
        else if f =? Funct5.AMOMINU then InterpretAMOMIN uint64_t st instr
        else if f =? Funct5.AMOMAXU then InterpretAMOMAX uint64_t st instr
        else IllegalInstruction st instr);
  Ok (pc_add st Instr_length).

Definition InterpretAMO (st : Simulator) (instr : Z) : result Simulator :=
  let f := funct3 instr in
  if f =? Funct3.WIDTH32 then InterpretAMO32 st instr
  else if f =? Funct3.WIDTH64 then InterpretAMO64 st instr
  else IllegalInstruction st instr.
End Integer.
