(* ===== verification/SimFloat.v ===== *)
(** * Floating-point instructions of the simulator

    The [Interpret...] methods of [src/runtime/vm/simulator_riscv.cc] for the F and D
    extensions, with the static helpers [fclass], [roundeven], [Round] and [fcvt...].
    The helpers that the source writes once for [float] and once for [double] are one
    definition with the format as argument.  The assertions of [fclass], on the NaN
    constants of the host, and of [roundeven], on the parity of its result, are left out. *)
From S2P Require Import Prelude Utils Constants Memory Float SimState SimInteger.

Section FloatingPoint.
Context `{Target} `{HostFloat}.

Definition InterpretLOADFP (st : Simulator) (instr : Z) : result Simulator :=
  let addr := uintx (get_xreg st (rs1 instr) + itype_imm instr) in
  let f := funct3 instr in
  st ← (if f =? Funct3.S then
          v ← MemoryRead uint32_t st addr (rs1 instr); Ok (set_fregs st (frd instr) v)
        else if f =? Funct3.D then
          v ← MemoryRead uint64_t st addr (rs1 instr); Ok (set_fregd st (frd instr) v)
        else IllegalInstruction st instr);
  Ok (pc_add st Instr_length).

Definition InterpretSTOREFP (st : Simulator) (instr : Z) : result Simulator :=
  let addr := uintx (get_xreg st (rs1 instr) + stype_imm instr) in
  let f := funct3 instr in
  st ← (if f =? Funct3.S then
          MemoryWrite uint32_t st addr (get_fregs st (frs2 instr)) (rs1 instr)
        else if f =? Funct3.D then
          MemoryWrite uint64_t st addr (get_fregd st (frs2 instr)) (rs1 instr)
        else IllegalInstruction st instr);
  Ok (pc_add st Instr_length).

(** The four multiply-add methods differ in the expression they evaluate. *)
Definition multiply_add (expr : format -> Z -> Z -> Z -> Z)
    (st : Simulator) (instr : Z) : result Simulator :=
  let f := funct2 instr in
  st ← (if f =? Funct2.F2_S then
          Ok (set_fregs st (frd instr)
                (expr binary32 (get_fregs st (frs1 instr)) (get_fregs st (frs2 instr))
                   (get_fregs st (frs3 instr))))
        else if f =? Funct2.F2_D then
          Ok (set_fregd st (frd instr)
                (expr binary64 (get_fregd st (frs1 instr)) (get_fregd st (frs2 instr))
                   (get_fregd st (frs3 instr))))
        else IllegalInstruction st instr);
  Ok (pc_add st Instr_length).

Definition InterpretFMADD :=
  multiply_add (fun f rs1 rs2 rs3 => fp_add f (fp_mul f rs1 rs2) rs3).
Definition InterpretFMSUB :=
  multiply_add (fun f rs1 rs2 rs3 => fp_sub f (fp_mul f rs1 rs2) rs3).
Definition InterpretFNMSUB :=
  multiply_add (fun f rs1 rs2 rs3 => fp_add f (fp_neg f (fp_mul f rs1 rs2)) rs3).
Definition InterpretFNMADD :=
  multiply_add (fun f rs1 rs2 rs3 => fp_sub f (fp_neg f (fp_mul f rs1 rs2)) rs3).

Definition is_quiet (f : format) (x : Z) : bool :=
  negb ((x .& (1 << (sig_width f - 1))) =? 0).

Definition fclass (f : format) (x : Z) : Z :=
  match fpclassify f x with
  | FP_INFINITE => if sign_bit f x then FClass.kFClassNegInfinity else FClass.kFClassPosInfinity
  | FP_NAN => if is_quiet f x then FClass.kFClassQuietNan else FClass.kFClassSignallingNan
  | FP_ZERO => if sign_bit f x then FClass.kFClassNegZero else FClass.kFClassPosZero
  | FP_SUBNORMAL =>
      if sign_bit f x then FClass.kFClassNegSubnormal else FClass.kFClassPosSubnormal
  | FP_NORMAL => if sign_bit f x then FClass.kFClassNegNormal else FClass.kFClassPosNormal
  end.

Definition roundeven (f : format) (x : Z) : Z :=
  let rounded := fp_round f x in
  if fp_eq f (fp_abs f (fp_sub f x rounded)) (fp_half f) then
    if negb (fp_eq f (fp_mod2 f rounded) (fp_zero f)) then
      if fp_lt f (fp_zero f) rounded then fp_sub f rounded (fp_one f)
      else fp_add f rounded (fp_one f)
    else rounded
  else rounded.

Definition Round (f : format) (x rounding : Z) : result Z :=
  if rounding =? RoundingMode.RNE then Ok (roundeven f x)
  else if rounding =? RoundingMode.RTZ then Ok (fp_trunc f x)
  else if rounding =? RoundingMode.RDN then Ok (fp_floor f x)
  else if rounding =? RoundingMode.RUP then Ok (fp_ceil f x)
  else if rounding =? RoundingMode.RMM then Ok (fp_round f x)
  else if rounding =? RoundingMode.DYN then Err Unimplemented
  else Err FatalError.

(** The eight [fcvt...] conversions: saturate at the limits of the integer type, send
    NaN to the maximum. *)
Definition fcvt (f : format) (lo hi : Z) (x rounding : Z) : result Z :=
  if fp_lt f x (fp_of_int f lo) then Ok lo
  else if fp_lt f x (fp_of_int f hi) then
    r ← Round f x rounding; Ok (fp_to_int f r)
  else Ok hi.

Definition kMinInt64 : Z := - 2 ^ 63.
Definition kMaxInt64 : Z := 2 ^ 63 - 1.
Definition kMaxUint64 : Z := 2 ^ 64 - 1.
Definition fcvtws := fcvt binary32 kMinInt32 kMaxInt32.
Definition fcvtwus := fcvt binary32 0 kMaxUint32.
Definition fcvtls := fcvt binary32 kMinInt64 kMaxInt64.
Definition fcvtlus := fcvt binary32 0 kMaxUint64.
Definition fcvtwd := fcvt binary64 kMinInt32 kMaxInt32.
Definition fcvtwud := fcvt binary64 0 kMaxUint32.
Definition fcvtld := fcvt binary64 kMinInt64 kMaxInt64.
Definition fcvtlud := fcvt binary64 0 kMaxUint64.

(** The sign injections on the bit patterns of an [n]-bit format. *)
Definition sign_inject (n f rs1 rs2 : Z) : option Z :=
  let kSignMask := 1 << (n - 1) in
  let body := Z.ldiff rs1 kSignMask in
  if f =? Funct3.J then Some (body .| (rs2 .& kSignMask))
  else if f =? Funct3.JN then Some (body .| Z.ldiff kSignMask rs2)
  else if f =? Funct3.JX then Some (body .| ((rs1 .^ rs2) .& kSignMask))
  else None.

(** Cases of [InterpretOPFP] that the source writes for both formats. *)
Definition opfp_compare (fmt : format) (st : Simulator) (instr a b : Z) : result Simulator :=
  let f := funct3 instr in
  if f =? Funct3.FEQ then Ok (set_xreg st (rd instr) (b2z (fp_eq fmt a b)))
  else if f =? Funct3.FLT then Ok (set_xreg st (rd instr) (b2z (fp_lt fmt a b)))
  else if f =? Funct3.FLE then Ok (set_xreg st (rd instr) (b2z (fp_le fmt a b)))
  else IllegalInstruction st instr.

(** [FCVTint..]: float to integer, by the [rs2] field. *)
Definition opfp_to_int (fmt : format) (st : Simulator) (instr x : Z) : result Simulator :=
  let k := rs2 instr in
  if k =? FcvtRs2.W then
    v ← fcvt fmt kMinInt32 kMaxInt32 x (rounding instr);
    Ok (set_xreg st (rd instr) (sign_extend_int32 v))
  else if k =? FcvtRs2.WU then
    v ← fcvt fmt 0 kMaxUint32 x (rounding instr);
    Ok (set_xreg st (rd instr) (sign_extend_uint32 v))
  else if TARGET_64 && (k =? FcvtRs2.L) then
    v ← fcvt fmt kMinInt64 kMaxInt64 x (rounding instr);
    Ok (set_xreg st (rd instr) (sign_extend_int64 v))
  else if TARGET_64 && (k =? FcvtRs2.LU) then
    v ← fcvt fmt 0 kMaxUint64 x (rounding instr);
    Ok (set_xreg st (rd instr) (sign_extend_uint64 v))
  else IllegalInstruction st instr.

(** [FCVT..int]: integer to float. *)
Definition opfp_of_int (fmt : format) (st : Simulator) (instr : Z) : option Z :=
  let x := get_xreg st (rs1 instr) in
  let k := rs2 instr in
  if k =? FcvtRs2.W then Some (fp_of_int fmt (int32 x))
  else if k =? FcvtRs2.WU then Some (fp_of_int fmt (uint32 x))
  else if TARGET_64 && (k =? FcvtRs2.L) then Some (fp_of_int fmt (int64 x))
  else if TARGET_64 && (k =? FcvtRs2.LU) then Some (fp_of_int fmt (uint64 x))
  else None.

Definition set_fregs_or_illegal (st : Simulator) (instr : Z) (v : option Z) : result Simulator :=
  match v with
  | Some v => Ok (set_fregs st (frd instr) v)
  | None => IllegalInstruction st instr
  end.
Definition set_fregd_or_illegal (st : Simulator) (instr : Z) (v : option Z) : result Simulator :=
  match v with
  | Some v => Ok (set_fregd st (frd instr) v)
  | None => IllegalInstruction st instr
  end.

(** The single-precision cases of [InterpretOPFP]. *)
Definition opfp_single (st : Simulator) (instr : Z) : option (result Simulator) :=
  let a := get_fregs st (frs1 instr) in
  let b := get_fregs st (frs2 instr) in
  let f3 := funct3 instr in
  let f := funct7 instr in
  let set v := Some (Ok (set_fregs st (frd instr) v)) in
  if f =? Funct7.FADDS then set (fp_add binary32 a b)
  else if f =? Funct7.FSUBS then set (fp_sub binary32 a b)
  else if f =? Funct7.FMULS then set (fp_mul binary32 a b)
  else if f =? Funct7.FDIVS then set (fp_div binary32 a b)
  else if f =? Funct7.FSQRTS then set (fp_sqrt binary32 a)
  else if f =? Funct7.FSGNJS then Some (set_fregs_or_illegal st instr (sign_inject 32 f3 a b))
  else if f =? Funct7.FMINMAXS then
    if f3 =? Funct3.MIN then set (fp_min binary32 a b)
    else if f3 =? Funct3.MAX then set (fp_max binary32 a b)
    else Some (IllegalInstruction st instr)
  else if f =? Funct7.FCMPS then Some (opfp_compare binary32 st instr a b)
  else if f =? Funct7.FCLASSS then
    if f3 =? 1 then Some (Ok (set_xreg st (rd instr) (fclass binary32 a)))
    else if f3 =? 0 then Some (Ok (set_xreg st (rd instr) (sign_extend_int32 (int32 a))))
    else Some (IllegalInstruction st instr)
  else if f =? Funct7.FCVTintS then Some (opfp_to_int binary32 st instr a)
  else if f =? Funct7.FCVTSint then
    Some (set_fregs_or_illegal st instr (opfp_of_int binary32 st instr))
  else if f =? Funct7.FMVWX then set (uint32 (get_xreg st (rs1 instr)))
  else None.

(** The double-precision cases. *)
Definition opfp_double (st : Simulator) (instr : Z) : result Simulator :=
  let a := get_fregd st (frs1 instr) in
  let b := get_fregd st (frs2 instr) in
  let f3 := funct3 instr in
  let f := funct7 instr in
  let set v := Ok (set_fregd st (frd instr) v) in
  if f =? Funct7.FADDD then set (fp_add binary64 a b)
  else if f =? Funct7.FSUBD then set (fp_sub binary64 a b)
  else if f =? Funct7.FMULD then set (fp_mul binary64 a b)
  else if f =? Funct7.FDIVD then set (fp_div binary64 a b)
  else if f =? Funct7.FSQRTD then set (fp_sqrt binary64 a)
  else if f =? Funct7.FSGNJD then set_fregd_or_illegal st instr (sign_inject 64 f3 a b)
  else if f =? Funct7.FMINMAXD then
    if f3 =? Funct3.MIN then set (fp_min binary64 a b)
    else if f3 =? Funct3.MAX then set (fp_max binary64 a b)
    else IllegalInstruction st instr
  else if f =? Funct7.FCVTS then
    if rs2 instr =? 1 then Ok (set_fregs st (frd instr) (fp_convert binary64 binary32 a))
    else IllegalInstruction st instr
  else if f =? Funct7.FCVTD then
    if rs2 instr =? 0 then
      set (fp_convert binary32 binary64 (get_fregs st (frs1 instr)))
    else IllegalInstruction st instr
  else if f =? Funct7.FCMPD then opfp_compare binary64 st instr a b
  else if f =? Funct7.FCLASSD then
    if f3 =? 1 then Ok (set_xreg st (rd instr) (fclass binary64 a))
    else if TARGET_64 && (f3 =? 0) then Ok (set_xreg st (rd instr) (int64 a))
    else IllegalInstruction st instr
  else if f =? Funct7.FCVTintD then opfp_to_int binary64 st instr a
  else if f =? Funct7.FCVTDint then
    set_fregd_or_illegal st instr (opfp_of_int binary64 st instr)
  else if TARGET_64 && (f =? Funct7.FMVDX) then set (get_xreg st (rs1 instr))
  else IllegalInstruction st instr.

Definition InterpretOPFP (st : Simulator) (instr : Z) : result Simulator :=
  st ← match opfp_single st instr with
       | Some r => r
       | None => opfp_double st instr
       end;
  Ok (pc_add st Instr_length).
End FloatingPoint.
