(* ===== verification/Simulator.v ===== *)
(** * The simulator: dispatch, calls and the execution loop

    [Simulator::Interpret] on both instruction lengths, system instructions, calls from
    simulated code to host functions ([InterpretECALL], [class Redirection]), calls from
    the host into simulated code ([Call], [CallX], ...) and [Simulator::Execute], from
    [src/runtime/vm/simulator_riscv.cc] and [.h].

    A host function is not code of the simulator: it is the parameter [host_call], which
    receives the arguments the simulator passes and either returns a value or unwinds
    through [JumpToFrame], in both cases in the state it leaves.  Tracing and printing
    have no effect on the simulated state and are left out.  [Execute] loops until the
    end-of-simulation address is reached, so the model runs it with fuel. *)
From S2P Require Import Prelude Utils Constants Memory Float SimState SimInteger SimFloat.

(** The arguments of the four kinds of host function. *)
Inductive host_args :=
| RuntimeArgs (arguments : Z)
| LeafArgs (r : list Z)
| LeafFloatArgs (d : list Z)
| NativeArgs (arguments target : Z).

Inductive host_outcome :=
| Returned (value : Z) (st : Simulator)
| Threw (st : Simulator).

Class Host := {
  host_call (external : Z) (args : host_args) (st : Simulator) : result host_outcome
}.

Section Redirections.
Context `{Target}.

(** [Redirection::Get]: the list keeps one entry per function; [fresh] is the address the
    allocator gives to the new entry's instruction field. *)
Definition Redirection_Get (list_ : list Redirection) (fresh function : Z)
    (kind : CallKind) (count : Z) : Redirection * list Redirection :=
  match List.find (fun current => external_function current =? function) list_ with
  | Some current => (current, list_)
  | None =>
      let redirection := {| address_of_ecall_instruction := fresh;
                            external_function := function;
                            call_kind := kind; argument_count := count |} in
      (redirection, redirection :: list_)
  end.

(** The object whose instruction field is at the given address. *)
Definition FromECallInstruction (list_ : list Redirection) (ecall_instruction : Z)
    : result Redirection :=
  match List.find (fun current => address_of_ecall_instruction current =? ecall_instruction)
          list_ with
  | Some current => Ok current
  | None => Err (HostFault ecall_instruction)
  end.

Definition FunctionForRedirect (list_ : list Redirection) (address_of_ecall : Z) : Z :=
  match List.find (fun current => address_of_ecall_instruction current =? address_of_ecall)
          list_ with
  | Some current => external_function current
  | None => 0
  end.

(** The constructor of [Redirection] stores the redirect instruction in the object. *)
Definition RedirectExternalReference (st : Simulator) (fresh function : Z)
    (kind : CallKind) (count : Z) : result (Z * Simulator) :=
  let '(redirection, list_) := Redirection_Get (redirections_ st) fresh function kind count in
  if (length list_ =? length (redirections_ st))%nat
  then Ok (address_of_ecall_instruction redirection, st)
  else
    m ← mem_store (mem_ st) fresh 4 kSimulatorRedirectInstruction;
    Ok (address_of_ecall_instruction redirection, with_redirections (with_mem st m) list_).
End Redirections.

Section Calls.
Context `{Target}.

(** One iteration of the clobbering loops of [PrepareCall] and
    [ClobberVolatileRegisters]. *)
Definition clobber_xreg (st : Simulator) (i : Z) : Simulator :=
  if negb ((kAbiVolatileCpuRegs .& (1 << i)) =? 0) then
    let '(v, random) := NextUInt64 (random_ st) in
    with_random (with_xregs st (array_set (xregs_ st) i (uintx v))) random
  else st.
Definition clobber_freg (st : Simulator) (i : Z) : Simulator :=
  if negb ((kAbiVolatileFpuRegs .& (1 << i)) =? 0)
  then with_fregs st (array_set (fregs_ st) i kNaNBox) else st.

Definition ClobberVolatileRegisters (st : Simulator) : Simulator :=
  if DEBUG then
    let st := with_reservation st 0 0 in
    let st := fold_left clobber_xreg (seqZ 0 kNumberOfCpuRegisters) st in
    fold_left clobber_freg (seqZ 0 kNumberOfFpuRegisters) st
  else st.

Record PreservedRegisters := { preserved_xregs : Z -> Z; preserved_fregs : Z -> Z }.

Definition SavePreservedRegisters (st : Simulator) : PreservedRegisters :=
  {| preserved_xregs := xregs_ st; preserved_fregs := fregs_ st |}.

Definition PrepareCall (st : Simulator) : PreservedRegisters * Simulator :=
  (SavePreservedRegisters st,
   if DEBUG then
     let st := fold_left clobber_xreg (seqZ 0 kNumberOfCpuRegisters) st in
     fold_left clobber_freg (seqZ 0 kNumberOfFpuRegisters) st
   else st).

Definition kPreservedAtCall : Z :=
  kAbiPreservedCpuRegs .| (1 << TP) .| (1 << GP) .| (1 << SP) .| (1 << FP).

Definition check_xreg (preserved : PreservedRegisters) (st : Simulator) (i : Z) : result unit :=
  if negb ((kPreservedAtCall .& (1 << i)) =? 0)
     && negb (preserved_xregs preserved i =? xregs_ st i)
  then Err (NotPreservedError i) else Ok tt.
Definition check_freg (preserved : PreservedRegisters) (st : Simulator) (i : Z) : result unit :=
  if ((kAbiVolatileFpuRegs .& (1 << i)) =? 0)
     && negb (preserved_fregs preserved i =? fregs_ st i)
  then Err (NotPreservedError i) else Ok tt.

(** A loop that stops at the first failing iteration. *)
Fixpoint for_each (l : list Z) (body : Z -> result unit) : result unit :=
  match l with
  | [] => Ok tt
  | i :: l => _ ← body i; for_each l body
  end.

Definition CheckPreservedRegisters (preserved : PreservedRegisters) (st : Simulator)
    : result unit :=
  if DEBUG then
    if negb (preserved_xregs preserved SP =? xregs_ st SP) then Err (NotPreservedError SP)
    else
      _ ← for_each (seqZ 0 kNumberOfCpuRegisters) (check_xreg preserved st);
      for_each (seqZ 0 kNumberOfFpuRegisters) (check_freg preserved st)
  else Ok tt.
End Calls.

Section Dispatch.
Context `{Target} `{HostFloat} `{Host}.

(** The host call proper, between [setjmp] and the return. *)
Definition call_redirection (redirection : Redirection) (st : Simulator) : result host_outcome :=
  let external := external_function redirection in
  match call_kind redirection with
  | kRuntimeCall =>
      r ← host_call external (RuntimeArgs (get_xreg st A0)) st;
      Ok (match r with
          | Returned _ st => Returned 0 (ClobberVolatileRegisters st)
          | Threw st => Threw st
          end)
  | kLeafRuntimeCall =>
      _ ← ASSERT ((0 <=? argument_count redirection) && (argument_count redirection <=? 8));
      r ← host_call external
            (LeafArgs (map (fun r => intx (get_xreg st r)) [A0; A1; A2; A3; A4; A5; A6; A7])) st;
      Ok (match r with
          | Returned res st => Returned res (set_xreg (ClobberVolatileRegisters st) A0 res)
          | Threw st => Threw st
          end)
  | kLeafFloatRuntimeCall =>
      _ ← ASSERT ((0 <=? argument_count redirection) && (argument_count redirection <=? 8));
      r ← host_call external
            (LeafFloatArgs (map (get_fregd st) [FA0; FA1; FA2; FA3; FA4; FA5; FA6; FA7])) st;
      Ok (match r with
          | Returned res st => Returned res (set_fregd (ClobberVolatileRegisters st) FA0 res)
          | Threw st => Threw st
          end)
  | kNativeCallWrapper =>
      r ← host_call external (NativeArgs (get_xreg st A0) (get_xreg st A1)) st;
      Ok (match r with
          | Returned _ st => Returned 0 (ClobberVolatileRegisters st)
          | Threw st => Threw st
          end)
  end.

Definition InterpretECALL (st : Simulator) (instr : Z) : result Simulator :=
  if negb (rs1 instr =? ZR) then Ok (pc_add st Instr_length)
  else if negb (IsAligned (get_xreg st SP) 16) then Err StackMisalignedError
  else
    let saved_ra := get_xreg st RA in
    redirection ← FromECallInstruction (redirections_ st) (pc_ st);
    r ← call_redirection redirection st;
    Ok (match r with
        | Returned _ st => with_pc st saved_ra
        | Threw st => st
        end).

Definition InterpretSYSTEM (st : Simulator) (instr : Z) : result Simulator :=
  let f := funct3 instr in
  if f =? 0 then
    if funct12 instr =? Funct12.ECALL then InterpretECALL st instr
    else if funct12 instr =? Funct12.EBREAK then InterpretEBREAK st instr
    else IllegalInstruction st instr
  else
    st ← (if f =? Funct3.CSRRW then
            if rd instr =? ZR then CSRWrite st (csr instr) (intx (get_xreg st (rs1 instr)))
            else
              result ← CSRRead st (csr instr);
              st ← CSRWrite st (csr instr) (intx (get_xreg st (rs1 instr)));
              Ok (set_xreg st (rd instr) result)
          else if f =? Funct3.CSRRS then
            result ← CSRRead st (csr instr);
            st ← (if rs1 instr =? ZR then Ok st
                  else CSRSet st (csr instr) (intx (get_xreg st (rs1 instr))));
            Ok (set_xreg st (rd instr) result)
          else if f =? Funct3.CSRRC then
            result ← CSRRead st (csr instr);
            st ← (if rs1 instr =? ZR then Ok st
                  else CSRClear st (csr instr) (intx (get_xreg st (rs1 instr))));
            Ok (set_xreg st (rd instr) result)
          else if f =? Funct3.CSRRWI then
            if rd instr =? ZR then CSRWrite st (csr instr) (zimm instr)
            else
              result ← CSRRead st (csr instr);
              st ← CSRWrite st (csr instr) (zimm instr);
              Ok (set_xreg st (rd instr) result)
          else if f =? Funct3.CSRRSI then
            result ← CSRRead st (csr instr);
            st ← (if zimm instr =? 0 then Ok st else CSRSet st (csr instr) (zimm instr));
            Ok (set_xreg st (rd instr) result)
          else if f =? Funct3.CSRRCI then
            result ← CSRRead st (csr instr);
            st ← (if zimm instr =? 0 then Ok st else CSRClear st (csr instr) (zimm instr));
            Ok (set_xreg st (rd instr) result)
          else IllegalInstruction st instr);
    Ok (pc_add st Instr_length).

(** [Interpret(Instr)]. *)
Definition Interpret (st : Simulator) (instr : Z) : result Simulator :=
  let op := opcode instr in
  if op =? Opcode.LUI then InterpretLUI st instr
  else if op =? Opcode.AUIPC then InterpretAUIPC st instr
  else if op =? Opcode.JAL then InterpretJAL st instr
  else if op =? Opcode.JALR then InterpretJALR st instr
  else if op =? Opcode.BRANCH then InterpretBRANCH st instr
  else if op =? Opcode.LOAD then InterpretLOAD st instr
  else if op =? Opcode.STORE then InterpretSTORE st instr
  else if op =? Opcode.OPIMM then InterpretOPIMM st instr
  else if op =? Opcode.OPIMM32 then InterpretOPIMM32 st instr
  else if op =? Opcode.OP then InterpretOP st instr
  else if op =? Opcode.OP32 then InterpretOP32 st instr
  else if op =? Opcode.MISCMEM then InterpretMISCMEM st instr
  else if op =? Opcode.SYSTEM then InterpretSYSTEM st instr
  else if op =? Opcode.AMO then InterpretAMO st instr
  else if op =? Opcode.LOADFP then InterpretLOADFP st instr
  else if op =? Opcode.STOREFP then InterpretSTOREFP st instr
  else if op =? Opcode.FMADD then InterpretFMADD st instr
  else if op =? Opcode.FMSUB then InterpretFMSUB st instr
  else if op =? Opcode.FNMADD then InterpretFNMADD st instr
  else if op =? Opcode.FNMSUB then InterpretFNMSUB st instr
  else if op =? Opcode.OPFP then InterpretOPFP st instr
  else IllegalInstruction st instr.

(** *** [Interpret(CInstr)]

    The switch is split in three: memory accesses, control transfers and arithmetic.
    [c_break] is the code after the switch. *)
Definition c_break (st : Simulator) : result Simulator := Ok (pc_add st CInstr_length).

Definition load_freg (st : Simulator) (single : bool) (addr frd base : Z) : result Simulator :=
  if single then v ← MemoryRead uint32_t st addr base; Ok (set_fregs st frd v)
  else v ← MemoryRead uint64_t st addr base; Ok (set_fregd st frd v).

Definition InterpretC_MISCALU (st : Simulator) (instr : Z) : result Simulator :=
  let a := get_xreg st (c_rs1p instr) in
  let b := get_xreg st (c_rs2p instr) in
  let imm := c_i_imm instr in
  let set v := Ok (set_xreg st (c_rs1p instr) v) in
  let k := instr .& COpcode.C_MISCALU_MASK in
  if k =? COpcode.C_SRLI then
    if imm =? 0 then IllegalInstruction st instr else set (a >> (imm .& (XLEN - 1)))
  else if k =? COpcode.C_SRAI then
    if imm =? 0 then IllegalInstruction st instr else set (intx a >> (imm .& (XLEN - 1)))
  else if k =? COpcode.C_ANDI then set (a .& uintx imm)
  else if k =? COpcode.C_RR then
    let r := instr .& COpcode.C_RR_MASK in
    if r =? COpcode.C_AND then set (a .& b)
    else if r =? COpcode.C_OR then set (a .| b)
    else if r =? COpcode.C_XOR then set (a .^ b)
    else if r =? COpcode.C_SUB then set (a - b)
    else if r =? COpcode.C_ADDW then
      set (sign_extend_uint32 (uint32 (uint32 a + uint32 b)))
    else if r =? COpcode.C_SUBW then
      set (sign_extend_uint32 (uint32 (uint32 a - uint32 b)))
    else IllegalInstruction st instr
  else IllegalInstruction st instr.

Definition InterpretC_arithmetic (st : Simulator) (instr : Z) : result Simulator :=
  let op := c_opcode instr in
  let a := get_xreg st (c_rs1 instr) in
  let set v := Ok (set_xreg st (c_rd instr) v) in
  st ← (if op =? COpcode.C_LI then
          if c_rd instr =? ZR then IllegalInstruction st instr
          else set (sign_extend_int64 (c_i_imm instr))
        else if op =? COpcode.C_LUI then
          if c_rd instr =? SP then
            if c_i16_imm instr =? 0 then IllegalInstruction st instr
            else set (a + sign_extend_int64 (c_i16_imm instr))
          else if (c_rd instr =? ZR) || (c_u_imm instr =? 0) then IllegalInstruction st instr
          else set (sign_extend_int64 (c_u_imm instr))
        else if op =? COpcode.C_ADDI then set (a + c_i_imm instr)
        else if TARGET_64 && (op =? COpcode.C_ADDIW) then
          set (sign_extend_uint32 (uint32 (uint32 a + uint32 (c_i_imm instr))))
        else if op =? COpcode.C_ADDI4SPN then
          if c_i4spn_imm instr =? 0 then IllegalInstruction st instr
          else Ok (set_xreg st (c_rdp instr) (get_xreg st SP + c_i4spn_imm instr))
        else if op =? COpcode.C_SLLI then
          if c_i_imm instr =? 0 then IllegalInstruction st instr
          else set (a << (c_i_imm instr .& (XLEN - 1)))
        else if op =? COpcode.C_MISCALU then InterpretC_MISCALU st instr
        else IllegalInstruction st instr);
  c_break st.

Definition InterpretC_JR (st : Simulator) (instr : Z) : result Simulator :=
  if negb ((instr .& (COpcode.C_JALR .^ COpcode.C_JR)) =? 0) then
    if (c_rs1 instr =? ZR) && (c_rs2 instr =? ZR) then InterpretEBREAK st instr
    else if c_rs2 instr =? ZR then
      let target := get_xreg st (c_rs1 instr) in
      let st := set_xreg st RA (pc_ st + CInstr_length) in
      Ok (with_pc st target)
    else
      c_break (set_xreg st (c_rd instr)
                 (get_xreg st (c_rs1 instr) + get_xreg st (c_rs2 instr)))
  else
    if negb (c_rd instr =? ZR) && negb (c_rs2 instr =? ZR) then
      c_break (set_xreg st (c_rd instr) (get_xreg st (c_rs2 instr)))
    else if negb (c_rs2 instr =? ZR) then IllegalInstruction st instr
    else Ok (with_pc st (get_xreg st (c_rs1 instr))).

Definition InterpretC_control (st : Simulator) (instr : Z) : result Simulator :=
  let op := c_opcode instr in
  if op =? COpcode.C_J then Ok (pc_add st (sign_extend_int32 (int32 (c_j_imm instr))))
  else if negb TARGET_64 && (op =? COpcode.C_JAL) then
    let st := set_xreg st RA (pc_ st + CInstr_length) in
    Ok (pc_add st (sign_extend_int32 (int32 (c_j_imm instr))))
  else if op =? COpcode.C_JR then InterpretC_JR st instr
  else if op =? COpcode.C_BEQZ then
    if get_xreg st (c_rs1p instr) =? 0 then Ok (pc_add st (c_b_imm instr)) else c_break st
  else if op =? COpcode.C_BNEZ then
    if negb (get_xreg st (c_rs1p instr) =? 0) then Ok (pc_add st (c_b_imm instr))
    else c_break st
  else InterpretC_arithmetic st instr.

Definition InterpretC (st : Simulator) (instr : Z) : result Simulator :=
  let op := c_opcode instr in
  let sp imm := uintx (get_xreg st SP + imm) in
  let rs1p imm := uintx (get_xreg st (c_rs1p instr) + imm) in
  let base := c_rs1p instr in
  if op =? COpcode.C_LWSP then
    load_xreg int32_t st (sp (c_spload4_imm instr)) (c_rd instr) SP ≫= c_break
  else if negb TARGET_64 && (op =? COpcode.C_FLWSP) then
    load_freg st true (sp (c_spload4_imm instr)) (c_frd instr) SP ≫= c_break
  else if TARGET_64 && (op =? COpcode.C_LDSP) then
    load_xreg int64_t st (sp (c_spload8_imm instr)) (c_rd instr) SP ≫= c_break
  else if op =? COpcode.C_FLDSP then
    load_freg st false (sp (c_spload8_imm instr)) (c_frd instr) SP ≫= c_break
  else if op =? COpcode.C_SWSP then
    MemoryWrite uint32_t st (sp (c_spstore4_imm instr)) (get_xreg st (c_rs2 instr)) SP
      ≫= c_break
  else if negb TARGET_64 && (op =? COpcode.C_FSWSP) then
    MemoryWrite uint32_t st (sp (c_spstore4_imm instr)) (get_fregs st (c_frs2 instr)) SP
      ≫= c_break
  else if TARGET_64 && (op =? COpcode.C_SDSP) then
    MemoryWrite uint64_t st (sp (c_spstore8_imm instr)) (get_xreg st (c_rs2 instr)) SP
      ≫= c_break
  else if op =? COpcode.C_FSDSP then
    MemoryWrite uint64_t st (sp (c_spstore8_imm instr)) (get_fregd st (c_frs2 instr)) SP
      ≫= c_break
  else if op =? COpcode.C_LW then
    load_xreg int32_t st (rs1p (c_mem4_imm instr)) (c_rdp instr) base ≫= c_break
  else if negb TARGET_64 && (op =? COpcode.C_FLW) then
    load_freg st true (rs1p (c_mem4_imm instr)) (c_frdp instr) base ≫= c_break
  else if TARGET_64 && (op =? COpcode.C_LD) then
    load_xreg int64_t st (rs1p (c_mem8_imm instr)) (c_rdp instr) base ≫= c_break
  else if op =? COpcode.C_FLD then
    load_freg st false (rs1p (c_mem8_imm instr)) (c_frdp instr) base ≫= c_break
  else if op =? COpcode.C_SW then
    MemoryWrite uint32_t st (rs1p (c_mem4_imm instr)) (get_xreg st (c_rs2p instr)) base
      ≫= c_break
  else if negb TARGET_64 && (op =? COpcode.C_FSW) then
    MemoryWrite uint32_t st (rs1p (c_mem4_imm instr)) (get_fregs st (c_frs2p instr)) base
      ≫= c_break
  else if TARGET_64 && (op =? COpcode.C_SD) then
    MemoryWrite uint64_t st (rs1p (c_mem8_imm instr)) (get_xreg st (c_rs2p instr)) base
      ≫= c_break
  else if op =? COpcode.C_FSD then
    MemoryWrite uint64_t st (rs1p (c_mem8_imm instr)) (get_fregd st (c_frs2p instr)) base
      ≫= c_break
  else InterpretC_control st instr.

(** The body of the loop of [Execute]. *)
Definition step (st : Simulator) : result Simulator :=
  parcel ← mem_load (mem_ st) (pc_ st) 2;
  st ← (if IsCInstruction parcel then InterpretC st parcel
        else instr ← mem_load (mem_ st) (pc_ st) 4; Interpret st instr);
  Ok (with_instret st (uint64 (instret_ st + 1))).

(** [None] when the fuel runs out before the end-of-simulation address is reached. *)
Fixpoint Execute (fuel : nat) (st : Simulator) : option (result Simulator) :=
  if pc_ st =? kEndSimulatingPC then Some (Ok st)
  else
    match fuel with
    | O => None
    | S fuel => match step st with Ok st => Execute fuel st | Err e => Some (Err e) end
    end.

(** Sequencing after a run that may lack fuel. *)
Definition run_bind {A} (r : option (result Simulator)) (k : Simulator -> result A)
    : option (result A) :=
  match r with
  | None => None
  | Some (Err e) => Some (Err e)
  | Some (Ok st) => Some (k st)
  end.

Definition RunCall (fuel : nat) (entry : Z) (preserved : PreservedRegisters) (st : Simulator)
    : option (result Simulator) :=
  let st := with_pc st (uintx entry) in
  let st := set_xreg st RA kEndSimulatingPC in
  run_bind (Execute fuel st) (fun st => _ ← CheckPreservedRegisters preserved st; Ok st).

Definition CallX (fuel : nat) (function arg0 arg1 arg2 arg3 : Z) (st : Simulator)
    : option (result (Z * Simulator)) :=
  let '(preserved, st) := PrepareCall st in
  let st := set_xreg st A0 arg0 in
  let st := set_xreg st A1 arg1 in
  let st := set_xreg st A2 arg2 in
  let st := set_xreg st A3 arg3 in
  run_bind (RunCall fuel function preserved st) (fun st => Ok (intx (get_xreg st A0), st)).

(** The overloads of [CallI], [CallD] and [CallF], named by their argument types. *)
Definition CallI_double (fuel : nat) (function arg0 arg1 : Z) (st : Simulator)
    : option (result (Z * Simulator)) :=
  let '(preserved, st) := PrepareCall st in
  let st := set_fregd st FA0 arg0 in
  let st := set_fregd st FA1 arg1 in
  run_bind (RunCall fuel function preserved st) (fun st => Ok (intx (get_xreg st A0), st)).

Definition CallI_float (fuel : nat) (function arg0 arg1 : Z) (st : Simulator)
    : option (result (Z * Simulator)) :=
  let '(preserved, st) := PrepareCall st in
  let st := set_fregs st FA0 arg0 in
  let st := set_fregs st FA1 arg1 in
  run_bind (RunCall fuel function preserved st) (fun st => Ok (intx (get_xreg st A0), st)).

Definition CallD_intx (fuel : nat) (function arg0 arg1 : Z) (st : Simulator)
    : option (result (Z * Simulator)) :=
  let '(preserved, st) := PrepareCall st in
  let st := set_xreg st A0 arg0 in
  let st := set_xreg st A1 arg1 in
  run_bind (RunCall fuel function preserved st) (fun st => Ok (get_fregd st FA0, st)).

Definition CallD_double (fuel : nat) (function arg0 arg1 arg2 : Z) (st : Simulator)
    : option (result (Z * Simulator)) :=
  let '(preserved, st) := PrepareCall st in
  let st := set_fregd st FA0 arg0 in
  let st := set_fregd st FA1 arg1 in
  let st := set_fregd st FA2 arg2 in
  run_bind (RunCall fuel function preserved st) (fun st => Ok (get_fregd st FA0, st)).

Definition CallD_intx_double (fuel : nat) (function arg0 arg1 : Z) (st : Simulator)
    : option (result (Z * Simulator)) :=
  let '(preserved, st) := PrepareCall st in
  let st := set_xreg st A0 arg0 in
  let st := set_fregd st FA0 arg1 in
  run_bind (RunCall fuel function preserved st) (fun st => Ok (get_fregd st FA0, st)).

Definition CallD_float (fuel : nat) (function arg0 : Z) (st : Simulator)
    : option (result (Z * Simulator)) :=
  let '(preserved, st) := PrepareCall st in
  let st := set_fregs st FA0 arg0 in
  run_bind (RunCall fuel function preserved st) (fun st => Ok (get_fregd st FA0, st)).

(** This overload saves the registers without clobbering the volatile ones. *)
Definition CallF_intx (fuel : nat) (function arg0 arg1 : Z) (st : Simulator)
    : option (result (Z * Simulator)) :=
  let preserved := SavePreservedRegisters st in
  let st := set_xreg st A0 arg0 in
  let st := set_xreg st A1 arg1 in
  run_bind (RunCall fuel function preserved st) (fun st => Ok (get_fregs st FA0, st)).

Definition CallF_float (fuel : nat) (function arg0 arg1 arg2 : Z) (st : Simulator)
    : option (result (Z * Simulator)) :=
  let '(preserved, st) := PrepareCall st in
  let st := set_fregs st FA0 arg0 in
  let st := set_fregs st FA1 arg1 in
  let st := set_fregs st FA2 arg2 in
  run_bind (RunCall fuel function preserved st) (fun st => Ok (get_fregs st FA0, st)).

Definition CallF_intx_float (fuel : nat) (function arg0 arg1 : Z) (st : Simulator)
    : option (result (Z * Simulator)) :=
  let '(preserved, st) := PrepareCall st in
  let st := set_xreg st A0 arg0 in
  let st := set_fregs st FA0 arg1 in
  run_bind (RunCall fuel function preserved st) (fun st => Ok (get_fregs st FA0, st)).

Definition CallF_double (fuel : nat) (function arg0 : Z) (st : Simulator)
    : option (result (Z * Simulator)) :=
  let '(preserved, st) := PrepareCall st in
  let st := set_fregd st FA0 arg0 in
  run_bind (RunCall fuel function preserved st) (fun st => Ok (get_fregs st FA0, st)).

(** [OS::ActivationFrameAlignment] on a RISC-V target. *)
Definition ActivationFrameAlignment : Z := 16.

Definition set_parameters (fp_args : bool) (p0 p1 p2 p3 : Z) (st : Simulator) : Simulator :=
  if fp_args then
    let st := set_fregd st FA0 (fp_of_int binary64 p0) in
    let st := set_fregd st FA1 (fp_of_int binary64 p1) in
    let st := set_fregd st FA2 (fp_of_int binary64 p2) in
    set_fregd st FA3 (fp_of_int binary64 p3)
  else
    let st := set_xreg st A0 p0 in
    let st := set_xreg st A1 p1 in
    let st := set_xreg st A2 p2 in
    set_xreg st A3 p3.

Definition Call (fuel : nat) (entry p0 p1 p2 p3 : Z) (fp_return fp_args : bool)
    (st : Simulator) : option (result (Z * Simulator)) :=
  let sp_before_call := intx (get_xreg st SP) in
  let st := set_parameters fp_args p0 p1 p2 p3 st in
  match RoundDown sp_before_call ActivationFrameAlignment with
  | Err e => Some (Err e)
  | Ok stack_pointer =>
      let st := set_xreg st SP stack_pointer in
      let st := with_pc st (uintx entry) in
      let st := set_xreg st RA kEndSimulatingPC in
      let preserved := SavePreservedRegisters st in
      run_bind (Execute fuel st) (fun st =>
        _ ← CheckPreservedRegisters preserved st;
        let st := set_xreg st SP sp_before_call in
        Ok (int64 (if fp_return then fp_to_int binary64 (get_fregd st FA0) else get_xreg st A0),
            st))
  end.
End Dispatch.

(** [Simulator::Simulator()]: [stack_] is where the stack was allocated, [stack_size] the
    specified size and [stack_size_buffer] is [OSThread::kStackSizeBufferMax]; [random] is
    the state of the freshly seeded generator. *)
Section Construction.
Context `{Target}.

Definition init_xreg (st : Simulator) (i : Z) : Simulator :=
  let '(v, random) := NextUInt64 (random_ st) in
  with_random (with_xregs st (array_set (xregs_ st) i (uintx v))) random.

Definition Simulator_new (random stack_ stack_size_buffer stack_size : Z) (mem : memory)
    (redirections : list Redirection) : Simulator :=
  let stack_limit := stack_ in
  let overflow_stack_limit := uintx (stack_limit + stack_size_buffer) in
  let stack_base := uintx (overflow_stack_limit + stack_size) in
  let st := {| pc_ := 0; xregs_ := fun _ => 0; instret_ := 0; reserved_address_ := 0;
               reserved_value_ := 0; fregs_ := fun _ => kNaNBox; fcsr_ := 0;
               stack_limit_ := stack_limit; overflow_stack_limit_ := overflow_stack_limit;
               stack_base_ := stack_base; random_ := random; mem_ := mem;
               redirections_ := redirections |} in
  let st := fold_left init_xreg (seqZ 1 (kNumberOfCpuRegisters - 1)) st in
  let st := set_xreg st SP (stack_base_ st) in
  let st := set_xreg st RA kBadLR in
  with_pc st kBadLR.
End Construction.
