(* ===== verification/Exec.v ===== *)
(** * Running straight-line code

    Iterated [step], the state invariant of the simulator's integer part, and the
    judgement [executes code f]: code placed at the program counter runs to its end and
    transforms the integer registers by [f], leaving the rest of the state alone. *)
From S2P Require Import Prelude Utils Constants EncodingFacts Words CWords Memory Float.
From S2P Require Import SimState SimInteger SimFloat Simulator.

Abbreviation regs := (Z -> Z).

(** A register write as [set_xreg] does it. *)
Definition xset `{Target} (r : regs) (rd v : Z) : regs :=
  if rd =? ZR then r else array_set r rd (uintx v).

(** Every register holds a word and [x0] is zero. *)
Definition regs_wf `{Target} (r : regs) : Prop :=
  r ZR = 0 /\ forall i, 0 <= r i < 2 ^ XLEN.

Record sim_wf `{Target} (st : Simulator) : Prop := {
  wf_regs : regs_wf (xregs_ st);
  wf_pc : 0 <= pc_ st < 2 ^ XLEN;
  wf_instret : 0 <= instret_ st < 2 ^ 64;
  wf_mem : mem_wf (mem_ st)
}.

Definition advance `{Target} (st : Simulator) (n : nat) (len : Z) (r : regs) : Simulator :=
  with_instret (with_pc (with_xregs st r) (uintx (pc_ st + len)))
    (uint64 (instret_ st + Z.of_nat n)).

Section Registers.
Context `{Target}.

Lemma XLEN_pos : 0 < XLEN.
Proof. unfold XLEN. by destruct TARGET_64. Qed.

Lemma XLEN_cases : XLEN = 32 \/ XLEN = 64.
Proof. unfold XLEN. destruct TARGET_64; auto. Qed.

Lemma uintx_bound z : 0 <= uintx z < 2 ^ XLEN.
Proof. apply uwrap_bound, XLEN_pos. Qed.

Lemma uintx_small z : 0 <= z < 2 ^ XLEN -> uintx z = z.
Proof. apply (uwrap_small XLEN XLEN_pos). Qed.

Lemma set_xreg_xset st rd v : set_xreg st rd v = with_xregs st (xset (xregs_ st) rd v).
Proof. unfold set_xreg, xset. destruct st, (rd =? ZR); done. Qed.

Lemma xset_same r rd v : rd <> ZR -> xset r rd v rd = uintx v.
Proof.
  intros Hr. unfold xset, array_set. rewrite (proj2 (Z.eqb_neq _ _) Hr), Z.eqb_refl. done.
Qed.

Lemma xset_other r rd v i : i <> rd -> xset r rd v i = r i.
Proof.
  intros Hi. unfold xset, array_set. destruct (rd =? ZR); [done|].
  by rewrite (proj2 (Z.eqb_neq _ _) Hi).
Qed.

Lemma xset_zero r v : xset r ZR v = r.
Proof. done. Qed.

Lemma xset_wf r rd v : regs_wf r -> regs_wf (xset r rd v).
Proof.
  intros [H0 Hr]. unfold xset, array_set. destruct (Z.eqb_spec rd ZR); [done|].
  split; [by rewrite (proj2 (Z.eqb_neq _ _)) by done|].
  intros i. destruct (i =? rd); [apply uintx_bound | done].
Qed.

(** Writes agree when their values agree as words. *)
Lemma xset_eq r rd v w : uintx v = uintx w -> xset r rd v = xset r rd w.
Proof. unfold xset. by intros ->. Qed.

Lemma advance_wf st n len r : sim_wf st -> regs_wf r -> sim_wf (advance st n len r).
Proof.
  intros [] Hr. split; cbn; [done | apply uintx_bound | by apply uwrap_bound | done].
Qed.

Lemma advance_zero st : sim_wf st -> advance st 0 0 (xregs_ st) = st.
Proof.
  intros [_ Hp Hi _]. unfold advance. rewrite !Z.add_0_r, uintx_small by done.
  unfold uint64. rewrite (uwrap_small 64 eq_refl) by done. by destruct st.
Qed.

Lemma advance_advance st n1 n2 l1 l2 r1 r2 :
  advance (advance st n1 l1 r1) n2 l2 r2 = advance st (n1 + n2) (l1 + l2) r2.
Proof.
  unfold advance. cbn. unfold uintx, uint64. pose proof XLEN_pos.
  rewrite !uwrap_add_l by lia. unfold with_instret, with_pc, with_xregs. cbn.
  f_equal; f_equal; lia.
Qed.
End Registers.

#[export] Hint Resolve XLEN_pos xset_wf advance_wf : wrap.

Section Running.
Context `{Target} `{HostFloat} `{Host}.

(** [n] iterations of the loop of [Execute]; an error if the loop would stop earlier. *)
Fixpoint steps (n : nat) (st : Simulator) : result Simulator :=
  match n with
  | O => Ok st
  | S n => if pc_ st =? kEndSimulatingPC then Err Unreachable else st ← step st; steps n st
  end.

Lemma kEndSimulatingPC_value : kEndSimulatingPC = 2 ^ XLEN - 2.
Proof. unfold kEndSimulatingPC, uintx, uwrap, XLEN. by destruct TARGET_64. Qed.

Lemma steps_S n st : pc_ st + 2 < 2 ^ XLEN -> steps (S n) st = (st ← step st; steps n st).
Proof.
  intros Hp. cbn [steps]. rewrite (proj2 (Z.eqb_neq _ _)); [done|].
  rewrite kEndSimulatingPC_value. lia.
Qed.

Lemma steps_app n m st st' : steps n st = Ok st' -> steps (n + m) st = steps m st'.
Proof.
  revert st. induction n as [|n IH]; intros st; cbn [steps Nat.add]; [by intros [= ->]|].
  destruct (pc_ st =? kEndSimulatingPC); [done|].
  unfold mbind, result_bind. destruct (step st); [apply IH | discriminate].
Qed.

Definition executes (code : list Z) (f : regs -> regs) : Prop :=
  forall st, sim_wf st -> pc_ st + Z.of_nat (length code) < 2 ^ XLEN ->
  code_at (mem_ st) (pc_ st) code ->
  regs_wf (f (xregs_ st)) /\
  exists n, steps n st = Ok (advance st n (Z.of_nat (length code)) (f (xregs_ st))).

Lemma executes_nil : executes [] (fun r => r).
Proof.
  intros st Hwf _ _. split; [apply Hwf|]. exists 0%nat. cbn [steps length].
  by rewrite advance_zero.
Qed.

Lemma executes_app c1 c2 f1 f2 :
  executes c1 f1 -> executes c2 f2 -> executes (c1 ++ c2) (fun r => f2 (f1 r)).
Proof.
  intros E1 E2 st Hwf Hpc Hc. rewrite length_app, Nat2Z.inj_add in *.
  apply code_at_app in Hc as [Hc1 Hc2].
  destruct (E1 st) as (Hr1 & n1 & Hs1); [done | lia | done |].
  destruct (E2 (advance st n1 (Z.of_nat (length c1)) (f1 (xregs_ st)))) as (Hr2 & n2 & Hs2);
    [by apply advance_wf | | |]; cbn [advance mem_ pc_ with_instret with_pc with_xregs xregs_].
  - destruct Hwf. rewrite uintx_small by lia. lia.
  - destruct Hwf. by rewrite uintx_small by lia.
  - split; [done|]. exists (n1 + n2)%nat. rewrite (steps_app _ _ _ _ Hs1), Hs2.
    by rewrite advance_advance.
Qed.

Lemma executes_ext code f g :
  (forall r, regs_wf r -> f r = g r) -> executes code f -> executes code g.
Proof.
  intros Hfg E st Hwf Hpc Hc. destruct (E st Hwf Hpc Hc) as (Hr & n & Hs).
  rewrite <- Hfg by apply Hwf. eauto.
Qed.

(** ** Fetching *)

Lemma opcode_low w : opcode w .& 3 = w .& 3.
Proof.
  unfold opcode, DecodeOpcode, DecodeFunct. rewrite Z.shiftr_0_r, <- Z.land_assoc. done.
Qed.

Lemma low_two w : w .& 3 = w mod 4.
Proof. change 3 with (Z.ones 2). by rewrite Z.land_ones by lia. Qed.

Lemma step_word st w : 0 <= w < 2 ^ 32 -> opcode w .& 3 = 3 ->
  code_at (mem_ st) (pc_ st) (le_bytes 4 w) ->
  step st = (st ← Interpret st w; Ok (with_instret st (uint64 (instret_ st + 1)))).
Proof.
  intros Hw Hop Hc. rewrite opcode_low in Hop. unfold step.
  assert (le_bytes 4 w = le_bytes 2 w ++ le_bytes 2 (w / 256 / 256)) as E by done.
  rewrite E in Hc. pose proof Hc as Hc'. apply code_at_app in Hc' as [Hc2 _].
  rewrite <- E in Hc. apply mem_load_le_bytes in Hc, Hc2. rewrite Hc, Hc2.
  change (256 ^ Z.of_nat 4) with (2 ^ 32). rewrite (Z.mod_small w) by done.
  unfold mbind at 1 3, result_bind at 1 3. unfold IsCInstruction.
  rewrite low_two in *. replace (w mod 256 ^ Z.of_nat 2 mod 4) with (w mod 4).
  - rewrite Hop. done.
  - change (256 ^ Z.of_nat 2) with (4 * 16384). rewrite Z.rem_mul_r by lia.
    rewrite (Z.mul_comm 4), Z.mod_add, Z.mod_mod by lia. done.
Qed.

Lemma step_parcel st w : 0 <= w < 2 ^ 16 -> w .& 3 <> 3 ->
  code_at (mem_ st) (pc_ st) (le_bytes 2 w) ->
  step st = (st ← InterpretC st w; Ok (with_instret st (uint64 (instret_ st + 1)))).
Proof.
  intros Hw Hop Hc. unfold step. apply mem_load_le_bytes in Hc. rewrite Hc.
  change (256 ^ Z.of_nat 2) with (2 ^ 16). rewrite (Z.mod_small w) by done.
  unfold mbind at 1, result_bind at 1. unfold IsCInstruction.
  by rewrite (proj2 (Z.eqb_neq _ _) Hop).
Qed.

(** ** Single instructions *)

Lemma executes_word w f : 0 <= w < 2 ^ 32 -> opcode w .& 3 = 3 ->
  (forall st, regs_wf (xregs_ st) -> regs_wf (f (xregs_ st)) /\
    Interpret st w = Ok (pc_add (with_xregs st (f (xregs_ st))) 4)) ->
  executes (le_bytes 4 w) f.
Proof.
  intros Hw Hop HI st Hwf Hpc Hc. destruct (HI st (wf_regs st Hwf)) as [Hr Hi].
  split; [done|]. exists 1%nat. rewrite length_le_bytes in *.
  rewrite steps_S, (step_word st w), Hi by (done || lia). done.
Qed.

Lemma executes_parcel w f : 0 <= w < 2 ^ 16 -> w .& 3 <> 3 ->
  (forall st, regs_wf (xregs_ st) -> regs_wf (f (xregs_ st)) /\
    InterpretC st w = Ok (pc_add (with_xregs st (f (xregs_ st))) 2)) ->
  executes (le_bytes 2 w) f.
Proof.
  intros Hw Hop HI st Hwf Hpc Hc. destruct (HI st (wf_regs st Hwf)) as [Hr Hi].
  split; [done|]. exists 1%nat. rewrite length_le_bytes in *.
  rewrite steps_S, (step_parcel st w), Hi by (done || lia). done.
Qed.
End Running.
