(* ===== verification/SimFacts.v ===== *)
(** * Invariants of the simulator

    Every instruction keeps the state well-formed: registers and the program counter hold
    words, [x0] is zero, the instruction counter 64 bits, memory bytes.  The saved
    registers of a call, the redirections to host functions, the reservation of the
    atomics and the fuel of [Execute]. *)
From S2P Require Import Prelude Utils Constants EncodingFacts Words CWords Memory Float.
From S2P Require Import SimState SimInteger SimFloat Simulator Exec.

(** ** Well-formedness *)

Section WellFormed.
Context `{Target} `{HostFloat} `{Host}.

Definition result_wf (r : result Simulator) : Prop := forall st, r = Ok st -> sim_wf st.

Lemma result_wf_Ok st : sim_wf st -> result_wf (Ok st).
Proof. by intros Hwf st' [= <-]. Qed.
Lemma result_wf_Err e : result_wf (Err e).
Proof. by intros st'. Qed.
Lemma result_wf_bind (m : result Simulator) k : result_wf m ->
  (forall st, sim_wf st -> result_wf (k st)) -> result_wf (m ≫= k).
Proof. intros Hm Hk st' (st & Hst & E)%result_bind_Ok. by apply (Hk st); [apply Hm|]. Qed.
Lemma result_wf_value {A} (m : result A) k :
  (forall a, m = Ok a -> result_wf (k a)) -> result_wf (m ≫= k).
Proof. intros Hk st' (a & Ha & E)%result_bind_Ok. by apply (Hk a). Qed.

Lemma set_xreg_wf st rd v : sim_wf st -> sim_wf (set_xreg st rd v).
Proof. intros [W1 W2 W3 W4]. rewrite set_xreg_xset. split; cbn; auto with wrap. Qed.
Lemma set_fregd_wf st rd v : sim_wf st -> sim_wf (set_fregd st rd v).
Proof. by intros []. Qed.
Lemma set_fregs_wf st rd v : sim_wf st -> sim_wf (set_fregs st rd v).
Proof. by intros []. Qed.
Lemma with_pc_wf st v : 0 <= v < 2 ^ XLEN -> sim_wf st -> sim_wf (with_pc st v).
Proof. by intros Hv []. Qed.
Lemma pc_add_wf st v : sim_wf st -> sim_wf (pc_add st v).
Proof. apply with_pc_wf, uintx_bound. Qed.
Lemma with_reservation_wf st a v : sim_wf st -> sim_wf (with_reservation st a v).
Proof. by intros []. Qed.
Lemma with_mem_wf st m : mem_wf m -> sim_wf st -> sim_wf (with_mem st m).
Proof. by intros Hm []. Qed.
Lemma xreg_word st i : sim_wf st -> 0 <= get_xreg st i < 2 ^ XLEN.
Proof. intros Hwf. apply Hwf. Qed.

Lemma MemoryWrite_wf T st a v b : sim_wf st -> result_wf (MemoryWrite T st a v b).
Proof.
  intros Hwf. unfold MemoryWrite. apply result_wf_value. intros _ _.
  apply result_wf_value. intros m Hm. apply result_wf_Ok, with_mem_wf; [|done].
  by eapply mem_store_wf; [apply Hwf|].
Qed.
End WellFormed.

(** Decompose a step into its register, memory and control updates. *)
Ltac solve_wf :=
  repeat first
    [ progress cbv zeta
    | assumption
    | match goal with
      | |- result_wf (Ok _) => apply result_wf_Ok
      | |- result_wf (Err _) => apply result_wf_Err
      | |- result_wf (MemoryWrite _ _ _ _ _) => apply MemoryWrite_wf
      | |- result_wf (if ?c then _ else _) => destruct c
      | |- result_wf (match ?c with Some _ => _ | None => _ end) => destruct c
      | |- result_wf (@mbind _ _ Simulator Simulator _ _) => apply result_wf_bind; [|intros ? ?]
      | |- result_wf (_ ≫= _) => apply result_wf_value; intros
      | |- sim_wf (set_xreg _ _ _) => apply set_xreg_wf
      | |- sim_wf (set_fregd _ _ _) => apply set_fregd_wf
      | |- sim_wf (set_fregs _ _ _) => apply set_fregs_wf
      | |- sim_wf (pc_add _ _) => apply pc_add_wf
      | |- sim_wf (with_pc _ _) => apply with_pc_wf; [first [apply uintx_bound | by apply xreg_word] |]
      | |- sim_wf (with_reservation _ _ _) => apply with_reservation_wf
      | |- sim_wf (with_mem _ _) => apply with_mem_wf; [eapply mem_store_wf; [|eassumption]; by apply wf_mem |]
      end ].

Section Instructions.
Context `{Target} `{HostFloat} `{Host}.

Lemma integer_wf st instr : sim_wf st ->
  result_wf (InterpretLUI st instr) /\ result_wf (InterpretAUIPC st instr) /\
  result_wf (InterpretJAL st instr) /\ result_wf (InterpretJALR st instr) /\
  result_wf (InterpretBRANCH st instr) /\ result_wf (InterpretLOAD st instr) /\
  result_wf (InterpretSTORE st instr) /\ result_wf (InterpretOPIMM st instr) /\
  result_wf (InterpretOPIMM32 st instr) /\ result_wf (InterpretMISCMEM st instr).
Proof.
  intros Hwf. unfold InterpretLUI, InterpretAUIPC, InterpretJAL, InterpretJALR, InterpretBRANCH,
    InterpretLOAD, InterpretSTORE, InterpretOPIMM, InterpretOPIMM32, InterpretMISCMEM, branch_if,
    load_xreg, shift32, IllegalInstruction.
  split_and!; solve_wf.
Qed.

Lemma op_wf st instr : sim_wf st ->
  result_wf (InterpretOP st instr) /\ result_wf (InterpretOP32 st instr).
Proof.
  intros Hwf. unfold InterpretOP, InterpretOP32, InterpretOP_0, InterpretOP_SUB,
    InterpretOP_MULDIV, InterpretOP32_0, InterpretOP32_SUB, InterpretOP32_MULDIV, IllegalInstruction.
  split; solve_wf.
Qed.

Lemma amo_wf T op st instr : sim_wf st -> result_wf (amo T op st instr).
Proof. intros Hwf. unfold amo, store_as in *. solve_wf. Qed.

Lemma LR_wf T st instr : sim_wf st -> result_wf (InterpretLR T st instr).
Proof. intros Hwf. unfold InterpretLR. solve_wf. Qed.

Lemma SC_wf T st instr : sim_wf st -> result_wf (InterpretSC T st instr).
Proof. intros Hwf. unfold InterpretSC, store_as. solve_wf. Qed.

Lemma AMO_wf st instr : sim_wf st -> result_wf (InterpretAMO st instr).
Proof.
  intros Hwf. unfold InterpretAMO, InterpretAMO32, InterpretAMO64, IllegalInstruction.
  solve_wf; first [by apply LR_wf | by apply SC_wf | by apply amo_wf].
Qed.

Lemma fused_wf st instr : sim_wf st ->
  result_wf (InterpretFMADD st instr) /\ result_wf (InterpretFMSUB st instr) /\
  result_wf (InterpretFNMADD st instr) /\ result_wf (InterpretFNMSUB st instr) /\
  result_wf (InterpretLOADFP st instr) /\ result_wf (InterpretSTOREFP st instr).
Proof.
  intros Hwf. unfold InterpretFMADD, InterpretFMSUB, InterpretFNMADD, InterpretFNMSUB,
    InterpretLOADFP, InterpretSTOREFP, multiply_add, IllegalInstruction. split_and!; solve_wf.
Qed.

Lemma OPFP_wf st instr : sim_wf st -> result_wf (InterpretOPFP st instr).
Proof.
  intros Hwf. unfold InterpretOPFP. apply result_wf_bind; [|intros; solve_wf].
  assert (match opfp_single st instr with Some r => result_wf r | None => True end) as Hs.
  { unfold opfp_single, set_fregs_or_illegal, opfp_compare, opfp_to_int, IllegalInstruction. cbv zeta.
    repeat match goal with
    | |- match (if ?c then _ else _) with Some _ => _ | None => _ end => destruct c
    end; solve_wf; done. }
  destruct (opfp_single st instr) as [r|]; [exact Hs|].
  unfold opfp_double, set_fregd_or_illegal, opfp_compare, opfp_to_int, IllegalInstruction.
    solve_wf.
Qed.

(** *** Clobbering *)

Lemma volatile_no_zero : Z.land kAbiVolatileCpuRegs (1 << ZR) = 0.
Proof. done. Qed.

Lemma clobber_xreg_wf st i : sim_wf st -> sim_wf (clobber_xreg st i).
Proof.
  intros Hwf. unfold clobber_xreg. destruct (Z.eqb_spec (kAbiVolatileCpuRegs .& (1 << i)) 0) as [|Hn]; [done|].
  cbn [negb]. destruct (NextUInt64 (random_ st)) as [v random]. destruct Hwf as [[W0 W1] W2 W3 W4].
  split; [|done..]. cbn. split.
  - unfold array_set. destruct (Z.eqb_spec ZR i) as [<-|]; [by rewrite volatile_no_zero in Hn | done].
  - intros j. unfold array_set. destruct (j =? i); [apply uintx_bound | apply W1].
Qed.

Lemma clobber_freg_wf st i : sim_wf st -> sim_wf (clobber_freg st i).
Proof. intros Hwf. unfold clobber_freg. destruct (negb _); [by destruct Hwf | done]. Qed.

Lemma fold_wf f l st : (forall st (i : Z), sim_wf st -> sim_wf (f st i)) -> sim_wf st ->
  sim_wf (fold_left f l st).
Proof. intros Hf. revert st. induction l; cbn; auto. Qed.

Lemma ClobberVolatileRegisters_wf st : sim_wf st -> sim_wf (ClobberVolatileRegisters st).
Proof.
  intros Hwf. unfold ClobberVolatileRegisters. destruct DEBUG; [|done]. cbv zeta.
  apply fold_wf; [apply clobber_freg_wf|]. apply fold_wf; [apply clobber_xreg_wf|].
  by apply with_reservation_wf.
Qed.

(** What the simulator relies on from the functions it calls: the state they leave is one
    it could have produced. *)
Definition host_keeps_wf : Prop := forall external args st r, sim_wf st ->
  host_call external args st = Ok r ->
  match r with Returned _ st' => sim_wf st' | Threw st' => sim_wf st' end.

Context (Hhost : host_keeps_wf).

Lemma call_redirection_wf redirection st r : sim_wf st -> call_redirection redirection st = Ok r ->
  match r with Returned _ st' => sim_wf st' | Threw st' => sim_wf st' end.
Proof using Hhost.
  intros Hwf. unfold call_redirection. destruct (call_kind redirection);
    repeat match goal with
    | |- (_ ≫= _) = Ok _ -> _ =>
        let x := fresh "x" in let E := fresh "E" in let K := fresh "K" in
        intros (x & E & K)%result_bind_Ok; revert K
    end; intros [= <-];
    match goal with E : host_call _ _ _ = Ok ?o |- _ => apply Hhost in E; [destruct o | done] end;
    first [done | by apply ClobberVolatileRegisters_wf
          | by apply set_xreg_wf, ClobberVolatileRegisters_wf
          | by apply set_fregd_wf, ClobberVolatileRegisters_wf].
Qed.

Lemma SYSTEM_wf st instr : sim_wf st -> result_wf (InterpretSYSTEM st instr).
Proof using Hhost.
  intros Hwf. unfold InterpretSYSTEM, InterpretEBREAK, IllegalInstruction, InterpretECALL,
    CSRWrite, CSRSet, CSRClear. solve_wf.
  match goal with E : call_redirection _ _ = Ok ?r |- _ =>
    apply call_redirection_wf in E; [destruct r | done] end; [|done].
  apply with_pc_wf; [by apply xreg_word | done].
Qed.

Lemma Interpret_wf st instr : sim_wf st -> result_wf (Interpret st instr).
Proof using Hhost.
  intros Hwf. unfold Interpret, IllegalInstruction. cbv zeta.
  pose proof (integer_wf st instr Hwf). pose proof (op_wf st instr Hwf).
  pose proof (fused_wf st instr Hwf). destruct_and!. pose proof (SYSTEM_wf st instr Hwf).
  pose proof (AMO_wf st instr Hwf). pose proof (OPFP_wf st instr Hwf).
  repeat match goal with |- result_wf (if ?c then _ else _) => destruct c; [assumption|] end.
  apply result_wf_Err.
Qed.

Lemma InterpretC_wf st instr : sim_wf st -> result_wf (InterpretC st instr).
Proof.
  intros Hwf. unfold InterpretC, InterpretC_control, InterpretC_JR, InterpretC_arithmetic,
    InterpretC_MISCALU, load_xreg, load_freg, c_break, InterpretEBREAK, IllegalInstruction. solve_wf.
Qed.

Lemma step_wf st st' : sim_wf st -> step st = Ok st' -> sim_wf st'.
Proof using Hhost.
  intros Hwf. unfold step. intros (parcel & _ & (s1 & E & [= <-])%result_bind_Ok)%result_bind_Ok.
  assert (sim_wf s1) as W.
  { destruct (IsCInstruction parcel); [by eapply InterpretC_wf|].
    apply result_bind_Ok in E as (instr & _ & E). by eapply Interpret_wf. }
  destruct W. split; [done.. | by apply uwrap_bound | done].
Qed.

Lemma steps_wf n st st' : sim_wf st -> steps n st = Ok st' -> sim_wf st'.
Proof using Hhost.
  revert st. induction n as [|n IH]; intros st Hwf; cbn [steps]; [by intros [= <-]|].
  destruct (pc_ st =? kEndSimulatingPC); [done|]. intros (st1 & E & Hs)%result_bind_Ok.
  apply (IH st1); [by eapply step_wf | done].
Qed.
End Instructions.

(** ** Memory accesses by type *)

Definition byte_type (T : ctype) : Prop := 0 < bits_of T /\ bits_of T mod 8 = 0.

Lemma sizeof_pos T : byte_type T -> 0 < sizeof T /\ bits_of T = 8 * sizeof T.
Proof. unfold byte_type, sizeof. intros [Hb Hm]. pose proof (Z.div_mod (bits_of T) 8). lia. Qed.

Lemma store_as_mapped T m addr v : mapped m addr (Z.to_nat (sizeof T)) ->
  exists m', store_as T m addr v = Ok m'.
Proof. apply mem_store_mapped. Qed.

Lemma store_load_as T m addr v m' b : byte_type T -> store_as T m addr v = Ok m' ->
  load_as (CType (bits_of T) b) m' addr = Ok (cast (CType (bits_of T) b) v).
Proof.
  intros HT Hs. pose proof (sizeof_pos T HT) as [Hz Hb]. destruct HT as [Hp _].
  unfold store_as in Hs. apply mem_store_load in Hs. unfold load_as.
  change (sizeof (CType (bits_of T) b)) with (sizeof T). rewrite Hs. cbn.
  replace (256 ^ Z.of_nat (Z.to_nat (sizeof T))) with (2 ^ bits_of T)
    by (rewrite Hb, Z2Nat.id, Z.pow_mul_r by lia; done).
  rewrite Z.mod_small by by apply uwrap_bound. f_equal. unfold cast. cbn.
  destruct b; [by apply swrap_uwrap | by apply uwrap_idem].
Qed.

(** ** Boxed floats *)

Lemma kNaNBox_bits i : 0 <= i -> Z.testbit kNaNBox i = (32 <=? i) && (i <? 64).
Proof.
  intros Hi. replace kNaNBox with (Z.ones 32 << 32) by done.
  rewrite Z.shiftl_spec, Z.testbit_ones by lia. lia.
Qed.

Lemma boxed_read v : 0 <= v < 2 ^ 32 ->
  (if negb (((v .| kNaNBox) .& kNaNBox) =? kNaNBox) then 0x7fc00000 else uint32 (v .| kNaNBox)) = v.
Proof.
  intros Hv. assert ((v .| kNaNBox) .& kNaNBox = kNaNBox) as ->
    by (apply Z.bits_inj'; intros i Hi; rewrite Z.land_spec, Z.lor_spec;
        by destruct (Z.testbit v i), (Z.testbit kNaNBox i)).
  rewrite Z.eqb_refl. cbn [negb]. apply Z.bits_inj'. intros i Hi. unfold uint32.
  rewrite testbit_uwrap, Z.lor_spec, kNaNBox_bits by lia.
  destruct (Z.ltb_spec i 32) as [Hl|Hl].
  - rewrite (proj2 (Z.leb_gt 32 i)) by lia. by rewrite orb_false_r.
  - by rewrite (bits_above 32 v i) by lia.
Qed.

Lemma unboxed_read d : 0 <= d < kNaNBox -> ((d .& kNaNBox) =? kNaNBox) = false.
Proof.
  intros Hd. apply Z.eqb_neq. intros E. apply (f_equal (fun x => x >> 32)) in E.
  rewrite Z.shiftr_land in E. change (kNaNBox >> 32) with (Z.ones 32) in E.
  rewrite Z.land_ones, Z.shiftr_div_pow2 in E by lia. change (Z.ones 32) with (2 ^ 32 - 1) in E.
  change kNaNBox with ((2 ^ 32 - 1) * 2 ^ 32) in Hd.
  assert (d / 2 ^ 32 < 2 ^ 32 - 1) by (apply Z.div_lt_upper_bound; lia).
  rewrite Z.mod_small in E by (split; [apply Z.div_pos|]; lia). lia.
Qed.
