(* ===== verification/SimCalls.v ===== *)
(** * Calls into and out of simulated code

    Fuel and the loop of [Execute], the registers a call must preserve, the state in which
    [Call] starts the code and its outcome, redirections to host functions, and the
    reservation of the atomics. *)
From S2P Require Import Prelude Utils Constants EncodingFacts Words CWords Memory Float.
From S2P Require Import SimState SimInteger SimFloat Simulator Exec SimFacts.

Section Running.
Context `{Target} `{HostFloat} `{Host}.

(** More fuel does not change the outcome. *)
Lemma Execute_more n k st r : Execute n st = Some r -> Execute (n + k) st = Some r.
Proof.
  revert st. induction n as [|n IH]; intros st; cbn [Execute Nat.add].
  - destruct (pc_ st =? kEndSimulatingPC) eqn:E; [|done]. intros <-.
    destruct k; cbn [Execute]; by rewrite E.
  - destruct (pc_ st =? kEndSimulatingPC); [done|]. destruct (step st); [apply IH | done].
Qed.

Lemma Execute_steps n k st st' : steps n st = Ok st' -> Execute (n + k) st = Execute k st'.
Proof.
  revert st. induction n as [|n IH]; intros st; cbn [steps Nat.add]; [by intros [= ->]|].
  cbn [Execute]. destruct (pc_ st =? kEndSimulatingPC); [done|].
  intros (s1 & -> & Hs)%result_bind_Ok. by apply IH.
Qed.

Lemma Execute_end k st : pc_ st = kEndSimulatingPC -> Execute k st = Some (Ok st).
Proof. intros E. destruct k; cbn [Execute]; by rewrite E, Z.eqb_refl. Qed.
End Running.

(** ** Preserved registers *)

Section Preserved.
Context `{Target}.

Lemma for_each_Ok l body : for_each l body = Ok tt <-> Forall (fun i => body i = Ok tt) l.
Proof.
  induction l as [|i l IH]; cbn [for_each]; [by split; [constructor|]|].
  split.
  - intros ([] & Hi & Hl)%result_bind_Ok. constructor; [done | by apply IH].
  - intros [Hi Hl]%Forall_cons_1. rewrite Hi. by apply IH.
Qed.

Definition callee_saved (i : Z) : Prop := 0 <= i < 32 /\ kPreservedAtCall .& (1 << i) <> 0.
Definition callee_saved_fp (i : Z) : Prop := 0 <= i < 32 /\ kAbiVolatileFpuRegs .& (1 << i) = 0.

Lemma in_seqZ i : In i (seqZ 0 32) <-> 0 <= i < 32.
Proof. rewrite <- list_elem_of_In, elem_of_seqZ. lia. Qed.

(** In a [DEBUG] build the check passes exactly when every callee-saved register has its
    old value; in a release build it always passes. *)
Lemma CheckPreservedRegisters_spec p st : DEBUG = true ->
  CheckPreservedRegisters p st = Ok tt <->
  (forall i, callee_saved i -> preserved_xregs p i = xregs_ st i) /\
  (forall i, callee_saved_fp i -> preserved_fregs p i = fregs_ st i).
Proof.
  intros HD. unfold CheckPreservedRegisters. rewrite HD. split.
  - destruct (Z.eqb_spec (preserved_xregs p SP) (xregs_ st SP)) as [Esp|]; [cbn [negb]|done].
    intros ([] & Hx & Hf)%result_bind_Ok. rewrite for_each_Ok, Forall_forall in Hx, Hf. split.
    + intros i [Hi Hm]. specialize (Hx i (proj2 (in_seqZ i) Hi)). unfold check_xreg in Hx.
      rewrite (proj2 (Z.eqb_neq _ _) Hm) in Hx. cbn [negb andb] in Hx.
      by destruct (Z.eqb_spec (preserved_xregs p i) (xregs_ st i)).
    + intros i [Hi Hm]. specialize (Hf i (proj2 (in_seqZ i) Hi)). unfold check_freg in Hf.
      rewrite (proj2 (Z.eqb_eq _ _) Hm) in Hf. cbn [negb andb] in Hf.
      by destruct (Z.eqb_spec (preserved_fregs p i) (fregs_ st i)).
  - intros [Hx Hf]. rewrite (proj2 (Z.eqb_eq _ _) (Hx SP ltac:(done))). cbn [negb].
    assert (for_each (seqZ 0 kNumberOfCpuRegisters) (check_xreg p st) = Ok tt) as ->.
    { apply for_each_Ok, Forall_forall. intros i Hi%in_seqZ. unfold check_xreg.
      destruct (Z.eqb_spec (kPreservedAtCall .& (1 << i)) 0) as [|Hn]; [done|]. cbn [negb andb].
      rewrite (proj2 (Z.eqb_eq _ _)); [done|]. by apply Hx. }
    apply for_each_Ok, Forall_forall. intros i Hi%in_seqZ. unfold check_freg.
    destruct (Z.eqb_spec (kAbiVolatileFpuRegs .& (1 << i)) 0) as [Hz|]; [|done]. cbn [andb].
    rewrite (proj2 (Z.eqb_eq _ _)); [done|]. by apply Hf.
Qed.

(** The registers the RISC-V calling convention assigns to the callee, by number: [sp], [gp]
    and [tp], [s0] to [s11], and [fs0] to [fs11]. *)
Definition abi_saved : list Z := [2; 3; 4; 8; 9; 18; 19; 20; 21; 22; 23; 24; 25; 26; 27].
Definition abi_saved_fp : list Z := [8; 9; 18; 19; 20; 21; 22; 23; 24; 25; 26; 27].

Definition keeps_saved (st st' : Simulator) : Prop :=
  (forall i, i ∈ abi_saved -> xregs_ st' i = xregs_ st i) /\
  (forall i, i ∈ abi_saved_fp -> fregs_ st' i = fregs_ st i).

(** The masks of the code select exactly these registers. *)
Lemma mask_list (test : Z -> bool) (l : list Z) : forallb (fun i => eqb (test i) (bool_decide (i ∈ l))) (seqZ 0 32) = true ->
  Forall (fun i => 0 <= i < 32) l -> forall i, 0 <= i < 32 /\ test i = true <-> i ∈ l.
Proof.
  intros Hall Hl i. rewrite forallb_forall in Hall. split.
  - intros [Hi Ht]. apply in_seqZ, Hall, eqb_prop in Hi. rewrite Ht in Hi.
    symmetry in Hi. by apply bool_decide_eq_true in Hi.
  - intros Hi. pose proof (proj1 (Forall_forall _ _) Hl i (proj1 (list_elem_of_In _ _) Hi)) as Hr. split; [done|].
    apply in_seqZ, Hall, eqb_prop in Hr. rewrite Hr. by apply bool_decide_eq_true.
Qed.

Lemma callee_saved_abi i : callee_saved i <-> i ∈ abi_saved.
Proof.
  rewrite <- (mask_list (fun i => negb (kPreservedAtCall .& (1 << i) =? 0)) abi_saved);
    [|by vm_compute | by repeat constructor].
  unfold callee_saved. by rewrite negb_true_iff, Z.eqb_neq.
Qed.

Lemma callee_saved_fp_abi i : callee_saved_fp i <-> i ∈ abi_saved_fp.
Proof.
  rewrite <- (mask_list (fun i => kAbiVolatileFpuRegs .& (1 << i) =? 0) abi_saved_fp);
    [|by vm_compute | by repeat constructor].
  unfold callee_saved_fp. by rewrite Z.eqb_eq.
Qed.

Lemma for_each_Err l body e : for_each l body = Err e -> exists i, In i l /\ body i = Err e.
Proof.
  induction l as [|i l IH]; cbn [for_each]; [done|]. destruct (body i) as [[]|e'] eqn:E.
  - intros (j & Hj & Hb)%IH. exists j. split; [by right | done].
  - intros [= <-]. exists i. split; [by left | done].
Qed.

(** What a failed check reports is a saved register that was changed. *)
Lemma CheckPreservedRegisters_Err p st e : CheckPreservedRegisters p st = Err e ->
  exists i, e = NotPreservedError i /\
    ((i ∈ abi_saved /\ xregs_ st i <> preserved_xregs p i) \/
     (i ∈ abi_saved_fp /\ fregs_ st i <> preserved_fregs p i)).
Proof.
  unfold CheckPreservedRegisters. destruct DEBUG; [|done].
  destruct (Z.eqb_spec (preserved_xregs p SP) (xregs_ st SP)) as [|Hsp]; cbn [negb].
  2: { intros [= <-]. exists SP. split; [done|]. left. split; [apply callee_saved_abi; done | congruence]. }
  destruct (for_each _ (check_xreg p st)) as [[]|e'] eqn:Ex; cbn.
  - intros (i & Hi%in_seqZ & Hb)%for_each_Err. unfold check_freg in Hb.
    destruct (Z.eqb_spec (kAbiVolatileFpuRegs .& (1 << i)) 0); [|done].
    destruct (Z.eqb_spec (preserved_fregs p i) (fregs_ st i)); [done|]. injection Hb as <-.
    exists i. split; [done|]. right. split; [by apply callee_saved_fp_abi | congruence].
  - intros [= <-]. apply for_each_Err in Ex as (i & Hi%in_seqZ & Hb). unfold check_xreg in Hb.
    destruct (Z.eqb_spec (kPreservedAtCall .& (1 << i)) 0); [done|].
    destruct (Z.eqb_spec (preserved_xregs p i) (xregs_ st i)); [done|]. injection Hb as <-.
    exists i. split; [done|]. left. split; [by apply callee_saved_abi | congruence].
Qed.

Lemma CheckPreservedRegisters_release p st : DEBUG = false -> CheckPreservedRegisters p st = Ok tt.
Proof. intros HD. unfold CheckPreservedRegisters. by rewrite HD. Qed.

Lemma keeps_saved_passes st st' : keeps_saved st st' ->
  CheckPreservedRegisters (SavePreservedRegisters st) st' = Ok tt.
Proof.
  intros [Hx Hf]. destruct DEBUG eqn:HD; [|by apply CheckPreservedRegisters_release].
  apply CheckPreservedRegisters_spec; [done|]. split; intros i Hi; symmetry.
  - by apply Hx, callee_saved_abi.
  - by apply Hf, callee_saved_fp_abi.
Qed.

Lemma changed_saved_fails st st' : DEBUG = true -> ~ keeps_saved st st' ->
  exists i, CheckPreservedRegisters (SavePreservedRegisters st) st' = Err (NotPreservedError i) /\
    ((i ∈ abi_saved /\ xregs_ st' i <> xregs_ st i) \/ (i ∈ abi_saved_fp /\ fregs_ st' i <> fregs_ st i)).
Proof.
  intros HD Hk. destruct (CheckPreservedRegisters (SavePreservedRegisters st) st') as [[]|e] eqn:E.
  - exfalso. apply Hk. apply CheckPreservedRegisters_spec in E as [Hx Hf]; [|done].
    split; intros i Hi; symmetry; [by apply Hx, callee_saved_abi | by apply Hf, callee_saved_fp_abi].
  - apply CheckPreservedRegisters_Err in E as (i & -> & Hi). by exists i.
Qed.

(** Clobbering touches volatile registers only. *)
Record same_but_volatile (st st' : Simulator) : Prop := {
  sbv_x : forall i, kAbiVolatileCpuRegs .& (1 << i) = 0 -> xregs_ st' i = xregs_ st i;
  sbv_f : forall i, kAbiVolatileFpuRegs .& (1 << i) = 0 -> fregs_ st' i = fregs_ st i;
  sbv_mem : mem_ st' = mem_ st;
  sbv_pc : pc_ st' = pc_ st;
  sbv_redirections : redirections_ st' = redirections_ st;
  sbv_stack : stack_base_ st' = stack_base_ st
}.

#[global] Instance same_but_volatile_preorder : PreOrder same_but_volatile.
Proof.
  split; [by split|]. intros s1 s2 s3 [X1 F1 M1 P1 R1 S1] [X2 F2 M2 P2 R2 S2].
  split; [intros i Hi; rewrite X2, X1; auto | intros i Hi; rewrite F2, F1; auto | congruence..].
Qed.

Lemma clobber_xreg_frame st i : same_but_volatile st (clobber_xreg st i).
Proof.
  unfold clobber_xreg. destruct (Z.eqb_spec (kAbiVolatileCpuRegs .& (1 << i)) 0); [done|].
  cbn [negb]. destruct (NextUInt64 (random_ st)). split; try done. intros j Hj. cbn.
  unfold array_set. by destruct (Z.eqb_spec j i) as [->|].
Qed.

Lemma clobber_freg_frame st i : same_but_volatile st (clobber_freg st i).
Proof.
  unfold clobber_freg. destruct (Z.eqb_spec (kAbiVolatileFpuRegs .& (1 << i)) 0); [done|].
  cbn [negb]. split; try done. intros j Hj. cbn.
  unfold array_set. by destruct (Z.eqb_spec j i) as [->|].
Qed.

Lemma fold_frame f l st : (forall st (i : Z), same_but_volatile st (f st i)) ->
  same_but_volatile st (fold_left f l st).
Proof.
  intros Hf. revert st. induction l as [|i l IH]; intros st; cbn [fold_left]; [done|].
  etrans; [apply Hf | apply IH].
Qed.

Lemma ClobberVolatileRegisters_frame st : same_but_volatile st (ClobberVolatileRegisters st).
Proof.
  unfold ClobberVolatileRegisters. destruct DEBUG; [|done]. cbv zeta.
  etrans; [|apply fold_frame, clobber_freg_frame]. etrans; [|apply fold_frame, clobber_xreg_frame].
  by split.
Qed.

Lemma PrepareCall_frame st : fst (PrepareCall st) = SavePreservedRegisters st /\
  same_but_volatile st (snd (PrepareCall st)).
Proof.
  split; [done|]. unfold PrepareCall. cbn [snd]. destruct DEBUG; [|done]. cbv zeta.
  etrans; [|apply fold_frame, clobber_freg_frame]. apply fold_frame, clobber_xreg_frame.
Qed.

Lemma callee_saved_not_volatile i : callee_saved i -> kAbiVolatileCpuRegs .& (1 << i) = 0.
Proof.
  intros [Hi Hm].
  assert (forallb (fun i => (kPreservedAtCall .& (1 << i) =? 0) || (kAbiVolatileCpuRegs .& (1 << i) =? 0))
            (seqZ 0 32) = true) as Hall by (vm_compute; reflexivity).
  rewrite forallb_forall in Hall. apply in_seqZ, Hall, orb_true_iff in Hi as [E|E];
    apply Z.eqb_eq in E; done.
Qed.
End Preserved.

Section Preparing.
Context `{Target} `{HostFloat} `{Host}.

Lemma PrepareCall_wf st : sim_wf st -> sim_wf (snd (PrepareCall st)).
Proof.
  intros Hwf. unfold PrepareCall. cbn [snd]. destruct DEBUG; [|done]. cbv zeta.
  apply fold_wf; [apply clobber_freg_wf|]. by apply fold_wf; [apply clobber_xreg_wf|].
Qed.

(** ** Redirections *)

(** The list has one entry per function and one per instruction address. *)
Definition redirections_ok (l : list Redirection) : Prop :=
  NoDup (map external_function l) /\ NoDup (map address_of_ecall_instruction l).

Lemma find_key {A} (key : A -> Z) l x : NoDup (map key l) -> In x l ->
  List.find (fun y => key y =? key x) l = Some x.
Proof.
  induction l as [|y l IH]; cbn; [done|]. intros Hnd Hx. inversion Hnd as [|? ? Hy Hnd']; subst.
  destruct (Z.eqb_spec (key y) (key x)) as [E|E].
  - destruct Hx as [->|Hx]; [done|]. exfalso. apply Hy. rewrite E.
    apply list_elem_of_In, in_map, Hx.
  - destruct Hx as [->|Hx]; [done | auto].
Qed.

Lemma Redirection_Get_spec l fresh f k c : redirections_ok l ->
  ~ In fresh (map address_of_ecall_instruction l) ->
  let '(r, l') := Redirection_Get l fresh f k c in
  redirections_ok l' /\ In r l' /\ external_function r = f /\ (forall x, In x l -> In x l').
Proof.
  intros [Hf Ha] Hn. unfold Redirection_Get.
  destruct (List.find _ l) as [r|] eqn:E.
  - apply List.find_some in E as [Hin E%Z.eqb_eq]. by split; [|auto].
  - split; [|split_and!; [by left | done | by right]]. split; cbn [map external_function address_of_ecall_instruction].
    + constructor; [|done]. intros (r & Hr & Hin)%list_elem_of_In%in_map_iff.
      apply (List.find_none _ _ E) in Hin. cbn in Hin. rewrite Hr, Z.eqb_refl in Hin. done.
    + constructor; [|done]. by rewrite list_elem_of_In.
Qed.

Lemma FunctionForRedirect_entry l r : redirections_ok l -> In r l ->
  FunctionForRedirect l (address_of_ecall_instruction r) = external_function r /\
  FromECallInstruction l (address_of_ecall_instruction r) = Ok r.
Proof.
  intros [_ Ha] Hin. unfold FunctionForRedirect, FromECallInstruction.
  by rewrite (find_key address_of_ecall_instruction l r Ha Hin).
Qed.
End Preparing.

(** ** The reservation *)

Section Reservation.
Context `{Target} `{HostFloat} `{Host}.

Definition atomic_type (T : ctype) : Prop :=
  T = int32_t \/ (T = int64_t /\ TARGET_64 = true).

Lemma cast_reserved T v : atomic_type T -> cast T (uintx (cast T v)) = cast T v.
Proof.
  intros [->|[-> H64]]; cbn [cast is_signed bits_of int32_t int64_t]; unfold cast, uintx; cbn.
  - rewrite swrap_uwrap_le by (destruct XLEN_cases; lia). by apply (swrap_idem 32).
  - unfold XLEN. rewrite H64, (swrap_uwrap 64 eq_refl). by apply (swrap_idem 64).
Qed.

(** A store-conditional after a load-reserved of the same address, nothing in between,
    stores its operand and reports success. *)
Lemma LR_SC_stores T st lr sc st1 : atomic_type T ->
  InterpretLR T st lr = Ok st1 -> get_xreg st1 (rs1 sc) = get_xreg st (rs1 lr) ->
  exists m, store_as T (mem_ st) (get_xreg st (rs1 lr)) (cast T (get_xreg st1 (rs2 sc))) = Ok m /\
    InterpretSC T st1 sc = Ok (set_xreg (with_mem st1 m) (rd sc) 0).
Proof.
  intros HT (addr & Ha & (v & Hv & [= <-])%result_bind_Ok)%result_bind_Ok Hs.
  set (st1 := set_xreg (with_reservation st addr (uintx v)) (rd lr) _) in *.
  assert (addr = get_xreg st (rs1 lr)) as Eaddr.
  { revert Ha. unfold atomic_address. destruct (negb _); [done | by intros [= <-]]. }
  assert (mem_ st1 = mem_ st /\ reserved_address_ st1 = addr /\ reserved_value_ st1 = uintx v)
    as (Em & Era & Erv) by (unfold st1, set_xreg; by destruct (negb _)).
  assert (atomic_address T st1 sc = Ok addr) as Hsa.
  { revert Ha. unfold atomic_address. by rewrite Hs. }
  pose proof Hv as (raw & Hraw & [= <-])%result_bind_Ok.
  destruct (mem_store_mapped (mem_ st) addr (Z.to_nat (sizeof T))
              (uwrap (bits_of T) (cast T (get_xreg st1 (rs2 sc))))) as [m Hm].
  { by eapply mem_load_mapped. }
  exists m. rewrite <- Eaddr. split; [done|]. unfold InterpretSC. rewrite Hsa. cbn [mbind result_bind].
  rewrite Era, Z.eqb_refl. cbn [negb]. rewrite Em, Hv, Erv. cbn [mbind result_bind].
  rewrite cast_reserved, Z.eqb_refl by done. unfold store_as. rewrite Hm. done.
Qed.

(** A store-conditional to another address fails and leaves memory alone. *)
Lemma SC_other_fails T st sc addr : atomic_address T st sc = Ok addr ->
  addr <> reserved_address_ st -> InterpretSC T st sc = Ok (set_xreg st (rd sc) 1).
Proof.
  intros Ha Hn. unfold InterpretSC. rewrite Ha. cbn [mbind result_bind].
  by rewrite (proj2 (Z.eqb_neq _ _) Hn).
Qed.
End Reservation.

(** ** The stack pointer across [Call] *)

Section Stack.
Context `{Target} `{HostFloat} `{Host}.

Lemma intx_mod16 x : intx x mod 16 = x mod 16.
Proof.
  destruct (swrap_spec XLEN XLEN_pos x) as [k Hk]. unfold intx. rewrite Hk.
  assert (2 ^ XLEN = 2 ^ (XLEN - 4) * 16) as ->
    by (change 16 with (2 ^ 4); rewrite <- Z.pow_add_r by (destruct XLEN_cases; lia); f_equal; lia).
  rewrite Z.mul_assoc. by rewrite Z.mod_add by lia.
Qed.

Lemma aligned_sp x : 0 <= x < 2 ^ XLEN -> uintx (intx x - intx x mod 16) = x - x mod 16.
Proof.
  intros Hx. rewrite intx_mod16. pose proof (Z.mod_pos_bound x 16 ltac:(lia)).
  pose proof (Z.mod_le x 16 ltac:(lia) ltac:(lia)).
  unfold uintx, intx. rewrite <- (uwrap_sub_l XLEN XLEN_pos), (uwrap_swrap XLEN XLEN_pos).
  rewrite (uwrap_sub_l XLEN XLEN_pos). apply (uwrap_small XLEN XLEN_pos). lia.
Qed.

(** The state in which [Call] starts the simulated code. *)
Record call_entry (entry p0 p1 p2 p3 : Z) (fp_args : bool) (st st0 : Simulator) : Prop := {
  ce_pc : pc_ st0 = uintx entry;
  ce_ra : xregs_ st0 RA = 2 ^ XLEN - 2;
  ce_sp : xregs_ st0 SP = xregs_ st SP - xregs_ st SP mod 16;
  ce_args : fp_args = false -> map (xregs_ st0) [A0; A1; A2; A3] = map uintx [p0; p1; p2; p3];
  ce_fp_args : fp_args = true ->
    map (fregs_ st0) [FA0; FA1; FA2; FA3] = map (fp_of_int binary64) [p0; p1; p2; p3];
  ce_x : forall i, i ∉ [RA; SP] -> fp_args = true \/ i ∉ [A0; A1; A2; A3] ->
    xregs_ st0 i = xregs_ st i;
  ce_f : forall i, fp_args = false \/ i ∉ [FA0; FA1; FA2; FA3] -> fregs_ st0 i = fregs_ st i;
  ce_rest : st0 = with_pc (with_xregs (with_fregs st (fregs_ st0)) (xregs_ st0)) (uintx entry)
}.

(** What [Call] starts [Execute] on. *)
Definition entered_call (entry p0 p1 p2 p3 : Z) (fp_args : bool) (st : Simulator) : Simulator :=
  let sp := intx (xregs_ st SP) in
  set_xreg (with_pc (set_xreg (set_parameters fp_args p0 p1 p2 p3 st) SP (sp - sp mod 16))
    (uintx entry)) RA kEndSimulatingPC.

Lemma Call_open fuel entry p0 p1 p2 p3 fr fa st :
  Call fuel entry p0 p1 p2 p3 fr fa st =
  run_bind (Execute fuel (entered_call entry p0 p1 p2 p3 fa st)) (fun st1 =>
    _ ← CheckPreservedRegisters
          (SavePreservedRegisters (entered_call entry p0 p1 p2 p3 fa st)) st1;
    let st' := set_xreg st1 SP (intx (xregs_ st SP)) in
    Ok (int64 (if fr then fp_to_int binary64 (get_fregd st' FA0) else get_xreg st' A0), st')).
Proof.
  unfold Call. cbv zeta. change ActivationFrameAlignment with (2 ^ 4).
  by rewrite RoundDown_spec by lia.
Qed.

Lemma entered_call_wf entry p0 p1 p2 p3 fa st : sim_wf st ->
  sim_wf (entered_call entry p0 p1 p2 p3 fa st).
Proof.
  intros Hwf. unfold entered_call, set_parameters. cbv zeta.
  apply set_xreg_wf, with_pc_wf; [apply uintx_bound|]. apply set_xreg_wf.
  destruct fa; [by repeat apply set_fregd_wf | by repeat apply set_xreg_wf].
Qed.

Lemma end_marker : uintx kEndSimulatingPC = 2 ^ XLEN - 2.
Proof.
  unfold kEndSimulatingPC. rewrite (uintx_small (uintx _)) by apply uintx_bound.
  unfold uintx, XLEN. by destruct TARGET_64.
Qed.

Lemma array_set_other a i v j : j <> i -> array_set a i v j = a j.
Proof. intros Hj. unfold array_set. by rewrite (proj2 (Z.eqb_neq _ _) Hj). Qed.

Lemma entered_call_entry entry p0 p1 p2 p3 fa st : sim_wf st ->
  call_entry entry p0 p1 p2 p3 fa st (entered_call entry p0 p1 p2 p3 fa st).
Proof.
  intros Hwf. pose proof (proj2 (wf_regs st Hwf) SP) as Hsp.
  unfold entered_call, set_parameters. cbv zeta. rewrite !set_xreg_xset.
  split; destruct fa; rewrite ?set_xreg_xset;
    cbn [xregs_ fregs_ pc_ with_xregs with_pc with_fregs set_fregd map]; try done.
  all: try (intros i; rewrite ?not_elem_of_cons; intros).
  all: rewrite ?xset_other, ?xset_same by (done || naive_solver); try done.
  1-2: apply end_marker.
  1-2: by apply aligned_sp.
  by rewrite !array_set_other by naive_solver.
Qed.

(** The registers the convention saves reach the code unchanged, the stack pointer apart. *)
Lemma call_entry_saved entry p0 p1 p2 p3 fa st st0 i : call_entry entry p0 p1 p2 p3 fa st st0 ->
  i ∈ abi_saved -> i <> SP -> xregs_ st0 i = xregs_ st i.
Proof.
  intros C Hi Hs.
  assert (Forall (fun i => i = SP \/ ((i ∉ [RA; SP]) /\ (i ∉ [A0; A1; A2; A3]))) abi_saved) as Ha
    by (apply (bool_decide_unpack _); by vm_compute).
  apply list_elem_of_In, (proj1 (List.Forall_forall _ _) Ha) in Hi as [|[]]; [done|].
  apply C; auto.
Qed.

(** The outcome of [Call] is that of [Execute] on the entry state, with the saved registers
    checked and the stack pointer put back. *)
Lemma Call_outcome entry p0 p1 p2 p3 fr fa st : sim_wf st ->
  let st0 := entered_call entry p0 p1 p2 p3 fa st in
  forall fuel, let r := Call fuel entry p0 p1 p2 p3 fr fa st in
  match Execute fuel st0 with
  | None => r = None
  | Some (Err e) => r = Some (Err e)
  | Some (Ok st1) =>
      (keeps_saved st0 st1 -> exists st',
         r = Some (Ok (int64 (if fr then fp_to_int binary64 (fregs_ st1 FA0) else xregs_ st1 A0), st')) /\
         st' = with_xregs st1 (xregs_ st') /\ xregs_ st' SP = xregs_ st SP /\
         forall i, i <> SP -> xregs_ st' i = xregs_ st1 i) /\
      (DEBUG = true -> ~ keeps_saved st0 st1 -> exists i, r = Some (Err (NotPreservedError i)) /\
         ((i ∈ abi_saved /\ xregs_ st1 i <> xregs_ st0 i) \/
          (i ∈ abi_saved_fp /\ fregs_ st1 i <> fregs_ st0 i)))
  end.
Proof.
  intros Hwf st0 fuel r. pose proof (proj2 (wf_regs st Hwf) SP) as Hsp.
  unfold r. clear r. rewrite Call_open. fold st0.
  destruct (Execute fuel st0) as [[st1|e]|]; cbn [run_bind]; [|done..]. split.
  - intros Hk. rewrite (keeps_saved_passes _ _ Hk). cbn [mbind result_bind]. cbv zeta.
    rewrite set_xreg_xset. unfold get_xreg, get_fregd. cbn [xregs_ fregs_ with_xregs].
    rewrite (xset_other _ SP _ A0) by done. eexists. split; [done|].
    cbn [xregs_ with_xregs]. split; [done|]. split; [|intros; by apply xset_other].
    rewrite xset_same by done. unfold uintx, intx. rewrite (uwrap_swrap XLEN XLEN_pos).
    by apply uintx_small.
  - intros HD (i & E & Hi)%changed_saved_fails; [|done]. exists i. by rewrite E.
Qed.
End Stack.
