(* ===== verification/Effects.v ===== *)
(** * The effect of single instructions

    What the interpreter does with each instruction word of the base integer set, in
    32-bit and compressed form, as a function of the registers.  [interpret_...] lemmas
    are about [Interpret] on a word built from its fields, [interpret_c_...] about
    [InterpretC]. *)
From S2P Require Import Prelude Utils Constants EncodingFacts Words CWords Memory Float.
From S2P Require Import SimState SimInteger SimFloat Simulator Exec.

Ltac no_vars t := tryif (match t with context [?v] => is_var v end) then fail else idtac.

(** Decide the tests of a dispatch whose operands are constants. *)
Ltac closed_tests :=
  repeat (rewrite ?andb_false_r, ?andb_true_r;
  match goal with
  | |- context [?a =? ?b] =>
      no_vars a; no_vars b;
      let v := eval vm_compute in (a =? b) in
      first [ constr_eq v true | constr_eq v false ];
      rewrite (eq_refl : (a =? b) = v); cbv iota
  end); rewrite ?andb_false_r, ?andb_true_r; cbv iota.

Ltac wside := first [done | lia | split; by vm_compute].

Ltac read_I := rewrite ?Iword_opcode, ?Iword_rd, ?Iword_rs1, ?Iword_funct3 by wside.
Ltac read_R :=
  rewrite ?Rword_opcode, ?Rword_rd, ?Rword_rs1, ?Rword_rs2, ?Rword_funct3, ?Rword_funct7 by wside.

Ltac interpret_I :=
  cbv zeta; unfold Interpret; cbv zeta; read_I; closed_tests;
  unfold InterpretOPIMM, InterpretOPIMM32; cbv zeta; read_I; rewrite Iword_imm by wside; closed_tests;
  rewrite set_xreg_xset; done.

Ltac interpret_R :=
  cbv zeta; unfold Interpret; cbv zeta; read_R; closed_tests;
  unfold InterpretOP, InterpretOP32; cbv zeta; read_R; closed_tests;
  unfold InterpretOP_0, InterpretOP_SUB, InterpretOP_MULDIV; cbv zeta; read_R;
  closed_tests; rewrite set_xreg_xset; done.

Section Words32.
Context `{Target} `{HostFloat} `{Host}.

Lemma interpret_addi st imm rs1 rd :
  0 <= rd < 32 -> 0 <= rs1 < 32 -> IsITypeImm imm = true ->
  let r := xregs_ st in
  Interpret st (Iword imm rs1 Funct3.ADDI rd Opcode.OPIMM) =
  Ok (pc_add (with_xregs st (xset r rd (r rs1 + imm))) 4).
Proof. intros Hd Hs Hi. interpret_I. Qed.

Lemma interpret_slti st imm rs1 rd :
  0 <= rd < 32 -> 0 <= rs1 < 32 -> IsITypeImm imm = true ->
  let r := xregs_ st in
  Interpret st (Iword imm rs1 Funct3.SLTI rd Opcode.OPIMM) =
  Ok (pc_add (with_xregs st (xset r rd (b2z (intx (r rs1) <? intx imm)))) 4).
Proof. intros Hd Hs Hi. interpret_I. Qed.

Lemma interpret_sltiu st imm rs1 rd :
  0 <= rd < 32 -> 0 <= rs1 < 32 -> IsITypeImm imm = true ->
  let r := xregs_ st in
  Interpret st (Iword imm rs1 Funct3.SLTIU rd Opcode.OPIMM) =
  Ok (pc_add (with_xregs st (xset r rd (b2z (r rs1 <? uintx imm)))) 4).
Proof. intros Hd Hs Hi. interpret_I. Qed.

Lemma interpret_xori st imm rs1 rd :
  0 <= rd < 32 -> 0 <= rs1 < 32 -> IsITypeImm imm = true ->
  let r := xregs_ st in
  Interpret st (Iword imm rs1 Funct3.XORI rd Opcode.OPIMM) =
  Ok (pc_add (with_xregs st (xset r rd (r rs1 .^ uintx imm))) 4).
Proof. intros Hd Hs Hi. interpret_I. Qed.

Lemma interpret_ori st imm rs1 rd :
  0 <= rd < 32 -> 0 <= rs1 < 32 -> IsITypeImm imm = true ->
  let r := xregs_ st in
  Interpret st (Iword imm rs1 Funct3.ORI rd Opcode.OPIMM) =
  Ok (pc_add (with_xregs st (xset r rd (r rs1 .| uintx imm))) 4).
Proof. intros Hd Hs Hi. interpret_I. Qed.

Lemma interpret_andi st imm rs1 rd :
  0 <= rd < 32 -> 0 <= rs1 < 32 -> IsITypeImm imm = true ->
  let r := xregs_ st in
  Interpret st (Iword imm rs1 Funct3.ANDI rd Opcode.OPIMM) =
  Ok (pc_add (with_xregs st (xset r rd (r rs1 .& uintx imm))) 4).
Proof. intros Hd Hs Hi. interpret_I. Qed.

Lemma interpret_add st rs2 rs1 rd :
  0 <= rd < 32 -> 0 <= rs1 < 32 -> 0 <= rs2 < 32 ->
  let r := xregs_ st in
  Interpret st (Rword Funct7.F7_0 rs2 rs1 Funct3.ADD rd Opcode.OP) =
  Ok (pc_add (with_xregs st (xset r rd (r rs1 + r rs2))) 4).
Proof. intros Hd Hs1 Hs2. interpret_R. Qed.

Lemma interpret_sub st rs2 rs1 rd :
  0 <= rd < 32 -> 0 <= rs1 < 32 -> 0 <= rs2 < 32 ->
  let r := xregs_ st in
  Interpret st (Rword Funct7.SUB rs2 rs1 Funct3.ADD rd Opcode.OP) =
  Ok (pc_add (with_xregs st (xset r rd (r rs1 - r rs2))) 4).
Proof. intros Hd Hs1 Hs2. interpret_R. Qed.

Lemma interpret_sll st rs2 rs1 rd :
  0 <= rd < 32 -> 0 <= rs1 < 32 -> 0 <= rs2 < 32 ->
  let r := xregs_ st in
  Interpret st (Rword Funct7.F7_0 rs2 rs1 Funct3.SLL rd Opcode.OP) =
  Ok (pc_add (with_xregs st (xset r rd (r rs1 << (r rs2 .& (XLEN - 1))))) 4).
Proof. intros Hd Hs1 Hs2. interpret_R. Qed.

Lemma interpret_slt st rs2 rs1 rd :
  0 <= rd < 32 -> 0 <= rs1 < 32 -> 0 <= rs2 < 32 ->
  let r := xregs_ st in
  Interpret st (Rword Funct7.F7_0 rs2 rs1 Funct3.SLT rd Opcode.OP) =
  Ok (pc_add (with_xregs st (xset r rd (b2z (intx (r rs1) <? intx (r rs2))))) 4).
Proof. intros Hd Hs1 Hs2. interpret_R. Qed.

Lemma interpret_sltu st rs2 rs1 rd :
  0 <= rd < 32 -> 0 <= rs1 < 32 -> 0 <= rs2 < 32 ->
  let r := xregs_ st in
  Interpret st (Rword Funct7.F7_0 rs2 rs1 Funct3.SLTU rd Opcode.OP) =
  Ok (pc_add (with_xregs st (xset r rd (b2z (r rs1 <? r rs2)))) 4).
Proof. intros Hd Hs1 Hs2. interpret_R. Qed.

Lemma interpret_xor st rs2 rs1 rd :
  0 <= rd < 32 -> 0 <= rs1 < 32 -> 0 <= rs2 < 32 ->
  let r := xregs_ st in
  Interpret st (Rword Funct7.F7_0 rs2 rs1 Funct3.XOR rd Opcode.OP) =
  Ok (pc_add (with_xregs st (xset r rd (r rs1 .^ r rs2))) 4).
Proof. intros Hd Hs1 Hs2. interpret_R. Qed.

Lemma interpret_srl st rs2 rs1 rd :
  0 <= rd < 32 -> 0 <= rs1 < 32 -> 0 <= rs2 < 32 ->
  let r := xregs_ st in
  Interpret st (Rword Funct7.F7_0 rs2 rs1 Funct3.SR rd Opcode.OP) =
  Ok (pc_add (with_xregs st (xset r rd (r rs1 >> (r rs2 .& (XLEN - 1))))) 4).
Proof. intros Hd Hs1 Hs2. interpret_R. Qed.

Lemma interpret_sra st rs2 rs1 rd :
  0 <= rd < 32 -> 0 <= rs1 < 32 -> 0 <= rs2 < 32 ->
  let r := xregs_ st in
  Interpret st (Rword Funct7.SRA rs2 rs1 Funct3.SR rd Opcode.OP) =
  Ok (pc_add (with_xregs st (xset r rd (intx (r rs1) >> (r rs2 .& (XLEN - 1))))) 4).
Proof. intros Hd Hs1 Hs2. interpret_R. Qed.

Lemma interpret_or st rs2 rs1 rd :
  0 <= rd < 32 -> 0 <= rs1 < 32 -> 0 <= rs2 < 32 ->
  let r := xregs_ st in
  Interpret st (Rword Funct7.F7_0 rs2 rs1 Funct3.OR rd Opcode.OP) =
  Ok (pc_add (with_xregs st (xset r rd (r rs1 .| r rs2))) 4).
Proof. intros Hd Hs1 Hs2. interpret_R. Qed.

Lemma interpret_and st rs2 rs1 rd :
  0 <= rd < 32 -> 0 <= rs1 < 32 -> 0 <= rs2 < 32 ->
  let r := xregs_ st in
  Interpret st (Rword Funct7.F7_0 rs2 rs1 Funct3.AND rd Opcode.OP) =
  Ok (pc_add (with_xregs st (xset r rd (r rs1 .& r rs2))) 4).
Proof. intros Hd Hs1 Hs2. interpret_R. Qed.

Lemma interpret_mul st rs2 rs1 rd :
  0 <= rd < 32 -> 0 <= rs1 < 32 -> 0 <= rs2 < 32 ->
  let r := xregs_ st in
  Interpret st (Rword Funct7.MULDIV rs2 rs1 Funct3.MUL rd Opcode.OP) =
  Ok (pc_add (with_xregs st (xset r rd (SimInteger.mul (intx (r rs1)) (intx (r rs2))))) 4).
Proof. intros Hd Hs1 Hs2. interpret_R. Qed.

Lemma interpret_mulh st rs2 rs1 rd :
  0 <= rd < 32 -> 0 <= rs1 < 32 -> 0 <= rs2 < 32 ->
  let r := xregs_ st in
  Interpret st (Rword Funct7.MULDIV rs2 rs1 Funct3.MULH rd Opcode.OP) =
  Ok (pc_add (with_xregs st (xset r rd (SimInteger.mulh (intx (r rs1)) (intx (r rs2))))) 4).
Proof. intros Hd Hs1 Hs2. interpret_R. Qed.

Lemma interpret_lui st imm rd :
  0 <= rd < 32 -> - 2 ^ 31 <= imm < 2 ^ 31 -> IsAligned imm (1 << 12) = true ->
  Interpret st (Uword imm rd Opcode.LUI) =
  Ok (pc_add (with_xregs st (xset (xregs_ st) rd imm)) 4).
Proof.
  intros Hd Hi Ha. unfold Interpret. cbv zeta. rewrite Uword_opcode by wside. closed_tests.
  unfold InterpretLUI. cbv zeta. rewrite Uword_rd, Uword_imm by wside.
  rewrite set_xreg_xset. do 3 f_equal. apply xset_eq. apply uwrap_swrap, XLEN_pos.
Qed.

Lemma interpret_addiw st imm rs1 rd :
  0 <= rd < 32 -> 0 <= rs1 < 32 -> IsITypeImm imm = true ->
  let r := xregs_ st in
  Interpret st (Iword imm rs1 Funct3.ADDI rd Opcode.OPIMM32) =
  Ok (pc_add (with_xregs st (xset r rd
        (sign_extend_uint32 (uint32 (uint32 (r rs1) + uint32 imm))))) 4).
Proof. intros Hd Hs Hi. interpret_I. Qed.

(** ** Shifts by an immediate: the amount has six bits on the 64-bit target *)

Definition Shiftword (funct6 shamt rs1 funct3 rd opcode : Z) : Z :=
  (funct6 << 26) .| (shamt << 20) .| (rs1 << 15) .| (funct3 << 12) .| (rd << 7) .| (opcode << 0).

Lemma Shiftword_reads funct6 amount rs1 funct3 rd opcode :
  0 <= funct6 < 64 -> 0 <= amount < XLEN -> 0 <= rs1 < 32 -> 0 <= funct3 < 8 ->
  0 <= rd < 32 -> 0 <= opcode < 128 ->
  let w := Shiftword funct6 amount rs1 funct3 rd opcode in
  0 <= w < 2 ^ 32 /\ Constants.opcode w = opcode /\ Constants.rd w = rd /\
  Constants.rs1 w = rs1 /\ Constants.funct3 w = funct3 /\ shamt w = amount /\
  funct7 w .& 0x7E = funct6 << 1.
Proof.
  intros H6 Ha Hr1 H3 Hrd Hop. cbv zeta. unfold Shiftword.
  assert (amount < 64) by (destruct XLEN_cases; lia).
  split; [word_bound|]. split_and!;
  try (unfold Constants.opcode, Constants.rd, Constants.rs1, Constants.funct3, DecodeOpcode,
         DecodeRd, DecodeRs1, DecodeFunct3, DecodeReg, DecodeFunct; fields; done).
  - unfold shamt, DecodeShamt, DecodeFunct, XLEN in *. destruct TARGET_64; fields; done.
  - unfold funct7, DecodeFunct7, DecodeFunct. rewrite <- Z.land_assoc.
    change (127 .& 126) with (63 << 1). rewrite land_shift_mask, Z.shiftr_shiftr by lia.
    change (25 + 1) with 26. fields. done.
Qed.

Ltac interpret_shift :=
  cbv zeta;
  match goal with |- context [Shiftword ?f ?a ?b ?c ?d ?e] =>
    let Ho := fresh in let Hd := fresh in let Hs := fresh in let Hf := fresh in
    let Ha := fresh in let H7 := fresh in let w := fresh in
    destruct (Shiftword_reads f a b c d e) as (_ & Ho & Hd & Hs & Hf & Ha & H7); [wside..|];
    remember (Shiftword f a b c d e) as w;
    unfold Interpret; cbv zeta; rewrite Ho; closed_tests;
    unfold InterpretOPIMM; cbv zeta; rewrite Hf, ?Hd, ?Hs, ?Ha, ?H7; closed_tests;
    rewrite set_xreg_xset; done
  end.

Lemma interpret_slli st amount rs1 rd :
  0 <= rd < 32 -> 0 <= rs1 < 32 -> 0 <= amount < XLEN ->
  Interpret st (Shiftword 0 amount rs1 Funct3.SLLI rd Opcode.OPIMM) =
  Ok (pc_add (with_xregs st (xset (xregs_ st) rd (xregs_ st rs1 << amount))) 4).
Proof. intros. interpret_shift. Qed.

Lemma interpret_srli st amount rs1 rd :
  0 <= rd < 32 -> 0 <= rs1 < 32 -> 0 <= amount < XLEN ->
  Interpret st (Shiftword 0 amount rs1 Funct3.SRI rd Opcode.OPIMM) =
  Ok (pc_add (with_xregs st (xset (xregs_ st) rd (xregs_ st rs1 >> amount))) 4).
Proof. intros. interpret_shift. Qed.

Lemma interpret_srai st amount rs1 rd :
  0 <= rd < 32 -> 0 <= rs1 < 32 -> 0 <= amount < XLEN ->
  Interpret st (Shiftword 16 amount rs1 Funct3.SRI rd Opcode.OPIMM) =
  Ok (pc_add (with_xregs st (xset (xregs_ st) rd (intx (xregs_ st rs1) >> amount))) 4).
Proof. intros. interpret_shift. Qed.
End Words32.

(** ** Compressed instructions *)

Ltac rewrite_reads w :=
  repeat match goal with
  | E : ?t = _ |- context [?t] =>
      lazymatch t with context [w] => rewrite E end
  end.

Ltac interpret_C reads :=
  let R := fresh in
  pose proof reads as R;
  match goal with |- InterpretC ?st ?word = _ =>
    let w := fresh "w" in set (w := word) in *; clearbody w; destruct_and! R;
    unfold InterpretC; cbv zeta; rewrite_reads w; closed_tests;
    unfold InterpretC_control; cbv zeta; rewrite_reads w; closed_tests;
    unfold InterpretC_JR, InterpretC_arithmetic; cbv zeta; rewrite_reads w; closed_tests;
    unfold InterpretC_MISCALU; cbv zeta; rewrite_reads w; closed_tests
  end.

Section Words16.
Context `{Target} `{HostFloat} `{Host}.

(** Goals left by [interpret_C] on a register write. *)
Ltac finish_C := rewrite ?set_xreg_xset; reflexivity.

Lemma interpret_c_li st rd imm : 0 <= rd < 32 -> rd <> ZR -> IsCIImm imm = true ->
  InterpretC st (CIword 2 1 rd imm) = Ok (pc_add (with_xregs st (xset (xregs_ st) rd imm)) 2).
Proof.
  intros Hd Hz Hi. interpret_C (CIword_reads 2 1 rd imm ltac:(lia) ltac:(lia) Hd Hi).
  rewrite (proj2 (Z.eqb_neq _ _) Hz), set_xreg_xset. cbv iota.
  unfold mbind, result_bind, c_break. do 3 f_equal. apply xset_eq.
  apply uwrap_swrap, XLEN_pos.
Qed.

Lemma interpret_c_lui st rd imm : 0 <= rd < 32 -> rd <> ZR -> rd <> SP ->
  IsCUImm imm = true -> imm <> 0 ->
  InterpretC st (CUword 3 1 rd imm) = Ok (pc_add (with_xregs st (xset (xregs_ st) rd imm)) 2).
Proof.
  intros Hd Hz Hs Hi Hn. interpret_C (CUword_reads 3 1 rd imm ltac:(lia) ltac:(lia) Hd Hi).
  rewrite (proj2 (Z.eqb_neq _ _) Hz), (proj2 (Z.eqb_neq _ _) Hs), (proj2 (Z.eqb_neq _ _) Hn).
  cbn [orb]. rewrite set_xreg_xset.
  unfold mbind, result_bind, c_break. do 3 f_equal. apply xset_eq.
  apply uwrap_swrap, XLEN_pos.
Qed.

Lemma interpret_c_addi st rd imm : 0 <= rd < 32 -> IsCIImm imm = true ->
  InterpretC st (CIword 0 1 rd imm) =
  Ok (pc_add (with_xregs st (xset (xregs_ st) rd (xregs_ st rd + imm))) 2).
Proof.
  intros Hd Hi. interpret_C (CIword_reads 0 1 rd imm ltac:(lia) ltac:(lia) Hd Hi). finish_C.
Qed.

Lemma interpret_c_addiw st rd imm : TARGET_64 = true -> 0 <= rd < 32 -> IsCIImm imm = true ->
  InterpretC st (CIword 1 1 rd imm) =
  Ok (pc_add (with_xregs st (xset (xregs_ st) rd
        (sign_extend_uint32 (uint32 (uint32 (xregs_ st rd) + uint32 imm))))) 2).
Proof.
  intros H64 Hd Hi. interpret_C (CIword_reads 1 1 rd imm ltac:(lia) ltac:(lia) Hd Hi).
  rewrite H64. cbn [negb andb]. cbv iota. rewrite_reads w. closed_tests. finish_C.
Qed.

Lemma interpret_c_addi16sp st imm : IsCI16Imm imm = true -> imm <> 0 ->
  InterpretC st (CI16word 3 1 SP imm) =
  Ok (pc_add (with_xregs st (xset (xregs_ st) SP (xregs_ st SP + imm))) 2).
Proof.
  intros Hi Hn.
  interpret_C (CI16word_reads 3 1 SP imm ltac:(lia) ltac:(lia) ltac:(wside) Hi).
  rewrite (proj2 (Z.eqb_neq _ _) Hn), set_xreg_xset.
  unfold mbind, result_bind, c_break. do 3 f_equal. apply xset_eq.
  unfold sign_extend_int64, intx, uintx, get_xreg. pose proof XLEN_pos.
  rewrite <- uwrap_add_r, uwrap_swrap, uwrap_add_r by lia. done.
Qed.

Lemma interpret_c_addi4spn st rd imm : IsCRdp rd = true -> IsCI4SPNImm imm = true -> imm <> 0 ->
  InterpretC st (CIWword 0 0 imm rd) =
  Ok (pc_add (with_xregs st (xset (xregs_ st) rd (xregs_ st SP + imm))) 2).
Proof.
  intros Hd Hi Hn. interpret_C (CIWword_reads 0 0 imm ltac:(lia) ltac:(lia) rd Hd Hi).
  rewrite (proj2 (Z.eqb_neq _ _) Hn). finish_C.
Qed.

Lemma interpret_c_mv st rd rs2 : 0 <= rd < 32 -> 0 <= rs2 < 32 -> rd <> ZR -> rs2 <> ZR ->
  InterpretC st (CRword 0 rd rs2) =
  Ok (pc_add (with_xregs st (xset (xregs_ st) rd (xregs_ st rs2))) 2).
Proof.
  intros Hd Hs Hz Hz2. interpret_C (CRword_reads 0 rd rs2 ltac:(lia) Hd Hs).
  rewrite (proj2 (Z.eqb_neq _ _) Hz), (proj2 (Z.eqb_neq _ _) Hz2). finish_C.
Qed.

Lemma interpret_c_add st rd rs2 : 0 <= rd < 32 -> 0 <= rs2 < 32 -> rs2 <> ZR ->
  InterpretC st (CRword 1 rd rs2) =
  Ok (pc_add (with_xregs st (xset (xregs_ st) rd (xregs_ st rd + xregs_ st rs2))) 2).
Proof.
  intros Hd Hs Hz2. interpret_C (CRword_reads 1 rd rs2 ltac:(lia) Hd Hs).
  cbn [negb]. cbv iota. rewrite (proj2 (Z.eqb_neq _ _) Hz2), andb_false_r. finish_C.
Qed.

(** A compressed shift amount is below 32, so its sign bit is clear. *)
Lemma shamt_mask amount : 0 <= amount < 32 -> amount .& (XLEN - 1) = amount.
Proof.
  intros Ha. assert (exists k, XLEN - 1 = Z.ones k /\ 5 <= k) as (k & -> & Hk).
  { unfold XLEN. destruct TARGET_64; [by exists 6 | by exists 5]. }
  rewrite Z.land_ones by lia. apply Z.mod_small.
  assert (2 ^ 5 <= 2 ^ k) by (apply Z.pow_le_mono_r; lia). lia.
Qed.

Lemma interpret_c_slli st rd amount : 0 <= rd < 32 -> 0 < amount < 32 ->
  IsCIImm amount = true ->
  InterpretC st (CIword 0 2 rd amount) =
  Ok (pc_add (with_xregs st (xset (xregs_ st) rd (xregs_ st rd << amount))) 2).
Proof.
  intros Hd Ha Hi. interpret_C (CIword_reads 0 2 rd amount ltac:(lia) ltac:(lia) Hd Hi).
  rewrite (proj2 (Z.eqb_neq amount 0)), shamt_mask by lia. finish_C.
Qed.

Lemma interpret_c_srli st rd amount : IsRegPrime rd = true -> 0 < amount < 32 ->
  IsCIImm amount = true ->
  InterpretC st (CALUword 0 amount rd) =
  Ok (pc_add (with_xregs st (xset (xregs_ st) rd (xregs_ st rd >> amount))) 2).
Proof.
  intros Hd Ha Hi. interpret_C (CALUword_reads 0 amount ltac:(lia) rd Hd Hi).
  rewrite (proj2 (Z.eqb_neq amount 0)), shamt_mask by lia. finish_C.
Qed.

Lemma interpret_c_srai st rd amount : IsRegPrime rd = true -> 0 < amount < 32 ->
  IsCIImm amount = true ->
  InterpretC st (CALUword 1 amount rd) =
  Ok (pc_add (with_xregs st (xset (xregs_ st) rd (intx (xregs_ st rd) >> amount))) 2).
Proof.
  intros Hd Ha Hi. interpret_C (CALUword_reads 1 amount ltac:(lia) rd Hd Hi).
  rewrite (proj2 (Z.eqb_neq amount 0)), shamt_mask by lia. finish_C.
Qed.

Lemma interpret_c_andi st rd imm : IsRegPrime rd = true -> IsCIImm imm = true ->
  InterpretC st (CALUword 2 imm rd) =
  Ok (pc_add (with_xregs st (xset (xregs_ st) rd (xregs_ st rd .& uintx imm))) 2).
Proof.
  intros Hd Hi. interpret_C (CALUword_reads 2 imm ltac:(lia) rd Hd Hi). finish_C.
Qed.

Lemma interpret_c_sub st rd rs2 : IsRegPrime rd = true -> IsRegPrime rs2 = true ->
  let r := xregs_ st in
  InterpretC st (CAword 0 0 rd rs2) =
  Ok (pc_add (with_xregs st (xset r rd (r rd - r rs2))) 2).
Proof.
  intros Hd Hs r. interpret_C (CAword_reads 0 0 ltac:(lia) ltac:(lia) rd rs2 Hd Hs). finish_C.
Qed.

Lemma interpret_c_xor st rd rs2 : IsRegPrime rd = true -> IsRegPrime rs2 = true ->
  let r := xregs_ st in
  InterpretC st (CAword 0 1 rd rs2) =
  Ok (pc_add (with_xregs st (xset r rd (r rd .^ r rs2))) 2).
Proof.
  intros Hd Hs r. interpret_C (CAword_reads 0 1 ltac:(lia) ltac:(lia) rd rs2 Hd Hs). finish_C.
Qed.

Lemma interpret_c_or st rd rs2 : IsRegPrime rd = true -> IsRegPrime rs2 = true ->
  let r := xregs_ st in
  InterpretC st (CAword 0 2 rd rs2) =
  Ok (pc_add (with_xregs st (xset r rd (r rd .| r rs2))) 2).
Proof.
  intros Hd Hs r. interpret_C (CAword_reads 0 2 ltac:(lia) ltac:(lia) rd rs2 Hd Hs). finish_C.
Qed.

Lemma interpret_c_and st rd rs2 : IsRegPrime rd = true -> IsRegPrime rs2 = true ->
  let r := xregs_ st in
  InterpretC st (CAword 0 3 rd rs2) =
  Ok (pc_add (with_xregs st (xset r rd (r rd .& r rs2))) 2).
Proof.
  intros Hd Hs r. interpret_C (CAword_reads 0 3 ltac:(lia) ltac:(lia) rd rs2 Hd Hs). finish_C.
Qed.

Lemma interpret_c_subw st rd rs2 : IsRegPrime rd = true -> IsRegPrime rs2 = true ->
  let r := xregs_ st in
  InterpretC st (CAword 1 0 rd rs2) =
  Ok (pc_add (with_xregs st (xset r rd (sign_extend_uint32 (uint32 (uint32 (r rd) - uint32 (r rs2)))))) 2).
Proof.
  intros Hd Hs r. interpret_C (CAword_reads 1 0 ltac:(lia) ltac:(lia) rd rs2 Hd Hs). finish_C.
Qed.

Lemma interpret_c_addw st rd rs2 : IsRegPrime rd = true -> IsRegPrime rs2 = true ->
  let r := xregs_ st in
  InterpretC st (CAword 1 1 rd rs2) =
  Ok (pc_add (with_xregs st (xset r rd (sign_extend_uint32 (uint32 (uint32 (r rd) + uint32 (r rs2)))))) 2).
Proof.
  intros Hd Hs r. interpret_C (CAword_reads 1 1 ltac:(lia) ltac:(lia) rd rs2 Hd Hs). finish_C.
Qed.

End Words16.

(** ** Control transfers *)

(** The condition a branch tests, by its function field. *)
Definition branch_cond `{Target} (f3 a b : Z) : bool :=
  if f3 =? Funct3.BEQ then a =? b
  else if f3 =? Funct3.BNE then negb (a =? b)
  else if f3 =? Funct3.BLT then intx a <? intx b
  else if f3 =? Funct3.BGE then intx b <=? intx a
  else if f3 =? Funct3.BLTU then a <? b
  else b <=? a.

Definition branch_functs : list Z :=
  [Funct3.BEQ; Funct3.BNE; Funct3.BLT; Funct3.BGE; Funct3.BLTU; Funct3.BGEU].

Section Control.
Context `{Target} `{HostFloat} `{Host}.

Lemma branch_funct_range f3 : In f3 branch_functs -> 0 <= f3 < 8.
Proof. cbn. unfold Funct3.BEQ, Funct3.BNE, Funct3.BLT, Funct3.BGE, Funct3.BLTU, Funct3.BGEU. lia. Qed.

Lemma interpret_branch st imm rs2 rs1 f3 : 0 <= rs1 < 32 -> 0 <= rs2 < 32 ->
  In f3 branch_functs -> IsBTypeImm imm = true ->
  Interpret st (Bword imm rs2 rs1 f3 Opcode.BRANCH) =
  Ok (pc_add st (if branch_cond f3 (xregs_ st rs1) (xregs_ st rs2) then imm else 4)).
Proof.
  intros H1' H2' H3 Hi. pose proof (branch_funct_range f3 H3).
  unfold Interpret. cbv zeta. rewrite Bword_opcode by wside. closed_tests.
  unfold InterpretBRANCH. cbv zeta.
  rewrite Bword_rs1, Bword_rs2, Bword_funct3 by wside.
  unfold branch_cond, branch_if, get_xreg. rewrite Bword_imm by wside.
  cbn in H3. destruct H3 as [<-|[<-|[<-|[<-|[<-|[<-|[]]]]]]]; closed_tests;
    match goal with |- context [if ?c then _ else _] => by destruct c end.
Qed.

Lemma interpret_jal st imm rd : 0 <= rd < 32 -> IsJTypeImm imm = true ->
  Interpret st (Jword imm rd Opcode.JAL) =
  Ok (pc_add (with_xregs st (xset (xregs_ st) rd (pc_ st + 4))) imm).
Proof.
  intros Hd Hi. unfold Interpret. cbv zeta. rewrite Jword_opcode by wside. closed_tests.
  unfold InterpretJAL. cbv zeta. rewrite Jword_rd, Jword_imm by wside.
  rewrite set_xreg_xset. f_equal. unfold pc_add. f_equal.
  unfold sign_extend_int64, uintx, intx. pose proof XLEN_pos.
  cbn [pc_ with_xregs]. by rewrite <- uwrap_add_r, uwrap_swrap, uwrap_add_r by lia.
Qed.

Lemma interpret_auipc st imm rd :
  0 <= rd < 32 -> - 2 ^ 31 <= imm < 2 ^ 31 -> imm mod 4096 = 0 ->
  Interpret st (Uword imm rd Opcode.AUIPC) =
  Ok (pc_add (with_xregs st (xset (xregs_ st) rd (pc_ st + imm))) 4).
Proof.
  intros Hd Hi Ha. unfold Interpret. cbv zeta. rewrite Uword_opcode by wside. closed_tests.
  unfold InterpretAUIPC. cbv zeta. rewrite Uword_rd, Uword_imm by (wside || by apply (aligned_spec imm 12)).
  rewrite set_xreg_xset. do 3 f_equal. apply xset_eq.
  unfold sign_extend_int64, uintx, intx. pose proof XLEN_pos.
  by rewrite <- uwrap_add_r, uwrap_swrap, uwrap_add_r by lia.
Qed.

Lemma interpret_jalr st imm rs1 rd : 0 <= rd < 32 -> 0 <= rs1 < 32 -> IsITypeImm imm = true ->
  Interpret st (Iword imm rs1 Funct3.F3_0 rd Opcode.JALR) =
  Ok (with_pc (with_xregs st (xset (xregs_ st) rd (pc_ st + 4))) (uintx (xregs_ st rs1 + imm))).
Proof.
  intros Hd Hs Hi. unfold Interpret. cbv zeta. read_I. closed_tests.
  unfold InterpretJALR. cbv zeta. read_I. rewrite Iword_imm by wside.
  rewrite set_xreg_xset. do 2 f_equal. unfold uintx, get_xreg. pose proof XLEN_pos.
  by rewrite uwrap_add_r by lia.
Qed.

Lemma interpret_c_j st imm : IsCJImm imm = true ->
  InterpretC st (CJword 5 1 imm) = Ok (pc_add st imm).
Proof.
  intros Hi. interpret_C (CJword_reads 5 1 imm ltac:(lia) ltac:(lia) Hi).
  apply andb_true_iff in Hi as [Hi _]. apply IsInt_spec in Hi; [|lia].
  f_equal. unfold pc_add. f_equal. unfold sign_extend_int32, int32, uintx, intx.
  pose proof XLEN_pos. rewrite (swrap_small 32 eq_refl) by lia.
  by rewrite <- uwrap_add_r, uwrap_swrap, uwrap_add_r by lia.
Qed.

Lemma interpret_c_beqz st rs1p imm : IsRegPrime rs1p = true -> IsCBImm imm = true ->
  InterpretC st (CBword 6 1 imm rs1p) =
  Ok (pc_add st (if xregs_ st rs1p =? 0 then imm else 2)).
Proof.
  intros Hr Hi. interpret_C (CBword_reads 6 1 imm ltac:(lia) ltac:(lia) rs1p Hr Hi).
  unfold get_xreg. by destruct (xregs_ st rs1p =? 0).
Qed.

Lemma interpret_c_bnez st rs1p imm : IsRegPrime rs1p = true -> IsCBImm imm = true ->
  InterpretC st (CBword 7 1 imm rs1p) =
  Ok (pc_add st (if negb (xregs_ st rs1p =? 0) then imm else 2)).
Proof.
  intros Hr Hi. interpret_C (CBword_reads 7 1 imm ltac:(lia) ltac:(lia) rs1p Hr Hi).
  unfold get_xreg. by destruct (negb (xregs_ st rs1p =? 0)).
Qed.
End Control.
