(* ===== verification/AsmState.v ===== *)
(** * Assembler state

    [class Label] and [class AssemblerBuffer] of
    [src/runtime/vm/compiler/assembler/assembler_base.h] and the fields of
    [MicroAssembler] and [Assembler] of [assembler_riscv.h].

    The buffer is the list of the bytes emitted so far; growing the underlying storage
    ([ExtendCapacity]) does not change it.  Labels are objects the assembler updates
    through pointers, so the state holds a store of labels indexed by their identity.
    An access outside the buffer fails its [ASSERT] in a [DEBUG] build and is a host
    fault in a release build. *)
From S2P Require Import Prelude Utils Constants Memory.

(** The position and the heads of the five lists of unresolved branches, [-1] if none. *)
Record Label := {
  position_ : Z;
  unresolved_cb_ : Z;
  unresolved_cj_ : Z;
  unresolved_b_ : Z;
  unresolved_j_ : Z;
  unresolved_far_ : Z
}.

Definition Label_new : Label :=
  {| position_ := -1; unresolved_cb_ := -1; unresolved_cj_ := -1;
     unresolved_b_ := -1; unresolved_j_ := -1; unresolved_far_ := -1 |}.

Definition IsBound (l : Label) : bool := negb (position_ l =? -1).
Definition IsLinked (l : Label) : bool :=
  negb (unresolved_cb_ l =? -1) || negb (unresolved_cj_ l =? -1) ||
  negb (unresolved_b_ l =? -1) || negb (unresolved_j_ l =? -1) ||
  negb (unresolved_far_ l =? -1).
Definition IsUnused (l : Label) : bool := negb (IsBound l) && negb (IsLinked l).

(** The five branch classes of [DEFINE_BRANCH_CLASS]. *)
Inductive branch_class := br_cb | br_cj | br_b | br_j | br_far.

Definition unresolved (c : branch_class) (l : Label) : Z :=
  match c with
  | br_cb => unresolved_cb_ l
  | br_cj => unresolved_cj_ l
  | br_b => unresolved_b_ l
  | br_j => unresolved_j_ l
  | br_far => unresolved_far_ l
  end.

Definition set_unresolved (c : branch_class) (l : Label) (v : Z) : Label :=
  {| position_ := position_ l;
     unresolved_cb_ := match c with br_cb => v | _ => unresolved_cb_ l end;
     unresolved_cj_ := match c with br_cj => v | _ => unresolved_cj_ l end;
     unresolved_b_ := match c with br_b => v | _ => unresolved_b_ l end;
     unresolved_j_ := match c with br_j => v | _ => unresolved_j_ l end;
     unresolved_far_ := match c with br_far => v | _ => unresolved_far_ l end |}.

#[export] Instance branch_class_eq_dec : EqDecision branch_class.
Proof. solve_decision. Defined.

Record Address := { base : Z; offset : Z }.
Definition FieldAddress (base offset : Z) : Address :=
  {| base := base; offset := offset - 1 |}.

Inductive JumpDistance := kFarJump | kNearJump.
Definition is_near (d : JumpDistance) : bool :=
  match d with kNearJump => true | kFarJump => false end.

Inductive DeferredCompareType := kNone | kCompareReg | kCompareImm | kTestReg | kTestImm.

#[export] Instance DeferredCompareType_eq_dec : EqDecision DeferredCompareType.
Proof. solve_decision. Defined.

Record Assembler := {
  buffer_ : list Z;
  labels_ : nat -> Label;
  extensions_ : Z;
  far_branch_level_ : Z;
  deferred_compare_ : DeferredCompareType;
  deferred_left_ : Z;
  deferred_reg_ : Z;
  deferred_imm_ : Z
}.

Definition with_buffer (s : Assembler) (v : list Z) : Assembler :=
  {| buffer_ := v; labels_ := labels_ s; extensions_ := extensions_ s;
     far_branch_level_ := far_branch_level_ s; deferred_compare_ := deferred_compare_ s;
     deferred_left_ := deferred_left_ s; deferred_reg_ := deferred_reg_ s;
     deferred_imm_ := deferred_imm_ s |}.
Definition with_label (s : Assembler) (id : nat) (v : Label) : Assembler :=
  {| buffer_ := buffer_ s;
     labels_ := fun i => if (i =? id)%nat then v else labels_ s i;
     extensions_ := extensions_ s;
     far_branch_level_ := far_branch_level_ s; deferred_compare_ := deferred_compare_ s;
     deferred_left_ := deferred_left_ s; deferred_reg_ := deferred_reg_ s;
     deferred_imm_ := deferred_imm_ s |}.
Definition with_deferred (s : Assembler) (c : DeferredCompareType) (left reg imm : Z)
    : Assembler :=
  {| buffer_ := buffer_ s; labels_ := labels_ s; extensions_ := extensions_ s;
     far_branch_level_ := far_branch_level_ s; deferred_compare_ := c;
     deferred_left_ := left; deferred_reg_ := reg; deferred_imm_ := imm |}.

(** A method of the assembler. *)
Abbreviation asm A := (M Assembler A).

Definition lift {A} (r : result A) : asm A :=
  fun s => match r with Ok a => Ok (a, s) | Err e => Err e end.
Definition get {A} (f : Assembler -> A) : asm A := fun s => Ok (f s, s).
Definition modify (f : Assembler -> Assembler) : asm unit := fun s => Ok (tt, f s).

Section Methods.
Context `{Target}.

Definition assert (x : bool) : asm unit := lift (ASSERT x).

Definition Supports (extension : Z) (s : Assembler) : bool :=
  ExtensionSet_Includes (extensions_ s) extension.

(** [buffer_.Size()]. *)
Definition Position (s : Assembler) : Z := Z.of_nat (length (buffer_ s)).

(** [AssemblerBuffer::Emit], [Load] and [Store] at [n] bytes. *)
Definition Emit (n : nat) (value : Z) : asm unit :=
  fun s => Ok (tt, with_buffer s (buffer_ s ++ le_bytes n value)).

Definition in_buffer (n : nat) (position : Z) (s : Assembler) : bool :=
  (0 <=? position) && (position <=? Position s - Z.of_nat n).

Definition Load (n : nat) (position : Z) : asm Z := fun s =>
  if in_buffer n position s
  then Ok (le_value (take n (drop (Z.to_nat position) (buffer_ s))), s)
  else Err (if DEBUG then AssertFailure else HostFault position).

Definition Store (n : nat) (position value : Z) : asm unit := fun s =>
  if in_buffer n position s then
    let p := Z.to_nat position in
    Ok (tt, with_buffer s (take p (buffer_ s) ++ le_bytes n value ++ drop (p + n) (buffer_ s)))
  else Err (if DEBUG then AssertFailure else HostFault position).

Definition Read16 (position : Z) : asm Z := Load 2 position.
Definition Write16 (position instruction : Z) : asm unit := Store 2 position (uint16 instruction).
Definition Emit16 (instruction : Z) : asm unit := Emit 2 (uint16 instruction).
Definition Read32 (position : Z) : asm Z := Load 4 position.
Definition Write32 (position instruction : Z) : asm unit := Store 4 position (uint32 instruction).
Definition Emit32 (instruction : Z) : asm unit := Emit 4 (uint32 instruction).

(** *** Labels *)

Definition label_bound (id : nat) (s : Assembler) : bool := IsBound (labels_ s id).

Definition label_position (id : nat) : asm Z := fun s =>
  match ASSERT (IsBound (labels_ s id)) with
  | Ok _ => Ok (position_ (labels_ s id), s)
  | Err e => Err e
  end.

(** [link_##name(position)]. *)
Definition Label_link (c : branch_class) (l : Label) (position : Z) : result (Z * Label) :=
  let head := unresolved c l in
  _ ← ASSERT (head <? position);
  if head =? -1 then Ok (0, set_unresolved c l position)
  else
    let offset := int32 (position - head) in
    _ ← ASSERT (0 <? offset);
    Ok (offset, set_unresolved c l position).

Definition link (c : branch_class) (id : nat) : asm Z := fun s =>
  match Label_link c (labels_ s id) (int32 (Position s)) with
  | Ok (offset, l) => Ok (offset, with_label s id l)
  | Err e => Err e
  end.

(** [BindTo(position)]. *)
Definition Label_BindTo (l : Label) (position : Z) : result Label :=
  _ ← ASSERT (negb (IsBound l));
  _ ← ASSERT (negb (IsLinked l));
  let l := {| position_ := int32 position; unresolved_cb_ := unresolved_cb_ l;
              unresolved_cj_ := unresolved_cj_ l; unresolved_b_ := unresolved_b_ l;
              unresolved_j_ := unresolved_j_ l; unresolved_far_ := unresolved_far_ l |} in
  _ ← ASSERT (IsBound l);
  Ok l.

Definition BindTo (id : nat) (position : Z) : asm unit := fun s =>
  match Label_BindTo (labels_ s id) position with
  | Ok l => Ok (tt, with_label s id l)
  | Err e => Err e
  end.
End Methods.
