(* ===== verification/MicroAssembler.v ===== *)
(** * The instruction emitters

    [class MicroAssembler] of
    [src/runtime/vm/compiler/assembler/assembler_riscv.{h,cc}]: one definition per
    method.  An emitter takes the shorter encoding when the compressed extension is
    available and the operands fit, as the source does.  Overloads of [EmitRType] that
    differ in the kind of their registers have a suffix naming the kinds of [rs2], [rs1],
    the third field and [rd] ([R] integer, [F] floating point, [f] [Funct3], [r] rounding
    mode).  The emitters of the 64-bit extensions exist in the 64-bit target only.

    [BailoutWithBranchOffsetError], which leaves the assembler by [longjmp], is the error
    [BranchOffsetError]. *)
From S2P Require Import Prelude Utils Constants Memory AsmState.

Section Emitters.
Context `{Target}.

Definition assert_supports (extension : Z) : asm unit :=
  supported ← get (Supports extension); assert supported.

(** ** Instruction formats *)

Definition EmitRType (funct7 rs2 rs1 funct3 rd opcode : Z) : asm unit :=
  e0 ← lift (EncodeFunct7 funct7);
  e1 ← lift (EncodeRs2 rs2);
  e2 ← lift (EncodeRs1 rs1);
  e3 ← lift (EncodeFunct3 funct3);
  e4 ← lift (EncodeRd rd);
  e5 ← lift (EncodeOpcode opcode);
  Emit32 (0 .| e0 .| e1 .| e2 .| e3 .| e4 .| e5).

(** With the acquire and release bits of an atomic operation. *)
Definition EmitRType_order (funct5 : Z) (order : memory_order) (rs2 rs1 funct3 rd opcode : Z)
    : asm unit :=
  let funct7 := funct5 << 2 in
  match order with
  | memory_order_acq_rel => EmitRType (funct7 .| 3) rs2 rs1 funct3 rd opcode
  | memory_order_acquire => EmitRType (funct7 .| 2) rs2 rs1 funct3 rd opcode
  | memory_order_release => EmitRType (funct7 .| 1) rs2 rs1 funct3 rd opcode
  | memory_order_relaxed => EmitRType (funct7 .| 0) rs2 rs1 funct3 rd opcode
  | _ => fail FatalError
  end.

Definition EmitRType_FFfF (funct7 rs2 rs1 funct3 rd opcode : Z) : asm unit :=
  e0 ← lift (EncodeFunct7 funct7);
  e1 ← lift (EncodeFRs2 rs2);
  e2 ← lift (EncodeFRs1 rs1);
  e3 ← lift (EncodeFunct3 funct3);
  e4 ← lift (EncodeFRd rd);
  e5 ← lift (EncodeOpcode opcode);
  Emit32 (0 .| e0 .| e1 .| e2 .| e3 .| e4 .| e5).

Definition EmitRType_FFrF (funct7 rs2 rs1 round rd opcode : Z) : asm unit :=
  e0 ← lift (EncodeFunct7 funct7);
  e1 ← lift (EncodeFRs2 rs2);
  e2 ← lift (EncodeFRs1 rs1);
  e3 ← lift (EncodeRoundingMode round);
  e4 ← lift (EncodeFRd rd);
  e5 ← lift (EncodeOpcode opcode);
  Emit32 (0 .| e0 .| e1 .| e2 .| e3 .| e4 .| e5).

Definition EmitRType_FRrF (funct7 rs2 rs1 round rd opcode : Z) : asm unit :=
  e0 ← lift (EncodeFunct7 funct7);
  e1 ← lift (EncodeFRs2 rs2);
  e2 ← lift (EncodeRs1 rs1);
  e3 ← lift (EncodeRoundingMode round);
  e4 ← lift (EncodeFRd rd);
  e5 ← lift (EncodeOpcode opcode);
  Emit32 (0 .| e0 .| e1 .| e2 .| e3 .| e4 .| e5).

Definition EmitRType_FRfF (funct7 rs2 rs1 funct3 rd opcode : Z) : asm unit :=
  e0 ← lift (EncodeFunct7 funct7);
  e1 ← lift (EncodeFRs2 rs2);
  e2 ← lift (EncodeRs1 rs1);
  e3 ← lift (EncodeFunct3 funct3);
  e4 ← lift (EncodeFRd rd);
  e5 ← lift (EncodeOpcode opcode);
  Emit32 (0 .| e0 .| e1 .| e2 .| e3 .| e4 .| e5).

Definition EmitRType_FFfR (funct7 rs2 rs1 funct3 rd opcode : Z) : asm unit :=
  e0 ← lift (EncodeFunct7 funct7);
  e1 ← lift (EncodeFRs2 rs2);
  e2 ← lift (EncodeFRs1 rs1);
  e3 ← lift (EncodeFunct3 funct3);
  e4 ← lift (EncodeRd rd);
  e5 ← lift (EncodeOpcode opcode);
  Emit32 (0 .| e0 .| e1 .| e2 .| e3 .| e4 .| e5).

Definition EmitRType_FFrR (funct7 rs2 rs1 round rd opcode : Z) : asm unit :=
  e0 ← lift (EncodeFunct7 funct7);
  e1 ← lift (EncodeFRs2 rs2);
  e2 ← lift (EncodeFRs1 rs1);
  e3 ← lift (EncodeRoundingMode round);
  e4 ← lift (EncodeRd rd);
  e5 ← lift (EncodeOpcode opcode);
  Emit32 (0 .| e0 .| e1 .| e2 .| e3 .| e4 .| e5).

Definition EmitRType_shamt (funct7 shamt rs1 funct3 rd opcode : Z) : asm unit :=
  e0 ← lift (EncodeFunct7 funct7);
  e1 ← lift (EncodeShamt shamt);
  e2 ← lift (EncodeRs1 rs1);
  e3 ← lift (EncodeFunct3 funct3);
  e4 ← lift (EncodeRd rd);
  e5 ← lift (EncodeOpcode opcode);
  Emit32 (0 .| e0 .| e1 .| e2 .| e3 .| e4 .| e5).

Definition EmitR4Type (rs3 funct2 rs2 rs1 round rd opcode : Z) : asm unit :=
  e0 ← lift (EncodeFRs3 rs3);
  e1 ← lift (EncodeFunct2 funct2);
  e2 ← lift (EncodeFRs2 rs2);
  e3 ← lift (EncodeFRs1 rs1);
  e4 ← lift (EncodeRoundingMode round);
  e5 ← lift (EncodeFRd rd);
  e6 ← lift (EncodeOpcode opcode);
  Emit32 (0 .| e0 .| e1 .| e2 .| e3 .| e4 .| e5 .| e6).

Definition EmitIType (imm rs1 funct3 rd opcode : Z) : asm unit :=
  e0 ← lift (EncodeITypeImm imm);
  e1 ← lift (EncodeRs1 rs1);
  e2 ← lift (EncodeFunct3 funct3);
  e3 ← lift (EncodeRd rd);
  e4 ← lift (EncodeOpcode opcode);
  Emit32 (0 .| e0 .| e1 .| e2 .| e3 .| e4).

Definition EmitIType_F (imm rs1 funct3 rd opcode : Z) : asm unit :=
  e0 ← lift (EncodeITypeImm imm);
  e1 ← lift (EncodeRs1 rs1);
  e2 ← lift (EncodeFunct3 funct3);
  e3 ← lift (EncodeFRd rd);
  e4 ← lift (EncodeOpcode opcode);
  Emit32 (0 .| e0 .| e1 .| e2 .| e3 .| e4).

Definition EmitSType (imm rs2 rs1 funct3 opcode : Z) : asm unit :=
  e0 ← lift (EncodeSTypeImm imm);
  e1 ← lift (EncodeRs2 rs2);
  e2 ← lift (EncodeRs1 rs1);
  e3 ← lift (EncodeFunct3 funct3);
  e4 ← lift (EncodeOpcode opcode);
  Emit32 (0 .| e0 .| e1 .| e2 .| e3 .| e4).

Definition EmitSType_F (imm rs2 rs1 funct3 opcode : Z) : asm unit :=
  e0 ← lift (EncodeSTypeImm imm);
  e1 ← lift (EncodeFRs2 rs2);
  e2 ← lift (EncodeRs1 rs1);
  e3 ← lift (EncodeFunct3 funct3);
  e4 ← lift (EncodeOpcode opcode);
  Emit32 (0 .| e0 .| e1 .| e2 .| e3 .| e4).

Definition EmitBType (imm rs2 rs1 funct3 opcode : Z) : asm unit :=
  e0 ← lift (EncodeBTypeImm imm);
  e1 ← lift (EncodeRs2 rs2);
  e2 ← lift (EncodeRs1 rs1);
  e3 ← lift (EncodeFunct3 funct3);
  e4 ← lift (EncodeOpcode opcode);
  Emit32 (0 .| e0 .| e1 .| e2 .| e3 .| e4).

Definition EmitUType (imm rd opcode : Z) : asm unit :=
  e0 ← lift (EncodeUTypeImm imm);
  e1 ← lift (EncodeRd rd);
  e2 ← lift (EncodeOpcode opcode);
  Emit32 (0 .| e0 .| e1 .| e2).

Definition EmitJType (imm rd opcode : Z) : asm unit :=
  e0 ← lift (EncodeJTypeImm imm);
  e1 ← lift (EncodeRd rd);
  e2 ← lift (EncodeOpcode opcode);
  Emit32 (0 .| e0 .| e1 .| e2).

(** ** Branches and jumps to labels *)

Definition InvertFunct3 (func : Z) : result Z :=
  if func =? Funct3.BEQ then Ok Funct3.BNE
  else if func =? Funct3.BNE then Ok Funct3.BEQ
  else if func =? Funct3.BGE then Ok Funct3.BLT
  else if func =? Funct3.BGEU then Ok Funct3.BLTU
  else if func =? Funct3.BLT then Ok Funct3.BGE
  else if func =? Funct3.BLTU then Ok Funct3.BGEU
  else Err Unreachable.

(** The split of a constant into a sign-extended low part of 12 bits and a high part, as the
    source writes it at each use. *)
Definition split_lo (offset : Z) : Z := intx (offset << (XLEN - 12)) >> (XLEN - 12).
Definition split_hi (offset : Z) : Z :=
  intx ((offset - split_lo offset) << (XLEN - 32)) >> (XLEN - 32).

(** The two-instruction jump to [pc + offset] through [FAR_TMP]. *)
Definition EmitFarJump (offset : Z) : asm unit :=
  let lo := split_lo offset in
  let hi := split_hi offset in
  if negb (IsUTypeImm hi) then fail FatalError
  else
    _ ← EmitUType hi FAR_TMP Opcode.AUIPC;
    EmitIType lo FAR_TMP Funct3.F3_0 ZR Opcode.JALR.

(** [label->Position() - Position()]. *)
Definition label_offset (label : nat) : asm Z :=
  target ← label_position label;
  position ← get Position;
  mret (target - position).

(** A branch over a longer jump: the inverted branch skips [length] bytes, and the code
    in DEBUG mode checks that the sequence has that length. *)
Definition EmitLongBranch (length rs1 rs2 func : Z) (jump : asm unit) : asm unit :=
  start ← get Position;
  inverted ← lift (InvertFunct3 func);
  _ ← EmitBType length rs2 rs1 inverted Opcode.BRANCH;
  _ ← jump;
  end_ ← get Position;
  assert (end_ - start =? length).

Definition EmitBranch (rs1 rs2 : Z) (label : nat) (func : Z) (distance : JumpDistance)
    : asm unit :=
  bound ← get (label_bound label);
  if bound : bool then
    offset ← label_offset label;
    if IsBTypeImm offset then EmitBType offset rs2 rs1 func Opcode.BRANCH
    else if IsJTypeImm (offset + 4) then
      EmitLongBranch 8 rs1 rs2 func
        (offset ← label_offset label; EmitJType offset ZR Opcode.JAL)
    else
      EmitLongBranch 12 rs1 rs2 func
        (offset ← label_offset label; EmitFarJump offset)
  else
    level ← get far_branch_level_;
    if is_near distance then
      offset ← link br_b label;
      if negb (IsBTypeImm offset) then fail FatalError
      else EmitBType offset rs2 rs1 func Opcode.BRANCH
    else if level =? 0 then
      offset ← link br_b label;
      if negb (IsBTypeImm offset) then fail BranchOffsetError
      else EmitBType offset rs2 rs1 func Opcode.BRANCH
    else if level =? 1 then
      EmitLongBranch 8 rs1 rs2 func
        (offset ← link br_j label; EmitJType offset ZR Opcode.JAL)
    else
      EmitLongBranch 12 rs1 rs2 func
        (offset ← link br_far label; EmitFarJump offset).

Definition EmitJump (rd : Z) (label : nat) (op : Z) (distance : JumpDistance) : asm unit :=
  bound ← get (label_bound label);
  if bound : bool then
    offset ← label_offset label;
    if IsJTypeImm offset then EmitJType offset rd Opcode.JAL
    else EmitFarJump offset
  else
    level ← get far_branch_level_;
    if is_near distance then
      offset ← link br_j label;
      if negb (IsJTypeImm offset) then fail FatalError else EmitJType offset rd Opcode.JAL
    else if level <? 2 then
      offset ← link br_j label;
      if negb (IsJTypeImm offset) then fail BranchOffsetError
      else EmitJType offset rd Opcode.JAL
    else
      offset ← link br_far label;
      EmitFarJump offset.

Definition EmitCBranch (rs1p : Z) (label : nat) (op : Z) : asm unit :=
  bound ← get (label_bound label);
  offset ← (if bound : bool then label_offset label else link br_cb label);
  if negb (IsCBImm offset) then fail FatalError
  else
    e1 ← lift (EncodeCRs1p rs1p); e2 ← lift (EncodeCBImm offset); Emit16 (op .| e1 .| e2).

Definition EmitCJump (label : nat) (op : Z) : asm unit :=
  bound ← get (label_bound label);
  offset ← (if bound : bool then label_offset label else link br_cj label);
  if negb (IsCJImm offset) then fail FatalError
  else e1 ← lift (EncodeCJImm offset); Emit16 (op .| e1).

(** ** Binding a label

    Each [Update...Offset] rewrites the branch at a position and returns the offset it
    had, which before binding is the distance to the previous branch of the list. *)

Definition UpdateCBOffset (branch_position new_offset : Z) : asm Z :=
  instr ← Read16 branch_position;
  _ ← assert ((c_opcode instr =? COpcode.C_BEQZ) || (c_opcode instr =? COpcode.C_BNEZ));
  let old_offset := c_b_imm instr in
  if negb (IsCBImm new_offset) then fail FatalError
  else
    e1 ← lift (EncodeCRs1p (c_rs1p instr));
    e2 ← lift (EncodeCBImm new_offset);
    _ ← Write16 branch_position (c_opcode instr .| e1 .| e2);
    mret old_offset.

Definition UpdateCJOffset (branch_position new_offset : Z) : asm Z :=
  instr ← Read16 branch_position;
  _ ← assert ((c_opcode instr =? COpcode.C_J) || (c_opcode instr =? COpcode.C_JAL));
  let old_offset := c_j_imm instr in
  if negb (IsCJImm new_offset) then fail FatalError
  else
    e1 ← lift (EncodeCJImm new_offset);
    _ ← Write16 branch_position (c_opcode instr .| e1);
    mret old_offset.

Definition UpdateBOffset (branch_position new_offset : Z) : asm Z :=
  instr ← Read32 branch_position;
  _ ← assert (opcode instr =? Opcode.BRANCH);
  let old_offset := btype_imm instr in
  if negb (IsBTypeImm new_offset) then fail BranchOffsetError
  else
    e1 ← lift (EncodeRs2 (rs2 instr));
    e2 ← lift (EncodeRs1 (rs1 instr));
    e3 ← lift (EncodeFunct3 (funct3 instr));
    e4 ← lift (EncodeOpcode (opcode instr));
    e5 ← lift (EncodeBTypeImm new_offset);
    _ ← Write32 branch_position (e1 .| e2 .| e3 .| e4 .| e5);
    mret old_offset.

Definition UpdateJOffset (branch_position new_offset : Z) : asm Z :=
  instr ← Read32 branch_position;
  _ ← assert (opcode instr =? Opcode.JAL);
  let old_offset := jtype_imm instr in
  if negb (IsJTypeImm new_offset) then fail BranchOffsetError
  else
    e1 ← lift (EncodeRd (rd instr));
    e2 ← lift (EncodeOpcode (opcode instr));
    e3 ← lift (EncodeJTypeImm new_offset);
    _ ← Write32 branch_position (e1 .| e2 .| e3);
    mret old_offset.

Definition UpdateFarOffset (branch_position new_offset : Z) : asm Z :=
  auipc_instr ← Read32 branch_position;
  _ ← assert (opcode auipc_instr =? Opcode.AUIPC);
  _ ← assert (rd auipc_instr =? FAR_TMP);
  jr_instr ← Read32 (branch_position + 4);
  _ ← assert (opcode jr_instr =? Opcode.JALR);
  _ ← assert (rd jr_instr =? ZR);
  _ ← assert (funct3 jr_instr =? Funct3.F3_0);
  _ ← assert (rs1 jr_instr =? FAR_TMP);
  let old_offset := intx (utype_imm auipc_instr + itype_imm jr_instr) in
  let lo := split_lo new_offset in
  let hi := split_hi new_offset in
  if negb (IsUTypeImm hi) then fail FatalError
  else
    e1 ← lift (EncodeUTypeImm hi);
    e2 ← lift (EncodeRd FAR_TMP);
    e3 ← lift (EncodeOpcode Opcode.AUIPC);
    _ ← Write32 branch_position (e1 .| e2 .| e3);
    f1 ← lift (EncodeITypeImm lo);
    f2 ← lift (EncodeRs1 FAR_TMP);
    f3 ← lift (EncodeFunct3 Funct3.F3_0);
    f4 ← lift (EncodeRd ZR);
    f5 ← lift (EncodeOpcode Opcode.JALR);
    _ ← Write32 (branch_position + 4) (f1 .| f2 .| f3 .| f4 .| f5);
    mret old_offset.

(** The loop of the macro [BIND]; a list has at most one branch per byte of code, which
    bounds the fuel. *)
Fixpoint bind_loop (fuel : nat) (update : Z -> Z -> asm Z)
    (target_position branch_position : Z) : asm unit :=
  if branch_position <? 0 then mret tt
  else
    match fuel with
    | O => fail LoopFuelExhausted
    | S fuel =>
        C ← get (Supports RV_C);
        _ ← assert (IsAligned branch_position (if C : bool then 2 else 4));
        let new_offset := target_position - branch_position in
        _ ← assert (IsAligned new_offset (if C : bool then 2 else 4));
        old_offset ← update branch_position new_offset;
        if old_offset =? 0 then mret tt
        else bind_loop fuel update target_position (branch_position - old_offset)
    end.

Definition update_offset (c : branch_class) : Z -> Z -> asm Z :=
  match c with
  | br_cb => UpdateCBOffset
  | br_cj => UpdateCJOffset
  | br_b => UpdateBOffset
  | br_j => UpdateJOffset
  | br_far => UpdateFarOffset
  end.

Definition BIND (c : branch_class) (label : nat) (target_position : Z) : asm unit :=
  head ← get (fun s => unresolved c (labels_ s label));
  fuel ← get (fun s => S (length (buffer_ s)));
  _ ← bind_loop fuel (update_offset c) target_position head;
  modify (fun s => with_label s label (set_unresolved c (labels_ s label) (-1))).

Definition Bind (label : nat) : asm unit :=
  bound ← get (label_bound label);
  _ ← assert (negb bound);
  target_position ← get Position;
  _ ← BIND br_cb label target_position;
  _ ← BIND br_cj label target_position;
  _ ← BIND br_b label target_position;
  _ ← BIND br_j label target_position;
  _ ← BIND br_far label target_position;
  BindTo label target_position.

(** ** Compressed instructions *)

Definition c_j (label : nat) : asm unit :=
  _ ← assert_supports RV_C;
  EmitCJump label COpcode.C_J.

Definition c_jal (label : nat) : asm unit :=
  _ ← assert_supports RV_C;
  EmitCJump label COpcode.C_JAL.

Definition c_beqz (rs1p : Z) (label : nat) : asm unit :=
  _ ← assert_supports RV_C;
  EmitCBranch rs1p label COpcode.C_BEQZ.

Definition c_bnez (rs1p : Z) (label : nat) : asm unit :=
  _ ← assert_supports RV_C;
  EmitCBranch rs1p label COpcode.C_BNEZ.

Definition c_lwsp (rd : Z) (addr : Address) : asm unit :=
  _ ← assert (negb (rd =? ZR));
  _ ← assert (base addr =? SP);
  _ ← assert_supports RV_C;
  e1 ← lift (EncodeCRd rd);
  e2 ← lift (EncodeCSPLoad4Imm (offset addr));
  Emit16 (COpcode.C_LWSP .| e1 .| e2).

Definition c_flwsp (rd : Z) (addr : Address) : asm unit :=
  _ ← assert (base addr =? SP);
  _ ← assert_supports RV_C;
  _ ← assert_supports RV_F;
  e1 ← lift (EncodeCFRd rd);
  e2 ← lift (EncodeCSPLoad4Imm (offset addr));
  Emit16 (COpcode.C_FLWSP .| e1 .| e2).

Definition c_ldsp (rd : Z) (addr : Address) : asm unit :=
  _ ← assert (negb (rd =? ZR));
  _ ← assert (base addr =? SP);
  _ ← assert_supports RV_C;
  e1 ← lift (EncodeCRd rd);
  e2 ← lift (EncodeCSPLoad8Imm (offset addr));
  Emit16 (COpcode.C_LDSP .| e1 .| e2).

Definition c_fldsp (rd : Z) (addr : Address) : asm unit :=
  _ ← assert (base addr =? SP);
  _ ← assert_supports RV_C;
  _ ← assert_supports RV_D;
  e1 ← lift (EncodeCFRd rd);
  e2 ← lift (EncodeCSPLoad8Imm (offset addr));
  Emit16 (COpcode.C_FLDSP .| e1 .| e2).

Definition c_swsp (rs2 : Z) (addr : Address) : asm unit :=
  _ ← assert (base addr =? SP);
  _ ← assert_supports RV_C;
  e1 ← lift (EncodeCRs2 rs2);
  e2 ← lift (EncodeCSPStore4Imm (offset addr));
  Emit16 (COpcode.C_SWSP .| e1 .| e2).

Definition c_fswsp (rs2 : Z) (addr : Address) : asm unit :=
  _ ← assert (base addr =? SP);
  _ ← assert_supports RV_C;
  _ ← assert_supports RV_F;
  e1 ← lift (EncodeCFRs2 rs2);
  e2 ← lift (EncodeCSPStore4Imm (offset addr));
  Emit16 (COpcode.C_FSWSP .| e1 .| e2).

Definition c_sdsp (rs2 : Z) (addr : Address) : asm unit :=
  _ ← assert (base addr =? SP);
  _ ← assert_supports RV_C;
  e1 ← lift (EncodeCRs2 rs2);
  e2 ← lift (EncodeCSPStore8Imm (offset addr));
  Emit16 (COpcode.C_SDSP .| e1 .| e2).

Definition c_fsdsp (rs2 : Z) (addr : Address) : asm unit :=
  _ ← assert (base addr =? SP);
  _ ← assert_supports RV_C;
  _ ← assert_supports RV_D;
  e1 ← lift (EncodeCFRs2 rs2);
  e2 ← lift (EncodeCSPStore8Imm (offset addr));
  Emit16 (COpcode.C_FSDSP .| e1 .| e2).

Definition c_lw (rd : Z) (addr : Address) : asm unit :=
  _ ← assert_supports RV_C;
  e1 ← lift (EncodeCRdp rd);
  e2 ← lift (EncodeCRs1p (base addr));
  e3 ← lift (EncodeCMem4Imm (offset addr));
  Emit16 (COpcode.C_LW .| e1 .| e2 .| e3).

Definition c_ld (rd : Z) (addr : Address) : asm unit :=
  _ ← assert_supports RV_C;
  e1 ← lift (EncodeCRdp rd);
  e2 ← lift (EncodeCRs1p (base addr));
  e3 ← lift (EncodeCMem8Imm (offset addr));
  Emit16 (COpcode.C_LD .| e1 .| e2 .| e3).

Definition c_flw (rd : Z) (addr : Address) : asm unit :=
  _ ← assert_supports RV_C;
  _ ← assert_supports RV_F;
  e1 ← lift (EncodeCFRdp rd);
  e2 ← lift (EncodeCRs1p (base addr));
  e3 ← lift (EncodeCMem4Imm (offset addr));
  Emit16 (COpcode.C_FLW .| e1 .| e2 .| e3).

Definition c_fld (rd : Z) (addr : Address) : asm unit :=
  _ ← assert_supports RV_C;
  _ ← assert_supports RV_D;
  e1 ← lift (EncodeCFRdp rd);
  e2 ← lift (EncodeCRs1p (base addr));
  e3 ← lift (EncodeCMem8Imm (offset addr));
  Emit16 (COpcode.C_FLD .| e1 .| e2 .| e3).

Definition c_sw (rs2 : Z) (addr : Address) : asm unit :=
  _ ← assert_supports RV_C;
  e1 ← lift (EncodeCRs1p (base addr));
  e2 ← lift (EncodeCRs2p rs2);
  e3 ← lift (EncodeCMem4Imm (offset addr));
  Emit16 (COpcode.C_SW .| e1 .| e2 .| e3).

Definition c_sd (rs2 : Z) (addr : Address) : asm unit :=
  _ ← assert_supports RV_C;
  e1 ← lift (EncodeCRs1p (base addr));
  e2 ← lift (EncodeCRs2p rs2);
  e3 ← lift (EncodeCMem8Imm (offset addr));
  Emit16 (COpcode.C_SD .| e1 .| e2 .| e3).

Definition c_fsw (rs2 : Z) (addr : Address) : asm unit :=
  _ ← assert_supports RV_C;
  _ ← assert_supports RV_F;
  e1 ← lift (EncodeCRs1p (base addr));
  e2 ← lift (EncodeCFRs2p rs2);
  e3 ← lift (EncodeCMem4Imm (offset addr));
  Emit16 (COpcode.C_FSW .| e1 .| e2 .| e3).

Definition c_fsd (rs2 : Z) (addr : Address) : asm unit :=
  _ ← assert_supports RV_C;
  _ ← assert_supports RV_D;
  e1 ← lift (EncodeCRs1p (base addr));
  e2 ← lift (EncodeCFRs2p rs2);
  e3 ← lift (EncodeCMem8Imm (offset addr));
  Emit16 (COpcode.C_FSD .| e1 .| e2 .| e3).

Definition c_jr (rs1 : Z) : asm unit :=
  _ ← assert_supports RV_C;
  _ ← assert (negb (rs1 =? ZR));
  e1 ← lift (EncodeCRs1 rs1); e2 ← lift (EncodeCRs2 ZR); Emit16 (COpcode.C_JR .| e1 .| e2).

Definition c_jalr (rs1 : Z) : asm unit :=
  _ ← assert_supports RV_C;
  e1 ← lift (EncodeCRs1 rs1); e2 ← lift (EncodeCRs2 ZR); Emit16 (COpcode.C_JALR .| e1 .| e2).

Definition c_li (rd imm : Z) : asm unit :=
  _ ← assert_supports RV_C;
  _ ← assert (negb (rd =? ZR));
  e1 ← lift (EncodeCRd rd); e2 ← lift (EncodeCIImm imm); Emit16 (COpcode.C_LI .| e1 .| e2).

Definition c_lui (rd imm : Z) : asm unit :=
  _ ← assert_supports RV_C;
  _ ← assert (negb (rd =? ZR));
  _ ← assert (negb (rd =? SP));
  e1 ← lift (EncodeCRd rd); e2 ← lift (EncodeCUImm imm); Emit16 (COpcode.C_LUI .| e1 .| e2).

Definition c_addi (rd rs1 imm : Z) : asm unit :=
  _ ← assert_supports RV_C;
  _ ← assert (negb (imm =? 0));
  _ ← assert (rd =? rs1);
  e1 ← lift (EncodeCRd rd); e2 ← lift (EncodeCIImm imm); Emit16 (COpcode.C_ADDI .| e1 .| e2).

Definition c_addiw (rd rs1 imm : Z) : asm unit :=
  _ ← assert_supports RV_C;
  _ ← assert (rd =? rs1);
  e1 ← lift (EncodeCRd rd); e2 ← lift (EncodeCIImm imm); Emit16 (COpcode.C_ADDIW .| e1 .| e2).

Definition c_addi16sp (rd rs1 imm : Z) : asm unit :=
  _ ← assert_supports RV_C;
  _ ← assert (rd =? rs1);
  e1 ← lift (EncodeCRd rd);
  e2 ← lift (EncodeCI16Imm imm);
  Emit16 (COpcode.C_ADDI16SP .| e1 .| e2).

Definition c_addi4spn (rdp rs1 imm : Z) : asm unit :=
  _ ← assert_supports RV_C;
  _ ← assert (rs1 =? SP);
  _ ← assert (negb (imm =? 0));
  e1 ← lift (EncodeCRdp rdp);
  e2 ← lift (EncodeCI4SPNImm imm);
  Emit16 (COpcode.C_ADDI4SPN .| e1 .| e2).

Definition c_slli (rd rs1 imm : Z) : asm unit :=
  _ ← assert_supports RV_C;
  _ ← assert (rd =? rs1);
  _ ← assert (negb (imm =? 0));
  e1 ← lift (EncodeCRd rd); e2 ← lift (EncodeCIImm imm); Emit16 (COpcode.C_SLLI .| e1 .| e2).

Definition c_srli (rd rs1 imm : Z) : asm unit :=
  _ ← assert_supports RV_C;
  _ ← assert (rd =? rs1);
  _ ← assert (negb (imm =? 0));
  e1 ← lift (EncodeCRs1p rd); e2 ← lift (EncodeCIImm imm); Emit16 (COpcode.C_SRLI .| e1 .| e2).

Definition c_srai (rd rs1 imm : Z) : asm unit :=
  _ ← assert_supports RV_C;
  _ ← assert (rd =? rs1);
  _ ← assert (negb (imm =? 0));
  e1 ← lift (EncodeCRs1p rd); e2 ← lift (EncodeCIImm imm); Emit16 (COpcode.C_SRAI .| e1 .| e2).

Definition c_andi (rd rs1 imm : Z) : asm unit :=
  _ ← assert_supports RV_C;
  _ ← assert (rd =? rs1);
  e1 ← lift (EncodeCRs1p rd); e2 ← lift (EncodeCIImm imm); Emit16 (COpcode.C_ANDI .| e1 .| e2).

Definition c_mv (rd rs2 : Z) : asm unit :=
  _ ← assert_supports RV_C;
  _ ← assert (negb (rd =? ZR));
  _ ← assert (negb (rs2 =? ZR));
  e1 ← lift (EncodeCRd rd); e2 ← lift (EncodeCRs2 rs2); Emit16 (COpcode.C_MV .| e1 .| e2).

Definition c_add (rd rs1 rs2 : Z) : asm unit :=
  _ ← assert_supports RV_C;
  _ ← assert (negb (rd =? ZR));
  _ ← assert (rd =? rs1);
  _ ← assert (negb (rs2 =? ZR));
  e1 ← lift (EncodeCRd rd); e2 ← lift (EncodeCRs2 rs2); Emit16 (COpcode.C_ADD .| e1 .| e2).

Definition c_and (rd rs1 rs2 : Z) : asm unit :=
  _ ← assert_supports RV_C;
  _ ← assert (rd =? rs1);
  e1 ← lift (EncodeCRs1p rs1); e2 ← lift (EncodeCRs2p rs2); Emit16 (COpcode.C_AND .| e1 .| e2).

Definition c_or (rd rs1 rs2 : Z) : asm unit :=
  _ ← assert_supports RV_C;
  e1 ← lift (EncodeCRs1p rs1); e2 ← lift (EncodeCRs2p rs2); Emit16 (COpcode.C_OR .| e1 .| e2).

Definition c_xor (rd rs1 rs2 : Z) : asm unit :=
  _ ← assert_supports RV_C;
  e1 ← lift (EncodeCRs1p rs1); e2 ← lift (EncodeCRs2p rs2); Emit16 (COpcode.C_XOR .| e1 .| e2).

Definition c_sub (rd rs1 rs2 : Z) : asm unit :=
  _ ← assert_supports RV_C;
  e1 ← lift (EncodeCRs1p rs1); e2 ← lift (EncodeCRs2p rs2); Emit16 (COpcode.C_SUB .| e1 .| e2).

Definition c_addw (rd rs1 rs2 : Z) : asm unit :=
  _ ← assert_supports RV_C;
  e1 ← lift (EncodeCRs1p rs1); e2 ← lift (EncodeCRs2p rs2); Emit16 (COpcode.C_ADDW .| e1 .| e2).

Definition c_subw (rd rs1 rs2 : Z) : asm unit :=
  _ ← assert_supports RV_C;
  e1 ← lift (EncodeCRs1p rs1); e2 ← lift (EncodeCRs2p rs2); Emit16 (COpcode.C_SUBW .| e1 .| e2).

Definition c_nop : asm unit :=
  _ ← assert_supports RV_C;
  Emit16 COpcode.C_NOP.

Definition c_ebreak : asm unit :=
  _ ← assert_supports RV_C;
  Emit16 COpcode.C_EBREAK.

(** ** RV32I *)

(** Whether a branch may take a compressed form: it was declared near, or its target is
    bound and close enough. *)
Definition compressed_reach (IsImm : Z -> bool) (label : nat) (distance : JumpDistance)
    : asm bool :=
  C ← get (Supports RV_C);
  if negb C then mret false
  else if is_near distance then mret true
  else
    bound ← get (label_bound label);
    if negb bound then mret false
    else offset ← label_offset label; mret (IsImm offset).

Definition jal (rd : Z) (label : nat) (distance : JumpDistance) : asm unit :=
  _ ← assert_supports RV_I;
  compressed ← compressed_reach IsCJImm label distance;
  if compressed && (rd =? ZR) then c_j label
  else if compressed && negb TARGET_64 && (rd =? RA) then c_jal label
  else EmitJump rd label Opcode.JAL distance.

Definition beq (rs1 rs2 : Z) (label : nat) (distance : JumpDistance) : asm unit :=
  _ ← assert_supports RV_I;
  compressed ← compressed_reach IsCBImm label distance;
  if compressed && (rs1 =? ZR) && IsCRs1p rs2 then c_beqz rs2 label
  else if compressed && (rs2 =? ZR) && IsCRs1p rs1 then c_beqz rs1 label
  else EmitBranch rs1 rs2 label Funct3.BEQ distance.

Definition bne (rs1 rs2 : Z) (label : nat) (distance : JumpDistance) : asm unit :=
  _ ← assert_supports RV_I;
  compressed ← compressed_reach IsCBImm label distance;
  if compressed && (rs1 =? ZR) && IsCRs1p rs2 then c_bnez rs2 label
  else if compressed && (rs2 =? ZR) && IsCRs1p rs1 then c_bnez rs1 label
  else EmitBranch rs1 rs2 label Funct3.BNE distance.

Definition blt (rs1 rs2 : Z) (label : nat) (distance : JumpDistance) : asm unit :=
  _ ← assert_supports RV_I;
  EmitBranch rs1 rs2 label Funct3.BLT distance.

Definition bge (rs1 rs2 : Z) (label : nat) (distance : JumpDistance) : asm unit :=
  _ ← assert_supports RV_I;
  EmitBranch rs1 rs2 label Funct3.BGE distance.

Definition bltu (rs1 rs2 : Z) (label : nat) (distance : JumpDistance) : asm unit :=
  _ ← assert_supports RV_I;
  EmitBranch rs1 rs2 label Funct3.BLTU distance.

Definition bgeu (rs1 rs2 : Z) (label : nat) (distance : JumpDistance) : asm unit :=
  EmitBranch rs1 rs2 label Funct3.BGEU distance.

Definition lui (rd imm : Z) : asm unit :=
  _ ← assert_supports RV_I;
  C ← get (Supports RV_C);
  if C && negb (rd =? ZR) && negb (rd =? SP) && IsCUImm imm then c_lui rd imm
  else EmitUType imm rd Opcode.LUI.

Definition lui_fixed (rd imm : Z) : asm unit :=
  _ ← assert_supports RV_I;
  EmitUType imm rd Opcode.LUI.

Definition auipc (rd imm : Z) : asm unit :=
  _ ← assert_supports RV_I;
  EmitUType imm rd Opcode.AUIPC.

Definition jalr (rd rs1 offset : Z) : asm unit :=
  _ ← assert_supports RV_I;
  C ← get (Supports RV_C);
  if C && negb (rs1 =? ZR) && (offset =? 0) && (rd =? ZR) then c_jr rs1
  else if C && negb (rs1 =? ZR) && (offset =? 0) && (rd =? RA) then c_jalr rs1
  else EmitIType offset rs1 Funct3.F3_0 rd Opcode.JALR.

Definition jalr_fixed (rd rs1 offset : Z) : asm unit :=
  _ ← assert_supports RV_I;
  EmitIType offset rs1 Funct3.F3_0 rd Opcode.JALR.

Definition lb (rd : Z) (addr : Address) : asm unit :=
  _ ← assert_supports RV_I;
  EmitIType (offset addr) (base addr) Funct3.LB rd Opcode.LOAD.

Definition lh (rd : Z) (addr : Address) : asm unit :=
  _ ← assert_supports RV_I;
  EmitIType (offset addr) (base addr) Funct3.LH rd Opcode.LOAD.

Definition lw (rd : Z) (addr : Address) : asm unit :=
  _ ← assert_supports RV_I;
  C ← get (Supports RV_C);
  if C && negb (rd =? ZR) && (base addr =? SP) && (IsCSPLoad4Imm (offset addr))
    then c_lwsp rd addr
  else if C && IsCRdp rd && (IsCRs1p (base addr)) && (IsCMem4Imm (offset addr))
    then c_lw rd addr
  else EmitIType (offset addr) (base addr) Funct3.LW rd Opcode.LOAD.

Definition lbu (rd : Z) (addr : Address) : asm unit :=
  _ ← assert_supports RV_I;
  EmitIType (offset addr) (base addr) Funct3.LBU rd Opcode.LOAD.

Definition lhu (rd : Z) (addr : Address) : asm unit :=
  _ ← assert_supports RV_I;
  EmitIType (offset addr) (base addr) Funct3.LHU rd Opcode.LOAD.

Definition sb (rs2 : Z) (addr : Address) : asm unit :=
  _ ← assert_supports RV_I;
  EmitSType (offset addr) rs2 (base addr) Funct3.SB Opcode.STORE.

Definition sh (rs2 : Z) (addr : Address) : asm unit :=
  _ ← assert_supports RV_I;
  EmitSType (offset addr) rs2 (base addr) Funct3.SH Opcode.STORE.

Definition sw (rs2 : Z) (addr : Address) : asm unit :=
  _ ← assert_supports RV_I;
  C ← get (Supports RV_C);
  if C && (base addr =? SP) && (IsCSPStore4Imm (offset addr)) then c_swsp rs2 addr
  else if C && IsCRs2p rs2 && (IsCRs1p (base addr)) && (IsCMem4Imm (offset addr))
    then c_sw rs2 addr
  else EmitSType (offset addr) rs2 (base addr) Funct3.SW Opcode.STORE.

Definition addi (rd rs1 imm : Z) : asm unit :=
  _ ← assert_supports RV_I;
  C ← get (Supports RV_C);
  if C && negb (rd =? ZR) && (rs1 =? ZR) && IsCIImm imm then c_li rd imm
  else if C && (rd =? rs1) && IsCIImm imm && (negb (imm =? 0)) then c_addi rd rs1 imm
  else if C && (rd =? SP) && (rs1 =? SP) && IsCI16Imm imm && (negb (imm =? 0))
    then c_addi16sp rd rs1 imm
  else if C && IsCRdp rd && (rs1 =? SP) && IsCI4SPNImm imm && (negb (imm =? 0))
    then c_addi4spn rd rs1 imm
  else if C && (imm =? 0) && (rd =? ZR) && (rs1 =? ZR) then c_nop
  else if C && (imm =? 0) && negb (rd =? ZR) && (negb (rs1 =? ZR)) then c_mv rd rs1
  else EmitIType imm rs1 Funct3.ADDI rd Opcode.OPIMM.

Definition slti (rd rs1 imm : Z) : asm unit :=
  _ ← assert_supports RV_I;
  EmitIType imm rs1 Funct3.SLTI rd Opcode.OPIMM.

Definition sltiu (rd rs1 imm : Z) : asm unit :=
  _ ← assert_supports RV_I;
  EmitIType imm rs1 Funct3.SLTIU rd Opcode.OPIMM.

Definition xori (rd rs1 imm : Z) : asm unit :=
  _ ← assert_supports RV_I;
  EmitIType imm rs1 Funct3.XORI rd Opcode.OPIMM.

Definition ori (rd rs1 imm : Z) : asm unit :=
  _ ← assert_supports RV_I;
  EmitIType imm rs1 Funct3.ORI rd Opcode.OPIMM.

Definition andi (rd rs1 imm : Z) : asm unit :=
  _ ← assert_supports RV_I;
  C ← get (Supports RV_C);
  if C && (rd =? rs1) && IsCRs1p rs1 && IsCIImm imm then c_andi rd rs1 imm
  else EmitIType imm rs1 Funct3.ANDI rd Opcode.OPIMM.

Definition slli (rd rs1 shamt : Z) : asm unit :=
  _ ← assert ((0 <? shamt) && (shamt <? XLEN));
  _ ← assert_supports RV_I;
  C ← get (Supports RV_C);
  if C && (rd =? rs1) && negb (shamt =? 0) && IsCIImm shamt then c_slli rd rs1 shamt
  else EmitRType_shamt Funct7.F7_0 shamt rs1 Funct3.SLLI rd Opcode.OPIMM.

Definition srli (rd rs1 shamt : Z) : asm unit :=
  _ ← assert ((0 <? shamt) && (shamt <? XLEN));
  _ ← assert_supports RV_I;
  C ← get (Supports RV_C);
  if C && (rd =? rs1) && IsCRs1p rs1 && negb (shamt =? 0) && IsCIImm shamt
    then c_srli rd rs1 shamt
  else EmitRType_shamt Funct7.F7_0 shamt rs1 Funct3.SRI rd Opcode.OPIMM.

Definition srai (rd rs1 shamt : Z) : asm unit :=
  _ ← assert ((0 <? shamt) && (shamt <? XLEN));
  _ ← assert_supports RV_I;
  C ← get (Supports RV_C);
  if C && (rd =? rs1) && IsCRs1p rs1 && negb (shamt =? 0) && IsCIImm shamt
    then c_srai rd rs1 shamt
  else EmitRType_shamt Funct7.SRA shamt rs1 Funct3.SRI rd Opcode.OPIMM.

Definition add (rd rs1 rs2 : Z) : asm unit :=
  _ ← assert_supports RV_I;
  C ← get (Supports RV_C);
  if C && (rd =? rs1) then c_add rd rs1 rs2
  else if C && (rd =? rs2) then c_add rd rs2 rs1
  else EmitRType Funct7.F7_0 rs2 rs1 Funct3.ADD rd Opcode.OP.

Definition sub (rd rs1 rs2 : Z) : asm unit :=
  _ ← assert_supports RV_I;
  C ← get (Supports RV_C);
  if C && (rd =? rs1) && IsCRs1p rs1 && IsCRs2p rs2 then c_sub rd rs1 rs2
  else EmitRType Funct7.SUB rs2 rs1 Funct3.ADD rd Opcode.OP.

Definition sll (rd rs1 rs2 : Z) : asm unit :=
  _ ← assert_supports RV_I;
  EmitRType Funct7.F7_0 rs2 rs1 Funct3.SLL rd Opcode.OP.

Definition slt (rd rs1 rs2 : Z) : asm unit :=
  _ ← assert_supports RV_I;
  EmitRType Funct7.F7_0 rs2 rs1 Funct3.SLT rd Opcode.OP.

Definition sltu (rd rs1 rs2 : Z) : asm unit :=
  _ ← assert_supports RV_I;
  EmitRType Funct7.F7_0 rs2 rs1 Funct3.SLTU rd Opcode.OP.

Definition xor_ (rd rs1 rs2 : Z) : asm unit :=
  _ ← assert_supports RV_I;
  C ← get (Supports RV_C);
  if C && (rd =? rs1) && IsCRs1p rs1 && IsCRs2p rs2 then c_xor rd rs1 rs2
  else if C && (rd =? rs2) && IsCRs1p rs1 && IsCRs2p rs2 then c_xor rd rs2 rs1
  else EmitRType Funct7.F7_0 rs2 rs1 Funct3.XOR rd Opcode.OP.

Definition srl (rd rs1 rs2 : Z) : asm unit :=
  _ ← assert_supports RV_I;
  EmitRType Funct7.F7_0 rs2 rs1 Funct3.SR rd Opcode.OP.

Definition sra (rd rs1 rs2 : Z) : asm unit :=
  _ ← assert_supports RV_I;
  EmitRType Funct7.SRA rs2 rs1 Funct3.SR rd Opcode.OP.

Definition or_ (rd rs1 rs2 : Z) : asm unit :=
  _ ← assert_supports RV_I;
  C ← get (Supports RV_C);
  if C && (rd =? rs1) && IsCRs1p rs1 && IsCRs2p rs2 then c_or rd rs1 rs2
  else if C && (rd =? rs2) && IsCRs1p rs1 && IsCRs2p rs2 then c_or rd rs2 rs1
  else EmitRType Funct7.F7_0 rs2 rs1 Funct3.OR rd Opcode.OP.

Definition and_ (rd rs1 rs2 : Z) : asm unit :=
  _ ← assert_supports RV_I;
  C ← get (Supports RV_C);
  if C && (rd =? rs1) && IsCRs1p rs1 && IsCRs2p rs2 then c_and rd rs1 rs2
  else if C && (rd =? rs2) && IsCRs1p rs1 && IsCRs2p rs2 then c_and rd rs2 rs1
  else EmitRType Funct7.F7_0 rs2 rs1 Funct3.AND rd Opcode.OP.

Definition fence (predecessor successor : Z) : asm unit :=
  _ ← assert ((predecessor .& HartEffects.kAll) =? predecessor);
  _ ← assert ((successor .& HartEffects.kAll) =? successor);
  _ ← assert_supports RV_I;
  EmitIType ((predecessor << 4) .| successor) ZR Funct3.FENCE ZR Opcode.MISCMEM.

Definition fencei : asm unit :=
  _ ← assert_supports RV_I;
  EmitIType 0 ZR Funct3.FENCEI ZR Opcode.MISCMEM.

Definition ecall : asm unit :=
  _ ← assert_supports RV_I;
  EmitIType Funct12.ECALL ZR Funct3.F3_0 ZR Opcode.SYSTEM.

Definition ebreak : asm unit :=
  _ ← assert_supports RV_I;
  C ← get (Supports RV_C);
  if C : bool then c_ebreak
  else EmitIType Funct12.EBREAK ZR Funct3.F3_0 ZR Opcode.SYSTEM.

Definition SimulatorPrintObject (rs1 : Z) : asm unit :=
  _ ← assert_supports RV_I;
  EmitIType Funct12.ECALL rs1 Funct3.F3_0 ZR Opcode.SYSTEM.

Definition csrrw (rd csr rs1 : Z) : asm unit :=
  _ ← assert_supports RV_I;
  EmitIType csr rs1 Funct3.CSRRW rd Opcode.SYSTEM.

Definition csrrs (rd csr rs1 : Z) : asm unit :=
  _ ← assert_supports RV_I;
  EmitIType csr rs1 Funct3.CSRRS rd Opcode.SYSTEM.

Definition csrrc (rd csr rs1 : Z) : asm unit :=
  _ ← assert_supports RV_I;
  EmitIType csr rs1 Funct3.CSRRC rd Opcode.SYSTEM.

Definition csrrwi (rd csr imm : Z) : asm unit :=
  _ ← assert_supports RV_I;
  EmitIType csr imm Funct3.CSRRWI rd Opcode.SYSTEM.

Definition csrrsi (rd csr imm : Z) : asm unit :=
  _ ← assert_supports RV_I;
  EmitIType csr imm Funct3.CSRRSI rd Opcode.SYSTEM.

Definition csrrci (rd csr imm : Z) : asm unit :=
  _ ← assert_supports RV_I;
  EmitIType csr imm Funct3.CSRRCI rd Opcode.SYSTEM.

Definition trap : asm unit :=
  _ ← assert_supports RV_I;
  C ← get (Supports RV_C);
  if C : bool then Emit16 0 else Emit32 0.

(** ** RV64I *)

Definition lwu (rd : Z) (addr : Address) : asm unit :=
  _ ← assert_supports RV_I;
  EmitIType (offset addr) (base addr) Funct3.LWU rd Opcode.LOAD.

Definition ld (rd : Z) (addr : Address) : asm unit :=
  _ ← assert_supports RV_I;
  C ← get (Supports RV_C);
  if C && negb (rd =? ZR) && (base addr =? SP) && (IsCSPLoad8Imm (offset addr))
    then c_ldsp rd addr
  else if C && IsCRdp rd && (IsCRs1p (base addr)) && (IsCMem8Imm (offset addr))
    then c_ld rd addr
  else EmitIType (offset addr) (base addr) Funct3.LD rd Opcode.LOAD.

Definition sd (rs2 : Z) (addr : Address) : asm unit :=
  _ ← assert_supports RV_I;
  C ← get (Supports RV_C);
  if C && (base addr =? SP) && (IsCSPStore8Imm (offset addr)) then c_sdsp rs2 addr
  else if C && IsCRs2p rs2 && (IsCRs1p (base addr)) && (IsCMem8Imm (offset addr))
    then c_sd rs2 addr
  else EmitSType (offset addr) rs2 (base addr) Funct3.SD Opcode.STORE.

Definition addiw (rd rs1 imm : Z) : asm unit :=
  _ ← assert_supports RV_I;
  C ← get (Supports RV_C);
  if C && negb (rd =? ZR) && (rs1 =? ZR) && IsCIImm imm then c_li rd imm
  else if C && (rd =? rs1) && negb (rd =? ZR) && IsCIImm imm then c_addiw rd rs1 imm
  else EmitIType imm rs1 Funct3.ADDI rd Opcode.OPIMM32.

Definition slliw (rd rs1 shamt : Z) : asm unit :=
  _ ← assert ((0 <? shamt) && (shamt <? 32));
  _ ← assert_supports RV_I;
  EmitRType_shamt Funct7.F7_0 shamt rs1 Funct3.SLLI rd Opcode.OPIMM32.

Definition srliw (rd rs1 shamt : Z) : asm unit :=
  _ ← assert ((0 <? shamt) && (shamt <? 32));
  _ ← assert_supports RV_I;
  EmitRType_shamt Funct7.F7_0 shamt rs1 Funct3.SRI rd Opcode.OPIMM32.

Definition sraiw (rd rs1 shamt : Z) : asm unit :=
  _ ← assert ((0 <? shamt) && (shamt <? XLEN));
  _ ← assert_supports RV_I;
  EmitRType_shamt Funct7.SRA shamt rs1 Funct3.SRI rd Opcode.OPIMM32.

Definition addw (rd rs1 rs2 : Z) : asm unit :=
  _ ← assert_supports RV_I;
  C ← get (Supports RV_C);
  if C && (rd =? rs1) && IsCRs1p rs1 && IsCRs2p rs2 then c_addw rd rs1 rs2
  else if C && (rd =? rs2) && IsCRs1p rs1 && IsCRs2p rs2 then c_addw rd rs2 rs1
  else EmitRType Funct7.F7_0 rs2 rs1 Funct3.ADD rd Opcode.OP32.

Definition subw (rd rs1 rs2 : Z) : asm unit :=
  _ ← assert_supports RV_I;
  C ← get (Supports RV_C);
  if C && (rd =? rs1) && IsCRs1p rs1 && IsCRs2p rs2 then c_subw rd rs1 rs2
  else EmitRType Funct7.SUB rs2 rs1 Funct3.ADD rd Opcode.OP32.

Definition sllw (rd rs1 rs2 : Z) : asm unit :=
  _ ← assert_supports RV_I;
  EmitRType Funct7.F7_0 rs2 rs1 Funct3.SLL rd Opcode.OP32.

Definition srlw (rd rs1 rs2 : Z) : asm unit :=
  _ ← assert_supports RV_I;
  EmitRType Funct7.F7_0 rs2 rs1 Funct3.SR rd Opcode.OP32.

Definition sraw (rd rs1 rs2 : Z) : asm unit :=
  _ ← assert_supports RV_I;
  EmitRType Funct7.SRA rs2 rs1 Funct3.SR rd Opcode.OP32.

(** ** M, A, F and D *)

Definition mul (rd rs1 rs2 : Z) : asm unit :=
  _ ← assert_supports RV_M;
  EmitRType Funct7.MULDIV rs2 rs1 Funct3.MUL rd Opcode.OP.

Definition mulh (rd rs1 rs2 : Z) : asm unit :=
  _ ← assert_supports RV_M;
  EmitRType Funct7.MULDIV rs2 rs1 Funct3.MULH rd Opcode.OP.

Definition mulhsu (rd rs1 rs2 : Z) : asm unit :=
  _ ← assert_supports RV_M;
  EmitRType Funct7.MULDIV rs2 rs1 Funct3.MULHSU rd Opcode.OP.

Definition mulhu (rd rs1 rs2 : Z) : asm unit :=
  _ ← assert_supports RV_M;
  EmitRType Funct7.MULDIV rs2 rs1 Funct3.MULHU rd Opcode.OP.

Definition div (rd rs1 rs2 : Z) : asm unit :=
  _ ← assert_supports RV_M;
  EmitRType Funct7.MULDIV rs2 rs1 Funct3.DIV rd Opcode.OP.

Definition divu (rd rs1 rs2 : Z) : asm unit :=
  _ ← assert_supports RV_M;
  EmitRType Funct7.MULDIV rs2 rs1 Funct3.DIVU rd Opcode.OP.

Definition rem (rd rs1 rs2 : Z) : asm unit :=
  _ ← assert_supports RV_M;
  EmitRType Funct7.MULDIV rs2 rs1 Funct3.REM rd Opcode.OP.

Definition remu (rd rs1 rs2 : Z) : asm unit :=
  _ ← assert_supports RV_M;
  EmitRType Funct7.MULDIV rs2 rs1 Funct3.REMU rd Opcode.OP.

Definition mulw (rd rs1 rs2 : Z) : asm unit :=
  _ ← assert_supports RV_M;
  EmitRType Funct7.MULDIV rs2 rs1 Funct3.MULW rd Opcode.OP32.

Definition divw (rd rs1 rs2 : Z) : asm unit :=
  _ ← assert_supports RV_M;
  EmitRType Funct7.MULDIV rs2 rs1 Funct3.DIVW rd Opcode.OP32.

Definition divuw (rd rs1 rs2 : Z) : asm unit :=
  _ ← assert_supports RV_M;
  EmitRType Funct7.MULDIV rs2 rs1 Funct3.DIVUW rd Opcode.OP32.

Definition remw (rd rs1 rs2 : Z) : asm unit :=
  _ ← assert_supports RV_M;
  EmitRType Funct7.MULDIV rs2 rs1 Funct3.REMW rd Opcode.OP32.

Definition remuw (rd rs1 rs2 : Z) : asm unit :=
  _ ← assert_supports RV_M;
  EmitRType Funct7.MULDIV rs2 rs1 Funct3.REMUW rd Opcode.OP32.

Definition lrw (rd : Z) (addr : Address) (order : memory_order) : asm unit :=
  _ ← assert (offset addr =? 0);
  _ ← assert_supports RV_A;
  EmitRType_order Funct5.LR order ZR (base addr) Funct3.WIDTH32 rd Opcode.AMO.

Definition scw (rd rs2 : Z) (addr : Address) (order : memory_order) : asm unit :=
  _ ← assert (offset addr =? 0);
  _ ← assert_supports RV_A;
  EmitRType_order Funct5.SC order rs2 (base addr) Funct3.WIDTH32 rd Opcode.AMO.

Definition amoswapw (rd rs2 : Z) (addr : Address) (order : memory_order) : asm unit :=
  _ ← assert (offset addr =? 0);
  _ ← assert_supports RV_A;
  EmitRType_order Funct5.AMOSWAP order rs2 (base addr) Funct3.WIDTH32 rd Opcode.AMO.

Definition amoaddw (rd rs2 : Z) (addr : Address) (order : memory_order) : asm unit :=
  _ ← assert (offset addr =? 0);
  _ ← assert_supports RV_A;
  EmitRType_order Funct5.AMOADD order rs2 (base addr) Funct3.WIDTH32 rd Opcode.AMO.

Definition amoxorw (rd rs2 : Z) (addr : Address) (order : memory_order) : asm unit :=
  _ ← assert (offset addr =? 0);
  _ ← assert_supports RV_A;
  EmitRType_order Funct5.AMOXOR order rs2 (base addr) Funct3.WIDTH32 rd Opcode.AMO.

Definition amoandw (rd rs2 : Z) (addr : Address) (order : memory_order) : asm unit :=
  _ ← assert (offset addr =? 0);
  _ ← assert_supports RV_A;
  EmitRType_order Funct5.AMOAND order rs2 (base addr) Funct3.WIDTH32 rd Opcode.AMO.

Definition amoorw (rd rs2 : Z) (addr : Address) (order : memory_order) : asm unit :=
  _ ← assert (offset addr =? 0);
  _ ← assert_supports RV_A;
  EmitRType_order Funct5.AMOOR order rs2 (base addr) Funct3.WIDTH32 rd Opcode.AMO.

Definition amominw (rd rs2 : Z) (addr : Address) (order : memory_order) : asm unit :=
  _ ← assert (offset addr =? 0);
  _ ← assert_supports RV_A;
  EmitRType_order Funct5.AMOMIN order rs2 (base addr) Funct3.WIDTH32 rd Opcode.AMO.

Definition amomaxw (rd rs2 : Z) (addr : Address) (order : memory_order) : asm unit :=
  _ ← assert (offset addr =? 0);
  _ ← assert_supports RV_A;
  EmitRType_order Funct5.AMOMAX order rs2 (base addr) Funct3.WIDTH32 rd Opcode.AMO.

Definition amominuw (rd rs2 : Z) (addr : Address) (order : memory_order) : asm unit :=
  _ ← assert (offset addr =? 0);
  _ ← assert_supports RV_A;
  EmitRType_order Funct5.AMOMINU order rs2 (base addr) Funct3.WIDTH32 rd Opcode.AMO.

Definition amomaxuw (rd rs2 : Z) (addr : Address) (order : memory_order) : asm unit :=
  _ ← assert (offset addr =? 0);
  _ ← assert_supports RV_A;
  EmitRType_order Funct5.AMOMAXU order rs2 (base addr) Funct3.WIDTH32 rd Opcode.AMO.

Definition lrd (rd : Z) (addr : Address) (order : memory_order) : asm unit :=
  _ ← assert (offset addr =? 0);
  _ ← assert_supports RV_A;
  EmitRType_order Funct5.LR order ZR (base addr) Funct3.WIDTH64 rd Opcode.AMO.

Definition scd (rd rs2 : Z) (addr : Address) (order : memory_order) : asm unit :=
  _ ← assert (offset addr =? 0);
  _ ← assert_supports RV_A;
  EmitRType_order Funct5.SC order rs2 (base addr) Funct3.WIDTH64 rd Opcode.AMO.

Definition amoswapd (rd rs2 : Z) (addr : Address) (order : memory_order) : asm unit :=
  _ ← assert (offset addr =? 0);
  _ ← assert_supports RV_A;
  EmitRType_order Funct5.AMOSWAP order rs2 (base addr) Funct3.WIDTH64 rd Opcode.AMO.

Definition amoaddd (rd rs2 : Z) (addr : Address) (order : memory_order) : asm unit :=
  _ ← assert (offset addr =? 0);
  _ ← assert_supports RV_A;
  EmitRType_order Funct5.AMOADD order rs2 (base addr) Funct3.WIDTH64 rd Opcode.AMO.

Definition amoxord (rd rs2 : Z) (addr : Address) (order : memory_order) : asm unit :=
  _ ← assert (offset addr =? 0);
  _ ← assert_supports RV_A;
  EmitRType_order Funct5.AMOXOR order rs2 (base addr) Funct3.WIDTH64 rd Opcode.AMO.

Definition amoandd (rd rs2 : Z) (addr : Address) (order : memory_order) : asm unit :=
  _ ← assert (offset addr =? 0);
  _ ← assert_supports RV_A;
  EmitRType_order Funct5.AMOAND order rs2 (base addr) Funct3.WIDTH64 rd Opcode.AMO.

Definition amoord (rd rs2 : Z) (addr : Address) (order : memory_order) : asm unit :=
  _ ← assert (offset addr =? 0);
  _ ← assert_supports RV_A;
  EmitRType_order Funct5.AMOOR order rs2 (base addr) Funct3.WIDTH64 rd Opcode.AMO.

Definition amomind (rd rs2 : Z) (addr : Address) (order : memory_order) : asm unit :=
  _ ← assert (offset addr =? 0);
  _ ← assert_supports RV_A;
  EmitRType_order Funct5.AMOMIN order rs2 (base addr) Funct3.WIDTH64 rd Opcode.AMO.

Definition amomaxd (rd rs2 : Z) (addr : Address) (order : memory_order) : asm unit :=
  _ ← assert (offset addr =? 0);
  _ ← assert_supports RV_A;
  EmitRType_order Funct5.AMOMAX order rs2 (base addr) Funct3.WIDTH64 rd Opcode.AMO.

Definition amominud (rd rs2 : Z) (addr : Address) (order : memory_order) : asm unit :=
  _ ← assert (offset addr =? 0);
  _ ← assert_supports RV_A;
  EmitRType_order Funct5.AMOMINU order rs2 (base addr) Funct3.WIDTH64 rd Opcode.AMO.

Definition amomaxud (rd rs2 : Z) (addr : Address) (order : memory_order) : asm unit :=
  _ ← assert (offset addr =? 0);
  _ ← assert_supports RV_A;
  EmitRType_order Funct5.AMOMAXU order rs2 (base addr) Funct3.WIDTH64 rd Opcode.AMO.

Definition flw (rd : Z) (addr : Address) : asm unit :=
  _ ← assert_supports RV_F;
  C ← get (Supports RV_C);
  if negb TARGET_64 && C && (base addr =? SP) && IsCSPLoad4Imm (offset addr)
  then c_flwsp rd addr
  else if negb TARGET_64 && C && IsCFRdp rd && IsCRs1p (base addr) && IsCMem4Imm (offset addr)
  then c_flw rd addr
  else EmitIType_F (offset addr) (base addr) Funct3.S rd Opcode.LOADFP.

Definition fsw (rs2 : Z) (addr : Address) : asm unit :=
  _ ← assert_supports RV_F;
  C ← get (Supports RV_C);
  if negb TARGET_64 && C && (base addr =? SP) && IsCSPStore4Imm (offset addr)
  then c_fswsp rs2 addr
  else if negb TARGET_64 && C && IsCFRs2p rs2 && IsCRs1p (base addr) && IsCMem4Imm (offset addr)
  then c_fsw rs2 addr
  else EmitSType_F (offset addr) rs2 (base addr) Funct3.S Opcode.STOREFP.

Definition fmadds (rd rs1 rs2 rs3 rounding : Z) : asm unit :=
  _ ← assert_supports RV_F;
  EmitR4Type rs3 Funct2.F2_S rs2 rs1 rounding rd Opcode.FMADD.

Definition fmsubs (rd rs1 rs2 rs3 rounding : Z) : asm unit :=
  _ ← assert_supports RV_F;
  EmitR4Type rs3 Funct2.F2_S rs2 rs1 rounding rd Opcode.FMSUB.

Definition fnmsubs (rd rs1 rs2 rs3 rounding : Z) : asm unit :=
  _ ← assert_supports RV_F;
  EmitR4Type rs3 Funct2.F2_S rs2 rs1 rounding rd Opcode.FNMSUB.

Definition fnmadds (rd rs1 rs2 rs3 rounding : Z) : asm unit :=
  _ ← assert_supports RV_F;
  EmitR4Type rs3 Funct2.F2_S rs2 rs1 rounding rd Opcode.FNMADD.

Definition fadds (rd rs1 rs2 rounding : Z) : asm unit :=
  _ ← assert_supports RV_F;
  EmitRType_FFrF Funct7.FADDS rs2 rs1 rounding rd Opcode.OPFP.

Definition fsubs (rd rs1 rs2 rounding : Z) : asm unit :=
  _ ← assert_supports RV_F;
  EmitRType_FFrF Funct7.FSUBS rs2 rs1 rounding rd Opcode.OPFP.

Definition fmuls (rd rs1 rs2 rounding : Z) : asm unit :=
  _ ← assert_supports RV_F;
  EmitRType_FFrF Funct7.FMULS rs2 rs1 rounding rd Opcode.OPFP.

Definition fdivs (rd rs1 rs2 rounding : Z) : asm unit :=
  _ ← assert_supports RV_F;
  EmitRType_FFrF Funct7.FDIVS rs2 rs1 rounding rd Opcode.OPFP.

Definition fsqrts (rd rs1 rounding : Z) : asm unit :=
  _ ← assert_supports RV_F;
  EmitRType_FFrF Funct7.FSQRTS 0 rs1 rounding rd Opcode.OPFP.

Definition fsgnjs (rd rs1 rs2 : Z) : asm unit :=
  _ ← assert_supports RV_F;
  EmitRType_FFfF Funct7.FSGNJS rs2 rs1 Funct3.J rd Opcode.OPFP.

Definition fsgnjns (rd rs1 rs2 : Z) : asm unit :=
  _ ← assert_supports RV_F;
  EmitRType_FFfF Funct7.FSGNJS rs2 rs1 Funct3.JN rd Opcode.OPFP.

Definition fsgnjxs (rd rs1 rs2 : Z) : asm unit :=
  _ ← assert_supports RV_F;
  EmitRType_FFfF Funct7.FSGNJS rs2 rs1 Funct3.JX rd Opcode.OPFP.

Definition fmins (rd rs1 rs2 : Z) : asm unit :=
  _ ← assert_supports RV_F;
  EmitRType_FFfF Funct7.FMINMAXS rs2 rs1 Funct3.MIN rd Opcode.OPFP.

Definition fmaxs (rd rs1 rs2 : Z) : asm unit :=
  _ ← assert_supports RV_F;
  EmitRType_FFfF Funct7.FMINMAXS rs2 rs1 Funct3.MAX rd Opcode.OPFP.

Definition feqs (rd rs1 rs2 : Z) : asm unit :=
  _ ← assert_supports RV_F;
  EmitRType_FFfR Funct7.FCMPS rs2 rs1 Funct3.FEQ rd Opcode.OPFP.

Definition flts (rd rs1 rs2 : Z) : asm unit :=
  _ ← assert_supports RV_F;
  EmitRType_FFfR Funct7.FCMPS rs2 rs1 Funct3.FLT rd Opcode.OPFP.

Definition fles (rd rs1 rs2 : Z) : asm unit :=
  _ ← assert_supports RV_F;
  EmitRType_FFfR Funct7.FCMPS rs2 rs1 Funct3.FLE rd Opcode.OPFP.

Definition fclasss (rd rs1 : Z) : asm unit :=
  _ ← assert_supports RV_F;
  EmitRType_FFfR Funct7.FCLASSS 0 rs1 Funct3.F3_1 rd Opcode.OPFP.

Definition fcvtws (rd rs1 rounding : Z) : asm unit :=
  _ ← assert_supports RV_F;
  EmitRType_FFrR Funct7.FCVTintS FcvtRs2.W rs1 rounding rd Opcode.OPFP.

Definition fcvtwus (rd rs1 rounding : Z) : asm unit :=
  _ ← assert_supports RV_F;
  EmitRType_FFrR Funct7.FCVTintS FcvtRs2.WU rs1 rounding rd Opcode.OPFP.

Definition fcvtsw (rd rs1 rounding : Z) : asm unit :=
  _ ← assert_supports RV_F;
  EmitRType_FRrF Funct7.FCVTSint FcvtRs2.W rs1 rounding rd Opcode.OPFP.

Definition fcvtswu (rd rs1 rounding : Z) : asm unit :=
  _ ← assert_supports RV_F;
  EmitRType_FRrF Funct7.FCVTSint FcvtRs2.WU rs1 rounding rd Opcode.OPFP.

Definition fmvxw (rd rs1 : Z) : asm unit :=
  _ ← assert_supports RV_F;
  EmitRType_FFfR Funct7.FMVXW 0 rs1 Funct3.F3_0 rd Opcode.OPFP.

Definition fmvwx (rd rs1 : Z) : asm unit :=
  _ ← assert_supports RV_F;
  EmitRType_FRfF Funct7.FMVWX 0 rs1 Funct3.F3_0 rd Opcode.OPFP.

Definition fcvtls (rd rs1 rounding : Z) : asm unit :=
  _ ← assert_supports RV_F;
  EmitRType_FFrR Funct7.FCVTintS FcvtRs2.L rs1 rounding rd Opcode.OPFP.

Definition fcvtlus (rd rs1 rounding : Z) : asm unit :=
  _ ← assert_supports RV_F;
  EmitRType_FFrR Funct7.FCVTintS FcvtRs2.LU rs1 rounding rd Opcode.OPFP.

Definition fcvtsl (rd rs1 rounding : Z) : asm unit :=
  _ ← assert_supports RV_F;
  EmitRType_FRrF Funct7.FCVTSint FcvtRs2.L rs1 rounding rd Opcode.OPFP.

Definition fcvtslu (rd rs1 rounding : Z) : asm unit :=
  _ ← assert_supports RV_F;
  EmitRType_FRrF Funct7.FCVTSint FcvtRs2.LU rs1 rounding rd Opcode.OPFP.

Definition fld (rd : Z) (addr : Address) : asm unit :=
  _ ← assert_supports RV_D;
  C ← get (Supports RV_C);
  if C && (base addr =? SP) && (IsCSPLoad8Imm (offset addr)) then c_fldsp rd addr
  else if C && IsCFRdp rd && (IsCRs1p (base addr)) && (IsCMem8Imm (offset addr))
    then c_fld rd addr
  else EmitIType_F (offset addr) (base addr) Funct3.D rd Opcode.LOADFP.

Definition fsd (rs2 : Z) (addr : Address) : asm unit :=
  _ ← assert_supports RV_D;
  C ← get (Supports RV_C);
  if C && (base addr =? SP) && (IsCSPStore8Imm (offset addr)) then c_fsdsp rs2 addr
  else if C && IsCFRs2p rs2 && (IsCRs1p (base addr)) && (IsCMem8Imm (offset addr))
    then c_fsd rs2 addr
  else EmitSType_F (offset addr) rs2 (base addr) Funct3.D Opcode.STOREFP.

Definition fmaddd (rd rs1 rs2 rs3 rounding : Z) : asm unit :=
  _ ← assert_supports RV_D;
  EmitR4Type rs3 Funct2.F2_D rs2 rs1 rounding rd Opcode.FMADD.

Definition fmsubd (rd rs1 rs2 rs3 rounding : Z) : asm unit :=
  _ ← assert_supports RV_D;
  EmitR4Type rs3 Funct2.F2_D rs2 rs1 rounding rd Opcode.FMSUB.

Definition fnmsubd (rd rs1 rs2 rs3 rounding : Z) : asm unit :=
  _ ← assert_supports RV_D;
  EmitR4Type rs3 Funct2.F2_D rs2 rs1 rounding rd Opcode.FNMSUB.

Definition fnmaddd (rd rs1 rs2 rs3 rounding : Z) : asm unit :=
  _ ← assert_supports RV_D;
  EmitR4Type rs3 Funct2.F2_D rs2 rs1 rounding rd Opcode.FNMADD.

Definition faddd (rd rs1 rs2 rounding : Z) : asm unit :=
  _ ← assert_supports RV_D;
  EmitRType_FFrF Funct7.FADDD rs2 rs1 rounding rd Opcode.OPFP.

Definition fsubd (rd rs1 rs2 rounding : Z) : asm unit :=
  _ ← assert_supports RV_D;
  EmitRType_FFrF Funct7.FSUBD rs2 rs1 rounding rd Opcode.OPFP.

Definition fmuld (rd rs1 rs2 rounding : Z) : asm unit :=
  _ ← assert_supports RV_D;
  EmitRType_FFrF Funct7.FMULD rs2 rs1 rounding rd Opcode.OPFP.

Definition fdivd (rd rs1 rs2 rounding : Z) : asm unit :=
  _ ← assert_supports RV_D;
  EmitRType_FFrF Funct7.FDIVD rs2 rs1 rounding rd Opcode.OPFP.

Definition fsqrtd (rd rs1 rounding : Z) : asm unit :=
  _ ← assert_supports RV_D;
  EmitRType_FFrF Funct7.FSQRTD 0 rs1 rounding rd Opcode.OPFP.

Definition fsgnjd (rd rs1 rs2 : Z) : asm unit :=
  _ ← assert_supports RV_D;
  EmitRType_FFfF Funct7.FSGNJD rs2 rs1 Funct3.J rd Opcode.OPFP.

Definition fsgnjnd (rd rs1 rs2 : Z) : asm unit :=
  _ ← assert_supports RV_D;
  EmitRType_FFfF Funct7.FSGNJD rs2 rs1 Funct3.JN rd Opcode.OPFP.

Definition fsgnjxd (rd rs1 rs2 : Z) : asm unit :=
  _ ← assert_supports RV_D;
  EmitRType_FFfF Funct7.FSGNJD rs2 rs1 Funct3.JX rd Opcode.OPFP.

Definition fmind (rd rs1 rs2 : Z) : asm unit :=
  _ ← assert_supports RV_D;
  EmitRType_FFfF Funct7.FMINMAXD rs2 rs1 Funct3.MIN rd Opcode.OPFP.

Definition fmaxd (rd rs1 rs2 : Z) : asm unit :=
  _ ← assert_supports RV_D;
  EmitRType_FFfF Funct7.FMINMAXD rs2 rs1 Funct3.MAX rd Opcode.OPFP.

Definition fcvtsd (rd rs1 rounding : Z) : asm unit :=
  _ ← assert_supports RV_D;
  EmitRType_FFrF Funct7.FCVTS 1 rs1 rounding rd Opcode.OPFP.

Definition fcvtds (rd rs1 : Z) : asm unit :=
  _ ← assert_supports RV_D;
  EmitRType_FFfF Funct7.FCVTD 0 rs1 Funct3.F3_0 rd Opcode.OPFP.

Definition feqd (rd rs1 rs2 : Z) : asm unit :=
  _ ← assert_supports RV_D;
  EmitRType_FFfR Funct7.FCMPD rs2 rs1 Funct3.FEQ rd Opcode.OPFP.

Definition fltd (rd rs1 rs2 : Z) : asm unit :=
  _ ← assert_supports RV_D;
  EmitRType_FFfR Funct7.FCMPD rs2 rs1 Funct3.FLT rd Opcode.OPFP.

Definition fled (rd rs1 rs2 : Z) : asm unit :=
  _ ← assert_supports RV_D;
  EmitRType_FFfR Funct7.FCMPD rs2 rs1 Funct3.FLE rd Opcode.OPFP.

Definition fclassd (rd rs1 : Z) : asm unit :=
  _ ← assert_supports RV_D;
  EmitRType_FFfR Funct7.FCLASSD 0 rs1 Funct3.F3_1 rd Opcode.OPFP.

Definition fcvtwd (rd rs1 rounding : Z) : asm unit :=
  _ ← assert_supports RV_D;
  EmitRType_FFrR Funct7.FCVTintD FcvtRs2.W rs1 rounding rd Opcode.OPFP.

Definition fcvtwud (rd rs1 rounding : Z) : asm unit :=
  _ ← assert_supports RV_D;
  EmitRType_FFrR Funct7.FCVTintD FcvtRs2.WU rs1 rounding rd Opcode.OPFP.

Definition fcvtdw (rd rs1 rounding : Z) : asm unit :=
  _ ← assert_supports RV_D;
  EmitRType_FRrF Funct7.FCVTDint FcvtRs2.W rs1 rounding rd Opcode.OPFP.

Definition fcvtdwu (rd rs1 rounding : Z) : asm unit :=
  _ ← assert_supports RV_D;
  EmitRType_FRrF Funct7.FCVTDint FcvtRs2.WU rs1 rounding rd Opcode.OPFP.

Definition fcvtld (rd rs1 rounding : Z) : asm unit :=
  _ ← assert_supports RV_D;
  EmitRType_FFrR Funct7.FCVTintD FcvtRs2.L rs1 rounding rd Opcode.OPFP.

Definition fcvtlud (rd rs1 rounding : Z) : asm unit :=
  _ ← assert_supports RV_D;
  EmitRType_FFrR Funct7.FCVTintD FcvtRs2.LU rs1 rounding rd Opcode.OPFP.

Definition fmvxd (rd rs1 : Z) : asm unit :=
  _ ← assert_supports RV_D;
  EmitRType_FFfR Funct7.FMVXD 0 rs1 Funct3.F3_0 rd Opcode.OPFP.

Definition fcvtdl (rd rs1 rounding : Z) : asm unit :=
  _ ← assert_supports RV_D;
  EmitRType_FRrF Funct7.FCVTDint FcvtRs2.L rs1 rounding rd Opcode.OPFP.

Definition fcvtdlu (rd rs1 rounding : Z) : asm unit :=
  _ ← assert_supports RV_D;
  EmitRType_FRrF Funct7.FCVTDint FcvtRs2.LU rs1 rounding rd Opcode.OPFP.

Definition fmvdx (rd rs1 : Z) : asm unit :=
  _ ← assert_supports RV_D;
  EmitRType_FRfF Funct7.FMVDX 0 rs1 Funct3.F3_0 rd Opcode.OPFP.

(** ** Pseudo-instructions of the header *)

Definition jal_ra (label : nat) (d : JumpDistance) : asm unit := jal RA label d.
Definition j (label : nat) (d : JumpDistance) : asm unit := jal ZR label d.
Definition jalr_ra (rs1 offset : Z) : asm unit := jalr RA rs1 offset.
Definition jr (rs1 offset : Z) : asm unit := jalr ZR rs1 offset.
Definition ret : asm unit := jalr ZR RA 0.
Definition bgt (rs1 rs2 : Z) (l : nat) (d : JumpDistance) : asm unit := blt rs2 rs1 l d.
Definition ble (rs1 rs2 : Z) (l : nat) (d : JumpDistance) : asm unit := bge rs2 rs1 l d.
Definition bgtu (rs1 rs2 : Z) (l : nat) (d : JumpDistance) : asm unit := bltu rs2 rs1 l d.
Definition bleu (rs1 rs2 : Z) (l : nat) (d : JumpDistance) : asm unit := bgeu rs2 rs1 l d.
Definition subi (rd rs1 imm : Z) : asm unit := addi rd rs1 (- imm).
Definition nop : asm unit := addi ZR ZR 0.
Definition li (rd imm : Z) : asm unit := addi rd ZR imm.
Definition mv (rd rs : Z) : asm unit := addi rd rs 0.
Definition not_ (rd rs : Z) : asm unit := xori rd rs (-1).
Definition neg (rd rs : Z) : asm unit := sub rd ZR rs.
Definition snez (rd rs : Z) : asm unit := sltu rd ZR rs.
Definition seqz (rd rs : Z) : asm unit := sltiu rd rs 1.
Definition sltz (rd rs : Z) : asm unit := slt rd rs ZR.
Definition sgtz (rd rs : Z) : asm unit := slt rd ZR rs.
Definition beqz (rs : Z) (label : nat) (d : JumpDistance) : asm unit := beq rs ZR label d.
Definition bnez (rs : Z) (label : nat) (d : JumpDistance) : asm unit := bne rs ZR label d.
Definition blez (rs : Z) (label : nat) (d : JumpDistance) : asm unit := bge ZR rs label d.
Definition bgez (rs : Z) (label : nat) (d : JumpDistance) : asm unit := bge rs ZR label d.
Definition bltz (rs : Z) (label : nat) (d : JumpDistance) : asm unit := blt rs ZR label d.
Definition bgtz (rs : Z) (label : nat) (d : JumpDistance) : asm unit := blt ZR rs label d.
Definition negw (rd rs : Z) : asm unit := subw rd ZR rs.
Definition sextw (rd rs : Z) : asm unit := addiw rd rs 0.
Definition lx (rd : Z) (addr : Address) : asm unit :=
  if TARGET_64 then ld rd addr else lw rd addr.
Definition sx (rs2 : Z) (addr : Address) : asm unit :=
  if TARGET_64 then sd rs2 addr else sw rs2 addr.
Definition fmvs (rd rs : Z) : asm unit := fsgnjs rd rs rs.
Definition fabss (rd rs : Z) : asm unit := fsgnjxs rd rs rs.
Definition fnegs (rd rs : Z) : asm unit := fsgnjns rd rs rs.
Definition fmvd (rd rs : Z) : asm unit := fsgnjd rd rs rs.
Definition fabsd (rd rs : Z) : asm unit := fsgnjxd rd rs rs.
Definition fnegd (rd rs : Z) : asm unit := fsgnjnd rd rs rs.
End Emitters.
