(* ===== verification/Emission.v ===== *)
(** * What the emitters append to the buffer

    [emits m s code] says that the method [m] succeeds in state [s] and its only effect is
    to append [code].  Under the ranges their encoders check, the format emitters append
    the words of [Words] and the compressed emitters the words of [CWords], whatever the
    build mode. *)
From S2P Require Import Prelude Utils Constants EncodingFacts Words CWords Memory AsmState.
From S2P Require Import MicroAssembler.

Definition append (s : Assembler) (code : list Z) : Assembler := with_buffer s (buffer_ s ++ code).

Definition emits (m : asm unit) (s : Assembler) (code : list Z) : Prop :=
  m s = Ok (tt, append s code).

(** The extension sets [Assembler]'s constructor chooses from. *)
Definition full (s : Assembler) : Prop := extensions_ s = RV_G \/ extensions_ s = RV_GC.

Lemma append_append s c1 c2 : append (append s c1) c2 = append s (c1 ++ c2).
Proof. unfold append, with_buffer. cbn. by rewrite (assoc app). Qed.

Lemma append_nil s : append s [] = s.
Proof. unfold append, with_buffer. rewrite app_nil_r. by destruct s. Qed.

Lemma emits_bind m1 (m2 : asm unit) s c1 c2 :
  emits m1 s c1 -> emits m2 (append s c1) c2 -> emits (_ ← m1; m2) s (c1 ++ c2).
Proof.
  unfold emits, mbind, M_bind. intros -> ->. by rewrite append_append.
Qed.

Lemma lift_bind {A B} (r : result A) a (k : A -> asm B) s :
  r = Ok a -> (lift r ≫= k) s = k a s.
Proof. by intros ->. Qed.

Lemma get_bind {A B} (f : Assembler -> A) (k : A -> asm B) s : (get f ≫= k) s = k (f s) s.
Proof. done. Qed.

Section Encoders.
Context `{Target}.

Lemma assert_bind {B} x (k : unit -> asm B) s : x = true -> (assert x ≫= k) s = k tt s.
Proof. intros Hx. apply lift_bind. by apply ASSERT_true. Qed.

Lemma EncodeReg_ok shift r : 0 <= r < 32 -> 0 <= shift <= 27 -> EncodeReg shift r = Ok (r << shift).
Proof.
  intros Hr Hs. unfold EncodeReg, IsReg, uint32. rewrite (uwrap_small 32 eq_refl r) by lia.
  rewrite ASSERT_bind by (apply Z.ltb_lt; lia). f_equal. apply (uwrap_small 32 eq_refl).
  apply (shiftl_bound r shift 5 32); lia.
Qed.

Lemma EncodeFunct_ok shift mask f k : 0 <= f < 2 ^ k -> mask = Z.ones k -> 0 <= k ->
  0 <= shift -> shift + k <= 32 -> EncodeFunct shift mask f = Ok (f << shift).
Proof.
  intros Hf -> Hk Hs Hle. unfold EncodeFunct, IsFunct, uint32.
  rewrite ASSERT_bind by (rewrite Z.land_ones, Z.mod_small by lia; apply Z.eqb_refl).
  f_equal. apply (uwrap_small 32 eq_refl). by apply (shiftl_bound f shift k 32).
Qed.

Lemma EncodeITypeImm_ok imm : IsITypeImm imm = true ->
  EncodeITypeImm imm = Ok ((imm .& 0xfff) << 20).
Proof.
  intros Hi. unfold EncodeITypeImm. rewrite ASSERT_bind by done. f_equal.
  unfold uint32. rewrite uwrap_land by lia.
  apply Z.bits_inj'. intros i Hr. rewrite Z.land_spec. destruct (Z.lt_ge_cases i 20).
  - by rewrite !Z.shiftl_spec_low by lia.
  - rewrite !Z.shiftl_spec, Z.land_spec by lia. f_equal.
    change 0xfff with (Z.ones 12). rewrite !Z.testbit_ones_nonneg by lia.
    destruct (Z.ltb_spec i 32), (Z.ltb_spec (i - 20) 12); done || lia.
Qed.

Lemma EncodeSTypeImm_ok imm : IsSTypeImm imm = true ->
  EncodeSTypeImm imm = Ok ((((imm >> 5) .& 0x7f) << 25) .| (((imm >> 0) .& 0x1f) << 7)).
Proof. intros Hi. unfold EncodeSTypeImm. by rewrite ASSERT_bind by done. Qed.

Lemma EncodeBTypeImm_ok imm : IsBTypeImm imm = true ->
  EncodeBTypeImm imm = Ok ((((imm >> 12) .& 0x1) << 31) .| (((imm >> 5) .& 0x3f) << 25) .|
    (((imm >> 1) .& 0xf) << 8) .| (((imm >> 11) .& 0x1) << 7)).
Proof. intros Hi. unfold EncodeBTypeImm. by rewrite ASSERT_bind by done. Qed.

Lemma EncodeJTypeImm_ok imm : IsJTypeImm imm = true ->
  EncodeJTypeImm imm = Ok ((((imm >> 20) .& 0x1) << 31) .| (((imm >> 1) .& 0x3ff) << 21) .|
   (((imm >> 11) .& 0x1) << 20) .| (((imm >> 12) .& 0xff) << 12)).
Proof. intros Hi. unfold EncodeJTypeImm. by rewrite ASSERT_bind by done. Qed.

Lemma EncodeUTypeImm_ok imm : IsUTypeImm imm = true ->
  EncodeUTypeImm imm = Ok (((imm >> 12) .& 0xfffff) << 12).
Proof.
  intros Hi. unfold EncodeUTypeImm. rewrite ASSERT_bind by done. f_equal.
  apply andb_true_iff in Hi as [_ Ha].
  unfold uint32. apply Z.bits_inj'. intros i Hr. rewrite testbit_uwrap by lia.
  rewrite (testbit_slice imm 12 0xfffff 20) by (reflexivity || lia).
  destruct (Z.leb_spec 12 i); cbn; [f_equal; f_equal; lia|].
  rewrite (aligned_bit imm 12 i Ha) by lia. apply andb_false_r.
Qed.

Lemma EncodeRegPrime_ok shift r : IsRegPrime r = true ->
  EncodeRegPrime shift r = Ok (prime r << shift).
Proof.
  intros Hr. unfold EncodeRegPrime. rewrite ASSERT_bind by done. f_equal. f_equal.
  unfold IsRegPrime in Hr. to_prop. unfold uint32. by rewrite (uwrap_small 32 eq_refl) by lia.
Qed.

Lemma Emit32_word w s : 0 <= w < 2 ^ 32 -> emits (Emit32 w) s (le_bytes 4 w).
Proof.
  intros Hw. unfold emits, Emit32, Emit, uint32. by rewrite (uwrap_small 32 eq_refl) by done.
Qed.

Lemma Emit16_word w s : 0 <= w < 2 ^ 16 -> emits (Emit16 w) s (le_bytes 2 w).
Proof.
  intros Hw. unfold emits, Emit16, Emit, uint16. by rewrite (uwrap_small 16 eq_refl) by done.
Qed.

Lemma assert_supports_bind {B} e (k : unit -> asm B) s :
  Supports e s = true -> (assert_supports e ≫= k) s = k tt s.
Proof.
  intros He. unfold assert_supports. unfold mbind at 1, M_bind at 1.
  unfold mbind, M_bind, get. unfold assert, lift. by rewrite ASSERT_true by done.
Qed.
End Encoders.

(** ** Instruction formats *)

Section Formats.
Context `{Target} (imm funct7 funct2 rs3 rs2 rs1 funct3 rd opcode : Z) (s : Assembler).
Context (H7 : 0 <= funct7 < 128) (H2 : 0 <= funct2 < 4) (Hr3 : 0 <= rs3 < 32)
  (Hr2 : 0 <= rs2 < 32) (Hr1 : 0 <= rs1 < 32) (H3 : 0 <= funct3 < 8)
  (Hrd : 0 <= rd < 32) (Hop : 0 <= opcode < 128).

Ltac encoder :=
  first
    [ apply EncodeReg_ok; lia
    | eapply (EncodeFunct_ok _ _ _ 7); (lia || done)
    | eapply (EncodeFunct_ok _ _ _ 3); (lia || done)
    | apply EncodeITypeImm_ok; done
    | apply EncodeSTypeImm_ok; done
    | apply EncodeBTypeImm_ok; done
    | apply EncodeUTypeImm_ok; done
    | apply EncodeJTypeImm_ok; done ].

Ltac format :=
  unfold emits; repeat (erewrite lift_bind; [|encoder]);
  rewrite Z.lor_0_l; apply Emit32_word.

Lemma EmitRType_emits :
  emits (EmitRType funct7 rs2 rs1 funct3 rd opcode) s
    (le_bytes 4 (Rword funct7 rs2 rs1 funct3 rd opcode)).
Proof. unfold EmitRType. format. by apply Rword_bound. Qed.

Lemma EmitIType_emits : IsITypeImm imm = true ->
  emits (EmitIType imm rs1 funct3 rd opcode) s (le_bytes 4 (Iword imm rs1 funct3 rd opcode)).
Proof. intros Hi. unfold EmitIType. format. by apply Iword_bound. Qed.

Lemma EmitSType_emits : IsSTypeImm imm = true ->
  emits (EmitSType imm rs2 rs1 funct3 opcode) s (le_bytes 4 (Sword imm rs2 rs1 funct3 opcode)).
Proof. intros Hi. unfold EmitSType. format. by apply Sword_bound. Qed.

Lemma EmitBType_emits : IsBTypeImm imm = true ->
  emits (EmitBType imm rs2 rs1 funct3 opcode) s (le_bytes 4 (Bword imm rs2 rs1 funct3 opcode)).
Proof. intros Hi. unfold EmitBType. format. by apply Bword_bound. Qed.

Lemma EmitUType_emits : IsUTypeImm imm = true ->
  emits (EmitUType imm rd opcode) s (le_bytes 4 (Uword imm rd opcode)).
Proof. intros Hi. unfold EmitUType. format. by apply Uword_bound. Qed.

Lemma EmitJType_emits : IsJTypeImm imm = true ->
  emits (EmitJType imm rd opcode) s (le_bytes 4 (Jword imm rd opcode)).
Proof. intros Hi. unfold EmitJType. format. by apply Jword_bound. Qed.
End Formats.

(** ** Compressed instructions *)

Ltac c_encoder :=
  first
    [ apply EncodeReg_ok; lia
    | apply EncodeRegPrime_ok; done
    | unfold EncodeCIImm, EncodeCUImm, EncodeCI16Imm, EncodeCI4SPNImm, EncodeCSPLoad4Imm,
        EncodeCSPLoad8Imm, EncodeCSPStore4Imm, EncodeCSPStore8Imm, EncodeCMem4Imm,
        EncodeCMem8Imm, EncodeCJImm, EncodeCBImm;
      rewrite ASSERT_bind by done; reflexivity ].

(** Run the assertions and the encoders of a compressed emitter. *)
Ltac c_encode :=
  unfold emits;
  repeat first
    [ rewrite assert_supports_bind by done
    | rewrite assert_bind by (first [done | apply Z.eqb_refl | by apply negb_true_iff, Z.eqb_neq])
    | erewrite lift_bind; [|c_encoder] ].
Ltac c_format := c_encode; apply Emit16_word.

Section Compressed.
Context `{Target} (s : Assembler) (HC : Supports RV_C s = true).

Lemma c_li_emits rd imm : 0 <= rd < 32 -> rd <> ZR -> IsCIImm imm = true ->
  emits (c_li rd imm) s (le_bytes 2 (CIword 2 1 rd imm)).
Proof. intros Hd Hz Hi. unfold c_li. c_format. apply (CIword_reads 2 1 rd imm); done || lia. Qed.

Lemma c_lui_emits rd imm : 0 <= rd < 32 -> rd <> ZR -> rd <> SP -> IsCUImm imm = true ->
  emits (c_lui rd imm) s (le_bytes 2 (CUword 3 1 rd imm)).
Proof. intros Hd Hz Hs Hi. unfold c_lui. c_format. apply (CUword_reads 3 1 rd imm); done || lia. Qed.

Lemma c_addi_emits rd imm : 0 <= rd < 32 -> IsCIImm imm = true -> imm <> 0 ->
  emits (c_addi rd rd imm) s (le_bytes 2 (CIword 0 1 rd imm)).
Proof. intros Hd Hi Hn. unfold c_addi. c_format. apply (CIword_reads 0 1 rd imm); done || lia. Qed.

Lemma c_addiw_emits rd imm : 0 <= rd < 32 -> IsCIImm imm = true ->
  emits (c_addiw rd rd imm) s (le_bytes 2 (CIword 1 1 rd imm)).
Proof. intros Hd Hi. unfold c_addiw. c_format. apply (CIword_reads 1 1 rd imm); done || lia. Qed.

Lemma c_addi16sp_emits imm : IsCI16Imm imm = true ->
  emits (c_addi16sp SP SP imm) s (le_bytes 2 (CI16word 3 1 SP imm)).
Proof.
  intros Hi. unfold c_addi16sp. assert (0 <= SP < 32) by done. c_format.
  apply (CI16word_reads 3 1 SP imm); done || lia.
Qed.

Lemma c_addi4spn_emits rd imm : IsCRdp rd = true -> IsCI4SPNImm imm = true -> imm <> 0 ->
  emits (c_addi4spn rd SP imm) s (le_bytes 2 (CIWword 0 0 imm rd)).
Proof.
  intros Hd Hi Hn. unfold c_addi4spn. c_format. apply (CIWword_reads 0 0 imm); done || lia.
Qed.

Lemma c_slli_emits rd imm : 0 <= rd < 32 -> IsCIImm imm = true -> imm <> 0 ->
  emits (c_slli rd rd imm) s (le_bytes 2 (CIword 0 2 rd imm)).
Proof. intros Hd Hi Hn. unfold c_slli. c_format. apply (CIword_reads 0 2 rd imm); done || lia. Qed.

Lemma c_srli_emits rd imm : IsRegPrime rd = true -> IsCIImm imm = true -> imm <> 0 ->
  emits (c_srli rd rd imm) s (le_bytes 2 (CALUword 0 imm rd)).
Proof. intros Hd Hi Hn. unfold c_srli. c_format. apply (CALUword_reads 0 imm); done || lia. Qed.

Lemma c_srai_emits rd imm : IsRegPrime rd = true -> IsCIImm imm = true -> imm <> 0 ->
  emits (c_srai rd rd imm) s (le_bytes 2 (CALUword 1 imm rd)).
Proof. intros Hd Hi Hn. unfold c_srai. c_format. apply (CALUword_reads 1 imm); done || lia. Qed.

Lemma c_andi_emits rd imm : IsRegPrime rd = true -> IsCIImm imm = true ->
  emits (c_andi rd rd imm) s (le_bytes 2 (CALUword 2 imm rd)).
Proof. intros Hd Hi. unfold c_andi. c_format. apply (CALUword_reads 2 imm); done || lia. Qed.

Lemma c_mv_emits rd rs2 : 0 <= rd < 32 -> 0 <= rs2 < 32 -> rd <> ZR -> rs2 <> ZR ->
  emits (c_mv rd rs2) s (le_bytes 2 (CRword 0 rd rs2)).
Proof. intros Hd Hs Hz Hz2. unfold c_mv. c_format. apply (CRword_reads 0 rd rs2); done || lia. Qed.

Lemma c_add_emits rd rs2 : 0 <= rd < 32 -> 0 <= rs2 < 32 -> rd <> ZR -> rs2 <> ZR ->
  emits (c_add rd rd rs2) s (le_bytes 2 (CRword 1 rd rs2)).
Proof. intros Hd Hs Hz Hz2. unfold c_add. c_format. apply (CRword_reads 1 rd rs2); done || lia. Qed.

Lemma c_nop_emits : emits c_nop s (le_bytes 2 (CIword 0 1 0 0)).
Proof. unfold c_nop. c_format. done. Qed.

Lemma c_sub_emits rd rs2 : IsRegPrime rd = true -> IsRegPrime rs2 = true ->
  emits (c_sub rd rd rs2) s (le_bytes 2 (CAword 0 0 rd rs2)).
Proof. intros Hd Hs. unfold c_sub. c_format. apply (CAword_reads 0 0); done || lia. Qed.

Lemma c_xor_emits rd rs2 : IsRegPrime rd = true -> IsRegPrime rs2 = true ->
  emits (c_xor rd rd rs2) s (le_bytes 2 (CAword 0 1 rd rs2)).
Proof. intros Hd Hs. unfold c_xor. c_format. apply (CAword_reads 0 1); done || lia. Qed.

Lemma c_or_emits rd rs2 : IsRegPrime rd = true -> IsRegPrime rs2 = true ->
  emits (c_or rd rd rs2) s (le_bytes 2 (CAword 0 2 rd rs2)).
Proof. intros Hd Hs. unfold c_or. c_format. apply (CAword_reads 0 2); done || lia. Qed.

Lemma c_and_emits rd rs2 : IsRegPrime rd = true -> IsRegPrime rs2 = true ->
  emits (c_and rd rd rs2) s (le_bytes 2 (CAword 0 3 rd rs2)).
Proof. intros Hd Hs. unfold c_and. c_format. apply (CAword_reads 0 3); done || lia. Qed.

Lemma c_subw_emits rd rs2 : IsRegPrime rd = true -> IsRegPrime rs2 = true ->
  emits (c_subw rd rd rs2) s (le_bytes 2 (CAword 1 0 rd rs2)).
Proof. intros Hd Hs. unfold c_subw. c_format. apply (CAword_reads 1 0); done || lia. Qed.

Lemma c_addw_emits rd rs2 : IsRegPrime rd = true -> IsRegPrime rs2 = true ->
  emits (c_addw rd rd rs2) s (le_bytes 2 (CAword 1 1 rd rs2)).
Proof. intros Hd Hs. unfold c_addw. c_format. apply (CAword_reads 1 1); done || lia. Qed.
End Compressed.
