(* ===== verification/Computes.v ===== *)
(** * Emitters compute what their names say

    [produces m s f]: in state [s] the method [m] emits one word or less of code that, run by the simulator,
    transforms the integer registers by [f].  [computes n m f] says so, with at most [n] words, for every state an
    [Assembler] can be in, with or without compressed instructions.  Each emitter is
    proved once; the macros of [Assembler] follow by composition. *)
From S2P Require Import Prelude Utils Constants EncodingFacts Words CWords Memory Float.
From S2P Require Import SimState SimInteger SimFloat Simulator Exec Effects AsmState.
From S2P Require Import MicroAssembler Emission.

Section Judgement.
Context `{Target} `{HostFloat} `{Host}.

Definition produces (m : asm unit) (s : Assembler) (f : regs -> regs) : Prop :=
  exists code, emits m s code /\ executes code f /\ (length code <= 4)%nat.

Definition computes (n : nat) (m : asm unit) (f : regs -> regs) : Prop :=
  forall s, full s ->
  exists code, emits m s code /\ executes code f /\ (length code <= 4 * n)%nat.

Lemma computes_bind n1 n2 m1 m2 f1 f2 :
  computes n1 m1 f1 -> computes n2 m2 f2 ->
  computes (n1 + n2) (_ ← m1; m2) (fun r => f2 (f1 r)).
Proof.
  intros C1 C2 s Hs. destruct (C1 s Hs) as (c1 & E1 & X1 & L1).
  destruct (C2 (append s c1) Hs) as (c2 & E2 & X2 & L2).
  exists (c1 ++ c2). split_and!; [by apply emits_bind | by apply executes_app |].
  rewrite length_app. lia.
Qed.

Lemma computes_skip : computes 0 (mret tt) (fun r => r).
Proof.
  intros s _. exists [].
  split_and!; [unfold emits; by rewrite append_nil | apply executes_nil | done].
Qed.

Lemma computes_ext n m f g :
  (forall r, regs_wf r -> f r = g r) -> computes n m f -> computes n m g.
Proof.
  intros Hfg C s Hs. destruct (C s Hs) as (code & E & X & L).
  exists code. split_and!; [done | by eapply executes_ext | done].
Qed.

Lemma computes_weaken n k m f : (n <= k)%nat -> computes n m f -> computes k m f.
Proof.
  intros Hk C s Hs. destruct (C s Hs) as (code & E & X & L). exists code. split_and!; [done..|lia].
Qed.

(** Assertions that hold. *)
Lemma computes_assert n x (k : unit -> asm unit) f : x = true ->
  computes n (k tt) f -> computes n (assert x ≫= k) f.
Proof.
  intros Hx C s Hs. destruct (C s Hs) as (code & E & X & L). exists code.
  split_and!; [|done..]. unfold emits. by rewrite assert_bind.
Qed.

Lemma produces_ext m s f g :
  (forall r, regs_wf r -> f r = g r) -> produces m s f -> produces m s g.
Proof.
  intros Hfg (code & E & X & L). exists code.
  split_and!; [done | by eapply executes_ext | done].
Qed.

(** Prefixes of a method that leave the state alone. *)
Lemma produces_eq (m m' : asm unit) s f : m s = m' s -> produces m' s f -> produces m s f.
Proof.
  intros E (code & Ee & X & L). exists code. split_and!; [by unfold emits; rewrite E | done..].
Qed.

Lemma produces_supports e (k : unit -> asm unit) s f : Supports e s = true ->
  produces (k tt) s f -> produces (assert_supports e ≫= k) s f.
Proof. intros He. apply produces_eq. by apply assert_supports_bind. Qed.

Lemma produces_assert x (k : unit -> asm unit) s f : x = true ->
  produces (k tt) s f -> produces (assert x ≫= k) s f.
Proof. intros Hx. apply produces_eq. by apply assert_bind. Qed.

Lemma produces_get {A} (g : Assembler -> A) (k : A -> asm unit) s f :
  produces (k (g s)) s f -> produces (get g ≫= k) s f.
Proof. by apply produces_eq. Qed.

Lemma full_supports s e :
  full s -> existsb (Z.eqb e) [RV_I; RV_M; RV_A; RV_F; RV_D] = true -> Supports e s = true.
Proof.
  unfold full, Supports. intros Hs He. apply existsb_exists in He as (x & Hx & ->%Z.eqb_eq).
  cbn [In] in Hx. destruct Hs as [-> | ->]; by intuition subst.
Qed.

Lemma produces_word m s w f : emits m s (le_bytes 4 w) -> 0 <= w < 2 ^ 32 ->
  opcode w .& 3 = 3 ->
  (forall r, regs_wf r -> regs_wf (f r)) ->
  (forall st, Interpret st w = Ok (pc_add (with_xregs st (f (xregs_ st))) 4)) ->
  produces m s f.
Proof.
  intros E Hw Ho Hf HI. exists (le_bytes 4 w). split_and!; [done | |by rewrite length_le_bytes].
  apply executes_word; [done | done |]. intros st Hr. auto.
Qed.

Lemma produces_parcel m s w f : emits m s (le_bytes 2 w) -> 0 <= w < 2 ^ 16 ->
  w .& 3 <> 3 ->
  (forall r, regs_wf r -> regs_wf (f r)) ->
  (forall st, InterpretC st w = Ok (pc_add (with_xregs st (f (xregs_ st))) 2)) ->
  produces m s f.
Proof.
  intros E Hw Ho Hf HI. exists (le_bytes 2 w). split_and!; [done | |rewrite length_le_bytes; lia].
  apply executes_parcel; [done | done |]. intros st Hr. auto.
Qed.
End Judgement.

(** Evaluate the assertions and state reads at the head of an emitter. *)
Ltac open_emitter Hs :=
  intros s Hs; match goal with |- exists _, emits ?m _ _ /\ executes _ ?f /\ _ => change (produces m s f) end;
  repeat first
    [ apply produces_supports; [apply full_supports; done |]
    | apply produces_assert; [first [done | apply andb_true_iff; split; apply Z.ltb_lt; lia] |]
    | apply produces_get ].

Section RTypes.
Context `{Target} `{HostFloat} `{Host}.

Lemma Rword_produces m s f7 rs2 rs1 f3 rd op f :
  emits m s (le_bytes 4 (Rword f7 rs2 rs1 f3 rd op)) ->
  0 <= f7 < 128 -> 0 <= rs2 < 32 -> 0 <= rs1 < 32 -> 0 <= f3 < 8 -> 0 <= rd < 32 ->
  0 <= op < 128 -> op .& 3 = 3 ->
  (forall st, Interpret st (Rword f7 rs2 rs1 f3 rd op) =
     Ok (pc_add (with_xregs st (xset (xregs_ st) rd (f (xregs_ st)))) 4)) ->
  produces m s (fun r => xset r rd (f r)).
Proof.
  intros E ? ? ? ? ? ? Ho HI. eapply produces_word; [done | by apply Rword_bound | | | done].
  - by rewrite Rword_opcode.
  - intros r Hr. by apply xset_wf.
Qed.

Lemma Iword_produces m s imm rs1 f3 rd op f :
  emits m s (le_bytes 4 (Iword imm rs1 f3 rd op)) ->
  0 <= rs1 < 32 -> 0 <= f3 < 8 -> 0 <= rd < 32 -> 0 <= op < 128 -> op .& 3 = 3 ->
  (forall st, Interpret st (Iword imm rs1 f3 rd op) =
     Ok (pc_add (with_xregs st (xset (xregs_ st) rd (f (xregs_ st)))) 4)) ->
  produces m s (fun r => xset r rd (f r)).
Proof.
  intros E ? ? ? ? Ho HI. eapply produces_word; [done | by apply Iword_bound | | | done].
  - by rewrite Iword_opcode.
  - intros r Hr. by apply xset_wf.
Qed.

Lemma parcel_produces m s w rd f :
  emits m s (le_bytes 2 w) -> 0 <= w < 2 ^ 16 -> w .& 3 <> 3 ->
  (forall st, InterpretC st w =
     Ok (pc_add (with_xregs st (xset (xregs_ st) rd (f (xregs_ st)))) 2)) ->
  produces m s (fun r => xset r rd (f r)).
Proof.
  intros E Hw Ho HI. eapply produces_parcel; [done | done | done | | done].
  intros r Hr. by apply xset_wf.
Qed.

Lemma sll_computes rd rs1 rs2 : 0 <= rd < 32 -> 0 <= rs1 < 32 -> 0 <= rs2 < 32 ->
  computes 1 (sll rd rs1 rs2) (fun r => xset r rd (r rs1 << (r rs2 .& (XLEN - 1)))).
Proof.
  intros Hd Hs1 Hs2. unfold sll. open_emitter Hs.
  eapply Rword_produces; [by apply EmitRType_emits; wside | wside.. |].
  intros st. by apply interpret_sll.
Qed.

Lemma slt_computes rd rs1 rs2 : 0 <= rd < 32 -> 0 <= rs1 < 32 -> 0 <= rs2 < 32 ->
  computes 1 (slt rd rs1 rs2) (fun r => xset r rd (b2z (intx (r rs1) <? intx (r rs2)))).
Proof.
  intros Hd Hs1 Hs2. unfold slt. open_emitter Hs.
  eapply Rword_produces; [by apply EmitRType_emits; wside | wside.. |].
  intros st. by apply interpret_slt.
Qed.

Lemma sltu_computes rd rs1 rs2 : 0 <= rd < 32 -> 0 <= rs1 < 32 -> 0 <= rs2 < 32 ->
  computes 1 (sltu rd rs1 rs2) (fun r => xset r rd (b2z (r rs1 <? r rs2))).
Proof.
  intros Hd Hs1 Hs2. unfold sltu. open_emitter Hs.
  eapply Rword_produces; [by apply EmitRType_emits; wside | wside.. |].
  intros st. by apply interpret_sltu.
Qed.

Lemma srl_computes rd rs1 rs2 : 0 <= rd < 32 -> 0 <= rs1 < 32 -> 0 <= rs2 < 32 ->
  computes 1 (srl rd rs1 rs2) (fun r => xset r rd (r rs1 >> (r rs2 .& (XLEN - 1)))).
Proof.
  intros Hd Hs1 Hs2. unfold srl. open_emitter Hs.
  eapply Rword_produces; [by apply EmitRType_emits; wside | wside.. |].
  intros st. by apply interpret_srl.
Qed.

Lemma sra_computes rd rs1 rs2 : 0 <= rd < 32 -> 0 <= rs1 < 32 -> 0 <= rs2 < 32 ->
  computes 1 (sra rd rs1 rs2) (fun r => xset r rd (intx (r rs1) >> (r rs2 .& (XLEN - 1)))).
Proof.
  intros Hd Hs1 Hs2. unfold sra. open_emitter Hs.
  eapply Rword_produces; [by apply EmitRType_emits; wside | wside.. |].
  intros st. by apply interpret_sra.
Qed.

Lemma mul_computes rd rs1 rs2 : 0 <= rd < 32 -> 0 <= rs1 < 32 -> 0 <= rs2 < 32 ->
  computes 1 (MicroAssembler.mul rd rs1 rs2) (fun r => xset r rd (SimInteger.mul (intx (r rs1)) (intx (r rs2)))).
Proof.
  intros Hd Hs1 Hs2. unfold MicroAssembler.mul. open_emitter Hs.
  eapply Rword_produces; [by apply EmitRType_emits; wside | wside.. |].
  intros st. by apply interpret_mul.
Qed.

Lemma mulh_computes rd rs1 rs2 : 0 <= rd < 32 -> 0 <= rs1 < 32 -> 0 <= rs2 < 32 ->
  computes 1 (MicroAssembler.mulh rd rs1 rs2) (fun r => xset r rd (SimInteger.mulh (intx (r rs1)) (intx (r rs2)))).
Proof.
  intros Hd Hs1 Hs2. unfold MicroAssembler.mulh. open_emitter Hs.
  eapply Rword_produces; [by apply EmitRType_emits; wside | wside.. |].
  intros st. by apply interpret_mulh.
Qed.

Lemma slti_computes rd rs1 imm : 0 <= rd < 32 -> 0 <= rs1 < 32 -> IsITypeImm imm = true ->
  computes 1 (slti rd rs1 imm) (fun r => xset r rd (b2z (intx (r rs1) <? intx imm))).
Proof.
  intros Hd Hs1 Hi. unfold slti. open_emitter Hs.
  eapply Iword_produces; [by apply EmitIType_emits; wside | wside.. |].
  intros st. by apply interpret_slti.
Qed.

Lemma sltiu_computes rd rs1 imm : 0 <= rd < 32 -> 0 <= rs1 < 32 -> IsITypeImm imm = true ->
  computes 1 (sltiu rd rs1 imm) (fun r => xset r rd (b2z (r rs1 <? uintx imm))).
Proof.
  intros Hd Hs1 Hi. unfold sltiu. open_emitter Hs.
  eapply Iword_produces; [by apply EmitIType_emits; wside | wside.. |].
  intros st. by apply interpret_sltiu.
Qed.

Lemma xori_computes rd rs1 imm : 0 <= rd < 32 -> 0 <= rs1 < 32 -> IsITypeImm imm = true ->
  computes 1 (xori rd rs1 imm) (fun r => xset r rd (r rs1 .^ uintx imm)).
Proof.
  intros Hd Hs1 Hi. unfold xori. open_emitter Hs.
  eapply Iword_produces; [by apply EmitIType_emits; wside | wside.. |].
  intros st. by apply interpret_xori.
Qed.

Lemma ori_computes rd rs1 imm : 0 <= rd < 32 -> 0 <= rs1 < 32 -> IsITypeImm imm = true ->
  computes 1 (ori rd rs1 imm) (fun r => xset r rd (r rs1 .| uintx imm)).
Proof.
  intros Hd Hs1 Hi. unfold ori. open_emitter Hs.
  eapply Iword_produces; [by apply EmitIType_emits; wside | wside.. |].
  intros st. by apply interpret_ori.
Qed.

End RTypes.

(** ** Emitters with compressed forms *)

Section Compressible.
Context `{Target} `{HostFloat} `{Host}.

(** Case analysis on the guards of an emitter. *)
Ltac guards :=
  repeat match goal with
  | |- produces (if ?c then _ else _) _ _ => destruct c eqn:?
  end; to_prop; try discriminate.

Lemma c_li_produces s rd imm : Supports RV_C s = true ->
  0 <= rd < 32 -> rd <> ZR -> IsCIImm imm = true ->
  produces (c_li rd imm) s (fun r => xset r rd (imm)).
Proof.
  intros HC K0 K1 K2.
  destruct (CIword_reads 2 1 rd imm) as (Hb & Hlo & _); [done || lia..|].
  eapply parcel_produces; [by apply c_li_emits | done | by rewrite Hlo |].
  intros st. by apply interpret_c_li.
Qed.

Lemma c_lui_produces s rd imm : Supports RV_C s = true ->
  0 <= rd < 32 -> rd <> ZR -> rd <> SP -> IsCUImm imm = true -> imm <> 0 ->
  produces (c_lui rd imm) s (fun r => xset r rd (imm)).
Proof.
  intros HC K0 K1 K2 K3 K4.
  destruct (CUword_reads 3 1 rd imm) as (Hb & Hlo & _); [done || lia..|].
  eapply parcel_produces; [by apply c_lui_emits | done | by rewrite Hlo |].
  intros st. by apply interpret_c_lui.
Qed.

Lemma c_addi_produces s rd imm : Supports RV_C s = true ->
  0 <= rd < 32 -> IsCIImm imm = true -> imm <> 0 ->
  produces (c_addi rd rd imm) s (fun r => xset r rd (r rd + imm)).
Proof.
  intros HC K0 K1 K2.
  destruct (CIword_reads 0 1 rd imm) as (Hb & Hlo & _); [done || lia..|].
  eapply parcel_produces; [by apply c_addi_emits | done | by rewrite Hlo |].
  intros st. by apply interpret_c_addi.
Qed.

Lemma c_addiw_produces s rd imm : Supports RV_C s = true ->
  TARGET_64 = true -> 0 <= rd < 32 -> IsCIImm imm = true ->
  produces (c_addiw rd rd imm) s
    (fun r => xset r rd (sign_extend_uint32 (uint32 (uint32 (r rd) + uint32 imm)))).
Proof.
  intros HC K0 K1 K2.
  destruct (CIword_reads 1 1 rd imm) as (Hb & Hlo & _); [done || lia..|].
  eapply parcel_produces; [by apply c_addiw_emits | done | by rewrite Hlo |].
  intros st. by apply interpret_c_addiw.
Qed.

Lemma c_addi16sp_produces s imm : Supports RV_C s = true ->
  IsCI16Imm imm = true -> imm <> 0 ->
  produces (c_addi16sp SP SP imm) s (fun r => xset r SP (r SP + imm)).
Proof.
  intros HC K0 K1.
  destruct (CI16word_reads 3 1 SP imm) as (Hb & Hlo & _); [done || lia..|].
  eapply parcel_produces; [by apply c_addi16sp_emits | done | by rewrite Hlo |].
  intros st. by apply interpret_c_addi16sp.
Qed.

Lemma c_addi4spn_produces s rd imm : Supports RV_C s = true ->
  IsCRdp rd = true -> IsCI4SPNImm imm = true -> imm <> 0 ->
  produces (c_addi4spn rd SP imm) s (fun r => xset r rd (r SP + imm)).
Proof.
  intros HC K0 K1 K2.
  destruct (CIWword_reads 0 0 imm ltac:(lia) ltac:(lia) rd) as (Hb & Hlo & _); [done || lia..|].
  eapply parcel_produces; [by apply c_addi4spn_emits | done | by rewrite Hlo |].
  intros st. by apply interpret_c_addi4spn.
Qed.

Lemma c_mv_produces s rd rs2 : Supports RV_C s = true ->
  0 <= rd < 32 -> 0 <= rs2 < 32 -> rd <> ZR -> rs2 <> ZR ->
  produces (c_mv rd rs2) s (fun r => xset r rd (r rs2)).
Proof.
  intros HC K0 K1 K2 K3.
  destruct (CRword_reads 0 rd rs2) as (Hb & Hlo & _); [done || lia..|].
  eapply parcel_produces; [by apply c_mv_emits | done | by rewrite Hlo |].
  intros st. by apply interpret_c_mv.
Qed.

Lemma c_add_produces s rd rs2 : Supports RV_C s = true ->
  0 <= rd < 32 -> 0 <= rs2 < 32 -> rd <> ZR -> rs2 <> ZR ->
  produces (c_add rd rd rs2) s (fun r => xset r rd (r rd + r rs2)).
Proof.
  intros HC K0 K1 K2 K3.
  destruct (CRword_reads 1 rd rs2) as (Hb & Hlo & _); [done || lia..|].
  eapply parcel_produces; [by apply c_add_emits | done | by rewrite Hlo |].
  intros st. by apply interpret_c_add.
Qed.

Lemma c_slli_produces s rd imm : Supports RV_C s = true ->
  0 <= rd < 32 -> 0 < imm < 32 -> IsCIImm imm = true ->
  produces (c_slli rd rd imm) s (fun r => xset r rd (r rd << imm)).
Proof.
  intros HC K0 K1 K2.
  destruct (CIword_reads 0 2 rd imm) as (Hb & Hlo & _); [done || lia..|].
  eapply parcel_produces; [by apply c_slli_emits; lia || done | done | by rewrite Hlo |].
  intros st. by apply interpret_c_slli.
Qed.

Lemma c_srli_produces s rd imm : Supports RV_C s = true ->
  IsRegPrime rd = true -> 0 < imm < 32 -> IsCIImm imm = true ->
  produces (c_srli rd rd imm) s (fun r => xset r rd (r rd >> imm)).
Proof.
  intros HC K0 K1 K2.
  destruct (CALUword_reads 0 imm ltac:(lia) rd) as (Hb & Hlo & _); [done || lia..|].
  eapply parcel_produces; [by apply c_srli_emits; lia || done | done | by rewrite Hlo |].
  intros st. by apply interpret_c_srli.
Qed.

Lemma c_srai_produces s rd imm : Supports RV_C s = true ->
  IsRegPrime rd = true -> 0 < imm < 32 -> IsCIImm imm = true ->
  produces (c_srai rd rd imm) s (fun r => xset r rd (intx (r rd) >> imm)).
Proof.
  intros HC K0 K1 K2.
  destruct (CALUword_reads 1 imm ltac:(lia) rd) as (Hb & Hlo & _); [done || lia..|].
  eapply parcel_produces; [by apply c_srai_emits; lia || done | done | by rewrite Hlo |].
  intros st. by apply interpret_c_srai.
Qed.

Lemma c_andi_produces s rd imm : Supports RV_C s = true ->
  IsRegPrime rd = true -> IsCIImm imm = true ->
  produces (c_andi rd rd imm) s (fun r => xset r rd (r rd .& uintx imm)).
Proof.
  intros HC K0 K1.
  destruct (CALUword_reads 2 imm ltac:(lia) rd) as (Hb & Hlo & _); [done || lia..|].
  eapply parcel_produces; [by apply c_andi_emits | done | by rewrite Hlo |].
  intros st. by apply interpret_c_andi.
Qed.

Lemma c_sub_produces s rd rs2 : Supports RV_C s = true ->
  IsRegPrime rd = true -> IsRegPrime rs2 = true ->
  produces (c_sub rd rd rs2) s (fun r => xset r rd (r rd - r rs2)).
Proof.
  intros HC K0 K1.
  destruct (CAword_reads 0 0 ltac:(lia) ltac:(lia) rd rs2) as (Hb & Hlo & _); [done || lia..|].
  eapply parcel_produces; [by apply c_sub_emits | done | by rewrite Hlo |].
  intros st. by apply interpret_c_sub.
Qed.

Lemma c_xor_produces s rd rs2 : Supports RV_C s = true ->
  IsRegPrime rd = true -> IsRegPrime rs2 = true ->
  produces (c_xor rd rd rs2) s (fun r => xset r rd (r rd .^ r rs2)).
Proof.
  intros HC K0 K1.
  destruct (CAword_reads 0 1 ltac:(lia) ltac:(lia) rd rs2) as (Hb & Hlo & _); [done || lia..|].
  eapply parcel_produces; [by apply c_xor_emits | done | by rewrite Hlo |].
  intros st. by apply interpret_c_xor.
Qed.

Lemma c_or_produces s rd rs2 : Supports RV_C s = true ->
  IsRegPrime rd = true -> IsRegPrime rs2 = true ->
  produces (c_or rd rd rs2) s (fun r => xset r rd (r rd .| r rs2)).
Proof.
  intros HC K0 K1.
  destruct (CAword_reads 0 2 ltac:(lia) ltac:(lia) rd rs2) as (Hb & Hlo & _); [done || lia..|].
  eapply parcel_produces; [by apply c_or_emits | done | by rewrite Hlo |].
  intros st. by apply interpret_c_or.
Qed.

Lemma c_and_produces s rd rs2 : Supports RV_C s = true ->
  IsRegPrime rd = true -> IsRegPrime rs2 = true ->
  produces (c_and rd rd rs2) s (fun r => xset r rd (r rd .& r rs2)).
Proof.
  intros HC K0 K1.
  destruct (CAword_reads 0 3 ltac:(lia) ltac:(lia) rd rs2) as (Hb & Hlo & _); [done || lia..|].
  eapply parcel_produces; [by apply c_and_emits | done | by rewrite Hlo |].
  intros st. by apply interpret_c_and.
Qed.

Lemma c_subw_produces s rd rs2 : Supports RV_C s = true ->
  IsRegPrime rd = true -> IsRegPrime rs2 = true ->
  produces (c_subw rd rd rs2) s
    (fun r => xset r rd (sign_extend_uint32 (uint32 (uint32 (r rd) - uint32 (r rs2))))).
Proof.
  intros HC K0 K1.
  destruct (CAword_reads 1 0 ltac:(lia) ltac:(lia) rd rs2) as (Hb & Hlo & _); [done || lia..|].
  eapply parcel_produces; [by apply c_subw_emits | done | by rewrite Hlo |].
  intros st. by apply interpret_c_subw.
Qed.

Lemma c_addw_produces s rd rs2 : Supports RV_C s = true ->
  IsRegPrime rd = true -> IsRegPrime rs2 = true ->
  produces (c_addw rd rd rs2) s
    (fun r => xset r rd (sign_extend_uint32 (uint32 (uint32 (r rd) + uint32 (r rs2))))).
Proof.
  intros HC K0 K1.
  destruct (CAword_reads 1 1 ltac:(lia) ltac:(lia) rd rs2) as (Hb & Hlo & _); [done || lia..|].
  eapply parcel_produces; [by apply c_addw_emits | done | by rewrite Hlo |].
  intros st. by apply interpret_c_addw.
Qed.

Lemma c_nop_produces s : Supports RV_C s = true -> produces c_nop s (fun r => r).
Proof.
  intros HC. eapply (produces_parcel _ s (CIword 0 1 0 0)); [by apply c_nop_emits | done | done | done |].
  intros st. rewrite interpret_c_addi; [done | done | by apply IsCIImm_spec].
Qed.

(** The general forms, and the two emitters whose source has a guard. *)
Lemma addi_computes rd rs1 imm : 0 <= rd < 32 -> 0 <= rs1 < 32 -> IsITypeImm imm = true ->
  computes 1 (addi rd rs1 imm) (fun r => xset r rd (r rs1 + imm)).
Proof.
  intros Hd Hs1 Hi. unfold addi. open_emitter Hs. guards; subst.
  - eapply produces_ext; [|by apply c_li_produces].
    intros r [Hr0 _]. cbn beta. by rewrite Hr0.
  - by apply c_addi_produces.
  - by apply c_addi16sp_produces.
  - by apply c_addi4spn_produces.
  - by apply c_nop_produces.
  - eapply produces_ext; [|by apply c_mv_produces].
    intros r _. cbn beta. by rewrite Z.add_0_r.
  - eapply Iword_produces; [by apply EmitIType_emits; wside | wside.. |].
    intros st. by apply interpret_addi.
Qed.

Lemma andi_computes rd rs1 imm : 0 <= rd < 32 -> 0 <= rs1 < 32 -> IsITypeImm imm = true ->
  computes 1 (andi rd rs1 imm) (fun r => xset r rd (r rs1 .& uintx imm)).
Proof.
  intros Hd Hs1 Hi. unfold andi. open_emitter Hs. guards; subst.
  - by apply c_andi_produces.
  - eapply Iword_produces; [by apply EmitIType_emits; wside | wside.. |].
    intros st. by apply interpret_andi.
Qed.

Lemma EmitRType_shamt_emits funct6 amount rs1 funct3 rd opcode s :
  0 <= funct6 < 64 -> 0 <= amount < XLEN -> 0 <= rs1 < 32 -> 0 <= funct3 < 8 ->
  0 <= rd < 32 -> 0 <= opcode < 128 ->
  emits (EmitRType_shamt (2 * funct6) amount rs1 funct3 rd opcode) s
    (le_bytes 4 (Shiftword funct6 amount rs1 funct3 rd opcode)).
Proof.
  intros H6 Ha Hs1 H3 Hd Ho. unfold emits, EmitRType_shamt.
  erewrite lift_bind; [|apply (EncodeFunct_ok _ _ _ 7); done || lia].
  erewrite lift_bind; [|unfold EncodeShamt, XLEN in *; destruct TARGET_64;
    [apply (EncodeFunct_ok _ _ _ 6); done || lia | apply (EncodeFunct_ok _ _ _ 5); done || lia]].
  erewrite lift_bind; [|by apply EncodeReg_ok; lia].
  erewrite lift_bind; [|apply (EncodeFunct_ok _ _ _ 3); done || lia].
  erewrite lift_bind; [|by apply EncodeReg_ok; lia].
  erewrite lift_bind; [|apply (EncodeFunct_ok _ _ _ 7); done || lia].
  rewrite Z.lor_0_l. replace ((2 * funct6) << 25) with (funct6 << 26)
    by (rewrite !Z.shiftl_mul_pow2; lia).
  by apply Emit32_word, Shiftword_reads.
Qed.

Lemma Shiftword_produces m s funct6 amount rs1 funct3 rd f :
  emits m s (le_bytes 4 (Shiftword funct6 amount rs1 funct3 rd Opcode.OPIMM)) ->
  0 <= funct6 < 64 -> 0 <= amount < XLEN -> 0 <= rs1 < 32 -> 0 <= funct3 < 8 ->
  0 <= rd < 32 ->
  (forall st, Interpret st (Shiftword funct6 amount rs1 funct3 rd Opcode.OPIMM) =
     Ok (pc_add (with_xregs st (xset (xregs_ st) rd (f (xregs_ st)))) 4)) ->
  produces m s (fun r => xset r rd (f r)).
Proof.
  intros E ? ? ? ? ? HI.
  destruct (Shiftword_reads funct6 amount rs1 funct3 rd Opcode.OPIMM) as (Hb & Ho & _); [wside..|].
  eapply produces_word; [done | done | by rewrite Ho | | done].
  intros r Hr. by apply xset_wf.
Qed.

(** A compressed shift amount has its sign bit clear. *)
Lemma compressed_amount amount : 0 < amount -> IsCIImm amount = true -> 0 < amount < 32.
Proof. intros Ha Hi%IsCIImm_spec. lia. Qed.

Lemma slli_computes rd rs1 amount : 0 <= rd < 32 -> 0 <= rs1 < 32 -> 0 < amount < XLEN ->
  computes 1 (slli rd rs1 amount) (fun r => xset r rd (r rs1 << amount)).
Proof.
  intros Hd Hs1 Ha. unfold slli. open_emitter Hs. guards; subst.
  - apply c_slli_produces; [done | done | by apply compressed_amount; lia || done | done].
  - eapply Shiftword_produces; [by apply (EmitRType_shamt_emits 0); wside | wside.. |].
    intros st. apply interpret_slli; lia.
Qed.

Lemma srli_computes rd rs1 amount : 0 <= rd < 32 -> 0 <= rs1 < 32 -> 0 < amount < XLEN ->
  computes 1 (srli rd rs1 amount) (fun r => xset r rd (r rs1 >> amount)).
Proof.
  intros Hd Hs1 Ha. unfold srli. open_emitter Hs. guards; subst.
  - apply c_srli_produces; [done | done | by apply compressed_amount; lia || done | done].
  - eapply Shiftword_produces; [by apply (EmitRType_shamt_emits 0); wside | wside.. |].
    intros st. apply interpret_srli; lia.
Qed.

Lemma srai_computes rd rs1 amount : 0 <= rd < 32 -> 0 <= rs1 < 32 -> 0 < amount < XLEN ->
  computes 1 (srai rd rs1 amount) (fun r => xset r rd (intx (r rs1) >> amount)).
Proof.
  intros Hd Hs1 Ha. unfold srai. open_emitter Hs. guards; subst.
  - apply c_srai_produces; [done | done | by apply compressed_amount; lia || done | done].
  - eapply Shiftword_produces; [by apply (EmitRType_shamt_emits 16); wside | wside.. |].
    intros st. apply interpret_srai; lia.
Qed.

(** Without the two guards the compressed form would be a jump; see [Findings]. *)
Lemma add_computes rd rs1 rs2 : 0 <= rd < 32 -> 0 <= rs1 < 32 -> 0 <= rs2 < 32 ->
  rd <> ZR -> rs1 <> ZR -> rs2 <> ZR ->
  computes 1 (add rd rs1 rs2) (fun r => xset r rd (r rs1 + r rs2)).
Proof.
  intros Hd Hs1 Hs2 Hz Hz1 Hz2. unfold add. open_emitter Hs. guards; subst.
  - by apply c_add_produces.
  - eapply produces_ext; [|by apply c_add_produces]. intros r _. cbn beta. f_equal. lia.
  - eapply Rword_produces; [by apply EmitRType_emits; wside | wside.. |].
    intros st. by apply interpret_add.
Qed.

Lemma sub_computes rd rs1 rs2 : 0 <= rd < 32 -> 0 <= rs1 < 32 -> 0 <= rs2 < 32 ->
  computes 1 (sub rd rs1 rs2) (fun r => xset r rd (r rs1 - r rs2)).
Proof.
  intros Hd Hs1 Hs2. unfold sub. open_emitter Hs. guards; subst.
  - by apply c_sub_produces.
  - eapply Rword_produces; [by apply EmitRType_emits; wside | wside.. |].
    intros st. by apply interpret_sub.
Qed.

Lemma xor_computes rd rs1 rs2 : 0 <= rd < 32 -> 0 <= rs1 < 32 -> 0 <= rs2 < 32 ->
  computes 1 (xor_ rd rs1 rs2) (fun r => xset r rd (r rs1 .^ r rs2)).
Proof.
  intros Hd Hs1 Hs2. unfold xor_. open_emitter Hs. guards; subst.
  - by apply c_xor_produces.
  - eapply produces_ext; [|by apply c_xor_produces].
    intros r _. cbn beta. by rewrite Z.lxor_comm.
  - eapply Rword_produces; [by apply EmitRType_emits; wside | wside.. |].
    intros st. by apply interpret_xor.
Qed.

Lemma or_computes rd rs1 rs2 : 0 <= rd < 32 -> 0 <= rs1 < 32 -> 0 <= rs2 < 32 ->
  computes 1 (or_ rd rs1 rs2) (fun r => xset r rd (r rs1 .| r rs2)).
Proof.
  intros Hd Hs1 Hs2. unfold or_. open_emitter Hs. guards; subst.
  - by apply c_or_produces.
  - eapply produces_ext; [|by apply c_or_produces].
    intros r _. cbn beta. by rewrite Z.lor_comm.
  - eapply Rword_produces; [by apply EmitRType_emits; wside | wside.. |].
    intros st. by apply interpret_or.
Qed.

Lemma and_computes rd rs1 rs2 : 0 <= rd < 32 -> 0 <= rs1 < 32 -> 0 <= rs2 < 32 ->
  computes 1 (and_ rd rs1 rs2) (fun r => xset r rd (r rs1 .& r rs2)).
Proof.
  intros Hd Hs1 Hs2. unfold and_. open_emitter Hs. guards; subst.
  - by apply c_and_produces.
  - eapply produces_ext; [|by apply c_and_produces].
    intros r _. cbn beta. by rewrite Z.land_comm.
  - eapply Rword_produces; [by apply EmitRType_emits; wside | wside.. |].
    intros st. by apply interpret_and.
Qed.

(** A zero immediate would take the reserved encoding of [c.lui]; see [Findings]. *)
Lemma lui_computes rd imm : 0 <= rd < 32 -> - 2 ^ 31 <= imm < 2 ^ 31 -> imm mod 4096 = 0 ->
  imm <> 0 -> computes 1 (lui rd imm) (fun r => xset r rd imm).
Proof.
  intros Hd Hi Ha Hn. unfold lui. open_emitter Hs. guards; subst.
  - by apply c_lui_produces.
  - eapply produces_word; [apply EmitUType_emits; [lia | wside | by apply IsUTypeImm_ok]
      | apply Uword_bound; wside | by rewrite Uword_opcode by wside | |].
    + intros r Hr. by apply xset_wf.
    + intros st. apply interpret_lui; [lia | lia |]. by apply (aligned_spec imm 12).
Qed.

Lemma addiw_computes rd rs1 imm : TARGET_64 = true ->
  0 <= rd < 32 -> 0 <= rs1 < 32 -> IsITypeImm imm = true ->
  computes 1 (addiw rd rs1 imm)
    (fun r => xset r rd (sign_extend_uint32 (uint32 (uint32 (r rs1) + uint32 imm)))).
Proof.
  intros H64 Hd Hs1 Hi. unfold addiw. open_emitter Hs. guards; subst.
  - eapply produces_ext; [|by apply c_li_produces].
    intros r [Hr0 _]. cbn beta. rewrite Hr0. apply xset_eq.
    match goal with Hc : IsCIImm imm = true |- _ => apply IsCIImm_spec in Hc end.
    unfold sign_extend_uint32, int32, uint32, intx, uintx. rewrite uwrap_add_r by lia.
    change (uwrap 32 0) with 0. rewrite Z.add_0_l, (swrap_uwrap 32 eq_refl).
    rewrite (swrap_small 32 eq_refl), uwrap_swrap by (lia || apply XLEN_pos). done.
  - by apply c_addiw_produces.
  - eapply Iword_produces; [by apply EmitIType_emits; wside | wside.. |].
    intros st. by apply interpret_addiw.
Qed.
End Compressible.
