(* ===== verification/Macros.v ===== *)
(** * The macro assembler

    The methods of [class Assembler]
    ([src/runtime/vm/compiler/assembler/assembler_riscv.{h,cc}]) that load constants,
    combine a register with a constant, save and restore registers, compare and branch,
    access memory at arbitrary offsets, and compute with an overflow check.  They are
    written with the emitters of [MicroAssembler] only.

    The recursion of [LoadImmediate] runs with fuel: every level removes twelve bits of
    the constant, so four levels are enough for a 64-bit one. *)
From S2P Require Import Prelude Utils Constants Memory AsmState MicroAssembler.

Inductive OperandSize :=
| kByte | kUnsignedByte | kTwoBytes | kUnsignedTwoBytes
| kFourBytes | kUnsignedFourBytes | kEightBytes
| kSWord | kDWord | kWordPair | kRegList | kQWord.

(** [class RegisterSet]: the two bit masks. *)
Record RegisterSet := { cpu_registers_ : Z; fpu_registers_ : Z }.
Definition ContainsRegister (regs : RegisterSet) (reg : Z) : bool :=
  Z.testbit (cpu_registers_ regs) reg.
Definition ContainsFpuRegister (regs : RegisterSet) (reg : Z) : bool :=
  Z.testbit (fpu_registers_ regs) reg.

Section Macros.
Context `{Target}.

(** [target::kWordSize]. *)
Definition kWordSize : Z := XLEN / 8.
Definition kSmiTagSize : Z := 1.
Definition kSmiTagShift : Z := 1.
Definition kSmiTagMask : Z := 1.

Definition CpuRegisterCount (regs : RegisterSet) : Z :=
  Z.of_nat (length (filter (fun r => ContainsRegister regs r = true) (seqZ 0 kNumberOfCpuRegisters))).
Definition FpuRegisterCount (regs : RegisterSet) : Z :=
  Z.of_nat (length (filter (fun r => ContainsFpuRegister regs r = true) (seqZ 0 kNumberOfFpuRegisters))).

(** ** Constants *)

Definition IsInt32 (imm : Z) : bool := IsInt (CType XLEN true) 32 imm.

Fixpoint LoadImmediate_rec (fuel : nat) (reg imm : Z) : asm unit :=
  match fuel with
  | O => fail LoopFuelExhausted
  | S fuel =>
      let lo := split_lo imm in
      let hi := split_hi imm in
      if TARGET_64 && negb (IsInt32 imm) then
        _ ← LoadImmediate_rec fuel reg (intx (imm - lo) >> 12);
        _ ← slli reg reg 12;
        if negb (lo =? 0) then addi reg reg lo else mret tt
      else if hi =? 0 then addi reg ZR lo
      else
        _ ← lui reg hi;
        if negb (lo =? 0) then
          if TARGET_64 then addiw reg reg lo else addi reg reg lo
        else mret tt
  end.

Definition LoadImmediate (reg imm : Z) : asm unit := LoadImmediate_rec 4 reg imm.

Definition AddImmediate (rd rs1 imm : Z) : asm unit :=
  if IsITypeImm imm then addi rd rs1 imm
  else
    _ ← assert (negb (rs1 =? TMP2));
    _ ← LoadImmediate TMP2 imm;
    add rd rs1 TMP2.

Definition AndImmediate (rd rs1 imm : Z) : asm unit :=
  if IsITypeImm imm then andi rd rs1 imm
  else
    _ ← assert (negb (rs1 =? TMP2));
    _ ← LoadImmediate TMP2 imm;
    and_ rd rs1 TMP2.

Definition OrImmediate (rd rs1 imm : Z) : asm unit :=
  if IsITypeImm imm then ori rd rs1 imm
  else
    _ ← assert (negb (rs1 =? TMP2));
    _ ← LoadImmediate TMP2 imm;
    or_ rd rs1 TMP2.

Definition XorImmediate (rd rs1 imm : Z) : asm unit :=
  if IsITypeImm imm then xori rd rs1 imm
  else
    _ ← assert (negb (rs1 =? TMP2));
    _ ← LoadImmediate TMP2 imm;
    xor_ rd rs1 TMP2.

Definition Drop (stack_elements : Z) : asm unit :=
  _ ← assert (0 <=? stack_elements);
  if 0 <? stack_elements then AddImmediate SP SP (stack_elements * kWordSize) else mret tt.

Definition SmiUntag (dst src : Z) : asm unit := srai dst src kSmiTagSize.
Definition SmiTag (dst src : Z) : asm unit := slli dst src kSmiTagSize.

(** ** Saving and restoring registers *)

Definition PushRegister (r : Z) : asm unit :=
  _ ← assert (negb (r =? SP));
  _ ← subi SP SP kWordSize;
  sx r {| base := SP; offset := 0 |}.

Definition PopRegister (r : Z) : asm unit :=
  _ ← assert (negb (r =? SP));
  _ ← lx r {| base := SP; offset := 0 |};
  addi SP SP kWordSize.

Definition PushRegisterPair (r0 r1 : Z) : asm unit :=
  _ ← assert (negb (r0 =? SP));
  _ ← assert (negb (r1 =? SP));
  _ ← subi SP SP (2 * kWordSize);
  _ ← sx r1 {| base := SP; offset := kWordSize |};
  sx r0 {| base := SP; offset := 0 |}.

Definition PopRegisterPair (r0 r1 : Z) : asm unit :=
  _ ← assert (negb (r0 =? SP));
  _ ← assert (negb (r1 =? SP));
  _ ← lx r1 {| base := SP; offset := kWordSize |};
  _ ← lx r0 {| base := SP; offset := 0 |};
  addi SP SP (2 * kWordSize).

(** A loop over registers that stores or loads those in the set, threading the offset. *)
Fixpoint for_registers (l : list Z) (contains : Z -> bool)
    (body : Z -> Z -> asm Z) (offset : Z) : asm Z :=
  match l with
  | [] => mret offset
  | reg :: l =>
      offset ← (if contains reg then body reg offset else mret offset);
      for_registers l contains body offset
  end.

Definition PushRegisters (regs : RegisterSet) : asm unit :=
  let size := CpuRegisterCount regs * kWordSize + FpuRegisterCount regs * kFpuRegisterSize in
  if size =? 0 then mret tt
  else
    _ ← subi SP SP size;
    offset ← for_registers (rev (seqZ 0 kNumberOfFpuRegisters)) (ContainsFpuRegister regs)
               (fun reg offset =>
                  let offset := offset - kFpuRegisterSize in
                  _ ← fsd reg {| base := SP; offset := offset |}; mret offset) size;
    offset ← for_registers (rev (seqZ 0 kNumberOfCpuRegisters)) (ContainsRegister regs)
               (fun reg offset =>
                  let offset := offset - kWordSize in
                  _ ← sx reg {| base := SP; offset := offset |}; mret offset) offset;
    assert (offset =? 0).

Definition PopRegisters (regs : RegisterSet) : asm unit :=
  let size := CpuRegisterCount regs * kWordSize + FpuRegisterCount regs * kFpuRegisterSize in
  if size =? 0 then mret tt
  else
    offset ← for_registers (seqZ 0 kNumberOfCpuRegisters) (ContainsRegister regs)
               (fun reg offset =>
                  _ ← lx reg {| base := SP; offset := offset |}; mret (offset + kWordSize)) 0;
    offset ← for_registers (seqZ 0 kNumberOfFpuRegisters) (ContainsFpuRegister regs)
               (fun reg offset =>
                  _ ← fld reg {| base := SP; offset := offset |};
                  mret (offset + kFpuRegisterSize)) offset;
    _ ← assert (offset =? size);
    addi SP SP size.

Definition NativeCalleeSaved : RegisterSet :=
  {| cpu_registers_ := kAbiPreservedCpuRegs; fpu_registers_ := kAbiPreservedFpuRegs |}.

Definition PushNativeCalleeSavedRegisters : asm unit :=
  let regs := NativeCalleeSaved in
  let size := CpuRegisterCount regs * kWordSize + FpuRegisterCount regs * 8 in
  _ ← subi SP SP size;
  offset ← for_registers (seqZ 0 kNumberOfFpuRegisters) (ContainsFpuRegister regs)
             (fun reg offset =>
                _ ← fsd reg {| base := SP; offset := offset |}; mret (offset + 8)) 0;
  offset ← for_registers (seqZ 0 kNumberOfCpuRegisters) (ContainsRegister regs)
             (fun reg offset =>
                _ ← sx reg {| base := SP; offset := offset |}; mret (offset + kWordSize)) offset;
  assert (offset =? size).

Definition PopNativeCalleeSavedRegisters : asm unit :=
  let regs := NativeCalleeSaved in
  let size := CpuRegisterCount regs * kWordSize + FpuRegisterCount regs * 8 in
  offset ← for_registers (seqZ 0 kNumberOfFpuRegisters) (ContainsFpuRegister regs)
             (fun reg offset =>
                _ ← fld reg {| base := SP; offset := offset |}; mret (offset + 8)) 0;
  offset ← for_registers (seqZ 0 kNumberOfCpuRegisters) (ContainsRegister regs)
             (fun reg offset =>
                _ ← lx reg {| base := SP; offset := offset |}; mret (offset + kWordSize)) offset;
  _ ← assert (offset =? size);
  addi SP SP size.

Definition ReserveAlignedFrameSpace (frame_space : Z) : asm unit :=
  _ ← (if negb (frame_space =? 0) then addi SP SP (- frame_space) else mret tt);
  let kAbiStackAlignment := 16 in
  andi SP SP (Z.lnot (kAbiStackAlignment - 1)).

(** ** Extension and tagging *)

Definition ExtendValue (rd rn : Z) (sz : OperandSize) : asm unit :=
  match sz with
  | kEightBytes =>
      if TARGET_64 then if rd =? rn then mret tt else mv rd rn else fail Unimplemented
  | kUnsignedFourBytes =>
      if TARGET_64 then fail Unimplemented else if rd =? rn then mret tt else mv rd rn
  | kFourBytes =>
      if TARGET_64 then sextw rd rn else if rd =? rn then mret tt else mv rd rn
  | _ => fail Unimplemented
  end.

Definition shift_pair (rd rn bits : Z) (signed : bool) : asm unit :=
  _ ← slli rd rn (XLEN - bits);
  if signed then srai rd rd (XLEN - bits - kSmiTagShift)
  else srli rd rd (XLEN - bits - kSmiTagShift).

Definition ExtendAndSmiTagValue (rd rn : Z) (sz : OperandSize) : asm unit :=
  match sz with
  | kEightBytes => if TARGET_64 then SmiTag rd rn else fail Unimplemented
  | kFourBytes => if TARGET_64 then shift_pair rd rn 32 true else SmiTag rd rn
  | kUnsignedFourBytes => if TARGET_64 then shift_pair rd rn 32 false else fail Unimplemented
  | kUnsignedTwoBytes => shift_pair rd rn 16 false
  | kTwoBytes => shift_pair rd rn 16 true
  | kUnsignedByte => shift_pair rd rn 8 false
  | kByte => shift_pair rd rn 8 true
  | _ => fail Unimplemented
  end.

Definition ExtractClassIdFromTags (result tags : Z) : asm unit :=
  if TARGET_64 then srliw result tags 16 else srli result tags 16.

(** ** Comparisons

    RISC-V has no flags: a comparison is remembered and emitted by the [BranchIf] or
    [SetIf] that consumes it. *)

Definition is_kNone (s : Assembler) : bool := bool_decide (deferred_compare_ s = kNone).

Definition CompareRegisters (rn rm : Z) : asm unit :=
  none ← get is_kNone;
  _ ← assert none;
  modify (fun s => with_deferred s kCompareReg rn rm (deferred_imm_ s)).

Definition TestRegisters (rn rm : Z) : asm unit :=
  none ← get is_kNone;
  _ ← assert none;
  modify (fun s => with_deferred s kTestReg rn rm (deferred_imm_ s)).

Definition TestImmediate (rn imm : Z) : asm unit :=
  none ← get is_kNone;
  _ ← assert none;
  modify (fun s => with_deferred s kTestImm rn (deferred_reg_ s) imm).

Definition CompareImmediate (rn imm : Z) : asm unit :=
  none ← get is_kNone;
  _ ← assert none;
  modify (fun s => with_deferred s kCompareImm rn (deferred_reg_ s) imm).

Definition consume_deferred : asm unit :=
  modify (fun s => with_deferred s kNone (deferred_left_ s) (deferred_reg_ s) (deferred_imm_ s)).

Definition branch_compare (condition left right : Z) (label : nat) (distance : JumpDistance)
    : asm unit :=
  if condition =? Condition.EQUAL then beq left right label distance
  else if condition =? Condition.NOT_EQUAL then bne left right label distance
  else if condition =? Condition.LESS then blt left right label distance
  else if condition =? Condition.LESS_EQUAL then ble left right label distance
  else if condition =? Condition.GREATER_EQUAL then bge left right label distance
  else if condition =? Condition.GREATER then bgt left right label distance
  else if condition =? Condition.UNSIGNED_LESS then bltu left right label distance
  else if condition =? Condition.UNSIGNED_LESS_EQUAL then bleu left right label distance
  else if condition =? Condition.UNSIGNED_GREATER_EQUAL then bgeu left right label distance
  else if condition =? Condition.UNSIGNED_GREATER then bgtu left right label distance
  else if (condition =? Condition.OVERFLOW) || (condition =? Condition.NO_OVERFLOW)
  then fail FatalError
  else fail Unreachable.

Definition branch_test (condition : Z) (label : nat) (distance : JumpDistance) : asm unit :=
  if condition =? Condition.ZERO then beqz TMP2 label distance
  else if condition =? Condition.NOT_ZERO then bnez TMP2 label distance
  else fail Unreachable.

(** The [switch] on the kind of the deferred comparison. *)
Definition branch_deferred (kind : DeferredCompareType) (condition left reg imm : Z)
    (label : nat) (distance : JumpDistance) : asm unit :=
  match kind with
  | kCompareImm =>
      if imm =? 0 then branch_compare condition left ZR label distance
      else
        _ ← LoadImmediate TMP2 imm;
        branch_compare condition left TMP2 label distance
  | kCompareReg => branch_compare condition left reg label distance
  | kTestImm => _ ← AndImmediate TMP2 left imm; branch_test condition label distance
  | kTestReg => _ ← and_ TMP2 left reg; branch_test condition label distance
  | kNone => fail Unreachable
  end.

Definition BranchIf (condition : Z) (label : nat) (distance : JumpDistance) : asm unit :=
  none ← get is_kNone;
  _ ← assert (negb none);
  kind ← get deferred_compare_;
  left ← get deferred_left_;
  reg ← get deferred_reg_;
  imm ← get deferred_imm_;
  _ ← branch_deferred kind condition left reg imm label distance;
  consume_deferred.

(** The three parts of [SetIf]: against a constant that fits, against a register, and the
    bit tests. *)
Definition set_compare_imm (condition rd left right : Z) : asm unit :=
  if condition =? Condition.EQUAL then _ ← xori rd left right; seqz rd rd
  else if condition =? Condition.NOT_EQUAL then _ ← xori rd left right; snez rd rd
  else if condition =? Condition.LESS then slti rd left right
  else if condition =? Condition.LESS_EQUAL then slti rd left (right + 1)
  else if condition =? Condition.GREATER_EQUAL then _ ← slti rd left right; xori rd rd 1
  else if condition =? Condition.GREATER then _ ← slti rd left (right + 1); xori rd rd 1
  else if condition =? Condition.UNSIGNED_LESS then sltiu rd left right
  else if condition =? Condition.UNSIGNED_LESS_EQUAL then sltiu rd left (right + 1)
  else if condition =? Condition.UNSIGNED_GREATER_EQUAL then
    _ ← sltiu rd left right; xori rd rd 1
  else if condition =? Condition.UNSIGNED_GREATER then
    _ ← sltiu rd left (right + 1); xori rd rd 1
  else fail Unreachable.

Definition set_compare_reg (condition rd left right : Z) : asm unit :=
  if condition =? Condition.EQUAL then
    if right =? ZR then seqz rd left else _ ← xor_ rd left right; seqz rd rd
  else if condition =? Condition.NOT_EQUAL then
    if right =? ZR then snez rd left else _ ← xor_ rd left right; snez rd rd
  else if condition =? Condition.LESS then slt rd left right
  else if condition =? Condition.LESS_EQUAL then _ ← slt rd right left; xori rd rd 1
  else if condition =? Condition.GREATER_EQUAL then _ ← slt rd left right; xori rd rd 1
  else if condition =? Condition.GREATER then slt rd right left
  else if condition =? Condition.UNSIGNED_LESS then sltu rd left right
  else if condition =? Condition.UNSIGNED_LESS_EQUAL then _ ← sltu rd right left; xori rd rd 1
  else if condition =? Condition.UNSIGNED_GREATER_EQUAL then
    _ ← sltu rd left right; xori rd rd 1
  else if condition =? Condition.UNSIGNED_GREATER then sltu rd right left
  else fail Unreachable.

Definition set_test (condition rd : Z) : asm unit :=
  if condition =? Condition.ZERO then seqz rd TMP2
  else if condition =? Condition.NOT_ZERO then snez rd TMP2
  else fail Unreachable.

Definition set_deferred (kind : DeferredCompareType) (condition rd left reg imm : Z) : asm unit :=
  match kind with
  | kCompareImm =>
      if imm =? 0 then
        _ ← modify (fun s => with_deferred s kCompareReg left ZR imm);
        set_compare_reg condition rd left ZR
      else if negb (IsITypeImm imm) || negb (IsITypeImm (imm + 1)) then
        _ ← LoadImmediate TMP2 imm;
        _ ← modify (fun s => with_deferred s kCompareReg left TMP2 imm);
        set_compare_reg condition rd left TMP2
      else set_compare_imm condition rd left imm
  | kCompareReg => set_compare_reg condition rd left reg
  | kTestImm => _ ← AndImmediate TMP2 left imm; set_test condition rd
  | kTestReg => _ ← and_ TMP2 left reg; set_test condition rd
  | kNone => fail Unreachable
  end.

Definition SetIf (condition rd : Z) : asm unit :=
  none ← get is_kNone;
  _ ← assert (negb none);
  kind ← get deferred_compare_;
  left ← get deferred_left_;
  reg ← get deferred_reg_;
  imm ← get deferred_imm_;
  _ ← set_deferred kind condition rd left reg imm;
  consume_deferred.

Definition BranchIfZero (rn : Z) (label : nat) (distance : JumpDistance) : asm unit :=
  beqz rn label distance.

Definition BranchIfNotSmi (reg : Z) (label : nat) (distance : JumpDistance) : asm unit :=
  _ ← assert (negb (reg =? TMP2));
  _ ← andi TMP2 reg kSmiTagMask;
  bnez TMP2 label distance.

Definition BranchIfSmi (reg : Z) (label : nat) (distance : JumpDistance) : asm unit :=
  _ ← assert (negb (reg =? TMP2));
  _ ← andi TMP2 reg kSmiTagMask;
  beqz TMP2 label distance.

(** ** Memory accesses at any 32-bit offset *)

(** The common prefix: the address to use, [TMP2] holding the high part if needed. *)
Definition materialize_address (base offset : Z) : asm Address :=
  _ ← assert (negb (base =? TMP2));
  if negb (IsITypeImm offset) then
    let imm := intx offset in
    let lo := split_lo imm in
    let hi := split_hi imm in
    if hi =? 0 then fail Unreachable
    else
      _ ← lui TMP2 hi;
      _ ← add TMP2 TMP2 base;
      mret {| base := TMP2; offset := lo |}
  else mret {| base := base; offset := offset |}.

(** The [switch] on the size. *)
Definition load_sized (dest : Z) (sz : OperandSize) (addr : Address) : asm unit :=
  match sz with
  | kEightBytes => if TARGET_64 then ld dest addr else fail Unreachable
  | kUnsignedFourBytes => if TARGET_64 then lwu dest addr else lw dest addr
  | kFourBytes => lw dest addr
  | kUnsignedTwoBytes => lhu dest addr
  | kTwoBytes => lh dest addr
  | kUnsignedByte => lbu dest addr
  | kByte => lb dest addr
  | _ => fail Unreachable
  end.

Definition store_sized (src : Z) (sz : OperandSize) (addr : Address) : asm unit :=
  match sz with
  | kEightBytes => if TARGET_64 then sd src addr else fail Unreachable
  | kUnsignedFourBytes | kFourBytes => sw src addr
  | kUnsignedTwoBytes | kTwoBytes => sh src addr
  | kUnsignedByte | kByte => sb src addr
  | _ => fail Unreachable
  end.

Definition LoadFromOffset (dest base offset : Z) (sz : OperandSize) : asm unit :=
  addr ← materialize_address base offset; load_sized dest sz addr.

Definition StoreToOffset (src base offset : Z) (sz : OperandSize) : asm unit :=
  addr ← materialize_address base offset; store_sized src sz addr.

Definition LoadSFromOffset (dest base offset : Z) : asm unit :=
  addr ← materialize_address base offset; flw dest addr.
Definition LoadDFromOffset (dest base offset : Z) : asm unit :=
  addr ← materialize_address base offset; fld dest addr.
Definition StoreSToOffset (src base offset : Z) : asm unit :=
  addr ← materialize_address base offset; fsw src addr.
Definition StoreDToOffset (src base offset : Z) : asm unit :=
  addr ← materialize_address base offset; fsd src addr.

(** ** Arithmetic with an overflow check *)

Definition AddImmediateBranchOverflow (rd rs1 imm : Z) (overflow : nat) : asm unit :=
  _ ← assert (negb (rd =? TMP2));
  if rd =? rs1 then
    _ ← mv TMP2 rs1;
    _ ← AddImmediate rd rs1 imm;
    if 0 <? imm then blt rd TMP2 overflow kFarJump
    else if imm <? 0 then bgt rd TMP2 overflow kFarJump
    else mret tt
  else
    _ ← AddImmediate rd rs1 imm;
    if 0 <? imm then blt rd rs1 overflow kFarJump
    else if imm <? 0 then bgt rd rs1 overflow kFarJump
    else mret tt.

Definition SubtractImmediateBranchOverflow (rd rs1 imm : Z) (overflow : nat) : asm unit :=
  AddImmediateBranchOverflow rd rs1 (intx (- imm)) overflow.

Definition MultiplyImmediateBranchOverflow (rd rs1 imm : Z) (overflow : nat) : asm unit :=
  _ ← assert (negb (rd =? TMP));
  _ ← assert (negb (rd =? TMP2));
  _ ← assert (negb (rs1 =? TMP));
  _ ← assert (negb (rs1 =? TMP2));
  _ ← LoadImmediate TMP2 imm;
  _ ← mulh TMP rs1 TMP2;
  _ ← mul rd rs1 TMP2;
  _ ← srai TMP2 rd (XLEN - 1);
  bne TMP TMP2 overflow kFarJump.

(** The six assertions that start the three-register forms. *)
Definition assert_no_temps (rd rs1 rs2 : Z) : asm unit :=
  _ ← assert (negb (rd =? TMP));
  _ ← assert (negb (rd =? TMP2));
  _ ← assert (negb (rs1 =? TMP));
  _ ← assert (negb (rs1 =? TMP2));
  _ ← assert (negb (rs2 =? TMP));
  assert (negb (rs2 =? TMP2)).

Definition AddBranchOverflow (rd rs1 rs2 : Z) (overflow : nat) : asm unit :=
  _ ← assert_no_temps rd rs1 rs2;
  if (rd =? rs1) && (rd =? rs2) then
    _ ← assert (rs1 =? rs2);
    _ ← mv TMP rs1;
    _ ← add rd rs1 rs2;
    _ ← xor_ TMP TMP rd;
    bltz TMP overflow kFarJump
  else if rs1 =? rs2 then
    _ ← assert (negb (rd =? rs1));
    _ ← assert (negb (rd =? rs2));
    _ ← add rd rs1 rs2;
    _ ← xor_ TMP rd rs1;
    bltz TMP overflow kFarJump
  else if rd =? rs1 then
    _ ← assert (negb (rs1 =? rs2));
    _ ← slti TMP rs1 0;
    _ ← add rd rs1 rs2;
    _ ← slt TMP2 rd rs2;
    bne TMP TMP2 overflow kFarJump
  else if rd =? rs2 then
    _ ← assert (negb (rs1 =? rs2));
    _ ← slti TMP rs2 0;
    _ ← add rd rs1 rs2;
    _ ← slt TMP2 rd rs1;
    bne TMP TMP2 overflow kFarJump
  else
    _ ← add rd rs1 rs2;
    _ ← slti TMP rs2 0;
    _ ← slt TMP2 rd rs1;
    bne TMP TMP2 overflow kFarJump.

Definition SubtractBranchOverflow (rd rs1 rs2 : Z) (overflow : nat) : asm unit :=
  _ ← assert_no_temps rd rs1 rs2;
  if (rd =? rs1) && (rd =? rs2) then
    _ ← assert (rs1 =? rs2);
    _ ← mv TMP rs1;
    _ ← sub rd rs1 rs2;
    _ ← xor_ TMP TMP rd;
    bltz TMP overflow kFarJump
  else if rs1 =? rs2 then
    _ ← assert (negb (rd =? rs1));
    _ ← assert (negb (rd =? rs2));
    _ ← sub rd rs1 rs2;
    _ ← xor_ TMP rd rs1;
    bltz TMP overflow kFarJump
  else if rd =? rs1 then
    _ ← assert (negb (rs1 =? rs2));
    _ ← slti TMP rs1 0;
    _ ← sub rd rs1 rs2;
    _ ← slt TMP2 rd rs2;
    bne TMP TMP2 overflow kFarJump
  else if rd =? rs2 then
    _ ← assert (negb (rs1 =? rs2));
    _ ← slti TMP rs2 0;
    _ ← sub rd rs1 rs2;
    _ ← slt TMP2 rd rs1;
    bne TMP TMP2 overflow kFarJump
  else
    _ ← sub rd rs1 rs2;
    _ ← slti TMP rs2 0;
    _ ← slt TMP2 rs1 rd;
    bne TMP TMP2 overflow kFarJump.

Definition MultiplyBranchOverflow (rd rs1 rs2 : Z) (overflow : nat) : asm unit :=
  _ ← assert_no_temps rd rs1 rs2;
  _ ← mulh TMP rs1 rs2;
  _ ← mul rd rs1 rs2;
  _ ← srai TMP2 rd (XLEN - 1);
  bne TMP TMP2 overflow kFarJump.
End Macros.
