(* ===== verification/ObjectHeader.v ===== *)
(** * Object headers

    [class BitField] of [src/runtime/vm/bitfield.h], the header word of a heap object
    ([class UntaggedObject] of [src/runtime/vm/raw_object.h]), the alignment of new and old
    objects ([src/runtime/vm/pointer_tagging.h]) and the numbers of the predefined classes
    ([src/runtime/vm/class_id.h]).  The storage type of every field is [uword]. *)
From S2P Require Import Prelude Utils Constants Words Exec Macros.
From Stdlib Require Import String.

(** ** Bit fields *)

Record BitField := { Type_ : ctype; position : Z; size : Z }.

Definition bool_t : ctype := CType 1 false.

Section BitFields.
Context `{Target}.

Definition mask (f : BitField) : Z := uintx (uintx (1 << size f) - 1).
Definition mask_in_place (f : BitField) : Z := uintx (mask f << position f).

Definition encode_unchecked (f : BitField) (value : Z) : Z :=
  uintx ((uintx value .& mask f) << position f).

(** [decode] of a field that does not sign extend. *)
Definition decode (f : BitField) (value : Z) : Z :=
  cast (Type_ f) ((uintx value >> position f) .& mask f).

(** [decode] of a field that does. *)
Definition decode_signed (f : BitField) (value : Z) : Z :=
  let u := uint64 value in
  cast (Type_ f) (swrap 64 (u << (64 - (position f + size f))) >> (64 - size f)).

Definition is_valid (f : BitField) (value : Z) : bool := decode f (encode_unchecked f value) =? value.

Definition encode (f : BitField) (value : Z) : result Z :=
  _ ← ASSERT (is_valid f value); Ok (encode_unchecked f value).

Definition update (f : BitField) (value original : Z) : result Z :=
  e ← encode f value;
  Ok (e .| (uintx (Z.lnot (mask_in_place f)) .& original)).

(** [AtomicBitFieldContainer]: one atomic read-modify-write each. *)
Definition UpdateBool (f : BitField) (value : bool) (field : Z) : Z :=
  if value then field .| encode_unchecked f 1
  else field .& uintx (Z.lnot (encode_unchecked f 1)).
Definition TryAcquire (f : BitField) (field : Z) : bool * Z :=
  (decode f field =? 0, field .| encode_unchecked f 1).
Definition TryClear (f : BitField) (field : Z) : bool * Z :=
  (negb (decode f field =? 0), field .& uintx (Z.lnot (encode_unchecked f 1))).

(** The [static_assert] of the template, and values the field can hold. *)
Definition field_wf (f : BitField) : Prop :=
  0 <= position f /\ 0 < size f /\ position f + size f <= XLEN /\ size f < XLEN /\
  (if is_signed (Type_ f) then size f < bits_of (Type_ f) else size f <= bits_of (Type_ f)).

Definition disjoint_fields (f g : BitField) : Prop :=
  position f + size f <= position g \/ position g + size g <= position f.

Lemma mask_ones f : field_wf f -> mask f = Z.ones (size f).
Proof.
  intros (Hp & Hs & Hb & Hx & _). unfold mask. rewrite Z.shiftl_1_l.
  assert (1 <= 2 ^ size f < 2 ^ XLEN) by (split; [apply (Z.pow_le_mono_r 2 0) | apply Z.pow_lt_mono_r]; lia).
  rewrite (uintx_small (2 ^ size f)), uintx_small, Z.ones_equiv by lia. lia.
Qed.

Lemma encode_fits f v : field_wf f -> 0 <= v < 2 ^ size f -> encode_unchecked f v = v << position f.
Proof.
  intros Hf Hv. unfold encode_unchecked. rewrite mask_ones by done. destruct Hf as (Hp & Hs & Hb & Hx & _).
  assert (2 ^ size f * 2 ^ position f <= 2 ^ XLEN)
    by (rewrite <- Z.pow_add_r by lia; apply Z.pow_le_mono_r; lia).
  assert (0 < 2 ^ position f) by (apply Z.pow_pos_nonneg; lia).
  rewrite (uintx_small v) by nia. rewrite Z.land_ones, Z.mod_small by lia.
  rewrite Z.shiftl_mul_pow2 by lia. apply uintx_small. nia.
Qed.

Lemma decode_bits f v : field_wf f -> 0 <= v < 2 ^ XLEN ->
  decode f v = (v >> position f) .& Z.ones (size f).
Proof.
  intros Hf Hv. unfold decode. rewrite mask_ones, uintx_small by done.
  destruct Hf as (Hp & Hs & Hb & Hx & Ht). unfold cast. rewrite Z.land_ones by lia.
  pose proof (Z.mod_pos_bound (v >> position f) (2 ^ size f)).
  assert (0 < 2 ^ size f) by (apply Z.pow_pos_nonneg; lia).
  destruct (is_signed (Type_ f)).
  - assert (2 ^ size f <= 2 ^ (bits_of (Type_ f) - 1)) by (apply Z.pow_le_mono_r; lia).
    apply swrap_small; lia.
  - assert (2 ^ size f <= 2 ^ bits_of (Type_ f)) by (apply Z.pow_le_mono_r; lia).
    apply uwrap_small; lia.
Qed.

Lemma encode_bound f v : 0 <= encode_unchecked f v < 2 ^ XLEN.
Proof. apply uintx_bound. Qed.

Lemma decode_encode f v : field_wf f -> 0 <= v < 2 ^ size f -> decode f (encode_unchecked f v) = v.
Proof.
  intros Hf Hv. pose proof (encode_bound f v). rewrite decode_bits by done.
  rewrite encode_fits by done. destruct Hf as (Hp & Hs & _).
  rewrite Z.shiftr_shiftl_l, Z.sub_diag, Z.shiftl_0_r by lia.
  by rewrite Z.land_ones, Z.mod_small by lia.
Qed.

Lemma encode_valid f v : field_wf f -> 0 <= v < 2 ^ size f -> encode f v = Ok (v << position f).
Proof.
  intros Hf Hv. unfold encode. rewrite ASSERT_bind; [by rewrite encode_fits|].
  unfold is_valid. apply Z.eqb_eq. by apply decode_encode.
Qed.

(** A value has no bit past its width. *)
Lemma testbit_above v n i : 0 <= v < 2 ^ n -> 0 <= n <= i -> Z.testbit v i = false.
Proof. intros Hv Hn. rewrite <- (Z.mod_small v (2 ^ n)) by done. apply Z.mod_pow2_bits_high. lia. Qed.

Lemma land_word n a b : 0 <= n -> 0 <= a < 2 ^ n -> 0 <= a .& b < 2 ^ n.
Proof.
  intros Hn Ha. rewrite <- (Z.mod_small a (2 ^ n)), <- Z.land_ones by done.
  rewrite <- Z.land_assoc, (Z.land_comm (Z.ones n)), Z.land_assoc, Z.land_ones by done.
  apply Z.mod_pos_bound. by apply Z.pow_pos_nonneg.
Qed.

(** The bits of an updated word. *)
Lemma testbit_mask f i : field_wf f -> 0 <= i ->
  Z.testbit (mask_in_place f) i = (position f <=? i) && (i <? position f + size f).
Proof.
  intros Hf Hi. unfold mask_in_place. rewrite mask_ones by done. destruct Hf as (Hp & Hs & Hb & _).
  unfold uintx. rewrite (testbit_uwrap _ XLEN_pos), Z.shiftl_spec by lia.
  destruct (Z.leb_spec (position f) i).
  - rewrite Z.testbit_ones_nonneg by lia.
    destruct (Z.ltb_spec i XLEN), (Z.ltb_spec (i - position f) (size f)), (Z.ltb_spec i (position f + size f)); lia.
  - rewrite Z.testbit_neg_r by lia. by rewrite andb_false_r.
Qed.

Lemma update_bits f v o o' i : field_wf f -> 0 <= v < 2 ^ size f -> 0 <= i < XLEN ->
  update f v o = Ok o' ->
  Z.testbit o' i = if (position f <=? i) && (i <? position f + size f)
                   then Z.testbit v (i - position f) else Z.testbit o i.
Proof.
  intros Hf Hv Hi. unfold update. rewrite encode_valid by done. intros [= <-].
  rewrite Z.lor_spec, Z.land_spec, Z.shiftl_spec by lia.
  unfold uintx. rewrite (testbit_uwrap _ XLEN_pos), Z.lnot_spec, testbit_mask by (done || lia).
  rewrite (proj2 (Z.ltb_lt i XLEN)) by lia. pose proof Hf as (Hp & Hs & _).
  destruct (Z.leb_spec (position f) i), (Z.ltb_spec i (position f + size f)); cbn [andb negb].
  - by rewrite orb_false_r.
  - rewrite (testbit_above v (size f)); [done | done | lia].
  - rewrite Z.testbit_neg_r by lia. done.
  - rewrite Z.testbit_neg_r by lia. done.
Qed.
End BitFields.

(** ** The header word *)

Definition kCardRememberedBit : Z := 0.
Definition kOldAndNotMarkedBit : Z := 1.
Definition kNewBit : Z := 2.
Definition kOldBit : Z := 3.
Definition kOldAndNotRememberedBit : Z := 4.
Definition kCanonicalBit : Z := 5.
Definition kReservedTagPos : Z := 6.
Definition kReservedTagSize : Z := 2.
Definition kSizeTagPos : Z := kReservedTagPos + kReservedTagSize.
Definition kSizeTagSize : Z := 8.
Definition kClassIdTagPos : Z := kSizeTagPos + kSizeTagSize.
Definition kClassIdTagSize : Z := 16.
Definition kHashTagPos : Z := kClassIdTagPos + kClassIdTagSize.
Definition kHashTagSize : Z := 32.

Definition kGenerationalBarrierMask : Z := 1 << kNewBit.
Definition kIncrementalBarrierMask : Z := 1 << kOldAndNotMarkedBit.
Definition kBarrierOverlapShift : Z := 2.

Definition flag (p : Z) : BitField := {| Type_ := bool_t; position := p; size := 1 |}.
Definition CardRememberedBit := flag kCardRememberedBit.
Definition OldAndNotMarkedBit := flag kOldAndNotMarkedBit.
Definition NewBit := flag kNewBit.
Definition OldBit := flag kOldBit.
Definition OldAndNotRememberedBit := flag kOldAndNotRememberedBit.
Definition CanonicalBit := flag kCanonicalBit.
Definition ClassIdTag : BitField :=
  {| Type_ := uint16_t; position := kClassIdTagPos; size := kClassIdTagSize |}.
(** Present on 64-bit targets only ([HASH_IN_OBJECT_HEADER]). *)
Definition HashTag : BitField :=
  {| Type_ := uint32_t; position := kHashTagPos; size := kHashTagSize |}.

Section Header.
Context `{Target}.

Definition ReservedBits : BitField :=
  {| Type_ := intptr_t; position := kReservedTagPos; size := kReservedTagSize |}.
Definition SizeBits : BitField :=
  {| Type_ := intptr_t; position := kSizeTagPos; size := kSizeTagSize |}.

(** [struct ObjectAlignment] at the target's word size. *)
Definition kWordSizeLog2 : Z := if TARGET_64 then 3 else 2.
Definition kNewObjectAlignmentOffset : Z := kWordSize.
Definition kOldObjectAlignmentOffset : Z := 0.
Definition kObjectAlignment : Z := 2 * kWordSize.
Definition kObjectAlignmentLog2 : Z := kWordSizeLog2 + 1.
Definition kObjectAlignmentMask : Z := kObjectAlignment - 1.

(** [class SizeTag]. *)
Definition kMaxSizeTag : Z := ((1 << kSizeTagSize) - 1) * kObjectAlignment.
Definition SizeFits (sz : Z) : result bool :=
  _ ← ASSERT (IsAligned sz kObjectAlignment); Ok (sz <=? kMaxSizeTag).
Definition SizeToTagValue (sz : Z) : result Z :=
  _ ← ASSERT (IsAligned sz kObjectAlignment);
  fits ← SizeFits sz;
  Ok (if fits : bool then sz >> kObjectAlignmentLog2 else 0).
Definition TagValueToSize (value : Z) : Z := value << kObjectAlignmentLog2.
Definition SizeTag_encode (sz : Z) : result Z := v ← SizeToTagValue sz; encode SizeBits v.
Definition SizeTag_decode (tag : Z) : Z := TagValueToSize (decode SizeBits tag).
Definition SizeTag_update (sz tag : Z) : result Z := v ← SizeToTagValue sz; update SizeBits v tag.

(** The age of an object is in its address. *)
Definition IsNewObject (addr : Z) : bool := (addr .& kObjectAlignmentMask) =? kNewObjectAlignmentOffset.
Definition IsOldObject (addr : Z) : bool := (addr .& kObjectAlignmentMask) =? kOldObjectAlignmentOffset.

(** The fields of the header. *)
Definition header_fields : list BitField :=
  [CardRememberedBit; OldAndNotMarkedBit; NewBit; OldBit; OldAndNotRememberedBit; CanonicalBit;
   ReservedBits; SizeBits; ClassIdTag] ++ (if TARGET_64 then [HashTag] else []).

Lemma header_fields_wf : Forall field_wf header_fields.
Proof.
  unfold header_fields, field_wf, ReservedBits, SizeBits, intptr_t, XLEN.
  destruct TARGET_64; cbn [app];
    repeat match goal with |- Forall _ _ => constructor end; by vm_compute.
Qed.

Lemma header_fields_disjoint : ForallOrdPairs disjoint_fields header_fields.
Proof.
  unfold header_fields. destruct TARGET_64; cbn [app];
    repeat match goal with
    | |- ForallOrdPairs _ _ => constructor
    | |- Forall _ _ => constructor
    | |- disjoint_fields _ _ => left; by vm_compute
    end.
Qed.

(** Fields that do not overlap are independent. *)
Lemma update_other f g v o o' : field_wf f -> field_wf g -> disjoint_fields f g ->
  0 <= v < 2 ^ size f -> 0 <= o < 2 ^ XLEN -> 0 <= o' < 2 ^ XLEN ->
  update f v o = Ok o' -> decode g o' = decode g o.
Proof.
  intros Hf Hg Hd Hv Ho Ho' Hu. rewrite !decode_bits by done. apply Z.bits_inj'. intros i Hi.
  rewrite !Z.land_spec, !Z.shiftr_spec by lia. destruct Hg as (Hp & Hs & Hb & _).
  destruct (Z.ltb_spec i (size g)).
  - f_equal. rewrite (update_bits f v o o') by (done || lia).
    destruct (Z.leb_spec (position f) (i + position g)),
      (Z.ltb_spec (i + position g) (position f + size f)); [|done..].
    unfold disjoint_fields in Hd. lia.
  - by rewrite Z.testbit_ones_nonneg, (proj2 (Z.ltb_ge _ _)), !andb_false_r by lia.
Qed.

Lemma update_same f v o o' : field_wf f -> 0 <= v < 2 ^ size f -> 0 <= o' < 2 ^ XLEN ->
  update f v o = Ok o' -> decode f o' = v.
Proof.
  intros Hf Hv Ho' Hu. rewrite decode_bits by done. apply Z.bits_inj'. intros i Hi.
  rewrite Z.land_spec, Z.shiftr_spec by lia. pose proof Hf as (Hp & Hs & Hb & _).
  destruct (Z.ltb_spec i (size f)).
  - rewrite (update_bits f v o o') by (done || lia).
    rewrite (proj2 (Z.leb_le _ _)), (proj2 (Z.ltb_lt _ _)) by lia. cbn [andb].
    rewrite Z.add_simpl_r, Z.testbit_ones_nonneg, (proj2 (Z.ltb_lt _ _)) by lia. apply andb_true_r.
  - rewrite Z.testbit_ones_nonneg, (proj2 (Z.ltb_ge _ _)), andb_false_r by lia.
    symmetry. apply (testbit_above v (size f)); [done | lia].
Qed.

Lemma update_word f v o o' : field_wf f -> 0 <= v < 2 ^ size f -> 0 <= o < 2 ^ XLEN ->
  update f v o = Ok o' -> 0 <= o' < 2 ^ XLEN.
Proof.
  intros Hf Hv Ho. unfold update, encode. intros (e & He & [= <-])%result_bind_Ok.
  apply result_bind_Ok in He as (_ & _ & [= <-]).
  pose proof (encode_bound f v). pose proof XLEN_pos.
  assert (0 <= uintx (Z.lnot (mask_in_place f)) .& o < 2 ^ XLEN).
  { rewrite Z.land_comm. apply land_word; [lia | done]. }
  by apply lor_bound; [lia|..].
Qed.
End Header.

(** ** Flags *)

Section Flags.
Context `{Target}.

Lemma XLEN_ge : 32 <= XLEN.
Proof. destruct XLEN_cases as [-> | ->]; lia. Qed.

Lemma flag_wf p : 0 <= p < 32 -> field_wf (flag p).
Proof. intros Hp. pose proof XLEN_ge. unfold field_wf. cbn. lia. Qed.

Lemma decode_flag p v : 0 <= p < 32 -> 0 <= v < 2 ^ XLEN -> decode (flag p) v = Z.b2z (Z.testbit v p).
Proof.
  intros Hp Hv. rewrite decode_bits by (done || by apply flag_wf). cbn [flag position size].
  apply Z.bits_inj'. intros i Hi. rewrite Z.land_spec, Z.shiftr_spec, Z.testbit_ones_nonneg by lia.
  destruct (Z.eq_dec i 0) as [->|Hn].
  - rewrite Z.add_0_l, andb_true_r. by destruct (Z.testbit v p).
  - rewrite (proj2 (Z.ltb_ge i 1)), andb_false_r by lia. symmetry.
    apply (testbit_above _ 1); [|lia]. by destruct (Z.testbit v p).
Qed.

Lemma encode_flag p i : 0 <= p < 32 -> 0 <= i -> Z.testbit (encode_unchecked (flag p) 1) i = (i =? p).
Proof.
  intros Hp Hi. rewrite encode_fits by (done || by apply flag_wf). cbn [flag position].
  rewrite Z.shiftl_1_l. destruct (Z.eqb_spec i p) as [->|Hn].
  - by apply Z.pow2_bits_true.
  - apply Z.pow2_bits_false. lia.
Qed.

Lemma UpdateBool_bits p b v i : 0 <= p < 32 -> 0 <= i < XLEN ->
  Z.testbit (UpdateBool (flag p) b v) i = if i =? p then b else Z.testbit v i.
Proof.
  intros Hp Hi. unfold UpdateBool. destruct b.
  - rewrite Z.lor_spec, encode_flag by lia. destruct (i =? p); [apply orb_true_r | apply orb_false_r].
  - rewrite Z.land_spec. unfold uintx. rewrite (testbit_uwrap _ XLEN_pos), Z.lnot_spec, encode_flag by lia.
    rewrite (proj2 (Z.ltb_lt i XLEN)) by lia. destruct (i =? p); [apply andb_false_r | apply andb_true_r].
Qed.

Lemma UpdateBool_word p b v : 0 <= p < 32 -> 0 <= v < 2 ^ XLEN ->
  0 <= UpdateBool (flag p) b v < 2 ^ XLEN.
Proof.
  intros Hp Hv. pose proof XLEN_pos. unfold UpdateBool. destruct b.
  - apply lor_bound; [lia | done | apply encode_bound].
  - apply land_word; [lia | done].
Qed.

(** Acquiring is testing and setting. *)
Lemma TryClear_spec p v : 0 <= p < 32 -> 0 <= v < 2 ^ XLEN ->
  TryClear (flag p) v = (Z.testbit v p, UpdateBool (flag p) false v).
Proof. intros Hp Hv. unfold TryClear. rewrite decode_flag by done. by destruct (Z.testbit v p). Qed.

Lemma TryAcquire_spec p v : 0 <= p < 32 -> 0 <= v < 2 ^ XLEN ->
  TryAcquire (flag p) v = (negb (Z.testbit v p), UpdateBool (flag p) true v).
Proof. intros Hp Hv. unfold TryAcquire. rewrite decode_flag by done. by destruct (Z.testbit v p). Qed.

(** ** Sizes *)

Lemma kObjectAlignment_pow : kObjectAlignment = 2 ^ kObjectAlignmentLog2.
Proof. unfold kObjectAlignment, kObjectAlignmentLog2, kWordSizeLog2, kWordSize, XLEN. by destruct TARGET_64. Qed.

Lemma SizeBits_wf : field_wf SizeBits.
Proof. pose proof header_fields_wf as Hw. unfold header_fields in Hw. by repeat (apply Forall_cons_iff in Hw as [? Hw]). Qed.

Lemma size_tag_value sz : 0 <= sz -> sz mod kObjectAlignment = 0 ->
  SizeToTagValue sz = Ok (if sz <=? kMaxSizeTag then sz / kObjectAlignment else 0).
Proof.
  intros Hs Ha. unfold SizeToTagValue, SizeFits.
  assert (IsAligned sz kObjectAlignment = true) as E.
  { unfold IsAligned. rewrite kObjectAlignment_pow in *.
    assert (0 <= kObjectAlignmentLog2) by (unfold kObjectAlignmentLog2, kWordSizeLog2; by destruct TARGET_64).
    replace (2 ^ kObjectAlignmentLog2 - 1) with (Z.ones kObjectAlignmentLog2) by (rewrite Z.ones_equiv; lia).
    by rewrite Z.land_ones, Ha. }
  rewrite !ASSERT_bind by done. cbn [mbind result_bind]. rewrite kObjectAlignment_pow.
  rewrite Z.shiftr_div_pow2; [done|]. unfold kObjectAlignmentLog2, kWordSizeLog2. by destruct TARGET_64.
Qed.

Lemma size_tag_roundtrip sz : 0 <= sz <= kMaxSizeTag -> sz mod kObjectAlignment = 0 ->
  exists tag, SizeTag_encode sz = Ok tag /\ SizeTag_decode tag = sz.
Proof.
  intros Hs Ha. unfold SizeTag_encode. rewrite size_tag_value, (proj2 (Z.leb_le _ _)) by lia.
  cbn [mbind result_bind].
  assert (0 < kObjectAlignment) by (unfold kObjectAlignment, kWordSize, XLEN; by destruct TARGET_64).
  assert (0 <= sz / kObjectAlignment < 2 ^ size SizeBits) as Hv.
  { split; [apply Z.div_pos; lia|]. apply Z.div_lt_upper_bound; [done|].
    unfold kMaxSizeTag in Hs. change (2 ^ size SizeBits) with 256.
    change ((1 << kSizeTagSize) - 1) with 255 in Hs. lia. }
  rewrite encode_valid by (done || apply SizeBits_wf). eexists. split; [done|].
  unfold SizeTag_decode, TagValueToSize. rewrite <- encode_fits, decode_encode by (done || apply SizeBits_wf).
  rewrite Z.shiftl_mul_pow2, <- kObjectAlignment_pow
    by (unfold kObjectAlignmentLog2, kWordSizeLog2; by destruct TARGET_64).
  pose proof (Z.div_mod sz kObjectAlignment). lia.
Qed.
End Flags.

(** ** Class numbers *)

Open Scope string_scope.

(** The head of [CLASS_LIST]: [Object], [CLASS_LIST_INTERNAL_ONLY] and
    [CLASS_LIST_INSTANCE_SINGLETONS]. *)
Definition CLASS_LIST_INTERNAL_ONLY : list string :=
  ["Class"; "PatchClass"; "Function"; "TypeParameters"; "ClosureData"; "FfiTrampolineData"; "Field";
   "Script"; "Library"; "Namespace"; "KernelProgramInfo"; "WeakSerializationReference"; "Code";
   "Instructions"; "InstructionsSection"; "InstructionsTable"; "ObjectPool"; "PcDescriptors";
   "CodeSourceMap"; "CompressedStackMaps"; "LocalVarDescriptors"; "ExceptionHandlers"; "Context";
   "ContextScope"; "Sentinel"; "SingleTargetCache"; "UnlinkedCall"; "MonomorphicSmiableCall";
   "CallSiteData"; "ICData"; "MegamorphicCache"; "SubtypeTestCache"; "LoadingUnit"; "Error";
   "ApiError"; "LanguageError"; "UnhandledException"; "UnwindError"].
Definition CLASS_LIST_INSTANCE_SINGLETONS : list string :=
  ["Instance"; "LibraryPrefix"; "TypeArguments"; "AbstractType"; "Type"; "FunctionType"; "TypeRef";
   "TypeParameter"; "Closure"; "Number"; "Integer"; "Smi"; "Mint"; "Double"; "Bool"; "Float32x4";
   "Int32x4"; "Float64x2"; "TypedDataBase"; "TypedData"; "ExternalTypedData"; "TypedDataView";
   "Pointer"; "DynamicLibrary"; "Capability"; "ReceivePort"; "SendPort"; "StackTrace"; "RegExp";
   "WeakProperty"; "WeakReference"; "MirrorReference"; "FutureOr"; "UserTag"; "TransferableTypedData"].
(** The classes numbered from [kForwardingCorpse + 1]. *)
Definition class_list : list string :=
  ["Object"] ++ CLASS_LIST_INTERNAL_ONLY ++ CLASS_LIST_INSTANCE_SINGLETONS.

Fixpoint index_from (n : Z) (name : string) (l : list string) : Z :=
  match l with
  | [] => -1
  | x :: l => if String.eqb x name then n else index_from (n + 1) name l
  end.

Definition kForwardingCorpse : Z := 3.
Definition ClassId (name : string) : Z := index_from (kForwardingCorpse + 1) name class_list.
Definition kSmiCid : Z := Eval cbv in ClassId "Smi".
Definition kInstructionsCid : Z := Eval cbv in ClassId "Instructions".
Close Scope string_scope.
