(* ===== verification/PointerBlocks.v ===== *)
(** * Pointer blocks and work lists of the collector

    [PointerBlock], [BlockStack] and [BlockWorkList] of
    [src/runtime/vm/heap/pointer_block.{h,cc}].  A block is the list of its pointers, bottom
    first.  The blocks of a [List] are owned by it and linked through their [next_] fields,
    so a [List] is a list of blocks, head first.  Each method holds its lock for its whole
    body, so it is one atomic step on the state of a stack and of the global cache of empty
    blocks. *)
From S2P Require Import Prelude.

Abbreviation ObjectPtr := Z.
Definition Block := list ObjectPtr.

(** The lists of a [BlockStack], and the global cache for its block size. *)
Record BlockStack := { full_ : list Block; partial_ : list Block }.
Record Stacks := { stack_ : BlockStack; global_empty_ : list Block }.

Definition with_full (s : Stacks) (l : list Block) : Stacks :=
  {| stack_ := {| full_ := l; partial_ := partial_ (stack_ s) |}; global_empty_ := global_empty_ s |}.
Definition with_partial (s : Stacks) (l : list Block) : Stacks :=
  {| stack_ := {| full_ := full_ (stack_ s); partial_ := l |}; global_empty_ := global_empty_ s |}.
Definition with_empty (s : Stacks) (l : list Block) : Stacks :=
  {| stack_ := stack_ s; global_empty_ := l |}.

Section Blocks.
Context `{Target} (kSize : nat).

(** ** [PointerBlock] *)

Definition Block_new : Block := [].
Definition Count (b : Block) : Z := Z.of_nat (length b).
Definition IsFull (b : Block) : bool := Count b =? Z.of_nat kSize.
Definition Block_IsEmpty (b : Block) : bool := Count b =? 0.

(** A push past the end of [pointers_] overwrites memory outside the block. *)
Definition Block_Push (b : Block) (obj : ObjectPtr) : result Block :=
  _ ← ASSERT (negb (IsFull b));
  if (length b <? kSize)%nat then Ok (b ++ [obj]) else Err (HostFault (Count b)).
Definition Block_Pop (b : Block) : result (ObjectPtr * Block) :=
  _ ← ASSERT (negb (Block_IsEmpty b));
  match rev b with obj :: below => Ok (obj, rev below) | [] => Err (HostFault (-1)) end.

(** ** [BlockStack] *)

Definition kMaxGlobalEmpty : nat := 100.

(** [Pop] until at most [kMaxGlobalEmpty] blocks are cached. *)
Fixpoint trim (l : list Block) : list Block :=
  if (kMaxGlobalEmpty <? length l)%nat then match l with [] => [] | _ :: l => trim l end else l.
Definition TrimGlobalEmpty (s : Stacks) : Stacks := with_empty s (trim (global_empty_ s)).

Definition IsEmptyLocked (s : Stacks) : bool :=
  match full_ (stack_ s), partial_ (stack_ s) with [], [] => true | _, _ => false end.

(** The result tells whether a waiting worker was notified. *)
Definition PushBlockImpl (block : Block) (s : Stacks) : bool * Stacks :=
  if IsFull block then (IsEmptyLocked s, with_full s (block :: full_ (stack_ s)))
  else if Block_IsEmpty block then
    (false, TrimGlobalEmpty (with_empty s (block :: global_empty_ s)))
  else (IsEmptyLocked s, with_partial s (block :: partial_ (stack_ s))).

Definition PopEmptyBlock (s : Stacks) : Block * Stacks :=
  match global_empty_ s with
  | b :: l => (b, with_empty s l)
  | [] => (Block_new, s)
  end.

Definition PopNonFullBlock (s : Stacks) : Block * Stacks :=
  match partial_ (stack_ s) with
  | b :: l => (b, with_partial s l)
  | [] => PopEmptyBlock s
  end.

Definition PopNonEmptyBlock (s : Stacks) : option Block * Stacks :=
  match full_ (stack_ s), partial_ (stack_ s) with
  | b :: l, _ => (Some b, with_full s l)
  | [], b :: l => (Some b, with_partial s l)
  | [], [] => (None, s)
  end.

(** [partial_] moves to [full_] block by block; the caller gets the whole list. *)
Fixpoint move_partial (full partial : list Block) : list Block :=
  match partial with [] => full | b :: l => move_partial (b :: full) l end.
Definition TakeBlocks (s : Stacks) : list Block * Stacks :=
  (move_partial (full_ (stack_ s)) (partial_ (stack_ s)), with_partial (with_full s []) []).

Fixpoint reset_blocks (l empty : list Block) : list Block :=
  match l with [] => empty | _ :: l => reset_blocks l (Block_new :: empty) end.
Definition BlockStack_Reset (s : Stacks) : Stacks :=
  let empty := reset_blocks (partial_ (stack_ s)) (reset_blocks (full_ (stack_ s)) (global_empty_ s)) in
  TrimGlobalEmpty (with_empty (with_partial (with_full s []) []) empty).

(** [StoreBuffer::Overflowed]. *)
Definition kMaxNonEmpty : Z := 100.
Definition Overflowed (s : Stacks) : bool :=
  kMaxNonEmpty <? Z.of_nat (length (full_ (stack_ s))) + Z.of_nat (length (partial_ (stack_ s))).

(** [StoreBuffer::VisitObjectPointers]: the pointers in the order they are visited. *)
Definition VisitObjectPointers (s : Stacks) : list ObjectPtr :=
  concat (full_ (stack_ s)) ++ concat (partial_ (stack_ s)).

(** ** Invariant and contents *)

Record stacks_wf (s : Stacks) : Prop := {
  wf_full : Forall (fun b => length b = kSize) (full_ (stack_ s));
  wf_partial : Forall (fun b => 0 < length b < kSize)%nat (partial_ (stack_ s));
  wf_empty : Forall (fun b => b = []) (global_empty_ s);
  wf_cached : (length (global_empty_ s) <= kMaxGlobalEmpty)%nat
}.

Definition contents (s : Stacks) : list ObjectPtr := VisitObjectPointers s.

Lemma trim_spec l : exists n, trim l = drop n l /\ (length (trim l) <= kMaxGlobalEmpty)%nat.
Proof.
  induction l as [|b l (n & E & Hn)]; [exists 0%nat; cbn; split; [done | lia]|]. cbn [trim].
  destruct (Nat.ltb_spec kMaxGlobalEmpty (length (b :: l))).
  - exists (S n). by rewrite E in *.
  - exists 0%nat. split; [done | lia].
Qed.

Lemma IsFull_spec b : IsFull b = true <-> length b = kSize.
Proof. unfold IsFull, Count. rewrite Z.eqb_eq. lia. Qed.
Lemma Block_IsEmpty_spec b : Block_IsEmpty b = true <-> b = [].
Proof. unfold Block_IsEmpty, Count. rewrite Z.eqb_eq. destruct b; cbn; split; (done || lia). Qed.

(** A push succeeds on a block that is not full. *)
Lemma Block_Push_ok b obj : (length b < kSize)%nat -> Block_Push b obj = Ok (b ++ [obj]).
Proof.
  intros Hb. unfold Block_Push. rewrite ASSERT_bind.
  - by rewrite (proj2 (Nat.ltb_lt _ _)).
  - apply negb_true_iff, not_true_iff_false. rewrite IsFull_spec. lia.
Qed.

Lemma Block_Pop_ok b : b <> [] -> exists obj b', Block_Pop b = Ok (obj, b') /\ b = b' ++ [obj].
Proof.
  intros Hb. unfold Block_Pop. rewrite ASSERT_bind.
  - destruct (rev b) as [|obj below] eqn:E.
    + apply (f_equal (@rev _)) in E. rewrite rev_involutive in E. by destruct Hb.
    + exists obj, (rev below). split; [done|]. rewrite <- (rev_involutive b), E. done.
  - apply negb_true_iff, not_true_iff_false. by rewrite Block_IsEmpty_spec.
Qed.

(** [trim] only drops empty blocks. *)
Lemma TrimGlobalEmpty_wf s : Forall (fun b => length b = kSize) (full_ (stack_ s)) ->
  Forall (fun b => 0 < length b < kSize)%nat (partial_ (stack_ s)) ->
  Forall (fun b => b = []) (global_empty_ s) -> stacks_wf (TrimGlobalEmpty s).
Proof.
  intros Hf Hp He. destruct (trim_spec (global_empty_ s)) as (n & E & Hn).
  split; [done | done | | done]. cbn. rewrite E. by apply Forall_drop.
Qed.

(** Pushing a block adds its pointers and keeps the lists sorted by fullness. *)
Lemma PushBlockImpl_spec b s : stacks_wf s -> (length b <= kSize)%nat ->
  stacks_wf (PushBlockImpl b s).2 /\ contents (PushBlockImpl b s).2 ≡ₚ b ++ contents s.
Proof.
  intros [Hf Hp He Hc] Hb. unfold PushBlockImpl, contents, VisitObjectPointers.
  destruct (IsFull b) eqn:F; [|destruct (Block_IsEmpty b) eqn:E]; cbn [snd].
  - apply IsFull_spec in F. split; [split; [by constructor | done..]|].
    cbn. by rewrite <- app_assoc.
  - apply Block_IsEmpty_spec in E as ->. split; [|done].
    apply TrimGlobalEmpty_wf; [done | done | by constructor].
  - apply not_true_iff_false in F, E. rewrite IsFull_spec in F. rewrite Block_IsEmpty_spec in E.
    split.
    + split; [done | | done | done]. constructor; [|done]. destruct b; [done | cbn in *; lia].
    + cbn. rewrite !(assoc_L (++)). f_equiv. apply Permutation_app_comm.
Qed.

Lemma PopEmptyBlock_spec s : stacks_wf s ->
  (PopEmptyBlock s).1 = [] /\ stacks_wf (PopEmptyBlock s).2 /\ contents (PopEmptyBlock s).2 = contents s.
Proof.
  intros [Hf Hp He Hc]. unfold PopEmptyBlock. destruct (global_empty_ s) as [|b l] eqn:E.
  - split; [done|]. split; [|done]. cbn [snd]. by split; rewrite ?E.
  - apply Forall_cons_iff in He as [-> He]. split; [done|]. split; [|done].
    split; [done | done | done | cbn in *; lia].
Qed.

Lemma PopNonFullBlock_spec s : (0 < kSize)%nat -> stacks_wf s ->
  (length (PopNonFullBlock s).1 < kSize)%nat /\ stacks_wf (PopNonFullBlock s).2 /\
  (PopNonFullBlock s).1 ++ contents (PopNonFullBlock s).2 ≡ₚ contents s.
Proof.
  intros Hk Hwf. pose proof Hwf as [Hf Hp He Hc]. unfold PopNonFullBlock.
  destruct (partial_ (stack_ s)) as [|b l] eqn:E.
  - destruct (PopEmptyBlock_spec s Hwf) as (-> & Hw & ->). by split_and!.
  - apply Forall_cons_iff in Hp as [Hb Hp]. split_and!; [cbn; lia | by split |].
    unfold contents, VisitObjectPointers. cbn. rewrite E. cbn.
    rewrite !(assoc_L (++)). f_equiv. apply Permutation_app_comm.
Qed.

Lemma PopNonEmptyBlock_spec s : (0 < kSize)%nat -> stacks_wf s ->
  match PopNonEmptyBlock s with
  | (Some b, s') => b <> [] /\ (length b <= kSize)%nat /\ stacks_wf s' /\ b ++ contents s' ≡ₚ contents s
  | (None, s') => s' = s /\ contents s = []
  end.
Proof.
  intros Hk [Hf Hp He Hc]. unfold PopNonEmptyBlock, contents, VisitObjectPointers.
  destruct (full_ (stack_ s)) as [|b l] eqn:E.
  - destruct (partial_ (stack_ s)) as [|b l] eqn:E'; [done|].
    apply Forall_cons_iff in Hp as [Hb Hp].
    split_and!; [by intros ->; cbn in Hb; lia | lia | split; cbn; by rewrite ?E |].
    cbn. by rewrite E.
  - apply Forall_cons_iff in Hf as [Hb Hf].
    split_and!; [by intros ->; cbn in Hb; lia | lia | by split |].
    cbn. by rewrite (assoc_L (++)).
Qed.

Lemma move_partial_spec full partial : concat (move_partial full partial) ≡ₚ concat full ++ concat partial.
Proof.
  revert full. induction partial as [|b l IH]; intros full; cbn [move_partial concat].
  - by rewrite app_nil_r.
  - rewrite IH. cbn. rewrite !(assoc_L (++)). f_equiv. apply Permutation_app_comm.
Qed.

(** [TakeBlocks] hands over everything. *)
Lemma TakeBlocks_spec s : stacks_wf s ->
  concat (TakeBlocks s).1 ≡ₚ contents s /\ stacks_wf (TakeBlocks s).2 /\ contents (TakeBlocks s).2 = [].
Proof.
  intros [Hf Hp He Hc]. split_and!; [apply move_partial_spec | by split; cbn | done].
Qed.
End Blocks.
