(* ===== verification/WorkLists.v ===== *)
(** * Work lists and the end of parallel marking

    [BlockWorkList] of [src/runtime/vm/heap/pointer_block.h] and the protocol by which the
    tasks of [ParallelMarkTask::RunEnteredIsolateGroup] ([src/runtime/vm/heap/marker.cc])
    drain one shared stack: a task that finds no work calls [WaitForWork], which counts the
    busy tasks and either hands over a block or reports that no work can appear any more.

    The protocol is a step relation over the tasks.  Each critical section of the monitor is
    one step; a task inside [WaitForWork] may be overtaken by others between any two steps,
    which includes every schedule of the program.  A task inside [Wait] sleeps until it is
    notified: the first block pushed onto an empty stack notifies one sleeping task, and the
    last busy task notifies all.  A notified task has to enter the monitor again before it
    tests for work.  The operating system may also wake a sleeping task without a
    notification; that is a step of its own, on which no progress relies. *)
From Stdlib Require Import Wellfounded.
From S2P Require Import Prelude PointerBlocks.

Record WorkList := { local_output_ : Block; local_input_ : Block }.

Section WorkLists.
Context `{Target} (kSize : nat).

Definition WorkList_new (s : Stacks) : WorkList * Stacks :=
  let '(out, s) := PopEmptyBlock s in
  let '(inp, s) := PopEmptyBlock s in
  ({| local_output_ := out; local_input_ := inp |}, s).

(** The operations return, before their results, whether they called [Notify]; those that push
    several blocks return how often. *)
Definition PushBlock (b : Block) (s : Stacks) : bool * Stacks := PushBlockImpl kSize b s.

(** [Pop]; [None] is [nullptr]. *)
Definition Pop (w : WorkList) (s : Stacks) : result (bool * option ObjectPtr * WorkList * Stacks) :=
  let pop n inp out s :=
    '(obj, inp) ← Block_Pop inp;
    Ok (n, Some obj, {| local_output_ := out; local_input_ := inp |}, s) in
  if Block_IsEmpty (local_input_ w) then
    if negb (Block_IsEmpty (local_output_ w)) then pop false (local_output_ w) (local_input_ w) s
    else
      match PopNonEmptyBlock s with
      | (None, s) => Ok (false, None, w, s)
      | (Some new_work, s) =>
          let '(n, s) := PushBlock (local_input_ w) s in pop n new_work (local_output_ w) s
      end
  else pop false (local_input_ w) (local_output_ w) s.

(** [stack_->PushBlock(block); block = stack_->PopEmptyBlock()]. *)
Definition replace_block (b : Block) (s : Stacks) : bool * Block * Stacks :=
  let '(n, s) := PushBlock b s in let '(b, s) := PopEmptyBlock s in (n, b, s).

Definition Push (obj : ObjectPtr) (w : WorkList) (s : Stacks) : result (bool * WorkList * Stacks) :=
  let '(n, out, s) :=
    if IsFull kSize (local_output_ w) then replace_block (local_output_ w) s
    else (false, local_output_ w, s) in
  out ← Block_Push kSize out obj;
  Ok (n, {| local_output_ := out; local_input_ := local_input_ w |}, s).

Definition Flush (w : WorkList) (s : Stacks) : nat * WorkList * Stacks :=
  let '(n1, out, s) :=
    if negb (Block_IsEmpty (local_output_ w)) then replace_block (local_output_ w) s
    else (false, local_output_ w, s) in
  let '(n2, inp, s) :=
    if negb (Block_IsEmpty (local_input_ w)) then replace_block (local_input_ w) s
    else (false, local_input_ w, s) in
  ((Nat.b2n n1 + Nat.b2n n2)%nat, {| local_output_ := out; local_input_ := inp |}, s).

(** [Finalize] and [AbandonWork] give up the work list. *)
Definition AbandonWork (w : WorkList) (s : Stacks) : nat * Stacks :=
  let '(n1, s) := PushBlock (local_output_ w) s in
  let '(n2, s) := PushBlock (local_input_ w) s in
  ((Nat.b2n n1 + Nat.b2n n2)%nat, s).
Definition Finalize (w : WorkList) (s : Stacks) : result (nat * Stacks) :=
  _ ← ASSERT (Block_IsEmpty (local_output_ w));
  let '(n1, s) := PushBlock (local_output_ w) s in
  _ ← ASSERT (Block_IsEmpty (local_input_ w));
  let '(n2, s) := PushBlock (local_input_ w) s in
  Ok ((Nat.b2n n1 + Nat.b2n n2)%nat, s).

(** [BlockStack::WaitForWork]: what a task finds out before it leaves the monitor, with the
    stacks and the number of busy tasks it leaves.  [Wait] releases the monitor and sleeps. *)
Inductive wait_result := Return (block : option Block) | Wait.

Definition WaitForWork_loop (s : Stacks) (num_busy : Z) : wait_result * Stacks * Z :=
  match full_ (stack_ s) with
  | b :: l => (Return (Some b), with_full s l, num_busy + 1)
  | [] =>
      match partial_ (stack_ s) with
      | b :: l => (Return (Some b), with_partial s l, num_busy + 1)
      | [] => (Wait, s, num_busy)
      end
  end.

(** Up to the first [Wait]; the flag tells that [NotifyAll] was called. *)
Definition WaitForWork (s : Stacks) (num_busy : Z) : bool * (wait_result * Stacks * Z) :=
  if num_busy =? 1 then (true, (Return None, s, num_busy - 1))
  else (false, WaitForWork_loop s (num_busy - 1)).

(** From the end of one [Wait] to the next. *)
Definition WaitForWork_woken (s : Stacks) (num_busy : Z) : wait_result * Stacks * Z :=
  if num_busy =? 0 then (Return None, s, num_busy) else WaitForWork_loop s num_busy.

Definition WorkList_IsEmpty (w : WorkList) (s : Stacks) : bool :=
  if negb (Block_IsEmpty (local_input_ w)) then false
  else if negb (Block_IsEmpty (local_output_ w)) then false
  else IsEmptyLocked s.

(** ** Sequential behaviour *)

Context (Hk : (0 < kSize)%nat).

Definition worklist_wf (w : WorkList) : Prop :=
  (length (local_output_ w) <= kSize)%nat /\ (length (local_input_ w) <= kSize)%nat.
Definition local_contents (w : WorkList) : list ObjectPtr := local_input_ w ++ local_output_ w.

Lemma IsEmptyLocked_contents s : stacks_wf kSize s -> IsEmptyLocked s = true <-> contents s = [].
Proof using Hk.
  intros [Hf Hp _ _]. unfold contents, VisitObjectPointers, IsEmptyLocked.
  destruct (full_ (stack_ s)) as [|b l].
  - destruct (partial_ (stack_ s)) as [|b l]; [done|]. split; [done|]. cbn. intros [E _]%app_eq_nil.
    apply Forall_cons_iff in Hp as [Hb _]. rewrite E in Hb. cbn in Hb. lia.
  - split; [done|]. cbn. intros E. apply Forall_cons_iff in Hf as [Hb _].
    destruct b; [cbn in Hb; lia | done].
Qed.

(** An empty block is pushed without a notification. *)
Lemma PushBlock_empty b s : b = [] -> (PushBlock b s).1 = false.
Proof using Hk.
  intros ->. unfold PushBlock, PushBlockImpl.
  assert (IsFull kSize [] = false) as -> by (apply not_true_iff_false; rewrite IsFull_spec; cbn; lia). done.
Qed.

(** No [ASSERT] fails, [Pop] takes one pointer out or reports that there is none, and it
    notifies nobody. *)
Lemma Pop_spec w s : worklist_wf w -> stacks_wf kSize s ->
  exists r w' s', Pop w s = Ok (false, r, w', s') /\ worklist_wf w' /\ stacks_wf kSize s' /\
  match r with
  | Some obj => local_contents w ++ contents s ≡ₚ obj :: local_contents w' ++ contents s'
  | None => w' = w /\ s' = s /\ local_contents w = [] /\ contents s = []
  end.
Proof using Hk.
  intros [Ho Hi] Hs. unfold Pop.
  destruct (Block_IsEmpty (local_input_ w)) eqn:Ei; [apply Block_IsEmpty_spec in Ei|].
  - destruct (Block_IsEmpty (local_output_ w)) eqn:Eo; cbn [negb].
    + apply Block_IsEmpty_spec in Eo. pose proof (PopNonEmptyBlock_spec kSize s Hk Hs) as P.
      destruct (PopNonEmptyBlock s) as [[b|] s1].
      * destruct P as (Hb & Hl & Hs1 & P). destruct (Block_Pop_ok b Hb) as (obj & b' & E & ->).
        pose proof (PushBlock_empty (local_input_ w) s1 Ei) as Hn. unfold PushBlock in Hn |- *.
        destruct (PushBlockImpl_spec kSize (local_input_ w) s1 Hs1 Hi) as [Hs2 P2].
        destruct (PushBlockImpl kSize (local_input_ w) s1) as [n s2]. cbn in Hn, Hs2, P2. subst n.
        rewrite E. cbn. eexists _, _, _. split_and!; [done | | done |].
        -- rewrite length_app in Hl. split; cbn in *; lia.
        -- unfold local_contents. cbn. rewrite P2, <- P, Ei, Eo. cbn. solve_Permutation.
      * destruct P as [-> P]. eexists _, _, _. unfold local_contents. rewrite Ei, Eo. by split_and!.
    + assert (local_output_ w <> []) as Hn by (intros E; apply Block_IsEmpty_spec in E; congruence).
      destruct (Block_Pop_ok _ Hn) as (obj & b' & E & Eb). rewrite E. cbn. eexists _, _, _.
      split_and!; [done | | done |].
      -- rewrite Eb, length_app in Ho. split; cbn in *; lia.
      -- unfold local_contents. cbn. rewrite Eb, Ei. cbn. solve_Permutation.
  - assert (local_input_ w <> []) as Hn by (intros E; apply Block_IsEmpty_spec in E; congruence).
    destruct (Block_Pop_ok _ Hn) as (obj & b' & E & Eb). rewrite E. cbn. eexists _, _, _.
    split_and!; [done | | done |].
    + rewrite Eb, length_app in Hi. split; cbn in *; lia.
    + unfold local_contents. cbn. rewrite Eb. solve_Permutation.
Qed.

(** The first block on an empty stack notifies a waiting task. *)
Lemma replace_block_spec (b : Block) s : (length b <= kSize)%nat -> stacks_wf kSize s ->
  exists n s', replace_block b s = (n, [] : Block, s') /\ stacks_wf kSize s' /\ contents s' ≡ₚ b ++ contents s /\
  (contents s = [] -> b <> [] -> n = true).
Proof using Hk.
  intros Hb Hs. unfold replace_block, PushBlock.
  destruct (PushBlockImpl_spec kSize b s Hs Hb) as [Hs1 P1].
  assert (contents s = [] -> b <> [] -> (PushBlockImpl kSize b s).1 = true) as Hn.
  { intros Hc Hne. assert (IsEmptyLocked s = true) as El by by apply IsEmptyLocked_contents.
    unfold PushBlockImpl. destruct (IsFull kSize b); [done|].
    destruct (Block_IsEmpty b) eqn:E; [by apply Block_IsEmpty_spec in E | done]. }
  destruct (PushBlockImpl kSize b s) as [n s1]. cbn [fst snd] in *.
  destruct (PopEmptyBlock_spec kSize s1 Hs1) as (Eb & Hs2 & P2).
  destruct (PopEmptyBlock s1) as [b' s2]. cbn in Eb, Hs2, P2. subst b'.
  eexists _, _. split_and!; [done | done | by rewrite P2 | done].
Qed.

Lemma Push_spec obj w s : worklist_wf w -> stacks_wf kSize s ->
  exists n w' s', Push obj w s = Ok (n, w', s') /\ worklist_wf w' /\ stacks_wf kSize s' /\
  local_contents w' ++ contents s' ≡ₚ obj :: local_contents w ++ contents s /\
  (contents s = [] -> contents s' <> [] -> n = true).
Proof using Hk.
  intros [Ho Hi] Hs. unfold Push. destruct (IsFull kSize (local_output_ w)) eqn:F.
  - destruct (replace_block_spec (local_output_ w) s Ho Hs) as (n & s' & -> & Hs2 & P & Hn).
    cbn [mbind result_bind]. rewrite Block_Push_ok by done. cbn. eexists _, _, _.
    split_and!; [done | | done | | ].
    + split; cbn in *; lia.
    + unfold local_contents. cbn. rewrite P. solve_Permutation.
    + intros Hc Hc'. apply Hn; [done|]. intros E. rewrite E, Hc in P. by apply Permutation_nil_r in P.
  - assert (length (local_output_ w) < kSize)%nat.
    { apply not_true_iff_false in F. rewrite IsFull_spec in F. lia. }
    rewrite Block_Push_ok by done. cbn. eexists _, _, _. split_and!; [done | | done | |].
    + split; cbn in *; [rewrite length_app; cbn|]; lia.
    + unfold local_contents. cbn. solve_Permutation.
    + by intros ->.
Qed.

(** A block that is not empty is handed over and replaced by an empty one. *)
Lemma flush_block (b : Block) s : (length b <= kSize)%nat -> stacks_wf kSize s ->
  exists n s', (if negb (Block_IsEmpty b) then replace_block b s else (false, b, s)) = (n, [] : Block, s') /\
    stacks_wf kSize s' /\ contents s' ≡ₚ b ++ contents s.
Proof using Hk.
  intros Hb Hs. destruct (Block_IsEmpty b) eqn:E; cbn [negb].
  - apply Block_IsEmpty_spec in E as ->. by eexists _, _.
  - destruct (replace_block_spec b s Hb Hs) as (n & s' & -> & Hs' & P & _). by eexists _, _.
Qed.

(** [Flush] moves all local work to the shared stack. *)
Lemma Flush_spec w s : worklist_wf w -> stacks_wf kSize s ->
  exists n w' s', Flush w s = (n, w', s') /\ local_contents w' = [] /\ stacks_wf kSize s' /\
  contents s' ≡ₚ local_contents w ++ contents s.
Proof using Hk.
  intros [Ho Hi] Hs. unfold Flush.
  destruct (flush_block (local_output_ w) s Ho Hs) as (n1 & s1 & -> & Hs1 & P1).
  destruct (flush_block (local_input_ w) s1 Hi Hs1) as (n2 & s2 & -> & Hs2 & P2).
  eexists _, _, _. split_and!; [done | done | done |]. rewrite P2, P1. unfold local_contents. solve_Permutation.
Qed.

Lemma AbandonWork_spec w s : worklist_wf w -> stacks_wf kSize s ->
  exists n s', AbandonWork w s = (n, s') /\ stacks_wf kSize s' /\ contents s' ≡ₚ local_contents w ++ contents s.
Proof using.
  intros [Ho Hi] Hs. unfold AbandonWork, PushBlock.
  destruct (PushBlockImpl_spec kSize _ s Hs Ho) as [Hs1 P1].
  destruct (PushBlockImpl kSize (local_output_ w) s) as [n1 s1].
  destruct (PushBlockImpl_spec kSize (local_input_ w) s1 Hs1 Hi) as [Hs2 P2].
  destruct (PushBlockImpl kSize (local_input_ w) s1) as [n2 s2]. cbn [snd] in *.
  eexists _, _. split_and!; [done | done |]. rewrite P2, P1. unfold local_contents. solve_Permutation.
Qed.

(** The loop of [WaitForWork] takes a block when there is one. *)
Lemma WaitForWork_loop_spec s busy : stacks_wf kSize s ->
  (exists b s', WaitForWork_loop s busy = (Return (Some b), s', busy + 1) /\ b <> [] /\
     (length b <= kSize)%nat /\ stacks_wf kSize s' /\ b ++ contents s' ≡ₚ contents s) \/
  (WaitForWork_loop s busy = (Wait, s, busy) /\ contents s = []).
Proof using Hk.
  intros Hs. pose proof (PopNonEmptyBlock_spec kSize s Hk Hs) as P.
  unfold PopNonEmptyBlock in P. unfold WaitForWork_loop.
  destruct (full_ (stack_ s)); [destruct (partial_ (stack_ s))|]; [by right; destruct P | left..];
    eexists _, _; by split.
Qed.

Lemma IsEmpty_spec w s : stacks_wf kSize s ->
  WorkList_IsEmpty w s = true <-> local_contents w = [] /\ contents s = [].
Proof using Hk.
  intros Hs. unfold WorkList_IsEmpty, local_contents.
  destruct (Block_IsEmpty (local_input_ w)) eqn:Ei; cbn [negb].
  2: { split; [done|]. intros [[E _]%app_eq_nil _]. apply Block_IsEmpty_spec in E. congruence. }
  apply Block_IsEmpty_spec in Ei as ->. destruct (Block_IsEmpty (local_output_ w)) eqn:Eo; cbn [negb].
  2: { split; [done|]. intros [E _]. cbn in E. apply Block_IsEmpty_spec in E. congruence. }
  apply Block_IsEmpty_spec in Eo as ->. rewrite IsEmptyLocked_contents by done. cbn. tauto.
Qed.
End WorkLists.

(** ** The protocol *)

(** Where a task is: before its first [fetch_add]; draining; after [Pop] returned [nullptr];
    asleep in [Wait] inside [WaitForWork]; woken but not yet in the monitor again; returned
    from [WaitForWork] with [NULL]. *)
Inductive phase := NotStarted | Working | SawEmpty | Waiting | Notified | Done.

#[export] Instance phase_eq_dec : EqDecision phase.
Proof. solve_decision. Defined.

Record task := { at_ : phase; list_ : WorkList }.

(** [pushed_] and [popped_] record the pointers pushed and popped so far. *)
Record marking := {
  stacks : Stacks;
  tasks : list task;
  num_busy : Z;
  pushed_ : list ObjectPtr;
  popped_ : list ObjectPtr
}.

(** [Notify] wakes one of the sleeping tasks, if there is one, and [NotifyAll] all of them. *)
Definition wake (t : task) : task :=
  if decide (at_ t = Waiting) then {| at_ := Notified; list_ := list_ t |} else t.
Definition NotifyAll (l : list task) : list task := map wake l.

Inductive Notify : bool -> list task -> list task -> Prop :=
| notify_not_called l : Notify false l l
| notify_nobody l : Forall (fun t => at_ t <> Waiting) l -> Notify true l l
| notify_one l i t : l !! i = Some t -> at_ t = Waiting -> Notify true l (<[i := wake t]> l).

Section Protocol.
Context `{Target} (kSize : nat).

Definition after (st : marking) (l : list task) (s : Stacks) (busy : Z) : marking :=
  {| stacks := s; tasks := l; num_busy := busy; pushed_ := pushed_ st; popped_ := popped_ st |}.
Definition record_push (st : marking) (obj : ObjectPtr) : marking :=
  {| stacks := stacks st; tasks := tasks st; num_busy := num_busy st;
     pushed_ := obj :: pushed_ st; popped_ := popped_ st |}.
Definition record_pop (st : marking) (obj : ObjectPtr) : marking :=
  {| stacks := stacks st; tasks := tasks st; num_busy := num_busy st;
     pushed_ := pushed_ st; popped_ := obj :: popped_ st |}.

(** [BlockWorkList::WaitForWork]: a task that is handed a block returns its empty input block
    to the cache and goes on, one that gets [NULL] is done. *)
Definition leave_wait (w : WorkList) (r : wait_result) (s : Stacks) : bool * task * Stacks :=
  match r with
  | Wait => (false, {| at_ := Waiting; list_ := w |}, s)
  | Return None => (false, {| at_ := Done; list_ := w |}, s)
  | Return (Some b) =>
      let '(n, s) := PushBlock kSize (local_input_ w) s in
      (n, {| at_ := Working; list_ := {| local_output_ := local_output_ w; local_input_ := b |} |}, s)
  end.

(** The steps of a task that pushes nothing. *)
Inductive drain_step (st : marking) : marking -> Prop :=
(* [num_busy_->fetch_add(1u)] at the start of the task *)
| step_start i w : tasks st !! i = Some {| at_ := NotStarted; list_ := w |} ->
    drain_step st (after st (<[i := {| at_ := Working; list_ := w |}]> (tasks st)) (stacks st) (num_busy st + 1))
(* [DrainMarkingStack] *)
| step_pop i w n w' s' obj l : tasks st !! i = Some {| at_ := Working; list_ := w |} ->
    Pop kSize w (stacks st) = Ok (n, Some obj, w', s') ->
    Notify n (<[i := {| at_ := Working; list_ := w' |}]> (tasks st)) l ->
    drain_step st (record_pop (after st l s' (num_busy st)) obj)
| step_pop_none i w n w' s' l : tasks st !! i = Some {| at_ := Working; list_ := w |} ->
    Pop kSize w (stacks st) = Ok (n, None, w', s') ->
    Notify n (<[i := {| at_ := SawEmpty; list_ := w' |}]> (tasks st)) l ->
    drain_step st (after st l s' (num_busy st))
(* [WaitForWork] up to a return or [Wait] *)
| step_enter i w all r s busy n t s' l : tasks st !! i = Some {| at_ := SawEmpty; list_ := w |} ->
    WaitForWork (stacks st) (num_busy st) = (all, (r, s, busy)) -> leave_wait w r s = (n, t, s') ->
    Notify n (if all : bool then NotifyAll (<[i := t]> (tasks st)) else <[i := t]> (tasks st)) l ->
    drain_step st (after st l s' busy)
(* a woken task, back in the monitor *)
| step_woken i w r s busy n t s' l : tasks st !! i = Some {| at_ := Notified; list_ := w |} ->
    WaitForWork_woken (stacks st) (num_busy st) = (r, s, busy) -> leave_wait w r s = (n, t, s') ->
    Notify n (<[i := t]> (tasks st)) l ->
    drain_step st (after st l s' busy).

Inductive mark_step (st : marking) : marking -> Prop :=
| step_drain st' : drain_step st st' -> mark_step st st'
(* marking an object pushes the objects it refers to; roots are pushed too *)
| step_push i w n w' s' obj l : tasks st !! i = Some {| at_ := Working; list_ := w |} ->
    Push kSize obj w (stacks st) = Ok (n, w', s') ->
    Notify n (<[i := {| at_ := Working; list_ := w' |}]> (tasks st)) l ->
    mark_step st (record_push (after st l s' (num_busy st)) obj)
(* [Wait] may return without a notification *)
| step_spurious i t : tasks st !! i = Some t -> at_ t = Waiting ->
    mark_step st (after st (<[i := wake t]> (tasks st)) (stacks st) (num_busy st)).

Inductive mark_steps : marking -> marking -> Prop :=
| steps_refl st : mark_steps st st
| steps_next st st' st'' : mark_steps st st' -> mark_step st' st'' -> mark_steps st st''.

(** Tasks that have not started and whose work lists were flushed: what concurrent marking and
    the write barrier left is on the shared stack. *)
Definition initial (st : marking) : Prop :=
  stacks_wf kSize (stacks st) /\ num_busy st = 0 /\
  pushed_ st ≡ₚ contents (stacks st) /\ popped_ st = [] /\ tasks st <> [] /\
  Forall (fun t => at_ t = NotStarted /\ local_contents (list_ t) = []) (tasks st).

Definition is_busy (t : task) : bool :=
  match at_ t with Working | SawEmpty => true | _ => false end.
Definition busy_count (l : list task) : Z := Z.of_nat (length (filter (fun t => is_busy t = true) l)).
Definition task_contents (l : list task) : list ObjectPtr := concat (map (fun t => local_contents (list_ t)) l).

Record mark_inv (st : marking) : Prop := {
  inv_stacks : stacks_wf kSize (stacks st);
  inv_lists : Forall (fun t => worklist_wf kSize (list_ t)) (tasks st);
  inv_busy : num_busy st = busy_count (tasks st);
  inv_idle : Forall (fun t => at_ t <> Working -> local_contents (list_ t) = []) (tasks st);
  inv_work : contents (stacks st) <> [] -> exists t, t ∈ tasks st /\ (at_ t = Working \/ at_ t = NotStarted);
  inv_all : pushed_ st ≡ₚ popped_ st ++ task_contents (tasks st) ++ contents (stacks st)
}.

(** Nobody sleeps when no task is busy: nobody would be left to wake the sleeper. *)
Definition none_asleep (st : marking) : Prop :=
  num_busy st = 0 -> Forall (fun t => at_ t <> Waiting) (tasks st).

(** *** Waking *)

Definition woken (l l' : list task) : Prop := Forall2 (fun t t' => t' = t \/ t' = wake t) l l'.

Lemma wake_list t : list_ (wake t) = list_ t.
Proof. unfold wake. by case_decide. Qed.
Lemma wake_busy t : is_busy (wake t) = is_busy t.
Proof. unfold wake. case_decide as E; [|done]. unfold is_busy. by rewrite E. Qed.
Lemma wake_other t : at_ t <> Waiting -> wake t = t.
Proof. unfold wake. by case_decide. Qed.
Lemma wake_not_waiting t : at_ (wake t) <> Waiting.
Proof. unfold wake. by case_decide. Qed.

Lemma woken_refl l : woken l l.
Proof. induction l; constructor; auto. Qed.

Lemma Notify_woken n l l' : Notify n l l' -> woken l l'.
Proof.
  intros []; [apply woken_refl.. |]. apply Forall2_same_length_lookup_2; [by rewrite length_insert|].
  intros j t1 t2 E1 E2. destruct (decide (i = j)) as [->|Hn].
  - rewrite list_lookup_insert_eq in E2 by by eapply lookup_lt_Some. right. congruence.
  - rewrite list_lookup_insert_ne in E2 by done. left. congruence.
Qed.

Lemma woken_trans l1 l2 l3 : woken l1 l2 -> woken l2 l3 -> woken l1 l3.
Proof.
  intros H12. revert l3. induction H12 as [|t1 t2 l1 l2 Ht _ IH]; intros l3 H23; inversion H23 as [|? t3 ? l3' Ht']; subst;
    [constructor | constructor; [|by apply IH]].
  destruct Ht' as [-> | ->], Ht as [-> | ->]; auto. right. apply wake_other, wake_not_waiting.
Qed.

Lemma NotifyAll_woken l : woken l (NotifyAll l).
Proof. unfold NotifyAll. induction l; constructor; auto. Qed.

Lemma NotifyAll_none l : Forall (fun t => at_ t <> Waiting) (NotifyAll l).
Proof. apply Forall_map, Forall_true. intros t. apply wake_not_waiting. Qed.

Lemma Notify_not l l' : Notify false l l' -> l' = l.
Proof. by inversion 1. Qed.

Lemma Forall_woken (P : task -> Prop) l l' : (forall t, P t -> P (wake t)) -> woken l l' -> Forall P l -> Forall P l'.
Proof.
  intros HP Hw. induction Hw as [|t t' l l' Ht _ IH]; [done|]. intros [Hp Hl]%Forall_cons_iff.
  constructor; [destruct Ht as [->| ->]; auto | auto].
Qed.

Lemma busy_count_cons t l : busy_count (t :: l) = Z.b2z (is_busy t) + busy_count l.
Proof.
  unfold busy_count. rewrite filter_cons.
  destruct (is_busy t); [rewrite decide_True by done | rewrite decide_False by done]; cbn [length Z.b2z]; lia.
Qed.

Lemma woken_counts l l' : woken l l' -> busy_count l' = busy_count l /\ task_contents l' = task_contents l.
Proof.
  induction 1 as [|t t' l l' Ht _ [IH1 IH2]]; [done|]. rewrite !busy_count_cons, IH1.
  unfold task_contents in *. cbn [map concat]. rewrite IH2.
  by destruct Ht as [->| ->]; rewrite ?wake_busy, ?wake_list.
Qed.

Lemma mark_inv_woken st l : mark_inv st -> woken (tasks st) l ->
  mark_inv {| stacks := stacks st; tasks := l; num_busy := num_busy st; pushed_ := pushed_ st; popped_ := popped_ st |}.
Proof.
  intros [Hs Hl Hb Hi Hw Ha] Hl'. destruct (woken_counts _ _ Hl') as [E1 E2].
  split; cbn [stacks tasks num_busy pushed_ popped_]; [done | | by rewrite E1 | | | by rewrite E2].
  - eapply Forall_woken; [|exact Hl' | exact Hl]. intros t. by rewrite wake_list.
  - eapply Forall_woken; [|exact Hl' | exact Hi]. intros t. unfold wake. case_decide as E; [|done].
    rewrite E. intros Ht _. by apply Ht.
  - intros Hc. destruct (Hw Hc) as (t & [i Ht]%list_elem_of_lookup & Hat).
    destruct (Forall2_lookup_l _ _ _ _ _ Hl' Ht) as (t' & Ht' & Hor). exists t.
    split; [|done]. apply list_elem_of_lookup. exists i. rewrite Ht'. f_equal.
    destruct Hor as [->| ->]; [done|]. apply wake_other. intros E. rewrite E in Hat. by destruct Hat.
Qed.

(** Replacing a task. *)
Lemma tasks_split (l : list task) i t : l !! i = Some t ->
  exists l1 l2, l = l1 ++ t :: l2 /\ forall t', <[i := t']> l = l1 ++ t' :: l2.
Proof.
  intros Hi. exists (take i l), (drop (S i) l). split; [by rewrite take_drop_middle|].
  intros t'. apply insert_take_drop. by apply lookup_lt_Some in Hi.
Qed.

Lemma busy_count_middle l1 t l2 :
  busy_count (l1 ++ t :: l2) = busy_count (l1 ++ l2) + Z.b2z (is_busy t).
Proof.
  induction l1 as [|u l1 IH]; cbn [app]; rewrite !busy_count_cons; [lia|]. rewrite IH. lia.
Qed.

Lemma task_contents_middle l1 t l2 :
  task_contents (l1 ++ t :: l2) ≡ₚ local_contents (list_ t) ++ task_contents (l1 ++ l2).
Proof.
  unfold task_contents. rewrite !map_app, !concat_app. cbn. solve_Permutation.
Qed.

(** The effect of one task's step on the invariant. *)
Lemma inv_replace st i t t' s' busy dpush dpop l : mark_inv st -> tasks st !! i = Some t ->
  woken (<[i := t']> (tasks st)) l ->
  stacks_wf kSize s' -> worklist_wf kSize (list_ t') ->
  busy = num_busy st + Z.b2z (is_busy t') - Z.b2z (is_busy t) ->
  (at_ t' <> Working -> local_contents (list_ t') = []) ->
  (contents s' <> [] -> at_ t' = Working \/
     (contents (stacks st) <> [] /\ at_ t <> Working /\ at_ t <> NotStarted)) ->
  dpush ++ local_contents (list_ t) ++ contents (stacks st) ≡ₚ
    dpop ++ local_contents (list_ t') ++ contents s' ->
  mark_inv {| stacks := s'; tasks := l; num_busy := busy;
              pushed_ := dpush ++ pushed_ st; popped_ := dpop ++ popped_ st |}.
Proof.
  intros [Hs Hl Hb Hi Hw Ha] Ht Hwk Hs' Hl' Hb' Hi' Hw' Hp.
  refine (mark_inv_woken {| stacks := s'; tasks := <[i := t']> (tasks st); num_busy := busy;
    pushed_ := dpush ++ pushed_ st; popped_ := dpop ++ popped_ st |} l _ Hwk).
  destruct (tasks_split _ _ _ Ht) as (l1 & l2 & E & Hins). rewrite E in *.
  apply Forall_app in Hl as [Hl1 [_ Hl2]%Forall_cons_iff], Hi as [Hi1 [Hit Hi2]%Forall_cons_iff].
  split; cbn [stacks tasks num_busy pushed_ popped_]; rewrite ?Hins.
  - done.
  - apply Forall_app. by split; [|constructor].
  - rewrite busy_count_middle in *. lia.
  - apply Forall_app. by split; [|constructor].
  - intros Hc. destruct (Hw' Hc) as [Hwt|(Hc' & Hnt & Hnt')].
    + exists t'. split; [|by left]. apply elem_of_app. right. left.
    + destruct (Hw Hc') as (u & Hu & Hau). exists u. split; [|done].
      rewrite elem_of_app, elem_of_cons in *. destruct Hu as [?|[->|?]]; tauto.
  - rewrite task_contents_middle in Ha |- *. rewrite Ha.
    transitivity (popped_ st ++ task_contents (l1 ++ l2) ++
                  dpush ++ local_contents (list_ t) ++ contents (stacks st)); [solve_Permutation|].
    rewrite Hp. solve_Permutation.
Qed.

Lemma initial_inv st : initial st -> mark_inv st /\ none_asleep st.
Proof.
  intros (Hs & Hb & Hpu & Hpo & Hne & Ht). split.
  2: { intros _. eapply Forall_impl; [|exact Ht]. by intros t [-> _]. }
  assert (task_contents (tasks st) = [] /\ busy_count (tasks st) = 0) as [E1 E2].
  { clear -Ht. induction Ht as [|t l [Ha Hl] _ [IH1 IH2]]; [done|].
    rewrite busy_count_cons, IH2. unfold task_contents in *. cbn [map concat]. rewrite Hl, IH1.
    unfold is_busy. by rewrite Ha. }
  split; [done | | by rewrite Hb, E2 | | | by rewrite Hpu, Hpo, E1].
  - eapply Forall_impl; [|exact Ht]. intros t [_ [E3 E4]%app_eq_nil]. unfold worklist_wf.
    rewrite E3, E4. cbn. lia.
  - eapply Forall_impl; [|exact Ht]. by intros t [].
  - intros _. destruct Ht as [|t l [Ha _] _]; [done|]. exists t. split; [left | by right].
Qed.

Context (Hk : (0 < kSize)%nat).

(** A busy task is counted. *)
Lemma busy_positive st i t : mark_inv st -> tasks st !! i = Some t ->
  Z.b2z (is_busy t) <= num_busy st.
Proof using Hk.
  intros Hi Ht. destruct (tasks_split _ _ _ Ht) as (l1 & l2 & E & _).
  rewrite (inv_busy st Hi), E, busy_count_middle. unfold busy_count. lia.
Qed.

(** A task that leaves the monitor has lost nothing and notifies nobody: it has a block and is
    busy, or is done, or sleeps. *)
Lemma leave_wait_spec st w r s busy0 n t s' busy : stacks_wf kSize (stacks st) -> worklist_wf kSize w ->
  local_contents w = [] ->
  (r, s, busy) = (Return None, stacks st, busy0) \/ (r, s, busy) = WaitForWork_loop (stacks st) busy0 ->
  leave_wait w r s = (n, t, s') ->
  n = false /\ stacks_wf kSize s' /\ worklist_wf kSize (list_ t) /\ busy = busy0 + Z.b2z (is_busy t) /\
  (at_ t = Working \/ (at_ t = Waiting /\ (r, s, busy) = WaitForWork_loop (stacks st) busy0) \/
   (at_ t = Done /\ r = Return None)) /\
  (at_ t <> Working -> list_ t = w /\ s' = stacks st) /\
  (at_ t = Working -> local_contents (list_ t) <> []) /\
  local_contents (list_ t) ++ contents s' ≡ₚ contents (stacks st).
Proof using Hk.
  intros Hs Hw Hl Hr HL.
  assert ((r, s, busy) = (Return None, stacks st, busy0) -> n = false /\ t = {| at_ := Done; list_ := w |} /\ s' = stacks st /\ busy = busy0 /\ r = Return None) as HN.
  { intros [= -> -> ->]. cbn in HL. by injection HL as <- <- <-. }
  destruct Hr as [Hr|Hr].
  { destruct (HN Hr) as (-> & -> & -> & -> & ->). split_and!; try done; [cbn; lia | by right; right | cbn [list_]; by rewrite Hl]. }
  destruct (WaitForWork_loop_spec kSize Hk (stacks st) busy0 Hs) as [(b & s1 & E & Hb & Hbl & Hs1 & P)|[E Hc]];
    pose proof Hr as Hr'; rewrite E in Hr'; injection Hr' as -> -> ->; cbn in HL.
  - apply app_eq_nil in Hl as [Ei Eo]. destruct Hw as [Hwo Hwi].
    pose proof (PushBlock_empty kSize Hk (local_input_ w) s1 Ei) as Hn.
    destruct (PushBlockImpl_spec kSize (local_input_ w) s1 Hs1 Hwi) as [Hs2 P2]. unfold PushBlock in *.
    destruct (PushBlockImpl kSize (local_input_ w) s1) as [n2 s2]. cbn [fst snd] in *.
    injection HL as <- <- <-. split_and!; try done; [by left | |].
    + unfold local_contents. cbn. by rewrite Eo, app_nil_r.
    + unfold local_contents. cbn. by rewrite P2, Ei, Eo, app_nil_r.
  - injection HL as <- <- <-. split_and!; try done; [cbn; lia | right; left; by rewrite E | cbn [list_]; by rewrite Hl].
Qed.

(** The two ways out of the monitor. *)
Lemma WaitForWork_cases s busy all r s1 busy1 : WaitForWork s busy = (all, (r, s1, busy1)) ->
  (all = true /\ busy = 1 /\ (r, s1, busy1) = (Return None, s, busy - 1)) \/
  (all = false /\ busy <> 1 /\ (r, s1, busy1) = WaitForWork_loop s (busy - 1)).
Proof using.
  unfold WaitForWork. destruct (Z.eqb_spec busy 1); intros E; injection E as <- E; [left | right];
    split_and!; congruence.
Qed.
Lemma WaitForWork_woken_cases s busy r s1 busy1 : WaitForWork_woken s busy = (r, s1, busy1) ->
  (busy = 0 /\ (r, s1, busy1) = (Return None, s, busy)) \/
  (busy <> 0 /\ (r, s1, busy1) = WaitForWork_loop s busy).
Proof using. unfold WaitForWork_woken. destruct (Z.eqb_spec busy 0); intros E; [left | right]; split; congruence. Qed.

(** Leaving the monitor keeps the invariant. *)
Lemma inv_leave st i t0 r s busy0 n t s' busy l : mark_inv st -> tasks st !! i = Some t0 ->
  at_ t0 = SawEmpty \/ at_ t0 = Notified -> busy0 = num_busy st - Z.b2z (is_busy t0) ->
  (r, s, busy) = (Return None, stacks st, busy0) \/ (r, s, busy) = WaitForWork_loop (stacks st) busy0 ->
  leave_wait (list_ t0) r s = (n, t, s') -> woken (<[i := t]> (tasks st)) l -> mark_inv (after st l s' busy).
Proof using Hk.
  intros Hinv Ht Hat Hb0 Hr HV Hl. pose proof Hinv as [Hs HL _ Hi _ _].
  assert (local_contents (list_ t0) = []) as HI.
  { apply (Forall_lookup_1 _ _ _ _ Hi Ht). by destruct Hat as [-> | ->]. }
  pose proof (Forall_lookup_1 _ _ _ _ HL Ht) as Hw. cbn in Hw.
  destruct (leave_wait_spec st _ _ _ _ _ _ _ _ Hs Hw HI Hr HV) as (_ & Hs' & Hw' & Hb & _ & Hn & _ & P).
  apply (inv_replace st i t0 t s' busy [] [] l Hinv Ht Hl Hs' Hw'); [lia | | |].
  - intros Hnw. by destruct (Hn Hnw) as [-> _].
  - intros Hc. destruct (decide (at_ t = Working)) as [|Hnw]; [by left|]. right.
    destruct (Hn Hnw) as [_ ->]. split; [done|]. by destruct Hat as [-> | ->].
  - cbn [app]. by rewrite HI, P.
Qed.

Lemma drain_inv st st' : mark_inv st -> drain_step st st' -> mark_inv st'.
Proof using Hk.
  intros Hinv Hstep. pose proof Hinv as [Hs Hl Hb Hi Hw Ha].
  assert (forall i t, tasks st !! i = Some t -> worklist_wf kSize (list_ t)) as HL.
  { intros i t Ht. by apply (Forall_lookup_1 _ _ i t) in Hl. }
  destruct Hstep as [i w Ht|i w n w' s' obj l Ht HP HN|i w n w' s' l Ht HP HN
    |i w all r s busy n t s' l Ht HW HV HN|i w r s busy n t s' l Ht HW HV HN];
    pose proof (HL _ _ Ht) as Hwl; cbn [list_] in Hwl.
  - apply (inv_replace st i _ _ _ _ [] [] _ Hinv Ht (woken_refl _)); cbn; [done | done | lia | done | by left | done].
  - destruct (Pop_spec kSize Hk w (stacks st) Hwl Hs) as (r & w1 & s1 & E & Hw1 & Hs1 & P).
    rewrite E in HP. injection HP as <- -> -> ->.
    apply (inv_replace st i _ _ _ _ [] [obj] _ Hinv Ht (Notify_woken _ _ _ HN));
      cbn; [done | done | lia | done | by left | by rewrite P].
  - destruct (Pop_spec kSize Hk w (stacks st) Hwl Hs) as (r & w1 & s1 & E & Hw1 & Hs1 & P).
    rewrite E in HP. injection HP as <- -> -> ->. destruct P as (-> & -> & P1 & P2).
    apply (inv_replace st i _ _ _ _ [] [] _ Hinv Ht (Notify_woken _ _ _ HN));
      cbn; [done | done | lia | done | by rewrite P2 | done].
  - assert (woken (<[i := t]> (tasks st)) l) as Hwk.
    { eapply woken_trans; [|by eapply Notify_woken]. destruct all; [apply NotifyAll_woken | apply woken_refl]. }
    apply WaitForWork_cases in HW.
    apply (inv_leave st i _ r s (num_busy st - 1) n t s' busy l Hinv Ht); [by left | cbn; lia | | done | done].
    destruct HW as [(_ & _ & ->)|(_ & _ & ->)]; auto.
  - apply WaitForWork_woken_cases in HW.
    apply (inv_leave st i _ r s (num_busy st) n t s' busy l Hinv Ht);
      [by right | cbn; lia | | done | by eapply Notify_woken].
    destruct HW as [(_ & ->)|(_ & ->)]; auto.
Qed.

Lemma step_inv st st' : mark_inv st -> mark_step st st' -> mark_inv st'.
Proof using Hk.
  intros Hinv [st1 Hd|i w n w' s' obj l Ht HP HN|i t Ht Hat].
  - by eapply drain_inv.
  - pose proof (Forall_lookup_1 _ _ _ _ (inv_lists st Hinv) Ht) as Hwl. cbn in Hwl.
    destruct (Push_spec kSize Hk obj w (stacks st) Hwl (inv_stacks st Hinv)) as (n1 & w1 & s1 & E & Hw1 & Hs1 & P & _).
    rewrite E in HP. injection HP as -> -> ->.
    apply (inv_replace st i _ _ _ _ [obj] [] _ Hinv Ht (Notify_woken _ _ _ HN));
      cbn; [done | done | lia | done | by left | by rewrite P].
  - apply (mark_inv_woken st _ Hinv). eapply Notify_woken. by constructor.
Qed.

(** A task sleeps only while another is busy. *)
Lemma leave_awake st i t0 r s busy0 n t s' busy l : mark_inv st -> tasks st !! i = Some t0 ->
  at_ t0 = SawEmpty \/ at_ t0 = Notified -> 0 < busy0 ->
  (r, s, busy) = WaitForWork_loop (stacks st) busy0 ->
  leave_wait (list_ t0) r s = (n, t, s') -> none_asleep (after st l s' busy).
Proof using Hk.
  intros Hinv Ht Hat Hb0 Hr HV Hz. exfalso. cbn in Hz. pose proof Hinv as [Hs HL _ Hi _ _].
  assert (local_contents (list_ t0) = []) as HI.
  { apply (Forall_lookup_1 _ _ _ _ Hi Ht). by destruct Hat as [-> | ->]. }
  pose proof (Forall_lookup_1 _ _ _ _ HL Ht) as Hw. cbn in Hw.
  destruct (leave_wait_spec st _ _ _ _ _ _ _ _ Hs Hw HI (or_intror Hr) HV) as (_ & _ & _ & Hb & _).
  destruct (is_busy t); cbn in Hb; lia.
Qed.

Lemma drain_awake st st' : mark_inv st -> none_asleep st -> drain_step st st' -> none_asleep st'.
Proof using Hk.
  intros Hinv Hna Hstep.
  destruct Hstep as [i w Ht|i w n w' s' obj l Ht HP HN|i w n w' s' l Ht HP HN
    |i w all r s busy n t s' l Ht HW HV HN|i w r s busy n t s' l Ht HW HV HN];
    pose proof (busy_positive st i _ Hinv Ht) as Hpos; cbn in Hpos; try (intros Hz; cbn in Hz; lia).
  - apply WaitForWork_cases in HW as [(-> & Hb & [= -> -> ->])|(-> & Hb & HW)].
    + cbn in HV. injection HV as <- <- <-. apply Notify_not in HN as ->. intros _. apply NotifyAll_none.
    + by eapply (leave_awake st i _ _ _ (num_busy st - 1)); [| |left|lia| |].
  - apply WaitForWork_woken_cases in HW as [(Hb & [= -> -> ->])|(Hb & HW)].
    + cbn in HV. injection HV as <- <- <-. apply Notify_not in HN as ->. intros _. cbn.
      apply Forall_insert; [by apply Hna | done].
    + by eapply (leave_awake st i _ _ _ (num_busy st)); [| |right|lia| |].
Qed.

Lemma step_awake st st' : mark_inv st -> none_asleep st -> mark_step st st' -> none_asleep st'.
Proof using Hk.
  intros Hinv Hna [st1 Hd|i w n w' s' obj l Ht HP HN|i t Ht Hat].
  - by eapply drain_awake.
  - pose proof (busy_positive st i _ Hinv Ht) as Hpos. intros Hz. cbn in Hz, Hpos. lia.
  - intros Hz. cbn in Hz. by destruct (Forall_lookup_1 _ _ _ _ (Hna Hz) Ht).
Qed.

Lemma steps_inv st st' : initial st -> mark_steps st st' -> mark_inv st' /\ none_asleep st'.
Proof using Hk.
  intros Hi Hs. induction Hs as [|st st1 st2 _ IH Hstep]; [by apply initial_inv|].
  destruct (IH Hi). split; [by eapply step_inv | by eapply step_awake].
Qed.

(** When every task has left the loop, all work is done. *)
Lemma all_done st : mark_inv st -> Forall (fun t => at_ t = Done) (tasks st) ->
  num_busy st = 0 /\ contents (stacks st) = [] /\ task_contents (tasks st) = [] /\
  pushed_ st ≡ₚ popped_ st.
Proof using.
  intros [Hs Hl Hb Hi Hw Ha] Hd.
  assert (contents (stacks st) = []) as Hc.
  { destruct (contents (stacks st)) as [|x l] eqn:E; [done|].
    destruct Hw as (t & Ht & Hat); [done|]. rewrite Forall_forall in Hd.
    rewrite (Hd t) in Hat by by apply list_elem_of_In. by destruct Hat. }
  assert (busy_count (tasks st) = 0 /\ task_contents (tasks st) = []) as [E1 E2].
  { clear -Hd Hi. induction Hd as [|t l Ht _ IH]; [done|].
    apply Forall_cons_iff in Hi as [Hit Hi]. destruct (IH Hi) as [IH1 IH2].
    rewrite busy_count_cons, IH1. unfold task_contents in *. cbn [map concat]. rewrite Hit, IH2 by by rewrite Ht.
    unfold is_busy. by rewrite Ht. }
  split_and!; [by rewrite Hb | done | done |]. rewrite Ha, Hc, E2. cbn. by rewrite app_nil_r.
Qed.

(** [Pop] puts nothing on the shared stack. *)
Lemma Pop_shared w s n r w' s' : worklist_wf kSize w -> stacks_wf kSize s -> Pop kSize w s = Ok (n, r, w', s') ->
  (length (contents s') <= length (contents s))%nat.
Proof using Hk.
  intros [Ho Hi] Hs. unfold Pop.
  assert (forall n1 inp out s1, ('(obj, inp') ← Block_Pop inp;
            Ok (n1, Some obj, {| local_output_ := out; local_input_ := inp' |}, s1)) = Ok (n, r, w', s') -> s' = s1) as Hp.
  { intros n1 inp out s1. by intros ([obj inp'] & _ & [= _ _ _ <-])%result_bind_Ok. }
  destruct (Block_IsEmpty (local_input_ w)) eqn:Ei; [|by intros ->%Hp].
  destruct (negb (Block_IsEmpty (local_output_ w))); [by intros ->%Hp|].
  pose proof (PopNonEmptyBlock_spec kSize s Hk Hs) as P. destruct (PopNonEmptyBlock s) as [[b|] s1].
  - destruct P as (_ & _ & Hs1 & P). unfold PushBlock.
    destruct (PushBlockImpl_spec kSize (local_input_ w) s1 Hs1 Hi) as [_ P2].
    destruct (PushBlockImpl kSize (local_input_ w) s1) as [n2 s2]. cbn [snd] in P2. intros ->%Hp.
    apply Block_IsEmpty_spec in Ei. rewrite Ei in P2. apply Permutation_length in P, P2.
    rewrite length_app in P. cbn [app] in P2. lia.
  - destruct P as [-> _]. by intros [= _ _ _ <-].
Qed.

(** Only a push puts work on an empty shared stack. *)
Lemma leave_empty st i t0 r s busy0 n t s' busy : mark_inv st -> tasks st !! i = Some t0 ->
  at_ t0 = SawEmpty \/ at_ t0 = Notified ->
  (r, s, busy) = (Return None, stacks st, busy0) \/ (r, s, busy) = WaitForWork_loop (stacks st) busy0 ->
  leave_wait (list_ t0) r s = (n, t, s') -> contents (stacks st) = [] -> contents s' = [].
Proof using Hk.
  intros [Hs HL _ Hi _ _] Ht Hat Hr HV Hc.
  assert (local_contents (list_ t0) = []) as HI.
  { apply (Forall_lookup_1 _ _ _ _ Hi Ht). by destruct Hat as [-> | ->]. }
  pose proof (Forall_lookup_1 _ _ _ _ HL Ht) as Hw. cbn in Hw.
  destruct (leave_wait_spec st _ _ _ _ _ _ _ _ Hs Hw HI Hr HV) as (_ & _ & _ & _ & _ & _ & _ & P).
  rewrite Hc in P. apply Permutation_nil_r, app_eq_nil in P. by destruct P.
Qed.

Lemma drain_empty st st' : mark_inv st -> drain_step st st' -> contents (stacks st) = [] -> contents (stacks st') = [].
Proof using Hk.
  intros Hinv Hstep Hc. pose proof Hinv as [Hs HL _ _ _ _].
  assert (forall w n r w' s', worklist_wf kSize w -> Pop kSize w (stacks st) = Ok (n, r, w', s') -> contents s' = []) as HPop.
  { intros w n r w' s' Hw HP%(Pop_shared _ _ _ _ _ _ Hw Hs). rewrite Hc in HP. destruct (contents s'); [done | cbn in HP; lia]. }
  destruct Hstep as [i w Ht|i w n w' s' obj l Ht HP HN|i w n w' s' l Ht HP HN
    |i w all r s busy n t s' l Ht HW HV HN|i w r s busy n t s' l Ht HW HV HN]; cbn.
  - done.
  - by apply (HPop _ _ _ _ _ (Forall_lookup_1 _ _ _ _ HL Ht) HP).
  - by apply (HPop _ _ _ _ _ (Forall_lookup_1 _ _ _ _ HL Ht) HP).
  - apply (leave_empty st i _ r s (num_busy st - 1) n t s' busy Hinv Ht); [by left | | done | done].
    apply WaitForWork_cases in HW as [(_ & _ & ->)|(_ & _ & ->)]; auto.
  - apply (leave_empty st i _ r s (num_busy st) n t s' busy Hinv Ht); [by right | | done | done].
    apply WaitForWork_woken_cases in HW as [(_ & ->)|(_ & ->)]; auto.
Qed.

(** The first block on an empty shared stack wakes a sleeping task, if there is one. *)
Lemma first_block_wakes st st' j u : mark_inv st -> mark_step st st' ->
  contents (stacks st) = [] -> contents (stacks st') <> [] -> tasks st !! j = Some u -> at_ u = Waiting ->
  exists i, at_ <$> tasks st !! i = Some Waiting /\ at_ <$> tasks st' !! i = Some Notified.
Proof using Hk.
  intros Hinv Hstep Hc Hc' Hu Hau. pose proof Hinv as [Hs HL _ Hi _ _].
  assert (forall i t, tasks st !! i = Some t -> worklist_wf kSize (list_ t)) as HW.
  { intros i t Ht. by apply (Forall_lookup_1 _ _ i t) in HL. }
  destruct Hstep as [st1 Hd|i w n w' s' obj l Ht HP HN|i t Ht Hat]; [|cbn in Hc'|done].
  - exfalso. by apply Hc', (drain_empty st st1).
  - destruct (Push_spec kSize Hk obj w (stacks st) (HW _ _ Ht) Hs) as (n1 & w1 & s1 & E & _ & _ & _ & Hn).
    rewrite E in HP. injection HP as -> -> ->. rewrite (Hn Hc Hc') in HN.
    assert (i <> j) as Hij by (intros ->; rewrite Ht in Hu; injection Hu as <-; done).
    inversion HN as [|l0 HF|l0 k t' Hk' Hat']; subst.
    + exfalso. eapply (Forall_lookup_1 _ _ j u HF); [|done]. by rewrite list_lookup_insert_ne.
    + assert (i <> k) as Hik.
      { intros ->. rewrite list_lookup_insert_eq in Hk' by by eapply lookup_lt_Some. by injection Hk' as <-. }
      pose proof (lookup_lt_Some _ _ _ Hk') as Hlt. rewrite list_lookup_insert_ne in Hk' by done.
      exists k. rewrite Hk'. cbn. rewrite list_lookup_insert_eq by done. rewrite Hat'.
      split; [done|]. cbn. unfold wake. by rewrite decide_True.
Qed.
End Protocol.

(** * Parallel marking ends

    Tasks that push no more work cannot go on forever and are never stuck: every step other
    than a push and a spurious wake-up lowers [weight], and as long as a task is not done some
    task can take such a step.  [WaitForWork] therefore neither deadlocks nor misses work. *)

Section Progress.
Context `{Target} (kSize : nat) (Hk : (0 < kSize)%nat).
#[local] Set Default Proof Using "Hk".

Inductive drain_steps : marking -> marking -> Prop :=
| drain_refl st : drain_steps st st
| drain_next st st' st'' : drain_step kSize st st' -> drain_steps st' st'' -> drain_steps st st''.

(** With [n] tasks: [NotifyAll] makes every other task heavier by one, and its caller is done. *)
Definition phase_weight (n : nat) (p : phase) : nat :=
  match p with
  | NotStarted => n + 5 | Working => n + 4 | SawEmpty => n + 3 | Notified => n + 2 | Waiting => n + 1 | Done => 0
  end.
Definition task_weight (n : nat) (t : task) : nat := phase_weight n (at_ t) + length (local_contents (list_ t)).
Definition tasks_weight (n : nat) (l : list task) : nat := list_sum (map (task_weight n) l).

(** A pointer weighs more on the shared stack than in a work list. *)
Definition weight (st : marking) : nat :=
  4 * length (contents (stacks st)) + tasks_weight (length (tasks st)) (tasks st).

Lemma tasks_weight_replace n l i t t' : l !! i = Some t ->
  (tasks_weight n (<[i := t']> l) + task_weight n t = tasks_weight n l + task_weight n t')%nat.
Proof.
  intros Ht. destruct (tasks_split _ _ _ Ht) as (l1 & l2 & E & Hins).
  unfold tasks_weight. rewrite Hins, E, !map_app, !list_sum_app. cbn [map]. unfold list_sum. cbn [fold_right]. lia.
Qed.

Lemma NotifyAll_weight n l : (tasks_weight n (NotifyAll l) <= tasks_weight n l + length l)%nat.
Proof.
  unfold tasks_weight, NotifyAll, list_sum. induction l as [|t l IH]; [done|]. cbn [map fold_right length].
  assert (task_weight n (wake t) <= task_weight n t + 1)%nat; [|lia].
  unfold task_weight, wake. case_decide as E; [|lia]. rewrite E. cbn. lia.
Qed.

(** A step that moves one task. *)
Lemma weight_replace st i t t' s' busy pu po : tasks st !! i = Some t ->
  (4 * length (contents s') + task_weight (length (tasks st)) t' <
   4 * length (contents (stacks st)) + task_weight (length (tasks st)) t)%nat ->
  (weight {| stacks := s'; tasks := <[i := t']> (tasks st); num_busy := busy; pushed_ := pu; popped_ := po |} < weight st)%nat.
Proof.
  intros Ht Hw. unfold weight. cbn [stacks tasks]. rewrite length_insert.
  pose proof (tasks_weight_replace (length (tasks st)) _ _ _ t' Ht). lia.
Qed.

(** Leaving the monitor with a block, or asleep, or done. *)
Lemma leave_decreases st i t0 r s busy0 n t s' busy : mark_inv kSize st -> tasks st !! i = Some t0 ->
  at_ t0 = SawEmpty \/ at_ t0 = Notified ->
  (r, s, busy) = (Return None, stacks st, busy0) \/ (r, s, busy) = WaitForWork_loop (stacks st) busy0 ->
  leave_wait kSize (list_ t0) r s = (n, t, s') ->
  n = false /\ (weight (after st (<[i := t]> (tasks st)) s' busy) < weight st)%nat.
Proof.
  intros [Hs HL _ Hi _ _] Ht Hat Hr HV.
  assert (local_contents (list_ t0) = []) as HI.
  { apply (Forall_lookup_1 _ _ _ _ Hi Ht). by destruct Hat as [-> | ->]. }
  pose proof (Forall_lookup_1 _ _ _ _ HL Ht) as Hw. cbn in Hw.
  destruct (leave_wait_spec kSize Hk st _ _ _ _ _ _ _ _ Hs Hw HI Hr HV) as (-> & _ & _ & _ & Hcases & Hn & Hne & P).
  split; [done|]. apply (weight_replace st i t0 t _ _ _ _ Ht). unfold task_weight. rewrite HI.
  apply Permutation_length in P. rewrite length_app in P.
  assert (length (tasks st) + 2 <= phase_weight (length (tasks st)) (at_ t0))%nat by (destruct Hat as [-> | ->]; cbn; lia).
  destruct Hcases as [E|Hcases].
  - specialize (Hne E). rewrite E. cbn [phase_weight length].
    assert (0 < length (local_contents (list_ t)))%nat by (destruct (local_contents (list_ t)); [done | cbn; lia]). lia.
  - assert (at_ t <> Working /\ (phase_weight (length (tasks st)) (at_ t) <= length (tasks st) + 1)%nat) as [E Hle]
      by (destruct Hcases as [[-> _]|[-> _]]; cbn; split; (done || lia)).
    destruct (Hn E) as [-> ->]. rewrite HI. cbn [length]. lia.
Qed.

Lemma drain_decreases st st' : mark_inv kSize st -> drain_step kSize st st' -> (weight st' < weight st)%nat.
Proof.
  intros Hinv Hstep. pose proof Hinv as [Hs Hl Hb Hi Hw Ha].
  destruct Hstep as [i w Ht|i w n w' s' obj l Ht HP HN|i w n w' s' l Ht HP HN
    |i w all r s busy n t s' l Ht HW HV HN|i w r s busy n t s' l Ht HW HV HN].
  - apply (weight_replace st i _ _ _ _ _ _ Ht). unfold task_weight. cbn. lia.
  - pose proof (Forall_lookup_1 _ _ _ _ Hl Ht) as Hwl. cbn in Hwl.
    pose proof (Pop_shared kSize Hk _ _ _ _ _ _ Hwl Hs HP) as Hsh.
    destruct (Pop_spec kSize Hk w (stacks st) Hwl Hs) as (r & w1 & s1 & E & _ & _ & P).
    rewrite E in HP. injection HP as <- -> -> ->. apply Notify_not in HN as ->.
    apply (weight_replace st i _ _ _ _ _ _ Ht). unfold task_weight. cbn [at_ list_ phase_weight stacks after].
    apply Permutation_length in P. cbn [length] in P. rewrite !length_app in P. lia.
  - pose proof (Forall_lookup_1 _ _ _ _ Hl Ht) as Hwl. cbn in Hwl.
    destruct (Pop_spec kSize Hk w (stacks st) Hwl Hs) as (r & w1 & s1 & E & _ & _ & P).
    rewrite E in HP. injection HP as <- -> -> ->. destruct P as (-> & -> & _ & _). apply Notify_not in HN as ->.
    apply (weight_replace st i _ _ _ _ _ _ Ht). unfold task_weight. cbn. lia.
  - apply WaitForWork_cases in HW as [(-> & _ & [= -> -> ->])|(-> & _ & HW)].
    + cbn in HV. injection HV as <- <- <-. apply Notify_not in HN as ->. unfold weight, after. cbn [stacks tasks].
      pose proof (NotifyAll_weight (length (tasks st)) (<[i := {| at_ := Done; list_ := w |}]> (tasks st))) as H1.
      pose proof (tasks_weight_replace (length (tasks st)) _ _ _ {| at_ := Done; list_ := w |} Ht) as H2.
      unfold NotifyAll in *. rewrite length_map, length_insert in *.
      unfold task_weight in H2. cbn [at_ list_ phase_weight] in H2. lia.
    + destruct (leave_decreases st i _ r s _ n t s' busy Hinv Ht ltac:(by left) (or_intror HW) HV) as [-> HD].
      by apply Notify_not in HN as ->.
  - assert (n = false /\ (weight (after st (<[i := t]> (tasks st)) s' busy) < weight st)%nat) as [-> HD].
    { apply (leave_decreases st i _ r s (num_busy st) n t s' busy Hinv Ht); [by right | | done].
      apply WaitForWork_woken_cases in HW as [(_ & ->)|(_ & ->)]; auto. }
    by apply Notify_not in HN as ->.
Qed.

(** [Notify] has a result. *)
Lemma Notify_total n l : exists l', Notify n l l'.
Proof.
  destruct n; [|eexists; constructor].
  destruct (decide (Forall (fun t => at_ t <> Waiting) l)) as [HF|HF]; [eexists; by constructor|].
  apply not_Forall_Exists in HF; [|intros t; apply _].
  apply list.Exists_exists in HF as (t & [i Ht]%list_elem_of_lookup & Hn%dec_stable). eexists. by eapply notify_one.
Qed.

(** A task that is neither asleep nor done can move. *)
Lemma task_moves st i t : mark_inv kSize st -> tasks st !! i = Some t -> at_ t <> Waiting -> at_ t <> Done ->
  exists st', drain_step kSize st st'.
Proof.
  intros [Hs Hl _ _ _ _] Ht Hn1 Hn2. destruct t as [p w]. destruct p; cbn in Hn1, Hn2; try done.
  - eexists. by eapply step_start.
  - destruct (Pop_spec kSize Hk w (stacks st) (Forall_lookup_1 _ _ _ _ Hl Ht) Hs) as ([obj|] & w1 & s1 & E & _);
      (edestruct Notify_total as [l HN]; eexists); [by eapply step_pop | by eapply step_pop_none].
  - destruct (WaitForWork (stacks st) (num_busy st)) as [all [[r s] busy]] eqn:EW.
    destruct (leave_wait kSize w r s) as [[n t] s'] eqn:EV. edestruct Notify_total as [l HN]. eexists.
    by eapply step_enter.
  - destruct (WaitForWork_woken (stacks st) (num_busy st)) as [[r s] busy] eqn:EW.
    destruct (leave_wait kSize w r s) as [[n t] s'] eqn:EV. edestruct Notify_total as [l HN]. eexists.
    by eapply step_woken.
Qed.

(** Some task can move until all are done: when all that are left sleep, none is busy, and
    then none sleeps. *)
Lemma can_drain st : mark_inv kSize st -> none_asleep st -> ~ Forall (fun t => at_ t = Done) (tasks st) ->
  exists st', drain_step kSize st st'.
Proof.
  intros Hinv Hna Hd. apply not_Forall_Exists in Hd; [|intros t; apply _].
  apply list.Exists_exists in Hd as (t & [i Ht]%list_elem_of_lookup & Hn).
  destruct (decide (at_ t = Waiting)) as [Hat|Hat]; [|by eapply task_moves].
  destruct (Z.eq_dec (num_busy st) 0) as [E|E].
  { by destruct (Forall_lookup_1 _ _ _ _ (Hna E) Ht). }
  rewrite (inv_busy _ st Hinv) in E. unfold busy_count in E.
  destruct (filter (fun t => is_busy t = true) (tasks st)) as [|u l] eqn:F; [done|].
  assert (u ∈ filter (fun t => is_busy t = true) (tasks st)) as [Hu [j Hj]%list_elem_of_lookup]%list_elem_of_filter
    by (rewrite F; left).
  apply (task_moves st j u Hinv Hj); intros Eu; unfold is_busy in Hu; by rewrite Eu in Hu.
Qed.

Lemma drain_keeps_pushed st st' : drain_step kSize st st' -> pushed_ st' = pushed_ st.
Proof. by intros []. Qed.

(** No run without pushes is infinite. *)
Lemma drain_acc st : mark_inv kSize st -> Acc (fun a b => drain_step kSize b a) st.
Proof.
  induction st as [st IH] using (well_founded_induction (wf_inverse_image _ _ _ weight Nat.lt_wf_0)).
  intros Hi. constructor. intros st' Hs. apply IH; [by apply drain_decreases | by eapply drain_inv].
Qed.

(** Every such run can be continued until all tasks are done. *)
Lemma drain_completes st : mark_inv kSize st -> none_asleep st ->
  exists st', drain_steps st st' /\ mark_inv kSize st' /\ Forall (fun t => at_ t = Done) (tasks st') /\
    pushed_ st' = pushed_ st.
Proof.
  intros Hi Ha. induction (drain_acc st Hi) as [st _ IH].
  destruct (decide (Forall (fun t => at_ t = Done) (tasks st))) as [Hd|Hd].
  - exists st. split_and!; [apply drain_refl | done | done | done].
  - destruct (can_drain st Hi Ha Hd) as [st1 Hs].
    destruct (IH st1 Hs (drain_inv _ Hk _ _ Hi Hs) (drain_awake _ Hk _ _ Hi Ha Hs)) as (st' & Hr & Hi' & Hd' & Hp).
    exists st'. split_and!; [by eapply drain_next | done | done | rewrite Hp; by apply drain_keeps_pushed].
Qed.
End Progress.
