(* ===== verification/WriteBarrier.v ===== *)
(** * The write barrier of the runtime

    [UntaggedObject::StorePointer] and [CheckHeapPointerStore] of
    [src/runtime/vm/raw_object.h] with the methods of [Thread]
    ([src/runtime/vm/thread.cc]) they call.  A heap maps the address of an object to its
    header word and its pointer fields; a pointer is the address plus [kHeapObjectTag]. *)
From S2P Require Import Prelude Utils Constants Words SimState Exec Macros ObjectHeader PointerBlocks WorkLists.

Definition kHeapObjectTag : Z := 1.
Definition kStoreBufferBlockSize : nat := 1024.
Definition kMarkingStackBlockSize : nat := 64.

Record object := { tags_ : Z; fields_ : list Z }.

(** The heap, the block stacks of the isolate group, and the mutator thread; the stacks of
    one block size share their cache of empty blocks.  A block pointer is [None] for
    [NULL]. *)
Record Heap := {
  objects : gmap Z object;
  store_buffer : Stacks;
  marking_stack : BlockStack;
  deferred_marking_stack : BlockStack;
  empty_marking_blocks : list Block;
  store_buffer_block_ : option Block;
  marking_stack_block_ : option Block;
  deferred_marking_stack_block_ : option Block;
  write_barrier_mask_ : Z;
  interrupt_scheduled : bool
}.

Definition with_objects (h : Heap) (v : gmap Z object) : Heap :=
  {| objects := v; store_buffer := store_buffer h; marking_stack := marking_stack h;
     deferred_marking_stack := deferred_marking_stack h;
     empty_marking_blocks := empty_marking_blocks h; store_buffer_block_ := store_buffer_block_ h;
     marking_stack_block_ := marking_stack_block_ h;
     deferred_marking_stack_block_ := deferred_marking_stack_block_ h;
     write_barrier_mask_ := write_barrier_mask_ h; interrupt_scheduled := interrupt_scheduled h |}.
Definition with_store_buffer (h : Heap) (s : Stacks) (b : option Block) (interrupt : bool) : Heap :=
  {| objects := objects h; store_buffer := s; marking_stack := marking_stack h;
     deferred_marking_stack := deferred_marking_stack h;
     empty_marking_blocks := empty_marking_blocks h; store_buffer_block_ := b;
     marking_stack_block_ := marking_stack_block_ h;
     deferred_marking_stack_block_ := deferred_marking_stack_block_ h;
     write_barrier_mask_ := write_barrier_mask_ h; interrupt_scheduled := interrupt |}.
Definition with_marking (h : Heap) (s : Stacks) (b : option Block) (m : Z) : Heap :=
  {| objects := objects h; store_buffer := store_buffer h; marking_stack := stack_ s;
     deferred_marking_stack := deferred_marking_stack h;
     empty_marking_blocks := global_empty_ s; store_buffer_block_ := store_buffer_block_ h;
     marking_stack_block_ := b;
     deferred_marking_stack_block_ := deferred_marking_stack_block_ h;
     write_barrier_mask_ := m; interrupt_scheduled := interrupt_scheduled h |}.
Definition with_deferred_marking (h : Heap) (s : Stacks) (b : option Block) : Heap :=
  {| objects := objects h; store_buffer := store_buffer h; marking_stack := marking_stack h;
     deferred_marking_stack := stack_ s;
     empty_marking_blocks := global_empty_ s; store_buffer_block_ := store_buffer_block_ h;
     marking_stack_block_ := marking_stack_block_ h;
     deferred_marking_stack_block_ := b;
     write_barrier_mask_ := write_barrier_mask_ h; interrupt_scheduled := interrupt_scheduled h |}.

Definition marking_stacks (h : Heap) : Stacks :=
  {| stack_ := marking_stack h; global_empty_ := empty_marking_blocks h |}.
Definition deferred_stacks (h : Heap) : Stacks :=
  {| stack_ := deferred_marking_stack h; global_empty_ := empty_marking_blocks h |}.

(** A use of a [NULL] block. *)
Definition the_block (b : option Block) : result Block :=
  match b with Some b => Ok b | None => Err (HostFault 0) end.

Section Barrier.
Context `{Target}.

(** ** [Thread]

    The threads here are mutators: no task sleeps on the stacks while they run, and the
    notifications of [PushBlock] reach nobody. *)

Inductive ThresholdPolicy := kCheckThreshold | kIgnoreThreshold.

Definition StoreBufferRelease (policy : ThresholdPolicy) (h : Heap) : result Heap :=
  block ← the_block (store_buffer_block_ h);
  let s := (PushBlock kStoreBufferBlockSize block (store_buffer h)).2 in
  let overflow := match policy with kCheckThreshold => Overflowed s | kIgnoreThreshold => false end in
  Ok (with_store_buffer h s None (interrupt_scheduled h || overflow)).
Definition StoreBufferAcquire (h : Heap) : Heap :=
  let '(b, s) := PopNonFullBlock (store_buffer h) in
  with_store_buffer h s (Some b) (interrupt_scheduled h).
Definition StoreBufferBlockProcess (policy : ThresholdPolicy) (h : Heap) : result Heap :=
  h ← StoreBufferRelease policy h; Ok (StoreBufferAcquire h).

Definition store_buffer_add (policy : ThresholdPolicy) (obj : ObjectPtr) (h : Heap) : result Heap :=
  block ← the_block (store_buffer_block_ h);
  block ← Block_Push kStoreBufferBlockSize block obj;
  let h := with_store_buffer h (store_buffer h) (Some block) (interrupt_scheduled h) in
  if IsFull kStoreBufferBlockSize block then StoreBufferBlockProcess policy h else Ok h.
Definition StoreBufferAddObject := store_buffer_add kCheckThreshold.
Definition StoreBufferAddObjectGC := store_buffer_add kIgnoreThreshold.

Definition MarkingStackRelease (h : Heap) : result Heap :=
  block ← the_block (marking_stack_block_ h);
  Ok (with_marking h (PushBlock kMarkingStackBlockSize block (marking_stacks h)).2 None
        kGenerationalBarrierMask).
Definition MarkingStackAcquire (h : Heap) : Heap :=
  let '(b, s) := PopEmptyBlock (marking_stacks h) in
  with_marking h s (Some b) (kGenerationalBarrierMask .| kIncrementalBarrierMask).
Definition MarkingStackBlockProcess (h : Heap) : result Heap :=
  h ← MarkingStackRelease h; Ok (MarkingStackAcquire h).
Definition MarkingStackAddObject (obj : ObjectPtr) (h : Heap) : result Heap :=
  block ← the_block (marking_stack_block_ h);
  block ← Block_Push kMarkingStackBlockSize block obj;
  let h := with_marking h (marking_stacks h) (Some block) (write_barrier_mask_ h) in
  if IsFull kMarkingStackBlockSize block then MarkingStackBlockProcess h else Ok h.

Definition DeferredMarkingStackRelease (h : Heap) : result Heap :=
  block ← the_block (deferred_marking_stack_block_ h);
  Ok (with_deferred_marking h (PushBlock kMarkingStackBlockSize block (deferred_stacks h)).2 None).
Definition DeferredMarkingStackAcquire (h : Heap) : Heap :=
  let '(b, s) := PopEmptyBlock (deferred_stacks h) in with_deferred_marking h s (Some b).
Definition DeferredMarkingStackBlockProcess (h : Heap) : result Heap :=
  h ← DeferredMarkingStackRelease h; Ok (DeferredMarkingStackAcquire h).
Definition DeferredMarkingStackAddObject (obj : ObjectPtr) (h : Heap) : result Heap :=
  block ← the_block (deferred_marking_stack_block_ h);
  block ← Block_Push kMarkingStackBlockSize block obj;
  let h := with_deferred_marking h (deferred_stacks h) (Some block) in
  if IsFull kMarkingStackBlockSize block then DeferredMarkingStackBlockProcess h else Ok h.

(** ** Pointers and headers *)

Definition IsWellFormed (value : ObjectPtr) : bool :=
  ((value .& kSmiTagMask) =? 0) || IsAligned (value - kHeapObjectTag) kWordSize.
Definition IsHeapObject (value : ObjectPtr) : result bool :=
  _ ← ASSERT (IsWellFormed value); Ok ((value .& kSmiTagMask) =? kHeapObjectTag).
(** [ASSERT(IsHeapObject())]: a release build does not evaluate the condition. *)
Definition assert_heap_object (value : ObjectPtr) : result unit :=
  if DEBUG then b ← IsHeapObject value; ASSERT b else Ok tt.
Definition ptr_IsNewObject (value : ObjectPtr) : result bool :=
  _ ← assert_heap_object value;
  Ok ((value .& kNewObjectAlignmentOffset) =? kNewObjectAlignmentOffset).
Definition ptr_IsOldObject (value : ObjectPtr) : result bool :=
  _ ← assert_heap_object value;
  Ok ((value .& kNewObjectAlignmentOffset) =? kOldObjectAlignmentOffset).
Definition untag (value : ObjectPtr) : Z := value - kHeapObjectTag.

Definition header (h : Heap) (addr : Z) : result Z :=
  match objects h !! addr with Some o => Ok (tags_ o) | None => Err (HostFault addr) end.
Definition set_header (h : Heap) (addr tags : Z) : Heap :=
  with_objects h (alter (fun o => {| tags_ := tags; fields_ := fields_ o |}) addr (objects h)).

Definition TryAcquireMarkBit (addr : Z) (h : Heap) : result (bool * Heap) :=
  _ ← ASSERT (IsOldObject addr);
  tags ← header h addr;
  let '(acquired, tags) := TryClear OldAndNotMarkedBit tags in
  Ok (acquired, set_header h addr tags).
Definition IsCardRemembered (tags : Z) : bool := negb (decode CardRememberedBit tags =? 0).
Definition TryAcquireRememberedBit (addr : Z) (h : Heap) : result (bool * Heap) :=
  tags ← header h addr;
  _ ← ASSERT (negb (IsCardRemembered tags));
  let '(acquired, tags) := TryClear OldAndNotRememberedBit tags in
  Ok (acquired, set_header h addr tags).
Definition EnsureInRememberedSet (addr : Z) (h : Heap) : result Heap :=
  '(acquired, h) ← TryAcquireRememberedBit addr h;
  if acquired : bool then StoreBufferAddObject (addr + kHeapObjectTag) h else Ok h.

(** ** The barrier *)

Definition barrier_needed (source_tags target_tags m : Z) : bool :=
  negb (((source_tags >> kBarrierOverlapShift) .& target_tags .& m) =? 0).

Definition CheckHeapPointerStore (this : Z) (value : ObjectPtr) (h : Heap) : result Heap :=
  source_tags ← header h this;
  target_tags ← header h (untag value);
  if barrier_needed source_tags target_tags (write_barrier_mask_ h) then
    is_new ← ptr_IsNewObject value;
    if is_new : bool then EnsureInRememberedSet this h
    else
      _ ← (if DEBUG then is_old ← ptr_IsOldObject value; ASSERT is_old else Ok tt);
      if decode ClassIdTag target_tags =? kInstructionsCid then DeferredMarkingStackAddObject value h
      else
        '(acquired, h) ← TryAcquireMarkBit (untag value) h;
        if acquired : bool then MarkingStackAddObject value h else Ok h
  else Ok h.

(** The store to field [i] of the object at [this]. *)
Definition set_field (h : Heap) (this : Z) (i : nat) (value : Z) : Heap :=
  with_objects h (alter (fun o => {| tags_ := tags_ o; fields_ := <[i := value]> (fields_ o) |})
                    this (objects h)).
Definition StorePointer (this : Z) (i : nat) (value : ObjectPtr) (h : Heap) : result Heap :=
  match objects h !! this with
  | Some o =>
      if (i <? length (fields_ o))%nat then
        let h := set_field h this i value in
        heap_object ← IsHeapObject value;
        if heap_object : bool then CheckHeapPointerStore this value h else Ok h
      else Err (HostFault this)
  | None => Err (HostFault this)
  end.
End Barrier.

(** ** The block invariant *)

Section Invariants.
Context `{Target}.

(** The pointers in the thread's block and in the stack. *)
Definition block_contents (b : option Block) : list ObjectPtr := default [] b.
Definition buffered (h : Heap) : list ObjectPtr :=
  block_contents (store_buffer_block_ h) ++ contents (store_buffer h).
Definition on_marking_stack (h : Heap) : list ObjectPtr :=
  block_contents (marking_stack_block_ h) ++ contents (marking_stacks h).
Definition on_deferred_stack (h : Heap) : list ObjectPtr :=
  block_contents (deferred_marking_stack_block_ h) ++ contents (deferred_stacks h).

(** A thread outside collections has a store buffer block; while marking is in progress it
    also has marking blocks, and the barrier mask says so. *)
Definition is_marking (h : Heap) : bool := Z.testbit (write_barrier_mask_ h) kOldAndNotMarkedBit.

Record blocks_inv (h : Heap) : Prop := {
  bi_buffer : stacks_wf kStoreBufferBlockSize (store_buffer h);
  bi_marking : stacks_wf kMarkingStackBlockSize (marking_stacks h);
  bi_deferred : stacks_wf kMarkingStackBlockSize (deferred_stacks h);
  bi_block : exists b, store_buffer_block_ h = Some b /\ (length b < kStoreBufferBlockSize)%nat;
  bi_mask : write_barrier_mask_ h =
    if is_marking h then kGenerationalBarrierMask .| kIncrementalBarrierMask else kGenerationalBarrierMask;
  bi_marking_block : is_marking h = true ->
    exists b, marking_stack_block_ h = Some b /\ (length b < kMarkingStackBlockSize)%nat;
  bi_deferred_block : is_marking h = true ->
    exists b, deferred_marking_stack_block_ h = Some b /\ (length b < kMarkingStackBlockSize)%nat
}.

(** The heap apart from the buffers. *)
Definition same_marking (h h' : Heap) : Prop :=
  objects h' = objects h /\ write_barrier_mask_ h' = write_barrier_mask_ h.

(** What the three methods do to a block and its stack: push, and exchange a full block. *)
Definition cycle (k : nat) (pop : Stacks -> Block * Stacks) (b : Block) (s : Stacks) (obj : ObjectPtr)
    : Block * Stacks :=
  if IsFull k (b ++ [obj]) then pop (PushBlock k (b ++ [obj]) s).2 else (b ++ [obj], s).

Lemma cycle_spec k pop b s obj : (0 < k)%nat -> stacks_wf k s -> (length b < k)%nat ->
  (forall s, stacks_wf k s -> (length (pop s).1 < k)%nat /\ stacks_wf k (pop s).2 /\
     (pop s).1 ++ contents (pop s).2 ≡ₚ contents s) ->
  let r := cycle k pop b s obj in
  (length r.1 < k)%nat /\ stacks_wf k r.2 /\ r.1 ++ contents r.2 ≡ₚ obj :: b ++ contents s.
Proof.
  intros Hk Hs Hb Hpop. cbv zeta. unfold cycle. destruct (IsFull k (b ++ [obj])) eqn:F.
  - apply IsFull_spec in F.
    destruct (PushBlockImpl_spec k (b ++ [obj]) s Hs ltac:(lia)) as [Hs1 P1].
    destruct (Hpop _ Hs1) as (Hl & Hs2 & P2). split_and!; [done | done |].
    unfold PushBlock. rewrite P2, P1. solve_Permutation.
  - apply not_true_iff_false in F. rewrite IsFull_spec, length_app in F. cbn in F.
    split_and!; [cbn; rewrite length_app; cbn; lia | done | cbn; solve_Permutation].
Qed.

Lemma PopEmptyBlock_cycle k s : (0 < k)%nat -> stacks_wf k s ->
  (length (PopEmptyBlock s).1 < k)%nat /\ stacks_wf k (PopEmptyBlock s).2 /\
  (PopEmptyBlock s).1 ++ contents (PopEmptyBlock s).2 ≡ₚ contents s.
Proof. intros Hk Hs. by destruct (PopEmptyBlock_spec k s Hs) as (-> & Hw & ->). Qed.

(** Stacks that share their cache of empty blocks. *)
Lemma share_cache k s1 s2 st : stacks_wf k {| stack_ := st; global_empty_ := s1 |} ->
  stacks_wf k s2 -> stacks_wf k {| stack_ := st; global_empty_ := global_empty_ s2 |}.
Proof. intros [] []. by split. Qed.

Lemma stacks_eta s : {| stack_ := stack_ s; global_empty_ := global_empty_ s |} = s.
Proof. by destruct s. Qed.

Lemma store_buffer_size : (0 < kStoreBufferBlockSize)%nat.
Proof. by apply Nat.ltb_lt. Qed.
Lemma marking_stack_size : (0 < kMarkingStackBlockSize)%nat.
Proof. by apply Nat.ltb_lt. Qed.

Lemma StoreBufferAddObject_spec obj h : blocks_inv h ->
  exists h', StoreBufferAddObject obj h = Ok h' /\ blocks_inv h' /\ same_marking h h' /\
    buffered h' ≡ₚ obj :: buffered h /\
    on_marking_stack h' = on_marking_stack h /\ on_deferred_stack h' = on_deferred_stack h.
Proof.
  intros [Hs Hm Hd (b & Eb & Hb) Hk Hmb Hdb].
  destruct (cycle_spec _ PopNonFullBlock b (store_buffer h) obj store_buffer_size Hs Hb)
    as (Hl & Hs' & P); [intros s; apply PopNonFullBlock_spec, store_buffer_size|].
  set (r := cycle _ _ _ _ _) in *.
  assert (exists i, StoreBufferAddObject obj h = Ok (with_store_buffer h r.2 (Some r.1) i)) as [i E].
  { unfold StoreBufferAddObject, store_buffer_add, r, cycle. rewrite Eb. cbn [the_block mbind result_bind].
    rewrite Block_Push_ok by done. cbn [mbind result_bind].
    destruct (IsFull kStoreBufferBlockSize (b ++ [obj])); [|by eexists].
    unfold StoreBufferBlockProcess, StoreBufferRelease. cbn [the_block store_buffer_block_ with_store_buffer mbind result_bind].
    unfold StoreBufferAcquire. cbn [store_buffer with_store_buffer].
    destruct (PopNonFullBlock _) as [b2 s2]. by eexists. }
  eexists. split; [exact E|].
  split_and!; [split; try done; by exists r.1 | done | | done | done].
  unfold buffered. rewrite Eb. exact P.
Qed.

Lemma mask_marking h : blocks_inv h -> is_marking h = true ->
  write_barrier_mask_ h = kGenerationalBarrierMask .| kIncrementalBarrierMask.
Proof. intros [_ _ _ _ Hk _ _] Hm. by rewrite Hm in Hk. Qed.

Lemma MarkingStackAddObject_spec obj h : blocks_inv h -> is_marking h = true ->
  exists h', MarkingStackAddObject obj h = Ok h' /\ blocks_inv h' /\ same_marking h h' /\
    on_marking_stack h' ≡ₚ obj :: on_marking_stack h /\
    buffered h' = buffered h /\ on_deferred_stack h' = on_deferred_stack h.
Proof.
  intros Hinv Hmk. pose proof (mask_marking h Hinv Hmk) as Em.
  destruct Hinv as [Hs Hm Hd Hblk Hk Hmb Hdb]. destruct (Hmb Hmk) as (b & Eb & Hb).
  destruct (cycle_spec _ PopEmptyBlock b (marking_stacks h) obj marking_stack_size Hm Hb)
    as (Hl & Hs' & P); [intros s; apply PopEmptyBlock_cycle, marking_stack_size|].
  set (r := cycle _ _ _ _ _) in *.
  assert (MarkingStackAddObject obj h = Ok (with_marking h r.2 (Some r.1) (write_barrier_mask_ h))) as E.
  { unfold MarkingStackAddObject, r, cycle. rewrite Eb. cbn [the_block mbind result_bind].
    rewrite Block_Push_ok by done. cbn [mbind result_bind].
    destruct (IsFull kMarkingStackBlockSize (b ++ [obj])); [|done].
    unfold MarkingStackBlockProcess, MarkingStackRelease. cbn [the_block marking_stack_block_ with_marking mbind result_bind].
    unfold MarkingStackAcquire. unfold marking_stacks at 1. cbn [marking_stack empty_marking_blocks with_marking].
    rewrite stacks_eta, Em. change (marking_stacks (with_marking _ (marking_stacks h) _ _)) with (marking_stacks h).
    by destruct (PopEmptyBlock _) as [b2 s2]. }
  eexists. split; [exact E|]. split_and!; [split; try done | done | | done | done].
  - unfold marking_stacks. cbn. by rewrite stacks_eta.
  - by eapply share_cache.
  - by exists r.1.
  - unfold on_marking_stack. rewrite Eb. exact P.
Qed.

Lemma DeferredMarkingStackAddObject_spec obj h : blocks_inv h -> is_marking h = true ->
  exists h', DeferredMarkingStackAddObject obj h = Ok h' /\ blocks_inv h' /\ same_marking h h' /\
    on_deferred_stack h' ≡ₚ obj :: on_deferred_stack h /\
    buffered h' = buffered h /\ on_marking_stack h' = on_marking_stack h.
Proof.
  intros Hinv Hmk.
  destruct Hinv as [Hs Hm Hd Hblk Hk Hmb Hdb]. destruct (Hdb Hmk) as (b & Eb & Hb).
  destruct (cycle_spec _ PopEmptyBlock b (deferred_stacks h) obj marking_stack_size Hd Hb)
    as (Hl & Hs' & P); [intros s; apply PopEmptyBlock_cycle, marking_stack_size|].
  set (r := cycle _ _ _ _ _) in *.
  assert (DeferredMarkingStackAddObject obj h = Ok (with_deferred_marking h r.2 (Some r.1))) as E.
  { unfold DeferredMarkingStackAddObject, r, cycle. rewrite Eb. cbn [the_block mbind result_bind].
    rewrite Block_Push_ok by done. cbn [mbind result_bind].
    destruct (IsFull kMarkingStackBlockSize (b ++ [obj])); [|done].
    unfold DeferredMarkingStackBlockProcess, DeferredMarkingStackRelease.
    cbn [the_block deferred_marking_stack_block_ with_deferred_marking mbind result_bind].
    unfold DeferredMarkingStackAcquire. unfold deferred_stacks at 1.
    cbn [deferred_marking_stack empty_marking_blocks with_deferred_marking].
    rewrite stacks_eta. change (deferred_stacks (with_deferred_marking _ (deferred_stacks h) _)) with (deferred_stacks h).
    by destruct (PopEmptyBlock _) as [b2 s2]. }
  eexists. split; [exact E|]. split_and!; [split; try done | done | | done | done].
  - by eapply share_cache.
  - unfold deferred_stacks. cbn. by rewrite stacks_eta.
  - by exists r.1.
  - unfold on_deferred_stack. rewrite Eb. exact P.
Qed.
End Invariants.

(** ** The heap invariant *)

Section HeapInvariant.
Context `{Target}.

Definition card_remembered (o : object) : bool := Z.testbit (tags_ o) kCardRememberedBit.
Definition is_remembered (o : object) : bool := negb (Z.testbit (tags_ o) kOldAndNotRememberedBit).
Definition is_marked (o : object) : bool := negb (Z.testbit (tags_ o) kOldAndNotMarkedBit).

(** The age bits of the header agree with the address. *)
Definition age_ok (a : Z) (o : object) : Prop :=
  (IsNewObject a = true /\ Z.testbit (tags_ o) kNewBit = true /\ Z.testbit (tags_ o) kOldBit = false /\
   Z.testbit (tags_ o) kOldAndNotMarkedBit = false /\ Z.testbit (tags_ o) kOldAndNotRememberedBit = false) \/
  (IsOldObject a = true /\ Z.testbit (tags_ o) kNewBit = false /\ Z.testbit (tags_ o) kOldBit = true).

(** Fields hold small integers and pointers to objects. *)
Definition pointer_ok (objs : gmap Z object) (v : Z) : Prop :=
  v mod 2 = 0 \/ exists a, v = a + kHeapObjectTag /\ is_Some (objs !! a).
Definition points_new (v : Z) : Prop := exists a, v = a + kHeapObjectTag /\ IsNewObject a = true.

(** The store buffer holds every remembered object, and an object is remembered if it is old
    and has a field that points to a new object.  [except] leaves out one field of one
    object, between the store and the end of its barrier.  Objects remembered by cards have
    a barrier of their own. *)
Record objects_inv (except : Z -> Z -> Prop) (h : Heap) : Prop := {
  oi_tags : forall a o, objects h !! a = Some o -> 0 <= tags_ o < 2 ^ XLEN;
  oi_age : forall a o, objects h !! a = Some o -> age_ok a o;
  oi_fields : forall a o v, objects h !! a = Some o -> v ∈ fields_ o -> pointer_ok (objects h) v;
  oi_buffered : forall a o, objects h !! a = Some o -> IsOldObject a = true ->
    card_remembered o = false -> is_remembered o = true -> a + kHeapObjectTag ∈ buffered h;
  oi_remembered : forall a o v, objects h !! a = Some o -> IsOldObject a = true ->
    card_remembered o = false -> v ∈ fields_ o -> points_new v -> ~ except a v -> is_remembered o = true
}.

Definition nothing (_ _ : Z) : Prop := False.
Definition heap_inv (h : Heap) : Prop := blocks_inv h /\ objects_inv nothing h.

(** ** Addresses *)

Definition L : Z := kWordSizeLog2.
Lemma word_pow : kWordSize = 2 ^ L /\ 2 <= L.
Proof. unfold L, kWordSizeLog2, kWordSize, XLEN. by destruct TARGET_64. Qed.

Lemma alignment_mask a : a .& kObjectAlignmentMask = a mod (2 * kWordSize).
Proof.
  destruct word_pow as [E HL]. unfold kObjectAlignmentMask, kObjectAlignment. rewrite E.
  replace (2 * 2 ^ L) with (2 ^ (L + 1)) by (rewrite Z.pow_add_r by lia; lia).
  replace (2 ^ (L + 1) - 1) with (Z.ones (L + 1)) by (rewrite Z.ones_equiv; lia).
  by rewrite Z.land_ones by lia.
Qed.

Lemma new_spec a : IsNewObject a = true <-> a mod (2 * kWordSize) = kWordSize.
Proof. unfold IsNewObject. by rewrite alignment_mask, Z.eqb_eq. Qed.
Lemma old_spec a : IsOldObject a = true <-> a mod (2 * kWordSize) = 0.
Proof. unfold IsOldObject. by rewrite alignment_mask, Z.eqb_eq. Qed.

Lemma word_mask v : v .& kWordSize = if Z.testbit v L then kWordSize else 0.
Proof.
  destruct word_pow as [-> HL]. apply Z.bits_inj'. intros i Hi. rewrite Z.land_spec.
  destruct (Z.eq_dec i L) as [->|Hn].
  - rewrite Z.pow2_bits_true, andb_true_r by lia.
    destruct (Z.testbit v L); [by rewrite Z.pow2_bits_true by lia | by rewrite Z.bits_0].
  - rewrite Z.pow2_bits_false, andb_false_r by lia.
    destruct (Z.testbit v L); [by rewrite Z.pow2_bits_false by lia | by rewrite Z.bits_0].
Qed.

(** The tag does not change the bit that tells the age. *)
Lemma tagged_bit a c : a mod (2 * kWordSize) = c * kWordSize -> 0 <= c <= 1 ->
  Z.testbit (a + kHeapObjectTag) L = (c =? 1).
Proof.
  destruct word_pow as [E HL]. rewrite E. intros Ha Hc. unfold kHeapObjectTag.
  assert (4 <= 2 ^ L) by (change 4 with (2 ^ 2); apply Z.pow_le_mono_r; lia).
  assert (a + 1 = 2 ^ L * (2 * (a / (2 * 2 ^ L)) + c) + 1) as ->
    by (pose proof (Z.div_mod a (2 * 2 ^ L)); lia).
  rewrite Z.testbit_eqb by lia.
  replace ((2 ^ L * (2 * (a / (2 * 2 ^ L)) + c) + 1) / 2 ^ L) with (2 * (a / (2 * 2 ^ L)) + c)
    by (apply (Z.div_unique _ _ _ 1); lia).
  rewrite Z.add_comm, Z.mul_comm, Z.mod_add, Z.mod_small by lia. done.
Qed.

Lemma new_bit a : IsNewObject a = true ->
  ((a + kHeapObjectTag) .& kNewObjectAlignmentOffset =? kNewObjectAlignmentOffset) = true.
Proof.
  rewrite new_spec. intros Ha. unfold kNewObjectAlignmentOffset.
  rewrite word_mask, (tagged_bit a 1) by (lia || by rewrite Ha, Z.mul_1_l). apply Z.eqb_refl.
Qed.

Lemma old_bit a : IsOldObject a = true ->
  ((a + kHeapObjectTag) .& kNewObjectAlignmentOffset =? kNewObjectAlignmentOffset) = false /\
  ((a + kHeapObjectTag) .& kNewObjectAlignmentOffset =? kOldObjectAlignmentOffset) = true.
Proof.
  rewrite old_spec. intros Ha. unfold kNewObjectAlignmentOffset.
  rewrite word_mask, (tagged_bit a 0) by (lia || by rewrite Ha). destruct word_pow as [-> HL].
  split; [|done]. apply Z.eqb_neq. pose proof (Z.pow_pos_nonneg 2 L).
  change (0 =? 1) with false. cbv iota. lia.
Qed.

Lemma age_even a o : age_ok a o -> a mod 2 = 0 /\ a mod kWordSize = 0.
Proof.
  destruct word_pow as [E HL]. pose proof (Z.pow_pos_nonneg 2 (L - 1)).
  assert (2 ^ L = 2 * 2 ^ (L - 1)) as E2 by (rewrite <- Z.pow_succ_r by lia; f_equal; lia).
  rewrite E. intros [[Ha%new_spec _]|[Ha%old_spec _]]; rewrite E in Ha;
    pose proof (Z.div_mod a (2 * 2 ^ L) ltac:(lia)) as Hd; rewrite Ha in Hd; split; apply Z.mod_divide; try lia.
  - exists (2 ^ (L - 1) * (2 * (a / (2 * 2 ^ L)) + 1)). lia.
  - exists (2 * (a / (2 * 2 ^ L)) + 1). lia.
  - exists (2 ^ L * (a / (2 * 2 ^ L))). lia.
  - exists (2 * (a / (2 * 2 ^ L))). lia.
Qed.

(** ** What the barrier tests *)

Lemma land_zero a m : ((a .& m) =? 0) = false <-> exists i, 0 <= i /\ Z.testbit a i = true /\ Z.testbit m i = true.
Proof.
  rewrite Z.eqb_neq. split.
  - intros Hn.
    assert (exists i, 0 <= i /\ Z.testbit (a .& m) i = true) as (i & Hi & E).
    { destruct (Z.lt_ge_cases (a .& m) 0).
      - exists (Z.log2 (Z.pred (- (a .& m))) + 1). split; [pose proof (Z.log2_nonneg (Z.pred (- (a .& m)))); lia|].
        apply Z.bits_above_log2_neg; lia.
      - exists (Z.log2 (a .& m)). split; [apply Z.log2_nonneg | apply Z.bit_log2; lia]. }
    rewrite Z.land_spec in E. apply andb_true_iff in E as [E1 E2]. eauto.
  - intros (i & Hi & E1 & E2) E. apply (f_equal (fun z => Z.testbit z i)) in E.
    by rewrite Z.land_spec, E1, E2, Z.bits_0 in E.
Qed.

Lemma mask_bits h i : blocks_inv h -> 0 <= i -> Z.testbit (write_barrier_mask_ h) i = true ->
  i = kNewBit \/ (i = kOldAndNotMarkedBit /\ is_marking h = true).
Proof.
  intros [_ _ _ _ Hk _ _] Hi Hb. rewrite Hk in Hb. destruct (Z.le_gt_cases 3 i).
  - rewrite (testbit_above _ 3) in Hb; [done | by destruct (is_marking h) | lia].
  - assert (i = 0 \/ i = 1 \/ i = 2) as [-> | [-> | ->]] by lia; unfold kNewBit, kOldAndNotMarkedBit;
      destruct (is_marking h); cbn in Hb; auto; discriminate.
Qed.

Lemma mask_has_new h : blocks_inv h -> Z.testbit (write_barrier_mask_ h) kNewBit = true.
Proof. intros [_ _ _ _ Hk _ _]. rewrite Hk. by destruct (is_marking h). Qed.

(** The test says exactly that the store creates a reference from an old and not remembered
    object to a new one, or, during marking, from an old object to an unmarked old one. *)
Lemma barrier_spec h s t : blocks_inv h ->
  barrier_needed s t (write_barrier_mask_ h) = true <->
  (Z.testbit s kOldAndNotRememberedBit = true /\ Z.testbit t kNewBit = true) \/
  (is_marking h = true /\ Z.testbit s kOldBit = true /\ Z.testbit t kOldAndNotMarkedBit = true).
Proof.
  intros Hinv. unfold barrier_needed. rewrite negb_true_iff, land_zero. split.
  - intros (i & Hi & Ha & Hm). rewrite Z.land_spec, Z.shiftr_spec in Ha by lia.
    apply andb_true_iff in Ha as [Hs Ht].
    destruct (mask_bits h i Hinv Hi Hm) as [->|[-> Hmk]]; [left | right]; done.
  - intros [[Hs Ht]|(Hmk & Hs & Ht)].
    + exists kNewBit. rewrite Z.land_spec, Z.shiftr_spec by done.
      split; [done|]. split; [|by apply mask_has_new]. apply andb_true_iff. done.
    + exists kOldAndNotMarkedBit. rewrite Z.land_spec, Z.shiftr_spec by done.
      split; [done|]. split; [|done]. apply andb_true_iff. done.
Qed.

(** ** Changes of a header *)

Definition set_tags (t : Z) (o : object) : object := {| tags_ := t; fields_ := fields_ o |}.

Lemma flags_change except h h' a o t : objects_inv except h -> objects h !! a = Some o ->
  objects h' = alter (set_tags t) a (objects h) -> IsOldObject a = true -> 0 <= t < 2 ^ XLEN ->
  (forall i, i = kCardRememberedBit \/ i = kNewBit \/ i = kOldBit -> Z.testbit t i = Z.testbit (tags_ o) i) ->
  (Z.testbit (tags_ o) kOldAndNotRememberedBit = false -> Z.testbit t kOldAndNotRememberedBit = false) ->
  (card_remembered o = false -> Z.testbit t kOldAndNotRememberedBit = false -> a + kHeapObjectTag ∈ buffered h') ->
  (forall p, p ∈ buffered h -> p ∈ buffered h') ->
  objects_inv except h'.
Proof.
  intros [Ht Hg Hf Hb Hr] Ho E Hold Hw Hsame Hrem Hbuf Hmono.
  assert (forall x u, objects h' !! x = Some u ->
    (x = a /\ u = set_tags t o) \/ objects h !! x = Some u) as Hlook.
  { intros x u. rewrite E. destruct (decide (x = a)) as [->|Hn].
    - rewrite lookup_alter_eq, Ho. cbn. intros [= <-]. by left.
    - rewrite lookup_alter_ne by done. by right. }
  assert (card_remembered (set_tags t o) = card_remembered o) as Hcard by (apply Hsame; auto).
  split.
  - intros x u [[-> ->]|Hu]%Hlook; [done | by eapply Ht].
  - intros x u [[-> ->]|Hu]%Hlook; [|by eapply Hg]. right. cbn [tags_ set_tags]. rewrite !Hsame by auto.
    destruct (Hg _ _ Ho) as [[Hn _]|Hg']; [|done].
    rewrite new_spec in Hn. rewrite old_spec in Hold. pose proof (proj1 word_pow). destruct word_pow as [Ep HL].
    pose proof (Z.pow_pos_nonneg 2 L). lia.
  - intros x u v [[-> ->]|Hu]%Hlook Hv;
      (assert (pointer_ok (objects h) v) as [Hp|(y & -> & Hy)] by (by eapply Hf); [by left|];
       right; exists y; split; [done|]; rewrite E; by apply lookup_alter_is_Some).
  - intros x u [[-> ->]|Hu]%Hlook Hox Hcx Hrx; [|by eapply Hmono, Hb].
    rewrite Hcard in Hcx. apply Hbuf; [done|]. unfold is_remembered in Hrx. by apply negb_true_iff in Hrx.
  - intros x u v [[-> ->]|Hu]%Hlook Hox Hcx Hv Hn He; [|by eapply Hr].
    rewrite Hcard in Hcx. pose proof (Hr a o v Ho Hox Hcx Hv Hn He) as Hro.
    unfold is_remembered in *. cbn [tags_ set_tags]. rewrite negb_true_iff in *. by apply Hrem.
Qed.

(** ** The store and its barrier *)

Definition stored (this value a v : Z) : Prop := a = this /\ v = value.

Lemma set_field_inv h this o i value : objects_inv nothing h -> objects h !! this = Some o ->
  pointer_ok (objects h) value -> objects_inv (stored this value) (set_field h this i value).
Proof.
  intros [Ht Hg Hf Hb Hr] Ho Hp. set (h' := set_field h this i value).
  set (o' := {| tags_ := tags_ o; fields_ := <[i := value]> (fields_ o) |}).
  assert (forall x u, objects h' !! x = Some u -> (x = this /\ u = o') \/ objects h !! x = Some u) as Hlook.
  { intros x u. unfold h', set_field. cbn [objects with_objects]. destruct (decide (x = this)) as [->|Hn].
    - rewrite lookup_alter_eq, Ho. cbn. intros [= <-]. by left.
    - rewrite lookup_alter_ne by done. by right. }
  assert (forall v, v ∈ fields_ o' -> v = value \/ v ∈ fields_ o) as Hin.
  { intros v Hv. apply list_elem_of_lookup in Hv as [j Hj]. cbn in Hj.
    destruct (decide (i = j)) as [->|Hij].
    - destruct (decide (j < length (fields_ o))%nat).
      + rewrite list_lookup_insert_eq in Hj by done. injection Hj as <-. by left.
      + rewrite list_insert_ge in Hj by lia. right. by eapply list_elem_of_lookup_2.
    - rewrite list_lookup_insert_ne in Hj by done. right. by eapply list_elem_of_lookup_2. }
  assert (forall v, pointer_ok (objects h) v -> pointer_ok (objects h') v) as Hpo.
  { intros v [Hv|(y & -> & Hy)]; [by left|]. right. exists y. split; [done|]. by apply lookup_alter_is_Some. }
  split.
  - intros x u [[-> ->]|Hu]%Hlook; [exact (Ht this o Ho) | by eapply Ht].
  - intros x u [[-> ->]|Hu]%Hlook; [exact (Hg this o Ho) | by eapply Hg].
  - intros x u v [[-> ->]|Hu]%Hlook Hv; apply Hpo; [|by eapply Hf].
    destruct (Hin v Hv) as [->|Hv']; [done | by eapply Hf].
  - intros x u [[-> ->]|Hu]%Hlook Hox Hcx Hrx; [exact (Hb this o Ho Hox Hcx Hrx) | by eapply Hb].
  - intros x u v [[-> ->]|Hu]%Hlook Hox Hcx Hv Hn He.
    + destruct (Hin v Hv) as [->|Hv']; [by destruct He|].
      exact (Hr this o v Ho Hox Hcx Hv' Hn (fun F => F)).
    + eapply Hr; [done..|]. by intros [].
Qed.

(** The exception is over once the object is remembered, or need not be. *)
Lemma close_exception h this value o : objects_inv (stored this value) h -> objects h !! this = Some o ->
  (IsOldObject this = true -> card_remembered o = false -> points_new value -> is_remembered o = true) ->
  objects_inv nothing h.
Proof.
  intros [Ht Hg Hf Hb Hr] Ho Hclose. split; [done.. |]. intros x u v Hu Hox Hcx Hv Hn _.
  destruct (decide (x = this /\ v = value)) as [[-> ->]|Hne].
  - rewrite Ho in Hu. injection Hu as <-. by apply Hclose.
  - by eapply Hr.
Qed.

Lemma header_lookup h a o : objects h !! a = Some o -> header h a = Ok (tags_ o).
Proof. intros E. unfold header. by rewrite E. Qed.

(** A flag of the header of an old object is cleared. *)
Lemma clear_flag_bits p t : 0 <= p < 32 -> 0 <= t < 2 ^ XLEN ->
  0 <= UpdateBool (flag p) false t < 2 ^ XLEN /\
  (forall i, 0 <= i < XLEN -> i <> p -> Z.testbit (UpdateBool (flag p) false t) i = Z.testbit t i) /\
  Z.testbit (UpdateBool (flag p) false t) p = false.
Proof.
  intros Hp Ht. pose proof XLEN_ge. split; [by apply UpdateBool_word|]. split.
  - intros i Hi Hn. rewrite UpdateBool_bits by lia. by rewrite (proj2 (Z.eqb_neq i p)).
  - rewrite UpdateBool_bits by lia. by rewrite Z.eqb_refl.
Qed.

(** Generational case. *)
Lemma EnsureInRememberedSet_spec h this value o : blocks_inv h -> objects_inv (stored this value) h ->
  objects h !! this = Some o -> IsOldObject this = true -> card_remembered o = false ->
  Z.testbit (tags_ o) kOldAndNotRememberedBit = true ->
  exists h' t, EnsureInRememberedSet this h = Ok h' /\ heap_inv h' /\
    objects h' = alter (set_tags t) this (objects h) /\ this + kHeapObjectTag ∈ buffered h' /\
    Z.testbit t kOldAndNotRememberedBit = false /\
    Z.testbit t kOldAndNotMarkedBit = Z.testbit (tags_ o) kOldAndNotMarkedBit /\
    write_barrier_mask_ h' = write_barrier_mask_ h /\ on_deferred_stack h' = on_deferred_stack h.
Proof.
  intros Hbl Hob Ho Hold Hcard Hbit. pose proof (oi_tags _ _ Hob _ _ Ho) as Hw. pose proof XLEN_ge.
  set (t := UpdateBool OldAndNotRememberedBit false (tags_ o)).
  destruct (clear_flag_bits kOldAndNotRememberedBit (tags_ o) ltac:(done) Hw) as (Hw' & Hother & Hclr).
  fold OldAndNotRememberedBit in Hw', Hother, Hclr. fold t in Hw', Hother, Hclr.
  destruct (StoreBufferAddObject_spec (this + kHeapObjectTag) (set_header h this t)) as
    (h' & E & Hbl' & [Eo Em] & P & _ & Ed); [by destruct Hbl|].
  assert (EnsureInRememberedSet this h = Ok h') as Eok.
  { unfold EnsureInRememberedSet, TryAcquireRememberedBit. rewrite (header_lookup h this o Ho). cbn [mbind result_bind].
    rewrite ASSERT_bind.
    - rewrite (TryClear_spec kOldAndNotRememberedBit) by done. cbn [mbind result_bind]. rewrite Hbit. exact E.
    - unfold IsCardRemembered. rewrite (decode_flag kCardRememberedBit) by done.
      unfold card_remembered in Hcard. by rewrite Hcard. }
  assert (this + kHeapObjectTag ∈ buffered h') as Hin by (rewrite P; left).
  assert (objects h' = alter (set_tags t) this (objects h)) as Eob by by rewrite Eo.
  exists h', t. split_and!; [exact Eok | | done | done | done | apply Hother; [unfold kOldAndNotMarkedBit; lia | done] | by rewrite Em | done].
  split; [done|]. eapply close_exception.
  - eapply (flags_change _ h h' this o t Hob Ho Eob Hold Hw').
    + intros i Hi. unfold kCardRememberedBit, kNewBit, kOldBit in Hi.
      apply Hother; [lia|]. unfold kOldAndNotRememberedBit. lia.
    + done.
    + done.
    + intros p Hp. rewrite P. by right.
  - rewrite Eob, lookup_alter_eq, Ho. reflexivity.
  - intros _ _ _. unfold is_remembered. cbn [tags_ set_tags]. by rewrite Hclr.
Qed.

(** A change of the marking blocks only. *)
Lemma objects_inv_same except h h' : objects_inv except h -> objects h' = objects h ->
  (forall p, p ∈ buffered h -> p ∈ buffered h') -> objects_inv except h'.
Proof.
  intros [Ht Hg Hf Hb Hr] E Hp. split; rewrite E; [done | done | done | | done].
  intros a o Ho Hold Hc Hrm. by eapply Hp, Hb.
Qed.

(** What the barrier guarantees about a stored pointer to the object at [a]: during marking
    an old object stored into an old object is marked, and waits on the marking stack unless
    it was marked before, or it waits on the deferred stack. *)
Definition marked_at (h : Heap) (a : Z) : Prop :=
  exists t, objects h !! a = Some t /\ is_marked t = true.
Definition incremental_ok (h h' : Heap) (this a : Z) : Prop :=
  is_marking h = true -> IsOldObject this = true -> IsOldObject a = true ->
  (marked_at h' a /\ (marked_at h a \/ a + kHeapObjectTag ∈ on_marking_stack h')) \/
  a + kHeapObjectTag ∈ on_deferred_stack h'.

Lemma set_field_marked h this i v a : marked_at (set_field h this i v) a -> marked_at h a.
Proof.
  intros (t & Ht & Hm). unfold set_field in Ht. cbn [objects with_objects] in Ht.
  destruct (decide (a = this)) as [->|Hn]; [|rewrite lookup_alter_ne in Ht by done; by exists t].
  rewrite lookup_alter_eq in Ht. destruct (objects h !! this) as [t0|] eqn:E; [|done].
  injection Ht as <-. by exists t0.
Qed.

(** Only headers change. *)
Definition same_fields (h h' : Heap) : Prop :=
  forall a, fields_ <$> objects h' !! a = fields_ <$> objects h !! a.

Lemma same_fields_alter h h' a t : objects h' = alter (set_tags t) a (objects h) -> same_fields h h'.
Proof.
  intros E x. rewrite E. destruct (decide (x = a)) as [->|Hn].
  - rewrite lookup_alter_eq. by destruct (objects h !! a).
  - by rewrite lookup_alter_ne.
Qed.

Lemma old_not_new a : IsOldObject a = true -> IsNewObject a = true -> False.
Proof.
  rewrite old_spec, new_spec. destruct word_pow as [-> HL]. pose proof (Z.pow_pos_nonneg 2 L). lia.
Qed.

(** Incremental case. *)
Lemma mark_target h a t : blocks_inv h -> is_marking h = true -> objects_inv nothing h ->
  objects h !! a = Some t -> IsOldObject a = true -> is_marked t = false ->
  exists h' u, ('(acquired, h1) ← TryAcquireMarkBit a h;
     if acquired : bool then MarkingStackAddObject (a + kHeapObjectTag) h1 else Ok h1) = Ok h' /\
    heap_inv h' /\ objects h' = alter (set_tags u) a (objects h) /\
    Z.testbit u kOldAndNotMarkedBit = false /\ a + kHeapObjectTag ∈ on_marking_stack h'.
Proof.
  intros Hbl Hmk Hob Ht Hold Hum. pose proof (oi_tags _ _ Hob _ _ Ht) as Hw. pose proof XLEN_ge.
  set (u := UpdateBool OldAndNotMarkedBit false (tags_ t)).
  destruct (clear_flag_bits kOldAndNotMarkedBit (tags_ t) ltac:(done) Hw) as (Hw' & Hother & Hclr).
  fold OldAndNotMarkedBit in Hw', Hother, Hclr. fold u in Hw', Hother, Hclr.
  destruct (MarkingStackAddObject_spec (a + kHeapObjectTag) (set_header h a u)) as
    (h' & E & Hbl' & [Eo Em] & P & Eb & _); [by destruct Hbl | done |].
  assert (objects h' = alter (set_tags u) a (objects h)) as Eob by by rewrite Eo.
  exists h', u. split_and!; [| |done | done | rewrite P; left].
  - unfold TryAcquireMarkBit. rewrite ASSERT_bind by done. rewrite (header_lookup h a t Ht). cbn [mbind result_bind].
    rewrite (TryClear_spec kOldAndNotMarkedBit) by done. cbn [mbind result_bind].
    unfold is_marked in Hum. apply negb_false_iff in Hum. rewrite Hum. exact E.
  - split; [done|]. eapply (flags_change _ h h' a t u Hob Ht Eob Hold Hw').
    + intros i Hi. unfold kCardRememberedBit, kNewBit, kOldBit in Hi.
      apply Hother; [lia|]. unfold kOldAndNotMarkedBit. lia.
    + intros Hb. rewrite Hother; [done | unfold kOldAndNotRememberedBit; lia | done].
    + intros Hc Hb. rewrite Eb. apply (oi_buffered _ _ Hob a t Ht Hold Hc).
      unfold is_remembered. rewrite <- (Hother kOldAndNotRememberedBit);
        [by rewrite Hb | unfold kOldAndNotRememberedBit; lia | done].
    + intros p Hp. by rewrite Eb.
Qed.

Lemma low_bit v : v .& kSmiTagMask = v mod 2.
Proof. unfold kSmiTagMask. change 1 with (Z.ones 1). by rewrite Z.land_ones. Qed.

Lemma IsHeapObject_smi v : v mod 2 = 0 -> IsHeapObject v = Ok false.
Proof.
  intros Hv. unfold IsHeapObject, IsWellFormed. rewrite low_bit, Hv. by rewrite ASSERT_bind.
Qed.

Lemma IsHeapObject_object a o : age_ok a o -> IsHeapObject (a + kHeapObjectTag) = Ok true.
Proof.
  intros [Ha Hw]%age_even. unfold IsHeapObject. rewrite ASSERT_bind.
  - f_equal. apply Z.eqb_eq. rewrite low_bit. unfold kHeapObjectTag.
    by rewrite <- Zplus_mod_idemp_l, Ha.
  - unfold IsWellFormed. apply orb_true_iff. right. rewrite Z.add_simpl_r.
    unfold IsAligned. destruct word_pow as [E HL]. rewrite E in *.
    replace (2 ^ L - 1) with (Z.ones L) by (rewrite Z.ones_equiv; lia).
    by rewrite Z.land_ones, Hw by lia.
Qed.

Lemma assert_object a o : age_ok a o -> assert_heap_object (a + kHeapObjectTag) = Ok tt.
Proof.
  intros Ha. unfold assert_heap_object. rewrite (IsHeapObject_object a o Ha). cbn [mbind result_bind].
  rewrite ASSERT_true by done. by destruct DEBUG.
Qed.

Lemma ptr_new a o : age_ok a o -> IsNewObject a = true -> ptr_IsNewObject (a + kHeapObjectTag) = Ok true.
Proof. intros Ha Hn. unfold ptr_IsNewObject. by rewrite (assert_object a o Ha), (new_bit a Hn). Qed.

Lemma ptr_old a o : age_ok a o -> IsOldObject a = true ->
  ptr_IsNewObject (a + kHeapObjectTag) = Ok false /\ ptr_IsOldObject (a + kHeapObjectTag) = Ok true.
Proof.
  intros Ha Ho. unfold ptr_IsNewObject, ptr_IsOldObject. rewrite (assert_object a o Ha).
  by destruct (old_bit a Ho) as [-> ->].
Qed.

(** The barrier after the store. *)
Lemma CheckHeapPointerStore_spec h this o a t : blocks_inv h ->
  objects_inv (stored this (a + kHeapObjectTag)) h ->
  objects h !! this = Some o -> card_remembered o = false -> objects h !! a = Some t ->
  exists h', CheckHeapPointerStore this (a + kHeapObjectTag) h = Ok h' /\ heap_inv h' /\
    same_fields h h' /\ incremental_ok h h' this a.
Proof.
  intros Hbl Hob Ho Hcard Ht. unfold CheckHeapPointerStore, untag.
  rewrite (header_lookup h this o Ho), Z.add_simpl_r, (header_lookup h a t Ht). cbn [mbind result_bind].
  pose proof (barrier_spec h (tags_ o) (tags_ t) Hbl) as HB.
  pose proof (oi_age _ _ Hob _ _ Ho) as Hgo. pose proof (oi_age _ _ Hob _ _ Ht) as Hgt.
  destruct (barrier_needed _ _ _) eqn:En.
  - destruct (proj1 HB eq_refl) as [[Hs Hn]|(Hmk & Hs & Hn)]; clear HB.
    + assert (IsOldObject this = true) as Hold by (destruct Hgo as [(_ & _ & _ & _ & E)|[E _]]; congruence).
      assert (IsNewObject a = true) as Hnew by (destruct Hgt as [[E _]|(_ & E & _)]; congruence).
      rewrite (ptr_new a t Hgt Hnew). cbn [mbind result_bind].
      destruct (EnsureInRememberedSet_spec h this _ o Hbl Hob Ho Hold Hcard Hs) as (h' & u & E & Hinv & Eo & _).
      exists h'. split_and!; [done | done | by eapply same_fields_alter |].
      intros _ _ Holda. destruct (old_not_new a Holda Hnew).
    + assert (IsOldObject a = true) as Holda by (destruct Hgt as [(_ & _ & _ & E & _)|[E _]]; congruence).
      destruct (ptr_old a t Hgt Holda) as [-> ->]. cbn [mbind result_bind].
      replace (if DEBUG then _ else _) with (Ok () : result unit)
        by (cbn [mbind result_bind]; rewrite ASSERT_true by done; by destruct DEBUG).
      cbn [mbind result_bind].
      assert (objects_inv nothing h) as Hob'.
      { eapply close_exception; [exact Hob | exact Ho |]. intros _ _ (b & E & Hnb).
        assert (b = a) as -> by lia. destruct (old_not_new a Holda Hnb). }
      destruct (decode ClassIdTag (tags_ t) =? kInstructionsCid).
      * destruct (DeferredMarkingStackAddObject_spec (a + kHeapObjectTag) h Hbl Hmk) as
          (h' & E & Hbl' & [Eo Em] & P & Eb & _). exists h'.
        split_and!; [done | | by intros x; rewrite Eo |].
        -- split; [done|]. eapply objects_inv_same; [done | done |]. intros p Hp. by rewrite Eb.
        -- intros _ _ _. right. rewrite P. left.
      * destruct (mark_target h a t Hbl Hmk Hob' Ht Holda) as (h' & u & E & Hinv & Eo & Hu & Hst).
        { unfold is_marked. by rewrite Hn. }
        exists h'. split_and!; [done | done | by eapply same_fields_alter |].
        intros _ _ _. left. split; [|by right]. exists (set_tags u t). rewrite Eo, lookup_alter_eq, Ht.
        split; [done|]. unfold is_marked. cbn [tags_ set_tags]. by rewrite Hu.
  - exists h. split_and!; [done | | done |].
    + split; [done|]. eapply close_exception; [exact Hob | exact Ho |]. intros _ _ (b & E & Hnb).
      assert (b = a) as -> by lia. unfold is_remembered. apply negb_true_iff, not_true_iff_false. intros Hs.
      destruct Hgt as [(_ & Hn & _)|[Holda _]]; [|by destruct (old_not_new a)].
      destruct HB as [_ HB]. discriminate HB. by left.
    + intros Hmk Hold Holda. left. assert (marked_at h a); [|by split; [|left]].
      exists t. split; [done|]. unfold is_marked. apply negb_true_iff, not_true_iff_false. intros Hn. destruct HB as [_ HB]. discriminate HB. right.
      split; [done|]. split; [|done]. destruct Hgo as [[E _]|(_ & _ & E)]; [|done]. by destruct (old_not_new this).
Qed.

Lemma smi_not_new v : v mod 2 = 0 -> ~ points_new v.
Proof.
  intros Hv (a & -> & Hn). assert (age_ok a {| tags_ := kGenerationalBarrierMask; fields_ := [] |}) as [Ha _]%age_even by by left.
  unfold kHeapObjectTag in Hv. by rewrite <- Zplus_mod_idemp_l, Ha in Hv.
Qed.

(** The store of a pointer into a field with its barrier. *)
Lemma StorePointer_spec h this o i v : heap_inv h -> objects h !! this = Some o ->
  card_remembered o = false -> (i < length (fields_ o))%nat -> pointer_ok (objects h) v ->
  exists h', StorePointer this i v h = Ok h' /\ heap_inv h' /\
    same_fields (set_field h this i v) h' /\
    (forall a, v = a + kHeapObjectTag -> is_Some (objects h !! a) -> incremental_ok h h' this a).
Proof.
  intros [Hbl Hob] Ho Hcard Hi Hp. unfold StorePointer. rewrite Ho, (proj2 (Nat.ltb_lt _ _)) by done.
  pose proof (set_field_inv h this o i v Hob Ho Hp) as Hob1. set (h1 := set_field h this i v) in *.
  assert (blocks_inv h1) as Hbl1 by by destruct Hbl.
  assert (objects h1 !! this = Some {| tags_ := tags_ o; fields_ := <[i := v]> (fields_ o) |}) as Ho1.
  { unfold h1, set_field. cbn [objects with_objects]. by rewrite lookup_alter_eq, Ho. }
  destruct Hp as [Hv|(a & -> & t0 & Ht0)].
  - rewrite IsHeapObject_smi by done. cbn [mbind result_bind]. exists h1. split_and!; [done | | done |].
    + split; [done|]. eapply close_exception; [exact Hob1 | exact Ho1 |].
      intros _ _ Hn. by destruct (smi_not_new v Hv).
    + intros a -> [t Ht]. assert (a mod 2 = 0) as Ha by (eapply age_even, (oi_age _ _ Hob), Ht).
      unfold kHeapObjectTag in Hv. by rewrite <- Zplus_mod_idemp_l, Ha in Hv.
  - rewrite (IsHeapObject_object a t0) by by apply (oi_age _ _ Hob). cbn [mbind result_bind].
    assert (is_Some (objects h1 !! a)) as [t Ht] by (apply lookup_alter_is_Some; eauto).
    destruct (CheckHeapPointerStore_spec h1 this _ a t Hbl1 Hob1 Ho1 Hcard Ht) as (h' & E & Hinv & Hsf & Hinc).
    exists h'. split_and!; [done..|]. intros b E' _. assert (b = a) as -> by lia.
    intros Hm Hot Hoa. destruct (Hinc Hm Hot Hoa) as [[Hma [Hmb|Hst]]|Hd]; [|by left; auto | by right].
    left. split; [done|]. left. by eapply set_field_marked.
Qed.
End HeapInvariant.
