(* ===== verification/ObjectMacros.v ===== *)
(** * Macros on frames and objects

    The methods of [class Assembler]
    ([src/runtime/vm/compiler/assembler/assembler_riscv.{h,cc}]) that enter and leave frames,
    read object headers, and store into objects with a write barrier.

    A [Label] that a method declares is constructed in the label store under a given
    identity and destroyed at the end of the method.  The stubs behind
    [generate_invoke_write_barrier_wrapper_] are code of the caller: a parameter. *)
From S2P Require Import Prelude Utils Constants Memory AsmState MicroAssembler Macros ObjectHeader.

(** [Label()] and [~Label()]. *)
Definition construct_label (label : nat) : asm unit := modify (fun s => with_label s label Label_new).
Definition destroy_label `{Target} (label : nat) : asm unit :=
  linked ← get (fun s => IsLinked (labels_ s label)); assert (negb linked).

Inductive ScaleFactor :=
| TIMES_1 | TIMES_2 | TIMES_4 | TIMES_8 | TIMES_16 | TIMES_HALF_WORD_SIZE | TIMES_WORD_SIZE.

Inductive CanBeSmi := kValueIsNotSmi | kValueCanBeSmi.
Inductive MemoryOrder := kRelaxedNonAtomic | kRelease.

Section ObjectMacros.
Context `{Target}.

Definition scale_shift (s : ScaleFactor) : Z :=
  match s with
  | TIMES_1 => 0 | TIMES_2 => 1 | TIMES_4 => 2 | TIMES_8 => 3 | TIMES_16 => 4
  | TIMES_HALF_WORD_SIZE => kWordSizeLog2 - 1
  | TIMES_WORD_SIZE => kWordSizeLog2
  end.

Definition kWriteBarrierObjectReg : Z := A0.
Definition kWriteBarrierValueReg : Z := A1.
Definition kWriteBarrierSlotReg : Z := A6.

(** [kWordBytes], [kObjectBytes]: the operand size of a word. *)
Definition kWordBytes : OperandSize := if TARGET_64 then kEightBytes else kFourBytes.

(** ** Frames *)

Definition EnterFrame (frame_size : Z) : asm unit :=
  _ ← subi SP SP (frame_size + 2 * kWordSize);
  _ ← sx RA {| base := SP; offset := frame_size + 1 * kWordSize |};
  _ ← sx FP {| base := SP; offset := frame_size + 0 * kWordSize |};
  addi FP SP (frame_size + 0 * kWordSize).
Definition LeaveFrame : asm unit :=
  _ ← mv SP FP;
  _ ← lx FP {| base := SP; offset := 0 * kWordSize |};
  _ ← lx RA {| base := SP; offset := 1 * kWordSize |};
  addi SP SP (2 * kWordSize).
Definition EnterCFrame (frame_space : Z) : asm unit :=
  _ ← subi SP SP (frame_space + 2 * kWordSize);
  _ ← sx RA {| base := SP; offset := frame_space + 1 * kWordSize |};
  _ ← sx FP {| base := SP; offset := frame_space + 0 * kWordSize |};
  addi FP SP frame_space.
Definition LeaveCFrame : asm unit :=
  _ ← mv SP FP;
  _ ← lx FP {| base := SP; offset := 0 * kWordSize |};
  _ ← lx RA {| base := SP; offset := 1 * kWordSize |};
  addi SP SP (2 * kWordSize).

(** ** Loads and stores *)

Definition Jump (address : Address) : asm unit := _ ← lx TMP2 address; jr TMP2 0.
Definition LoadField (dst : Z) (address : Address) : asm unit := lx dst address.
Definition LoadAcquire (dst address offset : Z) : asm unit :=
  _ ← assert (negb (dst =? address));
  _ ← LoadFromOffset dst address offset kWordBytes;
  fence HartEffects.kRead HartEffects.kMemory.
Definition LoadAcquireCompressed (dst address offset : Z) : asm unit := LoadAcquire dst address offset.
Definition StoreRelease (src address offset : Z) : asm unit :=
  _ ← fence HartEffects.kMemory HartEffects.kRead;
  StoreToOffset src address offset kWordBytes.
Definition CompareObjectRegisters (rn rm : Z) : asm unit := CompareRegisters rn rm.
Definition LoadFieldFromOffset (dest base offset : Z) (sz : OperandSize) : asm unit :=
  LoadFromOffset dest base (offset - 1) sz.
Definition StoreFieldToOffset (src base offset : Z) (sz : OperandSize) : asm unit :=
  StoreToOffset src base (offset - 1) sz.
Definition LoadIndexedPayload (dest base payload_offset index : Z) (scale : ScaleFactor) (sz : OperandSize)
    : asm unit :=
  _ ← slli TMP index (scale_shift scale);
  _ ← add TMP TMP base;
  LoadFromOffset dest TMP (payload_offset - 1) sz.
Definition LoadIndexedCompressed (dest base offset index : Z) : asm unit :=
  LoadIndexedPayload dest base offset index TIMES_WORD_SIZE kWordBytes.
Definition LoadUnboxedDouble (dst base offset : Z) : asm unit := fld dst {| base := base; offset := offset |}.
Definition StoreUnboxedDouble (src base offset : Z) : asm unit := fsd src {| base := base; offset := offset |}.
Definition MoveUnboxedDouble (dst src : Z) : asm unit := fmvd dst src.
Definition LoadCompressed (dest : Z) (slot : Address) : asm unit := lx dest slot.
Definition LoadCompressedFromOffset (dest base offset : Z) : asm unit :=
  lx dest {| base := base; offset := offset |}.
Definition LoadCompressedSmi (dest : Z) (slot : Address) : asm unit := lx dest slot.
Definition LoadCompressedSmiFromOffset (dest base offset : Z) : asm unit :=
  lx dest {| base := base; offset := offset |}.
Definition LoadFieldAddressForRegOffset (address instance offset_in_words_as_smi : Z) : asm unit :=
  _ ← slli TMP offset_in_words_as_smi (kWordSizeLog2 - kSmiTagShift);
  _ ← add TMP TMP instance;
  addi address TMP (- 1).

(** ** Headers *)

(** [target::Object::tags_offset()]: the header is the first word. *)
Definition tags_offset : Z := 0.

Definition ExtractInstanceSizeFromTags (result tags : Z) : asm unit :=
  _ ← srli result tags kSizeTagPos;
  _ ← andi result result ((1 << kSizeTagSize) - 1);
  slli result result kObjectAlignmentLog2.
Definition LoadClassId (result object : Z) : asm unit :=
  let class_id_offset := tags_offset + kClassIdTagPos / 8 in
  lhu result (FieldAddress object class_id_offset).
Definition CompareClassId (object class_id scratch : Z) : asm unit :=
  _ ← LoadClassId scratch object; CompareImmediate scratch class_id.
Definition LoadClassIdMayBeSmi (done : nat) (result object : Z) : asm unit :=
  _ ← assert (negb (result =? object));
  _ ← assert (negb (result =? TMP2));
  _ ← assert (negb (object =? TMP2));
  _ ← li result kSmiCid;
  _ ← construct_label done;
  _ ← BranchIfSmi object done kNearJump;
  _ ← LoadClassId result object;
  _ ← Bind done;
  destroy_label done.
Definition LoadTaggedClassIdMayBeSmi (done : nat) (result object : Z) : asm unit :=
  _ ← LoadClassIdMayBeSmi done result object; SmiTag result result.

(** ** Stores with a barrier *)

Definition COMPILE_ASSERT_regs : bool := negb (S2 =? kWriteBarrierValueReg) && negb (S3 =? kWriteBarrierValueReg).

(** [invoke] is [generate_invoke_write_barrier_wrapper_]. *)
Definition StoreBarrier (invoke : Z -> asm unit) (done : nat) (object value : Z)
    (can_value_be_smi : CanBeSmi) : asm unit :=
  _ ← assert (negb (object =? value));
  _ ← assert (negb (object =? RA));
  _ ← assert (negb (value =? RA));
  _ ← assert (negb (object =? TMP));
  _ ← assert (negb (object =? TMP2));
  _ ← assert (negb (value =? TMP));
  _ ← assert (negb (value =? TMP2));
  _ ← construct_label done;
  _ ← match can_value_be_smi with
      | kValueCanBeSmi => BranchIfSmi value done kNearJump
      | kValueIsNotSmi => mret tt
      end;
  _ ← lbu TMP (FieldAddress object tags_offset);
  _ ← lbu TMP2 (FieldAddress value tags_offset);
  _ ← srli TMP TMP kBarrierOverlapShift;
  _ ← and_ TMP TMP TMP2;
  _ ← and_ TMP TMP WRITE_BARRIER_MASK;
  _ ← beqz TMP done kNearJump;
  objectForCall ←
    (if negb (value =? kWriteBarrierValueReg) then
       objectForCall ←
         (if negb (object =? kWriteBarrierValueReg) then
            _ ← PushRegister kWriteBarrierValueReg; mret object
          else
            let objectForCall := if value =? S2 then S3 else S2 in
            _ ← PushRegisterPair kWriteBarrierValueReg objectForCall;
            _ ← mv objectForCall object;
            mret objectForCall);
       _ ← mv kWriteBarrierValueReg value;
       mret objectForCall
     else mret object);
  _ ← invoke objectForCall;
  _ ← (if negb (value =? kWriteBarrierValueReg) then
         if negb (object =? kWriteBarrierValueReg) then PopRegister kWriteBarrierValueReg
         else PopRegisterPair kWriteBarrierValueReg objectForCall
       else mret tt);
  _ ← Bind done;
  destroy_label done.

Definition StoreIntoObject (invoke : Z -> asm unit) (done : nat) (object : Z) (dest : Address) (value : Z)
    (can_value_be_smi : CanBeSmi) (memory_order : MemoryOrder) : asm unit :=
  _ ← assert (match memory_order with kRelaxedNonAtomic => true | kRelease => false end);
  _ ← sx value dest;
  StoreBarrier invoke done object value can_value_be_smi.
Definition StoreIntoObjectOffset (invoke : Z -> asm unit) (done : nat) (object offset value : Z)
    (can_value_be_smi : CanBeSmi) (memory_order : MemoryOrder) : asm unit :=
  _ ← match memory_order with
      | kRelease => StoreRelease value object (offset - 1)
      | kRelaxedNonAtomic => StoreToOffset value object (offset - 1) kWordBytes
      end;
  StoreBarrier invoke done object value can_value_be_smi.

(** The check a [DEBUG] build adds to stores without a barrier. *)
Definition no_barrier_check (done : nat) (object value : Z) : asm unit :=
  if DEBUG then
    _ ← construct_label done;
    _ ← beq object value done kNearJump;
    _ ← BranchIfSmi value done kNearJump;
    _ ← lbu TMP (FieldAddress object tags_offset);
    _ ← lbu TMP2 (FieldAddress value tags_offset);
    _ ← srli TMP TMP kBarrierOverlapShift;
    _ ← and_ TMP TMP TMP2;
    _ ← andi TMP TMP kGenerationalBarrierMask;
    _ ← beqz TMP done kNearJump;
    _ ← trap;
    _ ← Bind done;
    destroy_label done
  else mret tt.
Definition StoreIntoObjectNoBarrier (done : nat) (object : Z) (dest : Address) (value : Z)
    (memory_order : MemoryOrder) : asm unit :=
  _ ← assert (match memory_order with kRelaxedNonAtomic => true | kRelease => false end);
  _ ← sx value dest;
  no_barrier_check done object value.
Definition StoreIntoObjectOffsetNoBarrier (done : nat) (object offset value : Z)
    (memory_order : MemoryOrder) : asm unit :=
  _ ← match memory_order with
      | kRelease => StoreRelease value object offset
      | kRelaxedNonAtomic => StoreToOffset value object (offset - 1) kWordBytes
      end;
  no_barrier_check done object value.

(** ** Stores into arrays *)

(** [invoke] is [generate_invoke_array_write_barrier_]; the emitter supports one choice of
    registers. *)
Definition StoreIntoArrayBarrier (invoke : asm unit) (done : nat) (object slot value : Z)
    (can_value_be_smi : CanBeSmi) : asm unit :=
  _ ← assert (negb (object =? TMP));
  _ ← assert (negb (object =? TMP2));
  _ ← assert (negb (value =? TMP));
  _ ← assert (negb (value =? TMP2));
  _ ← assert (negb (slot =? TMP));
  _ ← assert (negb (slot =? TMP2));
  _ ← construct_label done;
  _ ← match can_value_be_smi with
      | kValueCanBeSmi => BranchIfSmi value done kNearJump
      | kValueIsNotSmi => mret tt
      end;
  _ ← lbu TMP (FieldAddress object tags_offset);
  _ ← lbu TMP2 (FieldAddress value tags_offset);
  _ ← srli TMP TMP kBarrierOverlapShift;
  _ ← and_ TMP TMP TMP2;
  _ ← and_ TMP TMP WRITE_BARRIER_MASK;
  _ ← beqz TMP done kNearJump;
  _ ← PushRegister RA;
  _ ← (if negb (object =? kWriteBarrierObjectReg) || negb (value =? kWriteBarrierValueReg)
          || negb (slot =? kWriteBarrierSlotReg)
       then fail Unimplemented else mret tt);
  _ ← invoke;
  _ ← PopRegister RA;
  _ ← Bind done;
  destroy_label done.
Definition StoreIntoArray (invoke : asm unit) (done : nat) (object slot value : Z)
    (can_value_be_smi : CanBeSmi) : asm unit :=
  _ ← sx value {| base := slot; offset := 0 |};
  StoreIntoArrayBarrier invoke done object slot value can_value_be_smi.

(** ** Builds without compressed pointers *)

Definition StoreCompressedIntoObject := StoreIntoObject.
Definition StoreCompressedIntoArray := StoreIntoArray.
Definition StoreCompressedIntoObjectOffset := StoreIntoObjectOffset.
Definition StoreCompressedIntoObjectNoBarrier := StoreIntoObjectNoBarrier.
Definition StoreCompressedIntoObjectOffsetNoBarrier := StoreIntoObjectOffsetNoBarrier.
Definition LoadCompressedFieldAddressForRegOffset (address instance offset_in_words_as_smi : Z) : asm unit :=
  _ ← slli TMP offset_in_words_as_smi (kWordSizeLog2 - kSmiTagShift);
  _ ← add TMP TMP instance;
  addi address TMP (- 1).
Definition LoadCompressedField (dst : Z) (address : Address) : asm unit := LoadCompressed dst address.
Definition LoadCompressedFieldFromOffset (dest base offset : Z) : asm unit :=
  LoadCompressedFromOffset dest base (offset - 1).
Definition LoadCompressedSmiFieldFromOffset (dest base offset : Z) : asm unit :=
  LoadCompressedSmiFromOffset dest base (offset - 1).
Definition LoadMemoryValue (dst base offset : Z) : asm unit := LoadFromOffset dst base offset kWordBytes.
Definition StoreMemoryValue (src base offset : Z) : asm unit := StoreToOffset src base offset kWordBytes.
Definition LoadDFieldFromOffset (dest base offset : Z) : asm unit := LoadDFromOffset dest base (offset - 1).
Definition StoreDFieldToOffset (src base offset : Z) : asm unit := StoreDToOffset src base (offset - 1).
End ObjectMacros.
