(* ===== verification/MacroFacts.v ===== *)
(** * Macros over registers

    The constant loader and the register-with-constant operations compute their results
    for every constant, on both targets and with or without compressed instructions. *)
From Stdlib Require Import FunctionalExtensionality.
From S2P Require Import Prelude Utils Constants EncodingFacts Words CWords Memory Float.
From S2P Require Import SimState SimInteger SimFloat Simulator Exec Effects AsmState.
From S2P Require Import MicroAssembler Emission Computes Macros.

(** ** Splitting a constant *)

Lemma swrap_shift n k x : 0 < k <= n -> swrap n (x << (n - k)) >> (n - k) = swrap k x.
Proof.
  intros Hk. rewrite Z.shiftl_mul_pow2, Z.shiftr_div_pow2 by lia. unfold swrap.
  assert (0 < 2 ^ (n - k)) by (apply Z.pow_pos_nonneg; lia).
  assert (0 < 2 ^ k) by (apply Z.pow_pos_nonneg; lia).
  assert (2 ^ n = 2 ^ (n - k) * 2 ^ k) as -> by (rewrite <- Z.pow_add_r by lia; f_equal; lia).
  assert (2 ^ (n - 1) = 2 ^ (n - k) * 2 ^ (k - 1)) as ->
    by (rewrite <- Z.pow_add_r by lia; f_equal; lia).
  replace (x * 2 ^ (n - k) + 2 ^ (n - k) * 2 ^ (k - 1))
    with (2 ^ (n - k) * (x + 2 ^ (k - 1))) by lia.
  rewrite Z.mul_mod_distr_l, <- Z.mul_sub_distr_l, Z.mul_comm, Z.div_mul by lia. done.
Qed.

Section Split.
Context `{Target}.

Lemma split_lo_swrap x : split_lo x = swrap 12 x.
Proof. apply swrap_shift. destruct XLEN_cases; lia. Qed.

Lemma split_hi_swrap x : split_hi x = swrap 32 (x - swrap 12 x).
Proof. unfold split_hi. rewrite split_lo_swrap. apply swrap_shift. destruct XLEN_cases; lia. Qed.

Lemma split_lo_range x : - 2 ^ 11 <= split_lo x < 2 ^ 11.
Proof. rewrite split_lo_swrap. by apply (swrap_bound 12). Qed.

(** The part left after removing the low one is a multiple of 4096. *)
Lemma split_rest x : exists k, x - swrap 12 x = 4096 * k.
Proof. destruct (swrap_spec 12 eq_refl x) as [k Hk]. exists (- k). lia. Qed.

Lemma split_hi_aligned x : split_hi x mod 4096 = 0.
Proof.
  rewrite split_hi_swrap. destruct (split_rest x) as [k ->].
  destruct (swrap_spec 32 eq_refl (4096 * k)) as [j ->].
  replace (4096 * k + j * 2 ^ 32) with ((k + j * 2 ^ 20) * 4096) by lia.
  apply Z.mod_mul. lia.
Qed.

Lemma split_hi_range x : - 2 ^ 31 <= split_hi x < 2 ^ 31.
Proof. rewrite split_hi_swrap. by apply (swrap_bound 32). Qed.

(** A signed 32-bit constant is its two parts, modulo 32 bits. *)
Lemma split_sum x : - 2 ^ 31 <= x < 2 ^ 31 -> swrap 32 (split_hi x + split_lo x) = x.
Proof.
  intros Hx. rewrite split_hi_swrap, split_lo_swrap.
  transitivity (swrap 32 x); [|by apply (swrap_small 32 eq_refl)].
  apply uwrap_eq_swrap; [done|].
  rewrite <- (uwrap_add_l 32 eq_refl), (uwrap_swrap 32 eq_refl), (uwrap_add_l 32 eq_refl).
  f_equal. lia.
Qed.
End Split.

(** ** Writes to the same register *)

Section LoadImmediate.
Context `{Target} `{HostFloat} `{Host}.

Lemma xset_xset r rd v w : xset (xset r rd v) rd w = xset r rd w.
Proof.
  unfold xset, array_set. destruct (rd =? ZR); [done|].
  apply functional_extensionality. intros i. by destruct (i =? rd).
Qed.

(** A sequence of writes to one register is the last of them, read as a word. *)
Lemma xset_chain r rd v f w : rd <> ZR -> uintx (f (uintx v)) = uintx w ->
  xset (xset r rd v) rd (f (xset r rd v rd)) = xset r rd w.
Proof. intros Hd Hf. rewrite xset_xset, xset_same by done. by apply xset_eq. Qed.

Lemma IsInt32_spec imm : TARGET_64 = true -> IsInt32 imm = true <-> - 2 ^ 31 <= imm < 2 ^ 31.
Proof.
  intros H64. unfold IsInt32, IsInt, XLEN. rewrite H64. cbn [is_signed bits_of].
  change (64 <=? 32) with false. cbv iota. rewrite andb_true_iff, Z.leb_le, Z.ltb_lt. done.
Qed.

Lemma IsITypeImm_lo imm : IsITypeImm (split_lo imm) = true.
Proof. apply IsITypeImm_spec, split_lo_range. Qed.

(** The part of the loader for constants of 32 bits. *)
Lemma load_int32_computes reg imm : 0 <= reg < 32 -> reg <> ZR -> - 2 ^ 31 <= imm < 2 ^ 31 ->
  computes 2 (if split_hi imm =? 0 then addi reg ZR (split_lo imm)
            else
              _ ← lui reg (split_hi imm);
              if negb (split_lo imm =? 0) then
                if TARGET_64 then addiw reg reg (split_lo imm) else addi reg reg (split_lo imm)
              else mret tt)
    (fun r => xset r reg imm).
Proof.
  intros Hr Hz Hi. pose proof (split_sum imm Hi) as Hsum.
  pose proof (IsITypeImm_lo imm) as Hlo. pose proof (split_lo_range imm) as Hl.
  pose proof (split_hi_range imm) as Hh.
  destruct (Z.eqb_spec (split_hi imm) 0) as [E|E].
  - rewrite E, Z.add_0_l, (swrap_small 32 eq_refl) in Hsum by lia.
    eapply computes_ext; [|apply (computes_weaken 1); [lia | by apply addi_computes]].
    intros r [Hr0 _]. cbn beta. by rewrite Hr0, Z.add_0_l, Hsum.
  - pose proof (lui_computes reg (split_hi imm) Hr Hh (split_hi_aligned imm) E) as Hlui.
    destruct (Z.eqb_spec (split_lo imm) 0) as [El|El]; cbn [negb].
    + rewrite El, Z.add_0_r, (swrap_small 32 eq_refl) in Hsum by done.
      eapply computes_ext; [|apply (computes_weaken (1 + 0)); [lia | apply computes_bind;
        [done | apply computes_skip]]].
      intros r _. cbn beta. by rewrite Hsum.
    + destruct TARGET_64 eqn:H64.
      * eapply computes_ext; [|apply (computes_bind 1 1); [done | by apply addiw_computes]].
        intros r _. cbn beta.
        apply (xset_chain r reg (split_hi imm)
                 (fun v => sign_extend_uint32 (uint32 (uint32 v + uint32 (split_lo imm)))));
          [done|].
        unfold sign_extend_uint32, int32, uint32, uintx, intx, XLEN. rewrite H64.
        rewrite (uwrap_uwrap_le 32 64), (uwrap_add_l 32 eq_refl), (uwrap_add_r 32 eq_refl) by lia.
        rewrite (swrap_uwrap 32 eq_refl), Hsum. by apply (uwrap_swrap 64).
      * eapply computes_ext; [|apply (computes_bind 1 1); [done | by apply addi_computes]].
        intros r _. cbn beta.
        apply (xset_chain r reg (split_hi imm) (fun v => v + split_lo imm)); [done|].
        unfold uintx, XLEN. rewrite H64, (uwrap_add_l 32 eq_refl).
        by rewrite <- (uwrap_swrap 32 eq_refl), Hsum.
Qed.

(** One level of the loader: the rest is loaded, shifted and completed. *)
Lemma load_rest_value imm : TARGET_64 = true ->
  uintx (uintx (uintx (intx (imm - split_lo imm) >> 12) << 12) + split_lo imm) = uintx imm.
Proof.
  intros H64. rewrite split_lo_swrap. unfold uintx, intx, XLEN. rewrite H64.
  destruct (split_rest imm) as [k Hk]. rewrite Hk.
  destruct (swrap_spec 64 eq_refl (4096 * k)) as [j Hj].
  assert (swrap 64 (4096 * k) >> 12 = k + j * 2 ^ 52) as ->.
  { rewrite Hj, Z.shiftr_div_pow2 by lia.
    replace (4096 * k + j * 2 ^ 64) with ((k + j * 2 ^ 52) * 2 ^ 12) by lia.
    apply Z.div_mul. lia. }
  rewrite Z.shiftl_mul_pow2 by lia.
  rewrite (uwrap_mul_l 64 eq_refl), (uwrap_add_l 64 eq_refl).
  replace ((k + j * 2 ^ 52) * 2 ^ 12 + swrap 12 imm) with (imm + j * 2 ^ 64) by lia.
  by apply (uwrap_plus_mul 64).
Qed.

Lemma load_rest_range (fuel : nat) imm : TARGET_64 = true -> (1 <= fuel)%nat ->
  - 2 ^ 63 <= imm < 2 ^ 63 ->
  - 2 ^ (12 * Z.of_nat (S fuel) + 15) <= imm <= 2 ^ (12 * Z.of_nat (S fuel) + 15) ->
  let rest := intx (imm - split_lo imm) >> 12 in
  - 2 ^ (12 * Z.of_nat fuel + 15) <= rest <= 2 ^ (12 * Z.of_nat fuel + 15).
Proof.
  intros H64 Hf Hi HB. cbv zeta. rewrite split_lo_swrap. unfold intx, XLEN. rewrite H64.
  destruct (split_rest imm) as [k Hk]. rewrite Hk.
  pose proof (swrap_bound 12 eq_refl imm).
  rewrite Z.shiftr_div_pow2 by lia. set (B := 2 ^ (12 * Z.of_nat fuel + 15)).
  assert (2 ^ (12 * Z.of_nat (S fuel) + 15) = B * 4096) as HB'.
  { unfold B. change 4096 with (2 ^ 12). rewrite <- Z.pow_add_r by lia. f_equal. lia. }
  rewrite HB' in HB. assert (2 ^ 27 <= B) by (apply Z.pow_le_mono_r; lia).
  destruct (Z.lt_ge_cases k (2 ^ 51)).
  - rewrite (swrap_small 64 eq_refl) by lia. rewrite Z.mul_comm, Z.div_mul by lia. lia.
  - assert (k = 2 ^ 51) as -> by lia. change (swrap 64 (4096 * 2 ^ 51)) with (- 2 ^ 63).
    change (- 2 ^ 63 / 2 ^ 12) with (- 2 ^ 51). lia.
Qed.

Lemma LoadImmediate_rec_computes fuel reg imm : (1 <= fuel)%nat ->
  0 <= reg < 32 -> reg <> ZR -> - 2 ^ (XLEN - 1) <= imm < 2 ^ (XLEN - 1) ->
  - 2 ^ (12 * Z.of_nat fuel + 15) <= imm <= 2 ^ (12 * Z.of_nat fuel + 15) ->
  computes (2 * fuel) (LoadImmediate_rec fuel reg imm) (fun r => xset r reg imm).
Proof.
  intros Hf Hr Hz. revert imm. induction fuel as [|fuel IH]; [lia|].
  intros imm Hi HB. cbn [LoadImmediate_rec].
  destruct (TARGET_64 && negb (IsInt32 imm)) eqn:E.
  - to_prop. assert (~ (- 2 ^ 31 <= imm < 2 ^ 31)) by (rewrite <- IsInt32_spec; congruence).
    assert (H64 : TARGET_64 = true) by done. unfold XLEN in Hi. rewrite H64 in Hi.
    destruct fuel as [|fuel]; [change (2 ^ (12 * Z.of_nat 1 + 15)) with (2 ^ 27) in HB; lia|].
    assert (computes (2 * S fuel) (LoadImmediate_rec (S fuel) reg (intx (imm - split_lo imm) >> 12))
              (fun r => xset r reg (intx (imm - split_lo imm) >> 12))) as IHc.
    { apply IH; [lia | | by apply load_rest_range; lia || done].
      unfold intx, XLEN. rewrite H64, Z.shiftr_div_pow2 by lia.
      pose proof (swrap_bound 64 eq_refl (imm - split_lo imm)).
      split; [apply Z.div_le_lower_bound | apply Z.div_lt_upper_bound]; lia. }
    assert (computes 1 (slli reg reg 12) (fun r => xset r reg (r reg << 12))) as Hsh
      by (apply slli_computes; [done | done | unfold XLEN; rewrite H64; lia]).
    pose proof (load_rest_value imm H64) as Hv.
    destruct (Z.eqb_spec (split_lo imm) 0) as [El|El]; cbn [negb].
    + eapply computes_ext; [|eapply computes_weaken; [|apply computes_bind;
        [exact IHc | apply computes_bind; [exact Hsh | apply computes_skip]]]; lia].
      intros r _. cbn beta. rewrite El in Hv |- *. rewrite Z.add_0_r in Hv.
      apply (xset_chain r reg _ (fun v => v << 12)); [done|].
      by unfold uintx in *; rewrite (uwrap_idem XLEN XLEN_pos) in Hv.
    + eapply computes_ext; [|eapply computes_weaken; [|apply computes_bind;
        [exact IHc | apply computes_bind; [exact Hsh | apply addi_computes;
        [done | done | apply IsITypeImm_lo]]]]; lia].
      intros r _. cbn beta. rewrite (xset_same _ reg _ Hz), xset_xset.
      rewrite xset_same, xset_xset by done. by apply xset_eq.
  - apply (computes_weaken 2); [lia|]. apply load_int32_computes; [done | done |].
    unfold XLEN in Hi. destruct TARGET_64 eqn:H64; [|lia].
    cbn [andb] in E. apply negb_false_iff in E. by apply IsInt32_spec.
Qed.

(** The loader on any constant of the target's width. *)
Lemma LoadImmediate_computes reg imm : 0 <= reg < 32 -> reg <> ZR ->
  - 2 ^ (XLEN - 1) <= imm < 2 ^ (XLEN - 1) ->
  computes 8 (LoadImmediate reg imm) (fun r => xset r reg imm).
Proof.
  intros Hr Hz Hi. apply (LoadImmediate_rec_computes 4); [lia | done | done | done |].
  assert (2 ^ (XLEN - 1) <= 2 ^ 63) by (apply Z.pow_le_mono_r; destruct XLEN_cases; lia).
  change (12 * Z.of_nat 4 + 15) with 63. lia.
Qed.

(** The registers after a constant that does not fit an instruction went through [TMP2]. *)
Definition with_constant (r : regs) (imm : Z) : regs :=
  if IsITypeImm imm then r else xset r TMP2 imm.

Lemma with_constant_other r imm i : i <> TMP2 -> with_constant r imm i = r i.
Proof. intros Hi. unfold with_constant. destruct (IsITypeImm imm); [done | by apply xset_other]. Qed.

(** An operation with an immediate form [opi] and a register form [op]. *)
Lemma immediate_computes (opi op : asm unit) (g : Z -> Z -> Z) rd rs1 imm :
  0 <= rs1 < 32 -> rs1 <> TMP2 -> - 2 ^ (XLEN - 1) <= imm < 2 ^ (XLEN - 1) ->
  (IsITypeImm imm = true -> computes 1 opi (fun r => xset r rd (g (r rs1) (uintx imm)))) ->
  computes 1 op (fun r => xset r rd (g (r rs1) (r TMP2))) ->
  computes 9 (if IsITypeImm imm then opi
              else _ ← assert (negb (rs1 =? TMP2)); _ ← LoadImmediate TMP2 imm; op)
    (fun r => xset (with_constant r imm) rd (g (r rs1) (uintx imm))).
Proof.
  intros Hs Ht Hi Hopi Hop. unfold with_constant. destruct (IsITypeImm imm).
  - apply (computes_weaken 1); [lia|]. auto.
  - apply computes_assert; [by apply negb_true_iff, Z.eqb_neq|].
    eapply computes_ext; [|apply (computes_bind 8 1); [by apply LoadImmediate_computes | done]].
    intros r _. cbn beta. by rewrite xset_other, xset_same.
Qed.

Section Immediates.
Context (rd rs1 imm : Z) (Hd : 0 <= rd < 32) (Hs : 0 <= rs1 < 32) (Ht : rs1 <> TMP2)
  (Hi : - 2 ^ (XLEN - 1) <= imm < 2 ^ (XLEN - 1)).
#[local] Set Default Proof Using "Hd Hs Ht Hi".

Lemma AddImmediate_computes : rd <> ZR -> rs1 <> ZR ->
  computes 9 (AddImmediate rd rs1 imm)
    (fun r => xset (with_constant r imm) rd (r rs1 + uintx imm)).
Proof.
  intros Hz Hz1. apply (immediate_computes _ _ (fun a b => a + b)); [done.. | |].
  - intros HI. eapply computes_ext; [|by apply addi_computes]. intros r _. cbn beta.
    apply xset_eq. unfold uintx. by rewrite uwrap_add_r by apply XLEN_pos.
  - by apply add_computes.
Qed.

Lemma AndImmediate_computes : computes 9 (AndImmediate rd rs1 imm)
  (fun r => xset (with_constant r imm) rd (r rs1 .& uintx imm)).
Proof.
  apply (immediate_computes _ _ Z.land); [done.. | |].
  - intros HI. by apply andi_computes.
  - by apply and_computes.
Qed.

Lemma OrImmediate_computes : computes 9 (OrImmediate rd rs1 imm)
  (fun r => xset (with_constant r imm) rd (r rs1 .| uintx imm)).
Proof.
  apply (immediate_computes _ _ Z.lor); [done.. | |].
  - intros HI. by apply ori_computes.
  - by apply or_computes.
Qed.

Lemma XorImmediate_computes : computes 9 (XorImmediate rd rs1 imm)
  (fun r => xset (with_constant r imm) rd (r rs1 .^ uintx imm)).
Proof.
  apply (immediate_computes _ _ Z.lxor); [done.. | |].
  - intros HI. by apply xori_computes.
  - by apply xor_computes.
Qed.
End Immediates.
End LoadImmediate.
