(* ===== verification/Branches.v ===== *)
(** * Branches to bound labels

    [branches code delta cond f]: code at the program counter transfers control to the
    address [delta] bytes from its start if [cond] holds of the registers, and falls
    through otherwise.  Registers change by [f], except that a far jump may also leave a
    value in [FAR_TMP].  [branches_to m s label cond f] says that the method [m] emits
    such code for a label that is bound. *)
From S2P Require Import Prelude Utils Constants EncodingFacts Words CWords Memory Float.
From S2P Require Import SimState SimInteger SimFloat Simulator Exec Effects AsmState.
From S2P Require Import MicroAssembler Emission Computes MacroFacts.

Section Branches.
Context `{Target} `{HostFloat} `{Host}.

Definition branches (code : list Z) (delta : Z) (cond : regs -> bool) (f : regs -> regs) : Prop :=
  forall st, sim_wf st -> pc_ st + Z.of_nat (length code) < 2 ^ XLEN ->
  code_at (mem_ st) (pc_ st) code ->
  exists n r, regs_wf r /\ (forall i, i <> FAR_TMP -> r i = f (xregs_ st) i) /\
    steps n st = Ok (advance st n (if cond (xregs_ st) then delta
                                   else Z.of_nat (length code)) r).

Lemma executes_branches c1 f1 c2 delta cond f :
  executes c1 f1 -> branches c2 (delta - Z.of_nat (length c1)) cond f ->
  branches (c1 ++ c2) delta (fun r => cond (f1 r)) (fun r => f (f1 r)).
Proof.
  intros E1 B2 st Hwf Hpc Hc. rewrite length_app, Nat2Z.inj_add in *.
  apply code_at_app in Hc as [Hc1 Hc2].
  destruct (E1 st) as (Hr1 & n1 & Hs1); [done | lia | done |].
  destruct (B2 (advance st n1 (Z.of_nat (length c1)) (f1 (xregs_ st))))
    as (n2 & r & Hr & Hf & Hs2);
    [by apply advance_wf | cbn; destruct Hwf; rewrite uintx_small by lia; lia
    | cbn; destruct Hwf; by rewrite uintx_small by lia |].
  exists (n1 + n2)%nat, r. split; [done|]. split; [done|].
  rewrite (steps_app _ _ _ _ Hs1), Hs2, advance_advance. cbn. do 2 f_equal.
  destruct (cond (f1 (xregs_ st))); lia.
Qed.

(** A conditional skip over a jump. *)
Lemma branches_skip cb cj delta cond :
  branches cb (Z.of_nat (length (cb ++ cj))) (fun r => negb (cond r)) (fun r => r) ->
  branches cj (delta - Z.of_nat (length cb)) (fun _ => true) (fun r => r) ->
  branches (cb ++ cj) delta cond (fun r => r).
Proof.
  intros B1 B2 st Hwf Hpc Hc. pose proof Hpc as Hpc'.
  rewrite length_app, Nat2Z.inj_add in Hpc'. apply code_at_app in Hc as [Hc1 Hc2].
  destruct (B1 st) as (n1 & r1 & Hr1 & Hf1 & Hs1); [done | lia | done |].
  destruct (cond (xregs_ st)) eqn:Ec; cbn [negb] in Hs1.
  - destruct (B2 (advance st n1 (Z.of_nat (length cb)) r1)) as (n2 & r2 & Hr2 & Hf2 & Hs2);
      [by apply advance_wf | cbn; destruct Hwf; rewrite uintx_small by lia; lia
      | cbn; destruct Hwf; by rewrite uintx_small by lia |].
    exists (n1 + n2)%nat, r2. split; [done|]. split.
    + intros i Hi. rewrite (Hf2 i Hi). by apply Hf1.
    + rewrite (steps_app _ _ _ _ Hs1), Hs2, advance_advance. do 2 f_equal. lia.
  - by exists n1, r1.
Qed.

(** One instruction that may change the program counter. *)
Lemma branches_word w delta (cond : regs -> bool) : 0 <= w < 2 ^ 32 -> opcode w .& 3 = 3 ->
  (forall st, Interpret st w = Ok (pc_add st (if cond (xregs_ st) then delta else 4))) ->
  branches (le_bytes 4 w) delta cond (fun r => r).
Proof.
  intros Hw Ho HI st Hwf Hpc Hc. exists 1%nat, (xregs_ st). split; [apply Hwf|]. split; [done|].
  rewrite length_le_bytes in *. rewrite steps_S, (step_word st w), HI by (done || lia).
  unfold advance. by destruct st.
Qed.

Lemma branches_parcel w delta (cond : regs -> bool) : 0 <= w < 2 ^ 16 -> w .& 3 <> 3 ->
  (forall st, InterpretC st w = Ok (pc_add st (if cond (xregs_ st) then delta else 2))) ->
  branches (le_bytes 2 w) delta cond (fun r => r).
Proof.
  intros Hw Ho HI st Hwf Hpc Hc. exists 1%nat, (xregs_ st). split; [apply Hwf|]. split; [done|].
  rewrite length_le_bytes in *. rewrite steps_S, (step_parcel st w), HI by (done || lia).
  unfold advance. by destruct st.
Qed.

Lemma Bword_branches imm rs2 rs1 f3 : 0 <= rs1 < 32 -> 0 <= rs2 < 32 ->
  In f3 branch_functs -> IsBTypeImm imm = true ->
  branches (le_bytes 4 (Bword imm rs2 rs1 f3 Opcode.BRANCH)) imm
    (fun r => branch_cond f3 (r rs1) (r rs2)) (fun r => r).
Proof.
  intros H1' H2' H3 Hi. pose proof (branch_funct_range f3 H3).
  apply branches_word; [apply Bword_bound; wside | by rewrite Bword_opcode by wside |].
  intros st. by apply interpret_branch.
Qed.

Lemma Jword_branches imm : IsJTypeImm imm = true ->
  branches (le_bytes 4 (Jword imm ZR Opcode.JAL)) imm (fun _ => true) (fun r => r).
Proof.
  intros Hi. apply branches_word; [apply Jword_bound; wside | by rewrite Jword_opcode by wside |].
  intros st. rewrite interpret_jal by wside. by destruct st.
Qed.

Lemma far_target pc offset : - 2 ^ 31 <= offset < 2 ^ 31 - 2 ^ 11 ->
  uintx (uintx (pc + split_hi offset) + split_lo offset) = uintx (pc + offset).
Proof.
  intros Ho. unfold uintx. rewrite (uwrap_add_l XLEN XLEN_pos). f_equal.
  rewrite split_hi_swrap, split_lo_swrap.
  pose proof (swrap_bound 12 eq_refl offset).
  destruct (split_rest offset) as [k Hk]. rewrite (swrap_small 32 eq_refl) by lia. lia.
Qed.

(** The far jump: [auipc] and [jalr] through [FAR_TMP]. *)
Lemma far_branches offset : - 2 ^ 31 <= offset < 2 ^ 31 - 2 ^ 11 ->
  branches (le_bytes 4 (Uword (split_hi offset) FAR_TMP Opcode.AUIPC) ++
            le_bytes 4 (Iword (split_lo offset) FAR_TMP Funct3.F3_0 ZR Opcode.JALR))
    offset (fun _ => true) (fun r => r).
Proof.
  intros Ho st Hwf Hpc Hc. apply code_at_app in Hc as [Hc1 Hc2].
  rewrite length_app, !length_le_bytes in *. cbn [Nat.add] in Hpc.
  set (r1 := xset (xregs_ st) FAR_TMP (pc_ st + split_hi offset)).
  assert (regs_wf r1) as Hr1 by (apply xset_wf, Hwf).
  assert (r1 FAR_TMP = uintx (pc_ st + split_hi offset)) as Hft by by apply xset_same.
  assert (step st = Ok (advance st 1 4 r1)) as Hs1.
  { rewrite (step_word st (Uword (split_hi offset) FAR_TMP Opcode.AUIPC));
      [|apply Uword_bound; wside | by rewrite Uword_opcode by wside | done].
    by rewrite interpret_auipc by first [apply split_hi_range | apply split_hi_aligned | wside]. }
  assert (step (advance st 1 4 r1) = Ok (advance st 2 offset r1)) as Hs2.
  { rewrite (step_word _ (Iword (split_lo offset) FAR_TMP Funct3.F3_0 ZR Opcode.JALR));
      [|apply Iword_bound; wside | by rewrite Iword_opcode by wside
       | cbn; destruct Hwf; by rewrite uintx_small by lia].
    rewrite interpret_jalr by first [apply IsITypeImm_lo | wside]. unfold mbind, result_bind.
    rewrite xset_zero. cbn [xregs_ advance with_instret with_pc with_xregs].
    rewrite Hft, far_target by done. unfold advance. cbn. do 2 f_equal.
    unfold uint64. rewrite (uwrap_add_l 64 eq_refl). f_equal. lia. }
  exists 2%nat, r1. split; [done|]. split.
  - intros i Hi. unfold r1. by rewrite xset_other.
  - rewrite steps_S, Hs1 by lia. unfold mbind, result_bind. rewrite steps_S.
    + by rewrite Hs2.
    + cbn. destruct Hwf. rewrite uintx_small by lia. lia.
Qed.

(** ** Emitters of branches *)

Definition branches_to (m : asm unit) (s : Assembler) (label : nat)
    (cond : regs -> bool) (f : regs -> regs) : Prop :=
  exists code, emits m s code /\
    branches code (position_ (labels_ s label) - Position s) cond f.

(** A label bound at an earlier position.  Code has less than 2^30 bytes, and the distance is
    not one of the few for which [EmitBranch] selects a jump that cannot reach; see
    [Findings]. *)
Record bound_label (s : Assembler) (label : nat) : Prop := {
  bound_range : 0 <= position_ (labels_ s label) <= Position s;
  bound_size : Position s < 2 ^ 30;
  bound_gap : Position s - position_ (labels_ s label) <= 2 ^ 19 - 4 \/
              2 ^ 19 + 4 < Position s - position_ (labels_ s label)
}.

Lemma bound_IsBound s label : bound_label s label -> IsBound (labels_ s label) = true.
Proof.
  intros [Hp _ _]. unfold IsBound. apply negb_true_iff, Z.eqb_neq. lia.
Qed.

Lemma label_offset_bind {B} label (k : Z -> asm B) s : IsBound (labels_ s label) = true ->
  (label_offset label ≫= k) s = k (position_ (labels_ s label) - Position s) s.
Proof.
  intros Hb. unfold label_offset, mbind, M_bind, label_position, get.
  by rewrite ASSERT_true.
Qed.

Lemma InvertFunct3_spec f3 : In f3 branch_functs -> exists g, InvertFunct3 f3 = Ok g /\
  In g branch_functs /\ forall a b, branch_cond g a b = negb (branch_cond f3 a b).
Proof.
  intros Hf. cbn in Hf. destruct Hf as [<-|[<-|[<-|[<-|[<-|[<-|[]]]]]]];
    eexists; (split; [reflexivity|]); (split; [cbn; tauto|]); intros a b; unfold branch_cond;
    closed_tests; rewrite ?negb_involutive; try done; try apply Z.leb_antisym; apply Z.ltb_antisym.
Qed.

Lemma Position_append s code : Position (append s code) = Position s + Z.of_nat (length code).
Proof. unfold Position, append. cbn. rewrite length_app. lia. Qed.

Lemma EmitLongBranch_emits len rs1 rs2 f3 g jump s c :
  InvertFunct3 f3 = Ok g -> 0 <= g < 8 -> 0 <= rs1 < 32 -> 0 <= rs2 < 32 ->
  IsBTypeImm len = true ->
  emits jump (append s (le_bytes 4 (Bword len rs2 rs1 g Opcode.BRANCH))) c ->
  4 + Z.of_nat (length c) = len ->
  emits (EmitLongBranch len rs1 rs2 f3 jump) s
    (le_bytes 4 (Bword len rs2 rs1 g Opcode.BRANCH) ++ c).
Proof.
  intros Hg Hr H1' H2' Hl Hj Hlen. unfold emits, EmitLongBranch.
  rewrite get_bind, (lift_bind _ g) by done.
  unfold mbind at 1, M_bind at 1. rewrite EmitBType_emits by wside.
  unfold mbind at 1, M_bind at 1. rewrite Hj, get_bind.
  rewrite !Position_append, length_le_bytes. unfold assert, lift.
  rewrite ASSERT_true by (apply Z.eqb_eq; lia). by rewrite append_append.
Qed.

Lemma EmitFarJump_emits offset s : emits (EmitFarJump offset) s
  (le_bytes 4 (Uword (split_hi offset) FAR_TMP Opcode.AUIPC) ++
   le_bytes 4 (Iword (split_lo offset) FAR_TMP Funct3.F3_0 ZR Opcode.JALR)).
Proof.
  unfold EmitFarJump. cbv zeta.
  assert (IsUTypeImm (split_hi offset) = true) as Hu
    by (apply IsUTypeImm_ok; [apply split_hi_range | apply split_hi_aligned]).
  rewrite Hu. cbn [negb]. cbv iota.
  apply emits_bind; [apply EmitUType_emits; wside | apply EmitIType_emits].
  all: first [apply IsITypeImm_lo | wside].
Qed.

Lemma IsBTypeImm_small imm : 0 <= imm < 2 ^ 11 -> imm mod 2 = 0 -> IsBTypeImm imm = true.
Proof.
  intros Hi Ha. apply andb_true_iff. split; [apply IsInt_spec; lia|].
  by apply (aligned_spec imm 1).
Qed.

Lemma IsJTypeImm_spec imm : IsJTypeImm imm = true <-> - 2 ^ 19 <= imm < 2 ^ 19 /\ imm mod 2 = 0.
Proof.
  unfold IsJTypeImm. rewrite andb_true_iff, IsInt_spec, (aligned_spec imm 1 2) by done. done.
Qed.

Lemma branches_ext code delta c1 c2 f :
  (forall r, c1 r = c2 r) -> branches code delta c1 f -> branches code delta c2 f.
Proof. intros Hc B st Hwf Hpc Hat. rewrite <- Hc. by apply B. Qed.

(** An inverted branch over a jump to the target. *)
Lemma EmitLongBranch_to len rs1 rs2 f3 jump s delta :
  0 <= rs1 < 32 -> 0 <= rs2 < 32 -> In f3 branch_functs -> 0 <= len < 2 ^ 11 -> len mod 2 = 0 ->
  (forall w, exists c, emits jump (append s (le_bytes 4 w)) c /\
     branches c (delta - 4) (fun _ => true) (fun r => r) /\ 4 + Z.of_nat (length c) = len) ->
  exists code, emits (EmitLongBranch len rs1 rs2 f3 jump) s code /\
    branches code delta (fun r => branch_cond f3 (r rs1) (r rs2)) (fun r => r).
Proof.
  intros H1' H2' H3 Hl Ha Hj. destruct (InvertFunct3_spec f3 H3) as (g & Hg & Hgi & Hgc).
  pose proof (branch_funct_range g Hgi).
  destruct (Hj (Bword len rs2 rs1 g Opcode.BRANCH)) as (c & Ec & Bc & Hlen).
  eexists. split; [apply (EmitLongBranch_emits len rs1 rs2 f3 g _ s c);
    [done.. | by apply IsBTypeImm_small | done | done]|].
  apply branches_skip; [|by rewrite length_le_bytes].
  rewrite length_app, length_le_bytes, Nat2Z.inj_add. change (Z.of_nat 4) with 4. rewrite Hlen.
  eapply branches_ext; [|apply (Bword_branches len rs2 rs1 g); [done.. | by apply IsBTypeImm_small]].
  intros r. apply Hgc.
Qed.

Lemma EmitBranch_to rs1 rs2 label f3 distance s :
  0 <= rs1 < 32 -> 0 <= rs2 < 32 -> In f3 branch_functs -> bound_label s label ->
  branches_to (EmitBranch rs1 rs2 label f3 distance) s label
    (fun r => branch_cond f3 (r rs1) (r rs2)) (fun r => r).
Proof.
  intros H1' H2' H3 Hb. pose proof (bound_IsBound s label Hb) as HB.
  pose proof (branch_funct_range f3 H3). destruct Hb as [Hp Hsz Hgap].
  unfold branches_to, emits, EmitBranch. rewrite get_bind. unfold label_bound. rewrite HB.
  rewrite label_offset_bind by done. set (offset := position_ (labels_ s label) - Position s).
  assert (forall w, position_ (labels_ (append s (le_bytes 4 w)) label)
                    - Position (append s (le_bytes 4 w)) = offset - 4) as Hoff.
  { intros w. rewrite Position_append, length_le_bytes. cbn. unfold offset. lia. }
  destruct (IsBTypeImm offset) eqn:EB; [|destruct (IsJTypeImm (offset + 4)) eqn:EJ].
  - eexists. split; [apply EmitBType_emits; wside | by apply Bword_branches].
  - apply IsJTypeImm_spec in EJ as [EJ Ea].
    assert (IsJTypeImm (offset - 4) = true) as EJ'.
    { apply IsJTypeImm_spec. split; [unfold offset in *; lia|].
      replace (offset - 4) with (offset + 4 + (- 4) * 2) by lia. by rewrite Z.mod_add by lia. }
    apply EmitLongBranch_to; [done.. | lia | done |]. intros w. eexists. split_and!.
    + unfold emits. rewrite label_offset_bind, Hoff by done. apply EmitJType_emits; wside.
    + by apply Jword_branches.
    + by rewrite length_le_bytes.
  - apply EmitLongBranch_to; [done.. | lia | done |]. intros w. eexists. split_and!.
    + unfold emits. rewrite label_offset_bind, Hoff by done. apply EmitFarJump_emits.
    + apply far_branches. unfold offset. lia.
    + by rewrite length_app, !length_le_bytes.
Qed.

(** The condition tested by a branch with one operand fixed to zero. *)
Lemma EmitCBranch_to rs1p label s (op : Z) hi (cond : regs -> bool) :
  op = cop hi 1 -> 0 <= hi < 8 -> IsRegPrime rs1p = true -> bound_label s label ->
  IsCBImm (position_ (labels_ s label) - Position s) = true ->
  (forall st imm, IsCBImm imm = true -> InterpretC st (CBword hi 1 imm rs1p) =
     Ok (pc_add st (if cond (xregs_ st) then imm else 2))) ->
  branches_to (EmitCBranch rs1p label op) s label cond (fun r => r).
Proof.
  intros -> Hh Hr Hb Hi HI. pose proof (bound_IsBound s label Hb) as HB.
  destruct (CBword_reads hi 1 (position_ (labels_ s label) - Position s) Hh ltac:(lia) rs1p)
    as (Hw & Hlo & _); [done | done |].
  exists (le_bytes 2 (CBword hi 1 (position_ (labels_ s label) - Position s) rs1p)). split.
  - unfold emits, EmitCBranch. rewrite get_bind. unfold label_bound. rewrite HB.
    rewrite label_offset_bind, Hi by done. cbn [negb]. cbv iota.
    rewrite (lift_bind _ (prime rs1p << 7)) by by apply EncodeRegPrime_ok.
    erewrite lift_bind by (unfold EncodeCBImm; rewrite ASSERT_bind by done; reflexivity).
    by apply Emit16_word.
  - apply branches_parcel; [done | by rewrite Hlo |]. intros st. by apply HI.
Qed.

(** ** Branches in their default form: the label is bound and the distance not declared *)

Lemma compressed_reach_bind {B} IsImm label (k : bool -> asm B) s :
  IsBound (labels_ s label) = true ->
  (compressed_reach IsImm label kFarJump ≫= k) s =
  k (Supports RV_C s && IsImm (position_ (labels_ s label) - Position s)) s.
Proof.
  intros Hb. unfold compressed_reach. unfold mbind at 1, M_bind at 1. rewrite get_bind.
  destruct (Supports RV_C s); cbn [negb andb is_near]; [|done].
  rewrite get_bind. unfold label_bound. rewrite Hb. cbn [negb]. cbv iota.
  by rewrite label_offset_bind.
Qed.

Lemma branches_to_eq m m' s label cond f : m s = m' s ->
  branches_to m' s label cond f -> branches_to m s label cond f.
Proof. intros E (code & Ee & B). exists code. split; [by unfold emits; rewrite E | done]. Qed.

Lemma branches_to_ext m s label c1 c2 f : (forall r, regs_wf r -> c1 r = c2 r) ->
  branches_to m s label c1 f -> branches_to m s label c2 f.
Proof.
  intros Hc (code & Ee & B). exists code. split; [done|].
  intros st Hwf Hpc Hat. rewrite <- Hc by apply Hwf. by apply B.
Qed.

Lemma c_beqz_to rs1p label s : Supports RV_C s = true -> IsRegPrime rs1p = true ->
  bound_label s label -> IsCBImm (position_ (labels_ s label) - Position s) = true ->
  branches_to (c_beqz rs1p label) s label (fun r => r rs1p =? 0) (fun r => r).
Proof.
  intros HC Hr Hb Hi. eapply branches_to_eq; [by apply assert_supports_bind|].
  apply (EmitCBranch_to _ _ _ _ 6); [done.. |]. intros st imm Him. by apply interpret_c_beqz.
Qed.

Lemma c_bnez_to rs1p label s : Supports RV_C s = true -> IsRegPrime rs1p = true ->
  bound_label s label -> IsCBImm (position_ (labels_ s label) - Position s) = true ->
  branches_to (c_bnez rs1p label) s label (fun r => negb (r rs1p =? 0)) (fun r => r).
Proof.
  intros HC Hr Hb Hi. eapply branches_to_eq; [by apply assert_supports_bind|].
  apply (EmitCBranch_to _ _ _ _ 7); [done.. |]. intros st imm Him. by apply interpret_c_bnez.
Qed.

Lemma branches_to_supports e (k : unit -> asm unit) s label cond f : Supports e s = true ->
  branches_to (k tt) s label cond f -> branches_to (assert_supports e ≫= k) s label cond f.
Proof. intros He. apply branches_to_eq. by apply assert_supports_bind. Qed.

Lemma branches_to_reach IsImm (k : bool -> asm unit) s label cond f : bound_label s label ->
  branches_to (k (Supports RV_C s && IsImm (position_ (labels_ s label) - Position s)))
    s label cond f ->
  branches_to (compressed_reach IsImm label kFarJump ≫= k) s label cond f.
Proof.
  intros Hb. apply branches_to_eq. by apply compressed_reach_bind, bound_IsBound.
Qed.

(** Open a branch emitter and split on the compressed forms. *)
Ltac open_branch Hs Hb :=
  unfold beq, bne, blt, bge, bltu;
  apply branches_to_supports; [by apply full_supports|];
  try (apply branches_to_reach; [done|]).

Ltac branch_guards :=
  repeat match goal with
  | |- branches_to (if ?c then _ else _) _ _ _ _ => destruct c eqn:?
  end; to_prop; subst.

Context (rs1 rs2 : Z) (label : nat) (s : Assembler).
Context (Hs1 : 0 <= rs1 < 32) (Hs2 : 0 <= rs2 < 32) (Hs : full s) (Hb : bound_label s label).
#[local] Set Default Proof Using "Hs1 Hs2 Hs Hb".

Lemma beq_to : branches_to (beq rs1 rs2 label kFarJump) s label (fun r => r rs1 =? r rs2) (fun r => r).
Proof.
  open_branch Hs Hb. branch_guards.
  - eapply branches_to_ext; [|by apply c_beqz_to]. intros r [Hz _]. cbn beta.
    by rewrite Hz, Z.eqb_sym.
  - eapply branches_to_ext; [|by apply c_beqz_to]. intros r [Hz _]. cbn beta. by rewrite Hz.
  - by apply (EmitBranch_to rs1 rs2 label Funct3.BEQ); [..|cbn; tauto|].
Qed.

Lemma bne_to : branches_to (bne rs1 rs2 label kFarJump) s label
  (fun r => negb (r rs1 =? r rs2)) (fun r => r).
Proof.
  open_branch Hs Hb. branch_guards.
  - eapply branches_to_ext; [|by apply c_bnez_to]. intros r [Hz _]. cbn beta.
    by rewrite Hz, Z.eqb_sym.
  - eapply branches_to_ext; [|by apply c_bnez_to]. intros r [Hz _]. cbn beta. by rewrite Hz.
  - by apply (EmitBranch_to rs1 rs2 label Funct3.BNE); [..|cbn; tauto|].
Qed.

Lemma blt_to : branches_to (blt rs1 rs2 label kFarJump) s label
  (fun r => intx (r rs1) <? intx (r rs2)) (fun r => r).
Proof.
  open_branch Hs Hb. by apply (EmitBranch_to rs1 rs2 label Funct3.BLT); [..|cbn; tauto|].
Qed.

Lemma bge_to : branches_to (bge rs1 rs2 label kFarJump) s label
  (fun r => intx (r rs2) <=? intx (r rs1)) (fun r => r).
Proof.
  open_branch Hs Hb. by apply (EmitBranch_to rs1 rs2 label Funct3.BGE); [..|cbn; tauto|].
Qed.

Lemma bltu_to : branches_to (bltu rs1 rs2 label kFarJump) s label
  (fun r => r rs1 <? r rs2) (fun r => r).
Proof.
  open_branch Hs Hb. by apply (EmitBranch_to rs1 rs2 label Funct3.BLTU); [..|cbn; tauto|].
Qed.

Lemma bgeu_to : branches_to (bgeu rs1 rs2 label kFarJump) s label
  (fun r => r rs2 <=? r rs1) (fun r => r).
Proof. by apply (EmitBranch_to rs1 rs2 label Funct3.BGEU); [..|cbn; tauto|]. Qed.
End Branches.
