(* ===== verification/Arithmetic.v ===== *)
(** * Multiplication and division of the simulator

    The schoolbook products on half words of [mulh], [mulhu] and [mulhsu] are the high
    halves of the exact products, and the division helpers follow the RISC-V rules for
    zero divisors and overflow. *)
From S2P Require Import Prelude Utils Constants Memory SimState SimInteger Exec.

(** The carry-propagating sum of partial products, with [B] the half-word base. *)
Lemma high_half B al ah bl bh : 0 < B -> 0 <= al * bl ->
  let r0 := al * bl / B + ah * bl in
  let r1 := r0 mod B + al * bh in
  ah * bh + r0 / B + r1 / B = (ah * B + al) * (bh * B + bl) / (B * B).
Proof.
  intros HB Hx r0 r1.
  pose proof (Z.div_mod (al * bl) B) as Ex. pose proof (Z.div_mod r0 B) as E0.
  pose proof (Z.div_mod r1 B) as E1.
  pose proof (Z.mod_pos_bound (al * bl) B HB). pose proof (Z.mod_pos_bound r1 B HB).
  apply (Z.div_unique_pos _ _ _ (r1 mod B * B + (al * bl) mod B)); [nia|].
  assert (r1 = r0 mod B + al * bh) by done. assert (r0 = al * bl / B + ah * bl) by done.
  replace ((ah * B + al) * (bh * B + bl))
    with (ah * bh * (B * B) + (ah * bl + al * bh) * B + al * bl) by ring.
  nia.
Qed.

Section HalfWords.
Context `{Target}.

Definition half : Z := 2 ^ kHiShift.

Lemma half_pos : 0 < half.
Proof. unfold half, kHiShift, XLEN. by destruct TARGET_64. Qed.

Lemma half_square : 2 ^ XLEN = half * half.
Proof. unfold half, kHiShift, XLEN. by destruct TARGET_64. Qed.

Lemma half_even : exists k, half = 2 * k /\ 2 ^ (XLEN - 1) = k * half.
Proof.
  unfold half, kHiShift, XLEN. destruct TARGET_64; [exists (2 ^ 31) | exists (2 ^ 15)]; done.
Qed.

Lemma land_kLoMask z : z .& kLoMask = z mod half.
Proof.
  unfold kLoMask, half, kHiShift. rewrite Z.shiftl_1_l.
  replace (2 ^ (XLEN / 2) - 1) with (Z.ones (XLEN / 2)) by (rewrite Z.ones_equiv; lia).
  apply Z.land_ones. unfold XLEN. by destruct TARGET_64.
Qed.

Lemma shiftr_half z : z >> kHiShift = z / half.
Proof. apply Z.shiftr_div_pow2. unfold kHiShift, XLEN. by destruct TARGET_64. Qed.

Lemma uintx_mod_half z : uintx z mod half = z mod half.
Proof.
  unfold uintx, uwrap. rewrite half_square. pose proof half_pos.
  rewrite Z.rem_mul_r by lia. rewrite Z.mul_comm, Z.mod_add, Z.mod_mod by lia. done.
Qed.

Lemma intx_small z : - 2 ^ (XLEN - 1) <= z < 2 ^ (XLEN - 1) -> intx z = z.
Proof. apply (swrap_small XLEN XLEN_pos). Qed.

Lemma intx_uintx z : intx (uintx z) = intx z.
Proof. apply (swrap_uwrap XLEN XLEN_pos). Qed.

Lemma intx_bound z : - 2 ^ (XLEN - 1) <= intx z < 2 ^ (XLEN - 1).
Proof. apply (swrap_bound XLEN XLEN_pos). Qed.

Lemma uintx_intx z : uintx (intx z) = uintx z.
Proof. apply (uwrap_swrap XLEN XLEN_pos). Qed.

Lemma uintx_add_l a b : uintx (uintx a + b) = uintx (a + b).
Proof. apply (uwrap_add_l XLEN XLEN_pos). Qed.
Lemma uintx_add_r a b : uintx (a + uintx b) = uintx (a + b).
Proof. apply (uwrap_add_r XLEN XLEN_pos). Qed.
Lemma uintx_mul_l a b : uintx (uintx a * b) = uintx (a * b).
Proof. apply (uwrap_mul_l XLEN XLEN_pos). Qed.
Lemma uintx_mul_r a b : uintx (a * uintx b) = uintx (a * b).
Proof. apply (uwrap_mul_r XLEN XLEN_pos). Qed.

(** Signed and unsigned halves of a word. *)
Lemma unsigned_halves a : 0 <= a < 2 ^ XLEN ->
  a = a / half * half + a mod half /\ 0 <= a / half < half /\ 0 <= a mod half < half.
Proof.
  intros Ha. pose proof half_pos. rewrite half_square in Ha.
  split; [pose proof (Z.div_mod a half); lia|].
  split; [split; [apply Z.div_pos | apply Z.div_lt_upper_bound]; lia|].
  by apply Z.mod_pos_bound.
Qed.

Lemma signed_halves a : - 2 ^ (XLEN - 1) <= a < 2 ^ (XLEN - 1) ->
  exists k, half = 2 * k /\ 2 ^ (XLEN - 1) = k * half /\
  a = a / half * half + a mod half /\ - k <= a / half < k /\ 0 <= a mod half < half.
Proof.
  intros Ha. pose proof half_pos. destruct half_even as (k & Hk & Hk2). exists k.
  rewrite Hk2 in Ha. split_and!; [done | done | pose proof (Z.div_mod a half); lia |..].
  - apply Z.div_le_lower_bound; lia.
  - apply Z.div_lt_upper_bound; lia.
  - by apply Z.mod_pos_bound.
  - by apply Z.mod_pos_bound.
Qed.

Lemma div_range x B : 0 < B -> 0 <= x < B * B -> 0 <= x / B < B.
Proof. intros HB Hx. split; [apply Z.div_pos | apply Z.div_lt_upper_bound]; lia. Qed.

(** [mulhu] is the high word of the unsigned product. *)
Lemma mulhu_high a b : 0 <= a < 2 ^ XLEN -> 0 <= b < 2 ^ XLEN ->
  mulhu a b = a * b / 2 ^ XLEN.
Proof.
  intros Ha Hb. unfold mulhu. cbv zeta. rewrite !land_kLoMask, !shiftr_half.
  destruct (unsigned_halves a Ha) as (Ea & Hah & Hal).
  destruct (unsigned_halves b Hb) as (Eb & Hbh & Hbl).
  assert (0 <= a * b / 2 ^ XLEN < 2 ^ XLEN) as Hr.
  { split; [apply Z.div_pos; nia | apply Z.div_lt_upper_bound; nia]. }
  replace (a * b) with ((a / half * half + a mod half) * (b / half * half + b mod half)) in *
    by (by rewrite <- Ea, <- Eb).
  clear Ea Eb Ha Hb. generalize dependent (a / half). generalize dependent (a mod half).
  generalize dependent (b / half). generalize dependent (b mod half).
  intros bl Hbl bh Hbh al Hal ah Hah Hr. rewrite half_square in *.
  pose proof half_pos as HB. pose proof (high_half half al ah bl bh HB ltac:(nia)) as HH.
  cbv zeta in HH. rewrite <- HH in Hr |- *.
  pose proof (div_range (al * bl) half HB ltac:(nia)) as Hx.
  rewrite (uintx_small (al * bl)), (uintx_small (ah * bl)), (uintx_small (al * bh)),
    (uintx_small (ah * bh)) by (rewrite half_square; nia).
  set (r0 := al * bl / half + ah * bl) in *.
  assert (0 <= r0 < half * half) by (unfold r0; nia).
  rewrite (uintx_small r0) by (by rewrite half_square).
  pose proof (Z.mod_pos_bound r0 half HB).
  rewrite (uintx_small (r0 mod half + al * bh)) by (rewrite half_square; nia).
  apply uintx_small. by rewrite half_square.
Qed.

(** [mulh] is the high word of the signed product. *)
Lemma mulh_high a b : - 2 ^ (XLEN - 1) <= a < 2 ^ (XLEN - 1) ->
  - 2 ^ (XLEN - 1) <= b < 2 ^ (XLEN - 1) -> mulh a b = a * b / 2 ^ XLEN.
Proof.
  intros Ha Hb. unfold mulh. cbv zeta.
  rewrite !land_kLoMask, !shiftr_half, !uintx_mod_half, !intx_uintx.
  destruct (signed_halves a Ha) as (k & Hk & Hk2 & Ea & Hah & Hal).
  destruct (signed_halves b Hb) as (k' & Hk' & _ & Eb & Hbh & Hbl).
  assert (k' = k) as -> by lia.
  replace (a * b) with ((a / half * half + a mod half) * (b / half * half + b mod half))
    by (by rewrite <- Ea, <- Eb).
  clear Ea Eb Ha Hb. generalize dependent (a / half). generalize dependent (a mod half).
  generalize dependent (b / half). generalize dependent (b mod half).
  intros bl Hbl bh Hbh al Hal ah Hah. pose proof half_pos as HB.
  rewrite half_square. pose proof (high_half half al ah bl bh HB ltac:(nia)) as HH.
  cbv zeta in HH. rewrite <- HH.
  pose proof (div_range (al * bl) half HB ltac:(nia)) as Hx.
  rewrite (uintx_small (al * bl)) by (rewrite half_square; nia).
  rewrite <- (intx_uintx (uintx ah * bl)), <- (intx_uintx (al * uintx bh)).
  rewrite uintx_mul_l, uintx_mul_r, !intx_uintx.
  rewrite (intx_small (ah * bl)), (intx_small (al * bh)), (intx_small (ah * bh)) by nia.
  rewrite <- (intx_uintx (_ + uintx (ah * bl))), uintx_add_r, intx_uintx.
  set (r0 := al * bl / half + ah * bl) in *.
  assert (- (k * half) <= r0 < k * half) by (unfold r0; nia).
  rewrite (intx_small r0) by lia.
  rewrite <- (intx_uintx (_ + uintx (al * bh))), uintx_add_r, intx_uintx.
  pose proof (Z.mod_pos_bound r0 half HB).
  rewrite (intx_small (r0 mod half + al * bh)) by nia.
  apply intx_small. rewrite HH, Hk2.
  assert (- (k * half) <= ah * half + al < k * half) as HA by nia.
  assert (- (k * half) <= bh * half + bl < k * half) as HBb by nia.
  clear - HA HBb Hk HB. generalize dependent (ah * half + al).
  generalize dependent (bh * half + bl). intros y Hy x Hx.
  assert (- (k * half * (k * half)) <= x * y <= k * half * (k * half)) by nia.
  split; [apply Z.div_le_lower_bound | apply Z.div_lt_upper_bound]; nia.
Qed.

(** [mulhsu] is the high word of the product of a signed and an unsigned factor. *)
Lemma mulhsu_high a b : - 2 ^ (XLEN - 1) <= a < 2 ^ (XLEN - 1) -> 0 <= b < 2 ^ XLEN ->
  mulhsu a b = uintx (a * b / 2 ^ XLEN).
Proof.
  intros Ha Hb. unfold mulhsu. cbv zeta.
  rewrite !land_kLoMask, !shiftr_half, !uintx_mod_half, !intx_uintx, uintx_add_l.
  destruct (signed_halves a Ha) as (k & Hk & Hk2 & Ea & Hah & Hal).
  destruct (unsigned_halves b Hb) as (Eb & Hbh & Hbl).
  replace (a * b) with ((a / half * half + a mod half) * (b / half * half + b mod half))
    by (by rewrite <- Ea, <- Eb).
  clear Ea Eb Ha Hb. generalize dependent (a / half). generalize dependent (a mod half).
  generalize dependent (b / half). generalize dependent (b mod half).
  intros bl Hbl bh Hbh al Hal ah Hah. pose proof half_pos as HB.
  rewrite half_square. pose proof (high_half half al ah bl bh HB ltac:(nia)) as HH.
  cbv zeta in HH. rewrite <- HH.
  pose proof (div_range (al * bl) half HB ltac:(nia)) as Hx.
  rewrite (uintx_small (al * bl)) by (rewrite half_square; nia).
  rewrite (uintx_small (al * bh)) by (rewrite half_square; nia).
  rewrite <- (intx_uintx (uintx ah * bl)), <- (intx_uintx (uintx ah * bh)).
  rewrite !uintx_mul_l, !intx_uintx.
  rewrite (intx_small (ah * bl)), (intx_small (ah * bh)) by nia.
  rewrite <- (intx_uintx (_ + uintx (ah * bl))), uintx_add_r, intx_uintx.
  set (r0 := al * bl / half + ah * bl) in *.
  assert (- (k * half) <= r0 < k * half) by (unfold r0; nia).
  rewrite (intx_small r0) by lia.
  pose proof (Z.mod_pos_bound r0 half HB).
  rewrite (uintx_small (r0 mod half + al * bh)) by (rewrite half_square; nia). done.
Qed.

(** ** Division *)

(** The quotient and remainder of the signed division satisfy the division equation on
    words, the remainder is smaller than the divisor and has the dividend's sign. *)
Lemma div_rem_spec a b : - 2 ^ (XLEN - 1) <= a < 2 ^ (XLEN - 1) ->
  - 2 ^ (XLEN - 1) <= b < 2 ^ (XLEN - 1) ->
  uintx (div a b * b + rem a b) = uintx a /\
  - 2 ^ (XLEN - 1) <= div a b < 2 ^ (XLEN - 1) /\
  - 2 ^ (XLEN - 1) <= rem a b < 2 ^ (XLEN - 1) /\
  (b <> 0 -> Z.abs (rem a b) < Z.abs b /\ 0 <= rem a b * a).
Proof.
  intros Ha Hb. pose proof (pow2_half XLEN XLEN_pos) as H2.
  unfold div, rem, kMinIntX. destruct (Z.eqb_spec b 0) as [->|Hz].
  - split_and!; first [lia | f_equal; lia].
  - destruct (Z.eqb_spec b (-1)) as [->|Hm]; [destruct (Z.eqb_spec a (- 2 ^ (XLEN - 1))) as [->|Hm]|];
      cbn [andb].
    + split; [|split_and!; lia]. unfold uintx.
      replace (- 2 ^ (XLEN - 1) * -1 + 0) with (- 2 ^ (XLEN - 1) + 1 * 2 ^ XLEN) by lia.
      by apply (uwrap_plus_mul XLEN XLEN_pos).
    + pose proof (Z.quot_rem' a (-1)) as Hq. pose proof (Z.rem_bound_abs a (-1) ltac:(lia)).
      assert (Z.rem a (-1) = 0) as E by lia. rewrite E in *.
      split_and!; first [lia | f_equal; lia].
    + pose proof (Z.quot_rem' a b) as Hq. pose proof (Z.rem_bound_abs a b Hz).
      pose proof (Z.rem_sign_mul a b Hz). assert (Z.abs (Z.quot a b) <= Z.abs a).
      { rewrite <- Z.quot_abs by done. apply Z.quot_le_upper_bound; nia. }
      split_and!; first [f_equal; lia | nia].
Qed.

Lemma divu_remu_spec a b : 0 <= a < 2 ^ XLEN -> 0 <= b < 2 ^ XLEN ->
  divu a b * b + remu a b = a /\ 0 <= divu a b < 2 ^ XLEN /\ 0 <= remu a b < 2 ^ XLEN /\
  (b <> 0 -> remu a b < b).
Proof.
  intros Ha Hb. unfold divu, remu, kMaxUIntX. destruct (Z.eqb_spec b 0) as [->|Hz]; [lia|].
  pose proof (Z.div_mod a b Hz). pose proof (Z.mod_pos_bound a b ltac:(lia)).
  pose proof (Z.div_pos a b ltac:(lia) ltac:(lia)). pose proof (Z.div_le_upper_bound a b a ltac:(lia) ltac:(nia)).
  split_and!; lia.
Qed.
End HalfWords.
