(* ===== verification/Accesses.v ===== *)
(** * Loads and stores

    The simulator's effect of the loads and stores the assembler emits, in the full and
    the compressed encodings, with the faults of the checked accesses. *)
From S2P Require Import Prelude Utils Constants EncodingFacts Words CWords Memory Float.
From S2P Require Import SimState SimInteger SimFloat Simulator Exec Effects AsmState.
From S2P Require Import MicroAssembler Emission Computes.

Section Accesses.
Context `{Target} `{HostFloat} `{Host}.

(** The types of a word, [intx_t] and [uintx_t]. *)
Definition intx_t : ctype := CType XLEN true.
Definition uintx_t : ctype := CType XLEN false.

(** [code] is one instruction that performs [F] and advances. *)
Definition accesses (code : list Z) (F : Simulator -> result Simulator) : Prop :=
  (2 <= length code)%nat /\ forall st, code_at (mem_ st) (pc_ st) code ->
  step st = (st' ← F st; Ok (advance st' 1 (Z.of_nat (length code)) (xregs_ st'))).

(** [m] emits such an instruction, in every state of an [Assembler]. *)
Definition accesses_with (m : asm unit) (F : Simulator -> result Simulator) : Prop :=
  forall s, full s -> exists code, emits m s code /\ accesses code F /\ (length code <= 4)%nat.

Lemma step_result (F : result Simulator) len :
  (st ← (st' ← F; Ok (pc_add st' len)); Ok (with_instret st (uint64 (instret_ st + 1)))) =
  (st' ← F; Ok (advance st' 1 len (xregs_ st'))).
Proof. destruct F as [st|]; [by destruct st | done]. Qed.

Lemma accesses_word w F : 0 <= w < 2 ^ 32 -> opcode w .& 3 = 3 ->
  (forall st, Interpret st w = (st' ← F st; Ok (pc_add st' 4))) -> accesses (le_bytes 4 w) F.
Proof.
  intros Hw Ho HI. split; [rewrite length_le_bytes; lia|]. intros st Hc. rewrite (step_word st w), HI by done.
  rewrite length_le_bytes. apply step_result.
Qed.

Lemma accesses_parcel w F : 0 <= w < 2 ^ 16 -> w .& 3 <> 3 ->
  (forall st, InterpretC st w = (st' ← F st; Ok (pc_add st' 2))) -> accesses (le_bytes 2 w) F.
Proof.
  intros Hw Ho HI. split; [rewrite length_le_bytes; lia|]. intros st Hc. rewrite (step_parcel st w), HI by done.
  rewrite length_le_bytes. apply step_result.
Qed.

(** The address of an access. *)
Definition address (st : Simulator) (addr : Address) : Z :=
  uintx (xregs_ st (base addr) + offset addr).

Definition loads (T : ctype) (rd : Z) (addr : Address) (st : Simulator) : result Simulator :=
  load_xreg T st (address st addr) rd (base addr).

Definition stores (T : ctype) (rs2 : Z) (addr : Address) (st : Simulator) : result Simulator :=
  MemoryWrite T st (address st addr) (xregs_ st rs2) (base addr).

(** ** Full-length encodings *)

Definition load_type (f3 : Z) : option ctype :=
  if f3 =? Funct3.LB then Some int8_t else if f3 =? Funct3.LH then Some int16_t
  else if f3 =? Funct3.LW then Some int32_t else if f3 =? Funct3.LBU then Some uint8_t
  else if f3 =? Funct3.LHU then Some uint16_t
  else if TARGET_64 && (f3 =? Funct3.LWU) then Some uint32_t
  else if TARGET_64 && (f3 =? Funct3.LD) then Some int64_t else None.

Definition store_type (f3 : Z) : option ctype :=
  if f3 =? Funct3.SB then Some uint8_t else if f3 =? Funct3.SH then Some uint16_t
  else if f3 =? Funct3.SW then Some uint32_t
  else if TARGET_64 && (f3 =? Funct3.SD) then Some uint64_t else None.

Lemma interpret_load st T imm rs1 f3 rd : load_type f3 = Some T ->
  0 <= rd < 32 -> 0 <= rs1 < 32 -> 0 <= f3 < 8 -> IsITypeImm imm = true ->
  Interpret st (Iword imm rs1 f3 rd Opcode.LOAD) =
  (st' ← loads T rd {| base := rs1; offset := imm |} st; Ok (pc_add st' 4)).
Proof.
  intros HT Hd Hs H3 Hi. unfold Interpret. cbv zeta. read_I. closed_tests.
  unfold InterpretLOAD. cbv zeta. read_I. rewrite Iword_imm by done.
  unfold load_type in HT. unfold loads, address, get_xreg. cbn [base offset].
  repeat match goal with |- context [if ?c then _ else _] =>
    destruct c; [by injection HT as <-|] end. discriminate.
Qed.

Lemma interpret_store st T imm rs2 rs1 f3 : store_type f3 = Some T ->
  0 <= rs2 < 32 -> 0 <= rs1 < 32 -> 0 <= f3 < 8 -> IsSTypeImm imm = true ->
  Interpret st (Sword imm rs2 rs1 f3 Opcode.STORE) =
  (st' ← stores T rs2 {| base := rs1; offset := imm |} st; Ok (pc_add st' 4)).
Proof.
  intros HT Hs2 Hs H3 Hi. unfold Interpret. cbv zeta.
  rewrite !Sword_opcode by wside. closed_tests.
  unfold InterpretSTORE. cbv zeta.
  rewrite Sword_rs1, Sword_rs2, Sword_funct3, Sword_imm by wside.
  unfold store_type in HT. unfold stores, address, get_xreg. cbn [base offset].
  repeat match goal with |- context [if ?c then _ else _] =>
    destruct c; [by injection HT as <-|] end. discriminate.
Qed.
(** ** Compressed encodings *)

Lemma lor_swap a b c d : a .| b .| c .| d = a .| c .| b .| d.
Proof. by rewrite <- (Z.lor_assoc a b c), (Z.lor_comm b c), Z.lor_assoc. Qed.

Lemma c_lwsp_accesses s rd imm : Supports RV_C s = true -> 0 <= rd < 32 -> rd <> ZR ->
  IsCSPLoad4Imm imm = true ->
  exists code, emits (c_lwsp rd {| base := SP; offset := imm |}) s code /\
    accesses code (loads int32_t rd {| base := SP; offset := imm |}) /\ (length code <= 4)%nat.
Proof.
  intros HC Hr Hz Hi. pose proof (CSPLoad4word_reads 2 2 rd imm ltac:(lia) ltac:(lia) Hr Hi) as R.
  exists (le_bytes 2 (CSPLoad4word 2 2 rd imm)). split; [|split; [|rewrite length_le_bytes; lia]].
  - unfold c_lwsp. c_format. apply R.
  - apply accesses_parcel; [apply R | by rewrite (proj1 (proj2 R)) |]. intros st.
    interpret_C R. done.
Qed.

Lemma c_ldsp_accesses s rd imm : Supports RV_C s = true -> TARGET_64 = true -> 0 <= rd < 32 -> rd <> ZR ->
  IsCSPLoad8Imm imm = true ->
  exists code, emits (c_ldsp rd {| base := SP; offset := imm |}) s code /\
    accesses code (loads int64_t rd {| base := SP; offset := imm |}) /\ (length code <= 4)%nat.
Proof.
  intros HC H64 Hr Hz Hi. pose proof (CSPLoad8word_reads 3 2 rd imm ltac:(lia) ltac:(lia) Hr Hi) as R.
  exists (le_bytes 2 (CSPLoad8word 3 2 rd imm)). split; [|split; [|rewrite length_le_bytes; lia]].
  - unfold c_ldsp. c_format. apply R.
  - apply accesses_parcel; [apply R | by rewrite (proj1 (proj2 R)) |]. intros st.
    interpret_C R. rewrite H64. cbn [negb andb]. cbv iota. rewrite_reads w. closed_tests. done.
Qed.

Lemma c_swsp_accesses s rs2 imm : Supports RV_C s = true -> 0 <= rs2 < 32 ->
  IsCSPStore4Imm imm = true ->
  exists code, emits (c_swsp rs2 {| base := SP; offset := imm |}) s code /\
    accesses code (stores uint32_t rs2 {| base := SP; offset := imm |}) /\ (length code <= 4)%nat.
Proof.
  intros HC Hr Hi. pose proof (CSPStore4word_reads 6 2 rs2 imm ltac:(lia) ltac:(lia) Hr Hi) as R.
  exists (le_bytes 2 (CSPStore4word 6 2 rs2 imm)). split; [|split; [|rewrite length_le_bytes; lia]].
  - unfold c_swsp. c_format. apply R.
  - apply accesses_parcel; [apply R | by rewrite (proj1 (proj2 R)) |]. intros st.
    interpret_C R. done.
Qed.

Lemma c_sdsp_accesses s rs2 imm : Supports RV_C s = true -> TARGET_64 = true -> 0 <= rs2 < 32 ->
  IsCSPStore8Imm imm = true ->
  exists code, emits (c_sdsp rs2 {| base := SP; offset := imm |}) s code /\
    accesses code (stores uint64_t rs2 {| base := SP; offset := imm |}) /\ (length code <= 4)%nat.
Proof.
  intros HC H64 Hr Hi. pose proof (CSPStore8word_reads 7 2 rs2 imm ltac:(lia) ltac:(lia) Hr Hi) as R.
  exists (le_bytes 2 (CSPStore8word 7 2 rs2 imm)). split; [|split; [|rewrite length_le_bytes; lia]].
  - unfold c_sdsp. c_format. apply R.
  - apply accesses_parcel; [apply R | by rewrite (proj1 (proj2 R)) |]. intros st.
    interpret_C R. rewrite H64. cbn [negb andb]. cbv iota. rewrite_reads w. closed_tests. done.
Qed.

Lemma c_lw_accesses s rd addr : Supports RV_C s = true -> IsRegPrime rd = true ->
  IsRegPrime (base addr) = true -> IsCMem4Imm (offset addr) = true ->
  exists code, emits (c_lw rd addr) s code /\ accesses code (loads int32_t rd addr) /\
    (length code <= 4)%nat.
Proof.
  intros HC Hr Hb Hi.
  pose proof (CMem4word_reads 2 0 (offset addr) ltac:(lia) ltac:(lia) (base addr) rd Hb Hr Hi) as R.
  exists (le_bytes 2 (CMem4word 2 0 (offset addr) (base addr) rd)).
  split; [|split; [|rewrite length_le_bytes; lia]].
  - unfold c_lw. c_encode. rewrite (lor_swap COpcode.C_LW). apply Emit16_word, R.
  - apply accesses_parcel; [apply R | by rewrite (proj1 (proj2 R)) |]. intros st.
    interpret_C R. done.
Qed.

Lemma c_ld_accesses s rd addr : Supports RV_C s = true -> TARGET_64 = true -> IsRegPrime rd = true ->
  IsRegPrime (base addr) = true -> IsCMem8Imm (offset addr) = true ->
  exists code, emits (c_ld rd addr) s code /\ accesses code (loads int64_t rd addr) /\
    (length code <= 4)%nat.
Proof.
  intros HC H64 Hr Hb Hi.
  pose proof (CMem8word_reads 3 0 (offset addr) ltac:(lia) ltac:(lia) (base addr) rd Hb Hr Hi) as R.
  exists (le_bytes 2 (CMem8word 3 0 (offset addr) (base addr) rd)).
  split; [|split; [|rewrite length_le_bytes; lia]].
  - unfold c_ld. c_encode. rewrite (lor_swap COpcode.C_LD). apply Emit16_word, R.
  - apply accesses_parcel; [apply R | by rewrite (proj1 (proj2 R)) |]. intros st.
    interpret_C R. rewrite H64. cbn [negb andb]. cbv iota. rewrite_reads w. closed_tests. done.
Qed.

Lemma c_sw_accesses s rs2 addr : Supports RV_C s = true -> IsRegPrime rs2 = true ->
  IsRegPrime (base addr) = true -> IsCMem4Imm (offset addr) = true ->
  exists code, emits (c_sw rs2 addr) s code /\ accesses code (stores uint32_t rs2 addr) /\
    (length code <= 4)%nat.
Proof.
  intros HC Hr Hb Hi.
  pose proof (CMem4word_reads 6 0 (offset addr) ltac:(lia) ltac:(lia) (base addr) rs2 Hb Hr Hi) as R.
  exists (le_bytes 2 (CMem4word 6 0 (offset addr) (base addr) rs2)).
  split; [|split; [|rewrite length_le_bytes; lia]].
  - unfold c_sw. c_format. apply R.
  - apply accesses_parcel; [apply R | by rewrite (proj1 (proj2 R)) |]. intros st.
    assert (c_rs2p (CMem4word 6 0 (offset addr) (base addr) rs2) = rs2) as Hr2 by apply R.
    interpret_C R. done.
Qed.

Lemma c_sd_accesses s rs2 addr : Supports RV_C s = true -> TARGET_64 = true -> IsRegPrime rs2 = true ->
  IsRegPrime (base addr) = true -> IsCMem8Imm (offset addr) = true ->
  exists code, emits (c_sd rs2 addr) s code /\ accesses code (stores uint64_t rs2 addr) /\
    (length code <= 4)%nat.
Proof.
  intros HC H64 Hr Hb Hi.
  pose proof (CMem8word_reads 7 0 (offset addr) ltac:(lia) ltac:(lia) (base addr) rs2 Hb Hr Hi) as R.
  exists (le_bytes 2 (CMem8word 7 0 (offset addr) (base addr) rs2)).
  split; [|split; [|rewrite length_le_bytes; lia]].
  - unfold c_sd. c_format. apply R.
  - apply accesses_parcel; [apply R | by rewrite (proj1 (proj2 R)) |]. intros st.
    assert (c_rs2p (CMem8word 7 0 (offset addr) (base addr) rs2) = rs2) as Hr2 by apply R.
    interpret_C R. rewrite H64. cbn [negb andb]. cbv iota. rewrite_reads w. closed_tests. done.
Qed.
(** ** Emitters *)

Definition access_emitted (m : asm unit) (s : Assembler) (F : Simulator -> result Simulator) :=
  exists code, emits m s code /\ accesses code F /\ (length code <= 4)%nat.

Lemma EmitIType_loads s T rd addr f3 : load_type f3 = Some T -> 0 <= f3 < 8 ->
  0 <= rd < 32 -> 0 <= base addr < 32 -> IsITypeImm (offset addr) = true ->
  access_emitted (EmitIType (offset addr) (base addr) f3 rd Opcode.LOAD) s (loads T rd addr).
Proof.
  intros HT H3 Hd Hb Hi. exists (le_bytes 4 (Iword (offset addr) (base addr) f3 rd Opcode.LOAD)).
  split; [apply EmitIType_emits; wside|]. split; [|rewrite length_le_bytes; lia].
  apply accesses_word; [apply Iword_bound; wside | by rewrite Iword_opcode by wside |].
  intros st. rewrite (interpret_load st T) by done. by destruct addr.
Qed.

Lemma EmitSType_stores s T rs2 addr f3 : store_type f3 = Some T -> 0 <= f3 < 8 ->
  0 <= rs2 < 32 -> 0 <= base addr < 32 -> IsSTypeImm (offset addr) = true ->
  access_emitted (EmitSType (offset addr) rs2 (base addr) f3 Opcode.STORE) s (stores T rs2 addr).
Proof.
  intros HT H3 Hd Hb Hi. exists (le_bytes 4 (Sword (offset addr) rs2 (base addr) f3 Opcode.STORE)).
  split; [apply EmitSType_emits; wside|]. split; [|rewrite length_le_bytes; lia].
  apply accesses_word; [apply Sword_bound; wside | by rewrite Sword_opcode by wside |].
  intros st. rewrite (interpret_store st T) by done. by destruct addr.
Qed.

Lemma access_eq m m' s F : m s = m' s -> access_emitted m' s F -> access_emitted m s F.
Proof. intros E (c & Ec & A). exists c. split; [by unfold emits; rewrite E | done]. Qed.

Ltac open_access Hs :=
  intros s Hs;
  match goal with |- exists _, emits ?m _ _ /\ accesses _ ?F /\ _ => change (access_emitted m s F) end;
  eapply access_eq; [by apply assert_supports_bind, full_supports|];
  try (eapply access_eq; [apply get_bind|]);
  repeat match goal with
  | |- access_emitted (if ?c then _ else _) _ _ => destruct c eqn:?
  end; to_prop.

Context (rd : Z) (addr : Address) (Hd : 0 <= rd < 32) (Hb : 0 <= base addr < 32).

Section Loads.
Context (Hi : IsITypeImm (offset addr) = true).
#[local] Set Default Proof Using "Hd Hb Hi".

Lemma lb_accesses : accesses_with (lb rd addr) (loads int8_t rd addr).
Proof. unfold lb. open_access Hs. by apply EmitIType_loads. Qed.
Lemma lbu_accesses : accesses_with (lbu rd addr) (loads uint8_t rd addr).
Proof. unfold lbu. open_access Hs. by apply EmitIType_loads. Qed.
Lemma lh_accesses : accesses_with (lh rd addr) (loads int16_t rd addr).
Proof. unfold lh. open_access Hs. by apply EmitIType_loads. Qed.
Lemma lhu_accesses : accesses_with (lhu rd addr) (loads uint16_t rd addr).
Proof. unfold lhu. open_access Hs. by apply EmitIType_loads. Qed.

Lemma lw_accesses : accesses_with (lw rd addr) (loads int32_t rd addr).
Proof.
  unfold lw. open_access Hs.
  - destruct addr as [b o]. cbn in *. subst b. by apply c_lwsp_accesses.
  - by apply c_lw_accesses.
  - by apply EmitIType_loads.
Qed.

Lemma lwu_accesses : TARGET_64 = true -> accesses_with (lwu rd addr) (loads uint32_t rd addr).
Proof.
  intros H64. unfold lwu. open_access Hs. apply EmitIType_loads; [|done..].
  unfold load_type. by rewrite H64.
Qed.

Lemma ld_accesses : TARGET_64 = true -> accesses_with (ld rd addr) (loads int64_t rd addr).
Proof.
  intros H64. unfold ld. open_access Hs.
  - destruct addr as [b o]. cbn in *. subst b. by apply c_ldsp_accesses.
  - by apply c_ld_accesses.
  - apply EmitIType_loads; [|done..]. unfold load_type. by rewrite H64.
Qed.

(** The word-sized load. *)
Lemma lx_accesses : accesses_with (lx rd addr) (loads intx_t rd addr).
Proof.
  unfold lx, intx_t, XLEN. destruct TARGET_64 eqn:H64; [by apply ld_accesses | apply lw_accesses].
Qed.
End Loads.

Section Stores.
Context (Hi : IsSTypeImm (offset addr) = true).
#[local] Set Default Proof Using "Hd Hb Hi".

Lemma sb_accesses : accesses_with (sb rd addr) (stores uint8_t rd addr).
Proof. unfold sb. open_access Hs. by apply EmitSType_stores. Qed.
Lemma sh_accesses : accesses_with (sh rd addr) (stores uint16_t rd addr).
Proof. unfold sh. open_access Hs. by apply EmitSType_stores. Qed.

Lemma sw_accesses : accesses_with (sw rd addr) (stores uint32_t rd addr).
Proof.
  unfold sw. open_access Hs.
  - destruct addr as [b o]. cbn in *. subst b. by apply c_swsp_accesses.
  - by apply c_sw_accesses.
  - by apply EmitSType_stores.
Qed.

Lemma sd_accesses : TARGET_64 = true -> accesses_with (sd rd addr) (stores uint64_t rd addr).
Proof.
  intros H64. unfold sd. open_access Hs.
  - destruct addr as [b o]. cbn in *. subst b. by apply c_sdsp_accesses.
  - by apply c_sd_accesses.
  - apply EmitSType_stores; [|done..]. unfold store_type. by rewrite H64.
Qed.

(** The word-sized store. *)
Lemma sx_accesses : accesses_with (sx rd addr) (stores uintx_t rd addr).
Proof.
  unfold sx, uintx_t, XLEN. destruct TARGET_64 eqn:H64; [by apply sd_accesses | apply sw_accesses].
Qed.
End Stores.
End Accesses.
