(* ===== verification/FloatAccesses.v ===== *)
(** * Floating-point loads and stores

    The simulator's effect of [flw], [fld], [fsw] and [fsd], in the full and the compressed
    encodings, for the assembler's choice of encoding. *)
From S2P Require Import Prelude Utils Constants EncodingFacts Words CWords Memory Float.
From S2P Require Import SimState SimInteger SimFloat Simulator Exec Effects AsmState.
From S2P Require Import MicroAssembler Emission Computes Accesses Offsets.

Section FloatAccesses.
Context `{Target} `{HostFloat} `{Host}.

(** A load of a double, and of a boxed float. *)
Definition loads_d (rd : Z) (addr : Address) (st : Simulator) : result Simulator :=
  load_freg st false (address st addr) rd (base addr).
Definition loads_s (rd : Z) (addr : Address) (st : Simulator) : result Simulator :=
  load_freg st true (address st addr) rd (base addr).
Definition stores_d (rs2 : Z) (addr : Address) (st : Simulator) : result Simulator :=
  MemoryWrite uint64_t st (address st addr) (get_fregd st rs2) (base addr).
Definition stores_s (rs2 : Z) (addr : Address) (st : Simulator) : result Simulator :=
  MemoryWrite uint32_t st (address st addr) (get_fregs st rs2) (base addr).

Ltac local_freg :=
  intros st n len r;
  unfold loads_d, loads_s, stores_d, stores_s, load_freg, MemoryRead, MemoryWrite, address,
    check_access, get_xreg, get_fregs; cbn;
  destruct (if DEBUG then _ else _); [cbn|done];
  match goal with
  | |- context [load_as ?T ?m ?a] => by destruct (load_as T m a)
  | |- context [store_as ?T ?m ?a ?v] => by destruct (store_as T m a v)
  end.

Lemma loads_d_local rd addr : local_access (loads_d rd addr).
Proof. local_freg. Qed.
Lemma loads_s_local rd addr : local_access (loads_s rd addr).
Proof. local_freg. Qed.
Lemma stores_d_local rs2 addr : local_access (stores_d rs2 addr).
Proof. local_freg. Qed.
Lemma stores_s_local rs2 addr : local_access (stores_s rs2 addr).
Proof. local_freg. Qed.

(** ** Full-length encodings *)

Lemma EmitIType_F_eq imm rs1 f3 rd op :
  EmitIType_F imm rs1 f3 rd op = EmitIType imm rs1 f3 rd op.
Proof. done. Qed.
Lemma EmitSType_F_eq imm rs2 rs1 f3 op :
  EmitSType_F imm rs2 rs1 f3 op = EmitSType imm rs2 rs1 f3 op.
Proof. done. Qed.

Lemma Iword_frd imm rs1 f3 rd op : frd (Iword imm rs1 f3 rd op) = Constants.rd (Iword imm rs1 f3 rd op).
Proof. done. Qed.
Lemma Sword_frs2 imm rs2 rs1 f3 op : frs2 (Sword imm rs2 rs1 f3 op) = Constants.rs2 (Sword imm rs2 rs1 f3 op).
Proof. done. Qed.

Lemma interpret_loadfp st (single : bool) imm rs1 rd :
  0 <= rd < 32 -> 0 <= rs1 < 32 -> IsITypeImm imm = true ->
  Interpret st (Iword imm rs1 (if single then Funct3.S else Funct3.D) rd Opcode.LOADFP) =
  (st' ← load_freg st single (address st {| base := rs1; offset := imm |}) rd rs1;
   Ok (pc_add st' 4)).
Proof.
  intros Hd Hs Hi. assert (0 <= (if single then Funct3.S else Funct3.D) < 8) by by destruct single.
  unfold Interpret. cbv zeta. read_I. closed_tests.
  unfold InterpretLOADFP. cbv zeta. rewrite Iword_frd. read_I. rewrite Iword_imm by done.
  unfold address, get_xreg, load_freg. cbn [base offset]. by destruct single.
Qed.

Lemma interpret_storefp st (single : bool) imm rs2 rs1 :
  0 <= rs2 < 32 -> 0 <= rs1 < 32 -> IsSTypeImm imm = true ->
  let addr := {| base := rs1; offset := imm |} in
  Interpret st (Sword imm rs2 rs1 (if single then Funct3.S else Funct3.D) Opcode.STOREFP) =
  (st' ← (if single then stores_s rs2 addr st else stores_d rs2 addr st); Ok (pc_add st' 4)).
Proof.
  intros Hd Hs Hi. assert (0 <= (if single then Funct3.S else Funct3.D) < 8) by by destruct single.
  cbv zeta. unfold Interpret. cbv zeta. rewrite !Sword_opcode by wside. closed_tests.
  unfold InterpretSTOREFP. cbv zeta.
  rewrite Sword_frs2, Sword_rs1, Sword_rs2, Sword_funct3, Sword_imm by wside.
  unfold stores_s, stores_d, address, get_xreg. cbn [base offset]. by destruct single.
Qed.

(** ** Compressed encodings *)

Lemma c_fldsp_accesses s rd imm : Supports RV_C s = true -> Supports RV_D s = true ->
  0 <= rd < 32 -> IsCSPLoad8Imm imm = true ->
  access_emitted (c_fldsp rd {| base := SP; offset := imm |}) s (loads_d rd {| base := SP; offset := imm |}).
Proof.
  intros HC HD Hr Hi. pose proof (CSPLoad8word_reads 1 2 rd imm ltac:(lia) ltac:(lia) Hr Hi) as R.
  exists (le_bytes 2 (CSPLoad8word 1 2 rd imm)). split; [|split; [|rewrite length_le_bytes; lia]].
  - unfold c_fldsp. c_format. apply R.
  - apply accesses_parcel; [apply R | by rewrite (proj1 (proj2 R)) |]. intros st.
    assert (c_frd (CSPLoad8word 1 2 rd imm) = rd) as Hf by apply R.
    interpret_C R. done.
Qed.

Lemma c_fsdsp_accesses s rs2 imm : Supports RV_C s = true -> Supports RV_D s = true ->
  0 <= rs2 < 32 -> IsCSPStore8Imm imm = true ->
  access_emitted (c_fsdsp rs2 {| base := SP; offset := imm |}) s (stores_d rs2 {| base := SP; offset := imm |}).
Proof.
  intros HC HD Hr Hi. pose proof (CSPStore8word_reads 5 2 rs2 imm ltac:(lia) ltac:(lia) Hr Hi) as R.
  exists (le_bytes 2 (CSPStore8word 5 2 rs2 imm)). split; [|split; [|rewrite length_le_bytes; lia]].
  - unfold c_fsdsp. c_format. apply R.
  - apply accesses_parcel; [apply R | by rewrite (proj1 (proj2 R)) |]. intros st.
    assert (c_frs2 (CSPStore8word 5 2 rs2 imm) = rs2) as Hf by apply R.
    interpret_C R. done.
Qed.

Lemma c_fld_accesses s rd addr : Supports RV_C s = true -> Supports RV_D s = true ->
  IsRegPrime rd = true -> IsRegPrime (base addr) = true -> IsCMem8Imm (offset addr) = true ->
  access_emitted (c_fld rd addr) s (loads_d rd addr).
Proof.
  intros HC HD Hr Hb Hi.
  pose proof (CMem8word_reads 1 0 (offset addr) ltac:(lia) ltac:(lia) (base addr) rd Hb Hr Hi) as R.
  exists (le_bytes 2 (CMem8word 1 0 (offset addr) (base addr) rd)).
  split; [|split; [|rewrite length_le_bytes; lia]].
  - unfold c_fld. c_encode. rewrite (lor_swap COpcode.C_FLD). apply Emit16_word, R.
  - apply accesses_parcel; [apply R | by rewrite (proj1 (proj2 R)) |]. intros st.
    assert (c_frdp (CMem8word 1 0 (offset addr) (base addr) rd) = rd) as Hf by apply R.
    interpret_C R. done.
Qed.

Lemma c_fsd_accesses s rs2 addr : Supports RV_C s = true -> Supports RV_D s = true ->
  IsRegPrime rs2 = true -> IsRegPrime (base addr) = true -> IsCMem8Imm (offset addr) = true ->
  access_emitted (c_fsd rs2 addr) s (stores_d rs2 addr).
Proof.
  intros HC HD Hr Hb Hi.
  pose proof (CMem8word_reads 5 0 (offset addr) ltac:(lia) ltac:(lia) (base addr) rs2 Hb Hr Hi) as R.
  exists (le_bytes 2 (CMem8word 5 0 (offset addr) (base addr) rs2)).
  split; [|split; [|rewrite length_le_bytes; lia]].
  - unfold c_fsd. c_format. apply R.
  - apply accesses_parcel; [apply R | by rewrite (proj1 (proj2 R)) |]. intros st.
    assert (c_frs2p (CMem8word 5 0 (offset addr) (base addr) rs2) = rs2) as Hf by apply R.
    interpret_C R. done.
Qed.

(** ** Emitters *)

Lemma EmitIType_F_loads s (single : bool) rd addr : 0 <= rd < 32 -> 0 <= base addr < 32 ->
  IsITypeImm (offset addr) = true ->
  access_emitted (EmitIType_F (offset addr) (base addr) (if single then Funct3.S else Funct3.D) rd
                    Opcode.LOADFP) s
    (if single then loads_s rd addr else loads_d rd addr).
Proof.
  intros Hd Hb Hi. set (f3 := if single then Funct3.S else Funct3.D).
  assert (0 <= f3 < 8) by (unfold f3; by destruct single).
  exists (le_bytes 4 (Iword (offset addr) (base addr) f3 rd Opcode.LOADFP)).
  rewrite EmitIType_F_eq. split; [apply EmitIType_emits; wside|].
  split; [|rewrite length_le_bytes; lia].
  apply accesses_word; [apply Iword_bound; wside | by rewrite Iword_opcode by wside |].
  intros st. unfold f3. rewrite interpret_loadfp by done. by destruct addr, single.
Qed.

Lemma EmitSType_F_stores s (single : bool) rs2 addr : 0 <= rs2 < 32 -> 0 <= base addr < 32 ->
  IsSTypeImm (offset addr) = true ->
  access_emitted (EmitSType_F (offset addr) rs2 (base addr) (if single then Funct3.S else Funct3.D)
                    Opcode.STOREFP) s
    (if single then stores_s rs2 addr else stores_d rs2 addr).
Proof.
  intros Hd Hb Hi. set (f3 := if single then Funct3.S else Funct3.D).
  assert (0 <= f3 < 8) by (unfold f3; by destruct single).
  exists (le_bytes 4 (Sword (offset addr) rs2 (base addr) f3 Opcode.STOREFP)).
  rewrite EmitSType_F_eq. split; [apply EmitSType_emits; wside|].
  split; [|rewrite length_le_bytes; lia].
  apply accesses_word; [apply Sword_bound; wside | by rewrite Sword_opcode by wside |].
  intros st. unfold f3. rewrite interpret_storefp by done. by destruct addr, single.
Qed.

Context (r : Z) (addr : Address) (Hr : 0 <= r < 32) (Hb : 0 <= base addr < 32).

Lemma fld_accesses : IsITypeImm (offset addr) = true -> accesses_with (fld r addr) (loads_d r addr).
Proof.
  intros Hi s Hs. change (access_emitted (fld r addr) s (loads_d r addr)).
  pose proof (full_supports s RV_D Hs eq_refl) as HD. unfold fld.
  eapply access_eq; [by apply assert_supports_bind|]. eapply access_eq; [apply get_bind|].
  destruct (_ && _ && _) eqn:E1; [|destruct (_ && _ && _ && _) eqn:E2]; to_prop.
  - destruct addr as [b o]. cbn in *. subst b. by apply c_fldsp_accesses.
  - by apply c_fld_accesses.
  - by apply (EmitIType_F_loads s false).
Qed.

Lemma fsd_accesses : IsSTypeImm (offset addr) = true -> accesses_with (fsd r addr) (stores_d r addr).
Proof.
  intros Hi s Hs. change (access_emitted (fsd r addr) s (stores_d r addr)).
  pose proof (full_supports s RV_D Hs eq_refl) as HD. unfold fsd.
  eapply access_eq; [by apply assert_supports_bind|]. eapply access_eq; [apply get_bind|].
  destruct (_ && _ && _) eqn:E1; [|destruct (_ && _ && _ && _) eqn:E2]; to_prop.
  - destruct addr as [b o]. cbn in *. subst b. by apply c_fsdsp_accesses.
  - by apply c_fsd_accesses.
  - by apply (EmitSType_F_stores s false).
Qed.
End FloatAccesses.
