(* ===== verification/Programs.v ===== *)
(** * Programs of register and memory operations

    An operation is a partial transformer of the simulator's registers and memory.
    [realizes code ops]: the code performs the operations in turn, whenever none of them
    writes into the code itself.  [implements m a ops]: the method [m] emits such code and
    returns [a], in every state of an [Assembler].  The judgement is closed under
    sequencing, so a macro's code is verified by reasoning about its operations only. *)
From S2P Require Import Prelude Utils Constants EncodingFacts Words CWords Memory Float.
From S2P Require Import SimState SimInteger SimFloat Simulator Exec SimFacts Effects AsmState.
From S2P Require Import MicroAssembler Emission Computes Macros Accesses Offsets FloatAccesses.

Abbreviation op := (Simulator -> result Simulator).

(** Memory agrees on [n] bytes from [lo]. *)
Definition same_bytes (m m' : memory) (lo n : Z) : Prop :=
  forall i, lo <= i < lo + n -> m' !! i = m !! i.

Section Judgement.
Context `{Target} `{HostFloat} `{Host}.

(** The program counter and the instruction count are left to [advance]. *)
Record op_ok (F : op) : Prop := {
  op_local : local_access F;
  op_pc : forall st st', F st = Ok st' -> pc_ st' = pc_ st;
  op_wf : forall st, sim_wf st -> result_wf (F st)
}.

(** The operations succeed one after the other and none changes the [n] bytes at [lo]. *)
Fixpoint runs (lo n : Z) (ops : list op) (st st' : Simulator) : Prop :=
  match ops with
  | [] => st' = st
  | F :: ops => exists st1, F st = Ok st1 /\ same_bytes (mem_ st) (mem_ st1) lo n /\
                            runs lo n ops st1 st'
  end.

Definition realizes (code : list Z) (ops : list op) : Prop :=
  Forall op_ok ops /\
  forall st st', sim_wf st -> pc_ st + Z.of_nat (length code) < 2 ^ XLEN ->
  code_at (mem_ st) (pc_ st) code -> runs (pc_ st) (Z.of_nat (length code)) ops st st' ->
  exists n, steps n st = Ok (advance st' n (Z.of_nat (length code)) (xregs_ st')).

Definition implements {A} (m : asm A) (a : A) (ops : list op) : Prop :=
  forall s, full s -> exists code, m s = Ok (a, append s code) /\ realizes code ops.

(** ** Runs *)

Lemma same_bytes_sub m m' lo n lo' n' : lo <= lo' -> lo' + n' <= lo + n ->
  same_bytes m m' lo n -> same_bytes m m' lo' n'.
Proof. intros ? ? Hs i Hi. apply Hs. lia. Qed.

Lemma same_bytes_trans m1 m2 m3 lo n :
  same_bytes m1 m2 lo n -> same_bytes m2 m3 lo n -> same_bytes m1 m3 lo n.
Proof. intros S1 S2 i Hi. by rewrite S2, S1. Qed.

Lemma same_bytes_code m m' lo n code : same_bytes m m' lo n ->
  Z.of_nat (length code) <= n -> code_at m lo code -> code_at m' lo code.
Proof.
  intros Hs Hn Hc i b Hi. pose proof (lookup_lt_Some _ _ _ Hi). rewrite Hs by lia. by apply Hc.
Qed.

Lemma runs_sub lo n lo' n' ops st st' : lo <= lo' -> lo' + n' <= lo + n ->
  runs lo n ops st st' -> runs lo' n' ops st st'.
Proof.
  intros Hl Hn. revert st. induction ops as [|F ops IH]; intros st; cbn; [done|].
  intros (st1 & HF & Hs & Hr). exists st1. split_and!; [done | by eapply same_bytes_sub | auto].
Qed.

Lemma runs_app lo n ops1 ops2 st st' :
  runs lo n (ops1 ++ ops2) st st' <-> exists st1, runs lo n ops1 st st1 /\ runs lo n ops2 st1 st'.
Proof.
  revert st. induction ops1 as [|F ops1 IH]; intros st; cbn.
  - split; [eauto | by intros (? & -> & ?)].
  - split.
    + intros (st1 & HF & Hs & Hr). destruct (proj1 (IH _) Hr) as (st2 & R1 & R2).
      exists st2. split; [by exists st1 | done].
    + intros (st2 & (st1 & HF & Hs & R1) & R2). exists st1. split_and!; [done..|]. apply IH. eauto.
Qed.

Lemma runs_keeps lo n ops st st' : Forall op_ok ops -> sim_wf st -> runs lo n ops st st' ->
  pc_ st' = pc_ st /\ sim_wf st' /\ same_bytes (mem_ st) (mem_ st') lo n.
Proof.
  intros Hok. revert st. induction Hok as [|F ops HF _ IH]; intros st Hwf; cbn; [by intros ->|].
  intros (st1 & E & Hs & (Hp & Hw & Hm)%IH); [|by eapply (op_wf F HF)].
  split_and!; [by rewrite Hp; eapply (op_pc F HF) | done | by eapply same_bytes_trans].
Qed.

Lemma with_xregs_same st : with_xregs st (xregs_ st) = st.
Proof. by destruct st. Qed.

Lemma runs_advance lo n ops st st' k len : Forall op_ok ops -> runs lo n ops st st' ->
  runs lo n ops (advance st k len (xregs_ st)) (advance st' k len (xregs_ st')).
Proof.
  intros Hok. revert st. induction Hok as [|F ops HF _ IH]; intros st; cbn [runs]; [by intros ->|].
  intros (st1 & E & Hs & Hr). exists (advance st1 k len (xregs_ st1)).
  rewrite (op_local F HF), with_xregs_same, E. split_and!; [done | done | by apply IH].
Qed.

(** ** Code *)

Lemma realizes_nil : realizes [] [].
Proof.
  split; [constructor|]. intros st st' Hwf _ _ ->. exists 0%nat. cbn [steps length].
  by rewrite advance_zero.
Qed.

Lemma realizes_app c1 c2 ops1 ops2 : realizes c1 ops1 -> realizes c2 ops2 ->
  realizes (c1 ++ c2) (ops1 ++ ops2).
Proof.
  intros [K1 E1] [K2 E2]. split; [by apply Forall_app|].
  intros st st' Hwf Hpc Hc (st1 & R1 & R2)%runs_app. rewrite length_app, Nat2Z.inj_add in *.
  pose proof Hc as Hc'. apply code_at_app in Hc' as [Hc1 _].
  destruct (runs_keeps _ _ _ _ _ K1 Hwf R1) as (Hp1 & Hwf1 & Hm1).
  destruct (E1 st st1) as [n1 Hs1]; [done | lia | done | eapply runs_sub; [| |exact R1]; lia|].
  destruct (wf_pc st Hwf).
  assert (pc_ (advance st1 n1 (Z.of_nat (length c1)) (xregs_ st1)) =
          pc_ st + Z.of_nat (length c1)) as Hp2 by (cbn; rewrite Hp1; apply uintx_small; lia).
  destruct (E2 (advance st1 n1 (Z.of_nat (length c1)) (xregs_ st1))
               (advance st' n1 (Z.of_nat (length c1)) (xregs_ st'))) as [n2 Hs2].
  - by apply advance_wf, Hwf1.
  - rewrite Hp2. lia.
  - rewrite Hp2. apply (same_bytes_code _ _ _ _ (c1 ++ c2)) in Hm1;
      [by apply code_at_app in Hm1 as [_ Hc2] | rewrite length_app; lia | done].
  - apply runs_advance; [done|]. rewrite Hp2. eapply runs_sub; [| |exact R2]; lia.
  - exists (n1 + n2)%nat. rewrite (steps_app _ _ _ _ Hs1), Hs2. by rewrite advance_advance.
Qed.

(** ** Operations *)

Definition compute (f : regs -> regs) : op := fun st => Ok (with_xregs st (f (xregs_ st))).

Lemma compute_ok f : (forall r, regs_wf r -> regs_wf (f r)) -> op_ok (compute f).
Proof.
  intros Hf. split; [by intros st n len r | by intros st st' [= <-] |].
  intros st Hwf st' [= <-]. destruct Hwf. split; cbn; auto.
Qed.

Lemma MemoryWrite_pc T st a v b st' : MemoryWrite T st a v b = Ok st' -> pc_ st' = pc_ st.
Proof. unfold MemoryWrite. by intros (? & _ & (? & _ & [= <-])%result_bind_Ok)%result_bind_Ok. Qed.

Lemma loads_ok T rd addr : op_ok (loads T rd addr).
Proof.
  split; [apply loads_local | |].
  - intros st st' (v & _ & [= <-])%result_bind_Ok. by rewrite set_xreg_xset.
  - intros st Hwf st' (v & _ & [= <-])%result_bind_Ok. by apply set_xreg_wf.
Qed.

Lemma stores_ok T rs2 addr : op_ok (stores T rs2 addr).
Proof.
  split; [apply stores_local | intros st st'; apply MemoryWrite_pc |].
  intros st Hwf. by apply MemoryWrite_wf.
Qed.

Lemma loads_d_ok rd addr : op_ok (loads_d rd addr).
Proof.
  split; [apply loads_d_local | |].
  - by intros st st' (v & _ & [= <-])%result_bind_Ok.
  - intros st Hwf st' (v & _ & [= <-])%result_bind_Ok. by apply set_fregd_wf.
Qed.

Lemma stores_d_ok rs2 addr : op_ok (stores_d rs2 addr).
Proof.
  split; [apply stores_d_local | intros st st'; apply MemoryWrite_pc |].
  intros st Hwf. by apply MemoryWrite_wf.
Qed.

Lemma realizes_executes code f : (forall r, regs_wf r -> regs_wf (f r)) -> executes code f ->
  realizes code [compute f].
Proof.
  intros Hf X. split; [constructor; [by apply compute_ok | constructor]|].
  intros st st' Hwf Hpc Hc (st1 & [= <-] & _ & ->). destruct (X st Hwf Hpc Hc) as (_ & n & Hn).
  by exists n.
Qed.

Lemma realizes_accesses code F : op_ok F -> accesses code F -> realizes code [F].
Proof.
  intros HF [Hl A]. split; [by constructor; [|constructor]|].
  intros st st' Hwf Hpc Hc (st1 & E & _ & ->). exists 1%nat.
  rewrite steps_S, A, E by (done || lia). done.
Qed.

(** ** Emitters *)

Lemma implements_ret {A} (a : A) : implements (mret a) a [].
Proof. intros s _. exists []. rewrite append_nil. split; [done | apply realizes_nil]. Qed.

Lemma implements_bind {A B} (m1 : asm A) (m2 : A -> asm B) a b ops1 ops2 :
  implements m1 a ops1 -> implements (m2 a) b ops2 -> implements (m1 ≫= m2) b (ops1 ++ ops2).
Proof.
  intros I1 I2 s Hs. destruct (I1 s Hs) as (c1 & E1 & R1).
  destruct (I2 (append s c1) Hs) as (c2 & E2 & R2). exists (c1 ++ c2).
  split; [|by apply realizes_app]. unfold mbind, M_bind. by rewrite E1, E2, append_append.
Qed.

Lemma implements_assert {A} x (k : unit -> asm A) a ops : x = true ->
  implements (k tt) a ops -> implements (assert x ≫= k) a ops.
Proof.
  intros Hx I s Hs. destruct (I s Hs) as (c & E & R). exists c. by rewrite assert_bind.
Qed.

Lemma implements_assert_last x : x = true -> implements (assert x) tt [].
Proof.
  intros Hx s _. exists []. rewrite append_nil.
  unfold assert, lift. rewrite ASSERT_true by done. split; [done | apply realizes_nil].
Qed.

Lemma implements_computes n m f : (forall r, regs_wf r -> regs_wf (f r)) -> computes n m f ->
  implements m tt [compute f].
Proof.
  intros Hf C s Hs. destruct (C s Hs) as (c & E & X & _). exists c.
  split; [done | by apply realizes_executes].
Qed.

Lemma implements_accesses m F : op_ok F -> accesses_with m F -> implements m tt [F].
Proof.
  intros HF A s Hs. destruct (A s Hs) as (c & E & X & _). exists c.
  split; [done | by apply realizes_accesses].
Qed.
End Judgement.

Create HintDb ops.
#[export] Hint Resolve compute_ok loads_ok stores_ok loads_d_ok stores_d_ok : ops.
