(* ===== verification/Stack.v ===== *)
(** * The stack

    [PushRegister] followed by [PopRegister] moves a register's value through the word
    below the stack pointer and restores the stack pointer. *)
From Stdlib Require Import FunctionalExtensionality.
From S2P Require Import Prelude Utils Constants EncodingFacts Words CWords Memory Float.
From S2P Require Import SimState SimInteger SimFloat Simulator Exec Effects AsmState.
From S2P Require Import MicroAssembler Emission Computes Macros MacroFacts Arithmetic Accesses.
From S2P Require Import Offsets.

Section Stack.
Context `{Target} `{HostFloat} `{Host}.

Lemma sizeof_word b : Z.to_nat (sizeof (CType XLEN b)) = Z.to_nat kWordSize.
Proof. done. Qed.

Lemma word_bytes : 256 ^ Z.of_nat (Z.to_nat kWordSize) = 2 ^ XLEN.
Proof. unfold kWordSize, XLEN. by destruct TARGET_64. Qed.

Lemma kWordSize_pos : 0 < kWordSize <= 8.
Proof. unfold kWordSize, XLEN. by destruct TARGET_64. Qed.

(** A word stored is the word loaded. *)
Lemma word_roundtrip m addr v m' : 0 <= v < 2 ^ XLEN ->
  store_as uintx_t m addr v = Ok m' -> load_as intx_t m' addr = Ok (intx v).
Proof.
  intros Hv Hs. unfold store_as, load_as, uintx_t, intx_t in *. rewrite sizeof_word in *.
  cbn [bits_of] in Hs. apply mem_store_load in Hs. rewrite Hs. cbn. rewrite word_bytes.
  by rewrite (uwrap_small XLEN XLEN_pos), Z.mod_small by done.
Qed.

(** The stack of a running program: a word below the stack pointer is free, mapped, and
    apart from the code. *)
Record stack_room (st : Simulator) (code : list Z) : Prop := {
  room_below : kWordSize <= xregs_ st SP;
  room_base : xregs_ st SP <= stack_base_ st < 2 ^ XLEN;
  room_mapped : mapped (mem_ st) (xregs_ st SP - kWordSize) (Z.to_nat kWordSize);
  room_code : pc_ st + Z.of_nat (length code) <= xregs_ st SP - kWordSize \/
              xregs_ st SP <= pc_ st
}.

Lemma check_access_stack T st addr : sizeof T = kWordSize ->
  addr = xregs_ st SP -> addr + kWordSize <= stack_base_ st -> stack_base_ st < 2 ^ XLEN ->
  0 <= addr -> check_access T st addr SP = Ok tt.
Proof.
  intros HT -> Hb Hx H0'. pose proof kWordSize_pos. unfold check_access. rewrite HT.
  rewrite Z.eqb_refl. cbn [orb]. rewrite uintx_small by lia. unfold get_xreg.
  rewrite (proj2 (Z.ltb_ge (stack_base_ st) _)) by lia. rewrite Z.ltb_irrefl.
  by destruct DEBUG.
Qed.

Lemma IsITypeImm_word_size k : -16 <= k <= 16 -> IsITypeImm k = true.
Proof. intros Hk. apply IsITypeImm_spec. lia. Qed.

Lemma PushRegister_performs r s : 0 <= r < 32 -> r <> SP -> full s ->
  exists code, emits (PushRegister r) s code /\
    performs code (fun R => xset R SP (R SP - kWordSize)) (stores uintx_t r {| base := SP; offset := 0 |}).
Proof.
  intros Hr Hsp Hs. pose proof kWordSize_pos.
  assert (computes 1 (subi SP SP kWordSize) (fun R => xset R SP (R SP + - kWordSize))) as C
    by (apply addi_computes; [wside | wside | apply IsITypeImm_word_size; lia]).
  destruct (C s Hs) as (c1 & E1 & X1 & _).
  destruct (sx_accesses r {| base := SP; offset := 0 |} Hr ltac:(wside) ltac:(by apply IsSTypeImm_spec)
              (append s c1) Hs) as (c2 & E2 & A2 & _).
  exists (c1 ++ c2). split.
  - unfold emits, PushRegister. rewrite assert_bind by by apply negb_true_iff, Z.eqb_neq.
    by apply emits_bind.
  - apply executes_accesses; [done | done | apply stores_local].
Qed.

(** The load and the adjustment of [PopRegister]. *)
Lemma PopRegister_parts r s : 0 <= r < 32 -> r <> SP -> full s ->
  exists c1 c2, emits (PopRegister r) s (c1 ++ c2) /\
    accesses c1 (loads intx_t r {| base := SP; offset := 0 |}) /\
    executes c2 (fun R => xset R SP (R SP + kWordSize)).
Proof.
  intros Hr Hsp Hs. pose proof kWordSize_pos.
  destruct (lx_accesses r {| base := SP; offset := 0 |} Hr ltac:(wside) ltac:(by apply IsITypeImm_spec)
              s Hs) as (c1 & E1 & A1 & _).
  assert (computes 1 (addi SP SP kWordSize) (fun R => xset R SP (R SP + kWordSize))) as C
    by (apply addi_computes; [wside | wside | apply IsITypeImm_word_size; lia]).
  destruct (C (append s c1) Hs) as (c2 & E2 & X2 & _).
  exists c1, c2. split_and!; [|done|done].
  unfold emits, PopRegister. rewrite assert_bind by by apply negb_true_iff, Z.eqb_neq.
  by apply emits_bind.
Qed.

(** The push on its own. *)
Lemma push_steps c r st : 0 <= r < 32 -> r <> SP ->
  performs c (fun R => xset R SP (R SP - kWordSize)) (stores uintx_t r {| base := SP; offset := 0 |}) ->
  sim_wf st -> pc_ st + Z.of_nat (length c) < 2 ^ XLEN -> code_at (mem_ st) (pc_ st) c ->
  kWordSize <= xregs_ st SP -> xregs_ st SP <= stack_base_ st < 2 ^ XLEN ->
  mapped (mem_ st) (xregs_ st SP - kWordSize) (Z.to_nat kWordSize) ->
  exists n m, store_as uintx_t (mem_ st) (xregs_ st SP - kWordSize) (xregs_ st r) = Ok m /\
    steps n st = Ok (advance (with_mem st m) n (Z.of_nat (length c))
                       (xset (xregs_ st) SP (xregs_ st SP - kWordSize))).
Proof.
  intros Hr Hsp P Hwf Hpc Hc Hb1 Hb2 Hm. pose proof kWordSize_pos as Hk.
  destruct (wf_regs st Hwf) as [Hz Hw]. pose proof (Hw SP).
  destruct (P st Hwf Hpc Hc) as (Hwf0 & n & Hs0). exists n.
  set (sp := xregs_ st SP) in *. set (R := xset (xregs_ st) SP (sp - kWordSize)) in *.
  assert (R SP = sp - kWordSize) as Hsp0 by (unfold R; rewrite xset_same by done; apply uintx_small; lia).
  assert (R r = xregs_ st r) as Hr0 by (unfold R; by apply xset_other).
  destruct (mem_store_mapped (mem_ st) (sp - kWordSize) (Z.to_nat kWordSize)
              (uwrap XLEN (xregs_ st r)) Hm) as [m Hst].
  exists m. split; [done|]. clearbody R. rewrite Hs0.
  unfold stores, MemoryWrite, address. cbn [base offset xregs_ with_xregs mem_].
  rewrite Hsp0, Hr0, Z.add_0_r, uintx_small by lia.
  rewrite check_access_stack by first [done | cbn; lia]. cbn [mbind result_bind].
  by rewrite (Hst : store_as uintx_t _ _ _ = _).
Qed.

(** The pop on its own. *)
Lemma pop_steps c1 c2 r v st : r <> SP ->
  accesses c1 (loads intx_t r {| base := SP; offset := 0 |}) ->
  executes c2 (fun R => xset R SP (R SP + kWordSize)) ->
  sim_wf st -> pc_ st + Z.of_nat (length (c1 ++ c2)) < 2 ^ XLEN ->
  code_at (mem_ st) (pc_ st) (c1 ++ c2) ->
  xregs_ st SP + kWordSize <= stack_base_ st -> stack_base_ st < 2 ^ XLEN ->
  load_as intx_t (mem_ st) (xregs_ st SP) = Ok v ->
  exists n, steps n st = Ok (advance st n (Z.of_nat (length (c1 ++ c2)))
    (xset (xset (xregs_ st) r v) SP (xregs_ st SP + kWordSize))).
Proof.
  intros Hsp [Hl A] X Hwf Hpc Hc Hb Hx Hv. pose proof (proj2 (wf_regs st Hwf) SP).
  rewrite length_app, Nat2Z.inj_add in *. apply code_at_app in Hc as [Hc1 Hc2].
  set (R := xset (xregs_ st) r v).
  assert (step st = Ok (advance st 1 (Z.of_nat (length c1)) R)) as Hs1.
  { rewrite A by done. unfold loads, load_xreg, MemoryRead, address. cbn [base offset].
    rewrite Z.add_0_r, uintx_small by done.
    rewrite check_access_stack by (done || lia). cbn [mbind result_bind]. rewrite Hv.
    cbn [mbind result_bind]. rewrite set_xreg_xset. done. }
  destruct (X (advance st 1 (Z.of_nat (length c1)) R)) as (Hr & n & Hs2);
    [apply advance_wf; [done | apply xset_wf, Hwf] | cbn; destruct Hwf; rewrite uintx_small by lia; lia
    | cbn; destruct Hwf; by rewrite uintx_small by lia |].
  exists (1 + n)%nat. cbn [Nat.add]. rewrite steps_S, Hs1 by lia. cbn [mbind result_bind].
  rewrite Hs2, advance_advance, advance_xregs. unfold R. by rewrite xset_other.
Qed.

Lemma push_pop_regs R r v : regs_wf R -> r <> SP -> kWordSize <= R SP ->
  let R0 := xset R SP (R SP - kWordSize) in
  xset (xset R0 r v) SP (R0 SP + kWordSize) = xset R r v.
Proof.
  intros [Hz Hw] Hr Hk. cbv zeta. pose proof (Hw SP). pose proof kWordSize_pos.
  rewrite (xset_same R), (uintx_small (R SP - kWordSize)) by (done || lia).
  replace (R SP - kWordSize + kWordSize) with (R SP) by lia.
  apply functional_extensionality. intros i. destruct (Z.eq_dec i SP) as [->|Hi].
  - rewrite xset_same, xset_other by done. by apply uintx_small.
  - rewrite (xset_other _ SP) by done. unfold xset, array_set. change (SP =? ZR) with false.
    destruct (r =? ZR), (i =? r); by rewrite ?(proj2 (Z.eqb_neq _ _) Hi).
Qed.

(** The whole sequence. *)
Lemma push_pop_steps r r' s : 0 <= r < 32 -> r <> SP -> 0 <= r' < 32 -> r' <> SP -> full s ->
  exists code, emits (_ ← PushRegister r; PopRegister r') s code /\
  forall st, sim_wf st -> pc_ st + Z.of_nat (length code) < 2 ^ XLEN ->
    code_at (mem_ st) (pc_ st) code -> stack_room st code ->
    exists n m, store_as uintx_t (mem_ st) (xregs_ st SP - kWordSize) (xregs_ st r) = Ok m /\
      steps n st = Ok (advance (with_mem st m) n (Z.of_nat (length code))
                         (xset (xregs_ st) r' (xregs_ st r))).
Proof.
  intros Hr Hsp Hr' Hsp' Hs.
  destruct (PushRegister_performs r s Hr Hsp Hs) as (c0 & E0 & P0).
  destruct (PopRegister_parts r' (append s c0) Hr' Hsp' Hs) as (c1 & c2 & E12 & A1 & X2).
  exists (c0 ++ c1 ++ c2). split; [by apply emits_bind|].
  intros st Hwf Hpc Hc [Hb1 Hb2 Hm Hd]. pose proof kWordSize_pos as Hk.
  pose proof (length_app c1 c2) as L12.
  rewrite (length_app c0), Nat2Z.inj_add in *. apply code_at_app in Hc as [Hc0 Hc12].
  pose proof (wf_regs st Hwf) as [Hz Hw]. pose proof (Hw SP). destruct (wf_pc st Hwf).
  destruct (push_steps c0 r st) as (n0 & m & Hst & Hs0); [done || lia..|].
  set (R0 := xset (xregs_ st) SP (xregs_ st SP - kWordSize)) in *.
  set (st1 := advance (with_mem st m) n0 (Z.of_nat (length c0)) R0) in *.
  assert (pc_ st1 = pc_ st + Z.of_nat (length c0)) as Hpc1 by (cbn; apply uintx_small; lia).
  assert (xregs_ st1 SP = xregs_ st SP - kWordSize) as Hsp1.
  { change (R0 SP = xregs_ st SP - kWordSize). unfold R0. rewrite xset_same by done.
    apply uintx_small. lia. }
  destruct (pop_steps c1 c2 r' (intx (xregs_ st r)) st1) as (n1 & Hs1);
    [done | done | done | | rewrite Hpc1; lia | | rewrite Hsp1; cbn; lia | cbn; lia | |].
  - apply advance_wf; [|apply xset_wf, Hwf]. destruct Hwf as [W1 W2 W3 W4].
    split; [done | done | done |]. by eapply mem_store_wf.
  - rewrite Hpc1. eapply code_at_store; [exact Hst | | exact Hc12].
    unfold uintx_t. rewrite sizeof_word, Z2Nat.id by lia. lia.
  - rewrite Hsp1. by eapply word_roundtrip.
  - exists (n0 + n1)%nat, m. split; [done|]. rewrite (steps_app _ _ _ _ Hs0), Hs1.
    unfold st1. rewrite advance_advance, !advance_xregs. do 2 f_equal; try lia.
    unfold R0. rewrite push_pop_regs by done. apply xset_eq. by rewrite uintx_intx.
Qed.
End Stack.
