(* ===== verification/Frames.v ===== *)
(** * Saving and restoring registers

    [PushRegisters] writes a set of registers to consecutive slots below the stack pointer
    and [PopRegisters] reads them back: between the two any code may run that keeps the
    stack pointer and the slots. *)
From Stdlib Require Import FunctionalExtensionality.
From S2P Require Import Prelude Utils Constants EncodingFacts Words CWords Memory Float SimState SimInteger.
From S2P Require Import SimFloat Simulator Exec SimFacts Effects AsmState MicroAssembler Emission Computes Macros.
From S2P Require Import ObjectMacros MacroFacts Arithmetic Accesses Offsets FloatAccesses Programs Stack.

(** ** The layout of the slots *)

(** Registers with the offsets that a running offset in steps of [k] assigns to them. *)
Fixpoint layout (k off : Z) (l : list Z) : list (Z * Z) :=
  match l with
  | [] => []
  | r :: l => (r, off) :: layout k (off + k) l
  end.

Lemma layout_app k off l1 l2 :
  layout k off (l1 ++ l2) = layout k off l1 ++ layout k (off + k * Z.of_nat (length l1)) l2.
Proof.
  revert off. induction l1 as [|r l1 IH]; intros off; cbn [layout app length].
  - by replace (off + k * Z.of_nat 0) with off by lia.
  - rewrite IH. by replace (off + k + k * Z.of_nat (length l1)) with (off + k * Z.of_nat (S (length l1))) by lia.
Qed.

(** Counting down from the end visits the slots of counting up in reverse. *)
Lemma layout_down k off l :
  map (fun '(r, o) => (r, o - k)) (layout (- k) (off + k * Z.of_nat (length l)) (rev l)) =
  rev (layout k off l).
Proof.
  revert off. induction l as [|r l IH]; intros off; [done|]. cbn [rev layout length].
  rewrite layout_app, map_app. rewrite <- IH. cbn [layout map]. rewrite length_rev.
  f_equal; [do 2 f_equal; lia | do 2 f_equal; lia].
Qed.

Lemma layout_range k off l r o : 0 < k -> (r, o) ∈ layout k off l ->
  r ∈ l /\ off <= o /\ o + k <= off + k * Z.of_nat (length l).
Proof.
  intros Hk. revert off. induction l as [|r' l IH]; intros off; cbn [layout length].
  - by intros ?%elem_of_nil.
  - rewrite elem_of_cons. intros [[= <- <-]|Hin].
    + split_and!; [left | lia | nia].
    + apply IH in Hin as (? & ? & ?). split_and!; [by right | lia | nia].
Qed.

Lemma layout_elem k off l r : r ∈ l -> exists o, (r, o) ∈ layout k off l.
Proof.
  revert off. induction l as [|r' l IH]; intros off; [by intros ?%elem_of_nil|].
  rewrite elem_of_cons. intros [->|Hin]; [exists off; left|].
  destruct (IH (off + k) Hin) as [o Ho]. exists o. by right.
Qed.

Lemma filter_rev {A} (P : A -> Prop) `{!forall x, Decision (P x)} (l : list A) :
  filter P (rev l) = rev (filter P l).
Proof. rewrite !rev_alt. apply filter_reverse. Qed.

Section ForRegisters.
Context `{Target} `{HostFloat} `{Host}.

(** The loop over the register numbers emits the body of every register it contains. *)
Lemma for_registers_implements l contains body k off (opf : Z * Z -> list op) :
  let chosen := filter (fun r => contains r = true) l in
  (forall r o, (r, o) ∈ layout k off chosen -> implements (body r o) (o + k) (opf (r, o))) ->
  implements (for_registers l contains body off) (off + k * Z.of_nat (length chosen))
    (flat_map opf (layout k off chosen)).
Proof.
  cbv zeta. revert off. induction l as [|r l IH]; intros off Hb; cbn [for_registers].
  - replace (off + _) with off by (cbn; lia). apply implements_ret.
  - destruct (contains r) eqn:Hr.
    + rewrite filter_cons_True in Hb |- * by done. cbn [layout length flat_map] in *.
      eapply implements_bind; [apply Hb; left|].
      replace (off + k * _) with (off + k + k * Z.of_nat (length (filter (fun r => contains r = true) l))) by lia.
      apply IH. intros r' o Ho. apply Hb. by right.
    + rewrite filter_cons_False in Hb |- * by by rewrite Hr.
      apply (implements_bind _ _ off _ []); [apply implements_ret | by apply IH].
Qed.
End ForRegisters.

(** ** Slots *)

Inductive slot := XSlot (reg off : Z) | DSlot (reg off : Z).

#[export] Instance slot_eq_dec : EqDecision slot.
Proof. solve_decision. Defined.

Section Slots.
Context `{Target} `{HostFloat} `{Host}.

Definition slot_off (x : slot) : Z := match x with XSlot _ o | DSlot _ o => o end.
Definition slot_size (x : slot) : Z := match x with XSlot _ _ => kWordSize | DSlot _ _ => 8 end.

Definition at_sp (o : Z) : Address := {| base := SP; offset := o |}.
Definition save_op (x : slot) : op :=
  match x with XSlot r o => stores uintx_t r (at_sp o) | DSlot r o => stores_d r (at_sp o) end.
Definition restore_op (x : slot) : op :=
  match x with XSlot r o => loads intx_t r (at_sp o) | DSlot r o => loads_d r (at_sp o) end.

(** The slot at [sp] holds the register's value in [st]. *)
Definition saved (st : Simulator) (m : memory) (sp : Z) (x : slot) : Prop :=
  match x with
  | XSlot r o => load_as intx_t m (sp + o) = Ok (intx (xregs_ st r))
  | DSlot r o => load_as uint64_t m (sp + o) = Ok (fregs_ st r)
  end.

Definition slots_apart (x y : slot) : Prop :=
  slot_off x + slot_size x <= slot_off y \/ slot_off y + slot_size y <= slot_off x.

Definition slot_inside (size : Z) (x : slot) : Prop :=
  0 <= slot_off x /\ slot_off x + slot_size x <= size.

Lemma slot_size_pos x : 0 < slot_size x <= 8.
Proof. destruct x; cbn; [apply kWordSize_pos | lia]. Qed.

Lemma save_op_ok x : op_ok (save_op x).
Proof. destruct x; cbn; auto with ops. Qed.
Lemma restore_op_ok x : op_ok (restore_op x).
Proof. destruct x; cbn; auto with ops. Qed.

(** A stack access at an offset from the stack pointer passes the checks. *)
Lemma check_access_sp T st o : 0 <= o -> 0 < sizeof T -> 0 <= xregs_ st SP ->
  xregs_ st SP + o + sizeof T <= stack_base_ st -> stack_base_ st < 2 ^ XLEN ->
  check_access T st (xregs_ st SP + o) SP = Ok tt.
Proof.
  intros Ho HT Hsp Hb Hx. unfold check_access. rewrite Z.eqb_refl. cbn [orb].
  rewrite uintx_small by lia. unfold get_xreg.
  rewrite (proj2 (Z.ltb_ge _ _)) by lia. rewrite (proj2 (Z.ltb_ge _ _)) by lia.
  by destruct DEBUG.
Qed.

Lemma address_sp st o : 0 <= xregs_ st SP + o < 2 ^ XLEN -> address st (at_sp o) = xregs_ st SP + o.
Proof. intros Ho. by apply uintx_small. Qed.

(** What a store to a slot does. *)
Lemma save_one st x size : sim_wf st -> slot_inside size x ->
  (forall r o, x = DSlot r o -> 0 <= fregs_ st r < 2 ^ 64) ->
  xregs_ st SP + size <= stack_base_ st < 2 ^ XLEN ->
  mapped (mem_ st) (xregs_ st SP + slot_off x) (Z.to_nat (slot_size x)) ->
  exists m v, mem_store (mem_ st) (xregs_ st SP + slot_off x) (Z.to_nat (slot_size x)) v = Ok m /\
    save_op x st = Ok (with_mem st m) /\ saved st m (xregs_ st SP) x.
Proof.
  intros Hwf [Hi1 Hi2] Hd Hb Hm. pose proof (slot_size_pos x). pose proof (proj2 (wf_regs st Hwf) SP).
  destruct x as [r o|r o]; cbn [slot_off slot_size save_op saved] in *.
  - destruct (mem_store_mapped _ _ _ (uwrap XLEN (xregs_ st r)) Hm) as [m Hst].
    exists m, (uwrap XLEN (xregs_ st r)). split; [done|].
    assert (store_as uintx_t (mem_ st) (xregs_ st SP + o) (xregs_ st r) = Ok m) as Hs by done.
    split; [|eapply word_roundtrip; [apply Hwf | done]].
    unfold stores, MemoryWrite. rewrite address_sp by lia.
    rewrite check_access_sp by (done || (change (sizeof uintx_t) with kWordSize; lia)).
    cbn [mbind result_bind]. by rewrite Hs.
  - specialize (Hd r o eq_refl).
    destruct (mem_store_mapped _ _ _ (uwrap 64 (fregs_ st r)) Hm) as [m Hst].
    exists m, (uwrap 64 (fregs_ st r)). split; [done|].
    assert (store_as uint64_t (mem_ st) (xregs_ st SP + o) (fregs_ st r) = Ok m) as Hs by done.
    split.
    + unfold stores_d, MemoryWrite. rewrite address_sp by lia.
      rewrite check_access_sp by (done || (change (sizeof uint64_t) with 8; lia)).
      cbn [mbind result_bind]. unfold get_fregd. by rewrite Hs.
    + etrans; [exact (store_load_as uint64_t _ _ _ _ false ltac:(done) Hs)|]. f_equal.
      by apply (uwrap_small 64 eq_refl).
Qed.

Lemma mem_load_same m m' addr n : same_bytes m m' addr (Z.of_nat n) -> mem_load m' addr n = mem_load m addr n.
Proof.
  revert addr. induction n as [|n IH]; intros addr Hs; cbn [mem_load]; [done|].
  rewrite Hs by lia. destruct (m !! addr); [|done]. by rewrite IH by (intros i Hi; apply Hs; lia).
Qed.

Lemma load_as_same T m m' addr : 0 <= sizeof T -> same_bytes m m' addr (sizeof T) ->
  load_as T m' addr = load_as T m addr.
Proof. intros HT Hs. unfold load_as. rewrite (mem_load_same m); [done|]. by rewrite Z2Nat.id. Qed.

Lemma saved_same st m m' sp x : same_bytes m m' (sp + slot_off x) (slot_size x) ->
  saved st m sp x -> saved st m' sp x.
Proof.
  intros Hs. pose proof (slot_size_pos x) as [Hz _].
  destruct x; cbn [saved slot_off slot_size] in *; by rewrite (load_as_same _ m m') by (exact Hs || apply Z.lt_le_incl, Hz).
Qed.

(** The stack area of [size] bytes at the stack pointer is usable by code at [lo]. *)
Record stack_area (st : Simulator) (lo n size : Z) : Prop := {
  area_base : xregs_ st SP + size <= stack_base_ st < 2 ^ XLEN;
  area_mapped : mapped (mem_ st) (xregs_ st SP) (Z.to_nat size);
  area_code : lo + n <= xregs_ st SP \/ xregs_ st SP + size <= lo
}.

(** Byte [i] is in none of the slots at [sp]. *)
Definition outside (sp : Z) (xs : list slot) (i : Z) : Prop :=
  Forall (fun x => i < sp + slot_off x \/ sp + slot_off x + slot_size x <= i) xs.

(** Storing a list of slots. *)
Lemma save_all xs st lo n size : sim_wf st -> stack_area st lo n size ->
  Forall (slot_inside size) xs -> ForallOrdPairs slots_apart xs ->
  (forall r o, DSlot r o ∈ xs -> 0 <= fregs_ st r < 2 ^ 64) ->
  exists m, runs lo n (map save_op xs) st (with_mem st m) /\
    Forall (saved st m (xregs_ st SP)) xs /\
    (forall i, outside (xregs_ st SP) xs i -> m !! i = mem_ st !! i).
Proof.
  intros Hwf Ha Hin Hap. revert st Hwf Ha.
  induction Hap as [|x xs Hx _ IH]; intros st Hwf Ha Hd.
  { exists (mem_ st). cbn. split_and!; [by destruct st | constructor | done]. }
  apply Forall_cons_iff in Hin as [Hi Hin]. pose proof (slot_size_pos x) as Hsz. pose proof Hi as [Hi1 Hi2].
  destruct Ha as [Hb Hm Hc].
  destruct (save_one st x size) as (m1 & v & Hst & Hop & Hsv); [done | done | | done | |].
  { intros r o ->. eapply Hd. left. }
  { intros i Hii. apply Hm. lia. }
  destruct (IH Hin (with_mem st m1)) as (m & Hr & Hsd & Hout).
  - apply with_mem_wf; [|done]. eapply mem_store_wf; [apply Hwf | exact Hst].
  - split; [done | | done]. intros i Hii. cbn. rewrite (mem_store_dom _ _ _ _ _ _ Hst). by apply Hm.
  - intros r o Ho. eapply Hd. right. exact Ho.
  - exists m. cbn [map runs mem_ with_mem xregs_] in *. split_and!.
    + exists (with_mem st m1). split_and!; [done | | done].
      intros i Hii. cbn. eapply mem_store_other; [exact Hst|]. lia.
    + constructor; [|done]. eapply saved_same; [|exact Hsv]. intros i Hii. apply Hout.
      eapply Forall_impl; [|exact Hx]. intros y Hy. unfold slots_apart in Hy. cbn. lia.
    + intros i [Ho1 Ho2]%Forall_cons_iff. rewrite Hout by done.
      eapply mem_store_other; [exact Hst|]. lia.
Qed.

(** ** Restoring *)

(** The registers of the slots are those of [st0], the others and the memory those of [st]. *)
Record restored (st0 st : Simulator) (xs : list slot) (st' : Simulator) : Prop := {
  rest_eq : st' = with_fregs (with_xregs st (xregs_ st')) (fregs_ st');
  rest_x : forall r o, XSlot r o ∈ xs -> xregs_ st' r = xregs_ st0 r;
  rest_x_other : forall r, (forall o, XSlot r o ∉ xs) -> xregs_ st' r = xregs_ st r;
  rest_d : forall r o, DSlot r o ∈ xs -> fregs_ st' r = fregs_ st0 r;
  rest_d_other : forall r, (forall o, DSlot r o ∉ xs) -> fregs_ st' r = fregs_ st r
}.

Lemma xset_restores R r v : regs_wf R -> 0 <= v < 2 ^ XLEN -> (r = ZR -> v = 0) ->
  xset R r (intx v) r = v.
Proof.
  intros HR Hv Hz. destruct (Z.eq_dec r ZR) as [->|Hr].
  - rewrite xset_zero, (proj1 HR). symmetry. by apply Hz.
  - rewrite xset_same by done. by rewrite uintx_intx, uintx_small.
Qed.

(** One slot. *)
Lemma restore_one st0 st x size : sim_wf st0 -> sim_wf st -> slot_inside size x ->
  (forall o, x <> XSlot SP o) -> xregs_ st SP + size <= stack_base_ st < 2 ^ XLEN ->
  saved st0 (mem_ st) (xregs_ st SP) x ->
  exists st', restore_op x st = Ok st' /\ restored st0 st [x] st'.
Proof.
  intros Hwf0 Hwf [Hi1 Hi2] Hsp Hb Hs. pose proof (slot_size_pos x).
  pose proof (proj2 (wf_regs st Hwf) SP).
  destruct x as [r o|r o]; cbn [restore_op slot_off slot_size saved] in *.
  - exists (with_xregs st (xset (xregs_ st) r (intx (xregs_ st0 r)))).
    unfold loads, load_xreg, MemoryRead. rewrite address_sp by lia.
    rewrite check_access_sp by (done || (change (sizeof intx_t) with kWordSize; lia)).
    cbn [mbind result_bind]. rewrite Hs. cbn [mbind result_bind]. rewrite set_xreg_xset. split; [done|].
    destruct (wf_regs st0 Hwf0) as [Hz0 Hw0].
    split; cbn [xregs_ with_xregs fregs_]; [by destruct st | | | |done].
    + intros r' o' [= -> ->]%list_elem_of_singleton. apply xset_restores; [apply Hwf | apply Hw0|].
      by intros ->.
    + intros r' Hr'. apply xset_other. intros ->. apply (Hr' o). left.
    + intros r' o' Hd. apply list_elem_of_singleton in Hd. discriminate.
  - exists (set_fregd st r (fregs_ st0 r)).
    unfold loads_d, load_freg, MemoryRead. rewrite address_sp by lia.
    rewrite check_access_sp by (done || (change (sizeof uint64_t) with 8; lia)).
    cbn [mbind result_bind]. rewrite Hs. split; [done|]. unfold set_fregd.
    split; cbn [xregs_ with_fregs fregs_]; [by destruct st | |done | |].
    + intros r' o' Hd. apply list_elem_of_singleton in Hd. discriminate.
    + intros r' o' [= -> ->]%list_elem_of_singleton. unfold array_set. by rewrite Z.eqb_refl.
    + intros r' Hr'. unfold array_set. rewrite (proj2 (Z.eqb_neq _ _)); [done|].
      intros ->. apply (Hr' o). left.
Qed.

Lemma slot_cases (K : Z -> Z -> slot) r (xs : list slot) : (forall o, slot_off (K r o) = o) ->
  (exists o, K r o ∈ xs) \/ (forall o, K r o ∉ xs).
Proof.
  intros HK. destruct (decide (Exists (fun x => x = K r (slot_off x)) xs)) as [He|Hn].
  - apply Exists_exists in He as (x & Hx%list_elem_of_In & E). left. exists (slot_off x). by rewrite <- E.
  - right. intros o Ho. apply Hn, Exists_exists. exists (K r o). rewrite HK. by rewrite <- list_elem_of_In.
Qed.

Lemma restored_cons st0 st x xs st1 st' :
  restored st0 st [x] st1 -> restored st0 st1 xs st' -> restored st0 st (x :: xs) st'.
Proof.
  intros [E1 X1 XO1 D1 DO1] [E2 X2 XO2 D2 DO2]. split.
  - rewrite E2, E1. by destruct st.
  - intros r o Hin. destruct (slot_cases XSlot r xs) as [[o' Ho]|Hn]; [done | by eapply X2 |].
    rewrite XO2 by done. apply elem_of_cons in Hin as [<-|Hin]; [eapply X1; left | by destruct (Hn o)].
  - intros r Hn. rewrite XO2, XO1; [done | |]; intros o Ho; apply (Hn o);
      [apply list_elem_of_singleton in Ho as <-; left | by right].
  - intros r o Hin. destruct (slot_cases DSlot r xs) as [[o' Ho]|Hn]; [done | by eapply D2 |].
    rewrite DO2 by done. apply elem_of_cons in Hin as [<-|Hin]; [eapply D1; left | by destruct (Hn o)].
  - intros r Hn. rewrite DO2, DO1; [done | |]; intros o Ho; apply (Hn o);
      [apply list_elem_of_singleton in Ho as <-; left | by right].
Qed.

Lemma restored_mem st0 st xs st' : restored st0 st xs st' ->
  mem_ st' = mem_ st /\ stack_base_ st' = stack_base_ st.
Proof. intros [E _ _ _ _]. rewrite E. by destruct st. Qed.

(** Reading back a list of slots. *)
Lemma restore_all xs st0 st lo n size : sim_wf st0 -> sim_wf st -> Forall (slot_inside size) xs ->
  (forall o, XSlot SP o ∉ xs) -> xregs_ st SP + size <= stack_base_ st < 2 ^ XLEN ->
  Forall (saved st0 (mem_ st) (xregs_ st SP)) xs ->
  exists st', runs lo n (map restore_op xs) st st' /\ restored st0 st xs st'.
Proof.
  intros Hwf0. revert st. induction xs as [|x xs IH]; intros st Hwf Hin Hsp Hb Hs.
  { exists st. split; [done|]. split; [by destruct st | | done | | done];
      intros r o Ho; by apply elem_of_nil in Ho. }
  apply Forall_cons_iff in Hin as [Hi Hin]. apply Forall_cons_iff in Hs as [Hs1 Hs].
  destruct (restore_one st0 st x size) as (st1 & Hop & R1); [done.. | | done | done |].
  { intros o ->. apply (Hsp o). left. }
  destruct (restored_mem _ _ _ _ R1) as [Em Eb].
  assert (xregs_ st1 SP = xregs_ st SP) as Esp.
  { apply (rest_x_other _ _ _ _ R1). intros o Ho. apply list_elem_of_singleton in Ho.
    apply (Hsp o). rewrite Ho. left. }
  destruct (IH st1) as (st' & R & R2);
    [by eapply (op_wf _ (restore_op_ok x)) | done | | by rewrite Esp, Eb | by rewrite Em, Esp |].
  - intros o Ho. apply (Hsp o). by right.
  - exists st'. split; [|by eapply restored_cons]. cbn [map runs]. exists st1.
    split_and!; [done | | done]. by rewrite Em.
Qed.
End Slots.

#[export] Hint Resolve save_op_ok restore_op_ok : ops.

(** ** The macros *)

Section PushPop.
Context `{Target} `{HostFloat} `{Host} (regs : RegisterSet).

Definition cpu_list : list Z :=
  filter (fun r => ContainsRegister regs r = true) (seqZ 0 kNumberOfCpuRegisters).
Definition fpu_list : list Z :=
  filter (fun r => ContainsFpuRegister regs r = true) (seqZ 0 kNumberOfFpuRegisters).
Definition saved_size : Z := CpuRegisterCount regs * kWordSize + FpuRegisterCount regs * kFpuRegisterSize.

Definition xslot (p : Z * Z) : slot := XSlot (fst p) (snd p).
Definition dslot (p : Z * Z) : slot := DSlot (fst p) (snd p).

(** The integer registers in ascending order, then the floating-point registers. *)
Definition reg_slots : list slot :=
  map xslot (layout kWordSize 0 cpu_list) ++
  map dslot (layout 8 (kWordSize * Z.of_nat (length cpu_list)) fpu_list).

Lemma flat_map_single {A B} (g : A -> B) l : flat_map (fun x => [g x]) l = map g l.
Proof. induction l; cbn; congruence. Qed.

Lemma counts_bound : 0 <= CpuRegisterCount regs <= 32 /\ 0 <= FpuRegisterCount regs <= 32.
Proof.
  unfold CpuRegisterCount, FpuRegisterCount.
  pose proof (length_filter (fun r => ContainsRegister regs r = true) (seqZ 0 kNumberOfCpuRegisters)) as L1.
  pose proof (length_filter (fun r => ContainsFpuRegister regs r = true) (seqZ 0 kNumberOfFpuRegisters)) as L2.
  rewrite length_seqZ in L1, L2. unfold kNumberOfCpuRegisters, kNumberOfFpuRegisters in *. lia.
Qed.

Lemma saved_size_bound : 0 <= saved_size <= 512.
Proof.
  pose proof counts_bound. pose proof kWordSize_pos. unfold saved_size, kFpuRegisterSize. nia.
Qed.

Lemma saved_size_lengths :
  saved_size = kWordSize * Z.of_nat (length cpu_list) + 8 * Z.of_nat (length fpu_list).
Proof. unfold saved_size, CpuRegisterCount, FpuRegisterCount, cpu_list, fpu_list, kFpuRegisterSize. lia. Qed.

Lemma chosen_range contains r : r ∈ filter (fun r => contains r = true) (seqZ 0 32) -> 0 <= r < 32.
Proof. intros [_ Hr%elem_of_seqZ]%list_elem_of_filter. lia. Qed.

Lemma small_ITypeImm k : -2048 <= k < 2048 -> IsITypeImm k = true /\ IsSTypeImm k = true.
Proof. intros Hk. split; [apply IsITypeImm_spec | apply IsSTypeImm_spec]; lia. Qed.

Lemma implements_subi k : -2048 < k <= 2048 ->
  implements (subi SP SP k) tt [compute (fun R => xset R SP (R SP + - k))].
Proof.
  intros Hk. eapply implements_computes; [intros r Hr; by apply xset_wf|].
  apply addi_computes; [wside | wside | apply small_ITypeImm; lia].
Qed.

Lemma sx_implements r o : 0 <= r < 32 -> -2048 <= o < 2048 ->
  implements (sx r (at_sp o)) tt [save_op (XSlot r o)].
Proof.
  intros Hr Ho. apply implements_accesses; [auto with ops|].
  apply sx_accesses; [done | wside | by apply small_ITypeImm].
Qed.
Lemma lx_implements r o : 0 <= r < 32 -> -2048 <= o < 2048 ->
  implements (lx r (at_sp o)) tt [restore_op (XSlot r o)].
Proof.
  intros Hr Ho. apply implements_accesses; [auto with ops|].
  apply lx_accesses; [done | wside | by apply small_ITypeImm].
Qed.
Lemma fsd_implements r o : 0 <= r < 32 -> -2048 <= o < 2048 ->
  implements (fsd r (at_sp o)) tt [save_op (DSlot r o)].
Proof.
  intros Hr Ho. apply implements_accesses; [auto with ops|].
  apply fsd_accesses; [done | wside | by apply small_ITypeImm].
Qed.
Lemma fld_implements r o : 0 <= r < 32 -> -2048 <= o < 2048 ->
  implements (fld r (at_sp o)) tt [restore_op (DSlot r o)].
Proof.
  intros Hr Ho. apply implements_accesses; [auto with ops|].
  apply fld_accesses; [done | wside | by apply small_ITypeImm].
Qed.

(** The loops, in each direction. *)
Lemma ascending contains (m : Z -> Address -> asm unit) (K : Z * Z -> op) k off :
  let chosen := filter (fun r => contains r = true) (seqZ 0 32) in
  0 < k -> 0 <= off -> off + k * Z.of_nat (length chosen) <= 512 ->
  (forall r o, 0 <= r < 32 -> -2048 <= o < 2048 -> implements (m r (at_sp o)) tt [K (r, o)]) ->
  implements (for_registers (seqZ 0 32) contains
                (fun r o => _ ← m r (at_sp o); mret (o + k)) off)
    (off + k * Z.of_nat (length chosen)) (map K (layout k off chosen)).
Proof.
  cbv zeta. intros Hk Ho Hs Hm. rewrite <- flat_map_single.
  apply (for_registers_implements _ _ _ _ _ (fun p => [K p])).
  intros r o Hin. apply layout_range in Hin as (Hr%chosen_range & ? & ?); [|done].
  apply (implements_bind _ _ tt _ [_] []); [apply Hm; lia | apply implements_ret].
Qed.

Lemma descending contains (m : Z -> Address -> asm unit) (K : Z * Z -> op) k off :
  let chosen := filter (fun r => contains r = true) (seqZ 0 32) in
  0 < k -> 0 <= off -> off + k * Z.of_nat (length chosen) <= 512 ->
  (forall r o, 0 <= r < 32 -> -2048 <= o < 2048 -> implements (m r (at_sp o)) tt [K (r, o)]) ->
  implements (for_registers (rev (seqZ 0 32)) contains
                (fun r o => _ ← m r (at_sp (o - k)); mret (o - k))
                (off + k * Z.of_nat (length chosen)))
    off (map K (rev (layout k off chosen))).
Proof.
  cbv zeta. intros Hk Ho Hs Hm. set (chosen := filter _ _) in *.
  rewrite <- layout_down, map_map, <- flat_map_single.
  assert (filter (fun r => contains r = true) (rev (seqZ 0 32)) = rev chosen) as Er by apply filter_rev.
  replace off with (off + k * Z.of_nat (length chosen) +
    - k * Z.of_nat (length (filter (fun r => contains r = true) (rev (seqZ 0 32))))) at 2
    by (rewrite Er, length_rev; lia).
  rewrite <- Er. apply for_registers_implements. rewrite Er. intros r o Hin.
  assert ((r, o - k) ∈ rev (layout k off chosen)) as Hin'.
  { rewrite <- layout_down. rewrite list_elem_of_In in *. by apply (in_map (fun '(r, o) => (r, o - k))) in Hin. }
  rewrite list_elem_of_In, <- in_rev, <- list_elem_of_In in Hin'.
  apply layout_range in Hin' as (Hr%chosen_range & ? & ?); [|done].
  change (o + - k) with (o - k).
  apply (implements_bind _ _ tt _ [_] []); [apply Hm; lia | apply implements_ret].
Qed.

Definition move_sp (k : Z) : op := compute (fun R => xset R SP (R SP + k)).

Lemma rev_reg_slots : rev reg_slots =
  map dslot (rev (layout 8 (kWordSize * Z.of_nat (length cpu_list)) fpu_list)) ++
  map xslot (rev (layout kWordSize 0 cpu_list)).
Proof. unfold reg_slots. by rewrite rev_app_distr, <- !map_rev. Qed.

Lemma PushRegisters_implements : saved_size <> 0 ->
  implements (PushRegisters regs) tt (move_sp (- saved_size) :: map save_op (rev reg_slots)).
Proof.
  intros Hn. pose proof saved_size_bound as Hb. pose proof saved_size_lengths as El.
  pose proof kWordSize_pos as Hk.
  assert (0 + kWordSize * Z.of_nat (length cpu_list) <= 512) as Hx by lia.
  assert (kWordSize * Z.of_nat (length cpu_list) + 8 * Z.of_nat (length fpu_list) <= 512) as Hd by lia.
  unfold PushRegisters. fold saved_size.
  rewrite (proj2 (Z.eqb_neq _ _) Hn), rev_reg_slots, map_app, !map_map.
  apply (implements_bind _ _ tt _ [_]); [apply implements_subi; lia|].
  eapply implements_bind;
    [rewrite El; apply (descending _ fsd (fun p => save_op (dslot p)) 8);
      [lia | lia | exact Hd | intros; by apply fsd_implements]|].
  rewrite <- (app_nil_r (map _ (rev (layout kWordSize 0 cpu_list)))).
  eapply implements_bind;
    [apply (descending _ sx (fun p => save_op (xslot p)) kWordSize 0);
      [lia | lia | exact Hx | intros; by apply sx_implements]|].
  by apply implements_assert_last.
Qed.

Lemma PopRegisters_implements : saved_size <> 0 ->
  implements (PopRegisters regs) tt (map restore_op reg_slots ++ [move_sp saved_size]).
Proof.
  intros Hn. pose proof saved_size_bound as Hb. pose proof saved_size_lengths as El.
  pose proof kWordSize_pos as Hk.
  assert (0 + kWordSize * Z.of_nat (length cpu_list) <= 512) as Hx by lia.
  assert (kWordSize * Z.of_nat (length cpu_list) + 8 * Z.of_nat (length fpu_list) <= 512) as Hd by lia.
  unfold PopRegisters. fold saved_size.
  rewrite (proj2 (Z.eqb_neq _ _) Hn). unfold reg_slots. rewrite map_app, !map_map, <- app_assoc.
  eapply implements_bind;
    [apply (ascending _ lx (fun p => restore_op (xslot p)) kWordSize 0);
      [lia | lia | exact Hx | intros; by apply lx_implements]|].
  rewrite Z.add_0_l.
  eapply implements_bind;
    [apply (ascending _ fld (fun p => restore_op (dslot p)) 8);
      [lia | lia | exact Hd | intros; by apply fld_implements]|].
  apply implements_assert; [apply Z.eqb_eq; symmetry; exact El|].
  eapply implements_computes; [intros r Hr; by apply xset_wf|].
  apply addi_computes; [wside | wside | apply small_ITypeImm; lia].
Qed.

(** The slots are inside the area, apart, and name the registers of the set. *)
Lemma reg_slots_inside : Forall (slot_inside saved_size) reg_slots.
Proof.
  pose proof saved_size_lengths as El. pose proof kWordSize_pos as Hk.
  apply Forall_forall. intros x Hx. unfold reg_slots in Hx.
  apply in_app_or in Hx as [Hx|Hx]; apply in_map_iff in Hx as ([r o] & <- & Hx%list_elem_of_In);
    apply layout_range in Hx as (_ & ? & ?); try lia; unfold slot_inside; cbn; lia.
Qed.

Lemma layout_apart (K : Z * Z -> slot) k off l : 0 < k ->
  (forall r o, slot_off (K (r, o)) = o /\ slot_size (K (r, o)) = k) ->
  ForallOrdPairs slots_apart (map K (layout k off l)).
Proof.
  intros Hk HK. revert off. induction l as [|r l IH]; intros off; cbn; constructor; [|apply IH].
  apply Forall_forall. intros x ([r' o'] & <- & Hx%list_elem_of_In)%in_map_iff.
  apply layout_range in Hx as (_ & ? & _); [|done]. unfold slots_apart.
  destruct (HK r off) as [-> ->], (HK r' o') as [-> ->]. lia.
Qed.

Lemma pairs_app {A} (R : A -> A -> Prop) l1 l2 : ForallOrdPairs R l1 -> ForallOrdPairs R l2 ->
  (forall x y, x ∈ l1 -> y ∈ l2 -> R x y) -> ForallOrdPairs R (l1 ++ l2).
Proof.
  intros P1 P2 HR. induction P1 as [|x l1 Hx P1 IH]; cbn; [done|]. constructor.
  - apply Forall_app. split; [done|]. apply Forall_forall. intros y Hy%list_elem_of_In.
    apply HR; [left | done].
  - apply IH. intros y z Hy Hz. apply HR; [by right | done].
Qed.

Lemma pairs_rev {A} (R : A -> A -> Prop) l : (forall x y, R x y -> R y x) ->
  ForallOrdPairs R l -> ForallOrdPairs R (rev l).
Proof.
  intros HS. induction 1 as [|x l Hx _ IH]; cbn; [constructor|].
  apply pairs_app; [done | by repeat constructor |]. intros y z Hy Hz%list_elem_of_singleton.
  subst z. apply HS. rewrite list_elem_of_In, <- in_rev in Hy. by eapply Forall_forall in Hx.
Qed.

Lemma reg_slots_apart : ForallOrdPairs slots_apart reg_slots.
Proof.
  pose proof kWordSize_pos. unfold reg_slots. apply pairs_app; [by apply layout_apart; [lia|].. |].
  intros x y Hx Hy. rewrite list_elem_of_In in Hx, Hy.
  apply in_map_iff in Hx as ([r o] & <- & Hx%list_elem_of_In).
  apply in_map_iff in Hy as ([r' o'] & <- & Hy%list_elem_of_In).
  apply layout_range in Hx as (_ & ? & ?); [|lia]. apply layout_range in Hy as (_ & ? & ?); [|lia].
  unfold slots_apart. cbn. lia.
Qed.
End PushPop.

(** ** Running the saved and restored code *)

Section Running.
Context `{Target} `{HostFloat} `{Host} (xs : list slot) (size : Z).
Context (Hin : Forall (slot_inside size) xs) (Hap : ForallOrdPairs slots_apart xs).
Context (Hsp : forall o, XSlot SP o ∉ xs) (Hsize : 0 <= size).

(** The [size] bytes below the stack pointer are free, mapped, and apart from the [n] bytes of
    code at [lo]. *)
Record save_room (st : Simulator) (lo n : Z) : Prop := {
  sroom_below : size <= xregs_ st SP;
  sroom_base : xregs_ st SP <= stack_base_ st < 2 ^ XLEN;
  sroom_mapped : mapped (mem_ st) (xregs_ st SP - size) (Z.to_nat size);
  sroom_code : lo + n <= xregs_ st SP - size \/ xregs_ st SP <= lo;
  sroom_doubles : forall r o, DSlot r o ∈ xs -> 0 <= fregs_ st r < 2 ^ 64
}.

Lemma saved_move_sp st m sp v : Forall (saved (with_xregs st (xset (xregs_ st) SP v)) m sp) xs ->
  Forall (saved st m sp) xs.
Proof using Hsp.
  rewrite !Forall_forall. intros Hs x Hx. specialize (Hs x Hx).
  destruct x as [r o|]; cbn [saved xregs_ with_xregs fregs_] in *; [|done].
  rewrite xset_other in Hs; [done|]. intros ->. by apply (Hsp o), list_elem_of_In.
Qed.

(** Moving the stack pointer down and saving. *)
Lemma save_runs st lo n : sim_wf st -> save_room st lo n ->
  let sp := xregs_ st SP - size in
  exists m, runs lo n (move_sp (- size) :: map save_op xs) st
              (with_mem (with_xregs st (xset (xregs_ st) SP sp)) m) /\
    Forall (saved st m sp) xs /\ (forall i, i < sp \/ xregs_ st SP <= i -> m !! i = mem_ st !! i).
Proof using All.
  intros Hwf [Hb1 Hb2 Hm Hcode Hd]. cbv zeta. pose proof (proj2 (wf_regs st Hwf) SP) as Hw.
  set (st1 := with_xregs st (xset (xregs_ st) SP (xregs_ st SP - size))).
  assert (xregs_ st1 SP = xregs_ st SP - size) as Esp.
  { unfold st1; cbn [xregs_ with_xregs]. rewrite xset_same by done. apply uintx_small. lia. }
  destruct (save_all xs st1 lo n size) as (m & Hr & Hs & Ho).
  - destruct Hwf. split; [by apply xset_wf | done..].
  - split; rewrite ?Esp; cbn; [lia | done | lia].
  - done.
  - done.
  - done.
  - rewrite Esp in Hs, Ho. exists m. split_and!; [|by apply saved_move_sp in Hs|].
    + cbn [runs]. exists st1. by split_and!.
    + intros i Hi. apply Ho. apply Forall_forall. intros x Hx.
      apply (Forall_forall _ _) with (x := x) in Hin; [|done].
      destruct Hin. pose proof (slot_size_pos x). lia.
Qed.

(** Restoring and moving the stack pointer up. *)
Lemma restore_runs st0 st lo n : sim_wf st0 -> sim_wf st ->
  xregs_ st SP + size <= stack_base_ st < 2 ^ XLEN ->
  Forall (saved st0 (mem_ st) (xregs_ st SP)) xs ->
  exists st', runs lo n (map restore_op xs ++ [move_sp size]) st
                (with_xregs st' (xset (xregs_ st') SP (xregs_ st SP + size))) /\
    restored st0 st xs st'.
Proof using All.
  intros Hwf0 Hwf Hb Hs.
  destruct (restore_all xs st0 st lo n size) as (st' & Hr & Hres); [done..|].
  assert (xregs_ st' SP = xregs_ st SP) as Esp by by apply (rest_x_other _ _ _ _ Hres).
  exists st'. split; [|done]. apply runs_app. exists st'. split; [done|].
  exists (with_xregs st' (xset (xregs_ st') SP (xregs_ st SP + size))).
  unfold move_sp, compute. rewrite Esp. by split_and!.
Qed.

Lemma save_steps code st : realizes code (move_sp (- size) :: map save_op xs) ->
  sim_wf st -> pc_ st + Z.of_nat (length code) < 2 ^ XLEN -> code_at (mem_ st) (pc_ st) code ->
  save_room st (pc_ st) (Z.of_nat (length code)) ->
  let sp := xregs_ st SP - size in
  exists n m, steps n st = Ok (advance (with_mem st m) n (Z.of_nat (length code)) (xset (xregs_ st) SP sp)) /\
    Forall (saved st m sp) xs /\
    (forall i, i < sp \/ xregs_ st SP <= i -> m !! i = mem_ st !! i).
Proof using All.
  intros [_ R] Hwf Hpc Hc Hroom. destruct (save_runs _ _ _ Hwf Hroom) as (m & Hr & Hs & Ho).
  destruct (R _ _ Hwf Hpc Hc Hr) as [n Hn]. exists n, m. split_and!; [exact Hn | done | done].
Qed.

Lemma restore_steps code st0 st : realizes code (map restore_op xs ++ [move_sp size]) ->
  sim_wf st0 -> sim_wf st -> pc_ st + Z.of_nat (length code) < 2 ^ XLEN ->
  code_at (mem_ st) (pc_ st) code ->
  xregs_ st SP + size <= stack_base_ st < 2 ^ XLEN ->
  Forall (saved st0 (mem_ st) (xregs_ st SP)) xs ->
  exists n st', steps n st = Ok (advance st' n (Z.of_nat (length code))
                                   (xset (xregs_ st') SP (xregs_ st SP + size))) /\
    restored st0 st xs st'.
Proof using All.
  intros [_ R] Hwf0 Hwf Hpc Hc Hb Hs.
  destruct (restore_runs st0 st (pc_ st) (Z.of_nat (length code))) as (st' & Hr & Hres); [done..|].
  destruct (R _ _ Hwf Hpc Hc Hr) as [n Hn]. exists n, st'. split; [exact Hn | done].
Qed.
End Running.

(** ** The slots name the registers of the set *)

Section Members.
Context `{Target} `{HostFloat} `{Host} (regs : RegisterSet).

Lemma map_slot_elem (K : Z * Z -> slot) x k off l : x ∈ map K (layout k off l) <->
  exists r o, x = K (r, o) /\ (r, o) ∈ layout k off l.
Proof.
  rewrite list_elem_of_In, in_map_iff. split.
  - intros ([r o] & <- & Hin%list_elem_of_In). by exists r, o.
  - intros (r & o & -> & Hin%list_elem_of_In). by exists (r, o).
Qed.

Lemma layout_in k off l r o : 0 < k -> (r, o) ∈ layout k off l -> r ∈ l.
Proof. intros Hk Hin. by apply (layout_range k off l r o Hk) in Hin as [Hr _]. Qed.

Lemma xslot_member r : (exists o, XSlot r o ∈ reg_slots regs) <->
  0 <= r < 32 /\ ContainsRegister regs r = true.
Proof.
  unfold reg_slots. pose proof kWordSize_pos. split.
  - intros (o & [Hin|Hin]%elem_of_app); apply map_slot_elem in Hin as (r' & o' & E & Hin); [|discriminate].
    injection E as <- <-. apply layout_in in Hin; [|lia].
    apply list_elem_of_filter in Hin as [Hc Hin%elem_of_seqZ]. unfold kNumberOfCpuRegisters in Hin. split; [lia | done].
  - intros [Hr Hc]. destruct (layout_elem kWordSize 0 (cpu_list regs) r) as [o Ho].
    { apply list_elem_of_filter. split; [done | apply elem_of_seqZ; unfold kNumberOfCpuRegisters; lia]. }
    exists o. apply elem_of_app. left. apply map_slot_elem. by exists r, o.
Qed.

Lemma dslot_member r : (exists o, DSlot r o ∈ reg_slots regs) <->
  0 <= r < 32 /\ ContainsFpuRegister regs r = true.
Proof.
  unfold reg_slots. split.
  - intros (o & [Hin|Hin]%elem_of_app); apply map_slot_elem in Hin as (r' & o' & E & Hin); [discriminate|].
    injection E as <- <-. apply layout_in in Hin; [|lia].
    apply list_elem_of_filter in Hin as [Hc Hin%elem_of_seqZ]. unfold kNumberOfFpuRegisters in Hin. split; [lia | done].
  - intros [Hr Hc].
    destruct (layout_elem 8 (kWordSize * Z.of_nat (length (cpu_list regs))) (fpu_list regs) r) as [o Ho].
    { apply list_elem_of_filter. split; [done | apply elem_of_seqZ; unfold kNumberOfFpuRegisters; lia]. }
    exists o. apply elem_of_app. right. apply map_slot_elem. by exists r, o.
Qed.
End Members.

(** * Frames

    [EnterFrame] saves the return address and the frame pointer and sets up a frame;
    [LeaveFrame] undoes it from the frame pointer alone. *)

Section Frames.
Context `{Target} `{HostFloat} `{Host}.

Definition frame_slots (k : Z) : list slot := [XSlot RA (k + kWordSize); XSlot FP k].
Definition set_fp (k : Z) : op := compute (fun R => xset R FP (R SP + k)).
Definition sp_from_fp : op := compute (fun R => xset R SP (R FP + 0)).

Definition frame_size_ok (k : Z) : Prop := 0 <= k /\ k + 2 * kWordSize <= 2048.

Lemma implements_addi rd rs k : 0 <= rd < 32 -> 0 <= rs < 32 -> -2048 <= k < 2048 ->
  implements (addi rd rs k) tt [compute (fun R => xset R rd (R rs + k))].
Proof.
  intros Hd Hs Hk. eapply implements_computes; [intros r Hr; by apply xset_wf|].
  apply addi_computes; [done | done | by apply small_ITypeImm].
Qed.

Lemma EnterFrame_implements k : frame_size_ok k ->
  implements (EnterFrame k) tt (move_sp (- (k + 2 * kWordSize)) :: map save_op (frame_slots k) ++ [set_fp k]).
Proof.
  intros [Hk1 Hk2]. pose proof kWordSize_pos. unfold EnterFrame. rewrite Z.mul_1_l, Z.mul_0_l, Z.add_0_r.
  apply (implements_bind _ _ tt _ [_]); [apply implements_subi; lia|].
  apply (implements_bind _ _ tt _ [_]); [by apply sx_implements; [wside | lia]|].
  apply (implements_bind _ _ tt _ [_]); [by apply sx_implements; [wside | lia]|].
  by apply implements_addi; [wside | wside | lia].
Qed.

Lemma LeaveFrame_implements :
  implements LeaveFrame tt (sp_from_fp :: map restore_op [XSlot FP 0; XSlot RA kWordSize] ++ [move_sp (2 * kWordSize)]).
Proof.
  pose proof kWordSize_pos. unfold LeaveFrame. rewrite Z.mul_1_l, Z.mul_0_l.
  apply (implements_bind _ _ tt _ [_]); [by apply implements_addi; [wside | wside | lia]|].
  apply (implements_bind _ _ tt _ [_]); [by apply lx_implements; [wside | lia]|].
  apply (implements_bind _ _ tt _ [_]); [by apply lx_implements; [wside | lia]|].
  by apply implements_addi; [wside | wside | lia].
Qed.

Lemma EnterCFrame_eq k : EnterCFrame k = EnterFrame k.
Proof. unfold EnterCFrame, EnterFrame. by rewrite Z.mul_0_l, Z.add_0_r. Qed.
Lemma LeaveCFrame_eq : LeaveCFrame = LeaveFrame.
Proof. done. Qed.

(** ** Running them *)

Lemma frame_slots_ok k : 0 <= k ->
  Forall (slot_inside (k + 2 * kWordSize)) (frame_slots k) /\
  ForallOrdPairs slots_apart (frame_slots k) /\ (forall o, XSlot SP o ∉ frame_slots k).
Proof.
  intros Hk. pose proof kWordSize_pos. unfold frame_slots, slot_inside, slots_apart. split_and!.
  - repeat constructor; cbn; lia.
  - constructor; [|constructor; [constructor | constructor]]. constructor; [cbn; lia | constructor].
  - intros o. rewrite !not_elem_of_cons. split_and!; [done | done | apply not_elem_of_nil].
Qed.

(** The registers inside the frame. *)
Definition frame_regs (R : regs) (k : Z) : regs :=
  let sp := R SP - (k + 2 * kWordSize) in xset (xset R SP sp) FP (sp + k).

Lemma enter_steps k code st : frame_size_ok k ->
  realizes code (move_sp (- (k + 2 * kWordSize)) :: map save_op (frame_slots k) ++ [set_fp k]) ->
  sim_wf st -> pc_ st + Z.of_nat (length code) < 2 ^ XLEN -> code_at (mem_ st) (pc_ st) code ->
  save_room (frame_slots k) (k + 2 * kWordSize) st (pc_ st) (Z.of_nat (length code)) ->
  exists n m, steps n st =
      Ok (advance (with_mem st m) n (Z.of_nat (length code)) (frame_regs (xregs_ st) k)) /\
    Forall (saved st m (xregs_ st SP - 2 * kWordSize)) [XSlot FP 0; XSlot RA kWordSize] /\
    (forall i, i < xregs_ st SP - (k + 2 * kWordSize) \/ xregs_ st SP <= i -> m !! i = mem_ st !! i).
Proof.
  intros [Hk _] [_ R] Hwf Hpc Hc Hroom. pose proof kWordSize_pos.
  destruct (frame_slots_ok k Hk) as (Hin & Hap & Hsp). pose proof (proj2 (wf_regs st Hwf) SP).
  destruct (save_runs _ _ Hin Hap Hsp ltac:(lia) _ _ _ Hwf Hroom) as (m & Hr & Hs & Ho).
  destruct (R st (with_mem (with_xregs st (frame_regs (xregs_ st) k)) m) Hwf Hpc Hc) as [n Hn].
  - rewrite app_comm_cons. apply runs_app. eexists. split; [exact Hr|]. cbn [runs]. eexists.
    split_and!; [reflexivity | done |]. unfold frame_regs. cbn [xregs_ with_mem with_xregs].
    rewrite xset_same, uintx_small by (done || destruct Hroom; lia). done.
  - exists n, m. split_and!; [exact Hn | | done]. unfold frame_slots in Hs.
    apply Forall_cons_iff in Hs as [S1 Hs]. apply Forall_cons_iff in Hs as [S2 _].
    cbn [saved] in S1, S2 |- *.
    constructor; [|constructor; [|constructor]]; cbn [saved].
    + by replace (xregs_ st SP - 2 * kWordSize + 0) with (xregs_ st SP - (k + 2 * kWordSize) + k) by lia.
    + by replace (xregs_ st SP - 2 * kWordSize + kWordSize)
        with (xregs_ st SP - (k + 2 * kWordSize) + (k + kWordSize)) by lia.
Qed.

Lemma leave_steps code st0 st :
  realizes code (sp_from_fp :: map restore_op [XSlot FP 0; XSlot RA kWordSize] ++ [move_sp (2 * kWordSize)]) ->
  sim_wf st0 -> sim_wf st -> pc_ st + Z.of_nat (length code) < 2 ^ XLEN ->
  code_at (mem_ st) (pc_ st) code ->
  xregs_ st FP + 2 * kWordSize <= stack_base_ st < 2 ^ XLEN ->
  Forall (saved st0 (mem_ st) (xregs_ st FP)) [XSlot FP 0; XSlot RA kWordSize] ->
  exists n R, steps n st = Ok (advance st n (Z.of_nat (length code)) R) /\
    R SP = xregs_ st FP + 2 * kWordSize /\ R FP = xregs_ st0 FP /\ R RA = xregs_ st0 RA /\
    forall i, i <> SP -> i <> FP -> i <> RA -> R i = xregs_ st i.
Proof.
  intros [_ R] Hwf0 Hwf Hpc Hc Hb Hs. pose proof kWordSize_pos. pose proof (proj2 (wf_regs st Hwf) FP).
  set (st1 := with_xregs st (xset (xregs_ st) SP (xregs_ st FP))).
  assert (xregs_ st1 SP = xregs_ st FP) as Esp.
  { unfold st1. cbn [xregs_ with_xregs]. rewrite xset_same by done. by apply uintx_small. }
  assert (Forall (slot_inside (2 * kWordSize)) [XSlot FP 0; XSlot RA kWordSize]) as Hin
    by (unfold slot_inside; repeat constructor; cbn; lia).
  assert (ForallOrdPairs slots_apart [XSlot FP 0; XSlot RA kWordSize]) as Hap.
  { unfold slots_apart. constructor; [constructor; [cbn; lia | constructor]|]. constructor; constructor. }
  assert (forall o, XSlot SP o ∉ [XSlot FP 0; XSlot RA kWordSize]) as Hsp.
  { intros o. rewrite !not_elem_of_cons. split_and!; [done | done | apply not_elem_of_nil]. }
  destruct (restore_runs _ (2 * kWordSize) Hin Hap Hsp ltac:(lia) st0 st1 (pc_ st) (Z.of_nat (length code)))
    as (st' & Hr & [Eq HX HXo HD HDo]); [done | | by rewrite Esp | by rewrite Esp |].
  { destruct Hwf. split; [by apply xset_wf | done..]. }
  assert (forall r, (forall o, XSlot r o ∉ [XSlot FP 0; XSlot RA kWordSize]) \/ r = FP \/ r = RA) as Hcase.
  { intros r. destruct (decide (r = FP)), (decide (r = RA)); [auto..|]. left. intros o.
    rewrite !not_elem_of_cons. split_and!; [congruence | congruence | apply not_elem_of_nil]. }
  assert (fregs_ st' = fregs_ st) as Ef.
  { apply functional_extensionality. intros r. apply HDo. intros o.
    rewrite !not_elem_of_cons. split_and!; [done | done | apply not_elem_of_nil]. }
  set (st2 := with_xregs st' (xset (xregs_ st') SP (xregs_ st1 SP + 2 * kWordSize))) in *.
  destruct (R st st2 Hwf Hpc Hc) as [n Hn].
  { cbn [app runs]. exists st1. split_and!; [|done|exact Hr]. unfold sp_from_fp, compute, st1. by rewrite Z.add_0_r. }
  exists n, (xregs_ st2). unfold st2 at 2 3 4 5. cbn [xregs_ with_xregs]. split_and!.
  - rewrite Hn. unfold st2. rewrite Eq, Ef. unfold st1. by destruct st.
  - rewrite xset_same, Esp by done. apply uintx_small. lia.
  - rewrite xset_other by done. apply (HX FP 0). left.
  - rewrite xset_other by done. apply (HX RA kWordSize). right. left.
  - intros i H1' H2' H3'. rewrite xset_other by done.
    destruct (Hcase i) as [Hi|[?|?]]; [|done..]. rewrite (HXo i Hi). unfold st1. cbn [xregs_ with_xregs].
    by rewrite xset_other.
Qed.
End Frames.
