(* ===== verification/Patching.v ===== *)
(** * Patching the buffer

    Reading and overwriting a run of bytes of the assembler's buffer, and the branches
    that are patched: [shape] is a branch of one of the five classes without its offset,
    [shape_bytes sh offset] its encoding, and [update_offset] on it reads the old offset
    and writes the new one. *)
From S2P Require Import Prelude Utils Constants EncodingFacts Words CWords Memory Float.
From S2P Require Import SimState SimInteger SimFloat Simulator Exec Effects AsmState.
From S2P Require Import MicroAssembler Emission Computes Macros MacroFacts Branches.

(** ** Runs of bytes *)

Definition bytes_at (buf : list Z) (p : Z) (bs : list Z) : Prop :=
  0 <= p /\ p + Z.of_nat (length bs) <= Z.of_nat (length buf) /\
  take (length bs) (drop (Z.to_nat p) buf) = bs.

Definition patch (buf : list Z) (p : Z) (bs : list Z) : list Z :=
  take (Z.to_nat p) buf ++ bs ++ drop (Z.to_nat p + length bs) buf.

Lemma bytes_at_lookup buf p bs : bytes_at buf p bs <->
  0 <= p /\ p + Z.of_nat (length bs) <= Z.of_nat (length buf) /\
  forall i b, bs !! i = Some b -> buf !! (Z.to_nat p + i)%nat = Some b.
Proof.
  unfold bytes_at. split; intros (Hp & Hl & E); (split; [done|]; split; [done|]).
  - intros i b Hi. rewrite <- E in Hi. apply lookup_take_Some in Hi as [Hi _].
    by rewrite lookup_drop in Hi.
  - apply list_eq. intros i. destruct (decide (i < length bs)%nat) as [Hi|Hi].
    + rewrite lookup_take_lt, lookup_drop by done.
      destruct (lookup_lt_is_Some_2 bs i Hi) as [b Hb]. rewrite Hb. by apply E.
    + rewrite lookup_take_ge by lia. symmetry. apply lookup_ge_None. lia.
Qed.

Lemma length_patch buf p bs : 0 <= p -> p + Z.of_nat (length bs) <= Z.of_nat (length buf) ->
  length (patch buf p bs) = length buf.
Proof.
  intros Hp Hl. unfold patch. rewrite !length_app, length_take, length_drop. lia.
Qed.

Lemma patch_lookup buf p bs i : 0 <= p -> p + Z.of_nat (length bs) <= Z.of_nat (length buf) ->
  patch buf p bs !! i =
  if decide (Z.to_nat p <= i < Z.to_nat p + length bs)%nat then bs !! (i - Z.to_nat p)%nat else buf !! i.
Proof.
  intros Hp Hl. unfold patch. destruct (decide (i < Z.to_nat p)%nat) as [Hi|Hi].
  - rewrite decide_False by lia. rewrite lookup_app_l by (rewrite length_take; lia).
    by apply lookup_take_lt.
  - rewrite lookup_app_r by (rewrite length_take; lia). rewrite length_take, Nat.min_l by lia.
    case_decide as Hd.
    + by rewrite lookup_app_l by lia.
    + rewrite lookup_app_r, lookup_drop by lia. f_equal. lia.
Qed.

Lemma bytes_at_patch_same buf p bs : 0 <= p -> p + Z.of_nat (length bs) <= Z.of_nat (length buf) ->
  bytes_at (patch buf p bs) p bs.
Proof.
  intros Hp Hl. apply bytes_at_lookup. rewrite length_patch by done. split_and!; [done..|].
  intros i b Hi. rewrite patch_lookup by done. pose proof (lookup_lt_Some _ _ _ Hi).
  rewrite decide_True by lia. rewrite <- Hi. f_equal. lia.
Qed.

Lemma bytes_at_patch_other buf p bs q cs :
  0 <= p -> p + Z.of_nat (length bs) <= Z.of_nat (length buf) ->
  p + Z.of_nat (length bs) <= q \/ q + Z.of_nat (length cs) <= p ->
  bytes_at buf q cs -> bytes_at (patch buf p bs) q cs.
Proof.
  intros Hp Hl Hd Hq. apply bytes_at_lookup in Hq as (Hq & Hlq & E). apply bytes_at_lookup.
  rewrite length_patch by done. split_and!; [done..|]. intros i b Hi.
  rewrite patch_lookup by done. pose proof (lookup_lt_Some _ _ _ Hi).
  rewrite decide_False by lia. by apply E.
Qed.

Lemma bytes_at_app buf p bs more : bytes_at buf p bs -> bytes_at (buf ++ more) p bs.
Proof.
  intros (Hp & Hl & E)%bytes_at_lookup. apply bytes_at_lookup. rewrite length_app.
  split_and!; [done | lia |]. intros i b Hi. apply lookup_app_l_Some. by apply E.
Qed.

Lemma bytes_at_end buf bs : bytes_at (buf ++ bs) (Z.of_nat (length buf)) bs.
Proof.
  apply bytes_at_lookup. rewrite length_app. split_and!; [lia | lia |]. intros i b Hi.
  rewrite Nat2Z.id, lookup_app_r by lia. rewrite <- Hi. f_equal. lia.
Qed.

(** A run of bytes splits. *)
Lemma bytes_at_split buf p bs cs : bytes_at buf p (bs ++ cs) <->
  bytes_at buf p bs /\ bytes_at buf (p + Z.of_nat (length bs)) cs.
Proof.
  rewrite !bytes_at_lookup, length_app. split.
  - intros (Hp & Hl & E). split_and!; [lia | lia | | lia | lia |].
    + intros i b Hi. apply E. by apply lookup_app_l_Some.
    + intros i b Hi. replace (Z.to_nat (p + Z.of_nat (length bs)) + i)%nat
        with (Z.to_nat p + (length bs + i))%nat by lia.
      apply E. rewrite lookup_app_r by lia. rewrite <- Hi. f_equal. lia.
  - intros ((Hp & Hl & E1) & (_ & Hl2 & E2)). split_and!; [lia | lia |].
    intros i b [Hi|[Hge Hi]]%lookup_app_Some; [by apply E1|]. apply E2 in Hi. rewrite <- Hi.
    f_equal. lia.
Qed.

Lemma patch_patch buf p bs cs : 0 <= p ->
  p + Z.of_nat (length (bs ++ cs)) <= Z.of_nat (length buf) ->
  patch (patch buf p bs) (p + Z.of_nat (length bs)) cs = patch buf p (bs ++ cs).
Proof.
  intros Hp Hl. rewrite length_app in Hl. apply list_eq. intros i.
  rewrite !patch_lookup by (rewrite ?length_patch, ?length_app; lia). rewrite length_app.
  destruct (decide (Z.to_nat p <= i < Z.to_nat p + length bs)%nat).
  - rewrite decide_False, decide_True by lia. by rewrite lookup_app_l by lia.
  - case_decide; [|by rewrite decide_False by lia].
    rewrite decide_True by lia. rewrite lookup_app_r by lia. f_equal. lia.
Qed.

(** ** Reads and writes of the assembler *)

Section Access.
Context `{Target}.

Lemma Load_word n p w s : bytes_at (buffer_ s) p (le_bytes n w) ->
  0 <= w < 256 ^ Z.of_nat n -> Load n p s = Ok (w, s).
Proof.
  intros (Hp & Hl & E) Hw. rewrite length_le_bytes in *. unfold Load, in_buffer, Position.
  rewrite (proj2 (Z.leb_le 0 p)), (proj2 (Z.leb_le p _)) by lia. cbn [andb].
  by rewrite E, le_value_bytes, Z.mod_small.
Qed.

Lemma Store_patch n p v s : 0 <= p -> p + Z.of_nat n <= Z.of_nat (length (buffer_ s)) ->
  Store n p v s = Ok (tt, with_buffer s (patch (buffer_ s) p (le_bytes n v))).
Proof.
  intros Hp Hl. unfold Store, in_buffer, Position.
  rewrite (proj2 (Z.leb_le 0 p)), (proj2 (Z.leb_le p _)) by lia. cbn [andb].
  unfold patch. by rewrite length_le_bytes.
Qed.

Lemma Read32_word p w s : bytes_at (buffer_ s) p (le_bytes 4 w) -> 0 <= w < 2 ^ 32 ->
  Read32 p s = Ok (w, s).
Proof. apply Load_word. Qed.

Lemma Read16_word p w s : bytes_at (buffer_ s) p (le_bytes 2 w) -> 0 <= w < 2 ^ 16 ->
  Read16 p s = Ok (w, s).
Proof. apply Load_word. Qed.

Lemma Write32_patch p w s : 0 <= w < 2 ^ 32 -> 0 <= p ->
  p + 4 <= Z.of_nat (length (buffer_ s)) ->
  Write32 p w s = Ok (tt, with_buffer s (patch (buffer_ s) p (le_bytes 4 w))).
Proof.
  intros Hw Hp Hl. unfold Write32, uint32. rewrite (uwrap_small 32 eq_refl) by done.
  by apply Store_patch.
Qed.

Lemma Write16_patch p w s : 0 <= w < 2 ^ 16 -> 0 <= p ->
  p + 2 <= Z.of_nat (length (buffer_ s)) ->
  Write16 p w s = Ok (tt, with_buffer s (patch (buffer_ s) p (le_bytes 2 w))).
Proof.
  intros Hw Hp Hl. unfold Write16, uint16. rewrite (uwrap_small 16 eq_refl) by done.
  by apply Store_patch.
Qed.
End Access.

(** ** Branches without their offset *)

Inductive shape :=
| ShB (rs1 rs2 f3 : Z)
| ShJ (rd : Z)
| ShCB (hi rs1p : Z)
| ShCJ (hi : Z)
| ShFar.

Definition shape_class (sh : shape) : branch_class :=
  match sh with
  | ShB _ _ _ => br_b | ShJ _ => br_j | ShCB _ _ => br_cb | ShCJ _ => br_cj | ShFar => br_far
  end.

Definition shape_wf (sh : shape) : Prop :=
  match sh with
  | ShB rs1 rs2 f3 => 0 <= rs1 < 32 /\ 0 <= rs2 < 32 /\ In f3 branch_functs
  | ShJ rd => 0 <= rd < 32
  | ShCB hi rs1p => (hi = 6 \/ hi = 7) /\ IsRegPrime rs1p = true
  | ShCJ hi => hi = 5 \/ hi = 1
  | ShFar => True
  end.

Definition shape_size (sh : shape) : Z :=
  match sh with ShB _ _ _ | ShJ _ => 4 | ShCB _ _ | ShCJ _ => 2 | ShFar => 8 end.

Section Shapes.
Context `{Target} `{HostFloat} `{Host}.

Definition shape_bytes (sh : shape) (offset : Z) : list Z :=
  match sh with
  | ShB rs1 rs2 f3 => le_bytes 4 (Bword offset rs2 rs1 f3 Opcode.BRANCH)
  | ShJ rd => le_bytes 4 (Jword offset rd Opcode.JAL)
  | ShCB hi rs1p => le_bytes 2 (CBword hi 1 offset rs1p)
  | ShCJ hi => le_bytes 2 (CJword hi 1 offset)
  | ShFar => le_bytes 4 (Uword (split_hi offset) FAR_TMP Opcode.AUIPC) ++
             le_bytes 4 (Iword (split_lo offset) FAR_TMP Funct3.F3_0 ZR Opcode.JALR)
  end.

(** The offsets a branch can hold. *)
Definition fits (sh : shape) (offset : Z) : bool :=
  match sh with
  | ShB _ _ _ => IsBTypeImm offset
  | ShJ _ => IsJTypeImm offset
  | ShCB _ _ => IsCBImm offset
  | ShCJ _ => IsCJImm offset
  | ShFar => (- 2 ^ 31 <=? offset) && (offset <? 2 ^ 31 - 2 ^ 11)
  end.

Lemma length_shape sh offset : Z.of_nat (length (shape_bytes sh offset)) = shape_size sh.
Proof. destruct sh; cbn [shape_bytes]; rewrite ?length_app, ?length_le_bytes; done. Qed.

(** Overwriting the offset: the old one is returned and only the branch changes. *)
Definition updates (sh : shape) : Prop := forall p old new s,
  bytes_at (buffer_ s) p (shape_bytes sh old) -> fits sh old = true -> fits sh new = true ->
  update_offset (shape_class sh) p new s =
  Ok (old, with_buffer s (patch (buffer_ s) p (shape_bytes sh new))).

Lemma bytes_at_inside buf p sh offset : bytes_at buf p (shape_bytes sh offset) ->
  0 <= p /\ p + shape_size sh <= Z.of_nat (length buf).
Proof. intros (Hp & Hl & _). by rewrite length_shape in Hl. Qed.

(** Run the reads, assertions and encoders of an update. *)
Ltac run_lift := erewrite lift_bind; [|first
  [ apply EncodeReg_ok; wside
  | eapply (EncodeFunct_ok _ _ _ 7); (lia || done)
  | eapply (EncodeFunct_ok _ _ _ 3); (lia || done)
  | apply EncodeRegPrime_ok; done
  | apply EncodeBTypeImm_ok; done
  | apply EncodeJTypeImm_ok; done
  | apply EncodeUTypeImm_ok; done
  | apply EncodeITypeImm_ok; done
  | unfold EncodeCJImm, EncodeCBImm; rewrite ASSERT_bind by done; reflexivity ]].

Ltac open_update Hat Ho Hn Hl :=
  cbn [shape_bytes shape_class fits shape_size update_offset] in Hat, Ho, Hn, Hl |- *.

Lemma update_B rs1 rs2 f3 : 0 <= rs1 < 32 -> 0 <= rs2 < 32 -> In f3 branch_functs ->
  updates (ShB rs1 rs2 f3).
Proof.
  intros H1' H2' H3 p old new s Hat Ho Hn. pose proof (branch_funct_range f3 H3).
  pose proof (bytes_at_inside _ _ _ _ Hat) as [Hp Hl]. open_update Hat Ho Hn Hl.
  unfold UpdateBOffset. unfold mbind at 1, M_bind at 1.
  rewrite (Read32_word p _ s Hat) by (apply Bword_bound; wside).
  rewrite assert_bind by (rewrite Bword_opcode by wside; done).
  rewrite Bword_imm, Hn by wside. cbn [negb].
  rewrite Bword_rs1, Bword_rs2, Bword_funct3, Bword_opcode by wside.
  do 5 run_lift. rewrite (Z.lor_comm _ (_ .| _ .| _ .| _)), !Z.lor_assoc.
  unfold mbind, M_bind. by rewrite Write32_patch by first [apply (Bword_bound new rs2 rs1 f3 Opcode.BRANCH); wside | done].
Qed.

Lemma update_J rd : 0 <= rd < 32 -> updates (ShJ rd).
Proof.
  intros Hd p old new s Hat Ho Hn.
  pose proof (bytes_at_inside _ _ _ _ Hat) as [Hp Hl]. open_update Hat Ho Hn Hl.
  unfold UpdateJOffset. unfold mbind at 1, M_bind at 1.
  rewrite (Read32_word p _ s Hat) by (apply Jword_bound; wside).
  rewrite assert_bind by (rewrite Jword_opcode by wside; done).
  rewrite Jword_imm, Hn by wside. cbn [negb].
  rewrite Jword_rd, Jword_opcode by wside.
  do 3 run_lift. rewrite (Z.lor_comm _ (_ .| _ .| _ .| _)), (Z.lor_assoc _ (rd << 7)).
  unfold mbind, M_bind. by rewrite Write32_patch by first [apply (Jword_bound new rd Opcode.JAL); wside | done].
Qed.

Lemma update_CB hi rs1p : (hi = 6 \/ hi = 7) -> IsRegPrime rs1p = true -> updates (ShCB hi rs1p).
Proof.
  intros Hh Hr p old new s Hat Ho Hn.
  pose proof (bytes_at_inside _ _ _ _ Hat) as [Hp Hl]. open_update Hat Ho Hn Hl.
  destruct (CBword_reads hi 1 old ltac:(lia) ltac:(lia) rs1p Hr Ho) as (Hb & _ & Hop & Hrs & Him).
  destruct (CBword_reads hi 1 new ltac:(lia) ltac:(lia) rs1p Hr Hn) as (Hb' & _).
  unfold UpdateCBOffset. unfold mbind at 1, M_bind at 1.
  rewrite (Read16_word p _ s Hat) by done. rewrite Hop, Hrs, Him, Hn.
  rewrite assert_bind by (by destruct Hh as [-> | ->]). cbn [negb].
  do 2 run_lift. unfold mbind, M_bind. by rewrite Write16_patch by first [exact Hb' | done].
Qed.

Lemma update_CJ hi : (hi = 5 \/ hi = 1) -> updates (ShCJ hi).
Proof.
  intros Hh p old new s Hat Ho Hn.
  pose proof (bytes_at_inside _ _ _ _ Hat) as [Hp Hl]. open_update Hat Ho Hn Hl.
  destruct (CJword_reads hi 1 old ltac:(lia) ltac:(lia) Ho) as (Hb & _ & Hop & Him).
  destruct (CJword_reads hi 1 new ltac:(lia) ltac:(lia) Hn) as (Hb' & _).
  unfold UpdateCJOffset. unfold mbind at 1, M_bind at 1.
  rewrite (Read16_word p _ s Hat) by done. rewrite Hop, Him, Hn.
  rewrite assert_bind by (by destruct Hh as [-> | ->]). cbn [negb].
  run_lift. unfold mbind, M_bind. by rewrite Write16_patch by first [exact Hb' | done].
Qed.

(** The offset of a far jump is the sum of its two parts. *)
Lemma far_offset offset : - 2 ^ 31 <= offset < 2 ^ 31 - 2 ^ 11 ->
  intx (split_hi offset + split_lo offset) = offset.
Proof.
  intros Ho. rewrite split_hi_swrap, split_lo_swrap. pose proof (swrap_bound 12 eq_refl offset).
  destruct (split_rest offset) as [k Hk]. rewrite (swrap_small 32 eq_refl) by lia.
  replace (offset - swrap 12 offset + swrap 12 offset) with offset by lia.
  apply (swrap_small XLEN XLEN_pos). unfold XLEN. destruct TARGET_64; lia.
Qed.

Lemma update_Far : updates ShFar.
Proof.
  intros p old new s Hat Ho Hn.
  pose proof (bytes_at_inside _ _ _ _ Hat) as [Hp Hl]. open_update Hat Ho Hn Hl. to_prop.
  apply bytes_at_split in Hat as [Hat1 Hat2]. rewrite length_le_bytes in Hat2.
  assert (forall x, IsAligned (split_hi x) (1 << 12) = true) as Hal
    by (intros x; apply (aligned_spec _ 12); [done.. | apply split_hi_aligned]).
  assert (IsUTypeImm (split_hi new) = true) as Hu
    by (apply IsUTypeImm_ok; [apply split_hi_range | apply split_hi_aligned]).
  pose proof (IsITypeImm_lo new). pose proof (IsITypeImm_lo old).
  unfold UpdateFarOffset. unfold mbind at 1, M_bind at 1.
  rewrite (Read32_word p _ s Hat1) by (apply Uword_bound; wside).
  rewrite !assert_bind by (rewrite ?Uword_opcode, ?Uword_rd by wside; done).
  unfold mbind at 1, M_bind at 1. rewrite (Read32_word _ _ s Hat2) by (apply Iword_bound; wside).
  rewrite !assert_bind by (rewrite ?Iword_opcode, ?Iword_rd, ?Iword_funct3, ?Iword_rs1 by wside; done).
  rewrite Uword_imm, Iword_imm by first [apply split_hi_range | done | wside].
  rewrite far_offset by lia. cbv zeta. rewrite Hu. cbn [negb]. do 3 run_lift.
  unfold mbind at 1, M_bind at 1.
  rewrite Write32_patch by first [apply (Uword_bound (split_hi new) FAR_TMP Opcode.AUIPC); wside | done | lia].
  do 5 run_lift. unfold mbind at 1, M_bind at 1.
  rewrite Write32_patch by first
    [ apply (Iword_bound (split_lo new) FAR_TMP Funct3.F3_0 ZR Opcode.JALR); wside
    | lia | cbn [buffer_ with_buffer]; rewrite length_patch by (rewrite ?length_le_bytes; lia); lia ].
  cbn [buffer_ with_buffer]. unfold mret, M_ret. do 2 f_equal.
  rewrite <- patch_patch; [by rewrite length_le_bytes | done |].
  rewrite length_app, !length_le_bytes. lia.
Qed.

Lemma shape_updates sh : shape_wf sh -> updates sh.
Proof.
  destruct sh; cbn [shape_wf]; intros Hw; [apply update_B | by apply update_J | apply update_CB
    | by apply update_CJ | apply update_Far]; tauto.
Qed.
End Shapes.
