(* ===== verification/Labels.v ===== *)
(** * Labels

    An unbound label heads five lists of branches threaded through the emitted code: the
    offset of each branch is the distance to the previous branch of its list, and zero in
    the last.  [linked s label ls] is that invariant.  A fresh label satisfies it, emitting
    code and forward branches keeps it, and [Bind] turns it into branches that hold the
    distance to the bound position, changing no other byte. *)
From Stdlib Require Import FunctionalExtensionality.
From S2P Require Import Prelude Utils Constants EncodingFacts Words CWords Memory Float.
From S2P Require Import SimState SimInteger SimFloat Simulator Exec Effects AsmState.
From S2P Require Import MicroAssembler Emission Computes Macros MacroFacts Branches Patching.

(** A branch in the code: its position and shape. *)
Abbreviation entry := (Z * shape)%type.

Definition apart (e f : entry) : Prop :=
  fst e + shape_size (snd e) <= fst f \/ fst f + shape_size (snd f) <= fst e.
Definition separated (l : list entry) : Prop :=
  forall e f, e ∈ l -> f ∈ l -> e <> f -> apart e f.

#[export] Instance shape_eq_dec : EqDecision shape.
Proof. solve_decision. Defined.

Lemma separated_incl l l' : (forall e, e ∈ l -> e ∈ l') -> separated l' -> separated l.
Proof. intros Hi Hs e f He Hf. apply Hs; auto. Qed.

Definition head_of (l : list entry) : Z := match l with [] => -1 | (p, _) :: _ => p end.
Definition link_offset (p : Z) (l : list entry) : Z :=
  match l with [] => 0 | (q, _) :: _ => p - q end.

Section Chains.
Context `{Target} `{HostFloat} `{Host}.

(** The list of one class, from its head. *)
Fixpoint chain (buf : list Z) (c : branch_class) (l : list entry) : Prop :=
  match l with
  | [] => True
  | (p, sh) :: rest =>
      shape_class sh = c /\ shape_wf sh /\ head_of rest < p /\
      fits sh (link_offset p rest) = true /\
      bytes_at buf p (shape_bytes sh (link_offset p rest)) /\ chain buf c rest
  end.

(** All branches of a list redirected to [target]. *)
Definition redirect (buf : list Z) (target : Z) (l : list entry) : list Z :=
  fold_left (fun b '(p, sh) => patch b p (shape_bytes sh (target - p))) l buf.

Definition inside (buf : list Z) (e : entry) : Prop :=
  0 <= fst e /\ fst e + shape_size (snd e) <= Z.of_nat (length buf).

Lemma chain_inside buf c l : chain buf c l -> Forall (inside buf) l.
Proof.
  induction l as [|[p sh] l IH]; cbn [chain]; [constructor|].
  intros (_ & _ & _ & _ & Hb & Hc). constructor; [by eapply bytes_at_inside | auto].
Qed.

(** A chain has at most one branch per position. *)
Lemma chain_length buf c l : chain buf c l -> Z.of_nat (length l) <= head_of l + 1.
Proof.
  induction l as [|[p sh] l IH]; cbn [chain head_of length]; [lia|].
  intros (_ & _ & Hp & _ & Hb & Hc%IH). apply bytes_at_inside in Hb. lia.
Qed.

(** Code that keeps the bytes of the branches keeps the chain. *)
Lemma chain_mono buf buf' c l :
  (forall p sh bs, (p, sh) ∈ l -> Z.of_nat (length bs) = shape_size sh ->
     bytes_at buf p bs -> bytes_at buf' p bs) ->
  chain buf c l -> chain buf' c l.
Proof.
  induction l as [|[p sh] l IH]; cbn [chain]; [done|].
  intros Hm (H1' & H2' & H3 & H4 & H5 & H6). split_and!; [done..| |].
  - eapply Hm; [left | apply length_shape | done].
  - apply IH; [|done]. intros q sh' bs Hq. apply Hm. by right.
Qed.

(** Positions decrease along a chain. *)
Lemma chain_below buf c l : chain buf c l -> forall e, e ∈ l -> fst e <= head_of l.
Proof.
  induction l as [|[p sh] l IH]; cbn [chain head_of]; [by intros _ e ?%elem_of_nil|].
  intros (_ & _ & Hp & _ & _ & Hc) e [->|He]%elem_of_cons; [done|].
  apply (IH Hc) in He. lia.
Qed.

Lemma chain_patch buf c p sh bs l : inside buf (p, sh) -> Z.of_nat (length bs) = shape_size sh ->
  Forall (apart (p, sh)) l -> chain buf c l -> chain (patch buf p bs) c l.
Proof.
  intros [Hp Hl] Hbs Ha. cbn [fst snd] in *. apply chain_mono. intros q sh' cs Hq Hcs.
  rewrite Forall_forall in Ha. apply list_elem_of_In, Ha in Hq. unfold apart in Hq. cbn [fst snd] in Hq.
  apply bytes_at_patch_other; rewrite ?Hbs, ?Hcs; tauto.
Qed.

(** ** Redirected code *)

Lemma inside_patch buf p sh bs e : inside buf (p, sh) -> Z.of_nat (length bs) = shape_size sh ->
  inside buf e -> inside (patch buf p bs) e.
Proof.
  intros [Hp Hl] Hbs. cbn [fst snd] in *. unfold inside. by rewrite length_patch by lia.
Qed.

Lemma redirect_length buf t l : Forall (inside buf) l -> length (redirect buf t l) = length buf.
Proof.
  revert buf. induction l as [|[p sh] l IH]; intros buf; [done|].
  intros [Hi Hl]%Forall_cons_1. unfold redirect in *. cbn [fold_left]. rewrite IH.
  - destruct Hi. apply length_patch; rewrite ?length_shape; done.
  - eapply Forall_impl; [|exact Hl]. intros e. by apply (inside_patch buf p sh); [|apply length_shape].
Qed.

(** A byte outside the branches is unchanged. *)
Lemma redirect_other buf t l i : Forall (inside buf) l ->
  Forall (fun e => Z.of_nat i < fst e \/ fst e + shape_size (snd e) <= Z.of_nat i) l ->
  redirect buf t l !! i = buf !! i.
Proof.
  revert buf. induction l as [|[p sh] l IH]; intros buf; [done|].
  intros [Hi Hl]%Forall_cons_1 [Ho Hol]%Forall_cons_1. unfold redirect in *. cbn [fold_left].
  pose proof (length_shape sh (t - p)) as Hs.
  rewrite IH; [|eapply Forall_impl; [|exact Hl]; intros e; by apply (inside_patch buf p sh) | done].
  destruct Hi as [Hp Hpl]. cbn [fst snd] in *.
  rewrite patch_lookup by lia. by rewrite decide_False by lia.
Qed.

(** A run of bytes apart from the branches is unchanged. *)
Lemma redirect_bytes buf t l p bs : Forall (inside buf) l ->
  Forall (fun e => p + Z.of_nat (length bs) <= fst e \/ fst e + shape_size (snd e) <= p) l ->
  bytes_at buf p bs -> bytes_at (redirect buf t l) p bs.
Proof.
  intros Hi Ho (Hp & Hl & E)%bytes_at_lookup. apply bytes_at_lookup.
  rewrite redirect_length by done. split_and!; [done..|]. intros i b Hb.
  rewrite redirect_other; [by apply E | done |]. pose proof (lookup_lt_Some _ _ _ Hb).
  eapply Forall_impl; [|exact Ho]. intros e He. cbn beta in He. lia.
Qed.

(** Every branch holds the distance to the target. *)
Lemma redirect_branches buf t l : Forall (inside buf) l -> separated l ->
  forall p sh, (p, sh) ∈ l -> bytes_at (redirect buf t l) p (shape_bytes sh (t - p)).
Proof.
  revert buf. induction l as [|[p sh] l IH]; intros buf; [by intros _ _ p sh ?%elem_of_nil|].
  intros [Hi Hl]%Forall_cons_1 Hs q sh' Hq.
  assert (Forall (inside (patch buf p (shape_bytes sh (t - p)))) l) as Hl'.
  { eapply Forall_impl; [|exact Hl]. intros e. by apply (inside_patch buf p sh); [|apply length_shape]. }
  change (redirect buf t ((p, sh) :: l)) with (redirect (patch buf p (shape_bytes sh (t - p))) t l).
  assert (separated l) as Hs' by (eapply separated_incl; [|exact Hs]; intros e He; by right).
  destruct (decide ((q, sh') ∈ l)) as [Hin|Hout]; [by apply IH|].
  apply elem_of_cons in Hq as [[= -> ->]|]; [|done].
  apply redirect_bytes; [done | |destruct Hi; apply bytes_at_patch_same; rewrite ?length_shape; done].
  apply Forall_forall. intros e He%list_elem_of_In. rewrite length_shape.
  assert (apart (p, sh) e) as Ha by (apply Hs; [left | by right | by intros <-]).
  unfold apart in Ha. cbn in Ha. lia.
Qed.

Lemma redirect_app buf t l1 l2 : redirect buf t (l1 ++ l2) = redirect (redirect buf t l1) t l2.
Proof. apply fold_left_app. Qed.
End Chains.

(** ** Binding *)

Section Binding.
Context `{Target} `{HostFloat} `{Host}.

(** Instructions are aligned to two bytes with compressed instructions, to four without. *)
Definition alignment (s : Assembler) : Z := if Supports RV_C s then 2 else 4.
Definition aligned_at (s : Assembler) (p : Z) : Prop := p mod alignment s = 0.

Lemma aligned_IsAligned s p : aligned_at s p -> IsAligned p (if Supports RV_C s then 2 else 4) = true.
Proof.
  unfold aligned_at, alignment. intros Hp.
  destruct (Supports RV_C s); [by apply (aligned_spec p 1 2) | by apply (aligned_spec p 2 4)].
Qed.

Lemma aligned_sub s p q : aligned_at s p -> aligned_at s q -> aligned_at s (p - q).
Proof.
  unfold aligned_at, alignment. intros Hp Hq.
  rewrite Zminus_mod, Hp, Hq. by destruct (Supports RV_C s).
Qed.

(** The branches of [l] can be redirected to [t]. *)
Definition redirectable (s : Assembler) (t : Z) (l : list entry) : Prop :=
  Forall (fun '(p, sh) => aligned_at s p /\ fits sh (t - p) = true) l.

Lemma with_buffer_same s : with_buffer s (buffer_ s) = s.
Proof. by destruct s. Qed.

Lemma bind_loop_chain fuel c t l s : chain (buffer_ s) c l -> separated l ->
  redirectable s t l -> aligned_at s t -> (length l <= fuel)%nat ->
  bind_loop fuel (update_offset c) t (head_of l) s =
  Ok (tt, with_buffer s (redirect (buffer_ s) t l)).
Proof.
  revert fuel s. induction l as [|[p sh] l IH]; intros fuel s Hc Hsep Hr Ht Hf.
  - cbn [head_of redirect fold_left]. rewrite with_buffer_same. by destruct fuel.
  - destruct fuel as [|fuel]; [cbn in Hf; lia|]. cbn [chain] in Hc.
    destruct Hc as (Hcl & Hwf & Hlt & Hfit & Hat & Hc). subst c.
    assert (separated l) as Hsep' by (eapply separated_incl; [|exact Hsep]; intros e He; by right).
    assert (Forall (apart (p, sh)) l) as Ha.
    { apply Forall_forall. intros e He%list_elem_of_In. apply Hsep; [left | by right |].
      intros <-. apply (chain_below _ _ _ Hc) in He. cbn in He. lia. }
    apply Forall_cons_1 in Hr as [[Hal Hfit'] Hr].
    pose proof (bytes_at_inside _ _ _ _ Hat) as [Hp Hpl].
    cbn [bind_loop head_of]. rewrite (proj2 (Z.ltb_ge p 0)) by lia.
    rewrite get_bind, !assert_bind by (apply aligned_IsAligned; auto using aligned_sub).
    unfold mbind at 1, M_bind at 1.
    rewrite (shape_updates sh Hwf p (link_offset p l) (t - p) s) by done.
    change (redirect (buffer_ s) t ((p, sh) :: l))
      with (redirect (patch (buffer_ s) p (shape_bytes sh (t - p))) t l).
    destruct l as [|[q sh'] l]; [done|]. cbn [link_offset head_of] in *.
    rewrite (proj2 (Z.eqb_neq (p - q) 0)) by lia. replace (p - (p - q)) with q by lia.
    rewrite (IH fuel (with_buffer s (patch (buffer_ s) p (shape_bytes sh (t - p))))); [done | | done..|].
    + by eapply (chain_patch _ _ _ sh); [| apply length_shape | |].
    + cbn [length] in Hf |- *. lia.
Qed.

(** The state after one list was processed. *)
Definition resolved (s : Assembler) (c : branch_class) (label : nat) (t : Z) (l : list entry) : Assembler :=
  with_label (with_buffer s (redirect (buffer_ s) t l)) label
    (set_unresolved c (labels_ s label) (-1)).

Lemma BIND_chain c label t l s : unresolved c (labels_ s label) = head_of l ->
  chain (buffer_ s) c l -> separated l -> redirectable s t l -> aligned_at s t ->
  BIND c label t s = Ok (tt, resolved s c label t l).
Proof.
  intros Hh Hc Hsep Hr Ht. unfold BIND. rewrite !get_bind, Hh.
  unfold mbind, M_bind. rewrite bind_loop_chain; [done.. |].
  pose proof (chain_length _ _ _ Hc). pose proof (chain_inside _ _ _ Hc) as Hi.
  destruct l as [|[p sh] l]; [cbn; lia|]. apply Forall_cons_1 in Hi as [[? Hi] _]. cbn in *.
  destruct sh; cbn in Hi; lia.
Qed.

(** The five lists, in the order [Bind] visits them. *)
Definition all_branches (ls : branch_class -> list entry) : list entry :=
  ls br_cb ++ ls br_cj ++ ls br_b ++ ls br_j ++ ls br_far.

Record linked (s : Assembler) (label : nat) (ls : branch_class -> list entry) : Prop := {
  linked_unbound : position_ (labels_ s label) = -1;
  linked_head : forall c, unresolved c (labels_ s label) = head_of (ls c);
  linked_chain : forall c, chain (buffer_ s) c (ls c);
  linked_separated : separated (all_branches ls);
  linked_aligned : Forall (fun e => aligned_at s (fst e)) (all_branches ls);
  linked_position : aligned_at s (Position s);
  linked_size : Position s < 2 ^ 31
}.

Lemma in_all_branches ls c e : e ∈ ls c -> e ∈ all_branches ls.
Proof. unfold all_branches. rewrite !elem_of_app. destruct c; tauto. Qed.

Definition upd (ls : branch_class -> list entry) (c : branch_class) (l : list entry) :=
  fun c' => if decide (c' = c) then l else ls c'.

Lemma all_branches_spec ls e : e ∈ all_branches ls <-> exists c, e ∈ ls c.
Proof.
  unfold all_branches. rewrite !elem_of_app. split; [|intros [[] He]; tauto].
  intros [|[|[|[|]]]]; eauto.
Qed.

Lemma linked_inside s label ls c : linked s label ls -> Forall (inside (buffer_ s)) (ls c).
Proof. intros L. eapply chain_inside, L. Qed.

Lemma chain_class buf c l e : chain buf c l -> e ∈ l -> shape_class (snd e) = c.
Proof.
  induction l as [|[p sh] l IH]; cbn [chain]; [by intros _ ?%elem_of_nil|].
  intros (Hc & _ & _ & _ & _ & Hl) [->|He]%elem_of_cons; auto.
Qed.

(** Redirecting one list leaves the others linked. *)
Lemma linked_resolve s label ls c t : linked s label ls ->
  linked (resolved s c label t (ls c)) label (upd ls c []).
Proof.
  intros L. assert (forall e, e ∈ all_branches (upd ls c []) -> e ∈ all_branches ls) as Hsub.
  { intros e [c' He]%all_branches_spec. apply all_branches_spec. unfold upd in He.
    case_decide; [by apply elem_of_nil in He | eauto]. }
  assert (Position (resolved s c label t (ls c)) = Position s) as Hpos.
  { unfold Position, resolved. cbn. by rewrite redirect_length by by eapply linked_inside. }
  split; rewrite ?Hpos; [| | | | | apply L..].
  - cbn. rewrite Nat.eqb_refl. apply L.
  - intros c'. cbn. rewrite Nat.eqb_refl. pose proof (linked_head _ _ _ L c') as Hh.
    unfold upd. case_decide as Hc; [subst; by destruct c | rewrite <- Hh; by destruct c, c'].
  - intros c'. cbn. unfold upd. case_decide as Hc; [done|].
    eapply chain_mono; [|apply L]. intros p sh bs Hp Hbs Hat.
    apply redirect_bytes; [by eapply linked_inside | | done].
    apply Forall_forall. intros e He%list_elem_of_In. rewrite Hbs.
    assert (apart e (p, sh)) as Ha.
    { apply (linked_separated _ _ _ L); [by eapply in_all_branches.. |]. intros ->.
      apply (chain_class _ _ _ _ (linked_chain _ _ _ L c)) in He.
      apply (chain_class _ _ _ _ (linked_chain _ _ _ L c')) in Hp. congruence. }
    unfold apart in Ha. cbn in Ha. lia.
  - eapply separated_incl; [exact Hsub | apply L].
  - apply Forall_forall. intros e He%list_elem_of_In%Hsub%list_elem_of_In.
    pose proof (linked_aligned _ _ _ L) as Hal. rewrite Forall_forall in Hal. by apply Hal.
Qed.

Lemma BIND_linked s label ls c t : linked s label ls -> redirectable s t (ls c) ->
  aligned_at s t -> BIND c label t s = Ok (tt, resolved s c label t (ls c)).
Proof.
  intros L Hr Ht. apply BIND_chain; [apply L | apply L | | done | done].
  eapply separated_incl; [|apply L]. intros e. apply in_all_branches.
Qed.

(** The state [Bind] leaves: every branch redirected and the label bound. *)
Definition bound_at (t : Z) : Label :=
  {| position_ := t; unresolved_cb_ := -1; unresolved_cj_ := -1; unresolved_b_ := -1;
     unresolved_j_ := -1; unresolved_far_ := -1 |}.
Definition bound_state (s : Assembler) (label : nat) (ls : branch_class -> list entry) : Assembler :=
  with_label (with_buffer s (redirect (buffer_ s) (Position s) (all_branches ls))) label
    (bound_at (Position s)).

Lemma assembler_eq s s' : buffer_ s = buffer_ s' -> (forall i, labels_ s i = labels_ s' i) ->
  extensions_ s = extensions_ s' -> far_branch_level_ s = far_branch_level_ s' ->
  deferred_compare_ s = deferred_compare_ s' -> deferred_left_ s = deferred_left_ s' ->
  deferred_reg_ s = deferred_reg_ s' -> deferred_imm_ s = deferred_imm_ s' -> s = s'.
Proof.
  destruct s, s'; cbn. intros -> Hl -> -> -> -> -> ->. f_equal.
  by apply functional_extensionality.
Qed.

Lemma resolved_label s c label t l i : labels_ (resolved s c label t l) i =
  if (i =? label)%nat then set_unresolved c (labels_ s label) (-1) else labels_ s i.
Proof. done. Qed.

Lemma Bind_linked s label ls : linked s label ls ->
  redirectable s (Position s) (all_branches ls) ->
  Bind label s = Ok (tt, bound_state s label ls).
Proof.
  intros L0 Hr. pose proof (linked_position _ _ _ L0) as Ht. pose proof (linked_size _ _ _ L0) as Hsz.
  set (t := Position s) in *. unfold Bind. rewrite get_bind.
  assert (label_bound label s = false) as Hb
    by (unfold label_bound, IsBound; by rewrite (linked_unbound _ _ _ L0)).
  rewrite assert_bind by by rewrite Hb. rewrite get_bind. fold t.
  unfold redirectable, all_branches in Hr. rewrite !Forall_app in Hr.
  destruct Hr as (R1 & R2 & R3 & R4 & R5).
  pose proof (linked_resolve s label ls br_cb t L0) as L1.
  pose proof (linked_resolve _ label _ br_cj t L1) as L2.
  pose proof (linked_resolve _ label _ br_b t L2) as L3.
  pose proof (linked_resolve _ label _ br_j t L3) as L4.
  pose proof (linked_resolve _ label _ br_far t L4) as L5.
  do 5 (unfold mbind at 1, M_bind at 1; erewrite BIND_linked by eassumption).
  pose proof (linked_unbound _ _ _ L5) as U5. pose proof (linked_head _ _ _ L5) as H5.
  match type of L5 with linked ?x _ _ => set (s5 := x) in * end.
  assert (labels_ s5 label = Label_new) as E5.
  { pose proof (H5 br_cb). pose proof (H5 br_cj). pose proof (H5 br_b). pose proof (H5 br_j).
    pose proof (H5 br_far). destruct (labels_ s5 label); cbn in *. by subst. }
  assert (0 <= t) by (unfold t, Position; lia).
  unfold BindTo. rewrite E5. unfold Label_BindTo. rewrite !ASSERT_bind by done. cbv zeta.
  unfold int32. rewrite (swrap_small 32 eq_refl) by lia.
  rewrite ASSERT_bind by (apply negb_true_iff, Z.eqb_neq; cbn; lia). do 2 f_equal.
  apply assembler_eq; [| |reflexivity..].
  - unfold bound_state, all_branches. cbn [buffer_ with_label with_buffer].
    rewrite !redirect_app. reflexivity.
  - intros i. unfold bound_state. cbn [labels_ with_label with_buffer].
    destruct (i =? label)%nat eqn:Ei; [done|].
    unfold s5. by rewrite !resolved_label, Ei.
Qed.
End Binding.

(** ** Linking *)

Section Linking.
Context `{Target} `{HostFloat} `{Host}.

(** A fresh label, and emitted code. *)
Lemma linked_new s label : labels_ s label = Label_new -> aligned_at s (Position s) ->
  Position s < 2 ^ 31 -> linked s label (fun _ => []).
Proof.
  intros Hl Ha Hs. split; rewrite ?Hl; try done.
  - intros c. by destruct c.
  - by intros e f ?%elem_of_nil.
Qed.

Lemma linked_append s label ls code : linked s label ls ->
  aligned_at s (Z.of_nat (length code)) -> Position s + Z.of_nat (length code) < 2 ^ 31 ->
  linked (append s code) label ls.
Proof.
  intros L Ha Hs. pose proof (linked_position _ _ _ L) as Hp.
  split; rewrite ?Position_append; [apply L | apply L | | apply L | apply L | | done].
  - intros c. eapply chain_mono; [|apply L]. intros p sh bs _ _. apply bytes_at_app.
  - unfold aligned_at in *. change (alignment (append s code)) with (alignment s) in *.
    rewrite Z.add_mod, Hp, Ha by (unfold alignment; destruct (Supports RV_C s); lia).
    unfold alignment. by destruct (Supports RV_C s).
Qed.

Lemma set_unresolved_same c l v : unresolved c (set_unresolved c l v) = v.
Proof. by destruct c. Qed.
Lemma set_unresolved_other c c' l v : c' <> c ->
  unresolved c' (set_unresolved c l v) = unresolved c' l.
Proof. by destruct c, c'. Qed.

(** Branches lie before the end of the code. *)
Lemma linked_before s label ls e : linked s label ls -> e ∈ all_branches ls ->
  0 <= fst e /\ fst e + shape_size (snd e) <= Position s.
Proof.
  intros L [c He]%all_branches_spec. pose proof (linked_inside s label ls c L) as Hi.
  rewrite Forall_forall in Hi. by apply list_elem_of_In, Hi in He.
Qed.

Lemma shape_size_pos sh : 0 < shape_size sh.
Proof. by destruct sh. Qed.

Lemma head_before s label ls c : linked s label ls ->
  (ls c = [] /\ head_of (ls c) = -1) \/ 0 <= head_of (ls c) < Position s.
Proof.
  intros L. destruct (ls c) as [|[p sh] l] eqn:E; cbn [head_of]; [auto|]. right.
  destruct (linked_before s label ls (p, sh) L) as [Hp Hl].
  { apply (in_all_branches ls c). rewrite E. left. }
  cbn in *. pose proof (shape_size_pos sh). lia.
Qed.

Definition relabel (s : Assembler) (label : nat) (c : branch_class) : Assembler :=
  with_label s label (set_unresolved c (labels_ s label) (Position s)).

Lemma link_linked s label ls c : linked s label ls ->
  link c label s = Ok (link_offset (Position s) (ls c), relabel s label c).
Proof.
  intros L. pose proof (linked_size _ _ _ L). assert (0 <= Position s) by (unfold Position; lia).
  pose proof (head_before s label ls c L) as Hh. pose proof (linked_head _ _ _ L c) as Eh.
  assert (ls c <> [] -> 0 <= head_of (ls c)) by (destruct Hh as [[? _]|[? _]]; done).
  unfold link, Label_link, int32. cbv zeta. rewrite Eh, !(swrap_small 32 eq_refl) by lia.
  rewrite ASSERT_bind by (apply Z.ltb_lt; lia).
  destruct (ls c) as [|[p sh] l]; cbn [head_of link_offset] in *; [done|].
  assert (0 <= p) by auto. assert (p < Position s) by (destruct Hh as [[? _]|]; [done | lia]).
  rewrite (proj2 (Z.eqb_neq p (-1))), !(swrap_small 32 eq_refl (Position s - p)) by lia.
  rewrite ASSERT_bind by (apply Z.ltb_lt; lia). done.
Qed.

(** The label and the code after a forward branch. *)
Definition branched (s : Assembler) (label : nat) (ls : branch_class -> list entry) (sh : shape)
    : Assembler :=
  append (relabel s label (shape_class sh))
    (shape_bytes sh (link_offset (Position s) (ls (shape_class sh)))).

Definition with_branch (s : Assembler) (ls : branch_class -> list entry) (sh : shape) :=
  upd ls (shape_class sh) ((Position s, sh) :: ls (shape_class sh)).

Lemma in_with_branch s ls sh e :
  e ∈ all_branches (with_branch s ls sh) <-> e = (Position s, sh) \/ e ∈ all_branches ls.
Proof.
  rewrite !all_branches_spec. unfold with_branch, upd. set (c := shape_class sh). split.
  - intros [c' He]. case_decide; [subst c'|eauto]. apply elem_of_cons in He as [->|]; eauto.
  - intros [->|[c' He]]; [exists c | exists c']; case_decide; subst; try done; [by left | by right].
Qed.

Lemma linked_branched s label ls sh : linked s label ls -> shape_wf sh ->
  fits sh (link_offset (Position s) (ls (shape_class sh))) = true ->
  aligned_at s (shape_size sh) -> Position s + shape_size sh < 2 ^ 31 ->
  linked (branched s label ls sh) label (with_branch s ls sh).
Proof.
  intros L Hwf Hfit Ha Hs. set (c := shape_class sh) in *. set (o := link_offset (Position s) (ls c)) in *.
  pose proof (length_shape sh o) as Hlen.
  assert (linked (append s (shape_bytes sh o)) label ls) as LA
    by (apply linked_append; rewrite ?Hlen; done).
  pose proof (in_with_branch s ls sh) as Hin.
  split; cbn [labels_ branched append with_buffer relabel with_label]; rewrite ?Nat.eqb_refl;
    [apply L | | | | | apply LA | apply LA].
  - intros c'. fold c. unfold with_branch, upd. fold c.
    case_decide as Hc; [subst; apply set_unresolved_same | rewrite set_unresolved_other by done; apply L].
  - intros c'. change (chain (buffer_ (append s (shape_bytes sh o))) c' (with_branch s ls sh c')).
    unfold with_branch, upd. fold c. case_decide as Hc; [subst c'|apply LA].
    cbn [chain]. split_and!; [done | done | | done | apply bytes_at_end | apply LA].
    assert (0 <= Position s) by (unfold Position; lia).
    destruct (head_before s label ls c L) as [[_ Hh]|]; fold c; lia.
  - intros e f [->|He]%Hin [->|Hf]%Hin Hn; [done | | |by apply (linked_separated _ _ _ L)];
      unfold apart; cbn [fst snd].
    + right. by apply (linked_before s label ls f L).
    + left. by apply (linked_before s label ls e L).
  - apply Forall_forall. intros e [->|He]%list_elem_of_In%Hin; [apply L|].
    pose proof (linked_aligned _ _ _ L) as Hal. rewrite Forall_forall in Hal.
    by apply Hal, list_elem_of_In.
Qed.

(** The emitters of forward branches. *)
Lemma unbound_get s label ls : linked s label ls -> label_bound label s = false.
Proof. intros L. unfold label_bound, IsBound. by rewrite (linked_unbound _ _ _ L). Qed.

Lemma link_bind {B} s label ls c (k : Z -> asm B) : linked s label ls ->
  (link c label ≫= k) s = k (link_offset (Position s) (ls c)) (relabel s label c).
Proof. intros L. unfold mbind, M_bind. by rewrite (link_linked s label ls c L). Qed.

Section Emitters.
Context (s : Assembler) (label : nat) (ls : branch_class -> list entry) (L : linked s label ls).
#[local] Set Default Proof Using "L".

(** A conditional branch in one instruction. *)
Lemma EmitBranch_near rs1 rs2 f3 distance : shape_wf (ShB rs1 rs2 f3) ->
  distance = kNearJump \/ far_branch_level_ s = 0 ->
  EmitBranch rs1 rs2 label f3 distance s =
  if IsBTypeImm (link_offset (Position s) (ls br_b)) then
    Ok (tt, branched s label ls (ShB rs1 rs2 f3))
  else Err (if is_near distance then FatalError else BranchOffsetError).
Proof.
  intros (H1' & H2' & H3) Hd. pose proof (branch_funct_range f3 H3).
  unfold EmitBranch. rewrite get_bind, (unbound_get s label ls L), get_bind.
  destruct (is_near distance) eqn:En.
  - rewrite (link_bind s label ls) by done.
    destruct (IsBTypeImm (link_offset (Position s) (ls br_b))) eqn:Ei; [|done]. cbn [negb].
    by apply EmitBType_emits.
  - destruct Hd as [->|Hlevel]; [done|]. rewrite Hlevel. cbn [Z.eqb].
    rewrite (link_bind s label ls) by done.
    destruct (IsBTypeImm (link_offset (Position s) (ls br_b))) eqn:Ei; [|done]. cbn [negb].
    by apply EmitBType_emits.
Qed.

Lemma EmitJump_near rd op distance : shape_wf (ShJ rd) ->
  distance = kNearJump \/ far_branch_level_ s < 2 ->
  EmitJump rd label op distance s =
  if IsJTypeImm (link_offset (Position s) (ls br_j)) then
    Ok (tt, branched s label ls (ShJ rd))
  else Err (if is_near distance then FatalError else BranchOffsetError).
Proof.
  intros Hr Hd. unfold EmitJump. rewrite get_bind, (unbound_get s label ls L), get_bind.
  destruct (is_near distance) eqn:En.
  - rewrite (link_bind s label ls) by done.
    destruct (IsJTypeImm (link_offset (Position s) (ls br_j))) eqn:Ei; [|done]. cbn [negb].
    by apply EmitJType_emits.
  - destruct Hd as [->|Hlevel]; [done|]. rewrite (proj2 (Z.ltb_lt _ _) Hlevel).
    rewrite (link_bind s label ls) by done.
    destruct (IsJTypeImm (link_offset (Position s) (ls br_j))) eqn:Ei; [|done]. cbn [negb].
    by apply EmitJType_emits.
Qed.

Lemma EmitJump_far rd op : 2 <= far_branch_level_ s ->
  EmitJump rd label op kFarJump s = Ok (tt, branched s label ls ShFar).
Proof.
  intros Hl. unfold EmitJump. rewrite get_bind, (unbound_get s label ls L), get_bind.
  cbn [is_near]. rewrite (proj2 (Z.ltb_ge _ _) Hl), (link_bind s label ls) by done.
  apply EmitFarJump_emits.
Qed.

Lemma EmitCBranch_forward hi rs1p : shape_wf (ShCB hi rs1p) ->
  EmitCBranch rs1p label (cop hi 1) s =
  if IsCBImm (link_offset (Position s) (ls br_cb)) then
    Ok (tt, branched s label ls (ShCB hi rs1p))
  else Err FatalError.
Proof.
  intros [Hh Hr]. unfold EmitCBranch. rewrite get_bind, (unbound_get s label ls L).
  rewrite (link_bind s label ls) by done.
  destruct (IsCBImm (link_offset (Position s) (ls br_cb))) eqn:Ei; [|done]. cbn [negb].
  destruct (CBword_reads hi 1 _ ltac:(lia) ltac:(lia) rs1p Hr Ei) as (Hb & _).
  rewrite (lift_bind _ (prime rs1p << 7)) by by apply EncodeRegPrime_ok.
  erewrite lift_bind by (unfold EncodeCBImm; rewrite ASSERT_bind by done; reflexivity).
  by apply Emit16_word.
Qed.

Lemma EmitCJump_forward hi : shape_wf (ShCJ hi) ->
  EmitCJump label (cop hi 1) s =
  if IsCJImm (link_offset (Position s) (ls br_cj)) then
    Ok (tt, branched s label ls (ShCJ hi))
  else Err FatalError.
Proof.
  intros Hh. unfold EmitCJump. rewrite get_bind, (unbound_get s label ls L).
  rewrite (link_bind s label ls) by done.
  destruct (IsCJImm (link_offset (Position s) (ls br_cj))) eqn:Ei; [|done]. cbn [negb].
  destruct (CJword_reads hi 1 _ ltac:(cbn in Hh; lia) ltac:(lia) Ei) as (Hb & _).
  erewrite lift_bind by (unfold EncodeCJImm; rewrite ASSERT_bind by done; reflexivity).
  by apply Emit16_word.
Qed.

(** A conditional branch over a longer jump. *)
Lemma EmitLongBranch_runs len rs1 rs2 f3 g jump s2 : InvertFunct3 f3 = Ok g -> 0 <= g < 8 ->
  0 <= rs1 < 32 -> 0 <= rs2 < 32 -> IsBTypeImm len = true ->
  jump (append s (le_bytes 4 (Bword len rs2 rs1 g Opcode.BRANCH))) = Ok (tt, s2) ->
  Position s2 - Position s = len ->
  EmitLongBranch len rs1 rs2 f3 jump s = Ok (tt, s2).
Proof.
  clear L ls. intros Hg Hr H1' H2' Hl Hj Hlen. unfold EmitLongBranch.
  rewrite get_bind, (lift_bind _ g) by done.
  unfold mbind at 1, M_bind at 1. rewrite EmitBType_emits by wside.
  unfold mbind at 1, M_bind at 1. rewrite Hj, get_bind.
  unfold assert, lift. by rewrite ASSERT_true by by apply Z.eqb_eq.
Qed.

(** The state after the inverted branch over [len] bytes. *)
Definition skipped (len rs1 rs2 g : Z) : Assembler :=
  append s (le_bytes 4 (Bword len rs2 rs1 g Opcode.BRANCH)).

Lemma EmitBranch_long rs1 rs2 f3 g : shape_wf (ShB rs1 rs2 f3) -> InvertFunct3 f3 = Ok g ->
  linked (skipped 8 rs1 rs2 g) label ls -> far_branch_level_ s = 1 ->
  IsJTypeImm (link_offset (Position s + 4) (ls br_j)) = true ->
  EmitBranch rs1 rs2 label f3 kFarJump s =
  Ok (tt, branched (skipped 8 rs1 rs2 g) label ls (ShJ ZR)).
Proof.
  intros (H1' & H2' & H3) Hg L1 Hlevel Hfit. destruct (InvertFunct3_spec f3 H3) as (g' & Hg' & Hgi & _).
  rewrite Hg in Hg'. injection Hg' as <-. pose proof (branch_funct_range g Hgi).
  assert (Position (skipped 8 rs1 rs2 g) = Position s + 4) as Hp
    by (unfold skipped; by rewrite Position_append, length_le_bytes).
  unfold EmitBranch. rewrite get_bind, (unbound_get s label ls L), get_bind, Hlevel. cbn [is_near Z.eqb].
  eapply EmitLongBranch_runs; [done.. | by apply IsBTypeImm_small | |].
  - fold (skipped 8 rs1 rs2 g). rewrite (link_bind _ label ls _ _ L1), Hp. unfold branched.
    cbn [shape_class]. rewrite Hp. apply EmitJType_emits; wside.
  - unfold branched. rewrite Position_append, length_shape.
    change (Position (relabel (skipped 8 rs1 rs2 g) label (shape_class (ShJ ZR))))
      with (Position (skipped 8 rs1 rs2 g)). rewrite Hp. cbn. lia.
Qed.

Lemma EmitBranch_far rs1 rs2 f3 g : shape_wf (ShB rs1 rs2 f3) -> InvertFunct3 f3 = Ok g ->
  linked (skipped 12 rs1 rs2 g) label ls -> 2 <= far_branch_level_ s ->
  EmitBranch rs1 rs2 label f3 kFarJump s =
  Ok (tt, branched (skipped 12 rs1 rs2 g) label ls ShFar).
Proof.
  intros (H1' & H2' & H3) Hg L1 Hlevel. destruct (InvertFunct3_spec f3 H3) as (g' & Hg' & Hgi & _).
  rewrite Hg in Hg'. injection Hg' as <-. pose proof (branch_funct_range g Hgi).
  assert (Position (skipped 12 rs1 rs2 g) = Position s + 4) as Hp
    by (unfold skipped; by rewrite Position_append, length_le_bytes).
  unfold EmitBranch. rewrite get_bind, (unbound_get s label ls L), get_bind. cbn [is_near].
  rewrite (proj2 (Z.eqb_neq (far_branch_level_ s) 0)), (proj2 (Z.eqb_neq (far_branch_level_ s) 1)) by lia.
  eapply EmitLongBranch_runs; [done.. | by apply IsBTypeImm_small | |].
  - fold (skipped 12 rs1 rs2 g). rewrite (link_bind _ label ls _ _ L1). apply EmitFarJump_emits.
  - unfold branched. rewrite Position_append, length_shape.
    change (Position (relabel (skipped 12 rs1 rs2 g) label (shape_class ShFar)))
      with (Position (skipped 12 rs1 rs2 g)). rewrite Hp. cbn. lia.
Qed.
End Emitters.

(** ** What a redirected branch does when it runs *)

Definition shape_cond (sh : shape) (r : regs) : bool :=
  match sh with
  | ShB rs1 rs2 f3 => branch_cond f3 (r rs1) (r rs2)
  | ShCB hi rs1p => if hi =? 6 then r rs1p =? 0 else negb (r rs1p =? 0)
  | _ => true
  end.

(** Jumps that save a return address are excluded. *)
Definition plain (sh : shape) : Prop :=
  match sh with ShJ rd => rd = ZR | ShCJ hi => hi = 5 | _ => True end.

Lemma shape_branches sh offset : shape_wf sh -> plain sh -> fits sh offset = true ->
  branches (shape_bytes sh offset) offset (shape_cond sh) (fun r => r).
Proof.
  destruct sh as [rs1 rs2 f3|rd|hi rs1p|hi|]; cbn [shape_wf plain fits shape_bytes shape_cond]; intros Hw Hp Hf.
  - destruct Hw as (? & ? & ?). by apply Bword_branches.
  - subst rd. by apply Jword_branches.
  - destruct Hw as [Hh Hr].
    destruct (CBword_reads hi 1 offset ltac:(lia) ltac:(lia) rs1p Hr Hf) as (Hb & Hlo & _).
    apply branches_parcel; [done | by rewrite Hlo |]. intros st.
    destruct Hh as [-> | ->]; [by apply interpret_c_beqz | by apply interpret_c_bnez].
  - subst hi. destruct (CJword_reads 5 1 offset ltac:(lia) ltac:(lia) Hf) as (Hb & Hlo & _).
    apply branches_parcel; [done | by rewrite Hlo |]. intros st. by apply interpret_c_j.
  - to_prop. apply far_branches. lia.
Qed.

(** ** Facts shared by the properties *)

Lemma linked_all_inside s label ls : linked s label ls ->
  Forall (inside (buffer_ s)) (all_branches ls).
Proof.
  intros L. apply Forall_forall. intros e He%list_elem_of_In.
  by apply (linked_before s label ls e L).
Qed.

Lemma chain_shape_wf buf c l e : chain buf c l -> e ∈ l -> shape_wf (snd e).
Proof.
  induction l as [|[p sh] l IH]; cbn [chain]; [by intros _ ?%elem_of_nil|].
  intros (_ & Hw & _ & _ & _ & Hl) [->|He]%elem_of_cons; auto.
Qed.

Lemma linked_shape_wf s label ls p sh : linked s label ls -> (p, sh) ∈ all_branches ls -> shape_wf sh.
Proof.
  intros L [c He]%all_branches_spec. by apply (chain_shape_wf _ _ _ _ (linked_chain _ _ _ L c) He).
Qed.

Lemma bytes_at_code_at m A buf p bs : code_at m A buf -> bytes_at buf p bs -> code_at m (A + p) bs.
Proof.
  intros Hc (Hp & _ & Hb)%bytes_at_lookup i b Hi. rewrite <- (Hc _ _ (Hb i b Hi)). f_equal. lia.
Qed.

(** Full words keep the alignment. *)
Lemma aligned_words s k : k mod 4 = 0 -> aligned_at s k.
Proof.
  unfold aligned_at, alignment. intros Hk. destruct (Supports RV_C s); [|done].
  rewrite (Z.div_mod k 4), Hk by lia. replace (4 * (k / 4) + 0) with (2 * (k / 4) * 2) by lia.
  by apply Z.mod_mul.
Qed.

Lemma link_fits_far s label ls : linked s label ls -> Position s < 2 ^ 30 ->
  fits ShFar (link_offset (Position s) (ls br_far)) = true.
Proof.
  intros L Hp. assert (0 <= Position s) by (unfold Position; lia). cbn [fits].
  pose proof (head_before s label ls br_far L) as Hh.
  destruct (ls br_far) as [|[q sh] l]; cbn [link_offset head_of] in *; [done|].
  destruct Hh as [[? _]|?]; [done|]. apply andb_true_iff. split; [apply Z.leb_le | apply Z.ltb_lt]; lia.
Qed.
End Linking.
