(* ===== verification/Forward.v ===== *)
(** * How much code a method emits

    [short k m]: when [m] succeeds it appends at most [k] bytes, a whole number of
    instructions: a multiple of two bytes with compressed instructions and of four without.
    One instruction is at most four bytes; the bounds add up under sequencing. *)
From Stdlib Require Import FunctionalExtensionality.
From S2P Require Import Prelude Utils Constants EncodingFacts Words CWords Memory Float SimState SimInteger.
From S2P Require Import SimFloat Simulator Exec SimFacts Effects AsmState MicroAssembler Emission Computes Macros.
From S2P Require Import ObjectMacros MacroFacts Branches Accesses Offsets FloatAccesses Programs Patching Labels.

(** [C]: only states with compressed instructions are considered. *)
Definition short_in `{Target} {A} (C : bool) (k : Z) (m : asm A) : Prop :=
  forall s a s', (C = true -> Supports RV_C s = true) -> m s = Ok (a, s') ->
  extensions_ s' = extensions_ s /\ Position s <= Position s' <= Position s + k /\
  aligned_at s (Position s' - Position s).
Abbreviation short := (short_in false).

Section Sizes.
Context `{Target} `{HostFloat} `{Host}.

Lemma aligned_zero s : aligned_at s 0.
Proof. unfold aligned_at, alignment. by destruct (Supports RV_C s). Qed.

Lemma aligned_add s p q : aligned_at s p -> aligned_at s q -> aligned_at s (p + q).
Proof.
  unfold aligned_at, alignment. intros Hp Hq.
  rewrite Zplus_mod, Hp, Hq. by destruct (Supports RV_C s).
Qed.

Lemma aligned_extensions s s' p : extensions_ s' = extensions_ s -> aligned_at s' p -> aligned_at s p.
Proof. unfold aligned_at, alignment, Supports. by intros ->. Qed.

Lemma short_pure {A} C k (m : asm A) : 0 <= k -> (forall s a s', m s = Ok (a, s') -> s' = s) -> short_in C k m.
Proof.
  intros Hk Hp s a s' _ ->%Hp. split_and!; [done | lia | lia|].
  rewrite Z.sub_diag. apply aligned_zero.
Qed.

Lemma short_ret {A} C k (a : A) : 0 <= k -> short_in C k (mret a).
Proof. intros Hk. apply short_pure; [done|]. by intros s b s' [= _ <-]. Qed.

Lemma short_get {A} C k (f : Assembler -> A) : 0 <= k -> short_in C k (get f).
Proof. intros Hk. apply short_pure; [done|]. by intros s b s' [= _ <-]. Qed.

Lemma short_lift {A} C k (r : result A) : 0 <= k -> short_in C k (lift r).
Proof.
  intros Hk. apply short_pure; [done|]. intros s b s'. unfold lift. destruct r; [|done].
  by intros [= _ <-].
Qed.

Lemma short_assert C k b : 0 <= k -> short_in C k (assert b).
Proof. apply short_lift. Qed.

Lemma short_fail {A} C k e : short_in C k (fail e : asm A).
Proof. by intros s a s' _ E. Qed.

Lemma short_bind {A B} C k1 k2 (m1 : asm A) (m2 : A -> asm B) :
  short_in C k1 m1 -> (forall a, short_in C k2 (m2 a)) -> short_in C (k1 + k2) (m1 ≫= m2).
Proof.
  intros S1 S2 s b s' Hc E. unfold mbind, M_bind in E.
  destruct (m1 s) as [[a s1]|e] eqn:E1; [|done].
  destruct (S1 s a s1 Hc E1) as (X1 & P1 & A1). unfold Supports in Hc. rewrite <- X1 in Hc.
  destruct (S2 a s1 b s' Hc E) as (X2 & P2 & A2). split_and!; [congruence | lia | lia|].
  replace (Position s' - Position s) with ((Position s1 - Position s) + (Position s' - Position s1)) by lia.
  apply aligned_add; [done | by eapply aligned_extensions].
Qed.

Lemma short_then {A B} C k (m1 : asm A) (m2 : A -> asm B) :
  short_in C 0 m1 -> (forall a, short_in C k (m2 a)) -> short_in C k (m1 ≫= m2).
Proof. intros S1 S2. change k with (0 + k). by apply short_bind. Qed.

(** The test for compressed instructions decides which of the two bounds is needed. *)
Lemma short_compressed {A} C k (m : bool -> asm A) : short_in C k (m false) -> short_in true k (m true) ->
  short_in C k (get (Supports RV_C) ≫= m).
Proof.
  intros S0 S1 s a s' Hc E. rewrite get_bind in E.
  destruct (Supports RV_C s) eqn:Es; [by apply (S1 s a s') | by apply (S0 s a s'); [rewrite Es|]].
Qed.

Lemma short_Emit C k n w : Z.of_nat n <= k ->
  (forall s, (C = true -> Supports RV_C s = true) -> aligned_at s (Z.of_nat n)) -> short_in C k (Emit n w).
Proof.
  intros Hn Ha s a s' Hc E. change (Ok (tt, append s (le_bytes n w)) = Ok (a, s')) in E.
  assert (s' = append s (le_bytes n w)) as -> by congruence.
  rewrite Position_append, length_le_bytes. split_and!; [done | lia | lia |].
  replace (Position s + Z.of_nat n - Position s) with (Z.of_nat n) by lia. by apply Ha.
Qed.

Lemma short_Emit32 C w : short_in C 4 (Emit32 w).
Proof. apply short_Emit; [done|]. intros s _. by apply aligned_words. Qed.

Lemma short_Emit16 w : short_in true 4 (Emit16 w).
Proof.
  apply short_Emit; [done|]. intros s Hc. unfold aligned_at, alignment. by rewrite Hc.
Qed.

Lemma short_any {A} k (m : asm A) : short k m -> short_in true k m.
Proof. intros S s a s' _. by apply S. Qed.

Lemma short_weaken {A} C k k' (m : asm A) : k <= k' -> short_in C k m -> short_in C k' m.
Proof. intros Hk S s a s' Hc E. destruct (S s a s' Hc E) as (? & ? & ?). split_and!; [done | lia | lia | done]. Qed.
End Sizes.

Create HintDb sizes.
#[export] Hint Resolve short_Emit32 short_Emit16 short_ret short_get short_lift short_assert short_fail : sizes.

(** One instruction. *)
Ltac short_instruction :=
  repeat first
    [ solve [eauto 2 with sizes lia]
    | apply short_compressed; cbn [andb]
    | apply short_then; [solve [eauto 2 with sizes lia] | intros ?]
    | match goal with |- context [if ?b then _ else _] => destruct b end ].

Section Instructions.
Context `{Target} `{HostFloat} `{Host}.

Lemma short_supports C e : short_in C 0 (assert_supports e).
Proof. unfold assert_supports. apply short_then; [by apply short_get | intros a; by apply short_assert]. Qed.
#[local] Hint Resolve short_supports : sizes.

Lemma EmitIType_short C imm rs1 f rd o : short_in C 4 (EmitIType imm rs1 f rd o).
Proof. unfold EmitIType. short_instruction. Qed.
Lemma EmitSType_short C imm rs2 rs1 f o : short_in C 4 (EmitSType imm rs2 rs1 f o).
Proof. unfold EmitSType. short_instruction. Qed.
Lemma EmitRType_short C a b c d e f : short_in C 4 (EmitRType a b c d e f).
Proof. unfold EmitRType. short_instruction. Qed.
Lemma EmitRType_shamt_short C a b c d e f : short_in C 4 (EmitRType_shamt a b c d e f).
Proof. unfold EmitRType_shamt. short_instruction. Qed.
#[local] Hint Resolve EmitIType_short EmitSType_short EmitRType_short EmitRType_shamt_short : sizes.

Lemma lbu_short rd a : short 4 (lbu rd a).
Proof. unfold lbu. short_instruction. Qed.
Lemma lhu_short rd a : short 4 (lhu rd a).
Proof. unfold lhu. short_instruction. Qed.
Lemma addi_short rd rs imm : short 4 (addi rd rs imm).
Proof.
  unfold addi, c_li, c_addi, c_addi16sp, c_addi4spn, c_nop, c_mv. short_instruction.
Qed.
Lemma andi_short rd rs imm : short 4 (andi rd rs imm).
Proof. unfold andi, c_andi. short_instruction. Qed.
Lemma srli_short rd rs imm : short 4 (srli rd rs imm).
Proof. unfold srli, c_srli. short_instruction. Qed.
Lemma and_short rd rs rs2 : short 4 (and_ rd rs rs2).
Proof. unfold and_, c_and. short_instruction. Qed.
Lemma lw_short rd a : short 4 (lw rd a).
Proof. unfold lw, c_lwsp, c_lw. short_instruction. Qed.
Lemma ld_short rd a : short 4 (ld rd a).
Proof. unfold ld, c_ldsp, c_ld. short_instruction. Qed.
Lemma sw_short rd a : short 4 (sw rd a).
Proof. unfold sw, c_swsp, c_sw. short_instruction. Qed.
Lemma sd_short rd a : short 4 (sd rd a).
Proof. unfold sd, c_sdsp, c_sd. short_instruction. Qed.
Lemma lx_short rd a : short 4 (lx rd a).
Proof. unfold lx. destruct TARGET_64; [apply ld_short | apply lw_short]. Qed.
Lemma sx_short rd a : short 4 (sx rd a).
Proof. unfold sx. destruct TARGET_64; [apply sd_short | apply sw_short]. Qed.
End Instructions.
#[export] Hint Resolve short_supports lbu_short lhu_short addi_short andi_short srli_short and_short lx_short sx_short : sizes.

(** * Forward branches inside a method

    Methods such as [StoreBarrier] declare a label, branch forward to it and bind it at their
    end.  [fragment k label m P] describes a piece of such a method: [m] emits at most [k]
    bytes which satisfy [P] once the branches in them hold the distance to the place where
    [label] is bound.  For code that performs operations until an exit condition holds, and
    then continues at the label, [P] is [items_code items].  Fragments compose, and
    [bind_fragment] turns a fragment followed by [Bind] into ordinary code.  Near branches
    reach [reach] bytes in every encoding. *)

Inductive item := Do (F : op) | ExitIf (c : regs -> bool).

Definition reach : Z := 120.

Section Items.
Context `{Target} `{HostFloat} `{Host}.

Definition item_ok (i : item) : Prop := match i with Do F => op_ok F | ExitIf _ => True end.

(** The items run from [st] to [st'] and end at the label if [b]. *)
Fixpoint run_items (lo n : Z) (items : list item) (st st' : Simulator) (b : bool) : Prop :=
  match items with
  | [] => st' = st /\ b = false
  | Do F :: items => exists st1, F st = Ok st1 /\ same_bytes (mem_ st) (mem_ st1) lo n /\
                                 run_items lo n items st1 st' b
  | ExitIf c :: items => if c (xregs_ st) then st' = st /\ b = true else run_items lo n items st st' b
  end.

(** Code that performs the items; the label is [delta] bytes after its start. *)
Definition realizes_exits (code : list Z) (delta : Z) (items : list item) : Prop :=
  Forall item_ok items /\
  forall st st' b, sim_wf st -> pc_ st + Z.of_nat (length code) < 2 ^ XLEN ->
  pc_ st + delta < 2 ^ XLEN -> code_at (mem_ st) (pc_ st) code ->
  run_items (pc_ st) (Z.of_nat (length code)) items st st' b ->
  exists n, steps n st = Ok (advance st' n (if b then delta else Z.of_nat (length code)) (xregs_ st')).

Lemma run_items_sub lo n lo' n' items st st' b : lo <= lo' -> lo' + n' <= lo + n ->
  run_items lo n items st st' b -> run_items lo' n' items st st' b.
Proof.
  intros Hl Hn. revert st. induction items as [|[F|c] items IH]; intros st; cbn; [done| |].
  - intros (st1 & HF & Hs & Hr). exists st1. split_and!; [done | by eapply same_bytes_sub | auto].
  - destruct (c (xregs_ st)); auto.
Qed.

Lemma run_items_app lo n i1 i2 st st' b : run_items lo n (i1 ++ i2) st st' b ->
  (run_items lo n i1 st st' true /\ b = true) \/
  (exists st1, run_items lo n i1 st st1 false /\ run_items lo n i2 st1 st' b).
Proof.
  revert st. induction i1 as [|[F|c] i1 IH]; intros st; cbn.
  - intros Hr. right. by exists st.
  - intros (st1 & HF & Hs & [[Hr ->]|(st2 & H1' & H2')]%IH); [left | right].
    + split; [by exists st1 | done].
    + exists st2. split; [by exists st1 | done].
  - destruct (c (xregs_ st)); [|apply IH]. intros [-> ->]. by left.
Qed.

Lemma run_items_keeps lo n items st st' b : Forall item_ok items -> sim_wf st ->
  run_items lo n items st st' b ->
  pc_ st' = pc_ st /\ sim_wf st' /\ same_bytes (mem_ st) (mem_ st') lo n.
Proof.
  intros Hok. revert st. induction Hok as [|[F|c] items HF _ IH]; intros st Hwf; cbn.
  - by intros [-> _].
  - intros (st1 & E & Hs & Hr). destruct (IH st1) as (Hp & Hw & Hm); [by eapply (op_wf F HF) | done |].
    split_and!; [by rewrite Hp; eapply (op_pc F HF) | done | by eapply same_bytes_trans].
  - destruct (c (xregs_ st)); [by intros [-> _] | by apply IH].
Qed.

Lemma run_items_advance lo n items st st' b k len : Forall item_ok items ->
  run_items lo n items st st' b ->
  run_items lo n items (advance st k len (xregs_ st)) (advance st' k len (xregs_ st')) b.
Proof.
  intros Hok. revert st. induction Hok as [|[F|c] items HF _ IH]; intros st; cbn [run_items].
  - by intros [-> ->].
  - intros (st1 & E & Hs & Hr). exists (advance st1 k len (xregs_ st1)).
    rewrite (op_local F HF), with_xregs_same, E. split_and!; [done | done | by apply IH].
  - rewrite advance_xregs. destruct (c (xregs_ st)); [by intros [-> ->] | apply IH].
Qed.

Lemma realizes_exits_nil delta : realizes_exits [] delta [].
Proof.
  split; [constructor|]. intros st st' b Hwf _ _ _ [-> ->]. exists 0%nat. cbn [steps length].
  by rewrite advance_zero.
Qed.

Lemma realizes_exits_app c1 c2 delta i1 i2 : realizes_exits c1 delta i1 ->
  realizes_exits c2 (delta - Z.of_nat (length c1)) i2 ->
  0 <= delta -> realizes_exits (c1 ++ c2) delta (i1 ++ i2).
Proof.
  intros [K1 E1] [K2 E2] Hd. split; [by apply Forall_app|].
  intros st st' b Hwf Hpc Hpd Hc Hr. rewrite length_app, Nat2Z.inj_add in *.
  pose proof Hc as Hc'. apply code_at_app in Hc' as [Hc1 _].
  apply run_items_app in Hr as [[R1 ->]|(st1 & R1 & R2)].
  - destruct (E1 st st' true) as [n Hn]; [done | lia | done | done | eapply run_items_sub; [| |exact R1]; lia|].
    by exists n.
  - destruct (run_items_keeps _ _ _ _ _ _ K1 Hwf R1) as (Hp1 & Hwf1 & Hm1).
    destruct (E1 st st1 false) as [n1 Hs1]; [done | lia | done | done | eapply run_items_sub; [| |exact R1]; lia|].
    destruct (wf_pc st Hwf). set (st2 := advance st1 n1 (Z.of_nat (length c1)) (xregs_ st1)) in *.
    assert (pc_ st2 = pc_ st + Z.of_nat (length c1)) as Hp2 by (unfold st2; cbn; rewrite Hp1; apply uintx_small; lia).
    destruct (E2 st2 (advance st' n1 (Z.of_nat (length c1)) (xregs_ st')) b) as [n2 Hs2].
    + by apply advance_wf, Hwf1.
    + rewrite Hp2. lia.
    + rewrite Hp2. lia.
    + rewrite Hp2. apply (same_bytes_code _ _ _ _ (c1 ++ c2)) in Hm1;
        [by apply code_at_app in Hm1 as [_ Hc2] | rewrite length_app; lia | done].
    + apply run_items_advance; [done|]. rewrite Hp2. eapply run_items_sub; [| |exact R2]; lia.
    + exists (n1 + n2)%nat. rewrite (steps_app _ _ _ _ Hs1), Hs2, advance_advance.
      f_equal. f_equal. destruct b; lia.
Qed.

Lemma run_items_do lo n ops st st' : runs lo n ops st st' -> run_items lo n (map Do ops) st st' false.
Proof.
  revert st. induction ops as [|F ops IH]; intros st; cbn; [done|].
  intros (st1 & E & Hs & Hr). exists st1. auto.
Qed.

Lemma realizes_do code ops delta : realizes code ops -> realizes_exits code delta (map Do ops).
Proof.
  intros [K R]. split.
  - clear R. induction K; cbn; constructor; done.
  - intros st st' b Hwf Hpc _ Hc Hr.
    assert (runs (pc_ st) (Z.of_nat (length code)) ops st st' /\ b = false) as [Hruns ->].
    { clear -Hr. revert Hr. generalize (pc_ st) (Z.of_nat (length code)). intros lo n. revert st.
      induction ops as [|F ops IH]; intros st; cbn; [done|].
      intros (st1 & E & Hs & [Hr ->]%IH). split; [by exists st1 | done]. }
    by apply R.
Qed.

(** A branch that [reach] suffices for. *)
Definition near_shape (sh : shape) : Prop :=
  match sh with ShB _ _ _ | ShCB _ _ => True | _ => False end.

(** A redirected branch. *)
Lemma step_branch sh delta st : shape_wf sh -> fits sh delta = true -> near_shape sh ->
  code_at (mem_ st) (pc_ st) (shape_bytes sh delta) ->
  step st = Ok (advance st 1 (if shape_cond sh (xregs_ st) then delta
                              else Z.of_nat (length (shape_bytes sh delta))) (xregs_ st)).
Proof.
  intros Hw Hf Hn Hc.
  destruct sh as [rs1 rs2 f3| |hi rs1p| |]; try done; cbn [shape_bytes shape_cond shape_wf fits] in *.
  - destruct Hw as (H1' & H2' & H3). pose proof (branch_funct_range f3 H3).
    rewrite (step_word st (Bword delta rs2 rs1 f3 Opcode.BRANCH));
      [|apply Bword_bound; wside | by rewrite Bword_opcode by wside | done].
    rewrite interpret_branch by done. rewrite length_le_bytes. cbn [mbind result_bind]. by f_equal.
  - destruct Hw as [Hh Hr'].
    destruct (CBword_reads hi 1 delta ltac:(lia) ltac:(lia) rs1p Hr' Hf) as (Hb & Hlo & _).
    rewrite (step_parcel st (CBword hi 1 delta rs1p)); [|done | by rewrite Hlo | done].
    rewrite length_le_bytes.
    destruct Hh as [-> | ->]; [rewrite interpret_c_beqz by done | rewrite interpret_c_bnez by done];
      cbn [mbind result_bind]; f_equal; unfold advance, pc_add; by destruct st.
Qed.

Lemma realizes_branch sh delta c : shape_wf sh -> fits sh delta = true -> near_shape sh ->
  (forall r, regs_wf r -> shape_cond sh r = c r) ->
  realizes_exits (shape_bytes sh delta) delta [ExitIf c].
Proof.
  intros Hw Hf Hk Hcond. split; [by repeat constructor|]. intros st st' b Hwf Hpc Hpd Hc Hr. cbn [run_items] in Hr.
  exists 1%nat.
  rewrite steps_S by (pose proof (length_shape sh delta); pose proof (shape_size_pos sh); destruct sh; cbn in *; lia).
  rewrite (step_branch sh delta st) by done. cbn [mbind result_bind steps].
  rewrite <- Hcond in Hr by apply Hwf.
  destruct (shape_cond sh (xregs_ st)); destruct Hr as [-> ->]; done.
Qed.
End Items.

(** ** Pieces of a method *)

Section Fragments.
Context `{Target} `{HostFloat} `{Host}.

(** Code was appended and its branches linked to the label; all else is as before. *)
Record grows (label : nat) (s : Assembler) (ls : branch_class -> list entry)
    (s' : Assembler) (ls' : branch_class -> list entry) : Prop := {
  grows_prefix : exists code, buffer_ s' = buffer_ s ++ code;
  grows_labels : forall i, i <> label -> labels_ s' i = labels_ s i;
  grows_rest : with_buffer (with_label s' label Label_new) [] = with_buffer (with_label s label Label_new) [];
  grows_old : forall e, e ∈ all_branches ls -> e ∈ all_branches ls';
  grows_new : forall e, e ∈ all_branches ls' -> e ∈ all_branches ls \/ (Position s <= fst e /\ near_shape (snd e))
}.

(** [buf] starts with the code of [s], its branches redirected to [t]. *)
Definition resolves (s : Assembler) (ls : branch_class -> list entry) (t : Z) (buf : list Z) : Prop :=
  (forall p sh, (p, sh) ∈ all_branches ls -> bytes_at buf p (shape_bytes sh (t - p))) /\
  (forall p bs, bytes_at (buffer_ s) p bs ->
     Forall (fun e => p + Z.of_nat (length bs) <= fst e \/ fst e + shape_size (snd e) <= p) (all_branches ls) ->
     bytes_at buf p bs).

(** After [k] more bytes the label is in reach of all branches. *)
Definition tight (s : Assembler) (ls : branch_class -> list entry) (k : Z) : Prop :=
  (forall e, e ∈ all_branches ls -> near_shape (snd e) /\ Position s + k - fst e <= reach) /\
  k <= reach /\ Position s + k < 2 ^ 31.

(** A property of code and of the distance from its start to the label. *)
Definition code_prop := list Z -> Z -> Prop.
Definition items_code (items : list item) : code_prop := fun code delta => realizes_exits code delta items.
Definition chop (P Q : code_prop) : code_prop := fun code delta =>
  exists c1 c2, code = c1 ++ c2 /\ P c1 delta /\ Q c2 (delta - Z.of_nat (length c1)).

Definition fragment (k : Z) (label : nat) (m : asm unit) (P : code_prop) : Prop :=
  forall s ls, full s -> linked s label ls -> tight s ls k ->
  exists s' ls', m s = Ok (tt, s') /\ linked s' label ls' /\ grows label s ls s' ls' /\
    Position s <= Position s' <= Position s + k /\
    forall t buf, Position s' <= t <= Position s + reach -> aligned_at s t -> resolves s' ls' t buf ->
    exists code, bytes_at buf (Position s) code /\ Z.of_nat (length code) = Position s' - Position s /\
      P code (t - Position s).

Lemma grows_refl label s ls : grows label s ls s ls.
Proof. split; auto. exists []. by rewrite app_nil_r. Qed.

Lemma grows_position label s ls s' ls' : grows label s ls s' ls' -> Position s <= Position s'.
Proof. intros [[c E] _ _ _ _]. unfold Position. rewrite E, length_app. lia. Qed.

Lemma grows_trans label s1 l1 s2 l2 s3 l3 :
  grows label s1 l1 s2 l2 -> grows label s2 l2 s3 l3 -> grows label s1 l1 s3 l3.
Proof.
  intros G1 G2. pose proof (grows_position _ _ _ _ _ G1).
  destruct G1 as [[c1 P1] L1 R1 O1 N1], G2 as [[c2 P2] L2 R2 O2 N2]. split; auto.
  - exists (c1 ++ c2). by rewrite P2, P1, (assoc app).
  - intros i Hi. by rewrite L2, L1.
  - congruence.
  - intros e [[|]%N1|[]]%N2; auto. right. split; [lia | done].
Qed.

Lemma grows_extensions label s ls s' ls' : grows label s ls s' ls' -> extensions_ s' = extensions_ s.
Proof. intros G. by apply (f_equal extensions_ (grows_rest _ _ _ _ _ G)). Qed.

(** A branch in the code that follows is no branch of this code. *)
Lemma resolves_prefix label s ls s' ls' t buf : linked s label ls -> grows label s ls s' ls' ->
  resolves s' ls' t buf -> resolves s ls t buf.
Proof.
  intros L G [B O]. destruct (grows_prefix _ _ _ _ _ G) as [c E]. split.
  - intros p sh He. by apply B, (grows_old _ _ _ _ _ G).
  - intros p bs Hb Ho. apply O; [rewrite E; by apply bytes_at_app|].
    apply Forall_forall. intros e He%list_elem_of_In%(grows_new _ _ _ _ _ G).
    destruct He as [He|[He _]]; [rewrite Forall_forall in Ho; by apply Ho, list_elem_of_In|].
    apply bytes_at_lookup in Hb as (? & ? & _). unfold Position in He. lia.
Qed.

Lemma tight_grows label s ls s' ls' k1 k2 : tight s ls (k1 + k2) -> 0 <= k1 ->
  grows label s ls s' ls' -> Position s' <= Position s + k1 -> tight s' ls' k2.
Proof.
  intros (T1 & T2 & T3) Hk G Hp. split_and!; [|lia | lia].
  intros e [He|[He Hn]]%(grows_new _ _ _ _ _ G); [destruct (T1 e He); split; [done | lia]|].
  split; [done | lia].
Qed.

Lemma fragment_chop k1 k2 label m1 m2 Q1 Q2 : 0 <= k1 -> 0 <= k2 ->
  fragment k1 label m1 Q1 -> fragment k2 label m2 Q2 ->
  fragment (k1 + k2) label (_ ← m1; m2) (chop Q1 Q2).
Proof.
  intros Hk1 Hk2 F1 F2 s ls Hs L T.
  assert (tight s ls k1) as T0.
  { destruct T as (T1 & T2 & T3). split_and!; [|lia | lia].
    intros e He. destruct (T1 e He). split; [done | lia]. }
  destruct (F1 s ls Hs L T0) as (s1 & l1 & E1 & L1 & G1 & P1 & R1).
  assert (full s1) as Hs1 by (unfold full in *; by rewrite (grows_extensions _ _ _ _ _ G1)).
  destruct (F2 s1 l1 Hs1 L1) as (s2 & l2 & E2 & L2 & G2 & P2 & R2); [by eapply (tight_grows label s ls s1 l1 k1); [| | |lia]|].
  exists s2, l2. split_and!; [|done | by eapply grows_trans | lia | lia|].
  - unfold mbind, M_bind. by rewrite E1, E2.
  - intros t buf Ht Ha Hr.
    destruct (R1 t buf) as (c1 & B1 & N1 & X1); [lia | done | by eapply resolves_prefix|].
    destruct (R2 t buf) as (c2 & B2 & N2 & X2); [lia | | done|].
    { eapply aligned_extensions; [|exact Ha]. symmetry. by eapply grows_extensions. }
    exists (c1 ++ c2). rewrite length_app. split_and!; [|lia|].
    + apply bytes_at_split. split; [done|]. by replace (Position s + Z.of_nat (length c1)) with (Position s1) by lia.
    + exists c1, c2. split_and!; [done | done |].
      by replace (t - Position s - Z.of_nat (length c1)) with (t - Position s1) by lia.
Qed.

Lemma fragment_mono k label m (P Q : code_prop) :
  (forall code delta, Z.of_nat (length code) <= delta -> P code delta -> Q code delta) ->
  fragment k label m P -> fragment k label m Q.
Proof.
  intros Hpq F s ls Hs L T. destruct (F s ls Hs L T) as (s' & ls' & E & L' & G & B & R).
  exists s', ls'. split_and!; [done.. | lia | lia |]. intros t buf Ht Ha Hr.
  destruct (R t buf Ht Ha Hr) as (code & Hb & Hl & X). exists code. split_and!; [done | done |].
  apply Hpq; [lia | done].
Qed.

Lemma fragment_weaken k k' label m P : k <= k' -> fragment k label m P -> fragment k' label m P.
Proof.
  intros Hk F s ls Hs L (T1 & T2 & T3). destruct (F s ls Hs L) as (s' & ls' & E & L' & G & B & R).
  { split_and!; [|lia | lia]. intros e He. destruct (T1 e He). split; [done | lia]. }
  exists s', ls'. split_and!; [done.. | lia | lia | done].
Qed.

Lemma chop_items i1 i2 code delta : Z.of_nat (length code) <= delta ->
  chop (items_code i1) (items_code i2) code delta -> items_code (i1 ++ i2) code delta.
Proof. intros Hd (c1 & c2 & -> & X1 & X2). apply realizes_exits_app; [done | done | lia]. Qed.

Lemma fragment_seq k1 k2 label m1 m2 i1 i2 : 0 <= k1 -> 0 <= k2 ->
  fragment k1 label m1 (items_code i1) -> fragment k2 label m2 (items_code i2) ->
  fragment (k1 + k2) label (_ ← m1; m2) (items_code (i1 ++ i2)).
Proof.
  intros Hk1 Hk2 F1 F2. eapply fragment_mono; [apply chop_items | by apply fragment_chop].
Qed.

(** Straight-line code. *)
Lemma fragment_code k label m (Q : list Z -> Prop) :
  (forall s, full s -> exists code, m s = Ok (tt, append s code) /\ Q code) -> short k m ->
  fragment k label m (fun code _ => Q code).
Proof.
  intros I S s ls Hs L (T1 & T2 & T3). destruct (I s Hs) as (code & E & R).
  destruct (S s tt (append s code) ltac:(done) E) as (_ & P & A). rewrite Position_append in P, A.
  replace (Position s + Z.of_nat (length code) - Position s) with (Z.of_nat (length code)) in A by lia.
  exists (append s code), ls. rewrite Position_append. split_and!; [done | apply linked_append; [done | done | lia] | | lia | lia |].
  - split; auto. by exists code.
  - intros t buf Ht Ha [B O]. exists code. split_and!; [| lia | done].
    apply O; [apply bytes_at_end|]. apply Forall_forall. intros e He%list_elem_of_In.
    right. by apply (linked_before s label ls e L).
Qed.

Lemma fragment_do k label m ops : implements m tt ops -> short k m ->
  fragment k label m (items_code (map Do ops)).
Proof.
  intros I S. eapply fragment_mono; [|by apply fragment_code; [exact I|]].
  intros code delta _. apply realizes_do.
Qed.

Lemma fragment_nil label : fragment 0 label (mret tt) (items_code []).
Proof. apply (fragment_do 0 label _ []); [apply implements_ret | by apply short_ret]. Qed.

Lemma fragment_assert k label b m P : b = true -> fragment k label m P ->
  fragment k label (_ ← assert b; m) P.
Proof. intros -> F s ls Hs L T. rewrite assert_bind by done. by apply F. Qed.

(** The offsets a near branch can hold. *)
Lemma fits_near sh s o : near_shape sh -> 0 <= o <= reach -> aligned_at s o -> fits sh o = true.
Proof.
  intros Hn Ho Ha. assert (o mod 2 = 0) as H2'.
  { unfold aligned_at, alignment in Ha. destruct (Supports RV_C s); [done|].
    rewrite (Z.div_mod o 4), Ha by lia. replace (4 * (o / 4) + 0) with (2 * (o / 4) * 2) by lia. by apply Z.mod_mul. }
  unfold reach in Ho. destruct sh; try done; cbn [fits].
  - apply IsBTypeImm_small; [lia | done].
  - apply andb_true_iff. split; [apply IsInt_spec; lia | by apply (aligned_spec o 1)].
Qed.

Lemma tight_link s label ls k c : linked s label ls -> tight s ls k ->
  0 <= link_offset (Position s) (ls c) <= reach - k /\ aligned_at s (link_offset (Position s) (ls c)).
Proof.
  intros L (T1 & T2 & _). destruct (ls c) as [|[q sh] l] eqn:E; cbn [link_offset].
  - split; [lia | apply aligned_zero].
  - assert ((q, sh) ∈ all_branches ls) as He by (apply (in_all_branches ls c); rewrite E; left).
    destruct (T1 _ He). destruct (linked_before s label ls _ L He). pose proof (shape_size_pos sh).
    cbn in *. split; [lia|]. apply aligned_sub; [apply L|].
    pose proof (linked_aligned _ _ _ L) as Hal. rewrite Forall_forall in Hal.
    by apply (Hal (q, sh)), list_elem_of_In.
Qed.

(** A branch to the label. *)
Lemma grows_branch label s ls sh : near_shape sh ->
  grows label s ls (branched s label ls sh) (with_branch s ls sh).
Proof.
  intros Hn. split.
  - by eexists.
  - intros i Hi. cbn. by rewrite (proj2 (Nat.eqb_neq i label) Hi).
  - apply assembler_eq; try done. intros i. cbn. by destruct (i =? label)%nat.
  - intros e He. apply in_with_branch. by right.
  - intros e [->|He]%in_with_branch; [right; split; [done|exact Hn] | by left].
Qed.

Lemma fragment_branch label m (sh : Assembler -> shape) c :
  (forall s ls, full s -> linked s label ls -> tight s ls 4 ->
     near_shape (sh s) /\ shape_wf (sh s) /\ aligned_at s (shape_size (sh s)) /\
     (forall r, regs_wf r -> shape_cond (sh s) r = c r) /\ m s = Ok (tt, branched s label ls (sh s))) ->
  fragment 4 label m (items_code [ExitIf c]).
Proof.
  intros Hm s ls Hs L T. destruct (Hm s ls Hs L T) as (Hn & Hw & Ha & Hc & E).
  pose proof T as (T1 & T2 & T3).
  destruct (tight_link s label ls 4 (shape_class (sh s)) L T) as [Hl Hal].
  assert (0 < shape_size (sh s) <= 4) as Hsz by (destruct (sh s); cbn in *; lia || done).
  assert (Position (branched s label ls (sh s)) = Position s + shape_size (sh s)) as Hp
    by (unfold branched; by rewrite Position_append, length_shape).
  exists (branched s label ls (sh s)), (with_branch s ls (sh s)). rewrite Hp.
  split_and!; [done | | by apply grows_branch | lia | lia |].
  - apply linked_branched; [done | done | apply (fits_near _ s); [done | lia | done] | done | lia].
  - intros t buf Ht Hat [B _]. exists (shape_bytes (sh s) (t - Position s)).
    split_and!; [apply B, in_with_branch; by left | rewrite length_shape; lia |].
    apply realizes_branch; [done | | done | done].
    apply (fits_near _ s); [done | lia | by apply aligned_sub, L].
Qed.

(** *** Near branches *)

Lemma near_compressed {B} IsImm label (k : bool -> asm B) s :
  (compressed_reach IsImm label kNearJump ≫= k) s = k (Supports RV_C s) s.
Proof.
  unfold compressed_reach. unfold mbind at 1, M_bind at 1. rewrite get_bind. by destruct (Supports RV_C s).
Qed.

Definition beq_shape (rs1 rs2 : Z) (s : Assembler) : shape :=
  if Supports RV_C s && (rs1 =? ZR) && IsCRs1p rs2 then ShCB 6 rs2
  else if Supports RV_C s && (rs2 =? ZR) && IsCRs1p rs1 then ShCB 6 rs1
  else ShB rs1 rs2 Funct3.BEQ.

Lemma EmitCBranch_near s label ls hi rs1p : linked s label ls -> tight s ls 4 -> shape_wf (ShCB hi rs1p) ->
  EmitCBranch rs1p label (cop hi 1) s = Ok (tt, branched s label ls (ShCB hi rs1p)).
Proof.
  intros L T Hw. rewrite (EmitCBranch_forward s label ls L hi rs1p Hw).
  destruct (tight_link s label ls 4 br_cb L T) as [Ho Ha].
  assert (IsCBImm (link_offset (Position s) (ls br_cb)) = true) as ->; [|done].
  apply (fits_near (ShCB hi rs1p) s); [done | lia | done].
Qed.

Lemma EmitBranch_reaches s label ls rs1 rs2 f3 : linked s label ls -> tight s ls 4 -> shape_wf (ShB rs1 rs2 f3) ->
  EmitBranch rs1 rs2 label f3 kNearJump s = Ok (tt, branched s label ls (ShB rs1 rs2 f3)).
Proof.
  intros L T Hw. rewrite (EmitBranch_near s label ls L rs1 rs2 f3 _ Hw) by by left.
  destruct (tight_link s label ls 4 br_b L T) as [Ho Ha].
  assert (IsBTypeImm (link_offset (Position s) (ls br_b)) = true) as ->; [|done].
  apply (fits_near (ShB rs1 rs2 f3) s); [done | lia | done].
Qed.

Lemma fragment_beq label rs1 rs2 : 0 <= rs1 < 32 -> 0 <= rs2 < 32 ->
  fragment 4 label (beq rs1 rs2 label kNearJump) (items_code [ExitIf (fun r => r rs1 =? r rs2)]).
Proof.
  intros H1' H2'. apply (fragment_branch _ _ (beq_shape rs1 rs2)). intros s ls Hs L T.
  assert (forall hi rs1p, Supports RV_C s = true -> aligned_at s (shape_size (ShCB hi rs1p))) as HC
    by (intros hi rs1p E; unfold aligned_at, alignment; by rewrite E).
  unfold beq. rewrite assert_supports_bind, near_compressed by by apply full_supports.
  unfold beq_shape, IsCRs1p, c_beqz.
  destruct (Supports RV_C s && (rs1 =? ZR) && IsRegPrime rs2) eqn:E1; to_prop;
    [|destruct (Supports RV_C s && (rs2 =? ZR) && IsRegPrime rs1) eqn:E2; to_prop].
  - subst rs1. split_and!; [done | by split; [left|] | by apply HC | |].
    + intros r [Hz _]. cbn. rewrite Hz. apply Z.eqb_sym.
    + rewrite assert_supports_bind by done. apply (EmitCBranch_near s label ls 6); [done | done | by split; [left|]].
  - subst rs2. split_and!; [done | by split; [left|] | by apply HC | |].
    + intros r [Hz _]. cbn. by rewrite Hz.
    + rewrite assert_supports_bind by done. apply (EmitCBranch_near s label ls 6); [done | done | by split; [left|]].
  - split_and!; [done | split_and!; [lia.. | by left] | by apply aligned_words | done |].
    apply EmitBranch_reaches; [done | done | split_and!; [lia.. | by left]].
Qed.

Lemma fragment_beqz label rs : 0 <= rs < 32 ->
  fragment 4 label (beqz rs label kNearJump) (items_code [ExitIf (fun r => r rs =? r ZR)]).
Proof. intros Hr. apply fragment_beq; [done | wside]. Qed.
End Fragments.

(** ** Methods that declare a label *)

Section Binding.
Context `{Target} `{HostFloat} `{Host}.

(** [m] emits code with property [P] for a label after the code, and leaves [label] bound there. *)
Definition performs (k : Z) (label : nat) (m : asm unit) (P : code_prop) : Prop :=
  forall s, full s -> aligned_at s (Position s) -> Position s + k < 2 ^ 31 ->
  exists code, Z.of_nat (length code) <= k /\
    m s = Ok (tt, with_label (append s code) label (bound_at (Position s + Z.of_nat (length code)))) /\
    P code (Z.of_nat (length code)).

Lemma bound_resolves s label ls t : linked s label ls ->
  resolves s ls t (redirect (buffer_ s) t (all_branches ls)).
Proof.
  intros L. split.
  - intros p sh. apply redirect_branches; [by eapply linked_all_inside | apply L].
  - intros p bs Hb Ho. apply redirect_bytes; [by eapply linked_all_inside | done | done].
Qed.

(** Redirecting leaves the code before the first branch alone. *)
Lemma redirect_prefix s label ls t buf code : linked s label ls -> buffer_ s = buf ++ code ->
  (forall e, e ∈ all_branches ls -> Z.of_nat (length buf) <= fst e) ->
  exists code', length code' = length code /\ redirect (buffer_ s) t (all_branches ls) = buf ++ code'.
Proof.
  intros L E He. set (R := redirect (buffer_ s) t (all_branches ls)).
  assert (length R = length (buffer_ s)) as HR by (apply redirect_length; by eapply linked_all_inside).
  exists (drop (length buf) R). split; [rewrite length_drop, HR, E, length_app; lia|].
  rewrite <- (take_drop (length buf) R) at 1. f_equal. apply list_eq. intros i.
  destruct (decide (i < length buf)%nat) as [Hi|Hi].
  - rewrite lookup_take_lt by done. unfold R. rewrite redirect_other; [|by eapply linked_all_inside|].
    + rewrite E. by apply lookup_app_l.
    + apply Forall_forall. intros e Hin%list_elem_of_In%He. lia.
  - rewrite !lookup_ge_None_2; [done | lia | rewrite length_take; lia].
Qed.

Lemma bind_fragment k label m Q : 0 <= k <= reach -> fragment k label m Q ->
  performs k label (_ ← construct_label label; _ ← m; _ ← Bind label; destroy_label label) Q.
Proof.
  intros Hk F s Hs Ha Hp. set (s0 := with_label s label Label_new).
  assert (linked s0 label (fun _ => [])) as L0.
  { apply linked_new; [unfold s0; cbn; by rewrite Nat.eqb_refl | done |].
    change (Position s0) with (Position s). lia. }
  destruct (F s0 (fun _ => []) Hs L0) as (s1 & l1 & E1 & L1 & G & P & R).
  { split_and!; [by intros e ?%elem_of_nil | lia | done]. }
  change (Position s0) with (Position s) in *.
  assert (forall e, e ∈ all_branches l1 -> Position s <= fst e /\ near_shape (snd e)) as Hnew.
  { intros e [He%elem_of_nil|He]%(grows_new _ _ _ _ _ G); done. }
  destruct (grows_prefix _ _ _ _ _ G) as [c0 Ec]. change (buffer_ s0) with (buffer_ s) in Ec.
  assert (aligned_at s (Position s1)) as Ha1.
  { eapply aligned_extensions; [|apply L1]. by apply (grows_extensions _ _ _ _ _ G). }
  assert (redirectable s1 (Position s1) (all_branches l1)) as Hr.
  { apply Forall_forall. intros [p sh] He. pose proof (linked_aligned _ _ _ L1) as Hal.
    rewrite Forall_forall in Hal. specialize (Hal _ He). apply list_elem_of_In in He.
    destruct (Hnew _ He) as [Hpe Hn]. destruct (linked_before s1 label l1 _ L1 He) as [_ Hb].
    pose proof (shape_size_pos sh). cbn in *. split; [done|].
    apply (fits_near _ s1); [done | lia | by apply aligned_sub, Hal; apply L1]. }
  destruct (redirect_prefix s1 label l1 (Position s1) (buffer_ s) c0 L1 Ec) as (code & Hlen & Er);
    [intros e He; by apply Hnew|].
  assert (Position s1 = Position s + Z.of_nat (length code)) as Hp1
    by (unfold Position; rewrite Ec, length_app; lia).
  exists code. split_and!; [lia | |].
  - unfold construct_label, modify. unfold mbind at 1, M_bind at 1. fold s0.
    unfold mbind at 1, M_bind at 1. rewrite E1.
    unfold mbind at 1, M_bind at 1. rewrite (Bind_linked s1 label l1 L1 Hr).
    unfold destroy_label. rewrite get_bind. unfold assert, lift.
    rewrite ASSERT_true by (cbn; by rewrite Nat.eqb_refl). do 2 f_equal.
    unfold bound_state. rewrite Er, Hp1. pose proof (grows_rest _ _ _ _ _ G) as Hrest.
    pose proof (f_equal extensions_ Hrest). pose proof (f_equal far_branch_level_ Hrest).
    pose proof (f_equal deferred_compare_ Hrest). pose proof (f_equal deferred_left_ Hrest).
    pose proof (f_equal deferred_reg_ Hrest). pose proof (f_equal deferred_imm_ Hrest).
    apply assembler_eq; try done. intros i. cbn. destruct (i =? label)%nat eqn:Ei; [done|].
    apply Nat.eqb_neq in Ei. rewrite (grows_labels _ _ _ _ _ G i Ei). unfold s0. cbn.
    by rewrite (proj2 (Nat.eqb_neq i label) Ei).
  - pose proof (bound_resolves s1 label l1 (Position s1) L1) as Hres. rewrite Er in Hres.
    destruct (R (Position s1) _ ltac:(lia) Ha1 Hres) as (code' & B & N & X).
    rewrite Hp1 in N, X. replace (Position s + Z.of_nat (length code) - Position s) with (Z.of_nat (length code)) in N, X by lia.
    assert (code' = code) as ->; [|done]. unfold bytes_at, Position in B. destruct B as (_ & _ & B).
    rewrite Nat2Z.id in B. apply Nat2Z.inj in N. rewrite N, drop_app_length, firstn_all in B. done.
Qed.

(** Code before such a method. *)
Lemma performs_after k1 k2 label m1 m2 ops items : 0 <= k2 -> implements m1 tt ops -> short k1 m1 ->
  performs k2 label m2 (items_code items) ->
  performs (k1 + k2) label (_ ← m1; m2) (items_code (map Do ops ++ items)).
Proof.
  intros Hk2 I S P s Hs Ha Hp. destruct (I s Hs) as (c1 & E1 & R1).
  destruct (S s tt (append s c1) ltac:(done) E1) as (_ & P1 & A1). rewrite Position_append in P1, A1.
  destruct (P (append s c1) Hs) as (c2 & N & E2 & X).
  { rewrite Position_append. change (aligned_at s (Position s + Z.of_nat (length c1))).
    replace (Position s + Z.of_nat (length c1)) with
      (Position s + (Position s + Z.of_nat (length c1) - Position s)) by lia. by apply aligned_add. }
  { rewrite Position_append. lia. }
  rewrite Position_append, append_append in E2. exists (c1 ++ c2). rewrite length_app, Nat2Z.inj_add.
  split_and!; [lia | unfold mbind, M_bind; rewrite E1, E2, Z.add_assoc; done |].
  apply realizes_exits_app; [by apply realizes_do | | lia].
  by replace (_ - _) with (Z.of_nat (length c2)) by lia.
Qed.

Lemma performs_assert k label b m P : b = true -> performs k label m P ->
  performs k label (_ ← assert b; m) P.
Proof. intros -> F s Hs Ha Hp. rewrite assert_bind by done. by apply F. Qed.

Lemma performs_eq k label m m' P : (forall s, m s = m' s) -> performs k label m' P -> performs k label m P.
Proof. intros E F s Hs Ha Hp. rewrite E. by apply F. Qed.

(** What the code of such a method does. *)
Lemma performs_runs code items st st' b : realizes_exits code (Z.of_nat (length code)) items ->
  sim_wf st -> pc_ st + Z.of_nat (length code) < 2 ^ XLEN -> code_at (mem_ st) (pc_ st) code ->
  run_items (pc_ st) (Z.of_nat (length code)) items st st' b ->
  exists n, steps n st = Ok (advance st' n (Z.of_nat (length code)) (xregs_ st')).
Proof.
  intros [_ R] Hwf Hpc Hc Hr. destruct (R st st' b Hwf Hpc Hpc Hc Hr) as [n E].
  exists n. by destruct b.
Qed.
End Binding.
