(* ===== verification/MacroBranches.v ===== *)
(** * Comparisons and conditional branches

    The macros of [Assembler] that end in a branch, and the label it goes to: one bound before,
    or one bound later, in which case the branch is linked to the label and redirected by
    [Bind].  [branches_at] says of both that the code branches to the label when a condition
    holds; the deferred comparisons consumed by [BranchIf] and [SetIf] are proved against it. *)
From S2P Require Import Prelude Utils Constants EncodingFacts Words CWords Memory Float.
From S2P Require Import SimState SimInteger SimFloat Simulator Exec Effects AsmState.
From S2P Require Import MicroAssembler Emission Computes Macros MacroFacts Branches Arithmetic Patching Labels Forward.

(** ** Branches to a label that is bound later

    [branches_forward m s label ls cond f]: the method [m], called on a label whose branches so
    far are [ls], links its branch to the label.  Whatever is emitted afterwards, once the label
    is bound within the reach of its branches, the code of [m] branches to the bound position if
    [cond] holds and falls through otherwise. *)

(** [s'] holds the code of [s] from position [from] on, with its branches still linked to the
    label, and possibly more code and branches after it. *)
Record continues (from : Z) (s : Assembler) (ls : branch_class -> list entry)
    (s' : Assembler) (ls' : branch_class -> list entry) : Prop := {
  continues_bytes : forall p bs, from <= p -> bytes_at (buffer_ s) p bs ->
    Forall (fun e => p + Z.of_nat (length bs) <= fst e \/ fst e + shape_size (snd e) <= p) (all_branches ls) ->
    bytes_at (buffer_ s') p bs;
  continues_old : forall e, e ∈ all_branches ls -> from <= fst e -> e ∈ all_branches ls';
  continues_new : forall e, e ∈ all_branches ls' -> e ∈ all_branches ls \/ Position s <= fst e
}.

Section Forward.
Context `{Target} `{HostFloat} `{Host}.

Definition branches_forward (m : asm unit) (s : Assembler) (label : nat)
    (ls : branch_class -> list entry) (cond : regs -> bool) (f : regs -> regs) : Prop :=
  exists s' ls', m s = Ok (tt, s') /\ linked s' label ls' /\ continues 0 s ls s' ls' /\
    Position s <= Position s' /\
    forall s2 ls2 s3, continues (Position s) s' ls' s2 ls2 -> linked s2 label ls2 ->
      redirectable s2 (Position s2) (all_branches ls2) -> Bind label s2 = Ok (tt, s3) ->
      exists code, bytes_at (buffer_ s3) (Position s) code /\
        Z.of_nat (length code) = Position s' - Position s /\
        branches code (Position s2 - Position s) cond f.

Lemma continues_weaken from from' s ls s' ls' : from <= from' -> continues from s ls s' ls' -> continues from' s ls s' ls'.
Proof. intros Hf [B O N]. split; [intros; apply B; [lia|done..] | intros; apply O; [done | lia] | done]. Qed.

(** Code of [s] that is no branch is found after the label was bound. *)
Lemma bound_bytes from s ls s2 label ls2 s3 p bs : continues from s ls s2 ls2 -> linked s2 label ls2 ->
  redirectable s2 (Position s2) (all_branches ls2) -> Bind label s2 = Ok (tt, s3) ->
  from <= p -> p + Z.of_nat (length bs) <= Position s -> bytes_at (buffer_ s) p bs ->
  Forall (fun e => p + Z.of_nat (length bs) <= fst e \/ fst e + shape_size (snd e) <= p) (all_branches ls) ->
  bytes_at (buffer_ s3) p bs.
Proof.
  intros C L R EB Hp Hl Hb Ha. rewrite (Bind_linked s2 label ls2 L R) in EB. injection EB as <-.
  apply redirect_bytes; [by eapply linked_all_inside | | by apply (continues_bytes _ _ _ _ _ C)].
  apply Forall_forall. intros e He%list_elem_of_In. destruct (continues_new _ _ _ _ _ C e He) as [Ho|Hn]; [|lia].
  rewrite Forall_forall in Ha. by apply Ha, list_elem_of_In.
Qed.

Lemma bound_branch from s ls s2 label ls2 s3 p sh : continues from s ls s2 ls2 -> linked s2 label ls2 ->
  redirectable s2 (Position s2) (all_branches ls2) -> Bind label s2 = Ok (tt, s3) ->
  (p, sh) ∈ all_branches ls -> from <= p ->
  bytes_at (buffer_ s3) p (shape_bytes sh (Position s2 - p)) /\ fits sh (Position s2 - p) = true.
Proof.
  intros C L R EB He Hp. rewrite (Bind_linked s2 label ls2 L R) in EB. injection EB as <-.
  pose proof (continues_old _ _ _ _ _ C _ He Hp) as He2. split.
  - apply redirect_branches; [by eapply linked_all_inside | apply L | done].
  - unfold redirectable in R. rewrite Forall_forall in R. by destruct (R (p, sh) (proj1 (list_elem_of_In _ _) He2)).
Qed.

Lemma branches_forward_eq m m' s label ls cond f : m s = m' s ->
  branches_forward m' s label ls cond f -> branches_forward m s label ls cond f.
Proof. intros E B. unfold branches_forward. by rewrite E. Qed.

Lemma branches_forward_ext m s label ls c1 c2 f : (forall r, regs_wf r -> c1 r = c2 r) ->
  branches_forward m s label ls c1 f -> branches_forward m s label ls c2 f.
Proof.
  intros Hc (s' & ls' & E & L & C & Hp & B). exists s', ls'. split_and!; [done..|].
  intros s2 ls2 s3 C2 L2 R EB. destruct (B s2 ls2 s3 C2 L2 R EB) as (code & Hb & Hl & X).
  exists code. split_and!; [done..|]. intros st Hwf Hpc Hat. rewrite <- Hc by apply Hwf. by apply X.
Qed.

(** Straight-line code leaves the label's branches alone. *)
Lemma continues_append s label ls code : linked s label ls -> continues 0 s ls (append s code) ls.
Proof.
  intros L. split; [|done | by left]. intros p bs _ Hb _. by apply bytes_at_app.
Qed.

Lemma executes_branches_forward c1 f1 m1 m2 s label ls cond f : linked s label ls ->
  linked (append s c1) label ls -> emits m1 s c1 -> executes c1 f1 ->
  branches_forward m2 (append s c1) label ls cond f ->
  branches_forward (_ ← m1; m2) s label ls (fun r => cond (f1 r)) (fun r => f (f1 r)).
Proof.
  intros L L1 E1 X1 (s' & ls' & E & L' & C & Hp & B). rewrite Position_append in *.
  assert (forall e, e ∈ all_branches ls -> fst e + shape_size (snd e) <= Position s) as Hold
    by (intros e He; by apply (linked_before s label ls e L)).
  assert (bytes_at (buffer_ s') (Position s) c1) as Hc1.
  { apply (continues_bytes _ _ _ _ _ C); [unfold Position; lia | apply bytes_at_end |].
    apply Forall_forall. intros e He%list_elem_of_In%Hold. by right. }
  exists s', ls'. split_and!; [unfold mbind, M_bind; by rewrite E1, E | done | | lia |].
  - split; [|apply C |].
    + intros p bs H0' Hb Ha. apply (continues_bytes _ _ _ _ _ C); [done | by apply bytes_at_app | done].
    + intros e [He|He]%(continues_new _ _ _ _ _ C); [by left | right]. rewrite Position_append in He. lia.
  - intros s2 ls2 s3 C2 L2 R EB.
    destruct (B s2 ls2 s3) as (code & Hb & Hl & X); [by eapply continues_weaken; [|exact C2]; lia | done..|].
    exists (c1 ++ code). rewrite length_app, Nat2Z.inj_add. split_and!; [|lia|].
    + apply bytes_at_split. split; [|done]. eapply (bound_bytes _ s' ls' s2 label ls2); [exact C2 | done.. | lia | lia | done |].
      apply Forall_forall. intros e He%list_elem_of_In. destruct (continues_new _ _ _ _ _ C e He) as [Ho|Hn].
      * right. by apply Hold.
      * left. by rewrite Position_append in Hn.
    + apply executes_branches; [done|]. by replace (Position s2 - Position s - Z.of_nat (length c1))
        with (Position s2 - (Position s + Z.of_nat (length c1))) by lia.
Qed.

(** A branch, perhaps after an instruction [c0] that skips it. *)
Lemma link_branches m s label ls c0 sh cond : linked s label ls -> linked (append s c0) label ls ->
  shape_wf sh -> fits sh (link_offset (Position (append s c0)) (ls (shape_class sh))) = true ->
  aligned_at s (shape_size sh) -> Position (append s c0) + shape_size sh < 2 ^ 31 ->
  m s = Ok (tt, branched (append s c0) label ls sh) ->
  (forall o, fits sh o = true -> branches (c0 ++ shape_bytes sh o) (o + Z.of_nat (length c0)) cond (fun r => r)) ->
  branches_forward m s label ls cond (fun r => r).
Proof.
  intros L L1 Hw Hf Ha Hsz E HB. set (s1 := append s c0) in *. set (o0 := link_offset _ _) in Hf.
  assert (linked (branched s1 label ls sh) label (with_branch s1 ls sh)) as L' by by apply linked_branched.
  assert (Position s1 = Position s + Z.of_nat (length c0)) as Hp1 by apply Position_append.
  assert (Position (branched s1 label ls sh) = Position s1 + shape_size sh) as Hp'
    by (unfold branched; by rewrite Position_append, length_shape).
  pose proof (shape_size_pos sh) as Hpos.
  assert (forall e, e ∈ all_branches ls -> fst e + shape_size (snd e) <= Position s) as Hold
    by (intros e He; by apply (linked_before s label ls e L)).
  exists (branched s1 label ls sh), (with_branch s1 ls sh). split_and!; [done | done | | lia |].
  - split.
    + intros p bs _ Hb _. unfold branched. cbn [buffer_ append with_buffer relabel with_label s1].
      by apply bytes_at_app, bytes_at_app.
    + intros e He _. apply in_with_branch. by right.
    + intros e [->|He]%in_with_branch; [right; cbn; lia | by left].
  - intros s2 ls2 s3 C2 L2 R EB. exists (c0 ++ shape_bytes sh (Position s2 - Position s1)).
    destruct (bound_branch _ _ _ _ _ _ _ (Position s1) sh C2 L2 R EB) as [Hb Hfit];
      [apply in_with_branch; by left | lia |].
    rewrite length_app, Nat2Z.inj_add, length_shape, Hp', Hp1. split_and!; [|lia|].
    + apply bytes_at_split. split; [|by rewrite <- Hp1].
      eapply bound_bytes; [exact C2 | done.. | lia | lia | |].
      * unfold branched. cbn [buffer_ append with_buffer relabel with_label s1]. apply bytes_at_app. apply bytes_at_end.
      * apply Forall_forall. intros e [->|He]%list_elem_of_In%in_with_branch; [left; cbn; lia | right; by apply Hold].
    + specialize (HB _ Hfit). replace (Position s2 - Position s) with (Position s2 - Position s1 + Z.of_nat (length c0)) by lia.
      by rewrite <- Hp1.
Qed.
End Forward.

(** The next branch of the label, at most [n] words of code later, is in reach of the previous
    one, to which it is linked: the list of single instructions at far-branch level 0, that of
    jumps at level 1, and that of far jumps above; the lists of near branches if it is declared
    near. *)
Definition links_reach (distance : JumpDistance) (n : nat) (s : Assembler)
    (ls : branch_class -> list entry) : Prop :=
  let close c w := forall e, e ∈ ls c -> Position s + 4 * Z.of_nat n - fst e < w in
  if is_near distance then close br_b (2 ^ 7) /\ close br_cb (2 ^ 7)
  else if far_branch_level_ s =? 0 then close br_b (2 ^ 11)
  else if far_branch_level_ s =? 1 then close br_j (2 ^ 19 - 4)
  else 2 <= far_branch_level_ s.

Section ForwardEmitters.
Context `{Target} `{HostFloat} `{Host}.
Context (s : Assembler) (label : nat) (ls : branch_class -> list entry) (distance : JumpDistance).
Context (L : linked s label ls) (Hsize : Position s + 12 < 2 ^ 30) (Hlinks : links_reach distance 0 s ls).

Lemma link_even p c : aligned_at s p -> link_offset p (ls c) mod 2 = 0.
Proof using L.
  intros Hp. assert (aligned_at s (link_offset p (ls c))) as Ha.
  { pose proof (linked_aligned _ _ _ L) as Hal. rewrite Forall_forall in Hal.
    destruct (ls c) as [|[q sh] l] eqn:E; cbn [link_offset]; [unfold aligned_at, alignment; by destruct (Supports RV_C s)|].
    apply aligned_sub; [done|]. apply (Hal (q, sh)), list_elem_of_In, (in_all_branches ls c). rewrite E. left. }
  unfold aligned_at, alignment in Ha. destruct (Supports RV_C s); [done|].
  rewrite (Z.div_mod (link_offset p (ls c)) 4), Ha by lia.
  replace (4 * (link_offset p (ls c) / 4) + 0) with (2 * (link_offset p (ls c) / 4) * 2) by lia. by apply Z.mod_mul.
Qed.

Lemma link_bound p c w : Position s <= p -> 0 < w -> (forall e, e ∈ ls c -> p - fst e < w) ->
  0 <= link_offset p (ls c) < w.
Proof using L.
  intros Hp Hw Hc. destruct (ls c) as [|[q sh] l] eqn:E; cbn [link_offset]; [lia|].
  assert ((q, sh) ∈ all_branches ls) as He by (apply (in_all_branches ls c); rewrite E; left).
  destruct (linked_before s label ls _ L He). pose proof (shape_size_pos sh). specialize (Hc (q, sh) ltac:(left)).
  cbn in *. lia.
Qed.

(** The three lengths of a forward branch, and the one that is declared near. *)
Lemma EmitBranch_forward rs1 rs2 f3 : 0 <= rs1 < 32 -> 0 <= rs2 < 32 -> In f3 branch_functs ->
  branches_forward (EmitBranch rs1 rs2 label f3 distance) s label ls
    (fun r => branch_cond f3 (r rs1) (r rs2)) (fun r => r).
Proof using L Hsize Hlinks.
  intros H1' H2' H3. assert (shape_wf (ShB rs1 rs2 f3)) as Hw by done.
  assert (distance = kNearJump \/ far_branch_level_ s = 0 ->
    branches_forward (EmitBranch rs1 rs2 label f3 distance) s label ls (fun r => branch_cond f3 (r rs1) (r rs2)) (fun r => r)) as Hnear.
  { intros Hd. assert (IsBTypeImm (link_offset (Position s) (ls br_b)) = true) as Hi.
    { assert (0 <= link_offset (Position s) (ls br_b) < 2 ^ 11) as Hb.
      { apply link_bound; [lia | lia |]. intros e He. unfold links_reach in Hlinks.
        destruct (is_near distance) eqn:En; [destruct Hlinks as [Hl _]; specialize (Hl e He); lia|].
        destruct Hd as [->|E0]; [done|]. rewrite E0 in Hlinks. specialize (Hlinks e He). lia. }
      apply IsBTypeImm_small; [lia | apply link_even, L]. }
    apply (link_branches _ s label ls [] (ShB rs1 rs2 f3)); rewrite ?append_nil; [done | done | done | done | by apply aligned_words | cbn; lia | |].
    - rewrite (EmitBranch_near s label ls L rs1 rs2 f3 distance Hw Hd), Hi. done.
    - intros o Ho. cbn [app length]. rewrite Z.add_0_r. by apply Bword_branches. }
  destruct (is_near distance) eqn:En; [apply Hnear; left; by destruct distance|].
  assert (distance = kFarJump) as -> by by destruct distance.
  destruct (Z.eq_dec (far_branch_level_ s) 0) as [E0|N0]; [auto|]. clear Hnear.
  destruct (InvertFunct3_spec f3 H3) as (g & Hg & Hgi & Hgc). pose proof (branch_funct_range g Hgi).
  assert (forall len, linked (skipped s len rs1 rs2 g) label ls /\ Position (skipped s len rs1 rs2 g) = Position s + 4) as Hskip.
  { intros len. unfold skipped. rewrite Position_append, length_le_bytes. split; [|lia].
    apply linked_append; rewrite ?length_le_bytes; [done | by apply aligned_words | lia]. }
  assert (forall sh o, shape_wf sh -> plain sh -> fits sh o = true -> (forall r, shape_cond sh r = true) -> 0 <= 4 + shape_size sh < 2 ^ 11 ->
    (4 + shape_size sh) mod 2 = 0 ->
    branches (le_bytes 4 (Bword (4 + shape_size sh) rs2 rs1 g Opcode.BRANCH) ++ shape_bytes sh o) (o + 4)
      (fun r => branch_cond f3 (r rs1) (r rs2)) (fun r => r)) as HB.
  { intros sh o W1 W2 W3 W4 W5 W6. apply branches_skip.
    - rewrite length_app, length_le_bytes, Nat2Z.inj_add, length_shape.
      eapply branches_ext; [|apply (Bword_branches _ rs2 rs1 g); [done.. | by apply IsBTypeImm_small]]. intros r. apply Hgc.
    - rewrite length_le_bytes. replace (o + 4 - Z.of_nat 4) with o by lia.
      eapply branches_ext; [|by apply shape_branches]. done. }
  unfold links_reach in Hlinks. cbn [is_near] in Hlinks. rewrite (proj2 (Z.eqb_neq _ _) N0) in Hlinks.
  destruct (Z.eqb_spec (far_branch_level_ s) 1) as [E1|N1].
  - destruct (Hskip 8) as [L1 Hp1].
    assert (IsJTypeImm (link_offset (Position s + 4) (ls br_j)) = true) as Hi.
    { assert (0 <= link_offset (Position s + 4) (ls br_j) < 2 ^ 19) as Hb.
      { apply link_bound; [lia | lia |]. intros e He. specialize (Hlinks e He). lia. }
      apply IsJTypeImm_spec. split; [lia|]. apply link_even. unfold aligned_at.
      rewrite <- Hp1. apply L1. }
    apply (link_branches _ s label ls (le_bytes 4 (Bword 8 rs2 rs1 g Opcode.BRANCH)) (ShJ ZR));
      fold (skipped s 8 rs1 rs2 g); rewrite ?Hp1; [done | done | done | done | by apply aligned_words | cbn; lia | |].
    + by apply EmitBranch_long.
    + intros o Ho. rewrite length_le_bytes. by apply (HB (ShJ ZR)).
  - destruct (Hskip 12) as [L1 Hp1].
    apply (link_branches _ s label ls (le_bytes 4 (Bword 12 rs2 rs1 g Opcode.BRANCH)) ShFar);
      fold (skipped s 12 rs1 rs2 g); rewrite ?Hp1; [done | done | done | | by apply aligned_words | cbn; lia | |].
    + cbn [shape_class]. rewrite <- Hp1. apply (link_fits_far _ label); [done | lia].
    + by apply EmitBranch_far.
    + intros o Ho. rewrite length_le_bytes. by apply (HB ShFar).
Qed.

(** A compressed branch, which only one declared near becomes. *)
Lemma EmitCBranch_links hi rs1p : is_near distance = true -> Supports RV_C s = true -> shape_wf (ShCB hi rs1p) ->
  branches_forward (EmitCBranch rs1p label (cop hi 1)) s label ls (shape_cond (ShCB hi rs1p)) (fun r => r).
Proof using L Hsize Hlinks.
  intros En HC Hw. assert (IsCBImm (link_offset (Position s) (ls br_cb)) = true) as Hi.
  { assert (0 <= link_offset (Position s) (ls br_cb) < 2 ^ 7) as Hb.
    { apply link_bound; [lia | lia |]. intros e He. unfold links_reach in Hlinks. rewrite En in Hlinks.
      destruct Hlinks as [_ Hl]. specialize (Hl e He). lia. }
    apply andb_true_iff. split; [apply IsInt_spec; lia | apply (aligned_spec _ 1), link_even, L; done]. }
  apply (link_branches _ s label ls [] (ShCB hi rs1p)); rewrite ?append_nil; [done | done | done | done | | cbn; lia | |].
  - unfold aligned_at, alignment. by rewrite HC.
  - rewrite (EmitCBranch_forward s label ls L hi rs1p Hw), Hi. done.
  - intros o Ho. cbn [app length]. rewrite Z.add_0_r. by apply shape_branches.
Qed.

Lemma forward_compressed {B} IsImm (k : bool -> asm B) :
  (compressed_reach IsImm label distance ≫= k) s = k (Supports RV_C s && is_near distance) s.
Proof using L.
  unfold compressed_reach. unfold mbind at 1, M_bind at 1. rewrite get_bind.
  destruct (Supports RV_C s); [|done]. cbn [negb andb]. destruct (is_near distance); [done|].
  rewrite get_bind. by rewrite (unbound_get s label ls L).
Qed.
End ForwardEmitters.

(** ** Where a branch goes *)

(** A label bound before, with the distance not declared, or a label bound later. *)
Inductive destination :=
| Bound (label : nat)
| Unbound (label : nat) (ls : branch_class -> list entry) (distance : JumpDistance).

Definition dest_label (d : destination) : nat := match d with Bound l | Unbound l _ _ => l end.
Definition dest_distance (d : destination) : JumpDistance :=
  match d with Bound _ => kFarJump | Unbound _ _ distance => distance end.

(** A bound label, reachable after up to [n] more words of code. *)
Record reachable (n : nat) (s : Assembler) (label : nat) : Prop := {
  reach_range : 0 <= position_ (labels_ s label) <= Position s;
  reach_size : Position s + 4 * Z.of_nat n < 2 ^ 30;
  reach_gap : Position s + 4 * Z.of_nat n - position_ (labels_ s label) <= 2 ^ 19 - 4 \/
              2 ^ 19 + 4 < Position s - position_ (labels_ s label)
}.

Definition in_reach `{Target} (d : destination) (n : nat) (s : Assembler) : Prop :=
  match d with
  | Bound label => reachable n s label
  | Unbound label ls distance =>
      linked s label ls /\ Position s + 4 * Z.of_nat n + 12 < 2 ^ 30 /\ links_reach distance n s ls
  end.

Section Destinations.
Context `{Target} `{HostFloat} `{Host}.

Definition branches_at (d : destination) (m : asm unit) (s : Assembler) (cond : regs -> bool) (f : regs -> regs) : Prop :=
  match d with
  | Bound label => branches_to m s label cond f
  | Unbound label ls _ => branches_forward m s label ls cond f
  end.

Lemma branches_at_eq d m m' s cond f : m s = m' s -> branches_at d m' s cond f -> branches_at d m s cond f.
Proof. destruct d; [apply branches_to_eq | apply branches_forward_eq]. Qed.

Lemma branches_at_ext d m s c1 c2 f : (forall r, regs_wf r -> c1 r = c2 r) ->
  branches_at d m s c1 f -> branches_at d m s c2 f.
Proof. destruct d; [apply branches_to_ext | apply branches_forward_ext]. Qed.

Lemma in_reach_weaken d n k s : (k <= n)%nat -> in_reach d n s -> in_reach d k s.
Proof.
  intros Hk. destruct d as [label|label ls distance]; cbn [in_reach].
  - intros [? ? ?]. split; lia.
  - intros (L & Hs & Hl). split_and!; [done | lia |]. unfold links_reach in *.
    destruct (is_near distance); [destruct Hl as [H1' H2']; split; intros e He; [specialize (H1' e He) | specialize (H2' e He)]; lia|].
    destruct (far_branch_level_ s =? 0); [|destruct (far_branch_level_ s =? 1); [|done]];
      intros e He; specialize (Hl e He); lia.
Qed.

Lemma in_reach_append d n k s code : (length code <= 4 * k)%nat -> aligned_at s (Z.of_nat (length code)) ->
  in_reach d (k + n) s -> in_reach d n (append s code).
Proof.
  intros Hc Ha. destruct d as [label|label ls distance]; cbn [in_reach].
  - intros [Hr Hs Hg]. split; rewrite Position_append; cbn [append with_buffer labels_]; lia.
  - intros (L & Hs & Hl). rewrite Position_append. split_and!; [apply linked_append; [done | done | lia] | lia |].
    unfold links_reach in *. rewrite Position_append. cbn [append with_buffer far_branch_level_].
    destruct (is_near distance); [destruct Hl as [H1' H2']; split; intros e He; [specialize (H1' e He) | specialize (H2' e He)]; lia|].
    destruct (far_branch_level_ s =? 0); [|destruct (far_branch_level_ s =? 1); [|done]];
      intros e He; specialize (Hl e He); lia.
Qed.

(** Straight-line code before a branch. *)
Lemma computes_branches_at d n k m1 m2 f1 f s cond : computes n m1 f1 -> short (4 * Z.of_nat n) m1 -> full s ->
  in_reach d (n + k) s -> (forall s', full s' -> in_reach d k s' -> branches_at d m2 s' cond f) ->
  branches_at d (_ ← m1; m2) s (fun r => cond (f1 r)) (fun r => f (f1 r)).
Proof.
  intros C S Hs Hl B. destruct (C s Hs) as (c1 & E1 & X1 & L1).
  destruct (S s tt (append s c1) ltac:(done) E1) as (_ & _ & A1). rewrite Position_append in A1.
  replace (Position s + Z.of_nat (length c1) - Position s) with (Z.of_nat (length c1)) in A1 by lia.
  assert (in_reach d k (append s c1)) as Hl1 by by apply (in_reach_append d k n).
  specialize (B (append s c1) Hs Hl1). destruct d as [label|label ls distance]; cbn [branches_at] in *.
  - destruct B as (c2 & E2 & B2). exists (c1 ++ c2). split; [by apply emits_bind|].
    apply executes_branches; [done|]. rewrite Position_append in B2. cbn [append with_buffer labels_] in B2.
    replace (position_ (labels_ s label) - Position s - Z.of_nat (length c1))
      with (position_ (labels_ s label) - (Position s + Z.of_nat (length c1))) by lia. done.
  - destruct Hl as (L & _), Hl1 as (L' & _). by eapply executes_branches_forward.
Qed.

Lemma reachable_bound n s label : reachable n s label -> bound_label s label.
Proof. intros [? ? ?]. split; lia. Qed.

(** The six branches. *)
Section Six.
Context (rs1 rs2 : Z) (s : Assembler) (Hs1 : 0 <= rs1 < 32) (Hs2 : 0 <= rs2 < 32) (Hs : full s).
#[local] Set Default Proof Using "Hs1 Hs2 Hs".

Lemma unbound_branch label ls distance (m : asm unit) f3 : in_reach (Unbound label ls distance) 0 s ->
  In f3 branch_functs -> m s = EmitBranch rs1 rs2 label f3 distance s ->
  branches_at (Unbound label ls distance) m s (fun r => branch_cond f3 (r rs1) (r rs2)) (fun r => r).
Proof.
  intros (L & Hz & Hl) Hf Em. cbn [branches_at].
  eapply branches_forward_eq; [exact Em|]. by apply EmitBranch_forward; [|lia|..].
Qed.

Lemma unbound_compressed label ls distance (m : asm unit) rs hi : in_reach (Unbound label ls distance) 0 s ->
  Supports RV_C s && is_near distance = true -> (hi = 6 \/ hi = 7) -> IsRegPrime rs = true ->
  m s = EmitCBranch rs label (cop hi 1) s ->
  branches_at (Unbound label ls distance) m s (fun r => if hi =? 6 then r rs =? 0 else negb (r rs =? 0)) (fun r => r).
Proof using.
  intros (L & Hz & Hl) [HC En]%andb_true_iff Hh Hr Em. cbn [branches_at].
  eapply branches_forward_eq; [exact Em|]. by apply (EmitCBranch_links s label ls distance L ltac:(lia) Hl hi rs).
Qed.

Lemma unbound_compress label ls distance {B} IsImm (k : bool -> asm B) : in_reach (Unbound label ls distance) 0 s ->
  (_ ← assert_supports RV_I; compressed_reach IsImm label distance ≫= k) s = k (Supports RV_C s && is_near distance) s.
Proof.
  intros (L & _). rewrite assert_supports_bind by by apply full_supports. by apply (forward_compressed s label ls distance L).
Qed.

Lemma beq_at d : in_reach d 0 s ->
  branches_at d (beq rs1 rs2 (dest_label d) (dest_distance d)) s (fun r => r rs1 =? r rs2) (fun r => r).
Proof.
  intros Hd. destruct d as [label|label ls distance]; [by apply beq_to; [..|by eapply reachable_bound]|].
  eapply (branches_at_eq (Unbound label ls distance)); [by apply (unbound_compress label ls distance)|].
  unfold IsCRs1p, c_beqz. repeat match goal with |- branches_at _ (if ?c then _ else _) _ _ _ => destruct c eqn:? end; to_prop.
  - eapply branches_at_ext; [|apply (unbound_compressed label ls distance _ rs2 6); [done | by apply andb_true_iff | by left | done | by apply assert_supports_bind]].
    intros r [Hz _]. cbn. subst rs1. rewrite Hz. apply Z.eqb_sym.
  - eapply branches_at_ext; [|apply (unbound_compressed label ls distance _ rs1 6); [done | by apply andb_true_iff | by left | done | by apply assert_supports_bind]].
    intros r [Hz _]. cbn. subst rs2. by rewrite Hz.
  - by apply (unbound_branch label ls distance _ Funct3.BEQ); [|cbn; tauto|].
Qed.
Lemma bne_at d : in_reach d 0 s ->
  branches_at d (bne rs1 rs2 (dest_label d) (dest_distance d)) s (fun r => negb (r rs1 =? r rs2)) (fun r => r).
Proof.
  intros Hd. destruct d as [label|label ls distance]; [by apply bne_to; [..|by eapply reachable_bound]|].
  eapply (branches_at_eq (Unbound label ls distance)); [by apply (unbound_compress label ls distance)|].
  unfold IsCRs1p, c_bnez. repeat match goal with |- branches_at _ (if ?c then _ else _) _ _ _ => destruct c eqn:? end; to_prop.
  - eapply branches_at_ext; [|apply (unbound_compressed label ls distance _ rs2 7); [done | by apply andb_true_iff | by right | done | by apply assert_supports_bind]].
    intros r [Hz _]. cbn. subst rs1. rewrite Hz. by rewrite Z.eqb_sym.
  - eapply branches_at_ext; [|apply (unbound_compressed label ls distance _ rs1 7); [done | by apply andb_true_iff | by right | done | by apply assert_supports_bind]].
    intros r [Hz _]. cbn. subst rs2. by rewrite Hz.
  - by apply (unbound_branch label ls distance _ Funct3.BNE); [|cbn; tauto|].
Qed.
Lemma blt_at d : in_reach d 0 s ->
  branches_at d (blt rs1 rs2 (dest_label d) (dest_distance d)) s (fun r => intx (r rs1) <? intx (r rs2)) (fun r => r).
Proof.
  intros Hd. destruct d as [label|label ls distance]; [by apply blt_to; [..|by eapply reachable_bound]|].
  apply (unbound_branch label ls distance _ Funct3.BLT Hd); [cbn; tauto|]. by apply assert_supports_bind, full_supports.
Qed.
Lemma bge_at d : in_reach d 0 s ->
  branches_at d (bge rs1 rs2 (dest_label d) (dest_distance d)) s (fun r => intx (r rs2) <=? intx (r rs1)) (fun r => r).
Proof.
  intros Hd. destruct d as [label|label ls distance]; [by apply bge_to; [..|by eapply reachable_bound]|].
  apply (unbound_branch label ls distance _ Funct3.BGE Hd); [cbn; tauto|]. by apply assert_supports_bind, full_supports.
Qed.
Lemma bltu_at d : in_reach d 0 s ->
  branches_at d (bltu rs1 rs2 (dest_label d) (dest_distance d)) s (fun r => r rs1 <? r rs2) (fun r => r).
Proof.
  intros Hd. destruct d as [label|label ls distance]; [by apply bltu_to; [..|by eapply reachable_bound]|].
  apply (unbound_branch label ls distance _ Funct3.BLTU Hd); [cbn; tauto|]. by apply assert_supports_bind, full_supports.
Qed.
Lemma bgeu_at d : in_reach d 0 s ->
  branches_at d (bgeu rs1 rs2 (dest_label d) (dest_distance d)) s (fun r => r rs2 <=? r rs1) (fun r => r).
Proof.
  intros Hd. destruct d as [label|label ls distance]; [by apply bgeu_to; [..|by eapply reachable_bound]|].
  apply (unbound_branch label ls distance _ Funct3.BGEU Hd); [cbn; tauto|]. done.
Qed.
End Six.
End Destinations.

(** The relation a condition states between two words. *)
Definition holds `{Target} (condition a b : Z) : bool :=
  if condition =? Condition.EQUAL then a =? b
  else if condition =? Condition.NOT_EQUAL then negb (a =? b)
  else if condition =? Condition.LESS then intx a <? intx b
  else if condition =? Condition.LESS_EQUAL then intx a <=? intx b
  else if condition =? Condition.GREATER_EQUAL then intx b <=? intx a
  else if condition =? Condition.GREATER then intx b <? intx a
  else if condition =? Condition.UNSIGNED_LESS then a <? b
  else if condition =? Condition.UNSIGNED_LESS_EQUAL then a <=? b
  else if condition =? Condition.UNSIGNED_GREATER_EQUAL then b <=? a
  else if condition =? Condition.UNSIGNED_GREATER then b <? a
  else false.

Definition comparisons : list Z :=
  [Condition.EQUAL; Condition.NOT_EQUAL; Condition.LESS; Condition.LESS_EQUAL;
   Condition.GREATER_EQUAL; Condition.GREATER; Condition.UNSIGNED_LESS;
   Condition.UNSIGNED_LESS_EQUAL; Condition.UNSIGNED_GREATER_EQUAL;
   Condition.UNSIGNED_GREATER].

(** Split on the ten comparisons, evaluating the tests on the condition. *)
Ltac each_comparison Hc :=
  cbn [In comparisons] in Hc;
  repeat match type of Hc with _ \/ _ => destruct Hc as [<-|Hc] end; [.. | destruct Hc].

(** Apply the lemma of the branch at the head of the goal. *)
Ltac branch_step :=
  unfold beqz, bnez, bltz;
  match goal with
  | |- branches_to (beq _ _ _ _) _ _ _ _ => apply beq_to
  | |- branches_to (bne _ _ _ _) _ _ _ _ => apply bne_to
  | |- branches_to (blt _ _ _ _) _ _ _ _ => apply blt_to
  | |- branches_to (bge _ _ _ _) _ _ _ _ => apply bge_to
  | |- branches_to (bltu _ _ _ _) _ _ _ _ => apply bltu_to
  | |- branches_to (bgeu _ _ _ _) _ _ _ _ => apply bgeu_to
  end.

Ltac branch_step_at :=
  unfold beqz, bnez, bltz;
  match goal with
  | |- branches_at _ (beq _ _ _ _) _ _ _ => apply beq_at
  | |- branches_at _ (bne _ _ _ _) _ _ _ => apply bne_at
  | |- branches_at _ (blt _ _ _ _) _ _ _ => apply blt_at
  | |- branches_at _ (bge _ _ _ _) _ _ _ => apply bge_at
  | |- branches_at _ (bltu _ _ _ _) _ _ _ => apply bltu_at
  | |- branches_at _ (bgeu _ _ _ _) _ _ _ => apply bgeu_at
  end.

Section Composition.
Context `{Target} `{HostFloat} `{Host}.

Lemma uintx_land a b : 0 <= a < 2 ^ XLEN -> uintx (a .& b) = a .& b.
Proof.
  intros Ha. apply uintx_small in Ha. unfold uintx in *.
  rewrite uwrap_land in * by apply XLEN_pos.
  by rewrite <- Z.land_assoc, (Z.land_comm b), Z.land_assoc, Ha.
Qed.

Lemma reachable_weaken n k s label : (k <= n)%nat -> reachable n s label -> reachable k s label.
Proof. intros Hk [? ? ?]. split; lia. Qed.

Lemma reachable_append n k s label code : (length code <= 4 * k)%nat ->
  reachable (k + n) s label -> reachable n (append s code) label.
Proof.
  intros Hl [Hr Hs Hg]. split; rewrite Position_append; cbn [append with_buffer labels_]; lia.
Qed.

Lemma reachable_deferred n s label c l r i :
  reachable n s label -> reachable n (with_deferred s c l r i) label.
Proof. intros [? ? ?]. by split. Qed.

Lemma branches_to_post m s label cond f g :
  (forall r i, regs_wf r -> i <> FAR_TMP -> f r i = g r i) ->
  branches_to m s label cond f -> branches_to m s label cond g.
Proof.
  intros Hfg (code & E & B). exists code. split; [done|]. intros st Hwf Hpc Hat.
  destruct (B st Hwf Hpc Hat) as (n & r & Hr & Hf & Hs). exists n, r.
  split; [done|]. split; [|done]. intros i Hi. rewrite Hf by done. apply Hfg; [apply Hwf | done].
Qed.

(** Straight-line code before a branch. *)
Lemma computes_branches_to n k m1 m2 f1 f s label cond :
  computes n m1 f1 -> full s -> reachable (n + k) s label ->
  (forall s', full s' -> reachable k s' label -> branches_to m2 s' label cond f) ->
  branches_to (_ ← m1; m2) s label (fun r => cond (f1 r)) (fun r => f (f1 r)).
Proof.
  intros C Hs Hl B. destruct (C s Hs) as (c1 & E1 & X1 & L1).
  destruct (B (append s c1)) as (c2 & E2 & B2); [done | by eapply reachable_append |].
  exists (c1 ++ c2). split; [by apply emits_bind|].
  apply executes_branches; [done|].
  rewrite Position_append in B2. cbn [append with_buffer labels_] in B2.
  replace (position_ (labels_ s label) - Position s - Z.of_nat (length c1))
    with (position_ (labels_ s label) - (Position s + Z.of_nat (length c1))) by lia. done.
Qed.

Lemma branches_to_assert x (k : unit -> asm unit) s label cond f : x = true ->
  branches_to (k tt) s label cond f -> branches_to (assert x ≫= k) s label cond f.
Proof. intros Hx. apply branches_to_eq. by apply assert_bind. Qed.

(** ** Comparing two registers *)

Lemma branch_compare_at d condition left right s :
  In condition comparisons -> 0 <= left < 32 -> 0 <= right < 32 -> full s -> in_reach d 0 s ->
  branches_at d (branch_compare condition left right (dest_label d) (dest_distance d)) s
    (fun r => holds condition (r left) (r right)) (fun r => r).
Proof.
  intros Hc Hl Hr Hs Hb.
  each_comparison Hc; unfold branch_compare, holds; closed_tests;
    unfold ble, bgt, bleu, bgtu; branch_step_at; done.
Qed.

Lemma branch_compare_to condition left right label s :
  In condition comparisons -> 0 <= left < 32 -> 0 <= right < 32 -> full s ->
  reachable 0 s label ->
  branches_to (branch_compare condition left right label kFarJump) s label
    (fun r => holds condition (r left) (r right)) (fun r => r).
Proof. exact (branch_compare_at (Bound label) condition left right s). Qed.

(** ** Deferred comparisons *)

(** The assembler after the comparison was consumed by [code]. *)
Definition consumed (s : Assembler) (code : list Z) : Assembler :=
  with_deferred (append s code) kNone (deferred_left_ s) (deferred_reg_ s) (deferred_imm_ s).

Definition branches_consuming (m : asm unit) (s : Assembler) (label : nat)
    (cond : regs -> bool) (f : regs -> regs) : Prop :=
  exists code, m s = Ok (tt, consumed s code) /\
    branches code (position_ (labels_ s label) - Position s) cond f.

Lemma BranchIf_consuming s condition label distance cond f :
  deferred_compare_ s <> kNone ->
  branches_to (branch_deferred (deferred_compare_ s) condition (deferred_left_ s)
                 (deferred_reg_ s) (deferred_imm_ s) label distance) s label cond f ->
  branches_consuming (BranchIf condition label distance) s label cond f.
Proof.
  intros Hn (code & E & B). exists code. split; [|done].
  unfold BranchIf. rewrite get_bind, assert_bind
    by (unfold is_kNone; apply negb_true_iff; by case_bool_decide).
  rewrite !get_bind. unfold mbind, M_bind. by rewrite E.
Qed.

(** The four deferred comparisons: against a register, against a constant, and the two
    bit tests. *)
Lemma branch_register_at d condition left right s : In condition comparisons ->
  0 <= left < 32 -> 0 <= right < 32 -> full s -> in_reach d 0 s ->
  forall imm, branches_at d (branch_deferred kCompareReg condition left right imm (dest_label d) (dest_distance d))
    s (fun r => holds condition (r left) (r right)) (fun r => r).
Proof. intros. by apply branch_compare_at. Qed.

Lemma branch_immediate_to condition left imm label s : In condition comparisons ->
  0 <= left < 32 -> left <> TMP2 -> - 2 ^ (XLEN - 1) <= imm < 2 ^ (XLEN - 1) ->
  full s -> reachable 8 s label ->
  forall reg, branches_to (branch_deferred kCompareImm condition left reg imm label kFarJump)
    s label (fun r => holds condition (r left) (uintx imm))
    (fun r => if imm =? 0 then r else xset r TMP2 imm).
Proof.
  intros Hc Hl Ht Hi Hs Hb reg. cbn [branch_deferred]. destruct (Z.eqb_spec imm 0) as [->|Hz].
  - eapply branches_to_ext; [|apply branch_compare_to; [done.. | by apply (reachable_weaken 8); [lia|]]].
    intros r [H0' _]. cbn beta. rewrite H0'. by rewrite uintx_small by (pose proof XLEN_pos; lia).
  - eapply branches_to_ext; [|apply (computes_branches_to 8 0 _ _ (fun r => xset r TMP2 imm) (fun r => r) _ _
      (fun r => holds condition (r left) (r TMP2))); [by apply LoadImmediate_computes | done | done |]].
    + intros r _. cbn beta. by rewrite xset_other, xset_same.
    + intros s' Hs' Hb'. by apply branch_compare_to.
Qed.

Lemma branch_test_to condition label s : In condition [Condition.ZERO; Condition.NOT_ZERO] ->
  full s -> reachable 0 s label ->
  branches_to (branch_test condition label kFarJump) s label
    (fun r => holds condition (r TMP2) 0) (fun r => r).
Proof.
  intros Hc Hs Hb. apply reachable_bound in Hb.
  cbn [In] in Hc. destruct Hc as [<-|[<-|[]]]; unfold branch_test, holds; closed_tests;
    (eapply branches_to_ext; [|branch_step; done || wside]); intros r [H0' _]; cbn beta;
    by rewrite H0'.
Qed.

Lemma branch_test_register_to condition left right label s :
  In condition [Condition.ZERO; Condition.NOT_ZERO] ->
  0 <= left < 32 -> 0 <= right < 32 -> full s -> reachable 1 s label ->
  forall imm, branches_to (branch_deferred kTestReg condition left right imm label kFarJump)
    s label (fun r => holds condition (r left .& r right) 0)
    (fun r => xset r TMP2 (r left .& r right)).
Proof.
  intros Hc Hl Hr Hs Hb imm. cbn [branch_deferred].
  eapply branches_to_ext; [|apply (computes_branches_to 1 0 _ _ (fun r => xset r TMP2 (r left .& r right))
    (fun r => r) _ _ (fun r => holds condition (r TMP2) 0));
    [by apply and_computes | done | done |]].
  - intros r [_ Hr']. cbn beta. rewrite xset_same by done. by rewrite uintx_land by apply Hr'.
  - intros s' Hs' Hb'. by apply branch_test_to.
Qed.
End Composition.

(** ** Materialising a comparison *)

Section Setting.
Context `{Target} `{HostFloat} `{Host}.

Lemma uintx_b2z b : uintx (b2z b) = b2z b.
Proof.
  apply uintx_small. assert (2 ^ 1 <= 2 ^ XLEN) by (apply Z.pow_le_mono_r; destruct XLEN_cases; lia).
  destruct b; cbn; lia.
Qed.

Lemma uintx_lxor a b : 0 <= a < 2 ^ XLEN -> 0 <= b < 2 ^ XLEN -> uintx (a .^ b) = a .^ b.
Proof.
  intros Ha%uintx_small Hb%uintx_small. unfold uintx in *.
  apply Z.bits_inj'. intros i Hi. rewrite testbit_uwrap by (lia || apply XLEN_pos).
  rewrite !Z.lxor_spec, <- Ha, <- Hb, !testbit_uwrap by (lia || apply XLEN_pos).
  by destruct (i <? XLEN).
Qed.

Lemma IsITypeImm_one : IsITypeImm 1 = true.
Proof. by apply IsITypeImm_spec. Qed.

Lemma uintx_one : uintx 1 = 1.
Proof. exact (uintx_b2z true). Qed.

Lemma negate_computes n m rd (p : regs -> bool) : 0 <= rd < 32 -> rd <> ZR ->
  computes n m (fun r => xset r rd (b2z (p r))) ->
  computes (n + 1) (_ ← m; xori rd rd 1) (fun r => xset r rd (b2z (negb (p r)))).
Proof.
  intros Hd Hz C. eapply computes_ext;
    [|apply computes_bind; [exact C | apply xori_computes; [done.. | apply IsITypeImm_one]]].
  intros r _. cbn beta. rewrite xset_xset, xset_same, uintx_b2z, uintx_one by done.
  by destruct (p r).
Qed.

Lemma seqz_computes rd rs : 0 <= rd < 32 -> 0 <= rs < 32 ->
  computes 1 (seqz rd rs) (fun r => xset r rd (b2z (r rs =? 0))).
Proof.
  intros Hd Hs. eapply computes_ext; [|apply sltiu_computes; [done.. | apply IsITypeImm_one]].
  intros r [_ Hr]. cbn beta. rewrite uintx_one. do 2 f_equal. pose proof (Hr rs).
  destruct (Z.ltb_spec (r rs) 1), (Z.eqb_spec (r rs) 0); done || lia.
Qed.

Lemma snez_computes rd rs : 0 <= rd < 32 -> 0 <= rs < 32 ->
  computes 1 (snez rd rs) (fun r => xset r rd (b2z (negb (r rs =? 0)))).
Proof.
  intros Hd Hs. eapply computes_ext; [|apply sltu_computes; wside].
  intros r [Hz Hr]. cbn beta. rewrite Hz. do 2 f_equal. pose proof (Hr rs).
  destruct (Z.ltb_spec 0 (r rs)), (Z.eqb_spec (r rs) 0); done || lia.
Qed.

Lemma zero_test_computes n m rd v : 0 <= rd < 32 -> rd <> ZR ->
  computes n m (fun r => xset r rd (v r)) ->
  computes (n + 1) (_ ← m; seqz rd rd) (fun r => xset r rd (b2z (uintx (v r) =? 0))) /\
  computes (n + 1) (_ ← m; snez rd rd) (fun r => xset r rd (b2z (negb (uintx (v r) =? 0)))).
Proof.
  intros Hd Hz C.
  split; (eapply computes_ext;
    [|apply computes_bind; [exact C | by apply seqz_computes || by apply snez_computes]]);
    intros r _; cbn beta; by rewrite xset_xset, xset_same by done.
Qed.

Lemma lxor_zero a b : (a .^ b =? 0) = (a =? b).
Proof.
  destruct (Z.eqb_spec a b) as [->|Hn]; [by rewrite Z.lxor_nilpotent|].
  apply Z.eqb_neq. by rewrite Z.lxor_eq_0_iff.
Qed.

Lemma one_step n m rd (p q : regs -> bool) : (n <= 2)%nat ->
  (forall r, regs_wf r -> p r = q r) -> computes n m (fun r => xset r rd (b2z (p r))) ->
  computes 2 m (fun r => xset r rd (b2z (q r))).
Proof.
  intros Hn Hpq C. apply (computes_weaken n); [done|]. eapply computes_ext; [|exact C].
  intros r Hr. cbn beta. by rewrite Hpq.
Qed.

Ltac use_computes :=
  match goal with E : computes _ ?m _ |- computes _ ?m _ => exact E end.

Lemma set_compare_reg_computes condition rd left right : In condition comparisons ->
  0 <= rd < 32 -> rd <> ZR -> 0 <= left < 32 -> 0 <= right < 32 ->
  computes 2 (set_compare_reg condition rd left right)
    (fun r => xset r rd (b2z (holds condition (r left) (r right)))).
Proof.
  intros Hc Hd Hz Hl Hr.
  pose proof (slt_computes rd left right Hd Hl Hr). pose proof (slt_computes rd right left Hd Hr Hl).
  pose proof (sltu_computes rd left right Hd Hl Hr). pose proof (sltu_computes rd right left Hd Hr Hl).
  destruct (zero_test_computes 1 (xor_ rd left right) rd (fun r => r left .^ r right))
    as [Hseqz Hsnez]; [done | done | by apply xor_computes |].
  each_comparison Hc; unfold set_compare_reg, holds; closed_tests.
  1, 2: destruct (Z.eqb_spec right ZR) as [->|_].
  1, 3: eapply (one_step 1); [lia | | by apply seqz_computes || by apply snez_computes];
        intros r [H0' _]; by rewrite H0'.
  1, 2: eapply (one_step (1 + 1)); [lia | | use_computes]; intros r [_ Hw]; cbn beta;
        by rewrite uintx_lxor, lxor_zero by done.
  all: lazymatch goal with
       | |- computes _ (_ ≫= _) _ =>
           eapply (one_step (1 + 1)); [lia | | apply (negate_computes 1); [done | done | use_computes]];
           intros r _; cbn beta; by rewrite ?Z.leb_antisym
       | _ => eapply (one_step 1); [lia | | use_computes]; done
       end.
Qed.

(** The words a constant and its successor stand for. *)
Lemma intx_uintx_imm imm : - 2 ^ (XLEN - 1) <= imm < 2 ^ (XLEN - 1) -> intx (uintx imm) = imm.
Proof. intros Hi. unfold intx, uintx. rewrite swrap_uwrap by apply XLEN_pos.
  by apply (swrap_small XLEN XLEN_pos). Qed.

Lemma IsITypeImm_word imm : IsITypeImm imm = true -> - 2 ^ (XLEN - 1) <= imm < 2 ^ (XLEN - 1).
Proof.
  intros Hi%IsITypeImm_spec. assert (2 ^ 11 <= 2 ^ (XLEN - 1)).
  { apply Z.pow_le_mono_r; destruct XLEN_cases; lia. } lia.
Qed.

Lemma intx_imm imm : IsITypeImm imm = true -> intx imm = imm.
Proof. intros Hi. by apply (swrap_small XLEN XLEN_pos), IsITypeImm_word. Qed.

Lemma uintx_succ imm : - 2 ^ (XLEN - 1) <= imm < 2 ^ (XLEN - 1) -> imm <> -1 ->
  uintx (imm + 1) = uintx imm + 1.
Proof.
  intros Hi Hn. pose proof (pow2_half XLEN XLEN_pos). destruct (Z.lt_ge_cases imm 0).
  - unfold uintx. rewrite <- (uwrap_plus_mul XLEN XLEN_pos imm 1).
    rewrite <- (uwrap_plus_mul XLEN XLEN_pos (imm + 1) 1), !(uwrap_small XLEN XLEN_pos) by lia. lia.
  - rewrite !uintx_small by lia. lia.
Qed.

(** [SetIf] against [-1] is wrong for two of the unsigned conditions; see [Findings]. *)
Definition set_imm_ok (condition imm : Z) : Prop :=
  imm = -1 -> condition <> Condition.UNSIGNED_LESS_EQUAL /\ condition <> Condition.UNSIGNED_GREATER.

Lemma set_compare_imm_computes condition rd left imm : In condition comparisons ->
  0 <= rd < 32 -> rd <> ZR -> 0 <= left < 32 ->
  IsITypeImm imm = true -> IsITypeImm (imm + 1) = true -> set_imm_ok condition imm ->
  computes 2 (set_compare_imm condition rd left imm)
    (fun r => xset r rd (b2z (holds condition (r left) (uintx imm)))).
Proof.
  intros Hc Hd Hz Hl Hi Hi1 Hok. pose proof (IsITypeImm_word imm Hi) as Hw.
  pose proof (slti_computes rd left imm Hd Hl Hi). pose proof (slti_computes rd left (imm + 1) Hd Hl Hi1).
  pose proof (sltiu_computes rd left imm Hd Hl Hi). pose proof (sltiu_computes rd left (imm + 1) Hd Hl Hi1).
  destruct (zero_test_computes 1 (xori rd left imm) rd (fun r => r left .^ uintx imm))
    as [Hseqz Hsnez]; [done | done | by apply xori_computes |].
  each_comparison Hc; unfold set_compare_imm, holds; closed_tests.
  1, 2: eapply (one_step (1 + 1)); [lia | | use_computes]; intros r [_ Hr]; cbn beta;
        by rewrite uintx_lxor, lxor_zero by first [done | apply uintx_bound].
  all: try (assert (imm <> -1) as Hn by (intros E; destruct (Hok E); congruence);
            pose proof (uintx_succ imm Hw Hn)).
  all: lazymatch goal with
       | |- computes _ (_ ≫= _) _ =>
           eapply (one_step (1 + 1)); [lia | | apply (negate_computes 1); [done | done | use_computes]]
       | _ => eapply (one_step 1); [lia | | use_computes]
       end; intros r _; cbn beta; rewrite ?(intx_uintx_imm imm), ?(intx_imm imm), ?(intx_imm (imm + 1)) by done;
       rewrite <- ?Z.leb_antisym; first [done | lia].
Qed.

Definition sets_consuming (m : asm unit) (s : Assembler) (f : regs -> regs) : Prop :=
  exists code reg, m s = Ok (tt, with_deferred (append s code) kNone (deferred_left_ s) reg (deferred_imm_ s)) /\
    executes code f.

Lemma SetIf_open s condition rd : deferred_compare_ s <> kNone ->
  SetIf condition rd s =
  (_ ← set_deferred (deferred_compare_ s) condition rd (deferred_left_ s) (deferred_reg_ s)
         (deferred_imm_ s); consume_deferred) s.
Proof.
  intros Hn. unfold SetIf. rewrite get_bind, assert_bind
    by (unfold is_kNone; apply negb_true_iff; by case_bool_decide).
  by rewrite !get_bind.
Qed.

Lemma SetIf_register s condition rd : deferred_compare_ s = kCompareReg -> full s ->
  In condition comparisons -> 0 <= rd < 32 -> rd <> ZR ->
  0 <= deferred_left_ s < 32 -> 0 <= deferred_reg_ s < 32 ->
  sets_consuming (SetIf condition rd) s
    (fun r => xset r rd (b2z (holds condition (r (deferred_left_ s)) (r (deferred_reg_ s))))).
Proof.
  intros Hk Hs Hc Hd Hz Hl Hr.
  destruct (set_compare_reg_computes condition rd _ _ Hc Hd Hz Hl Hr s Hs) as (code & E & X & _).
  exists code, (deferred_reg_ s). split; [|done]. rewrite SetIf_open by congruence.
  rewrite Hk. cbn [set_deferred]. unfold mbind, M_bind. by rewrite E.
Qed.

(** [TMP2] after a comparison with a constant that is neither zero nor an immediate. *)
Definition set_constant (r : regs) (imm : Z) : regs :=
  if imm =? 0 then r
  else if negb (IsITypeImm imm) || negb (IsITypeImm (imm + 1)) then xset r TMP2 imm else r.

Lemma SetIf_immediate s condition rd : let imm := deferred_imm_ s in
  deferred_compare_ s = kCompareImm -> full s ->
  In condition comparisons -> 0 <= rd < 32 -> rd <> ZR ->
  0 <= deferred_left_ s < 32 -> deferred_left_ s <> TMP2 ->
  - 2 ^ (XLEN - 1) <= imm < 2 ^ (XLEN - 1) -> set_imm_ok condition imm ->
  sets_consuming (SetIf condition rd) s
    (fun r => xset (set_constant r imm) rd (b2z (holds condition (r (deferred_left_ s)) (uintx imm)))).
Proof.
  intros imm Hk Hs Hc Hd Hz Hl Ht Hi Hok. unfold sets_consuming, set_constant.
  rewrite SetIf_open, Hk by congruence. cbn [set_deferred]. fold imm.
  destruct (Z.eqb_spec imm 0) as [E0|Hn0];
    [|destruct (negb (IsITypeImm imm) || negb (IsITypeImm (imm + 1))) eqn:EI].
  - destruct (set_compare_reg_computes condition rd (deferred_left_ s) ZR Hc Hd Hz Hl ltac:(wside)
                (with_deferred s kCompareReg (deferred_left_ s) ZR imm) Hs) as (code & E & X & _).
    exists code, ZR. split; [unfold mbind, M_bind, modify; by rewrite E|].
    eapply executes_ext; [|exact X]. intros r [H0' _]. cbn beta. rewrite H0', E0.
    by rewrite uintx_small by (pose proof XLEN_pos; lia).
  - destruct (LoadImmediate_computes TMP2 imm ltac:(wside) ltac:(done) Hi s Hs) as (c1 & E1 & X1 & _).
    destruct (set_compare_reg_computes condition rd (deferred_left_ s) TMP2 Hc Hd Hz Hl ltac:(wside)
                (with_deferred (append s c1) kCompareReg (deferred_left_ s) TMP2 imm) Hs)
      as (c2 & E2 & X2 & _).
    exists (c1 ++ c2), TMP2. split.
    + unfold mbind, M_bind, modify. rewrite E1, E2. rewrite <- append_append. done.
    + eapply executes_ext; [|apply executes_app; [exact X1 | exact X2]]. intros r _. cbn beta.
      by rewrite xset_other, (xset_same r) by done.
  - to_prop. destruct (set_compare_imm_computes condition rd (deferred_left_ s) imm Hc Hd Hz Hl
      ltac:(done) ltac:(done) Hok s Hs) as (code & E & X & _).
    exists code, (deferred_reg_ s). split; [|done]. unfold mbind, M_bind. by rewrite E.
Qed.
End Setting.

(** ** Comparing and consuming in sequence *)

Section Sequencing.
Context `{Target} `{HostFloat} `{Host}.

Lemma CompareRegisters_ok s rn rm : deferred_compare_ s = kNone ->
  CompareRegisters rn rm s = Ok (tt, with_deferred s kCompareReg rn rm (deferred_imm_ s)).
Proof.
  intros E. unfold CompareRegisters. rewrite get_bind, assert_bind; [done|].
  unfold is_kNone. by rewrite bool_decide_true.
Qed.

Lemma CompareImmediate_ok s rn imm : deferred_compare_ s = kNone ->
  CompareImmediate rn imm s = Ok (tt, with_deferred s kCompareImm rn (deferred_reg_ s) imm).
Proof.
  intros E. unfold CompareImmediate. rewrite get_bind, assert_bind; [done|].
  unfold is_kNone. by rewrite bool_decide_true.
Qed.

Lemma TestRegisters_ok s rn rm : deferred_compare_ s = kNone ->
  TestRegisters rn rm s = Ok (tt, with_deferred s kTestReg rn rm (deferred_imm_ s)).
Proof.
  intros E. unfold TestRegisters. rewrite get_bind, assert_bind; [done|].
  unfold is_kNone. by rewrite bool_decide_true.
Qed.

(** The code of a comparison and its use, with no comparison left pending. *)
Definition compares (m : asm unit) (s : Assembler) (code : list Z) : Prop :=
  exists left reg imm, m s = Ok (tt, with_deferred (append s code) kNone left reg imm).

Definition compares_branches (m : asm unit) (s : Assembler) (label : nat)
    (cond : regs -> bool) (f : regs -> regs) : Prop :=
  exists code, compares m s code /\
    branches code (position_ (labels_ s label) - Position s) cond f.

(** The same for both kinds of labels. *)
Definition compares_branches_at (d : destination) (m : asm unit) (s : Assembler)
    (cond : regs -> bool) (f : regs -> regs) : Prop :=
  match d with
  | Bound label => compares_branches m s label cond f
  | Unbound label ls _ => branches_forward m s label ls cond f /\
      exists s', m s = Ok (tt, s') /\ deferred_compare_ s' = kNone
  end.

Definition compares_sets (m : asm unit) (s : Assembler) (f : regs -> regs) : Prop :=
  exists code, compares m s code /\ executes code f.

Lemma compares_branches_intro m1 c left reg imm condition label s cond f :
  m1 s = Ok (tt, with_deferred s c left reg imm) -> c <> kNone ->
  branches_to (branch_deferred c condition left reg imm label kFarJump)
    (with_deferred s c left reg imm) label cond f ->
  compares_branches (_ ← m1; BranchIf condition label kFarJump) s label cond f.
Proof.
  intros E Hc B.
  destruct (BranchIf_consuming (with_deferred s c left reg imm) condition label kFarJump cond f)
    as (code & E2 & B2); [done | done |].
  exists code. split; [|exact B2]. exists left, reg, imm. unfold mbind, M_bind. by rewrite E, E2.
Qed.

(** The remembered comparison matters to no label. *)
Lemma linked_deferred s label ls c l r i : linked s label ls -> linked (with_deferred s c l r i) label ls.
Proof. intros []. by split. Qed.

Lemma in_reach_deferred d n s c l r i : in_reach d n s -> in_reach d n (with_deferred s c l r i).
Proof.
  destruct d; cbn [in_reach]; [apply reachable_deferred|]. intros (L & Hs & Hl). split_and!; [|done | done].
  by apply linked_deferred.
Qed.

Lemma compares_branches_at_intro d m1 c left reg imm condition s cond f :
  m1 s = Ok (tt, with_deferred s c left reg imm) -> c <> kNone ->
  branches_at d (branch_deferred c condition left reg imm (dest_label d) (dest_distance d))
    (with_deferred s c left reg imm) cond f ->
  compares_branches_at d (_ ← m1; BranchIf condition (dest_label d) (dest_distance d)) s cond f.
Proof.
  destruct d as [label|label ls distance]; [apply compares_branches_intro|]. cbn [branches_at compares_branches_at dest_label dest_distance].
  intros E Hc (s' & ls' & Em & L & C & Hp & B).
  assert ((_ ← m1; BranchIf condition label distance) s =
    Ok (tt, with_deferred s' kNone (deferred_left_ s') (deferred_reg_ s') (deferred_imm_ s'))) as Es.
  { unfold mbind at 1, M_bind at 1. rewrite E. unfold BranchIf.
    rewrite get_bind, assert_bind by (unfold is_kNone; apply negb_true_iff; by case_bool_decide).
    rewrite !get_bind. cbn [deferred_compare_ deferred_left_ deferred_reg_ deferred_imm_ with_deferred].
    unfold mbind, M_bind. by rewrite Em. }
  split; [|by eexists]. exists (with_deferred s' kNone (deferred_left_ s') (deferred_reg_ s') (deferred_imm_ s')), ls'.
  split_and!; [done | by apply linked_deferred | | done |].
  - destruct C as [C1 C2 C3]. by split.
  - intros s2 ls2 s3 [C1 C2 C3] L2 R EB. apply (B s2 ls2 s3); [by split | done..].
Qed.

Lemma compares_sets_intro m1 c left reg imm condition rd s f :
  m1 s = Ok (tt, with_deferred s c left reg imm) ->
  sets_consuming (SetIf condition rd) (with_deferred s c left reg imm) f ->
  compares_sets (_ ← m1; SetIf condition rd) s f.
Proof.
  intros E (code & reg' & E2 & X). exists code. split; [|exact X].
  exists left, reg', imm. unfold mbind, M_bind. by rewrite E, E2.
Qed.
End Sequencing.
