(* ===== verification/Overflow.v ===== *)
(** * Arithmetic with overflow checks

    [AddBranchOverflow], [SubtractBranchOverflow], [MultiplyBranchOverflow] and the forms
    with a constant leave the wrapped result in the destination and branch exactly when the
    exact result does not fit a signed word, to a label bound before or later.  The register
    aliasings for which the code does something else are excluded here and shown in
    [Findings]. *)
From S2P Require Import Prelude Utils Constants EncodingFacts Words CWords Memory Float.
From S2P Require Import SimState SimInteger SimFloat Simulator Exec Effects AsmState.
From S2P Require Import MicroAssembler Emission Computes Macros MacroFacts Branches Arithmetic.
From S2P Require Import Patching Labels Forward MacroBranches.

Section Wrapping.
Context `{Target}.

Lemma intx_idem z : intx (intx z) = intx z.
Proof. apply (swrap_idem XLEN XLEN_pos). Qed.

Definition overflows (v : Z) : bool := negb (intx v =? v).

Lemma b2z_differ x y : negb (b2z x =? b2z y) = negb (Bool.eqb x y).
Proof. by destruct x, y. Qed.

Lemma xorb_eqb x y : xorb x y = negb (Bool.eqb x y).
Proof. by destruct x, y. Qed.

Lemma intx_once z : - 2 ^ XLEN <= z < 2 ^ XLEN ->
  (intx z = z /\ - 2 ^ (XLEN - 1) <= z < 2 ^ (XLEN - 1)) \/
  (intx z = z - 2 ^ XLEN /\ 2 ^ (XLEN - 1) <= z) \/
  (intx z = z + 2 ^ XLEN /\ z < - 2 ^ (XLEN - 1)).
Proof.
  intros Hz. pose proof (pow2_half XLEN XLEN_pos).
  destruct (Z.lt_ge_cases z (- 2 ^ (XLEN - 1))); [right; right|
    destruct (Z.lt_ge_cases z (2 ^ (XLEN - 1))); [left | right; left]]; split; try lia.
  - rewrite <- (intx_small (z + 2 ^ XLEN)) by lia.
    replace (z + 2 ^ XLEN) with (z + 1 * 2 ^ XLEN) by lia.
    symmetry. apply (swrap_plus_mul XLEN XLEN_pos).
  - apply intx_small. lia.
  - rewrite <- (intx_small (z - 2 ^ XLEN)) by lia.
    replace (z - 2 ^ XLEN) with (z + (-1) * 2 ^ XLEN) by lia.
    symmetry. apply (swrap_plus_mul XLEN XLEN_pos).
Qed.

(** The four tests the code makes, on signed words. *)
Section Tests.
Context (a b : Z) (Ha : - 2 ^ (XLEN - 1) <= a < 2 ^ (XLEN - 1))
  (Hb : - 2 ^ (XLEN - 1) <= b < 2 ^ (XLEN - 1)).
#[local] Set Default Proof Using "Ha Hb".

Lemma add_overflow_test : negb (b2z (b <? 0) =? b2z (intx (a + b) <? a)) = overflows (a + b).
Proof.
  pose proof (pow2_half XLEN XLEN_pos). rewrite b2z_differ. unfold overflows.
  destruct (intx_once (a + b)) as [[-> ?]|[[-> ?]|[-> ?]]]; lia.
Qed.

(** For a constant [b] the test depends on its sign. *)
Lemma add_constant_test : overflows (a + b) =
  if 0 <? b then intx (a + b) <? a else if b <? 0 then a <? intx (a + b) else false.
Proof.
  pose proof (pow2_half XLEN XLEN_pos). unfold overflows.
  destruct (intx_once (a + b)) as [[-> ?]|[[-> ?]|[-> ?]]]; [lia | ..];
    destruct (Z.ltb_spec 0 b), (Z.ltb_spec b 0); lia.
Qed.

Lemma sub_overflow_test : negb (b2z (b <? 0) =? b2z (a <? intx (a - b))) = overflows (a - b).
Proof.
  pose proof (pow2_half XLEN XLEN_pos). rewrite b2z_differ. unfold overflows.
  destruct (intx_once (a - b)) as [[-> ?]|[[-> ?]|[-> ?]]]; lia.
Qed.

Lemma double_overflow_test : xorb (a <? 0) (intx (a + a) <? 0) = overflows (a + a).
Proof using Ha.
  clear Hb b.
  pose proof (pow2_half XLEN XLEN_pos). rewrite xorb_eqb. unfold overflows.
  destruct (intx_once (a + a)) as [[-> ?]|[[-> ?]|[-> ?]]]; lia.
Qed.

(** The product fits exactly when its high word is the sign of its low word. *)
Lemma mul_overflow_test :
  negb (a * b / 2 ^ XLEN =? intx (a * b) >> (XLEN - 1)) = overflows (a * b).
Proof.
  pose proof (pow2_half XLEN XLEN_pos) as HH. pose proof XLEN_pos as Hx.
  pose proof (intx_bound (a * b)) as Hw.
  destruct (swrap_spec XLEN XLEN_pos (a * b)) as [k Hk]. fold (intx (a * b)) in Hk.
  unfold overflows. rewrite Z.shiftr_div_pow2 by lia. set (w := intx (a * b)) in *.
  set (S := 2 ^ (XLEN - 1)) in *. f_equal.
  assert (w / S = if w <? 0 then -1 else 0) as ->.
  { destruct (Z.ltb_spec w 0); symmetry;
      [apply (Z.div_unique_pos w S (-1) (w + S)) | apply (Z.div_unique_pos w S 0 w)]; lia. }
  assert (a * b / 2 ^ XLEN = (if w <? 0 then -1 else 0) - k) as ->.
  { destruct (Z.ltb_spec w 0); symmetry;
      [apply (Z.div_unique_pos _ _ _ (w + 2 ^ XLEN)) | apply (Z.div_unique_pos _ _ _ w)]; lia. }
  destruct (Z.eqb_spec w (a * b)); [apply Z.eqb_eq | apply Z.eqb_neq]; destruct (w <? 0); nia.
Qed.
End Tests.

Lemma uintx_eqb x y : - 2 ^ (XLEN - 1) <= x < 2 ^ (XLEN - 1) ->
  - 2 ^ (XLEN - 1) <= y < 2 ^ (XLEN - 1) -> (uintx x =? uintx y) = (x =? y).
Proof.
  intros Hx Hy. destruct (Z.eqb_spec x y) as [->|Hn]; [apply Z.eqb_refl|].
  apply Z.eqb_neq. intros E. apply Hn. by rewrite <- (intx_small x), <- (intx_small y),
    <- (intx_uintx x), E, intx_uintx by done.
Qed.

Lemma mul_high_range x y : - 2 ^ (XLEN - 1) <= x < 2 ^ (XLEN - 1) ->
  - 2 ^ (XLEN - 1) <= y < 2 ^ (XLEN - 1) ->
  - 2 ^ (XLEN - 1) <= x * y / 2 ^ XLEN < 2 ^ (XLEN - 1).
Proof.
  intros Hx Hy. pose proof (pow2_half XLEN XLEN_pos) as HH.
  assert (1 <= 2 ^ (XLEN - 1)) by lia. rewrite HH. set (S := 2 ^ (XLEN - 1)) in *.
  assert (- (S * S) <= x * y <= S * S) by nia.
  split; [apply Z.div_le_lower_bound | apply Z.div_lt_upper_bound]; nia.
Qed.

Lemma shiftr_word_range x : - 2 ^ (XLEN - 1) <= x < 2 ^ (XLEN - 1) ->
  - 2 ^ (XLEN - 1) <= x >> (XLEN - 1) < 2 ^ (XLEN - 1).
Proof.
  intros Hx. pose proof XLEN_pos. rewrite Z.shiftr_div_pow2 by lia.
  pose proof (pow2_half XLEN XLEN_pos). assert (1 <= 2 ^ (XLEN - 1)) by lia.
  split; [apply Z.div_le_lower_bound | apply Z.div_lt_upper_bound]; nia.
Qed.

Lemma sign_testbit x : 0 <= x < 2 ^ XLEN -> (intx x <? 0) = Z.testbit x (XLEN - 1).
Proof.
  intros Hx. pose proof (pow2_half XLEN XLEN_pos) as HH. pose proof XLEN_pos.
  rewrite Z.testbit_eqb by lia. destruct (intx_once x) as [[-> ?]|[[-> ?]|[-> ?]]]; [lia | | | lia].
  - rewrite Z.div_small by lia. apply Z.ltb_ge. lia.
  - rewrite <- (Z.div_unique_pos x (2 ^ (XLEN - 1)) 1 (x - 2 ^ (XLEN - 1))) by lia. apply Z.ltb_lt. lia.
Qed.

Lemma lxor_sign x y : 0 <= x < 2 ^ XLEN -> 0 <= y < 2 ^ XLEN ->
  (intx (x .^ y) <? 0) = xorb (intx x <? 0) (intx y <? 0).
Proof.
  intros Hx Hy. rewrite (sign_testbit x), (sign_testbit y) by done.
  rewrite sign_testbit, Z.lxor_spec; [done|].
  rewrite <- uintx_lxor by done. apply uintx_bound.
Qed.
End Wrapping.

(** Read registers through a sequence of writes. *)
Ltac read_regs :=
  repeat match goal with
  | |- context [xset ?r ?a ?v ?b] =>
      let E := fresh in
      first [ constr_eq a b;
              assert (xset r a v b = uintx v) as E by (apply xset_same; first [done | congruence])
            | assert (xset r a v b = r b) as E by (apply xset_other; first [done | congruence]) ];
      revert E; generalize (xset r a v b); intros ? ->
  end.

Ltac result_regs :=
  intros r Hr; cbv beta; split; [|intros; by read_regs]; read_regs.

Ltac use_reach := match goal with R : reachable _ ?s _ |- reachable _ ?s _ => exact R end.

(** One instruction of the straight-line part, and the final branch. *)
Ltac straight tac :=
  eapply (computes_branches_to 1);
    [ tac | done
    | use_reach
    | intros ? ? ? ].
Ltac branch_end :=
  branch_step; [wside | wside | done | eapply reachable_bound; eassumption].

(** The same for either kind of label. *)
Ltac straight_at tac sh :=
  eapply (computes_branches_at _ 1);
    [ tac | sh | done
    | match goal with R : in_reach _ _ ?s |- in_reach _ _ ?s => exact R end
    | intros ? ? ? ].
Ltac branch_end_at Hfar :=
  rewrite <- Hfar; branch_step_at; [wside | wside | done | eapply in_reach_weaken; [|eassumption]; lia].

Section Checked.
Context `{Target} `{HostFloat} `{Host}.

Lemma mul_intx a b : SimInteger.mul a b = intx (a * b).
Proof. done. Qed.

#[local] Opaque xset SimInteger.mul SimInteger.mulh.

(** [m] leaves the exact result [value], wrapped, in [rd], branches to [label] if it does
    not fit, and changes no other register than the temporaries. *)
Definition checks_overflow (m : asm unit) (s : Assembler) (label : nat) (rd : Z)
    (value : regs -> Z) : Prop :=
  exists f, branches_to m s label (fun r => overflows (value r)) f /\
    forall r, regs_wf r -> f r rd = uintx (value r) /\
      forall i, i <> rd -> i <> TMP -> i <> TMP2 -> f r i = r i.

(** The same for either kind of label. *)
Definition checks_overflow_at (d : destination) (m : asm unit) (s : Assembler) (rd : Z)
    (value : regs -> Z) : Prop :=
  exists f, branches_at d m s (fun r => overflows (value r)) f /\
    forall r, regs_wf r -> f r rd = uintx (value r) /\
      forall i, i <> rd -> i <> TMP -> i <> TMP2 -> f r i = r i.

Lemma checks_overflow_at_eq d m m' s rd value : m s = m' s ->
  checks_overflow_at d m' s rd value -> checks_overflow_at d m s rd value.
Proof. intros E (f & B & Hf). exists f. split; [by eapply branches_at_eq | done]. Qed.

(** One instruction each. *)
Lemma mulh_short rd rs1 rs2 : short 4 (mulh rd rs1 rs2).
Proof. unfold mulh. short_instruction. Qed.
Lemma mul_short rd rs1 rs2 : short 4 (mul rd rs1 rs2).
Proof. unfold mul. short_instruction. Qed.
Lemma srai_short rd rs imm : short 4 (srai rd rs imm).
Proof. unfold srai, c_srai. short_instruction. Qed.
Lemma sub_short rd rs1 rs2 : short 4 (sub rd rs1 rs2).
Proof. unfold sub, c_sub. short_instruction. Qed.
Lemma add_short rd rs1 rs2 : short 4 (add rd rs1 rs2).
Proof. unfold add, c_add. short_instruction. Qed.
Lemma xor_short rd rs1 rs2 : short 4 (xor_ rd rs1 rs2).
Proof. unfold xor_, c_xor. short_instruction. Qed.
Lemma slt_short rd rs1 rs2 : short 4 (slt rd rs1 rs2).
Proof. unfold slt. short_instruction. Qed.
Lemma slti_short rd rs imm : short 4 (slti rd rs imm).
Proof. unfold slti. short_instruction. Qed.
Lemma mv_short rd rs : short 4 (mv rd rs).
Proof. apply addi_short. Qed.

Lemma IsITypeImm_zero : IsITypeImm 0 = true.
Proof. by apply IsITypeImm_spec. Qed.

Lemma intx_zero : intx 0 = 0.
Proof. apply intx_small. pose proof (pow2_pos (XLEN - 1) ltac:(destruct XLEN_cases; lia)). lia. Qed.

Lemma checks_overflow_eq m m' s label rd value : m s = m' s ->
  checks_overflow m' s label rd value -> checks_overflow m s label rd value.
Proof. intros E (f & B & Hf). exists f. split; [by eapply branches_to_eq | done]. Qed.

Lemma mv_computes rd rs : 0 <= rd < 32 -> 0 <= rs < 32 ->
  computes 1 (mv rd rs) (fun r => xset r rd (r rs)).
Proof.
  intros Hd Hs. eapply computes_ext; [|apply addi_computes; [done | done |]].
  - intros r _. cbn beta. by rewrite Z.add_0_r.
  - apply IsITypeImm_zero.
Qed.

Lemma assert_no_temps_bind {B} rd rs1 rs2 (k : unit -> asm B) s :
  rd <> TMP -> rd <> TMP2 -> rs1 <> TMP -> rs1 <> TMP2 -> rs2 <> TMP -> rs2 <> TMP2 ->
  (assert_no_temps rd rs1 rs2 ≫= k) s = k tt s.
Proof.
  intros. unfold assert_no_temps, mbind, M_bind, assert, lift.
  by rewrite !ASSERT_true by by apply negb_true_iff, Z.eqb_neq.
Qed.

(** A checked operation on the registers' signed values whose result is that of the
    unsigned one. *)
Lemma uintx_signed_add x y : uintx (intx x + intx y) = uintx (x + y).
Proof. by rewrite <- uintx_add_l, <- uintx_add_r, !uintx_intx, uintx_add_l, uintx_add_r. Qed.

Lemma intx_signed_add x y : intx (x + y) = intx (intx x + intx y).
Proof. by rewrite <- !(intx_uintx (_ + _)), uintx_signed_add. Qed.

Lemma uintx_signed_sub x y : uintx (intx x - intx y) = uintx (x - y).
Proof.
  unfold uintx, intx. rewrite <- (uwrap_sub_l XLEN XLEN_pos), <- (uwrap_sub_r XLEN XLEN_pos).
  rewrite !(uwrap_swrap XLEN XLEN_pos).
  by rewrite (uwrap_sub_l XLEN XLEN_pos), (uwrap_sub_r XLEN XLEN_pos).
Qed.

Lemma intx_signed_sub x y : intx (x - y) = intx (intx x - intx y).
Proof. by rewrite <- !(intx_uintx (_ - _)), uintx_signed_sub. Qed.

Lemma double_words x : 0 <= x < 2 ^ XLEN ->
  (intx (uintx (x .^ uintx (x + x))) <? intx 0) = overflows (intx x + intx x).
Proof.
  intros Hx. rewrite intx_zero, intx_uintx, lxor_sign by first [done | apply uintx_bound].
  rewrite intx_uintx, intx_signed_add. apply double_overflow_test, intx_bound.
Qed.

Lemma add_words x y :
  negb (uintx (b2z (intx y <? intx 0)) =? uintx (b2z (intx (uintx (x + y)) <? intx x))) =
  overflows (intx x + intx y).
Proof.
  rewrite !uintx_b2z, intx_uintx, intx_signed_add, intx_zero.
  apply add_overflow_test; apply intx_bound.
Qed.

Section Registers.
Context (rd rs1 rs2 : Z) (d : destination) (s : Assembler).
Context (Hd : 0 <= rd < 32) (Hs1 : 0 <= rs1 < 32) (Hs2 : 0 <= rs2 < 32).
Context (Hdz : rd <> ZR) (Hd1 : rd <> TMP) (Hd2 : rd <> TMP2).
Context (H1t : rs1 <> TMP) (H1t2 : rs1 <> TMP2) (H2t : rs2 <> TMP) (H2t2 : rs2 <> TMP2).
Context (Hfull : full s) (Hreach : in_reach d 8 s) (Hfar : dest_distance d = kFarJump).

Lemma MultiplyBranchOverflow_checks :
  checks_overflow_at d (MultiplyBranchOverflow rd rs1 rs2 (dest_label d)) s rd
    (fun r => intx (r rs1) * intx (r rs2)).
Proof using Hd Hs1 Hs2 Hdz Hd1 Hd2 H1t H1t2 H2t H2t2 Hfull Hreach Hfar.
  eexists. split.
  - eapply branches_at_eq; [by apply assert_no_temps_bind|]. eapply branches_at_ext;
      [|straight_at ltac:(apply mulh_computes; wside) ltac:(apply mulh_short); straight_at ltac:(apply mul_computes; wside) ltac:(apply mul_short);
        straight_at ltac:(apply srai_computes; [wside | done | destruct XLEN_cases; lia]) ltac:(apply srai_short); branch_end_at Hfar].
    intros r Hr. cbv beta. read_regs.
    rewrite <- (mul_overflow_test (intx (r rs1)) (intx (r rs2))) by apply intx_bound.
    rewrite mulh_high by apply intx_bound. rewrite !mul_intx, intx_uintx, intx_idem.
    f_equal. apply uintx_eqb; [apply mul_high_range | apply shiftr_word_range]; apply intx_bound.
  - result_regs.
    by rewrite !mul_intx, uintx_intx.
Qed.

(** The subtraction, for three different registers. *)
Lemma SubtractBranchOverflow_checks : rd <> rs1 -> rd <> rs2 -> rs1 <> rs2 ->
  checks_overflow_at d (SubtractBranchOverflow rd rs1 rs2 (dest_label d)) s rd
    (fun r => intx (r rs1) - intx (r rs2)).
Proof using Hd Hs1 Hs2 Hdz Hd1 Hd2 H1t H1t2 H2t H2t2 Hfull Hreach Hfar.
  intros N1 N2 N3. eexists. split.
  - eapply branches_at_eq; [by apply assert_no_temps_bind|].
    rewrite !(proj2 (Z.eqb_neq _ _)) by done. cbn [andb]. eapply branches_at_ext;
      [|straight_at ltac:(apply sub_computes; wside) ltac:(apply sub_short); straight_at ltac:(apply slti_computes; [wside | wside | apply IsITypeImm_zero]) ltac:(apply slti_short);
        straight_at ltac:(apply slt_computes; wside) ltac:(apply slt_short); branch_end_at Hfar].
    intros r Hr. cbv beta. read_regs. rewrite !uintx_b2z, intx_uintx, intx_signed_sub, intx_zero.
    apply sub_overflow_test; apply intx_bound.
  - result_regs. by rewrite uintx_signed_sub.
Qed.

Context (H1z : rs1 <> ZR) (H2z : rs2 <> ZR).

(** The addition, for every choice of registers. *)
Lemma AddBranchOverflow_checks :
  checks_overflow_at d (AddBranchOverflow rd rs1 rs2 (dest_label d)) s rd
    (fun r => intx (r rs1) + intx (r rs2)).
Proof using Hd Hs1 Hs2 Hdz Hd1 Hd2 H1t H1t2 H2t H2t2 Hfull Hreach Hfar H1z H2z.
  eapply checks_overflow_at_eq; [by apply assert_no_temps_bind|].
  destruct (Z.eqb_spec rd rs1) as [E1|N1], (Z.eqb_spec rd rs2) as [E2|N2]; cbn [andb];
    [| | |destruct (Z.eqb_spec rs1 rs2) as [E|N]].
  - subst rs1 rs2. eapply checks_overflow_at_eq; [by apply assert_bind, Z.eqb_refl|].
    eexists. split; [eapply branches_at_ext; [|
      straight_at ltac:(apply mv_computes; wside) ltac:(apply mv_short); straight_at ltac:(apply add_computes; wside) ltac:(apply add_short);
      straight_at ltac:(apply xor_computes; wside) ltac:(apply xor_short); branch_end_at Hfar]|].
    + intros r Hr. cbv beta. read_regs. rewrite (proj1 Hr), (uintx_small (r rd)) by apply Hr.
      by apply double_words, Hr.
    + result_regs. by rewrite uintx_signed_add.
  - rewrite (proj2 (Z.eqb_neq rs1 rs2)) by congruence.
    eapply checks_overflow_at_eq; [by apply assert_bind|].
    subst rs1. eexists. split; [eapply branches_at_ext; [|
      straight_at ltac:(apply slti_computes; [wside | wside | apply IsITypeImm_zero]) ltac:(apply slti_short);
      straight_at ltac:(apply add_computes; wside) ltac:(apply add_short);
      straight_at ltac:(apply slt_computes; wside) ltac:(apply slt_short); branch_end_at Hfar]|].
    + intros r Hr. cbv beta. read_regs. rewrite Z.add_comm, (Z.add_comm (intx _)).
      by apply add_words.
    + result_regs. by rewrite uintx_signed_add.
  - rewrite (proj2 (Z.eqb_neq rs1 rs2)) by congruence.
    eapply checks_overflow_at_eq; [by apply assert_bind|].
    subst rs2. eexists. split; [eapply branches_at_ext; [|
      straight_at ltac:(apply slti_computes; [wside | wside | apply IsITypeImm_zero]) ltac:(apply slti_short);
      straight_at ltac:(apply add_computes; wside) ltac:(apply add_short);
      straight_at ltac:(apply slt_computes; wside) ltac:(apply slt_short); branch_end_at Hfar]|].
    + intros r Hr. cbv beta. read_regs. by apply add_words.
    + result_regs. by rewrite uintx_signed_add.
  - subst rs2. do 2 (eapply checks_overflow_at_eq;
      [by apply assert_bind|]).
    eexists. split; [eapply branches_at_ext; [|
      straight_at ltac:(apply add_computes; wside) ltac:(apply add_short);
      straight_at ltac:(apply xor_computes; wside) ltac:(apply xor_short); branch_end_at Hfar]|].
    + intros r Hr. cbv beta. read_regs. rewrite (proj1 Hr), Z.lxor_comm. by apply double_words, Hr.
    + result_regs. by rewrite uintx_signed_add.
  - eexists. split; [eapply branches_at_ext; [|
      straight_at ltac:(apply add_computes; wside) ltac:(apply add_short);
      straight_at ltac:(apply slti_computes; [wside | wside | apply IsITypeImm_zero]) ltac:(apply slti_short);
      straight_at ltac:(apply slt_computes; wside) ltac:(apply slt_short); branch_end_at Hfar]|].
    + intros r Hr. cbv beta. read_regs. by apply add_words.
    + result_regs. by rewrite uintx_signed_add.
Qed.
End Registers.

(** The final test, given the register that holds the old value. *)
Lemma constant_branch_to rd imm old label (s' : Assembler) : 0 <= rd < 32 -> 0 <= old < 32 -> full s' -> reachable 0 s' label ->
  branches_to (if 0 <? imm then blt rd old label kFarJump
               else if imm <? 0 then bgt rd old label kFarJump else mret tt) s' label
    (fun r => if 0 <? imm then intx (r rd) <? intx (r old)
              else if imm <? 0 then intx (r old) <? intx (r rd) else false) (fun r => r).
Proof.
  intros Hd Ho Hf Hr. destruct (0 <? imm); [branch_end | destruct (imm <? 0); [unfold bgt; branch_end|]].
  exists []. split; [unfold emits; by rewrite append_nil|].
  intros st Hwf _ _. exists 0%nat, (xregs_ st). split; [apply Hwf|]. split; [done|].
  cbn [steps length]. by rewrite advance_zero.
Qed.

Section Constants.
Context (rd rs1 imm : Z) (label : nat) (s : Assembler).
Context (Hd : 0 <= rd < 32) (Hs1 : 0 <= rs1 < 32) (Hdz : rd <> ZR) (H1z : rs1 <> ZR).
Context (Hd2 : rd <> TMP2) (H1t2 : rs1 <> TMP2).
Context (Hi : - 2 ^ (XLEN - 1) <= imm < 2 ^ (XLEN - 1)).
Context (Hfull : full s) (Hreach : reachable 12 s label).

Lemma MultiplyImmediateBranchOverflow_checks : rd <> TMP -> rs1 <> TMP ->
  checks_overflow (MultiplyImmediateBranchOverflow rd rs1 imm label) s label rd
    (fun r => intx (r rs1) * imm).
Proof using Hd Hs1 Hdz Hd2 H1t2 Hi Hfull Hreach.
  intros Hd1 H1t. do 4 (eapply checks_overflow_eq;
    [by apply assert_bind, negb_true_iff, Z.eqb_neq|]).
  eexists. split.
  - eapply branches_to_ext;
      [|eapply (computes_branches_to 8);
        [by apply LoadImmediate_computes | done | exact Hreach | intros ? ? ?];
        straight ltac:(apply mulh_computes; wside); straight ltac:(apply mul_computes; wside);
        straight ltac:(apply srai_computes; [wside | done | destruct XLEN_cases; lia]); branch_end].
    intros r Hr. cbv beta. read_regs. rewrite intx_uintx_imm by done.
    rewrite <- (mul_overflow_test (intx (r rs1)) imm) by first [done | apply intx_bound].
    rewrite mulh_high by first [done | apply intx_bound].
    rewrite !mul_intx, intx_uintx, intx_idem.
    f_equal. apply uintx_eqb; [apply mul_high_range; [|done] | apply shiftr_word_range]; apply intx_bound.
  - result_regs. rewrite intx_uintx_imm by done. by rewrite !mul_intx, uintx_intx.
Qed.

(** Different registers, or a constant that fits the instruction. *)
Lemma AddImmediateBranchOverflow_checks : rd <> rs1 \/ IsITypeImm imm = true ->
  checks_overflow (AddImmediateBranchOverflow rd rs1 imm label) s label rd
    (fun r => intx (r rs1) + imm).
Proof using Hd Hs1 Hdz H1z Hd2 H1t2 Hi Hfull Hreach.
  intros Ha. eapply checks_overflow_eq; [by apply assert_bind, negb_true_iff, Z.eqb_neq|].
  assert (forall x, uintx (x + uintx imm) = uintx (intx x + imm)) as Hv.
  { intros x. by rewrite uintx_add_r, <- (uintx_add_l (intx x)), uintx_intx, uintx_add_l. }
  destruct (Z.eqb_spec rd rs1) as [->|N].
  - destruct Ha as [|HI]; [done|]. eexists. split.
    + eapply branches_to_ext; [|straight ltac:(apply mv_computes; wside);
        eapply (computes_branches_to 9); [by apply AddImmediate_computes | done | use_reach | intros ? ? ?];
        apply constant_branch_to; [wside | wside | done | eapply reachable_weaken; [|use_reach]; lia]].
      intros r Hr. cbv beta. unfold with_constant. rewrite HI. read_regs.
      rewrite (uintx_small (r rs1)) by apply Hr. rewrite intx_uintx.
      rewrite <- (intx_uintx (_ + uintx imm)), Hv, intx_uintx. symmetry. apply add_constant_test; [apply intx_bound | done].
    + intros r Hr. cbv beta. unfold with_constant. rewrite HI. read_regs.
      split; [apply Hv | intros; by read_regs].
  - eexists. split.
    + eapply branches_to_ext; [|
        eapply (computes_branches_to 9); [by apply AddImmediate_computes | done | exact Hreach | intros ? ? ?];
        apply constant_branch_to; [wside | wside | done | eapply reachable_weaken; [|use_reach]; lia]].
      intros r Hr. cbv beta. read_regs. rewrite with_constant_other by done. rewrite Hv, intx_uintx.
      symmetry. apply add_constant_test; [apply intx_bound | done].
    + intros r Hr. cbv beta. read_regs. split; [apply Hv|].
      intros. read_regs. by rewrite with_constant_other.
Qed.
End Constants.
End Checked.
