(* ===== verification/Tagging.v ===== *)
(** * Small integers and frames

    Tagging and untagging of small integers, the extensions of narrow values to tagged
    small integers, the Smi tests, and the reservation of aligned frame space. *)
From Stdlib Require Import FunctionalExtensionality.
From S2P Require Import Prelude Utils Constants EncodingFacts Words CWords Memory Float.
From S2P Require Import SimState SimInteger SimFloat Simulator Exec Effects AsmState.
From S2P Require Import MicroAssembler Emission Computes Macros MacroFacts Branches Arithmetic.
From S2P Require Import MacroBranches.

Lemma swrap_shiftl n k x : 0 < k <= n -> swrap n (x << (n - k)) = swrap k x << (n - k).
Proof.
  intros Hk. rewrite !Z.shiftl_mul_pow2 by lia. unfold swrap.
  assert (0 < 2 ^ (n - k)) by (apply Z.pow_pos_nonneg; lia).
  assert (0 < 2 ^ k) by (apply Z.pow_pos_nonneg; lia).
  assert (2 ^ n = 2 ^ (n - k) * 2 ^ k) as -> by (rewrite <- Z.pow_add_r by lia; f_equal; lia).
  assert (2 ^ (n - 1) = 2 ^ (n - k) * 2 ^ (k - 1)) as ->
    by (rewrite <- Z.pow_add_r by lia; f_equal; lia).
  replace (x * 2 ^ (n - k) + 2 ^ (n - k) * 2 ^ (k - 1))
    with (2 ^ (n - k) * (x + 2 ^ (k - 1))) by lia.
  rewrite Z.mul_mod_distr_l by lia. lia.
Qed.

Lemma uwrap_shiftl n k x : 0 < k <= n -> uwrap n (x << (n - k)) = uwrap k x << (n - k).
Proof.
  intros Hk. rewrite !Z.shiftl_mul_pow2 by lia. unfold uwrap.
  assert (0 < 2 ^ (n - k)) by (apply Z.pow_pos_nonneg; lia).
  assert (0 < 2 ^ k) by (apply Z.pow_pos_nonneg; lia).
  assert (2 ^ n = 2 ^ k * 2 ^ (n - k)) as -> by (rewrite <- Z.pow_add_r by lia; f_equal; lia).
  by rewrite Z.mul_mod_distr_r by lia.
Qed.

Lemma shift_back x k : 1 <= k -> (x << k) >> (k - 1) = 2 * x.
Proof.
  intros Hk. rewrite Z.shiftr_shiftl_l by lia. replace (k - (k - 1)) with 1 by lia.
  rewrite Z.shiftl_mul_pow2 by lia. lia.
Qed.

Section Tagging.
Context `{Target} `{HostFloat} `{Host}.

(** The value an operand size denotes. *)
Definition extend (sz : OperandSize) (v : Z) : option Z :=
  match sz with
  | kEightBytes => if TARGET_64 then Some (intx v) else None
  | kFourBytes => Some (swrap 32 v)
  | kUnsignedFourBytes => if TARGET_64 then Some (uwrap 32 v) else None
  | kTwoBytes => Some (swrap 16 v)
  | kUnsignedTwoBytes => Some (uwrap 16 v)
  | kByte => Some (swrap 8 v)
  | kUnsignedByte => Some (uwrap 8 v)
  | _ => None
  end.

Lemma SmiTag_computes dst src : 0 <= dst < 32 -> 0 <= src < 32 ->
  computes 1 (SmiTag dst src) (fun r => xset r dst (2 * r src)).
Proof.
  intros Hd Hs. eapply computes_ext; [|apply slli_computes; [done | done | destruct XLEN_cases; unfold kSmiTagSize; lia]].
  intros r _. cbn beta. unfold kSmiTagSize. rewrite Z.shiftl_mul_pow2, Z.mul_comm by lia. done.
Qed.

Lemma SmiUntag_computes dst src : 0 <= dst < 32 -> 0 <= src < 32 ->
  computes 1 (SmiUntag dst src) (fun r => xset r dst (intx (r src) / 2)).
Proof.
  intros Hd Hs. eapply computes_ext; [|apply srai_computes; [done | done | destruct XLEN_cases; unfold kSmiTagSize; lia]].
  intros r _. cbn beta. unfold kSmiTagSize. by rewrite Z.shiftr_div_pow2 by lia.
Qed.

(** Untagging a tagged small integer gives it back. *)
Lemma smi_roundtrip v : - 2 ^ (XLEN - 2) <= v < 2 ^ (XLEN - 2) ->
  intx (uintx (2 * uintx v)) / 2 = v.
Proof.
  intros Hv. rewrite uintx_mul_r, intx_uintx. assert (2 ^ (XLEN - 1) = 2 * 2 ^ (XLEN - 2)) as HH.
  { rewrite <- Z.pow_succ_r by (destruct XLEN_cases; lia). f_equal. lia. }
  rewrite intx_small by lia. rewrite Z.mul_comm. apply Z.div_mul. lia.
Qed.

Lemma shift_pair_signed rd rn bits : 0 <= rd < 32 -> rd <> ZR -> 0 <= rn < 32 -> 0 < bits < XLEN - 1 ->
  computes 2 (shift_pair rd rn bits true) (fun r => xset r rd (2 * swrap bits (r rn))).
Proof.
  intros Hd Hz Hs Hb. unfold shift_pair, kSmiTagShift.
  eapply computes_ext; [|apply (computes_bind 1 1);
    [apply slli_computes; [done | done | lia] | apply srai_computes; [done | done | lia]]].
  intros r _. cbn beta. rewrite xset_xset, xset_same by done. apply xset_eq. f_equal.
  unfold uintx, intx. rewrite (swrap_uwrap XLEN XLEN_pos), swrap_shiftl by lia.
  apply shift_back. lia.
Qed.

Lemma shift_pair_unsigned rd rn bits : 0 <= rd < 32 -> rd <> ZR -> 0 <= rn < 32 -> 0 < bits < XLEN - 1 ->
  computes 2 (shift_pair rd rn bits false) (fun r => xset r rd (2 * uwrap bits (r rn))).
Proof.
  intros Hd Hz Hs Hb. unfold shift_pair, kSmiTagShift.
  eapply computes_ext; [|apply (computes_bind 1 1);
    [apply slli_computes; [done | done | lia] | apply srli_computes; [done | done | lia]]].
  intros r _. cbn beta. rewrite xset_xset, xset_same by done. apply xset_eq. f_equal.
  unfold uintx. rewrite uwrap_shiftl by lia. apply shift_back. lia.
Qed.

Lemma ExtendAndSmiTagValue_computes rd rn sz : 0 <= rd < 32 -> rd <> ZR -> 0 <= rn < 32 ->
  (forall v, extend sz v <> None) ->
  computes 2 (ExtendAndSmiTagValue rd rn sz)
    (fun r => xset r rd (2 * default 0 (extend sz (r rn)))).
Proof.
  intros Hd Hz Hs Hsz. specialize (Hsz 0) as Hsz0. pose proof XLEN_cases as HX. unfold XLEN in HX.
  destruct sz; cbn [extend] in Hsz0; try done; cbn [ExtendAndSmiTagValue extend default];
    try (apply shift_pair_signed || apply shift_pair_unsigned; done || (unfold XLEN; lia)).
  - destruct TARGET_64 eqn:H64; [apply shift_pair_signed; done || (unfold XLEN; rewrite H64; lia)|].
    eapply computes_ext; [|eapply (computes_weaken 1); [lia | by apply SmiTag_computes]].
    intros r _. cbn beta. apply xset_eq. unfold id. unfold uintx, XLEN. rewrite H64.
    rewrite <- (uwrap_mul_r 32 eq_refl _ (swrap 32 _)), (uwrap_swrap 32 eq_refl). by rewrite (uwrap_mul_r 32 eq_refl).
  - destruct TARGET_64 eqn:H64; [apply shift_pair_unsigned; done || (unfold XLEN; rewrite H64; lia) | done].
  - destruct TARGET_64 eqn:H64; [|done].
    eapply computes_ext; [|eapply (computes_weaken 1); [lia | by apply SmiTag_computes]].
    intros r _. cbn beta. apply xset_eq.
    change (uintx (2 * r rn) = uintx (2 * intx (r rn))). unfold uintx, intx.
    by rewrite <- (uwrap_mul_r XLEN XLEN_pos _ (swrap _ _)), (uwrap_swrap XLEN XLEN_pos), (uwrap_mul_r XLEN XLEN_pos).
Qed.

(** ** Smi tests *)

Lemma land_tag v : v .& 1 = v mod 2.
Proof. change 1 with (Z.ones 1) at 1. by rewrite Z.land_ones by lia. Qed.

Lemma tag_computes reg : 0 <= reg < 32 ->
  computes 1 (andi TMP2 reg kSmiTagMask) (fun r => xset r TMP2 (r reg mod 2)).
Proof.
  intros Hr. eapply computes_ext; [|apply andi_computes; [wside | done | apply IsITypeImm_one]].
  intros r _. cbn beta. unfold kSmiTagMask. by rewrite uintx_one, land_tag.
Qed.

Lemma tag_value v : uintx (v mod 2) = v mod 2.
Proof.
  apply uintx_small. pose proof (Z.mod_pos_bound v 2 ltac:(lia)).
  assert (2 ^ 1 <= 2 ^ XLEN) by (apply Z.pow_le_mono_r; destruct XLEN_cases; lia). lia.
Qed.

Lemma BranchIfSmi_to reg label s : 0 <= reg < 32 -> reg <> TMP2 -> full s -> reachable 1 s label ->
  branches_to (BranchIfSmi reg label kFarJump) s label (fun r => r reg mod 2 =? 0)
    (fun r => xset r TMP2 (r reg mod 2)).
Proof.
  intros Hr Ht Hs Hl. apply branches_to_assert; [by apply negb_true_iff, Z.eqb_neq|].
  eapply branches_to_ext; [|apply (computes_branches_to 1 0 _ _ _ (fun r => r) _ _ (fun r => r TMP2 =? r ZR));
    [by apply tag_computes | done | done |]].
  - intros r Hw. cbn beta. rewrite xset_same, xset_other by done. by rewrite (proj1 Hw), tag_value.
  - intros s' Hs' Hl'. unfold beqz. apply beq_to; [wside | wside | done | by eapply reachable_bound].
Qed.

Lemma BranchIfNotSmi_to reg label s : 0 <= reg < 32 -> reg <> TMP2 -> full s -> reachable 1 s label ->
  branches_to (BranchIfNotSmi reg label kFarJump) s label (fun r => negb (r reg mod 2 =? 0))
    (fun r => xset r TMP2 (r reg mod 2)).
Proof.
  intros Hr Ht Hs Hl. apply branches_to_assert; [by apply negb_true_iff, Z.eqb_neq|].
  eapply branches_to_ext; [|apply (computes_branches_to 1 0 _ _ _ (fun r => r) _ _ (fun r => negb (r TMP2 =? r ZR)));
    [by apply tag_computes | done | done |]].
  - intros r Hw. cbn beta. rewrite xset_same, xset_other by done. by rewrite (proj1 Hw), tag_value.
  - intros s' Hs' Hl'. unfold bnez. apply bne_to; [wside | wside | done | by eapply reachable_bound].
Qed.

(** ** Frames *)

(** The stack pointer is lowered by the frame and aligned down to sixteen bytes. *)
Lemma ReserveAlignedFrameSpace_computes frame : 0 <= frame < 2 ^ 11 ->
  computes 2 (ReserveAlignedFrameSpace frame)
    (fun r => let sp := uintx (r SP - frame) in xset r SP (sp - sp mod 16)).
Proof.
  intros Hf. unfold ReserveAlignedFrameSpace.
  assert (computes 1 (if negb (frame =? 0) then addi SP SP (- frame) else mret tt)
            (fun r => xset r SP (r SP - frame))) as C1.
  { destruct (Z.eqb_spec frame 0) as [->|Hn]; cbn [negb].
    - eapply (computes_weaken 0); [lia|]. eapply computes_ext; [|apply computes_skip].
      intros r [_ Hw]. cbn beta. rewrite Z.sub_0_r. apply functional_extensionality. intros i.
      destruct (Z.eq_dec i SP) as [->|]; [rewrite xset_same by done; symmetry; by apply uintx_small | by rewrite xset_other].
    - apply addi_computes; [wside | wside | apply IsITypeImm_spec; lia]. }
  eapply computes_ext; [|apply (computes_bind 1 1); [exact C1 |
    apply andi_computes; [wside | wside | by apply IsITypeImm_spec]]].
  intros r _. cbv zeta beta. rewrite xset_xset, xset_same by done. apply xset_eq. f_equal.
  set (sp := uintx (r SP - frame)). assert (0 <= sp < 2 ^ XLEN) as Hsp by apply uintx_bound.
  change (Z.lnot (16 - 1)) with (-16). unfold uintx at 1.
  rewrite uwrap_land by apply XLEN_pos. rewrite (Z.land_comm (-16)), Z.land_assoc, <- uwrap_land by apply XLEN_pos.
  fold (uintx sp). rewrite uintx_small by done. change (-16) with (Z.lnot (Z.ones 4)).
  rewrite <- Z.ldiff_land, Z.ldiff_ones_r, Z.shiftr_div_pow2, Z.shiftl_mul_pow2 by lia.
  change (2 ^ 4) with 16. pose proof (Z.div_mod sp 16). lia.
Qed.
End Tagging.
