(* ===== verification/HeaderAccess.v ===== *)
(** * Objects in the memory of the simulator

    [object_at st r tags]: register [r] holds a pointer to an object whose header word is
    [tags].  Emitted code reads single bytes and halfwords of the header; the values it reads
    are the fields the runtime decodes from the whole word. *)
From S2P Require Import Prelude Utils Constants EncodingFacts Words Memory Float.
From S2P Require Import SimState SimInteger SimFloat Simulator Exec SimFacts Effects AsmState.
From S2P Require Import MicroAssembler Emission Computes Macros MacroFacts MacroBranches Overflow Accesses Offsets FloatAccesses.
From S2P Require Import Tagging Programs Frames ObjectHeader WriteBarrier ObjectMacros Patching Labels Forward Barriers.

Lemma le_bytes_add a b v : le_bytes (a + b) v = le_bytes a v ++ le_bytes b (v / 256 ^ Z.of_nat a).
Proof.
  revert v. induction a as [|a IH]; intros v; cbn [Nat.add le_bytes app].
  - by rewrite Z.div_1_r.
  - rewrite IH, pow256_S. do 3 f_equal. rewrite Z.div_div; [done | lia | apply Z.pow_pos_nonneg; lia].
Qed.

(** Bytes [k] to [k + n] of a word in memory. *)
Lemma mem_load_part m addr w v k n : (k + n <= w)%nat -> code_at m addr (le_bytes w v) ->
  mem_load m (addr + Z.of_nat k) n = Ok ((v / 256 ^ Z.of_nat k) mod 256 ^ Z.of_nat n).
Proof.
  intros Hk. replace w with (k + (n + (w - k - n)))%nat by lia. rewrite !le_bytes_add.
  intros [_ [Hc _]%code_at_app]%code_at_app. rewrite length_le_bytes in Hc. by apply mem_load_le_bytes.
Qed.

Section Headers.
Context `{Target} `{HostFloat} `{Host}.

Definition word_bytes : nat := Z.to_nat kWordSize.

Record object_at (st : Simulator) (r tags : Z) : Prop := {
  oa_register : r <> SP /\ r <> FP;
  oa_room : 16 * KB < xregs_ st r /\ xregs_ st r + kWordSize < 2 ^ XLEN - 32 * KB;
  oa_header : code_at (mem_ st) (xregs_ st r - kHeapObjectTag) (le_bytes word_bytes tags)
}.

Lemma check_access_heap T st a r : r <> SP -> r <> FP -> 0 < sizeof T -> 16 * KB <= a ->
  a + sizeof T < 2 ^ XLEN - 32 * KB -> check_access T st a r = Ok tt.
Proof.
  intros Hs Hf HT Ha Hb. unfold check_access. destruct DEBUG; [|done].
  rewrite (proj2 (Z.eqb_neq r SP) Hs), (proj2 (Z.eqb_neq r FP) Hf). cbn [orb]. cbv zeta.
  assert (uintx (Z.lnot (16 * KB)) = 2 ^ XLEN - 1 - 16 * KB) as ->.
  { unfold uintx, XLEN. by destruct TARGET_64. }
  assert (KB = 1024) by done.
  rewrite (uintx_small (a + sizeof T)) by lia.
  rewrite (proj2 (Z.ltb_ge _ _)) by lia. rewrite (proj2 (Z.leb_gt _ _)) by lia. done.
Qed.

(** A field of [n] bytes at byte [k] of the header. *)
Lemma object_at_read st r tags T k : object_at st r tags -> is_signed T = false -> 0 <= k ->
  0 < sizeof T -> bits_of T = 8 * sizeof T -> k + sizeof T <= kWordSize ->
  MemoryRead T st (address st (FieldAddress r k)) r = Ok ((tags / 2 ^ (8 * k)) mod 2 ^ bits_of T).
Proof.
  intros [[Hs Hf] [Hl Hh] Hc] HT Hk H8 Hb Hw. assert (KB = 1024) by done.
  unfold address, FieldAddress. cbn [base offset].
  rewrite uintx_small by lia. unfold MemoryRead. rewrite check_access_heap by (done || lia).
  cbn [mbind result_bind]. unfold load_as.
  replace (xregs_ st r + (k - 1)) with (xregs_ st r - kHeapObjectTag + Z.of_nat (Z.to_nat k)) by (unfold kHeapObjectTag; lia).
  rewrite (mem_load_part _ _ word_bytes tags) by (done || (unfold word_bytes; lia)).
  cbn [mbind result_bind]. unfold cast. rewrite HT. f_equal.
  rewrite !Z2Nat.id by lia. change 256 with (2 ^ 8). rewrite <- !Z.pow_mul_r, <- Hb by lia.
  unfold uwrap. rewrite Z.mod_mod; [done | lia].
Qed.

Lemma object_at_regs st r tags R : object_at st r tags -> R r = xregs_ st r -> object_at (with_xregs st R) r tags.
Proof. intros [Hr Hm Hc] E. split; [done | by cbn; rewrite E | by cbn; rewrite E]. Qed.

Lemma object_at_loads st r tags T rd k : object_at st r tags -> is_signed T = false -> 0 <= k ->
  0 < sizeof T -> bits_of T = 8 * sizeof T -> k + sizeof T <= kWordSize ->
  loads T rd (FieldAddress r k) st =
  Ok (with_xregs st (xset (xregs_ st) rd ((tags / 2 ^ (8 * k)) mod 2 ^ bits_of T))).
Proof.
  intros O HT Hk H8 Hb Hw. unfold loads, load_xreg. change (base (FieldAddress r k)) with r.
  rewrite (object_at_read st r tags) by done. cbn [mbind result_bind]. by rewrite set_xreg_xset.
Qed.

(** ** The test of the barrier *)

(** The emitted test looks at the low byte of the headers only. *)
Lemma emitted_test o v m : 0 <= m < 64 ->
  ((o mod 256) >> kBarrierOverlapShift) .& (v mod 256) .& m = (o >> kBarrierOverlapShift) .& v .& m.
Proof.
  intros Hm. unfold kBarrierOverlapShift. change 256 with (2 ^ 8). apply Z.bits_inj'. intros i Hi.
  rewrite !Z.land_spec, !Z.shiftr_spec by lia. destruct (decide (i < 6)) as [Hl|Hl].
  - by rewrite !Z.mod_pow2_bits_low by lia.
  - assert (Z.testbit m i = false) as ->; [|by rewrite !andb_false_r].
    apply Z.bits_above_log2; [lia|]. destruct (decide (m = 0)) as [->|]; [cbn; lia|].
    apply Z.log2_lt_pow2; [lia|]. assert (2 ^ 6 <= 2 ^ i) by (apply Z.pow_le_mono_r; lia). lia.
Qed.

Lemma run_items_exit lo n i1 i2 st st' : run_items lo n i1 st st' true -> run_items lo n (i1 ++ i2) st st' true.
Proof.
  revert st. induction i1 as [|[F|c] i1 IH]; intros st; cbn.
  - by intros [_ ?].
  - intros (st1 & HF & Hs & Hr). exists st1. auto.
  - destruct (c (xregs_ st)); auto.
Qed.
Lemma run_items_through lo n i1 i2 st st1 st' b : run_items lo n i1 st st1 false ->
  run_items lo n i2 st1 st' b -> run_items lo n (i1 ++ i2) st st' b.
Proof.
  revert st. induction i1 as [|[F|c] i1 IH]; intros st; cbn.
  - by intros [-> _].
  - intros (st2 & HF & Hs & Hr) Hb. exists st2. auto.
  - destruct (c (xregs_ st)); [by intros [_ ?] | auto].
Qed.

(** Only the scratch registers changed. *)
Definition scratched (R R' : regs) : Prop := forall i, i <> TMP -> i <> TMP2 -> R' i = R i.

Lemma smi_test_runs lo n st value : regs_wf (xregs_ st) -> value <> TMP2 ->
  run_items lo n [Do (andi_op TMP2 value kSmiTagMask); ExitIf (fun R => R TMP2 =? R ZR)] st
    (with_xregs st (xset (xregs_ st) TMP2 (xregs_ st value mod 2))) (xregs_ st value mod 2 =? 0).
Proof.
  intros [Hz Hw] Hn. cbn [run_items].
  assert (andi_op TMP2 value kSmiTagMask st = Ok (with_xregs st (xset (xregs_ st) TMP2 (xregs_ st value mod 2)))) as E.
  { unfold andi_op, compute, kSmiTagMask. by rewrite uintx_one, land_tag. }
  eexists. split_and!; [exact E | done |]. cbn [xregs_ with_xregs].
  rewrite xset_same, xset_other, Hz by done. pose proof (Z.mod_pos_bound (xregs_ st value) 2 eq_refl).
  pose proof (Z.pow_gt_1 2 XLEN). rewrite uintx_small by (pose proof XLEN_pos; lia).
  destruct (xregs_ st value mod 2 =? 0); done.
Qed.

Definition header_items (object value : Z) : list item := test_items kValueIsNotSmi object value.

Lemma header_test_runs lo n st object value otags vtags : regs_wf (xregs_ st) ->
  object <> TMP -> object <> TMP2 -> value <> TMP -> value <> TMP2 ->
  object_at st object otags -> object_at st value vtags -> 0 <= xregs_ st WRITE_BARRIER_MASK < 64 ->
  exists R', scratched (xregs_ st) R' /\
  run_items lo n (header_items object value) st (with_xregs st R')
    (negb (barrier_needed otags vtags (xregs_ st WRITE_BARRIER_MASK))).
Proof.
  intros [Hz Hw] H1' H2' H3' H4' Oo Ov Hm. set (R0 := xregs_ st) in *. set (m := R0 WRITE_BARRIER_MASK) in *.
  assert (forall z, 0 <= z < 256 -> uintx z = z) as Hu.
  { intros z Hr. apply uintx_small. assert (2 ^ 8 < 2 ^ XLEN) by (unfold XLEN; by destruct TARGET_64). lia. }
  set (o := otags mod 256). set (v := vtags mod 256).
  assert (0 <= o < 256) as Ho by by apply Z.mod_pos_bound.
  assert (0 <= v < 256) as Hv by by apply Z.mod_pos_bound.
  assert (0 <= o >> 2 < 256) as Ho2.
  { rewrite Z.shiftr_div_pow2 by lia. change (2 ^ 2) with 4.
    split; [apply Z.div_pos | apply Z.div_lt_upper_bound]; lia. }
  pose proof (land_word 8 (o >> 2) v ltac:(lia) Ho2) as Hov.
  pose proof (land_word 8 ((o >> 2) .& v) m ltac:(lia) Hov) as Hovm.
  set (R1 := xset R0 TMP o). set (R2 := xset R1 TMP2 v). set (R3 := xset R2 TMP (R2 TMP >> 2)).
  set (R4 := xset R3 TMP (R3 TMP .& R3 TMP2)). set (R5 := xset R4 TMP (R4 TMP .& R4 WRITE_BARRIER_MASK)).
  assert (R5 TMP = (o >> 2) .& v .& m) as E5.
  { unfold R5, R4, R3, R2, R1. rewrite !xset_same by done. rewrite !(xset_other _ _ _ TMP2) by done.
    rewrite !(xset_other _ _ _ WRITE_BARRIER_MASK) by done. rewrite !xset_same by done.
    rewrite !(xset_other _ TMP2 _ TMP), !xset_same by done. fold m.
    by rewrite (Hu o), (Hu v), (Hu (o >> 2)), (Hu ((o >> 2) .& v)), Hu by done. }
  exists R5. split.
  - intros i Hi Hi2. unfold R5, R4, R3, R2, R1. by rewrite !xset_other by done.
  - unfold header_items, test_items. cbn [app run_items].
    exists (with_xregs st R1). split_and!; [|done|].
    { rewrite (object_at_loads st object otags) by (done || (change (sizeof uint8_t) with 1; pose proof word_room; unfold tags_offset; lia)).
      do 3 f_equal. unfold tags_offset, o. change (2 ^ (8 * 0)) with 1. by rewrite Z.div_1_r. }
    exists (with_xregs st R2). split_and!; [|done|].
    { rewrite (object_at_loads _ value vtags); [| |done | done | done | done |].
      - do 3 f_equal. unfold tags_offset, v. change (2 ^ (8 * 0)) with 1. by rewrite Z.div_1_r.
      - apply object_at_regs; [done|]. unfold R1. by rewrite xset_other.
      - change (sizeof uint8_t) with 1. pose proof word_room. unfold tags_offset. lia. }
    exists (with_xregs st R3). split_and!; [done | done |].
    exists (with_xregs st R4). split_and!; [done | done |].
    exists (with_xregs st R5). split_and!; [done | done |].
    cbn [xregs_ with_xregs]. rewrite E5.
    assert (R5 ZR = 0) as ->. { unfold R5, R4, R3, R2, R1. by rewrite !xset_other by done. }
    unfold o, v. change 2 with kBarrierOverlapShift. rewrite emitted_test by done. unfold barrier_needed. rewrite negb_involutive.
    by destruct (_ =? 0).
Qed.

(** The whole test: it leaves through the label unless the store needs the barrier. *)
Lemma barrier_test_runs lo n can st object value otags vtags : regs_wf (xregs_ st) ->
  object <> TMP -> object <> TMP2 -> value <> TMP -> value <> TMP2 -> object_at st object otags ->
  (xregs_ st value mod 2 = 1 -> object_at st value vtags) ->
  (can = kValueIsNotSmi -> xregs_ st value mod 2 = 1) -> 0 <= xregs_ st WRITE_BARRIER_MASK < 64 ->
  exists R', scratched (xregs_ st) R' /\
  run_items lo n (test_items can object value) st (with_xregs st R')
    (negb ((xregs_ st value mod 2 =? 1) && barrier_needed otags vtags (xregs_ st WRITE_BARRIER_MASK))).
Proof.
  intros Hw H1' H2' H3' H4' Oo Ov Hcan Hm. destruct can.
  - rewrite Hcan by done. cbn [Z.eqb andb]. by apply header_test_runs; auto.
  - change (test_items kValueCanBeSmi object value) with
      ([Do (andi_op TMP2 value kSmiTagMask); ExitIf (fun R => R TMP2 =? R ZR)] ++ header_items object value).
    pose proof (smi_test_runs lo n st value Hw H4') as Hs. set (R1 := xset _ TMP2 _) in Hs.
    assert (scratched (xregs_ st) R1) as S1 by (intros i Hi Hi2; unfold R1; by rewrite xset_other).
    pose proof (Z.mod_pos_bound (xregs_ st value) 2 eq_refl).
    destruct (Z.eqb_spec (xregs_ st value mod 2) 0) as [E|E].
    + rewrite E. exists R1. split; [done | by apply run_items_exit].
    + assert (xregs_ st value mod 2 = 1) as E1 by lia. rewrite E1. cbn [Z.eqb andb].
      destruct (header_test_runs lo n (with_xregs st R1) object value otags vtags) as (R' & S' & Hr);
        [by apply xset_wf | done | done | done | done | apply object_at_regs; auto | apply object_at_regs; auto | |].
      { cbn [xregs_ with_xregs]. by rewrite (S1 WRITE_BARRIER_MASK). }
      exists R'. split; [intros i Hi Hi2; by rewrite (S' i Hi Hi2), <- S1|].
      eapply run_items_through; [exact Hs|]. cbn [xregs_ with_xregs] in Hr. by rewrite (S1 WRITE_BARRIER_MASK) in Hr.
Qed.

(** ** Class identifiers *)

Lemma ClassIdTag_wf : field_wf ClassIdTag.
Proof.
  pose proof header_fields_wf as Hw. unfold header_fields in Hw.
  by repeat (apply Forall_cons_iff in Hw as [? Hw]).
Qed.

Lemma class_id_field tags : 0 <= tags < 2 ^ XLEN -> decode ClassIdTag tags = (tags / 2 ^ 16) mod 2 ^ 16.
Proof.
  intros Ht. rewrite decode_bits by (done || apply ClassIdTag_wf).
  change (position ClassIdTag) with 16. change (size ClassIdTag) with 16.
  by rewrite Z.land_ones, Z.shiftr_div_pow2 by lia.
Qed.

(** The class identifier of a value. *)
Definition class_of (value tags : Z) : Z := if value mod 2 =? 0 then kSmiCid else decode ClassIdTag tags.

Lemma class_items_run lo n st result object tags : regs_wf (xregs_ st) -> result <> ZR ->
  result <> object -> result <> TMP2 -> object <> TMP2 -> 0 <= tags < 2 ^ XLEN ->
  (xregs_ st object mod 2 = 1 -> object_at st object tags) ->
  exists R' b, (forall i, i <> result -> i <> TMP2 -> R' i = xregs_ st i) /\
    R' result = class_of (xregs_ st object) tags /\
    run_items lo n (class_items result object) st (with_xregs st R') b.
Proof.
  intros Hw Hz H1' H2' H3' Ht O.
  set (R1 := xset (xregs_ st) result (xregs_ st ZR + kSmiCid)).
  assert (R1 object = xregs_ st object) as E1 by (unfold R1; by rewrite xset_other).
  assert (R1 result = kSmiCid) as Er.
  { unfold R1. rewrite xset_same by done. destruct Hw as [-> _].
    apply uintx_small. unfold XLEN. by destruct TARGET_64. }
  pose proof (smi_test_runs lo n (with_xregs st R1) object ltac:(by apply xset_wf) H3') as Hs.
  cbn [xregs_ with_xregs] in Hs. rewrite E1 in Hs. set (R2 := xset R1 TMP2 _) in Hs.
  assert (forall i, i <> result -> i <> TMP2 -> R2 i = xregs_ st i) as S2'
    by (intros i Hi Hi2; unfold R2, R1; by rewrite !xset_other).
  assert (run_items lo n [Do (addi_op result ZR kSmiCid)] st (with_xregs st R1) false) as Hf
    by (cbn [run_items]; by exists (with_xregs st R1)).
  pose proof (Z.mod_pos_bound (xregs_ st object) 2 eq_refl). unfold class_of.
  destruct (Z.eqb_spec (xregs_ st object mod 2) 0) as [E|E].
  - exists R2, true. split_and!; [done | unfold R2; by rewrite xset_other by done|].
    eapply (run_items_through lo n [_] [_; _; _]); [exact Hf|].
    by apply (run_items_exit lo n [_; _] [_]).
  - set (cid := (tags / 2 ^ 16) mod 2 ^ 16).
    assert (0 <= cid < 2 ^ XLEN) as Hc.
    { unfold cid. pose proof (Z.mod_pos_bound (tags / 2 ^ 16) (2 ^ 16) eq_refl).
      assert (2 ^ 16 < 2 ^ XLEN) by (unfold XLEN; by destruct TARGET_64). lia. }
    exists (xset R2 result cid), false. split_and!.
    + intros i Hi Hi2. rewrite xset_other by done. by apply S2'.
    + rewrite xset_same, uintx_small by done. by rewrite class_id_field.
    + eapply (run_items_through lo n [_] [_; _; _]); [exact Hf|].
      change (with_xregs st (xset R2 result cid)) with (with_xregs (with_xregs st R2) (xset R2 result cid)).
      eapply (run_items_through lo n [_; _] [_] _ (with_xregs st R2)); [exact Hs|]. cbn [run_items].
      exists (with_xregs (with_xregs st R2) (xset R2 result cid)). split; [|by split_and!].
      rewrite (object_at_loads _ object tags); [done | apply object_at_regs; [apply O; lia | by apply S2'] | done | done | done | done |].
      change (sizeof uint16_t) with 2. change (tags_offset + kClassIdTagPos / 8) with 2. pose proof word_room. lia.
Qed.
End Headers.
