(* ===== verification/EndToEnd.v ===== *)
(** * Calling emitted code

    Code emitted by the assembler for a register transformation, followed by [ret], can be
    called through [Simulator::CallX]: the call returns the transformed [A0], keeps the
    callee-saved registers and passes the simulator's own checks. *)
From S2P Require Import Prelude Utils Constants EncodingFacts Words CWords Memory Float.
From S2P Require Import SimState SimInteger SimFloat Simulator Exec SimFacts SimCalls Effects.
From S2P Require Import AsmState MicroAssembler Emission Computes Macros MacroFacts Arithmetic.

Section Returning.
Context `{Target} `{HostFloat} `{Host}.

(** [ret] transfers control to the address in [RA]. *)
Definition returns (code : list Z) : Prop :=
  (2 <= length code)%nat /\ forall st, sim_wf st -> code_at (mem_ st) (pc_ st) code ->
  step st = Ok (with_instret (with_pc st (xregs_ st RA)) (uint64 (instret_ st + 1))).

Lemma interpret_c_jr st rs1 : 0 <= rs1 < 32 -> rs1 <> ZR ->
  InterpretC st (CRword 0 rs1 ZR) = Ok (with_pc st (xregs_ st rs1)).
Proof.
  intros Hr Hz. interpret_C (CRword_reads 0 rs1 ZR ltac:(lia) Hr ltac:(done)).
  by rewrite (proj2 (Z.eqb_neq _ _) Hz).
Qed.

Lemma ret_returns s : full s -> exists code, emits ret s code /\ returns code.
Proof.
  intros Hs. assert (Supports RV_I s = true) as HI by by apply full_supports.
  assert (forall c, emits (if Supports RV_C s && negb (RA =? ZR) && (0 =? 0) && (ZR =? ZR) then c_jr RA
      else if Supports RV_C s && negb (RA =? ZR) && (0 =? 0) && (ZR =? RA) then c_jalr RA
      else EmitIType 0 RA Funct3.F3_0 ZR Opcode.JALR) s c -> emits ret s c) as Hopen.
  { intros c. unfold emits, ret, jalr. rewrite assert_supports_bind, get_bind by done. done. }
  destruct (Supports RV_C s) eqn:HC.
  - exists (le_bytes 2 (CRword 0 RA ZR)). split.
    + apply Hopen. change (emits (c_jr RA) s (le_bytes 2 (CRword 0 RA ZR))). unfold c_jr.
      assert (0 <= RA < 32) by done. assert (0 <= ZR < 32) by done. c_encode. by apply (Emit16_word (CRword 0 RA ZR)).
    + split; [by rewrite length_le_bytes|]. intros st Hwf Hc.
      rewrite (step_parcel st (CRword 0 RA ZR)) by done.
      by rewrite interpret_c_jr by wside.
  - exists (le_bytes 4 (Iword 0 RA Funct3.F3_0 ZR Opcode.JALR)).
    assert (IsITypeImm 0 = true) by by apply IsITypeImm_spec. split.
    + apply Hopen. change (emits (EmitIType 0 RA Funct3.F3_0 ZR Opcode.JALR) s
        (le_bytes 4 (Iword 0 RA Funct3.F3_0 ZR Opcode.JALR))). apply EmitIType_emits; wside.
    + split; [rewrite length_le_bytes; lia|]. intros st Hwf Hc.
      rewrite (step_word st (Iword 0 RA Funct3.F3_0 ZR Opcode.JALR)) by done.
      rewrite interpret_jalr by wside. unfold mbind, result_bind. rewrite xset_zero, Z.add_0_r.
      rewrite uintx_small by apply Hwf. by destruct st.
Qed.

(** Straight-line code followed by a return, run by [Execute] from a call. *)
Lemma executes_returns c1 f c2 st : executes c1 f -> returns c2 -> sim_wf st ->
  pc_ st + Z.of_nat (length (c1 ++ c2)) < 2 ^ XLEN -> code_at (mem_ st) (pc_ st) (c1 ++ c2) ->
  f (xregs_ st) RA = kEndSimulatingPC ->
  exists fuel ir, Execute fuel st =
    Some (Ok (with_instret (with_pc (with_xregs st (f (xregs_ st))) kEndSimulatingPC) ir)) /\
    regs_wf (f (xregs_ st)).
Proof.
  intros X [Hl R] Hwf Hpc Hc Hra. rewrite length_app, Nat2Z.inj_add in Hpc.
  apply code_at_app in Hc as [Hc1 Hc2]. destruct (X st) as (Hr & n & Hs); [done | lia | done |].
  set (st1 := advance st n (Z.of_nat (length c1)) (f (xregs_ st))) in *.
  assert (sim_wf st1) as Hwf1 by by apply advance_wf.
  assert (pc_ st1 = pc_ st + Z.of_nat (length c1)) as Hpc1
    by (cbn; destruct Hwf; rewrite uintx_small by lia; done).
  assert (steps 1 st1 = Ok (with_instret (with_pc st1 kEndSimulatingPC) (uint64 (instret_ st1 + 1)))) as Hs1.
  { rewrite steps_S, R by (done || rewrite Hpc1; done || lia). by rewrite (Hra : xregs_ st1 RA = _). }
  exists (n + (1 + 0))%nat. eexists. split; [|done].
  rewrite (Execute_steps _ _ _ _ Hs), (Execute_steps _ _ _ _ Hs1), Execute_end by done. done.
Qed.

(** The registers with which [CallX] enters the code. *)
Definition call_regs (st : Simulator) (a0 a1 a2 a3 : Z) : regs :=
  xset (xset (xset (xset (xset (xregs_ (snd (PrepareCall st))) A0 a0) A1 a1) A2 a2) A3 a3)
    RA kEndSimulatingPC.

Definition entered (st : Simulator) (entry a0 a1 a2 a3 : Z) : Simulator :=
  with_pc (with_xregs (snd (PrepareCall st)) (call_regs st a0 a1 a2 a3)) (uintx entry).

Lemma CallX_open fuel entry a0 a1 a2 a3 st :
  CallX fuel entry a0 a1 a2 a3 st =
  run_bind (run_bind (Execute fuel (entered st entry a0 a1 a2 a3))
              (fun st' => _ ← CheckPreservedRegisters (SavePreservedRegisters st) st'; Ok st'))
    (fun st' => Ok (intx (get_xreg st' A0), st')).
Proof.
  unfold CallX, RunCall, entered, call_regs. destruct (PrepareCall_frame st) as [Ep _].
  rewrite <- Ep. destruct (PrepareCall st) as [p st0]. cbn [fst snd]. clear Ep.
  rewrite !set_xreg_xset. reflexivity.
Qed.

Lemma call_regs_wf st a0 a1 a2 a3 : sim_wf st -> regs_wf (call_regs st a0 a1 a2 a3).
Proof. intros Hwf. unfold call_regs. do 5 apply xset_wf. by apply PrepareCall_wf. Qed.

Lemma callee_saved_args i : callee_saved i -> i <> A0 /\ i <> A1 /\ i <> A2 /\ i <> A3 /\ i <> RA.
Proof. intros [_ Hm]. split_and!; intros ->; by vm_compute in Hm. Qed.

(** The registers at entry: the arguments, the return address, and the caller's
    callee-saved registers. *)
Lemma call_regs_spec st a0 a1 a2 a3 : let r := call_regs st a0 a1 a2 a3 in
  r A0 = uintx a0 /\ r A1 = uintx a1 /\ r A2 = uintx a2 /\ r A3 = uintx a3 /\
  r RA = kEndSimulatingPC /\ (forall i, callee_saved i -> r i = xregs_ st i).
Proof.
  cbv zeta. unfold call_regs. split_and!;
    try (repeat first [rewrite xset_same by done | rewrite xset_other by done]; done).
  - rewrite xset_same by done. apply uintx_small, uintx_bound.
  - intros i Hi. destruct (callee_saved_args i Hi) as (? & ? & ? & ? & ?).
    rewrite !xset_other by done. apply PrepareCall_frame. by apply callee_saved_not_volatile.
Qed.

Lemma CallX_emitted n m f s : computes n m f -> full s ->
  (forall r i, regs_wf r -> callee_saved i \/ i = RA -> f r i = r i) ->
  exists code, emits (_ ← m; ret) s code /\
  forall st entry a0 a1 a2 a3, sim_wf st -> 0 <= entry ->
    entry + Z.of_nat (length code) < 2 ^ XLEN -> code_at (mem_ st) entry code ->
    exists fuel st', let r := call_regs st a0 a1 a2 a3 in
      CallX fuel entry a0 a1 a2 a3 st = Some (Ok (intx (f r A0), st')) /\
      xregs_ st' = f r /\ mem_ st' = mem_ st.
Proof.
  intros C Hs Hf. destruct (C s Hs) as (c1 & E1 & X1 & _).
  destruct (ret_returns (append s c1) Hs) as (c2 & E2 & R2).
  exists (c1 ++ c2). split; [by apply emits_bind|].
  intros st entry a0 a1 a2 a3 Hwf He Hpc Hc. pose proof (call_regs_wf st a0 a1 a2 a3 Hwf) as Hrw.
  destruct (call_regs_spec st a0 a1 a2 a3) as (_ & _ & _ & _ & Hra & Hcs).
  destruct (PrepareCall_frame st) as [_ Hfr]. set (r := call_regs st a0 a1 a2 a3) in *.
  set (st0 := entered st entry a0 a1 a2 a3).
  assert (xregs_ st0 = r /\ mem_ st0 = mem_ st /\ pc_ st0 = entry) as (Er & Em & Ep).
  { split_and!; [done | apply Hfr | cbn; apply uintx_small; lia]. }
  assert (sim_wf st0) as Hwf0.
  { destruct (PrepareCall_wf st Hwf) as [? ? ? ?].
    split; [rewrite Er; done | rewrite Ep; lia | done | done]. }
  destruct (executes_returns c1 f c2 st0) as (fuel & ir & HX & Hfw);
    [done | done | done | by rewrite Ep | by rewrite Em, Ep | rewrite Er, Hf; auto |].
  rewrite Er in HX. exists fuel. eexists. split_and!.
  - rewrite CallX_open. fold st0. rewrite HX. cbn [run_bind].
    destruct DEBUG eqn:HD.
    + rewrite (proj2 (CheckPreservedRegisters_spec _ _ HD)); [done|].
      split; cbn [preserved_xregs preserved_fregs SavePreservedRegisters xregs_ fregs_ with_instret with_pc with_xregs].
      * intros i Hi. rewrite Hf, Hcs by auto. done.
      * intros i [_ Hi]. symmetry. by apply Hfr.
    + rewrite CheckPreservedRegisters_release by done. done.
  - done.
  - exact Em.
Qed.
End Returning.
