(* ===== verification/Findings.v ===== *)
(** * Behaviours excluded by the hypotheses of the other files

    Each theorem shows what the code does where a hypothesis of a correctness theorem
    excludes a case: the subtraction with overflow check in place, the addition of a large
    constant in place, [SetIf] against [-1], [lui] of zero, a backward branch just beyond
    the range of a jump, a far call, a release store into a field, an access at an offset of
    nearly 2^31, and the guard of the simulator's memory at the end of the address space. *)
From S2P Require Import Prelude Utils Constants EncodingFacts Words CWords Memory Float.
From S2P Require Import SimState SimInteger SimFloat Simulator Exec Effects AsmState.
From S2P Require Import MicroAssembler Emission Computes Macros MacroFacts Branches Arithmetic.
From S2P Require Import Patching Labels Forward MacroBranches Overflow ObjectMacros.

Section Findings.
Context `{Target} `{HostFloat} `{Host}.

(** Two registers holding given words. *)
Definition two_regs (a x b y : Z) : regs := xset (xset (fun _ => 0) a x) b y.

Lemma two_regs_wf a x b y : regs_wf (two_regs a x b y).
Proof.
  apply xset_wf, xset_wf. split; [done|]. intros i. pose proof (pow2_pos XLEN XLEN_pos). lia.
Qed.

Lemma two_regs_values a x b y : a <> ZR -> b <> ZR -> a <> b ->
  two_regs a x b y a = uintx x /\ two_regs a x b y b = uintx y.
Proof.
  intros Ha Hb Hn. unfold two_regs. split; [by rewrite xset_other, xset_same | by rewrite xset_same].
Qed.

Lemma intx_small_word v : - 2 ^ 31 <= v < 2 ^ 31 -> intx v = v.
Proof.
  intros Hv. apply intx_small. assert (2 ^ 31 <= 2 ^ (XLEN - 1)) by (apply Z.pow_le_mono_r; destruct XLEN_cases; lia).
  lia.
Qed.

(** The code tests [(rd < 0) <> (rd - rs2 < rs2)] when [rd] is also the minuend: [5 - 3]
    branches without an overflow and the smallest word minus the largest overflows without
    a branch. *)
Theorem subtract_in_place_wrong rd rs2 label s :
  0 <= rd < 32 -> 0 <= rs2 < 32 -> rd <> ZR -> rs2 <> ZR -> rd <> rs2 ->
  rd <> TMP -> rd <> TMP2 -> rs2 <> TMP -> rs2 <> TMP2 -> full s -> reachable 8 s label ->
  exists cond f, branches_to (SubtractBranchOverflow rd rd rs2 label) s label cond f /\
    (exists r, regs_wf r /\ cond r = true /\ overflows (intx (r rd) - intx (r rs2)) = false) /\
    (exists r, regs_wf r /\ cond r = false /\ overflows (intx (r rd) - intx (r rs2)) = true).
Proof.
  intros Hd Hs2 Hdz Hsz Hn Hd1 Hd2 H2t H2t2 Hs Hl.
  exists (fun r => negb (b2z (intx (r rd) <? 0) =? b2z (intx (r rd - r rs2) <? intx (r rs2)))).
  eexists. split; [|split].
  - eapply branches_to_eq; [by apply assert_no_temps_bind|].
    rewrite Z.eqb_refl, (proj2 (Z.eqb_neq rd rs2)) by done. cbn [andb].
    eapply branches_to_eq; [by apply assert_bind|].
    eapply branches_to_ext; [|straight ltac:(apply slti_computes; [wside | wside | apply IsITypeImm_zero]);
      straight ltac:(apply sub_computes; wside); straight ltac:(apply slt_computes; wside); branch_end].
    intros r Hr. cbv beta. read_regs. by rewrite !uintx_b2z, intx_uintx, intx_zero.
  - exists (two_regs rd 5 rs2 3). split; [apply two_regs_wf|].
    destruct (two_regs_values rd 5 rs2 3) as [-> ->]; [done..|].
    rewrite intx_signed_sub, !intx_uintx, (intx_small_word 5), (intx_small_word 3) by lia.
    change (5 - 3) with 2. unfold overflows. by rewrite (intx_small_word 2) by lia.
  - set (M := 2 ^ (XLEN - 1)). pose proof (pow2_half XLEN XLEN_pos) as HH. fold M in HH.
    assert (2 ^ 31 <= M) by (apply Z.pow_le_mono_r; destruct XLEN_cases; lia).
    exists (two_regs rd (- M) rs2 (M - 1)). split; [apply two_regs_wf|].
    destruct (two_regs_values rd (- M) rs2 (M - 1)) as [-> ->]; [done..|].
    rewrite intx_signed_sub, !intx_uintx.
    rewrite (intx_small (- M)), (intx_small (M - 1)) by (fold M; lia).
    assert (intx (- M - (M - 1)) = 1) as E.
    { replace (- M - (M - 1)) with (1 + (-1) * 2 ^ XLEN) by lia. unfold intx.
      rewrite (swrap_plus_mul XLEN XLEN_pos). apply intx_small. fold M. lia. }
    unfold overflows. rewrite E. split.
    + rewrite (proj2 (Z.ltb_lt (- M) 0)), (proj2 (Z.ltb_lt 1 (M - 1))) by lia. done.
    + rewrite (proj2 (Z.eqb_neq 1 (- M - (M - 1)))) by lia. done.
Qed.

(** The constant is loaded into the register that holds the old value: a negative value
    plus a positive constant branches without an overflow. *)
Theorem add_large_constant_in_place_wrong rd imm label s :
  0 <= rd < 32 -> rd <> ZR -> rd <> TMP2 -> 2 ^ 11 <= imm < 2 ^ 31 ->
  full s -> reachable 12 s label ->
  exists cond f, branches_to (AddImmediateBranchOverflow rd rd imm label) s label cond f /\
    exists r, regs_wf r /\ cond r = true /\ overflows (intx (r rd) + imm) = false.
Proof.
  intros Hd Hz Ht Hi Hs Hl.
  assert (2 ^ 31 <= 2 ^ (XLEN - 1)) by (apply Z.pow_le_mono_r; destruct XLEN_cases; lia).
  assert (IsITypeImm imm = false) as HI.
  { destruct (IsITypeImm imm) eqn:E; [|done]. apply IsITypeImm_spec in E. lia. }
  exists (fun r => intx (r rd + imm) <? imm). eexists. split.
  - eapply branches_to_eq; [by apply assert_bind, negb_true_iff, Z.eqb_neq|]. rewrite Z.eqb_refl.
    eapply branches_to_ext; [|straight ltac:(apply mv_computes; wside);
      eapply (computes_branches_to 9); [apply AddImmediate_computes; done || lia | done | use_reach | intros ? ? ?];
      apply (constant_branch_to rd imm TMP2); [wside | wside | done | eapply reachable_weaken; [|use_reach]; lia]].
    intros r Hr. cbv beta. unfold with_constant. rewrite HI. read_regs.
    rewrite (proj2 (Z.ltb_lt 0 imm)) by lia. rewrite !intx_uintx, (intx_small imm) by lia.
    by rewrite <- (intx_uintx (_ + uintx imm)), uintx_add_r, intx_uintx.
  - exists (two_regs rd (-1) ZR 0). split; [apply two_regs_wf|].
    assert (two_regs rd (-1) ZR 0 rd = uintx (-1)) as ->
      by (unfold two_regs; rewrite xset_zero; by apply xset_same).
    rewrite <- (intx_uintx (_ + imm)), uintx_add_l, !intx_uintx.
    rewrite (intx_small (-1 + imm)), (intx_small (-1)) by lia.
    split; [apply Z.ltb_lt; lia|]. unfold overflows. rewrite (intx_small (-1 + imm)) by lia.
    by rewrite Z.eqb_refl.
Qed.

(** Against the constant [-1], the largest unsigned word, the code compares with its
    successor, which is zero: the result is zero although the condition always holds. *)
Theorem set_unsigned_le_minus_one rd left : 0 <= rd < 32 -> rd <> ZR -> 0 <= left < 32 ->
  computes 2 (set_compare_imm Condition.UNSIGNED_LESS_EQUAL rd left (-1)) (fun r => xset r rd 0) /\
  forall r, regs_wf r -> holds Condition.UNSIGNED_LESS_EQUAL (r left) (uintx (-1)) = true.
Proof.
  intros Hd Hz Hl. split.
  - eapply computes_ext; [|apply (computes_weaken 1); [lia|]; apply sltiu_computes;
      [done | done | apply IsITypeImm_zero]].
    intros r [_ Hr]. cbn beta. change (-1 + 1) with 0. pose proof (Hr left).
    rewrite uintx_small by (pose proof (pow2_pos XLEN XLEN_pos); lia).
    by rewrite (proj2 (Z.ltb_ge (r left) 0)) by lia.
  - intros r [_ Hr]. unfold holds. closed_tests. apply Z.leb_le. pose proof (Hr left).
    replace (uintx (-1)) with (2 ^ XLEN - 1); [lia|].
    unfold uintx, uwrap, XLEN. by destruct TARGET_64.
Qed.

(** With compressed instructions the emitter of [lui] takes zero for a compressed
    immediate and emits a word the simulator rejects. *)
Theorem lui_zero_illegal rd s : 0 <= rd < 32 -> rd <> ZR -> rd <> SP ->
  extensions_ s = RV_GC ->
  exists w, emits (lui rd 0) s (le_bytes 2 w) /\
    forall st, InterpretC st w = Err (IllegalInstructionError w).
Proof.
  intros Hd Hz Hsp He. assert (IsCUImm 0 = true) as H0' by (clear; by destruct H as [[] []]).
  exists (CUword 3 1 rd 0). split.
  - unfold emits, lui. rewrite assert_supports_bind, get_bind by (unfold Supports; by rewrite He).
    assert (Supports RV_C s = true) as HC by (unfold Supports; by rewrite He).
    rewrite HC, (proj2 (Z.eqb_neq _ _) Hz), (proj2 (Z.eqb_neq _ _) Hsp), H0'.
    by apply c_lui_emits.
  - intros st. interpret_C (CUword_reads 3 1 rd 0 ltac:(lia) ltac:(lia) Hd H0').
    rewrite (proj2 (Z.eqb_neq _ _) Hz), (proj2 (Z.eqb_neq _ _) Hsp). done.
Qed.

(** A label bound 2^19 bytes back: the range is tested for [offset + 4], the jump is
    emitted with [offset - 4], and a [DEBUG] build fails the assertion of the encoder. *)
Theorem branch_gap_asserts rs1 rs2 f3 label s :
  0 <= rs1 < 32 -> 0 <= rs2 < 32 -> In f3 branch_functs -> DEBUG = true ->
  0 <= position_ (labels_ s label) -> Position s - position_ (labels_ s label) = 2 ^ 19 ->
  EmitBranch rs1 rs2 label f3 kFarJump s = Err AssertFailure.
Proof.
  intros H1' H2' H3 HD Hp Hg. destruct (InvertFunct3_spec f3 H3) as (g & Hg' & Hgi & _).
  pose proof (branch_funct_range g Hgi).
  assert (IsBound (labels_ s label) = true) as HB.
  { unfold IsBound. apply negb_true_iff, Z.eqb_neq. lia. }
  unfold EmitBranch. rewrite get_bind. unfold label_bound. rewrite HB.
  rewrite label_offset_bind by done. replace (position_ (labels_ s label) - Position s) with (- 2 ^ 19) by lia.
  assert (IsBTypeImm (- 2 ^ 19) = false) as -> by (clear; by destruct H as [[] []]).
  assert (IsJTypeImm (- 2 ^ 19 + 4) = true) as -> by (clear; by destruct H as [[] []]).
  assert (IsJTypeImm (- 2 ^ 19 - 4) = false) as HJ by (clear; by destruct H as [[] []]).
  unfold EmitLongBranch. rewrite get_bind, (lift_bind _ g) by done.
  unfold mbind at 1, M_bind at 1.
  rewrite EmitBType_emits by first [by apply IsBTypeImm_small | wside].
  unfold mbind at 1, M_bind at 1.
  rewrite label_offset_bind by done. rewrite Position_append, length_le_bytes.
  cbn [labels_ append with_buffer].
  replace (position_ (labels_ s label) - (Position s + Z.of_nat 4)) with (- 2 ^ 19 - 4) by lia.
  unfold EmitJType, EncodeJTypeImm, mbind, M_bind, lift. rewrite HJ, ASSERT_fails by done. done.
Qed.

(** The far forms of a jump drop the link register: a far call does not save its return
    address. *)
Theorem far_call_drops_link rd op label s : bound_label s label ->
  2 ^ 19 < Position s - position_ (labels_ s label) ->
  EmitJump rd label op kFarJump s = EmitJump ZR label op kFarJump s.
Proof.
  intros Hb Hd. pose proof (bound_IsBound s label Hb) as HB. unfold EmitJump.
  rewrite !get_bind. unfold label_bound. rewrite HB. rewrite !label_offset_bind by done.
  destruct (IsJTypeImm (position_ (labels_ s label) - Position s)) eqn:E; [|done].
  apply IsJTypeImm_spec in E. lia.
Qed.

(** A store without barrier and with release order writes one byte past the field: it is the
    fence followed by the relaxed store at the next offset. *)
Theorem release_store_misses_field done object offset value s :
  StoreIntoObjectOffsetNoBarrier done object offset value kRelease s =
  (_ ← fence HartEffects.kMemory HartEffects.kRead;
   StoreIntoObjectOffsetNoBarrier done object (offset + 1) value kRelaxedNonAtomic) s.
Proof.
  unfold StoreIntoObjectOffsetNoBarrier, StoreRelease. rewrite Z.add_simpl_r. unfold mbind, M_bind.
  by destruct (fence HartEffects.kMemory HartEffects.kRead s) as [[? ?]|].
Qed.

(** On RV64 the offsets of the last 2 KB below 2^31 are accessed 4 GB too low: the high part
    is [-2^31], so [TMP2] and the low part add up to the base plus the offset minus 2^32. *)
Theorem large_offset_wraps base offset s : TARGET_64 = true -> base <> TMP2 ->
  2 ^ 31 - 2 ^ 11 <= offset < 2 ^ 31 ->
  materialize_address base offset s =
    (_ ← lui TMP2 (- 2 ^ 31); _ ← add TMP2 TMP2 base;
     mret {| AsmState.base := TMP2; AsmState.offset := offset - 2 ^ 31 |}) s /\
  forall r : regs, uintx (uintx (- 2 ^ 31 + r base) + (offset - 2 ^ 31)) = uintx (r base + offset - 2 ^ 32).
Proof.
  intros H64 Hb Ho. assert (split_lo offset = offset - 2 ^ 31) as Hlo.
  { rewrite split_lo_swrap. rewrite <- (swrap_plus_mul 12 eq_refl offset (- 2 ^ 19)).
    rewrite (swrap_small 12 eq_refl) by lia. lia. }
  assert (split_hi offset = - 2 ^ 31) as Hhi.
  { rewrite split_hi_swrap, <- split_lo_swrap, Hlo. by replace (offset - (offset - 2 ^ 31)) with (2 ^ 31) by lia. }
  split.
  - unfold materialize_address.
    rewrite assert_bind by by apply negb_true_iff, Z.eqb_neq.
    replace (IsITypeImm offset) with false
      by (symmetry; apply not_true_iff_false; rewrite IsITypeImm_spec; lia).
    rewrite (intx_small_word offset) by lia. by rewrite Hlo, Hhi.
  - intros r. rewrite uintx_add_l. f_equal. lia.
Qed.

(** The guard of the last page adds the size with the width of an address: in a debug build
    an access that reaches the end of the address space wraps around and passes. *)
Theorem wrapped_access_unchecked T st addr base : base <> SP -> base <> FP ->
  0 < sizeof T <= 8 -> addr < 2 ^ XLEN <= addr + sizeof T ->
  check_access T st addr base = Ok tt.
Proof.
  intros Hs Hf HT Ha. unfold check_access. destruct DEBUG; [|done].
  rewrite (proj2 (Z.eqb_neq _ _) Hs), (proj2 (Z.eqb_neq _ _) Hf). cbn [orb].
  assert (2 ^ 32 <= 2 ^ XLEN) by (apply Z.pow_le_mono_r; destruct XLEN_cases; lia).
  assert (uintx (addr + sizeof T) = addr + sizeof T - 2 ^ XLEN) as ->.
  { unfold uintx. rewrite <- (uwrap_plus_mul XLEN XLEN_pos _ (-1)). rewrite (uwrap_small XLEN XLEN_pos) by lia. lia. }
  assert (2 ^ 31 <= uintx (Z.lnot (16 * KB))) by (unfold uintx, XLEN; by destruct TARGET_64).
  change (16 * KB) with 16384 in *.
  rewrite (proj2 (Z.ltb_ge _ _)), (proj2 (Z.leb_gt _ _)) by lia. done.
Qed.
End Findings.
