(* ===== verification/Locations.v ===== *)
(** * Locations

    [class Location] of [src/runtime/vm/compiler/backend/locations.h]: where the register
    allocator puts a value.  The C++ object is one word, [value_]; here it is the inductive
    type [Location] together with its encoding [value_] and the accessors that read the word.
    [read_value] rebuilds a location from its word by these accessors, and
    [read_value_of_location] shows that it finds the location again, so [Location::Equals],
    which compares words, is equality of the inductive type on well-formed locations.

    A constant and a pair are pointers to objects of the compiler; they are represented by
    their addresses. *)
From S2P Require Import Prelude Utils Constants Exec Effects Macros ObjectHeader.

Module Kind.
Definition kInvalid : Z := 0.
Definition kConstantTag : Z := 1.
Definition kPairLocationTag : Z := 2.
Definition kUnallocated : Z := 1 << 2.
Definition kStackSlot : Z := 2 << 2.
Definition kDoubleStackSlot : Z := 3 << 2.
Definition kQuadStackSlot : Z := 4 << 2.
Definition kRegister : Z := 5 << 2.
Definition kFpuRegister : Z := 6 << 2.
End Kind.

Inductive Policy :=
| kAny | kPrefersRegister | kRequiresRegister | kRequiresFpuRegister | kRequiresStackSlot
| kWritableRegister | kSameAsFirstInput.

Definition policies : list Policy :=
  [kAny; kPrefersRegister; kRequiresRegister; kRequiresFpuRegister; kRequiresStackSlot;
   kWritableRegister; kSameAsFirstInput].
Definition policy_index (p : Policy) : Z :=
  match p with
  | kAny => 0 | kPrefersRegister => 1 | kRequiresRegister => 2 | kRequiresFpuRegister => 3
  | kRequiresStackSlot => 4 | kWritableRegister => 5 | kSameAsFirstInput => 6
  end.

Inductive Location :=
| NoLocation
| Constant (obj : Z) (pair_index : bool)
| PairLocation (p : Z)
| UnallocatedLocation (policy : Policy)
| StackSlot (stack_index base_reg : Z)
| DoubleStackSlot (stack_index base_reg : Z)
| QuadStackSlot (stack_index base_reg : Z)
| RegisterLocation (reg : Z)
| FpuRegisterLocation (reg : Z).

#[export] Instance Policy_eq_dec : EqDecision Policy.
Proof. solve_decision. Defined.
#[export] Instance Location_eq_dec : EqDecision Location.
Proof. solve_decision. Defined.

(** ** Tests of a location *)

Definition IsInvalid (l : Location) : bool := match l with NoLocation => true | _ => false end.
Definition IsConstant (l : Location) : bool := match l with Constant _ _ => true | _ => false end.
Definition IsPairLocation (l : Location) : bool :=
  match l with PairLocation _ => true | _ => false end.
Definition IsUnallocated (l : Location) : bool :=
  match l with UnallocatedLocation _ => true | _ => false end.
Definition IsRegister (l : Location) : bool :=
  match l with RegisterLocation _ => true | _ => false end.
Definition IsFpuRegister (l : Location) : bool :=
  match l with FpuRegisterLocation _ => true | _ => false end.
Definition IsMachineRegister (l : Location) : bool := IsRegister l || IsFpuRegister l.
Definition IsStackSlot (l : Location) : bool :=
  match l with StackSlot _ _ => true | _ => false end.
Definition IsDoubleStackSlot (l : Location) : bool :=
  match l with DoubleStackSlot _ _ => true | _ => false end.
Definition IsQuadStackSlot (l : Location) : bool :=
  match l with QuadStackSlot _ _ => true | _ => false end.
Definition HasStackIndex (l : Location) : bool :=
  IsStackSlot l || IsDoubleStackSlot l || IsQuadStackSlot l.
Definition Equals (l other : Location) : bool := bool_decide (l = other).

(** [Location::MachineRegisterLocation] of [kRegister] or [kFpuRegister]. *)
Definition MachineRegisterLocation (fpu : bool) (reg : Z) : Location :=
  if fpu then FpuRegisterLocation reg else RegisterLocation reg.

Section Words.
Context `{Target}.

Definition uword_t : ctype := CType XLEN false.

Definition kKindBitsPos : Z := 0.
Definition kKindBitsSize : Z := 5.
Definition kPayloadBitsPos : Z := kKindBitsPos + kKindBitsSize.
Definition kPayloadBitsSize : Z := XLEN - kPayloadBitsPos.
Definition kLocationTagMask : Z := 3.
Definition kBitsForBaseReg : Z := if TARGET_64 then 6 else 5.
Definition kBitsForStackIndex : Z := kPayloadBitsSize - kBitsForBaseReg.
Definition kStackIndexBias : Z := 1 << (kBitsForStackIndex - 1).

Definition KindField : BitField := {| Type_ := uword_t; position := kKindBitsPos; size := kKindBitsSize |}.
Definition PayloadField : BitField :=
  {| Type_ := uword_t; position := kPayloadBitsPos; size := kPayloadBitsSize |}.
Definition PolicyField : BitField := {| Type_ := uword_t; position := 0; size := 3 |}.
Definition StackSlotBaseField : BitField := {| Type_ := intptr_t; position := 0; size := kBitsForBaseReg |}.
Definition StackIndexField : BitField :=
  {| Type_ := intptr_t; position := kBitsForBaseReg; size := kBitsForStackIndex |}.

(** ** The encoding *)

Definition Location_of (kind payload : Z) : Z :=
  encode_unchecked KindField kind .| encode_unchecked PayloadField payload.

Definition EncodeStackIndex (stack_index : Z) : Z := uintx (kStackIndexBias + stack_index).

Definition slot_payload (stack_index base : Z) : Z :=
  encode_unchecked StackSlotBaseField base .|
  encode_unchecked StackIndexField (EncodeStackIndex stack_index).

Definition value_ (l : Location) : Z :=
  match l with
  | NoLocation => 0
  | Constant obj pair_index =>
      obj .| (if pair_index then Kind.kPairLocationTag else 0) .| Kind.kConstantTag
  | PairLocation p => p .| Kind.kPairLocationTag
  | UnallocatedLocation policy =>
      Location_of Kind.kUnallocated (encode_unchecked PolicyField (policy_index policy))
  | StackSlot i b => Location_of Kind.kStackSlot (slot_payload i b)
  | DoubleStackSlot i b => Location_of Kind.kDoubleStackSlot (slot_payload i b)
  | QuadStackSlot i b => Location_of Kind.kQuadStackSlot (slot_payload i b)
  | RegisterLocation reg => Location_of Kind.kRegister reg
  | FpuRegisterLocation reg => Location_of Kind.kFpuRegister reg
  end.

(** ** The accessors of the word *)

Definition kind (w : Z) : Z := decode KindField w.
Definition payload (w : Z) : Z := decode PayloadField w.
Definition is_constant (w : Z) : bool := w .& Kind.kConstantTag =? Kind.kConstantTag.
Definition is_pair_location (w : Z) : bool := w .& kLocationTagMask =? Kind.kPairLocationTag.
Definition pair_index (w : Z) : Z := if w .& Kind.kPairLocationTag =? 0 then 0 else 1.
Definition constant_instruction (w : Z) : Z := w .& uintx (Z.lnot kLocationTagMask).
Definition policy (w : Z) : Z := decode PolicyField (payload w).
Definition reg (w : Z) : Z := payload w.
Definition base_reg (w : Z) : Z := decode StackSlotBaseField (payload w).
Definition stack_index (w : Z) : Z := decode StackIndexField (payload w) - kStackIndexBias.

(** [Location::ToStackSlotOffset]. *)
Definition ToStackSlotOffset (stack_index : Z) : Z := stack_index * kWordSize.

(** The location a word stands for. *)
Definition read_value (w : Z) : Location :=
  if w =? 0 then NoLocation
  else if is_constant w then Constant (constant_instruction w) (pair_index w =? 1)
  else if is_pair_location w then PairLocation (constant_instruction w)
  else if kind w =? Kind.kUnallocated then
    UnallocatedLocation (default kAny (policies !! Z.to_nat (policy w)))
  else if kind w =? Kind.kStackSlot then StackSlot (stack_index w) (base_reg w)
  else if kind w =? Kind.kDoubleStackSlot then DoubleStackSlot (stack_index w) (base_reg w)
  else if kind w =? Kind.kQuadStackSlot then QuadStackSlot (stack_index w) (base_reg w)
  else if kind w =? Kind.kRegister then RegisterLocation (reg w)
  else FpuRegisterLocation (reg w).

(** Objects are at least four-byte aligned, registers are numbers of registers, and the
    [ASSERT] of [EncodeStackIndex] holds. *)
Definition pointer_ok (p : Z) : Prop := 0 <= p < 2 ^ XLEN /\ p mod 4 = 0.
Definition slot_ok (i b : Z) : Prop := - kStackIndexBias <= i < kStackIndexBias /\ 0 <= b < 32.
Definition location_ok (l : Location) : Prop :=
  match l with
  | NoLocation | UnallocatedLocation _ => True
  | Constant p _ | PairLocation p => pointer_ok p
  | StackSlot i b | DoubleStackSlot i b | QuadStackSlot i b => slot_ok i b
  | RegisterLocation r | FpuRegisterLocation r => 0 <= r < 32
  end.

(** ** Reading back *)

Lemma fields_ok : field_wf KindField /\ field_wf PayloadField /\ field_wf PolicyField /\
  field_wf StackSlotBaseField /\ field_wf StackIndexField.
Proof.
  unfold field_wf, KindField, PayloadField, PolicyField, StackSlotBaseField, StackIndexField, uword_t, intptr_t,
    kBitsForStackIndex, kPayloadBitsSize, kBitsForBaseReg, XLEN. by destruct TARGET_64.
Qed.

(** A word of two adjacent fields. *)
Lemma two_fields f g a b : field_wf f -> field_wf g -> position f = 0 -> position g = size f ->
  0 <= a < 2 ^ size f -> 0 <= b < 2 ^ size g ->
  let w := encode_unchecked f a .| encode_unchecked g b in
  w = a + 2 ^ size f * b /\ 0 <= w < 2 ^ XLEN /\ decode f w = a /\ decode g w = b.
Proof.
  intros Hf Hg Pf Pg Ha Hb w. pose proof Hf as (_ & Sf & _). pose proof Hg as (_ & Sg & Bg & _).
  assert (0 < 2 ^ size f) by (apply Z.pow_pos_nonneg; lia).
  assert (2 ^ size f * 2 ^ size g <= 2 ^ XLEN) as Hx
    by (rewrite <- Z.pow_add_r by lia; apply Z.pow_le_mono_r; lia).
  assert (w = a + 2 ^ size f * b) as E.
  { unfold w. rewrite !encode_fits by done. rewrite Pf, Pg, Z.shiftl_0_r, Z.shiftl_mul_pow2 by lia.
    rewrite (Z.mul_comm b). rewrite <- Z.lxor_lor.
    - rewrite <- Z.add_nocarry_lxor; [done|]. apply Z.bits_inj'. intros i Hi.
      rewrite Z.land_spec, Z.bits_0, (Z.mul_comm _ b), <- Z.shiftl_mul_pow2, Z.shiftl_spec by lia.
      destruct (Z.lt_ge_cases i (size f)); [rewrite (Z.testbit_neg_r b) by lia; apply andb_false_r|].
      by rewrite (testbit_above a (size f)) by lia.
    - apply Z.bits_inj'. intros i Hi.
      rewrite Z.land_spec, Z.bits_0, (Z.mul_comm _ b), <- Z.shiftl_mul_pow2, Z.shiftl_spec by lia.
      destruct (Z.lt_ge_cases i (size f)); [rewrite (Z.testbit_neg_r b) by lia; apply andb_false_r|].
      by rewrite (testbit_above a (size f)) by lia. }
  assert (0 <= w < 2 ^ XLEN) as Hw by (rewrite E; nia).
  split_and!; [done | apply Hw | apply Hw | |]; rewrite decode_bits by done;
    rewrite Z.land_ones, Z.shiftr_div_pow2 by lia; rewrite E, ?Pf, ?Pg.
  - rewrite Z.pow_0_r, Z.div_1_r, (Z.mul_comm _ b), Z.mod_add by lia. by apply Z.mod_small.
  - rewrite (Z.mul_comm _ b), Z.div_add, Z.div_small, Z.add_0_l by lia. by apply Z.mod_small.
Qed.

Lemma word_of_kind k p : 0 <= k < 32 -> k mod 4 = 0 -> 0 < k -> 0 <= p < 2 ^ kPayloadBitsSize ->
  let w := Location_of k p in
  w <> 0 /\ is_constant w = false /\ is_pair_location w = false /\ kind w = k /\ payload w = p.
Proof.
  intros Hk Hm Hp0 Hp w. destruct fields_ok as (HK & HP & _).
  destruct (two_fields KindField PayloadField k p HK HP eq_refl eq_refl Hk Hp) as (E & _ & E1 & E2).
  change (w = k + 2 ^ 5 * p) in E.
  assert (w mod 4 = 0) as H4 by (rewrite E; change (2 ^ 5) with (8 * 4);
    rewrite <- Z.mul_assoc, (Z.mul_comm 4), Z.mul_assoc, Z.mod_add by lia; done).
  split_and!; [lia | | | exact E1 | exact E2].
  - unfold is_constant. apply Z.eqb_neq. change Kind.kConstantTag with (Z.ones 1).
    rewrite Z.land_ones by lia. change (2 ^ 1) with 2. change (Z.ones 1) with 1. clearbody w. pose proof (Z.div_mod w 4 ltac:(lia)). pose proof (Z.div_mod w 2 ltac:(lia)). lia.
  - unfold is_pair_location. apply Z.eqb_neq. change kLocationTagMask with (Z.ones 2).
    rewrite Z.land_ones by lia. change (2 ^ 2) with 4. rewrite H4. done.
Qed.

Lemma slot_fields i b : slot_ok i b -> let p := slot_payload i b in
  0 <= p < 2 ^ kPayloadBitsSize /\ decode StackSlotBaseField p = b /\
  decode StackIndexField p - kStackIndexBias = i.
Proof.
  intros [Hi Hb] p. destruct fields_ok as (_ & _ & _ & HB & HI).
  assert (2 ^ kBitsForStackIndex = 2 * kStackIndexBias /\ 0 < kStackIndexBias /\ 2 ^ kBitsForStackIndex < 2 ^ XLEN /\
          32 <= 2 ^ kBitsForBaseReg /\ 2 ^ kBitsForBaseReg * 2 ^ kBitsForStackIndex = 2 ^ kPayloadBitsSize) as (E2 & H0 & Hx & H32 & EP).
  { unfold kStackIndexBias, kBitsForStackIndex, kPayloadBitsSize, kBitsForBaseReg, XLEN. by destruct TARGET_64. }
  assert (EncodeStackIndex i = kStackIndexBias + i) as EI by (apply uintx_small; lia).
  destruct (two_fields StackSlotBaseField StackIndexField b (EncodeStackIndex i) HB HI eq_refl eq_refl) as (E & _ & D1 & D2).
  - change (size StackSlotBaseField) with kBitsForBaseReg. lia.
  - change (size StackIndexField) with kBitsForStackIndex. lia.
  - change (size StackSlotBaseField) with kBitsForBaseReg in E.
    assert (p = b + 2 ^ kBitsForBaseReg * EncodeStackIndex i) as E' by exact E.
    split_and!; [nia | nia | exact D1 |]. unfold p, slot_payload. rewrite D2. lia.
Qed.

Lemma pointer_tags p t : pointer_ok p -> 0 <= t < 4 ->
  let w := p .| t in w .& 3 = t /\ constant_instruction w = p /\ (t <> 0 -> w <> 0).
Proof.
  intros [Hp Hm] Ht w.
  assert (w .& 3 = t) as E.
  { unfold w. rewrite Z.land_lor_distr_l. change 3 with (Z.ones 2). rewrite !Z.land_ones by lia.
    change (2 ^ 2) with 4. rewrite Hm. by rewrite Z.lor_0_l, Z.mod_small. }
  split_and!; [done | | intros Hn E0; by rewrite E0 in E].
  unfold constant_instruction. apply Z.bits_inj'. intros i Hi. unfold w, uintx.
  rewrite Z.land_spec, Z.lor_spec, (testbit_uwrap _ XLEN_pos), Z.lnot_spec by done.
  change kLocationTagMask with (Z.ones 2). rewrite Z.testbit_ones_nonneg by lia.
  destruct (Z.ltb_spec i 2); cbn [negb].
  - rewrite !andb_false_r. rewrite <- (Z.mod_pow2_bits_low p 2 i) by lia. change (2 ^ 2) with 4.
    by rewrite Hm, Z.bits_0.
  - rewrite (testbit_above t 2) by (done || lia). rewrite orb_false_r, andb_true_r.
    destruct (Z.ltb_spec i XLEN); [apply andb_true_r|]. rewrite andb_false_r. symmetry. apply (testbit_above p XLEN); [done|]. pose proof XLEN_pos; lia.
Qed.

Lemma small_payload r : 0 <= r < 32 -> 0 <= r < 2 ^ kPayloadBitsSize.
Proof. unfold kPayloadBitsSize, kPayloadBitsPos, kKindBitsPos, kKindBitsSize, XLEN. destruct TARGET_64; cbn -[Z.pow]; [change (2 ^ _) with (2 ^ 59) | change (2 ^ _) with (2 ^ 27)]; lia. Qed.

Ltac read_slot k Hl :=
  let N := fresh in let C := fresh in let P := fresh in let K := fresh in let Y := fresh in
  let B := fresh in let D1 := fresh in let D2 := fresh in
  destruct (slot_fields _ _ Hl) as (B & D1 & D2);
  destruct (word_of_kind k _ ltac:(done) ltac:(done) ltac:(done) B) as (N & C & P & K & Y);
  unfold read_value; cbn [value_]; rewrite (proj2 (Z.eqb_neq _ _) N), C, P, K; closed_tests;
  unfold stack_index, base_reg; by rewrite Y, D1, D2.

Lemma read_value_of_location l : location_ok l -> read_value (value_ l) = l.
Proof.
  destruct l as [|p i|p|p|i b|i b|i b|r|r]; intros Hl; cbn [location_ok] in Hl.
  - done.
  - cbn [value_]. rewrite <- Z.lor_assoc.
    set (t := (if i then Kind.kPairLocationTag else 0) .| Kind.kConstantTag).
    destruct (pointer_tags p t Hl) as (E & Ep & Hn); [by destruct i|].
    set (w := p .| t) in *. unfold read_value.
    rewrite (proj2 (Z.eqb_neq w 0)) by (apply Hn; by destruct i).
    assert (w .& 1 = t .& 1 /\ w .& 2 = t .& 2) as [E1 E2].
    { rewrite <- E, <- !Z.land_assoc. done. }
    unfold is_constant, pair_index. change Kind.kConstantTag with 1. change Kind.kPairLocationTag with 2.
    rewrite E1, E2, Ep. by destruct i.
  - cbn [value_]. change Kind.kPairLocationTag with 2.
    destruct (pointer_tags p 2 Hl) as (E & Ep & Hn); [done|]. set (w := p .| 2) in *. unfold read_value.
    rewrite (proj2 (Z.eqb_neq w 0)) by by apply Hn.
    assert (w .& 1 = 0) as E1. { change 0 with (2 .& 1) at 1. rewrite <- E, <- Z.land_assoc. done. }
    unfold is_constant, is_pair_location. change Kind.kConstantTag with 1. change kLocationTagMask with 3.
    by rewrite E1, E, Ep.
  - destruct fields_ok as (_ & _ & HP & _). assert (0 <= policy_index p < 2 ^ size PolicyField) as Hp by by destruct p.
    assert (decode PolicyField (encode_unchecked PolicyField (policy_index p)) = policy_index p) as D
      by by apply decode_encode.
    assert (0 <= encode_unchecked PolicyField (policy_index p) < 2 ^ kPayloadBitsSize) as B.
    { rewrite encode_fits by done. apply small_payload. by destruct p. }
    destruct (word_of_kind Kind.kUnallocated _ ltac:(done) ltac:(done) ltac:(done) B) as (N & C & P & K & Y).
    unfold read_value. cbn [value_]. rewrite (proj2 (Z.eqb_neq _ _) N), C, P, K. closed_tests. unfold policy. rewrite Y, D.
    by destruct p.
  - read_slot Kind.kStackSlot Hl.
  - read_slot Kind.kDoubleStackSlot Hl.
  - read_slot Kind.kQuadStackSlot Hl.
  - destruct (word_of_kind Kind.kRegister _ ltac:(done) ltac:(done) ltac:(done) (small_payload r Hl)) as (N & C & P & K & Y).
    unfold read_value. cbn [value_]. rewrite (proj2 (Z.eqb_neq _ _) N), C, P, K. closed_tests. unfold reg. by rewrite Y.
  - destruct (word_of_kind Kind.kFpuRegister _ ltac:(done) ltac:(done) ltac:(done) (small_payload r Hl)) as (N & C & P & K & Y).
    unfold read_value. cbn [value_]. rewrite (proj2 (Z.eqb_neq _ _) N), C, P, K. closed_tests. unfold reg. by rewrite Y.
Qed.
End Words.
