(* ===== verification/ParallelMoves.v ===== *)
(** * The parallel move resolver

    [class MoveOperands] ([src/runtime/vm/compiler/backend/il.h]), [class
    ParallelMoveResolver] ([src/runtime/vm/compiler/backend/flow_graph_compiler.cc]) and the
    RISC-V code it emits ([src/runtime/vm/compiler/backend/flow_graph_compiler_riscv.cc],
    [il_riscv.cc]).  A parallel move assigns several destinations from several sources at
    once; the resolver orders the single moves and breaks cycles by swaps.

    The list [moves_] is the resolver's state and is passed explicitly; emitting code is a
    computation of the assembler.  [PerformMove] calls itself for the moves that block it,
    every level marks one more move pending, so the number of moves bounds the depth.  The
    temporary allocator's [reg_] and [spilled_] are the results of [AllocateTemporary].

    What the emitted code takes from the object pool and the thread is described by the class
    [ObjectPool]: the offsets at which the compiler finds its constants. *)
From S2P Require Import Prelude Utils Constants Memory AsmState MicroAssembler Macros ObjectHeader.
From S2P Require Import Locations.

(** ** Constants *)

Inductive Representation :=
| kNoRepresentation | kTagged | kUntagged | kUnboxedDouble | kUnboxedFloat
| kUnboxedUint8 | kUnboxedUint16 | kUnboxedInt32 | kUnboxedUint32 | kUnboxedInt64
| kUnboxedFloat32x4 | kUnboxedInt32x4 | kUnboxedFloat64x2 | kPairOfTagged.

#[export] Instance Representation_eq_dec : EqDecision Representation.
Proof. solve_decision. Defined.

Definition IsUnboxedInteger (rep : Representation) : bool :=
  match rep with
  | kUnboxedUint8 | kUnboxedUint16 | kUnboxedInt32 | kUnboxedUint32 | kUnboxedInt64 => true
  | _ => false
  end.
Definition IsUnsigned (rep : Representation) : bool :=
  match rep with
  | kUnboxedUint8 | kUnboxedUint16 | kUnboxedUint32 => true
  | _ => false
  end.

(** The objects a constant can be, as far as code generation tells them apart. *)
Inductive Object :=
| NullObject | TrueObject | FalseObject
| SmiObject (value : Z) | MintObject (value : Z) | DoubleObject (bits : Z)
| OtherObject (id : Z).

Record ConstantInstr := { value : Object; representation : Representation }.

Definition HasIntegerValue (o : Object) : option Z :=
  match o with SmiObject v | MintObject v => Some v | _ => None end.
Definition IsSmi (o : Object) : bool := match o with SmiObject _ => true | _ => false end.

(** Offsets of the target, and where the compiler finds constants. *)
Class ObjectPool := {
  constant_pool_allowed : bool;
  FindObject : Object -> Z;
  FindImmediate : Z -> Z;
  AddImmediate_lo_hi : Z -> Z * Z;
  element_offset : Z -> Z;
  CanLoadFromThread : Object -> option Z;
  kTrueOffsetFromNull : Z;
  kFalseOffsetFromNull : Z
}.

Section Constants.
Context `{Target} {pool : ObjectPool}.

Definition ToRawSmi (v : Z) : Z := intx (v << kSmiTagShift).

Definition LoadWordFromPoolIndex (dst index pp : Z) : asm unit :=
  _ ← assert (negb (pp =? PP) || constant_pool_allowed);
  _ ← assert (negb (dst =? pp));
  let imm := uint32 (element_offset index) in
  let lo := split_lo imm in
  let hi := split_hi imm in
  if hi =? 0 then lx dst {| base := pp; offset := lo |}
  else
    _ ← lui dst hi;
    _ ← add dst dst pp;
    lx dst {| base := dst; offset := lo |}.

(** [LoadObjectHelper] with [is_unique == false], which is [LoadObject].  The assertions that
    [object] is an original handle are about the host's handles. *)
Definition LoadObject_rest (dst : Z) (object : Object) : asm unit :=
  if constant_pool_allowed then LoadWordFromPoolIndex dst (FindObject object) PP
  else match object with
       | SmiObject v => LoadImmediate dst (ToRawSmi v)
       | _ => fail (if DEBUG then AssertFailure else Unreachable)
       end.

Definition LoadObject (dst : Z) (object : Object) : asm unit :=
  match object with
  | NullObject => mv dst NULL_REG
  | TrueObject => addi dst NULL_REG kTrueOffsetFromNull
  | FalseObject => addi dst NULL_REG kFalseOffsetFromNull
  | _ =>
      match CanLoadFromThread object with
      | Some offset => lx dst {| base := THR; offset := offset |}
      | None =>
          match object with
          | SmiObject v =>
              let raw_smi := ToRawSmi v in
              if IsITypeImm raw_smi then li dst raw_smi
              else if IsUTypeImm raw_smi then lui dst raw_smi
              else LoadObject_rest dst object
          | _ => LoadObject_rest dst object
          end
      end
  end.

(** [LoadDImmediate] of a double given by its bits. *)
Definition LoadDImmediate (reg imm : Z) : asm unit :=
  if imm =? 0 then if TARGET_64 then fmvdx reg ZR else fcvtdwu reg ZR RoundingMode.RNE
  else
    _ ← assert constant_pool_allowed;
    if TARGET_64 then LoadDFromOffset reg PP (element_offset (FindImmediate imm))
    else
      let '(lo_index, hi_index) := AddImmediate_lo_hi imm in
      _ ← assert (lo_index + 1 =? hi_index);
      LoadDFromOffset reg PP (element_offset lo_index).

(** The integer loaded for a constant of integer representation. *)
Definition constant_word (v : Z) (pair_index : bool) : asm Z :=
  if TARGET_64 then _ ← assert (negb pair_index); mret v
  else mret (intx (if pair_index then High32Bits v else Low32Bits v)).

Definition EmitMoveToLocation (c : ConstantInstr) (destination : Location) (tmp : Z)
    (pair_index : bool) : asm unit :=
  match destination with
  | RegisterLocation reg =>
      if IsUnboxedInteger (representation c) then
        match HasIntegerValue (value c) with
        | None => fail FatalError
        | Some v =>
            _ ← assert (negb (IsSmi (value c) && IsUnsigned (representation c)) || (0 <=? v));
            w ← constant_word v pair_index;
            LoadImmediate reg w
        end
      else
        _ ← assert (bool_decide (representation c = kTagged));
        LoadObject reg (value c)
  | FpuRegisterLocation dst =>
      match value c with
      | DoubleObject bits => LoadDImmediate dst bits
      | _ => fail (if DEBUG then AssertFailure else Unreachable)
      end
  | DoubleStackSlot stack_index base_reg =>
      match value c with
      | DoubleObject bits =>
          _ ← LoadDImmediate FTMP bits;
          StoreDToOffset FTMP base_reg (ToStackSlotOffset stack_index)
      | _ => fail (if DEBUG then AssertFailure else Unreachable)
      end
  | StackSlot stack_index base_reg =>
      _ ← assert (negb (tmp =? kNoRegister));
      let dest_offset := ToStackSlotOffset stack_index in
      tmp ← (if IsUnboxedInteger (representation c) then
               match HasIntegerValue (value c) with
               | None => fail FatalError
               | Some v => w ← constant_word v pair_index; _ ← LoadImmediate tmp w; mret tmp
               end
             else
               _ ← assert (bool_decide (representation c = kTagged));
               match value c with
               | NullObject => mret NULL_REG
               | SmiObject 0 => mret ZR
               | _ => _ ← LoadObject tmp (value c); mret tmp
               end);
      StoreToOffset tmp base_reg dest_offset (if TARGET_64 then kEightBytes else kFourBytes)
  | _ => fail (if DEBUG then AssertFailure else Unreachable)
  end.
End Constants.

(** ** Moves *)

Record MoveOperands := { dest_ : Location; src_ : Location }.

#[export] Instance MoveOperands_eq_dec : EqDecision MoveOperands.
Proof. solve_decision. Defined.

Definition set_src (m : MoveOperands) (v : Location) : MoveOperands := {| dest_ := dest_ m; src_ := v |}.
Definition Eliminate (m : MoveOperands) : MoveOperands := {| dest_ := NoLocation; src_ := NoLocation |}.

Section Moves.
Context `{Target}.

Definition IsEliminated (m : MoveOperands) : asm bool :=
  _ ← assert (negb (IsInvalid (src_ m)) || IsInvalid (dest_ m));
  mret (IsInvalid (src_ m)).
Definition IsPending (m : MoveOperands) : asm bool :=
  _ ← assert (negb (IsInvalid (src_ m)) || IsInvalid (dest_ m));
  mret (IsInvalid (dest_ m) && negb (IsInvalid (src_ m))).
Definition Blocks (m : MoveOperands) (loc : Location) : asm bool :=
  e ← IsEliminated m; mret (negb e && Equals (src_ m) loc).
Definition IsRedundant (m : MoveOperands) : asm bool :=
  e ← IsEliminated m; mret (e || IsInvalid (dest_ m) || Equals (src_ m) (dest_ m)).
Definition MarkPending (m : MoveOperands) : asm (Location * MoveOperands) :=
  p ← IsPending m; _ ← assert (negb p);
  mret (dest_ m, {| dest_ := NoLocation; src_ := src_ m |}).
Definition ClearPending (m : MoveOperands) (dest : Location) : asm MoveOperands :=
  p ← IsPending m; _ ← assert p; mret {| dest_ := dest; src_ := src_ m |}.

(** [GrowableArray::operator[]]. *)
Definition at_index (moves : list MoveOperands) (i : nat) : asm MoveOperands :=
  match moves !! i with
  | Some m => mret m
  | None => fail (if DEBUG then AssertFailure else HostFault (Z.of_nat i))
  end.

(** A loop over the indices of [moves_]. *)
Fixpoint for_each {A} (l : list nat) (body : nat -> A -> asm A) (a : A) : asm A :=
  match l with
  | [] => mret a
  | i :: l => a ← body i a; for_each l body a
  end.

(** Whether some element of [moves_] satisfies the test; the loop stops at the first. *)
Fixpoint find_move (moves : list MoveOperands) (test : MoveOperands -> asm bool) : asm (option MoveOperands) :=
  match moves with
  | [] => mret None
  | m :: moves => b ← test m; if b : bool then mret (Some m) else find_move moves test
  end.
End Moves.

(** What the resolver asks of the compiler it belongs to. *)
Record FlowGraphCompiler := {
  StackSize : Z;
  intrinsic_mode : bool;
  first_local_from_fp : Z;
  param_end_from_fp : Z;
  constant_at : Z -> ConstantInstr;
  pair_at : Z -> Location * Location
}.

Definition RegMaskBit (reg : Z) : Z := if reg =? kNoRegister then 0 else 1 << reg.

Section Resolver.
Context `{Target} {pool : ObjectPool} (compiler_ : FlowGraphCompiler).

Definition kWordOperand : OperandSize := if TARGET_64 then kEightBytes else kFourBytes.

Definition VariableIndexForFrameSlot (frame_slot : Z) : asm Z :=
  if frame_slot <=? first_local_from_fp compiler_ then mret (frame_slot - first_local_from_fp compiler_)
  else
    _ ← assert (param_end_from_fp compiler_ <? frame_slot);
    mret (frame_slot - param_end_from_fp compiler_).

Definition SpillScratch (reg : Z) : asm unit := PushRegister reg.
Definition RestoreScratch (reg : Z) : asm unit := PopRegister reg.
Definition SpillFpuScratch (reg : Z) : asm unit :=
  _ ← subi SP SP 8; fsd reg {| base := SP; offset := 0 |}.
Definition RestoreFpuScratch (reg : Z) : asm unit :=
  _ ← fld reg {| base := SP; offset := 0 |}; addi SP SP 8.

Definition IsScratchLocation (moves : list MoveOperands) (loc : Location) : asm bool :=
  blocked ← find_move moves (fun m => Blocks m loc);
  match blocked with
  | Some _ => mret false
  | None =>
      d ← find_move moves (fun m => mret (Equals (dest_ m) loc));
      mret (match d with Some _ => true | None => false end)
  end.

(** The first loop of [AllocateScratchRegister], and the second. *)
Fixpoint find_scratch (moves : list MoveOperands) (fpu : bool) (blocked_mask : Z) (l : list Z) : asm Z :=
  match l with
  | [] => mret (-1)
  | reg :: l =>
      b ← (if (1 << reg) .& blocked_mask =? 0
           then IsScratchLocation moves (MachineRegisterLocation fpu reg) else mret false);
      if b : bool then mret reg else find_scratch moves fpu blocked_mask l
  end.
Fixpoint find_unblocked (blocked_mask : Z) (l : list Z) : Z :=
  match l with
  | [] => -1
  | reg :: l => if (1 << reg) .& blocked_mask =? 0 then reg else find_unblocked blocked_mask l
  end.

(** The scratch register and [*spilled]. *)
Definition AllocateScratchRegister (moves : list MoveOperands) (fpu : bool)
    (blocked_mask first_free_register last_free_register : Z) : asm (Z * bool) :=
  let regs := seqZ first_free_register (last_free_register + 1 - first_free_register) in
  scratch ← find_scratch moves fpu blocked_mask regs;
  if scratch =? -1 then mret (find_unblocked blocked_mask regs, true) else mret (scratch, false).

(** [ScratchFpuRegisterScope] and its destructor. *)
Definition ScratchFpuRegisterScope (moves : list MoveOperands) (blocked : Z) : asm (Z * bool) :=
  let blocked_mask := (if blocked =? kNoFpuRegister then 0 else 1 << blocked) .| (1 << FTMP) in
  '(reg, spilled) ← AllocateScratchRegister moves true blocked_mask 0 (kNumberOfFpuRegisters - 1);
  _ ← (if spilled : bool then SpillFpuScratch reg else mret tt);
  mret (reg, spilled).
Definition EndScratchFpuRegisterScope (scratch : Z * bool) : asm unit :=
  if snd scratch then RestoreFpuScratch (fst scratch) else mret tt.

Definition AllocateTemporary (moves : list MoveOperands) (blocked_ : Z) : asm (Z * bool) :=
  let blocked_mask := RegMaskBit blocked_ .| kReservedCpuRegisters in
  let blocked_mask :=
    if intrinsic_mode compiler_
    then blocked_mask .| RegMaskBit ARGS_DESC_REG .| RegMaskBit CODE_REG else blocked_mask in
  '(reg, spilled) ← AllocateScratchRegister moves false blocked_mask 0 (kNumberOfCpuRegisters - 1);
  _ ← (if spilled : bool then SpillScratch reg else mret tt);
  mret (reg, spilled).
Definition ReleaseTemporary (tmp : Z * bool) : asm unit :=
  if snd tmp then RestoreScratch (fst tmp) else mret tt.

(** [Exchange] of a register with a stack slot, and of two stack slots.  The scopes are left
    in the reverse order of their declarations. *)
Definition Exchange_slot (moves : list MoveOperands) (reg base_reg stack_offset : Z) : asm unit :=
  tmp ← AllocateTemporary moves reg;
  _ ← mv (fst tmp) reg;
  _ ← LoadFromOffset reg base_reg stack_offset kWordOperand;
  _ ← StoreToOffset (fst tmp) base_reg stack_offset kWordOperand;
  ReleaseTemporary tmp.

Definition Exchange_slots (moves : list MoveOperands)
    (base_reg1 stack_offset1 base_reg2 stack_offset2 : Z) : asm unit :=
  tmp1 ← AllocateTemporary moves kNoRegister;
  tmp2 ← AllocateTemporary moves (fst tmp1);
  _ ← LoadFromOffset (fst tmp1) base_reg1 stack_offset1 kWordOperand;
  _ ← LoadFromOffset (fst tmp2) base_reg2 stack_offset2 kWordOperand;
  _ ← StoreToOffset (fst tmp1) base_reg2 stack_offset2 kWordOperand;
  _ ← StoreToOffset (fst tmp2) base_reg1 stack_offset1 kWordOperand;
  _ ← ReleaseTemporary tmp2;
  ReleaseTemporary tmp1.

(** [stack_index()] and [base_reg()]; other kinds of locations have none, a release build would
    read their payload as such. *)
Definition slot_of (l : Location) : asm (Z * Z) :=
  match l with
  | StackSlot i b | DoubleStackSlot i b | QuadStackSlot i b => mret (i, b)
  | _ => fail (if DEBUG then AssertFailure else Unreachable)
  end.

(** [FlowGraphCompiler::EmitMove] on locations other than pairs; the result says whether a
    temporary was allocated. *)
Definition EmitMove_single (moves : list MoveOperands) (destination source : Location) : asm bool :=
  if Equals destination source then mret false
  else
  match source with
  | RegisterLocation src =>
      match destination with
      | RegisterLocation dst => _ ← mv dst src; mret false
      | _ =>
          _ ← assert (IsStackSlot destination);
          '(i, b) ← slot_of destination;
          _ ← StoreToOffset src b (ToStackSlotOffset i) kWordOperand; mret false
      end
  | StackSlot si sb =>
      match destination with
      | RegisterLocation dst => _ ← LoadFromOffset dst sb (ToStackSlotOffset si) kWordOperand; mret false
      | FpuRegisterLocation dst =>
          _ ← fld dst {| base := sb; offset := ToStackSlotOffset si |}; mret false
      | _ =>
          _ ← assert (IsStackSlot destination);
          '(di, db) ← slot_of destination;
          tmp ← AllocateTemporary moves kNoRegister;
          _ ← LoadFromOffset (fst tmp) sb (ToStackSlotOffset si) kWordOperand;
          _ ← StoreToOffset (fst tmp) db (ToStackSlotOffset di) kWordOperand;
          _ ← ReleaseTemporary tmp; mret true
      end
  | FpuRegisterLocation src =>
      match destination with
      | FpuRegisterLocation dst => _ ← fmvd dst src; mret false
      | StackSlot i b | DoubleStackSlot i b =>
          _ ← fsd src {| base := b; offset := ToStackSlotOffset i |}; mret false
      | _ => _ ← assert (IsQuadStackSlot destination); fail Unimplemented
      end
  | DoubleStackSlot si sb =>
      match destination with
      | FpuRegisterLocation dst =>
          _ ← fld dst {| base := sb; offset := ToStackSlotOffset si |}; mret false
      | _ =>
          _ ← assert (IsDoubleStackSlot destination || IsStackSlot destination);
          '(di, db) ← slot_of destination;
          _ ← fld FTMP {| base := sb; offset := ToStackSlotOffset si |};
          _ ← fsd FTMP {| base := db; offset := ToStackSlotOffset di |}; mret false
      end
  | QuadStackSlot _ _ => fail Unimplemented
  | Constant obj pair_index =>
      match destination with
      | StackSlot _ _ =>
          tmp ← AllocateTemporary moves kNoRegister;
          _ ← EmitMoveToLocation (constant_at compiler_ obj) destination (fst tmp) pair_index;
          _ ← ReleaseTemporary tmp; mret true
      | _ =>
          _ ← EmitMoveToLocation (constant_at compiler_ obj) destination kNoRegister pair_index;
          mret false
      end
  | _ => fail (if DEBUG then AssertFailure else Unreachable)
  end.

Definition compiler_EmitMove (moves : list MoveOperands) (destination source : Location) : asm bool :=
  match source with
  | PairLocation s =>
      if Equals destination source then mret false
      else if TARGET_64 then fail Unreachable
      else match destination with
           | PairLocation d =>
               b0 ← EmitMove_single moves (fst (pair_at compiler_ d)) (fst (pair_at compiler_ s));
               b1 ← EmitMove_single moves (snd (pair_at compiler_ d)) (snd (pair_at compiler_ s));
               mret (b0 || b1)
           | _ => fail (if DEBUG then AssertFailure else Unreachable)
           end
  | _ => EmitMove_single moves destination source
  end.

Definition IsSPSlot (l : Location) : bool :=
  match l with
  | StackSlot _ b | DoubleStackSlot _ b | QuadStackSlot _ b => b =? SP
  | _ => false
  end.

(** [ParallelMoveResolver::EmitMove]. *)
Definition EmitMove (index : nat) (moves : list MoveOperands) : asm (list MoveOperands) :=
  move ← at_index moves index;
  let dst := dest_ move in
  _ ← match dst with
      | StackSlot i b | DoubleStackSlot i b =>
          if b =? FP then v ← VariableIndexForFrameSlot i; assert (- v <? StackSize compiler_)
          else mret tt
      | _ => mret tt
      end;
  let src := src_ move in
  allocated ← compiler_EmitMove moves dst src;
  _ ← assert (negb allocated || negb (IsSPSlot dst));
  _ ← assert (negb allocated || negb (IsSPSlot src));
  mret (<[index := Eliminate move]> moves).

(** The moves after a swap of [source] and [destination]. *)
Fixpoint rename_sources (source destination : Location) (moves : list MoveOperands) : asm (list MoveOperands) :=
  match moves with
  | [] => mret []
  | m :: moves =>
      b1 ← Blocks m source;
      m' ← (if b1 : bool then mret (set_src m destination)
            else b2 ← Blocks m destination;
                 mret (if b2 : bool then set_src m source else m));
      moves ← rename_sources source destination moves;
      mret (m' :: moves)
  end.

(** [ParallelMoveResolver::EmitSwap]. *)
Definition EmitSwap (index : nat) (moves : list MoveOperands) : asm (list MoveOperands) :=
  move ← at_index moves index;
  let source := src_ move in
  let destination := dest_ move in
  _ ← match source, destination with
      | RegisterLocation src, RegisterLocation dst =>
          _ ← assert (negb (src =? TMP));
          _ ← assert (negb (dst =? TMP));
          _ ← mv TMP src;
          _ ← mv src dst;
          mv dst TMP
      | RegisterLocation src, StackSlot i b => Exchange_slot moves src b (ToStackSlotOffset i)
      | StackSlot i b, RegisterLocation dst => Exchange_slot moves dst b (ToStackSlotOffset i)
      | StackSlot si sb, StackSlot di db =>
          Exchange_slots moves sb (ToStackSlotOffset si) db (ToStackSlotOffset di)
      | FpuRegisterLocation src, FpuRegisterLocation dst =>
          _ ← fmvd FTMP src;
          _ ← fmvd src dst;
          fmvd dst FTMP
      | FpuRegisterLocation _, _ | _, FpuRegisterLocation _ => fail Unimplemented
      | DoubleStackSlot si sb, DoubleStackSlot di db =>
          scratch ← ScratchFpuRegisterScope moves kNoFpuRegister;
          _ ← LoadDFromOffset FTMP sb (ToStackSlotOffset si);
          _ ← LoadDFromOffset (fst scratch) db (ToStackSlotOffset di);
          _ ← StoreDToOffset FTMP db (ToStackSlotOffset di);
          _ ← StoreDToOffset (fst scratch) sb (ToStackSlotOffset si);
          EndScratchFpuRegisterScope scratch
      | QuadStackSlot _ _, QuadStackSlot _ _ => fail Unimplemented
      | _, _ => fail Unreachable
      end;
  rename_sources source destination (<[index := Eliminate move]> moves).

(** [ParallelMoveResolver::PerformMove]. *)
Fixpoint PerformMove (fuel : nat) (index : nat) (moves : list MoveOperands) : asm (list MoveOperands) :=
  match fuel with
  | O => fail LoopFuelExhausted
  | S fuel =>
      move ← at_index moves index;
      p ← IsPending move; _ ← assert (negb p);
      r ← IsRedundant move; _ ← assert (negb r);
      _ ← assert (negb (IsInvalid (src_ move)));
      '(destination, move) ← MarkPending move;
      moves ← for_each (seq 0 (length moves)) (fun i moves =>
        other_move ← at_index moves i;
        b ← Blocks other_move destination;
        if b : bool then
          p ← IsPending other_move;
          if p : bool then mret moves else PerformMove fuel i moves
        else mret moves) (<[index := move]> moves);
      move ← at_index moves index;
      move ← ClearPending move destination;
      let moves := <[index := move]> moves in
      if Equals (src_ move) destination then mret (<[index := Eliminate move]> moves)
      else
        blocking ← find_move moves (fun m => Blocks m destination);
        match blocking with
        | Some other_move =>
            p ← IsPending other_move; _ ← assert p;
            EmitSwap index moves
        | None => EmitMove index moves
        end
  end.

Fixpoint BuildInitialMoveList (parallel_move : list MoveOperands) : asm (list MoveOperands) :=
  match parallel_move with
  | [] => mret []
  | m :: rest =>
      r ← IsRedundant m;
      moves ← BuildInitialMoveList rest;
      mret (if r : bool then moves else m :: moves)
  end.

(** [ParallelMoveResolver::EmitNativeCode]; [moves_] is empty before and after. *)
Definition EmitNativeCode (parallel_move : list MoveOperands) : asm unit :=
  moves ← BuildInitialMoveList parallel_move;
  moves ← for_each (seq 0 (length moves)) (fun i moves =>
    move ← at_index moves i;
    e ← IsEliminated move;
    if negb e && negb (IsConstant (src_ move)) then PerformMove (S (length moves)) i moves
    else mret moves) moves;
  _ ← for_each (seq 0 (length moves)) (fun i moves =>
    move ← at_index moves i;
    e ← IsEliminated move;
    if negb e then
      _ ← assert (IsConstant (src_ move));
      EmitMove i moves
    else mret moves) moves;
  mret tt.
End Resolver.
