(* ===== verification/MoveCode.v ===== *)
(** * The resolver's list of moves

    The operations of [ParallelMoves] that read the list and emit nothing: what they return,
    when the assertions on the operands hold. *)
From S2P Require Import Prelude Utils Constants EncodingFacts Words CWords Memory Float SimState SimInteger.
From S2P Require Import SimFloat Simulator Exec SimFacts Effects AsmState MicroAssembler Emission Computes Macros.
From S2P Require Import ObjectHeader MacroFacts Arithmetic Accesses Offsets FloatAccesses Programs Stack Frames.
From S2P Require Import Locations ParallelMoves.

(** The assertions of [MoveOperands]. *)
Definition move_ok (m : MoveOperands) : Prop := src_ m = NoLocation -> dest_ m = NoLocation.
Abbreviation moves_ok := (Forall move_ok).

(** A register no remaining move reads and some remaining move writes. *)
Definition is_scratch (moves : list MoveOperands) (l : Location) : Prop :=
  IsMachineRegister l = true /\ Forall (fun m => src_ m <> l) moves /\ Exists (fun m => dest_ m = l) moves.

Definition is_none {A} (o : option A) : bool := match o with None => true | _ => false end.

Section Lists.
Context `{Target}.

(** A computation that succeeds with the value [a] and emits nothing. *)
Definition pure {A} (m : asm A) (a : A) : Prop := forall s, m s = Ok (a, s).

Lemma pure_ret {A} (a : A) : pure (mret a) a.
Proof. done. Qed.
Lemma pure_assert x : x = true -> pure (assert x) tt.
Proof. intros Hx s. unfold assert, lift. by rewrite ASSERT_true. Qed.
Lemma pure_bind {A B} (m1 : asm A) (m2 : A -> asm B) a b :
  pure m1 a -> pure (m2 a) b -> pure (m1 ≫= m2) b.
Proof. intros H1' H2' s. unfold mbind, M_bind. by rewrite H1', H2'. Qed.


Lemma pure_at moves i m : moves !! i = Some m -> pure (at_index moves i) m.
Proof. intros E s. unfold at_index. by rewrite E. Qed.

Lemma IsInvalid_true l : IsInvalid l = true <-> l = NoLocation.
Proof. by destruct l. Qed.
Lemma IsInvalid_false l : IsInvalid l = false <-> l <> NoLocation.
Proof. by destruct l. Qed.
Lemma Equals_true l l' : Equals l l' = true <-> l = l'.
Proof. unfold Equals. apply bool_decide_eq_true. Qed.

Lemma move_ok_assert m : move_ok m -> negb (IsInvalid (src_ m)) || IsInvalid (dest_ m) = true.
Proof. intros Hm. unfold move_ok in Hm. destruct m as [d s], s; cbn in *; try done. by rewrite (Hm eq_refl). Qed.

Lemma IsEliminated_pure m : move_ok m -> pure (IsEliminated m) (bool_decide (src_ m = NoLocation)).
Proof.
  intros Hm. eapply pure_bind; [by apply pure_assert, move_ok_assert|]. intros s.
  by destruct m as [d []].
Qed.

Lemma IsPending_pure m : move_ok m ->
  pure (IsPending m) (bool_decide (dest_ m = NoLocation /\ src_ m <> NoLocation)).
Proof.
  intros Hm. eapply pure_bind; [by apply pure_assert, move_ok_assert|]. intros s.
  unfold mret, M_ret. do 2 f_equal. apply eq_true_iff_eq.
  by rewrite andb_true_iff, negb_true_iff, IsInvalid_true, IsInvalid_false, bool_decide_eq_true.
Qed.

Lemma Blocks_pure m l : move_ok m -> l <> NoLocation -> pure (Blocks m l) (bool_decide (src_ m = l)).
Proof.
  intros Hm Hl. eapply pure_bind; [by apply IsEliminated_pure|]. intros s. unfold Equals.
  unfold mret, M_ret. do 2 f_equal. repeat case_bool_decide; cbn; congruence.
Qed.

Lemma IsRedundant_pure m : move_ok m ->
  pure (IsRedundant m) (bool_decide (src_ m = NoLocation \/ dest_ m = NoLocation \/ src_ m = dest_ m)).
Proof.
  intros Hm. eapply pure_bind; [by apply IsEliminated_pure|]. intros s. unfold mret, M_ret. do 2 f_equal.
  apply eq_true_iff_eq. rewrite !orb_true_iff, IsInvalid_true, Equals_true, !bool_decide_eq_true. tauto.
Qed.

Lemma find_move_pure moves test b : (forall m, m ∈ moves -> pure (test m) (b m)) ->
  pure (find_move moves test) (List.find b moves).
Proof.
  induction moves as [|m moves IH]; intros Ht; cbn; [done|].
  eapply pure_bind; [apply Ht; left|]. destruct (b m); [done|]. apply IH. intros m' Hm'. apply Ht. by right.
Qed.

Lemma find_none {A} (b : A -> bool) l : List.find b l = None <-> Forall (fun x => b x = false) l.
Proof.
  induction l as [|x l IH]; cbn; [by split|]. rewrite Forall_cons_iff. destruct (b x).
  - split; [done | by intros [? _]].
  - rewrite IH. tauto.
Qed.

Lemma find_some {A} (b : A -> bool) l x : List.find b l = Some x -> x ∈ l /\ b x = true.
Proof.
  induction l as [|y l IH]; cbn; [done|]. destruct (b y) eqn:E; [intros [= ->]; split; [left | done]|].
  intros [? ?]%IH. split; [by right | done].
Qed.

Lemma IsScratchLocation_pure moves l : moves_ok moves -> IsMachineRegister l = true ->
  exists b, pure (IsScratchLocation moves l) b /\ (b = true -> is_scratch moves l).
Proof.
  intros Hm Hr. assert (l <> NoLocation) as Hl by by intros ->.
  rewrite Forall_forall in Hm. unfold IsScratchLocation.
  assert (pure (find_move moves (fun m => Blocks m l)) (List.find (fun m => bool_decide (src_ m = l)) moves)) as P1.
  { apply find_move_pure. intros m Hin. apply Blocks_pure; [|done]. apply Hm. by apply list_elem_of_In. }
  assert (pure (find_move moves (fun m => mret (Equals (dest_ m) l))) (List.find (fun m => Equals (dest_ m) l) moves)) as P2.
  { apply find_move_pure. intros m _. apply pure_ret. }
  destruct (List.find (fun m => bool_decide (src_ m = l)) moves) eqn:E1.
  - exists false. split; [|done]. eapply pure_bind; [exact P1 | apply pure_ret].
  - eexists. split; [eapply pure_bind; [exact P1|]; eapply pure_bind; [exact P2 | apply pure_ret]|].
    destruct (List.find (fun m => Equals (dest_ m) l) moves) as [m|] eqn:E2; [intros _ | done]. split_and!; [done | |].
    + apply find_none in E1. eapply Forall_impl; [|exact E1]. cbn. intros m' Hm'. by apply bool_decide_eq_false in Hm'.
    + apply find_some in E2 as [Hin E]. apply Exists_exists. exists m. split; [by apply list_elem_of_In|]. by apply Equals_true.
Qed.

(** ** Scratch registers *)

Lemma land_bit r mask : 0 <= r -> ((1 << r) .& mask =? 0) = negb (Z.testbit mask r).
Proof.
  intros Hr. destruct (Z.testbit mask r) eqn:E; cbn.
  - apply Z.eqb_neq. intros E0. apply (f_equal (fun z => Z.testbit z r)) in E0.
    rewrite Z.land_spec, Z.shiftl_1_l, Z.pow2_bits_true, E, Z.bits_0 in E0 by done. done.
  - apply Z.eqb_eq, Z.bits_inj'. intros i Hi. rewrite Z.land_spec, Z.shiftl_1_l, Z.bits_0.
    destruct (decide (i = r)) as [->|]; [by rewrite E, andb_false_r|]. by rewrite Z.pow2_bits_false.
Qed.

Lemma find_scratch_pure moves fpu mask l : moves_ok moves -> Forall (fun r => 0 <= r) l ->
  exists r, pure (find_scratch moves fpu mask l) r /\
    (r = -1 \/ r ∈ l /\ Z.testbit mask r = false /\ is_scratch moves (MachineRegisterLocation fpu r)).
Proof.
  intros Hm. induction l as [|r l IH]; intros Hl; cbn [find_scratch]; [exists (-1); split; [apply pure_ret | by left]|].
  apply Forall_cons_iff in Hl as [Hr Hl]. destruct (IH Hl) as (r' & P & C). rewrite land_bit by done.
  assert (pure (find_scratch moves fpu mask l) r' -> exists r0, pure (find_scratch moves fpu mask l) r0 /\
    (r0 = -1 \/ r0 ∈ r :: l /\ Z.testbit mask r0 = false /\ is_scratch moves (MachineRegisterLocation fpu r0))) as Hrest.
  { intros _. exists r'. split; [done|]. destruct C as [?|(? & ? & ?)]; [by left | right]. split_and!; [by right | done | done]. }
  destruct (Z.testbit mask r) eqn:E; cbn [negb].
  - destruct (Hrest P) as (r0 & P0 & C0). exists r0. split; [|done]. eapply pure_bind; [apply pure_ret | exact P0].
  - destruct (IsScratchLocation_pure moves (MachineRegisterLocation fpu r) Hm) as ([] & Pb & Hb); [by destruct fpu | |].
    + exists r. split; [eapply pure_bind; [exact Pb | apply pure_ret]|]. right. split_and!; [left | done | auto].
    + destruct (Hrest P) as (r0 & P0 & C0). exists r0. split; [|done]. eapply pure_bind; [exact Pb | exact P0].
Qed.

Lemma find_unblocked_spec mask l r : r ∈ l -> Forall (fun r => 0 <= r) l -> Z.testbit mask r = false ->
  find_unblocked mask l ∈ l /\ Z.testbit mask (find_unblocked mask l) = false.
Proof.
  induction l as [|x l IH]; intros Hin Hl Hb; [by apply elem_of_nil in Hin|]. cbn [find_unblocked].
  apply Forall_cons_iff in Hl as [Hx Hl]. rewrite land_bit by done. destruct (Z.testbit mask x) eqn:E; cbn [negb].
  - apply elem_of_cons in Hin as [->|Hin]; [congruence|]. destruct (IH Hin Hl Hb). split; [by right | done].
  - split; [left | done].
Qed.

Lemma AllocateScratchRegister_pure moves fpu mask r : moves_ok moves -> 0 <= r < 32 -> Z.testbit mask r = false ->
  exists reg spilled, pure (AllocateScratchRegister moves fpu mask 0 31) (reg, spilled) /\
    0 <= reg < 32 /\ Z.testbit mask reg = false /\
    (spilled = false -> is_scratch moves (MachineRegisterLocation fpu reg)).
Proof.
  intros Hm Hr Hb. unfold AllocateScratchRegister. set (l := seqZ 0 (31 + 1 - 0)).
  assert (forall x, x ∈ l <-> 0 <= x < 32) as Hl by (intros x; unfold l; rewrite elem_of_seqZ; lia).
  assert (Forall (fun r => 0 <= r) l) as Hp.
  { apply Forall_forall. intros x Hx%list_elem_of_In. apply Hl in Hx. lia. }
  destruct (find_scratch_pure moves fpu mask l Hm Hp) as (reg & P & [->|(Hin & Hmask & Hs)]).
  - destruct (find_unblocked_spec mask l r) as [Hin Hmask]; [by apply Hl | done | done |].
    exists (find_unblocked mask l), true. split; [eapply pure_bind; [exact P | apply pure_ret]|].
    split_and!; [by apply Hl.. | done | done].
  - exists reg, false. apply Hl in Hin as Hin'. split; [eapply pure_bind; [exact P|]|split_and!; [lia | lia | done | done]].
    rewrite (proj2 (Z.eqb_neq _ _)) by lia. apply pure_ret.
Qed.
End Lists.

(** * The code of single moves

    The moves of [ParallelMoves] on a frame: [framed lo n k st] says that the stack and frame
    pointers of [st] have their values, [k] bytes of scratch space below the stack pointer are
    in use, the stack is mapped and apart from the code.  [acts k k' m a E]: the method [m]
    returns [a] and emits operations that succeed in every framed state and relate the states
    before and after by [E].  [only X F A] bounds what changes. *)

(** The states differ at most in the registers [X], the floating-point registers [F] and the
    memory areas [A], given by address and size. *)
Record only (X F : list Z) (A : list (Z * Z)) (st st' : Simulator) : Prop := {
  only_x : forall r, r ∉ X -> xregs_ st' r = xregs_ st r;
  only_f : forall r, r ∉ F -> fregs_ st' r = fregs_ st r;
  only_m : forall i, Forall (fun p => i < fst p \/ fst p + snd p <= i) A -> mem_ st' !! i = mem_ st !! i
}.

Lemma only_refl X F A st : only X F A st st.
Proof. done. Qed.

Lemma only_trans X F A X' F' A' st1 st2 st3 :
  only X F A st1 st2 -> only X' F' A' st2 st3 -> only (X ++ X') (F ++ F') (A ++ A') st1 st3.
Proof.
  intros [x1 f1 m1] [x2 f2 m2]. split.
  - intros r [H1 H2]%not_elem_of_app. by rewrite x2, x1.
  - intros r [H1 H2]%not_elem_of_app. by rewrite f2, f1.
  - intros i [H1 H2]%Forall_app. by rewrite m2, m1.
Qed.

Section Frame.
Context `{Target} `{HostFloat} `{Host} (sp fp sb null : Z).

(** The bounds exclude the addresses the simulator treats as bad accesses. *)
Definition stack_bounds : Prop := 2 ^ 14 + 16 <= sp /\ sp <= sb < 2 ^ XLEN - 2 ^ 15.
Context (Hbounds : stack_bounds).

Record framed (lo n k : Z) (st : Simulator) : Prop := {
  framed_wf : sim_wf st;
  framed_f : forall r, 0 <= fregs_ st r < 2 ^ 64;
  framed_sp : xregs_ st SP = sp - k;
  framed_k : 0 <= k <= 16;
  framed_fp : xregs_ st FP = fp;
  framed_sb : stack_base_ st = sb;
  framed_null : xregs_ st NULL_REG = null;
  framed_mapped : mapped (mem_ st) (sp - 16) (Z.to_nat (sb - (sp - 16)));
  framed_code : lo + n <= sp - 16 \/ sb <= lo
}.

Definition acts {A} (k k' : Z) (m : asm A) (a : A) (E : Simulator -> Simulator -> Prop) : Prop :=
  exists ops, implements m a ops /\ forall lo n st, framed lo n k st ->
  exists st', runs lo n ops st st' /\ framed lo n k' st' /\ E st st'.

Lemma acts_ret {A} k (a : A) (E : Simulator -> Simulator -> Prop) : (forall st, E st st) -> acts k k (mret a) a E.
Proof.
  intros HE. exists []. split; [apply implements_ret|]. intros lo n st Hst. exists st. done.
Qed.

Lemma acts_bind {A B} k1 k2 k3 (m1 : asm A) (m2 : A -> asm B) a b E1 E2 (E : Simulator -> Simulator -> Prop) :
  acts k1 k2 m1 a E1 -> acts k2 k3 (m2 a) b E2 ->
  (forall st1 st2 st3, E1 st1 st2 -> E2 st2 st3 -> E st1 st3) -> acts k1 k3 (m1 ≫= m2) b E.
Proof.
  intros (ops1 & I1 & R1) (ops2 & I2 & R2) HE. exists (ops1 ++ ops2).
  split; [by eapply implements_bind|]. intros lo n st Hst.
  destruct (R1 lo n st Hst) as (st1 & Hr1 & Hg1 & H1').
  destruct (R2 lo n st1 Hg1) as (st2 & Hr2 & Hg2 & H2'). exists st2.
  split_and!; [apply runs_app; eauto | done | eauto].
Qed.

(** One relation after the other. *)
Definition seq_rel (E1 E2 : Simulator -> Simulator -> Prop) (st st' : Simulator) : Prop :=
  exists st1, E1 st st1 /\ E2 st1 st'.

Lemma acts_seq {A B} k1 k2 k3 (m1 : asm A) (m2 : A -> asm B) a b E1 E2 :
  acts k1 k2 m1 a E1 -> acts k2 k3 (m2 a) b E2 -> acts k1 k3 (m1 ≫= m2) b (seq_rel E1 E2).
Proof. intros A1 A2. eapply acts_bind; [exact A1 | exact A2|]. intros st1 st2 st3. by exists st2. Qed.

Lemma acts_pure {A B} k k' (m1 : asm A) (m2 : A -> asm B) a b E :
  pure m1 a -> acts k k' (m2 a) b E -> acts k k' (m1 ≫= m2) b E.
Proof.
  intros Hp (ops & I & R). exists ops. split; [|done]. intros s Hs.
  destruct (I s Hs) as (c & Ec & Rc). exists c. split; [|done]. unfold mbind, M_bind. by rewrite Hp.
Qed.

Lemma acts_impl {A} k k' (m : asm A) a (E E' : Simulator -> Simulator -> Prop) :
  (forall st st', sim_wf st -> E st st' -> E' st st') -> acts k k' m a E -> acts k k' m a E'.
Proof.
  intros HE (ops & I & R). exists ops. split; [done|]. intros lo n st Hst.
  destruct (R lo n st Hst) as (st' & ? & ? & ?). exists st'. split_and!; [done | done |]. apply HE; [apply Hst | done].
Qed.

Lemma acts_impl_framed {A} k k' (m : asm A) a (E E' : Simulator -> Simulator -> Prop) :
  (forall lo n st st', framed lo n k st -> E st st' -> E' st st') -> acts k k' m a E -> acts k k' m a E'.
Proof.
  intros HE (ops & I & R). exists ops. split; [done|]. intros lo n st Hst.
  destruct (R lo n st Hst) as (st' & ? & ? & ?). eauto 6.
Qed.

Lemma acts_ext {A} k k' (m m' : asm A) a E : (forall s, m' s = m s) -> acts k k' m a E -> acts k k' m' a E.
Proof.
  intros Hm (ops & I & R). exists ops. split; [|done]. intros s Hs. rewrite Hm. by apply I.
Qed.

(** ** Registers *)

Definition changes_reg (rd : Z) (v : Simulator -> Z) (st st' : Simulator) : Prop :=
  only [rd] [] [] st st' /\ xregs_ st' rd = v st.

(** Registers moves may write: not those that describe the frame. *)
Definition plain (rd : Z) : Prop := 0 <= rd < 32 /\ rd <> ZR /\ rd <> SP /\ rd <> FP /\ rd <> NULL_REG.

Lemma framed_reg lo n k st rd v : plain rd ->
  framed lo n k st -> framed lo n k (with_xregs st (xset (xregs_ st) rd v)).
Proof.
  intros (_ & Hz & Hs & Hf & Hn) []. split; cbn [xregs_ with_xregs fregs_ stack_base_ mem_]; try done.
  - destruct framed_wf0. split; [by apply xset_wf | done..].
  - by rewrite xset_other.
  - by rewrite xset_other.
  - by rewrite xset_other.
Qed.

Lemma acts_computes k n m rd (f : regs -> Z) : plain rd ->
  computes n m (fun r => xset r rd (f r)) ->
  acts k k m tt (changes_reg rd (fun st => uintx (f (xregs_ st)))).
Proof.
  intros Hp C. exists [compute (fun r => xset r rd (f r))].
  split; [eapply implements_computes; [|exact C]; intros r Hr; by apply xset_wf|].
  intros lo n' st Hst. eexists. split; [exists (with_xregs st (xset (xregs_ st) rd (f (xregs_ st)))); done|].
  split; [by apply framed_reg|]. split; [|cbn; apply xset_same, Hp].
  split; cbn; [|done..]. intros r [Hr _]%not_elem_of_cons. by apply xset_other.
Qed.

Lemma mv_acts k rd rs : plain rd -> 0 <= rs < 32 ->
  acts k k (mv rd rs) tt (changes_reg rd (fun st => xregs_ st rs)).
Proof.
  intros Hp Hs. eapply acts_impl;
    [|apply (acts_computes k 1 _ rd (fun r => r rs + 0)); [done|];
      apply addi_computes; [apply Hp | done | by apply small_ITypeImm]].
  intros st st' Hwf [Ho Hv]. split; [done|]. cbn beta in Hv. rewrite Hv, Z.add_0_r. apply uintx_small, (wf_regs _ Hwf).
Qed.

(** ** Memory *)

(** The value a slot holds. *)
Definition value_at (T : ctype) (m : memory) (a : Z) : Z :=
  match load_as T m a with Ok v => v | Err _ => 0 end.

(** [size] bytes at [a] are in the live part of the stack. *)
Definition in_stack (k a size : Z) : Prop := sp - k <= a /\ a + size <= sb.

Lemma mem_load_ok m addr n : mapped m addr n -> exists v, mem_load m addr n = Ok v.
Proof.
  revert addr. induction n as [|n IH]; intros addr Hm; cbn [mem_load]; [eauto|].
  destruct (Hm addr) as [b ->]; [lia|]. destruct (IH (addr + 1)) as [v ->]; [intros i Hi; apply Hm; lia|].
  cbn. eauto.
Qed.

Lemma framed_check T lo n k st a b : framed lo n k st -> 0 < sizeof T -> in_stack k a (sizeof T) ->
  check_access T st a b = Ok tt.
Proof using Hbounds.
  intros [] HT [Ha Hb]. destruct Hbounds as [B1 [B2 B3]]. unfold check_access. destruct DEBUG; [|done].
  rewrite uintx_small by lia. unfold get_xreg. rewrite framed_sp0, framed_sb0.
  destruct (_ || _); [by rewrite (proj2 (Z.ltb_ge _ _)), (proj2 (Z.ltb_ge _ _)) by lia|].
  assert (uintx (Z.lnot (16 * KB)) = 2 ^ XLEN - 16385) as ->.
  { unfold uintx, uwrap, XLEN. by destruct TARGET_64. }
  unfold KB. by rewrite (proj2 (Z.ltb_ge _ _)), (proj2 (Z.leb_gt _ _)) by lia.
Qed.

Lemma framed_area lo n k st a size : framed lo n k st -> in_stack k a size -> mapped (mem_ st) a (Z.to_nat size).
Proof using Hbounds. intros [] [Ha Hb] i Hi. apply framed_mapped0. lia. Qed.

Lemma framed_read T lo n k st a b : framed lo n k st -> byte_type T -> in_stack k a (sizeof T) ->
  exists v, 0 <= v < 2 ^ bits_of T /\ mem_load (mem_ st) a (Z.to_nat (sizeof T)) = Ok v /\
    MemoryRead T st a b = Ok (cast T v).
Proof using Hbounds.
  intros Hst HT Ha. pose proof (sizeof_pos T HT) as [Hz Hb].
  destruct (mem_load_ok _ _ _ (framed_area _ _ _ _ _ _ Hst Ha)) as [v Hv]. exists v.
  pose proof (mem_load_bound _ _ _ _ (wf_mem _ (framed_wf _ _ _ _ Hst)) Hv) as Bv.
  rewrite Z2Nat.id in Bv by lia. split_and!; [lia | | done |].
  - replace (2 ^ bits_of T) with (256 ^ sizeof T); [lia|].
    change 256 with (2 ^ 8). rewrite <- Z.pow_mul_r by lia. f_equal. lia.
  - unfold MemoryRead, load_as. by rewrite (framed_check _ _ _ _ _ _ _ Hst Hz Ha), Hv.
Qed.

Lemma framed_mem lo n k st m : framed lo n k st -> mem_wf m ->
  (forall i, is_Some (mem_ st !! i) -> is_Some (m !! i)) -> framed lo n k (with_mem st m).
Proof.
  intros [] Hm Hd. split; cbn [xregs_ with_mem fregs_ stack_base_ mem_]; [by apply with_mem_wf | done.. | |done].
  intros i Hi. auto.
Qed.

Lemma framed_write T lo n k st a v b : framed lo n k st -> byte_type T -> in_stack k a (sizeof T) ->
  exists m, store_as T (mem_ st) a v = Ok m /\ MemoryWrite T st a v b = Ok (with_mem st m) /\
    framed lo n k (with_mem st m) /\ only [] [] [(a, sizeof T)] st (with_mem st m) /\
    same_bytes (mem_ st) m lo n.
Proof using Hbounds.
  intros Hst HT Ha. pose proof (sizeof_pos T HT) as [Hz Hb].
  destruct (mem_store_mapped _ _ _ (uwrap (bits_of T) v) (framed_area _ _ _ _ _ _ Hst Ha)) as [m Hm].
  exists m. split_and!; [done | | | |].
  - unfold MemoryWrite, store_as. by rewrite (framed_check _ _ _ _ _ _ _ Hst Hz Ha), Hm.
  - apply framed_mem; [done | eapply mem_store_wf; [apply Hst | exact Hm] |].
    intros i. by rewrite (mem_store_dom _ _ _ _ _ _ Hm).
  - split; [done.. |]. intros i [Hi _]%Forall_cons_iff. cbn. eapply mem_store_other; [exact Hm|]. cbn in Hi. lia.
  - intros i Hi. eapply mem_store_other; [exact Hm|]. destruct Hst, Ha. lia.
Qed.

(** ** Accesses relative to the frame pointer *)

Definition addr_of (base offset : Z) : Address :=
  if IsITypeImm offset then {| base := base; offset := offset |}
  else {| base := TMP2; offset := split_lo offset |}.

Lemma implements_materialized b offset (m : Address -> asm unit) (F : Address -> op) :
  reaches offset -> 0 <= b < 32 -> b <> ZR -> b <> TMP2 ->
  (forall addr, 0 <= base addr < 32 -> IsITypeImm (AsmState.offset addr) = true ->
     accesses_with (m addr) (F addr) /\ op_ok (F addr)) ->
  implements (addr ← materialize_address b offset; m addr) tt
    [compute (fun r => address_regs r b offset); F (addr_of b offset)].
Proof.
  intros Ho Hb Hz Ht HF. unfold materialize_address, address_regs, addr_of.
  apply (implements_bind _ _ (addr_of b offset) _ [_]); unfold addr_of.
  - apply implements_assert; [by apply negb_true_iff, Z.eqb_neq|].
    destruct (IsITypeImm offset) eqn:Hi; cbn [negb]; cbv iota.
    + intros s _. exists []. rewrite append_nil. split; [done|].
      apply realizes_executes; [done | apply executes_nil].
    + assert (split_hi offset <> 0) as Hn
        by (intros E; apply split_hi_zero in E; [congruence | done]).
      rewrite reaches_intx, (proj2 (Z.eqb_neq _ _) Hn) by done.
      assert (computes 2 (_ ← lui TMP2 (split_hi offset); add TMP2 TMP2 b)
                (fun r => xset r TMP2 (split_hi offset + r b))) as C.
      { eapply computes_ext; [|apply (computes_bind 1 1);
          [apply lui_computes; [wside | apply split_hi_range | apply split_hi_aligned | done]
          | apply add_computes; wside]].
        intros r _. cbn beta. rewrite xset_xset, xset_same, xset_other by done.
        apply xset_eq, uintx_add_l. }
      intros s Hs. destruct (C s Hs) as (c & E & X & _). exists c. split.
      * unfold emits in E. unfold mbind, M_bind in *.
        destruct (lui TMP2 (split_hi offset) s) as [[[] s1]|]; [|discriminate]. by rewrite E.
      * apply realizes_executes; [|done]. intros r Hr. by apply xset_wf.
  - fold (addr_of b offset). destruct (HF (addr_of b offset)) as [A K].
    + unfold addr_of. destruct (IsITypeImm offset); [done | wside].
    + unfold addr_of. destruct (IsITypeImm offset) eqn:E; [done | apply IsITypeImm_lo].
    + by apply implements_accesses.
Qed.

(** A slot of the frame. *)
Definition in_frame (offset size : Z) : Prop := reaches offset /\ in_stack 0 (fp + offset) size.

Lemma in_frame_stack k offset size : 0 <= k -> in_frame offset size -> in_stack k (fp + offset) size.
Proof. intros Hk [_ [? ?]]. unfold in_stack. lia. Qed.

Lemma framed_address lo n k st offset size : framed lo n k st -> in_frame offset size -> 0 <= size ->
  let st1 := with_xregs st (address_regs (xregs_ st) FP offset) in
  framed lo n k st1 /\ address st1 (addr_of FP offset) = fp + offset /\ only [TMP2] [] [] st st1.
Proof using Hbounds.
  intros Hst [Ho [H1' H2']] Hsz st1. destruct Hbounds as [B1 [B2 B3]].
  assert (uintx (fp + offset) = fp + offset) as Eu by (apply uintx_small; lia).
  unfold st1, address_regs, addr_of, address. destruct (IsITypeImm offset); cbn [base AsmState.offset xregs_ with_xregs].
  - replace (with_xregs st (xregs_ st)) with st by by destruct st. rewrite (framed_fp _ _ _ _ Hst), Eu.
    done.
  - split_and!; [by apply framed_reg | |].
    + rewrite xset_same, split_word, (framed_fp _ _ _ _ Hst) by done. done.
    + split; [|done..]. intros r [Hr _]%not_elem_of_cons. by apply xset_other.
Qed.

Lemma byte_word : byte_type uintx_t /\ byte_type intx_t /\ sizeof uintx_t = kWordSize /\ sizeof intx_t = kWordSize.
Proof. unfold byte_type, uintx_t, intx_t, sizeof, kWordSize, XLEN. by destruct TARGET_64. Qed.

Lemma byte_double : byte_type uint64_t.
Proof. done. Qed.

(** A word and a double at an address of the stack. *)
Lemma loads_word lo n k st rd addr : framed lo n k st -> in_stack k (address st addr) kWordSize ->
  plain rd ->
  exists st', loads intx_t rd addr st = Ok st' /\ framed lo n k st' /\ mem_ st' = mem_ st /\
    changes_reg rd (fun st => value_at uintx_t (mem_ st) (address st addr)) st st'.
Proof using Hbounds.
  intros Hst Ha Hp. destruct byte_word as (_ & HB & _ & ES).
  destruct (framed_read intx_t lo n k st (address st addr) (base addr)) as (v & Bv & Hv & HR);
    [done | done | by rewrite ES |].
  exists (with_xregs st (xset (xregs_ st) rd (cast intx_t v))). unfold loads, load_xreg. rewrite HR. cbn [mbind result_bind].
  rewrite set_xreg_xset. split_and!; [done | by apply framed_reg | done |]. split.
  - split; [|done..]. intros r [Hr _]%not_elem_of_cons. by apply xset_other.
  - cbn. rewrite xset_same by apply Hp. unfold value_at, load_as. cbn [bits_of uintx_t intx_t] in *.
    change (sizeof uintx_t) with (sizeof intx_t). rewrite Hv. cbn. apply (uwrap_swrap _ XLEN_pos).
Qed.

Lemma stores_word lo n k st rs addr : framed lo n k st -> in_stack k (address st addr) kWordSize ->
  exists st', stores uintx_t rs addr st = Ok st' /\ framed lo n k st' /\
    only [] [] [(address st addr, kWordSize)] st st' /\ same_bytes (mem_ st) (mem_ st') lo n /\
    value_at uintx_t (mem_ st') (address st addr) = xregs_ st rs.
Proof using Hbounds.
  intros Hst Ha. destruct byte_word as (HB & _ & ES & _).
  destruct (framed_write uintx_t lo n k st (address st addr) (get_xreg st rs) (base addr))
    as (m & Hm & HW & Hf & Ho & Hs); [done | done | by rewrite ES |].
  exists (with_mem st m). rewrite ES in Ho. split_and!; [exact HW | done | done | done |]. cbn.
  unfold value_at. change uintx_t with (CType (bits_of uintx_t) false) at 1.
  rewrite (store_load_as uintx_t _ _ _ _ false HB Hm).
  apply (uwrap_small XLEN XLEN_pos). apply (wf_regs _ (framed_wf _ _ _ _ Hst)).
Qed.

Definition changes_freg (rd : Z) (v : Simulator -> Z) (st st' : Simulator) : Prop :=
  only [] [rd] [] st st' /\ fregs_ st' rd = v st.

Lemma framed_freg lo n k st rd v : 0 <= v < 2 ^ 64 -> framed lo n k st -> framed lo n k (set_fregd st rd v).
Proof.
  intros Hv []. split; cbn [xregs_ set_fregd with_fregs fregs_ stack_base_ mem_]; try done.
  - by apply set_fregd_wf.
  - intros r. unfold array_set. destruct (r =? rd); [done | apply framed_f0].
Qed.

Lemma loads_double lo n k st rd addr : framed lo n k st -> in_stack k (address st addr) 8 ->
  exists st', loads_d rd addr st = Ok st' /\ framed lo n k st' /\ mem_ st' = mem_ st /\
    changes_freg rd (fun st => value_at uint64_t (mem_ st) (address st addr)) st st'.
Proof using Hbounds.
  intros Hst Ha.
  destruct (framed_read uint64_t lo n k st (address st addr) (base addr)) as (v & Bv & Hv & HR);
    [done | done | done |].
  assert (cast uint64_t v = v) as Ev by by apply (uwrap_small 64 eq_refl).
  exists (set_fregd st rd v). unfold loads_d, load_freg. rewrite HR, Ev.
  split_and!; [done | by apply framed_freg | done |]. split.
  - split; [done | | done]. intros r [Hr _]%not_elem_of_cons. cbn. unfold array_set.
    by rewrite (proj2 (Z.eqb_neq _ _)).
  - cbn. unfold array_set. rewrite Z.eqb_refl. unfold value_at, load_as. rewrite Hv. cbn [mbind result_bind]. by rewrite Ev.
Qed.

Lemma stores_double lo n k st rs addr : framed lo n k st -> in_stack k (address st addr) 8 ->
  exists st', stores_d rs addr st = Ok st' /\ framed lo n k st' /\
    only [] [] [(address st addr, 8)] st st' /\ same_bytes (mem_ st) (mem_ st') lo n /\
    value_at uint64_t (mem_ st') (address st addr) = fregs_ st rs.
Proof using Hbounds.
  intros Hst Ha.
  destruct (framed_write uint64_t lo n k st (address st addr) (get_fregd st rs) (base addr))
    as (m & Hm & HW & Hf & Ho & Hs); [done | done | done |].
  exists (with_mem st m). split_and!; [exact HW | done | done | done |]. cbn.
  unfold value_at. change uint64_t with (CType (bits_of uint64_t) false) at 1.
  rewrite (store_load_as uint64_t _ _ _ _ false byte_double Hm).
  apply (uwrap_small 64 eq_refl). apply Hst.
Qed.

(** ** The emitters *)

(** The effects of a load and a store of a slot; [TMP2] may hold the address. *)
Definition slot_to_reg (rd a : Z) (st st' : Simulator) : Prop :=
  only [rd; TMP2] [] [] st st' /\ xregs_ st' rd = value_at uintx_t (mem_ st) a.
Definition reg_to_slot (rs a : Z) (st st' : Simulator) : Prop :=
  only [TMP2] [] [(a, kWordSize)] st st' /\ value_at uintx_t (mem_ st') a = xregs_ st rs.
Definition slot_to_freg (rd a : Z) (st st' : Simulator) : Prop :=
  only [TMP2] [rd] [] st st' /\ fregs_ st' rd = value_at uint64_t (mem_ st) a.
Definition freg_to_slot (rs a : Z) (st st' : Simulator) : Prop :=
  only [TMP2] [] [(a, 8)] st st' /\ value_at uint64_t (mem_ st') a = fregs_ st rs.

Lemma acts_frame k m (F : Address -> op) offset size (E' E : Simulator -> Simulator -> Prop) :
  implements m tt [compute (fun r => address_regs r FP offset); F (addr_of FP offset)] ->
  in_frame offset size -> 0 <= size ->
  (forall lo n st, framed lo n k st -> in_stack k (address st (addr_of FP offset)) size ->
     address st (addr_of FP offset) = fp + offset ->
     exists st', F (addr_of FP offset) st = Ok st' /\ framed lo n k st' /\
       same_bytes (mem_ st) (mem_ st') lo n /\ E' st st') ->
  (forall st st1 st', only [TMP2] [] [] st st1 -> E' st1 st' -> E st st') -> acts k k m tt E.
Proof using Hbounds.
  intros I Hf Hs HF HE. eexists. split; [exact I|]. intros lo n st Hst.
  destruct (framed_address lo n k st offset size Hst Hf Hs) as (Hst1 & Ha & Ho).
  destruct (HF lo n _ Hst1) as (st' & EF & Hst' & Hb & He); [|done|].
  - rewrite Ha. apply in_frame_stack; [apply Hst | done].
  - exists st'. split_and!; [|done | by eapply HE]. cbn [runs]. eexists. split_and!; [reflexivity | done |].
    exists st'. done.
Qed.

Lemma word_size : load_size kWordOperand = Some intx_t /\ store_size kWordOperand = Some uintx_t.
Proof. unfold kWordOperand, intx_t, uintx_t, load_size, store_size, XLEN. by destruct TARGET_64. Qed.

Lemma same_bytes_eq (m m' : memory) lo n : m' = m -> same_bytes m m' lo n.
Proof. by intros ->. Qed.

Lemma LoadFromOffset_acts k rd offset : plain rd ->
  in_frame offset kWordSize ->
  acts k k (LoadFromOffset rd FP offset kWordOperand) tt (slot_to_reg rd (fp + offset)).
Proof using Hbounds.
  intros [Hd Hp] Ho. pose proof kWordSize_pos. eapply (acts_frame k _ (loads intx_t rd) offset kWordSize
    (changes_reg rd (fun st => value_at uintx_t (mem_ st) (fp + offset)))); [|done|lia| |].
  - apply implements_materialized; [apply Ho | wside | done | done |]. intros addr Hb Hi.
    split; [|apply loads_ok]. unfold kWordOperand, intx_t, XLEN, load_sized.
    destruct TARGET_64 eqn:E; [by apply ld_accesses | by apply lw_accesses].
  - intros lo n st Hst Ha Ea. destruct (loads_word lo n k st rd (addr_of FP offset)) as (st' & EF & Hst' & Em & He); [done..|].
    exists st'. destruct He as [He1 He2]. cbn beta in He2. rewrite Ea in He2.
    split_and!; [done | done | by apply same_bytes_eq | done].
  - intros st st1 st' Ho1 [Ho2 Hv]. split; [|rewrite Hv; f_equal].
    + destruct (only_trans _ _ _ _ _ _ _ _ _ Ho1 Ho2) as [X F M]. split; [|done..].
      intros r Hr. apply X. set_solver.
    + apply map_eq. intros i. by apply (only_m _ _ _ _ _ Ho1).
Qed.

Lemma StoreToOffset_acts k rs offset : 0 <= rs < 32 -> rs <> TMP2 -> in_frame offset kWordSize ->
  acts k k (StoreToOffset rs FP offset kWordOperand) tt (reg_to_slot rs (fp + offset)).
Proof using Hbounds.
  intros Hd Ht Ho. pose proof kWordSize_pos. eapply (acts_frame k _ (stores uintx_t rs) offset kWordSize
    (fun st st' => only [] [] [(fp + offset, kWordSize)] st st' /\ value_at uintx_t (mem_ st') (fp + offset) = xregs_ st rs));
    [|done|lia| |].
  - apply implements_materialized; [apply Ho | wside | done | done |]. intros addr Hb Hi.
    split; [|apply stores_ok]. unfold kWordOperand, uintx_t, XLEN, store_sized.
    destruct TARGET_64 eqn:E; [by apply sd_accesses | by apply sw_accesses].
  - intros lo n st Hst Ha Ea. destruct (stores_word lo n k st rs (addr_of FP offset)) as (st' & EF & Hst' & Ho' & Hb & Hv); [done..|].
    exists st'. rewrite Ea in *. done.
  - intros st st1 st' Ho1 [Ho2 Hv]. split.
    + destruct (only_trans _ _ _ _ _ _ _ _ _ Ho1 Ho2) as [X F M]. done.
    + rewrite Hv. apply (only_x _ _ _ _ _ Ho1). set_solver.
Qed.

Lemma LoadDFromOffset_acts k rd offset : 0 <= rd < 32 -> in_frame offset 8 ->
  acts k k (LoadDFromOffset rd FP offset) tt (slot_to_freg rd (fp + offset)).
Proof using Hbounds.
  intros Hd Ho. eapply (acts_frame k _ (loads_d rd) offset 8
    (changes_freg rd (fun st => value_at uint64_t (mem_ st) (fp + offset)))); [|done|lia| |].
  - apply implements_materialized; [apply Ho | wside | done | done |]. intros addr Hb Hi.
    split; [by apply fld_accesses | apply loads_d_ok].
  - intros lo n st Hst Ha Ea. destruct (loads_double lo n k st rd (addr_of FP offset)) as (st' & EF & Hst' & Em & He); [done..|].
    exists st'. destruct He as [He1 He2]. cbn beta in He2. rewrite Ea in He2.
    split_and!; [done | done | by apply same_bytes_eq | done].
  - intros st st1 st' Ho1 [Ho2 Hv]. split; [|rewrite Hv; f_equal].
    + destruct (only_trans _ _ _ _ _ _ _ _ _ Ho1 Ho2) as [X F M]. done.
    + apply map_eq. intros i. by apply (only_m _ _ _ _ _ Ho1).
Qed.

Lemma StoreDToOffset_acts k rs offset : 0 <= rs < 32 -> in_frame offset 8 ->
  acts k k (StoreDToOffset rs FP offset) tt (freg_to_slot rs (fp + offset)).
Proof using Hbounds.
  intros Hd Ho. eapply (acts_frame k _ (stores_d rs) offset 8
    (fun st st' => only [] [] [(fp + offset, 8)] st st' /\ value_at uint64_t (mem_ st') (fp + offset) = fregs_ st rs));
    [|done|lia| |].
  - apply implements_materialized; [apply Ho | wside | done | done |]. intros addr Hb Hi.
    split; [by apply fsd_accesses | apply stores_d_ok].
  - intros lo n st Hst Ha Ea. destruct (stores_double lo n k st rs (addr_of FP offset)) as (st' & EF & Hst' & Ho' & Hb & Hv); [done..|].
    exists st'. rewrite Ea in *. done.
  - intros st st1 st' Ho1 [Ho2 Hv]. split.
    + destruct (only_trans _ _ _ _ _ _ _ _ _ Ho1 Ho2) as [X F M]. done.
    + rewrite Hv. by apply (only_f _ _ _ _ _ Ho1), not_elem_of_nil.
Qed.

(** [fld] and [fsd] at an offset that fits the instruction. *)
Definition near_frame (offset : Z) : Prop := -2048 <= offset < 2048 /\ in_stack 0 (fp + offset) 8.

Lemma near_address lo n k st offset : framed lo n k st -> near_frame offset ->
  address st {| base := FP; offset := offset |} = fp + offset /\ in_stack k (fp + offset) 8.
Proof using Hbounds.
  intros [] [_ [H1' H2']]. destruct Hbounds as [B1 [B2 B3]]. unfold address, in_stack. cbn. rewrite framed_fp0.
  split; [apply uintx_small|]; lia.
Qed.

Lemma fld_acts k rd offset : 0 <= rd < 32 -> near_frame offset ->
  acts k k (fld rd {| base := FP; offset := offset |}) tt (slot_to_freg rd (fp + offset)).
Proof using Hbounds.
  intros Hd Ho. eexists. split.
  { apply implements_accesses; [apply loads_d_ok|]. apply fld_accesses; [done | wside | apply small_ITypeImm, Ho]. }
  intros lo n st Hst. destruct (near_address lo n k st offset Hst Ho) as [Ea Ha].
  destruct (loads_double lo n k st rd {| base := FP; offset := offset |}) as (st' & EF & Hst' & Em & [[X F M] He]);
    [done | by rewrite Ea |].
  exists st'. split_and!; [|done | split; [|by rewrite He, Ea]; split; [|done..]; intros r _; apply X; set_solver].
  cbn [runs]. exists st'. split_and!; [done | by apply same_bytes_eq | done].
Qed.

Lemma fsd_acts k rs offset : 0 <= rs < 32 -> near_frame offset ->
  acts k k (fsd rs {| base := FP; offset := offset |}) tt (freg_to_slot rs (fp + offset)).
Proof using Hbounds.
  intros Hd Ho. eexists. split.
  { apply implements_accesses; [apply stores_d_ok|]. apply fsd_accesses; [done | wside | apply small_ITypeImm, Ho]. }
  intros lo n st Hst. destruct (near_address lo n k st offset Hst Ho) as [Ea Ha].
  destruct (stores_double lo n k st rs {| base := FP; offset := offset |}) as (st' & EF & Hst' & [X F M] & Hb & Hv);
    [done | by rewrite Ea |]. rewrite Ea in *.
  exists st'. split_and!; [|done | split; [|done]; split; [|done..]; intros r _; apply X; set_solver].
  cbn [runs]. exists st'. done.
Qed.

(** ** Scratch space below the stack pointer *)

Lemma framed_move_sp lo n k d st : framed lo n k st -> 0 <= k - d <= 16 ->
  framed lo n (k - d) (with_xregs st (xset (xregs_ st) SP (xregs_ st SP + d))).
Proof using Hbounds.
  intros [] Hk. destruct Hbounds as [B1 [B2 B3]]. split; cbn [xregs_ with_xregs fregs_ stack_base_ mem_]; try done.
  - destruct framed_wf0. split; [by apply xset_wf | done..].
  - rewrite xset_same, framed_sp0, uintx_small by (done || lia). lia.
Qed.

Definition reg_to_stack (rs a : Z) (st st' : Simulator) : Prop :=
  only [SP] [] [(a, kWordSize)] st st' /\ value_at uintx_t (mem_ st') a = xregs_ st rs.
Definition stack_to_reg (rd a : Z) (st st' : Simulator) : Prop :=
  only [rd; SP] [] [] st st' /\ xregs_ st' rd = value_at uintx_t (mem_ st) a.
Definition freg_to_stack (rs a : Z) (st st' : Simulator) : Prop :=
  only [SP] [] [(a, 8)] st st' /\ value_at uint64_t (mem_ st') a = fregs_ st rs.
Definition stack_to_freg (rd a : Z) (st st' : Simulator) : Prop :=
  only [SP] [rd] [] st st' /\ fregs_ st' rd = value_at uint64_t (mem_ st) a.

Lemma move_sp_only d st : only [SP] [] [] st (with_xregs st (xset (xregs_ st) SP (xregs_ st SP + d))).
Proof. split; [|done..]. intros r [Hr _]%not_elem_of_cons. by apply xset_other. Qed.

(** Lower the stack pointer and store; load and raise it again. *)
Lemma acts_push k d m (F : op) (E' E : Simulator -> Simulator -> Prop) : 0 <= d -> 0 <= k -> k + d <= 16 ->
  implements m tt [F] ->
  (forall lo n st, framed lo n (k + d) st -> in_stack (k + d) (address st (at_sp 0)) d ->
     address st (at_sp 0) = sp - (k + d) ->
     exists st', F st = Ok st' /\ framed lo n (k + d) st' /\ same_bytes (mem_ st) (mem_ st') lo n /\ E' st st') ->
  (forall st st1 st', only [SP] [] [] st st1 -> E' st1 st' -> E st st') ->
  acts k (k + d) (_ ← subi SP SP d; m) tt E.
Proof using Hbounds.
  intros Hd Hk Hk' I HF HE. exists ([move_sp (- d)] ++ [F]). split.
  { eapply implements_bind; [apply implements_subi; lia | exact I]. }
  intros lo n st Hst. destruct Hbounds as [B1 [B2 B3]].
  pose proof (framed_move_sp lo n k (- d) st Hst ltac:(lia)) as Hst1. replace (k - - d) with (k + d) in Hst1 by lia.
  assert (address (with_xregs st (xset (xregs_ st) SP (xregs_ st SP + - d))) (at_sp 0) = sp - (k + d)) as Ea.
  { rewrite address_sp, (framed_sp _ _ _ _ Hst1); [lia|]. rewrite (framed_sp _ _ _ _ Hst1). lia. }
  destruct (HF lo n _ Hst1) as (st' & EF & Hst' & Hb & He); [unfold in_stack; rewrite Ea; lia | done |].
  exists st'. split_and!; [|done | eapply HE; [apply move_sp_only | exact He]].
  cbn [app runs]. eexists. split_and!; [reflexivity | done |]. exists st'. done.
Qed.

Lemma acts_pop k d m (F : op) (E' E : Simulator -> Simulator -> Prop) : 0 <= d -> d <= k <= 16 ->
  implements m tt [F] ->
  (forall lo n st, framed lo n k st -> in_stack k (address st (at_sp 0)) d -> address st (at_sp 0) = sp - k ->
     exists st', F st = Ok st' /\ framed lo n k st' /\ same_bytes (mem_ st) (mem_ st') lo n /\ E' st st') ->
  (forall st st1 st', E' st st1 -> only [SP] [] [] st1 st' -> E st st') ->
  acts k (k - d) (_ ← m; addi SP SP d) tt E.
Proof using Hbounds.
  intros Hd Hk I HF HE. exists ([F] ++ [move_sp d]). split.
  { eapply implements_bind; [exact I | apply implements_addi; [wside | wside | lia]]. }
  intros lo n st Hst. destruct Hbounds as [B1 [B2 B3]].
  assert (address st (at_sp 0) = sp - k) as Ea.
  { rewrite address_sp, (framed_sp _ _ _ _ Hst); [lia|]. rewrite (framed_sp _ _ _ _ Hst). lia. }
  destruct (HF lo n _ Hst) as (st' & EF & Hst' & Hb & He); [unfold in_stack; rewrite Ea; lia | done |].
  eexists. split_and!; [|apply (framed_move_sp lo n k d st'); [done | lia] | eapply HE; [exact He | apply move_sp_only]].
  cbn [app runs]. exists st'. split_and!; [done | done |]. eexists. split_and!; [reflexivity | done | done].
Qed.

Lemma PushRegister_acts k r : 0 <= r < 32 -> r <> SP -> 0 <= k -> k + kWordSize <= 16 ->
  acts k (k + kWordSize) (PushRegister r) tt (reg_to_stack r (sp - (k + kWordSize))).
Proof using Hbounds.
  intros Hr Hs Hk Hk'. pose proof kWordSize_pos. unfold PushRegister.
  apply (acts_pure _ _ _ _ tt); [apply pure_assert; by apply negb_true_iff, Z.eqb_neq|].
  eapply (acts_push k kWordSize _ _ (fun st st' => only [] [] [(sp - (k + kWordSize), kWordSize)] st st' /\
    value_at uintx_t (mem_ st') (sp - (k + kWordSize)) = xregs_ st r)); [lia | lia | lia | by apply sx_implements | |].
  - intros lo n st Hst Ha Ea. destruct (stores_word lo n _ st r (at_sp 0) Hst Ha) as (st' & EF & Hst' & Ho & Hb & Hv).
    rewrite Ea in *. exists st'. done.
  - intros st st1 st' Ho1 [Ho2 Hv]. split; [apply (only_trans _ _ _ _ _ _ _ _ _ Ho1 Ho2)|].
    rewrite Hv. apply (only_x _ _ _ _ _ Ho1). set_solver.
Qed.

Lemma PopRegister_acts k r : plain r -> kWordSize <= k <= 16 ->
  acts k (k - kWordSize) (PopRegister r) tt (stack_to_reg r (sp - k)).
Proof using Hbounds.
  intros Hp Hk. pose proof kWordSize_pos. pose proof Hp as (Hr & _ & Hs & _). unfold PopRegister.
  apply (acts_pure _ _ _ _ tt); [apply pure_assert; by apply negb_true_iff, Z.eqb_neq|].
  eapply (acts_pop k kWordSize _ _ (changes_reg r (fun st => value_at uintx_t (mem_ st) (sp - k))));
    [lia | lia | by apply lx_implements | |].
  - intros lo n st Hst Ha Ea. destruct (loads_word lo n _ st r (at_sp 0) Hst Ha) as (st' & EF & Hst' & Em & [He1 He2]); [done..|].
    cbn beta in He2. rewrite Ea in He2. exists st'. split_and!; [done | done | by apply same_bytes_eq | done].
  - intros st st1 st' [Ho1 Hv] Ho2. split; [apply (only_trans _ _ _ _ _ _ _ _ _ Ho1 Ho2)|].
    rewrite <- Hv. apply (only_x _ _ _ _ _ Ho2). set_solver.
Qed.

Lemma SpillFpuScratch_acts r : 0 <= r < 32 -> acts 0 8 (SpillFpuScratch r) tt (freg_to_stack r (sp - 8)).
Proof using Hbounds.
  intros Hr. unfold SpillFpuScratch.
  eapply (acts_push 0 8 _ _ (fun st st' => only [] [] [(sp - 8, 8)] st st' /\
    value_at uint64_t (mem_ st') (sp - 8) = fregs_ st r)); [lia | lia | lia | by apply fsd_implements | |].
  - intros lo n st Hst Ha Ea. destruct (stores_double lo n _ st r (at_sp 0) Hst Ha) as (st' & EF & Hst' & Ho & Hb & Hv).
    rewrite Ea in *. exists st'. done.
  - intros st st1 st' Ho1 [Ho2 Hv]. split; [apply (only_trans _ _ _ _ _ _ _ _ _ Ho1 Ho2)|].
    rewrite Hv. by apply (only_f _ _ _ _ _ Ho1), not_elem_of_nil.
Qed.

Lemma RestoreFpuScratch_acts r : 0 <= r < 32 -> acts 8 0 (RestoreFpuScratch r) tt (stack_to_freg r (sp - 8)).
Proof using Hbounds.
  intros Hr. unfold RestoreFpuScratch.
  eapply (acts_pop 8 8 _ _ (changes_freg r (fun st => value_at uint64_t (mem_ st) (sp - 8))));
    [lia | lia | by apply fld_implements | |].
  - intros lo n st Hst Ha Ea. destruct (loads_double lo n _ st r (at_sp 0) Hst Ha) as (st' & EF & Hst' & Em & [He1 He2]).
    cbn beta in He2. rewrite Ea in He2. exists st'. split_and!; [done | done | by apply same_bytes_eq | done].
  - intros st st1 st' [Ho1 Hv] Ho2. split; [apply (only_trans _ _ _ _ _ _ _ _ _ Ho1 Ho2)|].
    rewrite <- Hv. by apply (only_f _ _ _ _ _ Ho2), not_elem_of_nil.
Qed.

(** ** Floating-point registers *)

Definition fmove (rd rs : Z) : op := fun st => Ok (set_fregd st rd (get_fregd st rs)).

Lemma fmove_ok rd rs : op_ok (fmove rd rs).
Proof.
  split; [by intros st n len r | by intros st st' [= <-] |].
  intros st Hwf st' [= <-]. by apply set_fregd_wf.
Qed.

Lemma sign_inject_same v : sign_inject 64 Funct3.J v v = Some v.
Proof.
  unfold sign_inject. cbn [Z.eqb]. f_equal. apply Z.bits_inj'. intros i Hi.
  rewrite Z.lor_spec, Z.ldiff_spec, Z.land_spec. by destruct (Z.testbit v i), (Z.testbit _ i).
Qed.

Lemma interpret_fmvd st rd rs : 0 <= rd < 32 -> 0 <= rs < 32 ->
  Interpret st (Rword Funct7.FSGNJD rs rs Funct3.J rd Opcode.OPFP) =
  (st' ← fmove rd rs st; Ok (pc_add st' 4)).
Proof.
  intros Hd Hs. set (w := Rword Funct7.FSGNJD rs rs Funct3.J rd Opcode.OPFP).
  assert (frd w = rd) as E1 by (change (Constants.rd w = rd); unfold w; by read_R).
  assert (frs1 w = rs) as E2 by (change (Constants.rs1 w = rs); unfold w; by read_R).
  assert (frs2 w = rs) as E3 by (change (Constants.rs2 w = rs); unfold w; by read_R).
  unfold Interpret. cbv zeta. unfold w at 1 2 3 4 5 6 7 8 9 10 11 12 13 14 15 16. read_R. closed_tests. fold w.
  unfold InterpretOPFP, opfp_single, opfp_double. cbv zeta. rewrite E1, E2, E3. unfold w.
  read_R. closed_tests. rewrite sign_inject_same. cbn [set_fregd_or_illegal].
  unfold set_fregd_or_illegal. fold w. by rewrite E1.
Qed.

Lemma fmvd_acts k rd rs : 0 <= rd < 32 -> 0 <= rs < 32 ->
  acts k k (fmvd rd rs) tt (changes_freg rd (fun st => fregs_ st rs)).
Proof.
  intros Hd Hs. exists [fmove rd rs]. split.
  - apply implements_accesses; [apply fmove_ok|]. intros s Hf. unfold fmvd, fsgnjd.
    exists (le_bytes 4 (Rword Funct7.FSGNJD rs rs Funct3.J rd Opcode.OPFP)). split; [|split].
    + unfold emits. rewrite assert_supports_bind by by apply full_supports.
      apply (EmitRType_emits Funct7.FSGNJD rs rs Funct3.J rd Opcode.OPFP); wside.
    + apply accesses_word; [apply Rword_bound; wside | by rewrite Rword_opcode by wside |].
      intros st. by apply interpret_fmvd.
    + by rewrite length_le_bytes.
  - intros lo n st Hst. exists (set_fregd st rd (fregs_ st rs)). split_and!.
    + exists (set_fregd st rd (fregs_ st rs)). done.
    + apply framed_freg; [apply Hst | done].
    + split; [split; [done | | done]|].
      * intros r [Hr _]%not_elem_of_cons. cbn. unfold array_set. by rewrite (proj2 (Z.eqb_neq _ _)).
      * cbn. unfold array_set. by rewrite Z.eqb_refl.
Qed.
End Frame.
