(* ===== verification/MoveEffects.v ===== *)
(** * The effect of single moves and swaps on the values of locations

    [view] reads the value of a location in a state of the simulator.  [effect k W f]: the
    locations of interest, except those in [W], have after the code the values [f] computes
    from those before, and the [k] bytes of scratch space in use are untouched.  A move is
    [assign], a swap is [exchange]; [W] are registers the resolver uses as temporaries because
    a later move overwrites them. *)
From S2P Require Import Prelude Utils Constants EncodingFacts Words CWords Memory Float.
From S2P Require Import SimState SimInteger SimFloat Simulator Exec SimFacts Effects AsmState.
From S2P Require Import MicroAssembler Emission Computes Macros MacroFacts Arithmetic Accesses Offsets.
From S2P Require Import FloatAccesses Programs Stack Frames Locations ParallelMoves MoveCode.

Definition env : Type := Location -> Z.
Definition assign (d s : Location) (e : env) : env := fun l => if decide (l = d) then e s else e l.
Definition exchange (a b : Location) (e : env) : env :=
  fun l => if decide (l = a) then e b else if decide (l = b) then e a else e l.

(** Registers and floating-point registers the allocator hands out. *)
Definition available (r : Z) : Prop := 0 <= r < 32 /\ Z.testbit kReservedCpuRegisters r = false.
Definition fpu_available (r : Z) : Prop := 0 <= r < 32 /\ r <> FTMP.

Lemma available_plain r : available r -> plain r /\ r <> TMP /\ r <> TMP2.
Proof.
  intros [Hr Hb]. unfold plain. split_and!; try lia; intros ->; by vm_compute in Hb.
Qed.

Section Effects.
Context `{Target} `{HostFloat} `{Host} {pool : ObjectPool} (compiler_ : FlowGraphCompiler).
Context (sp fp sb null : Z) (Hbounds : stack_bounds sp sb).

Abbreviation acts := (acts sp fp sb null).

(** The word a constant stands for, where code can load it without the pool. *)
Definition constant_bits (c : ConstantInstr) (pair_index : bool) : option Z :=
  if IsUnboxedInteger (representation c) then
    match HasIntegerValue (value c) with
    | Some v =>
        if IsSmi (value c) && IsUnsigned (representation c) && (v <? 0) then None
        else if TARGET_64 then
          if pair_index || (v <? - 2 ^ 63) || (2 ^ 63 <=? v) then None else Some (uintx v)
        else Some (uintx (if pair_index then High32Bits v else Low32Bits v))
    | None => None
    end
  else if bool_decide (representation c = kTagged) then
    match value c with
    | NullObject => Some null
    | TrueObject => if IsITypeImm kTrueOffsetFromNull then Some (uintx (null + kTrueOffsetFromNull)) else None
    | FalseObject => if IsITypeImm kFalseOffsetFromNull then Some (uintx (null + kFalseOffsetFromNull)) else None
    | SmiObject v =>
        match CanLoadFromThread (SmiObject v) with
        | Some _ => None
        | None =>
            if IsITypeImm (ToRawSmi v) || IsUTypeImm (ToRawSmi v) || negb constant_pool_allowed
            then Some (uintx (ToRawSmi v)) else None
        end
    | _ => None
    end
  else None.

Definition slot_address (i : Z) : Z := fp + ToStackSlotOffset i.

Definition view (st : Simulator) : env := fun l =>
  match l with
  | RegisterLocation r => xregs_ st r
  | FpuRegisterLocation r => fregs_ st r
  | StackSlot i _ => value_at uintx_t (mem_ st) (slot_address i)
  | DoubleStackSlot i _ => value_at uint64_t (mem_ st) (slot_address i)
  | Constant obj pair_index => default 0 (constant_bits (constant_at compiler_ obj) pair_index)
  | _ => 0
  end.

(** The memory of a location. *)
Definition area (l : Location) : option (Z * Z) :=
  match l with
  | StackSlot i _ => Some (slot_address i, kWordSize)
  | DoubleStackSlot i _ => Some (slot_address i, 8)
  | _ => None
  end.
Definition apart (l l' : Location) : Prop :=
  match area l, area l' with
  | Some (a, n), Some (b, m) => a + n <= b \/ b + m <= a
  | _, _ => True
  end.

(** The assertion of [EmitMove] on a destination in the frame. *)
Definition slot_allowed (i : Z) : Prop :=
  if i <=? first_local_from_fp compiler_ then first_local_from_fp compiler_ - i < StackSize compiler_
  else param_end_from_fp compiler_ < i /\ param_end_from_fp compiler_ - i < StackSize compiler_.

(** Locations a move can have. *)
Definition usable (l : Location) : Prop :=
  match l with
  | RegisterLocation r => available r
  | FpuRegisterLocation r => fpu_available r
  | StackSlot i b => b = FP /\ in_frame sp fp sb (ToStackSlotOffset i) kWordSize /\ slot_allowed i
  | DoubleStackSlot i b =>
      b = FP /\ in_frame sp fp sb (ToStackSlotOffset i) 8 /\ -2048 <= ToStackSlotOffset i < 2048 /\ slot_allowed i
  | _ => False
  end.

(** The locations of interest. *)
Context (U : Location -> Prop).
Context (HU : forall l, U l -> usable l).
Context (Hregs : forall r, available r -> U (RegisterLocation r)).
Context (Hfregs : forall r, fpu_available r -> U (FpuRegisterLocation r)).
Context (Hapart : forall l l', U l -> U l' -> l <> l' -> apart l l').

Record effect (k : Z) (W : list Location) (f : env -> env) (st st' : Simulator) : Prop := {
  effect_view : forall l, U l -> l ∉ W -> view st' l = f (view st) l;
  effect_scratch : forall i, sp - k <= i < sp -> mem_ st' !! i = mem_ st !! i
}.

(** ** What [only] leaves alone *)

Definition untouched (X F : list Z) (A : list (Z * Z)) (l : Location) : Prop :=
  match l with
  | RegisterLocation r => r ∉ X
  | FpuRegisterLocation r => r ∉ F
  | _ => match area l with
         | Some (a, n) => Forall (fun p => a + n <= fst p \/ fst p + snd p <= a) A
         | None => True
         end
  end.

Lemma value_at_same T m m' a : byte_type T -> same_bytes m m' a (sizeof T) -> value_at T m' a = value_at T m a.
Proof. intros HT Hs. pose proof (sizeof_pos T HT). unfold value_at. by rewrite (load_as_same T m) by (done || lia). Qed.

Lemma view_untouched X F A st st' l : only X F A st st' -> untouched X F A l -> view st' l = view st l.
Proof.
  intros [x f m] Hu. destruct byte_word as (HB & _ & ES & _).
  destruct l as [| | | |i b|i b| |r|r]; cbn in *; try done; auto;
    (apply value_at_same; [done|]; intros j Hj; apply m; eapply Forall_impl; [|exact Hu]; intros p Hp; cbn in Hp |- *).
  - rewrite ES in Hj. lia.
  - change (sizeof uint64_t) with 8 in Hj. lia.
Qed.

Lemma untouched_area X F l l' a n : usable l -> apart l l' -> area l' = Some (a, n) ->
  (forall r, l = RegisterLocation r -> r ∉ X) -> (forall r, l = FpuRegisterLocation r -> r ∉ F) ->
  untouched X F [(a, n)] l.
Proof.
  intros Hu Ha El Hx Hf. unfold apart in Ha. rewrite El in Ha.
  destruct l; cbn in *; try done; auto; constructor; cbn; (done || constructor).
Qed.

(** ** Temporaries *)

(** The value of [f] at locations of interest depends on such locations only. *)
Definition local_update (f : env -> env) : Prop :=
  forall e e', (forall l, U l -> e' l = e l) -> forall l, U l -> f e' l = f e l.

Definition above (A : list (Z * Z)) : Prop := Forall (fun p => sp <= fst p /\ 0 <= snd p) A.

(** Code that only uses the scratch space and the stack pointer. *)
Lemma scratch_only_view X a n st st' l : only X [] [(a, n)] st st' -> U l -> a + n <= sp ->
  (forall r, l = RegisterLocation r -> r ∉ X) -> view st' l = view st l.
Proof using HU.
  intros Ho Hl Ha Hx. apply (view_untouched X [] [(a, n)]); [done|]. specialize (HU l Hl).
  destruct l; cbn in *; try done; auto using not_elem_of_nil; try (constructor; [cbn|constructor]);
    unfold in_frame, in_stack, slot_address in *; lia.
Qed.

Lemma scratch_reg_view st st' r X l : only (r :: X) [] [] st st' -> U l -> l <> RegisterLocation r ->
  (forall r', l = RegisterLocation r' -> r' ∉ X) -> view st' l = view st l.
Proof using HU.
  intros Ho Hl Hn Hx. apply (view_untouched _ _ _ _ _ _ Ho). specialize (HU l Hl).
  destruct l; cbn in *; try done; auto using not_elem_of_nil.
  apply not_elem_of_cons. split; [congruence | auto].
Qed.

Lemma not_special r X : available r -> Forall (fun x => x = SP \/ x = TMP \/ x = TMP2) X -> r ∉ X.
Proof.
  intros Hr HX Hin. destruct (available_plain r Hr) as ((_ & _ & Hs & _) & Ht & Ht2).
  apply Forall_forall with (x := r) in HX; [tauto | by apply list_elem_of_In].
Qed.

Definition temporary_mask (blocked_ : Z) : Z :=
  let blocked_mask := RegMaskBit blocked_ .| kReservedCpuRegisters in
  if intrinsic_mode compiler_
  then blocked_mask .| RegMaskBit ARGS_DESC_REG .| RegMaskBit CODE_REG else blocked_mask.

Lemma testbit_mask_bit b r : 0 <= r -> Z.testbit (RegMaskBit b) r = true -> b = r.
Proof.
  intros Hr. unfold RegMaskBit. destruct (Z.eqb_spec b kNoRegister); [by rewrite Z.bits_0|].
  destruct (decide (b = r)); [done|]. destruct (Z.le_gt_cases 0 b).
  - by rewrite Z.shiftl_1_l, Z.pow2_bits_false.
  - destruct (Z.eq_dec b (-1)); [done|]. rewrite Z.shiftl_spec by done.
    rewrite (Z.testbit_odd 1 (r - b)), Z.shiftr_div_pow2 by lia.
    rewrite Z.div_small; [done|]. split; [lia|]. apply (Z.pow_gt_1 2); lia.
Qed.

Lemma temporary_exists b : exists r, 0 <= r < 32 /\ Z.testbit (temporary_mask b) r = false.
Proof.
  assert (forall r, r = A0 \/ r = A1 -> r <> b -> 0 <= r < 32 /\ Z.testbit (temporary_mask b) r = false) as Hc.
  { intros r Hr Hn. assert (0 <= r < 32) as Hr' by (by destruct Hr; subst r). split; [done|].
    assert (Z.testbit (RegMaskBit b) r = false) as Eb.
    { destruct (Z.testbit (RegMaskBit b) r) eqn:E; [|done]. apply testbit_mask_bit in E; [congruence | lia]. }
    unfold temporary_mask. destruct (intrinsic_mode compiler_); rewrite !Z.lor_spec, Eb; by destruct Hr; subst r. }
  destruct (decide (b = A0)) as [->|Hb]; [exists A1 | exists A0]; apply Hc; auto; done.
Qed.

Lemma temporary_available b r : 0 <= r < 32 -> Z.testbit (temporary_mask b) r = false -> available r /\ r <> b.
Proof.
  intros Hr Hm. assert (Z.testbit (RegMaskBit b .| kReservedCpuRegisters) r = false) as Hm'.
  { unfold temporary_mask in Hm. destruct (intrinsic_mode compiler_); [|done].
    rewrite !Z.lor_spec in Hm. apply orb_false_iff in Hm as [Hm _]. apply orb_false_iff in Hm as [Hm _].
    by rewrite Z.lor_spec. }
  rewrite Z.lor_spec in Hm'. apply orb_false_iff in Hm' as [Hb Hk]. split; [done|]. intros <-.
  unfold RegMaskBit in Hb. rewrite (proj2 (Z.eqb_neq _ _)) in Hb by (change kNoRegister with (-1); lia).
  by rewrite Z.shiftl_1_l, Z.pow2_bits_true in Hb by lia.
Qed.

Definition spilled_size (spilled : bool) : Z := if spilled then kWordSize else 0.

(** A method that runs with a temporary register. *)
Lemma with_temporary_and V k moves blocked (body : Z -> asm unit) f : moves_ok moves ->
  0 <= k -> k + kWordSize <= 16 -> local_update f ->
  (forall r e, available r -> r <> blocked -> f e (RegisterLocation r) = e (RegisterLocation r)) ->
  (forall reg k', available reg -> reg <> blocked -> k <= k' <= k + kWordSize ->
     exists W, Forall (is_scratch moves) W /\
       acts k' k' (body reg) tt (effect k' (RegisterLocation reg :: W ++ V) f)) ->
  exists W, Forall (is_scratch moves) W /\
    acts k k (tmp ← AllocateTemporary compiler_ moves blocked; _ ← body (fst tmp); ReleaseTemporary tmp) tt
      (effect k (W ++ V) f).
Proof using Hbounds HU Hregs.
  intros Hm Hk Hk' Hf Hfr Hbody. pose proof kWordSize_pos as Hw.
  destruct (temporary_exists blocked) as (r0 & Hr0 & Hb0).
  destruct (AllocateScratchRegister_pure moves false (temporary_mask blocked) r0 Hm Hr0 Hb0)
    as (reg & spilled & P & Hr & Hmask & Hs).
  destruct (temporary_available blocked reg Hr Hmask) as [Hav Hnb].
  destruct (available_plain reg Hav) as (Hplain & Ht1 & Ht2).
  destruct (Hbody reg (k + spilled_size spilled) Hav Hnb) as (W & HW & Hacts); [destruct spilled; cbn; lia|].
  assert (forall s, AllocateTemporary compiler_ moves blocked s =
    (_ ← (if spilled then SpillScratch reg else mret tt); mret (reg, spilled)) s) as Halloc.
  { intros s. unfold AllocateTemporary, mbind at 1, M_bind at 1.
    change (AllocateScratchRegister moves false _ 0 _ s)
      with (AllocateScratchRegister moves false (temporary_mask blocked) 0 31 s). by rewrite P. }
  destruct spilled; cbn [spilled_size] in *.
  - exists W. split; [done|].
    assert (acts k (k + kWordSize) (AllocateTemporary compiler_ moves blocked) (reg, true)
      (reg_to_stack reg (sp - (k + kWordSize)))) as A1.
    { eapply acts_ext; [exact Halloc|]. eapply acts_bind;
        [apply PushRegister_acts; [done | done | apply Hplain | done | done] | apply (acts_ret _ _ _ _ _ _ eq); done |].
      by intros ? ? ? ? <-. }
    assert (acts (k + kWordSize) k (ReleaseTemporary (reg, true)) tt (stack_to_reg reg (sp - (k + kWordSize)))) as A3.
    { replace k with (k + kWordSize - kWordSize) at 2 by lia. apply PopRegister_acts; [done | done | lia]. }
    eapply acts_impl; [|eapply acts_seq; [exact A1|]; eapply acts_seq; [exact Hacts | exact A3]].
    intros st st3 Hwf (st1 & [O1 V1] & st2 & [Hv Hs2] & O3 & V3).
    assert (forall l, U l -> view st1 l = view st l) as Eview.
    { intros l Hl. eapply scratch_only_view; [exact O1 | done | lia |]. intros r ->.
      apply not_special; [exact (HU _ Hl) | auto]. }
    split.
    + intros l Hl Hn. destruct (decide (l = RegisterLocation reg)) as [->|Hlr].
      * cbn [view]. rewrite V3, Hfr by done. cbn [view]. rewrite <- V1. apply value_at_same; [apply byte_word|].
         destruct byte_word as (_ & _ & -> & _). intros i Hi. apply Hs2. lia.
      * rewrite (scratch_reg_view st2 st3 reg [SP] l) by
           (done || (intros r' ->; apply not_special; [exact (HU _ Hl) | auto])).
         rewrite Hv by (done || (apply not_elem_of_cons; done)). by apply Hf.
    + intros i Hi. rewrite (only_m _ _ _ _ _ O3) by done. rewrite Hs2 by lia.
      apply (only_m _ _ _ _ _ O1). constructor; [cbn; lia | done].
  - exists (RegisterLocation reg :: W). rewrite Z.add_0_r in Hacts. split; [by constructor; [apply Hs|]|].
    eapply acts_bind; [eapply acts_ext; [exact Halloc|]; eapply acts_bind; [apply (acts_ret _ _ _ _ _ _ eq) | apply (acts_ret _ _ _ _ _ _ eq)|]; [done | done | by intros ? ? ? <-]| |].
    + eapply acts_bind; [exact Hacts | apply (acts_ret _ _ _ _ _ _ eq); done | intros ? ? ? E1 <-; exact E1].
    + by intros ? ? ? <-.
Qed.

Lemma with_temporary k moves blocked (body : Z -> asm unit) f : moves_ok moves ->
  0 <= k -> k + kWordSize <= 16 -> local_update f ->
  (forall r e, available r -> r <> blocked -> f e (RegisterLocation r) = e (RegisterLocation r)) ->
  (forall reg k', available reg -> reg <> blocked -> k <= k' <= k + kWordSize ->
     exists W, Forall (is_scratch moves) W /\
       acts k' k' (body reg) tt (effect k' (RegisterLocation reg :: W) f)) ->
  exists W, Forall (is_scratch moves) W /\
    acts k k (tmp ← AllocateTemporary compiler_ moves blocked; _ ← body (fst tmp); ReleaseTemporary tmp) tt
      (effect k W f).
Proof using Hbounds HU Hregs.
  intros Hm Hk Hk' Hf Hfr Hb. destruct (with_temporary_and [] k moves blocked body f) as (W & HW & A); [done.. | |].
  - intros reg k' H1' H2' H3'. destruct (Hb reg k' H1' H2' H3') as (W & HW & A). exists W. by rewrite app_nil_r.
  - exists W. by rewrite app_nil_r in A.
Qed.

(** ** Effects from what the emitters change *)

Lemma only_mono X F A X' F' A' st st' : X ⊆ X' -> F ⊆ F' -> A ⊆ A' -> only X F A st st' -> only X' F' A' st st'.
Proof.
  intros HX HF HA [x f m]. split.
  - intros r Hr. apply x. intros Hin. by apply Hr, HX.
  - intros r Hr. apply f. intros Hin. by apply Hr, HF.
  - intros i Hi. apply m. rewrite Forall_forall in Hi |- *. intros p Hp. apply Hi.
    apply list_elem_of_In, HA. by apply list_elem_of_In.
Qed.

(** What a write to a location may change. *)
Definition loc_x (l : Location) : list Z := match l with RegisterLocation r => [r] | _ => [] end.
Definition loc_f (l : Location) : list Z := match l with FpuRegisterLocation r => [r] | _ => [] end.
Definition loc_m (l : Location) : list (Z * Z) := match area l with Some p => [p] | None => [] end.

(** Besides locations in [ds], only registers outside of [U] change. *)
Definition writes (ds : list Location) (st st' : Simulator) : Prop :=
  only (flat_map loc_x ds ++ [TMP; TMP2]) (flat_map loc_f ds ++ [FTMP]) (flat_map loc_m ds) st st'.

Lemma writes_trans ds ds' st1 st2 st3 : writes ds st1 st2 -> writes ds' st2 st3 -> writes (ds ++ ds') st1 st3.
Proof.
  intros W1 W2. eapply only_mono; [| | |exact (only_trans _ _ _ _ _ _ _ _ _ W1 W2)]; rewrite !flat_map_app;
    intros x; rewrite ?elem_of_app; tauto.
Qed.

Lemma writes_mono ds ds' st st' : ds ⊆ ds' -> writes ds st st' -> writes ds' st st'.
Proof.
  intros Hs. apply only_mono; intros x; rewrite ?elem_of_app; rewrite ?list_elem_of_In, ?in_flat_map;
    try (intros [Hx|Hx]; [left|by right]; revert Hx); intros (l & Hl & Hx);
    exists l; split; try done; by apply list_elem_of_In, Hs, list_elem_of_In.
Qed.

Lemma writes_view ds st st' l : Forall U ds -> writes ds st st' -> U l -> l ∉ ds -> view st' l = view st l.
Proof using HU Hapart.
  intros Hds Hw Hl Hn. apply (view_untouched _ _ _ _ _ _ Hw). specialize (HU l Hl) as Hu.
  rewrite Forall_forall in Hds.
  destruct l as [| | | |i b|i b| |r|r]; cbn [untouched area] in *; try done.
  - rewrite Forall_forall. intros p (d & Hd & Hp)%in_flat_map. unfold loc_m in Hp.
    specialize (Hapart (StackSlot i b) d Hl (Hds _ Hd)). unfold apart in Hapart. cbn [area] in Hapart.
    destruct (area d) as [[c m]|]; [|done]. destruct Hp as [<-|[]]. apply Hapart. intros <-. by apply Hn, list_elem_of_In.
  - rewrite Forall_forall. intros p (d & Hd & Hp)%in_flat_map. unfold loc_m in Hp.
    specialize (Hapart (DoubleStackSlot i b) d Hl (Hds _ Hd)). unfold apart in Hapart. cbn [area] in Hapart.
    destruct (area d) as [[c m]|]; [|done]. destruct Hp as [<-|[]]. apply Hapart. intros <-. by apply Hn, list_elem_of_In.
  - rewrite not_elem_of_app. split; [|by apply not_special; auto].
    rewrite list_elem_of_In, in_flat_map. intros (d & Hd & Hr). destruct d; cbn in Hr; try done.
    destruct Hr as [<-|[]]. by apply Hn, list_elem_of_In.
  - rewrite not_elem_of_app. destruct Hu as [_ Hu]. split; [|by rewrite list_elem_of_singleton].
    rewrite list_elem_of_In, in_flat_map. intros (d & Hd & Hr). destruct d; cbn in Hr; try done.
    destruct Hr as [<-|[]]. by apply Hn, list_elem_of_In.
Qed.

Lemma writes_scratch ds k st st' : Forall U ds -> writes ds st st' ->
  forall i, sp - k <= i < sp -> mem_ st' !! i = mem_ st !! i.
Proof using HU.
  intros Hds Hw i Hi. apply (only_m _ _ _ _ _ Hw). rewrite Forall_forall in Hds |- *.
  intros p (d & Hd & Hp)%in_flat_map. specialize (HU d (Hds _ Hd)). unfold loc_m in Hp.
  destruct d; cbn in Hp; try done; destruct Hp as [<-|[]]; cbn in *;
    unfold in_frame, in_stack, slot_address in *; lia.
Qed.

(** A write of locations [ds] whose values are those of [f] has effect [f]. *)
Lemma effect_writes k W ds f st st' : Forall U ds -> writes ds st st' ->
  (forall l e, U l -> l ∉ ds -> f e l = e l) ->
  (forall l, l ∈ ds -> l ∉ W -> view st' l = f (view st) l) -> effect k W f st st'.
Proof using HU Hapart.
  intros Hds Hw Hf Hv. split; [|by eapply writes_scratch]. intros l Hl Hn.
  destruct (decide (l ∈ ds)) as [Hd|Hd]; [by apply Hv|]. rewrite Hf by done. by apply (writes_view ds).
Qed.

(** The emitters write locations. *)
Ltac only_writes := intros [Ho _]; eapply only_mono; [| | |exact Ho]; intros x; rewrite ?elem_of_app; cbn; rewrite ?elem_of_cons; tauto.

Lemma changes_reg_writes r v st st' : changes_reg r v st st' -> writes [RegisterLocation r] st st'.
Proof. only_writes. Qed.
Lemma slot_to_reg_writes r a st st' : slot_to_reg r a st st' -> writes [RegisterLocation r] st st'.
Proof. only_writes. Qed.
Lemma reg_to_slot_writes r i b st st' : reg_to_slot r (slot_address i) st st' -> writes [StackSlot i b] st st'.
Proof. only_writes. Qed.
Lemma changes_freg_writes r v st st' : changes_freg r v st st' -> writes [FpuRegisterLocation r] st st'.
Proof. only_writes. Qed.
Lemma slot_to_freg_writes r a st st' : slot_to_freg r a st st' -> writes [FpuRegisterLocation r] st st'.
Proof. only_writes. Qed.
Lemma freg_to_slot_writes r i b st st' : freg_to_slot r (slot_address i) st st' -> writes [DoubleStackSlot i b] st st'.
Proof. only_writes. Qed.

(** Writes to the temporaries alone. *)
Lemma changes_tmp_writes v st st' : changes_reg TMP v st st' -> writes [] st st'.
Proof. only_writes. Qed.
Lemma changes_ftmp_writes v st st' : changes_freg FTMP v st st' -> writes [] st st'.
Proof. only_writes. Qed.
Lemma slot_to_ftmp_writes a st st' : slot_to_freg FTMP a st st' -> writes [] st st'.
Proof. only_writes. Qed.

(** ** Single moves *)

Lemma assign_other d s l e : l ∉ [d] -> assign d s e l = e l.
Proof. intros Hn. unfold assign. rewrite decide_False; [done|]. intros ->. apply Hn. left. Qed.
Lemma assign_same d s e : assign d s e d = e s.
Proof. unfold assign. by rewrite decide_True. Qed.

Lemma effect_assign k d s st st' : U d -> writes [d] st st' -> view st' d = view st s ->
  effect k [] (assign d s) st st'.
Proof using HU Hapart.
  intros Hd Hw Hv. apply (effect_writes k [] [d]); [auto | done | |].
  - intros l e _ Hn. by apply assign_other.
  - intros l ->%list_elem_of_singleton _. by rewrite assign_same.
Qed.

Lemma local_assign d s : U s -> local_update (assign d s).
Proof. intros Hs e e' He l Hl. unfold assign. destruct (decide (l = d)); auto. Qed.

(** The slot's location, as the emitters see it. *)
Lemma usable_slot i b : U (StackSlot i b) ->
  b = FP /\ in_frame sp fp sb (ToStackSlotOffset i) kWordSize.
Proof using HU. intros Hl. destruct (HU _ Hl) as (? & ? & _). done. Qed.
Lemma usable_double i b : U (DoubleStackSlot i b) ->
  b = FP /\ in_frame sp fp sb (ToStackSlotOffset i) 8 /\ near_frame sp fp sb (ToStackSlotOffset i).
Proof using HU. intros Hl. destruct (HU _ Hl) as (? & [H1' ?] & ? & _). done. Qed.

Lemma move_reg_reg k d s : available d -> available s ->
  acts k k (mv d s) tt (effect k [] (assign (RegisterLocation d) (RegisterLocation s))).
Proof using HU Hapart Hregs.
  intros Hd Hs. destruct (available_plain d Hd) as [Hp _].
  eapply acts_impl; [|apply mv_acts; [done | apply Hs]].
  intros st st' _ Hc. apply effect_assign; [auto | by eapply changes_reg_writes | apply Hc].
Qed.

Lemma move_slot_reg k d i b : available d -> U (StackSlot i b) ->
  acts k k (LoadFromOffset d b (ToStackSlotOffset i) kWordOperand) tt
    (effect k [] (assign (RegisterLocation d) (StackSlot i b))).
Proof using Hbounds HU Hapart Hregs.
  intros Hd Hs. destruct (usable_slot i b Hs) as [-> Hf]. destruct (available_plain d Hd) as [Hp _].
  eapply acts_impl; [|by apply LoadFromOffset_acts].
  intros st st' _ Hc. apply effect_assign; [auto | by eapply slot_to_reg_writes | apply Hc].
Qed.

Lemma move_reg_slot k s i b : available s -> U (StackSlot i b) ->
  acts k k (StoreToOffset s b (ToStackSlotOffset i) kWordOperand) tt
    (effect k [] (assign (StackSlot i b) (RegisterLocation s))).
Proof using Hbounds HU Hapart Hregs.
  intros Hs Hd. destruct (usable_slot i b Hd) as [-> Hf]. destruct (available_plain s Hs) as [Hp [_ Ht]].
  eapply acts_impl; [|apply StoreToOffset_acts; [done | apply Hs | done | done]].
  intros st st' _ Hc. apply effect_assign; [done | by eapply reg_to_slot_writes | apply Hc].
Qed.

Lemma move_freg_freg k d s : fpu_available d -> fpu_available s ->
  acts k k (fmvd d s) tt (effect k [] (assign (FpuRegisterLocation d) (FpuRegisterLocation s))).
Proof using HU Hapart Hfregs.
  intros Hd Hs. eapply acts_impl; [|apply fmvd_acts; [apply Hd | apply Hs]].
  intros st st' _ Hc. apply effect_assign; [auto | by eapply changes_freg_writes | apply Hc].
Qed.

Lemma move_double_freg k d i b : fpu_available d -> U (DoubleStackSlot i b) ->
  acts k k (fld d {| base := b; offset := ToStackSlotOffset i |}) tt
    (effect k [] (assign (FpuRegisterLocation d) (DoubleStackSlot i b))).
Proof using Hbounds HU Hapart Hfregs.
  intros Hd Hs. destruct (usable_double i b Hs) as (-> & _ & Hf).
  eapply acts_impl; [|apply fld_acts; [done | apply Hd | done]].
  intros st st' _ Hc. apply effect_assign; [auto | by eapply slot_to_freg_writes | apply Hc].
Qed.

Lemma move_freg_double k s i b : fpu_available s -> U (DoubleStackSlot i b) ->
  acts k k (fsd s {| base := b; offset := ToStackSlotOffset i |}) tt
    (effect k [] (assign (DoubleStackSlot i b) (FpuRegisterLocation s))).
Proof using Hbounds HU Hapart Hfregs.
  intros Hs Hd. destruct (usable_double i b Hd) as (-> & _ & Hf).
  eapply acts_impl; [|apply fsd_acts; [done | apply Hs | done]].
  intros st st' _ Hc. apply effect_assign; [done | by eapply freg_to_slot_writes | apply Hc].
Qed.

Lemma move_double_double k i b j c : U (DoubleStackSlot i b) -> U (DoubleStackSlot j c) ->
  acts k k (_ ← fld FTMP {| base := b; offset := ToStackSlotOffset i |};
            fsd FTMP {| base := c; offset := ToStackSlotOffset j |}) tt
    (effect k [] (assign (DoubleStackSlot j c) (DoubleStackSlot i b))).
Proof using Hbounds HU Hapart.
  intros Hs Hd. destruct (usable_double i b Hs) as (-> & _ & Hf). destruct (usable_double j c Hd) as (-> & _ & Hf').
  eapply acts_impl; [|eapply acts_seq; [apply fld_acts; [done | wside | done] | apply fsd_acts; [done | wside | done]]].
  intros st st2 _ (st1 & H1' & H2'). apply effect_assign; [done | |].
  - apply (writes_trans [] [_] _ st1); [by eapply slot_to_ftmp_writes | by eapply freg_to_slot_writes].
  - cbn [view]. unfold slot_address. destruct H2' as [_ ->]. destruct H1' as [_ ->]. done.
Qed.

(** Through a temporary register. *)
Lemma move_slot_slot moves i b j c : moves_ok moves -> U (StackSlot i b) -> U (StackSlot j c) ->
  exists W, Forall (is_scratch moves) W /\
  acts 0 0 (tmp ← AllocateTemporary compiler_ moves kNoRegister;
            _ ← (_ ← LoadFromOffset (fst tmp) b (ToStackSlotOffset i) kWordOperand;
                 StoreToOffset (fst tmp) c (ToStackSlotOffset j) kWordOperand);
            ReleaseTemporary tmp) tt
    (effect 0 W (assign (StackSlot j c) (StackSlot i b))).
Proof using Hbounds HU Hapart Hregs.
  intros Hm Hs Hd. pose proof kWordSize_pos.
  apply (with_temporary 0 moves kNoRegister (fun r => _ ← LoadFromOffset r b (ToStackSlotOffset i) kWordOperand;
                 StoreToOffset r c (ToStackSlotOffset j) kWordOperand));
    [done | lia | lia | by apply local_assign | |].
  - intros r e _ _. apply assign_other. intros E%list_elem_of_singleton. done.
  - intros reg k' Hr _ Hk'. exists []. split; [constructor|].
    destruct (usable_slot i b Hs) as [-> Hf]. destruct (usable_slot j c Hd) as [-> Hf'].
    destruct (available_plain reg Hr) as [Hp [_ Ht]].
    eapply acts_impl; [|eapply acts_seq; [apply LoadFromOffset_acts; done | apply StoreToOffset_acts; [done | apply Hr | done | done]]].
    intros st st2 _ (st1 & H1' & H2').
    apply (effect_writes _ _ [RegisterLocation reg; StackSlot j FP]); [auto | | |].
    + apply (writes_trans [_] [_] _ st1); [by eapply slot_to_reg_writes | by eapply reg_to_slot_writes].
    + intros l e _ Hn. apply assign_other. intros E%list_elem_of_singleton. apply Hn. subst l. right. left.
    + intros l Hl Hn. apply elem_of_cons in Hl as [-> | ->%list_elem_of_singleton]; [destruct Hn; left|].
      rewrite assign_same. cbn [view]. unfold slot_address. destruct H2' as [_ ->]. destruct H1' as [_ ->]. done.
Qed.

(** ** Constants *)

Lemma LoadImmediate_acts k d imm : available d -> - 2 ^ (XLEN - 1) <= imm < 2 ^ (XLEN - 1) ->
  acts k k (LoadImmediate d imm) tt (changes_reg d (fun _ => uintx imm)).
Proof.
  intros Hd Hi. destruct (available_plain d Hd) as [Hp _].
  apply (acts_computes _ _ _ _ _ 8 _ d (fun _ => imm)); [done|]. apply LoadImmediate_computes; [apply Hd | apply Hp | done].
Qed.

Lemma addi_acts k d s imm : available d -> 0 <= s < 32 -> IsITypeImm imm = true ->
  acts k k (addi d s imm) tt (changes_reg d (fun st => uintx (xregs_ st s + imm))).
Proof.
  intros Hd Hs Hi. destruct (available_plain d Hd) as [Hp _].
  apply (acts_computes _ _ _ _ _ 1 _ d (fun r => r s + imm)); [done|]. by apply addi_computes; [apply Hd | |].
Qed.

Lemma constant_word_pure v p : TARGET_64 && p = false ->
  pure (constant_word v p) (if TARGET_64 then v else intx (if p then High32Bits v else Low32Bits v)).
Proof.
  intros Hp. unfold constant_word. destruct TARGET_64; [|apply pure_ret]. cbn in Hp. rewrite Hp.
  eapply pure_bind; [by apply pure_assert | apply pure_ret].
Qed.

Lemma ToRawSmi_range v : - 2 ^ (XLEN - 1) <= ToRawSmi v < 2 ^ (XLEN - 1).
Proof. apply swrap_bound, XLEN_pos. Qed.

Lemma LoadObject_acts k d o v : available d ->
  constant_bits {| value := o; representation := kTagged |} false = Some v ->
  acts k k (LoadObject d o) tt (changes_reg d (fun _ => v)).
Proof.
  intros Hd Hv. pose proof (available_plain d Hd) as [Hp _]. unfold constant_bits in Hv. cbn in Hv.
  destruct o as [| | |z|z|z|z]; cbn [LoadObject]; try discriminate.
  - injection Hv as <-. eapply acts_impl_framed; [|by apply mv_acts].
    intros lo n st st' Hst [Ho E]. split; [done|]. rewrite E. apply Hst.
  - destruct (IsITypeImm kTrueOffsetFromNull) eqn:Ei; [injection Hv as <- | discriminate].
    eapply acts_impl_framed; [|by apply addi_acts]. intros lo n st st' Hst [Ho E]. split; [done|].
    cbn beta in E. by rewrite E, (framed_null _ _ _ _ _ _ _ _ Hst).
  - destruct (IsITypeImm kFalseOffsetFromNull) eqn:Ei; [injection Hv as <- | discriminate].
    eapply acts_impl_framed; [|by apply addi_acts]. intros lo n st st' Hst [Ho E]. split; [done|].
    cbn beta in E. by rewrite E, (framed_null _ _ _ _ _ _ _ _ Hst).
  - destruct (CanLoadFromThread (SmiObject z)); [discriminate|].
    destruct (IsITypeImm (ToRawSmi z)) eqn:Ei; [|destruct (IsUTypeImm (ToRawSmi z)) eqn:Eu].
    + injection Hv as <-. eapply acts_impl; [|apply (addi_acts k d ZR); done].
      intros st st' Hwf [Ho E]. split; [done|]. cbn beta in E. by rewrite E, (proj1 (wf_regs _ Hwf)).
    + injection Hv as <-. apply (acts_computes _ _ _ _ _ 1 _ d (fun _ => ToRawSmi z)); [done|].
      unfold IsUTypeImm in Eu. apply andb_true_iff in Eu as [E1 E2]. pose proof (ToRawSmi_range z) as Hr.
      apply lui_computes; [apply Hd | | by apply (aligned_spec _ 12) |].
      * unfold IsInt, intptr_t, XLEN in *. destruct TARGET_64; [|exact Hr]. apply andb_true_iff in E1 as [E1 E1'].
        apply Z.leb_le in E1. apply Z.ltb_lt in E1'. done.
      * intros E0. rewrite E0 in Ei. rewrite (proj1 (small_ITypeImm 0 ltac:(lia))) in Ei. discriminate.
    + unfold LoadObject_rest. destruct constant_pool_allowed; [discriminate|]. injection Hv as <-.
      apply LoadImmediate_acts; [done | apply ToRawSmi_range].
Qed.

Lemma constant_integer c p v z : IsUnboxedInteger (representation c) = true -> HasIntegerValue (value c) = Some z ->
  constant_bits c p = Some v ->
  let w := if TARGET_64 then z else intx (if p then High32Bits z else Low32Bits z) in
  negb (IsSmi (value c) && IsUnsigned (representation c)) || (0 <=? z) = true /\
  pure (constant_word z p) w /\ uintx w = v /\ - 2 ^ (XLEN - 1) <= w < 2 ^ (XLEN - 1).
Proof.
  intros Hi Hz Hv w. unfold constant_bits in Hv. rewrite Hi, Hz in Hv.
  destruct (IsSmi (value c) && IsUnsigned (representation c) && (z <? 0)) eqn:Es; [discriminate|].
  split.
  { destruct (IsSmi (value c) && IsUnsigned (representation c)); [|done]. cbn in *. apply Z.ltb_ge in Es. by apply Z.leb_le. }
  assert (TARGET_64 && p = false) as Hp.
  { destruct TARGET_64; [|done]. cbn. by destruct p. }
  split; [by apply constant_word_pure|]. unfold w.
  pose proof (swrap_bound XLEN XLEN_pos (if p then High32Bits z else Low32Bits z)) as Hr.
  unfold intx. destruct TARGET_64 eqn:ET.
  - destruct (p || _ || _) eqn:E; [discriminate|]. injection Hv as <-. apply orb_false_iff in E as [E1 E2].
    apply orb_false_iff in E1 as [_ E1]. apply Z.ltb_ge in E1. apply Z.leb_gt in E2. unfold XLEN. rewrite ET. done.
  - injection Hv as <-. split; [|done]. unfold uintx. apply (uwrap_swrap _ XLEN_pos).
Qed.

Lemma constant_tagged c p v : IsUnboxedInteger (representation c) = false -> constant_bits c p = Some v ->
  representation c = kTagged /\ constant_bits {| value := value c; representation := kTagged |} false = Some v.
Proof.
  intros Hi Hv. unfold constant_bits in Hv. rewrite Hi in Hv. case_bool_decide; [|discriminate]. done.
Qed.

Lemma constant_to_reg k c p v d : available d -> constant_bits c p = Some v ->
  acts k k (EmitMoveToLocation c (RegisterLocation d) kNoRegister p) tt (changes_reg d (fun _ => v)).
Proof.
  intros Hd Hv. cbn [EmitMoveToLocation]. destruct (IsUnboxedInteger (representation c)) eqn:Hi.
  - destruct (HasIntegerValue (value c)) as [z|] eqn:Hz.
    + destruct (constant_integer c p v z Hi Hz Hv) as (Ha & Pw & <- & Hr).
      apply (acts_pure _ _ _ _ _ _ _ _ tt); [by apply pure_assert|]. eapply acts_pure; [exact Pw|].
      by apply LoadImmediate_acts.
    + unfold constant_bits in Hv. by rewrite Hi, Hz in Hv.
  - destruct (constant_tagged c p v Hi Hv) as [Er Hv'].
    apply (acts_pure _ _ _ _ _ _ _ _ tt); [by apply pure_assert, bool_decide_eq_true|]. by apply LoadObject_acts.
Qed.

(** The register a constant is stored from. *)
Lemma constant_register k c p v tmp : available tmp -> constant_bits c p = Some v ->
  exists r, 0 <= r < 32 /\ r <> TMP2 /\ acts k k
    (if IsUnboxedInteger (representation c) then
       match HasIntegerValue (value c) with
       | None => fail FatalError
       | Some v => w ← constant_word v p; _ ← LoadImmediate tmp w; mret tmp
       end
     else
       _ ← assert (bool_decide (representation c = kTagged));
       match value c with
       | NullObject => mret NULL_REG
       | SmiObject 0 => mret ZR
       | _ => _ ← LoadObject tmp (value c); mret tmp
       end) r (fun st st' => only [tmp] [] [] st st' /\ xregs_ st' r = v).
Proof.
  intros Ht Hv. destruct (available_plain tmp Ht) as (Hp & _ & Ht2).
  assert (forall m, acts k k m tt (changes_reg tmp (fun _ => v)) ->
    acts k k (_ ← m; mret tmp) tmp (fun st st' => only [tmp] [] [] st st' /\ xregs_ st' tmp = v)) as Hload.
  { intros m Hm. eapply acts_bind; [exact Hm | apply (acts_ret _ _ _ _ _ _ eq); done |]. by intros ? ? ? Hc <-. }
  destruct (IsUnboxedInteger (representation c)) eqn:Hi.
  - destruct (HasIntegerValue (value c)) as [z|] eqn:Hz; [|unfold constant_bits in Hv; by rewrite Hi, Hz in Hv].
    destruct (constant_integer c p v z Hi Hz Hv) as (Ha & Pw & <- & Hr). exists tmp. split_and!; [apply Ht.. | done |].
    eapply acts_pure; [exact Pw|]. apply Hload. by apply LoadImmediate_acts.
  - destruct (constant_tagged c p v Hi Hv) as [Er Hv'].
    assert (forall (r : Z) (m : asm Z) E, acts k k m r E ->
      acts k k (_ ← assert (bool_decide (representation c = kTagged)); m) r E) as Hassert.
    { intros r m E HE. eapply acts_pure; [by apply pure_assert, bool_decide_eq_true | exact HE]. }
    pose proof (Hload _ (LoadObject_acts k tmp _ v Ht Hv')) as Hl.
    destruct (value c) as [| | |z|z|z|z] eqn:Ev; try (exists tmp; split_and!; [apply Ht.. | done | by apply Hassert]).
    + exists NULL_REG. split_and!; [done.. |]. apply Hassert.
      eapply acts_impl_framed; [|apply (acts_ret _ _ _ _ _ _ eq); done]. intros lo n st st' Hst <-.
      split; [done|]. cbn in Hv'. injection Hv' as <-. apply Hst.
    + destruct z; try (exists tmp; split_and!; [apply Ht.. | done | by apply Hassert]).
      exists ZR. split_and!; [done.. |]. apply Hassert.
      eapply acts_impl; [|apply (acts_ret _ _ _ _ _ _ eq); done]. intros st st' Hwf <-.
      split; [done|]. rewrite (proj1 (wf_regs _ Hwf)). unfold constant_bits in Hv'. cbn in Hv'.
      destruct (CanLoadFromThread _); [done|]. change (ToRawSmi 0) with (intx 0) in Hv'.
      assert (intx 0 = 0) as E0 by (unfold intx; apply swrap_small; unfold XLEN; destruct TARGET_64; lia).
      rewrite E0 in Hv'. rewrite (proj1 (small_ITypeImm 0 ltac:(lia))) in Hv'. by injection Hv' as <-.
Qed.

Lemma move_constant_slot moves c p v i b l : moves_ok moves -> U (StackSlot i b) -> constant_bits c p = Some v ->
  (forall st, view st l = v) -> ~ U l ->
  exists W, Forall (is_scratch moves) W /\
  acts 0 0 (tmp ← AllocateTemporary compiler_ moves kNoRegister;
            _ ← EmitMoveToLocation c (StackSlot i b) (fst tmp) p;
            ReleaseTemporary tmp) tt (effect 0 W (assign (StackSlot i b) l)).
Proof using Hbounds HU Hapart Hregs.
  intros Hm Hd Hv Hl Hnl. pose proof kWordSize_pos.
  assert (exists W, Forall (is_scratch moves) W /\
    acts 0 0 (tmp ← AllocateTemporary compiler_ moves kNoRegister;
            _ ← EmitMoveToLocation c (StackSlot i b) (fst tmp) p;
            ReleaseTemporary tmp) tt (effect 0 W (fun e l' => if decide (l' = StackSlot i b) then v else e l'))) as (W & HW & A).
  - apply (with_temporary 0 moves kNoRegister (fun r => EmitMoveToLocation c (StackSlot i b) r p)); [done | lia | lia | | |].
    + intros e e' He l' Hl'. destruct (decide (l' = StackSlot i b)); auto.
    + done.
    + intros reg k' Hr _ Hk'. exists []. split; [constructor|]. cbn [EmitMoveToLocation].
      destruct (usable_slot i b Hd) as [-> Hf].
      apply (acts_pure _ _ _ _ _ _ _ _ tt); [apply pure_assert, negb_true_iff, Z.eqb_neq; change kNoRegister with (-1); destruct Hr; lia|].
      destruct (constant_register k' c p v reg Hr Hv) as (r & Hr' & Ht & Ac).
      eapply acts_impl; [|eapply acts_seq; [exact Ac | by apply (StoreToOffset_acts _ _ _ _ Hbounds k' r)]].
      intros st st2 _ (st1 & [O1 V1] & H2').
      apply (effect_writes _ _ [RegisterLocation reg; StackSlot i FP]); [auto | | |].
      * apply (writes_trans [_] [_] _ st1); [|by eapply reg_to_slot_writes].
        by apply (changes_reg_writes reg (fun _ => xregs_ st1 reg)).
      * intros l' e _ Hn. rewrite decide_False; [done|]. intros ->. apply Hn. right. left.
      * intros l' Hl' Hn. apply elem_of_cons in Hl' as [-> | ->%list_elem_of_singleton]; [destruct Hn; left|].
        rewrite decide_True by done. cbn [view]. unfold slot_address. destruct H2' as [_ ->]. done.
  - exists W. split; [done|]. eapply acts_impl; [|exact A]. intros st st' _ [E1 E2]. split; [|done].
    intros l' Hl' Hn. rewrite E1 by done. unfold assign. by rewrite Hl.
Qed.

(** ** Swaps *)

Lemma exchange_other a b l e : l ∉ [a; b] -> exchange a b e l = e l.
Proof.
  intros Hn. unfold exchange. rewrite !decide_False; [done | |]; intros ->; apply Hn; [right; left | left].
Qed.
Lemma exchange_fst a b e : exchange a b e a = e b.
Proof. unfold exchange. by rewrite decide_True. Qed.
Lemma exchange_snd a b e : exchange a b e b = e a.
Proof. unfold exchange. destruct (decide (b = a)) as [->|]; [done|]. by rewrite decide_True. Qed.
Lemma exchange_comm a b e l : exchange a b e l = exchange b a e l.
Proof. unfold exchange. destruct (decide (l = a)), (decide (l = b)); subst; done. Qed.

Lemma local_exchange a b : U a -> U b -> local_update (exchange a b).
Proof. intros Ha Hb e e' He l Hl. unfold exchange. destruct (decide (l = a)), (decide (l = b)); auto. Qed.

Lemma effect_exchange k W a b ds st st' : U a -> U b -> Forall U ds -> ds ⊆ W -> writes (a :: b :: ds) st st' ->
  view st' a = view st b -> view st' b = view st a -> effect k W (exchange a b) st st'.
Proof using HU Hapart.
  intros Ha Hb Hds HW Hw Ea Eb. apply (effect_writes k W (a :: b :: ds)); [auto | done | |].
  - intros l e _ Hn. apply exchange_other. intros Hin. apply Hn. rewrite !elem_of_cons in *.
    destruct Hin as [?|[?|Hin]]; [auto | auto | by apply elem_of_nil in Hin].
  - intros l Hl Hn. rewrite !elem_of_cons in Hl. destruct Hl as [-> | [-> | Hl]].
    + by rewrite exchange_fst.
    + by rewrite exchange_snd.
    + by apply HW in Hl.
Qed.

Lemma effect_exchange_comm k W a b st st' : effect k W (exchange a b) st st' -> effect k W (exchange b a) st st'.
Proof. intros [E1 E2]. split; [|done]. intros l Hl Hn. rewrite E1 by done. apply exchange_comm. Qed.

Lemma swap_regs k a b : available a -> available b -> a <> b ->
  acts k k (_ ← mv TMP a; _ ← mv a b; mv b TMP) tt
    (effect k [] (exchange (RegisterLocation a) (RegisterLocation b))).
Proof using HU Hapart Hregs.
  intros Ha Hb Hn. destruct (available_plain a Ha) as (Pa & Ta & _). destruct (available_plain b Hb) as (Pb & Tb & _).
  eapply acts_impl; [|eapply acts_seq; [by apply mv_acts; [|apply Ha]|];
    eapply acts_seq; [by apply mv_acts; [|apply Hb] | by apply mv_acts]].
  intros st st3 _ (st1 & H1' & st2 & H2' & H3'). apply (effect_exchange k [] _ _ []); [auto | auto | constructor | done | | |].
  - apply (writes_trans [] [_; _] _ st1); [by eapply changes_tmp_writes|].
    apply (writes_trans [_] [_] _ st2); by eapply changes_reg_writes.
  - cbn [view]. rewrite (only_x _ _ _ _ _ (proj1 H3')) by (rewrite list_elem_of_singleton; congruence).
    destruct H2' as [_ ->]. apply (only_x _ _ _ _ _ (proj1 H1')). rewrite list_elem_of_singleton. congruence.
  - cbn [view]. destruct H3' as [_ ->]. rewrite (only_x _ _ _ _ _ (proj1 H2')) by (rewrite list_elem_of_singleton; congruence).
    apply H1'.
Qed.

Lemma swap_fregs k a b : fpu_available a -> fpu_available b -> a <> b ->
  acts k k (_ ← fmvd FTMP a; _ ← fmvd a b; fmvd b FTMP) tt
    (effect k [] (exchange (FpuRegisterLocation a) (FpuRegisterLocation b))).
Proof using HU Hapart Hfregs.
  intros [Ha Ta] [Hb Tb] Hn.
  eapply acts_impl; [|eapply acts_seq; [apply fmvd_acts; [wside | done]|];
    eapply acts_seq; [by apply fmvd_acts | apply fmvd_acts; [done | wside]]].
  intros st st3 _ (st1 & H1' & st2 & H2' & H3').
  apply (effect_exchange k [] _ _ []); [by apply Hfregs | by apply Hfregs | constructor | done | | |].
  - apply (writes_trans [] [_; _] _ st1); [by eapply changes_ftmp_writes|].
    apply (writes_trans [_] [_] _ st2); by eapply changes_freg_writes.
  - cbn [view]. rewrite (only_f _ _ _ _ _ (proj1 H3')) by (rewrite list_elem_of_singleton; congruence).
    destruct H2' as [_ ->]. apply (only_f _ _ _ _ _ (proj1 H1')). rewrite list_elem_of_singleton. congruence.
  - cbn [view]. destruct H3' as [_ ->]. rewrite (only_f _ _ _ _ _ (proj1 H2')) by (rewrite list_elem_of_singleton; congruence).
    apply H1'.
Qed.

(** A temporary is none of the exchanged registers. *)
Lemma exchange_keeps_reg a b r e : RegisterLocation r <> a -> RegisterLocation r <> b ->
  exchange a b e (RegisterLocation r) = e (RegisterLocation r).
Proof.
  intros H1' H2'. apply exchange_other. rewrite !not_elem_of_cons. split_and!; [done | done | apply not_elem_of_nil].
Qed.

Lemma swap_reg_slot moves r i b : moves_ok moves -> available r -> U (StackSlot i b) ->
  exists W, Forall (is_scratch moves) W /\
    acts 0 0 (Exchange_slot compiler_ moves r b (ToStackSlotOffset i)) tt
      (effect 0 W (exchange (RegisterLocation r) (StackSlot i b))).
Proof using Hbounds HU Hapart Hregs.
  intros Hm Hr Hs. pose proof kWordSize_pos. destruct (usable_slot i b Hs) as [Eb Hf].
  destruct (available_plain r Hr) as (Pr & _ & Tr).
  destruct (with_temporary 0 moves r (fun tmp => _ ← mv tmp r; _ ← LoadFromOffset r b (ToStackSlotOffset i) kWordOperand;
    StoreToOffset tmp b (ToStackSlotOffset i) kWordOperand) (exchange (RegisterLocation r) (StackSlot i b))) as (W & HW & A);
    [done | lia | lia | apply local_exchange; auto | | |exists W; split; [done|]; eapply acts_ext; [|exact A]].
  - intros t e _ Hn. apply exchange_keeps_reg; congruence.
  - intros t k' Ht Hn Hk'. exists []. split; [constructor|]. destruct (available_plain t Ht) as (Pt & _ & Tt). subst b.
    eapply acts_impl; [|eapply acts_seq; [apply mv_acts; [done | apply Hr]|]; eapply acts_seq;
      [by apply LoadFromOffset_acts | apply StoreToOffset_acts; [done | apply Ht | done | done]]].
    intros st st3 _ (st1 & H1' & st2 & H2' & H3').
    apply (effect_exchange _ _ _ _ [RegisterLocation t]); [auto | done | auto | done | | |].
    + apply (writes_mono [RegisterLocation t; RegisterLocation r; StackSlot i FP]).
      { intros x. rewrite !elem_of_cons. tauto. }
      apply (writes_trans [_] [_; _] _ st1); [by eapply changes_reg_writes|].
      apply (writes_trans [_] [_] _ st2); [by eapply slot_to_reg_writes | by eapply reg_to_slot_writes].
    + cbn [view]. rewrite (only_x _ _ _ _ _ (proj1 H3')) by (rewrite list_elem_of_singleton; congruence).
      destruct H2' as [_ ->]. unfold slot_address. f_equal. apply map_eq. intros j. by apply (only_m _ _ _ _ _ (proj1 H1')).
    + cbn [view]. unfold slot_address. destruct H3' as [_ ->].
      rewrite (only_x _ _ _ _ _ (proj1 H2')) by (rewrite !not_elem_of_cons; split_and!; [congruence | congruence | apply not_elem_of_nil]).
      apply H1'.
  - intros s. unfold Exchange_slot, mbind, M_bind. destruct (AllocateTemporary _ _ _ s) as [[[t sp'] s1]|]; [|done]. cbn.
    destruct (mv t r s1) as [[[] s2]|]; [|done]. destruct (LoadFromOffset _ _ _ _ s2) as [[[] s3]|]; [|done].
    by destruct (StoreToOffset _ _ _ _ s3) as [[[] s4]|].
Qed.

Lemma swap_slots moves i b j c : moves_ok moves -> U (StackSlot i b) -> U (StackSlot j c) -> StackSlot i b <> StackSlot j c ->
  exists W, Forall (is_scratch moves) W /\
    acts 0 0 (Exchange_slots compiler_ moves b (ToStackSlotOffset i) c (ToStackSlotOffset j)) tt
      (effect 0 W (exchange (StackSlot i b) (StackSlot j c))).
Proof using Hbounds HU Hapart Hregs.
  intros Hm Hs Hd Hne. pose proof kWordSize_pos.
  set (body t1 t2 := _ ← LoadFromOffset t1 b (ToStackSlotOffset i) kWordOperand;
    _ ← LoadFromOffset t2 c (ToStackSlotOffset j) kWordOperand;
    _ ← StoreToOffset t1 c (ToStackSlotOffset j) kWordOperand;
    StoreToOffset t2 b (ToStackSlotOffset i) kWordOperand).
  assert (forall t1 t2 k', available t1 -> available t2 -> t2 <> t1 -> acts k' k' (body t1 t2) tt
    (effect k' [RegisterLocation t2; RegisterLocation t1] (exchange (StackSlot i b) (StackSlot j c)))) as Hbody.
  { intros t1 t2 k' Ht1 Ht2 Hn. unfold body. pose proof (Hapart _ _ Hs Hd Hne) as Hap.
    destruct (usable_slot i b Hs) as [-> Hf]. destruct (usable_slot j c Hd) as [-> Hf'].
    destruct (available_plain t1 Ht1) as (P1 & _ & T1). destruct (available_plain t2 Ht2) as (P2 & _ & T2).
    eapply acts_impl; [|eapply acts_seq; [by apply LoadFromOffset_acts|]; eapply acts_seq; [by apply LoadFromOffset_acts|];
      eapply acts_seq; [by apply StoreToOffset_acts; [|apply Ht1| |] | by apply StoreToOffset_acts; [|apply Ht2| |]]].
    intros st st4 _ (st1 & L1 & st2 & L2 & st3 & S1 & S2).
    assert (forall r, r <> TMP2 -> r ∉ [TMP2]) as Hnt by (intros r Hr; by rewrite list_elem_of_singleton).
    assert (mem_ st2 = mem_ st) as Em.
    { apply map_eq. intros x. rewrite (only_m _ _ _ _ _ (proj1 L2)) by done. by apply (only_m _ _ _ _ _ (proj1 L1)). }
    apply (effect_exchange _ _ _ _ [RegisterLocation t1; RegisterLocation t2]); [done | done | auto | | | |].
    - intros x. rewrite !elem_of_cons. tauto.
    - apply (writes_mono ([RegisterLocation t1] ++ [RegisterLocation t2] ++ [StackSlot j FP] ++ [StackSlot i FP])).
      { intros x. cbn. rewrite !elem_of_cons. tauto. }
      eapply writes_trans; [by eapply slot_to_reg_writes|]. eapply writes_trans; [by eapply slot_to_reg_writes|].
      eapply writes_trans; by eapply reg_to_slot_writes.
    - cbn [view]. unfold slot_address. destruct S2 as [_ ->]. rewrite (only_x _ _ _ _ _ (proj1 S1)) by auto.
      destruct L2 as [_ ->]. f_equal. apply map_eq. intros x. by apply (only_m _ _ _ _ _ (proj1 L1)).
    - change (view st4 (StackSlot j FP) = view st (StackSlot i FP)).
      rewrite (writes_view [StackSlot i FP] st3 st4); [|auto | by eapply reg_to_slot_writes | done | rewrite list_elem_of_singleton; congruence].
      cbn [view]. unfold slot_address. destruct S1 as [_ ->].
      rewrite (only_x _ _ _ _ _ (proj1 L2)) by (rewrite !not_elem_of_cons; split_and!; [congruence | congruence | apply not_elem_of_nil]).
      apply L1. }
  destruct (with_temporary 0 moves kNoRegister (fun t1 => tmp2 ← AllocateTemporary compiler_ moves t1;
    _ ← body t1 (fst tmp2); ReleaseTemporary tmp2) (exchange (StackSlot i b) (StackSlot j c))) as (W & HW & A);
    [done | lia | lia | by apply local_exchange | | |exists W; split; [done|]; eapply acts_ext; [|exact A]].
  - intros t e _ _. by apply exchange_keeps_reg.
  - intros t1 k' Ht1 _ Hk'.
    destruct (with_temporary_and [RegisterLocation t1] k' moves t1 (body t1) (exchange (StackSlot i b) (StackSlot j c)))
      as (W & HW & A); [done | lia | lia | by apply local_exchange | intros t e _ _; by apply exchange_keeps_reg | |].
    + intros t2 k'' Ht2 Hn Hk''. exists []. split; [constructor|]. by apply Hbody.
    + exists W. split; [done|]. eapply acts_impl; [|exact A]. intros st st' _ [E1 E2]. split; [|done].
      intros l Hl Hn. apply E1; [done|]. rewrite not_elem_of_cons in Hn. rewrite not_elem_of_app, list_elem_of_singleton. tauto.
  - intros s. unfold Exchange_slots, body, mbind, M_bind. destruct (AllocateTemporary _ _ _ s) as [[[t1 sp1] s1]|]; [|done]. cbn.
    destruct (AllocateTemporary _ _ _ s1) as [[[t2 sp2] s2]|]; [|done]. cbn.
    destruct (LoadFromOffset _ _ _ _ s2) as [[[] s3]|]; [|done]. destruct (LoadFromOffset _ _ _ _ s3) as [[[] s4]|]; [|done].
    destruct (StoreToOffset _ _ _ _ s4) as [[[] s5]|]; [|done]. by destruct (StoreToOffset _ _ _ _ s5) as [[[] s6]|].
Qed.

(** The body of the swap of two double slots. *)
Lemma swap_doubles_body k t i b j c : fpu_available t -> U (DoubleStackSlot i b) -> U (DoubleStackSlot j c) ->
  DoubleStackSlot i b <> DoubleStackSlot j c ->
  acts k k (_ ← LoadDFromOffset FTMP b (ToStackSlotOffset i);
            _ ← LoadDFromOffset t c (ToStackSlotOffset j);
            _ ← StoreDToOffset FTMP c (ToStackSlotOffset j);
            StoreDToOffset t b (ToStackSlotOffset i)) tt
    (effect k [FpuRegisterLocation t] (exchange (DoubleStackSlot i b) (DoubleStackSlot j c))).
Proof using Hbounds HU Hapart Hfregs.
  intros Ht Hs Hd Hne. pose proof Ht as [Ht' Hft].
  destruct (usable_double i b Hs) as (-> & Hf & _). destruct (usable_double j c Hd) as (-> & Hf' & _).
  eapply acts_impl; [|eapply acts_seq; [apply LoadDFromOffset_acts; [done | wside | done]|];
    eapply acts_seq; [by apply LoadDFromOffset_acts|];
    eapply acts_seq; [apply StoreDToOffset_acts; [done | wside | done] | by apply StoreDToOffset_acts]].
  intros st st4 _ (st1 & L1 & st2 & L2 & st3 & S1 & S2).
  apply (effect_exchange _ _ _ _ [FpuRegisterLocation t]); [done | done | auto | done | | |].
  - apply (writes_mono ([] ++ [FpuRegisterLocation t] ++ [DoubleStackSlot j FP] ++ [DoubleStackSlot i FP])).
    { intros x. cbn. rewrite !elem_of_cons. tauto. }
    eapply writes_trans; [by eapply slot_to_ftmp_writes|]. eapply writes_trans; [by eapply slot_to_freg_writes|].
    eapply writes_trans; by eapply freg_to_slot_writes.
  - cbn [view]. unfold slot_address. destruct S2 as [_ ->]. rewrite (only_f _ _ _ _ _ (proj1 S1)) by apply not_elem_of_nil.
    destruct L2 as [_ ->]. f_equal. apply map_eq. intros x. by apply (only_m _ _ _ _ _ (proj1 L1)).
  - change (view st4 (DoubleStackSlot j FP) = view st (DoubleStackSlot i FP)).
    rewrite (writes_view [DoubleStackSlot i FP] st3 st4); [|auto | by eapply freg_to_slot_writes | done | rewrite list_elem_of_singleton; congruence].
    cbn [view]. unfold slot_address. destruct S1 as [_ ->].
    rewrite (only_f _ _ _ _ _ (proj1 L2)) by (rewrite list_elem_of_singleton; congruence). apply L1.
Qed.

Lemma stack_to_freg_view st st' t l : only [SP] [t] [] st st' -> U l -> l <> FpuRegisterLocation t -> view st' l = view st l.
Proof using HU.
  intros Ho Hl Hn. apply (view_untouched _ _ _ _ _ _ Ho). specialize (HU l Hl) as Hu.
  destruct l; cbn [untouched area] in *; try done; [apply not_special; auto|].
  rewrite list_elem_of_singleton. congruence.
Qed.

Lemma swap_doubles moves i b j c : moves_ok moves -> U (DoubleStackSlot i b) -> U (DoubleStackSlot j c) ->
  DoubleStackSlot i b <> DoubleStackSlot j c ->
  exists W, Forall (is_scratch moves) W /\
    acts 0 0 (scratch ← ScratchFpuRegisterScope moves kNoFpuRegister;
              _ ← LoadDFromOffset FTMP b (ToStackSlotOffset i);
              _ ← LoadDFromOffset (fst scratch) c (ToStackSlotOffset j);
              _ ← StoreDToOffset FTMP c (ToStackSlotOffset j);
              _ ← StoreDToOffset (fst scratch) b (ToStackSlotOffset i);
              EndScratchFpuRegisterScope scratch) tt
      (effect 0 W (exchange (DoubleStackSlot i b) (DoubleStackSlot j c))).
Proof using Hbounds HU Hapart Hfregs.
  intros Hm Hs Hd Hne.
  destruct (AllocateScratchRegister_pure moves true (1 << FTMP) FT0 Hm) as (t & spilled & P & Ht & Hmask & Hsc); [done | done |].
  assert (fpu_available t) as Hav.
  { split; [done|]. intros ->. by vm_compute in Hmask. }
  pose proof (fun k => swap_doubles_body k t i b j c Hav Hs Hd Hne) as Hbody.
  set (body := _ ← LoadDFromOffset FTMP b (ToStackSlotOffset i);
            _ ← LoadDFromOffset t c (ToStackSlotOffset j);
            _ ← StoreDToOffset FTMP c (ToStackSlotOffset j);
            StoreDToOffset t b (ToStackSlotOffset i)) in *.
  assert (forall s, ScratchFpuRegisterScope moves kNoFpuRegister s =
    (_ ← (if spilled then SpillFpuScratch t else mret tt); mret (t, spilled)) s) as Halloc.
  { intros s. unfold ScratchFpuRegisterScope, mbind at 1, M_bind at 1.
    change (AllocateScratchRegister moves true _ 0 _ s) with (AllocateScratchRegister moves true (1 << FTMP) 0 31 s).
    by rewrite P. }
  assert (forall E, acts 0 0 (_ ← (if spilled then SpillFpuScratch t else mret tt); _ ← body; EndScratchFpuRegisterScope (t, spilled)) tt E ->
    acts 0 0 (scratch ← ScratchFpuRegisterScope moves kNoFpuRegister;
              _ ← LoadDFromOffset FTMP b (ToStackSlotOffset i);
              _ ← LoadDFromOffset (fst scratch) c (ToStackSlotOffset j);
              _ ← StoreDToOffset FTMP c (ToStackSlotOffset j);
              _ ← StoreDToOffset (fst scratch) b (ToStackSlotOffset i);
              EndScratchFpuRegisterScope scratch) tt E) as Hscope.
  { intros E HE. eapply acts_ext; [|exact HE]. intros s. unfold body, mbind, M_bind. rewrite Halloc.
    unfold mbind, M_bind. destruct ((if spilled then SpillFpuScratch t else mret tt) s) as [[[] s1]|]; [|done]. cbn.
    destruct (LoadDFromOffset _ _ _ s1) as [[[] s3]|]; [|done]. destruct (LoadDFromOffset _ _ _ s3) as [[[] s4]|]; [|done].
    destruct (StoreDToOffset _ _ _ s4) as [[[] s5]|]; [|done]. by destruct (StoreDToOffset _ _ _ s5) as [[[] s6]|]. }
  destruct spilled.
  - exists []. split; [constructor|]. apply Hscope.
    eapply acts_impl; [|eapply acts_seq; [by apply SpillFpuScratch_acts|]; eapply acts_seq; [apply Hbody | by apply RestoreFpuScratch_acts]].
    intros st st3 _ (st1 & [O1 V1] & st2 & [Hv Hs2] & O3 & V3).
    assert (forall l, U l -> view st1 l = view st l) as Eview.
    { intros l Hl. eapply scratch_only_view; [exact O1 | done | lia |]. intros r ->. apply not_special; [exact (HU _ Hl) | auto]. }
    split; [|lia]. intros l Hl _. destruct (decide (l = FpuRegisterLocation t)) as [->|Hlt].
    + cbn [fst] in V3. rewrite exchange_other by (rewrite !not_elem_of_cons; split_and!; [done | done | apply not_elem_of_nil]).
      cbn [view]. rewrite V3, <- V1. apply value_at_same; [done|]. change (sizeof uint64_t) with 8. intros x Hx. apply Hs2. lia.
    + rewrite (stack_to_freg_view st2 st3 t) by done. rewrite Hv by (done || by rewrite list_elem_of_singleton).
      by apply local_exchange.
  - exists [FpuRegisterLocation t]. split; [by constructor; [apply Hsc|]|]. apply Hscope.
    eapply acts_bind; [apply (acts_ret _ _ _ _ _ _ eq); done | |by intros ? ? ? <-].
    eapply acts_bind; [apply Hbody | apply (acts_ret _ _ _ _ _ _ eq); done | by intros ? ? ? ? <-].
Qed.
End Effects.
