(* ===== verification/MoveResolution.v ===== *)
(** * [EmitMove] and [EmitSwap]

    What the two ways of completing a move do to the list of moves and to the values of the
    locations: [EmitMove] eliminates the move and assigns its destination, [EmitSwap]
    eliminates it, exchanges its source and destination and renames the sources of the others.
    Registers that no remaining move reads and some remaining move writes may be used as
    temporaries. *)
From S2P Require Import Prelude Utils Constants EncodingFacts Words CWords Memory Float.
From S2P Require Import SimState SimInteger SimFloat Simulator Exec SimFacts Effects AsmState.
From S2P Require Import MicroAssembler Emission Computes Macros MacroFacts Arithmetic Accesses Offsets.
From S2P Require Import FloatAccesses Programs Stack Frames Locations ParallelMoves MoveCode MoveEffects.

(** Integer locations and floating-point locations. *)
Definition int_location (l : Location) : bool := IsRegister l || IsStackSlot l.
Definition float_location (l : Location) : bool := IsFpuRegister l || IsDoubleStackSlot l.

(** One of the two is a floating-point register and the other a double slot. *)
Definition mixed (a b : Location) : bool :=
  (IsFpuRegister a && IsDoubleStackSlot b) || (IsDoubleStackSlot a && IsFpuRegister b).

Section Resolution.
Context `{Target} `{HostFloat} `{Host} {pool : ObjectPool} (compiler_ : FlowGraphCompiler).
Context (sp fp sb null : Z) (Hbounds : stack_bounds sp sb).

Abbreviation acts := (acts sp fp sb null).
Abbreviation view := (view compiler_ fp null).

Context (U : Location -> Prop).
Context (HU : forall l, U l -> usable compiler_ sp fp sb l).
Context (Hregs : forall r, available r -> U (RegisterLocation r)).
Context (Hfregs : forall r, fpu_available r -> U (FpuRegisterLocation r)).
Context (Hapart : forall l l', U l -> U l' -> l <> l' -> apart fp l l').

Abbreviation effect := (effect compiler_ sp fp null U).

(** A source a destination can be assigned from. *)
Definition source_ok (d s : Location) : Prop :=
  match s with
  | Constant obj p => int_location d = true /\ is_Some (constant_bits null (constant_at compiler_ obj) p)
  | _ => U s /\ int_location d = int_location s
  end.

Lemma Equals_ne a b : a <> b -> Equals a b = false.
Proof. intros Hn. unfold Equals. by apply bool_decide_eq_false. Qed.

Lemma acts_then_ret {A B} k (m : asm A) a (b : B) E : acts k k m a E -> acts k k (_ ← m; mret b) b E.
Proof.
  intros Hm. eapply acts_bind; [exact Hm | apply (acts_ret _ _ _ _ _ _ eq); done |]. by intros ? ? ? ? <-.
Qed.

Lemma single_result moves d (m : asm unit) (b : bool) f : acts 0 0 m tt (effect 0 [] f) ->
  exists (b' : bool) W, Forall (is_scratch moves) W /\ (d ∉ W) /\ acts 0 0 (_ ← m; mret b) b' (effect 0 W f).
Proof. intros Hm. exists b, []. split_and!; [by apply Forall_nil | apply not_elem_of_nil | by eapply acts_then_ret]. Qed.

Lemma slot_not_scratch moves W i b : Forall (is_scratch moves) W -> StackSlot i b ∉ W.
Proof. intros HW Hin%list_elem_of_In. rewrite Forall_forall in HW. by destruct (HW _ Hin). Qed.

Lemma compiler_EmitMove_effect moves d s : moves_ok moves -> U d -> source_ok d s -> d <> s ->
  exists b W, Forall (is_scratch moves) W /\ (d ∉ W) /\
    acts 0 0 (compiler_EmitMove compiler_ moves d s) b (effect 0 W (assign d s)).
Proof using Hbounds HU Hregs Hfregs Hapart.
  intros Hm Hd Hs Hn. pose proof (HU d Hd) as Ud.
  destruct s as [|obj p|q|q|i b|i b|i b|r|r]; try (destruct Hs as [Hs _]; by apply HU in Hs);
    cbn [compiler_EmitMove]; unfold EmitMove_single; rewrite Equals_ne by done.
  - destruct Hs as [Hi [v Hv]]. destruct d as [| | | |j c|j c| |r'|r']; try done.
    + destruct (move_constant_slot compiler_ sp fp sb null Hbounds U HU Hregs Hapart moves
        (constant_at compiler_ obj) p v j c (Constant obj p) Hm Hd Hv) as (W & HW & A).
      * intros st. cbn. by rewrite Hv.
      * intros Hc. by apply HU in Hc.
      * exists true, W. split_and!; [done | by eapply slot_not_scratch |]. eapply acts_ext; [|exact (acts_then_ret 0 _ _ true _ A)].
        intros s'. unfold mbind, M_bind. destruct (AllocateTemporary _ _ _ s') as [[t s1]|]; [|done].
        destruct (EmitMoveToLocation _ _ _ _ s1) as [[[] s2]|]; [|done]. by destruct (ReleaseTemporary t s2) as [[[] s3]|].
    + apply single_result. eapply acts_impl; [|by eapply constant_to_reg].
      intros st st' _ Hc. eapply effect_assign; [done | done | done | by eapply changes_reg_writes |].
      cbn. rewrite Hv. apply Hc.
  - destruct Hs as [Hs Hi]. destruct d as [| | | |j c|j c| |r'|r']; try done.
    + cbn [IsStackSlot]. destruct (move_slot_slot compiler_ sp fp sb null Hbounds U HU Hregs Hapart moves i b j c Hm Hs Hd) as (W & HW & A).
      exists true, W. split_and!; [done | by eapply slot_not_scratch |]. eapply acts_pure; [by apply pure_assert|]. eapply acts_pure; [apply pure_ret|].
      eapply acts_ext; [|exact (acts_then_ret 0 _ _ true _ A)].
      intros s'. unfold mbind, M_bind. destruct (AllocateTemporary _ _ _ s') as [[t s1]|]; [|done].
      destruct (LoadFromOffset _ _ _ _ s1) as [[[] s2]|]; [|done]. destruct (StoreToOffset _ _ _ _ s2) as [[[] s3]|]; [|done].
      by destruct (ReleaseTemporary t s3) as [[[] s4]|].
    + apply single_result. by apply move_slot_reg.
  - destruct Hs as [Hs Hi]. destruct d as [| | | |j c|j c| |r'|r']; try done.
    + cbn [IsDoubleStackSlot orb]. exists false, []. split_and!; [by apply Forall_nil | apply not_elem_of_nil |]. eapply acts_pure; [by apply pure_assert|].
      eapply acts_pure; [apply pure_ret|].
      eapply acts_ext; [|exact (acts_then_ret 0 _ _ false _ (move_double_double compiler_ sp fp sb null Hbounds U HU Hapart 0 i b j c Hs Hd))].
      intros s'. unfold mbind, M_bind. destruct (fld _ _ s') as [[[] s1]|]; [|done]. by destruct (fsd _ _ s1) as [[[] s2]|].
    + apply single_result. by apply move_double_freg.
  - destruct Hs as [Hs Hi]. pose proof (HU _ Hs) as Us. destruct d as [| | | |j c|j c| |r'|r']; try done.
    + cbn [IsStackSlot]. exists false, []. split_and!; [by apply Forall_nil | apply not_elem_of_nil |]. eapply acts_pure; [by apply pure_assert|].
      eapply acts_pure; [apply pure_ret|]. eapply acts_then_ret. by apply move_reg_slot.
    + apply single_result. by apply move_reg_reg.
  - destruct Hs as [Hs Hi]. pose proof (HU _ Hs) as Us. destruct d as [| | | |j c|j c| |r'|r']; try done.
    + apply single_result. by apply move_freg_double.
    + apply single_result. by apply move_freg_freg.
Qed.

(** ** [EmitMove] and [EmitSwap] *)

Lemma usable_not_SP l : U l -> IsSPSlot l = false.
Proof using HU. intros Hl. apply HU in Hl. destruct l; cbn in *; try done; by destruct Hl as [-> _]. Qed.

Lemma slot_allowed_pure i : slot_allowed compiler_ i ->
  pure (v ← VariableIndexForFrameSlot compiler_ i; assert (- v <? StackSize compiler_)) tt.
Proof.
  unfold slot_allowed, VariableIndexForFrameSlot. destruct (i <=? first_local_from_fp compiler_).
  - intros Ha. eapply pure_bind; [apply pure_ret|]. apply pure_assert, Z.ltb_lt. lia.
  - intros [H1' H2']. eapply pure_bind; [eapply pure_bind; [by apply pure_assert, Z.ltb_lt | apply pure_ret]|].
    apply pure_assert, Z.ltb_lt. lia.
Qed.

Lemma EmitMove_acts moves index m : moves !! index = Some m -> moves_ok moves ->
  U (dest_ m) -> source_ok (dest_ m) (src_ m) -> dest_ m <> src_ m ->
  exists W, Forall (is_scratch moves) W /\ (dest_ m ∉ W) /\
    acts 0 0 (EmitMove compiler_ index moves) (<[index := Eliminate m]> moves)
      (effect 0 W (assign (dest_ m) (src_ m))).
Proof using Hbounds HU Hregs Hfregs Hapart.
  intros Hi Hm Hd Hs Hn. destruct (compiler_EmitMove_effect moves (dest_ m) (src_ m) Hm Hd Hs Hn) as (b & W & HW & Hd' & A).
  exists W. split_and!; [done | done |]. unfold EmitMove. eapply acts_pure; [by apply pure_at|].
  eapply (acts_pure _ _ _ _ _ _ _ _ tt).
  - pose proof (HU _ Hd) as Ud. destruct (dest_ m); cbn in Ud; try (by apply pure_ret);
      destruct Ud as (-> & Ud); rewrite Z.eqb_refl; apply slot_allowed_pure; tauto.
  - cbv zeta. eapply acts_bind; [exact A | |].
    + eapply acts_pure; [apply pure_assert; rewrite (usable_not_SP (dest_ m) Hd); by rewrite orb_true_r|].
      eapply acts_pure; [apply pure_assert|].
      * replace (IsSPSlot (src_ m)) with false; [by rewrite orb_true_r|].
        destruct (src_ m) eqn:E; try done; destruct Hs as [Hs _]; by rewrite usable_not_SP.
      * apply (acts_ret _ _ _ _ _ _ eq). done.
    + by intros ? ? ? ? <-.
Qed.

(** The sources after a swap. *)
Definition renamed (s d l : Location) : Location := if decide (l = s) then d else if decide (l = d) then s else l.

Lemma rename_sources_pure s d moves : moves_ok moves -> s <> NoLocation -> d <> NoLocation ->
  pure (rename_sources s d moves) (map (fun m => set_src m (renamed s d (src_ m))) moves).
Proof.
  intros Hm Hs Hd. induction Hm as [|m moves Hm _ IH]; cbn [rename_sources map]; [apply pure_ret|].
  eapply pure_bind; [by apply Blocks_pure|]. unfold renamed at 1. case_bool_decide as E1.
  - rewrite decide_True by done. eapply pure_bind; [apply pure_ret|]. eapply pure_bind; [exact IH | apply pure_ret].
  - rewrite decide_False by done. eapply pure_bind; [eapply pure_bind; [by apply Blocks_pure | apply pure_ret]|].
    eapply pure_bind; [exact IH|]. intros st. unfold mret, M_ret. do 3 f_equal.
    case_bool_decide; [by rewrite decide_True|]. rewrite decide_False by done. by destruct m.
Qed.

Lemma swap_effect moves s d : moves_ok moves -> U s -> U d -> int_location s = int_location d ->
  mixed s d = false -> s <> d ->
  exists W, Forall (is_scratch moves) W /\
    acts 0 0 match s, d with
      | RegisterLocation src, RegisterLocation dst =>
          _ ← assert (negb (src =? TMP));
          _ ← assert (negb (dst =? TMP));
          _ ← mv TMP src;
          _ ← mv src dst;
          mv dst TMP
      | RegisterLocation src, StackSlot i b => Exchange_slot compiler_ moves src b (ToStackSlotOffset i)
      | StackSlot i b, RegisterLocation dst => Exchange_slot compiler_ moves dst b (ToStackSlotOffset i)
      | StackSlot si sb, StackSlot di db =>
          Exchange_slots compiler_ moves sb (ToStackSlotOffset si) db (ToStackSlotOffset di)
      | FpuRegisterLocation src, FpuRegisterLocation dst =>
          _ ← fmvd FTMP src;
          _ ← fmvd src dst;
          fmvd dst FTMP
      | FpuRegisterLocation _, _ | _, FpuRegisterLocation _ => fail Unimplemented
      | DoubleStackSlot si sb, DoubleStackSlot di db =>
          scratch ← ScratchFpuRegisterScope moves kNoFpuRegister;
          _ ← LoadDFromOffset FTMP sb (ToStackSlotOffset si);
          _ ← LoadDFromOffset (fst scratch) db (ToStackSlotOffset di);
          _ ← StoreDToOffset FTMP db (ToStackSlotOffset di);
          _ ← StoreDToOffset (fst scratch) sb (ToStackSlotOffset si);
          EndScratchFpuRegisterScope scratch
      | QuadStackSlot _ _, QuadStackSlot _ _ => fail Unimplemented
      | _, _ => fail Unreachable
      end tt (effect 0 W (exchange s d)).
Proof using Hbounds HU Hregs Hfregs Hapart.
  intros Hm Hs Hd Hc Hx Hn. pose proof (HU s Hs) as Us. pose proof (HU d Hd) as Ud.
  destruct s as [| | | |i b|i b| |r|r]; try done; destruct d as [| | | |i' b'|i' b'| |r'|r']; try done.
  - by apply swap_slots.
  - destruct (swap_reg_slot compiler_ sp fp sb null Hbounds U HU Hregs Hapart moves r' i b Hm Ud Hs) as (W & HW & A).
    exists W. split; [done|]. eapply acts_impl; [|exact A]. intros st st' _. apply effect_exchange_comm.
  - by apply swap_doubles.
  - by apply swap_reg_slot.
  - exists []. split; [by apply Forall_nil|]. cbn in Us, Ud.
    eapply acts_pure; [apply pure_assert, negb_true_iff, Z.eqb_neq, (available_plain r Us)|].
    eapply acts_pure; [apply pure_assert, negb_true_iff, Z.eqb_neq, (available_plain r' Ud)|].
    apply swap_regs; [done.. | congruence].
  - exists []. split; [by apply Forall_nil|]. apply swap_fregs; [done.. | congruence].
Qed.

Lemma EmitSwap_acts moves index m : moves !! index = Some m -> moves_ok moves ->
  U (dest_ m) -> U (src_ m) -> int_location (src_ m) = int_location (dest_ m) ->
  mixed (src_ m) (dest_ m) = false -> src_ m <> dest_ m ->
  exists W, Forall (is_scratch moves) W /\
    acts 0 0 (EmitSwap compiler_ index moves)
      (map (fun m' => set_src m' (renamed (src_ m) (dest_ m) (src_ m'))) (<[index := Eliminate m]> moves))
      (effect 0 W (exchange (src_ m) (dest_ m))).
Proof using Hbounds HU Hregs Hfregs Hapart.
  intros Hi Hm Hd Hs Hc Hx Hn. destruct (swap_effect moves (src_ m) (dest_ m) Hm Hs Hd Hc Hx Hn) as (W & HW & A).
  exists W. split; [done|]. unfold EmitSwap. eapply acts_pure; [by apply pure_at|]. cbv zeta.
  eapply acts_bind; [exact A | |].
  - destruct (acts_ret sp fp sb null 0 (map (fun m' => set_src m' (renamed (src_ m) (dest_ m) (src_ m'))) (<[index := Eliminate m]> moves)) eq)
      as (ops & I & R); [done|]. exists ops. split; [|exact R]. intros s Hf. destruct (I s Hf) as (c & E & Rc). exists c. split; [|done].
    rewrite rename_sources_pure; [done | | |].
    + apply Forall_insert; [done | done].
    + intros E0. rewrite E0 in Hs. by apply HU in Hs.
    + intros E0. rewrite E0 in Hd. by apply HU in Hd.
  - by intros ? ? ? ? <-.
Qed.
End Resolution.
