(* ===== verification/Resolver.v ===== *)
(** * Correctness of the parallel move resolver

    The resolver's invariant.  Moves are numbered; [D i] is the destination of move [i] and
    [V i] the value its source had at the start.  A move is live, pending (its destination is
    cleared while the moves that block it are performed) or eliminated.  The pending moves
    form a stack in which every move but the oldest reads the destination of the one below
    it; so a swap always involves the destination of the move below, which is not done yet,
    and never one that is.  Every move reads, directly or through others, what its destination
    was to be read from at the start ([path]), so the two locations of a swap lie on a cycle of
    the original moves. *)
From S2P Require Import Prelude Utils Constants EncodingFacts Words CWords Memory Float.
From S2P Require Import SimState SimInteger SimFloat Simulator Exec SimFacts Effects AsmState.
From S2P Require Import MicroAssembler Emission Computes Macros MacroFacts Arithmetic Accesses Offsets.
From S2P Require Import FloatAccesses Programs Stack Frames Locations ParallelMoves MoveCode MoveEffects.
From S2P Require Import MoveResolution.

(** ** The list of moves *)

Definition gone : MoveOperands := {| dest_ := NoLocation; src_ := NoLocation |}.

Lemma elem_of_fst {A} (a b : list A) q r : q ∈ a ++ q :: r :: b.
Proof. apply elem_of_app. right. left. Qed.
Lemma elem_of_snd {A} (a b : list A) q r : r ∈ a ++ q :: r :: b.
Proof. apply elem_of_app. right. right. left. Qed.

Section Invariant.
Context (D : nat -> Location) (path source : Location -> Location -> Prop).
Context (path_trans : forall a b c, path a b -> path b c -> path a c).
Context (D_inj : forall i j, D i = D j -> i = j).
Context (D_some : forall i, D i <> NoLocation).
Context (source_some : forall d s, source d s -> s <> NoLocation).

(** The pending moves, the newest first. *)
Implicit Types (moves : list MoveOperands) (pend : list nat).

Definition has_source (j : nat) (m : MoveOperands) : Prop := source (D j) (src_ m) /\ path (D j) (src_ m).
Definition live (j : nat) (m : MoveOperands) : Prop := dest_ m = D j /\ has_source j m /\ src_ m <> D j.

Record wf (moves : list MoveOperands) (pend : list nat) : Prop := {
  wf_nodup : NoDup pend;
  wf_pend : forall j, j ∈ pend -> exists m, moves !! j = Some m /\ dest_ m = NoLocation /\ has_source j m;
  wf_rest : forall j m, moves !! j = Some m -> j ∉ pend -> m = gone \/ live j m;
  wf_chain : forall a q r b m, pend = a ++ q :: r :: b -> moves !! q = Some m -> src_ m = D r
}.

Lemma wf_ok moves pend : wf moves pend -> moves_ok moves.
Proof using source_some.
  intros Hwf. apply Forall_lookup. intros j m Hj E. destruct (decide (j ∈ pend)) as [Hp|Hp].
  - destruct (wf_pend _ _ Hwf j Hp) as (m' & Hj' & Hd & _). congruence.
  - destruct (wf_rest _ _ Hwf j m Hj Hp) as [->|(_ & (Hs & _) & _)]; [done|]. by apply source_some in Hs.
Qed.

Lemma wf_cases moves pend j m : wf moves pend -> moves !! j = Some m -> m = gone \/ has_source j m.
Proof.
  intros Hwf Hj. destruct (decide (j ∈ pend)) as [Hp|Hp].
  - destruct (wf_pend _ _ Hwf j Hp) as (m' & Hj' & _ & Hs). right. congruence.
  - destruct (wf_rest _ _ Hwf j m Hj Hp) as [->|(_ & Hs & _)]; auto.
Qed.

(** What performing moves leaves alone: finished moves stay finished, and no move starts to
    read the destination of a pending one. *)
Record progress (pend : list nat) (moves moves' : list MoveOperands) : Prop := {
  progress_length : length moves' = length moves;
  progress_gone : forall j, moves !! j = Some gone -> moves' !! j = Some gone;
  progress_constant : forall j m, moves !! j = Some m -> IsConstant (src_ m) = true ->
    moves' !! j = Some m \/ moves' !! j = Some gone;
  progress_reads : forall q j m', q ∈ pend -> moves' !! j = Some m' -> dest_ m' <> NoLocation -> src_ m' = D q ->
    exists m, moves !! j = Some m /\ dest_ m <> NoLocation /\ src_ m = D q
}.

Lemma progress_refl pend moves : progress pend moves moves.
Proof. split; eauto. Qed.

Lemma progress_trans pend moves1 moves2 moves3 :
  progress pend moves1 moves2 -> progress pend moves2 moves3 -> progress pend moves1 moves3.
Proof.
  intros P1 P2. split.
  - by rewrite (progress_length _ _ _ P2), (progress_length _ _ _ P1).
  - intros j Hj. by apply (progress_gone _ _ _ P2), (progress_gone _ _ _ P1).
  - intros j m Hj Hc. destruct (progress_constant _ _ _ P1 j m Hj Hc) as [Hj'|Hj'].
    + by apply (progress_constant _ _ _ P2).
    + right. by apply (progress_gone _ _ _ P2).
  - intros q j m3 Hq H3 Hd3 Hs3. destruct (progress_reads _ _ _ P2 q j m3) as (m2 & H2 & Hd2 & Hs2); [done..|].
    by apply (progress_reads _ _ _ P1 q j m2).
Qed.

Lemma progress_weaken pend pend' moves moves' : pend ⊆ pend' -> progress pend' moves moves' -> progress pend moves moves'.
Proof. intros Hs []. split; [done..|]. intros q j m' Hq. eauto. Qed.

(** *** Marking a move *)

(** A move that can be performed: live, and reading the destination of the newest pending move. *)
Definition ready (moves : list MoveOperands) (pend : list nat) (i : nat) (m : MoveOperands) : Prop :=
  moves !! i = Some m /\ (i ∉ pend) /\ live i m /\ (forall p rest, pend = p :: rest -> src_ m = D p).

Definition marked (m : MoveOperands) : MoveOperands := {| dest_ := NoLocation; src_ := src_ m |}.

Lemma wf_mark moves pend i m : wf moves pend -> ready moves pend i m -> wf (<[i := marked m]> moves) (i :: pend).
Proof.
  intros Hwf (Hi & Hn & (Hd & Hs & Hne) & Hc). pose proof (lookup_lt_Some _ _ _ Hi) as Hlt. split.
  - constructor; [done | apply Hwf].
  - intros j [->|Hj]%elem_of_cons.
    + exists (marked m). by rewrite list_lookup_insert_eq.
    + destruct (wf_pend _ _ Hwf j Hj) as (m' & Hj' & Hp). exists m'.
      rewrite list_lookup_insert_ne by congruence. done.
  - intros j m' Hj [Hij Hj']%not_elem_of_cons. rewrite list_lookup_insert_ne in Hj by done.
    by eapply wf_rest.
  - intros a q r b m' E Hq. destruct a as [|a0 a]; injection E as E1 E2.
    + subst q. rewrite list_lookup_insert_eq in Hq by done. injection Hq as <-. eapply Hc. exact E2.
    + destruct (decide (q = i)) as [->|Hqi].
      * destruct Hn. rewrite E2. apply elem_of_fst.
      * rewrite list_lookup_insert_ne in Hq by done. by eapply wf_chain.
Qed.

Lemma progress_mark moves pend i m : moves !! i = Some m -> m <> gone -> IsConstant (src_ m) = false ->
  progress pend moves (<[i := marked m]> moves).
Proof.
  intros Hi Hg Hc. split.
  - apply length_insert.
  - intros j Hj. rewrite list_lookup_insert_ne; congruence.
  - intros j m' Hj Hc'. left. rewrite list_lookup_insert_ne; congruence.
  - intros q j m' _ Hj Hd Hs. destruct (decide (i = j)) as [->|Hij]; [|rewrite list_lookup_insert_ne in Hj by done; eauto].
    rewrite list_lookup_insert_eq in Hj by (by eapply lookup_lt_Some). injection Hj as <-. done.
Qed.

(** *** Completing a move *)

Lemma wf_finish moves pend i : wf moves (i :: pend) -> wf (<[i := gone]> moves) pend.
Proof.
  intros Hwf. pose proof (wf_nodup _ _ Hwf) as [Hn Hnd]%list.NoDup_cons.
  destruct (wf_pend _ _ Hwf i) as (m & Hi & _); [left|]. pose proof (lookup_lt_Some _ _ _ Hi) as Hlt. split.
  - done.
  - intros j Hj. destruct (wf_pend _ _ Hwf j) as (m' & Hj' & Hp); [by right|]. exists m'.
    rewrite list_lookup_insert_ne by congruence. done.
  - intros j m' Hj Hjp. destruct (decide (i = j)) as [->|Hij].
    + rewrite list_lookup_insert_eq in Hj by done. left. congruence.
    + rewrite list_lookup_insert_ne in Hj by done. apply (wf_rest _ _ Hwf j m' Hj). by apply not_elem_of_cons.
  - intros a q r b m' E Hq. rewrite list_lookup_insert_ne in Hq by (intros ->; apply Hn; rewrite E; apply elem_of_fst).
    apply (wf_chain _ _ Hwf (i :: a) q r b m'); [by rewrite E | done].
Qed.

Lemma progress_finish moves pend i m : moves !! i = Some m ->
  progress pend moves (<[i := gone]> moves).
Proof.
  intros Hi. pose proof (lookup_lt_Some _ _ _ Hi). split.
  - apply length_insert.
  - intros j Hj. destruct (decide (i = j)) as [->|]; [by rewrite list_lookup_insert_eq | by rewrite list_lookup_insert_ne].
  - intros j m' Hj Hc'. destruct (decide (i = j)) as [->|].
    + right. by rewrite list_lookup_insert_eq.
    + left. by rewrite list_lookup_insert_ne.
  - intros q j m' _ Hj Hd Hs. destruct (decide (i = j)) as [->|Hij]; [|rewrite list_lookup_insert_ne in Hj by done; eauto].
    rewrite list_lookup_insert_eq in Hj by done. injection Hj as <-. done.
Qed.

Definition restored (i : nat) (m : MoveOperands) : MoveOperands := {| dest_ := D i; src_ := src_ m |}.

Lemma wf_restore moves pend i m : wf moves (i :: pend) -> moves !! i = Some m -> src_ m <> D i ->
  wf (<[i := restored i m]> moves) pend /\ live i (restored i m).
Proof.
  intros Hwf Hi Hne. pose proof (wf_nodup _ _ Hwf) as [Hn Hnd]%list.NoDup_cons.
  destruct (wf_pend _ _ Hwf i) as (m0 & Hi' & _ & Hs); [left|]. rewrite Hi in Hi'. injection Hi' as <-.
  assert (live i (restored i m)) as Hl by by split_and!. split; [|done]. pose proof (lookup_lt_Some _ _ _ Hi) as Hlt. split.
  - done.
  - intros j Hj. destruct (wf_pend _ _ Hwf j) as (m' & Hj' & Hp); [by right|]. exists m'.
    rewrite list_lookup_insert_ne by congruence. done.
  - intros j m' Hj Hjp. destruct (decide (i = j)) as [->|Hij].
    + rewrite list_lookup_insert_eq in Hj by done. right. congruence.
    + rewrite list_lookup_insert_ne in Hj by done. apply (wf_rest _ _ Hwf j m' Hj). by apply not_elem_of_cons.
  - intros a q r b m' E Hq. rewrite list_lookup_insert_ne in Hq by (intros ->; apply Hn; rewrite E; apply elem_of_fst).
    apply (wf_chain _ _ Hwf (i :: a) q r b m'); [by rewrite E | done].
Qed.

(** *** Swapping *)

Definition rename (s d : Location) (m : MoveOperands) : MoveOperands := set_src m (renamed s d (src_ m)).

Context (source_swap : forall i j p, source (D i) (D p) -> source (D j) (D p) <-> source (D j) (D i)).

Lemma renamed_other s d l : l <> s -> l <> d -> renamed s d l = l.
Proof. intros. unfold renamed. by rewrite !decide_False by done. Qed.
Lemma renamed_left s d : renamed s d s = d.
Proof. unfold renamed. by rewrite decide_True. Qed.
Lemma renamed_right s d : renamed s d d = s.
Proof. unfold renamed. by destruct (decide (d = s)); [|rewrite decide_True]. Qed.

Lemma rename_gone i p : rename (D p) (D i) gone = gone.
Proof using D_some. unfold rename, gone. cbn. by rewrite renamed_other by (intros E; symmetry in E; by apply D_some in E). Qed.

Lemma rename_eq_gone i p m : src_ m <> NoLocation -> gone <> rename (D p) (D i) m.
Proof using D_some.
  intros Hm E. apply (f_equal src_) in E. cbn in E. unfold renamed in E.
  repeat case_decide; symmetry in E; [by apply D_some in E.. | done].
Qed.

Lemma has_source_rename i p j m : source (D i) (D p) -> path (D i) (D p) -> path (D p) (D i) ->
  has_source j m -> has_source j (rename (D p) (D i) m).
Proof using source_swap path_trans.
  intros Hsrc Hp Hi [Hs H0]. unfold has_source, rename. cbn [set_src src_].
  destruct (decide (src_ m = D p)) as [E|Ep]; [rewrite E, renamed_left in *|].
  - split; [by apply (source_swap i j p) | by eapply path_trans].
  - destruct (decide (src_ m = D i)) as [E|Ei]; [rewrite E, renamed_right in *|by rewrite renamed_other].
    split; [by apply (source_swap i j p) | by eapply path_trans].
Qed.

(** A pending move reads, through those below it, what they read. *)
Lemma wf_path moves pend q x : wf moves pend -> path (D q) x ->
  forall rest a p, pend = a ++ p :: rest -> q ∈ p :: rest -> path (D p) x.
Proof using path_trans.
  intros Hwf Hq. induction rest as [|r rest IH]; intros a p E [->|Hin]%elem_of_cons; [done| |done|].
  { by apply elem_of_nil in Hin. }
  destruct (wf_pend _ _ Hwf p) as (m & Hm & _ & [_ Hp]); [rewrite E; apply elem_of_fst|].
  rewrite (wf_chain _ _ Hwf a p r rest m E Hm) in Hp. apply (path_trans _ (D r)); [done|].
  apply (IH (a ++ [p]) r); [by rewrite E, <- app_assoc | done].
Qed.

(** The move [i] is finished, [p] is the newest pending move, and only pending moves read the
    destination of [i]. *)
Lemma wf_swap moves p rest i : wf moves (p :: rest) -> moves !! i = Some gone ->
  (forall j m, moves !! j = Some m -> src_ m = D i -> j ∈ p :: rest) ->
  source (D i) (D p) -> path (D i) (D p) -> path (D p) (D i) ->
  wf (map (rename (D p) (D i)) moves) (p :: rest).
Proof using D_inj D_some source_swap source_some path_trans.
  intros Hwf Hi Hb Hsrc Hp0 Hi0.
  assert (i ∉ p :: rest) as Hip.
  { intros Hin. destruct (wf_pend _ _ Hwf i Hin) as (m & Hm & _ & [Hs _]).
    rewrite Hm in Hi. injection Hi as ->. by apply source_some in Hs. }
  split.
  - apply Hwf.
  - intros j Hj. destruct (wf_pend _ _ Hwf j Hj) as (m & Hm & Hd & Hs). exists (rename (D p) (D i) m).
    split_and!; [by rewrite list_lookup_fmap, Hm | done | by apply has_source_rename].
  - intros j m' Hj Hn. rewrite list_lookup_fmap in Hj. apply fmap_Some in Hj as (m & Hj & ->).
    destruct (wf_rest _ _ Hwf j m Hj Hn) as [->|(Hd & Hs & Hne)]; [left; apply rename_gone|]. right.
    split_and!; [done | by apply has_source_rename |]. unfold rename. cbn [set_src src_].
    destruct (decide (src_ m = D p)) as [E|Ep]; [rewrite E, renamed_left|].
    + intros ->%D_inj. rewrite Hi in Hj. injection Hj as <-. symmetry in E; by apply D_some in E.
    + destruct (decide (src_ m = D i)) as [E|Ei]; [by destruct Hn; eapply Hb | by rewrite renamed_other].
  - intros a q r b m' E Hq. rewrite list_lookup_fmap in Hq. apply fmap_Some in Hq as (m & Hq & ->).
    pose proof (wf_chain _ _ Hwf a q r b m E Hq) as Es. unfold rename. cbn [set_src src_]. rewrite Es.
    apply renamed_other; intros ->%D_inj.
    + pose proof (wf_nodup _ _ Hwf) as [Hn _]%list.NoDup_cons. destruct a as [|a0 a]; injection E as -> ->; apply Hn; [left | apply elem_of_snd].
    + apply Hip. rewrite E. apply elem_of_snd.
Qed.

Context (D_constant : forall i, IsConstant (D i) = false).

Lemma progress_swap moves p rest i : wf moves (p :: rest) -> moves !! i = Some gone ->
  (forall j m, moves !! j = Some m -> src_ m = D i -> j ∈ p :: rest) ->
  progress (p :: rest) moves (map (rename (D p) (D i)) moves).
Proof using D_inj D_some D_constant source_some.
  intros Hwf Hi Hb. split.
  - apply length_map.
  - intros j Hj. by rewrite list_lookup_fmap, Hj; cbn; rewrite rename_gone.
  - intros j m Hj Hc. left. rewrite list_lookup_fmap, Hj. cbn. f_equal. unfold rename.
    rewrite renamed_other by (intros E; rewrite E, D_constant in Hc; done). by destruct m.
  - intros q j m' Hq Hj Hd Hs. rewrite list_lookup_fmap in Hj. apply fmap_Some in Hj as (m & Hj & ->).
    exists m. split_and!; [done | done |]. unfold rename in Hs. cbn [set_src src_] in Hs.
    destruct (decide (src_ m = D p)) as [E|Ep]; [rewrite E, renamed_left in Hs|].
    + apply D_inj in Hs as ->. destruct (wf_pend _ _ Hwf q Hq) as (m' & Hm & _ & [Hs' _]).
      rewrite Hm in Hi. injection Hi as ->. by apply source_some in Hs'.
    + destruct (decide (src_ m = D i)) as [E|Ei]; [|by rewrite renamed_other in Hs].
      destruct (wf_pend _ _ Hwf j) as (m'' & Hm & Hd' & _); [by eapply Hb|]. cbn in Hd. congruence.
Qed.
End Invariant.

(** ** The state of the machine *)

Section Perform.
Context `{Target} `{HostFloat} `{Host} {pool : ObjectPool} (compiler_ : FlowGraphCompiler).
Context (sp fp sb null : Z) (Hbounds : stack_bounds sp sb).

Abbreviation acts := (acts sp fp sb null).
Abbreviation view := (view compiler_ fp null).

Context (U : Location -> Prop).
Context (HU : forall l, U l -> usable compiler_ sp fp sb l).
Context (Hregs : forall r, available r -> U (RegisterLocation r)).
Context (Hfregs : forall r, fpu_available r -> U (FpuRegisterLocation r)).
Context (Hapart : forall l l', U l -> U l' -> l <> l' -> apart fp l l').

Abbreviation effect := (effect compiler_ sp fp null U).

Definition source (d s : Location) : Prop := U d /\ source_ok compiler_ null U d s.

Context (D : nat -> Location) (path : Location -> Location -> Prop).
Context (path_trans : forall a b c, path a b -> path b c -> path a c).
Context (D_inj : forall i j, D i = D j -> i = j).
Context (D_some : forall i, D i <> NoLocation).
Context (D_constant : forall i, IsConstant (D i) = false).
Context (D_mixed : forall i j, path (D i) (D j) -> path (D j) (D i) -> mixed (D i) (D j) = false).

Abbreviation wf := (wf D path source).
Abbreviation live := (live D path source).

Lemma source_some d s : source d s -> s <> NoLocation.
Proof using HU. intros [_ Hs] ->. destruct Hs as [Hs _]. by apply HU in Hs. Qed.

Lemma source_U i p : source (D i) (D p) -> U (D i) /\ U (D p) /\ int_location (D i) = int_location (D p).
Proof using D_constant.
  intros [Hd Hs]. pose proof (D_constant p). unfold source_ok in Hs. destruct (D p); try done; tauto.
Qed.

Lemma U_source_ok d s : U d -> U s -> int_location d = int_location s -> source d s.
Proof using HU.
  intros Hd Hs Hi. split; [done|]. pose proof (HU s Hs). destruct s; done.
Qed.

Lemma source_swap i j p : source (D i) (D p) -> source (D j) (D p) <-> source (D j) (D i).
Proof using HU D_constant.
  intros (Ui & Up & E)%source_U. split; intros (Uj & _ & E')%source_U; apply U_source_ok; congruence.
Qed.

(** The moves not done yet read the values of the start, the others have delivered them, and
    what is no destination has the value of the start. *)
Record state_ok (V : nat -> Z) (e0 : env) (moves : list MoveOperands) (e : env) : Prop := {
  state_gone : forall j, moves !! j = Some gone -> U (D j) /\ e (D j) = V j;
  state_source : forall j m, moves !! j = Some m -> m <> gone -> e (src_ m) = V j;
  state_other : forall l, U l -> (forall j, l <> D j) -> e l = e0 l
}.

Definition keeps (moves moves' : list MoveOperands) (st st' : Simulator) : Prop :=
  forall V e0, state_ok V e0 moves (view st) -> state_ok V e0 moves' (view st').

Lemma keeps_trans m1 m2 m3 st1 st2 st3 : keeps m1 m2 st1 st2 -> keeps m2 m3 st2 st3 -> keeps m1 m3 st1 st3.
Proof. intros K1 K2 V e0 Hs. by apply K2, K1. Qed.

(** A register used as a temporary is read by no move, and only live moves write it. *)
Lemma scratch_source moves W j m : Forall (is_scratch moves) W -> moves !! j = Some m -> src_ m ∉ W.
Proof.
  intros HW Hj Hin%list_elem_of_In. rewrite Forall_forall in HW. destruct (HW _ Hin) as (_ & Hs & _).
  rewrite Forall_lookup in Hs. by apply (Hs j m Hj).
Qed.

Lemma scratch_dest moves pend W l : wf moves pend -> Forall (is_scratch moves) W -> l ∈ W ->
  exists j m, moves !! j = Some m /\ live j m /\ l = D j.
Proof.
  intros Hwf HW Hin%list_elem_of_In. rewrite Forall_forall in HW. destruct (HW _ Hin) as (Hr & _ & Hd).
  apply list.Exists_exists in Hd as (m & Hm & El). apply list_elem_of_lookup in Hm as [j Hj].
  exists j, m. destruct (decide (j ∈ pend)) as [Hp|Hp].
  - destruct (wf_pend _ _ _ _ _ Hwf j Hp) as (m' & Hj' & Hd & _). rewrite Hj in Hj'. injection Hj' as <-.
    rewrite <- El, Hd in Hr. done.
  - destruct (wf_rest _ _ _ _ _ Hwf j m Hj Hp) as [->|Hl]; [by subst l | split_and!; [done | done |]].
    rewrite <- El. apply Hl.
Qed.

Lemma gone_not_live j : ~ live j gone.
Proof using D_some. intros [Hd _]. symmetry in Hd. by apply D_some in Hd. Qed.

Lemma scratch_gone moves pend W j : wf moves pend -> Forall (is_scratch moves) W -> moves !! j = Some gone -> D j ∉ W.
Proof using D_inj D_some.
  intros Hwf HW Hj Hin. destruct (scratch_dest _ _ _ _ Hwf HW Hin) as (j' & m & Hj' & Hl & ->%D_inj).
  rewrite Hj in Hj'. injection Hj' as <-. by apply gone_not_live in Hl.
Qed.

Lemma scratch_other moves pend W l : wf moves pend -> Forall (is_scratch moves) W -> (forall j, l <> D j) -> l ∉ W.
Proof.
  intros Hwf HW Hl Hin. destruct (scratch_dest _ _ _ _ Hwf HW Hin) as (j & m & _ & _ & E). by apply Hl in E.
Qed.

(** The value of a source, a constant or a location no one writes. *)
Lemma view_source f W st st' d s : effect 0 W f st st' -> source d s -> s ∉ W ->
  (U s -> f (view st) s = view st s) -> view st' s = view st s.
Proof.
  intros He [_ Hs] Hw Hf. destruct s; try done; destruct Hs as [Hs _]; by rewrite (effect_view _ _ _ _ _ _ _ _ _ _ He), Hf.
Qed.

Lemma state_assign moves pend i m W st st' : wf moves pend -> moves !! i = Some m -> live i m ->
  (forall j m', moves !! j = Some m' -> src_ m' <> D i) -> Forall (is_scratch moves) W -> D i ∉ W ->
  effect 0 W (assign (D i) (src_ m)) st st' -> keeps moves (<[i := gone]> moves) st st'.
Proof using D_inj D_some.
  intros Hwf Hi Hl Hb HW Hiw He V e0 [Sg Ss So]. pose proof (lookup_lt_Some _ _ _ Hi) as Hlt.
  assert (U (D i)) as Ui by apply Hl. assert (m <> gone) as Hg by (intros ->; by apply gone_not_live in Hl).
  assert (forall l, U l -> l ∉ W -> l <> D i -> view st' l = view st l) as Hv.
  { intros l Hu Hw Hn. rewrite (effect_view _ _ _ _ _ _ _ _ _ _ He) by done. unfold assign. by rewrite decide_False. }
  split.
  - intros j Hj. destruct (decide (i = j)) as [<-|Hn].
    + split; [done|]. rewrite (effect_view _ _ _ _ _ _ _ _ _ _ He) by done. unfold assign.
      rewrite decide_True by done. by apply Ss.
    + rewrite list_lookup_insert_ne in Hj by done. destruct (Sg j Hj) as [Uj Ej]. split; [done|].
      rewrite Hv; [done | done | by eapply scratch_gone | by intros ->%D_inj].
  - intros j m' Hj Hg'. destruct (decide (i = j)) as [<-|Hn]; [rewrite list_lookup_insert_eq in Hj by done; congruence|].
    rewrite list_lookup_insert_ne in Hj by done. rewrite <- (Ss j m' Hj Hg').
    destruct (wf_cases _ _ _ _ _ _ _ Hwf Hj) as [->|[Hsrc _]]; [done|].
    eapply view_source; [exact He | exact Hsrc | by eapply scratch_source |].
    intros _. unfold assign. rewrite decide_False; [done | by eapply Hb].
  - intros l Hu Hl'. rewrite <- So by done. apply Hv; [done | by eapply scratch_other | done].
Qed.

Lemma state_swap moves p rest i m q mq W st st' : wf moves (p :: rest) -> moves !! i = Some m -> live i m ->
  src_ m = D p -> moves !! q = Some mq -> src_ mq = D i -> Forall (is_scratch moves) W ->
  effect 0 W (exchange (D p) (D i)) st st' ->
  keeps moves (map (rename (D p) (D i)) (<[i := gone]> moves)) st st'.
Proof using D_inj D_some D_constant HU.
  intros Hwf Hi Hl Es Hq Eq HW He V e0 [Sg Ss So]. pose proof (lookup_lt_Some _ _ _ Hi) as Hlt.
  assert (m <> gone) as Hg by (intros ->; by apply gone_not_live in Hl).
  destruct (source_U i p) as (Ui & Up & _); [rewrite <- Es; apply Hl|].
  assert (D p ∉ W) as Hpw by (rewrite <- Es; by eapply scratch_source).
  assert (D i ∉ W) as Hiw by (rewrite <- Eq; by eapply scratch_source).
  assert (view st' (D i) = view st (D p)) as Ei.
  { rewrite (effect_view _ _ _ _ _ _ _ _ _ _ He) by done. unfold exchange.
    destruct (decide (D i = D p)) as [E|]; [by rewrite E | by rewrite decide_True]. }
  assert (view st' (D p) = view st (D i)) as Ep.
  { rewrite (effect_view _ _ _ _ _ _ _ _ _ _ He) by done. unfold exchange. by rewrite decide_True. }
  assert (forall l, exchange (D p) (D i) (view st) l = view st l \/ l = D p \/ l = D i) as Hx.
  { intros l. unfold exchange. destruct (decide (l = D p)); [auto|]. destruct (decide (l = D i)); auto. }
  assert (forall l, U l -> l ∉ W -> l <> D i -> l <> D p -> view st' l = view st l) as Hv.
  { intros l Hu Hw Hn1 Hn2. rewrite (effect_view _ _ _ _ _ _ _ _ _ _ He) by done. destruct (Hx l) as [|[|]]; done. }
  assert (exists mp, moves !! p = Some mp /\ mp <> gone) as (mp & Hp & Hpg).
  { destruct (wf_pend _ _ _ _ _ Hwf p) as (mp & Hp & _ & [Hs _]); [left|]. exists mp. split; [done|].
    intros ->. by apply source_some in Hs. }
  split.
  - intros j Hj. rewrite list_lookup_fmap in Hj. apply fmap_Some in Hj as (m' & Hj & E').
    destruct (decide (i = j)) as [<-|Hn]; [split; [done|]; rewrite Ei, <- Es; by apply Ss|].
    rewrite list_lookup_insert_ne in Hj by done.
    assert (m' = gone) as ->.
    { destruct (wf_cases _ _ _ _ _ _ _ Hwf Hj) as [|[Hs _]]; [done|]. apply source_some in Hs.
      by apply (rename_eq_gone D D_some i p) in Hs. }
    destruct (Sg j Hj) as [Uj Ej]. split; [done|].
    rewrite Hv; [done | done | by eapply scratch_gone | by intros ->%D_inj | intros ->%D_inj; congruence].
  - intros j m' Hj Hg'. rewrite list_lookup_fmap in Hj. apply fmap_Some in Hj as (m'' & Hj & ->).
    destruct (decide (i = j)) as [<-|Hn].
    { rewrite list_lookup_insert_eq in Hj by done. injection Hj as <-. by rewrite rename_gone in Hg'. }
    rewrite list_lookup_insert_ne in Hj by done.
    destruct (wf_cases _ _ _ _ _ _ _ Hwf Hj) as [->|[Hsrc _]]; [by rewrite rename_gone in Hg'|].
    rewrite <- (Ss j m'' Hj) by (intros ->; by apply source_some in Hsrc). unfold rename. cbn [set_src src_].
    destruct (decide (src_ m'' = D p)) as [E|Ep']; [by rewrite E, renamed_left|].
    destruct (decide (src_ m'' = D i)) as [E|Ei']; [by rewrite E, renamed_right|]. rewrite renamed_other by done.
    eapply view_source; [exact He | exact Hsrc | by eapply scratch_source |].
    intros _. destruct (Hx (src_ m'')) as [|[|]]; done.
  - intros l Hu Hl'. rewrite <- So by done. apply Hv; [done | by eapply scratch_other | done | done].
Qed.

Lemma state_insert moves i m m' st : moves !! i = Some m -> m <> gone -> m' <> gone -> src_ m' = src_ m ->
  keeps moves (<[i := m']> moves) st st.
Proof.
  intros Hi Hg Hg' Es V e0 [Sg Ss So]. pose proof (lookup_lt_Some _ _ _ Hi) as Hlt. split; [| |done].
  - intros j Hj. destruct (decide (i = j)) as [<-|Hn]; [rewrite list_lookup_insert_eq in Hj by done; congruence|].
    rewrite list_lookup_insert_ne in Hj by done. by apply Sg.
  - intros j m0 Hj Hg0. destruct (decide (i = j)) as [<-|Hn].
    + rewrite list_lookup_insert_eq in Hj by done. injection Hj as <-. rewrite Es. by apply Ss.
    + rewrite list_lookup_insert_ne in Hj by done. by apply Ss.
Qed.

(** A move whose source has become its destination is done. *)
Lemma state_drop moves i m st : moves !! i = Some m -> m <> gone -> U (D i) -> src_ m = D i ->
  keeps moves (<[i := gone]> moves) st st.
Proof.
  intros Hi Hg Ui Es V e0 [Sg Ss So]. pose proof (lookup_lt_Some _ _ _ Hi) as Hlt. split; [| |done].
  - intros j Hj. destruct (decide (i = j)) as [<-|Hn].
    + split; [done|]. rewrite <- Es. by apply Ss.
    + rewrite list_lookup_insert_ne in Hj by done. by apply Sg.
  - intros j m0 Hj Hg0. destruct (decide (i = j)) as [<-|Hn].
    + rewrite list_lookup_insert_eq in Hj by done. congruence.
    + rewrite list_lookup_insert_ne in Hj by done. by apply Ss.
Qed.

(** ** Performing a move *)

Abbreviation progress := (progress D).

Definition performed (pend : list nat) (i : nat) (moves : list MoveOperands) (c : asm (list MoveOperands)) : Prop :=
  exists moves', wf moves' pend /\ progress pend moves moves' /\ moves' !! i = Some gone /\
    acts 0 0 c moves' (keeps moves moves').

Definition complete (i : nat) (destination : Location) (moves : list MoveOperands) : asm (list MoveOperands) :=
  move ← at_index moves i;
  move ← ClearPending move destination;
  let moves := <[i := move]> moves in
  if Equals (src_ move) destination then mret (<[i := Eliminate move]> moves)
  else
    blocking ← find_move moves (fun m => Blocks m destination);
    match blocking with
    | Some other_move =>
        p ← IsPending other_move; _ ← assert p;
        EmitSwap compiler_ i moves
    | None => EmitMove compiler_ i moves
    end.

Lemma pending_clear i m : dest_ m = NoLocation -> has_source D path source i m -> pure (ClearPending m (D i)) (restored D i m).
Proof using HU.
  intros Hd [Hs _]. apply source_some in Hs. eapply pure_bind; [apply IsPending_pure; by intros ?|].
  rewrite bool_decide_eq_true_2 by done. eapply pure_bind; [by apply pure_assert | apply pure_ret].
Qed.

Section Complete.
Context (i : nat) (pend : list nat) (moves : list MoveOperands) (m : MoveOperands).
Context (Hwf : wf moves (i :: pend)) (Hi : moves !! i = Some m).
(** The loop has performed all live moves that block [i]. *)
Context (Hlive : forall j m', moves !! j = Some m' -> dest_ m' <> NoLocation -> src_ m' <> D i).

Lemma current_pending : dest_ m = NoLocation /\ has_source D path source i m.
Proof using Hwf Hi.
  destruct (wf_pend _ _ _ _ _ Hwf i) as (m' & Hm' & Hp); [left|]. rewrite Hi in Hm'. by injection Hm' as <-.
Qed.

Lemma current_not_gone : m <> gone.
Proof using Hwf Hi HU.
  intros Em. destruct current_pending as [_ [Hs _]]. rewrite Em in Hs. by apply source_some in Hs.
Qed.

Lemma blockers_pending j m' : <[i := gone]> moves !! j = Some m' -> src_ m' = D i -> j ∈ pend.
Proof using Hwf Hi Hlive D_some.
  intros Hj Es. pose proof (lookup_lt_Some _ _ _ Hi).
  destruct (decide (i = j)) as [->|Hn].
  { rewrite list_lookup_insert_eq in Hj by done. injection Hj as <-. symmetry in Es. by apply D_some in Es. }
  rewrite list_lookup_insert_ne in Hj by done. destruct (decide (j ∈ pend)) as [|Hp]; [done|].
  destruct (wf_rest _ _ _ _ _ Hwf j m' Hj) as [->|[Hd _]]; [by apply not_elem_of_cons | |].
  - symmetry in Es. by apply D_some in Es.
  - destruct (Hlive j m' Hj); [by rewrite Hd | done].
Qed.

Lemma complete_drop : src_ m = D i ->
  performed pend i moves (mret (<[i := gone]> (<[i := restored D i m]> moves))).
Proof using Hwf Hi HU.
  intros Es. exists (<[i := gone]> moves). destruct current_pending as [_ [[Ui _] _]].
  split_and!; [by apply wf_finish | by eapply progress_finish | apply list_lookup_insert_eq; by eapply lookup_lt_Some |].
  rewrite list_insert_insert_eq. apply acts_ret. intros st. eapply state_drop; [exact Hi | exact current_not_gone | done | done].
Qed.

Lemma complete_move : src_ m <> D i -> Forall (fun m' => src_ m' <> D i) moves ->
  performed pend i moves (EmitMove compiler_ i (<[i := restored D i m]> moves)).
Proof using Hwf Hi HU Hbounds Hregs Hfregs Hapart D_inj D_some.
  intros Hne Hb. destruct current_pending as [_ [[Ui Hs] H0']]. set (moves1 := <[i := restored D i m]> moves).
  destruct (wf_restore _ _ _ _ _ _ _ Hwf Hi Hne) as [Hwf1 Hl]. fold moves1 in Hwf1.
  assert (moves1 !! i = Some (restored D i m)) as Hi1 by (apply list_lookup_insert_eq; by eapply lookup_lt_Some).
  destruct (EmitMove_acts compiler_ sp fp sb null Hbounds U HU Hregs Hfregs Hapart moves1 i (restored D i m) Hi1)
    as (W & HW & Hd & A); [by eapply wf_ok; [exact source_some|] | done | done | by intros ? |].
  exists (<[i := gone]> moves).
  split_and!; [by apply wf_finish | by eapply progress_finish | apply list_lookup_insert_eq; by eapply lookup_lt_Some |].
  change (Eliminate (restored D i m)) with gone in A. unfold moves1 in A at 2. rewrite list_insert_insert_eq in A.
  eapply acts_impl; [|exact A]. intros st st' _ He. eapply keeps_trans.
  - eapply (state_insert _ i m (restored D i m)); [exact Hi | exact current_not_gone | | done].
    intros E. apply (f_equal dest_) in E. by apply D_some in E.
  - replace (<[i := gone]> moves) with (<[i := gone]> moves1) by apply list_insert_insert_eq.
    eapply state_assign; [exact Hwf1 | exact Hi1 | done | | exact HW | done | done].
    intros j m' Hj. unfold moves1 in Hj. destruct (decide (i = j)) as [<-|Hn].
    + rewrite list_lookup_insert_eq in Hj by (by eapply lookup_lt_Some). by injection Hj as <-.
    + rewrite list_lookup_insert_ne in Hj by done. rewrite Forall_lookup in Hb. by eapply Hb.
Qed.

Lemma complete_swap q mq : src_ m <> D i -> moves !! q = Some mq -> src_ mq = D i ->
  q ∈ pend /\ performed pend i moves (EmitSwap compiler_ i (<[i := restored D i m]> moves)).
Proof using Hwf Hi Hlive HU Hbounds Hregs Hfregs Hapart D_inj D_some D_constant D_mixed path_trans.
  intros Hne Hq Eq. destruct current_pending as [_ [Hs H0']]. set (moves1 := <[i := restored D i m]> moves).
  assert (i <> q) as Hiq by congruence. pose proof (lookup_lt_Some _ _ _ Hi) as Hlt.
  assert (q ∈ pend) as Hqp by (eapply blockers_pending; [|exact Eq]; by rewrite list_lookup_insert_ne).
  pose proof blockers_pending as Hb. split; [done|]. destruct pend as [|p rest]; [by apply elem_of_nil in Hqp|].
  pose proof (wf_chain _ _ _ _ _ Hwf [] i p rest m eq_refl Hi) as Es. rewrite Es in Hs, H0', Hne.
  destruct (wf_restore _ _ _ _ _ _ _ Hwf Hi ltac:(by rewrite Es)) as [Hwf1 Hl]. fold moves1 in Hwf1.
  assert (moves1 !! i = Some (restored D i m)) as Hi1 by by apply list_lookup_insert_eq.
  destruct (source_U i p Hs) as (Ui & Up & Ec).
  assert (path (D p) (D i)) as Hi0.
  { assert (path (D q) (D i)) as Hqi.
    { rewrite <- Eq. destruct (wf_cases _ _ _ _ _ _ _ Hwf Hq) as [->|[_ ?]]; [|done]. symmetry in Eq. by apply D_some in Eq. }
    by eapply (wf_path D path source path_trans moves (i :: p :: rest) q _ Hwf Hqi rest [i] p). }
  destruct (EmitSwap_acts compiler_ sp fp sb null Hbounds U HU Hregs Hfregs Hapart moves1 i (restored D i m) Hi1)
    as (W & HW & A); cbn [restored dest_ src_] in *; rewrite ?Es in *;
    [by eapply wf_ok; [exact source_some|] | done | done | done | by apply D_mixed | done |].
  unfold moves1 in A at 2. change (Eliminate (restored D i m)) with gone in A. rewrite list_insert_insert_eq in A.
  change (fun m' => set_src m' (renamed (D p) (D i) (src_ m'))) with (rename (D p) (D i)) in A.
  pose proof (wf_finish _ _ _ _ _ _ Hwf) as Hwf2.
  assert (<[i := gone]> moves !! i = Some gone) as Hi2 by by apply list_lookup_insert_eq.
  exists (map (rename (D p) (D i)) (<[i := gone]> moves)). split_and!.
  - eapply wf_swap; [exact path_trans | done | done | exact source_some | | done | done | exact Hb | done | done | done].
    intros; by apply source_swap.
  - eapply progress_trans; [by eapply (progress_finish _ _ _ i m)|]. eapply progress_swap; [done | done | exact source_some | done | exact Hwf2 | done | done].
  - rewrite list_lookup_fmap, Hi2. cbn. by rewrite rename_gone.
  - eapply acts_impl; [|exact A]. intros st st' _ He. eapply keeps_trans.
    + eapply (state_insert _ i m (restored D i m)); [exact Hi | | | done].
      * intros ->. symmetry in Es. by apply D_some in Es.
      * intros E. apply (f_equal dest_) in E. by apply D_some in E.
    + replace (<[i := gone]> moves) with (<[i := gone]> moves1) by apply list_insert_insert_eq.
      eapply (state_swap moves1 p rest i (restored D i m) q mq); [done | done | done | done | | done | done | done].
      unfold moves1. by rewrite list_lookup_insert_ne.
Qed.

Lemma complete_acts : performed pend i moves (complete i (D i) moves).
Proof using Hwf Hi Hlive HU Hbounds Hregs Hfregs Hapart D_inj D_some D_constant D_mixed path_trans.
  destruct current_pending as [Hd Hs].
  assert (forall c c', (forall s, c' s = c s) -> performed pend i moves c -> performed pend i moves c') as Hext.
  { intros c c' Hc (mv & ? & ? & ? & A). exists mv. split_and!; [done..|]. by eapply acts_ext. }
  eapply Hext; [intros s; unfold complete, mbind, M_bind; rewrite (pure_at moves i m Hi);
    rewrite (pending_clear i m Hd Hs); cbv zeta; reflexivity|]. cbn [restored src_].
  destruct (decide (src_ m = D i)) as [Es|Hne]; [rewrite (proj2 (Equals_true _ _) Es); by apply complete_drop|].
  rewrite Equals_ne by done. destruct (wf_restore _ _ _ _ _ _ _ Hwf Hi Hne) as [Hwf1 Hl].
  pose proof (find_move_pure (<[i := restored D i m]> moves) (fun m' => Blocks m' (D i)) (fun m' => bool_decide (src_ m' = D i))) as P.
  pose proof (wf_ok _ _ _ source_some _ _ Hwf1) as Hok. rewrite Forall_forall in Hok.
  specialize (P ltac:(intros m' Hm'%list_elem_of_In; apply Blocks_pure; auto)).
  destruct (List.find _ _) as [other|] eqn:Ef.
  - apply find_some in Ef as [Hin Eo]. apply bool_decide_eq_true in Eo. apply list_elem_of_lookup in Hin as Hq.
    destruct Hq as [q Hq]. assert (i <> q) as Hiq.
    { intros <-. rewrite list_lookup_insert_eq in Hq by (by eapply lookup_lt_Some). by injection Hq as <-. }
    rewrite list_lookup_insert_ne in Hq by done. destruct (complete_swap q other Hne Hq Eo) as [Hqp Hp].
    eapply Hext; [|exact Hp]. intros s. rewrite (P s). rewrite IsPending_pure by (apply Hok; by apply list_elem_of_In).
    destruct (wf_pend _ _ _ _ _ Hwf q) as (m' & Hq' & Hdq & _); [by right|]. rewrite Hq in Hq'. injection Hq' as <-.
    rewrite bool_decide_eq_true_2; [by rewrite (pure_assert true eq_refl s)|]. split; [done|]. rewrite Eo. apply D_some.
  - apply find_none in Ef. eapply Hext; [intros s; rewrite (P s); reflexivity|]. apply complete_move; [done|].
    rewrite Forall_lookup. intros j m' Hj Ej. destruct (decide (i = j)) as [<-|Hn]; [congruence|].
    rewrite Forall_lookup in Ef. specialize (Ef j m'). rewrite list_lookup_insert_ne in Ef by done.
    specialize (Ef Hj). by apply bool_decide_eq_false in Ef.
Qed.
End Complete.

(** A loop that keeps the invariant. *)
Lemma for_each_acts (I : nat -> list MoveOperands -> Prop) body a len moves : I a moves ->
  (forall t moves, (a <= t < a + len)%nat -> I t moves ->
    exists moves', I (S t) moves' /\ acts 0 0 (body t moves) moves' (keeps moves moves')) ->
  exists moves', I (a + len)%nat moves' /\ acts 0 0 (for_each (seq a len) body moves) moves' (keeps moves moves').
Proof.
  revert a moves. induction len as [|len IH]; intros a moves Ha Hb; cbn [seq for_each].
  - exists moves. rewrite Nat.add_0_r. split; [done|]. apply acts_ret. by intros st V e0.
  - destruct (Hb a moves) as (moves1 & H1' & A1); [lia | done |].
    destruct (IH (S a) moves1 H1') as (moves2 & H2' & A2); [intros t mv Ht; apply Hb; lia|].
    exists moves2. rewrite Nat.add_succ_r. split; [done|].
    eapply acts_bind; [exact A1 | exact A2 |]. intros st1 st2 st3. apply keeps_trans.
Qed.

Lemma wf_depth moves pend : wf moves pend -> (length pend <= length moves)%nat.
Proof.
  intros Hwf. rewrite <- (length_seq (length moves) 0). apply submseteq_length, NoDup_submseteq; [apply Hwf|].
  intros j Hj. destruct (wf_pend _ _ _ _ _ Hwf j Hj) as (m & Hm & _). apply lookup_lt_Some in Hm.
  apply elem_of_seq. lia.
Qed.

Lemma PerformMove_unfold fuel i moves s m : moves !! i = Some m -> live i m ->
  PerformMove compiler_ (S fuel) i moves s =
  (moves ← for_each (seq 0 (length moves)) (fun t moves =>
        other_move ← at_index moves t;
        b ← Blocks other_move (D i);
        if b : bool then
          p ← IsPending other_move;
          if p : bool then mret moves else PerformMove compiler_ fuel t moves
        else mret moves) (<[i := marked m]> moves);
   complete i (D i) moves) s.
Proof using HU D_some.
  intros Hi (Hd & [Hs _] & Hne). apply source_some in Hs. pose proof (D_some i) as Hsome.
  assert (move_ok m) as Hok by by intros ?. cbn [PerformMove].
  assert (forall A B (c : asm A) (f : A -> asm B) a s, pure c a -> (c ≫= f) s = f a s) as Hb.
  { intros A B c f a s' P. unfold mbind, M_bind. by rewrite P. }
  rewrite (Hb _ _ _ _ _ _ (pure_at moves i m Hi)), (Hb _ _ _ _ _ _ (IsPending_pure m Hok)).
  rewrite bool_decide_eq_false_2 by (rewrite Hd; tauto). rewrite (Hb _ _ _ _ tt) by by apply pure_assert.
  rewrite (Hb _ _ _ _ _ _ (IsRedundant_pure m Hok)). rewrite bool_decide_eq_false_2 by (rewrite Hd; tauto).
  rewrite (Hb _ _ _ _ tt) by by apply pure_assert.
  rewrite (Hb _ _ _ _ tt) by (apply pure_assert; by apply negb_true_iff, IsInvalid_false).
  rewrite (Hb _ _ _ _ (D i, marked m)).
  - reflexivity.
  - eapply pure_bind; [by apply IsPending_pure|]. rewrite bool_decide_eq_false_2 by (rewrite Hd; tauto).
    eapply pure_bind; [by apply pure_assert|]. rewrite Hd. apply pure_ret.
Qed.

(** The loop of [PerformMove] after [t] rounds. *)
Definition loop_ok (i : nat) (pend : list nat) (moves1 : list MoveOperands) (t : nat) (mv : list MoveOperands) : Prop :=
  wf mv (i :: pend) /\ progress (i :: pend) moves1 mv /\
  forall j m', (j < t)%nat -> mv !! j = Some m' -> dest_ m' <> NoLocation -> src_ m' <> D i.

Lemma loop_skip i pend moves1 t mv m : loop_ok i pend moves1 t mv -> mv !! t = Some m ->
  dest_ m = NoLocation \/ src_ m <> D i -> loop_ok i pend moves1 (S t) mv.
Proof.
  intros (Hwf & P & Hv) Ht Hc. split_and!; [done | done |]. intros j m' Hj Hm Hd.
  destruct (decide (j = t)) as [->|]; [destruct Hc; congruence | apply (Hv j m'); [lia | done | done]].
Qed.

Lemma loop_step fuel i pend moves1 t mv : (t < length moves1)%nat -> loop_ok i pend moves1 t mv ->
  (forall m, ready D path source mv (i :: pend) t m -> IsConstant (src_ m) = false ->
     performed (i :: pend) t mv (PerformMove compiler_ fuel t mv)) ->
  exists mv', loop_ok i pend moves1 (S t) mv' /\
    acts 0 0 (other_move ← at_index mv t; b ← Blocks other_move (D i);
      if b : bool then p ← IsPending other_move; if p : bool then mret mv else PerformMove compiler_ fuel t mv
      else mret mv) mv' (keeps mv mv').
Proof using HU D_some D_constant.
  intros Ht Hok IH. pose proof Hok as (Hwf & P & Hv). rewrite <- (progress_length _ _ _ _ P) in Ht.
  apply lookup_lt_is_Some in Ht as [m Hm]. pose proof (wf_ok _ _ _ source_some _ _ Hwf) as Hmok.
  rewrite Forall_lookup in Hmok. specialize (Hmok t m Hm).
  assert (acts 0 0 (mret mv) mv (keeps mv mv)) as Aret by (apply acts_ret; by intros st V e0).
  assert (forall mv' c, acts 0 0 c mv' (keeps mv mv') -> forall c', (forall s, c' s = c s) -> acts 0 0 c' mv' (keeps mv mv')) as Hext.
  { intros mv' c A c' E. by eapply acts_ext. }
  destruct (decide (src_ m = D i)) as [Es|Hne].
  - destruct (decide (t ∈ i :: pend)) as [Hp|Hp].
    + destruct (wf_pend _ _ _ _ _ Hwf t Hp) as (m' & Hm' & Hd & _). rewrite Hm in Hm'. injection Hm' as <-.
      exists mv. split; [eapply loop_skip; [exact Hok | exact Hm | by left]|]. eapply acts_pure; [by apply pure_at|].
      eapply acts_pure; [by apply Blocks_pure|]. rewrite bool_decide_eq_true_2 by done.
      eapply acts_pure; [by apply IsPending_pure|]. rewrite bool_decide_eq_true_2; [done|]. split; [done|].
      rewrite Es. apply D_some.
    + destruct (wf_rest _ _ _ _ _ Hwf t m Hm Hp) as [->|Hl]; [symmetry in Es; by apply D_some in Es|].
      destruct (IH m) as (mv' & Hwf' & P' & Hg & A).
      { split_and!; [done | done | done |]. intros p rest E. by injection E as <- _. }
      { rewrite Es. apply D_constant. }
      exists mv'. split.
      * split_and!; [done | by eapply progress_trans |]. intros j m' Hj Hm' Hd E.
        destruct (progress_reads _ _ _ _ P' i j m') as (mj & Hmj & Hdj & Ej); [left | done.. |].
        destruct (decide (j = t)) as [->|]; [rewrite Hg in Hm'; by injection Hm' as <-|]. eapply (Hv j mj); [lia | done..].
      * eapply acts_pure; [by apply pure_at|]. eapply acts_pure; [by apply Blocks_pure|].
        rewrite bool_decide_eq_true_2 by done. eapply acts_pure; [by apply IsPending_pure|].
        rewrite bool_decide_eq_false_2; [done|]. intros [Hd _]. destruct Hl as [Hl _]. rewrite Hd in Hl. symmetry in Hl. by apply D_some in Hl.
  - exists mv. split; [eapply loop_skip; [exact Hok | exact Hm | by right]|]. eapply acts_pure; [by apply pure_at|].
    eapply acts_pure; [by apply Blocks_pure|]. by rewrite bool_decide_eq_false_2.
Qed.

Lemma PerformMove_acts fuel : forall i pend moves m, wf moves pend -> ready D path source moves pend i m ->
  IsConstant (src_ m) = false -> (length moves <= fuel + length pend)%nat ->
  performed pend i moves (PerformMove compiler_ fuel i moves).
Proof using HU Hbounds Hregs Hfregs Hapart D_inj D_some D_constant D_mixed path_trans.
  induction fuel as [|fuel IH]; intros i pend moves m Hwf Hr Hc Hf; pose proof (wf_mark _ _ _ _ _ _ _ Hwf Hr) as Hwf1.
  { apply wf_depth in Hwf1. rewrite length_insert in Hwf1. cbn in Hwf1. lia. }
  destruct Hr as (Hi & Hn & Hl & Hch). assert (m <> gone) as Hg by (intros ->; by apply gone_not_live in Hl).
  set (moves1 := <[i := marked m]> moves). fold moves1 in Hwf1.
  destruct (for_each_acts (loop_ok i pend moves1) _ 0 (length moves) moves1 ltac:(split_and!; [done | apply progress_refl | lia])
    (fun t mv Ht Hok => loop_step fuel i pend moves1 t mv ltac:(unfold moves1; rewrite length_insert; lia) Hok
      (fun m' Hr' Hc' => IH t (i :: pend) mv m' (proj1 Hok) Hr' Hc'
         ltac:(rewrite (progress_length _ _ _ _ (proj1 (proj2 Hok))); unfold moves1; rewrite length_insert; cbn [length]; lia))))
    as (moves2 & (Hwf2 & P2 & Hlive) & A).
  destruct (wf_pend _ _ _ _ _ Hwf2 i) as (m2 & Hm2 & _); [left|].
  destruct (complete_acts i pend moves2 m2 Hwf2 Hm2) as (moves3 & Hwf3 & P3 & Hg3 & A3).
  { intros j m' Hj. apply (Hlive j m'); [|done]. apply lookup_lt_Some in Hj.
    rewrite (progress_length _ _ _ _ P2) in Hj. unfold moves1 in Hj. by rewrite length_insert in Hj. }
  exists moves3. split_and!; [done | | done |].
  - eapply progress_trans; [by eapply progress_mark|]. eapply progress_trans; [|exact P3].
    eapply progress_weaken; [|exact P2]. intros j Hj. by right.
  - eapply acts_ext; [intros s; by apply PerformMove_unfold|]. eapply acts_bind; [exact A | exact A3|].
    intros st1 st2 st3 K1 K2. apply (keeps_trans moves moves1 moves3 st1 st1 st3); [|by apply (keeps_trans moves1 moves2 moves3 st1 st2 st3)].
    eapply (state_insert _ i m (marked m)); [done | done | | done]. destruct Hl as (_ & [Hs _] & _).
    apply source_some in Hs. intros E. by apply (f_equal src_) in E.
Qed.

(** ** The two loops of [EmitNativeCode] *)

Definition settled (m : MoveOperands) : Prop := m = gone \/ IsConstant (src_ m) = true.

Definition first_ok (n t : nat) (mv : list MoveOperands) : Prop :=
  wf mv [] /\ length mv = n /\ forall j m, (j < t)%nat -> mv !! j = Some m -> settled m.
Definition second_ok (n t : nat) (mv : list MoveOperands) : Prop :=
  wf mv [] /\ length mv = n /\ Forall settled mv /\ forall j, (j < t)%nat -> mv !! j = Some gone.

Lemma first_step n t mv : (t < n)%nat -> first_ok n t mv ->
  exists mv', first_ok n (S t) mv' /\
    acts 0 0 (move ← at_index mv t; e ← IsEliminated move;
      if negb e && negb (IsConstant (src_ move)) then PerformMove compiler_ (S (length mv)) t mv else mret mv)
      mv' (keeps mv mv').
Proof using HU Hbounds Hregs Hfregs Hapart D_inj D_some D_constant D_mixed path_trans.
  intros Ht (Hwf & Hn & Hs). rewrite <- Hn in Ht. apply lookup_lt_is_Some in Ht as [m Hm].
  pose proof (wf_ok _ _ _ source_some _ _ Hwf) as Hok. rewrite Forall_lookup in Hok.
  assert (settled m -> first_ok n (S t) mv) as Hskip.
  { intros Hset. split_and!; [done | done |]. intros j m' Hj Hm'.
    destruct (decide (j = t)) as [->|]; [by rewrite Hm in Hm'; injection Hm' as <- | apply (Hs j); [lia | done]]. }
  assert (acts 0 0 (mret mv) mv (keeps mv mv)) as Aret by (apply acts_ret; by intros st V e0).
  destruct (wf_rest _ _ _ _ _ Hwf t m Hm) as [->|Hl]; [apply not_elem_of_nil | |].
  - exists mv. split; [apply Hskip; by left|]. eapply acts_pure; [by apply pure_at|].
    by eapply acts_pure; [by apply IsEliminated_pure|].
  - assert (src_ m <> NoLocation) as Hsrc by (eapply source_some; apply Hl).
    destruct (IsConstant (src_ m)) eqn:Ec.
    + exists mv. split; [apply Hskip; by right|]. eapply acts_pure; [by apply pure_at|].
      eapply acts_pure; [apply IsEliminated_pure; by eapply Hok|]. by rewrite Ec, andb_false_r.
    + destruct (PerformMove_acts (S (length mv)) t [] mv m Hwf) as (mv' & Hwf' & P & Hg & A);
        [split_and!; [done | apply not_elem_of_nil | done | done] | done | lia |].
      exists mv'. split.
      * split_and!; [done | by rewrite (progress_length _ _ _ _ P) |]. intros j m' Hj Hm'.
        destruct (decide (j = t)) as [->|Hne]; [left; congruence|].
        assert (j < length mv)%nat as Hlt by (rewrite <- (progress_length _ _ _ _ P); by eapply lookup_lt_Some).
        apply lookup_lt_is_Some in Hlt as [mj Hmj]. destruct (Hs j mj) as [->|Hc]; [lia | done | |].
        -- left. apply (progress_gone _ _ _ _ P) in Hmj. congruence.
        -- destruct (progress_constant _ _ _ _ P j mj Hmj Hc) as [E|E]; rewrite E in Hm'; injection Hm' as <-; [by right | by left].
      * eapply acts_pure; [by apply pure_at|]. eapply acts_pure; [apply IsEliminated_pure; by eapply Hok|].
        rewrite bool_decide_eq_false_2, Ec by done. exact A.
Qed.

Lemma wf_finish_live moves i m : wf moves [] -> moves !! i = Some m -> live i m -> wf (<[i := gone]> moves) [].
Proof.
  intros Hwf Hi Hl. rewrite <- (list_insert_insert_eq moves i gone (marked m)).
  by apply wf_finish, wf_mark; [|split_and!; [|apply not_elem_of_nil|..]].
Qed.

Lemma second_step n t mv : (t < n)%nat -> second_ok n t mv ->
  exists mv', second_ok n (S t) mv' /\
    acts 0 0 (move ← at_index mv t; e ← IsEliminated move;
      if negb e then _ ← assert (IsConstant (src_ move)); EmitMove compiler_ t mv else mret mv)
      mv' (keeps mv mv').
Proof using HU Hbounds Hregs Hfregs Hapart D_inj D_some D_constant.
  intros Ht (Hwf & Hn & Hset & Hs). rewrite <- Hn in Ht. pose proof Ht as Hlt. apply lookup_lt_is_Some in Ht as [m Hm].
  pose proof (wf_ok _ _ _ source_some _ _ Hwf) as Hok. pose proof Hok as Hok'. rewrite Forall_lookup in Hok'.
  pose proof Hset as Hset'. rewrite Forall_lookup in Hset'.
  destruct (wf_rest _ _ _ _ _ Hwf t m Hm) as [->|Hl]; [apply not_elem_of_nil | |].
  - exists mv. split.
    + split_and!; [done.. |]. intros j Hj. destruct (decide (j = t)) as [->|]; [done | apply Hs; lia].
    + eapply acts_pure; [by apply pure_at|]. eapply acts_pure; [by apply IsEliminated_pure|].
      cbn. apply acts_ret. by intros st V e0.
  - assert (src_ m <> NoLocation) as Hsrc by (eapply source_some; apply Hl).
    assert (IsConstant (src_ m) = true) as Hc by (by destruct (Hset' t m Hm) as [->|]).
    pose proof Hl as (Hd & [[Ud Hs0] _] & Hne).
    destruct (EmitMove_acts compiler_ sp fp sb null Hbounds U HU Hregs Hfregs Hapart mv t m Hm Hok)
      as (W & HW & Hdw & A); [by rewrite Hd | by rewrite Hd | by rewrite Hd |].
    exists (<[t := gone]> mv). split.
    + split_and!; [by eapply wf_finish_live | by rewrite length_insert | apply Forall_insert; [done | by left] |].
      intros j Hj. destruct (decide (t = j)) as [->|]; [by apply list_lookup_insert_eq|].
      rewrite list_lookup_insert_ne by done. apply Hs. lia.
    + eapply acts_pure; [by apply pure_at|]. eapply acts_pure; [apply IsEliminated_pure; by eapply Hok'|].
      rewrite bool_decide_eq_false_2 by done. cbn [negb]. eapply acts_pure; [by apply pure_assert|].
      eapply acts_impl; [|exact A]. intros st st' _ He. rewrite Hd in *.
      eapply state_assign; [exact Hwf | exact Hm | exact Hl | | exact HW | done | done].
      intros j m' Hj Ej. destruct (Hset' j m' Hj) as [->|Hc']; [symmetry in Ej; by apply D_some in Ej|].
      by rewrite Ej, D_constant in Hc'.
Qed.

Definition perform_all (moves : list MoveOperands) : asm unit :=
  moves ← for_each (seq 0 (length moves)) (fun i moves =>
    move ← at_index moves i;
    e ← IsEliminated move;
    if negb e && negb (IsConstant (src_ move)) then PerformMove compiler_ (S (length moves)) i moves
    else mret moves) moves;
  _ ← for_each (seq 0 (length moves)) (fun i moves =>
    move ← at_index moves i;
    e ← IsEliminated move;
    if negb e then
      _ ← assert (IsConstant (src_ move));
      EmitMove compiler_ i moves
    else mret moves) moves;
  mret tt.

Lemma perform_all_acts moves : wf moves [] ->
  exists moves', (forall j, (j < length moves)%nat -> moves' !! j = Some gone) /\
    acts 0 0 (perform_all moves) tt (keeps moves moves').
Proof using HU Hbounds Hregs Hfregs Hapart D_inj D_some D_constant D_mixed path_trans.
  intros Hwf. set (n := length moves).
  destruct (for_each_acts (first_ok n) _ 0 n moves ltac:(split_and!; [done | done | lia])
    (fun t mv Ht Hok => first_step n t mv ltac:(lia) Hok)) as (moves1 & (Hwf1 & Hn1 & Hs1) & A1).
  assert (second_ok n 0 moves1) as Hok1.
  { split_and!; [done | done | | lia]. apply Forall_lookup. intros j m Hj. apply (Hs1 j); [|done].
    apply lookup_lt_Some in Hj. lia. }
  destruct (for_each_acts (second_ok n) _ 0 n moves1 Hok1 (fun t mv Ht Hok => second_step n t mv ltac:(lia) Hok))
    as (moves2 & (_ & _ & _ & Hg) & A2).
  exists moves2. split; [exact Hg|]. unfold perform_all. eapply acts_bind; [exact A1 | | intros st1 st2 st3; apply keeps_trans].
  rewrite Hn1. by eapply acts_then_ret.
Qed.
End Perform.

(** ** [EmitNativeCode] *)

(** The moves [BuildInitialMoveList] keeps. *)
Definition needed (m : MoveOperands) : bool :=
  negb (bool_decide (src_ m = NoLocation \/ dest_ m = NoLocation \/ src_ m = dest_ m)).

Lemma BuildInitialMoveList_pure `{Target} pm : moves_ok pm -> pure (BuildInitialMoveList pm) (List.filter needed pm).
Proof.
  induction 1 as [|m pm Hm _ IH]; cbn; [apply pure_ret|]. eapply pure_bind; [by apply IsRedundant_pure|].
  eapply pure_bind; [exact IH|]. unfold needed. intros s. by case_bool_decide.
Qed.

Lemma NoDup_map_filter {A B} (f : A -> B) b l : NoDup (map f l) -> NoDup (map f (List.filter b l)).
Proof.
  induction l as [|x l IH]; cbn; [done|]. intros [Hn Hd]%list.NoDup_cons. destruct (b x); [|by apply IH].
  cbn. apply list.NoDup_cons. split; [|by apply IH]. intros (y & Ey & Hy)%list_elem_of_fmap. apply Hn.
  apply list_elem_of_fmap. exists y. split; [done|]. apply list_elem_of_In, filter_In in Hy as [Hy _]. by apply list_elem_of_In.
Qed.

Lemma filter_needed pm : List.filter needed (List.filter (fun m => negb (IsInvalid (dest_ m))) pm) = List.filter needed pm.
Proof.
  induction pm as [|m pm IH]; [done|]. cbn [List.filter]. destruct (IsInvalid (dest_ m)) eqn:E; cbn [negb].
  - rewrite IH. apply IsInvalid_true in E. unfold needed at 2. by rewrite bool_decide_eq_true_2 by tauto.
  - cbn [List.filter]. by rewrite IH.
Qed.

Lemma NoDup_map_inj {A B} (f : A -> B) l x y : NoDup (map f l) -> x ∈ l -> y ∈ l -> f x = f y -> x = y.
Proof.
  intros Hd [i Hi]%list_elem_of_lookup [j Hj]%list_elem_of_lookup E.
  assert (i = j) as ->; [|congruence].
  apply (NoDup_lookup _ _ _ (f x) Hd); [by rewrite list_lookup_fmap, Hi | by rewrite list_lookup_fmap, Hj, E].
Qed.

(** The destination of a move of the list; other numbers get distinct locations no move has. *)
Definition dest_at (moves : list MoveOperands) (i : nat) : Location :=
  match moves !! i with Some m => dest_ m | None => PairLocation (Z.of_nat i) end.

Section Native.
Context `{Target} `{HostFloat} `{Host} {pool : ObjectPool} (compiler_ : FlowGraphCompiler).
Context (sp fp sb null : Z).

(** The locations of interest: all allocatable registers, and stack slots that do not overlap. *)
Record layout (U : Location -> Prop) : Prop := {
  layout_usable : forall l, U l -> usable compiler_ sp fp sb l;
  layout_regs : forall r, available r -> U (RegisterLocation r);
  layout_fregs : forall r, fpu_available r -> U (FpuRegisterLocation r);
  layout_apart : forall l l', U l -> U l' -> l <> l' -> apart fp l l'
}.

(** The moves as a graph: [a] is to be read from [b], directly or through other moves. *)
Definition reads_from (pm : list MoveOperands) : Location -> Location -> Prop :=
  tc (fun a b => exists m, m ∈ pm /\ dest_ m = a /\ src_ m = b).

(** A parallel move between locations of interest, of distinct destinations.  A cycle of moves
    through a floating-point register has no double slot on it. *)
Record parallel_ok (U : Location -> Prop) (pm : list MoveOperands) : Prop := {
  parallel_moves_ok : moves_ok pm;
  parallel_operands : forall m, m ∈ pm -> dest_ m <> NoLocation ->
    U (dest_ m) /\ source_ok compiler_ null U (dest_ m) (src_ m);
  parallel_distinct : NoDup (map dest_ (List.filter (fun m => negb (IsInvalid (dest_ m))) pm));
  parallel_cycles : forall a b, reads_from pm a b -> reads_from pm b a -> mixed a b = false
}.

(** What a parallel move means: every destination gets the value its source had before, and
    the other locations keep theirs. *)
Definition assigned_in_parallel (U : Location -> Prop) (pm : list MoveOperands) (e e' : env) : Prop :=
  (forall m, m ∈ pm -> dest_ m <> NoLocation -> e' (dest_ m) = e (src_ m)) /\
  (forall l, U l -> Forall (fun m => dest_ m <> l) pm -> e' l = e l).

Section Parallel.
Context (U : Location -> Prop) (Hlayout : layout U) (pm : list MoveOperands) (Hpm : parallel_ok U pm).
Abbreviation moves := (List.filter needed pm).
Abbreviation D := (dest_at moves).

Lemma moves_elem m : m ∈ moves <-> m ∈ pm /\ needed m = true.
Proof. by rewrite !list_elem_of_In, filter_In. Qed.

Lemma needed_iff m : needed m = true <-> src_ m <> NoLocation /\ dest_ m <> NoLocation /\ src_ m <> dest_ m.
Proof. unfold needed. rewrite negb_true_iff, bool_decide_eq_false. tauto. Qed.

Lemma moves_operands m : m ∈ moves -> U (dest_ m) /\ source_ok compiler_ null U (dest_ m) (src_ m).
Proof using Hpm. intros [Hin (_ & Hd & _)%needed_iff]%moves_elem. by apply (parallel_operands _ _ Hpm). Qed.

Lemma D_cases i : (exists m, moves !! i = Some m /\ D i = dest_ m) \/ (moves !! i = None /\ D i = PairLocation (Z.of_nat i)).
Proof. unfold dest_at. destruct (moves !! i); eauto. Qed.

Lemma U_not_pair q : ~ U (PairLocation q).
Proof using Hlayout. by intros Hu%(layout_usable _ Hlayout). Qed.

Lemma D_lookup_U i m : moves !! i = Some m -> U (dest_ m).
Proof using Hpm. intros Hi. by apply moves_operands, list_elem_of_lookup_2 with i. Qed.

Lemma dest_at_inj i j : D i = D j -> i = j.
Proof using Hlayout Hpm.
  destruct (D_cases i) as [(m & Hi & ->)|(_ & ->)], (D_cases j) as [(m' & Hj & ->)|(_ & ->)]; intros E.
  - pose proof (NoDup_map_filter dest_ needed _ (parallel_distinct _ _ Hpm)) as Hd. rewrite filter_needed in Hd.
    apply (NoDup_lookup _ _ _ (dest_ m) Hd); [by rewrite list_lookup_fmap, Hi | by rewrite list_lookup_fmap, Hj, E].
  - apply D_lookup_U in Hi. rewrite E in Hi. by apply U_not_pair in Hi.
  - apply D_lookup_U in Hj. rewrite <- E in Hj. by apply U_not_pair in Hj.
  - injection E. lia.
Qed.

Lemma dest_at_some i : D i <> NoLocation /\ IsConstant (D i) = false.
Proof using Hlayout Hpm.
  destruct (D_cases i) as [(m & Hi%D_lookup_U & ->)|(_ & ->)]; [|done].
  apply (layout_usable _ Hlayout) in Hi. by destruct (dest_ m).
Qed.

Lemma reads_from_trans a b c : reads_from pm a b -> reads_from pm b c -> reads_from pm a c.
Proof. unfold reads_from. apply tc_transitive. Qed.

Lemma initial_wf : wf D (reads_from pm) (source compiler_ null U) moves [].
Proof using Hpm.
  split; [constructor | by intros j Hj%elem_of_nil | | by intros [|? a] q r b m].
  intros j m Hj _. right. pose proof (list_elem_of_lookup_2 _ _ _ Hj) as Hm.
  assert (D j = dest_ m) as E by (unfold dest_at; by rewrite Hj). unfold live, has_source. rewrite E.
  destruct (moves_operands m Hm) as [Ud Hs]. apply moves_elem in Hm as Hm'. destruct Hm' as [Hin (_ & _ & Hne)%needed_iff].
  split_and!; [done | done | apply tc_once; by exists m | done].
Qed.

(** Once all moves are done the destinations have their values. *)
Lemma final_state moves' st st' : (forall j, (j < length moves)%nat -> moves' !! j = Some gone) ->
  keeps compiler_ fp null U D moves moves' st st' ->
  assigned_in_parallel U pm (view compiler_ fp null st) (view compiler_ fp null st').
Proof using Hlayout Hpm.
  intros Hg K.
  destruct (K (fun j => match moves !! j with Some m => view compiler_ fp null st (src_ m) | None => 0 end)
    (view compiler_ fp null st)) as [Sg _ So].
  { split; [| by intros j m -> |done]. intros j Hj.
    apply list_elem_of_lookup_2, moves_elem in Hj as [_ (? & _)%needed_iff]. done. }
  assert (forall l, U l -> (forall m, m ∈ moves -> l <> dest_ m) -> forall j, l <> D j) as Hother.
  { intros l Ul Hl j ->. destruct (D_cases j) as [(m & Hm & E)|(_ & E)].
    - by eapply Hl; [by eapply list_elem_of_lookup_2|].
    - rewrite E in Ul. by apply U_not_pair in Ul. }
  split.
  - intros m Hm Hd. destruct (needed m) eqn:En.
    + assert (m ∈ moves) as Hin by by apply moves_elem. apply list_elem_of_lookup in Hin as [j Hj].
      destruct (Sg j) as [_ Ej]; [by apply Hg, lookup_lt_Some with m|]. rewrite Hj in Ej. unfold dest_at in Ej. by rewrite Hj in Ej.
    + assert (src_ m = dest_ m) as Es.
      { destruct (decide (src_ m = dest_ m)) as [|Hn]; [done|]. exfalso. apply not_true_iff_false in En. apply En, needed_iff.
        split_and!; [|done..]. intros E. pose proof (parallel_moves_ok _ _ Hpm) as Hok. rewrite Forall_forall in Hok.
        apply list_elem_of_In in Hm. by apply Hok in Hm; apply Hm in E. }
      rewrite Es. apply So; [by apply (parallel_operands _ _ Hpm)|].
      apply Hother; [by apply (parallel_operands _ _ Hpm)|]. intros m' [Hm' Hn']%moves_elem E. 
      assert (m = m') as <-; [|congruence]. apply (NoDup_map_inj dest_ _ m m' (parallel_distinct _ _ Hpm)); [| |done];
        apply list_elem_of_In, filter_In; (split; [by apply list_elem_of_In|]); apply negb_true_iff, IsInvalid_false; congruence.
  - intros l Ul Hl. apply So; [done|]. apply Hother; [done|]. intros m [Hm _]%moves_elem E.
    rewrite Forall_forall in Hl. apply list_elem_of_In in Hm. by apply (Hl m Hm).
Qed.

Lemma EmitNativeCode_acts : stack_bounds sp sb ->
  acts sp fp sb null 0 0 (EmitNativeCode compiler_ pm) tt
    (fun st st' => assigned_in_parallel U pm (view compiler_ fp null st) (view compiler_ fp null st')).
Proof using Hlayout Hpm.
  intros Hb. destruct (perform_all_acts compiler_ sp fp sb null Hb U (layout_usable _ Hlayout) (layout_regs _ Hlayout)
    (layout_fregs _ Hlayout) (layout_apart _ Hlayout) D (reads_from pm) reads_from_trans dest_at_inj
    (fun i => proj1 (dest_at_some i)) (fun i => proj2 (dest_at_some i))
    (fun i j => parallel_cycles _ _ Hpm (D i) (D j)) moves initial_wf) as (moves' & Hg & A).
  eapply acts_pure; [apply BuildInitialMoveList_pure, Hpm|].
  eapply acts_impl; [|exact A]. intros st st' _. by apply final_state.
Qed.
End Parallel.
End Native.
