(* ===== verification/Safepoint.v ===== *)
(** * Safepoints

    [class SafepointHandler] and the transitions between execution states
    ([src/runtime/vm/heap/safepoint.h], [safepoint.cc]), the safepoint state of a [Thread]
    ([src/runtime/vm/thread.h]) and the scheduling of threads into an isolate group
    ([src/runtime/vm/isolate.cc], [thread_registry.cc]).

    The state is that of one isolate group: its threads, numbered, each with its
    [safepoint_state_] word, the active list, one [LevelHandler] per level and the holder of
    [threads_lock].  [phase_] is where a thread stands in the code of the protocol.  A step
    [exec t a] is one piece of code that thread [t] runs without interruption: one atomic
    access of a [safepoint_state_], or one critical section under a thread's [thread_lock] or
    the handler's [parked_lock_].  Critical sections under [threads_lock] take several steps
    when they loop over the threads, so the lock's holder is part of the state.  [None] is a
    step that is not possible in the state, an [Err] a failing assertion.

    A thread that waits on a monitor sleeps until it is notified; it may also wake up by
    itself.  [WaitUntilThreadsReachedSafepointLevel] waits with a timeout and is modelled as
    polling. *)
From S2P Require Import Prelude Constants Words Macros ObjectHeader.

Inductive SafepointLevel := kGC | kGCAndDeopt.
Inductive ExecutionState := kThreadInVM | kThreadInGenerated | kThreadInNative | kThreadInBlockedState.
Inductive RuntimeCallDeoptAbility := kCanLazyDeopt | kCannotLazyDeopt.

#[export] Instance SafepointLevel_eq_dec : EqDecision SafepointLevel.
Proof. solve_decision. Defined.
#[export] Instance ExecutionState_eq_dec : EqDecision ExecutionState.
Proof. solve_decision. Defined.
#[export] Instance RuntimeCallDeoptAbility_eq_dec : EqDecision RuntimeCallDeoptAbility.
Proof. solve_decision. Defined.

(** The loops [for (level = ...; level >= 0; --level)] and [for (lower_level = level - 1; ...)]. *)
Definition levels_down (level : SafepointLevel) : list SafepointLevel :=
  match level with kGC => [kGC] | kGCAndDeopt => [kGCAndDeopt; kGC] end.
Definition lower_levels (level : SafepointLevel) : list SafepointLevel := tail (levels_down level).
Definition level_le (l l' : SafepointLevel) : bool := bool_decide (l ∈ levels_down l').

(** ** The state *)

Definition AtSafepointField := flag 0.
Definition SafepointRequestedField := flag 1.
Definition AtDeoptSafepointField := flag 2.
Definition DeoptSafepointRequestedField := flag 3.
Definition BlockedForSafepointField := flag 4.
Definition BypassSafepointsField := flag 5.
Definition UnwindErrorInProgressField := flag 6.

(** A thread that waits on a monitor, or holds it. *)
Inductive Waiting := Held | Asleep | Awake.

Inductive Phase :=
| Unscheduled
| Scheduling (bypass_safepoint : bool) (w : Waiting)
| Running
| Entering
| Safe
| Exiting (w : Waiting)
| Requesting (level : SafepointLevel) (w : Waiting)
| Notifying (level : SafepointLevel) (todo : list nat)
| Parking (level : SafepointLevel)
| Acquiring (level : SafepointLevel) (todo : list SafepointLevel) (w : Waiting)
| Operating
| Continuing (level : SafepointLevel) (todo : list nat).

(** [returns_to_] is the state a transition sets once [ExitSafepoint] returns, [scopes_] the
    levels of the thread's [SafepointOperationScope]s, the innermost first. *)
Record Thread := {
  safepoint_state_ : Z;
  execution_state_ : ExecutionState;
  runtime_call_deopt_ability_ : RuntimeCallDeoptAbility;
  no_safepoint_scope_depth_ : Z;
  phase_ : Phase;
  returns_to_ : ExecutionState;
  scopes_ : list SafepointLevel
}.

Record LevelHandler := {
  owner_ : option nat;
  operation_count_ : Z;
  num_threads_not_parked_ : Z
}.

Record IsolateGroup := {
  threads_ : nat -> Thread;
  active_list_ : list nat;
  handlers_ : SafepointLevel -> LevelHandler;
  threads_lock_ : option nat
}.

Definition with_state (T : Thread) (v : Z) : Thread :=
  {| safepoint_state_ := v; execution_state_ := execution_state_ T;
     runtime_call_deopt_ability_ := runtime_call_deopt_ability_ T;
     no_safepoint_scope_depth_ := no_safepoint_scope_depth_ T; phase_ := phase_ T;
     returns_to_ := returns_to_ T; scopes_ := scopes_ T |}.
Definition set_execution_state (T : Thread) (v : ExecutionState) : Thread :=
  {| safepoint_state_ := safepoint_state_ T; execution_state_ := v;
     runtime_call_deopt_ability_ := runtime_call_deopt_ability_ T;
     no_safepoint_scope_depth_ := no_safepoint_scope_depth_ T; phase_ := phase_ T;
     returns_to_ := returns_to_ T; scopes_ := scopes_ T |}.
Definition with_ability (T : Thread) (v : RuntimeCallDeoptAbility) : Thread :=
  {| safepoint_state_ := safepoint_state_ T; execution_state_ := execution_state_ T;
     runtime_call_deopt_ability_ := v; no_safepoint_scope_depth_ := no_safepoint_scope_depth_ T;
     phase_ := phase_ T; returns_to_ := returns_to_ T; scopes_ := scopes_ T |}.
Definition with_depth (T : Thread) (v : Z) : Thread :=
  {| safepoint_state_ := safepoint_state_ T; execution_state_ := execution_state_ T;
     runtime_call_deopt_ability_ := runtime_call_deopt_ability_ T; no_safepoint_scope_depth_ := v;
     phase_ := phase_ T; returns_to_ := returns_to_ T; scopes_ := scopes_ T |}.
Definition with_phase (T : Thread) (v : Phase) : Thread :=
  {| safepoint_state_ := safepoint_state_ T; execution_state_ := execution_state_ T;
     runtime_call_deopt_ability_ := runtime_call_deopt_ability_ T;
     no_safepoint_scope_depth_ := no_safepoint_scope_depth_ T; phase_ := v;
     returns_to_ := returns_to_ T; scopes_ := scopes_ T |}.
Definition with_return (T : Thread) (v : ExecutionState) : Thread :=
  {| safepoint_state_ := safepoint_state_ T; execution_state_ := execution_state_ T;
     runtime_call_deopt_ability_ := runtime_call_deopt_ability_ T;
     no_safepoint_scope_depth_ := no_safepoint_scope_depth_ T; phase_ := phase_ T;
     returns_to_ := v; scopes_ := scopes_ T |}.
Definition with_scopes (T : Thread) (v : list SafepointLevel) : Thread :=
  {| safepoint_state_ := safepoint_state_ T; execution_state_ := execution_state_ T;
     runtime_call_deopt_ability_ := runtime_call_deopt_ability_ T;
     no_safepoint_scope_depth_ := no_safepoint_scope_depth_ T; phase_ := phase_ T;
     returns_to_ := returns_to_ T; scopes_ := v |}.

Definition set_thread (g : IsolateGroup) (t : nat) (T : Thread) : IsolateGroup :=
  {| threads_ := fun x => if decide (x = t) then T else threads_ g x; active_list_ := active_list_ g;
     handlers_ := handlers_ g; threads_lock_ := threads_lock_ g |}.
Definition set_handler (g : IsolateGroup) (l : SafepointLevel) (h : LevelHandler) : IsolateGroup :=
  {| threads_ := threads_ g; active_list_ := active_list_ g;
     handlers_ := fun l' => if decide (l' = l) then h else handlers_ g l'; threads_lock_ := threads_lock_ g |}.
Definition set_lock (g : IsolateGroup) (o : option nat) : IsolateGroup :=
  {| threads_ := threads_ g; active_list_ := active_list_ g; handlers_ := handlers_ g; threads_lock_ := o |}.
Definition set_active (g : IsolateGroup) (l : list nat) : IsolateGroup :=
  {| threads_ := threads_ g; active_list_ := l; handlers_ := handlers_ g; threads_lock_ := threads_lock_ g |}.
Definition set_phase (g : IsolateGroup) (t : nat) (p : Phase) : IsolateGroup :=
  set_thread g t (with_phase (threads_ g t) p).

Section Protocol.
Context `{Target}.

Definition RELEASE_ASSERT (b : bool) : result unit := if b then Ok tt else Err AssertFailure.

(** ** [Thread] *)

Definition AtSafepointBits (level : SafepointLevel) : Z :=
  match level with
  | kGC => mask_in_place AtSafepointField
  | kGCAndDeopt => mask_in_place AtSafepointField .| mask_in_place AtDeoptSafepointField
  end.

Definition current_safepoint_level (T : Thread) : SafepointLevel :=
  match runtime_call_deopt_ability_ T with kCannotLazyDeopt => kGC | kCanLazyDeopt => kGCAndDeopt end.

Definition state_IsAtSafepoint (level : SafepointLevel) (state : Z) : bool :=
  let mask := AtSafepointBits level in state .& mask =? mask.
Definition IsAtSafepoint (T : Thread) (level : SafepointLevel) : bool :=
  state_IsAtSafepoint level (safepoint_state_ T).

Definition SetAtSafepoint (T : Thread) (value : bool) : Thread :=
  with_state T (if value then safepoint_state_ T .| AtSafepointBits (current_safepoint_level T)
                else safepoint_state_ T .& uintx (Z.lnot (AtSafepointBits (current_safepoint_level T)))).

Definition IsSafepointLevelRequested (state : Z) (level : SafepointLevel) : bool :=
  match level with
  | kGC => negb (state .& mask_in_place SafepointRequestedField =? 0)
  | kGCAndDeopt => negb (state .& mask_in_place DeoptSafepointRequestedField =? 0)
  end.
Definition IsSafepointRequested (T : Thread) : bool :=
  existsb (IsSafepointLevelRequested (safepoint_state_ T)) (levels_down (current_safepoint_level T)).
Definition IsSafepointLevelRequestedLocked (T : Thread) (level : SafepointLevel) : bool :=
  level_le level (current_safepoint_level T) && IsSafepointLevelRequested (safepoint_state_ T) level.

(** The old state and the thread. *)
Definition SetSafepointRequested (T : Thread) (level : SafepointLevel) (value : bool) : Z * Thread :=
  let mask := match level with
              | kGC => mask_in_place SafepointRequestedField
              | kGCAndDeopt => mask_in_place DeoptSafepointRequestedField
              end in
  (safepoint_state_ T,
   with_state T (if value then safepoint_state_ T .| mask else safepoint_state_ T .& uintx (Z.lnot mask))).

Definition IsBlockedForSafepoint (state : Z) : bool := negb (decode BlockedForSafepointField state =? 0).
Definition SetBlockedForSafepoint (T : Thread) (value : bool) : result Thread :=
  s ← update BlockedForSafepointField (Z.b2z value) (safepoint_state_ T); Ok (with_state T s).
Definition BypassSafepoints (T : Thread) : bool := negb (decode BypassSafepointsField (safepoint_state_ T) =? 0).
Definition SetBypassSafepoints (value : bool) (state : Z) : result Z :=
  update BypassSafepointsField (Z.b2z value) state.
Definition SetUnwindErrorInProgress (T : Thread) (value : bool) : Thread :=
  let mask := mask_in_place UnwindErrorInProgressField in
  with_state T (if value then safepoint_state_ T .| mask else safepoint_state_ T .& uintx (Z.lnot mask)).

(** The state [TryEnterSafepoint] installs and [TryExitSafepoint] expects. *)
Definition at_safepoint_state (T : Thread) : Z :=
  let s := encode_unchecked AtSafepointField 1 in
  match current_safepoint_level T with
  | kGCAndDeopt => s .| encode_unchecked AtDeoptSafepointField 1
  | kGC => s
  end.
Definition TryEnterSafepoint (T : Thread) : option Thread :=
  if safepoint_state_ T =? 0 then Some (with_state T (at_safepoint_state T)) else None.
Definition TryExitSafepoint (T : Thread) : option Thread :=
  if safepoint_state_ T =? at_safepoint_state T then Some (with_state T 0) else None.

(** ** [LevelHandler] *)

Definition SafepointInProgress (h : LevelHandler) : result bool :=
  _ ← ASSERT (Bool.eqb (0 <? operation_count_ h) (bool_decide (owner_ h <> None)));
  Ok ((0 <? operation_count_ h) && bool_decide (owner_ h <> None)).
Definition SetSafepointInProgress (h : LevelHandler) (t : nat) : result LevelHandler :=
  _ ← ASSERT (bool_decide (owner_ h = None));
  _ ← ASSERT (operation_count_ h =? 0);
  Ok {| owner_ := Some t; operation_count_ := 1; num_threads_not_parked_ := num_threads_not_parked_ h |}.
Definition ResetSafepointInProgress (h : LevelHandler) (t : nat) : result LevelHandler :=
  _ ← ASSERT (bool_decide (owner_ h = Some t));
  _ ← ASSERT (operation_count_ h =? 1);
  Ok {| owner_ := None; operation_count_ := 0; num_threads_not_parked_ := num_threads_not_parked_ h |}.
Definition with_not_parked (h : LevelHandler) (n : Z) : LevelHandler :=
  {| owner_ := owner_ h; operation_count_ := operation_count_ h; num_threads_not_parked_ := n |}.
Definition with_count (h : LevelHandler) (n : Z) : LevelHandler :=
  {| owner_ := owner_ h; operation_count_ := n; num_threads_not_parked_ := num_threads_not_parked_ h |}.
Definition NotifyWeAreParked (g : IsolateGroup) (level : SafepointLevel) : result IsolateGroup :=
  let h := handlers_ g level in
  _ ← ASSERT (bool_decide (owner_ h <> None));
  _ ← ASSERT (0 <? num_threads_not_parked_ h);
  Ok (set_handler g level (with_not_parked h (num_threads_not_parked_ h - 1))).

(** ** Entering and leaving *)

Fixpoint notify_parked (t : nat) (levels : list SafepointLevel) (g : IsolateGroup) : result IsolateGroup :=
  match levels with
  | [] => Ok g
  | l :: levels =>
      g ← (if IsSafepointLevelRequestedLocked (threads_ g t) l then NotifyWeAreParked g l else Ok g);
      notify_parked t levels g
  end.

Definition EnterSafepointLocked (t : nat) (g : IsolateGroup) : result IsolateGroup :=
  let T := SetAtSafepoint (threads_ g t) true in
  notify_parked t (levels_down (current_safepoint_level T)) (set_thread g t T).

(** A round of the loop of [ExitSafepointLocked], its end, and the assertion of its callers that
    no safepoint is requested any more. *)
Definition ExitSafepointLocked (t : nat) (w : Waiting) (g : IsolateGroup) : result IsolateGroup :=
  T ← (match w with Awake => SetBlockedForSafepoint (threads_ g t) false | _ => Ok (threads_ g t) end);
  if IsSafepointRequested T then
    T ← SetBlockedForSafepoint T true;
    Ok (set_thread g t (with_phase T (Exiting Asleep)))
  else
    let T := SetAtSafepoint T false in
    _ ← ASSERT (negb (IsSafepointRequested T));
    Ok (set_thread g t (set_execution_state (with_phase T Running) (returns_to_ T))).

Definition EnterSafepoint (t : nat) (g : IsolateGroup) : result IsolateGroup :=
  let T := threads_ g t in
  _ ← ASSERT (no_safepoint_scope_depth_ T =? 0);
  Ok (set_thread g t (match TryEnterSafepoint T with
                      | Some T => with_phase T Safe
                      | None => with_phase T Entering
                      end)).
Definition EnterSafepointUsingLock (t : nat) (g : IsolateGroup) : result IsolateGroup :=
  g ← EnterSafepointLocked t g; Ok (set_phase g t Safe).

Definition ExitSafepointUsingLock (t : nat) (g : IsolateGroup) : result IsolateGroup :=
  let T := threads_ g t in
  _ ← ASSERT (IsAtSafepoint T (current_safepoint_level T));
  Ok (set_phase g t (Exiting Held)).
Definition ExitSafepoint (t : nat) (g : IsolateGroup) : result IsolateGroup :=
  let T := threads_ g t in
  match TryExitSafepoint T with
  | Some T => Ok (set_thread g t (set_execution_state (with_phase T Running) (returns_to_ T)))
  | None => ExitSafepointUsingLock t g
  end.

(** [BlockForSafepoint] up to the loop of [ExitSafepointLocked]. *)
Definition BlockForSafepoint (t : nat) (g : IsolateGroup) : result IsolateGroup :=
  _ ← ASSERT (negb (BypassSafepoints (threads_ g t)));
  if IsSafepointRequested (threads_ g t) then
    g ← EnterSafepointLocked t g;
    let T := threads_ g t in
    Ok (set_thread g t (with_return (with_phase T (Exiting Held)) (execution_state_ T)))
  else Ok g.

Definition IsOwnedByTheThread (t : nat) (g : IsolateGroup) : bool :=
  existsb (fun l => bool_decide (owner_ (handlers_ g l) = Some t)) [kGC; kGCAndDeopt].

(** The constructors and destructors of the [Transition...] classes; [TransitionToGenerated]
    goes [BackToVM] without a check, the other classes for two states are these at the state
    the thread is in.  [no_callback_scope_depth] is zero. *)
Inductive Transition :=
| GeneratedToVM | BackToVM | VMToGenerated | GeneratedToNative | NativeToGenerated
| VMToBlocked | BlockedToVM | VMToNative | NativeToVM.

Definition enter_from (t : nat) (from to : ExecutionState) (g : IsolateGroup) : result IsolateGroup :=
  _ ← ASSERT (bool_decide (execution_state_ (threads_ g t) = from));
  EnterSafepoint t (set_thread g t (set_execution_state (threads_ g t) to)).
Definition exit_to (t : nat) (from to : ExecutionState) (g : IsolateGroup) : result IsolateGroup :=
  _ ← ASSERT (bool_decide (execution_state_ (threads_ g t) = from));
  ExitSafepoint t (set_thread g t (with_return (threads_ g t) to)).

Definition transition (tr : Transition) (t : nat) (g : IsolateGroup) : result IsolateGroup :=
  let T := threads_ g t in
  match tr with
  | GeneratedToVM =>
      _ ← ASSERT (bool_decide (execution_state_ T = kThreadInGenerated));
      let g := set_thread g t (set_execution_state T kThreadInVM) in
      if IsSafepointRequested (threads_ g t) then BlockForSafepoint t g else Ok g
  | BackToVM =>
      _ ← ASSERT (bool_decide (execution_state_ T = kThreadInGenerated));
      Ok (set_thread g t (set_execution_state T kThreadInVM))
  | VMToGenerated =>
      _ ← ASSERT (bool_decide (execution_state_ T = kThreadInVM));
      Ok (set_thread g t (set_execution_state T kThreadInGenerated))
  | GeneratedToNative => enter_from t kThreadInGenerated kThreadInNative g
  | VMToBlocked =>
      _ ← ASSERT (negb (IsOwnedByTheThread t g));
      enter_from t kThreadInVM kThreadInBlockedState g
  | VMToNative => enter_from t kThreadInVM kThreadInNative g
  | NativeToGenerated => exit_to t kThreadInNative kThreadInGenerated g
  | BlockedToVM => exit_to t kThreadInBlockedState kThreadInVM g
  | NativeToVM => exit_to t kThreadInNative kThreadInVM g
  end.

(** Transitions that leave a safepoint start there, the others where the thread runs. *)
Definition leaves (tr : Transition) : bool :=
  match tr with NativeToGenerated | BlockedToVM | NativeToVM => true | _ => false end.

Definition CheckForSafepoint (t : nat) (g : IsolateGroup) : result IsolateGroup :=
  _ ← ASSERT (no_safepoint_scope_depth_ (threads_ g t) =? 0);
  if IsSafepointRequested (threads_ g t) then BlockForSafepoint t g else Ok g.

(** [RuntimeCallDeoptScope]. *)
Definition RuntimeCallDeoptScope (t : nat) (kind : RuntimeCallDeoptAbility) (g : IsolateGroup) : result IsolateGroup :=
  _ ← ASSERT (bool_decide (runtime_call_deopt_ability_ (threads_ g t) = kCanLazyDeopt));
  Ok (set_thread g t (with_ability (threads_ g t) kind)).
Definition EndRuntimeCallDeoptScope (t : nat) (g : IsolateGroup) : IsolateGroup :=
  set_thread g t (with_ability (threads_ g t) kCanLazyDeopt).

(** ** Operations *)

Definition AssertWeOwnLowerLevelSafepoints (t : nat) (level : SafepointLevel) (g : IsolateGroup) : result unit :=
  RELEASE_ASSERT (forallb (fun l => bool_decide (owner_ (handlers_ g l) = Some t)) (lower_levels level)).
Definition AssertWeDoNotOwnLowerLevelSafepoints (t : nat) (level : SafepointLevel) (g : IsolateGroup) : result unit :=
  RELEASE_ASSERT (forallb (fun l => bool_decide (owner_ (handlers_ g l) <> Some t)) (lower_levels level)).

(** [SafepointThreads] up to its first wait; the thread keeps [threads_lock] when it has to
    get hold of the level. *)
Definition SafepointThreads (t : nat) (level : SafepointLevel) (g : IsolateGroup) : result IsolateGroup :=
  let T := threads_ g t in
  _ ← ASSERT (no_safepoint_scope_depth_ T =? 0);
  _ ← ASSERT (bool_decide (execution_state_ T = kThreadInVM));
  _ ← ASSERT (level_le level (current_safepoint_level T));
  let h := handlers_ g level in
  if decide (owner_ h = Some t) then
    let g := set_handler g level (with_count h (operation_count_ h + 1)) in
    _ ← AssertWeOwnLowerLevelSafepoints t level g;
    Ok (set_thread g t (with_scopes T (level :: scopes_ T)))
  else
    _ ← AssertWeDoNotOwnLowerLevelSafepoints t level g;
    g ← EnterSafepointLocked t g;
    Ok (set_phase (set_lock g (Some t)) t (Requesting level Held)).

(** The loop that waits for the level, and the start of
    [NotifyThreadsToGetToSafepointLevel]. *)
Definition wait_for_level (t : nat) (level : SafepointLevel) (g : IsolateGroup) : result IsolateGroup :=
  b ← SafepointInProgress (handlers_ g level);
  if b : bool then Ok (set_phase (set_lock g None) t (Requesting level Asleep))
  else
    h ← SetSafepointInProgress (handlers_ g level) t;
    _ ← ASSERT (num_threads_not_parked_ h =? 0);
    Ok (set_phase (set_lock (set_handler g level h) (Some t)) t (Notifying level (active_list_ g))).

(** One thread of [NotifyThreadsToGetToSafepointLevel]. *)
Definition notify_thread (t : nat) (level : SafepointLevel) (x : nat) (g : IsolateGroup) : IsolateGroup :=
  if negb (BypassSafepoints (threads_ g x)) && bool_decide (x <> t) then
    let '(state, X) := SetSafepointRequested (threads_ g x) level true in
    let g := set_thread g x X in
    if state_IsAtSafepoint level state then g
    else
      let h := handlers_ g level in
      set_handler g level (with_not_parked h (num_threads_not_parked_ h + 1))
  else g.

Definition NotifyThreadsToGetToSafepointLevel (t : nat) (level : SafepointLevel) (todo : list nat)
    (g : IsolateGroup) : IsolateGroup :=
  match todo with
  | [] => set_phase (set_lock g None) t (Parking level)
  | x :: todo => set_phase (notify_thread t level x g) t (Notifying level todo)
  end.

(** The loop of [AcquireLowerLevelSafepoints]; some lower levels may be taken before one is
    found in use. *)
Fixpoint acquire_levels (t : nat) (level : SafepointLevel) (todo : list SafepointLevel)
    (g : IsolateGroup) : result IsolateGroup :=
  match todo with
  | [] => Ok (set_thread g t (with_scopes (with_phase (threads_ g t) Operating) [level]))
  | l :: rest =>
      b ← SafepointInProgress (handlers_ g l);
      if b : bool then Ok (set_phase g t (Acquiring level todo Asleep))
      else
        h ← SetSafepointInProgress (handlers_ g l) t;
        _ ← ASSERT (bool_decide (owner_ h = Some t));
        acquire_levels t level rest (set_handler g l h)
  end.

(** The assertion at the entry is checked again when a wait ends. *)
Definition AcquireLowerLevelSafepoints (t : nat) (level : SafepointLevel) (todo : list SafepointLevel)
    (g : IsolateGroup) : result IsolateGroup :=
  _ ← ASSERT (bool_decide (owner_ (handlers_ g level) = Some t));
  acquire_levels t level todo g.

Fixpoint ReleaseLowerLevelSafepoints (t : nat) (levels : list SafepointLevel) (g : IsolateGroup) : result IsolateGroup :=
  match levels with
  | [] => Ok g
  | l :: levels =>
      h ← ResetSafepointInProgress (handlers_ g l) t;
      ReleaseLowerLevelSafepoints t levels (set_handler g l h)
  end.

(** [ResumeThreads] up to the loop of [NotifyThreadsToContinue]. *)
Definition ResumeThreads (t : nat) (level : SafepointLevel) (g : IsolateGroup) : result IsolateGroup :=
  let h := handlers_ g level in
  let T := threads_ g t in
  b ← SafepointInProgress h;
  _ ← ASSERT b;
  _ ← ASSERT (bool_decide (owner_ h = Some t));
  _ ← AssertWeOwnLowerLevelSafepoints t level g;
  if 1 <? operation_count_ h then
    Ok (set_thread (set_handler g level (with_count h (operation_count_ h - 1))) t
          (with_scopes T (tail (scopes_ T))))
  else
    g ← ReleaseLowerLevelSafepoints t (rev (lower_levels level)) g;
    Ok (set_phase (set_lock g (Some t)) t (Continuing level (active_list_ g))).

(** Clear the requests of a level and those below; whether the thread was blocked. *)
Fixpoint clear_requests (T : Thread) (levels : list SafepointLevel) : bool * Thread :=
  match levels with
  | [] => (false, T)
  | l :: levels =>
      let '(state, T) := SetSafepointRequested T l false in
      let '(resume, T) := clear_requests T levels in
      (IsBlockedForSafepoint state || resume, T)
  end.

(** [Notify] of a thread's [thread_lock]. *)
Definition wake_thread (T : Thread) : Thread :=
  match phase_ T with Exiting Asleep => with_phase T (Exiting Awake) | _ => T end.

(** [NotifyAll] of [threads_lock]. *)
Definition wake_lock (T : Thread) : Thread :=
  match phase_ T with
  | Requesting l Asleep => with_phase T (Requesting l Awake)
  | Acquiring l todo Asleep => with_phase T (Acquiring l todo Awake)
  | Scheduling b Asleep => with_phase T (Scheduling b Awake)
  | _ => T
  end.
Definition NotifyAll (g : IsolateGroup) : IsolateGroup :=
  {| threads_ := fun x => wake_lock (threads_ g x); active_list_ := active_list_ g;
     handlers_ := handlers_ g; threads_lock_ := threads_lock_ g |}.

(** One thread of [NotifyThreadsToContinue]. *)
Definition continue_thread (t : nat) (level : SafepointLevel) (x : nat) (g : IsolateGroup) : IsolateGroup :=
  if negb (BypassSafepoints (threads_ g x)) && bool_decide (x <> t) then
    let '(resume, X) := clear_requests (threads_ g x) (levels_down level) in
    set_thread g x (if resume : bool then wake_thread X else X)
  else g.

(** The loop, and the rest of [ResumeThreads] up to the loop of [ExitSafepointLocked]. *)
Definition NotifyThreadsToContinue (t : nat) (level : SafepointLevel) (todo : list nat)
    (g : IsolateGroup) : result IsolateGroup :=
  match todo with
  | x :: todo => Ok (set_phase (continue_thread t level x g) t (Continuing level todo))
  | [] =>
      h ← ResetSafepointInProgress (handlers_ g level) t;
      let g := set_lock (NotifyAll (set_handler g level h)) None in
      let T := threads_ g t in
      ExitSafepointUsingLock t (set_thread g t (with_return (with_scopes T []) (execution_state_ T)))
  end.

(** ** Scheduling *)

Definition AnySafepointInProgress (g : IsolateGroup) : result bool :=
  b ← SafepointInProgress (handlers_ g kGC);
  if b : bool then Ok true else SafepointInProgress (handlers_ g kGCAndDeopt).

(** A round of the loop of [ScheduleThreadLocked], and its end.  The thread's structure is the
    cached one of a mutator or a free one; its other fields are reset elsewhere. *)
Definition ScheduleThreadLocked (t : nat) (bypass_safepoint : bool) (g : IsolateGroup) : result IsolateGroup :=
  b ← (if bypass_safepoint then Ok false else AnySafepointInProgress g);
  if b : bool then Ok (set_phase g t (Scheduling bypass_safepoint Asleep))
  else
    let T := threads_ g t in
    _ ← ASSERT (bool_decide (execution_state_ T = kThreadInNative));
    state ← SetBypassSafepoints bypass_safepoint 0;
    _ ← ASSERT (no_safepoint_scope_depth_ T =? 0);
    Ok (set_active (set_thread g t (with_state (set_execution_state (with_phase T Running) kThreadInVM) state))
          (t :: active_list_ g)).

Fixpoint RemoveFromActiveListLocked (t : nat) (l : list nat) : list nat :=
  match l with
  | [] => []
  | x :: l => if Nat.eqb x t then l else x :: RemoveFromActiveListLocked t l
  end.

(** [UnscheduleThreadLocked]; [EnterSafepoint] with its slow path, both under [threads_lock].
    A [RuntimeCallDeoptScope] is on the stack of a runtime call, so none is open. *)
Definition UnscheduleThreadLocked (t : nat) (bypass_safepoint : bool) (g : IsolateGroup) : result IsolateGroup :=
  g ← (if bypass_safepoint then Ok g
       else
         let T := threads_ g t in
         _ ← ASSERT (no_safepoint_scope_depth_ T =? 0);
         match TryEnterSafepoint T with
         | Some T => Ok (set_thread g t T)
         | None => EnterSafepointLocked t g
         end);
  let T := set_execution_state (threads_ g t) kThreadInNative in
  let T := with_state T (encode_unchecked AtSafepointField 1 .| encode_unchecked AtDeoptSafepointField 1) in
  _ ← ASSERT (no_safepoint_scope_depth_ T =? 0);
  Ok (set_active (set_thread g t (with_phase T Unscheduled)) (RemoveFromActiveListLocked t (active_list_ g))).

(** ** Steps *)

Inductive action :=
| Transit (tr : Transition)        (* a [Transition...] scope begins or ends *)
| Check                            (* [CheckForSafepoint] *)
| BeginDeoptScope (kind : RuntimeCallDeoptAbility)
| EndDeoptScope
| Unwind (value : bool)            (* [SetUnwindErrorInProgress] *)
| NoSafepointDepth (d : Z)         (* a scope without safepoints begins or ends *)
| BeginOperation (level : SafepointLevel)
| EndOperation
| Schedule (bypass_safepoint : bool)
| Unschedule
| Proceed                          (* go on inside the protocol *)
| Wake.                            (* wake up without having been notified *)

Definition lock_free (t : nat) (g : IsolateGroup) : bool :=
  match threads_lock_ g with None => true | Some t' => Nat.eqb t t' end.

(** A step that needs [threads_lock], and one that can be taken only under a condition. *)
Definition guarded (b : bool) (r : result IsolateGroup) : option (result IsolateGroup) :=
  if b then Some r else None.

Definition proceed (t : nat) (g : IsolateGroup) : option (result IsolateGroup) :=
  match phase_ (threads_ g t) with
  | Entering => Some (EnterSafepointUsingLock t g)
  | Exiting Asleep | Requesting _ Asleep | Acquiring _ _ Asleep | Scheduling _ Asleep => None
  | Exiting w => Some (ExitSafepointLocked t w g)
  | Requesting level _ => guarded (lock_free t g) (wait_for_level t level g)
  | Notifying level todo => Some (Ok (NotifyThreadsToGetToSafepointLevel t level todo g))
  | Parking level =>
      guarded (num_threads_not_parked_ (handlers_ g level) <=? 0)
        (Ok (set_phase g t (Acquiring level (lower_levels level) Awake)))
  | Acquiring level todo _ => guarded (lock_free t g) (AcquireLowerLevelSafepoints t level todo g)
  | Continuing level todo => Some (NotifyThreadsToContinue t level todo g)
  | Scheduling bypass _ => guarded (lock_free t g) (ScheduleThreadLocked t bypass g)
  | Unscheduled | Running | Safe | Operating => None
  end.

Definition wake (T : Thread) : Thread :=
  match phase_ T with Exiting Asleep => with_phase T (Exiting Awake) | _ => wake_lock T end.

Definition exec (t : nat) (a : action) (g : IsolateGroup) : option (result IsolateGroup) :=
  let T := threads_ g t in
  match a, phase_ T with
  | Proceed, _ => proceed t g
  | Wake, _ => Some (Ok (set_thread g t (wake T)))
  | Transit tr, Running => guarded (negb (leaves tr)) (transition tr t g)
  | Transit tr, Safe => guarded (leaves tr) (transition tr t g)
  | Check, Running => Some (CheckForSafepoint t g)
  | BeginDeoptScope kind, Running => Some (RuntimeCallDeoptScope t kind g)
  | EndDeoptScope, Running => Some (Ok (EndRuntimeCallDeoptScope t g))
  | Unwind value, Running => Some (Ok (set_thread g t (SetUnwindErrorInProgress T value)))
  | NoSafepointDepth d, Running => Some (Ok (set_thread g t (with_depth T d)))
  | BeginOperation level, (Running | Operating) => guarded (lock_free t g) (SafepointThreads t level g)
  | EndOperation, Operating =>
      match scopes_ T with
      | level :: _ => guarded (lock_free t g) (ResumeThreads t level g)
      | [] => None
      end
  | Schedule bypass, Unscheduled => guarded (lock_free t g) (ScheduleThreadLocked t bypass g)
  | Unschedule, Running => guarded (lock_free t g && bool_decide (runtime_call_deopt_ability_ T = kCanLazyDeopt)) (UnscheduleThreadLocked t (BypassSafepoints T) g)
  | _, _ => None
  end.

(** What the callers of the protocol guarantee: the assertions at its entries, and that a
    thread does not start an operation at a level above the one it has. *)
Definition allowed (t : nat) (a : action) (g : IsolateGroup) : bool :=
  let T := threads_ g t in
  match a with
  | Transit tr =>
      match tr with
      | GeneratedToVM | BackToVM => bool_decide (execution_state_ T = kThreadInGenerated)
      | VMToGenerated => bool_decide (execution_state_ T = kThreadInVM)
      | GeneratedToNative =>
          bool_decide (execution_state_ T = kThreadInGenerated) && (no_safepoint_scope_depth_ T =? 0)
      | VMToBlocked | VMToNative =>
          bool_decide (execution_state_ T = kThreadInVM) && (no_safepoint_scope_depth_ T =? 0)
      | NativeToGenerated | NativeToVM => bool_decide (execution_state_ T = kThreadInNative)
      | BlockedToVM => bool_decide (execution_state_ T = kThreadInBlockedState)
      end
  | Check => no_safepoint_scope_depth_ T =? 0
  | BeginDeoptScope _ => bool_decide (runtime_call_deopt_ability_ T = kCanLazyDeopt)
  | BeginOperation level =>
      (no_safepoint_scope_depth_ T =? 0) && bool_decide (execution_state_ T = kThreadInVM) &&
      level_le level (current_safepoint_level T) &&
      match phase_ T with Operating => bool_decide (owner_ (handlers_ g level) = Some t) | _ => true end
  | Unschedule => no_safepoint_scope_depth_ T =? 0
  | _ => true
  end.

Inductive reachable : IsolateGroup -> Prop :=
| reachable_initial T : phase_ T = Unscheduled -> execution_state_ T = kThreadInNative ->
    no_safepoint_scope_depth_ T = 0 -> runtime_call_deopt_ability_ T = kCanLazyDeopt -> scopes_ T = [] ->
    safepoint_state_ T = 0 ->
    reachable {| threads_ := fun _ => T; active_list_ := [];
                 handlers_ := fun _ => {| owner_ := None; operation_count_ := 0; num_threads_not_parked_ := 0 |};
                 threads_lock_ := None |}
| reachable_step g t a g' : reachable g -> allowed t a g = true -> exec t a g = Some (Ok g') -> reachable g'.
End Protocol.
