(* ===== verification/SafepointInvariant.v ===== *)
(** * The word of a thread's safepoint state

    The seven flags of [safepoint_state_] and what the operations of [Safepoint] do to them. *)
From S2P Require Import Prelude Constants Words Macros ObjectHeader Safepoint.

Record Word := { w_at : bool; w_req : bool; w_atd : bool; w_reqd : bool; w_blocked : bool; w_bypass : bool; w_unwind : bool }.

#[export] Instance Word_eq_dec : EqDecision Word.
Proof. solve_decision. Defined.

Definition pack (w : Word) : Z :=
  Z.b2z (w_at w) + 2 * Z.b2z (w_req w) + 4 * Z.b2z (w_atd w) + 8 * Z.b2z (w_reqd w) +
  16 * Z.b2z (w_blocked w) + 32 * Z.b2z (w_bypass w) + 64 * Z.b2z (w_unwind w).

(** The flags for a level. *)
Definition w_requested (w : Word) (l : SafepointLevel) : bool := match l with kGC => w_req w | kGCAndDeopt => w_reqd w end.
Definition w_is_at (w : Word) (l : SafepointLevel) : bool := match l with kGC => w_at w | kGCAndDeopt => w_at w && w_atd w end.

Definition w_set_at (w : Word) (l : SafepointLevel) (v : bool) : Word :=
  {| w_at := v; w_req := w_req w; w_atd := match l with kGC => w_atd w | kGCAndDeopt => v end;
     w_reqd := w_reqd w; w_blocked := w_blocked w; w_bypass := w_bypass w; w_unwind := w_unwind w |}.
Definition w_set_req (w : Word) (l : SafepointLevel) (v : bool) : Word :=
  {| w_at := w_at w; w_req := match l with kGC => v | _ => w_req w end; w_atd := w_atd w;
     w_reqd := match l with kGCAndDeopt => v | _ => w_reqd w end;
     w_blocked := w_blocked w; w_bypass := w_bypass w; w_unwind := w_unwind w |}.
Definition w_set_blocked (w : Word) (v : bool) : Word :=
  {| w_at := w_at w; w_req := w_req w; w_atd := w_atd w; w_reqd := w_reqd w;
     w_blocked := v; w_bypass := w_bypass w; w_unwind := w_unwind w |}.
Definition w_set_unwind (w : Word) (v : bool) : Word :=
  {| w_at := w_at w; w_req := w_req w; w_atd := w_atd w; w_reqd := w_reqd w;
     w_blocked := w_blocked w; w_bypass := w_bypass w; w_unwind := v |}.
Definition w_zero (bypass : bool) : Word :=
  {| w_at := false; w_req := false; w_atd := false; w_reqd := false; w_blocked := false; w_bypass := bypass; w_unwind := false |}.

Lemma pack_inj w w' : pack w = pack w' -> w = w'.
Proof.
  destruct w as [[] [] [] [] [] [] []], w' as [[] [] [] [] [] [] []]; cbn; intros E; (reflexivity || discriminate).
Qed.

Section Words.
Context `{Target}.

Local Ltac cases w := match goal with H : Target |- _ => destruct H as [[] []] end; destruct w as [[] [] [] [] [] [] []]; by vm_compute.

Lemma pack_is_at l w : state_IsAtSafepoint l (pack w) = w_is_at w l.
Proof. destruct l; cases w. Qed.
Lemma pack_requested l w : IsSafepointLevelRequested (pack w) l = w_requested w l.
Proof. destruct l; cases w. Qed.
Lemma pack_blocked w : IsBlockedForSafepoint (pack w) = w_blocked w.
Proof. cases w. Qed.
Lemma pack_or_at l w : pack w .| AtSafepointBits l = pack (w_set_at w l true).
Proof. destruct l; cases w. Qed.
Lemma pack_and_at l w : pack w .& uintx (Z.lnot (AtSafepointBits l)) = pack (w_set_at w l false).
Proof. destruct l; cases w. Qed.
Lemma pack_bypass w : (decode BypassSafepointsField (pack w) =? 0) = negb (w_bypass w).
Proof. cases w. Qed.
Lemma pack_set_blocked w v : update BlockedForSafepointField (Z.b2z v) (pack w) = Ok (pack (w_set_blocked w v)).
Proof. destruct v; cases w. Qed.
Lemma pack_new v : SetBypassSafepoints v 0 = Ok (pack (w_zero v)).
Proof. destruct v, H as [[] []]; by vm_compute. Qed.
Lemma pack_at_state T : at_safepoint_state T = pack (w_set_at (w_zero false) (current_safepoint_level T) true).
Proof. unfold at_safepoint_state. destruct (current_safepoint_level T), H as [[] []]; by vm_compute. Qed.

(** The word of a thread. *)
Definition has_word (T : Thread) (w : Word) : Prop := safepoint_state_ T = pack w.

Lemma has_word_inj T w w' : has_word T w -> has_word T w' -> w = w'.
Proof. unfold has_word. intros -> E. by apply pack_inj. Qed.

Lemma word_IsAtSafepoint T w l : has_word T w -> IsAtSafepoint T l = w_is_at w l.
Proof. unfold has_word, IsAtSafepoint. intros ->. apply pack_is_at. Qed.
Lemma word_requested T w l : has_word T w -> IsSafepointLevelRequested (safepoint_state_ T) l = w_requested w l.
Proof. intros ->. apply pack_requested. Qed.
Lemma word_IsSafepointRequested T w : has_word T w ->
  IsSafepointRequested T = existsb (w_requested w) (levels_down (current_safepoint_level T)).
Proof.
  intros Hw. unfold IsSafepointRequested. destruct (current_safepoint_level T); cbn [levels_down existsb]; by rewrite !(word_requested _ w).
Qed.
Lemma word_bypass T w : has_word T w -> BypassSafepoints T = w_bypass w.
Proof. unfold BypassSafepoints. intros ->. rewrite pack_bypass. apply negb_involutive. Qed.
Lemma word_SetAtSafepoint T w v : has_word T w ->
  has_word (SetAtSafepoint T v) (w_set_at w (current_safepoint_level T) v).
Proof. unfold has_word, SetAtSafepoint. cbn. intros ->. destruct v; [apply pack_or_at | apply pack_and_at]. Qed.
Lemma word_SetRequested T w l v : has_word T w ->
  SetSafepointRequested T l v = (pack w, with_state T (pack (w_set_req w l v))).
Proof.
  unfold has_word, SetSafepointRequested. intros ->. do 2 f_equal. destruct l, v; cases w.
Qed.
Lemma word_SetBlocked T w v : has_word T w ->
  SetBlockedForSafepoint T v = Ok (with_state T (pack (w_set_blocked w v))).
Proof. unfold has_word, SetBlockedForSafepoint. intros ->. by rewrite pack_set_blocked. Qed.
Lemma word_SetUnwind T w v : has_word T w -> has_word (SetUnwindErrorInProgress T v) (w_set_unwind w v).
Proof. unfold has_word, SetUnwindErrorInProgress. cbn. intros ->. destruct v; cases w. Qed.
Lemma word_TryEnter T w : has_word T w ->
  TryEnterSafepoint T = if decide (w = w_zero false) then Some (with_state T (at_safepoint_state T)) else None.
Proof.
  unfold has_word, TryEnterSafepoint. intros ->. destruct (Z.eqb_spec (pack w) 0) as [E|E], (decide (w = w_zero false)) as [E'|E'];
    try done; [|by subst w]. destruct E'. by apply pack_inj.
Qed.
Lemma word_TryExit T w : has_word T w ->
  TryExitSafepoint T = if decide (w = w_set_at (w_zero false) (current_safepoint_level T) true) then Some (with_state T 0) else None.
Proof.
  unfold has_word, TryExitSafepoint. intros ->. rewrite pack_at_state.
  destruct (Z.eqb_spec (pack w) (pack (w_set_at (w_zero false) (current_safepoint_level T) true))) as [E|E].
  - apply pack_inj in E. by rewrite decide_True.
  - rewrite decide_False; [done|]. intros ->. done.
Qed.
End Words.

(** * The invariant of the safepoint protocol

    For every state of an isolate group that can be reached: who owns which level, which
    threads are requested to stop and by whom, how many of them have not parked, who holds
    [threads_lock], and that nobody sleeps without a reason. *)

(** The level of the first operation a thread has begun. *)
Fixpoint outermost (scopes : list SafepointLevel) : option SafepointLevel :=
  match scopes with
  | [] => None
  | [L] => Some L
  | _ :: scopes => outermost scopes
  end.

Lemma outermost_app nested L : outermost (nested ++ [L]) = Some L.
Proof. induction nested as [|l nested IH]; [done|]. cbn. rewrite IH. by destruct nested. Qed.

Section Invariant.
Context `{Target}.
Implicit Types (g : IsolateGroup) (T : Thread) (t x : nat) (l L : SafepointLevel).

(** ** Where a thread stands *)

Definition requested g l x : bool := IsSafepointLevelRequested (safepoint_state_ (threads_ g x)) l.
Definition is_at g l x : bool := IsAtSafepoint (threads_ g x) l.
Definition bypasses g x : bool := BypassSafepoints (threads_ g x).

(** The levels a thread owns, and the threads it wants to stop at a level. *)
Definition owns T l : bool :=
  match phase_ T with
  | Notifying L _ | Parking L | Acquiring L _ _ | Continuing L _ => bool_decide (l = L)
  | Operating => match outermost (scopes_ T) with Some L => level_le l L | None => false end
  | _ => false
  end.
Definition wants T l x : bool :=
  match phase_ T with
  | Notifying L todo => bool_decide (l = L) && bool_decide (x ∉ todo)
  | Parking L | Acquiring L _ _ => bool_decide (l = L)
  | Operating => bool_decide (outermost (scopes_ T) = Some l)
  | Continuing L todo => bool_decide (l = L) && bool_decide (x ∈ todo)
  | _ => false
  end.
(** All threads the operation wants to stop have stopped. *)
Definition settled T l : bool :=
  match phase_ T with
  | Acquiring L _ _ | Continuing L _ => bool_decide (l = L)
  | Operating => bool_decide (outermost (scopes_ T) = Some l)
  | _ => false
  end.
Definition holds T : bool :=
  match phase_ T with Requesting _ Held | Notifying _ _ | Continuing _ _ => true | _ => false end.
(** How often an owner has a level. *)
Definition nesting T l : Z :=
  match phase_ T with
  | Operating => Z.of_nat (count_occ SafepointLevel_eq_dec (scopes_ T) l) + (if bool_decide (outermost (scopes_ T) = Some l) then 0 else 1)
  | _ => 1
  end.

Definition unparked g l : Z :=
  Z.of_nat (length (List.filter (fun x => requested g l x && negb (is_at g l x)) (active_list_ g))).

(** Threads that can change without the others noticing. *)
Definition idle (p : Phase) : bool :=
  match p with
  | Running | Entering | Safe | Exiting _ | Unscheduled | Scheduling _ _ | Requesting _ (Asleep | Awake) => true
  | _ => false
  end.
Definition scheduled (p : Phase) : bool := match p with Unscheduled | Scheduling _ _ => false | _ => true end.
Definition stopped (p : Phase) : bool :=
  match p with Unscheduled | Scheduling _ _ | Running | Entering => false | _ => true end.
Definition blocked (p : Phase) : bool := match p with Exiting (Asleep | Awake) => true | _ => false end.
Definition runs (e : ExecutionState) : bool := match e with kThreadInVM | kThreadInGenerated => true | _ => false end.

(** The word fits the phase. *)
Definition word_ok T (w : Word) : Prop :=
  w_blocked w = blocked (phase_ T) /\
  match phase_ T with
  | Unscheduled | Scheduling _ _ => True
  | Running | Entering => w_at w = false /\ w_atd w = false
  | _ => w_at w = true /\ w_atd w = bool_decide (runtime_call_deopt_ability_ T = kCanLazyDeopt)
  end.

Definition phase_ok T : Prop :=
  match phase_ T with
  | Unscheduled | Scheduling _ _ =>
      execution_state_ T = kThreadInNative /\ no_safepoint_scope_depth_ T = 0 /\
      runtime_call_deopt_ability_ T = kCanLazyDeopt
  | Running => runs (execution_state_ T) = true
  | Entering | Safe => runs (execution_state_ T) = false
  | Exiting w => runs (returns_to_ T) = true /\ (w = Asleep -> IsSafepointRequested T = true)
  | Requesting L _ => execution_state_ T = kThreadInVM /\ level_le L (current_safepoint_level T) = true
  | Acquiring L todo w => execution_state_ T = kThreadInVM /\ todo = lower_levels L /\ w <> Held
  | Operating => execution_state_ T = kThreadInVM /\ exists nested L, scopes_ T = nested ++ [L] /\
      Forall (fun l => level_le l L = true) nested
  | _ => execution_state_ T = kThreadInVM
  end.

Record thread_ok g x : Prop := {
  thread_word : exists w, has_word (threads_ g x) w /\ word_ok (threads_ g x) w;
  thread_phase : phase_ok (threads_ g x);
  thread_active : x ∈ active_list_ g <-> scheduled (phase_ (threads_ g x)) = true;
  thread_todo : match phase_ (threads_ g x) with
                | Notifying _ todo | Continuing _ todo => NoDup todo /\ todo ⊆ active_list_ g
                | _ => True
                end
}.

(** A level that is taken, or whose release will be announced. *)
Definition busy g l : Prop :=
  owner_ (handlers_ g l) <> None \/ exists t L todo, phase_ (threads_ g t) = Continuing L todo.
Definition sleeps_well g T : Prop :=
  match phase_ T with
  | Requesting l Asleep => busy g l
  | Acquiring L _ Asleep => exists l, l ∈ lower_levels L /\ busy g l
  | Scheduling b Asleep => b = false /\ (busy g kGC \/ busy g kGCAndDeopt)
  | _ => True
  end.

Record Inv g : Prop := {
  inv_thread : forall x, thread_ok g x;
  inv_nodup : NoDup (active_list_ g);
  inv_own : forall l t, owner_ (handlers_ g l) = Some t <-> owns (threads_ g t) l = true;
  inv_count : forall l, operation_count_ (handlers_ g l) =
    match owner_ (handlers_ g l) with Some t => nesting (threads_ g t) l | None => 0 end;
  inv_req : forall l x, requested g l x = true <->
    x ∈ active_list_ g /\ bypasses g x = false /\ exists t, t <> x /\ wants (threads_ g t) l x = true;
  inv_num : forall l, num_threads_not_parked_ (handlers_ g l) = unparked g l;
  inv_settled : forall l t, settled (threads_ g t) l = true -> unparked g l = 0;
  inv_lock : forall t, threads_lock_ g = Some t <-> holds (threads_ g t) = true;
  inv_sleep : forall t, sleeps_well g (threads_ g t);
  inv_lower : forall t L todo l, phase_ (threads_ g t) = Continuing L todo -> l ∈ lower_levels L ->
    owner_ (handlers_ g l) = None
}.

(** ** Threads and levels of an updated group *)

Lemma set_thread_eq g t T : threads_ (set_thread g t T) t = T.
Proof. cbn. by rewrite decide_True. Qed.
Lemma set_thread_ne g t T x : x <> t -> threads_ (set_thread g t T) x = threads_ g x.
Proof. intros. cbn. by rewrite decide_False. Qed.

Lemma unparked_ext g g' l : active_list_ g' = active_list_ g ->
  (forall x, x ∈ active_list_ g -> requested g' l x && negb (is_at g' l x) = requested g l x && negb (is_at g l x)) ->
  unparked g' l = unparked g l.
Proof.
  intros Ha Hx. unfold unparked. rewrite Ha. do 2 f_equal. apply filter_ext_in. intros x Hin.
  apply Hx. by apply list_elem_of_In.
Qed.

Lemma filter_flip (p p' : nat -> bool) (a : list nat) t : NoDup a -> t ∈ a -> (forall x, x <> t -> p' x = p x) ->
  p t = true -> p' t = false -> length (List.filter p a) = S (length (List.filter p' a)).
Proof.
  intros Hd Ht Hx Hp Hp'. induction a as [|x a IH]; [by apply elem_of_nil in Ht|].
  apply list.NoDup_cons in Hd as [Hn Hd]. cbn. destruct (decide (x = t)) as [->|Hne].
  - rewrite Hp, Hp'. cbn. do 2 f_equal. apply filter_ext_in. intros y Hy. symmetry. apply Hx. intros ->.
    apply Hn. by apply list_elem_of_In.
  - apply elem_of_cons in Ht as [->|Ht]; [done|]. rewrite Hx by done. destruct (p x); cbn; by rewrite IH.
Qed.

(** A thread's word decides its flags. *)
Lemma requested_word g l x w : has_word (threads_ g x) w -> requested g l x = w_requested w l.
Proof. apply word_requested. Qed.
Lemma is_at_word g l x w : has_word (threads_ g x) w -> is_at g l x = w_is_at w l.
Proof. apply word_IsAtSafepoint. Qed.
Lemma bypasses_word g x w : has_word (threads_ g x) w -> bypasses g x = w_bypass w.
Proof. apply word_bypass. Qed.

Lemma idle_no_role T : idle (phase_ T) = true ->
  (forall l, owns T l = false) /\ (forall l x, wants T l x = false) /\ (forall l, settled T l = false) /\ holds T = false.
Proof. unfold owns, wants, settled, holds. destruct (phase_ T) as [| | | | | |? []| | | | |]; by intros. Qed.

Lemma idle_not_continuing T L todo : idle (phase_ T) = true -> phase_ T <> Continuing L todo.
Proof. by destruct (phase_ T). Qed.

Lemma stopped_at g x l : thread_ok g x -> stopped (phase_ (threads_ g x)) = true ->
  is_at g l x = level_le l (current_safepoint_level (threads_ g x)).
Proof.
  intros [(w & Hw & _ & Hok) _ _ _] Hs. rewrite (is_at_word _ _ _ w Hw). unfold current_safepoint_level.
  destruct (phase_ (threads_ g x)); try done; destruct Hok as [E1 E2]; unfold w_is_at; rewrite E1, E2;
    destruct l, (runtime_call_deopt_ability_ (threads_ g x)); done.
Qed.

Lemma not_stopped_at g x l : thread_ok g x -> scheduled (phase_ (threads_ g x)) = true ->
  stopped (phase_ (threads_ g x)) = false -> is_at g l x = false.
Proof.
  intros [(w & Hw & _ & Hok) _ _ _] Hc Hs. rewrite (is_at_word _ _ _ w Hw).
  destruct (phase_ (threads_ g x)); try done; destruct Hok as [E1 E2]; unfold w_is_at; rewrite E1; by destruct l.
Qed.

(** ** Steps of one thread *)

Lemma busy_same g g' l : (owner_ (handlers_ g l) <> None -> owner_ (handlers_ g' l) <> None) ->
  (forall t L todo, phase_ (threads_ g t) = Continuing L todo -> exists t' L' todo', phase_ (threads_ g' t') = Continuing L' todo') ->
  busy g l -> busy g' l.
Proof. intros Ho Hc [Hb|(t & L & todo & Hb)]; [left; auto | right; eauto]. Qed.

Lemma sleeps_same g g' T : (forall l, busy g l -> busy g' l) -> sleeps_well g T -> sleeps_well g' T.
Proof.
  intros Hb. unfold sleeps_well. destruct (phase_ T) as [|b []| | | | |l []| | |L todo []| |]; try done; auto.
  - intros [-> [Hs|Hs]]; auto.
  - intros (l & Hl & Hs). eauto.
Qed.

(** A group in which one thread has changed. *)
Record moved g g' t T' : Prop := {
  moved_eq : threads_ g' t = T';
  moved_ne : forall x, x <> t -> threads_ g' x = threads_ g x;
  moved_active : active_list_ g' = active_list_ g
}.

Lemma moved_set_thread g t T' : moved g (set_thread g t T') t T'.
Proof. split; [apply set_thread_eq | apply set_thread_ne | done]. Qed.

(** The thread tells the others the same. *)
Definition same_requests (w w' : Word) : Prop :=
  (forall l, w_requested w' l = w_requested w l) /\ w_bypass w' = w_bypass w.

(** A thread without a role in an operation, but for holding [threads_lock]. *)
Definition roleless T : Prop :=
  (forall l, owns T l = false) /\ (forall l x, wants T l x = false) /\ (forall l, settled T l = false).

Lemma idle_roleless T : idle (phase_ T) = true -> roleless T /\ holds T = false.
Proof. intros Hi. destruct (idle_no_role T Hi) as (? & ? & ? & ?). split; [split_and!|]; done. Qed.

Lemma moved_requested g g' t T' w w' : moved g g' t T' -> has_word (threads_ g t) w -> has_word T' w' -> same_requests w w' ->
  (forall l x, requested g' l x = requested g l x) /\ (forall x, bypasses g' x = bypasses g x).
Proof.
  intros [Et En _] Hw Hw' [Hr Hb]. split; [intros l x | intros x]; destruct (decide (x = t)) as [->|Hn].
  - rewrite (requested_word g l t w Hw), (requested_word g' l t w'); [done | by rewrite Et].
  - unfold requested. by rewrite En.
  - rewrite (bypasses_word g t w Hw), (bypasses_word g' t w'); [done | by rewrite Et].
  - unfold bypasses. by rewrite En.
Qed.

Lemma inv_roleless g g' t T' w w' : Inv g -> moved g g' t T' ->
  roleless (threads_ g t) -> holds (threads_ g t) = false -> roleless T' ->
  scheduled (phase_ T') = scheduled (phase_ (threads_ g t)) ->
  has_word (threads_ g t) w -> has_word T' w' -> word_ok T' w' -> same_requests w w' ->
  phase_ok T' -> sleeps_well g T' ->
  (forall l, owner_ (handlers_ g' l) = owner_ (handlers_ g l) /\ operation_count_ (handlers_ g' l) = operation_count_ (handlers_ g l) /\
     num_threads_not_parked_ (handlers_ g' l) = unparked g' l /\ unparked g' l <= unparked g l) ->
  (if holds T' then threads_lock_ g = None /\ threads_lock_ g' = Some t else threads_lock_ g' = threads_lock_ g) -> Inv g'.
Proof.
  intros Hinv Hmv (R1 & R2 & R3) R4 (R1' & R2' & R3') Hsch Hw Hw' Hok Hr Hp Hs Hh Hl.
  destruct (moved_requested _ _ _ _ _ _ Hmv Hw Hw' Hr) as [Eq Eb]. destruct Hmv as [Et En Ea].
  destruct Hinv as [It In Io Ic Ir Iu Is Il Iz Iw].
  assert (forall x l, owns (threads_ g' x) l = owns (threads_ g x) l) as Eo.
  { intros x l. destruct (decide (x = t)) as [->|Hn]; [by rewrite Et, R1, R1' | by rewrite En]. }
  assert (forall x l y, wants (threads_ g' x) l y = wants (threads_ g x) l y) as Ew.
  { intros x l y. destruct (decide (x = t)) as [->|Hn]; [by rewrite Et, R2, R2' | by rewrite En]. }
  assert (forall l, busy g l -> busy g' l) as Ebusy.
  { intros l. apply busy_same; [by destruct (Hh l) as [-> _]|]. intros x L todo Hx. exists x, L, todo. rewrite En; [done|].
    intros ->. specialize (R1 L). unfold owns in R1. rewrite Hx in R1. by rewrite bool_decide_eq_true_2 in R1. }
  split.
  - intros x. destruct (decide (x = t)) as [->|Hn].
    + split; rewrite Et; [by exists w' | done | rewrite Hsch, Ea; apply (thread_active _ _ (It t)) |].
      destruct (phase_ T') as [| | | | | | |L todo| | | |L todo] eqn:E; try done;
        specialize (R1' L); unfold owns in R1'; rewrite E in R1'; by rewrite bool_decide_eq_true_2 in R1'.
    + destruct (It x) as [T1 T2 T3 T4]. split; rewrite ?Ea, En by done; done.
  - by rewrite Ea.
  - intros l x. destruct (Hh l) as [-> _]. rewrite Eo. apply Io.
  - intros l. destruct (Hh l) as (-> & -> & _). rewrite Ic. destruct (owner_ (handlers_ g l)) as [o|] eqn:E; [|done].
    assert (o <> t) by (intros ->; apply Io in E; by rewrite R1 in E). by rewrite En.
  - intros l x. rewrite Eq, Ir, Eb, Ea. by setoid_rewrite Ew.
  - intros l. apply Hh.
  - intros l x Hx. assert (unparked g l = 0) as E0; [|destruct (Hh l) as (_ & _ & _ & Hle); rewrite E0 in Hle; unfold unparked in *; lia].
    apply (Is l x). destruct (decide (x = t)) as [->|Hn]; [by rewrite Et, R3' in Hx | by rewrite En in Hx].
  - intros x. destruct (holds T') eqn:Eh.
    + destruct Hl as [Hl0 Hl]. rewrite Hl. destruct (decide (x = t)) as [->|Hn]; [by rewrite Et, Eh|].
      rewrite En, <- Il, Hl0 by done. split; [congruence | done].
    + rewrite Hl, Il. destruct (decide (x = t)) as [->|Hn]; [by rewrite Et, R4, Eh | by rewrite En].
  - intros x. apply (sleeps_same g); [done|]. destruct (decide (x = t)) as [->|Hn]; [by rewrite Et | by rewrite En].
  - intros x L todo l Hx. destruct (Hh l) as [-> _]. apply (Iw x L todo l). destruct (decide (x = t)) as [->|Hn]; [|by rewrite En in Hx].
    exfalso. rewrite Et in Hx. specialize (R1' L). unfold owns in R1'. rewrite Hx in R1'. by rewrite bool_decide_eq_true_2 in R1'.
Qed.

(** A thread that stays stopped, or stays running, as far as requests go. *)
Lemma inv_idle g g' t T' w w' : Inv g -> moved g g' t T' -> (forall l, handlers_ g' l = handlers_ g l) ->
  idle (phase_ (threads_ g t)) = true -> idle (phase_ T') = true -> threads_lock_ g' = threads_lock_ g ->
  scheduled (phase_ T') = scheduled (phase_ (threads_ g t)) ->
  has_word (threads_ g t) w -> has_word T' w' -> word_ok T' w' -> same_requests w w' ->
  (forall l, w_requested w l = true -> w_is_at w' l = w_is_at w l) ->
  phase_ok T' -> sleeps_well g T' -> Inv g'.
Proof.
  intros Hinv Hmv Hh Hi Hi' Hl Hsch Hw Hw' Hok Hr Ha Hp Hs.
  destruct (idle_roleless _ Hi) as [R1 R2], (idle_roleless _ Hi') as [R1' R2'].
  destruct (moved_requested _ _ _ _ _ _ Hmv Hw Hw' Hr) as [Eq Eb].
  assert (forall l, unparked g' l = unparked g l) as Eu.
  { intros l. apply unparked_ext; [apply Hmv|]. intros x _. rewrite Eq. destruct (decide (x = t)) as [->|Hn].
    - destruct (requested g l t) eqn:E; [|done]. rewrite (requested_word g l t w Hw) in E.
      rewrite (is_at_word g l t w Hw), (is_at_word g' l t w') by by rewrite (moved_eq _ _ _ _ Hmv). by rewrite Ha.
    - unfold is_at. by rewrite (moved_ne _ _ _ _ Hmv). }
  apply (inv_roleless g g' t T' w w'); try done.
  - intros l. rewrite Hh, Eu. split_and!; [done | done | apply Hinv | lia].
  - by rewrite R2'.
Qed.

(** ** Entering a safepoint *)

(** The levels at which thread [t] is waited for and stops. *)
Definition reports T l : bool := IsSafepointLevelRequestedLocked T l.

Lemma notify_parked_spec t levels : forall g, NoDup levels ->
  (forall l, l ∈ levels -> reports (threads_ g t) l = true ->
     owner_ (handlers_ g l) <> None /\ 0 < num_threads_not_parked_ (handlers_ g l)) ->
  exists g', notify_parked t levels g = Ok g' /\ threads_ g' = threads_ g /\ active_list_ g' = active_list_ g /\
    threads_lock_ g' = threads_lock_ g /\
    forall l, handlers_ g' l = if bool_decide (l ∈ levels) && reports (threads_ g t) l
      then with_not_parked (handlers_ g l) (num_threads_not_parked_ (handlers_ g l) - 1) else handlers_ g l.
Proof.
  induction levels as [|l0 levels IH]; intros g Hd Hl; cbn [notify_parked]; [by exists g|].
  apply list.NoDup_cons in Hd as [Hn Hd].
  assert (exists g1, (if IsSafepointLevelRequestedLocked (threads_ g t) l0 then NotifyWeAreParked g l0 else Ok g) = Ok g1 /\
    threads_ g1 = threads_ g /\ active_list_ g1 = active_list_ g /\ threads_lock_ g1 = threads_lock_ g /\
    forall l, handlers_ g1 l = if bool_decide (l = l0) && reports (threads_ g t) l
      then with_not_parked (handlers_ g l) (num_threads_not_parked_ (handlers_ g l) - 1) else handlers_ g l)
    as (g1 & E1 & T1 & A1 & L1 & H1').
  { unfold reports in *. destruct (IsSafepointLevelRequestedLocked (threads_ g t) l0) eqn:E.
    - destruct (Hl l0) as [Ho Hp]; [left | done |]. eexists. unfold NotifyWeAreParked.
      rewrite ASSERT_bind by by apply bool_decide_eq_true. rewrite ASSERT_bind by by apply Z.ltb_lt.
      split_and!; [reflexivity | done..|]. intros l. cbn. case_decide as Ed; subst.
      + by rewrite bool_decide_eq_true_2, E.
      + by rewrite bool_decide_eq_false_2.
    - exists g. split_and!; [done..|]. intros l. case_bool_decide; subst; [by rewrite E | done]. }
  destruct (IH g1 Hd) as (g2 & E2 & T2 & A2 & L2 & H2').
  { intros l Hin. rewrite T1, H1'. rewrite bool_decide_eq_false_2 by (intros ->; done). apply Hl. by right. }
  exists g2. rewrite E1. cbn. rewrite E2, T2, A2, L2. split_and!; [done..|].
  intros l. rewrite H2', H1', T1. destruct (decide (l = l0)) as [->|Hne].
  - rewrite (bool_decide_eq_false_2 (l0 ∈ levels)) by done. rewrite (bool_decide_eq_true_2 (l0 = l0)) by done.
    rewrite (bool_decide_eq_true_2 (l0 ∈ l0 :: levels)) by left. done.
  - rewrite (bool_decide_eq_false_2 (l = l0)) by done. cbn [andb].
    by rewrite (bool_decide_ext (l ∈ l0 :: levels) (l ∈ levels)) by (rewrite elem_of_cons; tauto).
Qed.

Lemma levels_down_nodup l : NoDup (levels_down l).
Proof. apply (bool_decide_unpack _). by destruct l. Qed.
Lemma level_le_down l L : level_le l L = bool_decide (l ∈ levels_down L).
Proof. done. Qed.
Lemma wants_owns T l x : wants T l x = true -> owns T l = true.
Proof.
  unfold wants, owns. destruct (phase_ T); try done; rewrite ?andb_true_iff; try tauto.
  intros E%bool_decide_eq_true. rewrite E. by destruct l.
Qed.

Lemma requested_owner g l x : Inv g -> requested g l x = true -> exists o, owner_ (handlers_ g l) = Some o /\ o <> x /\ wants (threads_ g o) l x = true.
Proof.
  intros Hinv Hr. apply (inv_req g Hinv) in Hr as (_ & _ & o & Hn & Hw). exists o. split_and!; [|done..].
  apply (inv_own g Hinv). by eapply wants_owns.
Qed.

(** What entering a safepoint does: the thread is at its level, and the operations that wait
    for it there count it. *)
Record entered g g' t : Prop := {
  entered_moved : moved g g' t (SetAtSafepoint (threads_ g t) true);
  entered_lock : threads_lock_ g' = threads_lock_ g;
  entered_handlers : forall l, owner_ (handlers_ g' l) = owner_ (handlers_ g l) /\
    operation_count_ (handlers_ g' l) = operation_count_ (handlers_ g l) /\
    num_threads_not_parked_ (handlers_ g' l) = unparked g' l /\ unparked g' l <= unparked g l
}.

Lemma set_at_same w l : same_requests w (w_set_at w l true).
Proof. by split; [intros []|]. Qed.

Lemma is_at_set_at w l l' : w_atd w = false -> w_is_at (w_set_at w l true) l' = level_le l' l.
Proof. intros E. destruct l, l'; cbn; rewrite ?E; done. Qed.

(** The count of a level when [t] stops there. *)
Lemma unparked_enter g g' t w l : Inv g -> moved g g' t (SetAtSafepoint (threads_ g t) true) ->
  scheduled (phase_ (threads_ g t)) = true -> stopped (phase_ (threads_ g t)) = false -> has_word (threads_ g t) w ->
  unparked g l = unparked g' l + Z.b2z (reports (threads_ g t) l).
Proof.
  intros Hinv Hmv Hsch Hst Hw. pose proof (word_SetAtSafepoint _ w true Hw) as Hw'.
  destruct (moved_requested _ _ _ _ _ _ Hmv Hw Hw' (set_at_same _ _)) as [Eq _].
  pose proof (not_stopped_at g t l (inv_thread g Hinv t) Hsch Hst) as E0.
  assert (w_atd w = false) as Hd.
  { destruct (inv_thread g Hinv t) as [(w0 & Hw0 & _ & Hok) _ _ _]. rewrite (has_word_inj _ _ _ Hw Hw0).
    by destruct (phase_ (threads_ g t)); try done; destruct Hok. }
  assert (is_at g' l t = level_le l (current_safepoint_level (threads_ g t))) as E1.
  { rewrite (is_at_word g' l t _ (eq_ind_r (fun T => has_word T _) Hw' (moved_eq _ _ _ _ Hmv))). by apply is_at_set_at. }
  assert (reports (threads_ g t) l = level_le l (current_safepoint_level (threads_ g t)) && requested g l t) as Er by done.
  destruct (reports (threads_ g t) l) eqn:E; symmetry in Er.
  - apply andb_true_iff in Er as [El Erq]. unfold unparked. rewrite (moved_active _ _ _ _ Hmv).
    rewrite (filter_flip (fun x => requested g l x && negb (is_at g l x)) (fun x => requested g' l x && negb (is_at g' l x)) _ t).
    + cbn [Z.b2z]. lia.
    + apply Hinv.
    + by apply (inv_thread g Hinv t).
    + intros x Hx. rewrite Eq. unfold is_at. by rewrite (moved_ne _ _ _ _ Hmv).
    + by rewrite Erq, E0.
    + by rewrite E1, El, andb_false_r.
  - rewrite Z.add_0_r. apply unparked_ext; [symmetry; apply Hmv|]. intros x _. rewrite Eq. destruct (decide (x = t)) as [->|Hn].
    + rewrite E0, E1. destruct (requested g l t); [|done]. rewrite andb_true_r in Er. by rewrite Er.
    + unfold is_at. by rewrite (moved_ne _ _ _ _ Hmv).
Qed.

Lemma EnterSafepointLocked_spec g t : Inv g -> scheduled (phase_ (threads_ g t)) = true ->
  stopped (phase_ (threads_ g t)) = false ->
  exists g', EnterSafepointLocked t g = Ok g' /\ entered g g' t.
Proof.
  intros Hinv Hsch Hst. destruct (inv_thread g Hinv t) as [(w & Hw & _) _ _ _].
  pose proof (word_SetAtSafepoint _ w true Hw) as Hw'. set (T1 := SetAtSafepoint (threads_ g t) true) in *.
  set (g0 := set_thread g t T1).
  assert (moved g g0 t T1) as Hmv by apply moved_set_thread.
  assert (forall l, reports T1 l = reports (threads_ g t) l) as Erep.
  { intros l. unfold reports, IsSafepointLevelRequestedLocked. f_equal.
    rewrite (word_requested T1 _ l Hw'), (word_requested _ _ l Hw). by destruct l. }
  destruct (notify_parked_spec t (levels_down (current_safepoint_level T1)) g0 (levels_down_nodup _)) as (g' & E & Et & Ea & El & Eh).
  { intros l _ Hr. rewrite (moved_eq _ _ _ _ Hmv), Erep in Hr.
    pose proof (unparked_enter g g0 t w l Hinv Hmv Hsch Hst Hw) as Eu. rewrite Hr in Eu. cbn [Z.b2z] in Eu.
    apply andb_true_iff in Hr as [_ Hr]. change (requested g l t = true) in Hr.
    destruct (requested_owner g l t Hinv Hr) as (o & Eo & _). change (handlers_ g0 l) with (handlers_ g l).
    rewrite Eo, (inv_num g Hinv). split; [done|]. unfold unparked in *. lia. }
  assert (moved g g' t T1) as Hmv' by (split; [rewrite Et; apply Hmv | intros x Hx; rewrite Et; by apply Hmv | by rewrite Ea]).
  exists g'. split; [exact E|]. split; [done | by rewrite El |]. intros l.
  pose proof (unparked_enter g g' t w l Hinv Hmv' Hsch Hst Hw) as Eu. rewrite Eh, (moved_eq _ _ _ _ Hmv), Erep.
  change (handlers_ g0 l) with (handlers_ g l).
  assert (bool_decide (l ∈ levels_down (current_safepoint_level T1)) && reports (threads_ g t) l = reports (threads_ g t) l) as ->.
  { change (bool_decide _) with (level_le l (current_safepoint_level (threads_ g t))).
    unfold reports, IsSafepointLevelRequestedLocked. by destruct (level_le _ _). }
  destruct (reports (threads_ g t) l); cbn [Z.b2z with_not_parked owner_ operation_count_ num_threads_not_parked_] in *;
    rewrite (inv_num g Hinv); split_and!; lia || done.
Qed.

(** Entering, and going on in a state in which the thread is stopped and has no role. *)
Lemma inv_enter g g1 g' t T' : Inv g -> entered g g1 t -> scheduled (phase_ (threads_ g t)) = true ->
  stopped (phase_ (threads_ g t)) = false ->
  moved g1 g' t T' -> (forall l, handlers_ g' l = handlers_ g1 l) ->
  safepoint_state_ T' = safepoint_state_ (SetAtSafepoint (threads_ g t) true) ->
  runtime_call_deopt_ability_ T' = runtime_call_deopt_ability_ (threads_ g t) ->
  roleless T' -> stopped (phase_ T') = true -> blocked (phase_ T') = false -> phase_ok T' -> sleeps_well g T' ->
  (if holds T' then threads_lock_ g = None /\ threads_lock_ g' = Some t else threads_lock_ g' = threads_lock_ g) -> Inv g'.
Proof.
  intros Hinv [Hm1 Hl1 Hh1] Hsch Hst Hm2 Hh Es Ea Hrl Hst' Hb Hp Hs Hl.
  destruct (inv_thread g Hinv t) as [(w & Hw & Hwb & Hwok) _ _ _].
  pose proof (word_SetAtSafepoint _ w true Hw) as Hw1.
  assert (has_word T' (w_set_at w (current_safepoint_level (threads_ g t)) true)) as Hw' by (unfold has_word; by rewrite Es).
  assert (moved g g' t T') as Hmv.
  { split; [apply Hm2 | intros x Hx; by rewrite (moved_ne _ _ _ _ Hm2), (moved_ne _ _ _ _ Hm1) |].
    by rewrite (moved_active _ _ _ _ Hm2), (moved_active _ _ _ _ Hm1). }
  assert (forall l, unparked g' l = unparked g1 l) as Eu.
  { intros l. apply unparked_ext; [apply Hm2|]. intros x _. unfold requested, is_at, IsAtSafepoint.
    destruct (decide (x = t)) as [->|Hn].
    - by rewrite (moved_eq _ _ _ _ Hm2), (moved_eq _ _ _ _ Hm1), Es.
    - by rewrite (moved_ne _ _ _ _ Hm2). }
  apply (inv_roleless g g' t T' w (w_set_at w (current_safepoint_level (threads_ g t)) true)); try done.
  - unfold roleless, owns, wants, settled. by destruct (phase_ (threads_ g t)).
  - unfold holds. by destruct (phase_ (threads_ g t)).
  - rewrite Hsch. by destruct (phase_ T').
  - split.
    + rewrite Hb. cbn. rewrite Hwb. by destruct (phase_ (threads_ g t)).
    + assert (w_atd w = false) as Hd by (by destruct (phase_ (threads_ g t)); try done; destruct Hwok).
      rewrite Ea. unfold current_safepoint_level. destruct (phase_ T'); try done;
        cbn; (split; [done|]); destruct (runtime_call_deopt_ability_ (threads_ g t)); cbn; try done; by rewrite Hd.
  - intros l. rewrite Hh, Eu. apply Hh1.
Qed.
End Invariant.
