(* ===== verification/SafepointSteps.v ===== *)
(** * The steps of the safepoint protocol keep its invariant

    Every step a thread is allowed to take succeeds, no assertion of the protocol fails, and
    the state after it satisfies [Inv] again. *)
From S2P Require Import Prelude Constants Words Macros ObjectHeader Safepoint SafepointInvariant.

Section Steps.
Context `{Target}.
Implicit Types (g : IsolateGroup) (T : Thread) (t x : nat) (l L : SafepointLevel).

(** A step that succeeds. *)
Definition succeeds (r : result IsolateGroup) : Prop := exists g', r = Ok g' /\ Inv g'.

Lemma moved_twice g t T1 T' : moved g (set_thread (set_thread g t T1) t T') t T'.
Proof.
  split; [apply set_thread_eq | | done]. intros x Hx. by rewrite !set_thread_ne by done.
Qed.

Lemma thread_has_word g t : Inv g -> exists w, has_word (threads_ g t) w /\ word_ok (threads_ g t) w.
Proof. intros Hinv. apply (inv_thread g Hinv t). Qed.

(** ** Threads that run *)

(** A step of a running thread that touches neither its word nor its phase. *)
Lemma inv_running g g' t T' : Inv g -> moved g g' t T' -> (forall l, handlers_ g' l = handlers_ g l) ->
  threads_lock_ g' = threads_lock_ g -> phase_ (threads_ g t) = Running -> phase_ T' = Running ->
  safepoint_state_ T' = safepoint_state_ (threads_ g t) -> runs (execution_state_ T') = true -> Inv g'.
Proof.
  intros Hinv Hmv Hh Hl Hp Hp' Es Hr. destruct (thread_has_word g t Hinv) as (w & Hw & Hb & Hok). rewrite Hp in Hb, Hok.
  assert (has_word T' w) as Hw' by (unfold has_word; by rewrite Es).
  apply (inv_idle g g' t T' w w); try done.
  - by rewrite Hp.
  - by rewrite Hp'.
  - by rewrite Hp, Hp'.
  - split; rewrite Hp'; done.
  - unfold phase_ok. by rewrite Hp'.
  - unfold sleeps_well. by rewrite Hp'.
Qed.

Lemma EnterSafepoint_step g t to : Inv g -> phase_ (threads_ g t) = Running -> runs to = false ->
  no_safepoint_scope_depth_ (threads_ g t) = 0 ->
  succeeds (EnterSafepoint t (set_thread g t (set_execution_state (threads_ g t) to))).
Proof.
  intros Hinv Hp Hr Hd. destruct (thread_has_word g t Hinv) as (w & Hw & Hb & Hok). rewrite Hp in Hb, Hok.
  unfold EnterSafepoint. rewrite set_thread_eq. set (T := set_execution_state (threads_ g t) to).
  rewrite ASSERT_bind by (cbn; by rewrite Hd). eexists. split; [reflexivity|].
  assert (has_word T w) as HwT by done. rewrite (word_TryEnter T w HwT). case_decide as Ez.
  - eapply (inv_idle g _ t _ w (w_set_at (w_zero false) (current_safepoint_level T) true));
      [done | apply moved_twice | done | by rewrite Hp | done | done | by rewrite Hp | done | apply pack_at_state | | | | done | done].
    + split; [done|]. unfold current_safepoint_level. cbn. destruct (runtime_call_deopt_ability_ (threads_ g t)); done.
    + subst w. by split; [intros []|].
    + subst w. by intros [].
  - eapply (inv_idle g _ t _ w w); [done | apply moved_twice | done | by rewrite Hp | done | done | by rewrite Hp | done | done | | | done | done | done].
    + by split.
    + by split.
Qed.

(** ** Leaving a safepoint *)

Lemma level_le_refl l : level_le l l = true.
Proof. by destruct l. Qed.

(** No request at the levels the thread answers: its other bits do not matter. *)
Lemma not_requested_level T w l : has_word T w -> IsSafepointRequested T = false ->
  w_requested w l = true -> current_safepoint_level T = kGC /\ l = kGCAndDeopt.
Proof.
  intros Hw. rewrite (word_IsSafepointRequested T w Hw). destruct (current_safepoint_level T), l; cbn;
    intros E E'; rewrite ?E', ?orb_true_r in E; done.
Qed.

Lemma ExitSafepointLocked_step g t w0 : Inv g -> phase_ (threads_ g t) = Exiting w0 -> w0 <> Asleep ->
  succeeds (ExitSafepointLocked t w0 g).
Proof.
  intros Hinv Hp Hw0. destruct (thread_has_word g t Hinv) as (w & Hw & Hb & Hok). rewrite Hp in Hb, Hok. destruct Hok as [Ha Had].
  pose proof (thread_phase _ _ (inv_thread g Hinv t)) as Hph. unfold phase_ok in Hph. rewrite Hp in Hph. destruct Hph as [Hret _].
  set (w1 := w_set_blocked w false).
  assert (exists T1, (match w0 with Awake => SetBlockedForSafepoint (threads_ g t) false | _ => Ok (threads_ g t) end) = Ok T1 /\
    has_word T1 w1 /\ runtime_call_deopt_ability_ T1 = runtime_call_deopt_ability_ (threads_ g t) /\ returns_to_ T1 = returns_to_ (threads_ g t))
    as (T1 & E1 & Hw1 & Ea1 & Er1).
  { destruct w0; [exists (threads_ g t) | done |].
    - split_and!; [done | | done | done]. replace w1 with w; [done|]. unfold w1. destruct w. cbn in *. by subst.
    - rewrite (word_SetBlocked _ _ _ Hw). by eexists. }
  unfold ExitSafepointLocked. rewrite E1. cbn [mbind result_bind].
  destruct (IsSafepointRequested T1) eqn:Eq.
  - rewrite (word_SetBlocked _ _ _ Hw1). eexists. split; [reflexivity|].
    eapply (inv_idle g _ t _ w (w_set_blocked w1 true)); [done | apply moved_set_thread | done | by rewrite Hp | done | done
      | by rewrite Hp | done | done | | | | | done].
    + split; [done|]. cbn. rewrite Ea1. done.
    + by split; [intros []|].
    + by intros [].
    + cbn. rewrite Er1. split; [done|]. intros _. rewrite <- Eq. erewrite !word_IsSafepointRequested; [|exact Hw1 | reflexivity].
      done.
  - pose proof (word_SetAtSafepoint T1 w1 false Hw1) as Hw2. cbv zeta. rewrite ASSERT_bind.
    2:{ apply negb_true_iff. rewrite (word_IsSafepointRequested _ _ Hw2). rewrite (word_IsSafepointRequested _ _ Hw1) in Eq.
        revert Eq. unfold current_safepoint_level. cbn [SetAtSafepoint with_state runtime_call_deopt_ability_].
        by destruct (runtime_call_deopt_ability_ T1). }
    eexists. split; [reflexivity|].
    eapply (inv_idle g _ t _ w (w_set_at w1 (current_safepoint_level T1) false)); [done | apply moved_set_thread | done | by rewrite Hp
      | done | done | by rewrite Hp | done | exact Hw2 | | | | cbn; by rewrite Er1 | done].
    + split; [done|]. cbn. unfold current_safepoint_level. rewrite Ea1. split; [done|].
      destruct (runtime_call_deopt_ability_ (threads_ g t)); cbn; [done | by rewrite Had].
    + by split; [intros []|].
    + intros l Hl. destruct (not_requested_level T1 w1 l Hw1 Eq) as [Ec ->]; [by destruct l|].
      rewrite Ec. unfold current_safepoint_level in Ec. rewrite Ea1 in Ec.
      destruct (runtime_call_deopt_ability_ (threads_ g t)); [done|]. cbn. by rewrite Had, andb_false_r.
Qed.

Lemma ExitSafepoint_step g t to : Inv g -> phase_ (threads_ g t) = Safe -> runs to = true ->
  succeeds (ExitSafepoint t (set_thread g t (with_return (threads_ g t) to))).
Proof.
  intros Hinv Hp Hr. destruct (thread_has_word g t Hinv) as (w & Hw & Hb & Hok). rewrite Hp in Hb, Hok. destruct Hok as [Ha Had].
  unfold ExitSafepoint. rewrite set_thread_eq. set (T := with_return (threads_ g t) to). assert (has_word T w) as HwT by done.
  rewrite (word_TryExit T w HwT). destruct (decide (w = _)) as [Ez|Ez].
  - eexists. split; [reflexivity|].
    eapply (inv_idle g _ t _ w (w_zero false)); [done | apply moved_twice | done | by rewrite Hp | done | done | by rewrite Hp | done | done
      | by split | | | done | done].
    + rewrite Ez. by split; [intros []|].
    + rewrite Ez. by intros [].
  - unfold ExitSafepointUsingLock. rewrite set_thread_eq. rewrite ASSERT_bind.
    + eexists. split; [reflexivity|]. unfold set_phase. rewrite set_thread_eq.
      eapply (inv_idle g _ t _ w w); [done | apply moved_twice | done | by rewrite Hp | done | done | by rewrite Hp | done | done
        | by split | by split | done | by split | done].
    + pose proof (stopped_at g t (current_safepoint_level T) (inv_thread g Hinv t)) as E. rewrite Hp in E.
      unfold is_at in E. change (IsAtSafepoint T _) with (IsAtSafepoint (threads_ g t) (current_safepoint_level T)).
      rewrite E by done. apply level_le_refl.
Qed.

(** ** Blocking *)

Lemma requested_not_bypassed g t : Inv g -> IsSafepointRequested (threads_ g t) = true -> BypassSafepoints (threads_ g t) = false.
Proof.
  intros Hinv Hr. apply existsb_exists in Hr as (l & _ & Hl). by apply (inv_req g Hinv l t) in Hl as (_ & Hb & _).
Qed.

Lemma BlockForSafepoint_step g t : Inv g -> phase_ (threads_ g t) = Running -> IsSafepointRequested (threads_ g t) = true ->
  succeeds (BlockForSafepoint t g).
Proof.
  intros Hinv Hp Hr. unfold BlockForSafepoint. rewrite ASSERT_bind by by rewrite requested_not_bypassed. rewrite Hr.
  destruct (EnterSafepointLocked_spec g t Hinv) as (g1 & E & He); [by rewrite Hp.. |]. rewrite E. cbn [mbind result_bind].
  eexists. split; [reflexivity|]. pose proof (entered_moved _ _ _ He) as Hm. rewrite (moved_eq _ _ _ _ Hm).
  pose proof (thread_phase _ _ (inv_thread g Hinv t)) as Hph. unfold phase_ok in Hph. rewrite Hp in Hph.
  eapply (inv_enter g g1); [done | done | by rewrite Hp | by rewrite Hp | apply moved_set_thread | done | done | done | done | done | done | | done |].
  - by split.
  - apply He.
Qed.

(** ** Waking up *)

Local Ltac wake_cases T := unfold wake, wake_lock;
  destruct (phase_ T) as [|b []| | | |[]|l' []| | |L todo []| |] eqn:Ep; cbn; rewrite ?Ep.

Lemma wake_role T : (forall l, owns (wake T) l = owns T l) /\ (forall l x, wants (wake T) l x = wants T l x) /\
  (forall l, settled (wake T) l = settled T l) /\ holds (wake T) = holds T /\ (forall l, nesting (wake T) l = nesting T l) /\
  safepoint_state_ (wake T) = safepoint_state_ T /\ scheduled (phase_ (wake T)) = scheduled (phase_ T) /\
  (forall L todo, phase_ T = Continuing L todo <-> phase_ (wake T) = Continuing L todo).
Proof. unfold owns, wants, settled, holds, nesting. wake_cases T; split_and!; done. Qed.

Lemma wake_ok g g' x : thread_ok g x -> active_list_ g' = active_list_ g -> threads_ g' x = wake (threads_ g x) -> thread_ok g' x.
Proof.
  intros [(w & Hw & Hok) T2 T3 T4] Ea E. destruct (wake_role (threads_ g x)) as (_ & _ & _ & _ & _ & Es & Esch & _). split; rewrite ?Ea, E.
  - exists w. split; [unfold has_word in *; by rewrite Es|]. revert Hok. unfold word_ok. wake_cases (threads_ g x); done.
  - revert T2. unfold phase_ok. wake_cases (threads_ g x); try done; try tauto. intros (? & ? & _). by split_and!.
  - by rewrite T3, Esch.
  - revert T4. wake_cases (threads_ g x); done.
Qed.

Lemma wake_sleeps g T : sleeps_well g T -> sleeps_well g (wake T).
Proof. unfold sleeps_well. wake_cases T; done. Qed.

(** Threads are woken: the operations they wait for stay as they are. *)
Lemma inv_woken g g' : Inv g -> active_list_ g' = active_list_ g -> (forall l, handlers_ g' l = handlers_ g l) ->
  threads_lock_ g' = threads_lock_ g -> (forall x, threads_ g' x = threads_ g x \/ threads_ g' x = wake (threads_ g x)) -> Inv g'.
Proof.
  intros Hinv Ea Hh Hl Ht.
  assert (forall l x, owns (threads_ g' x) l = owns (threads_ g x) l /\ nesting (threads_ g' x) l = nesting (threads_ g x) l /\
    settled (threads_ g' x) l = settled (threads_ g x) l /\ holds (threads_ g' x) = holds (threads_ g x) /\
    (forall y, wants (threads_ g' x) l y = wants (threads_ g x) l y) /\ safepoint_state_ (threads_ g' x) = safepoint_state_ (threads_ g x) /\
    (forall L todo, phase_ (threads_ g x) = Continuing L todo <-> phase_ (threads_ g' x) = Continuing L todo)) as Er.
  { intros l x. destruct (Ht x) as [->| ->]; [by split_and!|]. by destruct (wake_role (threads_ g x)) as (? & ? & ? & ? & ? & ? & ? & ?). }
  assert (forall x, safepoint_state_ (threads_ g' x) = safepoint_state_ (threads_ g x)) as Es by (intros x; apply (Er kGC x)).
  assert (forall l, unparked g' l = unparked g l) as Eu.
  { intros l. apply unparked_ext; [done|]. intros x _. unfold requested, is_at, IsAtSafepoint. by rewrite Es. }
  assert (forall l, busy g l -> busy g' l) as Eb.
  { intros l. apply busy_same; [by rewrite Hh|]. intros x L todo Hx. exists x, L, todo. by apply (Er kGC x). }
  destruct Hinv as [It In Io Ic Ir Iu Is Il Iz Iw]. split.
  - intros x. destruct (Ht x) as [E|E]; [|by apply (wake_ok g)].
    destruct (It x) as [T1 T2 T3 T4]. split; rewrite ?Ea, E; done.
  - by rewrite Ea.
  - intros l x. rewrite Hh, Io. by destruct (Er l x) as [-> _].
  - intros l. rewrite Hh, Ic. destruct (owner_ (handlers_ g l)) as [o|]; [|done]. by destruct (Er l o) as (_ & -> & _).
  - intros l x. assert (requested g' l x = requested g l x) as -> by (unfold requested; by rewrite Es).
    assert (bypasses g' x = bypasses g x) as -> by (unfold bypasses, BypassSafepoints; by rewrite Es). rewrite Ea, Ir.
    assert (forall o, wants (threads_ g' o) l x = wants (threads_ g o) l x) as Ew by (intros o; apply (Er l o)). by setoid_rewrite Ew.
  - intros l. by rewrite Hh, Eu.
  - intros l x Hx. rewrite Eu. apply (Is l x). by destruct (Er l x) as (_ & _ & <- & _).
  - intros x. rewrite Hl, Il. by destruct (Er kGC x) as (_ & _ & _ & -> & _).
  - intros x. apply (sleeps_same g); [done|]. specialize (Iz x). destruct (Ht x) as [->| ->]; [done | by apply wake_sleeps].
  - intros x L todo l Hx. rewrite Hh. apply (Iw x L todo l). by apply (Er kGC x).
Qed.

(** ** Transitions *)

Lemma running_not_owner g t : Inv g -> phase_ (threads_ g t) = Running -> IsOwnedByTheThread t g = false.
Proof.
  intros Hinv Hp. unfold IsOwnedByTheThread. cbn. 
  assert (forall l, owner_ (handlers_ g l) <> Some t) as Hn.
  { intros l E. apply (inv_own g Hinv) in E. unfold owns in E. by rewrite Hp in E. }
  by rewrite !bool_decide_eq_false_2 by apply Hn.
Qed.

Lemma enter_from_step g t from to : Inv g -> phase_ (threads_ g t) = Running -> runs to = false ->
  execution_state_ (threads_ g t) = from -> no_safepoint_scope_depth_ (threads_ g t) = 0 -> succeeds (enter_from t from to g).
Proof.
  intros Hinv Hp Hr He Hd. unfold enter_from. rewrite ASSERT_bind by by apply bool_decide_eq_true.
  by apply EnterSafepoint_step.
Qed.

Lemma exit_to_step g t from to : Inv g -> phase_ (threads_ g t) = Safe -> runs to = true ->
  execution_state_ (threads_ g t) = from -> succeeds (exit_to t from to g).
Proof.
  intros Hinv Hp Hr He. unfold exit_to. rewrite ASSERT_bind by by apply bool_decide_eq_true.
  by apply ExitSafepoint_step.
Qed.

Lemma set_state_step g t e : Inv g -> phase_ (threads_ g t) = Running -> runs e = true ->
  Inv (set_thread g t (set_execution_state (threads_ g t) e)).
Proof. intros Hinv Hp Hr. by eapply inv_running; [done | apply moved_set_thread | ..]. Qed.

Lemma check_step g t : Inv g -> phase_ (threads_ g t) = Running ->
  succeeds (if IsSafepointRequested (threads_ g t) then BlockForSafepoint t g else Ok g).
Proof.
  intros Hinv Hp. destruct (IsSafepointRequested (threads_ g t)) eqn:E; [by apply BlockForSafepoint_step | by exists g].
Qed.

Lemma transition_step tr g t : Inv g -> phase_ (threads_ g t) = (if leaves tr then Safe else Running) ->
  allowed t (Transit tr) g = true -> succeeds (transition tr t g).
Proof.
  intros Hinv Hp Ha. destruct tr; cbn [leaves] in Hp; cbn [allowed] in Ha; cbn [transition];
    rewrite ?andb_true_iff, ?bool_decide_eq_true, ?Z.eqb_eq in Ha.
  - rewrite ASSERT_bind by by apply bool_decide_eq_true. apply check_step; [by apply set_state_step | by rewrite set_thread_eq].
  - rewrite ASSERT_bind by by apply bool_decide_eq_true. eexists. split; [reflexivity | by apply set_state_step].
  - rewrite ASSERT_bind by by apply bool_decide_eq_true. eexists. split; [reflexivity | by apply set_state_step].
  - destruct Ha. by apply enter_from_step.
  - by apply exit_to_step.
  - rewrite ASSERT_bind by by rewrite running_not_owner. destruct Ha. by apply enter_from_step.
  - by apply exit_to_step.
  - destruct Ha. by apply enter_from_step.
  - by apply exit_to_step.
Qed.

Lemma running_step g t T' : Inv g -> phase_ (threads_ g t) = Running -> phase_ T' = Running ->
  safepoint_state_ T' = safepoint_state_ (threads_ g t) -> execution_state_ T' = execution_state_ (threads_ g t) ->
  Inv (set_thread g t T').
Proof.
  intros Hinv Hp Hp' Es Ee. pose proof (thread_phase _ _ (inv_thread g Hinv t)) as Hph. unfold phase_ok in Hph. rewrite Hp in Hph.
  eapply inv_running; [done | apply moved_set_thread | done | done | done | done | done | by rewrite Ee].
Qed.

Lemma unwind_step g t v : Inv g -> phase_ (threads_ g t) = Running ->
  Inv (set_thread g t (SetUnwindErrorInProgress (threads_ g t) v)).
Proof.
  intros Hinv Hp. destruct (thread_has_word g t Hinv) as (w & Hw & Hb & Hok). rewrite Hp in Hb, Hok.
  pose proof (thread_phase _ _ (inv_thread g Hinv t)) as Hph. unfold phase_ok in Hph. rewrite Hp in Hph.
  eapply (inv_idle g _ t _ w (w_set_unwind w v)); [done | apply moved_set_thread | done | by rewrite Hp | cbn; by rewrite Hp | done
    | done | done | by apply word_SetUnwind | | by split; [intros []|] | by intros [] | |].
  - split; cbn; rewrite Hp; done.
  - unfold phase_ok. cbn. by rewrite Hp.
  - unfold sleeps_well. cbn. by rewrite Hp.
Qed.

(** A thread stopped on the slow path. *)
Lemma EnterSafepointUsingLock_step g t : Inv g -> phase_ (threads_ g t) = Entering -> succeeds (EnterSafepointUsingLock t g).
Proof.
  intros Hinv Hp. unfold EnterSafepointUsingLock.
  destruct (EnterSafepointLocked_spec g t Hinv) as (g1 & E & He); [by rewrite Hp.. |]. rewrite E. cbn [mbind result_bind].
  eexists. split; [reflexivity|]. pose proof (entered_moved _ _ _ He) as Hm. unfold set_phase. rewrite (moved_eq _ _ _ _ Hm).
  pose proof (thread_phase _ _ (inv_thread g Hinv t)) as Hph. unfold phase_ok in Hph. rewrite Hp in Hph.
  eapply (inv_enter g g1); [done | done | by rewrite Hp | by rewrite Hp | apply moved_set_thread | done | done | done | done | done | done | done | done |].
  apply He.
Qed.
End Steps.
