(* ===== verification/SafepointOperations.v ===== *)
(** * Safepoint operations keep the invariant

    The steps of [SafepointThreads] and [ResumeThreads] and the scheduling of threads. *)
From S2P Require Import Prelude Constants Words Macros ObjectHeader Safepoint SafepointInvariant SafepointSteps.

Section Operations.
Context `{Target}.
Implicit Types (g : IsolateGroup) (T : Thread) (t x : nat) (l L : SafepointLevel).

(** ** The thread that operates moves, the others keep their roles *)

Record same_role T T' : Prop := {
  role_owns : forall l, owns T' l = owns T l;
  role_wants : forall l x, wants T' l x = wants T l x;
  role_settled : forall l, settled T' l = settled T l;
  role_holds : holds T' = holds T;
  role_nesting : forall l, nesting T' l = nesting T l;
  role_continues : forall L todo, phase_ T = Continuing L todo <-> phase_ T' = Continuing L todo
}.

Lemma same_role_refl T : same_role T T.
Proof. by split. Qed.

Lemma settled_owns T l : settled T l = true -> owns T l = true.
Proof.
  unfold settled, owns. destruct (phase_ T); try done. intros E%bool_decide_eq_true. rewrite E. apply level_le_refl.
Qed.

(** The thread's phase changes, and what is not its threads or its active list. *)
Lemma moved_phase g g0 t p : threads_ g0 = threads_ g -> active_list_ g0 = active_list_ g ->
  moved g (set_phase g0 t p) t (with_phase (threads_ g t) p).
Proof.
  intros Et Ea. unfold set_phase. rewrite Et. split; [apply set_thread_eq | | done].
  intros x Hx. rewrite set_thread_ne by done. by rewrite Et.
Qed.

(** [threads_lock] goes to the thread or is given up by it, or stays with whoever has it. *)
Definition lock_moves g g' t : Prop :=
  (threads_lock_ g = Some t \/ threads_lock_ g = None) /\ threads_lock_ g' = (if holds (threads_ g' t) then Some t else None) \/
  threads_lock_ g' = threads_lock_ g /\ holds (threads_ g' t) = holds (threads_ g t).

Lemma inv_operator g g' t : Inv g -> active_list_ g' = active_list_ g ->
  (forall y, y <> t -> same_role (threads_ g y) (threads_ g' y) /\ thread_ok g' y /\
     (phase_ (threads_ g' y) = phase_ (threads_ g y) /\ (forall l, busy g l -> busy g' l) \/ sleeps_well g' (threads_ g' y))) ->
  thread_ok g' t -> sleeps_well g' (threads_ g' t) ->
  (forall l, owner_ (handlers_ g' l) = Some t <-> owns (threads_ g' t) l = true) ->
  (forall l o, o <> t -> owner_ (handlers_ g' l) = Some o <-> owner_ (handlers_ g l) = Some o) ->
  (forall l, operation_count_ (handlers_ g' l) = match owner_ (handlers_ g' l) with
     | Some o => if decide (o = t) then nesting (threads_ g' t) l else operation_count_ (handlers_ g l)
     | None => 0 end) ->
  (forall l x, requested g' l x = true <->
     x ∈ active_list_ g /\ bypasses g' x = false /\ exists o, o <> x /\ wants (threads_ g' o) l x = true) ->
  (forall l, num_threads_not_parked_ (handlers_ g' l) = unparked g' l /\
     (unparked g' l <= unparked g l \/ owns (threads_ g' t) l = true)) ->
  (forall l, settled (threads_ g' t) l = true -> unparked g' l = 0) ->
  lock_moves g g' t -> (forall y L todo l, phase_ (threads_ g' y) = Continuing L todo -> l ∈ lower_levels L -> owner_ (handlers_ g' l) = None) -> Inv g'.
Proof.
  intros Hinv Ea Hy Ht Hst Ho Ho' Hc Hr Hn Hs Hl Hlow.
  assert (forall y l, y <> t -> owns (threads_ g' y) l = owns (threads_ g y) l) as Eo by (intros y l Hne; by apply Hy).
  split.
  - intros y. destruct (decide (y = t)) as [->|Hne]; [done | by apply Hy].
  - rewrite Ea. apply Hinv.
  - intros l y. destruct (decide (y = t)) as [->|Hne]; [apply Ho|]. rewrite Ho', Eo by done. apply Hinv.
  - intros l. rewrite Hc. destruct (owner_ (handlers_ g' l)) as [o|] eqn:E; [|done]. case_decide as Ed; [by subst|].
    rewrite (inv_count g Hinv). pose proof (proj1 (Ho' l o Ed) E) as E'. rewrite E'.
    by rewrite (role_nesting _ _ (proj1 (Hy o Ed))).
  - intros l x. rewrite Ea. apply Hr.
  - intros l. apply Hn.
  - intros l y Hsy. destruct (decide (y = t)) as [->|Hne]; [by apply Hs|].
    destruct (Hn l) as [_ [Hle|Hown]].
    + rewrite (role_settled _ _ (proj1 (Hy y Hne))) in Hsy. apply (inv_settled g Hinv) in Hsy. unfold unparked in *. lia.
    + apply Ho in Hown. rewrite (role_settled _ _ (proj1 (Hy y Hne))) in Hsy. apply settled_owns in Hsy.
      apply (inv_own g Hinv), Ho' in Hsy; [|done]. congruence.
  - intros y. destruct Hl as [[Hl Hl']|[Hl' Hh]].
    + destruct (decide (y = t)) as [->|Hne]; [rewrite Hl'; by destruct (holds (threads_ g' t))|].
      rewrite (role_holds _ _ (proj1 (Hy y Hne))), <- (inv_lock g Hinv), Hl'.
      destruct (holds (threads_ g' t)), Hl as [-> | ->]; split; congruence.
    + rewrite Hl', (inv_lock g Hinv). destruct (decide (y = t)) as [->|Hne]; [by rewrite Hh|].
      by rewrite (role_holds _ _ (proj1 (Hy y Hne))).
  - intros y. destruct (decide (y = t)) as [->|Hne]; [done|]. destruct (Hy y Hne) as (_ & _ & [[E Hb]|?]); [|done].
    pose proof (inv_sleep g Hinv y) as Hsl. apply (sleeps_same g g') in Hsl; [|done].
    revert Hsl. unfold sleeps_well. by rewrite E.
  - exact Hlow.
Qed.

(** Levels are free below a level that is being released. *)
Lemma lower_same g g' t : Inv g -> (forall l, owner_ (handlers_ g' l) = owner_ (handlers_ g l)) ->
  (forall y, y <> t -> phase_ (threads_ g' y) = phase_ (threads_ g y)) ->
  (forall L todo, phase_ (threads_ g' t) <> Continuing L todo) -> (forall y L todo l, phase_ (threads_ g' y) = Continuing L todo -> l ∈ lower_levels L -> owner_ (handlers_ g' l) = None).
Proof.
  intros Hinv Ho Hy Ht y L todo l Hp. rewrite Ho. apply (inv_lower g Hinv y L todo).
  destruct (decide (y = t)) as [->|Hne]; [by apply Ht in Hp | by rewrite <- Hy].
Qed.
Lemma lower_none g g' t : Inv g -> (threads_lock_ g = Some t \/ threads_lock_ g = None) ->
  (forall y, y <> t -> phase_ (threads_ g' y) = phase_ (threads_ g y)) ->
  (forall L todo, phase_ (threads_ g' t) <> Continuing L todo) -> (forall y L todo l, phase_ (threads_ g' y) = Continuing L todo -> l ∈ lower_levels L -> owner_ (handlers_ g' l) = None).
Proof.
  intros Hinv Hl Hy Ht y L todo l Hp. destruct (decide (y = t)) as [->|Hne]; [by apply Ht in Hp|]. rewrite Hy in Hp by done.
  assert (threads_lock_ g = Some y) as E by (apply (inv_lock g Hinv); unfold holds; by rewrite Hp). destruct Hl; congruence.
Qed.

(** Only the operating thread changes, and not its word. *)
Lemma inv_phase g g' t T' : Inv g -> moved g g' t T' ->
  safepoint_state_ T' = safepoint_state_ (threads_ g t) ->
  runtime_call_deopt_ability_ T' = runtime_call_deopt_ability_ (threads_ g t) ->
  stopped (phase_ (threads_ g t)) = true -> stopped (phase_ T') = true ->
  blocked (phase_ (threads_ g t)) = false -> blocked (phase_ T') = false ->
  phase_ok T' -> match phase_ T' with Notifying _ todo | Continuing _ todo => NoDup todo /\ todo ⊆ active_list_ g | _ => True end ->
  sleeps_well g' T' ->
  (forall l, owner_ (handlers_ g' l) = Some t <-> owns T' l = true) ->
  (forall l o, o <> t -> owner_ (handlers_ g' l) = Some o <-> owner_ (handlers_ g l) = Some o) ->
  (forall l, operation_count_ (handlers_ g' l) = match owner_ (handlers_ g' l) with
     | Some o => if decide (o = t) then nesting T' l else operation_count_ (handlers_ g l)
     | None => 0 end) ->
  (forall l x, x ∈ active_list_ g -> wants T' l x = wants (threads_ g t) l x) ->
  (forall l, num_threads_not_parked_ (handlers_ g' l) = num_threads_not_parked_ (handlers_ g l)) ->
  (forall l, settled T' l = true -> unparked g l = 0) ->
  lock_moves g g' t -> (forall l, busy g l -> busy g' l) ->
  (forall y L todo l, phase_ (threads_ g' y) = Continuing L todo -> l ∈ lower_levels L -> owner_ (handlers_ g' l) = None) -> Inv g'.
Proof.
  intros Hinv Hmv Es Ea Hst Hst' Hbl Hbl' Hp Htd Hsl Ho Ho' Hc Hw Hn Hs Hl Hb Hlow.
  destruct (thread_has_word g t Hinv) as (w & Hwd & Hwb & Hwok).
  assert (has_word T' w) as Hwd' by (unfold has_word; by rewrite Es).
  destruct (moved_requested _ _ _ _ _ _ Hmv Hwd Hwd' ltac:(by split)) as [Eq Eb].
  assert (forall l, unparked g' l = unparked g l) as Eu.
  { intros l. apply unparked_ext; [apply Hmv|]. intros x _. rewrite Eq. f_equal. f_equal. unfold is_at, IsAtSafepoint.
    destruct (decide (x = t)) as [->|Hne]; [by rewrite (moved_eq _ _ _ _ Hmv), Es | by rewrite (moved_ne _ _ _ _ Hmv)]. }
  pose proof (moved_eq _ _ _ _ Hmv) as Et. pose proof (moved_ne _ _ _ _ Hmv) as En. pose proof (moved_active _ _ _ _ Hmv) as Eact.
  apply (inv_operator g g' t); rewrite ?Et; try done.
  - intros y Hne. rewrite En by done. split; [apply same_role_refl|]. split; [|left; by split].
    destruct (inv_thread g Hinv y) as [T1 T2 T3 T4]. split; rewrite ?Eact, En by done; done.
  - split; rewrite ?Et, ?Eact; [exists w; split; [done|] | done | | done].
    + split; [rewrite Hwb, Hbl, Hbl'; done|]. rewrite Ea. destruct (phase_ T'); try done; by destruct (phase_ (threads_ g t)).
    + rewrite (thread_active _ _ (inv_thread g Hinv t)). destruct (phase_ T'), (phase_ (threads_ g t)); done.
  - assert (forall o l x, x ∈ active_list_ g -> wants (threads_ g' o) l x = wants (threads_ g o) l x) as Ew.
    { intros o l x Hx. destruct (decide (o = t)) as [->|Hne]; [rewrite Et; auto | by rewrite En]. }
    intros l x. rewrite Eq, Eb, (inv_req g Hinv). split; intros (Hx & Hbx & o & Hox & Hwo); (split_and!; [done | done |]); exists o;
      (split; [done|]); [by rewrite Ew | by rewrite Ew in Hwo].
  - intros l. rewrite Hn, Eu. split; [apply Hinv | left; lia].
  - intros l Hsl'. rewrite Eu. auto.
Qed.

(** ** Levels in use *)

Lemma outermost_in scopes L : outermost scopes = Some L -> L ∈ scopes.
Proof.
  induction scopes as [|l scopes IH]; [done|]. destruct scopes as [|l' scopes]; [intros [= ->]; left|]. intros E. right. by apply IH.
Qed.

Lemma nesting_pos T l : owns T l = true -> 1 <= nesting T l.
Proof.
  unfold owns, nesting. destruct (phase_ T); try lia. destruct (outermost (scopes_ T)) as [L|] eqn:E; [intros _ | done].
  case_bool_decide as Eb; [|lia]. injection Eb as ->. apply outermost_in in E.
  assert (0 < count_occ SafepointLevel_eq_dec (scopes_ T) l)%nat by (apply count_occ_In; by apply list_elem_of_In). lia.
Qed.

Lemma SafepointInProgress_spec g l : Inv g -> SafepointInProgress (handlers_ g l) = Ok (bool_decide (owner_ (handlers_ g l) <> None)).
Proof.
  intros Hinv. pose proof (inv_count g Hinv l) as Hc. unfold SafepointInProgress.
  assert ((0 <? operation_count_ (handlers_ g l)) = bool_decide (owner_ (handlers_ g l) <> None)) as E.
  { rewrite Hc. destruct (owner_ (handlers_ g l)) as [o|] eqn:Eo; [|done]. apply (inv_own g Hinv), nesting_pos in Eo.
    rewrite bool_decide_eq_true_2 by done. apply Z.ltb_lt. lia. }
  rewrite E. rewrite ASSERT_bind by apply eqb_reflx. by rewrite andb_diag.
Qed.

Lemma SetSafepointInProgress_spec g l t : Inv g -> owner_ (handlers_ g l) = None ->
  SetSafepointInProgress (handlers_ g l) t =
  Ok {| owner_ := Some t; operation_count_ := 1; num_threads_not_parked_ := num_threads_not_parked_ (handlers_ g l) |}.
Proof.
  intros Hinv Eo. unfold SetSafepointInProgress. rewrite Eo. rewrite ASSERT_bind by done.
  rewrite ASSERT_bind; [done|]. by rewrite (inv_count g Hinv), Eo.
Qed.

Lemma free_level g l : Inv g -> owner_ (handlers_ g l) = None -> (forall x, requested g l x = false) /\ unparked g l = 0.
Proof.
  intros Hinv Eo. assert (forall x, requested g l x = false) as Hr.
  { intros x. destruct (requested g l x) eqn:E; [|done]. destruct (requested_owner g l x Hinv E) as (o & Eo' & _). congruence. }
  split; [done|]. unfold unparked. replace (List.filter _ _) with (@nil nat); [done|]. symmetry.
  induction (active_list_ g) as [|x a IH]; [done|]. cbn. by rewrite Hr.
Qed.

(** A thread that can take [threads_lock] and does not have it. *)
Lemma lock_none g t : Inv g -> lock_free t g = true -> holds (threads_ g t) = false -> threads_lock_ g = None.
Proof.
  intros Hinv Hf Hh. unfold lock_free in Hf. destruct (threads_lock_ g) as [t'|] eqn:E; [|done]. apply Nat.eqb_eq in Hf as <-.
  apply (inv_lock g Hinv) in E. congruence.
Qed.
Lemma lock_cases g t : lock_free t g = true -> threads_lock_ g = Some t \/ threads_lock_ g = None.
Proof. unfold lock_free. destruct (threads_lock_ g); [|by right]. intros ->%Nat.eqb_eq. by left. Qed.

(** ** Beginning an operation *)

Lemma SafepointThreads_first g t level : Inv g -> phase_ (threads_ g t) = Running -> lock_free t g = true ->
  allowed t (BeginOperation level) g = true -> succeeds (SafepointThreads t level g).
Proof.
  intros Hinv Hp Hl Ha. cbn [allowed] in Ha. rewrite Hp, andb_true_r, !andb_true_iff in Ha. destruct Ha as [[Hd He] Hle].
  assert (forall l, owner_ (handlers_ g l) <> Some t) as Hno.
  { intros l E. apply (inv_own g Hinv) in E. unfold owns in E. by rewrite Hp in E. }
  unfold SafepointThreads. do 3 (rewrite ASSERT_bind by done). cbv zeta. rewrite decide_False by apply Hno.
  assert (AssertWeDoNotOwnLowerLevelSafepoints t level g = Ok tt) as ->.
  { unfold AssertWeDoNotOwnLowerLevelSafepoints, RELEASE_ASSERT. destruct level; cbn; [done|]. by rewrite bool_decide_eq_true_2. }
  destruct (EnterSafepointLocked_spec g t Hinv) as (g1 & E & Hen); [by rewrite Hp.. |]. cbn [mbind result_bind]. rewrite E. cbn [mbind result_bind].
  eexists. split; [reflexivity|]. pose proof (entered_moved _ _ _ Hen) as Hm. unfold set_phase. cbn [threads_ set_lock]. rewrite (moved_eq _ _ _ _ Hm).
  assert (threads_lock_ g = None) as Hnone by (apply (lock_none g t); [done | done | unfold holds; by rewrite Hp]).
  eapply (inv_enter g g1 _ t (with_phase (SetAtSafepoint (threads_ g t) true) (Requesting level Held))); [done | done | by rewrite Hp | by rewrite Hp | | done | done | done | done | done | done | | done | done].
  - split; [apply set_thread_eq | intros x Hx; by rewrite set_thread_ne | done].
  - by apply bool_decide_eq_true in He.
Qed.

Lemma SafepointThreads_again g t level : Inv g -> phase_ (threads_ g t) = Operating -> lock_free t g = true ->
  allowed t (BeginOperation level) g = true -> succeeds (SafepointThreads t level g).
Proof.
  intros Hinv Hp Hl Ha. cbn [allowed] in Ha. rewrite Hp, !andb_true_iff in Ha. destruct Ha as [[[Hd He] Hle] Eo]. apply bool_decide_eq_true in Eo.
  pose proof (thread_phase _ _ (inv_thread g Hinv t)) as Hph. unfold phase_ok in Hph. rewrite Hp in Hph. destruct Hph as (Hex & nested & L & Esc & Hnest).
  pose proof Eo as Hown. apply (inv_own g Hinv) in Hown. unfold owns in Hown. rewrite Hp, Esc, outermost_app in Hown.
  assert (forall l, level_le l L = true -> owner_ (handlers_ g l) = Some t) as HL.
  { intros l Hl'. apply (inv_own g Hinv). unfold owns. by rewrite Hp, Esc, outermost_app. }
  unfold SafepointThreads. do 3 (rewrite ASSERT_bind by done). cbv zeta. rewrite decide_True by done.
  set (h := with_count (handlers_ g level) (operation_count_ (handlers_ g level) + 1)).
  assert (AssertWeOwnLowerLevelSafepoints t level (set_handler g level h) = Ok tt) as ->.
  { unfold AssertWeOwnLowerLevelSafepoints, RELEASE_ASSERT. destruct level; cbn; [done|]. rewrite bool_decide_eq_true_2; [done|].
    apply HL. by destruct L. }
  cbn [mbind result_bind]. eexists. split; [reflexivity|].
  assert (outermost (level :: scopes_ (threads_ g t)) = outermost (scopes_ (threads_ g t))) as Eout by (rewrite Esc; by destruct nested).
  assert (threads_lock_ g = None) as Hnone by (apply (lock_none g t); [done | done | unfold holds; by rewrite Hp]).
  assert (forall l, owner_ (handlers_ (set_handler g level h) l) = owner_ (handlers_ g l)) as Eow by (intros l; cbn; by destruct (decide (l = level)) as [->|]).
  eapply (inv_phase g _ t (with_scopes (threads_ g t) (level :: scopes_ (threads_ g t)))); try done.
  - split; [apply set_thread_eq | intros x Hx; by rewrite set_thread_ne | done].
  - by rewrite Hp.
  - cbn. by rewrite Hp.
  - by rewrite Hp.
  - cbn. by rewrite Hp.
  - unfold phase_ok. cbn. rewrite Hp. split; [done|]. exists (level :: nested), L. by rewrite Esc; split; [|constructor].
  - cbn. by rewrite Hp.
  - unfold sleeps_well. cbn. by rewrite Hp.
  - intros l. change (handlers_ (set_thread _ _ _) l) with (handlers_ (set_handler g level h) l). rewrite Eow, (inv_own g Hinv).
    unfold owns. cbn [with_scopes phase_ scopes_]. by rewrite Hp, Eout.
  - intros l o _. change (handlers_ (set_thread _ _ _) l) with (handlers_ (set_handler g level h) l). by rewrite Eow.
  - intros l. change (handlers_ (set_thread _ _ _) l) with (handlers_ (set_handler g level h) l). rewrite Eow.
    pose proof (inv_count g Hinv l) as Hc. destruct (owner_ (handlers_ g l)) as [o|] eqn:Eo'.
    + destruct (decide (o = t)) as [->|Ed].
      * unfold nesting in *. cbn [with_scopes phase_ scopes_]. rewrite Hp, Eout in *. cbn [count_occ].
        cbn [set_handler handlers_]. destruct (decide (l = level)) as [->|Hne].
        -- unfold h. cbn [with_count operation_count_]. destruct (SafepointLevel_eq_dec level level); [|done]. lia.
        -- destruct (SafepointLevel_eq_dec level l); [congruence | done].
      * cbn [set_handler handlers_]. rewrite decide_False by congruence. done.
    + cbn [set_handler handlers_]. rewrite decide_False by congruence. done.
  - intros l x _. unfold wants. cbn [with_scopes phase_ scopes_]. by rewrite Hp, Eout.
  - intros l. cbn. by destruct (decide (l = level)) as [->|].
  - intros l Hs. apply (inv_settled g Hinv l t). unfold settled in *. cbn [with_scopes phase_ scopes_] in Hs. by rewrite Hp, Eout in *.
  - right. split; [done|]. rewrite set_thread_eq. done.
  - intros l. apply busy_same; [cbn; by destruct (decide (l = level)) as [->|]|]. intros y L' todo Hy. exists y, L', todo. cbn. destruct (decide (y = t)) as [->|]; [congruence | done].
  - apply (lower_same g _ t Hinv); [exact Eow | intros y Hy; by rewrite set_thread_ne |].
    intros L' todo. rewrite set_thread_eq. cbn. by rewrite Hp.
Qed.

(** ** Getting hold of the level *)

(** A thread without a level falls asleep on [threads_lock], or takes the level. *)
Lemma wait_for_level_step g t level w : Inv g -> phase_ (threads_ g t) = Requesting level w -> w <> Asleep -> lock_free t g = true ->
  succeeds (wait_for_level t level g).
Proof.
  intros Hinv Hp Hw Hl. pose proof (thread_phase _ _ (inv_thread g Hinv t)) as Hph. unfold phase_ok in Hph. rewrite Hp in Hph.
  assert (forall l, owner_ (handlers_ g l) <> Some t) as Hno.
  { intros l E. apply (inv_own g Hinv) in E. unfold owns in E. by rewrite Hp in E. }
  unfold wait_for_level. rewrite SafepointInProgress_spec by done. cbn [mbind result_bind]. case_bool_decide as Eo.
  - eexists. split; [reflexivity|]. eapply (inv_phase g _ t (with_phase (threads_ g t) (Requesting level Asleep))); try done.
    + by apply moved_phase.
    + by rewrite Hp.
    + by rewrite Hp.
    + by left.
    + intros l. split; [intros E; by apply Hno in E | done].
    + intros l. cbn. rewrite (inv_count g Hinv). destruct (owner_ (handlers_ g l)) as [o|] eqn:E; [|done].
      destruct (decide (o = t)) as [->|]; [by apply Hno in E | done].
    + intros l x _. unfold wants. by rewrite Hp.
    + left. split; [by apply lock_cases|]. unfold set_phase. by rewrite set_thread_eq.
    + intros l. apply busy_same; [done|]. intros y L' todo Hy. exists y, L', todo. unfold set_phase. rewrite set_thread_ne; [done | intros ->; congruence].
    + apply (lower_none g _ t Hinv); [by apply lock_cases | intros y Hy; by rewrite (moved_ne _ _ _ _ (moved_phase g (set_lock g None) t _ eq_refl eq_refl)) |].
      intros L' todo. unfold set_phase. by rewrite set_thread_eq.
  - assert (owner_ (handlers_ g level) = None) as En by (destruct (owner_ (handlers_ g level)); [by destruct Eo | done]).
    rewrite (SetSafepointInProgress_spec g level t Hinv En). cbn [mbind result_bind num_threads_not_parked_].
    destruct (free_level g level Hinv En) as [Hr Hu]. rewrite ASSERT_bind by by rewrite (inv_num g Hinv), Hu.
    eexists. split; [reflexivity|]. set (h := {| owner_ := Some t; operation_count_ := 1; num_threads_not_parked_ := _ |}).
    assert (forall l, handlers_ (set_handler g level h) l = if decide (l = level) then h else handlers_ g l) as Eh by done.
    eapply (inv_phase g _ t (with_phase (threads_ g t) (Notifying level (active_list_ g)))); try done.
    + by apply moved_phase.
    + by rewrite Hp.
    + by rewrite Hp.
    + exact (proj1 Hph).
    + split; [apply Hinv | done].
    + intros l. cbn. unfold owns. cbn. destruct (decide (l = level)) as [->|Hne]; [by rewrite bool_decide_eq_true_2|].
      rewrite bool_decide_eq_false_2 by done. split; [intros E; by apply Hno in E | done].
    + intros l o Ho. cbn. destruct (decide (l = level)) as [->|Hne]; [|done]. rewrite En. cbn. split; congruence.
    + intros l. cbn. destruct (decide (l = level)) as [->|Hne]; [cbn; by rewrite decide_True|].
      rewrite (inv_count g Hinv). destruct (owner_ (handlers_ g l)) as [o|] eqn:E; [|done].
      destruct (decide (o = t)) as [->|]; [by apply Hno in E | done].
    + intros l x Hx. unfold wants. rewrite Hp. cbn. rewrite (bool_decide_eq_false_2 (x ∉ _)) by tauto. apply andb_false_r.
    + intros l. cbn. by destruct (decide (l = level)) as [->|].
    + left. split; [by apply lock_cases|]. unfold set_phase. by rewrite set_thread_eq.
    + intros l. apply busy_same; [cbn; by destruct (decide (l = level)) as [->|]|].
      intros y L' todo Hy. exists y, L', todo. unfold set_phase. rewrite set_thread_ne; [done | intros ->; congruence].
    + apply (lower_none g _ t Hinv); [by apply lock_cases | intros y Hy; unfold set_phase; by rewrite set_thread_ne |].
      intros L' todo. unfold set_phase. by rewrite set_thread_eq.
Qed.

(** The thread changes its phase and keeps its level. *)
Lemma same_owner_step g g' t T' : Inv g -> moved g g' t T' -> (forall l, handlers_ g' l = handlers_ g l) ->
  safepoint_state_ T' = safepoint_state_ (threads_ g t) ->
  runtime_call_deopt_ability_ T' = runtime_call_deopt_ability_ (threads_ g t) ->
  stopped (phase_ (threads_ g t)) = true -> stopped (phase_ T') = true ->
  blocked (phase_ (threads_ g t)) = false -> blocked (phase_ T') = false ->
  phase_ok T' -> match phase_ T' with Notifying _ _ | Continuing _ _ => False | _ => True end ->
  (forall L todo, phase_ (threads_ g t) <> Continuing L todo) -> sleeps_well g' T' ->
  (forall l, owns T' l = owns (threads_ g t) l) -> (forall l, nesting T' l = nesting (threads_ g t) l) ->
  (forall l x, x ∈ active_list_ g -> wants T' l x = wants (threads_ g t) l x) ->
  (forall l, settled T' l = true -> unparked g l = 0) ->
  lock_moves g g' t -> Inv g'.
Proof.
  intros Hinv Hmv Hh Es Ea Hst Hst' Hbl Hbl' Hp Htd Hnc Hsl Ho Hn Hw Hs Hl.
  apply (inv_phase g g' t T'); try done.
  - by destruct (phase_ T').
  - intros l. rewrite Hh, Ho. apply Hinv.
  - intros l o _. by rewrite Hh.
  - intros l. rewrite Hh, (inv_count g Hinv). destruct (owner_ (handlers_ g l)) as [o|]; [|done].
    destruct (decide (o = t)) as [->|]; [by rewrite Hn | done].
  - intros l. by rewrite Hh.
  - intros l. apply busy_same; [by rewrite Hh|]. intros y L' todo Hy. exists y, L', todo.
    rewrite (moved_ne _ _ _ _ Hmv); [done|]. intros ->. by apply Hnc in Hy.
  - apply (lower_same g g' t Hinv); [intros l; by rewrite Hh | intros y Hy; by rewrite (moved_ne _ _ _ _ Hmv) |].
    intros L' todo E. rewrite (moved_eq _ _ _ _ Hmv) in E. by rewrite E in Htd.
Qed.

Lemma notified_step g t level : Inv g -> phase_ (threads_ g t) = Notifying level [] ->
  Inv (set_phase (set_lock g None) t (Parking level)).
Proof.
  intros Hinv Hp. pose proof (thread_phase _ _ (inv_thread g Hinv t)) as Hph. unfold phase_ok in Hph. rewrite Hp in Hph.
  eapply (same_owner_step g _ t (with_phase (threads_ g t) (Parking level))); try done; try (by rewrite Hp); try (unfold owns, nesting, wants; by rewrite Hp).
  - by apply moved_phase.
  - intros l x _. unfold wants. rewrite Hp. cbn. rewrite (bool_decide_eq_true_2 (x ∉ [])) by apply not_elem_of_nil. by rewrite andb_true_r.
  - left. unfold set_phase. rewrite set_thread_eq. split; [|done]. left. apply (inv_lock g Hinv). unfold holds. by rewrite Hp.
Qed.

Lemma parked_step g t level : Inv g -> phase_ (threads_ g t) = Parking level ->
  num_threads_not_parked_ (handlers_ g level) <= 0 ->
  Inv (set_phase g t (Acquiring level (lower_levels level) Awake)).
Proof.
  intros Hinv Hp Hn. pose proof (thread_phase _ _ (inv_thread g Hinv t)) as Hph. unfold phase_ok in Hph. rewrite Hp in Hph.
  eapply (same_owner_step g _ t (with_phase (threads_ g t) (Acquiring level (lower_levels level) Awake)));
    try done; try (by rewrite Hp); try (unfold owns, nesting, wants; by rewrite Hp).
  - apply moved_set_thread.
  - intros l Hs. unfold settled in Hs. cbn in Hs. apply bool_decide_eq_true in Hs as ->.
    rewrite (inv_num g Hinv) in Hn. unfold unparked in *. lia.
  - right. split; [done|]. unfold set_phase, holds. by rewrite set_thread_eq, Hp.
Qed.

(** ** Requesting and releasing a thread *)

(** A thread's request bits change; its role does not. *)
Lemma same_role_phase T T' : phase_ T' = phase_ T -> scopes_ T' = scopes_ T -> same_role T T'.
Proof. intros Ep Es. split; unfold owns, wants, settled, holds, nesting; by rewrite ?Ep, ?Es. Qed.

Lemma unparked_request g g' x level : Inv g -> active_list_ g' = active_list_ g -> x ∈ active_list_ g ->
  requested g level x = false -> requested g' level x = true ->
  (forall l y, requested g' l y = if bool_decide (l = level /\ y = x) then true else requested g l y) ->
  (forall l y, is_at g' l y = is_at g l y) ->
  forall l, unparked g' l = unparked g l + Z.b2z (bool_decide (l = level) && negb (is_at g level x)).
Proof.
  intros Hinv Ea Hx Hr Hr' Hreq Hat l. destruct (bool_decide (l = level) && negb (is_at g level x)) eqn:E.
  - apply andb_true_iff in E as [El%bool_decide_eq_true Hna%negb_true_iff]. subst l. unfold unparked. rewrite Ea.
    rewrite (filter_flip (fun y => requested g' level y && negb (is_at g' level y)) (fun y => requested g level y && negb (is_at g level y)) _ x).
    + cbn [Z.b2z]. lia.
    + apply Hinv.
    + done.
    + intros y Hy. rewrite Hreq, Hat. rewrite bool_decide_eq_false_2 by tauto. done.
    + by rewrite Hr', Hat, Hna.
    + by rewrite Hr.
  - rewrite Z.add_0_r. apply unparked_ext; [done|]. intros y _. rewrite Hreq, Hat.
    destruct (decide (l = level /\ y = x)) as [Eb|Eb]; [|by rewrite (bool_decide_eq_false_2 _ Eb)].
    rewrite (bool_decide_eq_true_2 _ Eb). destruct Eb as [-> ->]. rewrite bool_decide_eq_true_2 in E by done. cbn in E. by rewrite E, Hr.
Qed.

Lemma notifying_state g t level todo : Inv g -> phase_ (threads_ g t) = Notifying level todo ->
  owner_ (handlers_ g level) = Some t /\ (forall x, requested g level x = true -> x ∉ todo) /\
  threads_lock_ g = Some t /\ NoDup todo /\ todo ⊆ active_list_ g.
Proof.
  intros Hinv Hp. assert (owner_ (handlers_ g level) = Some t) as Eo.
  { apply (inv_own g Hinv). unfold owns. rewrite Hp. by apply bool_decide_eq_true. }
  split_and!; [done | | apply (inv_lock g Hinv); unfold holds; by rewrite Hp | |].
  - intros x Hr. destruct (requested_owner g level x Hinv Hr) as (o & Eo' & _ & Hw). assert (o = t) as -> by congruence.
    unfold wants in Hw. rewrite Hp in Hw. by apply andb_true_iff in Hw as [_ Hw%bool_decide_eq_true].
  - pose proof (thread_todo _ _ (inv_thread g Hinv t)) as Ht. rewrite Hp in Ht. apply Ht.
  - pose proof (thread_todo _ _ (inv_thread g Hinv t)) as Ht. rewrite Hp in Ht. apply Ht.
Qed.

(** In its loop the thread keeps its role, but for the threads it still has to deal with. *)
Record loop_step g t x (p' : Phase) : Prop := {
  loop_owns : forall l, owns (with_phase (threads_ g t) p') l = owns (threads_ g t) l;
  loop_nesting : forall l, nesting (with_phase (threads_ g t) p') l = nesting (threads_ g t) l;
  loop_settled : forall l, settled (with_phase (threads_ g t) p') l = settled (threads_ g t) l;
  loop_holds : holds (with_phase (threads_ g t) p') = holds (threads_ g t);
  loop_wants : forall l y, y <> x -> wants (with_phase (threads_ g t) p') l y = wants (threads_ g t) l y;
  loop_continues : forall L, (exists todo, phase_ (threads_ g t) = Continuing L todo) <-> (exists todo, p' = Continuing L todo);
  loop_sleeps : forall g', sleeps_well g' (with_phase (threads_ g t) p');
  loop_ok : forall g', active_list_ g' = active_list_ g -> threads_ g' t = with_phase (threads_ g t) p' -> thread_ok g' t
}.

(** The next thread is [t] itself or one that bypasses safepoints. *)
Lemma inv_skip g t x p' : Inv g -> loop_step g t x p' -> (bypasses g x = true \/ x = t) -> Inv (set_phase g t p').
Proof.
  intros Hinv Hls Hskip. set (T' := with_phase (threads_ g t) p'). set (g' := set_phase g t p').
  assert (moved g g' t T') as Hmv by by apply moved_phase.
  pose proof (moved_eq _ _ _ _ Hmv) as Et. pose proof (moved_ne _ _ _ _ Hmv) as En.
  assert (forall o l y, y <> x -> wants (threads_ g' o) l y = wants (threads_ g o) l y) as Ew.
  { intros o l y Hy. destruct (decide (o = t)) as [->|Hne]; [rewrite Et; by apply Hls | by rewrite En]. }
  destruct (thread_has_word g t Hinv) as (w & Hw & Hwok).
  destruct (moved_requested _ _ _ _ w w Hmv Hw Hw ltac:(by split)) as [Eq Eb].
  assert (forall l, unparked g' l = unparked g l) as Eu.
  { intros l. apply unparked_ext; [done|]. intros y _. rewrite Eq. do 2 f_equal. unfold is_at, IsAtSafepoint.
    destruct (decide (y = t)) as [->|Hne]; [by rewrite Et | by rewrite En]. }
  assert (forall l, busy g l -> busy g' l) as Hbusy.
  { intros l. apply busy_same; [done|]. intros z L todo' Hz. destruct (decide (z = t)) as [->|Hne]; [|exists z, L, todo'; by rewrite En].
    destruct (proj1 (loop_continues _ _ _ _ Hls L)) as [todo'' E]; [by exists todo'|]. exists t, L, todo''. by rewrite Et. }
  apply (inv_operator g g' t); rewrite ?Et; try done.
  - intros y Hy. rewrite En by done. split; [apply same_role_refl|]. split; [|by left].
    destruct (inv_thread g Hinv y) as [T1 T2 T3 T4]. split; rewrite ?En by done; done.
  - by apply Hls.
  - apply Hls.
  - intros l. change (handlers_ g' l) with (handlers_ g l). rewrite (inv_own g Hinv). by rewrite (loop_owns _ _ _ _ Hls).
  - intros l. change (handlers_ g' l) with (handlers_ g l). rewrite (inv_count g Hinv). destruct (owner_ (handlers_ g l)) as [o|]; [|done].
    destruct (decide (o = t)) as [->|]; [|done]. by rewrite (loop_nesting _ _ _ _ Hls).
  - intros l y. rewrite Eq, Eb, (inv_req g Hinv). destruct (decide (y = x)) as [->|Hy]; [|by setoid_rewrite Ew].
    split; intros (Hx & Hbx & o & Hox & Hwo); (split_and!; [done | done |]); exists o; (split; [done|]);
      (destruct (decide (o = t)) as [->|Hne]; [destruct Hskip; congruence|]); [by rewrite En | by rewrite En in Hwo].
  - intros l. rewrite Eu. split; [apply Hinv | left; lia].
  - intros l Hs. rewrite Eu. rewrite (loop_settled _ _ _ _ Hls) in Hs. by apply (inv_settled g Hinv l t).
  - right. rewrite Et. split; [done | apply (loop_holds _ _ _ _ Hls)].
  - intros y L todo l Hy. change (handlers_ g' l) with (handlers_ g l). destruct (decide (y = t)) as [->|Hne].
    + rewrite Et in Hy. destruct (proj2 (loop_continues _ _ _ _ Hls L)) as [todo'' E]; [by exists todo|]. by apply (inv_lower g Hinv t L todo'').
    + rewrite En in Hy by done. by apply (inv_lower g Hinv y L todo).
Qed.

Lemma loop_thread_ok g t p' : Inv g -> stopped (phase_ (threads_ g t)) = true -> blocked (phase_ (threads_ g t)) = false ->
  stopped p' = true -> blocked p' = false -> phase_ok (with_phase (threads_ g t) p') ->
  match p' with Notifying _ todo | Continuing _ todo => NoDup todo /\ todo ⊆ active_list_ g | _ => True end ->
  forall g', active_list_ g' = active_list_ g -> threads_ g' t = with_phase (threads_ g t) p' -> thread_ok g' t.
Proof.
  intros Hinv Hs Hb Hs' Hb' Hp Ht g' Ea Et. destruct (inv_thread g Hinv t) as [(w & Hw & Hwb & Hwok) T2 T3 T4].
  split; rewrite Et, ?Ea.
  - exists w. split; [done|]. split; [cbn; by rewrite Hwb, Hb, Hb'|]. cbn. destruct p'; try done; by destruct (phase_ (threads_ g t)).
  - done.
  - rewrite T3. cbn. destruct p'; try done; by destruct (phase_ (threads_ g t)).
  - done.
Qed.

Lemma notify_loop g t level x todo : Inv g -> phase_ (threads_ g t) = Notifying level (x :: todo) -> loop_step g t x (Notifying level todo).
Proof.
  intros Hinv Hp. destruct (notifying_state _ _ _ _ Hinv Hp) as (_ & _ & _ & [Hnd1 Hnd]%list.NoDup_cons & Hsub).
  pose proof (thread_phase _ _ (inv_thread g Hinv t)) as Hph. unfold phase_ok in Hph. rewrite Hp in Hph.
  split; unfold owns, nesting, settled, holds, wants; rewrite ?Hp; try done.
  - intros l y Hy. cbn. f_equal. apply bool_decide_ext. rewrite not_elem_of_cons. tauto.
  - intros L. by split; intros [].
  - apply loop_thread_ok; [done | by rewrite Hp | by rewrite Hp | done | done | done |]. split; [done|]. intros y Hy. apply Hsub. by right.
Qed.

(** The operating thread [t] deals with thread [x]: it goes on in its loop, and the requests of
    [x] change. *)
Lemma inv_other g g' t x p' X' : Inv g -> loop_step g t x p' -> t <> x -> x ∈ active_list_ g -> active_list_ g' = active_list_ g ->
  threads_ g' t = with_phase (threads_ g t) p' -> threads_ g' x = X' -> (forall y, y <> t -> y <> x -> threads_ g' y = threads_ g y) ->
  same_role (threads_ g x) X' -> thread_ok g' x -> (phase_ X' = phase_ (threads_ g x) \/ sleeps_well g' X') ->
  bypasses g' x = bypasses g x ->
  (forall l, owner_ (handlers_ g' l) = owner_ (handlers_ g l) /\ operation_count_ (handlers_ g' l) = operation_count_ (handlers_ g l) /\
     num_threads_not_parked_ (handlers_ g' l) = unparked g' l /\
     (unparked g' l <= unparked g l \/ (owns (threads_ g t) l = true /\ settled (threads_ g t) l = false))) ->
  (forall l, requested g' l x = true <-> bypasses g x = false /\ exists o, o <> x /\ wants (threads_ g' o) l x = true) ->
  threads_lock_ g' = threads_lock_ g -> Inv g'.
Proof.
  intros Hinv Hls Htx Hx Ea Et Ex En Hrx Hokx Hslx Ebx Hhand Hreq Hl.
  assert (forall l, busy g l -> busy g' l) as Hb.
  { intros l. apply busy_same; [by destruct (Hhand l) as [-> _]|]. intros z L todo Hz. destruct (decide (z = t)) as [->|Hzt].
    - destruct (proj1 (loop_continues _ _ _ _ Hls L)) as [todo' Hz']; [by exists todo|]. exists t, L, todo'. by rewrite Et.
    - exists z, L, todo. destruct (decide (z = x)) as [->|Hzx]; [rewrite Ex; by apply Hrx | by rewrite En]. }
  assert (forall y, y <> t -> same_role (threads_ g y) (threads_ g' y)) as Hrole.
  { intros y Hy. destruct (decide (y = x)) as [->|Hyx]; [by rewrite Ex | rewrite En by done; apply same_role_refl]. }
  assert (forall y, y <> x -> safepoint_state_ (threads_ g' y) = safepoint_state_ (threads_ g y)) as Es.
  { intros y Hy. destruct (decide (y = t)) as [->|Hyt]; [by rewrite Et | by rewrite En]. }
  apply (inv_operator g g' t); rewrite ?Et; try done.
  - intros y Hy. split; [by apply Hrole|]. destruct (decide (y = x)) as [->|Hyx].
    + split; [done|]. rewrite Ex. destruct Hslx; [by left | by right].
    + rewrite En by done. split; [|by left]. destruct (inv_thread g Hinv y) as [T1 T2 T3 T4]. split; rewrite ?Ea, En by done; done.
  - by apply Hls.
  - apply Hls.
  - intros l. destruct (Hhand l) as [-> _]. rewrite (loop_owns _ _ _ _ Hls). apply Hinv.
  - intros l o _. by destruct (Hhand l) as [-> _].
  - intros l. destruct (Hhand l) as (-> & -> & _). rewrite (inv_count g Hinv). destruct (owner_ (handlers_ g l)) as [o|]; [|done].
    destruct (decide (o = t)) as [->|]; [by rewrite (loop_nesting _ _ _ _ Hls) | done].
  - intros l y. destruct (decide (y = x)) as [->|Hy]; [rewrite Hreq, Ebx; tauto|].
    assert (requested g' l y = requested g l y) as -> by (unfold requested; by rewrite Es).
    assert (bypasses g' y = bypasses g y) as -> by (unfold bypasses, BypassSafepoints; by rewrite Es).
    rewrite (inv_req g Hinv). assert (forall o, wants (threads_ g' o) l y = wants (threads_ g o) l y) as Ew.
    { intros o. destruct (decide (o = t)) as [->|Hne]; [rewrite Et; by apply Hls | apply (role_wants _ _ (Hrole o Hne))]. }
    by setoid_rewrite Ew.
  - intros l. rewrite (loop_owns _ _ _ _ Hls). destruct (Hhand l) as (_ & _ & Hn & Hle). split; [done|]. tauto.
  - intros l Hs. rewrite (loop_settled _ _ _ _ Hls) in Hs. destruct (Hhand l) as (_ & _ & _ & [Hle|[_ Hn]]); [|congruence].
    apply (inv_settled g Hinv) in Hs. unfold unparked in *. lia.
  - right. rewrite Et. split; [done | apply Hls].
  - intros y L todo l Hy. destruct (Hhand l) as [-> _]. destruct (decide (y = t)) as [->|Hyt].
    + rewrite Et in Hy. destruct (proj2 (loop_continues _ _ _ _ Hls L)) as [todo' Hy']; [by exists todo|]. by apply (inv_lower g Hinv t L todo').
    + destruct (decide (y = x)) as [->|Hyx]; [|rewrite En in Hy by done; by apply (inv_lower g Hinv y L todo)].
      rewrite Ex in Hy. apply (inv_lower g Hinv x L todo l). by apply Hrx.
Qed.

Lemma notify_request g t level x todo : Inv g -> phase_ (threads_ g t) = Notifying level (x :: todo) ->
  bypasses g x = false -> x <> t -> Inv (set_phase (notify_thread t level x g) t (Notifying level todo)).
Proof.
  intros Hinv Hp Hby Hxt. destruct (notifying_state _ _ _ _ Hinv Hp) as (Eo & Hnr & Hl & [Hnd1 Hnd]%list.NoDup_cons & Hsub).
  pose proof (thread_phase _ _ (inv_thread g Hinv t)) as Hph. unfold phase_ok in Hph. rewrite Hp in Hph.
  destruct (thread_has_word g x Hinv) as (w & Hw & Hwok). assert (x ∈ active_list_ g) as Hx by (apply Hsub; left).
  assert (requested g level x = false) as Hrx by (destruct (requested g level x) eqn:E; [|done]; apply Hnr in E; by destruct E; left).
  set (X' := with_state (threads_ g x) (pack (w_set_req w level true))).
  assert (has_word X' (w_set_req w level true)) as Hw' by done.
  set (g1 := set_thread g x X').
  set (h := if is_at g level x then handlers_ g level else with_not_parked (handlers_ g level) (num_threads_not_parked_ (handlers_ g level) + 1)).
  assert (exists g2, notify_thread t level x g = g2 /\ threads_ g2 = threads_ g1 /\ active_list_ g2 = active_list_ g /\ threads_lock_ g2 = threads_lock_ g /\
    forall l, handlers_ g2 l = if decide (l = level) then h else handlers_ g l) as (g2 & E2 & Et2 & Ea2 & El2 & Eh2).
  { unfold notify_thread. fold (bypasses g x). rewrite Hby, bool_decide_eq_true_2 by done. cbn [negb andb].
    rewrite (word_SetRequested _ _ _ _ Hw). rewrite <- Hw. change (state_IsAtSafepoint level (safepoint_state_ (threads_ g x))) with (is_at g level x).
    unfold h. destruct (is_at g level x); (eexists; split_and!; [reflexivity | done | done | done |]); intros l; cbn.
    - by destruct (decide (l = level)) as [->|].
    - done. }
  rewrite E2. set (g' := set_phase g2 t (Notifying level todo)). set (T' := with_phase (threads_ g t) (Notifying level todo)).
  assert (active_list_ g' = active_list_ g) as Ea' by done.
  assert (threads_ g' t = T') as Et. { unfold g', set_phase. rewrite set_thread_eq, Et2. unfold g1. by rewrite set_thread_ne by done. }
  assert (threads_ g' x = X') as Ex. { unfold g', set_phase. rewrite set_thread_ne, Et2 by done. unfold g1. by rewrite set_thread_eq. }
  assert (forall y, y <> t -> y <> x -> threads_ g' y = threads_ g y) as En.
  { intros y Hy1 Hy2. unfold g', set_phase. rewrite set_thread_ne, Et2 by done. unfold g1. by rewrite set_thread_ne by done. }
  assert (forall l y, requested g' l y = if bool_decide (l = level /\ y = x) then true else requested g l y) as Hreq.
  { intros l y. destruct (decide (y = x)) as [->|Hy].
    - rewrite (requested_word g' l x (w_set_req w level true)) by by rewrite Ex. rewrite (requested_word g l x w Hw).
      destruct (decide (l = level)) as [->|Hne]; [rewrite bool_decide_eq_true_2 by done; by destruct level|].
      rewrite bool_decide_eq_false_2 by tauto. by destruct l, level.
    - rewrite bool_decide_eq_false_2 by tauto. unfold requested. destruct (decide (y = t)) as [->|Hyt]; [by rewrite Et | by rewrite En]. }
  assert (forall l y, is_at g' l y = is_at g l y) as Hat.
  { intros l y. destruct (decide (y = x)) as [->|Hy].
    - rewrite (is_at_word g' l x (w_set_req w level true)) by by rewrite Ex. rewrite (is_at_word g l x w Hw). by destruct l, level.
    - unfold is_at. destruct (decide (y = t)) as [->|Hyt]; [by rewrite Et | by rewrite En]. }
  pose proof (unparked_request g g' x level Hinv Ea2 Hx Hrx ltac:(rewrite Hreq, bool_decide_eq_true_2 by done; done) Hreq Hat) as Eu.
  apply (inv_other g g' t x (Notifying level todo) X' Hinv (notify_loop _ _ _ _ _ Hinv Hp)); try done.
  - destruct (inv_thread g Hinv x) as [T1 T2 T3 T4]. split; rewrite Ex, ?Ea'; try done.
    + exists (w_set_req w level true). split; [done|]. unfold word_ok in *. destruct level; exact Hwok.
    + revert T2. unfold phase_ok. cbn [X' with_state phase_ execution_state_ returns_to_ scopes_ no_safepoint_scope_depth_ runtime_call_deopt_ability_].
      destruct (phase_ (threads_ g x)) as [| | | | |w'| | | | | |]; try done. intros [? Hasl]. split; [done|]. intros Ew. specialize (Hasl Ew).
      rewrite (word_IsSafepointRequested _ _ Hw) in Hasl. rewrite (word_IsSafepointRequested X' _ Hw').
      change (current_safepoint_level X') with (current_safepoint_level (threads_ g x)).
      destruct (current_safepoint_level (threads_ g x)), level; cbn in *; rewrite ?orb_true_r; try done; destruct (w_req w), (w_reqd w); done.
  - by left.
  - rewrite (bypasses_word g' x (w_set_req w level true)) by by rewrite Ex. by rewrite (bypasses_word g x w Hw).
  - intros l. change (handlers_ g' l) with (handlers_ g2 l). rewrite Eh2, Eu. destruct (decide (l = level)) as [->|Hne].
    + rewrite bool_decide_eq_true_2 by done. unfold h, owns, settled. rewrite Hp, bool_decide_eq_true_2 by done.
      destruct (is_at g level x); cbn; rewrite (inv_num g Hinv); split_and!; try done; try lia; by right.
    + rewrite bool_decide_eq_false_2 by done. cbn. rewrite (inv_num g Hinv). split_and!; try done; lia.
  - intros l. rewrite Hreq. destruct (decide (l = level)) as [->|Hne].
    + rewrite bool_decide_eq_true_2 by done. split; [intros _|done]. split; [done|]. exists t. split; [done|]. rewrite Et. unfold wants. cbn.
      by rewrite !bool_decide_eq_true_2.
    + rewrite bool_decide_eq_false_2 by tauto. rewrite (inv_req g Hinv). split.
      * intros (_ & _ & o & Hox & Hwo). split; [done|]. exists o. split; [done|]. destruct (decide (o = t)) as [->|Hot]; [|by rewrite En].
        unfold wants in Hwo. rewrite Hp, bool_decide_eq_false_2 in Hwo by done. done.
      * intros (_ & o & Hox & Hwo). split_and!; [done..|]. exists o. split; [done|]. destruct (decide (o = t)) as [->|Hot]; [|by rewrite En in Hwo].
        rewrite Et in Hwo. unfold wants in Hwo. cbn in Hwo. rewrite bool_decide_eq_false_2 in Hwo by done. done.
Qed.

(** The word without the requests of a level and those below. *)
Definition w_release (w : Word) (level : SafepointLevel) : Word :=
  {| w_at := w_at w; w_req := false; w_atd := w_atd w; w_reqd := match level with kGC => w_reqd w | _ => false end;
     w_blocked := w_blocked w; w_bypass := w_bypass w; w_unwind := w_unwind w |}.

Lemma clear_requests_spec T w level : has_word T w ->
  clear_requests T (levels_down level) = (w_blocked w, with_state T (pack (w_release w level))).
Proof.
  intros Hw. destruct level; cbn [levels_down clear_requests].
  - rewrite (word_SetRequested T w kGC false Hw), pack_blocked, orb_false_r. done.
  - rewrite (word_SetRequested T w kGCAndDeopt false Hw), pack_blocked.
    rewrite (word_SetRequested (with_state T _) (w_set_req w kGCAndDeopt false) kGC false eq_refl), pack_blocked.
    f_equal. change (w_blocked (w_set_req w kGCAndDeopt false)) with (w_blocked w). by destruct (w_blocked w).
Qed.

Lemma release_requested w level l : w_requested (w_release w level) l = w_requested w l && negb (level_le l level).
Proof. destruct level, l; cbn; rewrite ?andb_true_r, ?andb_false_r; done. Qed.

Lemma continuing_state g t level todo : Inv g -> phase_ (threads_ g t) = Continuing level todo ->
  owner_ (handlers_ g level) = Some t /\ (forall l x, level_le l level = true -> requested g l x = true -> l = level /\ x ∈ todo) /\
  threads_lock_ g = Some t /\ NoDup todo /\ todo ⊆ active_list_ g.
Proof.
  intros Hinv Hp. assert (owner_ (handlers_ g level) = Some t) as Eo.
  { apply (inv_own g Hinv). unfold owns. rewrite Hp. by apply bool_decide_eq_true. }
  pose proof (thread_todo _ _ (inv_thread g Hinv t)) as Ht. rewrite Hp in Ht.
  split_and!; [done | | apply (inv_lock g Hinv); unfold holds; by rewrite Hp | apply Ht | apply Ht].
  intros l x Hle Hr. destruct (requested_owner g l x Hinv Hr) as (o & Eo' & _ & Hw).
  destruct (decide (l = level)) as [->|Hne].
  - split; [done|]. assert (o = t) as -> by congruence. unfold wants in Hw. rewrite Hp in Hw.
    by apply andb_true_iff in Hw as [_ Hw%bool_decide_eq_true].
  - rewrite (inv_lower g Hinv t level todo l Hp) in Eo'; [done|]. destruct l, level; try done. left.
Qed.

Lemma continue_loop g t level x todo : Inv g -> phase_ (threads_ g t) = Continuing level (x :: todo) -> loop_step g t x (Continuing level todo).
Proof.
  intros Hinv Hp. destruct (continuing_state _ _ _ _ Hinv Hp) as (_ & _ & _ & [Hnd1 Hnd]%list.NoDup_cons & Hsub).
  pose proof (thread_phase _ _ (inv_thread g Hinv t)) as Hph. unfold phase_ok in Hph. rewrite Hp in Hph.
  split; unfold owns, nesting, settled, holds, wants; rewrite ?Hp; try done.
  - intros l y Hy. cbn. f_equal. apply bool_decide_ext. rewrite elem_of_cons. tauto.
  - intros L. split; intros [todo' E]; injection E as -> _; by eexists.
  - apply loop_thread_ok; [done | by rewrite Hp | by rewrite Hp | done | done | done |]. split; [done|]. intros y Hy. apply Hsub. by right.
Qed.

(** Once nobody is waited for, every thread that was requested has stopped. *)
Lemma unparked_zero g l x : x ∈ active_list_ g -> requested g l x = true -> unparked g l = 0 -> is_at g l x = true.
Proof.
  intros Hx Hr Hu. destruct (is_at g l x) eqn:E; [done|]. unfold unparked in Hu.
  assert (x ∈ List.filter (fun y => requested g l y && negb (is_at g l y)) (active_list_ g)) as Hin
    by (apply list_elem_of_In, filter_In; split; [by apply list_elem_of_In | by rewrite Hr, E]).
  destruct (List.filter _ _); [by apply elem_of_nil in Hin | cbn in Hu; lia].
Qed.

(** A released thread is woken if it sleeps. *)
Definition released T (w : Word) (level : SafepointLevel) : Thread :=
  let X := with_state T (pack (w_release w level)) in if w_blocked w then wake_thread X else X.

Lemma released_facts T w level : has_word T w -> word_ok T w ->
  has_word (released T w level) (w_release w level) /\ same_role T (released T w level) /\
  scheduled (phase_ (released T w level)) = scheduled (phase_ T) /\
  word_ok (released T w level) (w_release w level) /\ (phase_ok T -> phase_ok (released T w level)) /\
  (phase_ (released T w level) = phase_ T \/ phase_ (released T w level) = Exiting Awake) /\
  (match phase_ T with Notifying _ _ | Continuing _ _ => phase_ (released T w level) = phase_ T | _ => True end).
Proof.
  intros Hw Hok. unfold released, wake_thread, word_ok, phase_ok in *. destruct Hok as [Hb Hok].
  destruct (phase_ T) as [| | | | |[]| | | | | |] eqn:Ep; cbn [blocked] in Hb; rewrite Hb; cbn [with_state phase_]; rewrite ?Ep;
    cbn [with_phase with_state safepoint_state_ phase_ w_release w_blocked w_at w_atd runtime_call_deopt_ability_ returns_to_ execution_state_ no_safepoint_scope_depth_ scopes_];
    split_and!; try done; try (by left); try (by right); try (by split); try (by apply same_role_phase; cbn; rewrite ?Ep);
    try (split; unfold owns, wants, settled, holds, nesting; cbn; rewrite ?Ep; done); try (intros; rewrite ?Ep; done).
  all: try (by destruct Hok).
  all: rewrite ?Ep; intros [? _]; (split; [done | by intros]).
Qed.

Lemma continue_release g t level x todo : Inv g -> phase_ (threads_ g t) = Continuing level (x :: todo) ->
  bypasses g x = false -> x <> t -> Inv (set_phase (continue_thread t level x g) t (Continuing level todo)).
Proof.
  intros Hinv Hp Hby Hxt. destruct (continuing_state _ _ _ _ Hinv Hp) as (Eo & Hnr & Hl & [Hnd1 Hnd]%list.NoDup_cons & Hsub).
  destruct (inv_thread g Hinv x) as [(w & Hw & Hwok) X2 X3 X4]. assert (x ∈ active_list_ g) as Hx by (apply Hsub; left).
  set (X' := released (threads_ g x) w level).
  destruct (released_facts _ w level Hw Hwok) as (Hw' & Hrole & Hsch & Hwok' & Hpok & Hph & Htd). fold X' in Hw', Hrole, Hsch, Hwok', Hpok, Hph, Htd.
  assert (continue_thread t level x g = set_thread g x X') as ->.
  { unfold continue_thread. fold (bypasses g x). rewrite Hby, bool_decide_eq_true_2 by done. cbn [negb andb].
    rewrite (clear_requests_spec _ _ _ Hw). done. }
  set (g' := set_phase (set_thread g x X') t (Continuing level todo)).
  assert (threads_ g' t = with_phase (threads_ g t) (Continuing level todo)) as Et.
  { unfold g', set_phase. rewrite set_thread_eq. by rewrite set_thread_ne by done. }
  assert (threads_ g' x = X') as Ex. { unfold g', set_phase. rewrite set_thread_ne by done. by rewrite set_thread_eq. }
  assert (forall y, y <> t -> y <> x -> threads_ g' y = threads_ g y) as En.
  { intros y Hy1 Hy2. unfold g', set_phase. rewrite set_thread_ne by done. by rewrite set_thread_ne by done. }
  assert (forall l, requested g' l x = requested g l x && negb (level_le l level)) as Hreqx.
  { intros l. rewrite (requested_word g' l x (w_release w level)) by by rewrite Ex.
    rewrite (requested_word g l x w Hw). apply release_requested. }
  assert (forall l y, y <> x -> requested g' l y = requested g l y) as Hreq.
  { intros l y Hy. unfold requested. destruct (decide (y = t)) as [->|Hyt]; [by rewrite Et | by rewrite En]. }
  assert (forall l y, is_at g' l y = is_at g l y) as Hat.
  { intros l y. destruct (decide (y = x)) as [->|Hy].
    - rewrite (is_at_word g' l x (w_release w level)) by by rewrite Ex. rewrite (is_at_word g l x w Hw). by destruct l.
    - unfold is_at. destruct (decide (y = t)) as [->|Hyt]; [by rewrite Et | by rewrite En]. }
  assert (forall l, unparked g' l = unparked g l) as Eu.
  { intros l. apply unparked_ext; [done|]. intros y _. rewrite Hat. destruct (decide (y = x)) as [->|Hyx]; [|by rewrite Hreq].
    rewrite Hreqx. destruct (level_le l level) eqn:El; [|by rewrite andb_true_r]. rewrite andb_false_r. cbn.
    destruct (requested g l x) eqn:Er; [|done]. destruct (Hnr l x El Er) as [-> _].
    rewrite (unparked_zero g level x Hx Er); [done|]. apply (inv_settled g Hinv level t). unfold settled. rewrite Hp. by apply bool_decide_eq_true. }
  apply (inv_other g g' t x (Continuing level todo) X' Hinv (continue_loop _ _ _ _ _ Hinv Hp)); try done.
  - split; rewrite Ex; [by exists (w_release w level) | by apply Hpok | by rewrite Hsch |].
    revert Htd X4. destruct Hph as [->| ->]; [done|]. done.
  - destruct Hph as [->| E]; [by left | right]. unfold sleeps_well. by rewrite E.
  - rewrite (bypasses_word g' x (w_release w level)) by by rewrite Ex. by rewrite (bypasses_word g x w Hw).
  - intros l. change (handlers_ g' l) with (handlers_ g l). rewrite Eu, (inv_num g Hinv). split_and!; [done..|]. left. lia.
  - intros l. rewrite Hreqx. destruct (level_le l level) eqn:El; [rewrite andb_false_r | rewrite andb_true_r].
    + split; [done|]. intros (_ & o & Hox & Hwo). exfalso. destruct (decide (o = t)) as [->|Hot].
      * rewrite Et in Hwo. unfold wants in Hwo. cbn in Hwo. apply andb_true_iff in Hwo as [_ Hwo%bool_decide_eq_true]. done.
      * rewrite En in Hwo by done. pose proof (wants_owns _ _ _ Hwo) as Ho. apply (inv_own g Hinv) in Ho.
        destruct (decide (l = level)) as [->|Hne]; [congruence|].
        rewrite (inv_lower g Hinv t level (x :: todo) l Hp) in Ho; [done|]. destruct l, level; try done. left.
    + rewrite (inv_req g Hinv). split.
      * intros (_ & _ & o & Hox & Hwo). split; [done|]. exists o. split; [done|]. destruct (decide (o = t)) as [->|Hot]; [|by rewrite En].
        unfold wants in Hwo. rewrite Hp in Hwo. apply andb_true_iff in Hwo as [->%bool_decide_eq_true _]. by rewrite level_le_refl in El.
      * intros (_ & o & Hox & Hwo). split_and!; [done..|]. exists o. split; [done|]. destruct (decide (o = t)) as [->|Hot]; [|by rewrite En in Hwo].
        rewrite Et in Hwo. unfold wants in Hwo. cbn in Hwo. apply andb_true_iff in Hwo as [->%bool_decide_eq_true _]. by rewrite level_le_refl in El.
Qed.
End Operations.
