(* ===== verification/SafepointSchedule.v ===== *)
(** * The end of safepoint operations, and the scheduling of threads

    The remaining steps of the protocol: taking the lower levels, [ResumeThreads], and threads
    that join and leave the isolate group.  With them every step keeps the invariant. *)
From S2P Require Import Prelude Constants Words Macros ObjectHeader Safepoint SafepointInvariant SafepointSteps SafepointOperations.

Section Schedule.
Context `{Target}.
Implicit Types (g : IsolateGroup) (T : Thread) (t x : nat) (l L : SafepointLevel).

(** ** The lower levels *)

(** The operation starts: the thread owns its level and those below. *)
Lemma acquired_step g g' t L : Inv g -> phase_ (threads_ g t) = Acquiring L (lower_levels L) Awake -> threads_lock_ g = None ->
  moved g g' t (with_scopes (with_phase (threads_ g t) Operating) [L]) -> threads_lock_ g' = None ->
  (forall l, l ∈ lower_levels L -> owner_ (handlers_ g l) = None) ->
  (forall l, handlers_ g' l = if bool_decide (l ∈ lower_levels L)
     then {| owner_ := Some t; operation_count_ := 1; num_threads_not_parked_ := num_threads_not_parked_ (handlers_ g l) |}
     else handlers_ g l) -> Inv g'.
Proof.
  intros Hinv Hp Hl Hmv Hl' Hfree Hh. pose proof (thread_phase _ _ (inv_thread g Hinv t)) as Hph. unfold phase_ok in Hph. rewrite Hp in Hph.
  assert (forall l, owner_ (handlers_ g l) = Some t <-> l = L) as Ho.
  { intros l. rewrite (inv_own g Hinv). unfold owns. rewrite Hp. apply bool_decide_eq_true. }
  assert (forall l, level_le l L = true <-> l = L \/ l ∈ lower_levels L) as Hle.
  { intros l. rewrite level_le_down, bool_decide_eq_true. destruct L; cbn; rewrite !elem_of_cons; tauto. }
  assert (L ∉ lower_levels L) as HL. { apply (bool_decide_unpack _). by destruct L. }
  apply (inv_phase g g' t _ Hinv Hmv); try done.
  - by rewrite Hp.
  - by rewrite Hp.
  - split; [apply Hph|]. exists [], L. by split.
  - intros l. rewrite Hh. unfold owns. cbn. rewrite Hle. case_bool_decide as Ed; [split; auto|]. rewrite Ho. tauto.
  - intros l o Hot. rewrite Hh. case_bool_decide as Ed; [|done]. rewrite (Hfree l Ed). cbn. split; congruence.
  - intros l. rewrite Hh. unfold nesting. cbn. case_bool_decide as Ed; cbn.
    + rewrite decide_True by done. destruct (SafepointLevel_eq_dec L l) as [->|Hne]; [done|].
      rewrite bool_decide_eq_false_2 by congruence. done.
    + rewrite (inv_count g Hinv). destruct (owner_ (handlers_ g l)) as [o|] eqn:Eo; [|done]. destruct (decide (o = t)) as [->|]; [|done].
      apply Ho in Eo as ->. unfold nesting. rewrite Hp. destruct (SafepointLevel_eq_dec L L); [|done]. by rewrite bool_decide_eq_true_2.
  - intros l x _. unfold wants. rewrite Hp. cbn. apply bool_decide_ext. split; congruence.
  - intros l. rewrite Hh. by case_bool_decide.
  - intros l Hs. apply (inv_settled g Hinv l t). unfold settled in *. rewrite Hp. cbn in Hs. apply bool_decide_eq_true in Hs.
    apply bool_decide_eq_true. congruence.
  - left. rewrite Hl', (moved_eq _ _ _ _ Hmv). by split; [right|].
  - intros l. apply busy_same; [rewrite Hh; by case_bool_decide|]. intros y L' todo Hy. exists y, L', todo.
    rewrite (moved_ne _ _ _ _ Hmv); [done | intros ->; congruence].
  - apply (lower_none g g' t Hinv); [by right | intros y Hy; by rewrite (moved_ne _ _ _ _ Hmv) |].
    intros L' todo. by rewrite (moved_eq _ _ _ _ Hmv).
Qed.

Lemma Acquire_step g t L todo w : Inv g -> phase_ (threads_ g t) = Acquiring L todo w -> w <> Asleep -> lock_free t g = true ->
  succeeds (AcquireLowerLevelSafepoints t L todo g).
Proof.
  intros Hinv Hp Hw Hl. pose proof (thread_phase _ _ (inv_thread g Hinv t)) as Hph. unfold phase_ok in Hph. rewrite Hp in Hph.
  destruct Hph as (Hex & -> & Hnh). assert (w = Awake) as -> by by destruct w.
  assert (threads_lock_ g = None) as Hnone by (apply (lock_none g t); [done | done | unfold holds; by rewrite Hp]).
  unfold AcquireLowerLevelSafepoints. rewrite ASSERT_bind.
  2:{ apply bool_decide_eq_true, (inv_own g Hinv). unfold owns. rewrite Hp. by apply bool_decide_eq_true. }
  destruct L; cbn [lower_levels levels_down tail acquire_levels].
  - eexists. split; [reflexivity|]. eapply (acquired_step g _ t kGC); try done.
    + apply moved_set_thread.
    + by intros l Hl'%elem_of_nil.
  - rewrite SafepointInProgress_spec by done. cbn [mbind result_bind]. case_bool_decide as Eo.
    + eexists. split; [reflexivity|].
      eapply (same_owner_step g _ t (with_phase (threads_ g t) (Acquiring kGCAndDeopt [kGC] Asleep)));
        try done; try (by rewrite Hp); try (unfold owns, nesting, wants; by rewrite Hp).
      * by apply moved_phase.
      * exists kGC. split; [left | by left].
      * intros l Hs. apply (inv_settled g Hinv l t). unfold settled in *. by rewrite Hp.
      * left. unfold set_phase. rewrite set_thread_eq. by split; [right|].
    + assert (owner_ (handlers_ g kGC) = None) as En by (destruct (owner_ (handlers_ g kGC)); [by destruct Eo | done]).
      rewrite (SetSafepointInProgress_spec g kGC t Hinv En). cbn [mbind result_bind].
      rewrite ASSERT_bind by by apply bool_decide_eq_true. eexists. split; [reflexivity|].
      eapply (acquired_step g _ t kGCAndDeopt); try done.
      * split; [apply set_thread_eq | intros x Hx; by rewrite set_thread_ne | done].
      * intros l Hl'. apply list_elem_of_singleton in Hl' as ->. done.
      * intros l. cbn. destruct l; done.
Qed.

(** ** Ending an operation *)

Lemma operating_state g t : Inv g -> phase_ (threads_ g t) = Operating ->
  exists nested L, scopes_ (threads_ g t) = nested ++ [L] /\ Forall (fun l => level_le l L = true) nested /\
    execution_state_ (threads_ g t) = kThreadInVM /\ (forall l, owner_ (handlers_ g l) = Some t <-> level_le l L = true) /\
    forall l, level_le l L = true -> operation_count_ (handlers_ g l) =
      Z.of_nat (count_occ SafepointLevel_eq_dec nested l) + 1.
Proof.
  intros Hinv Hp. pose proof (thread_phase _ _ (inv_thread g Hinv t)) as Hph. unfold phase_ok in Hph. rewrite Hp in Hph.
  destruct Hph as (Hex & nested & L & Esc & Hn).
  assert (forall l, owner_ (handlers_ g l) = Some t <-> level_le l L = true) as Ho.
  { intros l. rewrite (inv_own g Hinv). unfold owns. by rewrite Hp, Esc, outermost_app. }
  exists nested, L. split_and!; [done | done | done | done |]. intros l Hl. rewrite (inv_count g Hinv), (proj2 (Ho l) Hl).
  unfold nesting. rewrite Hp, Esc, outermost_app, count_occ_app. cbn [count_occ].
  destruct (SafepointLevel_eq_dec L l) as [->|Hne].
  - rewrite bool_decide_eq_true_2 by done. lia.
  - rewrite bool_decide_eq_false_2 by congruence. lia.
Qed.

(** An inner scope ends. *)
Lemma resume_inner g t level rest : Inv g -> phase_ (threads_ g t) = Operating -> scopes_ (threads_ g t) = level :: rest -> rest <> [] ->
  Inv (set_thread (set_handler g level (with_count (handlers_ g level) (operation_count_ (handlers_ g level) - 1))) t
         (with_scopes (threads_ g t) (tail (scopes_ (threads_ g t))))).
Proof.
  intros Hinv Hp Esc Hr. destruct (operating_state g t Hinv Hp) as (nested & L & Esc' & Hn & Hex & Ho & Hc).
  assert (exists nested', rest = nested' ++ [L] /\ nested = level :: nested') as (nested' & Er & En).
  { rewrite Esc in Esc'. destruct nested as [|l nested']; [by injection Esc' as -> ->|]. injection Esc' as -> ->. by exists nested'. }
  subst nested. apply Forall_cons_iff in Hn as [Hlev Hn]. rewrite Esc. cbn [tail].
  assert (outermost (scopes_ (threads_ g t)) = Some L /\ outermost rest = Some L) as [Eo1 Eo2].
  { rewrite Esc', Er. by rewrite !outermost_app. }
  set (g1 := set_handler g level _).
  assert (forall l, owner_ (handlers_ g1 l) = owner_ (handlers_ g l)) as Eow by (intros l; cbn; by destruct (decide (l = level)) as [->|]).
  eapply (inv_phase g _ t (with_scopes (threads_ g t) rest)); try done; try (cbn; by rewrite Hp).
  - split; [apply set_thread_eq | intros x Hx; by rewrite set_thread_ne | done].
  - unfold phase_ok. cbn. rewrite Hp. split; [done|]. by exists nested', L.
  - unfold sleeps_well. cbn. by rewrite Hp.
  - intros l. change (handlers_ (set_thread _ _ _) l) with (handlers_ g1 l). rewrite Eow, Ho. unfold owns. cbn [with_scopes phase_ scopes_]. by rewrite Hp, Eo2.
  - intros l o _. change (handlers_ (set_thread _ _ _) l) with (handlers_ g1 l). by rewrite Eow.
  - intros l. change (handlers_ (set_thread _ _ _) l) with (handlers_ g1 l). rewrite Eow.
    destruct (owner_ (handlers_ g l)) as [o|] eqn:E.
    + destruct (decide (o = t)) as [->|Hot].
      * apply Ho in E. unfold nesting. cbn [with_scopes phase_ scopes_]. rewrite Hp, Eo2, Er, count_occ_app. cbn [g1 set_handler handlers_ count_occ].
        specialize (Hc l E). cbn [count_occ] in Hc. destruct (decide (l = level)) as [->|Hne].
        -- cbn [with_count operation_count_]. rewrite Hc. destruct (SafepointLevel_eq_dec level level); [|done].
           destruct (SafepointLevel_eq_dec L level) as [->|]; [rewrite bool_decide_eq_true_2 by done; lia|].
           rewrite bool_decide_eq_false_2 by congruence. lia.
        -- rewrite Hc. destruct (SafepointLevel_eq_dec level l); [congruence|].
           destruct (SafepointLevel_eq_dec L l) as [->|]; [rewrite bool_decide_eq_true_2 by done; lia|].
           rewrite bool_decide_eq_false_2 by congruence. lia.
      * cbn. rewrite decide_False; [done|]. intros ->. apply Ho in Hlev. congruence.
    + cbn. destruct (decide (l = level)) as [->|]; [apply Ho in Hlev; congruence|]. by rewrite (inv_count g Hinv), E.
  - intros l x _. unfold wants. cbn [with_scopes phase_ scopes_]. by rewrite Hp, Eo1, Eo2.
  - intros l. cbn. by destruct (decide (l = level)) as [->|].
  - intros l Hs. apply (inv_settled g Hinv l t). unfold settled in *. cbn [with_scopes phase_ scopes_] in Hs. by rewrite Hp, ?Eo1, ?Eo2 in *.
  - right. split; [done|]. rewrite set_thread_eq. done.
  - intros l. apply busy_same; [change (handlers_ (set_thread _ _ _) l) with (handlers_ g1 l); by rewrite Eow|].
    intros y L' todo Hy. exists y, L', todo. rewrite set_thread_ne; [done | intros ->; congruence].
  - apply (lower_same g _ t Hinv); [exact Eow | intros y Hy; by rewrite set_thread_ne |].
    intros L' todo. rewrite set_thread_eq. cbn. by rewrite Hp.
Qed.

(** The outermost scope ends: the lower levels are free, and the loop over the threads starts. *)
Lemma resume_outer g g' t L : Inv g -> phase_ (threads_ g t) = Operating -> scopes_ (threads_ g t) = [L] -> threads_lock_ g = None ->
  moved g g' t (with_phase (threads_ g t) (Continuing L (active_list_ g))) -> threads_lock_ g' = Some t ->
  (forall l, handlers_ g' l = if bool_decide (l ∈ lower_levels L)
     then {| owner_ := None; operation_count_ := 0; num_threads_not_parked_ := num_threads_not_parked_ (handlers_ g l) |}
     else handlers_ g l) -> Inv g'.
Proof.
  intros Hinv Hp Esc Hl Hmv Hl' Hh. destruct (operating_state g t Hinv Hp) as (nested & L' & Esc' & Hn & Hex & Ho & Hc).
  rewrite Esc in Esc'. destruct nested as [|? []]; try done. injection Esc' as <-. clear Hn.
  assert (forall l, level_le l L = true <-> l = L \/ l ∈ lower_levels L) as Hle.
  { intros l. rewrite level_le_down, bool_decide_eq_true. destruct L; cbn; rewrite !elem_of_cons; tauto. }
  assert (L ∉ lower_levels L) as HL. { apply (bool_decide_unpack _). by destruct L. }
  apply (inv_phase g g' t _ Hinv Hmv); try done.
  - by rewrite Hp.
  - by rewrite Hp.
  - split; [apply Hinv | done].
  - intros l. rewrite Hh. unfold owns. cbn. rewrite bool_decide_eq_true. case_bool_decide as Ed.
    + split; [done|]. intros ->. done.
    + rewrite Ho, Hle. tauto.
  - intros l o Hot. rewrite Hh. case_bool_decide as Ed; [|done]. cbn. assert (owner_ (handlers_ g l) = Some t) as E by (apply Ho, Hle; by right).
    rewrite E. split; congruence.
  - intros l. rewrite Hh. case_bool_decide as Ed; [done|]. rewrite (inv_count g Hinv).
    destruct (owner_ (handlers_ g l)) as [o|] eqn:Eo; [|done]. destruct (decide (o = t)) as [->|]; [|done].
    unfold nesting at 2. cbn. pose proof Eo as El. apply Ho in El. specialize (Hc l El). rewrite (inv_count g Hinv), Eo in Hc. rewrite Hc. done.
  - intros l x Hx. unfold wants. rewrite Hp, Esc. cbn. rewrite (bool_decide_eq_true_2 (x ∈ _)), andb_true_r by done.
    apply bool_decide_ext. split; congruence.
  - intros l. rewrite Hh. by case_bool_decide.
  - intros l Hs. apply (inv_settled g Hinv l t). unfold settled in *. rewrite Hp, Esc. cbn in *. apply bool_decide_eq_true in Hs.
    apply bool_decide_eq_true. congruence.
  - left. rewrite Hl', (moved_eq _ _ _ _ Hmv). by split; [right|].
  - intros l _. right. exists t, L, (active_list_ g). by rewrite (moved_eq _ _ _ _ Hmv).
  - intros y L' todo l Hy Hl0. destruct (decide (y = t)) as [->|Hyt].
    + rewrite (moved_eq _ _ _ _ Hmv) in Hy. injection Hy as <- <-. rewrite Hh. by rewrite bool_decide_eq_true_2.
    + rewrite (moved_ne _ _ _ _ Hmv) in Hy by done.
      assert (threads_lock_ g = Some y) as E by (apply (inv_lock g Hinv); unfold holds; by rewrite Hy). congruence.
Qed.

Lemma ResumeThreads_step g t level rest : Inv g -> phase_ (threads_ g t) = Operating -> scopes_ (threads_ g t) = level :: rest ->
  lock_free t g = true -> succeeds (ResumeThreads t level g).
Proof.
  intros Hinv Hp Esc Hl. destruct (operating_state g t Hinv Hp) as (nested & L & Esc' & Hn & Hex & Ho & Hc).
  assert (threads_lock_ g = None) as Hnone by (apply (lock_none g t); [done | done | unfold holds; by rewrite Hp]).
  assert (level_le level L = true /\ (rest = [] -> level = L /\ nested = []) /\
          (rest <> [] -> exists nested', nested = level :: nested')) as (Hlev & Hnil & Hcons).
  { rewrite Esc in Esc'. destruct nested as [|l nested']; injection Esc' as -> ->.
    - split_and!; [apply level_le_refl | done | done].
    - apply Forall_cons_iff in Hn as [Hlev Hn]. split_and!; [done | by destruct nested' | eauto]. }
  assert (owner_ (handlers_ g level) = Some t) as Eo by by apply Ho.
  assert (AssertWeOwnLowerLevelSafepoints t level g = Ok tt) as Eown.
  { unfold AssertWeOwnLowerLevelSafepoints, RELEASE_ASSERT. destruct level; cbn; [done|]. rewrite bool_decide_eq_true_2; [done|].
    apply Ho. by destruct L. }
  unfold ResumeThreads. rewrite SafepointInProgress_spec by done. rewrite Eo. rewrite bool_decide_eq_true_2 by done. cbn [mbind result_bind].
  rewrite ASSERT_bind by done. rewrite ASSERT_bind by done. rewrite Eown. cbn [mbind result_bind].
  rewrite (Hc level Hlev). destruct (decide (rest = [])) as [Er|Er].
  - destruct (Hnil Er) as [-> ->]. subst rest. cbn [count_occ].
    assert (exists g1, ReleaseLowerLevelSafepoints t (rev (lower_levels L)) g = Ok g1 /\ threads_ g1 = threads_ g /\
      active_list_ g1 = active_list_ g /\ forall l, handlers_ g1 l = if bool_decide (l ∈ lower_levels L)
        then {| owner_ := None; operation_count_ := 0; num_threads_not_parked_ := num_threads_not_parked_ (handlers_ g l) |}
        else handlers_ g l) as (g1 & E1 & Et1 & Ea1 & Eh1).
    { destruct L; cbn [lower_levels levels_down tail rev app ReleaseLowerLevelSafepoints]; [by exists g|].
      unfold ResetSafepointInProgress. rewrite (proj2 (Ho kGC) eq_refl). rewrite ASSERT_bind by by apply bool_decide_eq_true.
      rewrite (Hc kGC eq_refl). rewrite ASSERT_bind by done. eexists. split_and!; [reflexivity | done | done |]. by intros []. }
    rewrite E1. cbn [mbind result_bind]. eexists. split; [reflexivity|].
    eapply (resume_outer g _ t L Hinv Hp Esc Hnone); [rewrite Ea1; by apply moved_phase | done | exact Eh1].
  - destruct (Hcons Er) as [nested' ->]. cbn [count_occ]. destruct (SafepointLevel_eq_dec level level); [|done].
    rewrite (proj2 (Z.ltb_lt _ _)) by lia. eexists. split; [reflexivity|].
    pose proof (resume_inner g t level rest Hinv Hp Esc Er) as Hi. rewrite (Hc level Hlev) in Hi. cbn [count_occ] in Hi.
    by destruct (SafepointLevel_eq_dec level level).
Qed.

(** All threads are released: the level is free, and those who wait for it wake up. *)
Lemma wake_lock_cases T : (wake_lock T = T \/ wake_lock T = wake T) /\ forall g, sleeps_well g (wake_lock T).
Proof.
  unfold wake, wake_lock, sleeps_well. destruct (phase_ T) as [|b []| | | |[]|l []| | |L todo []| |] eqn:E; cbn; rewrite ?E; split; auto.
Qed.

Lemma continued_step g t level : Inv g -> phase_ (threads_ g t) = Continuing level [] ->
  succeeds (NotifyThreadsToContinue t level [] g).
Proof.
  intros Hinv Hp. destruct (continuing_state _ _ _ _ Hinv Hp) as (Eo & Hnr & Hl & _).
  pose proof (thread_phase _ _ (inv_thread g Hinv t)) as Hph. unfold phase_ok in Hph. rewrite Hp in Hph.
  cbn [NotifyThreadsToContinue]. unfold ResetSafepointInProgress. rewrite ASSERT_bind by by apply bool_decide_eq_true.
  rewrite ASSERT_bind by (rewrite (inv_count g Hinv), Eo; unfold nesting; by rewrite Hp). cbn [mbind result_bind].
  set (h := {| owner_ := None; operation_count_ := 0; num_threads_not_parked_ := _ |}).
  set (g1 := set_lock (NotifyAll (set_handler g level h)) None).
  assert (threads_ g1 t = threads_ g t) as E1 by (cbn; unfold wake_lock; by rewrite Hp).
  unfold ExitSafepointUsingLock. rewrite set_thread_eq, E1.
  set (T' := with_return (with_scopes (threads_ g t) []) (execution_state_ (threads_ g t))).
  rewrite ASSERT_bind.
  2:{ pose proof (stopped_at g t (current_safepoint_level T') (inv_thread g Hinv t)) as E. rewrite Hp in E. unfold is_at in E.
      change (IsAtSafepoint T' _) with (IsAtSafepoint (threads_ g t) (current_safepoint_level T')). rewrite E by done. apply level_le_refl. }
  eexists. split; [reflexivity|]. unfold set_phase. rewrite set_thread_eq.
  set (g' := set_thread (set_thread g1 t T') t (with_phase T' (Exiting Held))).
  assert (threads_ g' t = with_phase T' (Exiting Held)) as Et by apply set_thread_eq.
  assert (forall y, y <> t -> threads_ g' y = wake_lock (threads_ g y)) as En by (intros y Hy; unfold g'; by rewrite !set_thread_ne by done).
  assert (forall y, y <> t -> threads_ g' y = threads_ g y \/ threads_ g' y = wake (threads_ g y)) as Ew.
  { intros y Hy. rewrite En by done. apply wake_lock_cases. }
  assert (forall y, y <> t -> same_role (threads_ g y) (threads_ g' y)) as Hrole.
  { intros y Hy. destruct (Ew y Hy) as [->| ->]; [apply same_role_refl|].
    by destruct (wake_role (threads_ g y)) as (? & ? & ? & ? & ? & ? & ? & ?). }
  assert (forall y, safepoint_state_ (threads_ g' y) = safepoint_state_ (threads_ g y)) as Es.
  { intros y. destruct (decide (y = t)) as [->|Hy]; [by rewrite Et|]. destruct (Ew y Hy) as [->| ->]; [done | apply wake_role]. }
  assert (forall l, unparked g' l = unparked g l) as Eu.
  { intros l. apply unparked_ext; [done|]. intros x _. unfold requested, is_at, IsAtSafepoint. by rewrite Es. }
  assert (forall l, handlers_ g' l = if decide (l = level) then h else handlers_ g l) as Eh by done.
  assert (forall l, owner_ (handlers_ g l) = Some t -> l = level) as Hown.
  { intros l E. apply (inv_own g Hinv) in E. unfold owns in E. rewrite Hp in E. by apply bool_decide_eq_true in E. }
  apply (inv_operator g g' t); rewrite ?Et; try done.
  - intros y Hy. split; [by apply Hrole|]. split.
    + destruct (Ew y Hy) as [E|E]; [|by apply (wake_ok g); [apply Hinv | done | done]].
      destruct (inv_thread g Hinv y) as [T1 T2 T3 T4]. split; rewrite E; done.
    + right. rewrite En by done. apply wake_lock_cases.
  - destruct (inv_thread g Hinv t) as [(w & Hw & Hwok) T2 T3 T4]. split; rewrite Et.
    + exists w. split; [done|]. unfold word_ok in *. by rewrite Hp in Hwok.
    + split; [cbn; by rewrite Hph | done].
    + change (active_list_ g') with (active_list_ g). by rewrite T3, Hp.
    + done.
  - intros l. rewrite Eh. destruct (decide (l = level)) as [->|Hne]; [done|]. split; [|done]. intros E. by apply Hown in E.
  - intros l o Hot. rewrite Eh. destruct (decide (l = level)) as [->|Hne]; [|done]. rewrite Eo. cbn. split; congruence.
  - intros l. rewrite Eh. destruct (decide (l = level)) as [->|Hne]; [done|]. rewrite (inv_count g Hinv).
    destruct (owner_ (handlers_ g l)) as [o|] eqn:E; [|done]. destruct (decide (o = t)) as [->|]; [by apply Hown in E | done].
  - intros l x. assert (requested g' l x = requested g l x) as -> by (unfold requested; by rewrite Es).
    assert (bypasses g' x = bypasses g x) as -> by (unfold bypasses, BypassSafepoints; by rewrite Es). rewrite (inv_req g Hinv).
    assert (forall o, wants (threads_ g' o) l x = wants (threads_ g o) l x) as Ewn.
    { intros o. destruct (decide (o = t)) as [->|Hne]; [|apply (role_wants _ _ (Hrole o Hne))].
      rewrite Et. unfold wants. rewrite Hp. cbn. rewrite (bool_decide_eq_false_2 (x ∈ [])) by apply not_elem_of_nil. by rewrite andb_false_r. }
    by setoid_rewrite Ewn.
  - intros l. rewrite Eu, Eh. split; [|left; lia]. destruct (decide (l = level)) as [->|]; apply Hinv.
  - left. rewrite Et. by split; [left|].
  - intros y L todo l Hy. destruct (decide (y = t)) as [->|Hyt]; [by rewrite Et in Hy|].
    apply (Hrole y Hyt) in Hy. assert (threads_lock_ g = Some y) as E by (apply (inv_lock g Hinv); unfold holds; by rewrite Hy). congruence.
Qed.

(** ** Joining and leaving *)

(** A thread joins or leaves the active list; it is not waited for, and has no role. *)
Lemma inv_active g g' t T' w' : Inv g ->
  threads_ g' t = T' -> (forall x, x <> t -> threads_ g' x = threads_ g x) ->
  roleless (threads_ g t) -> holds (threads_ g t) = false -> idle (phase_ T') = true ->
  threads_lock_ g = None -> threads_lock_ g' = None -> NoDup (active_list_ g') ->
  (forall x, x <> t -> x ∈ active_list_ g' <-> x ∈ active_list_ g) -> (t ∈ active_list_ g' <-> scheduled (phase_ T') = true) ->
  has_word T' w' -> word_ok T' w' -> phase_ok T' -> sleeps_well g T' -> (forall l, w_requested w' l = false) ->
  (forall l, (t ∈ active_list_ g' /\ w_bypass w' = false) -> owner_ (handlers_ g l) = None) ->
  (forall l, owner_ (handlers_ g' l) = owner_ (handlers_ g l) /\ operation_count_ (handlers_ g' l) = operation_count_ (handlers_ g l) /\
     num_threads_not_parked_ (handlers_ g' l) = unparked g' l /\ unparked g' l <= unparked g l) -> Inv g'.
Proof.
  intros Hinv Et En (R1 & R2 & R3) R4 Hi Hl Hl' Hnd Ha Hat Hw' Hok Hp Hs Hr Hno Hh.
  destruct (idle_no_role _ Hi) as (R1' & R2' & R3' & R4').
  assert (forall y L todo, phase_ (threads_ g y) = Continuing L todo -> False) as Hnc.
  { intros y L todo Hy. assert (threads_lock_ g = Some y) by (apply (inv_lock g Hinv); unfold holds; by rewrite Hy). congruence. }
  assert (forall l, busy g l -> busy g' l) as Hb.
  { intros l [Hb|(y & L & todo & Hy)]; [left; by destruct (Hh l) as [-> _] | by apply Hnc in Hy]. }
  assert (forall x l, owns (threads_ g' x) l = owns (threads_ g x) l) as Eo.
  { intros x l. destruct (decide (x = t)) as [->|Hn]; [by rewrite Et, R1, R1' | by rewrite En]. }
  assert (forall x l y, wants (threads_ g' x) l y = wants (threads_ g x) l y) as Ew.
  { intros x l y. destruct (decide (x = t)) as [->|Hn]; [by rewrite Et, R2, R2' | by rewrite En]. }
  split.
  - intros x. destruct (decide (x = t)) as [->|Hn].
    + split; rewrite Et; [by exists w' | done | done |]. by destruct (phase_ T').
    + destruct (inv_thread g Hinv x) as [T1 T2 T3 T4]. split; rewrite ?(En x Hn); [done | done | by rewrite Ha |].
      destruct (phase_ (threads_ g x)) as [| | | | | | |L todo| | | |L todo] eqn:Ex; try done.
      * assert (threads_lock_ g = Some x) by (apply (inv_lock g Hinv); unfold holds; by rewrite Ex). congruence.
      * by apply Hnc in Ex.
  - done.
  - intros l x. destruct (Hh l) as [-> _]. rewrite Eo. apply Hinv.
  - intros l. destruct (Hh l) as (-> & -> & _). rewrite (inv_count g Hinv). destruct (owner_ (handlers_ g l)) as [o|] eqn:E; [|done].
    assert (o <> t) by (intros ->; apply (inv_own g Hinv) in E; by rewrite R1 in E). by rewrite En.
  - intros l x. setoid_rewrite Ew. destruct (decide (x = t)) as [->|Hn].
    + rewrite (requested_word g' l t w') by by rewrite Et. rewrite Hr. rewrite (bypasses_word g' t w') by by rewrite Et.
      split; [done|]. intros (Hin & Hby & o & _ & Hwo). apply wants_owns, (inv_own g Hinv) in Hwo. rewrite Hno in Hwo; done.
    + unfold requested, bypasses. rewrite En, Ha by done. apply Hinv.
  - intros l. apply Hh.
  - intros l x Hx. assert (unparked g l = 0) as E0; [|destruct (Hh l) as (_ & _ & _ & Hle); rewrite E0 in Hle; unfold unparked in *; lia].
    apply (inv_settled g Hinv l x). destruct (decide (x = t)) as [->|Hn]; [by rewrite Et, R3' in Hx | by rewrite En in Hx].
  - intros x. rewrite Hl'. destruct (decide (x = t)) as [->|Hn]; [rewrite Et, R4'; done|]. rewrite En by done. rewrite <- (inv_lock g Hinv), Hl. done.
  - intros x. apply (sleeps_same g); [done|]. destruct (decide (x = t)) as [->|Hn]; [by rewrite Et | rewrite En by done; apply Hinv].
  - intros x L todo l Hx. destruct (decide (x = t)) as [->|Hn]; [rewrite Et in Hx; by rewrite Hx in Hi|]. rewrite En in Hx by done. by apply Hnc in Hx.
Qed.

Lemma unscheduled_idle T : scheduled (phase_ T) = false -> roleless T /\ holds T = false.
Proof. intros Hs. apply idle_roleless. by destruct (phase_ T). Qed.

Lemma ScheduleThreadLocked_step g t b : Inv g -> scheduled (phase_ (threads_ g t)) = false -> lock_free t g = true ->
  succeeds (ScheduleThreadLocked t b g).
Proof.
  intros Hinv Hsch Hl. destruct (inv_thread g Hinv t) as [(w & Hw & Hwb & _) Hph Hact _].
  destruct (unscheduled_idle _ Hsch) as [Hrl Hh].
  assert (t ∉ active_list_ g) as Hnin by (rewrite Hact, Hsch; done).
  assert (execution_state_ (threads_ g t) = kThreadInNative /\ no_safepoint_scope_depth_ (threads_ g t) = 0 /\
    runtime_call_deopt_ability_ (threads_ g t) = kCanLazyDeopt) as (He & Hd & Hab).
  { unfold phase_ok in Hph. by destruct (phase_ (threads_ g t)). }
  assert (threads_lock_ g = None) as Hnone by by apply (lock_none g t).
  assert (blocked (phase_ (threads_ g t)) = false) as Hnb by by destruct (phase_ (threads_ g t)).
  assert (AnySafepointInProgress g = Ok (bool_decide (owner_ (handlers_ g kGC) <> None) || bool_decide (owner_ (handlers_ g kGCAndDeopt) <> None))) as Eany.
  { unfold AnySafepointInProgress. rewrite !SafepointInProgress_spec by done. cbn [mbind result_bind].
    destruct (bool_decide (owner_ (handlers_ g kGC) <> None)); done. }
  assert (exists busy_, (if b then Ok false else AnySafepointInProgress g) = Ok busy_ /\
    (busy_ = true -> b = false /\ (busy g kGC \/ busy g kGCAndDeopt)) /\
    (busy_ = false -> b = false -> forall l, owner_ (handlers_ g l) = None)) as (busy_ & Eb & Hb1 & Hb2).
  { destruct b; [by exists false|]. eexists. split; [exact Eany|]. split.
    - intros Hor%orb_true_iff. rewrite !bool_decide_eq_true in Hor. split; [done|]. destruct Hor; [left | right]; by left.
    - intros Hor%orb_false_iff _ l. rewrite !bool_decide_eq_false in Hor. destruct Hor as [O1 O2].
      assert (forall o : option nat, ~ o <> None -> o = None) as Hdne by (intros [n|] Hn; [by destruct Hn | done]).
      destruct l; by apply Hdne. }
  unfold ScheduleThreadLocked. rewrite Eb. cbn [mbind result_bind]. destruct busy_.
  - destruct (Hb1 eq_refl) as [-> Hbusy]. eexists. split; [reflexivity|].
    eapply (inv_idle g _ t _ w w); [done | by apply moved_phase | done | by destruct (phase_ (threads_ g t)) | done | done | by rewrite Hsch
      | done | done | | by split | done | done | done].
    split; [by rewrite Hwb, Hnb | done].
  - rewrite ASSERT_bind by by apply bool_decide_eq_true. rewrite pack_new. cbn [mbind result_bind]. rewrite ASSERT_bind by by apply Z.eqb_eq.
    eexists. split; [reflexivity|]. set (T' := with_state _ _). set (g' := set_active _ _).
    assert (threads_ g' t = T') as Et by apply set_thread_eq.
    assert (forall x, x <> t -> threads_ g' x = threads_ g x) as En by (intros x Hx; by apply set_thread_ne).
    assert (has_word T' (w_zero b)) as Hw' by done.
    assert (forall l, requested g' l t = false) as Hrt by (intros l; rewrite (requested_word g' l t (w_zero b)); [by destruct l | by rewrite Et]).
    assert (forall l, unparked g' l = unparked g l) as Eu.
    { intros l. unfold unparked. cbn [g' set_active active_list_ List.filter]. rewrite Hrt. cbn [andb]. do 2 f_equal.
      apply filter_ext_in. intros x Hx%list_elem_of_In. unfold requested, is_at. rewrite En; [done | by intros ->]. }
    apply (inv_active g g' t T' (w_zero b)); try done.
    + apply list.NoDup_cons. split; [done | apply Hinv].
    + intros x Hx. cbn. rewrite elem_of_cons. tauto.
    + cbn. split; [done|]. intros _. left.
    + by intros [].
    + intros l [_ Hby]. apply Hb2; [done|]. by destruct b.
    + intros l. rewrite Eu. change (handlers_ g' l) with (handlers_ g l). rewrite (inv_num g Hinv). split_and!; [done | done | done | lia].
Qed.

Lemma unparked_remove g0 g g' t l : Inv g0 -> active_list_ g = active_list_ g0 -> active_list_ g' = RemoveFromActiveListLocked t (active_list_ g) ->
  (forall x, x <> t -> threads_ g' x = threads_ g x) -> requested g l t && negb (is_at g l t) = false -> unparked g' l = unparked g l.
Proof.
  intros Hinv Ea0 Ea En Ht. unfold unparked. rewrite Ea. f_equal. pose proof (inv_nodup g0 Hinv) as Hd. rewrite <- Ea0 in Hd. clear Ea0 Ea.
  induction (active_list_ g) as [|x a IH]; [done|]. apply list.NoDup_cons in Hd as [Hx Hd].
  cbn. destruct (Nat.eqb_spec x t) as [->|Hne]; cbn.
  - rewrite Ht. f_equal. apply filter_ext_in. intros y Hy. unfold requested, is_at. rewrite En; [done|]. intros ->. by apply Hx, list_elem_of_In.
  - unfold requested, is_at in *. rewrite En by done. destruct (IsSafepointLevelRequested (safepoint_state_ (threads_ g x)) l && _); cbn; [f_equal|]; by apply IH.
Qed.

Lemma pack_left : encode_unchecked AtSafepointField 1 .| encode_unchecked AtDeoptSafepointField 1 = pack (w_set_at (w_zero false) kGCAndDeopt true).
Proof. destruct H as [[] []]; by vm_compute. Qed.

Lemma removed_list t a : NoDup a -> NoDup (RemoveFromActiveListLocked t a) /\ (t ∉ RemoveFromActiveListLocked t a) /\
  forall x, x <> t -> x ∈ RemoveFromActiveListLocked t a <-> x ∈ a.
Proof.
  induction a as [|y a IH]; intros Hd; [split_and!; [constructor | by intros ?%elem_of_nil | done]|].
  apply list.NoDup_cons in Hd as [Hy Hd]. destruct (IH Hd) as (I1 & I2 & I3). cbn. destruct (Nat.eqb_spec y t) as [->|Hne].
  - split_and!; [done | done|]. intros x Hx. rewrite elem_of_cons. tauto.
  - split_and!.
    + apply list.NoDup_cons. by rewrite I3.
    + rewrite elem_of_cons. intros [->|Hin]; done.
    + intros x Hx. rewrite !elem_of_cons, I3; done.
Qed.

Lemma UnscheduleThreadLocked_step g t : Inv g -> phase_ (threads_ g t) = Running -> lock_free t g = true ->
  runtime_call_deopt_ability_ (threads_ g t) = kCanLazyDeopt -> no_safepoint_scope_depth_ (threads_ g t) = 0 ->
  succeeds (UnscheduleThreadLocked t (BypassSafepoints (threads_ g t)) g).
Proof.
  intros Hinv Hp Hl Hab Hd. assert (threads_lock_ g = None) as Hnone by (apply (lock_none g t); [done | done | unfold holds; by rewrite Hp]).
  destruct (inv_thread g Hinv t) as [(w & Hw & Hwb & Hwok) _ _ _]. rewrite Hp in Hwb, Hwok.
  destruct (removed_list t (active_list_ g) (inv_nodup g Hinv)) as (Hnd & Hnin & Hin).
  assert (exists g1, (if BypassSafepoints (threads_ g t) then Ok g
       else _ ← ASSERT (no_safepoint_scope_depth_ (threads_ g t) =? 0);
         match TryEnterSafepoint (threads_ g t) with Some T => Ok (set_thread g t T) | None => EnterSafepointLocked t g end) = Ok g1 /\
    (forall x, x <> t -> threads_ g1 x = threads_ g x) /\ active_list_ g1 = active_list_ g /\ threads_lock_ g1 = None /\
    runtime_call_deopt_ability_ (threads_ g1 t) = kCanLazyDeopt /\ no_safepoint_scope_depth_ (threads_ g1 t) = 0 /\
    (forall l, requested g1 l t && negb (is_at g1 l t) = false) /\
    forall l, owner_ (handlers_ g1 l) = owner_ (handlers_ g l) /\ operation_count_ (handlers_ g1 l) = operation_count_ (handlers_ g l) /\
      num_threads_not_parked_ (handlers_ g1 l) = unparked g1 l /\ unparked g1 l <= unparked g l)
    as (g1 & E1 & En1 & Ea1 & El1 & Eab & Ed & Ht1 & Hh1).
  { rewrite Hd. destruct (BypassSafepoints (threads_ g t)) eqn:Eby.
    - exists g. split_and!; try done.
      + intros l. destruct (requested g l t) eqn:Er; [|done]. apply (inv_req g Hinv) in Er as (_ & Hb & _). unfold bypasses in Hb. congruence.
      + intros l. rewrite (inv_num g Hinv). split_and!; [done | done | done | lia].
    - rewrite ASSERT_bind by done. rewrite (word_TryEnter _ w Hw). destruct (decide (w = w_zero false)) as [->|Hnz].
      + eexists. split; [reflexivity|]. split_and!; try done; rewrite ?set_thread_eq; try done.
        * intros x Hx. by rewrite set_thread_ne.
        * intros l. unfold requested. rewrite set_thread_eq. cbn. rewrite pack_at_state, pack_requested. by destruct l, (current_safepoint_level (threads_ g t)).
        * intros l. assert (forall x, x <> t -> threads_ (set_thread g t (with_state (threads_ g t) (at_safepoint_state (threads_ g t)))) x = threads_ g x) as Hne
            by (intros x Hx; by rewrite set_thread_ne). cbn [set_thread handlers_].
          assert (unparked (set_thread g t (with_state (threads_ g t) (at_safepoint_state (threads_ g t)))) l = unparked g l) as Eu.
          { apply unparked_ext; [done|]. intros x _. destruct (decide (x = t)) as [->|Hx]; [|unfold requested, is_at; by rewrite set_thread_ne].
            rewrite (requested_word g l t _ Hw). unfold requested. rewrite set_thread_eq. cbn. rewrite pack_at_state, pack_requested.
            by destruct l, (current_safepoint_level (threads_ g t)). }
          rewrite Eu, (inv_num g Hinv). split_and!; [done | done | done | lia].
      + destruct (EnterSafepointLocked_spec g t Hinv) as (g1 & E & He); [by rewrite Hp.. |]. exists g1. split; [done|].
        pose proof (entered_moved _ _ _ He) as Hm. rewrite (moved_eq _ _ _ _ Hm). split_and!; try done.
        * apply Hm.
        * apply Hm.
        * by rewrite (entered_lock _ _ _ He).
        * intros l. pose proof (word_SetAtSafepoint _ w true Hw) as Hw1.
          rewrite (is_at_word g1 l t (w_set_at w (current_safepoint_level (threads_ g t)) true)) by by rewrite (moved_eq _ _ _ _ Hm).
          rewrite is_at_set_at by apply Hwok. unfold current_safepoint_level. rewrite Hab. by destruct l; rewrite andb_false_r.
        * apply He. }
  unfold UnscheduleThreadLocked. cbv zeta. rewrite E1. cbn [mbind result_bind]. rewrite ASSERT_bind by (cbn; by rewrite Ed).
  eexists. split; [reflexivity|]. set (T' := with_phase _ Unscheduled). set (g' := set_active _ _).
  assert (threads_ g' t = T') as Et by apply set_thread_eq.
  assert (forall x, x <> t -> threads_ g' x = threads_ g1 x) as En' by (intros x Hx; by apply set_thread_ne).
  assert (active_list_ g' = RemoveFromActiveListLocked t (active_list_ g1)) as Ea' by done.
  apply (inv_active g g' t T' (w_set_at (w_zero false) kGCAndDeopt true)); rewrite ?Ea', ?Ea1; try done.
  - intros x Hx. by rewrite En', En1.
  - unfold roleless, owns, wants, settled. by rewrite Hp.
  - unfold holds. by rewrite Hp.
  - exact pack_left.
  - by intros [].
  - intros l [Hin' _]. by apply Hnin in Hin'.
  - intros l. change (handlers_ g' l) with (handlers_ g1 l). rewrite (unparked_remove g g1 g' t l Hinv Ea1 Ea' En' (Ht1 l)). apply Hh1.
Qed.

(** ** All steps *)

Lemma notify_step g t level todo : Inv g -> phase_ (threads_ g t) = Notifying level todo ->
  Inv (NotifyThreadsToGetToSafepointLevel t level todo g).
Proof.
  intros Hinv Hp. destruct todo as [|x todo]; [by apply notified_step|]. cbn [NotifyThreadsToGetToSafepointLevel].
  destruct (bypasses g x) eqn:Eb, (decide (x = t)) as [->|Hn]; [| | |by apply notify_request].
  all: replace (notify_thread _ level _ g) with g by (unfold notify_thread; fold (bypasses g t); try fold (bypasses g x);
         rewrite Eb; cbn; by rewrite ?bool_decide_eq_false_2 by tauto).
  all: eapply inv_skip; [done | by apply notify_loop | auto].
Qed.

Lemma continue_step g t level todo : Inv g -> phase_ (threads_ g t) = Continuing level todo ->
  succeeds (NotifyThreadsToContinue t level todo g).
Proof.
  intros Hinv Hp. destruct todo as [|x todo]; [by apply continued_step|]. cbn [NotifyThreadsToContinue]. eexists. split; [reflexivity|].
  destruct (bypasses g x) eqn:Eb, (decide (x = t)) as [->|Hn]; [| | |by apply continue_release].
  all: replace (continue_thread _ level _ g) with g by (unfold continue_thread; fold (bypasses g t); try fold (bypasses g x);
         rewrite Eb; cbn; by rewrite ?bool_decide_eq_false_2 by tauto).
  all: eapply inv_skip; [done | by apply continue_loop | auto].
Qed.

Lemma guarded_Some b r r' : guarded b r = Some r' -> b = true /\ r = r'.
Proof. destruct b; [by intros [= ->] | done]. Qed.

Lemma proceed_step g t r : Inv g -> proceed t g = Some r -> succeeds r.
Proof.
  intros Hinv. unfold proceed. destruct (phase_ (threads_ g t)) as [|b []| | | |[]|l []|l todo|l|l todo []| |l todo] eqn:Hp; try done.
  - intros [Hl <-]%guarded_Some. apply ScheduleThreadLocked_step; [done | by rewrite Hp | done].
  - intros [Hl <-]%guarded_Some. apply ScheduleThreadLocked_step; [done | by rewrite Hp | done].
  - intros [= <-]. by apply EnterSafepointUsingLock_step.
  - intros [= <-]. by apply ExitSafepointLocked_step.
  - intros [= <-]. by apply ExitSafepointLocked_step.
  - intros [Hl <-]%guarded_Some. by eapply wait_for_level_step.
  - intros [Hl <-]%guarded_Some. by eapply wait_for_level_step.
  - intros [= <-]. eexists. split; [reflexivity | by apply notify_step].
  - intros [Hl <-]%guarded_Some. eexists. split; [reflexivity|]. apply parked_step; [done | done | by apply Z.leb_le].
  - intros [Hl <-]%guarded_Some. by eapply Acquire_step.
  - intros [Hl <-]%guarded_Some. by eapply Acquire_step.
  - intros [= <-]. by apply continue_step.
Qed.

(** Every step that is allowed succeeds and keeps the invariant. *)
Lemma exec_step g t a r : Inv g -> allowed t a g = true -> exec t a g = Some r -> succeeds r.
Proof.
  intros Hinv Ha. unfold exec. destruct a as [tr| |kind| |v|d|level| |b| | |].
  - destruct (phase_ (threads_ g t)) eqn:Hp; try done; intros [Hl <-]%guarded_Some; apply transition_step; try done;
      rewrite Hp; destruct (leaves tr); done.
  - destruct (phase_ (threads_ g t)) eqn:Hp; try done. intros [= <-]. unfold CheckForSafepoint. cbn [allowed] in Ha.
    rewrite ASSERT_bind by done. by apply check_step.
  - destruct (phase_ (threads_ g t)) eqn:Hp; try done. intros [= <-]. unfold RuntimeCallDeoptScope. cbn [allowed] in Ha.
    rewrite ASSERT_bind by done. eexists. split; [reflexivity|]. by apply running_step.
  - destruct (phase_ (threads_ g t)) eqn:Hp; try done. intros [= <-]. eexists. split; [reflexivity|]. by apply running_step.
  - destruct (phase_ (threads_ g t)) eqn:Hp; try done. intros [= <-]. eexists. split; [reflexivity|]. by apply unwind_step.
  - destruct (phase_ (threads_ g t)) eqn:Hp; try done. intros [= <-]. eexists. split; [reflexivity|]. by apply running_step.
  - destruct (phase_ (threads_ g t)) eqn:Hp; try done; intros [Hl <-]%guarded_Some;
      [by apply SafepointThreads_first | by apply SafepointThreads_again].
  - destruct (phase_ (threads_ g t)) eqn:Hp; try done. destruct (scopes_ (threads_ g t)) as [|l rest] eqn:Es; [done|].
    intros [Hl <-]%guarded_Some. by eapply ResumeThreads_step.
  - destruct (phase_ (threads_ g t)) eqn:Hp; try done. intros [Hl <-]%guarded_Some. apply ScheduleThreadLocked_step; [done | by rewrite Hp | done].
  - destruct (phase_ (threads_ g t)) eqn:Hp; try done. intros [[Hl Hab%bool_decide_eq_true]%andb_true_iff <-]%guarded_Some.
    cbn [allowed] in Ha. apply Z.eqb_eq in Ha. by apply UnscheduleThreadLocked_step.
  - by apply proceed_step.
  - intros [= <-]. eexists. split; [reflexivity|]. apply (inv_woken g); try done. intros x.
    destruct (decide (x = t)) as [->|Hn]; [right; by rewrite set_thread_eq | left; by rewrite set_thread_ne].
Qed.

Lemma reachable_inv g : reachable g -> Inv g.
Proof.
  induction 1 as [T Hp He Hd Hab Hsc Hs|g t a g' _ IH Ha Hx].
  - split; cbn; try done.
    + intros x. split; cbn.
      * exists (w_zero false). split; [by unfold has_word; rewrite Hs|]. unfold word_ok. by rewrite Hp.
      * unfold phase_ok. by rewrite Hp.
      * rewrite Hp. split; [by intros ?%elem_of_nil | done].
      * by rewrite Hp.
    + constructor.
    + intros l t. unfold owns. by rewrite Hp.
    + intros l x. split.
      * intros Hr. unfold requested in Hr. cbn in Hr. rewrite Hs in Hr. change 0 with (pack (w_zero false)) in Hr.
        rewrite pack_requested in Hr. by destruct l.
      * intros (Hx & _). by apply elem_of_nil in Hx.
    + intros t. unfold holds. by rewrite Hp.
    + intros t. unfold sleeps_well. by rewrite Hp.
  - destruct (exec_step g t a _ IH Ha Hx) as (g'' & E & Hinv). by injection E as ->.
Qed.
End Schedule.
