(* ===== verification/BitSet.v ===== *)
(** * Bit sets

    [template BitSet] of [src/runtime/vm/bit_set.h]: an array of words, here the list [data_],
    with the searches for the next and the last member.  The specifications say what the
    operations do to the members, [member]. *)
From S2P Require Import Prelude Utils Constants Words Exec Macros ObjectHeader.

Section BitSet.
Context `{Target}.

Definition kBitsPerWordLog2 : Z := kWordSizeLog2 + 3.
Definition kBitsPerWord : Z := 1 << kBitsPerWordLog2.

(** [Utils::CountTrailingZerosWord] and [CountLeadingZerosWord]. *)
Definition CountTrailingZerosWord (x : Z) : Z := if x =? 0 then kBitsPerWord else Z.log2 (x .& - x).
Definition CountLeadingZerosWord (x : Z) : Z := if x =? 0 then kBitsPerWord else kBitsPerWord - 1 - Z.log2 x.

(** Element [w] of an array; there is none outside of it. *)
Definition word_at (data_ : list Z) (w : Z) : result Z :=
  if w <? 0 then Err (HostFault w)
  else match data_ !! Z.to_nat w with Some d => Ok d | None => Err (HostFault w) end.
Definition set_word (data_ : list Z) (w d : Z) : list Z := <[Z.to_nat w := d]> data_.

Section Set_.
Context (N : Z).

Definition kLengthInWords : Z := 1 + (N - 1) / kBitsPerWord.

Definition bit_mask (i : Z) : Z := uintx (1 << (i .& (kBitsPerWord - 1))).

Definition BitSet_Reset : list Z := replicate (Z.to_nat kLengthInWords) 0.

Definition BitSet_Set (i : Z) (value : bool) (data_ : list Z) : result (list Z) :=
  _ ← ASSERT (0 <=? i);
  _ ← ASSERT (i <? N);
  d ← word_at data_ (i >> kBitsPerWordLog2);
  Ok (set_word data_ (i >> kBitsPerWordLog2)
        (if value then d .| bit_mask i else d .& uintx (Z.lnot (bit_mask i)))).

Definition BitSet_Test (i : Z) (data_ : list Z) : result bool :=
  _ ← ASSERT (0 <=? i);
  _ ← ASSERT (i <? N);
  d ← word_at data_ (i >> kBitsPerWordLog2);
  Ok (negb (d .& bit_mask i =? 0)).

(** The loop of [Next] over the words [ws], which start with number [w]. *)
Fixpoint next_word (w : Z) (ws : list Z) : Z :=
  match ws with
  | [] => -1
  | d :: ws =>
      if negb (d =? 0) then (w << kBitsPerWordLog2) + CountTrailingZerosWord d else next_word (w + 1) ws
  end.

Definition BitSet_Next (i : Z) (data_ : list Z) : result Z :=
  _ ← ASSERT (0 <=? i);
  _ ← ASSERT (i <? N);
  let w := i >> kBitsPerWordLog2 in
  let mask := uintx (uintx (Z.lnot 0) << (i .& (kBitsPerWord - 1))) in
  d ← word_at data_ w;
  if negb (d .& mask =? 0) then Ok ((w << kBitsPerWordLog2) + CountTrailingZerosWord (d .& mask))
  else Ok (next_word (w + 1) (drop (Z.to_nat (w + 1)) data_)).

(** The loops of [Last] and [ClearLastAndFindPrevious] over the words below number [n], from
    the last to the first. *)
Fixpoint last_word (n : nat) (data_ : list Z) : Z :=
  match n with
  | O => -1
  | S w =>
      let d := default 0 (data_ !! w) in
      if negb (d =? 0) then ((Z.of_nat w + 1) << kBitsPerWordLog2) - CountLeadingZerosWord d - 1
      else last_word w data_
  end.

Definition BitSet_Last (data_ : list Z) : Z := last_word (Z.to_nat kLengthInWords) data_.

Definition BitSet_ClearLastAndFindPrevious (current_last : Z) (data_ : list Z) : result (Z * list Z) :=
  t ← BitSet_Test current_last data_;
  _ ← ASSERT t;
  _ ← ASSERT (BitSet_Last data_ =? current_last);
  let w := current_last >> kBitsPerWordLog2 in
  bits ← word_at data_ w;
  let bits := bits .^ bit_mask current_last in
  let data_ := set_word data_ w bits in
  Ok (last_word (Z.to_nat (w + 1)) data_, data_).
End Set_.

(** ** Members *)

Definition member (data_ : list Z) (i : Z) : bool :=
  Z.testbit (default 0 (data_ !! Z.to_nat (i / kBitsPerWord))) (i mod kBitsPerWord).
Definition bitset_wf (N : Z) (data_ : list Z) : Prop :=
  length data_ = Z.to_nat (kLengthInWords N) /\ Forall (fun d => 0 <= d < 2 ^ kBitsPerWord) data_.

Lemma kBitsPerWord_XLEN : kBitsPerWord = XLEN.
Proof. unfold kBitsPerWord, kBitsPerWordLog2, kWordSizeLog2, XLEN. by destruct TARGET_64. Qed.
Lemma kBitsPerWord_pow : kBitsPerWord = 2 ^ kBitsPerWordLog2 /\ 0 <= kBitsPerWordLog2.
Proof. unfold kBitsPerWord, kBitsPerWordLog2, kWordSizeLog2. by destruct TARGET_64. Qed.
Lemma kBitsPerWord_pos : 32 <= kBitsPerWord.
Proof. rewrite kBitsPerWord_XLEN. destruct XLEN_cases as [-> | ->]; lia. Qed.

Lemma word_index i : i >> kBitsPerWordLog2 = i / kBitsPerWord /\ i .& (kBitsPerWord - 1) = i mod kBitsPerWord.
Proof.
  destruct kBitsPerWord_pow as [-> Hp]. split; [by apply Z.shiftr_div_pow2|].
  replace (2 ^ kBitsPerWordLog2 - 1) with (Z.ones kBitsPerWordLog2) by (rewrite Z.ones_equiv; lia). by apply Z.land_ones.
Qed.
Lemma word_start w : w << kBitsPerWordLog2 = w * kBitsPerWord.
Proof. destruct kBitsPerWord_pow as [-> Hp]. by apply Z.shiftl_mul_pow2. Qed.

Lemma mod_word i : 0 <= i mod kBitsPerWord < kBitsPerWord.
Proof. apply Z.mod_pos_bound. pose proof kBitsPerWord_pos. lia. Qed.

Lemma bit_mask_spec i : bit_mask i = 2 ^ (i mod kBitsPerWord).
Proof.
  unfold bit_mask. destruct (word_index i) as [_ ->]. rewrite Z.shiftl_1_l. pose proof (mod_word i). apply uintx_small.
  rewrite <- kBitsPerWord_XLEN. split; [apply Z.pow_nonneg; lia | apply Z.pow_lt_mono_r; lia].
Qed.

Lemma testbit_bit_mask i j : 0 <= j -> Z.testbit (bit_mask i) j = (i mod kBitsPerWord =? j).
Proof. intros Hj. rewrite bit_mask_spec. pose proof (mod_word i). by rewrite Z.pow2_bits_eqb by lia. Qed.

(** A bit of an array is a word and a bit of the word. *)
Lemma split_index i j : 0 <= i -> 0 <= j -> i = j <-> i / kBitsPerWord = j / kBitsPerWord /\ i mod kBitsPerWord = j mod kBitsPerWord.
Proof.
  intros Hi Hj. split; [by intros ->|]. intros [E1 E2]. pose proof kBitsPerWord_pos.
  rewrite (Z.div_mod i kBitsPerWord), (Z.div_mod j kBitsPerWord) by lia. by rewrite E1, E2.
Qed.

Lemma word_in N data_ i : bitset_wf N data_ -> 0 <= i < N -> 0 <= i / kBitsPerWord /\
  exists d, data_ !! Z.to_nat (i / kBitsPerWord) = Some d /\ 0 <= d < 2 ^ kBitsPerWord /\ word_at data_ (i >> kBitsPerWordLog2) = Ok d.
Proof.
  intros [Hlen Hw] Hi. pose proof kBitsPerWord_pos. assert (0 <= i / kBitsPerWord) as Hq by (apply Z.div_pos; lia). split; [done|].
  destruct (lookup_lt_is_Some_2 data_ (Z.to_nat (i / kBitsPerWord))) as [d Hd].
  { rewrite Hlen. apply Z2Nat.inj_lt; [done | unfold kLengthInWords; pose proof (Z.div_pos (N - 1) kBitsPerWord); lia|].
    unfold kLengthInWords. pose proof (Z.div_le_mono i (N - 1) kBitsPerWord). lia. }
  exists d. split; [done|]. split; [by apply (Forall_lookup_1 _ _ _ _ Hw Hd)|].
  unfold word_at. destruct (word_index i) as [-> _]. rewrite (proj2 (Z.ltb_ge _ _)) by done. by rewrite Hd.
Qed.

Lemma BitSet_Test_spec N data_ i : bitset_wf N data_ -> 0 <= i < N -> BitSet_Test N i data_ = Ok (member data_ i).
Proof.
  intros Hwf Hi. destruct (word_in N data_ i Hwf Hi) as (Hq & d & Hd & Hb & Hw). unfold BitSet_Test.
  rewrite !ASSERT_bind by lia. rewrite Hw. cbn [mbind result_bind]. f_equal. unfold member. rewrite Hd. cbn [default from_option id].
  pose proof (mod_word i). change (id d) with d. destruct (Z.testbit d (i mod kBitsPerWord)) eqn:E.
  - apply negb_true_iff, Z.eqb_neq. intros Hz. apply (f_equal (fun z => Z.testbit z (i mod kBitsPerWord))) in Hz.
    rewrite Z.land_spec, testbit_bit_mask, E, Z.eqb_refl, Z.bits_0 in Hz by lia. done.
  - apply negb_false_iff, Z.eqb_eq. apply Z.bits_inj'. intros j Hj. rewrite Z.land_spec, testbit_bit_mask, Z.bits_0 by done.
    destruct (Z.eqb_spec (i mod kBitsPerWord) j) as [<-|]; [by rewrite E | apply andb_false_r].
Qed.

(** One word changes. *)
Lemma member_set_word data_ w d i : 0 <= w < Z.of_nat (length data_) -> 0 <= i ->
  member (set_word data_ w d) i = if i / kBitsPerWord =? w then Z.testbit d (i mod kBitsPerWord) else member data_ i.
Proof.
  intros Hw Hi. unfold member, set_word. pose proof kBitsPerWord_pos. pose proof (Z.div_pos i kBitsPerWord).
  destruct (Z.eqb_spec (i / kBitsPerWord) w) as [->|Hn].
  - rewrite list_lookup_insert_eq by lia. done.
  - rewrite list_lookup_insert_ne by lia. done.
Qed.

Lemma set_word_wf N data_ w d : bitset_wf N data_ -> 0 <= d < 2 ^ kBitsPerWord -> bitset_wf N (set_word data_ w d).
Proof.
  intros [Hl Hw] Hd. unfold set_word. split; [by rewrite length_insert|]. by apply Forall_insert.
Qed.

Lemma lookup_length {A} (l : list A) (z : Z) d : 0 <= z -> l !! Z.to_nat z = Some d -> 0 <= z < Z.of_nat (length l).
Proof. intros Hz Hd. apply lookup_lt_Some in Hd. lia. Qed.

Lemma BitSet_Set_spec N data_ i v : bitset_wf N data_ -> 0 <= i < N ->
  exists data', BitSet_Set N i v data_ = Ok data' /\ bitset_wf N data' /\
    forall j, 0 <= j -> member data' j = if j =? i then v else member data_ j.
Proof.
  intros Hwf Hi. destruct (word_in N data_ i Hwf Hi) as (Hq & d & Hd & Hb & Hw). unfold BitSet_Set.
  rewrite !ASSERT_bind by lia. rewrite Hw. cbn [mbind result_bind]. eexists. split; [reflexivity|].
  pose proof (mod_word i) as Hm. pose proof kBitsPerWord_pos.
  assert (0 <= bit_mask i < 2 ^ kBitsPerWord) as Hbm by (rewrite bit_mask_spec; split; [apply Z.pow_nonneg; lia | apply Z.pow_lt_mono_r; lia]).
  destruct (word_index i) as [-> _]. split.
  - apply set_word_wf; [done|]. destruct v; [apply lor_bound; [lia | done | done] | apply land_word; [lia | done]].
  - intros j Hj. rewrite member_set_word by (first [done | eapply lookup_length; done]).
    pose proof (mod_word j) as Hmj. pose proof (split_index j i Hj ltac:(lia)) as Hsp.
    destruct (Z.eqb_spec (j / kBitsPerWord) (i / kBitsPerWord)) as [E|E].
    + assert (member data_ j = Z.testbit d (j mod kBitsPerWord)) as Ej by (unfold member; by rewrite E, Hd). rewrite Ej.
      assert ((j =? i) = (i mod kBitsPerWord =? j mod kBitsPerWord)) as -> by (apply Bool.eq_iff_eq_true; rewrite !Z.eqb_eq; split; intros; [by subst | by apply Hsp]).
      destruct v.
      * rewrite Z.lor_spec, testbit_bit_mask by lia. destruct (_ =? _); [apply orb_true_r | apply orb_false_r].
      * rewrite Z.land_spec. unfold uintx. rewrite (testbit_uwrap _ XLEN_pos), Z.lnot_spec, testbit_bit_mask by lia.
        rewrite (proj2 (Z.ltb_lt (j mod kBitsPerWord) XLEN)) by (rewrite <- kBitsPerWord_XLEN; lia).
        destruct (_ =? _); [apply andb_false_r | apply andb_true_r].
    + destruct (Z.eqb_spec j i) as [->|]; done.
Qed.

(** ** The searches *)

(** The lowest and the highest bit of a word. *)
Lemma land_neg_pow x : 0 < x -> exists k, 0 <= k /\ x .& - x = 2 ^ k /\ Z.testbit x k = true /\ forall j, 0 <= j < k -> Z.testbit x j = false.
Proof.
  intros Hx. pose proof Hx as Hx0. revert Hx. apply (Z_lt_induction (fun x => 0 < x -> exists k, 0 <= k /\ x .& - x = 2 ^ k /\ Z.testbit x k = true /\
    forall j, 0 <= j < k -> Z.testbit x j = false)); [|lia]. clear x Hx0. intros x IH Hx.
  destruct (Z.Even_or_Odd x) as [[y Hy]|[y Hy]].
  - destruct (IH y ltac:(lia) ltac:(lia)) as (k & Hk & E & Ht & Hl). exists (k + 1). split; [lia|].
    assert (forall z n, 0 <= n -> Z.testbit (2 * z) (n + 1) = Z.testbit z n) as Hd.
    { intros z n Hn. rewrite Z.add_1_r. by apply Z.double_bits_succ. }
    split_and!.
    + rewrite Hy, Z.pow_add_r, Z.pow_1_r, <- E by lia. apply Z.bits_inj'. intros n Hn.
      destruct (Z.eq_dec n 0) as [->|]; [by rewrite Z.land_spec, <- !Z.mul_opp_r, !Z.testbit_even_0, (Z.mul_comm _ 2), Z.testbit_even_0|].
      rewrite (Z.mul_comm _ 2), Z.land_spec, <- Z.mul_opp_r. replace n with (n - 1 + 1) by lia. rewrite !Hd by lia. by rewrite Z.land_spec.
    + rewrite Hy. by rewrite Hd.
    + intros j Hj. rewrite Hy. destruct (Z.eq_dec j 0) as [->|]; [apply Z.testbit_even_0|].
      replace j with (j - 1 + 1) by lia. rewrite Hd by lia. apply Hl. lia.
  - exists 0. split; [done|]. split_and!; [| by rewrite Hy, Z.testbit_odd_0 | lia].
    apply Z.bits_inj'. intros n Hn. rewrite Z.land_spec. change (2 ^ 0) with 1.
    assert (- x = 2 * (- y - 1) + 1) as E by lia. destruct (Z.eq_dec n 0) as [->|].
    + by rewrite E, Hy, !Z.testbit_odd_0.
    + replace n with (Z.succ (n - 1)) by lia. rewrite E, Hy, !Z.testbit_odd_succ by lia.
      replace (- y - 1) with (Z.lnot y) by (unfold Z.lnot; lia). rewrite Z.lnot_spec by lia.
      change 1 with (2 * 0 + 1). rewrite Z.testbit_odd_succ, Z.bits_0 by lia. apply andb_negb_r.
Qed.

Lemma trailing_spec x : 0 < x -> Z.testbit x (CountTrailingZerosWord x) = true /\ 0 <= CountTrailingZerosWord x /\
  forall j, 0 <= j < CountTrailingZerosWord x -> Z.testbit x j = false.
Proof.
  intros Hx. unfold CountTrailingZerosWord. rewrite (proj2 (Z.eqb_neq x 0)) by lia.
  destruct (land_neg_pow x Hx) as (k & Hk & -> & Ht & Hl). rewrite Z.log2_pow2 by done. done.
Qed.

Lemma leading_spec x : 0 < x -> exists k, kBitsPerWord - CountLeadingZerosWord x - 1 = k /\ Z.testbit x k = true /\ 0 <= k /\
  forall j, k < j -> Z.testbit x j = false.
Proof.
  intros Hx. unfold CountLeadingZerosWord. rewrite (proj2 (Z.eqb_neq x 0)) by lia. exists (Z.log2 x).
  split_and!; [lia | by apply Z.bit_log2 | apply Z.log2_nonneg | intros j Hj; by apply Z.bits_above_log2; [lia|]].
Qed.

Lemma bit_below x n k : 0 <= x < 2 ^ n -> 0 <= n -> 0 <= k -> Z.testbit x k = true -> k < n.
Proof. intros Hx Hn Hk Ht. destruct (Z.lt_ge_cases k n); [done|]. by rewrite (testbit_above x n) in Ht by lia. Qed.

(** Bit [k] of word [w]. *)
Lemma member_word data_ w k : 0 <= k < kBitsPerWord ->
  member data_ (w * kBitsPerWord + k) = Z.testbit (default 0 (data_ !! Z.to_nat w)) k.
Proof.
  intros Hk. unfold member. pose proof kBitsPerWord_pos.
  by rewrite (Z.add_comm (w * _)), Z.div_add, Z.mod_add, Z.div_small, Z.mod_small, Z.add_0_l by lia.
Qed.

Lemma index_word j : j = j / kBitsPerWord * kBitsPerWord + j mod kBitsPerWord.
Proof. pose proof kBitsPerWord_pos. pose proof (Z.div_mod j kBitsPerWord). lia. Qed.

(** The least member from [i] on. *)
Definition is_next (data_ : list Z) (N i r : Z) : Prop :=
  (r = -1 /\ forall j, i <= j < N -> member data_ j = false) \/
  (i <= r /\ member data_ r = true /\ forall j, i <= j < r -> member data_ j = false).

Lemma next_word_spec data_ N w : bitset_wf N data_ -> 0 <= w ->
  is_next data_ N (w * kBitsPerWord) (next_word w (drop (Z.to_nat w) data_)).
Proof.
  intros [Hlen Hw] Hw0. pose proof kBitsPerWord_pos as Hpos. remember (drop (Z.to_nat w) data_) as ws eqn:E. revert w Hw0 E.
  induction ws as [|d ws IH]; intros w Hw0 E; cbn [next_word].
  - left. split; [done|]. intros j Hj. unfold member. rewrite lookup_ge_None_2; [apply Z.bits_0|].
    assert (length data_ <= Z.to_nat w)%nat by (apply (f_equal length) in E; rewrite length_drop in E; cbn in E; lia).
    pose proof (Z.div_le_lower_bound j kBitsPerWord w). lia.
  - assert (data_ !! Z.to_nat w = Some d) as Hd by (rewrite <- (Nat.add_0_r (Z.to_nat w)), <- lookup_drop, <- E; done).
    pose proof (Forall_lookup_1 _ _ _ _ Hw Hd) as Hb. cbn in Hb. destruct (Z.eqb_spec d 0) as [->|Hn]; cbn [negb].
    + destruct (IH (w + 1)) as [[Hr Hj]|(Hr & Hm & Hj)]; [lia | by rewrite Z2Nat.inj_add, <- drop_drop, <- E by lia | |].
      * left. split; [done|]. intros j Hij. destruct (Z.lt_ge_cases j ((w + 1) * kBitsPerWord)); [|by apply Hj; lia].
        replace j with (w * kBitsPerWord + (j - w * kBitsPerWord)) by lia. rewrite member_word, Hd by lia. apply Z.bits_0.
      * right. split; [lia|]. split; [done|]. intros j Hij. destruct (Z.lt_ge_cases j ((w + 1) * kBitsPerWord)); [|by apply Hj; lia].
        replace j with (w * kBitsPerWord + (j - w * kBitsPerWord)) by lia. rewrite member_word, Hd by lia. apply Z.bits_0.
    + destruct (trailing_spec d ltac:(lia)) as (Ht & Hk & Hl). pose proof (bit_below d kBitsPerWord _ Hb ltac:(lia) Hk Ht).
      rewrite word_start. right. split_and!; [lia | by rewrite member_word, Hd by lia|]. intros j Hj.
      replace j with (w * kBitsPerWord + (j - w * kBitsPerWord)) by lia. rewrite member_word, Hd by lia. apply Hl. lia.
Qed.

Lemma BitSet_Next_spec N data_ i : bitset_wf N data_ -> 0 <= i < N ->
  exists r, BitSet_Next N i data_ = Ok r /\ is_next data_ N i r.
Proof.
  intros Hwf Hi. destruct (word_in N data_ i Hwf Hi) as (Hq & d & Hd & Hb & Hw). unfold BitSet_Next.
  rewrite !ASSERT_bind by lia. rewrite Hw. cbn [mbind result_bind]. destruct (word_index i) as [-> ->]. cbv zeta.
  set (w := i / kBitsPerWord) in *. pose proof (mod_word i) as Hm. pose proof (index_word i) as Ei. fold w in Ei.
  pose proof kBitsPerWord_pos as Hpos.
  assert (forall k, 0 <= k -> Z.testbit (d .& uintx (uintx (Z.lnot 0) << (i mod kBitsPerWord))) k = Z.testbit d k && (i mod kBitsPerWord <=? k)) as Hbit.
  { intros k Hk. rewrite Z.land_spec. destruct (Z.lt_ge_cases k kBitsPerWord) as [Hkw|Hkw].
    - f_equal. unfold uintx. rewrite (testbit_uwrap _ XLEN_pos), Z.shiftl_spec by lia. rewrite (proj2 (Z.ltb_lt k XLEN)) by (rewrite <- kBitsPerWord_XLEN; lia).
      destruct (Z.leb_spec (i mod kBitsPerWord) k); cbn [andb]; [|by apply Z.testbit_neg_r; lia].
      rewrite (testbit_uwrap _ XLEN_pos), Z.lnot_spec, Z.bits_0 by lia. rewrite (proj2 (Z.ltb_lt _ XLEN)) by (rewrite <- kBitsPerWord_XLEN; lia). done.
    - by rewrite (testbit_above d kBitsPerWord) by lia. }
  set (dm := d .& _) in *.
  assert (forall k, 0 <= k < kBitsPerWord -> member data_ (w * kBitsPerWord + k) = Z.testbit d k) as Hmem by (intros k Hk; by rewrite member_word, Hd).
  destruct (Z.eqb_spec dm 0) as [Hz|Hz]; cbn [negb].
  - eexists. split; [reflexivity|].
    assert (forall j, i <= j < (w + 1) * kBitsPerWord -> member data_ j = false) as Hlow.
    { intros j Hj. replace j with (w * kBitsPerWord + (j - w * kBitsPerWord)) by lia. rewrite Hmem by lia.
      specialize (Hbit (j - w * kBitsPerWord) ltac:(lia)). rewrite Hz, Z.bits_0, (proj2 (Z.leb_le _ _)), andb_true_r in Hbit by lia. done. }
    destruct (next_word_spec data_ N (w + 1) Hwf ltac:(lia)) as [[Hr Hj]|(Hr & Hmr & Hj)]; [left | right].
    + split; [done|]. intros j Hij. destruct (Z.lt_ge_cases j ((w + 1) * kBitsPerWord)); [apply Hlow; lia | apply Hj; lia].
    + split; [nia|]. split; [done|]. intros j Hij. destruct (Z.lt_ge_cases j ((w + 1) * kBitsPerWord)); [apply Hlow; lia | apply Hj; lia].
  - eexists. split; [reflexivity|]. assert (0 <= dm < 2 ^ kBitsPerWord) as Hdm by (apply land_word; lia).
    destruct (trailing_spec dm ltac:(lia)) as (Ht & Hk & Hl). set (k := CountTrailingZerosWord dm) in *.
    pose proof (bit_below dm kBitsPerWord _ Hdm ltac:(lia) Hk Ht). rewrite Hbit in Ht by done.
    apply andb_true_iff in Ht as [Htd Hik%Z.leb_le]. rewrite word_start. right. split_and!; [lia | by rewrite Hmem by lia|].
    intros j Hj. replace j with (w * kBitsPerWord + (j - w * kBitsPerWord)) by lia. rewrite Hmem by lia.
    specialize (Hl (j - w * kBitsPerWord) ltac:(lia)). rewrite Hbit, (proj2 (Z.leb_le _ _)), andb_true_r in Hl by lia. done.
Qed.

(** The greatest member below [n]. *)
Definition is_last (data_ : list Z) (n r : Z) : Prop :=
  (r = -1 /\ forall j, 0 <= j < n -> member data_ j = false) \/
  (0 <= r < n /\ member data_ r = true /\ forall j, r < j < n -> member data_ j = false).

Lemma last_word_spec data_ N n : bitset_wf N data_ -> is_last data_ (Z.of_nat n * kBitsPerWord) (last_word n data_).
Proof.
  intros [Hlen Hw]. pose proof kBitsPerWord_pos as Hpos. induction n as [|w IH]; cbn [last_word]; [left; split; [done | lia]|].
  assert (0 <= default 0 (data_ !! w) < 2 ^ kBitsPerWord) as Hb.
  { destruct (data_ !! w) as [d|] eqn:E; cbn; [by apply (Forall_lookup_1 _ _ _ _ Hw E) | lia]. }
  set (d := default 0 (data_ !! w)) in *.
  assert (forall k, 0 <= k < kBitsPerWord -> member data_ (Z.of_nat w * kBitsPerWord + k) = Z.testbit d k) as Hmem
    by (intros k Hk; by rewrite member_word, Nat2Z.id).
  destruct (Z.eqb_spec d 0) as [Hz|Hz]; cbn [negb].
  - assert (forall j, Z.of_nat w * kBitsPerWord <= j < Z.of_nat (S w) * kBitsPerWord -> member data_ j = false) as Hlow.
    { intros j Hj. replace j with (Z.of_nat w * kBitsPerWord + (j - Z.of_nat w * kBitsPerWord)) by lia. rewrite Hmem by lia.
      rewrite Hz. apply Z.bits_0. }
    destruct IH as [[Hr Hj]|(Hr & Hmr & Hj)]; [left | right].
    + split; [done|]. intros j Hij. destruct (Z.lt_ge_cases j (Z.of_nat w * kBitsPerWord)); [apply Hj; lia | apply Hlow; lia].
    + split; [lia|]. split; [done|]. intros j Hij. destruct (Z.lt_ge_cases j (Z.of_nat w * kBitsPerWord)); [apply Hj; lia | apply Hlow; lia].
  - destruct (leading_spec d ltac:(lia)) as (k & Ek & Ht & Hk & Hl). pose proof (bit_below d kBitsPerWord _ Hb ltac:(lia) Hk Ht).
    rewrite word_start. replace ((Z.of_nat w + 1) * kBitsPerWord - CountLeadingZerosWord d - 1) with (Z.of_nat w * kBitsPerWord + k) by lia.
    right. split_and!; [lia | lia | by rewrite Hmem by lia|]. intros j Hj.
    replace j with (Z.of_nat w * kBitsPerWord + (j - Z.of_nat w * kBitsPerWord)) by lia. rewrite Hmem by lia. apply Hl. lia.
Qed.

Lemma BitSet_Last_spec N data_ i : bitset_wf N data_ -> 0 < N -> 0 <= i -> member data_ i = true ->
  (forall j, i < j -> member data_ j = false) -> BitSet_Last N data_ = i.
Proof.
  intros Hwf HN Hi Hm Hj. unfold BitSet_Last. pose proof kBitsPerWord_pos.
  assert (i < Z.of_nat (Z.to_nat (kLengthInWords N)) * kBitsPerWord) as Hlt.
  { destruct (Z.lt_ge_cases i (Z.of_nat (Z.to_nat (kLengthInWords N)) * kBitsPerWord)); [done|]. exfalso.
    unfold member in Hm. rewrite lookup_ge_None_2, Z.bits_0 in Hm; [done|]. destruct Hwf as [-> _].
    pose proof (Z.div_le_lower_bound i kBitsPerWord (Z.of_nat (Z.to_nat (kLengthInWords N)))). lia. }
  destruct (last_word_spec data_ N (Z.to_nat (kLengthInWords N)) Hwf) as [[_ Hn]|(Hr & Hmr & Hn)].
  - by rewrite Hn in Hm.
  - set (r := last_word _ _) in *. destruct (Z.lt_trichotomy r i) as [Hlt'|[->|Hgt]]; [|done|].
    + by rewrite Hn in Hm.
    + by rewrite Hj in Hmr.
Qed.

Lemma BitSet_ClearLast_spec N data_ i : bitset_wf N data_ -> 0 <= i < N -> member data_ i = true ->
  (forall j, i < j -> member data_ j = false) ->
  exists r data', BitSet_ClearLastAndFindPrevious N i data_ = Ok (r, data') /\ bitset_wf N data' /\ is_last data' i r /\
    forall j, 0 <= j -> member data' j = if j =? i then false else member data_ j.
Proof.
  intros Hwf Hi Hm Hab. destruct (word_in N data_ i Hwf Hi) as (Hq & d & Hd & Hb & Hw). unfold BitSet_ClearLastAndFindPrevious.
  rewrite (BitSet_Test_spec N) by done. rewrite Hm. cbn [mbind result_bind]. rewrite !ASSERT_bind; [|by apply Z.eqb_eq, BitSet_Last_spec; try lia | done].
  rewrite Hw. cbn [mbind result_bind]. eexists _, _. split; [reflexivity|]. destruct (word_index i) as [-> _].
  pose proof (mod_word i) as Hmi. pose proof kBitsPerWord_pos.
  assert (0 <= d .^ bit_mask i < 2 ^ kBitsPerWord) as Hx.
  { rewrite bit_mask_spec. split; [apply Z.lxor_nonneg; split; intros; [apply Z.pow_nonneg; lia | lia]|].
    destruct (Z.eq_dec (d .^ 2 ^ (i mod kBitsPerWord)) 0) as [->|Hz]; [apply Z.pow_pos_nonneg; lia|].
    assert (0 <= d .^ 2 ^ (i mod kBitsPerWord)) as Hnn by (apply Z.lxor_nonneg; split; intros; [apply Z.pow_nonneg; lia | lia]).
    apply Z.log2_lt_pow2; [lia|]. destruct (Z.lt_ge_cases (Z.log2 (d .^ 2 ^ (i mod kBitsPerWord))) kBitsPerWord); [done|]. exfalso.
    pose proof (Z.bit_log2 (d .^ 2 ^ (i mod kBitsPerWord)) ltac:(lia)) as Ht.
    rewrite Z.lxor_spec, (testbit_above d kBitsPerWord), Z.pow2_bits_false in Ht by lia. done. }
  assert (bitset_wf N (set_word data_ (i / kBitsPerWord) (d .^ bit_mask i))) as Hwf' by by apply set_word_wf.
  assert (forall j, 0 <= j -> member (set_word data_ (i / kBitsPerWord) (d .^ bit_mask i)) j = if j =? i then false else member data_ j) as Hmem.
  { intros j Hj. rewrite member_set_word by (first [done | eapply lookup_length; done]).
    pose proof (mod_word j) as Hmj. pose proof (split_index j i Hj ltac:(lia)) as Hsp.
    destruct (Z.eqb_spec (j / kBitsPerWord) (i / kBitsPerWord)) as [E|E]; [|by destruct (Z.eqb_spec j i) as [->|]].
    rewrite Z.lxor_spec, testbit_bit_mask by lia.
    assert (member data_ j = Z.testbit d (j mod kBitsPerWord)) as Ej by (unfold member; by rewrite E, Hd). rewrite Ej.
    destruct (Z.eqb_spec j i) as [->|Hn].
    - rewrite Z.eqb_refl. unfold member in Hm. rewrite Hd in Hm. cbn in Hm. by rewrite Hm.
    - rewrite (proj2 (Z.eqb_neq (i mod kBitsPerWord) (j mod kBitsPerWord))); [apply xorb_false_r|]. intros E'. by apply Hn, Hsp. }
  split_and!; [done | | done]. pose proof (index_word i) as Ei.
  destruct (last_word_spec _ N (Z.to_nat (i / kBitsPerWord + 1)) Hwf') as [[Hr Hn]|(Hr & Hmr & Hn)]; rewrite Z2Nat.id in * by lia.
  - left. split; [done|]. intros j Hj. apply Hn. lia.
  - set (r := last_word _ _) in *. right. assert (r < i).
    { destruct (Z.lt_trichotomy r i) as [?|[->|Hgt]]; [done | | by rewrite Hmem, (proj2 (Z.eqb_neq r i)), Hab in Hmr by lia].
      by rewrite Hmem, Z.eqb_refl in Hmr by lia. }
    split; [lia|]. split; [done|]. intros j Hj. apply Hn. lia.
Qed.

Lemma BitSet_Reset_spec N : 0 < N -> bitset_wf N (BitSet_Reset N) /\ forall i, member (BitSet_Reset N) i = false.
Proof.
  intros HN. pose proof kBitsPerWord_pos. unfold BitSet_Reset. split.
  - split; [apply length_replicate|]. apply Forall_replicate. split; [done|]. apply Z.pow_pos_nonneg; lia.
  - intros i. unfold member. destruct (_ !! _) as [d|] eqn:E; [|apply Z.bits_0]. apply lookup_replicate in E as [-> _]. apply Z.bits_0.
Qed.
End BitSet.
