(* ===== verification/FreeList.v ===== *)
(** * The free list of the old generation

    [FreeListElement] and [FreeList] of [src/runtime/vm/heap/freelist.h] and [freelist.cc], with
    what they use of [VirtualMemory] ([src/runtime/vm/virtual_memory.cc],
    [virtual_memory_posix.cc]).

    Free blocks of up to 127 units of [kObjectAlignment] are kept in one list per size, larger
    ones in a last list; a block is linked through its own words.  The state is that of the
    list, the words of memory and the protection of the pages: a store to a word of a page that
    is not writable is a fault.  A null pointer is 0.  The mutex is held during each operation. *)
From S2P Require Import Prelude Utils Constants Words Exec Macros ObjectHeader BitSet.

Record FreeList := {
  top_ : Z;
  end_ : Z;
  unaccounted_size_ : Z;
  free_map_ : list Z;
  free_lists_ : list Z;
  freelist_search_budget_ : Z;
  last_free_small_size_ : Z
}.

Record Space := {
  freelist_ : FreeList;
  words_ : gmap Z Z;
  writable_ : Z -> bool
}.

Inductive Protection := kNoAccess | kReadOnly | kReadWrite | kReadExecute | kReadWriteExecute.

(** The size of a page of the host. *)
Class Pages := { PageSize : Z }.

Abbreviation heap := (M Space).

Section FreeList.
Context `{Target} {pages : Pages}.

Definition lift {A} (r : result A) : heap A := fun s => match r with Ok a => Ok (a, s) | Err e => Err e end.
Definition check (b : bool) : heap unit := lift (ASSERT b).

Definition load (a : Z) : heap Z := fun s =>
  match words_ s !! a with Some v => Ok (v, s) | None => Err (HostFault a) end.
Definition store (a v : Z) : heap unit := fun s =>
  match words_ s !! a with
  | Some _ =>
      if writable_ s (a / PageSize) then
        Ok (tt, {| freelist_ := freelist_ s; words_ := <[a := v]> (words_ s); writable_ := writable_ s |})
      else Err (HostFault a)
  | None => Err (HostFault a)
  end.
Definition get : heap FreeList := fun s => Ok (freelist_ s, s).
Definition put (fl : FreeList) : heap unit := fun s =>
  Ok (tt, {| freelist_ := fl; words_ := words_ s; writable_ := writable_ s |}).

Definition with_map (fl : FreeList) (m : list Z) (last_small : Z) : FreeList :=
  {| top_ := top_ fl; end_ := end_ fl; unaccounted_size_ := unaccounted_size_ fl; free_map_ := m;
     free_lists_ := free_lists_ fl; freelist_search_budget_ := freelist_search_budget_ fl;
     last_free_small_size_ := last_small |}.
Definition with_lists (fl : FreeList) (l : list Z) : FreeList :=
  {| top_ := top_ fl; end_ := end_ fl; unaccounted_size_ := unaccounted_size_ fl; free_map_ := free_map_ fl;
     free_lists_ := l; freelist_search_budget_ := freelist_search_budget_ fl;
     last_free_small_size_ := last_free_small_size_ fl |}.
Definition with_budget (fl : FreeList) (n : Z) : FreeList :=
  {| top_ := top_ fl; end_ := end_ fl; unaccounted_size_ := unaccounted_size_ fl; free_map_ := free_map_ fl;
     free_lists_ := free_lists_ fl; freelist_search_budget_ := n;
     last_free_small_size_ := last_free_small_size_ fl |}.
Definition with_bump (fl : FreeList) (top end' unaccounted : Z) : FreeList :=
  {| top_ := top; end_ := end'; unaccounted_size_ := unaccounted; free_map_ := free_map_ fl;
     free_lists_ := free_lists_ fl; freelist_search_budget_ := freelist_search_budget_ fl;
     last_free_small_size_ := last_free_small_size_ fl |}.

(** ** [VirtualMemory] *)

Definition InSamePage (address0 address1 : Z) : result bool :=
  p0 ← RoundDown address0 PageSize;
  p1 ← RoundDown address1 PageSize;
  Ok (p0 =? p1).

(** [mprotect] works on whole pages. *)
Definition Protect (address size : Z) (mode : Protection) : heap unit := fun s =>
  let end_address := address + size in
  Ok (tt, {| freelist_ := freelist_ s; words_ := words_ s;
             writable_ := fun p =>
               if (address / PageSize <=? p) && (p * PageSize <? end_address)
               then match mode with kReadWrite | kReadWriteExecute => true | _ => false end
               else writable_ s p |}).

(** ** [FreeListElement] *)

Definition kFreeListElement : Z := 2.

Definition next (element : Z) : heap Z := load (element + kWordSize).
Definition next_address (element : Z) : Z := element + kWordSize.
Definition set_next (element n : Z) : heap unit := store (element + kWordSize) n.
Definition SizeAddress (element : Z) : Z := element + kWordSize + kWordSize.

Definition HeapSize (element : Z) : heap Z :=
  tags ← load element;
  let size := SizeTag_decode tags in
  if negb (size =? 0) then mret size else load (SizeAddress element).

(** The header of an element. *)
Definition element_tags (size : Z) : result Z :=
  tags ← SizeTag_update size 0;
  tags ← update ClassIdTag kFreeListElement tags;
  tags ← update OldBit 1 tags;
  tags ← update OldAndNotMarkedBit 1 tags;
  tags ← update OldAndNotRememberedBit 1 tags;
  update NewBit 0 tags.

Definition AsElement (addr size : Z) : heap Z :=
  _ ← check (kObjectAlignment <=? size);
  _ ← check (IsAligned size kObjectAlignment);
  _ ← check (addr .& kNewObjectAlignmentOffset =? kOldObjectAlignmentOffset);
  tags ← lift (element_tags size);
  _ ← store addr tags;
  _ ← (if kMaxSizeTag <? size then store (SizeAddress addr) size else mret tt);
  _ ← set_next addr 0;
  mret addr.

Definition HeaderSizeFor (size : Z) : Z :=
  if size =? 0 then 0 else (if kMaxSizeTag <? size then 3 else 2) * kWordSize.

(** ** [FreeList] *)

Definition kNumLists : Z := 128.
Definition kInitialFreeListSearchBudget : Z := 1000.

Definition IndexForSize (size : Z) : heap Z :=
  _ ← check (kObjectAlignment <=? size);
  _ ← check (IsAligned size kObjectAlignment);
  let index := size >> kObjectAlignmentLog2 in
  mret (if kNumLists <=? index then kNumLists else index).

Definition list_at (index : Z) : heap Z :=
  fl ← get; lift (word_at (free_lists_ fl) index).
Definition set_list (index head : Z) : heap unit :=
  fl ← get; put (with_lists fl (set_word (free_lists_ fl) index head)).

Definition Reset : heap unit :=
  fl ← get;
  put (with_lists (with_map fl (BitSet_Reset kNumLists) (-1)) (replicate (Z.to_nat (kNumLists + 1)) 0)).

Definition EnqueueElement (element index : Z) : heap unit :=
  head ← list_at index;
  _ ← (if (head =? 0) && negb (index =? kNumLists) then
         fl ← get;
         m ← lift (BitSet_Set kNumLists index true (free_map_ fl));
         put (with_map fl m (Z.max (last_free_small_size_ fl) (index << kObjectAlignmentLog2)))
       else mret tt);
  _ ← set_next element head;
  set_list index element.

Definition DequeueElement (index : Z) : heap Z :=
  result ← list_at index;
  nxt ← next result;
  _ ← (if (nxt =? 0) && negb (index =? kNumLists) then
         fl ← get;
         let size := index << kObjectAlignmentLog2 in
         if size =? last_free_small_size_ fl then
           '(prev, m) ← lift (BitSet_ClearLastAndFindPrevious kNumLists index (free_map_ fl));
           put (with_map fl m (prev * kObjectAlignment))
         else
           m ← lift (BitSet_Set kNumLists index false (free_map_ fl));
           put (with_map fl m (last_free_small_size_ fl))
       else mret tt);
  _ ← set_list index nxt;
  mret result.

Definition SplitElementAfterAndEnqueue (element size : Z) (is_protected : bool) : heap unit :=
  element_size ← HeapSize element;
  let remainder_size := element_size - size in
  if remainder_size =? 0 then mret tt
  else
    let remainder_address := uintx (element + size) in
    element ← AsElement remainder_address remainder_size;
    remainder_index ← IndexForSize remainder_size;
    _ ← EnqueueElement element remainder_index;
    if is_protected then
      let remainder_header_size := HeaderSizeFor remainder_size in
      same ← lift (InSamePage (remainder_address - 1) (remainder_address + remainder_header_size - 1));
      if negb same then
        start ← lift (RoundUp remainder_address PageSize);
        Protect start (remainder_address + remainder_header_size - start) kReadExecute
      else mret tt
    else mret tt.

(** The part of the search that takes an element of the last list. *)
Definition unlink_large (previous current size : Z) (is_protected : bool) : heap unit :=
  current_size ← HeapSize current;
  let remainder_size := current_size - size in
  let region_size := size + HeaderSizeFor remainder_size in
  _ ← (if is_protected then Protect current region_size kReadWrite else mret tt);
  nxt ← next current;
  if previous =? 0 then set_list kNumLists nxt
  else
    let target_address := next_address previous in
    target_is_protected ←
      (if is_protected then
         let writable_start := current in
         let writable_end := writable_start + region_size - 1 in
         b1 ← lift (InSamePage target_address writable_start);
         b2 ← lift (InSamePage target_address writable_end);
         mret (negb b1 && negb b2)
       else mret false);
    _ ← (if target_is_protected : bool then Protect target_address kWordSize kReadWrite else mret tt);
    _ ← set_next previous nxt;
    if target_is_protected : bool then Protect target_address kWordSize kReadExecute else mret tt.

(** The search of the last list.  It ends when [tries_left] is negative, which bounds it. *)
Fixpoint search_large (fuel : nat) (size : Z) (is_protected : bool) (previous current tries_left : Z) : heap Z :=
  match fuel with
  | O => fail LoopFuelExhausted
  | S fuel =>
      if current =? 0 then mret 0
      else
        current_size ← HeapSize current;
        if size <=? current_size then
          _ ← unlink_large previous current size is_protected;
          _ ← SplitElementAfterAndEnqueue current size is_protected;
          fl ← get;
          _ ← put (with_budget fl (Z.min tries_left kInitialFreeListSearchBudget));
          mret current
        else if tries_left <? 0 then
          fl ← get;
          _ ← put (with_budget fl kInitialFreeListSearchBudget);
          mret 0
        else
          nxt ← next current;
          search_large fuel size is_protected current nxt (tries_left - 1)
  end.

Definition TryAllocateLocked (size : Z) (is_protected : bool) : heap Z :=
  index ← IndexForSize size;
  fl ← get;
  present ← (if negb (index =? kNumLists) then lift (BitSet_Test kNumLists index (free_map_ fl)) else mret false);
  if present : bool then
    element ← DequeueElement index;
    _ ← (if is_protected then Protect element size kReadWrite else mret tt);
    mret element
  else
    next_index ← (if index + 1 <? kNumLists then lift (BitSet_Next kNumLists (index + 1) (free_map_ fl)) else mret (-1));
    if negb (next_index =? -1) then
      element ← DequeueElement next_index;
      _ ← (if is_protected then
             element_size ← HeapSize element;
             let remainder_size := element_size - size in
             let region_size := size + HeaderSizeFor remainder_size in
             Protect element region_size kReadWrite
           else mret tt);
      _ ← SplitElementAfterAndEnqueue element size is_protected;
      mret element
    else
      current ← list_at kNumLists;
      let tries_left := freelist_search_budget_ fl + (size >> kWordSizeLog2) in
      search_large (S (S (S (Z.to_nat tries_left)))) size is_protected 0 current tries_left.

Definition FreeLocked (addr size : Z) : heap unit :=
  index ← IndexForSize size;
  element ← AsElement addr size;
  EnqueueElement element index.

(** The search of [TryAllocateLargeLocked]. *)
Fixpoint take_large (fuel : nat) (minimum_size previous current tries_left : Z) : heap Z :=
  match fuel with
  | O => fail LoopFuelExhausted
  | S fuel =>
      if current =? 0 then mret 0
      else
        nxt ← next current;
        current_size ← HeapSize current;
        if minimum_size <=? current_size then
          _ ← (if previous =? 0 then set_list kNumLists nxt else set_next previous nxt);
          fl ← get;
          _ ← put (with_budget fl (Z.min tries_left kInitialFreeListSearchBudget));
          mret current
        else if tries_left <? 0 then
          fl ← get;
          _ ← put (with_budget fl kInitialFreeListSearchBudget);
          mret 0
        else take_large fuel minimum_size current nxt (tries_left - 1)
  end.

Definition TryAllocateLargeLocked (minimum_size : Z) : heap Z :=
  current ← list_at kNumLists;
  fl ← get;
  let tries_left := freelist_search_budget_ fl + (minimum_size >> kWordSizeLog2) in
  take_large (S (S (S (Z.to_nat tries_left)))) minimum_size 0 current tries_left.

Definition TryAllocateSmallLocked (size : Z) : heap Z :=
  fl ← get;
  if last_free_small_size_ fl <? size then mret 0
  else
    index ← IndexForSize size;
    present ← (if negb (index =? kNumLists) then lift (BitSet_Test kNumLists index (free_map_ fl)) else mret false);
    if present : bool then DequeueElement index
    else
      next_index ← (if index + 1 <? kNumLists then lift (BitSet_Next kNumLists (index + 1) (free_map_ fl)) else mret (-1));
      if negb (next_index =? -1) then
        element ← DequeueElement next_index;
        _ ← SplitElementAfterAndEnqueue element size false;
        mret element
      else mret 0.

Definition TryAllocateBumpLocked (size : Z) : heap Z :=
  fl ← get;
  let result := top_ fl in
  let new_top := uintx (result + size) in
  if new_top <=? end_ fl then
    _ ← put (with_bump fl new_top (end_ fl) (unaccounted_size_ fl + size));
    mret result
  else mret 0.

Definition TakeUnaccountedSizeLocked : heap Z :=
  fl ← get;
  _ ← put (with_bump fl (top_ fl) (end_ fl) 0);
  mret (unaccounted_size_ fl).

Definition MakeIterable : heap unit :=
  fl ← get;
  if top_ fl <? end_ fl then _ ← AsElement (top_ fl) (end_ fl - top_ fl); mret tt else mret tt.

Definition AbandonBumpAllocation : heap unit :=
  fl ← get;
  if top_ fl <? end_ fl then
    _ ← FreeLocked (top_ fl) (end_ fl - top_ fl);
    fl ← get;
    put (with_bump fl 0 0 (unaccounted_size_ fl))
  else mret tt.

Definition AddUnaccountedSize (size : Z) : heap unit :=
  fl ← get; put (with_bump fl (top_ fl) (end_ fl) (unaccounted_size_ fl + size)).

(** ** [PageSpace] *)

Definition kAllocatablePageSize : Z := 64 * 1024.
Definition IsAllocatableViaFreeLists (size : Z) : bool := size <? kAllocatablePageSize.

(** The end of [PageSpace::TryAllocateDataBumpLocked]: allocate from the bump region, which has
    [remaining] bytes. *)
Definition allocate_in_region (size remaining : Z) : heap Z :=
  _ ← check (size <=? remaining);
  fl ← get;
  let result := top_ fl in
  _ ← put (with_bump fl (uintx (result + size)) (end_ fl) (unaccounted_size_ fl));
  _ ← AddUnaccountedSize size;
  fl ← get;
  _ ← (if DEBUG && (top_ fl <? end_ fl) then store (top_ fl) 0 else mret tt);
  mret result.

(** Allocate from the bump region, after replacing it by a large block when it is too small.
    [data_locked] and [fresh_page] are [TryAllocateDataLocked] and [TryAllocateInFreshPage], which
    may map new pages. *)
Definition TryAllocateDataBumpLocked (data_locked fresh_page : Z -> heap Z) (size : Z) : heap Z :=
  _ ← check (kObjectAlignment <=? size);
  _ ← check (IsAligned size kObjectAlignment);
  fl ← get;
  let remaining := end_ fl - top_ fl in
  if remaining <? size then
    if negb (IsAllocatableViaFreeLists size) then data_locked size
    else
      block ← TryAllocateLargeLocked size;
      if block =? 0 then fresh_page size
      else
        block_size ← HeapSize block;
        _ ← (if 0 <? remaining then fl ← get; FreeLocked (top_ fl) remaining else mret tt);
        fl ← get;
        _ ← put (with_bump fl block (uintx (block + block_size)) (unaccounted_size_ fl));
        allocate_in_region size block_size
  else allocate_in_region size remaining.

Definition TryAllocatePromoLockedSlow (data_locked fresh_page : Z -> heap Z) (size : Z) : heap Z :=
  result ← TryAllocateSmallLocked size;
  if negb (result =? 0) then _ ← AddUnaccountedSize size; mret result
  else TryAllocateDataBumpLocked data_locked fresh_page size.

Definition TryAllocatePromoLocked (data_locked fresh_page : Z -> heap Z) (size : Z) : heap Z :=
  result ← TryAllocateBumpLocked size;
  if negb (result =? 0) then mret result
  else TryAllocatePromoLockedSlow data_locked fresh_page size.
End FreeList.
