(* ===== verification/FreeListInvariant.v ===== *)
(** * The invariant of the free list

    Which blocks are in which list, that they are disjoint and do not overlap the bump region,
    and that the map of the lists and the largest small size describe them.  Free space is
    described by [cover]: the number of free blocks an address lies in. *)
From S2P Require Import Prelude Utils Constants Words Exec Macros ObjectHeader BitSet FreeList.

(** A block of memory: address and size. *)
Abbreviation block := (Z * Z)%type.

Definition within (b : block) (x : Z) : bool := (fst b <=? x) && (x <? fst b + snd b).
Fixpoint cover (l : list block) (x : Z) : Z :=
  match l with
  | [] => 0
  | b :: l => Z.b2z (within b x) + cover l x
  end.
Definition separate (l : list block) : Prop := forall x, cover l x <= 1.

Lemma cover_app l l' x : cover (l ++ l') x = cover l x + cover l' x.
Proof. induction l as [|b l IH]; cbn; [done | rewrite IH; lia]. Qed.
Lemma cover_nonneg l x : 0 <= cover l x.
Proof. induction l as [|b l IH]; cbn; [done|]. destruct (within b x); cbn; lia. Qed.
Lemma cover_perm l l' x : l ≡ₚ l' -> cover l x = cover l' x.
Proof. induction 1; cbn; lia. Qed.
#[export] Instance separate_perm : Proper ((≡ₚ) ==> iff) separate.
Proof. intros l l' Hp. unfold separate. by setoid_rewrite (cover_perm l l' _ Hp). Qed.
Lemma cover_in l b x : b ∈ l -> within b x = true -> 1 <= cover l x.
Proof.
  induction l as [|b' l IH]; [by intros ?%elem_of_nil|]. cbn. pose proof (cover_nonneg l x).
  intros [-> |Hb]%elem_of_cons Hw; [rewrite Hw; cbn; lia|]. specialize (IH Hb Hw). destruct (within b' x); cbn; lia.
Qed.
Lemma cover_zero l x : (forall b, b ∈ l -> within b x = false) -> cover l x = 0.
Proof.
  induction l as [|b l IH]; intros Hb; cbn; [done|]. rewrite (Hb b) by left. rewrite IH; [done|]. intros b' Hb'. apply Hb. by right.
Qed.
Lemma separate_cons b l b' x : separate (b :: l) -> b' ∈ l -> within b x = true -> within b' x = false.
Proof.
  intros Hs Hb Hw. destruct (within b' x) eqn:E; [|done]. specialize (Hs x). cbn in Hs. rewrite Hw in Hs. cbn in Hs.
  pose proof (cover_in l b' x Hb E). lia.
Qed.
Lemma separate_tail b l : separate (b :: l) -> separate l.
Proof. intros Hs x. specialize (Hs x). cbn in Hs. destruct (within b x); cbn in Hs; lia. Qed.

(** A block in two parts. *)
Lemma within_split a sz n x : 0 <= n <= sz -> Z.b2z (within (a, sz) x) = Z.b2z (within (a, n) x) + Z.b2z (within (a + n, sz - n) x).
Proof.
  intros Hn. unfold within. cbn [fst snd].
  destruct (Z.leb_spec a x), (Z.ltb_spec x (a + sz)), (Z.ltb_spec x (a + n)), (Z.leb_spec (a + n) x), (Z.ltb_spec x (a + n + (sz - n)));
    cbn; lia.
Qed.

(** Memory changes only where [P] says so, and stays mapped. *)
Record changes (P : Z -> Prop) (w w' : gmap Z Z) : Prop := {
  changes_other : forall x, ~ P x -> w' !! x = w !! x;
  changes_mapped : forall x, is_Some (w !! x) -> is_Some (w' !! x)
}.

Lemma changes_refl P w : changes P w w.
Proof. by split. Qed.
Lemma changes_trans P w1 w2 w3 : changes P w1 w2 -> changes P w2 w3 -> changes P w1 w3.
Proof.
  intros [A1 A2] [B1 B2]. split; [intros x Hx; by rewrite B1, A1 | auto].
Qed.
Lemma changes_mono (P Q : Z -> Prop) w w' : (forall x, P x -> Q x) -> changes P w w' -> changes Q w w'.
Proof. intros HPQ [A1 A2]. split; [intros x Hx; apply A1; auto | done]. Qed.

(** The list with number [i], and a change of it. *)
Definition list_of {A} (L : list (list A)) (i : Z) : list A := default [] (L !! Z.to_nat i).

Lemma list_of_insert {A} (L : list (list A)) i j (l : list A) : 0 <= i < Z.of_nat (length L) -> 0 <= j ->
  list_of (<[Z.to_nat i := l]> L) j = if decide (j = i) then l else list_of L j.
Proof.
  intros Hi Hj. unfold list_of. case_decide as E; [subst; by rewrite list_lookup_insert_eq by lia|].
  by rewrite list_lookup_insert_ne by lia.
Qed.

Lemma list_of_concat {A} (L : list (list A)) i b : b ∈ list_of L i -> b ∈ concat L.
Proof.
  unfold list_of. destruct (L !! Z.to_nat i) as [l|] eqn:E; [|by intros ?%elem_of_nil]. cbn. intros Hb.
  apply list_elem_of_In, in_concat. exists l. split; apply list_elem_of_In; [by eapply list_elem_of_lookup_2 | done].
Qed.

Lemma concat_list_of {A} (L : list (list A)) b : b ∈ concat L -> exists i, 0 <= i < Z.of_nat (length L) /\ b ∈ list_of L i.
Proof.
  intros Hb. apply list_elem_of_In, in_concat in Hb as (l & Hl & Hb). apply list_elem_of_In in Hl, Hb.
  apply list_elem_of_lookup in Hl as [n Hn]. exists (Z.of_nat n). pose proof (lookup_lt_Some _ _ _ Hn). split; [lia|].
  unfold list_of. by rewrite Nat2Z.id, Hn.
Qed.

Lemma concat_insert {A} (L : list (list A)) i : 0 <= i < Z.of_nat (length L) ->
  exists rest, concat L ≡ₚ list_of L i ++ rest /\ (forall l, concat (<[Z.to_nat i := l]> L) ≡ₚ l ++ rest) /\
    forall j b, 0 <= j -> j <> i -> b ∈ list_of L j -> b ∈ rest.
Proof.
  intros Hi. destruct (lookup_lt_is_Some_2 L (Z.to_nat i)) as [l0 E]; [lia|].
  exists (concat (take (Z.to_nat i) L) ++ concat (drop (S (Z.to_nat i)) L)).
  assert (forall l, concat (<[Z.to_nat i := l]> L) = concat (take (Z.to_nat i) L) ++ l ++ concat (drop (S (Z.to_nat i)) L)) as Hc.
  { intros l. rewrite insert_take_drop by lia. rewrite concat_app. done. }
  split_and!.
  - unfold list_of. rewrite E. cbn. rewrite <- (list_insert_id L _ _ E) at 1. rewrite Hc, !app_assoc. f_equiv. by rewrite Permutation_app_comm.
  - intros l. rewrite Hc, !app_assoc. f_equiv. by rewrite Permutation_app_comm.
  - intros j b Hj Hne Hb. unfold list_of in Hb. destruct (L !! Z.to_nat j) as [l|] eqn:El; [|by apply elem_of_nil in Hb]. cbn in Hb.
    apply elem_of_app. destruct (decide (Z.to_nat j < Z.to_nat i)%nat) as [Hlt|Hge].
    + left. apply list_elem_of_In, in_concat. exists l. split; apply list_elem_of_In; [|done].
      apply (list_elem_of_lookup_2 _ (Z.to_nat j)). by rewrite lookup_take_lt.
    + right. apply list_elem_of_In, in_concat. exists l. split; apply list_elem_of_In; [|done].
      apply (list_elem_of_lookup_2 _ (Z.to_nat j - S (Z.to_nat i))). rewrite lookup_drop. rewrite <- El. f_equal. lia.
Qed.

Section Invariant.
Context `{Target} {pages : Pages}.

(** ** Blocks *)

Record block_ok (b : block) : Prop := {
  block_pos : 0 < fst b;
  block_aligned : fst b mod kObjectAlignment = 0;
  block_size : kObjectAlignment <= snd b < 2 ^ (XLEN - 1);
  block_units : snd b mod kObjectAlignment = 0;
  block_end : fst b + snd b <= 2 ^ XLEN - 1
}.

Definition index_of (size : Z) : Z := Z.min (size / kObjectAlignment) kNumLists.
Definition mapped (w : gmap Z Z) (b : block) : Prop :=
  forall x, within b x = true -> x mod kWordSize = 0 -> is_Some (w !! x).

(** A block with the header of an element that is linked to [n]. *)
Definition element (w : gmap Z Z) (b : block) (n : Z) : Prop :=
  (exists tags, w !! fst b = Some tags /\
    if kMaxSizeTag <? snd b then SizeTag_decode tags = 0 /\ w !! SizeAddress (fst b) = Some (snd b)
    else SizeTag_decode tags = snd b) /\
  w !! next_address (fst b) = Some n.

Fixpoint chain (w : gmap Z Z) (h : Z) (l : list block) : Prop :=
  match l with
  | [] => h = 0
  | b :: l => h = fst b /\ exists n, element w b n /\ chain w n l
  end.

Definition bump (fl : FreeList) : list block :=
  if top_ fl <? end_ fl then [(top_ fl, end_ fl - top_ fl)] else [].
Definition regions (fl : FreeList) (L : list (list block)) : list block := bump fl ++ concat L.

Record Inv (s : Space) (L : list (list block)) : Prop := {
  inv_length : Z.of_nat (length L) = kNumLists + 1 /\ length (free_lists_ (freelist_ s)) = length L;
  inv_chain : forall i, 0 <= i <= kNumLists ->
    exists h, free_lists_ (freelist_ s) !! Z.to_nat i = Some h /\ chain (words_ s) h (list_of L i);
  inv_block : forall i b, 0 <= i <= kNumLists -> b ∈ list_of L i -> index_of (snd b) = i;
  inv_ok : forall b, b ∈ regions (freelist_ s) L -> block_ok b /\ mapped (words_ s) b;
  inv_sep : separate (regions (freelist_ s) L);
  inv_map : bitset_wf kNumLists (free_map_ (freelist_ s)) /\
    forall i, 0 <= i < kNumLists -> member (free_map_ (freelist_ s)) i = true <-> list_of L i <> [];
  inv_last : forall i, 0 <= i < kNumLists -> list_of L i <> [] -> i * kObjectAlignment <= last_free_small_size_ (freelist_ s);
  inv_last_member : 0 <= last_free_small_size_ (freelist_ s) ->
    exists i, 0 <= i < kNumLists /\ last_free_small_size_ (freelist_ s) = i * kObjectAlignment /\ list_of L i <> []
}.

(** ** Facts about sizes *)

Lemma heap_words : kObjectAlignment = 2 * kWordSize /\ 4 <= kWordSize /\ kMaxSizeTag = 255 * kObjectAlignment /\
  kWordSize = 2 ^ kWordSizeLog2 /\ 0 <= kWordSizeLog2.
Proof. unfold kMaxSizeTag, kObjectAlignment, kWordSize, kWordSizeLog2, XLEN. by destruct TARGET_64. Qed.

Lemma units_IsAligned sz : sz mod kObjectAlignment = 0 -> IsAligned sz kObjectAlignment = true.
Proof.
  intros Hm. unfold IsAligned. rewrite kObjectAlignment_pow in *.
  assert (0 <= kObjectAlignmentLog2) by (unfold kObjectAlignmentLog2, kWordSizeLog2; by destruct TARGET_64).
  replace (2 ^ kObjectAlignmentLog2 - 1) with (Z.ones kObjectAlignmentLog2) by (rewrite Z.ones_equiv; lia).
  by rewrite Z.land_ones, Hm.
Qed.

Lemma shift_units sz : sz >> kObjectAlignmentLog2 = sz / kObjectAlignment /\ sz << kObjectAlignmentLog2 = sz * kObjectAlignment.
Proof.
  rewrite kObjectAlignment_pow. assert (0 <= kObjectAlignmentLog2) by (unfold kObjectAlignmentLog2, kWordSizeLog2; by destruct TARGET_64).
  by rewrite Z.shiftr_div_pow2, Z.shiftl_mul_pow2.
Qed.

Lemma units_exact sz : sz mod kObjectAlignment = 0 -> sz = sz / kObjectAlignment * kObjectAlignment.
Proof. intros Hm. destruct heap_words as (E & ? & _). pose proof (Z.div_mod sz kObjectAlignment). lia. Qed.

Lemma index_bounds sz : kObjectAlignment <= sz -> 1 <= index_of sz <= kNumLists.
Proof.
  intros Hs. destruct heap_words as (E & ? & _). unfold index_of, kNumLists.
  pose proof (Z.div_le_lower_bound sz kObjectAlignment 1). lia.
Qed.

(** A small index determines the size. *)
Lemma index_small sz : sz mod kObjectAlignment = 0 -> index_of sz < kNumLists -> sz = index_of sz * kObjectAlignment.
Proof. intros Hm Hi. rewrite (units_exact sz Hm) at 1. unfold index_of in *. lia. Qed.

Lemma within_range b x : within b x = true <-> fst b <= x < fst b + snd b.
Proof. unfold within. rewrite andb_true_iff, Z.leb_le, Z.ltb_lt. done. Qed.

Lemma header_within b : block_ok b -> within b (fst b) = true /\ within b (next_address (fst b)) = true /\
  (kMaxSizeTag < snd b -> within b (SizeAddress (fst b)) = true).
Proof.
  intros [? _ ? _ _]. destruct heap_words as (E & ? & Em & _). rewrite !within_range. unfold next_address, SizeAddress. lia.
Qed.

Lemma block_words a k : a mod kObjectAlignment = 0 -> (a + k * kWordSize) mod kWordSize = 0.
Proof.
  intros Ha. destruct heap_words as (E & ? & _). rewrite Z.mod_add by lia. rewrite (units_exact a Ha), E.
  by rewrite Z.mul_assoc, Z.mod_mul by lia.
Qed.

(** ** Elements *)

Lemma element_agree w w' b n : block_ok b -> (forall x, within b x = true -> w' !! x = w !! x) -> element w b n -> element w' b n.
Proof.
  intros Hb Ha [(tags & Ht & Hs) Hn]. destruct (header_within b Hb) as (W1 & W2 & W3). split; [exists tags|].
  - rewrite Ha by done. split; [done|]. destruct (Z.ltb_spec kMaxSizeTag (snd b)); [|done]. by rewrite Ha by auto.
  - by rewrite Ha.
Qed.

Lemma chain_agree w w' l h : (forall b, b ∈ l -> block_ok b) -> (forall b x, b ∈ l -> within b x = true -> w' !! x = w !! x) ->
  chain w h l -> chain w' h l.
Proof.
  revert h. induction l as [|b l IH]; intros h Hok Ha; [done|]. intros (-> & n & He & Hc). split; [done|]. exists n. split.
  - eapply element_agree; [apply Hok; left | | done]. intros x Hx. apply (Ha b); [left | done].
  - apply IH; [intros b' Hb'; apply Hok; by right | intros b' x Hb'; apply Ha; by right | done].
Qed.

Lemma HeapSize_spec s b n : element (words_ s) b n -> block_ok b -> HeapSize (fst b) s = Ok (snd b, s).
Proof.
  intros [(tags & Ht & Hs) _] [_ _ Hsz _ _]. unfold HeapSize, load, mbind, M_bind. rewrite Ht. destruct heap_words as (E & ? & _).
  destruct (Z.ltb_spec kMaxSizeTag (snd b)).
  - destruct Hs as [-> Hs]. cbn. by rewrite Hs.
  - rewrite Hs. rewrite (proj2 (Z.eqb_neq _ _)) by lia. done.
Qed.

Lemma next_spec s b n : element (words_ s) b n -> next (fst b) s = Ok (n, s).
Proof. intros [_ Hn]. unfold next, load. unfold next_address in Hn. by rewrite Hn. Qed.

(** ** The header of an element *)

Lemma update_ok f v o : field_wf f -> 0 <= v < 2 ^ size f -> exists o', update f v o = Ok o'.
Proof. intros Hf Hv. unfold update. rewrite encode_valid by done. by eexists. Qed.

Lemma keeps_size f v o : field_wf f -> disjoint_fields f SizeBits -> 0 <= v < 2 ^ size f -> 0 <= o < 2 ^ XLEN ->
  exists o', update f v o = Ok o' /\ 0 <= o' < 2 ^ XLEN /\ decode SizeBits o' = decode SizeBits o.
Proof.
  intros Hf Hd Hv Ho. destruct (update_ok f v o Hf Hv) as [o' Hu]. exists o'. split; [done|].
  pose proof (update_word f v o o' Hf Hv Ho Hu) as Hw. split; [done|]. by apply (update_other f SizeBits v o o'); try apply SizeBits_wf.
Qed.

Lemma class_tag_wf : field_wf ClassIdTag.
Proof. unfold field_wf. destruct XLEN_cases as [-> | ->]; by vm_compute. Qed.

Lemma element_tags_spec sz : kObjectAlignment <= sz -> sz mod kObjectAlignment = 0 ->
  exists tags, element_tags sz = Ok tags /\ SizeTag_decode tags = if kMaxSizeTag <? sz then 0 else sz.
Proof.
  intros Hs Hm. destruct heap_words as (E & HW & Em & _). unfold element_tags, SizeTag_update. rewrite size_tag_value by lia. cbn [mbind result_bind].
  set (v := if sz <=? kMaxSizeTag then sz / kObjectAlignment else 0).
  assert (0 <= v < 2 ^ size SizeBits) as Hv.
  { unfold v. change (2 ^ size SizeBits) with 256. destruct (Z.leb_spec sz kMaxSizeTag); [|lia].
    split; [apply Z.div_pos; lia | apply Z.div_lt_upper_bound; lia]. }
  pose proof XLEN_ge. assert (0 < 2 ^ XLEN) by (apply Z.pow_pos_nonneg; lia).
  destruct (update_ok SizeBits v 0 SizeBits_wf Hv) as [o1 E1]. rewrite E1. cbn [mbind result_bind].
  pose proof (update_word SizeBits v 0 o1 SizeBits_wf Hv ltac:(lia) E1) as B1. pose proof (update_same SizeBits v 0 o1 SizeBits_wf Hv B1 E1) as D1.
  destruct (keeps_size ClassIdTag kFreeListElement o1 class_tag_wf) as (o2 & E2 & B2 & D2); [by right | by vm_compute | done|].
  rewrite E2. cbn [mbind result_bind].
  destruct (keeps_size OldBit 1 o2 (flag_wf kOldBit ltac:(by vm_compute))) as (o3 & E3 & B3 & D3); [by left | by vm_compute | done|].
  rewrite E3. cbn [mbind result_bind].
  destruct (keeps_size OldAndNotMarkedBit 1 o3 (flag_wf kOldAndNotMarkedBit ltac:(by vm_compute))) as (o4 & E4 & B4 & D4); [by left | by vm_compute | done|].
  rewrite E4. cbn [mbind result_bind].
  destruct (keeps_size OldAndNotRememberedBit 1 o4 (flag_wf kOldAndNotRememberedBit ltac:(by vm_compute))) as (o5 & E5 & B5 & D5); [by left | by vm_compute | done|].
  rewrite E5. cbn [mbind result_bind].
  destruct (keeps_size NewBit 0 o5 (flag_wf kNewBit ltac:(by vm_compute))) as (o6 & E6 & B6 & D6); [by left | by vm_compute | done|].
  rewrite E6. exists o6. split; [done|]. unfold SizeTag_decode, TagValueToSize. rewrite D6, D5, D4, D3, D2, D1.
  destruct (shift_units v) as [_ ->]. unfold v. destruct (Z.leb_spec sz kMaxSizeTag), (Z.ltb_spec kMaxSizeTag sz); try lia.
  symmetry. by apply units_exact.
Qed.
End Invariant.
