(* ===== verification/FreeListSteps.v ===== *)
(** * The steps of the free list

    Elements are made, enqueued and dequeued, and each step keeps the invariant. *)
From S2P Require Import Prelude Utils Constants Words Exec Macros ObjectHeader BitSet FreeList FreeListInvariant.

Section Steps.
Context `{Target} {pages : Pages}.

Definition with_words (s : Space) (w : gmap Z Z) : Space :=
  {| freelist_ := freelist_ s; words_ := w; writable_ := writable_ s |}.
Definition with_freelist (s : Space) (fl : FreeList) : Space :=
  {| freelist_ := fl; words_ := words_ s; writable_ := writable_ s |}.
Definition with_pages (s : Space) (p : Z -> bool) : Space :=
  {| freelist_ := freelist_ s; words_ := words_ s; writable_ := p |}.

(** The words from [a] on, [n] bytes, can be written. *)
Definition can_write (s : Space) (a n : Z) : Prop := forall x, a <= x < a + n -> writable_ s (x / PageSize) = true.

(** What the lists do not touch. *)
Definition same_rest (fl fl' : FreeList) : Prop :=
  top_ fl' = top_ fl /\ end_ fl' = end_ fl /\ unaccounted_size_ fl' = unaccounted_size_ fl /\
  freelist_search_budget_ fl' = freelist_search_budget_ fl.

Lemma bump_same fl fl' : same_rest fl fl' -> bump fl' = bump fl.
Proof. intros (E1 & E2 & _). unfold bump. by rewrite E1, E2. Qed.

Lemma heap_bind {A B} (m : heap A) (f : A -> heap B) s a s' : m s = Ok (a, s') -> (m ≫= f) s = f a s'.
Proof. intros E. unfold mbind, M_bind. by rewrite E. Qed.
Lemma check_ok b s : b = true -> check b s = Ok (tt, s).
Proof. intros ->. unfold check, lift, ASSERT. by destruct DEBUG. Qed.
Lemma lift_ok {A} (r : result A) a s : r = Ok a -> lift r s = Ok (a, s).
Proof. by intros ->. Qed.

Lemma store_spec s a v : is_Some (words_ s !! a) -> writable_ s (a / PageSize) = true ->
  store a v s = Ok (tt, with_words s (<[a := v]> (words_ s))).
Proof. intros [v0 Hv] Hw. unfold store. by rewrite Hv, Hw. Qed.

Lemma changes_insert (P : Z -> Prop) w a v : P a -> changes P w (<[a := v]> w).
Proof.
  intros Ha. split.
  - intros x Hx. rewrite lookup_insert_ne; [done | by intros ->].
  - intros x Hx. destruct (decide (x = a)) as [->|Hn]; [rewrite lookup_insert_eq; by eexists | by rewrite lookup_insert_ne].
Qed.

(** ** Making an element *)

Lemma header_mapped w b : block_ok b -> mapped w b -> is_Some (w !! fst b) /\ is_Some (w !! next_address (fst b)) /\
  (kMaxSizeTag < snd b -> is_Some (w !! SizeAddress (fst b))).
Proof.
  intros Hok Hm. destruct (header_within b Hok) as (W1 & W2 & W3). pose proof (block_aligned b Hok) as Ha. split_and!.
  - apply Hm; [done|]. pose proof (block_words _ 0 Ha) as E. by rewrite Z.add_0_r in E.
  - apply Hm; [done|]. pose proof (block_words _ 1 Ha) as E. by rewrite Z.mul_1_l in E.
  - intros Hb. apply Hm; [auto|]. pose proof (block_words _ 2 Ha) as E. unfold SizeAddress. by replace (fst b + kWordSize + kWordSize) with (fst b + 2 * kWordSize) by lia.
Qed.

Lemma old_aligned a : a mod kObjectAlignment = 0 -> (a .& kNewObjectAlignmentOffset =? kOldObjectAlignmentOffset) = true.
Proof.
  intros Ha. apply Z.eqb_eq. destruct heap_words as (E & _ & _ & Ep & Hl). unfold kNewObjectAlignmentOffset, kOldObjectAlignmentOffset. rewrite Ep.
  assert (kObjectAlignment = 2 ^ (kWordSizeLog2 + 1)) as Ek by (rewrite E, Ep, Z.pow_add_r by lia; lia).
  apply Z.bits_inj'. intros i Hi. rewrite Z.land_spec, Z.bits_0, Z.pow2_bits_eqb by lia.
  destruct (Z.eqb_spec kWordSizeLog2 i) as [<-|]; [|apply andb_false_r]. rewrite andb_true_r.
  rewrite <- (Z.mod_pow2_bits_low a (kWordSizeLog2 + 1)) by lia. by rewrite <- Ek, Ha, Z.bits_0.
Qed.

(** The header's bytes. *)
Lemma header_size sz : 0 < sz -> HeaderSizeFor sz = (if kMaxSizeTag <? sz then 3 else 2) * kWordSize.
Proof. intros Hs. unfold HeaderSizeFor. by rewrite (proj2 (Z.eqb_neq _ _)) by lia. Qed.

Lemma AsElement_spec s b : block_ok b -> mapped (words_ s) b -> can_write s (fst b) (HeaderSizeFor (snd b)) ->
  exists w', AsElement (fst b) (snd b) s = Ok (fst b, with_words s w') /\ element w' b 0 /\
    changes (fun x => fst b <= x < fst b + HeaderSizeFor (snd b)) (words_ s) w'.
Proof.
  intros Hok Hm Hw. pose proof Hok as [Hp Ha Hs Hu He]. destruct heap_words as (E & HW & Em & _).
  destruct (header_mapped _ b Hok Hm) as (M1 & M2 & M3). destruct (element_tags_spec (snd b) (proj1 Hs) Hu) as (tags & Et & Ed).
  pose proof (header_size (snd b) ltac:(lia)) as Eh.
  assert (forall k, 0 <= k < HeaderSizeFor (snd b) -> writable_ s ((fst b + k) / PageSize) = true) as Hwr by (intros k Hk; apply Hw; lia).
  set (P := fun x => fst b <= x < fst b + HeaderSizeFor (snd b)).
  assert (2 * kWordSize <= HeaderSizeFor (snd b)) as H2 by (rewrite Eh; destruct (_ <? _); lia).
  unfold AsElement. rewrite (heap_bind _ _ _ _ _ (check_ok _ _ ltac:(by apply Z.leb_le, Hs))).
  rewrite (heap_bind _ _ _ _ _ (check_ok _ _ (units_IsAligned _ Hu))). rewrite (heap_bind _ _ _ _ _ (check_ok _ _ (old_aligned _ Ha))).
  rewrite (heap_bind _ _ _ _ _ (lift_ok _ _ _ Et)).
  rewrite (heap_bind _ _ _ _ _ (store_spec s (fst b) tags M1 ltac:(rewrite <- (Z.add_0_r (fst b)); apply Hwr; lia))).
  set (w1 := <[fst b := tags]> (words_ s)). assert (changes P (words_ s) w1) as C1 by (apply changes_insert; unfold P; lia).
  assert (exists w2, (if kMaxSizeTag <? snd b then store (SizeAddress (fst b)) (snd b) else mret tt) (with_words s w1) = Ok (tt, with_words s w2) /\
    w2 = if kMaxSizeTag <? snd b then <[SizeAddress (fst b) := snd b]> w1 else w1) as (w2 & E2 & Ew2).
  { destruct (Z.ltb_spec kMaxSizeTag (snd b)) as [Hl|Hl]; [|by exists w1]. eexists. split; [|reflexivity]. rewrite store_spec; [done | |].
    - apply (changes_mapped _ _ _ C1). by apply M3.
    - unfold SizeAddress. rewrite <- Z.add_assoc. apply Hwr. rewrite Eh. lia. }
  rewrite (heap_bind _ _ _ _ _ E2).
  assert (changes P (words_ s) w2) as C2.
  { rewrite Ew2. destruct (Z.ltb_spec kMaxSizeTag (snd b)) as [Hl|Hl]; [|done]. eapply changes_trans; [exact C1|].
    apply changes_insert. unfold P, SizeAddress. rewrite Eh. lia. }
  unfold set_next. fold (next_address (fst b)).
  rewrite (heap_bind _ _ _ _ _ (store_spec (with_words s w2) (next_address (fst b)) 0 (changes_mapped _ _ _ C2 _ M2) ltac:(unfold next_address; apply Hwr; lia))).
  eexists. split; [reflexivity|]. cbn [words_ with_words]. split.
  - split; [exists tags|by rewrite lookup_insert_eq]. rewrite lookup_insert_ne by (unfold next_address; lia). rewrite Ew2.
    destruct (Z.ltb_spec kMaxSizeTag (snd b)) as [Hl|Hl].
    + rewrite lookup_insert_ne by (unfold SizeAddress; lia). unfold w1. rewrite lookup_insert_eq. split; [done|]. split; [done|].
      rewrite lookup_insert_ne by (unfold next_address, SizeAddress; lia). by rewrite lookup_insert_eq.
    + unfold w1. by rewrite lookup_insert_eq.
  - eapply changes_trans; [exact C2|]. apply changes_insert. unfold P, next_address. lia.
Qed.

(** Linking an element. *)
Lemma set_next_spec s b n n' : block_ok b -> element (words_ s) b n -> writable_ s (next_address (fst b) / PageSize) = true ->
  exists w', set_next (fst b) n' s = Ok (tt, with_words s w') /\ element w' b n' /\ changes (fun x => x = next_address (fst b)) (words_ s) w'.
Proof.
  intros Hok [(tags & Ht & Hs) Hn] Hw. destruct heap_words as (_ & HW & _). eexists. split; [apply store_spec; [by eexists | done]|]. split.
  - split; [exists tags|by rewrite lookup_insert_eq]. rewrite lookup_insert_ne by lia. split; [done|].
    destruct (kMaxSizeTag <? snd b); [|done]. unfold SizeAddress in *. by rewrite lookup_insert_ne by lia.
  - by apply changes_insert.
Qed.

(** ** Changing one list *)

Lemma mapped_changes P w w' b : changes P w w' -> mapped w b -> mapped w' b.
Proof. intros Hc Hm x Hx Ha. apply (changes_mapped _ _ _ Hc). by apply Hm. Qed.

Lemma in_regions fl L i b : b ∈ list_of L i -> b ∈ regions fl L.
Proof. intros Hb. apply elem_of_app. right. by eapply list_of_concat. Qed.

Lemma inv_update P s s' L i l' h' : Inv s L -> 0 <= i <= kNumLists ->
  free_lists_ (freelist_ s') = set_word (free_lists_ (freelist_ s)) i h' -> same_rest (freelist_ s) (freelist_ s') ->
  changes P (words_ s) (words_ s') ->
  (forall b x, b ∈ bump (freelist_ s) -> within b x = true -> ~ P x) ->
  (forall j b x, 0 <= j -> j <> i -> b ∈ list_of L j -> within b x = true -> ~ P x) ->
  chain (words_ s') h' l' ->
  (forall b, b ∈ l' -> block_ok b /\ mapped (words_ s') b /\ index_of (snd b) = i) ->
  separate (regions (freelist_ s) (<[Z.to_nat i := l']> L)) ->
  bitset_wf kNumLists (free_map_ (freelist_ s')) ->
  (forall j, 0 <= j < kNumLists -> member (free_map_ (freelist_ s')) j = if decide (j = i) then bool_decide (l' <> []) else member (free_map_ (freelist_ s)) j) ->
  (forall j, 0 <= j < kNumLists -> list_of (<[Z.to_nat i := l']> L) j <> [] -> j * kObjectAlignment <= last_free_small_size_ (freelist_ s')) ->
  (0 <= last_free_small_size_ (freelist_ s') -> exists j, 0 <= j < kNumLists /\
     last_free_small_size_ (freelist_ s') = j * kObjectAlignment /\ list_of (<[Z.to_nat i := l']> L) j <> []) ->
  Inv s' (<[Z.to_nat i := l']> L).
Proof.
  intros Hinv Hi Ef Er Hc Hpb Hpl Hch Hl Hsep Hwf Hmem Hla Hlm. destruct Hinv as [[In1 In2] Ic Ib Io Is [Im1 Im2] Il Ilm].
  assert (forall j, 0 <= j -> list_of (<[Z.to_nat i := l']> L) j = if decide (j = i) then l' else list_of L j) as El
    by (intros j Hj; apply list_of_insert; lia).
  pose proof (bump_same _ _ Er) as Eb. split.
  - rewrite length_insert, Ef. unfold set_word. by rewrite length_insert.
  - intros j Hj. rewrite Ef, El by lia. unfold set_word. case_decide as E; [subst j|].
    + exists h'. split; [|done]. by rewrite list_lookup_insert_eq by lia.
    + destruct (Ic j Hj) as (h & Hh & Hcj). exists h. rewrite list_lookup_insert_ne by lia. split; [done|].
      apply (chain_agree (words_ s)); [| |done].
      * intros b Hb. by apply (Io b), (in_regions _ _ j).
      * intros b x Hb Hx. apply (changes_other _ _ _ Hc). by apply (Hpl j b x); [lia|..].
  - intros j b Hj Hb. rewrite El in Hb by lia. case_decide as E; [subst j; by apply Hl | by apply Ib].
  - intros b Hb. unfold regions in Hb. rewrite Eb in Hb. apply elem_of_app in Hb as [Hb|Hb].
    + destruct (Io b) as [Hok Hm]; [apply elem_of_app; by left|]. split; [done | by eapply mapped_changes].
    + apply concat_list_of in Hb as (j & Hj & Hb). rewrite El in Hb by lia. case_decide as E.
      * destruct (Hl b Hb) as (? & ? & _). done.
      * destruct (Io b) as [Hok Hm]; [by eapply in_regions|]. split; [done | by eapply mapped_changes].
  - unfold regions in *. by rewrite Eb.
  - split; [done|]. intros j Hj. rewrite Hmem, El by lia. case_decide as E; [by rewrite bool_decide_eq_true | by apply Im2].
  - done.
  - done.
Qed.

(** ** Enqueueing *)

Lemma list_at_spec s L i : Inv s L -> 0 <= i <= kNumLists ->
  exists h, list_at i s = Ok (h, s) /\ free_lists_ (freelist_ s) !! Z.to_nat i = Some h /\ chain (words_ s) h (list_of L i).
Proof.
  intros Hinv Hi. destruct (inv_chain s L Hinv i Hi) as (h & Hh & Hc). exists h. split; [|done].
  unfold list_at. rewrite (heap_bind get _ s (freelist_ s) s) by done. apply lift_ok. unfold word_at.
  rewrite (proj2 (Z.ltb_ge _ _)) by lia. by rewrite Hh.
Qed.

Lemma set_list_spec s i h : set_list i h s = Ok (tt, with_freelist s (with_lists (freelist_ s) (set_word (free_lists_ (freelist_ s)) i h))).
Proof. done. Qed.

Lemma chain_head w h l : chain w h l -> (forall b, b ∈ l -> block_ok b) -> h = 0 <-> l = [].
Proof.
  destruct l as [|b l]; [by cbn|]. intros (-> & _) Hok. destruct (Hok b) as [Hp _ _ _ _]; [left|]. split; [lia | done].
Qed.

Lemma list_blocks s L i b : Inv s L -> b ∈ list_of L i -> block_ok b /\ mapped (words_ s) b.
Proof. intros Hinv Hb. by apply (inv_ok s L Hinv), (in_regions _ _ i). Qed.

Lemma member_nonempty s L i : Inv s L -> 0 <= i < kNumLists ->
  member (free_map_ (freelist_ s)) i = bool_decide (list_of L i <> []).
Proof. intros Hinv Hi. apply Bool.eq_iff_eq_true. rewrite bool_decide_eq_true. by apply (inv_map s L Hinv). Qed.

Lemma EnqueueElement_spec s L b n : Inv s L -> block_ok b -> mapped (words_ s) b -> element (words_ s) b n ->
  separate (b :: regions (freelist_ s) L) -> writable_ s (next_address (fst b) / PageSize) = true ->
  exists s', EnqueueElement (fst b) (index_of (snd b)) s = Ok (tt, s') /\
    Inv s' (<[Z.to_nat (index_of (snd b)) := b :: list_of L (index_of (snd b))]> L) /\
    same_rest (freelist_ s) (freelist_ s') /\ writable_ s' = writable_ s /\
    changes (fun x => within b x = true) (words_ s) (words_ s').
Proof.
  intros Hinv Hok Hm He Hsep Hw. set (i := index_of (snd b)). pose proof (index_bounds (snd b) (proj1 (block_size b Hok))) as Hi. fold i in Hi.
  destruct (list_at_spec s L i Hinv ltac:(lia)) as (h & Eh & Hh & Hc). unfold EnqueueElement. rewrite (heap_bind _ _ _ _ _ Eh).
  assert (forall b', b' ∈ list_of L i -> block_ok b') as Hoks by (intros b' Hb'; by eapply list_blocks).
  pose proof (chain_head _ _ _ Hc Hoks) as Hh0. destruct (inv_map s L Hinv) as [Hwf Hmem].
  assert (exists fl1, (if (h =? 0) && negb (i =? kNumLists) then
         fl ← get; m ← lift (BitSet_Set kNumLists i true (free_map_ fl));
         put (with_map fl m (Z.max (last_free_small_size_ fl) (i << kObjectAlignmentLog2)))
       else mret tt) s = Ok (tt, with_freelist s fl1) /\ free_lists_ fl1 = free_lists_ (freelist_ s) /\ same_rest (freelist_ s) fl1 /\
       bitset_wf kNumLists (free_map_ fl1) /\
       (forall j, 0 <= j < kNumLists -> member (free_map_ fl1) j = if decide (j = i) then true else member (free_map_ (freelist_ s)) j) /\
       last_free_small_size_ fl1 = if i <? kNumLists then Z.max (last_free_small_size_ (freelist_ s)) (i * kObjectAlignment) else last_free_small_size_ (freelist_ s))
    as (fl1 & E1 & El1 & Er1 & Hwf1 & Hmem1 & Hla1).
  { destruct (Z.eqb_spec i kNumLists) as [Hik|Hik].
    - exists (freelist_ s). rewrite andb_false_r. split_and!; try done; [by destruct s | | by rewrite Hik].
      intros j Hj. rewrite decide_False by lia. done.
    - cbn [negb]. rewrite andb_true_r, (proj2 (Z.ltb_lt i kNumLists)) by lia. destruct (Z.eqb_spec h 0) as [Hz|Hz].
      + rewrite (heap_bind get _ s (freelist_ s) s) by done.
        destruct (BitSet_Set_spec kNumLists (free_map_ (freelist_ s)) i true Hwf ltac:(lia)) as (m & Em & Hwfm & Hmm).
        rewrite (heap_bind _ _ _ _ _ (lift_ok _ _ _ Em)). destruct (shift_units i) as [_ ->].
        eexists. split; [reflexivity|]. cbn [with_map free_lists_ free_map_ last_free_small_size_]. split_and!; try done.
        intros j Hj. rewrite Hmm by lia. by destruct (Z.eqb_spec j i), (decide (j = i)).
      + exists (freelist_ s). assert (list_of L i <> []) as Hne by (intros E; by apply Hz, Hh0). split_and!; try done; [by destruct s | |].
        * intros j Hj. case_decide as E; [subst j; apply Hmem; [lia | done] | done].
        * pose proof (inv_last s L Hinv i ltac:(lia) Hne). lia. }
  rewrite (heap_bind _ _ _ _ _ E1).
  destruct (set_next_spec (with_freelist s fl1) b n h Hok He Hw) as (w' & E2 & He' & Hch). rewrite (heap_bind _ _ _ _ _ E2).
  unfold set_list. rewrite (heap_bind get _ _ _ _ eq_refl). eexists. split; [reflexivity|]. cbn [freelist_ words_ writable_ with_words with_freelist].
  pose proof (header_within b Hok) as (_ & Wn & _).
  assert (forall b' x, b' ∈ regions (freelist_ s) L -> within b' x = true -> x <> next_address (fst b)) as Hdis.
  { intros b' x Hb' Hx ->. by rewrite (separate_cons b _ b' _ Hsep Hb' Wn) in Hx. }
  split_and!; try done; [|by eapply changes_mono; [|exact Hch]; intros x ->].
  destruct (concat_insert L i) as (rest & P1 & P2 & _); [pose proof (inv_length s L Hinv); lia|].
  eapply (inv_update (fun x => x = next_address (fst b)) s _ L i _ (fst b)); cbn [freelist_ words_ writable_ with_words with_freelist with_lists
    free_lists_ free_map_ last_free_small_size_]; try done; try lia.
  - by rewrite El1.
  - intros b' x Hb' Hx. apply (Hdis b' x); [apply elem_of_app; by left | done].
  - intros j b' x _ _ Hb' Hx. apply (Hdis b' x); [by eapply in_regions | done].
  - split; [done|]. exists h. split; [done|]. apply (chain_agree (words_ s)); [done| |done].
    intros b' x Hb' Hx. apply (changes_other _ _ _ Hch). apply (Hdis b' x); [by eapply in_regions | done].
  - intros b' [->|Hb']%elem_of_cons; [split_and!; [done | by eapply mapped_changes | done]|].
    destruct (list_blocks s L i b' Hinv Hb'). split_and!; [done | by eapply mapped_changes | by apply (inv_block s L Hinv i b'); [lia|]].
  - unfold regions in *. rewrite P2. rewrite P1 in Hsep. intros x. specialize (Hsep x). cbn in Hsep |- *.
    rewrite !cover_app in *. cbn. rewrite cover_app. lia.
  - intros j Hj Hne. rewrite Hla1. rewrite list_of_insert in Hne by (pose proof (inv_length s L Hinv); lia).
    destruct (decide (j = i)) as [->|Hji]; [rewrite (proj2 (Z.ltb_lt _ _)) by lia; lia|].
    pose proof (inv_last s L Hinv j Hj Hne). destruct (i <? kNumLists); lia.
  - rewrite Hla1. intros Hp.
    assert (forall j, 0 <= j < kNumLists -> list_of L j <> [] -> list_of (<[Z.to_nat i:=b :: list_of L i]> L) j <> []) as Hkeep.
    { intros j Hj Hne. rewrite list_of_insert by (pose proof (inv_length s L Hinv); lia). by case_decide. }
    destruct (Z.ltb_spec i kNumLists) as [Hil|Hil].
    + destruct (Z.max_spec (last_free_small_size_ (freelist_ s)) (i * kObjectAlignment)) as [[_ ->]|[Hge ->]].
      * exists i. split_and!; [lia | lia | done|]. rewrite list_of_insert by (pose proof (inv_length s L Hinv); lia). by rewrite decide_True.
      * destruct heap_words as (Ea & HW & _). destruct (inv_last_member s L Hinv) as (j & Hj & Ej & Hne); [nia|]. exists j. by split_and!; auto; lia.
    + destruct (inv_last_member s L Hinv Hp) as (j & Hj & Ej & Hne). exists j. by split_and!; auto; lia.
Qed.

(** ** Dequeueing *)

Lemma member_beyond m j : bitset_wf kNumLists m -> kNumLists <= j -> member m j = false.
Proof.
  intros [Hl _] Hj. unfold member. rewrite lookup_ge_None_2; [apply Z.bits_0|]. rewrite Hl. unfold kLengthInWords, kNumLists in *.
  rewrite kBitsPerWord_XLEN. destruct XLEN_cases as [-> | ->].
  - pose proof (Z.div_le_lower_bound j 32 4). change (1 + (128 - 1) / 32) with 4. lia.
  - pose proof (Z.div_le_lower_bound j 64 2). change (1 + (128 - 1) / 64) with 2. lia.
Qed.

(** The map and the largest small size when list [i] becomes [l]. *)
Definition map_ok (s : Space) (L : list (list block)) (i : Z) (l : list block) (fl : FreeList) : Prop :=
  bitset_wf kNumLists (free_map_ fl) /\
  (forall j, 0 <= j < kNumLists -> member (free_map_ fl) j = if decide (j = i) then bool_decide (l <> []) else member (free_map_ (freelist_ s)) j) /\
  (forall j, 0 <= j < kNumLists -> list_of (<[Z.to_nat i := l]> L) j <> [] -> j * kObjectAlignment <= last_free_small_size_ fl) /\
  (0 <= last_free_small_size_ fl -> exists j, 0 <= j < kNumLists /\
     last_free_small_size_ fl = j * kObjectAlignment /\ list_of (<[Z.to_nat i := l]> L) j <> []).

Lemma list_of_update s L i j (l : list block) : Inv s L -> 0 <= i <= kNumLists -> 0 <= j ->
  list_of (<[Z.to_nat i := l]> L) j = if decide (j = i) then l else list_of L j.
Proof. intros Hinv Hi Hj. apply list_of_insert; [|done]. pose proof (inv_length s L Hinv). lia. Qed.

(** A list that stays as it was, empty or not, needs no change. *)
Lemma map_same s L i l : Inv s L -> 0 <= i <= kNumLists -> i = kNumLists \/ (l <> [] /\ list_of L i <> []) -> map_ok s L i l (freelist_ s).
Proof.
  intros Hinv Hi Hl. destruct (inv_map s L Hinv) as [Hwf Hmem].
  assert (forall j, 0 <= j < kNumLists -> list_of (<[Z.to_nat i := l]> L) j <> [] <-> list_of L j <> []) as Hne.
  { intros j Hj. rewrite (list_of_update s) by (done || lia). case_decide as E; [|done]. subst j. destruct Hl as [?|[? ?]]; [lia | done]. }
  split_and!; [done | | |].
  - intros j Hj. case_decide as E; [|done]. subst j. destruct Hl as [?|[? ?]]; [lia|]. rewrite (member_nonempty s L) by done.
    by rewrite !bool_decide_eq_true_2.
  - intros j Hj Hj'. apply (inv_last s L Hinv j Hj). by apply Hne.
  - intros Hp. destruct (inv_last_member s L Hinv Hp) as (j & Hj & Ej & Hn). exists j. split_and!; try lia. by apply Hne.
Qed.

(** The last block of a small size goes. *)
Lemma map_emptied s L i : Inv s L -> 0 <= i < kNumLists -> list_of L i <> [] ->
  exists fl', (fl ← get;
         let size := i << kObjectAlignmentLog2 in
         if size =? last_free_small_size_ fl then
           '(prev, m) ← lift (BitSet_ClearLastAndFindPrevious kNumLists i (free_map_ fl));
           put (with_map fl m (prev * kObjectAlignment))
         else
           m ← lift (BitSet_Set kNumLists i false (free_map_ fl));
           put (with_map fl m (last_free_small_size_ fl))) s = Ok (tt, with_freelist s fl') /\
    free_lists_ fl' = free_lists_ (freelist_ s) /\ same_rest (freelist_ s) fl' /\ map_ok s L i [] fl'.
Proof.
  intros Hinv Hi Hne. destruct (inv_map s L Hinv) as [Hwf Hmem]. destruct heap_words as (Ea & HW & _).
  rewrite (heap_bind get _ s (freelist_ s) s) by done. cbv zeta. destruct (shift_units i) as [_ ->].
  assert (forall j, 0 <= j < kNumLists -> list_of (<[Z.to_nat i := []]> L) j <> [] -> j <> i /\ list_of L j <> []) as Hsub.
  { intros j Hj Hn. rewrite (list_of_update s) in Hn by (done || lia). by destruct (decide (j = i)). }
  destruct (Z.eqb_spec (i * kObjectAlignment) (last_free_small_size_ (freelist_ s))) as [El|El].
  - assert (forall j, i < j -> member (free_map_ (freelist_ s)) j = false) as Hab.
    { intros j Hj. destruct (Z.lt_ge_cases j kNumLists); [|by apply member_beyond]. rewrite (member_nonempty s L) by (done || lia).
      apply bool_decide_eq_false_2. intros Hn. apply (inv_last s L Hinv) in Hn; [nia | lia]. }
    destruct (BitSet_ClearLast_spec kNumLists (free_map_ (freelist_ s)) i Hwf Hi (proj2 (Hmem i Hi) Hne) Hab) as (r & m & Em & Hwfm & Hr & Hmm).
    rewrite (heap_bind _ _ _ _ _ (lift_ok _ _ _ Em)). eexists. split; [reflexivity|]. split; [done|]. split; [done|].
    cbn [with_map free_map_ last_free_small_size_]. split_and!; [done | | |].
    + intros j Hj. cbn [free_map_ with_map]. rewrite Hmm by lia. by destruct (Z.eqb_spec j i), (decide (j = i)).
    + intros j Hj [Hji Hn]%Hsub; [|done]. cbn [last_free_small_size_ with_map].
      assert (member m j = true) as Hmj by (rewrite Hmm, (proj2 (Z.eqb_neq j i)) by lia; by apply Hmem).
      assert (j < i) as Hlt by (destruct (Z.lt_ge_cases j i); [done|]; rewrite Hmm, (proj2 (Z.eqb_neq j i)), Hab in Hmj by lia; done).
      destruct Hr as [[-> Hnone]|(Hr & _ & Hnone)]; [by rewrite Hnone in Hmj by lia|].
      assert (j <= r) by (destruct (Z.le_gt_cases j r); [done|]; by rewrite Hnone in Hmj by lia). nia.
    + cbn [last_free_small_size_ with_map]. intros Hp. destruct Hr as [[-> Hnone]|(Hr & Hmr & Hnone)]; [nia|].
      exists r. split; [lia|]. split; [done|]. rewrite (list_of_update s) by (done || lia). rewrite decide_False by lia.
      rewrite Hmm, (proj2 (Z.eqb_neq r i)) in Hmr by lia. apply Hmem; [lia | done].
  - destruct (BitSet_Set_spec kNumLists (free_map_ (freelist_ s)) i false Hwf Hi) as (m & Em & Hwfm & Hmm).
    rewrite (heap_bind _ _ _ _ _ (lift_ok _ _ _ Em)). eexists. split; [reflexivity|]. split; [done|]. split; [done|].
    cbn [with_map free_map_ last_free_small_size_]. split_and!; [done | | |].
    + intros j Hj. cbn [free_map_ with_map]. rewrite Hmm by lia. by destruct (Z.eqb_spec j i), (decide (j = i)).
    + intros j Hj [Hji Hn]%Hsub; [|done]. cbn [last_free_small_size_ with_map]. by apply (inv_last s L Hinv).
    + cbn [last_free_small_size_ with_map]. intros Hp. destruct (inv_last_member s L Hinv Hp) as (j & Hj & Ej & Hn). exists j. split_and!; try lia.
      rewrite (list_of_update s) by (done || lia). rewrite decide_False; [done|]. intros ->. lia.
Qed.

(** Cutting a block out of a list. *)
Lemma separate_cut fl L i l1 b l2 : 0 <= i < Z.of_nat (length L) -> list_of L i = l1 ++ b :: l2 ->
  (forall x, cover (regions fl L) x = Z.b2z (within b x) + cover (regions fl (<[Z.to_nat i := l1 ++ l2]> L)) x) /\
  (separate (regions fl L) -> separate (b :: regions fl (<[Z.to_nat i := l1 ++ l2]> L))).
Proof.
  intros Hi El. destruct (concat_insert L i Hi) as (rest & P1 & P2 & _). specialize (P2 (l1 ++ l2)).
  assert (forall x, cover (regions fl L) x = Z.b2z (within b x) + cover (regions fl (<[Z.to_nat i := l1 ++ l2]> L)) x) as Hc.
  { intros x. unfold regions. rewrite !cover_app. rewrite (cover_perm _ _ x P1), (cover_perm _ _ x P2), El, !cover_app. cbn. lia. }
  split; [done|]. intros Hs x. specialize (Hs x). rewrite Hc in Hs. exact Hs.
Qed.

Lemma DequeueElement_spec s L i b l : Inv s L -> 0 <= i <= kNumLists -> list_of L i = b :: l ->
  exists fl', DequeueElement i s = Ok (fst b, with_freelist s fl') /\ Inv (with_freelist s fl') (<[Z.to_nat i := l]> L) /\
    same_rest (freelist_ s) fl'.
Proof.
  intros Hinv Hi El. destruct (list_at_spec s L i Hinv Hi) as (h & Eh & Hh & Hc). rewrite El in Hc. destruct Hc as (-> & n & He & Hc).
  unfold DequeueElement. rewrite (heap_bind _ _ _ _ _ Eh). rewrite (heap_bind _ _ _ _ _ (next_spec s b n He)).
  assert (forall b', b' ∈ list_of L i -> block_ok b') as Hoks by (intros b' Hb'; by eapply list_blocks).
  pose proof (chain_head _ _ _ Hc) as Hn0. rewrite El in Hoks. assert (n = 0 <-> l = []) as Hn by (apply Hn0; intros b' Hb'; apply Hoks; by right).
  assert (exists fl1, (if (n =? 0) && negb (i =? kNumLists) then
         fl ← get;
         let size := i << kObjectAlignmentLog2 in
         if size =? last_free_small_size_ fl then
           '(prev, m) ← lift (BitSet_ClearLastAndFindPrevious kNumLists i (free_map_ fl));
           put (with_map fl m (prev * kObjectAlignment))
         else
           m ← lift (BitSet_Set kNumLists i false (free_map_ fl));
           put (with_map fl m (last_free_small_size_ fl))
       else mret tt) s = Ok (tt, with_freelist s fl1) /\ free_lists_ fl1 = free_lists_ (freelist_ s) /\ same_rest (freelist_ s) fl1 /\ map_ok s L i l fl1)
    as (fl1 & E1 & El1 & Er1 & Hwf & Hmem & Hla & Hlm).
  { destruct (Z.eqb_spec i kNumLists) as [Hik|Hik].
    - rewrite andb_false_r. exists (freelist_ s). split_and!; try done; [by destruct s |]. apply map_same; [done | done | by left].
    - cbn [negb]. rewrite andb_true_r. destruct (Z.eqb_spec n 0) as [Hz|Hz].
      + rewrite (proj1 Hn Hz). apply map_emptied; [done | lia | by rewrite El].
      + exists (freelist_ s). split_and!; try done; [by destruct s |]. apply map_same; [done | done |]. right. rewrite El. split; [|done].
        intros ->. by apply Hz, Hn. }
  rewrite (heap_bind _ _ _ _ _ E1). rewrite (heap_bind _ _ _ _ _ (set_list_spec _ i n)). cbn [freelist_ with_freelist].
  eexists. split; [reflexivity|]. split; [|done].
  eapply (inv_update (fun _ => False) s _ L i l n); cbn [freelist_ words_ writable_ with_freelist with_lists free_lists_ free_map_ last_free_small_size_]; try done.
  - by rewrite El1.
  - by intros ? ? ? ? [].
  - by intros ? ? ? ? ? ? ? [].
  - intros b' Hb'. assert (b' ∈ list_of L i) as Hbi by (rewrite El; by right). destruct (list_blocks s L i b' Hinv Hbi). split_and!; [done | done |].
    by apply (inv_block s L Hinv i b').
  - destruct (separate_cut (freelist_ s) L i [] b l) as [_ Hs]; [pose proof (inv_length s L Hinv); lia | done|].
    apply (separate_tail b), Hs, Hinv.
Qed.
End Steps.
