(* ===== verification/FreeListAllocation.v ===== *)
(** * Allocation from the free list

    What the operations of the free list do to the free space, the words of memory and the
    protection of the pages. *)
From S2P Require Import Prelude Utils Constants Words Exec Macros ObjectHeader BitSet FreeList FreeListInvariant FreeListSteps.

Section Allocation.
Context `{Target} {pages : Pages}.

(** The page size is a power of two, and objects do not straddle pages for lack of alignment. *)
Definition page_size_ok : Prop := exists k, kObjectAlignmentLog2 <= k /\ PageSize = 2 ^ k.
Context (Hpage : page_size_ok).
#[local] Set Default Proof Using "Type".

(** ** Pages *)

Lemma PageSize_pos : 0 < PageSize.
Proof using Hpage.
  destruct Hpage as (k & Hk & ->). apply Z.pow_pos_nonneg; [lia|]. unfold kObjectAlignmentLog2, kWordSizeLog2 in Hk.
  destruct TARGET_64; lia.
Qed.

Lemma RoundDown_page a : RoundDown a PageSize = Ok (a / PageSize * PageSize).
Proof using Hpage.
  destruct Hpage as (k & Hk & E). rewrite E.
  assert (0 <= k) by (unfold kObjectAlignmentLog2, kWordSizeLog2 in Hk; destruct TARGET_64; lia).
  assert (0 < 2 ^ k) by (apply Z.pow_pos_nonneg; lia).
  assert (2 ^ k .& (2 ^ k - 1) = 0) as Hp.
  { apply Z.bits_inj'. intros i Hi. rewrite Z.land_spec, Z.pow2_bits_eqb, Z.bits_0 by lia. destruct (Z.eqb_spec k i) as [<-|]; [|done].
    replace (2 ^ k - 1) with (Z.ones k) by (rewrite Z.ones_equiv; lia). by rewrite Z.ones_spec_high by lia. }
  unfold RoundDown. rewrite ASSERT_bind by (unfold IsPowerOfTwo; rewrite Hp, Z.eqb_refl; cbn [andb]; apply negb_true_iff, Z.eqb_neq; lia). f_equal.
  replace (- 2 ^ k) with (Z.lnot (Z.ones k)) by (unfold Z.lnot; rewrite Z.ones_equiv; lia).
  rewrite <- Z.ldiff_land, Z.ldiff_ones_r by done. rewrite Z.shiftr_div_pow2, Z.shiftl_mul_pow2 by done. done.
Qed.

Lemma InSamePage_spec a b : InSamePage a b = Ok (a / PageSize =? b / PageSize).
Proof using Hpage.
  unfold InSamePage. rewrite !RoundDown_page. cbn [mbind result_bind]. f_equal. pose proof PageSize_pos.
  destruct (Z.eqb_spec (a / PageSize) (b / PageSize)) as [->|Hn]; [apply Z.eqb_refl|]. apply Z.eqb_neq. nia.
Qed.

Lemma RoundUp_page a : RoundUp a PageSize = Ok (((a - 1) / PageSize + 1) * PageSize).
Proof using Hpage.
  unfold RoundUp. rewrite RoundDown_page. do 2 f_equal. pose proof PageSize_pos.
  replace (a + PageSize - 1) with (a - 1 + 1 * PageSize) by lia. by rewrite Z.div_add by lia.
Qed.

Lemma page_le x p : x < p * PageSize <-> x / PageSize < p.
Proof using Hpage.
  pose proof PageSize_pos. split; intros Hx; [apply Z.div_lt_upper_bound; lia|].
  pose proof (Z.mul_succ_div_gt x PageSize). nia.
Qed.

(** Pages from the one of [a] on that start before [e]. *)
Definition touched (a e p : Z) : bool := (a / PageSize <=? p) && (p * PageSize <? e).
Lemma touched_spec a e p : touched a e p = true <-> a / PageSize <= p <= (e - 1) / PageSize.
Proof using Hpage.
  unfold touched. rewrite andb_true_iff, Z.leb_le, Z.ltb_lt. pose proof (page_le (e - 1) p). split; intros [H1 H2]; split; try done.
  - destruct (Z.le_gt_cases p ((e - 1) / PageSize)); [done|]. lia.
  - destruct (Z.lt_ge_cases (p * PageSize) e); [done|]. lia.
Qed.
Lemma touched_in a e x : a <= x < e -> touched a e (x / PageSize) = true.
Proof using Hpage.
  intros Hx. apply touched_spec. pose proof PageSize_pos. split; apply Z.div_le_mono; lia.
Qed.

(** ** Splitting *)

(** The sizes one may ask for. *)
Definition size_ok (size : Z) : Prop := kObjectAlignment <= size < 2 ^ (XLEN - 1) /\ size mod kObjectAlignment = 0.

Lemma IndexForSize_spec size s : size_ok size -> IndexForSize size s = Ok (index_of size, s).
Proof.
  intros [Hs Hm]. unfold IndexForSize. rewrite (heap_bind _ _ _ _ _ (check_ok _ _ (proj2 (Z.leb_le _ _) (proj1 Hs)))).
  rewrite (heap_bind _ _ _ _ _ (check_ok _ _ (units_IsAligned _ Hm))). destruct (shift_units size) as [-> _]. unfold index_of, mret, M_ret.
  do 2 f_equal. destruct (Z.leb_spec kNumLists (size / kObjectAlignment)); lia.
Qed.

Lemma block_size_ok b : block_ok b -> size_ok (snd b).
Proof. intros [_ _ Hs Hu _]. done. Qed.

(** A block is added to the free space. *)
Record added s L b s' L' : Prop := {
  added_inv : Inv s' L';
  added_rest : same_rest (freelist_ s) (freelist_ s');
  added_cover : forall x, cover (regions (freelist_ s') L') x = cover (regions (freelist_ s) L) x + Z.b2z (within b x);
  added_words : changes (fun x => within b x = true) (words_ s) (words_ s');
  added_writable : writable_ s' = writable_ s
}.

(** Words outside of the free space do not matter. *)
Lemma inv_words s w L b : Inv s L -> separate (b :: regions (freelist_ s) L) -> changes (fun x => within b x = true) (words_ s) w ->
  Inv (with_words s w) L.
Proof.
  intros Hinv Hsep Hc.
  assert (forall b' x, b' ∈ regions (freelist_ s) L -> within b' x = true -> w !! x = words_ s !! x) as Hag.
  { intros b' x Hb' Hx. apply (changes_other _ _ _ Hc). intros Hr. by rewrite (separate_cons b _ b' _ Hsep Hb' Hr) in Hx. }
  destruct Hinv as [In Ic Ib Io Is Im Il Ilm]. split; try done.
  - intros i Hi. destruct (Ic i Hi) as (h & Hh & Hch). exists h. split; [done|]. apply (chain_agree (words_ s)); [| |done].
    + intros b' Hb'. by apply (Io b'), (in_regions _ _ i).
    + intros b' x Hb'. apply Hag. by eapply in_regions.
  - intros b' Hb'. destruct (Io b' Hb'). split; [done | by eapply mapped_changes].
Qed.

Lemma add_block s L b : Inv s L -> block_ok b -> mapped (words_ s) b -> separate (b :: regions (freelist_ s) L) ->
  can_write s (fst b) (HeaderSizeFor (snd b)) ->
  exists s1 s2 L', AsElement (fst b) (snd b) s = Ok (fst b, s1) /\ EnqueueElement (fst b) (index_of (snd b)) s1 = Ok (tt, s2) /\ added s L b s2 L'.
Proof.
  intros Hinv Hok Hm Hsep Hw. destruct (AsElement_spec s b Hok Hm Hw) as (w1 & E1 & He & Hc1).
  destruct heap_words as (E & HW & Em & _). pose proof (block_size b Hok) as Hs. pose proof (header_size (snd b) ltac:(lia)) as Eh.
  assert (changes (fun x => within b x = true) (words_ s) w1) as Hc1'.
  { eapply changes_mono; [|exact Hc1]. intros x Hx. apply within_range. rewrite Eh in Hx. destruct (Z.ltb_spec kMaxSizeTag (snd b)); lia. }
  destruct (EnqueueElement_spec (with_words s w1) L b 0) as (s2 & E2 & Hinv2 & Hrest & Hpg & Hc2); try done.
  - by apply (inv_words s w1 L b).
  - by eapply mapped_changes.
  - apply Hw. unfold next_address. rewrite Eh. destruct (_ <? _); lia.
  - exists (with_words s w1), s2. eexists. split; [done|]. split; [done|]. split; try done; [|by eapply changes_trans].
    intros x. unfold regions. rewrite (bump_same _ _ Hrest). rewrite !cover_app.
    destruct (concat_insert L (index_of (snd b))) as (rest & P1 & P2 & _).
    { pose proof (inv_length s L Hinv). pose proof (index_bounds (snd b) (proj1 Hs)). lia. }
    rewrite (cover_perm _ _ x P1), (cover_perm _ _ x (P2 _)). cbn [app]. cbn [cover]. rewrite !cover_app. cbn [freelist_ with_words]. lia.
Qed.

(** The second part of a block. *)
Definition remainder (b : block) (size : Z) : block := (fst b + size, snd b - size).

Lemma remainder_ok b size : block_ok b -> size_ok size -> size < snd b -> block_ok (remainder b size).
Proof.
  intros [Hp Ha Hs Hu He] [Hz Hm] Hl. destruct heap_words as (E & HW & _). unfold remainder. split; cbn [fst snd].
  - lia.
  - rewrite Z.add_mod, Ha, Hm by lia. by rewrite Z.mod_0_l by lia.
  - pose proof (units_exact _ Hu) as E1. pose proof (units_exact _ Hm) as E2. split; [|lia].
    assert (size / kObjectAlignment + 1 <= snd b / kObjectAlignment) by nia. nia.
  - rewrite Zminus_mod, Hu, Hm. by rewrite Z.mod_0_l by lia.
  - lia.
Qed.

Lemma remainder_within b size x : 0 <= size -> within (remainder b size) x = true -> within b x = true.
Proof. intros Hs. rewrite !within_range. cbn. lia. Qed.

(** The pages whose protection a split takes away: those that hold only the header of the rest. *)
Definition split_pages (b : block) (size : Z) (p : Z) : bool :=
  touched ((fst b + size - 1) / PageSize * PageSize + PageSize) (fst b + size + HeaderSizeFor (snd b - size)) p.

Lemma next_page x p : ((x / PageSize * PageSize + PageSize) / PageSize <=? p) = (x / PageSize <? p).
Proof using Hpage.
  pose proof PageSize_pos. replace (x / PageSize * PageSize + PageSize) with ((x / PageSize + 1) * PageSize) by lia. rewrite Z.div_mul by lia.
  destruct (Z.leb_spec (x / PageSize + 1) p), (Z.ltb_spec (x / PageSize) p); lia.
Qed.

Lemma split_pages_spec b size p : split_pages b size p = true <->
  (fst b + size - 1) / PageSize < p <= (fst b + size + HeaderSizeFor (snd b - size) - 1) / PageSize.
Proof using Hpage.
  unfold split_pages. rewrite touched_spec. pose proof (next_page (fst b + size - 1) p) as E.
  destruct (Z.ltb_spec ((fst b + size - 1) / PageSize) p) as [Hl|Hl]; [apply Z.leb_le in E | apply Z.leb_gt in E]; lia.
Qed.

(** The result of a split. *)
Record split s L b size (prot : bool) s' L' : Prop := {
  split_inv : Inv s' L';
  split_rest : same_rest (freelist_ s) (freelist_ s');
  split_cover : forall x, cover (regions (freelist_ s') L') x + Z.b2z (within (fst b, size) x) =
    cover (regions (freelist_ s) L) x + Z.b2z (within b x);
  split_words : changes (fun x => within (remainder b size) x = true) (words_ s) (words_ s');
  split_writable : forall p, writable_ s' p = if prot && split_pages b size p then false else writable_ s p
}.

Lemma SplitElement_spec s L b n size prot : Inv s L -> block_ok b -> mapped (words_ s) b -> element (words_ s) b n ->
  separate (b :: regions (freelist_ s) L) -> size_ok size -> size <= snd b ->
  can_write s (fst b + size) (HeaderSizeFor (snd b - size)) ->
  exists s' L', SplitElementAfterAndEnqueue (fst b) size prot s = Ok (tt, s') /\ split s L b size prot s' L'.
Proof using Hpage.
  intros Hinv Hok Hm He Hsep Hsz Hle Hw. unfold SplitElementAfterAndEnqueue. rewrite (heap_bind _ _ _ _ _ (HeapSize_spec s b n He Hok)). cbv zeta.
  destruct (Z.eqb_spec (snd b - size) 0) as [Hz|Hz].
  - exists s, L. split; [done|]. split; try done.
    + intros x. assert (size = snd b) as -> by lia. by destruct b.
    + intros p. destruct (split_pages b size p) eqn:E; [|by rewrite andb_false_r]. apply split_pages_spec in E. rewrite Hz in E. cbn in E.
      rewrite Z.add_0_r in E. lia.
  - set (r := remainder b size). assert (block_ok r) as Hrok by (apply remainder_ok; [done | done | lia]).
    assert (uintx (fst b + size) = fst r) as ->.
    { apply uintx_small. change (fst r) with (fst b + size). pose proof (block_pos b Hok). pose proof (block_end b Hok). destruct Hsz as [[? ?] _]. pose proof heap_words. lia. }
    assert (forall x, within r x = true -> within b x = true) as Hsub.
    { intros x. apply remainder_within. destruct Hsz as [[? ?] _]. pose proof heap_words. lia. }
    assert (mapped (words_ s) r) as Hmr by (intros x Hx; apply Hm; auto).
    assert (separate (r :: regions (freelist_ s) L)) as Hsepr.
    { intros x. specialize (Hsep x). cbn [cover] in *. destruct (within r x) eqn:Er; [rewrite (Hsub x Er) in Hsep; done|].
      pose proof (cover_nonneg (regions (freelist_ s) L) x). destruct (within b x); cbn in *; lia. }
    destruct (add_block s L r Hinv Hrok Hmr Hsepr Hw) as (s1 & s2 & L' & E1 & E2 & [Hinv2 Hrest Hcov Hc2 Hpg]).
    change (snd b - size) with (snd r). rewrite (heap_bind _ _ _ _ _ E1).
    rewrite (heap_bind _ _ _ _ _ (IndexForSize_spec (snd r) _ (block_size_ok r Hrok))). rewrite (heap_bind _ _ _ _ _ E2).
    assert (forall s3, freelist_ s3 = freelist_ s2 -> words_ s3 = words_ s2 ->
      (forall p, writable_ s3 p = if prot && split_pages b size p then false else writable_ s p) -> split s L b size prot s3 L') as Hfin.
    { intros s3 Ef Ew Hp. split; rewrite ?Ef, ?Ew; try done.
      - destruct Hinv2 as [In Ic Ib Io Is Im Il Ilm]. split; rewrite ?Ef, ?Ew; done.
      - intros x. rewrite Hcov. pose proof (within_split (fst b) (snd b) size x) as Es. unfold r, remainder.
        replace (within (fst b, snd b) x) with (within b x) in Es by by destruct b. destruct Hsz as [[? ?] _]. pose proof heap_words. lia. }
    destruct prot.
    + rewrite InSamePage_spec. rewrite (heap_bind _ _ _ _ _ (lift_ok _ _ _ eq_refl)).
      cbn [fst snd r remainder]. destruct (Z.eqb_spec ((fst b + size - 1) / PageSize) ((fst b + size + HeaderSizeFor (snd b - size) - 1) / PageSize)) as [Ep|Ep]; cbn [negb].
      * exists s2, L'. split; [done|]. apply Hfin; [done | done|]. intros p. rewrite Hpg. cbn [andb].
        destruct (split_pages b size p) eqn:E; [|done]. apply split_pages_spec in E. lia.
      * rewrite (heap_bind _ _ _ _ _ (lift_ok _ _ _ (RoundUp_page _))).
        eexists _, L'. split; [reflexivity|]. apply Hfin; [done | done|]. intros p. cbn [writable_ andb].
        replace (((fst b + size - 1) / PageSize + 1) * PageSize + (fst b + size + HeaderSizeFor (snd b - size) - ((fst b + size - 1) / PageSize + 1) * PageSize))
          with (fst b + size + HeaderSizeFor (snd b - size)) by lia.
        replace (((fst b + size - 1) / PageSize + 1) * PageSize) with ((fst b + size - 1) / PageSize * PageSize + PageSize) by lia.
        fold (touched ((fst b + size - 1) / PageSize * PageSize + PageSize) (fst b + size + HeaderSizeFor (snd b - size)) p).
        fold (split_pages b size p). by rewrite Hpg.
    + exists s2, L'. split; [done|]. apply Hfin; [done | done|]. intros p. by rewrite Hpg.
Qed.

Lemma split_whole s L b prot : Inv s L -> split s L b (snd b) prot s L.
Proof using Hpage.
  intros Hinv. split; [done | done | | apply changes_refl |].
  - intros x. by destruct b.
  - intros p. destruct (split_pages b (snd b) p) eqn:E; [|by rewrite andb_false_r]. apply split_pages_spec in E.
    rewrite Z.sub_diag in E. cbn in E. rewrite Z.add_0_r in E. lia.
Qed.

(** ** The result of an allocation *)

(** The part of a block that is made writable. *)
Definition region (b : block) (size : Z) : Z := size + HeaderSizeFor (snd b - size).

Lemma region_fits b size : block_ok b -> size_ok size -> size <= snd b -> size <= region b size <= snd b.
Proof.
  intros Hok Hsz Hle. unfold region. destruct heap_words as (E & HW & Em & _).
  destruct (Z.eq_dec (snd b - size) 0) as [->|Hn]; [cbn; lia|].
  pose proof (block_size _ (remainder_ok b size Hok Hsz ltac:(lia))) as Hr. cbn [snd remainder] in Hr.
  rewrite header_size by lia. destruct (Z.ltb_spec kMaxSizeTag (snd b - size)); lia.
Qed.

(** Free space can be written, as it must when it is not protected. *)
Definition free_writable s L : Prop := forall x, 0 < cover (regions (freelist_ s) L) x -> writable_ s (x / PageSize) = true.

(** What the callers of an allocation can rely on; [r] is the address of the block, or 0. *)
Record allocated s L size (prot : bool) r s' L' : Prop := {
  al_inv : Inv s' L';
  al_bump : top_ (freelist_ s') = top_ (freelist_ s) /\ end_ (freelist_ s') = end_ (freelist_ s);
  al_none : r = 0 -> (forall x, cover (regions (freelist_ s') L') x = cover (regions (freelist_ s) L) x);
  al_block : r <> 0 -> block_ok (r, size) /\ mapped (words_ s') (r, size) /\
    forall x, cover (regions (freelist_ s) L) x = cover (regions (freelist_ s') L') x + Z.b2z (within (r, size) x);
  al_words : changes (fun x => 0 < cover (regions (freelist_ s') L') x) (words_ s) (words_ s');
  al_unprotected : prot = false -> forall p, writable_ s' p = writable_ s p;
  al_protected : prot = true -> r <> 0 -> forall x, within (r, size) x = true -> writable_ s' (x / PageSize) = true;
  al_pages : forall p, writable_ s' p = true -> writable_ s p = true \/ exists x, r <> 0 /\ within (r, size) x = true /\ p = x / PageSize
}.

(** A block is taken out of the lists and made writable. *)
Record taken s L b size (prot : bool) s' L' : Prop := {
  tk_inv : Inv s' L';
  tk_bump : top_ (freelist_ s') = top_ (freelist_ s) /\ end_ (freelist_ s') = end_ (freelist_ s);
  tk_cover : forall x, cover (regions (freelist_ s) L) x = Z.b2z (within b x) + cover (regions (freelist_ s') L') x;
  tk_words : changes (fun x => 0 < cover (regions (freelist_ s') L') x) (words_ s) (words_ s');
  tk_unprotected : prot = false -> forall p, writable_ s' p = writable_ s p;
  tk_protected : prot = true -> can_write s' (fst b) (region b size);
  tk_pages : forall p, writable_ s' p = true -> writable_ s p = true \/ (prot = true /\ touched (fst b) (fst b + region b size) p = true)
}.

Lemma taken_separate s L b size prot s' L' : Inv s L -> taken s L b size prot s' L' -> separate (b :: regions (freelist_ s') L').
Proof. intros Hinv Ht x. cbn [cover]. rewrite <- (tk_cover _ _ _ _ _ _ _ Ht). apply Hinv. Qed.

(** A page of a range has an address of it. *)
Lemma page_address a n p : 0 < n -> a / PageSize <= p <= (a + n - 1) / PageSize -> exists x, within (a, n) x = true /\ p = x / PageSize.
Proof using Hpage.
  intros Hn Hp. pose proof PageSize_pos. exists (Z.max a (p * PageSize)). rewrite within_range. cbn [fst snd].
  assert (p * PageSize <= a + n - 1). { pose proof (Z.mul_div_le (a + n - 1) PageSize). nia. }
  split; [lia|]. destruct (Z.max_spec a (p * PageSize)) as [[_ ->]|[Hge ->]]; [by rewrite Z.div_mul by lia|].
  assert (p <= a / PageSize) by (apply Z.div_le_lower_bound; lia). lia.
Qed.

Lemma taken_split s L b size prot s1 L1 s' L' : Inv s L -> block_ok b -> mapped (words_ s) b -> size_ok size -> size <= snd b ->
  taken s L b size prot s1 L1 -> split s1 L1 b size prot s' L' -> allocated s L size prot (fst b) s' L'.
Proof using Hpage.
  intros Hinv Hok Hm Hsz Hle Ht Hs. pose proof Hok as [Hp Ha Hbs Hu He]. destruct heap_words as (E & HW & _). destruct Hsz as [Hsz Hszm].
  pose proof (region_fits b size Hok (conj Hsz Hszm) Hle) as Hreg.
  assert (forall x, within (fst b, size) x = true -> within b x = true) as Hsub by (intros x; rewrite !within_range; cbn; lia).
  pose proof (split_cover _ _ _ _ _ _ _ Hs) as Hcs. pose proof (tk_cover _ _ _ _ _ _ _ Ht) as Hct.
  assert (forall x, Z.b2z (within (fst b, size) x) <= Z.b2z (within b x)) as Hb2.
  { intros x. destruct (within (fst b, size) x) eqn:Ew; [by rewrite Hsub|]. by destruct (within b x). }
  destruct (split_rest _ _ _ _ _ _ _ Hs) as (R1 & R2 & _). destruct (tk_bump _ _ _ _ _ _ _ Ht) as [T1 T2].
  assert (changes (fun x => 0 < cover (regions (freelist_ s') L') x) (words_ s) (words_ s')) as Hch.
  { eapply changes_trans; (eapply changes_mono; [|apply Ht || apply Hs]).
    - intros x Hx. cbn in Hx. specialize (Hcs x). specialize (Hb2 x). lia.
    - intros x Hx. cbn in Hx. specialize (Hcs x). pose proof (cover_nonneg (regions (freelist_ s1) L1) x) as Hnn.
      rewrite (remainder_within b size x) in Hcs by (done || lia).
      assert (within (fst b, size) x = false) as Ew; [|rewrite Ew in Hcs; cbn in Hcs; lia].
      apply not_true_iff_false. rewrite within_range. apply within_range in Hx. cbn in *. lia. }
  split.
  - apply Hs.
  - by rewrite R1, R2.
  - lia.
  - intros _. split_and!; [| |intros x; specialize (Hcs x); specialize (Hct x); lia].
    + split; cbn; (done || lia).
    + intros x Hx Hw. apply (changes_mapped _ _ _ Hch). apply Hm; auto.
  - done.
  - intros Hpr p. rewrite (split_writable _ _ _ _ _ _ _ Hs), Hpr. cbn [andb]. by apply (tk_unprotected _ _ _ _ _ _ _ Ht).
  - intros Hpr _ x Hx. apply within_range in Hx. cbn [fst snd] in Hx. rewrite (split_writable _ _ _ _ _ _ _ Hs), Hpr. cbn [andb].
    destruct (split_pages b size (x / PageSize)) eqn:Es.
    + apply split_pages_spec in Es. pose proof PageSize_pos. pose proof (Z.div_le_mono x (fst b + size - 1) PageSize). lia.
    + apply (tk_protected _ _ _ _ _ _ _ Ht Hpr). lia.
  - intros p Hw. rewrite (split_writable _ _ _ _ _ _ _ Hs) in Hw. destruct (prot && split_pages b size p) eqn:Es; [done|].
    destruct (tk_pages _ _ _ _ _ _ _ Ht p Hw) as [?|[Hpr Ht']]; [by left|]. right. rewrite Hpr in Es. cbn [andb] in Es.
    apply touched_spec in Ht'. apply not_true_iff_false in Es. rewrite split_pages_spec in Es.
    destruct (page_address (fst b) size p) as (x & Hx & ->); [lia | | exists x; split_and!; [lia | done | done]].
    split; [lia|]. unfold region in Ht'.
    replace (fst b + (size + HeaderSizeFor (snd b - size)) - 1) with (fst b + size + HeaderSizeFor (snd b - size) - 1) in Ht' by lia. lia.
Qed.

Lemma can_write_free s L b size prot s' L' : Inv s L -> taken s L b size prot s' L' -> block_ok b -> size_ok size -> size <= snd b ->
  (prot = false -> free_writable s L) -> can_write s' (fst b + size) (HeaderSizeFor (snd b - size)).
Proof.
  intros Hinv Ht Hok Hsz Hle Hf x Hx. pose proof (region_fits b size Hok Hsz Hle) as Hreg. unfold region in Hreg.
  destruct prot.
  - apply (tk_protected _ _ _ _ _ _ _ Ht eq_refl). unfold region. destruct Hsz as [[? ?] _]. pose proof heap_words. lia.
  - rewrite (tk_unprotected _ _ _ _ _ _ _ Ht eq_refl). apply Hf; [done|]. rewrite (tk_cover _ _ _ _ _ _ _ Ht).
    pose proof (cover_nonneg (regions (freelist_ s') L') x). assert (within b x = true) as ->; [|cbn; lia].
    apply within_range. destruct Hsz as [[? ?] _]. pose proof heap_words. lia.
Qed.
End Allocation.
