(* ===== verification/FreeListSearch.v ===== *)
(** * The searches of the free list

    Taking the first block of a list, or one from the middle of the last list, and the
    allocations that do it. *)
From S2P Require Import Prelude Utils Constants Words Exec Macros ObjectHeader BitSet FreeList FreeListInvariant FreeListSteps FreeListAllocation.

Section Search.
Context `{Target} {pages : Pages} (Hpage : page_size_ok).
#[local] Set Default Proof Using "Type".

Lemma Protect_spec a n mode s : Protect a n mode s =
  Ok (tt, with_pages s (fun p => if touched a (a + n) p then match mode with kReadWrite | kReadWriteExecute => true | _ => false end else writable_ s p)).
Proof. done. Qed.

(** The invariant does not depend on the protection, nor on the budget. *)
Lemma inv_same s s' L : Inv s L -> words_ s' = words_ s -> free_lists_ (freelist_ s') = free_lists_ (freelist_ s) ->
  free_map_ (freelist_ s') = free_map_ (freelist_ s) -> last_free_small_size_ (freelist_ s') = last_free_small_size_ (freelist_ s) ->
  top_ (freelist_ s') = top_ (freelist_ s) -> end_ (freelist_ s') = end_ (freelist_ s) -> Inv s' L.
Proof.
  intros [In Ic Ib Io Is Im Il Ilm] E1 E2 E3 E4 E5 E6.
  assert (regions (freelist_ s') L = regions (freelist_ s) L) as Er by (unfold regions, bump; by rewrite E5, E6).
  split; rewrite ?E1, ?E2, ?E3, ?E4, ?Er; done.
Qed.

(** Make the block's part writable. *)
Definition unprotect (b : block) (size : Z) (prot : bool) : heap unit :=
  if prot then Protect (fst b) (region b size) kReadWrite else mret tt.

Lemma taken_unprotect s L b size prot s1 L1 : taken s L b size false s1 L1 ->
  exists s2, unprotect b size prot s1 = Ok (tt, s2) /\ words_ s2 = words_ s1 /\ freelist_ s2 = freelist_ s1 /\ taken s L b size prot s2 L1.
Proof using Hpage.
  intros [I1 I2 I3 I4 I5 I6 I7]. destruct prot; [|by exists s1].
  eexists. split; [apply Protect_spec|]. split; [done|]. split; [done|]. split; cbn [freelist_ words_ writable_ with_pages]; try done.
  - by apply (inv_same s1).
  - intros _ x Hx. cbn [writable_ with_pages]. by rewrite touched_in by done.
  - intros p Hw. destruct (touched (fst b) (fst b + region b size) p) eqn:E; [by right|]. left. by rewrite <- (I5 eq_refl).
Qed.

(** ** The first block of a list *)

Lemma dequeue_taken s L i b l size : Inv s L -> 0 <= i <= kNumLists -> list_of L i = b :: l ->
  exists s1 n, DequeueElement i s = Ok (fst b, s1) /\ words_ s1 = words_ s /\ element (words_ s) b n /\ block_ok b /\ mapped (words_ s) b /\
    index_of (snd b) = i /\ taken s L b size false s1 (<[Z.to_nat i := l]> L).
Proof.
  intros Hinv Hi El. destruct (DequeueElement_spec s L i b l Hinv Hi El) as (fl' & E & Hinv' & Hr).
  destruct (inv_chain s L Hinv i Hi) as (h & _ & Hc). rewrite El in Hc. destruct Hc as (_ & n & He & _).
  assert (b ∈ list_of L i) as Hb by (rewrite El; left). destruct (list_blocks s L i b Hinv Hb) as [Hok Hm].
  exists (with_freelist s fl'), n. split_and!; try done; [by apply (inv_block s L Hinv i b)|].
  destruct (separate_cut (freelist_ s) L i [] b l) as [Hcov _]; [pose proof (inv_length s L Hinv); lia | done|].
  pose proof Hr as (R1 & R2 & _). split; cbn [freelist_ words_ writable_ with_freelist]; try done.
  - intros x. rewrite Hcov. unfold regions. by rewrite (bump_same _ _ Hr).
  - by left.
Qed.

(** A list that is not empty. *)
Lemma nonempty_list s L i : Inv s L -> 0 <= i < kNumLists -> member (free_map_ (freelist_ s)) i = true -> exists b l, list_of L i = b :: l.
Proof.
  intros Hinv Hi Hm. apply (inv_map s L Hinv) in Hm; [|done]. destruct (list_of L i) as [|b l]; [done | by exists b, l].
Qed.

(** ** The last list *)

Lemma chain_split w h l1 l2 : chain w h (l1 ++ l2) ->
  exists c, chain w c l2 /\ (l1 = [] -> c = h) /\ forall l0 p, l1 = l0 ++ [p] -> element w p c.
Proof.
  revert h. induction l1 as [|b l1 IH]; intros h Hc.
  - exists h. split; [done|]. split; [done|]. intros l0 p E. by destruct l0.
  - destruct Hc as (-> & n & He & Hc). destruct (IH n Hc) as (c & Hcc & Hn & Hp). exists c. split; [done|]. split; [done|].
    intros l0 p E. destruct l0 as [|b0 l0]; injection E as -> E.
    + by rewrite <- (Hn E) in He.
    + by apply (Hp l0).
Qed.

(** The list without the block after [p]. *)
Lemma chain_unlink w w' h l0 p b l2 n : chain w h (l0 ++ p :: b :: l2) -> element w b n ->
  (forall b', b' ∈ l0 ++ l2 -> block_ok b') -> (forall b' x, b' ∈ l0 ++ l2 -> within b' x = true -> w' !! x = w !! x) ->
  element w' p n -> chain w' h (l0 ++ p :: l2).
Proof.
  intros Hc Heb Hok Hag Hep. revert h Hc. induction l0 as [|b0 l0 IH]; intros h Hc; cbn in *.
  - destruct Hc as (-> & n' & _ & _ & n0 & Heb' & Hc). split; [done|]. exists n. split; [done|].
    assert (n0 = n) as -> by (destruct Heb as [_ E1], Heb' as [_ E2]; congruence). by apply (chain_agree w).
  - destruct Hc as (-> & n0 & He0 & Hc). split; [done|]. exists n0. split.
    + eapply element_agree; [apply Hok; left | | done]. intros x Hx. apply (Hag b0); [left | done].
    + apply IH; [intros b' Hb'; apply Hok; by right | intros b' x Hb'; apply Hag; by right | done].
Qed.

Definition prev_is (l1 : list block) (previous : Z) : Prop :=
  (l1 = [] /\ previous = 0) \/ exists l0 p, l1 = l0 ++ [p] /\ previous = fst p.

(** A word lies in one page. *)
Lemma page_word x : x mod kWordSize = 0 -> (x + kWordSize - 1) / PageSize = x / PageSize.
Proof using Hpage.
  intros Hx. destruct heap_words as (E & HW & _ & Ep & Hl). destruct Hpage as (k & Hk & Epg).
  assert (0 < PageSize) as Hpp by by apply PageSize_pos.
  assert (PageSize = kWordSize * 2 ^ (k - kWordSizeLog2)) as Em.
  { rewrite Epg, Ep, <- Z.pow_add_r; unfold kObjectAlignmentLog2 in Hk; [f_equal; lia | lia | lia]. }
  assert (PageSize <> 0) as Hp0 by lia. pose proof (Z.div_mod x PageSize Hp0) as Hd. pose proof (Z.mod_pos_bound x PageSize Hpp) as Hb.
  assert ((x mod PageSize) mod kWordSize = 0) as Hw.
  { rewrite Em. rewrite Z.rem_mul_r; [|lia | apply Z.pow_pos_nonneg; unfold kObjectAlignmentLog2 in Hk; lia].
    rewrite Hx, Z.add_0_l, Z.mul_comm. apply Z.mod_mul. lia. }
  assert (x mod PageSize + kWordSize <= PageSize).
  { set (q := x mod PageSize) in *. assert (kWordSize <> 0) as Hw0 by lia. pose proof (Z.div_mod q kWordSize Hw0) as Hq. rewrite Hw, Z.add_0_r in Hq.
    assert (q / kWordSize < 2 ^ (k - kWordSizeLog2)) by (apply Z.div_lt_upper_bound; lia). nia. }
  symmetry. apply (Z.div_unique_pos _ _ _ (x mod PageSize + kWordSize - 1)); lia.
Qed.

Lemma next_aligned b : block_ok b -> next_address (fst b) mod kWordSize = 0.
Proof. intros Hok. pose proof (block_words _ 1 (block_aligned b Hok)) as E. by rewrite Z.mul_1_l in E. Qed.

(** A page outside of a range whose first and last page it is not does not touch it. *)
Lemma outside_page a n t p : 0 < n -> t < a \/ a + n <= t -> t / PageSize <> a / PageSize -> t / PageSize <> (a + n - 1) / PageSize ->
  touched a (a + n) p = true -> p <> t / PageSize.
Proof using Hpage.
  intros Hn Ht N1 N2 Hp ->. apply (touched_spec Hpage) in Hp. pose proof (PageSize_pos Hpage) as Hpp.
  destruct Ht as [Ht|Ht]; [pose proof (Z.div_le_mono t a PageSize) | pose proof (Z.div_le_mono (a + n - 1) t PageSize)]; lia.
Qed.

(** The rest of a list without one of its blocks. *)
Lemma inv_cut s s' L l1 b l2 h P : Inv s L -> list_of L kNumLists = l1 ++ b :: l2 ->
  freelist_ s' = with_lists (freelist_ s) (set_word (free_lists_ (freelist_ s)) kNumLists h) ->
  changes P (words_ s) (words_ s') ->
  (forall b' x, b' ∈ bump (freelist_ s) -> within b' x = true -> ~ P x) ->
  (forall j b' x, 0 <= j -> j <> kNumLists -> b' ∈ list_of L j -> within b' x = true -> ~ P x) ->
  chain (words_ s') h (l1 ++ l2) -> Inv s' (<[Z.to_nat kNumLists := l1 ++ l2]> L).
Proof.
  intros Hinv El Ef Hc Hb Hj Hch. destruct (map_same s L kNumLists (l1 ++ l2) Hinv ltac:(unfold kNumLists; lia) ltac:(by left)) as (M1 & M2 & M3 & M4).
  eapply (inv_update P s s' L kNumLists (l1 ++ l2) h); rewrite ?Ef; try done.
  - intros b' Hb'. assert (b' ∈ list_of L kNumLists) as Hbi.
    { rewrite El. apply elem_of_app in Hb' as [?|?]; apply elem_of_app; [by left | right; by right]. }
    destruct (list_blocks s L kNumLists b' Hinv Hbi). split_and!; [done | by eapply mapped_changes|]. apply (inv_block s L Hinv); [unfold kNumLists; lia | done].
  - destruct (separate_cut (freelist_ s) L kNumLists l1 b l2) as [_ Hs]; [pose proof (inv_length s L Hinv); unfold kNumLists in *; lia | done|].
    apply (separate_tail b), Hs, Hinv.
Qed.

(** The pages after the block was made writable. *)
Definition pages_after s (b : block) size (prot : bool) (p : Z) : bool :=
  if prot && touched (fst b) (fst b + region b size) p then true else writable_ s p.

Lemma unprotect_spec s b size prot : exists s1, unprotect b size prot s = Ok (tt, s1) /\ freelist_ s1 = freelist_ s /\ words_ s1 = words_ s /\
  forall p, writable_ s1 p = pages_after s b size prot p.
Proof. destruct prot; [|by exists s]. eexists. split; [apply Protect_spec|]. done. Qed.

(** Storing into the element before the block, with its page unprotected for the store. *)
Definition store_previous (target : Z) (tp : bool) (m : heap unit) : heap unit :=
  _ ← (if tp then Protect target kWordSize kReadWrite else mret tt);
  _ ← m;
  if tp then Protect target kWordSize kReadExecute else mret tt.

Lemma store_previous_spec s p n n' (tp : bool) : block_ok p -> element (words_ s) p n ->
  (tp = false -> writable_ s (next_address (fst p) / PageSize) = true) ->
  exists s', store_previous (next_address (fst p)) tp (set_next (fst p) n') s = Ok (tt, s') /\ freelist_ s' = freelist_ s /\
    element (words_ s') p n' /\ changes (fun x => x = next_address (fst p)) (words_ s) (words_ s') /\
    forall q, writable_ s' q = if tp && (q =? next_address (fst p) / PageSize) then false else writable_ s q.
Proof using Hpage.
  intros Hok He Hw. pose proof (page_word _ (next_aligned p Hok)) as Ep. set (t := next_address (fst p)) in *.
  assert (forall q, touched t (t + kWordSize) q = (q =? t / PageSize)) as Htc.
  { intros q. apply Bool.eq_iff_eq_true. rewrite (touched_spec Hpage), Z.eqb_eq, Ep. lia. }
  unfold store_previous. destruct tp.
  - rewrite (heap_bind _ _ _ _ _ (Protect_spec _ _ _ _)).
    destruct (set_next_spec (with_pages s (fun q => if touched t (t + kWordSize) q then true else writable_ s q)) p n n' Hok He) as (w' & E & He' & Hc).
    { cbn [writable_ with_pages]. by rewrite Htc, Z.eqb_refl. }
    rewrite (heap_bind _ _ _ _ _ E). eexists. split; [apply Protect_spec|]. cbn [freelist_ words_ writable_ with_pages with_words].
    split_and!; try done. intros q. rewrite !Htc. by destruct (q =? t / PageSize).
  - destruct (set_next_spec s p n n' Hok He (Hw eq_refl)) as (w' & E & He' & Hc).
    rewrite (heap_bind (mret tt) _ s tt s eq_refl), (heap_bind _ _ _ _ _ E). by eexists.
Qed.

(** A block is cut out of the last list. *)
Lemma cut_taken s L l1 b l2 size prot s' h : Inv s L -> list_of L kNumLists = l1 ++ b :: l2 ->
  freelist_ s' = with_lists (freelist_ s) (set_word (free_lists_ (freelist_ s)) kNumLists h) -> Inv s' (<[Z.to_nat kNumLists := l1 ++ l2]> L) ->
  changes (fun x => exists p, p ∈ l1 /\ within p x = true) (words_ s) (words_ s') ->
  (prot = false -> forall p, writable_ s' p = writable_ s p) -> (prot = true -> can_write s' (fst b) (region b size)) ->
  (forall p, writable_ s' p = true -> pages_after s b size prot p = true) -> taken s L b size prot s' (<[Z.to_nat kNumLists := l1 ++ l2]> L).
Proof.
  intros Hinv El Ef Hi' Hc' P1 P2 P3. destruct (separate_cut (freelist_ s) L kNumLists l1 b l2) as [Hcov _]; [pose proof (inv_length s L Hinv); unfold kNumLists in *; lia | done|].
  assert (regions (freelist_ s') (<[Z.to_nat kNumLists := l1 ++ l2]> L) = regions (freelist_ s) (<[Z.to_nat kNumLists := l1 ++ l2]> L)) as Er by by rewrite Ef.
  split; rewrite ?Ef; try done.
  - eapply changes_mono; [|exact Hc']. intros x (p & Hp & Hx). change (0 < cover (regions (freelist_ s) (<[Z.to_nat kNumLists := l1 ++ l2]> L)) x).
    assert (p ∈ regions (freelist_ s) (<[Z.to_nat kNumLists := l1 ++ l2]> L)) as Hpr.
    { eapply (in_regions _ _ kNumLists). rewrite (list_of_update s) by (done || (unfold kNumLists; lia)). rewrite decide_True by done. apply elem_of_app. by left. }
    pose proof (cover_in _ p x Hpr Hx). lia.
  - intros p Hw. specialize (P3 p Hw). unfold pages_after in P3. destruct prot; [|by left]. cbn [andb] in P3.
    destruct (touched (fst b) (fst b + region b size) p); [by right | by left].
Qed.

(** The first block of the list. *)
Lemma unlink_first s L b l2 size prot s1 n : Inv s L -> list_of L kNumLists = b :: l2 -> element (words_ s) b n -> chain (words_ s) n l2 ->
  size_ok size -> freelist_ s1 = freelist_ s -> words_ s1 = words_ s -> (forall p, writable_ s1 p = pages_after s b size prot p) ->
  exists s', set_list kNumLists n s1 = Ok (tt, s') /\ words_ s' = words_ s /\ taken s L b size prot s' (<[Z.to_nat kNumLists := l2]> L).
Proof using Hpage.
  intros Hinv El He Hc Hsz Ef Ew Hp. rewrite set_list_spec, Ef. eexists. split; [reflexivity|]. split; [exact Ew|].
  apply (cut_taken s L [] b l2 size prot _ n); cbn [freelist_ words_ writable_ with_freelist]; try done.
  - apply (inv_cut s _ L [] b l2 n (fun _ => False)); cbn [freelist_ words_ with_freelist]; try done; rewrite ?Ew; try done; [by intros ? ? ? ? [] | by intros ? ? ? ? ? ? ? []].
  - rewrite Ew. apply changes_refl.
  - intros -> q. by rewrite Hp.
  - intros -> x Hx. cbn [writable_ with_freelist]. rewrite Hp. unfold pages_after. cbn [andb]. by rewrite (touched_in Hpage).
  - intros q Hq. by rewrite <- Hp.
Qed.

(** The link of a block is in no other block. *)
Lemma link_apart s L l0 p l b x : Inv s L -> list_of L kNumLists = l0 ++ p :: l -> b ∈ regions (freelist_ s) (<[Z.to_nat kNumLists := l0 ++ l]> L) ->
  within b x = true -> x <> next_address (fst p).
Proof.
  intros Hinv El Hb Hx ->. assert (p ∈ list_of L kNumLists) as Hp by (rewrite El; apply elem_of_app; right; left).
  destruct (list_blocks s L kNumLists p Hinv Hp) as [Hok _]. destruct (header_within p Hok) as (_ & Wt & _).
  destruct (separate_cut (freelist_ s) L kNumLists l0 p l) as [_ Hsp]; [pose proof (inv_length s L Hinv); unfold kNumLists in *; lia | done|].
  by rewrite (separate_cons p _ b _ (Hsp (inv_sep s L Hinv)) Hb Wt) in Hx.
Qed.

Lemma list_regions s L i l b : Inv s L -> 0 <= i <= kNumLists -> b ∈ l -> b ∈ regions (freelist_ s) (<[Z.to_nat i := l]> L).
Proof.
  intros Hinv Hi Hb. eapply (in_regions _ _ i). rewrite (list_of_update s) by (done || lia). by rewrite decide_True by done.
Qed.

(** Whether the link must be unprotected: the block is not in the pages that already are. *)
Definition link_protected (b : block) (size : Z) (prot : bool) (t : Z) : bool :=
  prot && negb (t / PageSize =? fst b / PageSize) && negb (t / PageSize =? (fst b + region b size - 1) / PageSize).

Lemma link_writable s b size prot t : 0 < region b size -> (prot = false -> writable_ s (t / PageSize) = true) ->
  link_protected b size prot t = false -> pages_after s b size prot (t / PageSize) = true.
Proof using Hpage.
  intros Hr Hf Hl. unfold pages_after. unfold link_protected in Hl. destruct prot; cbn [andb] in *; [|auto].
  destruct (touched (fst b) (fst b + region b size) (t / PageSize)) eqn:Et; [done|]. exfalso.
  destruct (Z.eqb_spec (t / PageSize) (fst b / PageSize)) as [E|E]; cbn [negb andb] in Hl; [rewrite E, (touched_in Hpage) in Et by lia; done|].
  destruct (Z.eqb_spec (t / PageSize) ((fst b + region b size - 1) / PageSize)) as [E'|]; [|done].
  by rewrite E', (touched_in Hpage) in Et by lia.
Qed.

(** Protecting the link again leaves the pages of the block writable. *)
Lemma link_outside b size t x : (t < fst b \/ fst b + region b size <= t) -> fst b <= x < fst b + region b size ->
  link_protected b size true t && (x / PageSize =? t / PageSize) = false.
Proof using Hpage.
  intros Hout Hx. destruct (Z.eqb_spec (x / PageSize) (t / PageSize)) as [E|E]; [|apply andb_false_r]. rewrite andb_true_r. unfold link_protected. cbn [andb].
  destruct (Z.eqb_spec (t / PageSize) (fst b / PageSize)) as [|N1]; [done|]. cbn [negb andb].
  destruct (Z.eqb_spec (t / PageSize) ((fst b + region b size - 1) / PageSize)) as [|N2]; [done|]. exfalso.
  assert (touched (fst b) (fst b + region b size) (x / PageSize) = true) as Ht by by apply (touched_in Hpage).
  by apply (outside_page (fst b) (region b size) t (x / PageSize)) in Ht; [|lia | done | done | done].
Qed.

(** A block behind [p]. *)
Lemma unlink_after s L l0 p b l2 size prot s1 n : Inv s L -> list_of L kNumLists = l0 ++ p :: b :: l2 -> element (words_ s) b n -> chain (words_ s) n l2 ->
  element (words_ s) p (fst b) -> size_ok size -> size <= snd b -> (prot = false -> free_writable s L) ->
  freelist_ s1 = freelist_ s -> words_ s1 = words_ s -> (forall q, writable_ s1 q = pages_after s b size prot q) ->
  let t := next_address (fst p) in
  exists s', store_previous t (link_protected b size prot t) (set_next (fst p) n) s1 = Ok (tt, s') /\
    element (words_ s') b n /\ taken s L b size prot s' (<[Z.to_nat kNumLists := l0 ++ p :: l2]> L).
Proof using Hpage.
  intros Hinv El He Hcn Hep Hsz Hle Hfw Ef Ew Hp t. assert (0 <= kNumLists <= kNumLists) as Hk by (unfold kNumLists; lia).
  assert (list_of L kNumLists = (l0 ++ [p]) ++ b :: l2) as El' by by rewrite El, <- app_assoc.
  assert (forall b', b' ∈ l0 ++ p :: b :: l2 -> block_ok b' /\ mapped (words_ s) b') as Hoks by (intros b' Hb'; apply (list_blocks s L kNumLists b' Hinv); by rewrite El).
  destruct (Hoks p) as [Hpok _]; [apply elem_of_app; right; left|]. destruct (Hoks b) as [Hok _]; [apply elem_of_app; right; right; left|].
  pose proof (region_fits b size Hok Hsz Hle) as Hreg. assert (0 < size) as Hs0 by (destruct Hsz as [[? ?] _]; pose proof heap_words; lia).
  pose proof (header_within p Hpok) as (_ & Wt & _). fold t in Wt.
  assert (forall b' x, b' ∈ l0 ++ b :: l2 -> within b' x = true -> x <> t) as Hap.
  { intros b' x Hb'. apply (link_apart s L l0 p (b :: l2) b' x Hinv El). by apply list_regions. }
  assert (forall x, within b x = true -> x <> t) as Hbt by (intros x; apply Hap, elem_of_app; right; left).
  assert (t < fst b \/ fst b + region b size <= t) as Hout.
  { assert (~ within b t = true) as Hn by (intros Hx; by apply (Hbt t Hx)). rewrite within_range in Hn. lia. }
  rewrite <- Ew in Hep. destruct (store_previous_spec s1 p (fst b) n (link_protected b size prot t) Hpok Hep) as (s2 & E2 & Ef2 & Hep2 & Hc2 & Hp2).
  { fold t. intros Hl. rewrite Hp. apply link_writable; [lia | | done]. intros Hpr. apply (Hfw Hpr).
    assert (p ∈ regions (freelist_ s) L) as Hpin by (eapply (in_regions _ _ kNumLists); rewrite El; apply elem_of_app; right; left). pose proof (cover_in _ p t Hpin Wt). lia. }
  fold t in E2, Hc2, Hp2. rewrite Ew in Hc2. exists s2. split; [done|].
  assert (forall x, x <> t -> words_ s2 !! x = words_ s !! x) as Hag by (intros x Hx; by apply (changes_other _ _ _ Hc2)).
  split; [eapply element_agree; [done| |exact He]; intros x Hx; apply Hag; auto|].
  destruct (inv_chain s L Hinv kNumLists Hk) as (h & Hh & Hc). rewrite El in Hc.
  assert (freelist_ s2 = with_lists (freelist_ s) (set_word (free_lists_ (freelist_ s)) kNumLists h)) as Ef3.
  { rewrite Ef2, Ef. destruct (freelist_ s) as [f1 f2 f3 f4 f5 f6 f7]. unfold with_lists, set_word. cbn in *. f_equal. symmetry. by apply list_insert_id. }
  replace (l0 ++ p :: l2) with ((l0 ++ [p]) ++ l2) by by rewrite <- app_assoc. apply (cut_taken s L (l0 ++ [p]) b l2 size prot s2 h); try done.
  - apply (inv_cut s s2 L (l0 ++ [p]) b l2 h (fun x => x = t)); try done.
    + intros b' x Hb' Hx. apply (link_apart s L l0 p (b :: l2) b' x Hinv El); [apply elem_of_app; by left | done].
    + intros j b' x Hj Hjk Hb' Hx. apply (link_apart s L l0 p (b :: l2) b' x Hinv El); [|done]. eapply (in_regions _ _ j).
      rewrite (list_of_update s) by (done || lia). by rewrite decide_False.
    + rewrite <- app_assoc. cbn [app]. apply (chain_unlink (words_ s) (words_ s2) h l0 p b l2 n); try done.
      * intros b' Hb'. apply Hoks. apply elem_of_app in Hb' as [?|?]; apply elem_of_app; [by left | right; right; by right].
      * intros b' x Hb' Hx. apply Hag, (Hap b'); [|done]. apply elem_of_app in Hb' as [?|?]; apply elem_of_app; [by left | right; by right].
  - eapply changes_mono; [|exact Hc2]. intros x ->. exists p. split; [apply elem_of_app; right; left | done].
  - intros -> q. rewrite Hp2. unfold link_protected. cbn [andb]. by rewrite Hp.
  - intros -> x Hx. rewrite Hp2, (link_outside b size t x Hout Hx), Hp. unfold pages_after. cbn [andb]. by rewrite (touched_in Hpage).
  - intros q Hq. rewrite Hp2 in Hq. destruct (_ && _) in Hq; [done|]. by rewrite <- Hp.
Qed.

Lemma unlink_large_spec s L l1 b l2 previous size prot : Inv s L -> list_of L kNumLists = l1 ++ b :: l2 -> prev_is l1 previous ->
  size_ok size -> size <= snd b -> (prot = false -> free_writable s L) ->
  exists s' n, unlink_large previous (fst b) size prot s = Ok (tt, s') /\ element (words_ s') b n /\
    taken s L b size prot s' (<[Z.to_nat kNumLists := l1 ++ l2]> L).
Proof using Hpage.
  intros Hinv El Hprev Hsz Hle Hfw. destruct (inv_chain s L Hinv kNumLists ltac:(unfold kNumLists; lia)) as (h & Hh & Hc). rewrite El in Hc.
  destruct (chain_split _ _ _ _ Hc) as (c & (-> & n & He & Hcn) & Hc0 & Hcp).
  assert (forall b', b' ∈ l1 ++ b :: l2 -> block_ok b') as Hoks by (intros b' Hb'; apply (list_blocks s L kNumLists b' Hinv); by rewrite El).
  assert (block_ok b) as Hok by (apply Hoks, elem_of_app; right; left).
  unfold unlink_large. rewrite (heap_bind _ _ _ _ _ (HeapSize_spec s b n He Hok)). cbv zeta. change (size + HeaderSizeFor (snd b - size)) with (region b size).
  destruct (unprotect_spec s b size prot) as (s1 & E1 & Ef1 & Ew1 & Hp1). unfold unprotect in E1. rewrite (heap_bind _ _ _ _ _ E1).
  assert (element (words_ s1) b n) as He1 by by rewrite Ew1. rewrite (heap_bind _ _ _ _ _ (next_spec s1 b n He1)).
  destruct Hprev as [[-> ->]|(l0 & p & -> & ->)].
  - change (0 =? 0) with true. cbv iota. destruct (unlink_first s L b l2 size prot s1 n Hinv El He Hcn Hsz Ef1 Ew1 Hp1) as (s' & E & Ew & Ht).
    exists s', n. split; [done|]. by rewrite Ew.
  - pose proof (Hoks p) as Hpok. rewrite (proj2 (Z.eqb_neq _ _)) by (pose proof (block_pos p (Hpok ltac:(apply elem_of_app; left; apply elem_of_app; right; left))); lia).
    set (t := next_address (fst p)).
    assert ((if prot then b1 ← lift (InSamePage t (fst b)); b2 ← lift (InSamePage t (fst b + region b size - 1)); mret (negb b1 && negb b2)
       else mret false) s1 = Ok (link_protected b size prot t, s1)) as Etp.
    { unfold link_protected. destruct prot; [|done]. rewrite !(InSamePage_spec Hpage). by rewrite !(heap_bind _ _ _ _ _ (lift_ok _ _ _ eq_refl)). }
    rewrite (heap_bind _ _ _ _ _ Etp). rewrite <- app_assoc in El. cbn [app] in El.
    destruct (unlink_after s L l0 p b l2 size prot s1 n Hinv El He Hcn (Hcp l0 p eq_refl) Hsz Hle Hfw Ef1 Ew1 Hp1) as (s' & E & He' & Ht).
    exists s', n. split; [exact E|]. split; [done|]. by rewrite <- app_assoc.
Qed.
End Search.
