(* ===== verification/FreeListRequests.v ===== *)
(** * Requests to the free list

    The operations of [FreeList] from their first to their last step. *)
From S2P Require Import Prelude Utils Constants Words Exec Macros ObjectHeader BitSet FreeList FreeListInvariant FreeListSteps FreeListAllocation FreeListSearch.

Section Requests.
Context `{Target} {pages : Pages} (Hpage : page_size_ok).
#[local] Set Default Proof Using "Type".

Definition set_budget (s : Space) (n : Z) : Space := with_freelist s (with_budget (freelist_ s) n).

Lemma budget_step {A} (m : heap A) n s : (fl ← get; _ ← put (with_budget fl n); m) s = m (set_budget s n).
Proof. done. Qed.

Lemma inv_budget s L n : Inv s L -> Inv (set_budget s n) L.
Proof. intros Hinv. by apply (inv_same s). Qed.

Lemma allocated_none s L size prot : Inv s L -> allocated s L size prot 0 s L.
Proof. intros Hinv. split; try done. by left. Qed.

Lemma allocated_budget s L size prot r s' L' n : allocated s L size prot r s' L' -> allocated s L size prot r (set_budget s' n) L'.
Proof. intros [A1 A2 A3 A4 A5 A6 A7 A8]. split; try done. by apply inv_budget. Qed.

(** A block that was taken is split, and the rest goes back. *)
Lemma taken_allocated s L b n size prot s1 L1 : Inv s L -> block_ok b -> mapped (words_ s) b -> size_ok size -> size <= snd b ->
  (prot = false -> free_writable s L) -> taken s L b size prot s1 L1 -> element (words_ s1) b n ->
  exists s2 L2, SplitElementAfterAndEnqueue (fst b) size prot s1 = Ok (tt, s2) /\ allocated s L size prot (fst b) s2 L2.
Proof using Hpage.
  intros Hinv Hok Hm Hsz Hle Hf Ht He.
  destruct (SplitElement_spec Hpage s1 L1 b n size prot) as (s2 & L2 & E & Hs); try done.
  - apply Ht.
  - eapply mapped_changes; [apply Ht | done].
  - by eapply taken_separate.
  - by eapply can_write_free.
  - exists s2, L2. split; [done|]. by apply (taken_split Hpage s L b size prot s1 L1).
Qed.

(** ** The search of the last list *)

Lemma search_large_spec s L size prot : Inv s L -> size_ok size -> (prot = false -> free_writable s L) ->
  forall fuel l1 l2 previous current tries_left, list_of L kNumLists = l1 ++ l2 -> prev_is l1 previous -> chain (words_ s) current l2 ->
  1 <= Z.of_nat fuel -> tries_left + 2 <= Z.of_nat fuel ->
  exists r s' L', search_large fuel size prot previous current tries_left s = Ok (r, s') /\ allocated s L size prot r s' L'.
Proof using Hpage.
  intros Hinv Hsz Hf. induction fuel as [|fuel IH]; intros l1 l2 previous current tries_left El Hp Hc Hfl Hfu; [lia|]. cbn [search_large].
  assert (forall b, b ∈ l2 -> block_ok b /\ mapped (words_ s) b) as Hoks.
  { intros b Hb. apply (list_blocks s L kNumLists b Hinv). rewrite El. apply elem_of_app. by right. }
  destruct l2 as [|b l2].
  - cbn in Hc. subst current. exists 0, s, L. split; [done | by apply allocated_none].
  - destruct Hc as (-> & n & He & Hc). destruct (Hoks b) as [Hok Hm]; [left|]. pose proof (block_pos b Hok).
    rewrite (proj2 (Z.eqb_neq _ _)) by lia. rewrite (heap_bind _ _ _ _ _ (HeapSize_spec s b n He Hok)).
    destruct (Z.leb_spec size (snd b)) as [Hle|Hgt].
    + destruct (unlink_large_spec Hpage s L l1 b l2 previous size prot Hinv El Hp Hsz Hle Hf) as (s1 & n1 & E1 & He1 & Ht).
      rewrite (heap_bind _ _ _ _ _ E1).
      destruct (taken_allocated s L b n1 size prot s1 _ Hinv Hok Hm Hsz Hle Hf Ht He1) as (s2 & L2 & E2 & Ha).
      rewrite (heap_bind _ _ _ _ _ E2). rewrite budget_step. exists (fst b), (set_budget s2 (Z.min tries_left kInitialFreeListSearchBudget)), L2.
      split; [done | by apply allocated_budget].
    + destruct (Z.ltb_spec tries_left 0) as [Hneg|Hpos].
      * rewrite budget_step. exists 0, (set_budget s kInitialFreeListSearchBudget), L. split; [done|]. apply allocated_budget. by apply allocated_none.
      * rewrite (heap_bind _ _ _ _ _ (next_spec s b n He)). apply (IH (l1 ++ [b]) l2); try done; try lia.
        -- by rewrite El, <- app_assoc.
        -- right. by exists l1, b.
Qed.

(** ** Allocating *)

(** The lists of small blocks: the exact size, or the next larger one that is there. *)
Lemma small_index s L i : Inv s L -> 1 <= i <= kNumLists ->
  exists present next_index, (if negb (i =? kNumLists) then lift (BitSet_Test kNumLists i (free_map_ (freelist_ s))) else mret false) s = Ok (present, s) /\
    (if i + 1 <? kNumLists then lift (BitSet_Next kNumLists (i + 1) (free_map_ (freelist_ s))) else mret (-1)) s = Ok (next_index, s) /\
    (present = true -> i < kNumLists /\ list_of L i <> []) /\ (present = false -> i < kNumLists -> list_of L i = []) /\
    (next_index = -1 /\ (forall j, i < j < kNumLists -> list_of L j = []) \/ i < next_index < kNumLists /\ list_of L next_index <> []).
Proof.
  intros Hinv Hi. destruct (inv_map s L Hinv) as [Hwf Hmem].
  assert (forall j, 0 <= j < kNumLists -> member (free_map_ (freelist_ s)) j = false -> list_of L j = []) as Hemp.
  { intros j Hj Hn. destruct (list_of L j) eqn:E; [done|]. rewrite (proj2 (Hmem j Hj)) in Hn; [done | by rewrite E]. }
  exists (if i <? kNumLists then member (free_map_ (freelist_ s)) i else false).
  assert (exists r, (if i + 1 <? kNumLists then lift (BitSet_Next kNumLists (i + 1) (free_map_ (freelist_ s))) else mret (-1)) s = Ok (r, s) /\
    (r = -1 /\ (forall j, i < j < kNumLists -> list_of L j = []) \/ i < r < kNumLists /\ list_of L r <> [])) as (r & Er & Hr).
  { destruct (Z.ltb_spec (i + 1) kNumLists) as [Hlt|Hge]; [|exists (-1); split; [done | left; split; [done | lia]]].
    destruct (BitSet_Next_spec kNumLists (free_map_ (freelist_ s)) (i + 1) Hwf ltac:(lia)) as (r & Er & [[-> Hn]|(Hr & Hm & _)]); (eexists; split; [by apply lift_ok|]).
    - left. split; [done|]. intros j Hj. apply Hemp; [lia | apply Hn; lia].
    - right. assert (r < kNumLists) by (destruct (Z.lt_ge_cases r kNumLists); [done | by rewrite member_beyond in Hm]). split; [lia|]. by apply Hmem; [lia|]. }
  exists r. split_and!; [|done | | |done].
  - destruct (Z.eqb_spec i kNumLists) as [->|Hn]; cbn [negb]; [done|]. rewrite (proj2 (Z.ltb_lt _ _)) by lia. apply lift_ok. by apply BitSet_Test_spec; [|lia].
  - destruct (Z.ltb_spec i kNumLists) as [Hlt|]; [|done]. intros Hm. split; [done|]. apply Hmem; [lia | done].
  - intros Hp Hlt. rewrite (proj2 (Z.ltb_lt _ _) Hlt) in Hp. apply Hemp; [lia | done].
Qed.

(** A small block is in the list of its size. *)
Lemma small_size s L i b : Inv s L -> 0 <= i < kNumLists -> b ∈ list_of L i -> snd b = i * kObjectAlignment.
Proof.
  intros Hinv Hi Hb. destruct (list_blocks s L i b Hinv Hb) as [Hok _]. pose proof (inv_block s L Hinv i b ltac:(lia) Hb) as Ei.
  pose proof (index_small (snd b) (block_units b Hok)) as E. rewrite Ei in E. apply E. lia.
Qed.

Lemma index_size size : size_ok size -> size / kObjectAlignment * kObjectAlignment = size /\ index_of size * kObjectAlignment <= size /\
  (index_of size < kNumLists -> index_of size * kObjectAlignment = size).
Proof.
  intros [[Hs _] Hm]. pose proof (units_exact size Hm) as E. pose proof heap_words. split; [done|]. unfold index_of. split; [nia|]. intros Hi. lia.
Qed.

(** No list of small blocks has one that is large enough. *)
Definition no_small_fits (L : list (list block)) size : Prop := forall b, b ∈ concat L -> index_of (snd b) < kNumLists -> snd b < size.

Lemma none_fits s L size : Inv s L -> size_ok size -> (index_of size < kNumLists -> list_of L (index_of size) = []) ->
  (forall j, index_of size < j < kNumLists -> list_of L j = []) -> no_small_fits L size.
Proof.
  intros Hinv Hsz H1 H2 b Hb Hib. apply concat_list_of in Hb as (j & Hj & Hb). pose proof (inv_length s L Hinv) as [Hlen _].
  pose proof (inv_block s L Hinv j b ltac:(lia) Hb) as Ej. rewrite Ej in Hib. pose proof (small_size s L j b Hinv ltac:(lia) Hb) as Es.
  destruct (index_size size Hsz) as (_ & Hle & _). pose proof heap_words as (E & HW & _).
  destruct (Z.lt_trichotomy j (index_of size)) as [Hlt|[->|Hgt]]; [nia | |].
  - rewrite H1 in Hb by done. by apply elem_of_nil in Hb.
  - rewrite H2 in Hb by lia. by apply elem_of_nil in Hb.
Qed.

(** The exact fit. *)
Lemma take_exact s L size prot : Inv s L -> size_ok size -> index_of size < kNumLists -> list_of L (index_of size) <> [] ->
  exists b s1, DequeueElement (index_of size) s = Ok (fst b, s1) /\ snd b = size /\ block_ok b /\
    exists s2 L', unprotect b size prot s1 = Ok (tt, s2) /\ allocated s L size prot (fst b) s2 L'.
Proof using Hpage.
  intros Hinv Hsz Hi Hne. pose proof (index_bounds size (proj1 (proj1 Hsz))) as Hb. destruct (list_of L (index_of size)) as [|b l] eqn:El; [done|].
  assert (0 <= index_of size <= kNumLists) as Hb' by lia.
  destruct (dequeue_taken s L (index_of size) b l size Hinv Hb' El) as (s1 & n & E & Ew & He & Hok & Hm & Eb & Ht).
  assert (snd b = size) as Es.
  { rewrite (small_size s L (index_of size) b Hinv) by (lia || (rewrite El; left)). destruct (index_size size Hsz) as (_ & _ & Hx). by apply Hx. }
  exists b, s1. split; [done|]. split; [done|]. split; [done|].
  destruct (taken_unprotect Hpage s L b size prot s1 _ Ht) as (s2 & E2 & Ew2 & Ef2 & Ht2). exists s2. eexists. split; [done|].
  pose proof (split_whole Hpage s2 _ b prot (tk_inv _ _ _ _ _ _ _ Ht2)) as Hs. rewrite Es in Hs.
  eapply (taken_split Hpage s L b size prot s2); try done. lia.
Qed.

(** The next larger size. *)
Lemma take_next s L size prot i : Inv s L -> size_ok size -> index_of size < i < kNumLists -> list_of L i <> [] -> (prot = false -> free_writable s L) ->
  exists b s1 n, DequeueElement i s = Ok (fst b, s1) /\ element (words_ s1) b n /\ block_ok b /\
    exists s2, unprotect b size prot s1 = Ok (tt, s2) /\
      exists s3 L', SplitElementAfterAndEnqueue (fst b) size prot s2 = Ok (tt, s3) /\ allocated s L size prot (fst b) s3 L'.
Proof using Hpage.
  intros Hinv Hsz Hi Hne Hf. pose proof (index_bounds size (proj1 (proj1 Hsz))) as Hb. destruct (list_of L i) as [|b l] eqn:El; [done|].
  destruct (dequeue_taken s L i b l size Hinv ltac:(lia) El) as (s1 & n & E & Ew & He & Hok & Hm & Eb & Ht).
  assert (size <= snd b) as Hle.
  { rewrite (small_size s L i b Hinv) by (lia || (rewrite El; left)). destruct (index_size size Hsz) as (_ & _ & Hx). rewrite <- Hx by lia.
    pose proof heap_words. nia. }
  exists b, s1, n. split; [done|]. split; [by rewrite Ew|]. split; [done|].
  destruct (taken_unprotect Hpage s L b size prot s1 _ Ht) as (s2 & E2 & Ew2 & Ef2 & Ht2). exists s2. split; [done|].
  eapply taken_allocated; try done. rewrite Ew2, Ew. exact He.
Qed.

Lemma TryAllocateLocked_spec s L size prot : Inv s L -> size_ok size -> (prot = false -> free_writable s L) ->
  exists r s' L', TryAllocateLocked size prot s = Ok (r, s') /\ allocated s L size prot r s' L' /\ (r = 0 -> no_small_fits L size).
Proof using Hpage.
  intros Hinv Hsz Hf. pose proof (index_bounds size (proj1 (proj1 Hsz))) as Hb. unfold TryAllocateLocked.
  rewrite (heap_bind _ _ _ _ _ (IndexForSize_spec size s Hsz)). rewrite (heap_bind get _ s (freelist_ s) s eq_refl).
  destruct (small_index s L (index_of size) Hinv Hb) as (present & ni & Ep & En & Hp1 & Hp0 & Hn). rewrite (heap_bind _ _ _ _ _ Ep).
  destruct present.
  - destruct (Hp1 eq_refl) as [Hi Hne]. destruct (take_exact s L size prot Hinv Hsz Hi Hne) as (b & s1 & E1 & Es & Hok & s2 & L' & E2 & Ha).
    rewrite (heap_bind _ _ _ _ _ E1). unfold unprotect, region in E2. rewrite Es, Z.sub_diag in E2. cbn [HeaderSizeFor Z.eqb] in E2. rewrite Z.add_0_r in E2.
    rewrite (heap_bind _ _ _ _ _ E2). exists (fst b), s2, L'. split; [done|]. split; [done|].
    pose proof (block_pos b Hok). lia.
  - rewrite (heap_bind _ _ _ _ _ En). destruct Hn as [[-> Hnone]|[Hni Hne]].
    + cbn [Z.eqb Z.opp negb Pos.eqb]. destruct (list_at_spec s L kNumLists Hinv ltac:(unfold kNumLists; lia)) as (h & Eh & _ & Hc).
      rewrite (heap_bind _ _ _ _ _ Eh). cbv zeta.
      destruct (search_large_spec s L size prot Hinv Hsz Hf (S (S (S (Z.to_nat (freelist_search_budget_ (freelist_ s) + (size >> kWordSizeLog2))))))
        [] (list_of L kNumLists) 0 h (freelist_search_budget_ (freelist_ s) + (size >> kWordSizeLog2))) as (r & s' & L' & E & Ha); try done; try lia; [by left|].
      exists r, s', L'. split; [done|]. split; [done|]. intros _. by apply (none_fits s); auto.
    + rewrite (proj2 (Z.eqb_neq ni (-1))) by lia. cbn [negb].
      destruct (take_next s L size prot ni Hinv Hsz Hni Hne Hf) as (b & s1 & n & E1 & He1 & Hok & s2 & E2 & s3 & L' & E3 & Ha).
      rewrite (heap_bind _ _ _ _ _ E1). unfold unprotect in E2.
      assert ((if prot then element_size ← HeapSize (fst b); let remainder_size := element_size - size in
             let region_size := size + HeaderSizeFor remainder_size in Protect (fst b) region_size kReadWrite else mret tt) s1 = Ok (tt, s2)) as E2'.
      { destruct prot; [|done]. by rewrite (heap_bind _ _ _ _ _ (HeapSize_spec s1 b n He1 Hok)). }
      rewrite (heap_bind _ _ _ _ _ E2'), (heap_bind _ _ _ _ _ E3). exists (fst b), s3, L'. split; [done|]. split; [done|].
      pose proof (block_pos b Hok). lia.
Qed.

Lemma TryAllocateSmallLocked_spec s L size : Inv s L -> size_ok size -> free_writable s L ->
  exists r s' L', TryAllocateSmallLocked size s = Ok (r, s') /\ allocated s L size false r s' L' /\ (r = 0 -> no_small_fits L size).
Proof using Hpage.
  intros Hinv Hsz Hf. pose proof (index_bounds size (proj1 (proj1 Hsz))) as Hb. unfold TryAllocateSmallLocked.
  rewrite (heap_bind get _ s (freelist_ s) s eq_refl). destruct (index_size size Hsz) as (_ & Hle & Hex). pose proof heap_words as (Ea & HW & _).
  destruct (Z.ltb_spec (last_free_small_size_ (freelist_ s)) size) as [Hlast|Hlast].
  - exists 0, s, L. split; [done|]. split; [by apply allocated_none|]. intros _ b Hc Hi.
    apply concat_list_of in Hc as (j & Hj & Hbj). pose proof (inv_length s L Hinv) as [Hlen _].
    pose proof (inv_block s L Hinv j b ltac:(lia) Hbj) as Ej. rewrite Ej in Hi. rewrite (small_size s L j b Hinv ltac:(lia) Hbj).
    pose proof (inv_last s L Hinv j ltac:(lia)) as Hl. assert (list_of L j <> []) as Hne by (intros E; rewrite E in Hbj; by apply elem_of_nil in Hbj).
    specialize (Hl Hne). lia.
  - rewrite (heap_bind _ _ _ _ _ (IndexForSize_spec size s Hsz)).
    destruct (small_index s L (index_of size) Hinv Hb) as (present & ni & Ep & En & Hp1 & Hp0 & Hn). rewrite (heap_bind _ _ _ _ _ Ep).
    destruct present.
    + destruct (Hp1 eq_refl) as [Hi Hne]. destruct (take_exact s L size false Hinv Hsz Hi Hne) as (b & s1 & E1 & Es & Hok & s2 & L' & E2 & Ha).
      injection E2 as ->. exists (fst b), s2, L'. split; [done|]. split; [done|]. pose proof (block_pos b Hok). lia.
    + rewrite (heap_bind _ _ _ _ _ En). destruct Hn as [[-> Hnone]|[Hni Hne]].
      * cbn [Z.eqb Z.opp negb Pos.eqb]. exists 0, s, L. split; [done|]. split; [by apply allocated_none|]. intros _. by apply (none_fits s); auto.
      * rewrite (proj2 (Z.eqb_neq ni (-1))) by lia. cbn [negb].
        destruct (take_next s L size false ni Hinv Hsz Hni Hne ltac:(done)) as (b & s1 & n & E1 & He1 & Hok & s2 & E2 & s3 & L' & E3 & Ha).
        injection E2 as ->. rewrite (heap_bind _ _ _ _ _ E1), (heap_bind _ _ _ _ _ E3). exists (fst b), s3, L'. split; [done|]. split; [done|].
        pose proof (block_pos b Hok). lia.
Qed.

(** A whole block of the last list. *)
Lemma unlink_simple s L l1 b l2 previous n : Inv s L -> free_writable s L -> list_of L kNumLists = l1 ++ b :: l2 -> prev_is l1 previous ->
  element (words_ s) b n ->
  exists s', (if previous =? 0 then set_list kNumLists n else set_next previous n) s = Ok (tt, s') /\
    taken s L b (snd b) false s' (<[Z.to_nat kNumLists := l1 ++ l2]> L) /\ element (words_ s') b n.
Proof using Hpage.
  intros Hinv Hf El Hp He. assert (b ∈ list_of L kNumLists) as Hb by (rewrite El; apply elem_of_app; right; left).
  destruct (list_blocks s L kNumLists b Hinv Hb) as [Hok Hm].
  destruct (unlink_large_spec Hpage s L l1 b l2 previous (snd b) false Hinv El Hp (block_size_ok b Hok) ltac:(lia) ltac:(done)) as (s' & n' & E & He' & Ht).
  exists s'. split; [|split; [done|]].
  - rewrite <- E. unfold unlink_large. rewrite (heap_bind _ _ _ _ _ (HeapSize_spec s b n He Hok)). cbv zeta.
    rewrite (heap_bind (mret tt) _ s tt s eq_refl), (heap_bind _ _ _ _ _ (next_spec s b n He)). destruct (previous =? 0); [done|].
    rewrite (heap_bind (mret false) _ s false s eq_refl). unfold mbind, M_bind. cbn. by destruct (set_next previous n s) as [[[] ?]|].
  - eapply element_agree; [done| |exact He]. intros x Hx. apply (changes_other _ _ _ (tk_words _ _ _ _ _ _ _ Ht)).
    pose proof (taken_separate _ _ _ _ _ _ _ Hinv Ht x) as Hs. cbn in Hs. rewrite Hx in Hs. cbn in Hs. lia.
Qed.

(** The result of [TryAllocateLargeLocked]: a block of its own size. *)
Lemma take_large_spec s L minimum_size : Inv s L -> free_writable s L ->
  forall fuel l1 l2 previous current tries_left, list_of L kNumLists = l1 ++ l2 -> prev_is l1 previous -> chain (words_ s) current l2 ->
  1 <= Z.of_nat fuel -> tries_left + 2 <= Z.of_nat fuel ->
  exists r s' L', take_large fuel minimum_size previous current tries_left s = Ok (r, s') /\
    ((r = 0 /\ allocated s L minimum_size false 0 s' L') \/
     exists size n, minimum_size <= size /\ allocated s L size false r s' L' /\ element (words_ s') (r, size) n /\ r <> 0).
Proof using Hpage.
  intros Hinv Hf. induction fuel as [|fuel IH]; intros l1 l2 previous current tries_left El Hp Hc Hfl Hfu; [lia|]. cbn [take_large].
  assert (forall b, b ∈ l2 -> block_ok b /\ mapped (words_ s) b) as Hoks.
  { intros b Hb. apply (list_blocks s L kNumLists b Hinv). rewrite El. apply elem_of_app. by right. }
  destruct l2 as [|b l2].
  - cbn in Hc. subst current. exists 0, s, L. split; [done|]. left. split; [done | by apply allocated_none].
  - destruct Hc as (-> & n & He & Hc). destruct (Hoks b) as [Hok Hm]; [left|]. pose proof (block_pos b Hok).
    rewrite (proj2 (Z.eqb_neq _ _)) by lia. rewrite (heap_bind _ _ _ _ _ (next_spec s b n He)), (heap_bind _ _ _ _ _ (HeapSize_spec s b n He Hok)).
    destruct (Z.leb_spec minimum_size (snd b)) as [Hle|Hgt].
    + destruct (unlink_simple s L l1 b l2 previous n Hinv Hf El Hp He) as (s1 & E1 & Ht & He1). rewrite (heap_bind _ _ _ _ _ E1), budget_step.
      eexists _, _, _. split; [reflexivity|]. right. exists (snd b), n. split; [done|]. split; [|split; [by destruct b | lia]].
      apply allocated_budget. eapply (taken_split Hpage s L b (snd b) false s1); try done; [by apply block_size_ok|].
      apply (split_whole Hpage). apply Ht.
    + destruct (Z.ltb_spec tries_left 0) as [Hneg|Hpos].
      * rewrite budget_step. exists 0, (set_budget s kInitialFreeListSearchBudget), L. split; [done|]. left. split; [done|]. apply allocated_budget. by apply allocated_none.
      * apply (IH (l1 ++ [b]) l2); try done; try lia; [by rewrite El, <- app_assoc | right; by exists l1, b].
Qed.

Lemma TryAllocateLargeLocked_spec s L minimum_size : Inv s L -> free_writable s L ->
  exists r s' L', TryAllocateLargeLocked minimum_size s = Ok (r, s') /\
    ((r = 0 /\ allocated s L minimum_size false 0 s' L') \/
     exists size n, minimum_size <= size /\ allocated s L size false r s' L' /\ element (words_ s') (r, size) n /\ r <> 0).
Proof using Hpage.
  intros Hinv Hf. unfold TryAllocateLargeLocked. destruct (list_at_spec s L kNumLists Hinv ltac:(unfold kNumLists; lia)) as (h & Eh & _ & Hc).
  rewrite (heap_bind _ _ _ _ _ Eh). rewrite (heap_bind get _ s (freelist_ s) s eq_refl). cbv zeta.
  apply (take_large_spec s L minimum_size Hinv Hf _ [] (list_of L kNumLists)); try done; try lia. by left.
Qed.

(** ** Freeing *)

Lemma FreeLocked_spec s L b : Inv s L -> block_ok b -> mapped (words_ s) b -> separate (b :: regions (freelist_ s) L) ->
  can_write s (fst b) (HeaderSizeFor (snd b)) ->
  exists s' L', FreeLocked (fst b) (snd b) s = Ok (tt, s') /\ added s L b s' L'.
Proof.
  intros Hinv Hok Hm Hsep Hw. destruct (add_block s L b Hinv Hok Hm Hsep Hw) as (s1 & s2 & L' & E1 & E2 & Ha).
  exists s2, L'. split; [|done]. unfold FreeLocked. by rewrite (heap_bind _ _ _ _ _ (IndexForSize_spec _ s (block_size_ok b Hok))), (heap_bind _ _ _ _ _ E1).
Qed.

Lemma Reset_spec s : top_ (freelist_ s) = end_ (freelist_ s) ->
  exists s', Reset s = Ok (tt, s') /\ words_ s' = words_ s /\ writable_ s' = writable_ s /\
    Inv s' (replicate (Z.to_nat (kNumLists + 1)) []) /\ regions (freelist_ s') (replicate (Z.to_nat (kNumLists + 1)) []) = [].
Proof.
  intros Ht. eexists. split; [reflexivity|]. cbn [freelist_ words_ writable_]. split; [done|]. split; [done|].
  assert (forall i, list_of (replicate (Z.to_nat (kNumLists + 1)) ([] : list block)) i = []) as Hl.
  { intros i. unfold list_of. destruct (_ !! _) as [l|] eqn:E; [|done]. by apply lookup_replicate in E as [-> _]. }
  assert (concat (replicate (Z.to_nat (kNumLists + 1)) ([] : list block)) = []) as Hc by done.
  destruct (BitSet_Reset_spec kNumLists ltac:(done)) as [Hwf Hmem].
  set (fl := with_lists _ _). assert (bump fl = []) as Eb by (unfold bump; cbn; by rewrite Ht, Z.ltb_irrefl).
  assert (regions fl (replicate (Z.to_nat (kNumLists + 1)) []) = []) as Er by (unfold regions; by rewrite Eb, Hc).
  split; [|done]. split; cbn [freelist_ words_]; rewrite ?Er; try done.
  - intros i Hi. exists 0. rewrite Hl. split; [|done]. apply lookup_replicate_2. unfold kNumLists in *. lia.
  - intros i b _ Hb. rewrite Hl in Hb. by apply elem_of_nil in Hb.
  - by intros b Hb%elem_of_nil.
  - split; [done|]. intros i Hi. rewrite Hl. cbn [with_lists with_map free_map_]. by rewrite Hmem.
  - intros i _. by rewrite Hl.
Qed.
End Requests.
