(* ===== verification/FreeListClient.v ===== *)
(** * The bump region

    Allocation from the bump region, and giving it back. *)
From S2P Require Import Prelude Utils Constants Words Exec Macros ObjectHeader BitSet FreeList FreeListInvariant.
From S2P Require Import FreeListSteps FreeListAllocation FreeListSearch FreeListRequests.

Section Bump.
Context `{Target} {pages : Pages} (Hpage : page_size_ok).
#[local] Set Default Proof Using "Type".

(** The region changes, and with it words outside of the blocks. *)
Lemma inv_rebump P s s' L : Inv s L -> free_lists_ (freelist_ s') = free_lists_ (freelist_ s) ->
  free_map_ (freelist_ s') = free_map_ (freelist_ s) -> last_free_small_size_ (freelist_ s') = last_free_small_size_ (freelist_ s) ->
  changes P (words_ s) (words_ s') -> (forall b x, b ∈ concat L -> within b x = true -> ~ P x) ->
  (forall b, b ∈ bump (freelist_ s') -> block_ok b /\ mapped (words_ s') b) -> separate (regions (freelist_ s') L) -> Inv s' L.
Proof.
  intros [In Ic Ib Io Is Im Il Ilm] E1 E2 E3 Hc Hp Hb Hs. split; rewrite ?E1, ?E2, ?E3; try done.
  - intros i Hi. destruct (Ic i Hi) as (h & Hh & Hch). exists h. split; [done|]. apply (chain_agree (words_ s)); [| |done].
    + intros b Hbi. by apply (Io b), (in_regions _ _ i).
    + intros b x Hbi Hx. apply (changes_other _ _ _ Hc). apply (Hp b); [by eapply list_of_concat | done].
  - intros b [Hbb|Hbc]%elem_of_app; [by apply Hb|]. destruct (Io b) as [Hok Hm]; [apply elem_of_app; by right|].
    split; [done | by eapply mapped_changes].
Qed.

Lemma bump_some fl : top_ fl < end_ fl -> bump fl = [(top_ fl, end_ fl - top_ fl)].
Proof. intros Ht. unfold bump. by rewrite (proj2 (Z.ltb_lt _ _)). Qed.
Lemma bump_none fl : end_ fl <= top_ fl -> bump fl = [].
Proof. intros Ht. unfold bump. by rewrite (proj2 (Z.ltb_ge _ _)). Qed.

(** The region is aligned, also when it is empty. *)
Definition bump_ok (fl : FreeList) : Prop :=
  0 <= top_ fl <= end_ fl /\ end_ fl <= 2 ^ XLEN - 1 /\ top_ fl mod kObjectAlignment = 0 /\ end_ fl mod kObjectAlignment = 0.

(** Allocating [size] bytes at the top of the region. *)
Definition bumped (s : Space) (size : Z) : Space :=
  with_freelist s (with_bump (freelist_ s) (top_ (freelist_ s) + size) (end_ (freelist_ s)) (unaccounted_size_ (freelist_ s) + size)).

Lemma cover_bump fl L x : top_ fl <= end_ fl -> cover (regions fl L) x = Z.b2z (within (top_ fl, end_ fl - top_ fl) x) + cover (concat L) x.
Proof.
  intros Ht. unfold regions. rewrite cover_app. f_equal. destruct (Z.lt_ge_cases (top_ fl) (end_ fl)) as [Hl|Hl].
  - rewrite bump_some by done. cbn. lia.
  - rewrite bump_none by done. cbn. assert (within (top_ fl, end_ fl - top_ fl) x = false) as ->; [|done].
    apply not_true_iff_false. rewrite within_range. cbn. lia.
Qed.

Lemma bumped_ok s L size : Inv s L -> bump_ok (freelist_ s) -> size_ok size -> size <= end_ (freelist_ s) - top_ (freelist_ s) ->
  Inv (bumped s size) L /\ bump_ok (freelist_ (bumped s size)) /\ block_ok (top_ (freelist_ s), size) /\ mapped (words_ s) (top_ (freelist_ s), size) /\
  forall x, cover (regions (freelist_ s) L) x = cover (regions (freelist_ (bumped s size)) L) x + Z.b2z (within (top_ (freelist_ s), size) x).
Proof.
  intros Hinv (Ht & He & Ha & Hae) [Hsz Hsm] Hle. pose proof heap_words as (E & HW & _). set (fl := freelist_ s) in *.
  destruct (inv_ok s L Hinv (top_ fl, end_ fl - top_ fl)) as [[Bp Ba Bs Bu Be] Hm]; [apply elem_of_app; left; fold fl; rewrite bump_some by lia; left|].
  cbn [fst snd] in *.
  assert (forall x, cover (regions fl L) x = cover (regions (freelist_ (bumped s size)) L) x + Z.b2z (within (top_ fl, size) x)) as Hcov.
  { intros x. rewrite (cover_bump fl) by lia. rewrite (cover_bump (freelist_ (bumped s size))) by (cbn; fold fl; lia). change (top_ (freelist_ (bumped s size))) with (top_ fl + size).
    change (end_ (freelist_ (bumped s size))) with (end_ fl). pose proof (within_split (top_ fl) (end_ fl - top_ fl) size x ltac:(lia)) as Es.
    replace (end_ fl - (top_ fl + size)) with (end_ fl - top_ fl - size) by lia. lia. }
  assert ((top_ fl + size) mod kObjectAlignment = 0) as Ha' by (rewrite Z.add_mod, Ha, Hsm by lia; by rewrite Z.mod_0_l by lia).
  assert (mapped (words_ s) (top_ fl, size)) as Hmt by (intros x Hx Hw; apply Hm; [rewrite within_range in *; cbn in *; lia | done]).
  split; [|split; [|split; [|by split]]].
  - apply (inv_rebump (fun _ => False) s); try done; [by intros ? ? ? ? [] | |].
    + intros b Hb. unfold bump in Hb. cbn [bumped freelist_ with_freelist with_bump top_ end_] in Hb. fold fl in Hb.
      destruct (Z.ltb_spec (top_ fl + size) (end_ fl)) as [Hl|]; [|by apply elem_of_nil in Hb]. apply list_elem_of_singleton in Hb as ->. split.
      * pose proof (units_exact _ Ha') as U1. pose proof (units_exact _ Hae) as U2. split; cbn [fst snd]; [lia | done | | | lia].
        -- split; [|lia]. assert ((top_ fl + size) / kObjectAlignment + 1 <= end_ fl / kObjectAlignment) by nia. nia.
        -- rewrite Zminus_mod, Hae, Ha'. by rewrite Z.mod_0_l by lia.
      * intros x Hx Hw. apply Hm; [|done]. rewrite within_range in *. cbn in *. lia.
    + intros x. pose proof (inv_sep s L Hinv x) as Hs. fold fl in Hs. rewrite Hcov in Hs. destruct (within (top_ fl, size) x); cbn [Z.b2z] in Hs; lia.
  - unfold bump_ok. change (top_ (freelist_ (bumped s size))) with (top_ fl + size). change (end_ (freelist_ (bumped s size))) with (end_ fl).
    split; [lia|]. by split.
  - split; cbn [fst snd]; (done || lia).
Qed.

(** ** The operations on lists do not look at the region *)

Definition rebump (s : Space) (top end' unaccounted : Z) : Space := with_freelist s (with_bump (freelist_ s) top end' unaccounted).
Definition commutes {A} (m : heap A) : Prop := forall s t e u,
  m (rebump s t e u) = match m s with Ok (a, s') => Ok (a, rebump s' t e u) | Err err => Err err end.

Lemma commutes_bind {A B} (m : heap A) (f : A -> heap B) : commutes m -> (forall a, commutes (f a)) -> commutes (m ≫= f).
Proof. intros Hm Hf s t e u. unfold mbind, M_bind. rewrite Hm. destruct (m s) as [[a s']|err]; [apply Hf | done]. Qed.
Lemma commutes_mret {A} (a : A) : commutes (mret a).
Proof. done. Qed.
Lemma commutes_lift {A} (r : result A) : commutes (lift r).
Proof. intros s t e u. by destruct r. Qed.
Lemma commutes_store a v : commutes (store a v).
Proof. intros s t e u. unfold store. cbn. destruct (words_ s !! a); [|done]. by destruct (writable_ s (a / PageSize)). Qed.
Lemma commutes_list_at i : commutes (list_at i).
Proof. intros s t e u. unfold list_at, mbind, M_bind, get, lift. cbn. by destruct (word_at (free_lists_ (freelist_ s)) i). Qed.
Lemma commutes_set_list i h : commutes (set_list i h).
Proof. done. Qed.

Lemma commutes_FreeLocked a sz : commutes (FreeLocked a sz).
Proof.
  assert (forall b, commutes (check b)) as Hck by (intros b; apply commutes_lift).
  assert (forall i, commutes (fl ← get; m ← lift (BitSet_Set kNumLists i true (free_map_ fl));
         put (with_map fl m (Z.max (last_free_small_size_ fl) (i << kObjectAlignmentLog2))))) as Hmap.
  { intros i s t e u. unfold mbind, M_bind, get, lift. cbn. by destruct (BitSet_Set kNumLists i true (free_map_ (freelist_ s))). }
  assert (commutes (IndexForSize sz)) as Hi by (repeat (apply commutes_bind; [apply Hck | intros _]); apply commutes_mret).
  assert (commutes (AsElement a sz)) as Ha.
  { repeat (apply commutes_bind; [apply Hck | intros _]). apply commutes_bind; [apply commutes_lift | intros tags].
    apply commutes_bind; [apply commutes_store | intros _]. apply commutes_bind; [by destruct (_ <? _); [apply commutes_store | apply commutes_mret] | intros _].
    apply commutes_bind; [apply commutes_store | intros _]. apply commutes_mret. }
  apply commutes_bind; [done | intros i]. apply commutes_bind; [done | intros el]. apply commutes_bind; [apply commutes_list_at | intros head].
  apply commutes_bind; [by destruct (_ && _); [apply Hmap | apply commutes_mret] | intros _].
  apply commutes_bind; [apply commutes_store | intros _]. apply commutes_set_list.
Qed.

(** Without its region the free list is a free list. *)
Lemma inv_no_bump s L u : Inv s L -> Inv (rebump s 0 0 u) L.
Proof.
  intros Hinv. apply (inv_rebump (fun _ => False) s); try done; [by intros ? ? ? ? [] | by intros ? ?%elem_of_nil |].
  intros x. pose proof (inv_sep s L Hinv x) as Hs. unfold regions in Hs. rewrite cover_app in Hs.
  pose proof (cover_nonneg (bump (freelist_ s)) x). change (cover (concat L) x <= 1). lia.
Qed.

Lemma rebump_twice s t e u t' e' u' : rebump (rebump s t e u) t' e' u' = rebump s t' e' u'.
Proof. done. Qed.

(** The region is freed: the blocks are those of a free list without a region. *)
Lemma free_bump s L : let fl := freelist_ s in Inv s L -> free_writable s L -> top_ fl < end_ fl ->
  exists s' L', FreeLocked (top_ fl) (end_ fl - top_ fl) s = Ok (tt, rebump s' (top_ fl) (end_ fl) (unaccounted_size_ fl)) /\
    bump (freelist_ s') = [] /\ Inv s' L' /\ (forall x, cover (concat L') x = cover (regions fl L) x) /\
    changes (fun x => within (top_ fl, end_ fl - top_ fl) x = true) (words_ s) (words_ s') /\ writable_ s' = writable_ s.
Proof.
  intros fl Hinv Hf Ht. set (b := (top_ fl, end_ fl - top_ fl)). set (u := unaccounted_size_ fl).
  assert (b ∈ regions fl L) as Hb by (apply elem_of_app; left; rewrite bump_some by done; left). destruct (inv_ok s L Hinv b Hb) as [Hok Hm].
  assert (forall x, cover (regions fl L) x = Z.b2z (within b x) + cover (concat L) x) as Hc by (intros x; apply cover_bump; lia).
  destruct (FreeLocked_spec (rebump s 0 0 u) L b (inv_no_bump s L u Hinv) Hok Hm) as (s' & L' & E & [A1 A2 A3 A4 A5]).
  - intros x. pose proof (inv_sep s L Hinv x) as Hs. fold fl in Hs. rewrite Hc in Hs. exact Hs.
  - intros x Hx. cbn [writable_ rebump with_freelist]. apply Hf. fold fl. rewrite Hc. pose proof (cover_nonneg (concat L) x).
    assert (within b x = true) as ->; [|cbn; lia]. apply within_range. pose proof (header_size (snd b)) as Eh.
    destruct heap_words as (Ea & HW & Em & _). pose proof (block_size b Hok). rewrite Eh in Hx by lia. destruct (Z.ltb_spec kMaxSizeTag (snd b)); lia.
  - exists s', L'. destruct A2 as (B1 & B2 & _). assert (bump (freelist_ s') = []) as Eb by (unfold bump; by rewrite B1, B2). split_and!; try done.
    + pose proof (commutes_FreeLocked (fst b) (snd b) (rebump s 0 0 u) (top_ fl) (end_ fl) u) as Hcm.
      rewrite E in Hcm. rewrite <- Hcm. f_equal. by destruct s as [[] w p].
    + intros x. specialize (A3 x). unfold regions in A3. rewrite Eb in A3. cbn [app] in A3. rewrite A3. fold fl. rewrite Hc.
      change (bump (freelist_ (rebump s 0 0 u))) with (@nil block). cbn [app]. lia.
Qed.
End Bump.

(** * What the free list promises to its clients

    The contract of an allocation of data, whose pages are always writable, and that every way
    to allocate keeps it; what freeing the bump region and making it iterable do. *)

Section Client.
Context `{Target} {pages : Pages} (Hpage : page_size_ok).
#[local] Set Default Proof Using "Type".

Record ready s L : Prop := {
  ready_inv : Inv s L;
  ready_bump : bump_ok (freelist_ s);
  ready_writable : free_writable s L
}.

(** An allocation may map new memory, the bytes of [N]; those that it does not hand out are
    free.  Only free and new words change. *)
Record serves s L (N : Z -> bool) size r s' L' : Prop := {
  sv_ready : ready s' L';
  sv_new : forall x, N x = true -> words_ s !! (x / kWordSize * kWordSize) = None;
  sv_cover : forall x, cover (regions (freelist_ s) L) x + Z.b2z (N x) =
    cover (regions (freelist_ s') L') x + Z.b2z (negb (r =? 0) && within (r, size) x);
  sv_block : r <> 0 -> block_ok (r, size) /\ mapped (words_ s') (r, size) /\
    forall x, within (r, size) x = true -> writable_ s' (x / PageSize) = true;
  sv_words : changes (fun x => 0 < cover (regions (freelist_ s) L) x \/ words_ s !! x = None) (words_ s) (words_ s');
  sv_writable : forall p, writable_ s p = true -> writable_ s' p = true
}.

(** [m] is a way to allocate [size] bytes. *)
Definition allocator size (m : heap Z) : Prop := forall s L, ready s L ->
  exists r s' L' N, m s = Ok (r, s') /\ serves s L N size r s' L'.

Definition nothing (_ : Z) : bool := false.

Lemma serves_none s L size : ready s L -> serves s L nothing size 0 s L.
Proof. by intros Hr. Qed.

Lemma serves_zero s L N n m s' L' : serves s L N n 0 s' L' -> serves s L N m 0 s' L'.
Proof. intros [A1 A2 A3 A4 A5 A6]. by split. Qed.

Lemma serves_trans s L s1 L1 N size r s' L' : serves s L nothing size 0 s1 L1 -> serves s1 L1 N size r s' L' -> serves s L N size r s' L'.
Proof.
  intros [_ _ A3 _ A5 A6] [B1 B2 B3 B4 B5 B6].
  assert (forall x, words_ s1 !! x = None -> words_ s !! x = None) as Hn.
  { intros x Hx. destruct (words_ s !! x) eqn:E; [|done]. destruct (changes_mapped _ _ _ A5 x) as [v Hv]; [by eexists | by rewrite Hx in Hv]. }
  cbn [nothing Z.eqb negb andb Z.b2z] in A3. split; try done.
  - intros x Hx. by apply Hn, B2.
  - intros x. specialize (A3 x). specialize (B3 x). lia.
  - eapply changes_trans; [done|]. eapply changes_mono; [|exact B5]. intros x [Hx|Hx]; [left; specialize (A3 x); lia | right; auto].
  - auto.
Qed.

(** An allocation and then a change of the free space. *)
Lemma serves_after s L size r s1 L1 n s2 L2 : serves s L nothing size r s1 L1 -> serves s1 L1 nothing n 0 s2 L2 -> serves s L nothing size r s2 L2.
Proof.
  intros [A1 _ A3 A4 A5 A6] [B1 _ B3 _ B5 B6]. cbn [nothing Z.eqb negb andb Z.b2z] in A3, B3. split; try done.
  - intros x. specialize (A3 x). specialize (B3 x). cbn [nothing Z.b2z]. lia.
  - intros Hr. destruct (A4 Hr) as (Hok & Hm & Hw). split_and!; [done | by eapply mapped_changes | auto].
  - eapply changes_trans; [done|]. eapply changes_mono; [|exact B5]. intros x [Hx|Hx].
    + left. specialize (A3 x). destruct (_ && _) in A3; cbn in A3; lia.
    + right. destruct (words_ s !! x) eqn:E; [|done]. destruct (changes_mapped _ _ _ A5 x) as [v Hv]; [by eexists | by rewrite Hx in Hv].
  - auto.
Qed.

(** ** Allocation from the lists *)

Lemma free_writable_mono s L s' L' : free_writable s L -> (forall x, cover (regions (freelist_ s') L') x <= cover (regions (freelist_ s) L) x) ->
  (forall p, writable_ s' p = writable_ s p) -> free_writable s' L'.
Proof. intros Hf Hc Hw x Hx. rewrite Hw. apply Hf. specialize (Hc x). lia. Qed.

Lemma allocated_serves s L size r s' L' : ready s L -> allocated s L size false r s' L' -> serves s L nothing size r s' L'.
Proof.
  intros [_ Rb Rw] [A1 A2 A3 A4 A5 A6 _ _]. specialize (A6 eq_refl).
  assert (forall x, cover (regions (freelist_ s) L) x = cover (regions (freelist_ s') L') x + Z.b2z (negb (r =? 0) && within (r, size) x)) as Hc.
  { intros x. destruct (Z.eqb_spec r 0) as [Hr|Hr]; cbn [negb andb]; [rewrite (A3 Hr); cbn; lia|]. apply A4, Hr. }
  assert (forall x, cover (regions (freelist_ s') L') x <= cover (regions (freelist_ s) L) x) as Hle.
  { intros x. rewrite Hc. destruct (_ && _); cbn; lia. }
  split; try done.
  - split; [done | by unfold bump_ok; destruct A2 as [-> ->] | by eapply free_writable_mono].
  - intros x. rewrite Hc. cbn. lia.
  - intros Hr. destruct (A4 Hr) as (Hok & Hm & _). split_and!; try done. intros x Hx. rewrite A6. apply Rw. rewrite Hc, Hx.
    rewrite (proj2 (Z.eqb_neq _ _)) by done. pose proof (cover_nonneg (regions (freelist_ s') L') x). cbn [negb andb Z.b2z]. lia.
  - eapply changes_mono; [|exact A5]. intros x Hx. cbn beta in Hx. left. specialize (Hle x). lia.
  - intros p. by rewrite A6.
Qed.

Lemma TryAllocateLocked_allocator size : size_ok size -> allocator size (TryAllocateLocked size false).
Proof using Hpage.
  intros Hsz s L Hr. destruct (TryAllocateLocked_spec Hpage s L size false (ready_inv _ _ Hr) Hsz (fun _ => ready_writable _ _ Hr))
    as (r & s' & L' & E & Ha & _).
  exists r, s', L', nothing. split; [done | by apply allocated_serves].
Qed.

Lemma TryAllocateSmallLocked_serves s L size : size_ok size -> ready s L ->
  exists r s' L', TryAllocateSmallLocked size s = Ok (r, s') /\ serves s L nothing size r s' L'.
Proof using Hpage.
  intros Hsz Hr. destruct (TryAllocateSmallLocked_spec Hpage s L size (ready_inv _ _ Hr) Hsz (ready_writable _ _ Hr)) as (r & s' & L' & E & Ha & _).
  exists r, s', L'. split; [done | by apply allocated_serves].
Qed.

(** ** Allocation from the bump region *)

Lemma bumped_serves s L size : ready s L -> size_ok size -> size <= end_ (freelist_ s) - top_ (freelist_ s) ->
  serves s L nothing size (top_ (freelist_ s)) (bumped s size) L /\ uintx (top_ (freelist_ s) + size) = top_ (freelist_ s) + size.
Proof.
  intros [Ri Rb Rw] Hsz Hle. destruct (bumped_ok s L size Ri Rb Hsz Hle) as (Hi & Hb & Hok & Hm & Hc).
  pose proof (block_pos _ Hok) as Hp. pose proof (block_end _ Hok) as He. cbn [fst snd] in *. destruct Hsz as [Hs _]. pose proof heap_words.
  split; [|apply uintx_small; lia]. split; try done.
  - split; [done | done |]. eapply free_writable_mono; [done | | done]. intros x. rewrite Hc. destruct (within _ x); cbn; lia.
  - intros x. rewrite Hc, (proj2 (Z.eqb_neq _ _)) by lia. cbn. lia.
  - intros _. split_and!; try done. intros x Hx. apply Rw. rewrite Hc, Hx. pose proof (cover_nonneg (regions (freelist_ (bumped s size)) L) x).
    cbn [Z.b2z]. lia.
Qed.

Lemma TryAllocateBumpLocked_serves s L size : ready s L -> size_ok size -> top_ (freelist_ s) + size < 2 ^ XLEN ->
  exists r s', TryAllocateBumpLocked size s = Ok (r, s') /\ serves s L nothing size r s' L /\ (r = 0 -> s' = s /\ end_ (freelist_ s) - top_ (freelist_ s) < size).
Proof.
  intros Hr Hsz Hb. pose proof (ready_bump _ _ Hr) as (Ht & _). destruct Hsz as [Hs Hm] eqn:Esz. pose proof heap_words as (Ea & HW & _).
  assert (TryAllocateBumpLocked size s = (if uintx (top_ (freelist_ s) + size) <=? end_ (freelist_ s)
    then Ok (top_ (freelist_ s), rebump s (uintx (top_ (freelist_ s) + size)) (end_ (freelist_ s)) (unaccounted_size_ (freelist_ s) + size)) else Ok (0, s))) as E.
  { unfold TryAllocateBumpLocked, mbind, M_bind. cbn. by destruct (_ <=? _). }
  rewrite uintx_small in E by lia. destruct (Z.leb_spec (top_ (freelist_ s) + size) (end_ (freelist_ s))) as [Hl|Hl].
  - destruct (bumped_serves s L size Hr Hsz ltac:(lia)) as [Hv _]. eexists _, _. split; [exact E|]. split; [done|].
    intros E0. pose proof (inv_ok _ _ (ready_inv _ _ Hr) (top_ (freelist_ s), end_ (freelist_ s) - top_ (freelist_ s))) as Hin. destruct Hin as [Hok _].
    { apply elem_of_app. left. rewrite bump_some by lia. left. } pose proof (block_pos _ Hok) as Hp. cbn in Hp. lia.
  - exists 0, s. split; [done|]. split; [by apply serves_none|]. intros _. split; [done | lia].
Qed.

(** The first word of the region is cleared. *)
Lemma clear_top s L : ready s L -> top_ (freelist_ s) < end_ (freelist_ s) ->
  exists s', store (top_ (freelist_ s)) 0 s = Ok (tt, s') /\ serves s L nothing 0 0 s' L /\ freelist_ s' = freelist_ s /\
    changes (fun x => x = top_ (freelist_ s)) (words_ s) (words_ s') /\ writable_ s' = writable_ s.
Proof.
  intros [Ri Rb Rw] Hl. set (fl := freelist_ s) in *. set (b := (top_ fl, end_ fl - top_ fl)).
  assert (b ∈ regions fl L) as Hin by (apply elem_of_app; left; rewrite bump_some by done; left).
  destruct (inv_ok s L Ri b Hin) as [Hok Hm]. destruct (header_within b Hok) as (Hw & _). cbn [fst b] in Hw.
  assert (0 < cover (regions fl L) (top_ fl)) as Hcov by (pose proof (cover_in _ b _ Hin Hw); lia).
  destruct (Hm (top_ fl) Hw) as [v Ev].
  { pose proof (block_words (top_ fl) 0) as Hal. rewrite Z.mul_0_l, Z.add_0_r in Hal. apply Hal. apply Rb. }
  unfold store. rewrite Ev, (Rw _ Hcov). eexists. split; [reflexivity|]. cbn [freelist_ words_ writable_].
  assert (changes (fun x => x = top_ fl) (words_ s) (<[top_ fl := 0]> (words_ s))) as Hch by by apply changes_insert.
  split; [|done]. split; try done.
  - split; [|done|done]. apply (inv_rebump (fun x => x = top_ fl) s); try done.
    + intros b' x Hb' Hx ->. pose proof (inv_sep s L Ri (top_ fl)) as Hs. unfold regions in Hs. rewrite bump_some in Hs by done.
      cbn [app cover] in Hs. fold fl b in Hs. rewrite Hw in Hs. pose proof (cover_in _ _ _ Hb' Hx). cbn in Hs. lia.
    + intros b' Hb'. destruct (inv_ok s L Ri b') as [H1 H2]; [apply elem_of_app; by left|]. split; [done | by eapply mapped_changes].
    + apply Ri.
  - eapply changes_mono; [|exact Hch]. intros x ->. by left.
Qed.
Lemma allocate_in_region_serves s L size remaining : ready s L -> size_ok size -> remaining = end_ (freelist_ s) - top_ (freelist_ s) -> size <= remaining ->
  exists s', allocate_in_region size remaining s = Ok (top_ (freelist_ s), s') /\ serves s L nothing size (top_ (freelist_ s)) s' L.
Proof.
  intros Hr Hsz -> Hle. destruct (bumped_serves s L size Hr Hsz Hle) as [Hv Hu]. unfold allocate_in_region.
  rewrite (heap_bind _ _ _ _ _ (check_ok _ _ (proj2 (Z.leb_le _ _) Hle))). rewrite (heap_bind get _ s (freelist_ s) s eq_refl). cbv zeta. rewrite Hu.
  set (fl := freelist_ s) in *. assert (AddUnaccountedSize size (rebump s (top_ fl + size) (end_ fl) (unaccounted_size_ fl)) = Ok (tt, bumped s size)) as Ea by done.
  rewrite (heap_bind (put _) _ s tt _ eq_refl). rewrite (heap_bind _ _ _ _ _ Ea), (heap_bind get _ _ _ _ eq_refl).
  destruct DEBUG; cbn [andb]; [|by eexists]. destruct (Z.ltb_spec (top_ (freelist_ (bumped s size))) (end_ (freelist_ (bumped s size)))) as [Hl|]; [|by eexists].
  destruct (clear_top _ L (sv_ready _ _ _ _ _ _ _ Hv) Hl) as (s' & E & Hv' & _). rewrite (heap_bind _ _ _ _ _ E).
  exists s'. split; [done | by eapply serves_after].
Qed.

(** ** A new bump region *)

(** A block becomes the region. *)
Lemma install_region s L b u : Inv s L -> block_ok b -> mapped (words_ s) b -> separate (b :: concat L) ->
  Inv (rebump s (fst b) (fst b + snd b) u) L /\ bump_ok (freelist_ (rebump s (fst b) (fst b + snd b) u)) /\
  forall x, cover (regions (freelist_ (rebump s (fst b) (fst b + snd b) u)) L) x = Z.b2z (within b x) + cover (concat L) x.
Proof.
  intros Hinv Hok Hm Hs. pose proof Hok as [Hp Ha Hsz Hu He]. pose proof heap_words as (E & HW & _). set (s' := rebump s _ _ _).
  assert (bump (freelist_ s') = [b]) as Eb.
  { rewrite bump_some by (cbn; lia). cbn. replace (fst b + snd b - fst b) with (snd b) by lia. by destruct b. }
  assert (regions (freelist_ s') L = b :: concat L) as Er by (unfold regions; by rewrite Eb). split_and!.
  - apply (inv_rebump (fun _ => False) s); try done; [by intros ? ? ? ? [] | | by rewrite Er]. intros b' Hb'. rewrite Eb in Hb'. by apply list_elem_of_singleton in Hb' as ->.
  - unfold bump_ok. cbn. split_and!; try lia; try done. rewrite Z.add_mod, Ha, Hu by lia. by rewrite Z.mod_0_l by lia.
  - intros x. by rewrite Er.
Qed.

(** The rest of the old region becomes a free block. *)
Lemma release_region s L : ready s L -> exists s1 L1,
  (if 0 <? end_ (freelist_ s) - top_ (freelist_ s) then fl ← get; FreeLocked (top_ fl) (end_ (freelist_ s) - top_ (freelist_ s)) else mret tt) s =
    Ok (tt, rebump s1 (top_ (freelist_ s)) (end_ (freelist_ s)) (unaccounted_size_ (freelist_ s))) /\
  Inv s1 L1 /\ (forall x, cover (concat L1) x = cover (regions (freelist_ s) L) x) /\
  changes (fun x => 0 < cover (regions (freelist_ s) L) x) (words_ s) (words_ s1) /\ writable_ s1 = writable_ s.
Proof.
  intros [Ri (Ht & _) Rw]. destruct (Z.ltb_spec 0 (end_ (freelist_ s) - top_ (freelist_ s))) as [Hl|Hl].
  - destruct (free_bump s L Ri Rw ltac:(lia)) as (s1 & L1 & E & _ & Hi & Hc & Hw & Hp). exists s1, L1. rewrite (heap_bind get _ s _ s eq_refl).
    split_and!; try done. eapply changes_mono; [|exact Hw]. intros x Hx. cbn beta in Hx.
    rewrite (cover_bump (freelist_ s)), Hx by lia. pose proof (cover_nonneg (concat L) x). cbn [Z.b2z]. lia.
  - exists s, L. split; [by destruct s as [[] ? ?]|]. split_and!; try done. intros x. unfold regions. by rewrite bump_none by lia.
Qed.

(** A block that was taken out of the lists replaces the region. *)
Lemma replace_region s L s1 L1 r size : ready s L -> serves s L nothing size r s1 L1 -> r <> 0 ->
  exists s2 L2, (_ ← (if 0 <? end_ (freelist_ s1) - top_ (freelist_ s1) then fl ← get; FreeLocked (top_ fl) (end_ (freelist_ s1) - top_ (freelist_ s1)) else mret tt);
      fl ← get; put (with_bump fl r (uintx (r + size)) (unaccounted_size_ fl))) s1 = Ok (tt, s2) /\
    serves s L nothing 0 0 s2 L2 /\ top_ (freelist_ s2) = r /\ end_ (freelist_ s2) = r + size.
Proof.
  intros Hr Hv Hne. pose proof Hv as [A1 _ A3 A4 A5 A6]. destruct (A4 Hne) as (Hok & Hm & Hw). pose proof A1 as [Ri Rb Rw].
  destruct (release_region s1 L1 A1) as (s2 & L2 & E & Hi & Hc & Hch & Hp). rewrite (heap_bind _ _ _ _ _ E).
  rewrite (heap_bind get _ _ _ _ eq_refl). pose proof (block_pos _ Hok) as Hp0. pose proof (block_end _ Hok) as He0. pose proof (block_size _ Hok) as Hs0.
  cbn [fst snd] in *. pose proof heap_words. rewrite uintx_small by lia.
  assert (forall x, cover (regions (freelist_ s) L) x = cover (concat L2) x + Z.b2z (within (r, size) x)) as Hcov.
  { intros x. rewrite Hc. specialize (A3 x). rewrite (proj2 (Z.eqb_neq _ _)) in A3 by done. cbn [nothing negb andb Z.b2z] in A3. lia. }
  destruct (install_region s2 L2 (r, size) (unaccounted_size_ (freelist_ s1)) Hi Hok) as (Hi' & Hb' & Hc').
  { by eapply mapped_changes. }
  { intros x. cbn [cover]. pose proof (inv_sep s L (ready_inv _ _ Hr) x). rewrite Hcov in *. lia. }
  eexists _, L2. split; [reflexivity|]. cbn [fst snd] in *. split; [|done].
  assert (forall x, cover (regions (freelist_ (rebump s2 r (r + size) (unaccounted_size_ (freelist_ s1)))) L2) x = cover (regions (freelist_ s) L) x) as Hall
    by (intros x; rewrite Hc', Hcov; lia).
  split; try done.
  - split; [done | done|]. intros x Hx. cbn [rebump with_freelist writable_]. rewrite Hp. apply A6. apply (ready_writable _ _ Hr). by rewrite <- Hall.
  - intros x. cbn [nothing negb andb Z.eqb Z.b2z]. rewrite <- Hall. done.
  - eapply changes_trans; [done|]. eapply changes_mono; [|exact Hch]. intros x Hx. cbn beta in Hx. left. rewrite Hcov, Hc.
    destruct (within (r, size) x); cbn [Z.b2z]; lia.
  - intros p Hpw. cbn [rebump with_freelist writable_]. rewrite Hp. auto.
Qed.
(** ** Data and promotion *)

Lemma put_then {A} (m : heap unit) (f : FreeList -> FreeList) s s' (k : heap A) :
  (_ ← m; fl ← get; put (f fl)) s = Ok (tt, s') -> (_ ← m; fl ← get; _ ← put (f fl); k) s = k s'.
Proof. unfold mbind, M_bind. destruct (m s) as [[[] s1]|]; [|done]. cbn. by intros [= <-]. Qed.

Lemma TryAllocateDataBumpLocked_allocator data_locked fresh_page size : size_ok size -> allocator size (data_locked size) -> allocator size (fresh_page size) ->
  allocator size (TryAllocateDataBumpLocked data_locked fresh_page size).
Proof using Hpage.
  intros Hsz Hd Hf s L Hr. unfold TryAllocateDataBumpLocked. rewrite (heap_bind _ _ _ _ _ (check_ok _ _ (proj2 (Z.leb_le _ _) (proj1 (proj1 Hsz))))).
  rewrite (heap_bind _ _ _ _ _ (check_ok _ _ (units_IsAligned _ (proj2 Hsz)))), (heap_bind get _ s (freelist_ s) s eq_refl). cbv zeta.
  destruct (Z.ltb_spec (end_ (freelist_ s) - top_ (freelist_ s)) size) as [Hl|Hl].
  2: { destruct (allocate_in_region_serves s L size _ Hr Hsz eq_refl Hl) as (s' & E & Hv). by exists (top_ (freelist_ s)), s', L, nothing. }
  destruct (IsAllocatableViaFreeLists size); cbn [negb]; [|by apply Hd].
  destruct (TryAllocateLargeLocked_spec Hpage s L size (ready_inv _ _ Hr) (ready_writable _ _ Hr)) as (r & s1 & L1 & E & [(-> & Ha)|(bs & n & Hbs & Ha & He & Hne)]);
    rewrite (heap_bind _ _ _ _ _ E).
  - cbn [Z.eqb]. pose proof (allocated_serves _ _ _ _ _ _ Hr Ha) as Hv. destruct (Hf s1 L1 (sv_ready _ _ _ _ _ _ _ Hv)) as (r & s' & L' & N & E' & Hv').
    exists r, s', L', N. split; [done | by eapply serves_trans].
  - rewrite (proj2 (Z.eqb_neq _ _)) by done. pose proof (allocated_serves _ _ _ _ _ _ Hr Ha) as Hv. destruct (sv_block _ _ _ _ _ _ _ Hv Hne) as (Hok & _).
    rewrite (heap_bind _ _ _ _ _ (HeapSize_spec s1 (r, bs) n He Hok)). destruct (al_bump _ _ _ _ _ _ _ Ha) as [T1 T2]. rewrite <- T1, <- T2. cbn [snd].
    destruct (replace_region s L s1 L1 r bs Hr Hv Hne) as (s2 & L2 & E2 & Hv2 & Et & Ee).
    destruct (allocate_in_region_serves s2 L2 size bs (sv_ready _ _ _ _ _ _ _ Hv2) Hsz ltac:(lia) Hbs) as (s' & E' & Hv').
    exists (top_ (freelist_ s2)), s', L2, nothing. split; [|eapply serves_trans; [by eapply serves_zero | done]].
    rewrite (put_then _ (fun fl => with_bump fl r (uintx (r + bs)) (unaccounted_size_ fl)) _ _ _ E2). done.
Qed.

Lemma serves_account s L size r s' L' n : serves s L nothing size r s' L' ->
  serves s L nothing size r (rebump s' (top_ (freelist_ s')) (end_ (freelist_ s')) n) L'.
Proof.
  intros [[A1 A2 A3] B C D E F]. split; try done. split; try done. apply (inv_rebump (fun _ => False) s'); try done; [by intros ? ? ? ? [] | | apply A1].
  intros b Hb. apply A1. apply elem_of_app. by left.
Qed.

Lemma TryAllocatePromoLockedSlow_allocator data_locked fresh_page size : size_ok size -> allocator size (data_locked size) -> allocator size (fresh_page size) ->
  allocator size (TryAllocatePromoLockedSlow data_locked fresh_page size).
Proof using Hpage.
  intros Hsz Hd Hf s L Hr. unfold TryAllocatePromoLockedSlow. destruct (TryAllocateSmallLocked_serves s L size Hsz Hr) as (r & s1 & L1 & E & Hv).
  rewrite (heap_bind _ _ _ _ _ E). destruct (Z.eqb_spec r 0) as [->|Hne]; cbn [negb].
  - destruct (TryAllocateDataBumpLocked_allocator data_locked fresh_page size Hsz Hd Hf s1 L1 (sv_ready _ _ _ _ _ _ _ Hv)) as (r & s' & L' & N & E' & Hv').
    exists r, s', L', N. split; [done | by eapply serves_trans].
  - eexists r, _, L1, nothing. split; [reflexivity|]. by apply (serves_account s L size r s1).
Qed.

(** The top of the region and the size asked for fit in a word. *)
Lemma TryAllocatePromoLocked_serves data_locked fresh_page s L size : size_ok size -> allocator size (data_locked size) -> allocator size (fresh_page size) ->
  ready s L -> top_ (freelist_ s) + size < 2 ^ XLEN ->
  exists r s' L' N, TryAllocatePromoLocked data_locked fresh_page size s = Ok (r, s') /\ serves s L N size r s' L'.
Proof using Hpage.
  intros Hsz Hd Hf Hr Hb. unfold TryAllocatePromoLocked. destruct (TryAllocateBumpLocked_serves s L size Hr Hsz Hb) as (r & s1 & E & Hv & _).
  rewrite (heap_bind _ _ _ _ _ E). destruct (Z.eqb_spec r 0) as [->|Hne]; cbn [negb]; [|by exists r, s1, L, nothing].
  destruct (TryAllocatePromoLockedSlow_allocator data_locked fresh_page size Hsz Hd Hf s1 L (sv_ready _ _ _ _ _ _ _ Hv)) as (r & s' & L' & N & E' & Hv').
  exists r, s', L', N. split; [done | by eapply serves_trans].
Qed.

(** ** Giving the region up *)

Lemma AbandonBumpAllocation_serves s L : ready s L -> exists s' L', AbandonBumpAllocation s = Ok (tt, s') /\ serves s L nothing 0 0 s' L' /\ bump (freelist_ s') = [].
Proof.
  intros Hr. pose proof Hr as [Ri (Ht & _) Rw]. unfold AbandonBumpAllocation. rewrite (heap_bind get _ s (freelist_ s) s eq_refl).
  destruct (Z.ltb_spec (top_ (freelist_ s)) (end_ (freelist_ s))) as [Hl|Hl].
  2: { exists s, L. split; [done|]. split; [by apply serves_none | by apply bump_none]. }
  destruct (free_bump s L Ri Rw Hl) as (s1 & L1 & E & Eb & Hi & Hc & Hw & Hp). rewrite (heap_bind _ _ _ _ _ E), (heap_bind get _ _ _ _ eq_refl).
  set (u := unaccounted_size_ _). exists (rebump s1 0 0 u), L1. split; [done|]. split; [|done].
  assert (forall x, cover (regions (freelist_ (rebump s1 0 0 u)) L1) x = cover (regions (freelist_ s) L) x) as Hall by (intros x; by rewrite <- Hc).
  split; try done.
  - split; [by apply inv_no_bump | |].
    + unfold bump_ok. cbn. assert (0 < 2 ^ XLEN) by (apply Z.pow_pos_nonneg; pose proof XLEN_ge; lia). split_and!; try lia; by rewrite Z.mod_0_l by (pose proof heap_words; lia).
    + eapply free_writable_mono; [done | intros x; by rewrite Hall | intros p; cbn; by rewrite Hp].
  - intros x. rewrite Hall. cbn [Z.eqb negb andb nothing Z.b2z]. done.
  - eapply changes_mono; [|exact Hw]. intros x Hx. cbn beta in Hx. left. rewrite (cover_bump (freelist_ s)), Hx by lia.
    pose proof (cover_nonneg (concat L) x). cbn [Z.b2z]. lia.
  - intros p. cbn [rebump with_freelist writable_]. by rewrite Hp.
Qed.
Lemma MakeIterable_serves s L : ready s L -> exists s', MakeIterable s = Ok (tt, s') /\ serves s L nothing 0 0 s' L /\ freelist_ s' = freelist_ s /\
  (top_ (freelist_ s) < end_ (freelist_ s) -> HeapSize (top_ (freelist_ s)) s' = Ok (end_ (freelist_ s) - top_ (freelist_ s), s')).
Proof.
  intros Hr. pose proof Hr as [Ri (Ht & _) Rw]. unfold MakeIterable. rewrite (heap_bind get _ s (freelist_ s) s eq_refl). set (fl := freelist_ s) in *.
  destruct (Z.ltb_spec (top_ fl) (end_ fl)) as [Hl|Hl].
  2: { exists s. split; [done|]. split; [by apply serves_none|]. split; [done | lia]. }
  set (b := (top_ fl, end_ fl - top_ fl)). assert (b ∈ regions fl L) as Hin by (apply elem_of_app; left; rewrite bump_some by done; left).
  destruct (inv_ok s L Ri b Hin) as [Hok Hm]. pose proof heap_words as (Ea & HW & Em & _). pose proof (block_size b Hok) as Hbs.
  assert (forall x, fst b <= x < fst b + HeaderSizeFor (snd b) -> within b x = true) as Hhd.
  { intros x Hx. apply within_range. rewrite header_size in Hx by lia. destruct (Z.ltb_spec kMaxSizeTag (snd b)); lia. }
  assert (forall x, within b x = true -> 0 < cover (regions fl L) x /\ cover (concat L) x = 0) as Hcv.
  { intros x Hx. pose proof (cover_in _ b x Hin Hx). split; [lia|]. pose proof (inv_sep s L Ri x) as Hs. fold fl in Hs.
    rewrite (cover_bump fl) in Hs by lia. fold b in Hs. rewrite Hx in Hs. pose proof (cover_nonneg (concat L) x). cbn [Z.b2z] in Hs. lia. }
  destruct (AsElement_spec s b Hok Hm) as (w & E & He & Hc).
  { intros x Hx. apply Rw, Hcv, Hhd, Hx. }
  cbn [fst snd b] in E. rewrite (heap_bind _ _ _ _ _ E). exists (with_words s w). split; [done|]. split; [|split; [done|]].
  - split; try done; [|eapply changes_mono; [|exact Hc]; intros x Hx; left; apply Hcv, Hhd, Hx]. split; [|exact (ready_bump _ _ Hr) | exact Rw].
    apply (inv_rebump (fun x => fst b <= x < fst b + HeaderSizeFor (snd b)) s); try done; [| |apply Ri].
    + intros b' x Hb' Hx Hh. pose proof (cover_in _ _ _ Hb' Hx). destruct (Hcv x (Hhd x Hh)). lia.
    + intros b' Hb'. destruct (inv_ok s L Ri b') as [H1 H2]; [apply elem_of_app; by left|]. split; [done | by eapply mapped_changes].
  - intros _. exact (HeapSize_spec (with_words s w) b 0 He Hok).
Qed.
End Client.

(** * A client of the free list

    A client allocates, frees and writes to its blocks, in any order. *)

Inductive request :=
| Allocate (size : Z)
| AllocateData (size : Z)
| Promote (size : Z)
| Free (i : nat)
| Abandon
| Iterate
| Account
| Write (a v : Z).

Section Traces.
Context `{Target} {pages : Pages} (Hpage : page_size_ok) (data_locked fresh_page : Z -> heap Z).
#[local] Set Default Proof Using "Type".

Definition hand_out (B : list block) (size r : Z) : list block := if r =? 0 then B else (r, size) :: B.

(** One request of a client that owns the blocks of [B]. *)
Definition run (q : request) (B : list block) : heap (list block) :=
  match q with
  | Allocate size => r ← TryAllocateLocked size false; mret (hand_out B size r)
  | AllocateData size => r ← TryAllocateDataBumpLocked data_locked fresh_page size; mret (hand_out B size r)
  | Promote size => r ← TryAllocatePromoLocked data_locked fresh_page size; mret (hand_out B size r)
  | Free i =>
      match B !! i with
      | Some b => _ ← FreeLocked (fst b) (snd b); mret (delete i B)
      | None => mret B
      end
  | Abandon => _ ← AbandonBumpAllocation; mret B
  | Iterate => _ ← MakeIterable; mret B
  | Account => _ ← TakeUnaccountedSizeLocked; mret B
  | Write a v => _ ← store a v; mret B
  end.

(** What a client may ask for: proper sizes, and writes to words of its own blocks. *)
Definition valid (s : Space) (B : list block) (q : request) : Prop :=
  match q with
  | Allocate size | AllocateData size => size_ok size
  | Promote size => size_ok size /\ top_ (freelist_ s) + size < 2 ^ XLEN
  | Write a v => a mod kWordSize = 0 /\ exists b, b ∈ B /\ within b a = true
  | _ => True
  end.

Record owned s L (B : list block) : Prop := {
  own_ready : ready s L;
  own_separate : separate (B ++ regions (freelist_ s) L);
  own_blocks : forall b, b ∈ B -> block_ok b /\ mapped (words_ s) b /\ forall x, within b x = true -> writable_ s (x / PageSize) = true
}.

Inductive client : Space * list block -> Space * list block -> Prop :=
| client_step s B q s' B' : valid s B q -> run q B s = Ok (B', s') -> client (s, B) (s', B').

(** The word of an address. *)
Definition word_of (x : Z) : Z := x / kWordSize * kWordSize.
Definition conserved s L B s' L' B' : Prop := forall x, is_Some (words_ s !! word_of x) ->
  is_Some (words_ s' !! word_of x) /\ cover (B' ++ regions (freelist_ s') L') x = cover (B ++ regions (freelist_ s) L) x.
Definition frame (q : request) s (B : list block) s' (B' : list block) : Prop := forall b x, b ∈ B -> b ∈ B' -> within b x = true -> x mod kWordSize = 0 ->
  (forall v, q <> Write x v) -> words_ s' !! x = words_ s !! x.

(** What a request does. *)
Definition request_ok q s L B : Prop := exists B' s' L', run q B s = Ok (B', s') /\ owned s' L' B' /\ conserved s L B s' L' B' /\ frame q s B s' B'.

(** ** Memory that was not mapped *)

Lemma word_within b x : block_ok b -> within b x = true -> within b (word_of x) = true.
Proof.
  intros [_ Ha _ _ _] Hx. rewrite !within_range in *. unfold word_of. pose proof heap_words as (E & HW & _).
  pose proof (Z.mul_div_le x kWordSize). split; [|lia].
  pose proof (block_words (fst b) 0 Ha) as Hm. rewrite Z.mul_0_l, Z.add_0_r in Hm.
  pose proof (Z.div_mod (fst b) kWordSize). pose proof (Z.div_le_mono (fst b) x kWordSize). nia.
Qed.

Lemma covered_mapped w l x : (forall b, b ∈ l -> block_ok b /\ mapped w b) -> 0 < cover l x -> is_Some (w !! word_of x).
Proof.
  intros Hl Hx. induction l as [|b l IH]; cbn in Hx; [lia|]. destruct (within b x) eqn:Ew.
  - destruct (Hl b) as [Hok Hm]; [left|]. apply Hm; [by apply word_within|]. unfold word_of. apply Z.mod_mul. pose proof heap_words. lia.
  - apply IH; [|cbn in Hx; lia]. intros b' Hb'. apply Hl. by right.
Qed.

Lemma owned_mapped s L B x : owned s L B -> 0 < cover (B ++ regions (freelist_ s) L) x -> is_Some (words_ s !! word_of x).
Proof.
  intros [[Ri _ _] _ Ob]. apply covered_mapped. intros b [Hb|Hb]%elem_of_app; [|by apply Ri].
  destruct (Ob b Hb) as (? & ? & _). done.
Qed.

(** The blocks of the client are apart from the free space. *)
Lemma owned_apart s L B b x : owned s L B -> b ∈ B -> within b x = true -> cover (regions (freelist_ s) L) x = 0.
Proof.
  intros [_ Os _] Hb Hx. specialize (Os x). rewrite cover_app in Os. pose proof (cover_in _ _ _ Hb Hx). pose proof (cover_nonneg (regions (freelist_ s) L) x). lia.
Qed.

(** ** Allocation *)

Lemma cover_hand_out B size r x : cover (hand_out B size r) x = Z.b2z (negb (r =? 0) && within (r, size) x) + cover B x.
Proof. unfold hand_out. by destruct (r =? 0). Qed.

Lemma serves_owned q s L B N size r s' L' : owned s L B -> serves s L N size r s' L' ->
  owned s' L' (hand_out B size r) /\ conserved s L B s' L' (hand_out B size r) /\ frame q s B s' (hand_out B size r).
Proof.
  intros Ho [A1 A2 A3 A4 A5 A6]. pose proof Ho as [Or Os Ob].
  assert (forall x, cover (hand_out B size r ++ regions (freelist_ s') L') x = cover (B ++ regions (freelist_ s) L) x + Z.b2z (N x)) as Hc.
  { intros x. rewrite !cover_app, cover_hand_out. specialize (A3 x). lia. }
  split_and!.
  - split; [done | |].
    + intros x. rewrite Hc. destruct (N x) eqn:En; [|specialize (Os x); cbn [Z.b2z]; lia].
      destruct (Z.lt_ge_cases 0 (cover (B ++ regions (freelist_ s) L) x)) as [Hp|Hp]; [|cbn [Z.b2z]; lia].
      destruct (owned_mapped s L B x Ho Hp) as [v Hv]. unfold word_of in Hv. by rewrite (A2 x En) in Hv.
    + intros b Hb. assert (b ∈ B \/ (r <> 0 /\ b = (r, size))) as [Hin|[Hr ->]].
      { unfold hand_out in Hb. destruct (Z.eqb_spec r 0); [by left|]. apply elem_of_cons in Hb as [?|?]; [by right | by left]. }
      * destruct (Ob b Hin) as (Hok & Hm & Hw). split_and!; [done | by eapply mapped_changes | auto].
      * by apply A4.
  - intros x Hm. split; [by apply (changes_mapped _ _ _ A5)|]. destruct Hm as [v Hx]. rewrite Hc. destruct (N x) eqn:En; [|cbn; lia]. unfold word_of in Hx. by rewrite (A2 x En) in Hx.
  - intros b x Hb _ Hx Hm _. apply (changes_other _ _ _ A5). rewrite (owned_apart s L B b x Ho Hb Hx). intros [?|Hn]; [lia|].
    destruct (Ob b Hb) as (_ & Hmp & _). destruct (Hmp x Hx Hm) as [v Hv]. by rewrite Hn in Hv.
Qed.

Lemma serves_request q s L B N size r s' L' : run q B s = Ok (hand_out B size r, s') -> owned s L B -> serves s L N size r s' L' -> request_ok q s L B.
Proof. intros E Ho Hs. exists (hand_out B size r), s', L'. split; [done | by apply (serves_owned q s L B N)]. Qed.

(** ** Freeing *)

Lemma free_request i s L B : owned s L B -> request_ok (Free i) s L B.
Proof.
  intros Ho. unfold request_ok. cbn [run]. destruct (B !! i) as [b|] eqn:Eb; [|exists B, s, L; split_and!; done].
  pose proof Ho as [[Ri Rb Rw] Os Ob]. assert (b ∈ B) as Hb by by eapply list_elem_of_lookup_2. destruct (Ob b Hb) as (Hok & Hm & Hw).
  pose proof (delete_Permutation B i b Eb) as Hp.
  assert (forall x, cover B x = Z.b2z (within b x) + cover (delete i B) x) as HcB by (intros x; by rewrite (cover_perm _ _ x Hp)).
  destruct (FreeLocked_spec s L b Ri Hok Hm) as (s' & L' & E & [A1 A2 A3 A4 A5]).
  { intros x. specialize (Os x). rewrite cover_app, HcB in Os. cbn [cover]. pose proof (cover_nonneg (delete i B) x). lia. }
  { intros x Hx. apply Hw. apply within_range. pose proof heap_words as (Ea & HW & Em & _). pose proof (block_size b Hok).
    rewrite header_size in Hx by lia. destruct (Z.ltb_spec kMaxSizeTag (snd b)); lia. }
  rewrite (heap_bind _ _ _ _ _ E). exists (delete i B), s', L'. split; [done|]. destruct A2 as (B1 & B2 & _).
  assert (forall x, cover (delete i B ++ regions (freelist_ s') L') x = cover (B ++ regions (freelist_ s) L) x) as Hc.
  { intros x. rewrite !cover_app, A3, HcB. lia. }
  split_and!; [split; [split; [done | unfold bump_ok; by rewrite B1, B2 |] | |] | by intros x Hx; split; [apply (changes_mapped _ _ _ A4) | apply Hc] |].
  - intros x Hx. rewrite A5. rewrite A3 in Hx. destruct (within b x) eqn:Ex; [by apply Hw|]. apply Rw. cbn [Z.b2z] in Hx. lia.
  - intros x. rewrite Hc. apply Os.
  - intros b' Hb'. assert (b' ∈ B) as Hin by (rewrite Hp; by right). destruct (Ob b' Hin) as (? & ? & ?).
    split_and!; [done | by eapply mapped_changes | by rewrite A5].
  - intros b' x _ Hb' Hx _ _. apply (changes_other _ _ _ A4). intros Ex. specialize (Os x). rewrite cover_app, HcB, Ex in Os.
    pose proof (cover_in _ _ _ Hb' Hx). pose proof (cover_nonneg (regions (freelist_ s) L) x). cbn [Z.b2z] in Os. lia.
Qed.
(** ** Writing *)

Lemma write_request a v s L B : owned s L B -> a mod kWordSize = 0 -> (exists b, b ∈ B /\ within b a = true) -> request_ok (Write a v) s L B.
Proof.
  intros Ho Ha (b & Hb & Hx). pose proof Ho as [[Ri Rb Rw] Os Ob]. destruct (Ob b Hb) as (Hok & Hm & Hw). destruct (Hm a Hx Ha) as [v0 Hv0].
  assert (changes (fun x => x = a) (words_ s) (<[a := v]> (words_ s))) as Hch by by apply changes_insert.
  exists B, (with_words s (<[a := v]> (words_ s))), L. split_and!.
  - cbn [run]. unfold store, mbind, M_bind. by rewrite Hv0, (Hw a Hx).
  - split; [|done|].
    + split; [|done|done]. apply (inv_words s _ L b); [done | |].
      * intros x. specialize (Os x). rewrite cover_app in Os. cbn [cover]. destruct (within b x) eqn:Ex; [pose proof (cover_in _ _ _ Hb Ex); cbn [Z.b2z]; lia|].
        pose proof (cover_nonneg B x). cbn [Z.b2z]. lia.
      * eapply changes_mono; [|exact Hch]. by intros x ->.
    + intros b' Hb'. destruct (Ob b' Hb') as (? & ? & ?). split_and!; [done | by eapply mapped_changes | done].
  - intros x Hs. split; [by apply (changes_mapped _ _ _ Hch) | done].
  - intros b' x _ _ _ _ Hq. apply (changes_other _ _ _ Hch). intros ->. by apply (Hq v).
Qed.

(** ** Every request *)

Section Requests.
Context (Hdata : forall size, size_ok size -> allocator size (data_locked size)) (Hfresh : forall size, size_ok size -> allocator size (fresh_page size)).

Lemma valid_request q s L B : owned s L B -> valid s B q -> request_ok q s L B.
Proof using Hpage Hdata Hfresh.
  intros Ho Hv. pose proof (own_ready _ _ _ Ho) as Hr. destruct q as [size|size|size|i| | | |a v]; cbn [valid] in Hv.
  - destruct (TryAllocateLocked_allocator Hpage size Hv s L Hr) as (r & s' & L' & N & E & Hs).
    apply (serves_request _ s L B N size r s' L'); [|done|done]. cbn [run]. by rewrite (heap_bind _ _ _ _ _ E).
  - destruct (TryAllocateDataBumpLocked_allocator Hpage data_locked fresh_page size Hv (Hdata size Hv) (Hfresh size Hv) s L Hr) as (r & s' & L' & N & E & Hs).
    apply (serves_request _ s L B N size r s' L'); [|done|done]. cbn [run]. by rewrite (heap_bind _ _ _ _ _ E).
  - destruct Hv as [Hv Ht].
    destruct (TryAllocatePromoLocked_serves Hpage data_locked fresh_page s L size Hv (Hdata size Hv) (Hfresh size Hv) Hr Ht) as (r & s' & L' & N & E & Hs).
    apply (serves_request _ s L B N size r s' L'); [|done|done]. cbn [run]. by rewrite (heap_bind _ _ _ _ _ E).
  - by apply free_request.
  - destruct (AbandonBumpAllocation_serves s L Hr) as (s' & L' & E & Hs & _).
    apply (serves_request _ s L B nothing 0 0 s' L'); [|done|done]. cbn [run]. by rewrite (heap_bind _ _ _ _ _ E).
  - destruct (MakeIterable_serves s L Hr) as (s' & E & Hs & _).
    apply (serves_request _ s L B nothing 0 0 s' L); [|done|done]. cbn [run]. by rewrite (heap_bind _ _ _ _ _ E).
  - apply (serves_request _ s L B nothing 0 0 (rebump s (top_ (freelist_ s)) (end_ (freelist_ s)) 0) L); [done|done|].
    apply serves_account, serves_none, Hr.
  - by destruct Hv; apply write_request.
Qed.

Lemma client_reaches s0 L0 B0 s B : owned s0 L0 B0 -> rtc client (s0, B0) (s, B) -> exists L, owned s L B /\ conserved s0 L0 B0 s L B.
Proof using Hpage Hdata Hfresh.
  intros Ho Hst. remember (s0, B0) as c0 eqn:E0. remember (s, B) as c eqn:E. revert s0 L0 B0 E0 Ho.
  induction Hst as [|c0 c1 c2 Hs Hst IH]; intros s0 L0 B0 E0 Ho; [rewrite E0 in E; injection E as <- <-; exists L0; by split|].
  destruct Hs as [s1 B1 q s2 B2 Hv Hrun]. injection E0 as -> ->. destruct (valid_request q s0 L0 B0 Ho Hv) as (B' & s' & L' & E' & Ho' & Hc & _).
  rewrite Hrun in E'. injection E' as <- <-. destruct (IH E s2 L' B2 eq_refl Ho') as (L & Ho2 & Hc2). exists L. split; [done|].
  intros x Hx. destruct (Hc x Hx) as [Hx' <-]. by apply Hc2.
Qed.
End Requests.
End Traces.
