(* ===== verification/Sweeper.v ===== *)
(** * Sweeping

    [GCSweeper] of [src/runtime/vm/heap/sweeper.cc]: the unmarked objects of a page become
    blocks of the free list, and the marks of the others are cleared. *)
From S2P Require Import Prelude Utils Constants Words Exec Macros ObjectHeader WriteBarrier BitSet FreeList.

Record OldPage := {
  page_address : Z;
  object_start : Z;
  object_end : Z;
  is_executable : bool;
  is_image_page : bool
}.

Section Sweeper.
Context `{Target} {pages : Pages}.
(** The size of an object of a class whose objects may not have it in the header
    ([UntaggedObject::HeapSizeFromClass]): from memory, the object's address and its header. *)
Context (HeapSizeFromClass : gmap Z Z -> Z -> Z -> Z).

Definition kOldPageSize : Z := 512 * 1024.
Definition kOldPageMask : Z := Z.lnot (kOldPageSize - 1).
Definition kBreakInstructionFiller : Z := 0.
Definition kZapByte : Z := 0xf3.

(** [OldPage::Of]. *)
Definition Of (addr : Z) : heap Z :=
  _ ← check (IsOldObject addr);
  mret (addr .& kOldPageMask).

Definition IsMarked (tags : Z) : bool := decode OldAndNotMarkedBit tags =? 0.

Definition size_from_class (addr tags : Z) : heap Z := fun s => Ok (HeapSizeFromClass (words_ s) addr tags, s).

(** [UntaggedObject::HeapSize] of a header that was read before. *)
Definition object_size (addr tags : Z) : heap Z :=
  let result := SizeTag_decode tags in
  if negb (result =? 0) then mret result
  else
    result ← size_from_class addr tags;
    _ ← check (kMaxSizeTag <? result);
    mret result.

(** [UntaggedObject::HeapSize] of an object whose header does not change meanwhile. *)
Definition UntaggedObject_HeapSize (addr : Z) : heap Z :=
  tags ← load addr;
  let result := SizeTag_decode tags in
  if negb (result =? 0) then
    from_class ← size_from_class addr tags;
    _ ← check (result =? from_class);
    mret result
  else
    result ← size_from_class addr tags;
    _ ← check (kMaxSizeTag <? result);
    mret result.

Definition ClearMarkBit (addr : Z) : heap unit :=
  _ ← check (IsOldObject addr);
  tags ← load addr;
  _ ← check (IsMarked tags);
  store addr (UpdateBool OldAndNotMarkedBit true tags).

(** [n] words from [cursor] on are overwritten. *)
Fixpoint fill (n : nat) (cursor v : Z) : heap unit :=
  match n with
  | O => mret tt
  | S n => _ ← store cursor v; fill n (cursor + kWordSize) v
  end.

(** A word of [kZapByte]s. *)
Definition zap_word : Z := kZapByte * ((2 ^ XLEN - 1) / 255).
Definition words_in (size : Z) : nat := Z.to_nat (size / kWordSize).

(** The end of the run of unmarked objects that [free_end] is in. *)
Fixpoint free_run (fuel : nat) (end' free_end : Z) : heap Z :=
  match fuel with
  | O => fail LoopFuelExhausted
  | S fuel =>
      if free_end <? end' then
        tags ← load free_end;
        if IsMarked tags then mret free_end
        else
          size ← object_size free_end tags;
          free_run fuel end' (free_end + size)
      else mret free_end
  end.

(** The objects of a page from [current] on; the result is their bytes in use. *)
Fixpoint sweep_objects (fuel : nat) (page : OldPage) (current used_in_bytes : Z) : heap Z :=
  match fuel with
  | O => fail LoopFuelExhausted
  | S fuel =>
      if current <? object_end page then
        of_current ← Of current;
        _ ← check (of_current =? page_address page);
        tags ← load current;
        obj_size ← object_size current tags;
        if IsMarked tags then
          _ ← ClearMarkBit current;
          sweep_objects fuel page (current + obj_size) (used_in_bytes + obj_size)
        else
          free_end ← free_run (S fuel) (object_end page) (current + obj_size);
          let obj_size := free_end - current in
          _ ← (if is_executable page then fill (words_in obj_size) current kBreakInstructionFiller
               else if DEBUG then fill (words_in obj_size) current zap_word
               else mret tt);
          _ ← (if negb (current =? object_start page) || negb (free_end =? object_end page)
               then FreeLocked current obj_size else mret tt);
          sweep_objects fuel page (current + obj_size) used_in_bytes
      else
        _ ← check (current =? object_end page);
        mret used_in_bytes
  end.

(** The bytes in use, and whether there are any. *)
Definition SweepPage (page : OldPage) : heap (Z * bool) :=
  _ ← check (negb (is_image_page page));
  used_in_bytes ← sweep_objects (S (S (Z.to_nat ((object_end page - object_start page) / kObjectAlignment)))) page (object_start page) 0;
  mret (used_in_bytes, negb (used_in_bytes =? 0)).

(** The filler objects behind the object of a large page. *)
Fixpoint zap_fillers (fuel : nat) (end' current : Z) : heap unit :=
  match fuel with
  | O => fail LoopFuelExhausted
  | S fuel =>
      if current <? end' then
        _ ← check (IsOldObject current);
        tags ← load current;
        _ ← check (negb (IsMarked tags));
        obj_size ← UntaggedObject_HeapSize current;
        _ ← fill (words_in obj_size) current zap_word;
        zap_fillers fuel end' (current + obj_size)
      else mret tt
  end.

(** The words of a large page up to the end of its object, 0 when it is not in use. *)
Definition SweepLargePage (page : OldPage) : heap Z :=
  _ ← check (negb (is_image_page page));
  let raw_obj := object_start page in
  of_obj ← Of raw_obj;
  _ ← check (of_obj =? page_address page);
  _ ← check (IsOldObject raw_obj);
  tags ← load raw_obj;
  words_to_end ←
    (if IsMarked tags then
       _ ← ClearMarkBit raw_obj;
       size ← UntaggedObject_HeapSize raw_obj;
       mret (size >> kWordSizeLog2)
     else mret 0);
  _ ← (if DEBUG then
         size ← UntaggedObject_HeapSize raw_obj;
         zap_fillers (S (Z.to_nat ((object_end page - raw_obj) / kObjectAlignment))) (object_end page) (raw_obj + size)
       else mret tt);
  mret words_to_end.
End Sweeper.
