(* ===== verification/SweeperProofs.v ===== *)
(** * What sweeping does

    A page is a sequence of objects.  Sweeping turns every run of unmarked ones into a block of
    the free list and leaves the others as they are, but for their marks. *)
From S2P Require Import Prelude Utils Constants Words Exec Macros ObjectHeader WriteBarrier BitSet FreeList.
From S2P Require Import FreeListInvariant FreeListSteps FreeListAllocation FreeListSearch FreeListRequests FreeListClient Sweeper.

Record object := { o_size : Z; o_tags : Z }.

Fixpoint span (l : list object) : Z := match l with [] => 0 | o :: l => o_size o + span l end.

Section Facts.
Context `{Target} {pages : Pages} (HeapSizeFromClass : gmap Z Z -> Z -> Z -> Z).
#[local] Set Default Proof Using "Type".

Definition marked (o : object) : bool := IsMarked (o_tags o).
Definition live_bytes (l : list object) : Z := span (filter (fun o => marked o = true) l).

(** The objects with their addresses. *)
Fixpoint placed (a : Z) (l : list object) : list (block * Z) :=
  match l with [] => [] | o :: l => ((a, o_size o), o_tags o) :: placed (a + o_size o) l end.
Definition dead (a : Z) (l : list object) : list block := (filter (fun p => IsMarked (snd p) = false) (placed a l)).*1.

(** The size of an object is in its header, or its class says it. *)
Definition sized (w : gmap Z Z) (a : Z) (o : object) : Prop :=
  SizeTag_decode (o_tags o) = o_size o \/
  SizeTag_decode (o_tags o) = 0 /\ kMaxSizeTag < o_size o /\ HeapSizeFromClass w a (o_tags o) = o_size o.

Fixpoint laid (w : gmap Z Z) (a : Z) (l : list object) : Prop :=
  match l with
  | [] => True
  | o :: l => w !! a = Some (o_tags o) /\ block_ok (a, o_size o) /\ mapped w (a, o_size o) /\ sized w a o /\ laid w (a + o_size o) l
  end.

(** The class of an object finds its size in the object, behind its header. *)
Definition local_sizes : Prop := forall w w' a tags n, HeapSizeFromClass w a tags = n ->
  (forall x, within (a, n) x = true -> x <> a -> w' !! x = w !! x) -> HeapSizeFromClass w' a tags = n.
Context (Hlocal : local_sizes).

Lemma span_nonneg w a l : laid w a l -> 0 <= span l.
Proof.
  revert a. induction l as [|o l IH]; intros a; cbn; [done|]. intros (_ & Hok & _ & _ & Hl). specialize (IH _ Hl).
  pose proof (block_size _ Hok). pose proof heap_words. cbn in *. lia.
Qed.

Lemma span_app l l' : span (l ++ l') = span l + span l'.
Proof. induction l as [|o l IH]; cbn; lia. Qed.

Lemma laid_app w a l l' : laid w a (l ++ l') <-> laid w a l /\ laid w (a + span l) l'.
Proof.
  revert a. induction l as [|o l IH]; intros a; cbn; [by rewrite Z.add_0_r; tauto|].
  rewrite IH, Z.add_assoc. tauto.
Qed.

Lemma laid_agree w w' a l : (forall x, a <= x -> w' !! x = w !! x) -> laid w a l -> laid w' a l.
Proof using Hlocal.
  revert a. induction l as [|o l IH]; intros a Ha; [done|]. intros (Ht & Hok & Hm & Hs & Hl).
  pose proof (block_size _ Hok) as Hsz. pose proof heap_words. cbn [snd] in Hsz. split_and!.
  - rewrite Ha by lia. done.
  - done.
  - intros x Hx Hw. rewrite Ha by (apply within_range in Hx; cbn in Hx; lia). by apply Hm.
  - destruct Hs as [Hs|(H1 & H2 & H3)]; [by left|]. right. split_and!; [done | done|]. apply (Hlocal w); [done|].
    intros x Hx _. apply Ha. apply within_range in Hx. cbn in Hx. lia.
  - apply IH; [|done]. intros x Hx. apply Ha. lia.
Qed.

Lemma object_size_spec s a o : sized (words_ s) a o -> block_ok (a, o_size o) -> object_size HeapSizeFromClass a (o_tags o) s = Ok (o_size o, s).
Proof.
  intros Hs Hok. pose proof (block_size _ Hok). pose proof heap_words as (E & HW & _). cbn [snd] in *. unfold object_size. destruct Hs as [->|(-> & Hm & Hc)].
  - by rewrite (proj2 (Z.eqb_neq _ _)) by lia.
  - cbn [Z.eqb negb]. rewrite (heap_bind _ _ s (o_size o) s) by (unfold size_from_class; by rewrite Hc).
    by rewrite (heap_bind _ _ _ _ _ (check_ok _ _ (proj2 (Z.ltb_lt _ _) Hm))).
Qed.

(** A run of objects is one block. *)
Lemma run_ok w a l : laid w a l -> l <> [] -> span l < 2 ^ (XLEN - 1) -> block_ok (a, span l) /\ mapped w (a, span l).
Proof.
  revert a. induction l as [|o l IH]; intros a; [done|]. cbn [laid span]. intros (_ & Hok & Hm & _ & Hl) _ Hlt.
  assert (l = [] \/ l <> []) as [-> |Hne] by (destruct l; by auto); [cbn; rewrite Z.add_0_r; done|]. pose proof (block_size _ Hok) as Hs. pose proof heap_words as (E & HW & _). cbn [snd] in Hs.
  destruct (IH _ Hl) as [[P1 P2 P3 P4 P5] Hm']; [done | lia|]. pose proof Hok as [Q1 Q2 Q3 Q4 Q5]. cbn [fst snd] in *. split.
  - split; cbn [fst snd]; [done | done | lia | | lia]. rewrite Z.add_mod, Q4, P4 by lia. by rewrite Z.mod_0_l by lia.
  - intros x Hx Hw. apply within_range in Hx. cbn [fst snd] in Hx. destruct (Z.lt_ge_cases x (a + o_size o)).
    + apply Hm; [apply within_range; cbn; lia | done].
    + apply Hm'; [apply within_range; cbn; lia | done].
Qed.

Lemma placed_app a l l' : placed a (l ++ l') = placed a l ++ placed (a + span l) l'.
Proof. revert a. induction l as [|o l IH]; intros a; cbn; [by rewrite Z.add_0_r | by rewrite IH, Z.add_assoc]. Qed.
Lemma dead_app a l l' : dead a (l ++ l') = dead a l ++ dead (a + span l) l'.
Proof. unfold dead. by rewrite placed_app, list.filter_app, fmap_app. Qed.

Lemma dead_run w a l x : laid w a l -> Forall (fun o => marked o = false) l -> cover (dead a l) x = Z.b2z (within (a, span l) x).
Proof.
  revert a. induction l as [|o l IH]; intros a Hl Hd.
  - cbn. assert (within (a, 0) x = false) as ->; [|done]. apply not_true_iff_false. rewrite within_range. cbn. lia.
  - destruct Hl as (_ & Hok & _ & _ & Hl). apply Forall_cons_1 in Hd as [Ho Hd]. pose proof (span_nonneg _ _ _ Hl). pose proof (block_size _ Hok). pose proof heap_words.
    unfold dead. cbn [placed]. rewrite filter_cons_True by done. cbn [fmap list_fmap cover fst span]. fold (dead (a + o_size o) l). rewrite IH by done.
    cbn [snd] in *. rewrite (within_split a (o_size o + span l) (o_size o)) by lia. by replace (o_size o + span l - o_size o) with (span l) by lia.
Qed.

(** ** The loops *)

Lemma free_run_spec s fuel l a end' : laid (words_ s) a l -> end' = a + span l -> (length l < fuel)%nat ->
  exists u rest, l = u ++ rest /\ Forall (fun o => marked o = false) u /\ (forall o, head rest = Some o -> marked o = true) /\
    free_run HeapSizeFromClass fuel end' a s = Ok (a + span u, s).
Proof.
  revert l a. induction fuel as [|fuel IH]; intros l a Hl -> Hf; [lia|]. cbn [free_run]. destruct l as [|o l].
  - exists [], []. cbn. rewrite Z.add_0_r, Z.ltb_irrefl. done.
  - destruct Hl as (Ht & Hok & Hm & Hs & Hl). pose proof (span_nonneg _ _ _ Hl). pose proof (block_size _ Hok) as Hsz. pose proof heap_words. cbn [snd span] in *.
    rewrite (proj2 (Z.ltb_lt _ _)) by lia. unfold load at 1. unfold mbind at 1, M_bind at 1. rewrite Ht. destruct (IsMarked (o_tags o)) eqn:Em.
    + exists [], (o :: l). cbn. rewrite Z.add_0_r. split_and!; try done. by intros ? [= <-].
    + rewrite (heap_bind _ _ _ _ _ (object_size_spec s a o Hs Hok)). cbn in Hf.
      destruct (IH l (a + o_size o) Hl ltac:(lia) ltac:(lia)) as (u & rest & -> & Hu & Hr & E).
      exists (o :: u), rest. split_and!; [done | by constructor | done|]. rewrite E. cbn [span]. by rewrite Z.add_assoc.
Qed.

Lemma fill_spec n c v s : (forall k, (k < n)%nat -> is_Some (words_ s !! (c + Z.of_nat k * kWordSize)) /\ writable_ s ((c + Z.of_nat k * kWordSize) / PageSize) = true) ->
  exists w, fill n c v s = Ok (tt, with_words s w) /\ changes (fun x => c <= x < c + Z.of_nat n * kWordSize) (words_ s) w.
Proof.
  revert c s. induction n as [|n IH]; intros c s Hk; cbn [fill]; pose proof heap_words as (_ & HW & _).
  - exists (words_ s). split; [by destruct s | apply changes_refl].
  - destruct (Hk 0%nat ltac:(lia)) as [Hm Hw]. rewrite Z.mul_0_l, Z.add_0_r in Hm, Hw. rewrite (heap_bind _ _ _ _ _ (store_spec s c v Hm Hw)).
    set (s1 := with_words s (<[c := v]> (words_ s))).
    assert (changes (fun x => x = c) (words_ s) (words_ s1)) as Hc1 by by apply changes_insert.
    destruct (IH (c + kWordSize) s1) as (w & E & Hc).
    { intros k Hlt. destruct (Hk (S k) ltac:(lia)) as [H1 H2]. replace (c + kWordSize + Z.of_nat k * kWordSize) with (c + Z.of_nat (S k) * kWordSize) by lia.
      split; [by apply (changes_mapped _ _ _ Hc1) | done]. }
    exists w. split; [done|]. eapply changes_trans; (eapply changes_mono; [|exact Hc1 || exact Hc]); cbn beta; intros x; nia.
Qed.
Lemma fill_block s a n v : block_ok (a, n) -> mapped (words_ s) (a, n) -> (forall x, within (a, n) x = true -> writable_ s (x / PageSize) = true) ->
  exists w, fill (words_in n) a v s = Ok (tt, with_words s w) /\ changes (fun x => within (a, n) x = true) (words_ s) w.
Proof.
  intros [Hp Ha Hs Hu He] Hm Hw. pose proof heap_words as (E & HW & Em & _). cbn [fst snd] in *.
  assert (n = 2 * (n / kObjectAlignment) * kWordSize) as En by (rewrite (units_exact n Hu) at 1; lia).
  assert (n / kWordSize = 2 * (n / kObjectAlignment)) as Ed by (rewrite En at 1; by rewrite Z.div_mul by lia).
  assert (0 <= n / kObjectAlignment) by (apply Z.div_pos; lia). destruct (fill_spec (words_in n) a v s) as (w & Ef & Hc).
  - intros k Hk. unfold words_in in Hk. assert (within (a, n) (a + Z.of_nat k * kWordSize) = true) as Hin by (rewrite within_range; cbn; nia).
    split; [apply Hm; [done | by apply block_words] | by apply Hw].
  - exists w. split; [done|]. eapply changes_mono; [|exact Hc]. cbn beta. intros x Hx. rewrite within_range. cbn. unfold words_in in Hx. nia.
Qed.
End Facts.

(** * The correctness of sweeping *)

Section Sweep.
Context `{Target} {pages : Pages} (HeapSizeFromClass : gmap Z Z -> Z -> Z -> Z) (Hlocal : local_sizes HeapSizeFromClass) (page : OldPage).
#[local] Set Default Proof Using "Type".

(** Marked objects keep their words, but their marks are cleared. *)
Definition live_kept (w w' : gmap Z Z) (a : Z) (l : list object) : Prop := forall b tags, (b, tags) ∈ placed a l -> IsMarked tags = true ->
  w' !! fst b = Some (UpdateBool OldAndNotMarkedBit true tags) /\ forall x, within b x = true -> x <> fst b -> w' !! x = w !! x.

(** The effect of sweeping the objects [l] from [a] on; [skip] when the page is free as a whole. *)
Record swept s L a l (skip : bool) s' L' : Prop := {
  sw_inv : Inv s' L';
  sw_rest : same_rest (freelist_ s) (freelist_ s');
  sw_cover : forall x, cover (regions (freelist_ s') L') x = cover (regions (freelist_ s) L) x + (if skip then 0 else cover (dead a l) x);
  sw_live : live_kept (words_ s) (words_ s') a l;
  sw_words : changes (fun x => within (a, span l) x = true) (words_ s) (words_ s');
  sw_writable : writable_ s' = writable_ s
}.

(** What sweeping relies on: the rest of the page is objects that are not free. *)
Record sweepable s L a l : Prop := {
  sb_inv : Inv s L;
  sb_laid : laid HeapSizeFromClass (words_ s) a l;
  sb_separate : separate ((a, span l) :: regions (freelist_ s) L);
  sb_writable : forall x, within (a, span l) x = true -> writable_ s (x / PageSize) = true;
  sb_page : forall x, within (a, span l) x = true -> x .& kOldPageMask = page_address page;
  sb_end : object_end page = a + span l;
  sb_small : span l < 2 ^ (XLEN - 1);
  sb_image : is_image_page page = false
}.

Lemma old_object a : a mod kObjectAlignment = 0 -> IsOldObject a = true.
Proof.
  intros Ha. unfold IsOldObject. apply Z.eqb_eq. change kOldObjectAlignmentOffset with 0. rewrite kObjectAlignment_pow in Ha.
  assert (0 <= kObjectAlignmentLog2) by (unfold kObjectAlignmentLog2, kWordSizeLog2; by destruct TARGET_64).
  replace kObjectAlignmentMask with (Z.ones kObjectAlignmentLog2); [by rewrite Z.land_ones|].
  unfold kObjectAlignmentMask. rewrite kObjectAlignment_pow, Z.ones_equiv. lia.
Qed.

Lemma placed_in a l b tags w : laid HeapSizeFromClass w a l -> (b, tags) ∈ placed a l -> a <= fst b /\ fst b + snd b <= a + span l.
Proof.
  revert a. induction l as [|o l IH]; intros a Hl Hb; [by apply elem_of_nil in Hb|]. destruct Hl as (_ & Hok & _ & _ & Hl).
  pose proof (span_nonneg _ _ _ _ Hl). pose proof (block_size _ Hok). pose proof heap_words. cbn [placed span snd] in *.
  apply elem_of_cons in Hb as [[= -> ->]|Hb]; [cbn; lia|]. destruct (IH _ Hl Hb). lia.
Qed.

(** The part of [l] behind a prefix can still be swept after a change of the prefix. *)
Lemma sweepable_rest s L a u l s1 L1 : sweepable s L a (u ++ l) -> Inv s1 L1 -> changes (fun x => within (a, span u) x = true) (words_ s) (words_ s1) ->
  writable_ s1 = writable_ s -> (forall x, cover (regions (freelist_ s1) L1) x <= cover (regions (freelist_ s) L) x + Z.b2z (within (a, span u) x)) ->
  sweepable s1 L1 (a + span u) l.
Proof using Hlocal.
  intros [Si Sl Ss Sw Sp Se Sm Sim] Hi Hc Hw Hcov. apply laid_app in Sl as [Hu Hl]. rewrite span_app in *.
  pose proof (span_nonneg _ _ _ _ Hu). pose proof (span_nonneg _ _ _ _ Hl).
  assert (forall x, within (a + span u, span l) x = true -> within (a, span u + span l) x = true) as Hsub by (intros x; rewrite !within_range; cbn; lia).
  split; [done | | | | | lia | lia | done].
  - eapply laid_agree; [done | | exact Hl]. intros x Hx. apply (changes_other _ _ _ Hc). rewrite within_range. cbn. lia.
  - intros x. specialize (Ss x). specialize (Hcov x). cbn [cover] in *. rewrite (within_split a (span u + span l) (span u)) in Ss by lia.
    replace (span u + span l - span u) with (span l) in Ss by lia. lia.
  - intros x Hx. rewrite Hw. auto.
  - auto.
Qed.

Lemma clear_step s L a o l : sweepable s L a (o :: l) -> marked o = true ->
  let s1 := with_words s (<[a := UpdateBool OldAndNotMarkedBit true (o_tags o)]> (words_ s)) in
  ClearMarkBit a s = Ok (tt, s1) /\ Inv s1 L /\ changes (fun x => x = a) (words_ s) (words_ s1).
Proof.
  intros [Si (Ht & Hok & Hm & Hs & Hl) Ss Sw Sp Se Sm _] Ho s1. pose proof (block_size _ Hok) as Hsz. pose proof heap_words. cbn [span snd] in *.
  pose proof (span_nonneg _ _ _ _ Hl). assert (within (a, o_size o + span l) a = true) as Hin by (rewrite within_range; cbn; lia).
  assert (changes (fun x => x = a) (words_ s) (words_ s1)) as Hc by by apply changes_insert.
  split_and!; [| |done].
  - unfold ClearMarkBit. rewrite (heap_bind _ _ _ _ _ (check_ok _ _ (old_object a (block_aligned _ Hok)))).
    rewrite (heap_bind _ _ s (o_tags o) s) by (unfold load; by rewrite Ht). rewrite (heap_bind _ _ _ _ _ (check_ok _ _ Ho)).
    apply store_spec; [by eexists | by apply Sw].
  - apply (inv_words s _ L (a, o_size o + span l)); [done | done|]. eapply changes_mono; [|exact Hc]. by intros x ->.
Qed.

(** A run of unmarked objects. *)
Lemma free_step s L a n (skip : bool) : Inv s L -> block_ok (a, n) -> mapped (words_ s) (a, n) -> separate ((a, n) :: regions (freelist_ s) L) ->
  (forall x, within (a, n) x = true -> writable_ s (x / PageSize) = true) ->
  exists s' L', (_ ← (if is_executable page then fill (words_in n) a kBreakInstructionFiller else if DEBUG then fill (words_in n) a zap_word else mret tt);
      (if negb skip then FreeLocked a n else mret tt)) s = Ok (tt, s') /\ Inv s' L' /\ same_rest (freelist_ s) (freelist_ s') /\
    (forall x, cover (regions (freelist_ s') L') x = cover (regions (freelist_ s) L) x + (if skip then 0 else Z.b2z (within (a, n) x))) /\
    changes (fun x => within (a, n) x = true) (words_ s) (words_ s') /\ writable_ s' = writable_ s.
Proof.
  intros Hi Hok Hm Hsep Hw. pose proof Hok as [Hp Ha Hs Hu He]. pose proof heap_words as (E & HW & Em & _). cbn [fst snd] in *.
  assert (exists w, (if is_executable page then fill (words_in n) a kBreakInstructionFiller else if DEBUG then fill (words_in n) a zap_word else mret tt) s =
    Ok (tt, with_words s w) /\ changes (fun x => within (a, n) x = true) (words_ s) w) as (w & Ew & Hcw).
  { pose proof (fun v => fill_block s a n v Hok Hm Hw) as Hf.
    destruct (is_executable page); [apply Hf|]. destruct DEBUG; [apply Hf|]. exists (words_ s). split; [by destruct s | apply changes_refl]. }
  rewrite (heap_bind _ _ _ _ _ Ew). pose proof (inv_words s w L (a, n) Hi Hsep Hcw) as Hi1. destruct skip; cbn [negb].
  - exists (with_words s w), L. split_and!; try done. intros x. cbn [freelist_ with_words]. lia.
  - destruct (FreeLocked_spec (with_words s w) L (a, n) Hi1 Hok) as (s' & L' & Ef & [A1 A2 A3 A4 A5]); [by eapply mapped_changes | done | |].
    { intros x Hx. apply Hw. rewrite within_range. cbn [fst snd] in *. rewrite header_size in Hx by lia. destruct (Z.ltb_spec kMaxSizeTag n); lia. }
    exists s', L'. split_and!; try done. by eapply changes_trans.
Qed.
Lemma sweep_marked s L a o l : sweepable s L a (o :: l) -> marked o = true -> exists s1,
  ClearMarkBit a s = Ok (tt, s1) /\ sweepable s1 L (a + o_size o) l /\ words_ s1 !! a = Some (UpdateBool OldAndNotMarkedBit true (o_tags o)) /\
  changes (fun x => x = a) (words_ s) (words_ s1) /\ freelist_ s1 = freelist_ s /\ writable_ s1 = writable_ s.
Proof using Hlocal.
  intros Hsw Ho. destruct (clear_step s L a o l Hsw Ho) as (E & Hi & Hc). eexists. split; [exact E|]. split; [|split; [apply lookup_insert_eq | done]].
  pose proof (sb_laid _ _ _ _ Hsw) as (_ & Hok & _). pose proof (block_size _ Hok). pose proof heap_words. cbn [snd] in *.
  pose proof (sweepable_rest s L a [o] l (with_words s (<[a := UpdateBool OldAndNotMarkedBit true (o_tags o)]> (words_ s))) L Hsw Hi) as Hrest.
  cbn [span] in Hrest. rewrite Z.add_0_r in Hrest. apply Hrest; [|done|].
  - eapply changes_mono; [|exact Hc]. intros x ->. rewrite within_range. cbn. lia.
  - intros x. cbn [freelist_ with_words]. destruct (within _ x); cbn [Z.b2z]; lia.
Qed.

Lemma swept_marked s L a o l s1 s' L' : sweepable s L a (o :: l) -> marked o = true ->
  words_ s1 !! a = Some (UpdateBool OldAndNotMarkedBit true (o_tags o)) -> changes (fun x => x = a) (words_ s) (words_ s1) -> freelist_ s1 = freelist_ s ->
  writable_ s1 = writable_ s -> swept s1 L (a + o_size o) l false s' L' -> swept s L a (o :: l) false s' L'.
Proof.
  intros Hsw Ho Hv Hc Hf Hw [A1 A2 A3 A4 A5 A6]. pose proof (sb_laid _ _ _ _ Hsw) as (_ & Hok & _ & _ & Hl).
  pose proof (span_nonneg _ _ _ _ Hl). pose proof (block_size _ Hok). pose proof heap_words. cbn [snd] in *.
  assert (forall x, a <= x < a + o_size o -> words_ s' !! x = words_ s1 !! x) as Hb.
  { intros x Hx. apply (changes_other _ _ _ A5). rewrite within_range. cbn. lia. }
  rewrite Hf in A2, A3. split; [done | done | | | | by rewrite A6].
  - intros x. rewrite A3. f_equal. unfold dead at 2. cbn [placed]. rewrite filter_cons_False; [done|]. unfold marked in Ho. cbn. by rewrite Ho.
  - intros b tags Hin Hmk. cbn [placed] in Hin. apply elem_of_cons in Hin as [[= -> ->]|Hin].
    + cbn [fst]. split; [rewrite Hb by lia; done|]. intros x Hx Hne. apply within_range in Hx. cbn in Hx. rewrite Hb by lia. by apply (changes_other _ _ _ Hc).
    + destruct (A4 b tags Hin Hmk) as [B1 B2]. split; [done|]. intros x Hx Hne. rewrite B2 by done. apply (changes_other _ _ _ Hc).
      pose proof (placed_in _ _ _ _ _ Hl Hin). apply within_range in Hx. lia.
  - cbn [span]. eapply changes_trans; (eapply changes_mono; [|exact Hc || exact A5]); cbn beta; intros x Hx; rewrite within_range in *; cbn in *; lia.
Qed.

Lemma swept_run s L a u l (skip : bool) s1 L1 s' L' : sweepable s L a (u ++ l) -> Forall (fun o => marked o = false) u -> (skip = true -> l = []) ->
  same_rest (freelist_ s) (freelist_ s1) ->
  (forall x, cover (regions (freelist_ s1) L1) x = cover (regions (freelist_ s) L) x + (if skip then 0 else Z.b2z (within (a, span u) x))) ->
  changes (fun x => within (a, span u) x = true) (words_ s) (words_ s1) -> writable_ s1 = writable_ s ->
  swept s1 L1 (a + span u) l false s' L' -> swept s L a (u ++ l) skip s' L'.
Proof.
  intros Hsw Hu Hsk Hr Hcov Hc Hw [A1 A2 A3 A4 A5 A6]. pose proof (sb_laid _ _ _ _ Hsw) as [Hlu Hl]%laid_app.
  pose proof (span_nonneg _ _ _ _ Hl). pose proof (span_nonneg _ _ _ _ Hlu). split; [done | | | | | by rewrite A6].
  - destruct Hr as (R1 & R2 & R3 & R4), A2 as (R1' & R2' & R3' & R4'). split_and!; congruence.
  - intros x. rewrite A3, Hcov, dead_app, cover_app, (dead_run _ _ _ _ x Hlu Hu). destruct skip; [|lia]. rewrite (Hsk eq_refl). cbn. lia.
  - intros b tags Hin Hmk. rewrite placed_app in Hin. apply elem_of_app in Hin as [Hin|Hin].
    + exfalso. clear -Hin Hmk Hu. revert a Hin. induction Hu as [|o u Ho Hu IH]; intros a Hin; cbn in Hin; [by apply elem_of_nil in Hin|].
      apply elem_of_cons in Hin as [[= -> ->]|Hin]; [unfold marked in Ho; congruence | by eapply IH].
    + destruct (A4 b tags Hin Hmk) as [B1 B2]. split; [done|]. intros x Hx Hne. rewrite B2 by done. apply (changes_other _ _ _ Hc).
      pose proof (placed_in _ _ _ _ _ Hl Hin). rewrite within_range in *. cbn. lia.
  - rewrite span_app. eapply changes_trans; (eapply changes_mono; [|exact Hc || exact A5]); cbn beta; intros x Hx; rewrite within_range in *; cbn in *; lia.
Qed.
Definition all_dead (l : list object) : bool := forallb (fun o => negb (marked o)) l.

Lemma all_dead_spec l : all_dead l = true <-> Forall (fun o => marked o = false) l.
Proof.
  unfold all_dead. rewrite forallb_forall, Forall_forall. split; intros Hl o Ho; specialize (Hl o Ho); by apply negb_true_iff.
Qed.

Lemma live_bytes_app l l' : live_bytes (l ++ l') = live_bytes l + live_bytes l'.
Proof. unfold live_bytes. by rewrite list.filter_app, span_app. Qed.
Lemma live_bytes_dead l : Forall (fun o => marked o = false) l -> live_bytes l = 0.
Proof.
  intros Hl. unfold live_bytes. induction Hl as [|o l Ho Hl IH]; [done|]. rewrite filter_cons_False; [done|]. by rewrite Ho.
Qed.

Lemma swept_nil s L a : Inv s L -> swept s L a [] false s L.
Proof.
  intros Hi. split; try done; [intros x; cbn; lia | by intros b tags ?%elem_of_nil].
Qed.

(** The checks at the start of an iteration. *)
Lemma object_found {A} s L a o l (k : Z -> Z -> heap A) : sweepable s L a (o :: l) ->
  (of_current ← Of a; _ ← check (of_current =? page_address page); tags ← load a; size ← object_size HeapSizeFromClass a tags; k tags size) s = k (o_tags o) (o_size o) s.
Proof.
  intros Hsw. pose proof (sb_laid _ _ _ _ Hsw) as (Ht & Hok & _ & Hs & Hl). pose proof (span_nonneg _ _ _ _ Hl). pose proof (block_size _ Hok). pose proof heap_words.
  cbn [snd] in *. unfold Of. rewrite (heap_bind _ _ s (a .& kOldPageMask) s).
  2: { by rewrite (heap_bind _ _ _ _ _ (check_ok _ _ (old_object a (block_aligned _ Hok)))). }
  rewrite (sb_page _ _ _ _ Hsw a) by (rewrite within_range; cbn; lia). rewrite (heap_bind _ _ _ _ _ (check_ok _ _ (Z.eqb_refl _))).
  rewrite (heap_bind _ _ s (o_tags o) s) by (unfold load; by rewrite Ht). by rewrite (heap_bind _ _ _ _ _ (object_size_spec _ s a o Hs Hok)).
Qed.

Lemma heap_then {A} (m m' : heap unit) (k : heap A) s s' : (_ ← m; m') s = Ok (tt, s') -> (_ ← m; _ ← m'; k) s = k s'.
Proof. unfold mbind, M_bind. destruct (m s) as [[[] s1]|]; [|done]. intros E. by rewrite E. Qed.

Lemma span_pos w a l : laid HeapSizeFromClass w a l -> l <> [] -> 0 < span l.
Proof.
  destruct l as [|o l]; [done|]. intros (_ & Hok & _ & _ & Hl) _. pose proof (span_nonneg _ _ _ _ Hl). pose proof (block_size _ Hok). pose proof heap_words.
  cbn [snd span] in *. lia.
Qed.

(** A run of unmarked objects up to a marked one or the end of the page. *)
Lemma sweep_run {A} s L a u l (k : heap A) : sweepable s L a (u ++ l) -> u <> [] -> Forall (fun o => marked o = false) u -> (forall o, head l = Some o -> marked o = true) ->
  exists s1 L1, (_ ← (if is_executable page then fill (words_in (span u)) a kBreakInstructionFiller else if DEBUG then fill (words_in (span u)) a zap_word else mret tt);
      _ ← (if negb (a =? object_start page) || negb (a + span u =? object_end page) then FreeLocked a (span u) else mret tt); k) s = k s1 /\
    sweepable s1 L1 (a + span u) l /\ forall s' L', swept s1 L1 (a + span u) l false s' L' ->
      swept s L a (u ++ l) ((a =? object_start page) && all_dead (u ++ l) && negb (a =? object_end page)) s' L'.
Proof using Hlocal.
  intros Hsw Hne Hu Hh. pose proof (sb_laid _ _ _ _ Hsw) as [Hlu Hl]%laid_app. pose proof (span_nonneg _ _ _ _ Hl). pose proof (span_pos _ _ _ Hlu Hne).
  pose proof (sb_small _ _ _ _ Hsw) as Hsm. pose proof (sb_end _ _ _ _ Hsw) as He. rewrite span_app in Hsm, He.
  destruct (run_ok HeapSizeFromClass (words_ s) a u Hlu Hne ltac:(lia)) as [Hok Hm].
  assert (forall x, within (a, span u) x = true -> within (a, span (u ++ l)) x = true) as Hsub by (intros x; rewrite span_app, !within_range; cbn [fst snd]; lia).
  set (skip := (a =? object_start page) && (a + span u =? object_end page)). rewrite <- negb_andb. fold skip.
  destruct (free_step s L a (span u) skip (sb_inv _ _ _ _ Hsw) Hok Hm) as (s1 & L1 & E & Hi & Hr & Hc & Hw & Hp).
  { intros x. pose proof (sb_separate _ _ _ _ Hsw x) as Hx. cbn [cover] in *. pose proof (cover_nonneg (regions (freelist_ s) L) x).
    destruct (within (a, span u) x) eqn:Ex; [rewrite (Hsub x Ex) in Hx; done|]. destruct (within (a, span (u ++ l)) x); cbn [Z.b2z] in *; lia. }
  { intros x Hx. apply (sb_writable _ _ _ _ Hsw). auto. }
  exists s1, L1. split; [by apply heap_then|]. split.
  - apply (sweepable_rest s L a u l); try done. intros x. rewrite Hc. destruct skip, (within _ x); cbn [Z.b2z]; lia.
  - intros s' L' Hsp. replace (_ && _ && _) with skip.
    + apply (swept_run s L a u l skip s1 L1); try done. intros [_ Hz%Z.eqb_eq]%andb_true_iff.
      destruct l as [|o l]; [done|]. pose proof (span_pos _ _ _ Hl ltac:(done)). lia.
    + unfold skip. rewrite <- andb_assoc. f_equal. rewrite (proj2 (Z.eqb_neq a (object_end page))) by lia. rewrite andb_true_r. unfold all_dead. rewrite forallb_app.
      fold (all_dead u). rewrite (proj2 (all_dead_spec u) Hu). destruct l as [|o l].
      * cbn in *. apply Z.eqb_eq. lia.
      * pose proof (span_pos _ _ _ Hl ltac:(done)). cbn [forallb andb]. rewrite (Hh o eq_refl). apply Z.eqb_neq. lia.
Qed.

Lemma sweep_objects_spec fuel : forall s L a l used, sweepable s L a l -> (length l < fuel)%nat -> object_start page <= a ->
  exists s' L', sweep_objects HeapSizeFromClass fuel page a used s = Ok (used + live_bytes l, s') /\
    swept s L a l ((a =? object_start page) && all_dead l && negb (a =? object_end page)) s' L'.
Proof using Hlocal.
  induction fuel as [|fuel IH]; intros s L a l used Hsw Hf Hst; [lia|]. cbn [sweep_objects]. pose proof (sb_end _ _ _ _ Hsw) as He.
  destruct l as [|o l].
  - cbn [span] in He. rewrite Z.add_0_r in He. rewrite He, Z.ltb_irrefl, Z.eqb_refl. cbn [negb]. rewrite andb_false_r.
    rewrite (heap_bind _ _ _ _ _ (check_ok _ _ eq_refl)). exists s, L. split; [cbn; by rewrite Z.add_0_r|]. apply swept_nil, Hsw.
  - pose proof (sb_laid _ _ _ _ Hsw) as (Ht & Hok & Hm & Hs & Hl). pose proof (span_nonneg _ _ _ _ Hl). pose proof (block_size _ Hok) as Hsz. pose proof heap_words as (Ea & HW & _).
    cbn [snd span length] in *. rewrite (proj2 (Z.ltb_lt _ _)) by lia. rewrite (object_found s L a o l _ Hsw).
    destruct (IsMarked (o_tags o)) eqn:Em.
    + destruct (sweep_marked s L a o l Hsw Em) as (s1 & E1 & Hsw1 & Hv & Hc & Hfl & Hw). rewrite (heap_bind _ _ _ _ _ E1).
      destruct (IH s1 L (a + o_size o) l (used + o_size o) Hsw1 ltac:(lia) ltac:(lia)) as (s' & L' & E & Hsp). exists s', L'. split.
      * rewrite E. do 2 f_equal. unfold live_bytes. rewrite filter_cons_True by done. cbn [span]. lia.
      * replace (all_dead (o :: l)) with false by (unfold all_dead, marked; cbn; by rewrite Em). rewrite andb_false_r. cbn [andb].
        rewrite (proj2 (Z.eqb_neq (a + o_size o) (object_start page))) in Hsp by lia. by apply (swept_marked s L a o l s1).
    + destruct (free_run_spec HeapSizeFromClass s (S fuel) l (a + o_size o) (object_end page) Hl ltac:(lia) ltac:(lia)) as (u & rest & -> & Hu & Hr & E1).
      rewrite (heap_bind _ _ _ _ _ E1). cbv zeta. replace (a + o_size o + span u) with (a + span (o :: u)) by (cbn [span]; lia).
      replace (a + span (o :: u) - a) with (span (o :: u)) by lia. change (o :: u ++ rest) with ((o :: u) ++ rest) in *.
      assert (Forall (fun o => marked o = false) (o :: u)) as Hrun by by constructor.
      destruct (sweep_run s L a (o :: u) rest (sweep_objects HeapSizeFromClass fuel page (a + span (o :: u)) used) Hsw ltac:(done) Hrun Hr) as (s1 & L1 & E2 & Hsw1 & Hfin).
      rewrite E2. rewrite length_app in Hf. pose proof (sb_laid _ _ _ _ Hsw) as [Hlr _]%laid_app. pose proof (span_pos _ _ _ Hlr ltac:(done)).
      destruct (IH s1 L1 (a + span (o :: u)) rest used Hsw1 ltac:(lia) ltac:(lia)) as (s' & L' & E & Hsp). exists s', L'. split.
      * by rewrite E, live_bytes_app, (live_bytes_dead _ Hrun).
      * apply Hfin. by rewrite (proj2 (Z.eqb_neq (a + span (o :: u)) (object_start page))) in Hsp by lia.
Qed.

Lemma laid_length w a l : laid HeapSizeFromClass w a l -> Z.of_nat (length l) <= span l / kObjectAlignment.
Proof.
  pose proof heap_words as (E & HW & _). intros Hl. apply Z.div_le_lower_bound; [lia|]. revert a Hl.
  induction l as [|o l IH]; intros a; [cbn; lia|]. intros (_ & Hok & _ & _ & Hl). specialize (IH _ Hl). pose proof (block_size _ Hok). cbn [length span snd] in *. lia.
Qed.

Lemma live_bytes_zero w a l : laid HeapSizeFromClass w a l -> (live_bytes l =? 0) = all_dead l /\ 0 <= live_bytes l.
Proof.
  revert a. induction l as [|o l IH]; intros a Hl; [done|]. destruct Hl as (_ & Hok & _ & _ & Hl). destruct (IH _ Hl) as [E Hn].
  pose proof (block_size _ Hok). pose proof heap_words. cbn [snd] in *. unfold live_bytes, all_dead in *. cbn [forallb]. destruct (marked o) eqn:Em.
  - rewrite filter_cons_True by done. cbn [span negb andb]. split; [apply Z.eqb_neq; lia | lia].
  - rewrite filter_cons_False by (by rewrite Em). cbn [negb andb]. done.
Qed.

Lemma SweepPage_spec s L l : sweepable s L (object_start page) l ->
  exists s' L', SweepPage HeapSizeFromClass page s = Ok (live_bytes l, negb (all_dead l), s') /\ swept s L (object_start page) l (all_dead l) s' L'.
Proof using Hlocal.
  intros Hsw. pose proof (sb_laid _ _ _ _ Hsw) as Hl. pose proof (sb_end _ _ _ _ Hsw) as He. pose proof (laid_length _ _ _ Hl) as Hlen.
  destruct (live_bytes_zero _ _ _ Hl) as [Ez _]. unfold SweepPage.
  rewrite (heap_bind _ _ _ _ _ (check_ok _ _ (proj2 (negb_true_iff _) (sb_image _ _ _ _ Hsw)))).
  destruct (sweep_objects_spec (S (S (Z.to_nat ((object_end page - object_start page) / kObjectAlignment)))) s L (object_start page) l 0 Hsw) as (s' & L' & E & Hsp).
  { replace (object_end page - object_start page) with (span l) by lia. lia. }
  { done. }
  rewrite (heap_bind _ _ _ _ _ E). rewrite Z.add_0_l, Ez. exists s', L'. split; [done|]. rewrite Z.eqb_refl in Hsp. cbn [andb] in Hsp.
  destruct l as [|o l]; [|by rewrite (proj2 (Z.eqb_neq (object_start page) (object_end page))), andb_true_r in Hsp by (pose proof (span_pos _ _ _ Hl ltac:(done)); lia)].
  cbn [span] in He. rewrite He, Z.add_0_r, Z.eqb_refl in Hsp. destruct Hsp as [A1 A2 A3 A4 A5 A6]. by split.
Qed.
End Sweep.

(** * Sweeping a large page *)

Section Large.
Context `{Target} {pages : Pages} (HeapSizeFromClass : gmap Z Z -> Z -> Z -> Z) (Hlocal : local_sizes HeapSizeFromClass) (page : OldPage).
#[local] Set Default Proof Using "Type".

(** The class of an object determines its size, whatever else its header says. *)
Definition sizes_by_class : Prop := forall w a tags tags', decode ClassIdTag tags' = decode ClassIdTag tags ->
  HeapSizeFromClass w a tags' = HeapSizeFromClass w a tags.
Context (Hclass : sizes_by_class).

Fixpoint classed (w : gmap Z Z) (a : Z) (l : list object) : Prop :=
  match l with [] => True | o :: l => HeapSizeFromClass w a (o_tags o) = o_size o /\ classed w (a + o_size o) l end.

Lemma HeapSize_object s a o : words_ s !! a = Some (o_tags o) -> sized HeapSizeFromClass (words_ s) a o -> HeapSizeFromClass (words_ s) a (o_tags o) = o_size o ->
  block_ok (a, o_size o) -> UntaggedObject_HeapSize HeapSizeFromClass a s = Ok (o_size o, s).
Proof.
  intros Ht Hs Hc Hok. pose proof (block_size _ Hok). pose proof heap_words as (E & HW & _). cbn [snd] in *. unfold UntaggedObject_HeapSize.
  rewrite (heap_bind _ _ s (o_tags o) s) by (unfold load; by rewrite Ht). cbv zeta.
  assert (size_from_class HeapSizeFromClass a (o_tags o) s = Ok (o_size o, s)) as Es by (unfold size_from_class; by rewrite Hc).
  destruct Hs as [->|(-> & Hm & _)].
  - rewrite (proj2 (Z.eqb_neq _ _)) by lia. cbn [negb]. rewrite (heap_bind _ _ _ _ _ Es). by rewrite (heap_bind _ _ _ _ _ (check_ok _ _ (Z.eqb_refl _))).
  - cbn [Z.eqb negb]. rewrite (heap_bind _ _ _ _ _ Es). by rewrite (heap_bind _ _ _ _ _ (check_ok _ _ (proj2 (Z.ltb_lt _ _) Hm))).
Qed.

Lemma classed_agree w w' a l : laid HeapSizeFromClass w a l -> (forall x, a <= x -> w' !! x = w !! x) -> classed w a l -> classed w' a l.
Proof using Hlocal.
  revert a. induction l as [|o l IH]; intros a Hl Ha; [done|]. destruct Hl as (_ & Hok & _ & _ & Hl). intros [Hc Hcl].
  pose proof (block_size _ Hok). pose proof heap_words. cbn [snd] in *. split.
  - apply (Hlocal w); [done|]. intros x Hx _. apply Ha. apply within_range in Hx. cbn in Hx. lia.
  - apply IH; [done | | done]. intros x Hx. apply Ha. lia.
Qed.

(** A flag outside of a field does not change it. *)
Lemma decode_UpdateBool f p b v : field_wf f -> 0 <= p < 32 -> (p < position f \/ position f + size f <= p) -> 0 <= v < 2 ^ XLEN ->
  decode f (UpdateBool (flag p) b v) = decode f v.
Proof.
  intros Hf Hp Hd Hv. rewrite !decode_bits by (done || by apply UpdateBool_word). apply Z.bits_inj'. intros i Hi.
  rewrite !Z.land_spec, !Z.shiftr_spec by lia. destruct Hf as (Hpos & Hs & Hb & _). destruct (Z.ltb_spec i (size f)).
  - rewrite UpdateBool_bits by lia. by rewrite (proj2 (Z.eqb_neq _ _)) by lia.
  - by rewrite Z.testbit_ones_nonneg, (proj2 (Z.ltb_ge _ _)), !andb_false_r by lia.
Qed.

(** Clearing the mark keeps the size. *)
Definition unmark (o : object) : object := {| o_size := o_size o; o_tags := UpdateBool OldAndNotMarkedBit true (o_tags o) |}.

Lemma unmark_sized w a o : 0 <= o_tags o < 2 ^ XLEN -> HeapSizeFromClass w a (o_tags o) = o_size o -> sized HeapSizeFromClass w a o ->
  let w' := <[a := o_tags (unmark o)]> w in HeapSizeFromClass w' a (o_tags (unmark o)) = o_size o /\ sized HeapSizeFromClass w' a (unmark o).
Proof using Hlocal Hclass.
  intros Hw Hc Hs w'.
  assert (forall f, f = SizeBits \/ f = ClassIdTag -> decode f (UpdateBool OldAndNotMarkedBit true (o_tags o)) = decode f (o_tags o)) as Hd.
  { intros f [-> | ->]; (apply decode_UpdateBool; [apply SizeBits_wf || apply class_tag_wf | by vm_compute | by left | done]). }
  assert (HeapSizeFromClass w' a (o_tags (unmark o)) = o_size o) as Hc'.
  { rewrite (Hclass w' a (o_tags o)) by (by apply Hd; right). apply (Hlocal w); [done|]. intros x _ Hne. unfold w'. by rewrite lookup_insert_ne by congruence. }
  split; [done|]. unfold sized, SizeTag_decode. cbn [o_tags o_size unmark]. rewrite (Hd SizeBits) by by left.
  destruct Hs as [Hs|(H1 & H2 & _)]; [by left | right; by split_and!].
Qed.

Lemma zap_fillers_spec fuel : forall s a l end', laid HeapSizeFromClass (words_ s) a l -> classed (words_ s) a l -> Forall (fun o => marked o = false) l ->
  (forall x, within (a, span l) x = true -> writable_ s (x / PageSize) = true) -> end' = a + span l -> (length l < fuel)%nat ->
  exists w, zap_fillers HeapSizeFromClass fuel end' a s = Ok (tt, with_words s w) /\ changes (fun x => within (a, span l) x = true) (words_ s) w.
Proof using Hlocal.
  induction fuel as [|fuel IH]; intros s a l end' Hl Hc Hd Hw -> Hf; [lia|]. cbn [zap_fillers]. destruct l as [|o l].
  - cbn [span]. rewrite Z.add_0_r, Z.ltb_irrefl. exists (words_ s). split; [by destruct s | apply changes_refl].
  - destruct Hl as (Ht & Hok & Hm & Hs & Hl), Hc as [Hco Hc]. apply Forall_cons_1 in Hd as [Ho Hd]. pose proof (span_nonneg _ _ _ _ Hl). pose proof (block_size _ Hok).
    pose proof heap_words. cbn [snd span length] in *. rewrite (proj2 (Z.ltb_lt _ _)) by lia.
    rewrite (heap_bind _ _ _ _ _ (check_ok _ _ (old_object a (block_aligned _ Hok)))). rewrite (heap_bind _ _ s (o_tags o) s) by (unfold load; by rewrite Ht).
    rewrite (heap_bind _ _ _ _ _ (check_ok _ _ (proj2 (negb_true_iff _) Ho))). rewrite (heap_bind _ _ _ _ _ (HeapSize_object s a o Ht Hs Hco Hok)).
    destruct (fill_block s a (o_size o) zap_word Hok Hm) as (w1 & E1 & C1); [intros x Hx; apply Hw; rewrite within_range in *; cbn in *; lia|].
    rewrite (heap_bind _ _ _ _ _ E1).
    assert (forall x, a + o_size o <= x -> w1 !! x = words_ s !! x) as Hag by (intros x Hx; apply (changes_other _ _ _ C1); rewrite within_range; cbn; lia).
    destruct (IH (with_words s w1) (a + o_size o) l (a + (o_size o + span l))) as (w & E & C); try done; try lia.
    + by apply (laid_agree _ Hlocal (words_ s)).
    + by apply (classed_agree (words_ s)).
    + intros x Hx. apply Hw. rewrite within_range in *. cbn in *. lia.
    + exists w. split; [done|]. eapply changes_trans; (eapply changes_mono; [|exact C1 || exact C]); cbn beta; intros x Hx; rewrite within_range in *; cbn in *; lia.
Qed.

(** A large page: one object, and fillers. *)
Record large_page s o l : Prop := {
  lp_laid : laid HeapSizeFromClass (words_ s) (object_start page) (o :: l);
  lp_classed : classed (words_ s) (object_start page) (o :: l);
  lp_header : 0 <= o_tags o < 2 ^ XLEN;
  lp_fillers : Forall (fun o => marked o = false) l;
  lp_writable : forall x, within (object_start page, span (o :: l)) x = true -> writable_ s (x / PageSize) = true;
  lp_page : object_start page .& kOldPageMask = page_address page;
  lp_end : object_end page = object_start page + span (o :: l);
  lp_image : is_image_page page = false
}.

(** The header of the object after the sweep. *)
Definition swept_tags (o : object) : Z := if marked o then UpdateBool OldAndNotMarkedBit true (o_tags o) else o_tags o.

Lemma clear_large s o l : large_page s o l -> exists s1, let o1 := {| o_size := o_size o; o_tags := swept_tags o |} in
  (if marked o then _ ← ClearMarkBit (object_start page); size ← UntaggedObject_HeapSize HeapSizeFromClass (object_start page); mret (size >> kWordSizeLog2) else mret 0) s =
    Ok (if marked o then o_size o / kWordSize else 0, s1) /\
  words_ s1 !! object_start page = Some (swept_tags o) /\ sized HeapSizeFromClass (words_ s1) (object_start page) o1 /\
  HeapSizeFromClass (words_ s1) (object_start page) (swept_tags o) = o_size o /\
  changes (fun x => x = object_start page) (words_ s) (words_ s1) /\ freelist_ s1 = freelist_ s /\ writable_ s1 = writable_ s.
Proof using Hlocal Hclass.
  intros [(Ht & Hok & Hm & Hs & Hl) [Hco Hc] Hh Hd Hw Hp He Him]. set (a := object_start page) in *. unfold swept_tags. destruct (marked o) eqn:Em.
  2: { exists s. split_and!; try done. }
  destruct (unmark_sized (words_ s) a o Hh Hco Hs) as [Hc' Hs']. set (w' := <[a := o_tags (unmark o)]> (words_ s)) in *.
  pose proof (span_nonneg _ _ _ _ Hl). pose proof (block_size _ Hok). pose proof heap_words as (Ea & HW & _ & Ep & Hlg). cbn [snd span] in *.
  assert (ClearMarkBit a s = Ok (tt, with_words s w')) as E.
  { unfold ClearMarkBit. rewrite (heap_bind _ _ _ _ _ (check_ok _ _ (old_object a (block_aligned _ Hok)))).
    rewrite (heap_bind _ _ s (o_tags o) s) by (unfold load; by rewrite Ht). rewrite (heap_bind _ _ _ _ _ (check_ok _ _ Em)).
    apply store_spec; [by eexists | apply Hw; rewrite within_range; cbn; lia]. }
  exists (with_words s w'). cbv zeta. rewrite (heap_bind _ _ _ _ _ E).
  assert (w' !! a = Some (o_tags (unmark o))) as Ht' by apply lookup_insert_eq.
  rewrite (heap_bind _ _ _ _ _ (HeapSize_object (with_words s w') a (unmark o) Ht' Hs' Hc' Hok)). split_and!; try done; [|by apply changes_insert].
  unfold mret, M_ret. do 2 f_equal. rewrite Z.shiftr_div_pow2 by done. by rewrite <- Ep.
Qed.

Lemma SweepLargePage_spec s o l : large_page s o l -> exists s',
  SweepLargePage HeapSizeFromClass page s = Ok (if marked o then o_size o / kWordSize else 0, s') /\
  words_ s' !! object_start page = Some (swept_tags o) /\
  changes (fun x => x = object_start page \/ within (object_start page + o_size o, span l) x = true) (words_ s) (words_ s') /\
  freelist_ s' = freelist_ s /\ writable_ s' = writable_ s.
Proof using Hlocal Hclass.
  intros Hlp. destruct (clear_large s o l Hlp) as (s1 & E1 & Ht1 & Hs1 & Hc1 & C1 & Hf1 & Hw1).
  pose proof Hlp as [(Ht & Hok & Hm & Hs & Hl) [Hco Hc] Hh Hd Hw Hp He Him]. set (a := object_start page) in *.
  pose proof (span_nonneg _ _ _ _ Hl). pose proof (block_size _ Hok). pose proof heap_words as (Ea & HW & _). cbn [snd span] in *.
  pose proof (old_object a (block_aligned _ Hok)) as Hold. unfold SweepLargePage.
  rewrite (heap_bind _ _ _ _ _ (check_ok _ _ (proj2 (negb_true_iff _) Him))). fold a. unfold Of.
  rewrite (heap_bind _ _ s (page_address page) s) by (rewrite (heap_bind _ _ _ _ _ (check_ok _ _ Hold)); by rewrite Hp).
  rewrite (heap_bind _ _ _ _ _ (check_ok _ _ (Z.eqb_refl _))), (heap_bind _ _ _ _ _ (check_ok _ _ Hold)).
  rewrite (heap_bind _ _ s (o_tags o) s) by (unfold load; by rewrite Ht). fold (marked o). rewrite (heap_bind _ _ _ _ _ E1).
  assert (forall x, a + o_size o <= x -> words_ s1 !! x = words_ s !! x) as Hag by (intros x Hx; apply (changes_other _ _ _ C1); lia).
  destruct DEBUG.
  - pose proof (HeapSize_object s1 a {| o_size := o_size o; o_tags := swept_tags o |} Ht1 Hs1 Hc1 Hok) as Eh. cbn [o_size] in Eh.
    destruct (zap_fillers_spec (S (Z.to_nat ((object_end page - a) / kObjectAlignment))) s1 (a + o_size o) l (object_end page)) as (w & E & C); try done.
    + apply (laid_agree _ Hlocal (words_ s)); [done | exact Hl].
    + by apply (classed_agree (words_ s)).
    + intros x Hx. rewrite Hw1. apply Hw. rewrite within_range in *. cbn in *. lia.
    + lia.
    + pose proof (laid_length _ _ _ _ Hl). assert (span l / kObjectAlignment <= (object_end page - a) / kObjectAlignment) by (apply Z.div_le_mono; lia). lia.
    + exists (with_words s1 w). split_and!; try done.
      * rewrite (heap_bind _ _ s1 tt (with_words s1 w)); [done|]. by rewrite (heap_bind _ _ _ _ _ Eh).
      * rewrite <- Ht1. apply (changes_other _ _ _ C). rewrite within_range. cbn. lia.
      * eapply changes_trans; (eapply changes_mono; [|exact C1 || exact C]); cbn beta; auto.
  - exists s1. split_and!; try done. eapply changes_mono; [|exact C1]. cbn. by left.
Qed.
End Large.
