(* ===== verification/DataStream.v ===== *)
(** * Data streams

    [ReadStream] and the write streams of [src/runtime/vm/datastream.h] and [datastream.cc], in
    which snapshots and messages are encoded: signed and unsigned numbers of variable length,
    LEB128 and SLEB128, raw bytes and alignment.

    A byte is a number below 256.  A write stream is the buffer it fills, the position in it
    and, for a streaming one, the bytes it has handed to its callback; a null buffer is [None].
    [realloc] of the host and of zones is a parameter.  Numbers of an unsigned type are those
    below a power of two, and a value of a signed type is read as its bit pattern.  Sizes and
    positions are mathematical integers: a buffer does not reach half the address space. *)
From S2P Require Import Prelude Utils Constants Memory.

(** The host's [realloc]: the old buffer, the new size, and the new buffer if there is one. *)
Class Allocator := { realloc : option (list Z) -> Z -> option (list Z) }.

Inductive StreamKind := MallocWriteStream | ZoneWriteStream | StreamingWriteStream.

Record ReadStream := { read_buffer_ : list Z; read_current_ : Z }.
Record WriteStream := {
  stream_kind : StreamKind;
  initial_size_ : Z;
  write_buffer_ : option (list Z);
  write_current_ : Z;
  capacity_ : Z;
  flushed_ : list Z
}.

Definition kDataBitsPerByte : Z := 7.
Definition kByteMask : Z := (1 << kDataBitsPerByte) - 1.
Definition kMaxUnsignedDataPerByte : Z := kByteMask.
Definition kMinDataPerByte : Z := - (1 << (kDataBitsPerByte - 1)).
Definition kMaxDataPerByte : Z := Z.lnot kMinDataPerByte .& kByteMask.
Definition kEndByteMarker : Z := 255 - kMaxDataPerByte.
Definition kEndUnsignedByteMarker : Z := 255 - kMaxUnsignedDataPerByte.

(** [LEB128Constants]. *)
Definition kDataByteMask : Z := (1 << kDataBitsPerByte) - 1.
Definition kMoreDataMask : Z := 1 << kDataBitsPerByte.
Definition kSignMask : Z := 1 << (kDataBitsPerByte - 1).

Abbreviation reader := (M ReadStream).
Abbreviation writer := (M WriteStream).

Section Streams.
Context `{Target}.

Definition assert_ {S} (b : bool) : M S unit := fun s =>
  match ASSERT b with Ok _ => Ok (tt, s) | Err e => Err e end.
Definition value_of {S A} (r : result A) : M S A := fun s =>
  match r with Ok a => Ok (a, s) | Err e => Err e end.
Definition this {S} : M S S := fun s => Ok (s, s).

(** [x << s] of an [n]-bit unsigned number; the type the shift is done in has at least 32 bits. *)
Definition shift_left {S} (n x s : Z) : M S Z :=
  if s <? Z.max n 32 then mret (uwrap n (x << s)) else fail UndefinedShift.

(** ** Reading *)

Definition read_end_ (s : ReadStream) : Z := Z.of_nat (length (read_buffer_ s)).
Definition read_at (s : ReadStream) (current : Z) : ReadStream := {| read_buffer_ := read_buffer_ s; read_current_ := current |}.

(** [*current_++]. *)
Definition next_byte : reader Z := fun s =>
  if read_current_ s <? 0 then Err (HostFault (read_current_ s))
  else match read_buffer_ s !! Z.to_nat (read_current_ s) with
       | Some b => Ok (b, read_at s (read_current_ s + 1))
       | None => Err (HostFault (read_current_ s))
       end.
Definition set_current (current : Z) : reader unit := fun s => Ok (tt, read_at s current).

Definition ReadByte : reader Z :=
  s ← this;
  _ ← assert_ (read_current_ s <? read_end_ s);
  next_byte.

Definition Advance (value : Z) : reader unit :=
  s ← this;
  _ ← assert_ (value <=? read_end_ s - read_current_ s);
  set_current (read_current_ s + value).

Definition ReadStream_SetPosition (value : Z) : reader unit :=
  s ← this;
  _ ← assert_ (value <=? read_end_ s);
  set_current value.

Definition PendingBytes : reader Z :=
  s ← this;
  _ ← assert_ (read_current_ s <=? read_end_ s);
  mret (read_end_ s - read_current_ s).

Definition ReadStream_Align (alignment : Z) : reader unit :=
  s ← this;
  let position_before := read_current_ s in
  position_after ← value_of (RoundUp position_before alignment);
  Advance (position_after - position_before).

Definition peek_bytes (len : Z) : reader (list Z) := fun s =>
  if (read_current_ s <? 0) || (read_end_ s <? read_current_ s + len) then Err (HostFault (read_current_ s))
  else Ok (take (Z.to_nat len) (drop (Z.to_nat (read_current_ s)) (read_buffer_ s)), s).
Definition ReadBytes (len : Z) : reader (list Z) :=
  s ← this;
  _ ← assert_ (len <=? read_end_ s - read_current_ s);
  bytes ← (if negb (len =? 0) then peek_bytes len else mret []);
  _ ← set_current (read_current_ s + len);
  mret bytes.

(** The loop of [Read], from the byte [b] on; [r] is the bit pattern read so far. *)
Fixpoint read_data (fuel : nat) (n end_byte_marker r s b : Z) : reader Z :=
  match fuel with
  | O => fail LoopFuelExhausted
  | S fuel =>
      part ← shift_left n b s;
      let r := r .| part in
      let s := s + kDataBitsPerByte in
      b ← ReadByte;
      if b <=? kMaxUnsignedDataPerByte then read_data fuel n end_byte_marker r s b
      else
        part ← shift_left n (uwrap n (b - end_byte_marker)) s;
        mret (r .| part)
  end.

(** [Read<T>(end_byte_marker)].  A byte is read per iteration, which bounds the loop. *)
Definition Read_marked (T : ctype) (end_byte_marker : Z) : reader Z :=
  let n := bits_of T in
  b ← ReadByte;
  if kMaxUnsignedDataPerByte <? b then mret (cast T (uwrap n (b - end_byte_marker)))
  else
    s ← this;
    r ← read_data (S (length (read_buffer_ s))) n end_byte_marker 0 0 b;
    mret (cast T r).

Definition Read (T : ctype) : reader Z := Read_marked T kEndByteMarker.
Definition ReadUnsigned (T : ctype) : reader Z := Read_marked T kEndUnsignedByteMarker.

(** [UNROLLED_BODY] for each of [bodies], then [UNROLLED_END]. *)
Fixpoint unrolled (n end_byte_marker : Z) (bodies : list Z) (end_start r : Z) : reader Z :=
  match bodies with
  | [] =>
      b ← ReadByte;
      _ ← assert_ (kMaxUnsignedDataPerByte <? b);
      part ← shift_left n (uwrap n (b - end_byte_marker)) end_start;
      mret (uwrap n (r .| part))
  | bit_start :: bodies =>
      b ← ReadByte;
      if kMaxUnsignedDataPerByte <? b then
        part ← shift_left n (uwrap n (b - end_byte_marker)) bit_start;
        mret (uwrap n (r .| part))
      else
        part ← shift_left n b bit_start;
        unrolled n end_byte_marker bodies end_start (r .| part)
  end.
Definition UNROLLED (n end_byte_marker : Z) (bodies : list Z) (end_start : Z) : reader Z :=
  b ← ReadByte;
  if kMaxUnsignedDataPerByte <? b then mret (uwrap n (b - end_byte_marker))
  else unrolled n end_byte_marker bodies end_start b.

Definition Read16 (end_byte_marker : Z) : reader Z := UNROLLED 16 end_byte_marker [7] 14.
Definition Read32 (end_byte_marker : Z) : reader Z := UNROLLED 32 end_byte_marker [7; 14; 21] 28.
Definition Read64 (end_byte_marker : Z) : reader Z := UNROLLED 64 end_byte_marker [7; 14; 21; 28; 35; 42; 49; 56] 63.

(** [Raw<sizeof(T), T>::Read]. *)
Definition RawRead (T : ctype) : reader Z :=
  bits ← (if bits_of T =? 8 then ReadByte
          else if bits_of T =? 16 then Read16 kEndByteMarker
          else if bits_of T =? 32 then Read32 kEndByteMarker
          else Read64 kEndByteMarker);
  mret (cast T bits).

Fixpoint read_words (n : nat) (j value : Z) : reader Z :=
  match n with
  | O => mret value
  | S n =>
      partial_value ← RawRead uint32_t;
      part ← shift_left XLEN partial_value (j * 32);
      read_words n (j + 1) (value .| part)
  end.
Definition ReadWordWith32BitReads : reader Z := read_words (Z.to_nat (XLEN / 32)) 0 0.

(** The loop of [ReadLEB128] and [ReadSLEB128]: the bits, their number and the last byte. *)
Fixpoint read_leb128 (fuel : nat) (n r s : Z) : reader (Z * Z * Z) :=
  match fuel with
  | O => fail LoopFuelExhausted
  | S fuel =>
      _ ← assert_ (s <? n);
      b ← ReadByte;
      part ← shift_left n (b .& kDataByteMask) s;
      let r := r .| part in
      let s := s + kDataBitsPerByte in
      if negb (b .& kMoreDataMask =? 0) then read_leb128 fuel n r s else mret (r, s, b)
  end.

Definition ReadLEB128 (T : ctype) : reader Z :=
  let n := bits_of T in
  st ← this;
  '(r, s, _) ← read_leb128 (S (length (read_buffer_ st))) n 0 0;
  _ ← assert_ (s <? kDataBitsPerByte + n);
  mret (cast T r).

Definition ReadSLEB128 (T : ctype) : reader Z :=
  let n := bits_of T in
  st ← this;
  '(r, s, b) ← read_leb128 (S (length (read_buffer_ st))) n 0 0;
  _ ← assert_ (s <? kDataBitsPerByte + n);
  sign_bits ← (if negb (b .& kSignMask =? 0) && (s <? n) then
                 one ← shift_left n 1 s;
                 mret (uwrap n (Z.lnot (one - 1)))
               else mret 0);
  mret (cast T (r .| sign_bits)).
End Streams.

(** ** Writing *)

Section Writing.
Context `{Target} `{Allocator}.

(** [Utils::RoundUpToPowerOfTwo]. *)
Definition RoundUpToPowerOfTwo (x : Z) : Z :=
  let x := uintx (x - 1) in
  let x := x .| (x >> 1) in
  let x := x .| (x >> 2) in
  let x := x .| (x >> 4) in
  let x := x .| (x >> 8) in
  let x := x .| (x >> 16) in
  let x := if TARGET_64 then x .| (x >> 32) else x in
  uintx (x + 1).

Definition new_stream (kind : StreamKind) (initial_size : Z) : WriteStream :=
  {| stream_kind := kind; initial_size_ := RoundUpToPowerOfTwo initial_size; write_buffer_ := None; write_current_ := 0;
     capacity_ := 0; flushed_ := [] |}.

Definition bytes_of (s : WriteStream) : list Z := default [] (write_buffer_ s).
Definition flushed_size_ (s : WriteStream) : Z := Z.of_nat (length (flushed_ s)).

(** [Position] of the class and of its base class. *)
Definition Position (s : WriteStream) : Z :=
  match stream_kind s with StreamingWriteStream => flushed_size_ s + write_current_ s | _ => write_current_ s end.
Definition Remaining (s : WriteStream) : Z := capacity_ s - write_current_ s.

Definition with_buffer (s : WriteStream) (buffer : option (list Z)) (capacity current : Z) : WriteStream :=
  {| stream_kind := stream_kind s; initial_size_ := initial_size_ s; write_buffer_ := buffer; write_current_ := current;
     capacity_ := capacity; flushed_ := flushed_ s |}.

Definition Flush : writer unit := fun s =>
  let size := write_current_ s in
  Ok (tt, {| stream_kind := stream_kind s; initial_size_ := initial_size_ s; write_buffer_ := write_buffer_ s; write_current_ := 0;
             capacity_ := capacity_ s; flushed_ := flushed_ s ++ take (Z.to_nat size) (bytes_of s) |}).

(** The buffer is replaced by one of [size] bytes, with the current position at [offset]. *)
Definition resize (size offset : Z) : writer unit := fun s =>
  match realloc (write_buffer_ s) size with
  | Some buffer => Ok (tt, with_buffer s (Some buffer) size offset)
  | None => Ok (tt, with_buffer s None 0 0)
  end.

Definition Realloc (new_size : Z) : writer unit :=
  s ← this;
  match stream_kind s with
  | MallocWriteStream | ZoneWriteStream => resize new_size (write_current_ s)
  | StreamingWriteStream =>
      _ ← Flush;
      s ← this;
      if new_size <=? capacity_ s then mret tt
      else
        new_capacity ← value_of (RoundUp new_size (64 * 1024));
        resize new_capacity 0
  end.

Definition EnsureSpace (size_needed : Z) : writer unit :=
  s ← this;
  if size_needed <=? Remaining s then mret tt
  else
    increment_size ← (if capacity_ s <? size_needed then value_of (RoundUp size_needed (initial_size_ s)) else mret (capacity_ s));
    let new_size := capacity_ s + increment_size in
    _ ← assert_ (capacity_ s <? new_size);
    _ ← Realloc new_size;
    s ← this;
    match write_buffer_ s with
    | None => fail OutOfMemoryError
    | Some _ => assert_ (size_needed <=? Remaining s)
    end.

(** Bytes are stored at the current position. *)
Definition store_bytes (bytes : list Z) : writer unit := fun s =>
  match write_buffer_ s with
  | Some buffer =>
      let n := Z.to_nat (write_current_ s) in
      if (length buffer <? n + length bytes)%nat then Err (HostFault (write_current_ s))
      else Ok (tt, with_buffer s (Some (take n buffer ++ bytes ++ drop (n + length bytes) buffer)) (capacity_ s) (write_current_ s))
  | None => Err (HostFault 0)
  end.
Definition move_current (n : Z) : writer unit := fun s =>
  Ok (tt, with_buffer s (write_buffer_ s) (capacity_ s) (write_current_ s + n)).

Definition WriteByte (value : Z) : writer unit :=
  _ ← EnsureSpace 1;
  _ ← store_bytes [uwrap 8 value];
  move_current 1.

Definition WriteBytes (bytes : list Z) : writer unit :=
  let len := Z.of_nat (length bytes) in
  if negb (len =? 0) then
    _ ← EnsureSpace len;
    _ ← store_bytes bytes;
    move_current len
  else mret tt.

(** [BaseWriteStream::SetPosition] and its override. *)
Definition base_SetPosition (value : Z) : writer unit :=
  s ← this;
  _ ← EnsureSpace (value - write_current_ s);
  s ← this;
  move_current (value - write_current_ s).
Definition SetPosition (value : Z) : writer unit :=
  s ← this;
  match stream_kind s with
  | StreamingWriteStream =>
      _ ← assert_ (flushed_size_ s <=? value);
      base_SetPosition (value - flushed_size_ s)
  | _ => base_SetPosition value
  end.

Definition Align (alignment : Z) : writer Z :=
  s ← this;
  let position_before := Position s in
  position_after ← value_of (RoundUp position_before alignment);
  let length := position_after - position_before in
  _ ← (if negb (length =? 0) then
         _ ← EnsureSpace length;
         _ ← store_bytes (replicate (Z.to_nat length) 0);
         SetPosition position_after
       else mret tt);
  mret length.

(** [Write] of a value of a signed type of at most 64 bits. *)
Fixpoint write_data (fuel : nat) (v : Z) : writer unit :=
  match fuel with
  | O => fail LoopFuelExhausted
  | S fuel =>
      if (v <? kMinDataPerByte) || (kMaxDataPerByte <? v) then
        _ ← WriteByte (v .& kByteMask);
        write_data fuel (v >> kDataBitsPerByte)
      else WriteByte (v + kEndByteMarker)
  end.
Definition Write (value : Z) : writer unit := write_data 11 value.

Fixpoint write_unsigned (fuel : nat) (value : Z) : writer unit :=
  match fuel with
  | O => fail LoopFuelExhausted
  | S fuel =>
      if kMaxUnsignedDataPerByte <? value then
        _ ← WriteByte (value .& kByteMask);
        write_unsigned fuel (value >> kDataBitsPerByte)
      else WriteByte (value + kEndUnsignedByteMarker)
  end.
Definition WriteUnsigned (value : Z) : writer unit :=
  _ ← assert_ (0 <=? value);
  write_unsigned 11 value.

(** [Raw<sizeof(T), T>::Write]. *)
Definition RawWrite (T : ctype) (value : Z) : writer unit :=
  if bits_of T =? 8 then WriteByte value else Write (swrap (bits_of T) value).

Fixpoint write_words (n : nat) (j value : Z) : writer unit :=
  match n with
  | O => mret tt
  | S n =>
      let shifted_value := uwrap 32 (value >> (j * 32)) in
      _ ← RawWrite uint32_t (shifted_value .& Z.ones 32);
      write_words n (j + 1) value
  end.
Definition WriteWordWith32BitWrites (value : Z) : writer unit := write_words (Z.to_nat (XLEN / 32)) 0 value.

Definition WriteFixed (T : ctype) (value : Z) : writer unit := WriteBytes (le_bytes (Z.to_nat (sizeof T)) value).
Definition WriteWord (value : Z) : writer unit := WriteFixed (CType XLEN false) value.

(** [MallocWriteStream::Steal]: the buffer and the number of bytes in it. *)
Definition Steal : writer (option (list Z) * Z) := fun s =>
  Ok ((write_buffer_ s, write_current_ s), with_buffer s None 0 0).

Fixpoint write_leb128 (fuel : nat) (remainder : Z) : writer unit :=
  match fuel with
  | O => fail LoopFuelExhausted
  | S fuel =>
      let part := remainder .& kDataByteMask in
      let remainder := remainder >> kDataBitsPerByte in
      let is_last_part := remainder =? 0 in
      let part := if negb is_last_part then part .| kMoreDataMask else part in
      _ ← WriteByte part;
      if negb is_last_part then write_leb128 fuel remainder else mret tt
  end.
Definition WriteLEB128 (T : ctype) (value : Z) : writer unit :=
  _ ← (if is_signed T then assert_ (0 <=? value) else mret tt);
  write_leb128 11 value.

(** The shift of a negative value is arithmetic, and the mask is or-ed in after it as in the source. *)
Fixpoint write_sleb128 (fuel : nat) (n : Z) (is_negative : bool) (remainder : Z) : writer unit :=
  match fuel with
  | O => fail LoopFuelExhausted
  | S fuel =>
      let part := remainder .& kDataByteMask in
      let remainder := remainder >> kDataBitsPerByte in
      let preserved_bits := n - kDataBitsPerByte in
      let sign_extend := Z.lnot ((1 << preserved_bits) - 1) in
      let remainder := if is_negative then remainder .| sign_extend else remainder in
      _ ← (if is_negative then assert_ (remainder <? 0) else assert_ (0 <=? remainder));
      let is_last_part :=
        if is_negative then (remainder =? Z.lnot 0) && negb (part .& kSignMask =? 0)
        else (remainder =? 0) && (part .& kSignMask =? 0) in
      let part := if negb is_last_part then part .| kMoreDataMask else part in
      _ ← WriteByte part;
      if negb is_last_part then write_sleb128 fuel n is_negative remainder else mret tt
  end.
Definition WriteSLEB128 (T : ctype) (value : Z) : writer unit :=
  let value := swrap (bits_of T) value in
  write_sleb128 11 (bits_of T) (value <? 0) value.
End Writing.
