(* ===== verification/DataStreamReading.v ===== *)
(** * What the streams read

    The formats of the numbers in a stream, and that the readers read them. *)
From S2P Require Import Prelude Utils Constants Memory DataStream.

(** ** The formats *)

(** The values that fit the last byte of a number, and what is added to them there; signed
    ([Write], [WriteSLEB128]) and unsigned ([WriteUnsigned], [WriteLEB128]) formats. *)
Definition low (sg : bool) : Z := if sg then kMinDataPerByte else 0.
Definition high (sg : bool) : Z := if sg then kMaxDataPerByte else kMaxUnsignedDataPerByte.
Definition marker (sg : bool) : Z := if sg then kEndByteMarker else kEndUnsignedByteMarker.

(** Seven bits per byte, low bits first; the last byte is the one above 127. *)
Inductive data_bytes (sg : bool) : Z -> list Z -> Prop :=
| data_last v : low sg <= v <= high sg -> data_bytes sg v [v + marker sg]
| data_more v bs : ~ low sg <= v <= high sg -> data_bytes sg (v >> 7) bs -> data_bytes sg v (v mod 128 :: bs).

(** Seven bits per byte, low bits first; all but the last byte are above 127. *)
Inductive leb_bytes (sg : bool) : Z -> list Z -> Prop :=
| leb_last v : low sg <= v <= high sg -> leb_bytes sg v [v mod 128]
| leb_more v bs : ~ low sg <= v <= high sg -> leb_bytes sg (v >> 7) bs -> leb_bytes sg v (v mod 128 + 128 :: bs).

Definition in_range (n : Z) (sg : bool) (v : Z) : Prop := if sg then - 2 ^ (n - 1) <= v < 2 ^ (n - 1) else 0 <= v < 2 ^ n.
Definition width (n : Z) : Prop := n = 8 \/ n = 16 \/ n = 32 \/ n = 64.

Lemma shift_seven v : v >> 7 = v / 128 /\ v = v mod 128 + 128 * (v >> 7) /\ 0 <= v mod 128 < 128.
Proof.
  rewrite Z.shiftr_div_pow2 by done. change (2 ^ 7) with 128. pose proof (Z.div_mod v 128). pose proof (Z.mod_pos_bound v 128). split; [done|]. lia.
Qed.

Lemma format_bounds sg : low sg <= 0 <= high sg /\ low sg + marker sg = 128 /\ high sg + marker sg = 255 /\ high sg - low sg = 127.
Proof. by destruct sg. Qed.

Lemma data_bytes_range sg v bs : data_bytes sg v bs -> Forall (fun b => 0 <= b < 256) bs.
Proof.
  induction 1 as [v Hv|v bs Hv Hb IH]; pose proof (format_bounds sg).
  - apply Forall_singleton. lia.
  - constructor; [|done]. pose proof (shift_seven v). lia.
Qed.
Lemma leb_bytes_range sg v bs : leb_bytes sg v bs -> Forall (fun b => 0 <= b < 256) bs.
Proof.
  induction 1 as [v Hv|v bs Hv Hb IH]; pose proof (shift_seven v).
  - apply Forall_singleton. lia.
  - constructor; [lia | done].
Qed.

(** A number that does not fit the last byte leaves room for more bits. *)
Lemma more_room n sg v s k : width n -> s = 7 * k -> 0 <= k -> in_range n sg (v * 2 ^ s) -> ~ low sg <= v <= high sg ->
  s + 7 < n /\ in_range n sg ((v >> 7) * 2 ^ (s + 7)).
Proof.
  intros Hn -> Hk Hr Hv. destruct (shift_seven v) as (_ & E & Hm).
  assert (2 ^ (7 * k + 7) = 128 * 2 ^ (7 * k)) as E7 by (rewrite Z.pow_add_r by lia; lia).
  assert (0 < 2 ^ (7 * k)) as Hp by (apply Z.pow_pos_nonneg; lia). destruct sg; cbn [low high in_range] in *.
  - change kMinDataPerByte with (-64) in Hv. change kMaxDataPerByte with 63 in Hv.
    assert (2 ^ (7 * k + 6) = 64 * 2 ^ (7 * k)) as E6 by (rewrite Z.pow_add_r by lia; lia).
    assert (2 ^ (7 * k + 6) <= 2 ^ (n - 1)) as Hle by nia.
    apply Z.pow_le_mono_r_iff in Hle; [|lia | unfold width in Hn; lia]. split; [unfold width in Hn; lia|]. rewrite E7.
    assert (2 ^ (n - 1) = 2 ^ (n - 8 - 7 * k) * (128 * 2 ^ (7 * k))) as En by (rewrite <- E7, <- Z.pow_add_r by (unfold width in Hn; lia); f_equal; lia).
    rewrite En in *. assert (0 < 2 ^ (n - 8 - 7 * k)) by (apply Z.pow_pos_nonneg; unfold width in Hn; lia).
    set (P := 2 ^ (7 * k)) in *. set (Q := 2 ^ (n - 8 - 7 * k)) in *. assert (- (Q * 128) <= v < Q * 128) by nia. assert (- Q <= v >> 7 < Q) by lia. nia.
  - change kMaxUnsignedDataPerByte with 127 in Hv.
    assert (0 <= v) by nia. assert (2 ^ (7 * k + 7) < 2 ^ n) as Hlt by nia.
    apply Z.pow_lt_mono_r_iff in Hlt; [|lia | unfold width in Hn; lia]. split; [done|]. rewrite E7. nia.
Qed.

(** ** Bits *)

Lemma lor_shift r x s : 0 <= s -> 0 <= r < 2 ^ s -> r .| (x << s) = r + x * 2 ^ s.
Proof.
  intros Hs Hr. rewrite <- Z.shiftl_mul_pow2 by done. assert (r .& (x << s) = 0) as Hz.
  { apply Z.bits_inj'. intros i Hi. rewrite Z.land_spec, Z.bits_0. destruct (Z.lt_ge_cases i s).
    - rewrite Z.shiftl_spec_low by done. apply andb_false_r.
    - replace (Z.testbit r i) with false; [done|]. symmetry. destruct (Z.eq_dec r 0) as [->|]; [apply Z.bits_0|].
      apply Z.bits_above_log2; [lia|]. apply Z.log2_lt_pow2; [lia|]. eapply Z.lt_le_trans; [apply Hr|]. apply Z.pow_le_mono_r; lia. }
  by rewrite Z.add_nocarry_lxor, Z.lxor_lor by done.
Qed.

Lemma lor_high n r x s : 0 <= s < n -> 0 <= r < 2 ^ s -> r .| uwrap n (x << s) = uwrap n (r + x * 2 ^ s).
Proof.
  intros Hs Hr. assert (2 ^ n = 2 ^ (n - s) * 2 ^ s) as E by (rewrite <- Z.pow_add_r by lia; f_equal; lia).
  assert (0 < 2 ^ s) by (apply Z.pow_pos_nonneg; lia). assert (0 < 2 ^ (n - s)) by (apply Z.pow_pos_nonneg; lia).
  assert (uwrap n (x << s) = (x mod 2 ^ (n - s)) << s) as ->.
  { unfold uwrap. rewrite Z.shiftl_mul_pow2, E, Z.mul_mod_distr_r by lia. by rewrite Z.shiftl_mul_pow2 by lia. }
  rewrite lor_shift by lia. unfold uwrap. pose proof (Z.mod_pos_bound x (2 ^ (n - s))). pose proof (Z.div_mod x (2 ^ (n - s))).
  set (P := 2 ^ s) in *. set (Q := 2 ^ (n - s)) in *. set (m := x mod Q) in *. set (q := x / Q) in *.
  apply (Z.mod_unique_pos _ _ q); rewrite E; [nia|]. replace x with (Q * q + m) by lia. lia.
Qed.

Lemma uwrap_shift n x s : 0 <= s -> 0 < n -> uwrap n (uwrap n x << s) = uwrap n (x << s).
Proof. intros Hs Hn. rewrite !Z.shiftl_mul_pow2 by done. by apply uwrap_mul_l. Qed.

Section Reading.
Context `{Target}.

(** ** Readers *)

(** The stream that has read [pre] and still has [post]. *)
Definition at_ (pre post : list Z) : ReadStream := {| read_buffer_ := pre ++ post; read_current_ := Z.of_nat (length pre) |}.

(** [m] at position [p] reads the bytes [bs] and returns [a]. *)
Definition reads {A} (p : Z) (m : reader A) (bs : list Z) (a : A) : Prop := forall pre post,
  Z.of_nat (length pre) = p -> m (at_ pre (bs ++ post)) = Ok (a, at_ (pre ++ bs) post).

Lemma reads_bind {A B} p (m : reader A) (f : A -> reader B) bs bs' a b :
  reads p m bs a -> reads (p + Z.of_nat (length bs)) (f a) bs' b -> reads p (m ≫= f) (bs ++ bs') b.
Proof.
  intros Hm Hf pre post Hp. unfold mbind, M_bind. rewrite <- app_assoc, (Hm pre (bs' ++ post) Hp).
  rewrite (Hf (pre ++ bs) post) by (rewrite length_app; lia). by rewrite <- app_assoc.
Qed.
Lemma reads_ret {A} p (a : A) : reads p (mret a) [] a.
Proof. intros pre post _. unfold mret, M_ret. by rewrite app_nil_r. Qed.
Lemma reads_step {A B} p (m : reader A) (f : A -> reader B) bs a b : reads p m [] a -> reads p (f a) bs b -> reads p (m ≫= f) bs b.
Proof. intros Hm Hf. apply (reads_bind p m f [] bs a); [done|]. cbn. by rewrite Z.add_0_r. Qed.
Lemma reads_map {A B} p (m : reader A) (f : A -> B) bs a : reads p m bs a -> reads p (x ← m; mret (f x)) bs (f a).
Proof. intros Hm. rewrite <- (app_nil_r bs). eapply reads_bind; [done | apply reads_ret]. Qed.
Lemma reads_assert p b : b = true -> reads p (assert_ b) [] tt.
Proof. intros Hb pre post _. unfold assert_. rewrite ASSERT_true by done. by rewrite app_nil_r. Qed.
Lemma reads_shift p n x s : s < Z.max n 32 -> reads p (shift_left n x s) [] (uwrap n (x << s)).
Proof. intros Hs. unfold shift_left. rewrite (proj2 (Z.ltb_lt _ _)) by done. apply reads_ret. Qed.

Lemma reads_byte p b : reads p ReadByte [b] b.
Proof.
  intros pre post _. unfold ReadByte, this, at_, read_end_, assert_, mbind, M_bind. cbn [read_current_ read_buffer_].
  rewrite ASSERT_true by (apply Z.ltb_lt; rewrite length_app; cbn; lia). unfold next_byte. cbn [read_current_ read_buffer_].
  rewrite (proj2 (Z.ltb_ge _ _)) by lia. rewrite Nat2Z.id, lookup_app_r, Nat.sub_diag by lia. cbn. unfold read_at. cbn.
  do 2 f_equal. unfold at_. f_equal; [by rewrite <- app_assoc | rewrite length_app; cbn; lia].
Qed.
Lemma reads_cons {A} p (f : Z -> reader A) b bs a : reads (p + 1) (f b) bs a -> reads p (ReadByte ≫= f) (b :: bs) a.
Proof. intros Hf. apply (reads_bind p ReadByte f [b] bs b); [apply reads_byte | done]. Qed.

(** A reader that looks at the stream first. *)
Lemma reads_this {A} p (f : ReadStream -> reader A) bs a :
  (forall st, (length bs <= length (read_buffer_ st))%nat -> reads p (f st) bs a) -> reads p (this ≫= f) bs a.
Proof.
  intros Hf pre post Hp. unfold this, mbind, M_bind. apply Hf; [|done]. cbn. rewrite !length_app. lia.
Qed.

(** ** [Read] and [ReadUnsigned] *)

Lemma data_cons sg v b bs : data_bytes sg v (b :: bs) -> bs <> [] -> ~ low sg <= v <= high sg /\ data_bytes sg (v >> 7) bs /\ b = v mod 128.
Proof. intros Hd Hne. inversion Hd; subst; [done|]. by split_and!. Qed.

Lemma data_first sg v b bs : data_bytes sg v (b :: bs) -> (127 < b /\ bs = [] /\ b - marker sg = v) \/ b <= 127.
Proof.
  pose proof (format_bounds sg). inversion 1 as [? Hl E|? ? _ _ E]; subst; [left; split_and!; lia || done | right]. pose proof (shift_seven v). lia.
Qed.

Lemma read_data_spec n sg bs : width n -> forall v r s k b fuel p, data_bytes sg v (b :: bs) -> b <= 127 -> s = 7 * k -> 0 <= k ->
  0 <= r < 2 ^ s -> in_range n sg (v * 2 ^ s) -> (length bs <= fuel)%nat ->
  reads p (read_data fuel n (marker sg) r s b) bs (uwrap n (r + v * 2 ^ s)).
Proof.
  intros Hn. induction bs as [|b' bs IH]; intros v r s k b fuel p Hd Hb Hs Hk Hr Hv Hf.
  - inversion Hd as [? Hl E|? ? _ Hd']; [pose proof (format_bounds sg); lia | inversion Hd'].
  - destruct (data_cons sg v b (b' :: bs) Hd ltac:(done)) as (Hm & Hd' & Eb). destruct (more_room n sg v s k Hn Hs Hk Hv Hm) as [Hs7 Hv7]. destruct (shift_seven v) as (_ & E & Hmod).
    destruct fuel as [|fuel]; [cbn in Hf; lia|]. cbn [read_data]. assert (0 < n) by (unfold width in Hn; lia).
    apply (reads_step p _ _ _ (uwrap n (b << s))); [apply reads_shift; lia|].
    assert (2 ^ (s + 7) = 128 * 2 ^ s) as E7 by (rewrite Z.pow_add_r by lia; lia). assert (2 ^ (s + 7) <= 2 ^ n) by (apply Z.pow_le_mono_r; lia).
    assert (r .| uwrap n (b << s) = r + b * 2 ^ s) as Er by (rewrite lor_high by lia; apply uwrap_small; first [lia | rewrite Eb; nia]). rewrite Er.
    assert (r + v * 2 ^ s = r + b * 2 ^ s + (v >> 7) * 2 ^ (s + 7)) as Et by (rewrite E7; rewrite Eb; rewrite E at 1; lia).
    change (s + kDataBitsPerByte) with (s + 7). apply reads_cons. rewrite Et. change kMaxUnsignedDataPerByte with 127. destruct (Z.leb_spec b' 127) as [Hb'|Hb'].
    + apply (IH (v >> 7) (r + b * 2 ^ s) (s + 7) (k + 1) b'); try done; try lia; rewrite ?Eb; try nia. cbn in Hf. lia.
    + destruct (data_first sg (v >> 7) b' bs Hd') as [(_ & -> & E2)|]; [|lia].
      apply (reads_step _ _ _ _ (uwrap n ((v >> 7) << (s + 7)))).
      * rewrite <- (uwrap_shift n (v >> 7)) by lia. rewrite E2. apply reads_shift. lia.
      * rewrite lor_high by (first [lia | rewrite Eb; nia]). apply reads_ret.
Qed.

Lemma cast_wrap T v : 0 < bits_of T -> cast T (uwrap (bits_of T) v) = cast T v.
Proof. intros Hn. unfold cast. destruct (is_signed T); [by apply swrap_uwrap | by apply uwrap_idem]. Qed.

Lemma reads_data T sg v bs p : width (bits_of T) -> in_range (bits_of T) sg v -> data_bytes sg v bs -> reads p (Read_marked T (marker sg)) bs (cast T v).
Proof.
  intros Hn Hv Hd. assert (0 < bits_of T) by (unfold width in Hn; lia). destruct bs as [|b bs]; [inversion Hd|]. unfold Read_marked. cbv zeta. apply reads_cons.
  change kMaxUnsignedDataPerByte with 127. destruct (data_first sg v b bs Hd) as [(Hb & -> & E)|Hb].
  - rewrite (proj2 (Z.ltb_lt _ _)) by done. rewrite E, cast_wrap by done. apply reads_ret.
  - rewrite (proj2 (Z.ltb_ge _ _)) by done. apply reads_this. intros st Hst. rewrite <- (cast_wrap T v) by done.
    replace v with (0 + v * 2 ^ 0) at 1 by lia. apply reads_map. eapply (read_data_spec _ sg bs Hn v 0 0 0); try done; try lia. by rewrite Z.pow_0_r, Z.mul_1_r.
Qed.

(** ** The unrolled readers *)

(** The bit positions of an unrolled loop from [s] on. *)
Fixpoint consecutive (s : Z) (bodies : list Z) (end_start : Z) : Prop :=
  match bodies with [] => end_start = s | b :: bodies => b = s /\ consecutive (s + 7) bodies end_start end.

Lemma unrolled_spec n sg bodies end_start : width n -> end_start < Z.max n 32 -> n <= end_start + 7 -> forall v r s k bs p, data_bytes sg v bs -> s = 7 * k -> 0 <= k ->
  0 <= r < 2 ^ s -> s < n -> in_range n sg (v * 2 ^ s) -> consecutive s bodies end_start ->
  reads p (unrolled n (marker sg) bodies end_start r) bs (uwrap n (r + v * 2 ^ s)).
Proof.
  intros Hn He Hend. assert (0 < n) by (unfold width in Hn; lia).
  induction bodies as [|bit_start bodies IH]; intros v r s k bs p Hd Hs Hk Hr Hsn Hv Hc; (destruct bs as [|b bs]; [inversion Hd|]); cbn [unrolled]; apply reads_cons;
    change kMaxUnsignedDataPerByte with 127.
  - cbn in Hc. subst end_start. destruct (data_first sg v b bs Hd) as [(Hb & -> & E)|Hb].
    + rewrite (proj2 (Z.ltb_lt _ _)) by done. apply (reads_step _ _ _ _ tt); [by apply reads_assert|].
      rewrite <- E. apply (reads_step _ _ _ _ (uwrap n (v << s))); [rewrite <- (uwrap_shift n v), E by lia; apply reads_shift; lia|].
      rewrite lor_high, uwrap_idem, E by lia. apply reads_ret.
    + inversion Hd as [? Hl E|? ? Hm _ E]; [pose proof (format_bounds sg); lia|]. destruct (more_room n sg v s k Hn Hs Hk Hv Hm). lia.
  - destruct Hc as [-> Hc]. destruct (data_first sg v b bs Hd) as [(Hb & -> & E)|Hb].
    + rewrite (proj2 (Z.ltb_lt _ _)) by done. rewrite <- E. apply (reads_step _ _ _ _ (uwrap n (v << s))).
      { rewrite <- (uwrap_shift n v), E by lia. apply reads_shift. lia. }
      rewrite lor_high, uwrap_idem, E by lia. apply reads_ret.
    + rewrite (proj2 (Z.ltb_ge _ _)) by done. apply (reads_step _ _ _ _ (uwrap n (b << s))); [apply reads_shift; lia|].
      destruct bs as [|b' bs]; [inversion Hd as [? Hl E|? ? _ Hd' E]; [pose proof (format_bounds sg); lia | inversion Hd']|].
      destruct (data_cons sg v b (b' :: bs) Hd ltac:(done)) as (Hm & Hd' & Eb). destruct (more_room n sg v s k Hn Hs Hk Hv Hm) as [Hs7 Hv7]. destruct (shift_seven v) as (_ & E & Hmod).
      assert (2 ^ (s + 7) = 128 * 2 ^ s) as E7 by (rewrite Z.pow_add_r by lia; lia). assert (2 ^ (s + 7) <= 2 ^ n) by (apply Z.pow_le_mono_r; lia).
      assert (r .| uwrap n (b << s) = r + b * 2 ^ s) as Er by (rewrite lor_high by lia; apply uwrap_small; first [lia | rewrite Eb; nia]). rewrite Er.
      assert (r + v * 2 ^ s = r + b * 2 ^ s + (v >> 7) * 2 ^ (s + 7)) as Et by (rewrite E7, Eb; rewrite E at 1; lia). rewrite Et.
      apply (IH (v >> 7) (r + b * 2 ^ s) (s + 7) (k + 1)); try done; try lia. rewrite Eb. nia.
Qed.

Lemma UNROLLED_spec n sg bodies end_start v bs p : width n -> end_start < Z.max n 32 -> n <= end_start + 7 -> 7 < n -> consecutive 7 bodies end_start ->
  in_range n sg v -> data_bytes sg v bs -> reads p (UNROLLED n (marker sg) bodies end_start) bs (uwrap n v).
Proof.
  intros Hn He Hend H7 Hc Hv Hd. assert (0 < n) by lia. destruct bs as [|b bs]; [inversion Hd|]. apply reads_cons. change kMaxUnsignedDataPerByte with 127.
  destruct (data_first sg v b bs Hd) as [(Hb & -> & E)|Hb].
  - rewrite (proj2 (Z.ltb_lt _ _)) by done. rewrite E. apply reads_ret.
  - rewrite (proj2 (Z.ltb_ge _ _)) by done.
    destruct bs as [|b' bs]; [inversion Hd as [? Hl E|? ? _ Hd' E]; [pose proof (format_bounds sg); lia | inversion Hd']|].
    destruct (data_cons sg v b (b' :: bs) Hd ltac:(done)) as (Hm & Hd' & Eb).
    destruct (more_room n sg v 0 0 Hn ltac:(lia) ltac:(lia) ltac:(by rewrite Z.pow_0_r, Z.mul_1_r) Hm) as [_ Hv7]. destruct (shift_seven v) as (_ & E & Hmod).
    rewrite E, (Z.mul_comm 128), <- Eb. change 128 with (2 ^ 7). apply (unrolled_spec n sg bodies end_start Hn He Hend (v >> 7) b 7 1); try done; lia.
Qed.

Lemma reads_raw T sg v bs p : width (bits_of T) -> bits_of T <> 8 -> in_range (bits_of T) sg v -> sg = true -> data_bytes sg v bs -> reads p (RawRead T) bs (cast T v).
Proof.
  intros Hn H8 Hv -> Hd. unfold RawRead. rewrite (proj2 (Z.eqb_neq _ _)) by done. rewrite <- (cast_wrap T v) by (unfold width in Hn; lia). apply reads_map.
  destruct Hn as [?|[E|[E|E]]]; [done| | |]; rewrite E in *; cbn [Z.eqb Pos.eqb];
    (apply (UNROLLED_spec _ true); [unfold width; lia | lia | lia | lia | cbn; by split_and! | done | done]).
Qed.

(** ** LEB128 *)

Lemma leb_size sg v bs : leb_bytes sg v bs -> let k := 7 * Z.of_nat (length bs) in 7 <= k /\ (if sg then - 2 ^ (k - 1) <= v < 2 ^ (k - 1) else 0 <= v -> v < 2 ^ k).
Proof.
  induction 1 as [v Hv|v bs Hv Hb [Hk IH]]; cbv zeta.
  - cbn [length]. split; [lia|]. destruct sg; cbn [low high] in Hv; [change (2 ^ (7 * Z.of_nat 1 - 1)) with 64; change kMinDataPerByte with (-64) in Hv; change kMaxDataPerByte with 63 in Hv; lia|].
    change (2 ^ (7 * Z.of_nat 1)) with 128. change kMaxUnsignedDataPerByte with 127 in Hv. lia.
  - cbn [length]. split; [lia|]. destruct (shift_seven v) as (_ & E & Hm). set (k := 7 * Z.of_nat (length bs)) in *. replace (7 * Z.of_nat (S (length bs))) with (k + 7) by lia. destruct sg.
    + replace (k + 7 - 1) with (k - 1 + 7) by lia. rewrite Z.pow_add_r by lia. change (2 ^ 7) with 128. lia.
    + intros Hv0. rewrite Z.pow_add_r by lia. change (2 ^ 7) with 128. specialize (IH ltac:(lia)). lia.
Qed.

Lemma low_bits b : 0 <= b < 128 -> b .& kDataByteMask = b /\ b .& kMoreDataMask = 0 /\ (b + 128) .& kDataByteMask = b /\ (b + 128) .& kMoreDataMask = 128.
Proof.
  intros Hb. change kDataByteMask with (Z.ones 7). change kMoreDataMask with (1 << 7). rewrite !Z.land_ones by done. change (2 ^ 7) with 128.
  rewrite (Z.mod_small b), <- Zplus_mod_idemp_r, Z.mod_same, Z.add_0_r, Z.mod_small by lia. split; [done|].
  assert (forall x, x .& (1 << 7) = (if Z.testbit x 7 then 128 else 0)) as Hbit.
  { intros x. rewrite Z.shiftl_1_l. destruct (Z.testbit x 7) eqn:E.
    - apply Z.bits_inj'. intros i Hi. change 128 with (2 ^ 7). rewrite Z.land_spec, !Z.pow2_bits_eqb by lia. destruct (Z.eqb_spec 7 i) as [<-|]; [by rewrite E | apply andb_false_r].
    - apply Z.bits_inj'. intros i Hi. rewrite Z.land_spec, Z.pow2_bits_eqb, Z.bits_0 by lia. destruct (Z.eqb_spec 7 i) as [<-|]; [by rewrite E | apply andb_false_r]. }
  rewrite !Hbit. assert (forall x, Z.testbit x 7 = Z.odd (x / 128)) as Ht by (intros x; rewrite Z.testbit_odd, Z.shiftr_div_pow2 by done; done).
  rewrite !Ht, Z.div_small by lia. replace ((b + 128) / 128) with 1 by (apply Z.div_unique_pos with b; lia). done.
Qed.

(** The last byte of a signed number has the sign. *)
Definition sign_of (b : Z) : bool := negb (b .& kSignMask =? 0).

Lemma sign_bit v : -64 <= v <= 63 -> sign_of (v mod 128) = (v <? 0).
Proof.
  intros Hv. unfold sign_of. assert ((v mod 128) .& kSignMask = if Z.testbit (v mod 128) 6 then 64 else 0) as ->.
  { change kSignMask with (2 ^ 6). apply Z.bits_inj'. intros i Hi. rewrite Z.land_spec, Z.pow2_bits_eqb by lia. destruct (Z.testbit (v mod 128) 6) eqn:E.
    - change 64 with (2 ^ 6). rewrite Z.pow2_bits_eqb by lia. destruct (Z.eqb_spec 6 i) as [<-|]; [by rewrite E | apply andb_false_r].
    - rewrite Z.bits_0. destruct (Z.eqb_spec 6 i) as [<-|]; [by rewrite E | apply andb_false_r]. }
  rewrite Z.testbit_odd, Z.shiftr_div_pow2 by done. change (2 ^ 6) with 64. destruct (Z.ltb_spec v 0).
  - replace (v mod 128) with (v + 128) by (apply Z.mod_unique_pos with (-1); lia).
    replace ((v + 128) / 64) with 1 by (apply Z.div_unique_pos with (v + 64); lia). done.
  - rewrite Z.mod_small by lia. by rewrite Z.div_small by lia.
Qed.

Lemma read_leb128_spec n sg v bs : leb_bytes sg v bs -> width n -> forall r s j fuel p, s = 7 * j -> 0 <= j -> 0 <= r < 2 ^ s -> s < n -> in_range n sg (v * 2 ^ s) -> (length bs <= fuel)%nat ->
  let k := 7 * Z.of_nat (length bs) in
  exists b, reads p (read_leb128 fuel n r s) bs (uwrap n (r + v mod 2 ^ k * 2 ^ s), s + k, b) /\ s + k < 7 + n /\ (sg = true -> sign_of b = (v <? 0)).
Proof.
  intros Hl Hn. assert (0 < n) by (unfold width in Hn; lia). induction Hl as [v Hv|v bs Hv Hb IH]; intros r s j fuel p Hs Hj Hr Hsn Hin Hf; cbv zeta.
  - destruct fuel as [|fuel]; [cbn in Hf; lia|]. exists (v mod 128). destruct (shift_seven v) as (_ & E & Hm). destruct (low_bits (v mod 128) Hm) as (B1 & B2 & _).
    split_and!; [| cbn; lia | intros ->; by apply sign_bit]. cbn [read_leb128]. apply (reads_step _ _ _ _ tt); [apply reads_assert; by apply Z.ltb_lt|]. apply reads_cons.
    rewrite B1, B2. apply (reads_step _ _ _ _ (uwrap n ((v mod 128) << s))); [apply reads_shift; lia|]. cbn [Z.eqb negb]. rewrite lor_high by lia.
    change (7 * Z.of_nat (length [v mod 128])) with 7. change (2 ^ 7) with 128. apply reads_ret.
  - destruct fuel as [|fuel]; [cbn in Hf; lia|]. destruct (shift_seven v) as (_ & E & Hm). destruct (low_bits (v mod 128) Hm) as (_ & _ & B1 & B2).
    destruct (more_room n sg v s j Hn Hs Hj Hin Hv) as [Hs7 Hv7]. assert (2 ^ (s + 7) = 128 * 2 ^ s) as E7 by (rewrite Z.pow_add_r by lia; lia).
    assert (2 ^ (s + 7) <= 2 ^ n) by (apply Z.pow_le_mono_r; lia).
    assert (r .| uwrap n ((v mod 128) << s) = r + v mod 128 * 2 ^ s) as Er by (rewrite lor_high by lia; apply uwrap_small; first [lia | nia]).
    destruct (IH (r + v mod 128 * 2 ^ s) (s + 7) (j + 1) fuel (p + 1)) as (b & Hb1 & Hb2 & Hb3); try done; try lia; [nia | cbn in Hf; lia|].
    set (k := 7 * Z.of_nat (length bs)) in *. replace (7 * Z.of_nat (length (v mod 128 + 128 :: bs))) with (7 + k) by (cbn [length]; lia).
    exists b. split_and!; [| lia |].
    + cbn [read_leb128]. apply (reads_step _ _ _ _ tt); [apply reads_assert; by apply Z.ltb_lt|]. apply reads_cons. rewrite B1, B2. cbn [Z.eqb Pos.eqb negb].
      apply (reads_step _ _ _ _ (uwrap n ((v mod 128) << s))); [apply reads_shift; lia|]. rewrite Er. change (s + kDataBitsPerByte) with (s + 7).
      replace (s + (7 + k)) with (s + 7 + k) by lia.
      replace (r + v mod 2 ^ (7 + k) * 2 ^ s) with (r + v mod 128 * 2 ^ s + (v >> 7) mod 2 ^ k * 2 ^ (s + 7)); [done|].
      rewrite E7, Z.pow_add_r by lia. change (2 ^ 7) with 128. rewrite Z.rem_mul_r by (try apply Z.pow_pos_nonneg; lia).
      rewrite Z.shiftr_div_pow2 by done. change (2 ^ 7) with 128. lia.
    + intros Hsg. rewrite Hb3 by done. pose proof (shift_seven v). destruct (Z.ltb_spec v 0), (Z.ltb_spec (v >> 7) 0); lia.
Qed.

Lemma reads_leb128 T v bs p : width (bits_of T) -> in_range (bits_of T) false v -> leb_bytes false v bs -> reads p (ReadLEB128 T) bs (cast T v).
Proof.
  intros Hn Hv Hl. assert (0 < bits_of T) by (unfold width in Hn; lia). unfold ReadLEB128. cbv zeta. apply reads_this. intros st Hst.
  destruct (read_leb128_spec (bits_of T) false v bs Hl Hn 0 0 0 (S (length (read_buffer_ st))) p) as (b & Hr & Hs & _); try done; try lia; [by rewrite Z.pow_0_r, Z.mul_1_r|].
  destruct (leb_size false v bs Hl) as [Hk Hlt]. specialize (Hlt (proj1 Hv)). rewrite (Z.mod_small v), Z.pow_0_r, Z.mul_1_r, Z.add_0_l in Hr by (destruct Hv; lia).
  rewrite <- (app_nil_r bs). eapply reads_bind; [exact Hr|]. cbn beta iota. apply (reads_step _ _ _ _ tt); [apply reads_assert, Z.ltb_lt; change kDataBitsPerByte with 7; lia|].
  rewrite cast_wrap by done. apply reads_ret.
Qed.

Lemma reads_sleb128 T v bs p : width (bits_of T) -> in_range (bits_of T) true v -> leb_bytes true v bs -> reads p (ReadSLEB128 T) bs (cast T v).
Proof.
  intros Hn Hv Hl. set (n := bits_of T) in *. assert (0 < n) by (unfold width in Hn; lia). unfold ReadSLEB128. cbv zeta. fold n. apply reads_this. intros st Hst.
  destruct (read_leb128_spec n true v bs Hl Hn 0 0 0 (S (length (read_buffer_ st))) p) as (b & Hr & Hs & Hsg); try done; try lia; [by rewrite Z.pow_0_r, Z.mul_1_r|].
  specialize (Hsg eq_refl). destruct (leb_size true v bs Hl) as [Hk Hlt]. set (k := 7 * Z.of_nat (length bs)) in *. rewrite Z.pow_0_r, Z.mul_1_r, !Z.add_0_l in Hr.
  assert (2 ^ k = 2 * 2 ^ (k - 1)) as Ek by (rewrite <- Z.pow_succ_r by lia; f_equal; lia).
  rewrite <- (app_nil_r bs). eapply reads_bind; [exact Hr|]. cbn beta iota. apply (reads_step _ _ _ _ tt); [apply reads_assert, Z.ltb_lt; change kDataBitsPerByte with 7; lia|].
  unfold sign_of in Hsg. rewrite Hsg. destruct (Z.ltb_spec v 0) as [Hneg|Hpos]; cbn [andb].
  - assert (v mod 2 ^ k = v + 2 ^ k) as Em by (symmetry; apply Z.mod_unique_pos with (-1); lia). rewrite Em. destruct (Z.ltb_spec k n) as [Hkn|Hkn].
    + apply (reads_step _ _ _ _ (uwrap n ((-1) << k))).
      { rewrite <- (app_nil_r []) at 1. apply (reads_step _ _ _ _ (2 ^ k)).
        - replace (2 ^ k) with (uwrap n (1 << k)); [apply reads_shift; lia|]. rewrite Z.shiftl_1_l. apply uwrap_small; [done|]. split; [lia|]. apply Z.pow_lt_mono_r; lia.
        - replace (Z.lnot (2 ^ k - 1)) with ((-1) << k) by (rewrite Z.shiftl_mul_pow2 by lia; unfold Z.lnot; lia). apply reads_ret. }
      assert (2 ^ k <= 2 ^ n) by (apply Z.pow_le_mono_r; lia). rewrite uwrap_small by lia. rewrite lor_high by lia.
      replace (v + 2 ^ k + -1 * 2 ^ k) with v by lia. fold n. rewrite cast_wrap by done. apply reads_ret.
    + apply (reads_step _ _ _ _ 0); [apply reads_ret|]. rewrite Z.lor_0_r. replace (2 ^ k) with (2 ^ (k - n) * 2 ^ n) by (rewrite <- Z.pow_add_r by lia; f_equal; lia).
      rewrite uwrap_plus_mul, cast_wrap by done. apply reads_ret.
  - apply (reads_step _ _ _ _ 0); [apply reads_ret|]. rewrite Z.lor_0_r, Z.mod_small, cast_wrap by (done || lia). apply reads_ret.
Qed.
End Reading.
