(* ===== verification/DataStreamWriting.v ===== *)
(** * What the streams write

    A write stream appends: whatever its kind and however often its buffer is replaced or
    flushed, what was written stays, and each write adds the bytes of its format. *)
From S2P Require Import Prelude Utils Constants Memory DataStream DataStreamReading.

(** What [realloc] promises. *)
Class AllocatorLaws (A : Allocator) := {
  realloc_size : forall old n b, 0 <= n -> realloc old n = Some b -> Z.of_nat (length b) = n;
  realloc_keeps : forall old n b i, realloc old n = Some b -> (i < length (default [] old))%nat -> Z.of_nat i < n -> b !! i = default [] old !! i
}.

Section Writing.
Context `{Target} {A : Allocator} {laws : AllocatorLaws A}.

Record stream_wf (s : WriteStream) : Prop := {
  wf_capacity : Z.of_nat (length (bytes_of s)) = capacity_ s;
  wf_current : 0 <= write_current_ s <= capacity_ s;
  wf_initial : exists k, 0 <= k /\ initial_size_ s = 2 ^ k;
  wf_flushed : stream_kind s <> StreamingWriteStream -> flushed_ s = []
}.

(** All that was written. *)
Definition contents (s : WriteStream) : list Z := flushed_ s ++ take (Z.to_nat (write_current_ s)) (bytes_of s).

(** [m] appends [bs] to the stream [s], or there is no memory left. *)
Definition appends {B} (s : WriteStream) (m : writer B) (a : B) (bs : list Z) : Prop :=
  (exists s', m s = Ok (a, s') /\ stream_wf s' /\ stream_kind s' = stream_kind s /\ contents s' = contents s ++ bs) \/
  (m s = Err OutOfMemoryError /\ exists old n, realloc old n = None).

Lemma appends_ret {B} s (a : B) : stream_wf s -> appends s (mret a) a [].
Proof. intros Hs. left. exists s. by rewrite app_nil_r. Qed.

Lemma appends_bind {B C} s (m : writer B) (f : B -> writer C) a c bs bs' : appends s m a bs ->
  (forall s', stream_wf s' -> stream_kind s' = stream_kind s -> contents s' = contents s ++ bs -> appends s' (f a) c bs') -> appends s (m ≫= f) c (bs ++ bs').
Proof.
  intros [(s1 & E & Hw & Hk & Hc)|[E Hn]] Hf; unfold mbind, M_bind, appends; rewrite E; [|by right].
  destruct (Hf s1 Hw Hk Hc) as [(s2 & E2 & Hw2 & Hk2 & Hc2)|[E2 Hn]]; [left; exists s2 | by right]. split_and!; try done; [congruence|]. by rewrite Hc2, Hc, <- app_assoc.
Qed.
Lemma appends_step {B C} s (m : writer B) (f : B -> writer C) a c bs : m s = Ok (a, s) -> appends s (f a) c bs -> appends s (m ≫= f) c bs.
Proof. intros E Hf. unfold appends, mbind, M_bind. by rewrite E. Qed.
Lemma appends_this {C} s (f : WriteStream -> writer C) c bs : appends s (f s) c bs -> appends s (this ≫= f) c bs.
Proof. by apply appends_step. Qed.
Lemma assert_ok {S} b (s : S) : b = true -> assert_ b s = Ok (tt, s).
Proof. intros Hb. unfold assert_. by rewrite ASSERT_true. Qed.

Lemma Position_contents s : stream_wf s -> Position s = Z.of_nat (length (contents s)).
Proof.
  intros [Hc Hp _ Hf]. unfold Position, contents, flushed_size_. rewrite length_app, length_take. destruct (stream_kind s); try (rewrite Hf by done; cbn); lia.
Qed.

(** ** Space *)

Lemma RoundUp_bounds x k : 0 <= k -> exists y, RoundUp x (2 ^ k) = Ok y /\ x <= y < x + 2 ^ k /\ y mod 2 ^ k = 0.
Proof.
  intros Hk. unfold RoundUp. rewrite RoundDown_spec by done. eexists. split; [done|]. assert (0 < 2 ^ k) by (apply Z.pow_pos_nonneg; lia).
  pose proof (Z.mod_pos_bound (x + 2 ^ k - 1) (2 ^ k)). pose proof (Z.div_mod (x + 2 ^ k - 1) (2 ^ k)). split; [lia|].
  replace (x + 2 ^ k - 1 - (x + 2 ^ k - 1) mod 2 ^ k) with ((x + 2 ^ k - 1) / 2 ^ k * 2 ^ k) by lia. apply Z.mod_mul. lia.
Qed.

(** A longer buffer with the same beginning. *)
Lemma take_realloc old n b c : realloc old n = Some b -> (c <= length (default [] old))%nat -> Z.of_nat c <= n -> take c b = take c (default [] old).
Proof using laws.
  intros E Hc Hn. pose proof (realloc_size _ n b ltac:(lia) E) as Hl. apply list_eq. intros i. destruct (decide (i < c)%nat).
  - rewrite !lookup_take_lt by done. by apply (realloc_keeps old n b i E); lia.
  - by rewrite !lookup_take_ge by lia.
Qed.

Lemma resize_spec s size offset : stream_wf s -> capacity_ s <= size -> 0 <= offset <= write_current_ s ->
  (exists s', resize size offset s = Ok (tt, s') /\ stream_wf s' /\ is_Some (write_buffer_ s') /\ stream_kind s' = stream_kind s /\
     contents s' = flushed_ s ++ take (Z.to_nat offset) (bytes_of s) /\ capacity_ s' = size /\ write_current_ s' = offset) \/
  (exists s', resize size offset s = Ok (tt, s') /\ write_buffer_ s' = None /\ exists old n, realloc old n = None).
Proof using laws.
  intros [Hc Hp Hi Hf] Hsz Ho. unfold resize. destruct (realloc (write_buffer_ s) size) as [b|] eqn:E; [left | right].
  - pose proof (realloc_size _ size b ltac:(lia) E) as Hl. eexists. split; [done|]. split_and!; try done; cbn.
    + split; cbn; try done; lia.
    + unfold contents. cbn. f_equal. apply (take_realloc _ _ _ _ E); unfold bytes_of in *; lia.
  - eexists. split_and!; try done. by eexists _, _.
Qed.

Lemma Realloc_spec s size : stream_wf s -> capacity_ s < size ->
  (exists s', Realloc size s = Ok (tt, s') /\ stream_wf s' /\ is_Some (write_buffer_ s') /\ stream_kind s' = stream_kind s /\ contents s' = contents s /\
     size - write_current_ s <= Remaining s') \/
  (exists s', Realloc size s = Ok (tt, s') /\ write_buffer_ s' = None /\ exists old n, realloc old n = None).
Proof using laws.
  intros Hs Hsz. pose proof Hs as [Hc Hp Hi Hf]. unfold Realloc, this, mbind, M_bind.
  assert (stream_kind s <> StreamingWriteStream -> (exists s', resize size (write_current_ s) s = Ok (tt, s') /\ stream_wf s' /\ is_Some (write_buffer_ s') /\
      stream_kind s' = stream_kind s /\ contents s' = contents s /\ size - write_current_ s <= Remaining s') \/
    (exists s', resize size (write_current_ s) s = Ok (tt, s') /\ write_buffer_ s' = None /\ exists old n, realloc old n = None)) as Hfix.
  { intros _. destruct (resize_spec s size (write_current_ s) Hs ltac:(lia) ltac:(lia)) as [(s' & E & H1 & H2 & H3 & H4 & H5 & H6)|?]; [left | by right].
    exists s'. split_and!; try done. unfold Remaining. lia. }
  destruct (stream_kind s) eqn:Ek; [by apply Hfix | by apply Hfix|]. cbn [Flush]. unfold Flush. set (s1 := Build_WriteStream _ _ _ _ _ _).
  assert (stream_wf s1) as Hs1 by (split; cbn; try done; lia). cbn [capacity_ s1].
  rewrite (proj2 (Z.leb_gt _ _)) by done. destruct (RoundUp_bounds size 16 ltac:(lia)) as (y & Ey & Hy & _). change (64 * 1024) with (2 ^ 16). unfold value_of. rewrite Ey.
  destruct (resize_spec s1 y 0 Hs1 ltac:(cbn; lia) ltac:(cbn; lia)) as [(s' & E & H1 & H2 & H3 & H4 & H5 & H6)|?]; [left | by right].
  exists s'. split; [done|]. split; [done|]. split; [done|]. split; [by rewrite H3|]. split; [rewrite H4; cbn; by rewrite app_nil_r | unfold Remaining; lia].
Qed.

Lemma increment_spec s n : stream_wf s ->
  exists incr, (if capacity_ s <? n then value_of (RoundUp n (initial_size_ s)) else mret (capacity_ s)) s = Ok (incr, s) /\ n <= incr.
Proof.
  intros [_ _ (k & Hk & Ei) _]. destruct (Z.ltb_spec (capacity_ s) n); [|by exists (capacity_ s)]. rewrite Ei. destruct (RoundUp_bounds n k Hk) as (y & Ey & Hy & _).
  exists y. unfold value_of. rewrite Ey. split; [done | lia].
Qed.

Lemma EnsureSpace_spec s n : stream_wf s -> 0 <= n ->
  (exists s', EnsureSpace n s = Ok (tt, s') /\ stream_wf s' /\ stream_kind s' = stream_kind s /\ contents s' = contents s /\ n <= Remaining s' /\ (0 < n -> is_Some (write_buffer_ s')) /\
     (n <= Remaining s -> s' = s)) \/
  (EnsureSpace n s = Err OutOfMemoryError /\ exists old n, realloc old n = None).
Proof using laws.
  intros Hs Hn. pose proof Hs as [Hc Hp (k & Hk & Ei) Hf]. destruct (Z.leb_spec n (Remaining s)) as [Hr|Hr].
  - left. exists s. split; [unfold EnsureSpace, this, mbind, M_bind; by rewrite (proj2 (Z.leb_le _ _))|]. split_and!; try done. intros Hpos. unfold Remaining, bytes_of in *.
    destruct (write_buffer_ s); [by eexists|]. cbn in Hc. lia.
  - destruct (increment_spec s n Hs) as (incr & Einc & Hinc). unfold Remaining in Hr.
    assert (EnsureSpace n s = match Realloc (capacity_ s + incr) s with
      | Ok (_, s') => match write_buffer_ s' with None => fail OutOfMemoryError | Some _ => assert_ (n <=? Remaining s') end s' | Err e => Err e end) as ->.
    { unfold EnsureSpace, this, mbind, M_bind. rewrite (proj2 (Z.leb_gt _ _)), Einc, assert_ok by (unfold Remaining; first [lia | apply Z.ltb_lt; lia]). done. }
    destruct (Realloc_spec s (capacity_ s + incr) Hs ltac:(lia)) as [(s' & E & H1 & [b Hb] & H3 & H4 & H5)|(s' & E & Hb & Hno)]; rewrite E, Hb; [left | by right].
    exists s'. assert (n <= Remaining s') by lia. split; [by apply assert_ok, Z.leb_le|]. split; [done|]. split; [done|]. split; [done|]. split; [done|].
    split; [by eexists | unfold Remaining; lia].
Qed.

(** ** Bytes *)

(** Storing at the current position and moving behind what was stored. *)
Lemma store_move s bs : stream_wf s -> is_Some (write_buffer_ s) -> Z.of_nat (length bs) <= Remaining s ->
  exists s1, store_bytes bs s = Ok (tt, s1) /\ write_current_ s1 = write_current_ s /\ flushed_ s1 = flushed_ s /\ stream_kind s1 = stream_kind s /\
    Remaining s1 = Remaining s /\ stream_wf s1 /\
    exists s2, move_current (Z.of_nat (length bs)) s1 = Ok (tt, s2) /\ stream_wf s2 /\ stream_kind s2 = stream_kind s /\ contents s2 = contents s ++ bs.
Proof.
  intros [Hc Hp Hi Hf] [b Hb] Hr. unfold Remaining in Hr. unfold bytes_of in Hc. rewrite Hb in Hc. cbn in Hc. unfold store_bytes. rewrite Hb.
  destruct (Nat.ltb_spec (length b) (Z.to_nat (write_current_ s) + length bs)); [lia|]. set (n := Z.to_nat (write_current_ s)) in *.
  assert (length (take n b ++ bs ++ drop (n + length bs) b) = length b) as Hl by (rewrite !length_app, length_take, length_drop; lia).
  eexists. split; [reflexivity|]. split_and!; try done; [by split; cbn; rewrite ?Hl|]. eexists. split; [reflexivity|]. split_and!; try done.
  - split; cbn; rewrite ?Hl; try done. lia.
  - unfold contents, bytes_of. cbn. rewrite Hb. cbn. rewrite <- app_assoc. f_equal. fold n. replace (Z.to_nat (write_current_ s + Z.of_nat (length bs))) with (n + length bs)%nat by lia.
    rewrite app_assoc, take_app_le by (rewrite length_app, length_take; lia). apply take_ge. rewrite length_app, length_take. lia.
Qed.

Lemma appends_stored s bs : stream_wf s -> bs <> [] ->
  appends s (_ ← EnsureSpace (Z.of_nat (length bs)); _ ← store_bytes bs; move_current (Z.of_nat (length bs))) tt bs.
Proof using laws.
  intros Hs Hne. assert (0 < Z.of_nat (length bs)) as Hpos by (destruct bs; [done | cbn; lia]). unfold appends, mbind, M_bind.
  destruct (EnsureSpace_spec s (Z.of_nat (length bs)) Hs ltac:(lia)) as [(s1 & E & Hw & Hk & Hc & Hr & Hb & _)|[E Hno]]; rewrite E; [left | by right].
  destruct (store_move s1 bs Hw (Hb Hpos) Hr) as (s2 & E2 & _ & _ & _ & _ & _ & s3 & E3 & Hw3 & Hk3 & Hc3). rewrite E2. exists s3. split_and!; try done; [congruence|]. by rewrite Hc3, Hc.
Qed.

Lemma WriteByte_appends s v : stream_wf s -> appends s (WriteByte v) tt [uwrap 8 v].
Proof using laws. intros Hs. by apply (appends_stored s [uwrap 8 v]). Qed.

Lemma byte_appends s v : stream_wf s -> 0 <= v < 256 -> appends s (WriteByte v) tt [v].
Proof using laws. intros Hs Hv. rewrite <- (uwrap_small 8 ltac:(lia) v Hv) at 2. by apply WriteByte_appends. Qed.

Lemma WriteBytes_appends s bs : stream_wf s -> appends s (WriteBytes bs) tt bs.
Proof using laws.
  intros Hs. unfold WriteBytes. destruct bs as [|b bs]; [by apply appends_ret|]. rewrite (proj2 (Z.eqb_neq _ _)) by (cbn; lia). by apply appends_stored.
Qed.

Lemma SetPosition_forward s1 s2 n : stream_wf s1 -> 0 <= n <= Remaining s1 -> move_current n s1 = Ok (tt, s2) -> SetPosition (Position s1 + n) s1 = Ok (tt, s2).
Proof using laws.
  intros Hs Hn E.
  assert (forall v, v = write_current_ s1 + n -> base_SetPosition v s1 = Ok (tt, s2)) as Hbase.
  { intros v ->. unfold base_SetPosition, this, mbind, M_bind. replace (write_current_ s1 + n - write_current_ s1) with n by lia.
    destruct (EnsureSpace_spec s1 n Hs ltac:(lia)) as [(s' & E1 & _ & _ & _ & _ & _ & Hsame)|[E1 _]].
    - rewrite E1, (Hsame ltac:(lia)). by replace (write_current_ s1 + n - write_current_ s1) with n by lia.
    - exfalso. unfold EnsureSpace, this, mbind, M_bind in E1. rewrite (proj2 (Z.leb_le _ _)) in E1 by lia. done. }
  unfold SetPosition, this, mbind, M_bind, Position. destruct (stream_kind s1); [by apply Hbase | by apply Hbase|].
  rewrite assert_ok by (apply Z.leb_le; pose proof (wf_current _ Hs); lia). apply Hbase. lia.
Qed.

Lemma Align_appends s k : stream_wf s -> 0 <= k -> exists n, RoundUp (Z.of_nat (length (contents s))) (2 ^ k) = Ok (Z.of_nat (length (contents s)) + n) /\ 0 <= n /\
  appends s (Align (2 ^ k)) n (replicate (Z.to_nat n) 0).
Proof using laws.
  intros Hs Hk. destruct (RoundUp_bounds (Z.of_nat (length (contents s))) k Hk) as (y & Ey & Hy & _). set (n := y - Z.of_nat (length (contents s))). exists n.
  split; [rewrite Ey; f_equal; lia|]. split; [lia|]. unfold Align. apply appends_this. rewrite (Position_contents s Hs).
  apply (appends_step _ _ _ y); [unfold value_of; by rewrite Ey|]. cbv zeta. fold n. pattern (replicate (Z.to_nat n) 0) at 2. rewrite <- (app_nil_r (replicate _ _)) at 1. cbv beta.
  apply (appends_bind _ _ _ tt); [|intros s' Hw _ _; by apply appends_ret]. destruct (Z.eqb_spec n 0) as [->|Hn]; cbn [negb]; [by apply appends_ret|].
  destruct (EnsureSpace_spec s n Hs ltac:(lia)) as [(s1 & E & Hw & Hkd & Hc & Hr & Hb & _)|[E Hno]]; unfold appends, mbind, M_bind; rewrite E; [left | by right].
  set (zeros := replicate (Z.to_nat n) 0). assert (Z.of_nat (length zeros) = n) as Hl by (unfold zeros; rewrite length_replicate; lia).
  destruct (store_move s1 zeros Hw (Hb ltac:(lia)) ltac:(lia)) as (s2 & E2 & Hcur & Hfl & Hk2 & Hr2 & Hw2 & s3 & E3 & Hw3 & Hk3 & Hc3). rewrite E2. exists s3. rewrite Hl in E3.
  split_and!; [|done | congruence | by rewrite Hc3, Hc]. rewrite <- (SetPosition_forward s2 s3 n Hw2 ltac:(lia) E3). f_equal.
  unfold n. replace (Position s2) with (Z.of_nat (length (contents s))); [lia|]. rewrite <- Hc, <- (Position_contents s1 Hw).
  unfold Position, flushed_size_. by rewrite Hk2, Hfl, Hcur.
Qed.

(** ** Numbers *)

(** A number of at most 64 bits has at most eleven groups of seven bits. *)
Lemma groups_shrink sg f v : in_range (7 * Z.of_nat (S f)) sg v -> ~ low sg <= v <= high sg -> in_range (7 * Z.of_nat f) sg (v >> 7) /\ (0 < f)%nat.
Proof.
  intros Hv Hn. destruct (shift_seven v) as (_ & E & Hm). replace (7 * Z.of_nat (S f)) with (7 * Z.of_nat f + 7) in Hv by lia. destruct f as [|f].
  - exfalso. apply Hn. destruct sg; cbn in *; change kMinDataPerByte with (-64); change kMaxDataPerByte with 63; change kMaxUnsignedDataPerByte with 127; lia.
  - split; [|lia]. set (k := 7 * Z.of_nat (S f)) in *. assert (7 <= k) by lia. destruct sg; cbn [in_range] in *.
    + replace (k + 7 - 1) with (k - 1 + 7) in Hv by lia. rewrite Z.pow_add_r in Hv by lia. change (2 ^ 7) with 128 in Hv. lia.
    + rewrite Z.pow_add_r in Hv by lia. change (2 ^ 7) with 128 in Hv. lia.
Qed.

Lemma in_groups n sg v : width n -> in_range n sg v -> in_range (7 * Z.of_nat 11) sg v.
Proof.
  intros Hn Hv. assert (2 ^ n <= 2 ^ 77 /\ 2 ^ (n - 1) <= 2 ^ 76) as [] by (unfold width in Hn; split; apply Z.pow_le_mono_r; lia).
  change (7 * Z.of_nat 11) with 77. destruct sg; cbn [in_range] in *; [change (77 - 1) with 76|]; lia.
Qed.

Lemma low_seven v : v .& 127 = v mod 128.
Proof. change 127 with (Z.ones 7). by rewrite Z.land_ones. Qed.

Lemma appends_more {B} s b (m : writer B) a bs : stream_wf s -> 0 <= b < 256 -> (forall s', stream_wf s' -> appends s' m a bs) -> appends s (_ ← WriteByte b; m) a (b :: bs).
Proof using laws. intros Hs Hb Hm. apply (appends_bind s _ _ tt a [b] bs); [by apply byte_appends|]. intros s' Hs' _ _. by apply Hm. Qed.

Lemma write_data_appends f v : in_range (7 * Z.of_nat f) true v -> (0 < f)%nat ->
  exists bs, data_bytes true v bs /\ forall s, stream_wf s -> appends s (write_data f v) tt bs.
Proof using laws.
  revert v. induction f as [|f IH]; intros v Hv Hf; [lia|]. cbn [write_data]. destruct (shift_seven v) as (_ & E & Hm).
  change kByteMask with 127. rewrite low_seven. destruct (decide (low true <= v <= high true)) as [Hl|Hl].
  - exists [v + marker true]. split; [by constructor|]. intros s Hs. cbn [low high] in Hl.
    rewrite (proj2 (Z.ltb_ge _ _)), (proj2 (Z.ltb_ge _ _)) by lia. cbn [orb]. apply byte_appends; [done|]. pose proof (format_bounds true). cbn [low high marker] in *. lia.
  - destruct (groups_shrink true f v Hv Hl) as [Hs7 Hf']. destruct (IH (v >> 7) Hs7 Hf') as (bs & Hb & Ha). exists (v mod 128 :: bs). split; [by constructor|]. intros s Hs.
    assert ((v <? kMinDataPerByte) || (kMaxDataPerByte <? v) = true) as -> by (apply orb_true_iff; rewrite !Z.ltb_lt; cbn [low high] in Hl; lia).
    apply appends_more; [done | lia | done].
Qed.

Lemma write_unsigned_appends f v : in_range (7 * Z.of_nat f) false v -> (0 < f)%nat ->
  exists bs, data_bytes false v bs /\ forall s, stream_wf s -> appends s (write_unsigned f v) tt bs.
Proof using laws.
  revert v. induction f as [|f IH]; intros v Hv Hf; [lia|]. cbn [write_unsigned]. destruct (shift_seven v) as (_ & E & Hm).
  change kByteMask with 127. rewrite low_seven. pose proof (proj1 Hv) as Hpos. destruct (decide (low false <= v <= high false)) as [Hl|Hl].
  - exists [v + marker false]. split; [by constructor|]. intros s Hs. cbn [low high] in Hl.
    rewrite (proj2 (Z.ltb_ge _ _)) by lia. apply byte_appends; [done|]. pose proof (format_bounds false). cbn [low high marker] in *. lia.
  - destruct (groups_shrink false f v Hv Hl) as [Hs7 Hf']. destruct (IH (v >> 7) Hs7 Hf') as (bs & Hb & Ha). exists (v mod 128 :: bs). split; [by constructor|]. intros s Hs.
    rewrite (proj2 (Z.ltb_lt _ _)) by (cbn [low high] in Hl; lia). apply appends_more; [done | lia | done].
Qed.

Lemma more_mark b : 0 <= b < 128 -> b .| kMoreDataMask = b + 128.
Proof. intros Hb. change kMoreDataMask with (1 << 7). rewrite lor_shift by (change (2 ^ 7) with 128; lia). change (2 ^ 7) with 128. lia. Qed.

Lemma write_leb128_appends f v : in_range (7 * Z.of_nat f) false v -> (0 < f)%nat ->
  exists bs, leb_bytes false v bs /\ forall s, stream_wf s -> appends s (write_leb128 f v) tt bs.
Proof using laws.
  revert v. induction f as [|f IH]; intros v Hv Hf; [lia|]. cbn [write_leb128]. destruct (shift_seven v) as (_ & E & Hm).
  change kDataByteMask with 127. change kDataBitsPerByte with 7. rewrite low_seven. pose proof (proj1 Hv) as Hpos. destruct (decide (low false <= v <= high false)) as [Hl|Hl].
  - exists [v mod 128]. split; [by constructor|]. intros s Hs. cbn [low high] in Hl. change kMaxUnsignedDataPerByte with 127 in Hl.
    rewrite (proj2 (Z.eqb_eq _ _)) by lia. cbn [negb]. apply appends_more; [done | lia|]. intros. by apply appends_ret.
  - destruct (groups_shrink false f v Hv Hl) as [Hs7 Hf']. destruct (IH (v >> 7) Hs7 Hf') as (bs & Hb & Ha). exists (v mod 128 + 128 :: bs). split; [by constructor|]. intros s Hs.
    cbn [low high] in Hl. change kMaxUnsignedDataPerByte with 127 in Hl. rewrite (proj2 (Z.eqb_neq _ _)) by lia. cbn [negb]. rewrite more_mark by done.
    apply appends_more; [done | lia | done].
Qed.

Lemma sign_extended k r : 0 <= k -> - 2 ^ k <= r < 0 -> r .| Z.lnot ((1 << k) - 1) = r.
Proof.
  intros Hk Hr. replace (Z.lnot ((1 << k) - 1)) with ((-1) << k) by (rewrite Z.shiftl_1_l, Z.shiftl_mul_pow2 by lia; unfold Z.lnot; lia).
  replace r with ((r + 2 ^ k) .| ((-1) << k)) by (rewrite lor_shift by lia; lia). by rewrite <- Z.lor_assoc, Z.lor_diag.
Qed.

(** The byte written last is the one whose sign bit agrees with the rest. *)
Lemma sleb_last v : let part := v mod 128 in
  (if v <? 0 then (v >> 7 =? Z.lnot 0) && negb (part .& kSignMask =? 0) else (v >> 7 =? 0) && (part .& kSignMask =? 0)) = bool_decide (low true <= v <= high true).
Proof.
  destruct (shift_seven v) as (_ & E & Hm). cbv zeta. cbn [low high]. change kMinDataPerByte with (-64). change kMaxDataPerByte with 63. change (Z.lnot 0) with (-1).
  assert (forall b, 0 <= b < 128 -> sign_of b = (64 <=? b)) as Hsign.
  { intros b Hb. destruct (Z.leb_spec 64 b); [replace b with ((b - 128) mod 128) | replace b with (b mod 128)].
    - rewrite sign_bit by lia. apply Z.ltb_lt. lia.
    - symmetry. apply Z.mod_unique_pos with (-1); lia.
    - rewrite sign_bit by lia. apply Z.ltb_ge. lia.
    - apply Z.mod_small. lia. }
  specialize (Hsign (v mod 128) Hm). unfold sign_of in Hsign. rewrite <- (negb_involutive (v mod 128 .& kSignMask =? 0)), !Hsign, negb_involutive.
  apply eq_bool_prop_intro. rewrite bool_decide_spec.
  destruct (Z.ltb_spec v 0); rewrite andb_True, ?negb_True, !Is_true_true, ?Z.eqb_eq, ?Z.leb_le; lia.
Qed.

Lemma write_sleb128_appends n f v : width n -> in_range n true v -> in_range (7 * Z.of_nat f) true v -> (0 < f)%nat ->
  exists bs, leb_bytes true v bs /\ forall s, stream_wf s -> appends s (write_sleb128 f n (v <? 0) v) tt bs.
Proof using laws.
  intros Hn. revert v. induction f as [|f IH]; intros v Hvn Hv Hf; [lia|]. cbn [write_sleb128]. destruct (shift_seven v) as (_ & E & Hm).
  change kDataByteMask with 127. change kDataBitsPerByte with 7. rewrite low_seven.
  assert (7 < n) by (unfold width in Hn; lia). assert (2 ^ (n - 1) = 64 * 2 ^ (n - 7)) as E6 by (change 64 with (2 ^ 6); rewrite <- Z.pow_add_r by lia; f_equal; lia).
  assert (2 <= 2 ^ (n - 7)) by (change 2 with (2 ^ 1) at 1; apply Z.pow_le_mono_r; lia).
  assert (in_range n true (v >> 7)) as Hvn7 by (cbn [in_range] in *; lia).
  assert ((if v <? 0 then (v >> 7) .| Z.lnot ((1 << (n - 7)) - 1) else v >> 7) = v >> 7) as Er.
  { destruct (Z.ltb_spec v 0); [|done]. apply sign_extended; cbn [in_range] in *; lia. }
  assert ((v >> 7 <? 0) = (v <? 0)) as Eneg by (destruct (Z.ltb_spec v 0), (Z.ltb_spec (v >> 7) 0); lia).
  assert (forall s : WriteStream, (if v <? 0 then assert_ (v >> 7 <? 0) else assert_ (0 <=? v >> 7)) s = Ok (tt, s)) as Hassert.
  { intros s. destruct (v <? 0) eqn:Ev; apply assert_ok; [done | apply Z.leb_le; apply Z.ltb_ge in Ev; lia]. }
  rewrite Er, sleb_last. case_bool_decide as Hl; cbn [negb].
  - exists [v mod 128]. split; [by constructor|]. intros s Hs. eapply appends_step; [apply Hassert|]. apply appends_more; [done | lia|]. intros. by apply appends_ret.
  - destruct (groups_shrink true f v Hv Hl) as [Hs7 Hf']. destruct (IH (v >> 7) Hvn7 Hs7 Hf') as (bs & Hb & Ha). exists (v mod 128 + 128 :: bs). split; [by constructor|]. intros s Hs.
    eapply appends_step; [apply Hassert|]. rewrite more_mark by done. apply appends_more; [done | lia|]. rewrite <- Eneg. done.
Qed.
End Writing.

(** ** Fresh streams *)

Section Fresh.
Context `{Target}.

(** Bit [i] of [y] tells whether [x] has one of the [w] bits from [i] on. *)
Definition smeared (w x y : Z) : Prop := forall i, 0 <= i -> Z.testbit y i = true <-> exists j, i <= j < i + w /\ Z.testbit x j = true.

Lemma smeared_refl x : smeared 1 x x.
Proof. intros i Hi. split; [intros Hb; exists i; split; [lia | done]|]. intros (j & Hj & Hb). by replace i with j by lia. Qed.

Lemma smear_nonneg y w : 0 <= y -> 0 <= y .| (y >> w).
Proof. intros Hy. apply Z.lor_nonneg. by rewrite Z.shiftr_nonneg. Qed.

Lemma smeared_double w x y : 0 < w -> smeared w x y -> smeared (w + w) x (y .| (y >> w)).
Proof.
  intros Hw Hy i Hi. pose proof (Hy i ltac:(lia)) as H1. pose proof (Hy (i + w) ltac:(lia)) as H2. rewrite Z.lor_spec, Z.shiftr_spec, orb_true_iff, H1, H2 by lia. split.
  - intros [(j & Hj & Hb)|(j & Hj & Hb)]; exists j; (split; [lia | done]).
  - intros (j & Hj & Hb). destruct (Z.lt_ge_cases j (i + w)); [left | right]; exists j; (split; [lia | done]).
Qed.

Lemma smeared_ones w x y : 0 < x < 2 ^ w -> 0 <= y -> smeared w x y -> y = Z.ones (Z.log2 x + 1).
Proof.
  intros Hx Hy0 Hy. pose proof (Z.log2_nonneg x). assert (Z.log2 x < w) as Hl by (apply Z.log2_lt_pow2; lia).
  apply Z.bits_inj'. intros i Hi. apply eq_true_iff_eq. rewrite (Hy i Hi), Z.testbit_ones_nonneg, Z.ltb_lt by lia. split.
  - intros (j & Hj & Hb). destruct (Z.lt_ge_cases (Z.log2 x) j); [by rewrite Z.bits_above_log2 in Hb by lia | lia].
  - intros Hle. exists (Z.log2 x). split; [lia|]. apply Z.bit_log2; lia.
Qed.

Lemma RoundUpToPowerOfTwo_spec x : 0 < x <= 2 ^ (XLEN - 1) -> exists k, 0 <= k /\ RoundUpToPowerOfTwo x = 2 ^ k /\ x <= 2 ^ k < 2 * x.
Proof.
  intros Hx. assert (0 <= XLEN - 1) by (unfold XLEN; destruct TARGET_64; lia).
  assert (2 ^ XLEN = 2 * 2 ^ (XLEN - 1)) as EX by (rewrite <- Z.pow_succ_r by done; f_equal; lia).
  assert (uintx (x - 1) = x - 1) as E1 by (unfold uintx, uwrap; apply Z.mod_small; lia).
  destruct (Z.eq_dec x 1) as [->|Hne]; [exists 0; unfold RoundUpToPowerOfTwo; rewrite E1; split; [done|]; split; [|lia]; unfold uintx, uwrap, XLEN; destruct TARGET_64; reflexivity|].
  assert (exists y, RoundUpToPowerOfTwo x = uintx (y + 1) /\ 0 <= y /\ smeared XLEN (x - 1) y) as (y & -> & Hy0 & Hy).
  { unfold RoundUpToPowerOfTwo. rewrite E1. eexists. split; [reflexivity|].
    pose proof (smeared_refl (x - 1)) as S0. do 5 apply smeared_double in S0 as S0; [|lia..]. cbn [Z.add Pos.add] in S0.
    set (y := _ .| _) in S0. unfold XLEN. destruct TARGET_64; [apply smeared_double in S0; [|lia]|]. all: split; [|exact S0]; repeat apply smear_nonneg; lia. }
  rewrite (smeared_ones XLEN (x - 1) y) by (done || lia). pose proof (Z.log2_nonneg (x - 1)). destruct (Z.log2_spec (x - 1) ltac:(lia)) as [Hlo Hhi]. exists (Z.log2 (x - 1) + 1).
  assert (2 ^ (Z.log2 (x - 1) + 1) = 2 * 2 ^ Z.log2 (x - 1)) as Ep by (rewrite Z.pow_add_r by lia; lia).
  split; [lia|]. split; [|unfold Z.succ in Hhi; lia]. rewrite Z.ones_equiv. replace (Z.pred (2 ^ (Z.log2 (x - 1) + 1)) + 1) with (2 ^ (Z.log2 (x - 1) + 1)) by lia.
  unfold uintx, uwrap. apply Z.mod_small. split; [lia|].
  assert (2 ^ Z.log2 (x - 1) < 2 ^ (XLEN - 1)) by lia. lia.
Qed.

Lemma new_stream_wf kind size : 0 < size <= 2 ^ (XLEN - 1) -> stream_wf (new_stream kind size) /\ contents (new_stream kind size) = [].
Proof.
  intros Hs. destruct (RoundUpToPowerOfTwo_spec size Hs) as (k & Hk & E & _). split; [|done]. split; cbn; try done. by exists k.
Qed.
End Fresh.
