(* ===== verification/RangeAnalysis.v ===== *)
(** * Integer ranges

    [RangeBoundary] and [Range] of [src/runtime/vm/compiler/backend/range_analysis.{h,cc}]: the
    ranges the optimising compiler keeps for integer definitions, the arithmetic on them, and the
    two decisions that rest on it, that an operation cannot overflow and that a bounds check
    cannot fail.

    A definition of the intermediate language is a number.  What the analysis asks of the
    definitions is the class [FlowGraph]; the range of each definition, which the analysis
    changes, is passed on.  A boundary may be a definition plus an offset, and the bounds of such
    a boundary are found in the range of the definition, so the definitions here have fuel.
    Additions and multiplications of 64-bit numbers are those of integers: the code tests for
    overflow first. *)
From S2P Require Import Prelude Utils Constants.

Definition kMinInt64 : Z := - 2 ^ 63.
Definition kMaxInt64 : Z := 2 ^ 63 - 1.

(** ** Helpers of [Utils] *)

Definition Maximum (x y : Z) : Z := if y <? x then x else y.
Definition Minimum (x y : Z) : Z := if x <? y then x else y.
Definition WillAddOverflow (a b : Z) : bool := ((0 <? b) && (kMaxInt64 - b <? a)) || ((b <? 0) && (a <? kMinInt64 - b)).
Definition WillSubOverflow (a b : Z) : bool := ((0 <? b) && (a <? kMinInt64 + b)) || ((b <? 0) && (kMaxInt64 + b <? a)).
Definition AbsWithSaturation (x : Z) : Z :=
  if x <? 0 then if x =? kMinInt64 then kMaxInt64 else - x else x.

(** One step of [HighestBit]: the number left and the bits found. *)
Definition halve (n : Z) (xr : Z * Z) : Z * Z :=
  let '(x, r) := xr in let t := x >> n in if negb (t =? 0) then (t, r + n) else (x, r).
Definition HighestBit (v : Z) : Z :=
  let x := uwrap 64 (if 0 <? v then v else - v) in
  let '(x, r) := halve 2 (halve 4 (halve 8 (halve 16 (halve 32 (x, 0))))) in
  if 1 <? x then r + 1 else r.
Definition BitLength (value : Z) : Z :=
  let value := value .^ (value >> 63) in
  if value =? 0 then 0 else HighestBit value + 1.

(** ** Boundaries *)

Inductive RangeBoundary :=
| kUnknown
| kNegativeInfinity
| kPositiveInfinity
| kSymbol (symbol offset : Z)
| kConstant (value : Z).
Inductive RangeSize := kRangeBoundarySmi | kRangeBoundaryInt16 | kRangeBoundaryInt32 | kRangeBoundaryInt64.
Record Range := { min_ : RangeBoundary; max_ : RangeBoundary }.

Inductive TokenKind :=
| kADD | kSUB | kMUL | kTRUNCDIV | kMOD | kSHL | kSHR | kUSHR | kBIT_AND | kBIT_XOR | kBIT_OR
| kEQ | kNE | kLT | kGT | kLTE | kGTE | kOtherToken.
Inductive Object := Smi (value : Z) | Mint (value : Z) | OtherObject.

(** The instructions the analysis looks into. *)
Inductive Instruction :=
| ConstantInstr (value : Object)
| ConstraintInstr (value : Z) (constraint : Range)
| BinarySmiOpInstr (op_kind : TokenKind) (left right : Z)
| OtherInstr.

(** The definitions: the instruction of each, the definition it only redefines, whether it is the
    length of an array, whether its type is that of small integers, whether two compute the same
    (by their [AllowsCSE] and [Equals]), and what [InferRange] gives for those not listed above. *)
Class FlowGraph := {
  definition : Z -> Instruction;
  RedefinedValue : Z -> option Z;
  IsArrayLength : Z -> bool;
  IsSmiType : Z -> bool;
  cse_equal : Z -> Z -> bool;
  infer_other : Z -> result Range
}.

Definition value_ (b : RangeBoundary) : Z := match b with kConstant v => v | kSymbol d _ => d | _ => 0 end.
Definition offset (b : RangeBoundary) : Z := match b with kSymbol _ o => o | _ => 0 end.
Definition IsUnknown (b : RangeBoundary) : bool := match b with kUnknown => true | _ => false end.
Definition IsConstant (b : RangeBoundary) : bool := match b with kConstant _ => true | _ => false end.
Definition IsSymbol (b : RangeBoundary) : bool := match b with kSymbol _ _ => true | _ => false end.
Definition IsNegativeInfinity (b : RangeBoundary) : bool := match b with kNegativeInfinity => true | _ => false end.
Definition IsPositiveInfinity (b : RangeBoundary) : bool := match b with kPositiveInfinity => true | _ => false end.
Definition IsInfinity (b : RangeBoundary) : bool := IsNegativeInfinity b || IsPositiveInfinity b.
Definition IsConstantOrInfinity (b : RangeBoundary) : bool := IsConstant b || IsInfinity b.

Section Boundaries.
Context `{Target} `{FlowGraph}.

(** [compiler::target]; pointers are not compressed. *)
Definition kSmiBits : Z := XLEN - 2.
Definition kSmiMax : Z := (1 << kSmiBits) - 1.
Definition kSmiMin : Z := - (1 << kSmiBits).
Definition IsSmi (v : Z) : bool := IsInt int64_t (kSmiBits + 1) v.

Definition IsValidOffsetForSymbolicRangeBoundary (offset : Z) : bool :=
  if (kMaxInt64 - kSmiMax <? offset) || (offset <? kMinInt64 - kSmiMin) then false else true.

Definition min_value (size : RangeSize) : Z :=
  match size with
  | kRangeBoundarySmi => kSmiMin
  | kRangeBoundaryInt16 => - 2 ^ 15
  | kRangeBoundaryInt32 => - 2 ^ 31
  | kRangeBoundaryInt64 => kMinInt64
  end.
Definition max_value (size : RangeSize) : Z :=
  match size with
  | kRangeBoundarySmi => kSmiMax
  | kRangeBoundaryInt16 => 2 ^ 15 - 1
  | kRangeBoundaryInt32 => 2 ^ 31 - 1
  | kRangeBoundaryInt64 => kMaxInt64
  end.
Definition MinConstant (size : RangeSize) : RangeBoundary := kConstant (min_value size).
Definition MaxConstant (size : RangeSize) : RangeBoundary := kConstant (max_value size).

Definition ConstantValue (b : RangeBoundary) : result Z :=
  _ ← ASSERT (IsConstant b);
  Ok (value_ b).

Definition symbol (b : RangeBoundary) : result Z :=
  _ ← ASSERT (IsSymbol b);
  Ok (value_ b).

Definition Clamp (size : RangeSize) (b : RangeBoundary) : RangeBoundary :=
  match b with
  | kNegativeInfinity => MinConstant size
  | kPositiveInfinity => MaxConstant size
  | kConstant v =>
      if v <=? min_value size then MinConstant size
      else if max_value size <=? v then MaxConstant size
      else b
  | _ => b
  end.

Definition IsMinimumOrBelow (size : RangeSize) (b : RangeBoundary) : bool :=
  IsNegativeInfinity b || (IsConstant b && (value_ b <=? min_value size)).
Definition IsMaximumOrAbove (size : RangeSize) (b : RangeBoundary) : bool :=
  IsPositiveInfinity b || (IsConstant b && (max_value size <=? value_ b)).
Definition OverflowedSmi (b : RangeBoundary) : bool := (IsConstant b && negb (IsSmi (value_ b))) || IsInfinity b.

Definition FromDefinition (d offs : Z) : result RangeBoundary :=
  match definition d with
  | ConstantInstr (Smi v) => Ok (kConstant (v + offs))
  | _ =>
      _ ← ASSERT (IsValidOffsetForSymbolicRangeBoundary offs);
      Ok (kSymbol d offs)
  end.

Definition Boundary_Add (a b overflow : RangeBoundary) : result RangeBoundary :=
  if IsInfinity a || IsInfinity b then Ok overflow
  else
    _ ← ASSERT (IsConstant a && IsConstant b);
    if WillAddOverflow (value_ a) (value_ b) then Ok overflow else Ok (kConstant (value_ a + value_ b)).

Definition Boundary_Sub (a b overflow : RangeBoundary) : result RangeBoundary :=
  if IsInfinity a || IsInfinity b then Ok overflow
  else
    _ ← ASSERT (IsConstant a && IsConstant b);
    if WillSubOverflow (value_ a) (value_ b) then Ok overflow else Ok (kConstant (value_ a - value_ b)).

Definition Boundary_Shl (value_boundary : RangeBoundary) (shift_count : Z) (overflow : RangeBoundary) : result RangeBoundary :=
  _ ← ASSERT (IsConstant value_boundary);
  _ ← ASSERT (0 <=? shift_count);
  let limit := 64 - shift_count in
  let value := value_ value_boundary in
  if value =? 0 then Ok (kConstant 0)
  else if (shift_count =? 0) || ((0 <? limit) && IsInt int64_t limit value) then Ok (kConstant (swrap 64 (value << shift_count)))
  else Ok overflow.

Definition Boundary_Shr (value_boundary : RangeBoundary) (shift_count : Z) : result RangeBoundary :=
  _ ← ASSERT (IsConstant value_boundary);
  _ ← ASSERT (0 <=? shift_count);
  let value := value_ value_boundary in
  Ok (kConstant (if shift_count <=? 63 then value >> shift_count else if 0 <=? value then 0 else -1)).

(** The result of [SymbolicAdd] and [SymbolicSub], if they succeed. *)
Definition symbolic_add (a b : RangeBoundary) : result (option RangeBoundary) :=
  if WillAddOverflow (offset a) (value_ b) then Ok None
  else
    let offset := offset a + value_ b in
    if negb (IsValidOffsetForSymbolicRangeBoundary offset) then Ok None
    else result ← FromDefinition (value_ a) offset; Ok (Some result).
Definition SymbolicAdd (a b : RangeBoundary) : result (option RangeBoundary) :=
  if IsSymbol a && IsConstant b then symbolic_add a b
  else if IsSymbol b && IsConstant a then symbolic_add b a
  else Ok None.
Definition SymbolicSub (a b : RangeBoundary) : result (option RangeBoundary) :=
  if IsSymbol a && IsConstant b then
    if WillSubOverflow (offset a) (value_ b) then Ok None
    else
      let offset := offset a - value_ b in
      if negb (IsValidOffsetForSymbolicRangeBoundary offset) then Ok None
      else result ← FromDefinition (value_ a) offset; Ok (Some result)
  else Ok None.

(** The constructor of [Range]. *)
Definition Full (size : RangeSize) : Range := {| min_ := MinConstant size; max_ := MaxConstant size |}.
Definition new_Range (min max : RangeBoundary) : result Range :=
  _ ← ASSERT (eqb (IsUnknown min) (IsUnknown max));
  Ok (if IsInfinity min || IsInfinity max then Full kRangeBoundaryInt64 else {| min_ := min; max_ := max |}).
Definition set_min (r : Range) (value : RangeBoundary) : Range :=
  if IsInfinity value then Full kRangeBoundaryInt64 else {| min_ := value; max_ := max_ r |}.
Definition set_max (r : Range) (value : RangeBoundary) : Range :=
  if IsInfinity value then Full kRangeBoundaryInt64 else {| min_ := min_ r; max_ := value |}.
Definition Range_IsUnknown (r : option Range) : bool := match r with None => true | Some r => IsUnknown (min_ r) end.

(** [RangeAnalysis::ConstraintSmiRange]. *)
Definition ConstraintSmiRange (op : TokenKind) (boundary : Z) : result Range :=
  match op with
  | kEQ => b ← FromDefinition boundary 0; new_Range b b
  | kNE => Ok (Full kRangeBoundarySmi)
  | kLT => b ← FromDefinition boundary (-1); new_Range (MinConstant kRangeBoundarySmi) b
  | kGT => b ← FromDefinition boundary 1; new_Range b (MaxConstant kRangeBoundarySmi)
  | kLTE => b ← FromDefinition boundary 0; new_Range (MinConstant kRangeBoundarySmi) b
  | kGTE => b ← FromDefinition boundary 0; new_Range b (MaxConstant kRangeBoundarySmi)
  | _ => Err Unreachable
  end.

(** [UnwrapConstraint] and [Definition::OriginalDefinition]. *)
Fixpoint UnwrapConstraint (fuel : nat) (d : Z) : result Z :=
  match fuel with
  | O => Err LoopFuelExhausted
  | S fuel => match definition d with ConstraintInstr value _ => UnwrapConstraint fuel value | _ => Ok d end
  end.
Fixpoint OriginalDefinition (fuel : nat) (d : Z) : result Z :=
  match fuel with
  | O => Err LoopFuelExhausted
  | S fuel => match RedefinedValue d with Some value => OriginalDefinition fuel value | None => Ok d end
  end.

Definition AreEqualDefinitions (fuel : nat) (a b : Z) : result bool :=
  a ← UnwrapConstraint fuel a;
  b ← UnwrapConstraint fuel b;
  Ok ((a =? b) || cse_equal a b).
Definition DependOnSameSymbol (fuel : nat) (a b : RangeBoundary) : result bool :=
  if IsSymbol a && IsSymbol b then AreEqualDefinitions fuel (value_ a) (value_ b) else Ok false.

Definition Equals (fuel : nat) (a b : RangeBoundary) : result bool :=
  if IsConstant a && IsConstant b then Ok (value_ a =? value_ b)
  else if IsInfinity a && IsInfinity b then Ok (eqb (IsNegativeInfinity a) (IsNegativeInfinity b))
  else if IsSymbol a && IsSymbol b then if offset a =? offset b then DependOnSameSymbol fuel a b else Ok false
  else Ok (IsUnknown a && IsUnknown b).

Definition Overflowed (fuel : nat) (size : RangeSize) (b : RangeBoundary) : result bool :=
  _ ← ASSERT (IsConstantOrInfinity b);
  e ← Equals fuel b (Clamp size b);
  Ok (negb e).

(** [Smi::Cast] of the value of a constant. *)
Definition Smi_value (o : Object) : result Z := match o with Smi v => Ok v | _ => Err AssertFailure end.

(** The loop of [CanonicalizeBoundary]: the symbol and the offset, or an overflow. *)
Fixpoint canonicalize (fuel : nat) (symbol offset : Z) : result (option (Z * Z)) :=
  match fuel with
  | O => Err LoopFuelExhausted
  | S fuel =>
      match definition symbol with
      | ConstraintInstr value _ => canonicalize fuel value offset
      | BinarySmiOpInstr kADD l r =>
          match definition r, definition l with
          | ConstantInstr o, _ =>
              rhs ← Smi_value o;
              if WillAddOverflow offset rhs then Ok None else canonicalize fuel l (offset + rhs)
          | _, ConstantInstr o =>
              rhs ← Smi_value o;
              if WillAddOverflow offset rhs then Ok None else canonicalize fuel r (offset + rhs)
          | _, _ => Ok (Some (symbol, offset))
          end
      | BinarySmiOpInstr kSUB l r =>
          match definition r with
          | ConstantInstr o =>
              rhs ← Smi_value o;
              if WillSubOverflow offset rhs then Ok None else canonicalize fuel l (offset - rhs)
          | _ => Ok (Some (symbol, offset))
          end
      | _ => Ok (Some (symbol, offset))
      end
  end.
Definition CanonicalizeBoundary (fuel : nat) (a overflow : RangeBoundary) : result RangeBoundary :=
  if IsConstant a || IsInfinity a then Ok a
  else
    s ← symbol a;
    c ← canonicalize fuel s (offset a);
    match c with
    | None => Ok overflow
    | Some (s, offset) => if negb (IsValidOffsetForSymbolicRangeBoundary offset) then Ok overflow else FromDefinition s offset
    end.
End Boundaries.

(** ** Ranges *)

Definition ranges := Z -> option Range.

Section Ranges.
Context `{Target} `{FlowGraph} (fuel : nat) (range_of : ranges).

(** [LowerBound] and [UpperBound] of a boundary, [ConstantMin] and [ConstantMax] of a range. *)
Fixpoint lower_bound (n : nat) (b : RangeBoundary) : result RangeBoundary :=
  match n with
  | O => Err LoopFuelExhausted
  | S n =>
      if IsInfinity b then Ok kNegativeInfinity
      else if IsConstant b then Ok b
      else
        s ← symbol b;
        min ← match range_of s with
              | None => Ok (MinConstant kRangeBoundarySmi)
              | Some r => l ← lower_bound n (min_ r); Ok (Clamp kRangeBoundarySmi l)
              end;
        Boundary_Add min (kConstant (offset b)) kNegativeInfinity
  end.
Fixpoint upper_bound (n : nat) (b : RangeBoundary) : result RangeBoundary :=
  match n with
  | O => Err LoopFuelExhausted
  | S n =>
      if IsInfinity b then Ok kPositiveInfinity
      else if IsConstant b then Ok b
      else
        s ← symbol b;
        max ← match range_of s with
              | None => Ok (MaxConstant kRangeBoundarySmi)
              | Some r => u ← upper_bound n (max_ r); Ok (Clamp kRangeBoundarySmi u)
              end;
        Boundary_Add max (kConstant (offset b)) kPositiveInfinity
  end.
Definition LowerBound (b : RangeBoundary) : result RangeBoundary := lower_bound fuel b.
Definition UpperBound (b : RangeBoundary) : result RangeBoundary := upper_bound fuel b.
Definition LowerBound_in (size : RangeSize) (b : RangeBoundary) : result Z := l ← LowerBound b; ConstantValue (Clamp size l).
Definition UpperBound_in (size : RangeSize) (b : RangeBoundary) : result Z := u ← UpperBound b; ConstantValue (Clamp size u).

Definition ConstantMin (size : RangeSize) (r : option Range) : result RangeBoundary :=
  match r with None => Ok (MinConstant size) | Some r => l ← LowerBound (min_ r); Ok (Clamp size l) end.
Definition ConstantMax (size : RangeSize) (r : option Range) : result RangeBoundary :=
  match r with None => Ok (MaxConstant size) | Some r => u ← UpperBound (max_ r); Ok (Clamp size u) end.
Definition min_int64 (r : Range) : result Z := b ← ConstantMin kRangeBoundaryInt64 (Some r); ConstantValue b.
Definition max_int64 (r : Range) : result Z := b ← ConstantMax kRangeBoundaryInt64 (Some r); ConstantValue b.

(** *** Canonical forms *)

(** [CanonicalizeMaxBoundary] and [CanonicalizeMinBoundary]: the new boundary if it changed. *)
Definition canonical_of (bound overflow a : RangeBoundary) : result (option RangeBoundary) :=
  if WillAddOverflow (offset bound) (offset a) then Ok (Some overflow)
  else
    let offset := offset bound + offset a in
    if negb (IsValidOffsetForSymbolicRangeBoundary offset) then Ok (Some overflow)
    else
      b ← FromDefinition (value_ bound) offset;
      c ← CanonicalizeBoundary fuel b overflow;
      Ok (Some c).
Definition CanonicalizeMaxBoundary (a : RangeBoundary) : result (option RangeBoundary) :=
  if negb (IsSymbol a) then Ok None
  else match range_of (value_ a) with
       | None => Ok None
       | Some r => if negb (IsSymbol (max_ r)) then Ok None else canonical_of (max_ r) kPositiveInfinity a
       end.
Definition CanonicalizeMinBoundary (a : RangeBoundary) : result (option RangeBoundary) :=
  if negb (IsSymbol a) then Ok None
  else match range_of (value_ a) with
       | None => Ok None
       | Some r => if negb (IsSymbol (min_ r)) then Ok None else canonical_of (min_ r) kNegativeInfinity a
       end.

(** The loop that makes two boundaries depend on the same symbol: [op_a] is tried on the first,
    and [op_b] on the second when the first does not change. *)
Fixpoint same_symbol (n : nat) (op_a op_b : RangeBoundary -> result (option RangeBoundary)) (a b : RangeBoundary) :
    result (option (RangeBoundary * RangeBoundary)) :=
  match n with
  | O => Err LoopFuelExhausted
  | S n =>
      same ← DependOnSameSymbol fuel a b;
      if same : bool then Ok (Some (a, b))
      else
        changed_a ← op_a a;
        match changed_a with
        | Some a => same_symbol n op_a op_b a b
        | None =>
            changed_b ← op_b b;
            match changed_b with
            | Some b => same_symbol n op_a op_b a b
            | None => Ok None
            end
        end
  end.
Definition CanonicalizeForComparison (a b : RangeBoundary) (op : RangeBoundary -> result (option RangeBoundary)) :
    result (option (RangeBoundary * RangeBoundary)) :=
  if negb (IsSymbol a) || negb (IsSymbol b) then Ok None else same_symbol (fuel + fuel + 1) op op a b.

Definition JoinMin (a b : RangeBoundary) (size : RangeSize) : result RangeBoundary :=
  e ← Equals fuel a b;
  if e : bool then Ok b
  else
    c ← CanonicalizeForComparison a b CanonicalizeMinBoundary;
    match c with
    | Some (a, b) => Ok (if offset a <=? offset b then a else b)
    | None =>
        inf_a ← LowerBound_in size a;
        inf_b ← LowerBound_in size b;
        sup_a ← UpperBound_in size a;
        sup_b ← UpperBound_in size b;
        a_overflowed ← (if sup_a <=? inf_b then l ← LowerBound a; Overflowed fuel size l else Ok true);
        if negb a_overflowed then Ok a
        else
          b_overflowed ← (if sup_b <=? inf_a then l ← LowerBound b; Overflowed fuel size l else Ok true);
          if negb b_overflowed then Ok b else Ok (kConstant (Minimum inf_a inf_b))
    end.
Definition JoinMax (a b : RangeBoundary) (size : RangeSize) : result RangeBoundary :=
  e ← Equals fuel a b;
  if e : bool then Ok b
  else
    c ← CanonicalizeForComparison a b CanonicalizeMaxBoundary;
    match c with
    | Some (a, b) => Ok (if offset b <=? offset a then a else b)
    | None =>
        inf_a ← LowerBound_in size a;
        inf_b ← LowerBound_in size b;
        sup_a ← UpperBound_in size a;
        sup_b ← UpperBound_in size b;
        b_overflowed ← (if sup_a <=? inf_b then u ← UpperBound b; Overflowed fuel size u else Ok true);
        if negb b_overflowed then Ok b
        else
          a_overflowed ← (if sup_b <=? inf_a then u ← UpperBound a; Overflowed fuel size u else Ok true);
          if negb a_overflowed then Ok a else Ok (kConstant (Maximum sup_a sup_b))
    end.

Definition IntersectionMin (a b : RangeBoundary) : result RangeBoundary :=
  _ ← ASSERT (negb (IsPositiveInfinity a) && negb (IsPositiveInfinity b));
  _ ← ASSERT (negb (IsUnknown a) && negb (IsUnknown b));
  e ← Equals fuel a b;
  if e : bool then Ok a
  else if IsMinimumOrBelow kRangeBoundarySmi a then Ok b
  else if IsMinimumOrBelow kRangeBoundarySmi b then Ok a
  else
    c ← CanonicalizeForComparison a b CanonicalizeMinBoundary;
    match c with
    | Some (a, b) => Ok (if offset b <=? offset a then a else b)
    | None =>
        inf_a ← LowerBound_in kRangeBoundarySmi a;
        inf_b ← LowerBound_in kRangeBoundarySmi b;
        Ok (if inf_b <=? inf_a then a else b)
    end.
Definition IntersectionMax (a b : RangeBoundary) : result RangeBoundary :=
  _ ← ASSERT (negb (IsNegativeInfinity a) && negb (IsNegativeInfinity b));
  _ ← ASSERT (negb (IsUnknown a) && negb (IsUnknown b));
  e ← Equals fuel a b;
  if e : bool then Ok a
  else if IsMaximumOrAbove kRangeBoundarySmi a then Ok b
  else if IsMaximumOrAbove kRangeBoundarySmi b then Ok a
  else
    c ← CanonicalizeForComparison a b CanonicalizeMaxBoundary;
    match c with
    | Some (a, b) => Ok (if offset a <=? offset b then a else b)
    | None =>
        sup_a ← UpperBound_in kRangeBoundarySmi a;
        sup_b ← UpperBound_in kRangeBoundarySmi b;
        Ok (if sup_a <=? sup_b then a else b)
    end.
Definition Intersect (r other : Range) : result Range :=
  min ← IntersectionMin (min_ r) (min_ other);
  max ← IntersectionMax (max_ r) (max_ other);
  new_Range min max.

(** *** Tests *)

Definition OnlyLessThanOrEqualTo (r : Range) (val : Z) : result bool :=
  upper_bound ← UpperBound (max_ r);
  if IsPositiveInfinity upper_bound then Ok false else v ← ConstantValue upper_bound; Ok (v <=? val).
Definition OnlyGreaterThanOrEqualTo (r : Range) (val : Z) : result bool :=
  lower_bound ← LowerBound (min_ r);
  if IsNegativeInfinity lower_bound then Ok false else v ← ConstantValue lower_bound; Ok (val <=? v).
Definition IsPositive (r : Range) : result bool := OnlyGreaterThanOrEqualTo r 0.
Definition IsNegative (r : Range) : result bool := OnlyLessThanOrEqualTo r (-1).
Definition both (a b : result bool) : result bool := x ← a; if x : bool then b else Ok false.
Definition either (a b : result bool) : result bool := x ← a; if x : bool then Ok true else b.
Definition IsWithin (r : Range) (min_int max_int : Z) : result bool :=
  both (OnlyGreaterThanOrEqualTo r min_int) (OnlyLessThanOrEqualTo r max_int).
Definition OnlyPositiveOrZero (a b : Range) : result bool := both (OnlyGreaterThanOrEqualTo a 0) (OnlyGreaterThanOrEqualTo b 0).
Definition OnlyNegativeOrZero (a b : Range) : result bool := both (OnlyLessThanOrEqualTo a 0) (OnlyLessThanOrEqualTo b 0).

Definition IsUnsatisfiable (r : Range) : result bool :=
  if IsPositiveInfinity (min_ r) || IsNegativeInfinity (max_ r) then Ok true
  else
    min ← min_int64 r;
    max ← max_int64 r;
    if max <? min then Ok true
    else
      same ← DependOnSameSymbol fuel (min_ r) (max_ r);
      Ok (same && (offset (max_ r) <? offset (min_ r))).

Definition Fits (size : RangeSize) (r : Range) : result bool :=
  l ← LowerBound (min_ r);
  l_overflowed ← Overflowed fuel size l;
  if negb l_overflowed then u ← UpperBound (max_ r); u_overflowed ← Overflowed fuel size u; Ok (negb u_overflowed) else Ok false.

Definition Range_Clamp (size : RangeSize) (r : Range) : Range := {| min_ := Clamp size (min_ r); max_ := Clamp size (max_ r) |}.

Definition ConstantAbsMax (r : Range) : result Z :=
  min ← min_int64 r;
  max ← max_int64 r;
  Ok (Maximum (AbsWithSaturation min) (AbsWithSaturation max)).
Definition ConstantAbsMin (r : Range) : result Z :=
  min ← min_int64 r;
  max ← max_int64 r;
  Ok (Minimum (AbsWithSaturation min) (AbsWithSaturation max)).

(** *** Operations *)

Abbreviation boundaries := (RangeBoundary * RangeBoundary)%type.

(** The counts of a shift: a negative one does not get here. *)
Definition shift_max (r : Range) : result Z := v ← max_int64 r; Ok (Maximum v 0).
Definition shift_min (r : Range) : result Z := v ← min_int64 r; Ok (Maximum v 0).

Definition infinity_of (v : Z) : RangeBoundary := if 0 <? v then kPositiveInfinity else kNegativeInfinity.
Definition Range_Shl (l r : Range) : result boundaries :=
  left_max ← max_int64 l;
  left_min ← min_int64 l;
  right_max ← shift_max r;
  right_min ← shift_min r;
  result_min ← Boundary_Shl (kConstant left_min) (if 0 <? left_min then right_min else right_max) (infinity_of left_min);
  result_max ← Boundary_Shl (kConstant left_max) (if 0 <? left_max then right_max else right_min) (infinity_of left_max);
  Ok (result_min, result_max).

Definition Range_Shr (l r : Range) : result boundaries :=
  left_max ← max_int64 l;
  left_min ← min_int64 l;
  right_max ← shift_max r;
  right_min ← shift_min r;
  result_min ← Boundary_Shr (kConstant left_min) (if 0 <? left_min then right_max else right_min);
  result_max ← Boundary_Shr (kConstant left_max) (if 0 <? left_max then right_min else right_max);
  Ok (result_min, result_max).

Definition ConvertRangeToUnsigned (a b : Z) : result (Z * Z) :=
  _ ← ASSERT (a <=? b);
  Ok (if (a <? 0) && (0 <=? b) then (0, 2 ^ 64 - 1) else (uwrap 64 a, uwrap 64 b)).
Definition ConvertRangeToSigned (a b : Z) : result (Z * Z) :=
  _ ← ASSERT (a <=? b);
  Ok (if (a <=? kMaxInt64) && (uwrap 64 kMinInt64 <=? b) then (kMinInt64, kMaxInt64) else (swrap 64 a, swrap 64 b)).

Definition Range_Ushr (l r : Range) : result boundaries :=
  left_max ← max_int64 l;
  left_min ← min_int64 l;
  right_max ← shift_max r;
  right_min ← shift_min r;
  '(unsigned_left_min, unsigned_left_max) ← ConvertRangeToUnsigned left_min left_max;
  let unsigned_result_min := if 64 <=? right_max then 0 else unsigned_left_min >> right_max in
  let unsigned_result_max := if 64 <=? right_min then 0 else unsigned_left_max >> right_min in
  '(signed_result_min, signed_result_max) ← ConvertRangeToSigned unsigned_result_min unsigned_result_max;
  Ok (kConstant signed_result_min, kConstant signed_result_max).

Definition BitSize (r : Range) : result Z :=
  min ← min_int64 r;
  max ← max_int64 r;
  Ok (Maximum (BitLength min) (BitLength max)).
Definition BitwiseOp (l r : Range) : result boundaries :=
  left_size ← BitSize l;
  right_size ← BitSize r;
  let bitsize := Maximum left_size right_size in
  positive ← both (IsPositive l) (IsPositive r);
  Ok (if positive : bool then kConstant 0 else kConstant (swrap 64 (- (1 << bitsize))), kConstant (swrap 64 ((1 << bitsize) - 1))).

Definition Range_And (l r : Range) : result boundaries :=
  right_min ← min_int64 r;
  if 0 <=? right_min then max ← ConstantMax kRangeBoundaryInt64 (Some r); Ok (kConstant 0, max)
  else
    left_min ← min_int64 l;
    if 0 <=? left_min then max ← ConstantMax kRangeBoundaryInt64 (Some l); Ok (kConstant 0, max)
    else BitwiseOp l r.

Definition left_boundary (left_defn : option Z) (b : RangeBoundary) : result RangeBoundary :=
  match left_defn with
  | Some d => if IsArrayLength d then FromDefinition d 0 else Ok b
  | None => Ok b
  end.

Definition Range_Add (l r : Range) (left_defn : option Z) : result boundaries :=
  left_min ← left_boundary left_defn (min_ l);
  left_max ← left_boundary left_defn (max_ l);
  symbolic_min ← SymbolicAdd left_min (min_ r);
  result_min ← match symbolic_min with
               | Some min => Ok min
               | None => a ← LowerBound (min_ l); b ← LowerBound (min_ r); Boundary_Add a b kNegativeInfinity
               end;
  symbolic_max ← SymbolicAdd left_max (max_ r);
  result_max ← match symbolic_max with
               | Some max => Ok max
               | None => a ← UpperBound (max_ r); b ← UpperBound (max_ l); Boundary_Add a b kPositiveInfinity
               end;
  Ok (result_min, result_max).

Definition Range_Sub (l r : Range) (left_defn : option Z) : result boundaries :=
  left_min ← left_boundary left_defn (min_ l);
  left_max ← left_boundary left_defn (max_ l);
  symbolic_min ← SymbolicSub left_min (max_ r);
  result_min ← match symbolic_min with
               | Some min => Ok min
               | None => a ← LowerBound (min_ l); b ← UpperBound (max_ r); Boundary_Sub a b kNegativeInfinity
               end;
  symbolic_max ← SymbolicSub left_max (min_ r);
  result_max ← match symbolic_max with
               | Some max => Ok max
               | None => a ← UpperBound (max_ l); b ← LowerBound (min_ r); Boundary_Sub a b kPositiveInfinity
               end;
  Ok (result_min, result_max).

Definition Range_Mul (l r : Range) : result boundaries :=
  left_max ← ConstantAbsMax l;
  right_max ← ConstantAbsMax r;
  same_sign ← either (OnlyPositiveOrZero l r) (OnlyNegativeOrZero l r);
  if (left_max <=? - kSmiMin) && (right_max <=? - kSmiMin) && ((left_max =? 0) || (right_max <=? Z.quot kMaxInt64 left_max)) then
    let mul_max := left_max * right_max in
    if same_sign : bool then
      left_min ← ConstantAbsMin l;
      right_min ← ConstantAbsMin r;
      Ok (kConstant (left_min * right_min), kConstant mul_max)
    else Ok (kConstant (- mul_max), kConstant mul_max)
  else if same_sign : bool then Ok (kConstant 0, kPositiveInfinity)
  else Ok (kNegativeInfinity, kPositiveInfinity).

Definition Range_TruncDiv (l r : Range) : result boundaries :=
  positive ← both (OnlyGreaterThanOrEqualTo l 0) (OnlyGreaterThanOrEqualTo r 1);
  if positive : bool then
    left_max ← ConstantAbsMax l;
    left_min ← ConstantAbsMin l;
    right_max ← ConstantAbsMax r;
    right_min ← ConstantAbsMin r;
    Ok (kConstant (Z.quot left_min right_max), kConstant (Z.quot left_max right_min))
  else Ok (kNegativeInfinity, kPositiveInfinity).

Definition Range_Mod (r : Range) : result boundaries :=
  right_min ← min_int64 r;
  mod_max ← (if negb (right_min =? kMinInt64) then right_max ← ConstantAbsMax r; Ok (Maximum (right_max - 1) 0) else Ok kMaxInt64);
  Ok (kConstant 0, kConstant mod_max).

Definition IsFinite (r : Range) : bool := negb (IsInfinity (min_ r)) && negb (IsInfinity (max_ r)).

Definition operation (op : TokenKind) (l r : Range) (left_defn : option Z) : option (result boundaries) :=
  match op with
  | kADD => Some (Range_Add l r left_defn)
  | kSUB => Some (Range_Sub l r left_defn)
  | kMUL => Some (Range_Mul l r)
  | kTRUNCDIV => Some (Range_TruncDiv l r)
  | kMOD => Some (Range_Mod r)
  | kSHL => Some (Range_Shl l r)
  | kSHR => Some (Range_Shr l r)
  | kUSHR => Some (Range_Ushr l r)
  | kBIT_AND => Some (Range_And l r)
  | kBIT_XOR | kBIT_OR => Some (BitwiseOp l r)
  | _ => None
  end.
Definition BinaryOp (op : TokenKind) (l r : Range) (left_defn : option Z) : result Range :=
  _ ← ASSERT (IsFinite l);
  _ ← ASSERT (IsFinite r);
  match operation op l r left_defn with
  | None => new_Range kNegativeInfinity kPositiveInfinity
  | Some bounds =>
      '(min, max) ← bounds;
      _ ← ASSERT (negb (IsUnknown min) && negb (IsUnknown max));
      _ ← ASSERT (negb (IsConstant min) || negb (IsConstant max) || (value_ min <=? value_ max));
      new_Range min max
  end.

(** *** Inference *)

(** [BinaryIntegerOpInstr::InferRangeHelper]: the range, and whether the operation can overflow
    when it does not truncate; nothing when a range is not known yet. *)
Definition InferRangeHelper (op : TokenKind) (l r : option Range) (left_defn : Z) (range_size : RangeSize) : result (option (Range * bool)) :=
  match l, r with
  | Some l, Some r =>
      if IsUnknown (min_ l) || IsUnknown (min_ r) then Ok None
      else
        range ← BinaryOp op l r (Some left_defn);
        _ ← ASSERT (negb (IsUnknown (min_ range)));
        fits ← Fits range_size range;
        Ok (Some (Range_Clamp range_size range, negb fits))
  | _, _ => Ok None
  end.

(** [RangeAnalysis::GetSmiRange]. *)
Definition GetSmiRange (d : Z) : option Range :=
  match range_of d with None => if IsSmiType d then None else Some (Full kRangeBoundarySmi) | r => r end.

(** [ConstraintInstr::InferRange]: nothing when it leaves the range as it is. *)
Definition ConstraintInstr_InferRange (value : Z) (constraint : Range) : result (option Range) :=
  match GetSmiRange value with
  | None => Ok None
  | Some value_range =>
      if IsUnknown (min_ value_range) then Ok None
      else
        result ← Intersect value_range constraint;
        unsatisfiable ← IsUnsatisfiable result;
        Ok (if unsatisfiable : bool then None else Some result)
  end.

Definition ConstantInstr_InferRange (o : Object) : result Range :=
  match o with
  | Smi v | Mint v => new_Range (kConstant v) (kConstant v)
  | OtherObject => Err FatalError
  end.

(** [Join] of the range of a phi with that of an input. *)
Definition DependsOnSymbol (a : RangeBoundary) (s : Z) : result bool :=
  if IsSymbol a then d ← UnwrapConstraint fuel (value_ a); Ok (d =? s) else Ok false.
Definition Join (range : Range) (d : Z) (defn_range : option Range) (size : RangeSize) : result Range :=
  match defn_range with
  | None => Ok range
  | Some defn_range =>
      if IsUnknown (min_ defn_range) then Ok range
      else if IsUnknown (min_ range) then Ok defn_range
      else
        unwrapped ← UnwrapConstraint fuel d;
        depends ← either (DependsOnSymbol (min_ range) unwrapped) (DependsOnSymbol (max_ range) unwrapped);
        other ← (if depends : bool then b ← FromDefinition d 0; new_Range b b else Ok defn_range);
        inf_range ← LowerBound_in size (min_ range);
        inf_other ← LowerBound_in size (min_ other);
        sup_range ← UpperBound_in size (max_ range);
        sup_other ← UpperBound_in size (max_ other);
        if sup_range <=? inf_other then Ok (set_max range (max_ other))
        else if sup_other <=? inf_range then Ok (set_min range (min_ other))
        else
          min ← JoinMin (min_ range) (min_ other) size;
          max ← JoinMax (max_ range) (max_ other) size;
          new_Range min max
  end.

(** *** Widening and narrowing of the range of a phi *)

Inductive JoinOperator := NONE | WIDEN | NARROW.

Definition WidenMin (range new_range : Range) (size : RangeSize) : result RangeBoundary :=
  let min := min_ range in
  let new_min := min_ new_range in
  symbolic ← (if IsSymbol min then
                l ← LowerBound min;
                overflowed ← Overflowed fuel size l;
                if overflowed : bool then Ok (Some (MinConstant size))
                else
                  same ← DependOnSameSymbol fuel min new_min;
                  if same : bool then Ok (Some (if offset min <=? offset new_min then min else MinConstant size))
                  else
                    u ← UpperBound_in size min;
                    l ← LowerBound_in size new_min;
                    Ok (if u <=? l then Some min else None)
              else Ok None);
  match symbolic with
  | Some b => Ok b
  | None =>
      min ← ConstantMin size (Some range);
      new_min ← ConstantMin size (Some new_range);
      a ← ConstantValue min;
      b ← ConstantValue new_min;
      Ok (if a <=? b then min else MinConstant size)
  end.
Definition WidenMax (range new_range : Range) (size : RangeSize) : result RangeBoundary :=
  let max := max_ range in
  let new_max := max_ new_range in
  symbolic ← (if IsSymbol max then
                u ← UpperBound max;
                overflowed ← Overflowed fuel size u;
                if overflowed : bool then Ok (Some (MaxConstant size))
                else
                  same ← DependOnSameSymbol fuel max new_max;
                  if same : bool then Ok (Some (if offset new_max <=? offset max then max else MaxConstant size))
                  else
                    l ← LowerBound_in size max;
                    u ← UpperBound_in size new_max;
                    Ok (if u <=? l then Some max else None)
              else Ok None);
  match symbolic with
  | Some b => Ok b
  | None =>
      max ← ConstantMax size (Some range);
      new_max ← ConstantMax size (Some new_range);
      a ← ConstantValue max;
      b ← ConstantValue new_max;
      Ok (if b <=? a then max else MaxConstant size)
  end.

Definition NarrowMin (range new_range : Range) (size : RangeSize) : result RangeBoundary :=
  min ← ConstantMin size (Some range);
  new_min ← ConstantMin size (Some new_range);
  a ← ConstantValue min;
  b ← ConstantValue new_min;
  Ok (if b <? a then min_ range else if IsMinimumOrBelow size (min_ range) then min_ new_range else min_ range).
Definition NarrowMax (range new_range : Range) (size : RangeSize) : result RangeBoundary :=
  max ← ConstantMax size (Some range);
  new_max ← ConstantMax size (Some new_range);
  a ← ConstantValue max;
  b ← ConstantValue new_max;
  Ok (if a <? b then max_ range else if IsMaximumOrAbove size (max_ range) then max_ new_range else max_ range).

(** The range [RangeAnalysis::InferRange] gives a phi of range [range] for which [new_range] was
    inferred. *)
Definition update_phi (op : JoinOperator) (range new_range : Range) (size : RangeSize) : result Range :=
  match op with
  | NONE => Ok new_range
  | WIDEN => min ← WidenMin range new_range size; max ← WidenMax range new_range size; new_Range min max
  | NARROW => min ← NarrowMin range new_range size; max ← NarrowMax range new_range size; new_Range min max
  end.
End Ranges.

(** ** Bounds checks *)

Section Checks.
Context `{Target} `{FlowGraph} (fuel : nat).

(** [Value::BindsToSmiConstant] with [BoundSmiConstant]. *)
Definition SmiConstant (d : Z) : result (option Z) :=
  original ← OriginalDefinition fuel d;
  Ok (match definition original with ConstantInstr (Smi v) => Some v | _ => None end).

(** [Definition::InferRange] of a definition that has no range yet. *)
Definition InferRange (d : Z) : result Range :=
  match definition d with ConstantInstr o => ConstantInstr_InferRange o | _ => infer_other d end.

Definition set_range (range_of : ranges) (d : Z) (r : Range) : ranges := fun x => if x =? d then Some r else range_of x.

(** The range of the index, which is inferred for a constant; nothing when it is not known. *)
Definition index_range (range_of : ranges) (index : Z) : result (option Range * ranges) :=
  match range_of index with
  | Some r => Ok (Some r, range_of)
  | None =>
      c ← SmiConstant index;
      match c with
      | None => Ok (None, range_of)
      | Some v =>
          if negb (IsSmi v) then Ok (None, range_of)
          else
            range ← InferRange index;
            _ ← ASSERT (negb (IsUnknown (min_ range)));
            Ok (Some range, set_range range_of index range)
      end
  end.

(** The decision from the ranges of the index and the length. *)
Definition compare_ranges (range_of : ranges) (r : Range) (index length : Z) : result bool :=
  min ← ConstantMin fuel range_of kRangeBoundarySmi (Some r);
  index_min ← ConstantValue min;
  if index_min <? 0 then Ok false
  else
    max ← FromDefinition index 0;
    max_upper ← UpperBound fuel range_of max;
    array_length ← FromDefinition length 0;
    length_lower ← LowerBound fuel range_of array_length;
    if OverflowedSmi max_upper || OverflowedSmi length_lower then Ok false
    else
      u ← ConstantValue max_upper;
      l ← ConstantValue length_lower;
      if u <? l then Ok true
      else
        canonical_length ← CanonicalizeBoundary fuel array_length kPositiveInfinity;
        if OverflowedSmi canonical_length then Ok false
        else
          c ← same_symbol fuel (fuel + fuel + 1) (CanonicalizeMaxBoundary fuel range_of) (CanonicalizeMinBoundary fuel range_of) max canonical_length;
          Ok (match c with Some (a, b) => offset a <? offset b | None => false end).

Definition IsRedundantBasedOnRangeInformation (range_of : ranges) (index length : Z) : result (bool * ranges) :=
  index_constant ← SmiConstant index;
  length_constant ← SmiConstant length;
  match index_constant, length_constant with
  | Some index_val, Some length_val => Ok ((0 <=? index_val) && (index_val <? length_val), range_of)
  | _, _ =>
      '(range, range_of) ← index_range range_of index;
      match range with
      | None => Ok (false, range_of)
      | Some r => redundant ← compare_ranges range_of r index length; Ok (redundant, range_of)
      end
  end.
End Checks.
