(* ===== verification/Instances.v ===== *)
(** * Concrete configurations

    Build configurations, a host and small states on which the theorems are instantiated
    and the definitions evaluated. *)
From S2P Require Import Prelude Utils Constants EncodingFacts Words CWords Memory Float.
From S2P Require Import SimState SimInteger SimFloat Simulator Exec SimFacts AsmState.
From S2P Require Import MicroAssembler Emission Computes Macros MacroFacts Branches.
From S2P Require Import Patching Labels Forward MacroBranches.

Definition rv64 : Target := {| TARGET_64 := true; DEBUG := true |}.
Definition rv32 : Target := {| TARGET_64 := false; DEBUG := true |}.

(** NaNs are the canonical ones, and host functions return zero. *)
Definition canonical_nan : HostFloat :=
  {| host_nan f _ _ := pack f false (Z.ones (exp_width f)) (2 ^ (sig_width f - 1)) |}.
Definition quiet_host : Host := {| host_call _ _ st := Ok (Returned 0 st) |}.

Lemma quiet_host_keeps_wf `{Target} : @host_keeps_wf _ quiet_host.
Proof. by intros external args st r Hwf [= <-]. Qed.

(** An assembler with compressed instructions whose labels are bound at the start, and
    one whose labels are fresh. *)
Definition assembler_with (l : Label) (level : Z) : Assembler :=
  {| buffer_ := []; labels_ := fun _ => l; extensions_ := RV_GC; far_branch_level_ := level;
     deferred_compare_ := kNone; deferred_left_ := 0; deferred_reg_ := 0; deferred_imm_ := 0 |}.
Definition backward : Assembler := assembler_with (bound_at 0) 0.
Definition fresh : Assembler := assembler_with Label_new 0.

Lemma backward_full : full backward.
Proof. by right. Qed.
Lemma fresh_full : full fresh.
Proof. by right. Qed.

Lemma backward_reachable n : (n <= 100)%nat -> reachable n backward 0.
Proof.
  intros Hn. split; change (Position backward) with 0;
    change (position_ (labels_ backward 0)) with 0; lia.
Qed.

(** A memory holding bytes from an address on. *)
Fixpoint memory_of (addr : Z) (bs : list Z) : memory :=
  match bs with
  | [] => ∅
  | b :: bs => <[addr := b]> (memory_of (addr + 1) bs)
  end.

Definition simulator_at (pc : Z) (m : memory) : Simulator :=
  {| pc_ := pc; xregs_ := fun _ => 0; instret_ := 0; reserved_address_ := 0; reserved_value_ := 0;
     fregs_ := fun _ => 0; fcsr_ := 0; stack_limit_ := 0; overflow_stack_limit_ := 0;
     stack_base_ := 0; random_ := 1; mem_ := m; redirections_ := [] |}.

Lemma memory_of_wf addr bs : Forall (fun b => 0 <= b < 256) bs -> mem_wf (memory_of addr bs).
Proof.
  intros Hb. revert addr. induction Hb as [|b bs Hb _ IH]; intros addr; cbn [memory_of].
  - apply map_Forall_empty.
  - apply map_Forall_insert_2; [done | apply IH].
Qed.

Lemma memory_of_below addr bs a : a < addr -> memory_of addr bs !! a = None.
Proof.
  revert addr. induction bs as [|b bs IH]; intros addr Ha; cbn [memory_of]; [done|].
  rewrite lookup_insert_ne by lia. apply IH. lia.
Qed.

Lemma memory_of_above addr bs a : addr + Z.of_nat (length bs) <= a -> memory_of addr bs !! a = None.
Proof.
  revert addr. induction bs as [|b bs IH]; intros addr Ha; cbn [memory_of length] in *; [done|].
  rewrite lookup_insert_ne by lia. apply IH. lia.
Qed.

Lemma memory_of_code addr bs : code_at (memory_of addr bs) addr bs.
Proof.
  revert addr. induction bs as [|b bs IH]; intros addr i c Hi; [done|]. cbn [memory_of].
  destruct i as [|i]; [injection Hi as ->; rewrite Z.add_0_r; apply lookup_insert_eq|].
  rewrite lookup_insert_ne by lia. rewrite <- (IH (addr + 1) i c Hi). f_equal. lia.
Qed.

Lemma simulator_at_wf `{Target} pc m : 0 <= pc < 2 ^ XLEN -> mem_wf m -> sim_wf (simulator_at pc m).
Proof.
  intros Hp Hm. split; [|done | done | done]. split; [done|]. intros i. cbn.
  pose proof (pow2_pos XLEN XLEN_pos). lia.
Qed.

(** One forward branch to a fresh label. *)
Definition some_shape : shape := ShB A0 A1 Funct3.BEQ.
Definition no_branches : branch_class -> list entry := fun _ => [].
Definition one_branch `{Target} : Assembler := branched fresh 0 no_branches some_shape.
Definition one_entry `{Target} : branch_class -> list entry := with_branch fresh no_branches some_shape.

Lemma fresh_linked `{Target} : linked fresh 0 no_branches.
Proof. by apply linked_new. Qed.

Lemma fresh_in_reach `{Target} n distance : (n <= 8)%nat -> in_reach (Unbound 0 no_branches distance) n fresh.
Proof.
  intros Hn. split_and!; [apply fresh_linked | change (Position fresh) with 0; lia |].
  unfold links_reach. destruct (is_near distance); [split|]; cbn; by intros e ?%elem_of_nil.
Qed.

Lemma some_shape_wf : shape_wf some_shape.
Proof. split; [done|]. split; [done|]. by left. Qed.

Lemma one_branch_linked `{Target} : linked one_branch 0 one_entry.
Proof.
  apply linked_branched; [apply fresh_linked | apply some_shape_wf | | done | done].
  by apply IsBTypeImm_small.
Qed.

Lemma one_branch_redirectable `{Target} :
  redirectable one_branch (Position one_branch) (all_branches one_entry).
Proof. apply Forall_singleton. split; [done | by apply IsBTypeImm_small]. Qed.

(** A simulator with code at 4096 and a stack below 65536, at which the stack pointer of the
    caller stands. *)
Definition stack_memory : memory := memory_of 65504 (replicate 32 7).
Definition stack_simulator (code : list Z) : Simulator :=
  {| pc_ := 4096; xregs_ := fun i => if i =? SP then 65536 else if i =? A1 then 65520 else 0;
     instret_ := 0; reserved_address_ := 0; reserved_value_ := 0; fregs_ := fun _ => 0;
     fcsr_ := 0; stack_limit_ := 0; overflow_stack_limit_ := 0; stack_base_ := 65536;
     random_ := 1; mem_ := memory_of 4096 code ∪ stack_memory; redirections_ := [] |}.

Lemma stack_simulator_wf `{Target} code : Forall (fun b => 0 <= b < 256) code ->
  sim_wf (stack_simulator code).
Proof.
  intros Hc. assert (2 ^ 32 <= 2 ^ XLEN) by (apply Z.pow_le_mono_r; destruct XLEN_cases; lia).
  split; cbn [pc_ xregs_ instret_ mem_ stack_simulator]; [|lia | done |].
  - split; [done|]. intros i. destruct (i =? SP), (i =? A1); lia.
  - apply map_Forall_union_2; apply memory_of_wf; [done|]. by repeat constructor.
Qed.

Lemma stack_simulator_code code : code_at (mem_ (stack_simulator code)) 4096 code.
Proof.
  intros i b Hi. apply lookup_union_Some_raw. left. by apply memory_of_code.
Qed.

Lemma stack_simulator_mapped code a n : 65504 <= a -> a + Z.of_nat n <= 65536 ->
  mapped (mem_ (stack_simulator code)) a n.
Proof.
  intros Ha Hn i Hi. apply lookup_union_is_Some. right. unfold stack_memory.
  exists 7. replace i with (65504 + Z.of_nat (Z.to_nat (i - 65504))) by lia.
  apply memory_of_code, lookup_replicate. lia.
Qed.

(** Consecutive pieces of code, and code in memory that is not written. *)
Lemma stack_code_at c1 c2 : code_at (mem_ (stack_simulator (c1 ++ c2))) 4096 c1 /\
  code_at (mem_ (stack_simulator (c1 ++ c2))) (4096 + Z.of_nat (length c1)) c2.
Proof. apply code_at_app, stack_simulator_code. Qed.

Lemma code_at_kept m m' lo c : (forall i, lo <= i < lo + Z.of_nat (length c) -> m' !! i = m !! i) ->
  code_at m lo c -> code_at m' lo c.
Proof. intros Hm Hc i b Hi. pose proof (lookup_lt_Some _ _ _ Hi). rewrite Hm by lia. by apply Hc. Qed.

(** The code a method emits in an assembler without code. *)
Definition emitted (m : asm unit) (s : Assembler) : list Z :=
  match m s with Ok (_, s) => buffer_ s | Err _ => [] end.
Lemma emitted_is s s' c (m : asm unit) : m s = Ok (tt, s') -> buffer_ s' = buffer_ s ++ c -> buffer_ s = [] ->
  c = emitted m s.
Proof. unfold emitted. intros -> -> E. by rewrite E. Qed.
