(* ===== verification/AssemblerProps.v ===== *)
(** * Properties of the assembler

    The theorems about the code the assembler emits, each with an instance at a concrete
    configuration. *)
From S2P Require Import Prelude Utils Constants EncodingFacts Words CWords Memory Float.
From S2P Require Import SimState SimInteger SimFloat Simulator Exec SimFacts SimCalls Effects.
From S2P Require Import AsmState MicroAssembler Emission Computes Macros MacroFacts Branches.
From S2P Require Import Arithmetic Accesses Offsets Stack Patching Labels Forward MacroBranches Overflow.
From S2P Require Import Tagging EndToEnd Instances.

Section Properties.
Context `{Target} `{HostFloat} `{Host}.

(** C1: code the assembler emits for a register transformation [f] that keeps the
    callee-saved registers and the return address, followed by [ret], can be called
    through [Simulator::CallX] wherever it is loaded: the call returns with some fuel, its
    value is [A0] after [f], memory and the callee-saved registers are as before, and the
    simulator's own check of preserved registers passes. *)
Theorem emitted_code_is_callable n m f s : computes n m f -> full s ->
  (forall r i, regs_wf r -> callee_saved i \/ i = RA -> f r i = r i) ->
  exists code, emits (_ ← m; ret) s code /\
  forall st entry a0 a1 a2 a3, sim_wf st -> 0 <= entry ->
    entry + Z.of_nat (length code) < 2 ^ XLEN -> code_at (mem_ st) entry code ->
    exists fuel st',
      CallX fuel entry a0 a1 a2 a3 st =
        Some (Ok (intx (f (call_regs st a0 a1 a2 a3) A0), st')) /\
      mem_ st' = mem_ st /\ forall i, callee_saved i -> xregs_ st' i = xregs_ st i.
Proof.
  intros C Hs Hf. destruct (CallX_emitted n m f s C Hs Hf) as (code & E & HC).
  exists code. split; [done|]. intros st entry a0 a1 a2 a3 Hwf He Hpc Hc.
  destruct (HC st entry a0 a1 a2 a3 Hwf He Hpc Hc) as (fuel & st' & HX & Er & Em).
  exists fuel, st'. split; [done|]. split; [done|]. intros i Hi. rewrite Er.
  rewrite Hf by first [by apply call_regs_wf | auto].
  by apply (call_regs_spec st a0 a1 a2 a3).
Qed.

(** C15: [Bind] on a label whose unresolved branches form its five lists and can reach the
    current position succeeds; afterwards the label is bound there, every branch of the
    lists holds the distance to that position, and no other byte, no other label and not
    the size of the code changed. *)
Theorem bind_resolves_branches s label ls : linked s label ls ->
  redirectable s (Position s) (all_branches ls) ->
  exists s', Bind label s = Ok (tt, s') /\
    labels_ s' label = bound_at (Position s) /\
    (forall l, l <> label -> labels_ s' l = labels_ s l) /\
    length (buffer_ s') = length (buffer_ s) /\
    (forall p sh, (p, sh) ∈ all_branches ls ->
       bytes_at (buffer_ s') p (shape_bytes sh (Position s - p))) /\
    (forall i, (forall p sh, (p, sh) ∈ all_branches ls ->
                  Z.of_nat i < p \/ p + shape_size sh <= Z.of_nat i) ->
       buffer_ s' !! i = buffer_ s !! i).
Proof.
  intros L Hr. exists (bound_state s label ls). split; [by apply Bind_linked|].
  pose proof (linked_all_inside s label ls L) as Hi.
  split; [cbn; by rewrite Nat.eqb_refl|]. split_and!.
  - intros l Hl. cbn. by rewrite (proj2 (Nat.eqb_neq l label) Hl).
  - by apply redirect_length.
  - apply redirect_branches; [done | apply L].
  - intros i Ho. apply redirect_other; [done|]. apply Forall_forall.
    intros [p sh] Hin%list_elem_of_In. by apply Ho.
Qed.

(** C16: after [Bind], a branch of the label's lists, loaded with the rest of the code at an
    address [A] and reached by the simulator, continues at the bound position if its
    condition holds and falls through otherwise; registers other than the scratch register
    of far jumps keep their values. *)
Theorem bound_branch_reaches_label s label ls s' p sh : linked s label ls ->
  redirectable s (Position s) (all_branches ls) -> Bind label s = Ok (tt, s') ->
  (p, sh) ∈ all_branches ls -> plain sh ->
  forall st A, sim_wf st -> 0 <= A -> A + Position s < 2 ^ XLEN ->
    pc_ st = A + p -> code_at (mem_ st) A (buffer_ s') ->
    exists n r, regs_wf r /\ (forall i, i <> FAR_TMP -> r i = xregs_ st i) /\
      steps n st = Ok (advance st n
        (if shape_cond sh (xregs_ st) then Position s - p else shape_size sh) r).
Proof.
  intros L Hr HB Hin Hpl st A Hwf HA Hsz Hpc Hc. rewrite (Bind_linked s label ls L Hr) in HB.
  injection HB as <-. pose proof (linked_all_inside s label ls L) as Hi.
  assert (bytes_at (buffer_ (bound_state s label ls)) p (shape_bytes sh (Position s - p))) as Hb
    by (apply redirect_branches; [done | apply L | done]).
  destruct (linked_before s label ls (p, sh) L Hin) as [Hp Hpl']. cbn in Hp, Hpl'.
  assert (fits sh (Position s - p) = true) as Hfit.
  { unfold redirectable in Hr. rewrite Forall_forall in Hr.
    by destruct (Hr (p, sh) (proj1 (list_elem_of_In _ _) Hin)). }
  destruct (shape_branches sh (Position s - p) (linked_shape_wf s label ls p sh L Hin) Hpl Hfit st)
    as (n & r & Hw & Hf & Hs); [done | rewrite length_shape; lia | |].
  - rewrite Hpc. by apply (bytes_at_code_at _ _ (buffer_ (bound_state s label ls))).
  - exists n, r. rewrite length_shape in Hs. done.
Qed.

(** C30: a forward branch extends the label's list of its class.  Declared near, or emitted
    at far-branch level 0, it takes one instruction that holds the distance to the previous
    branch of the list, or the emitter reports the error of its kind if that distance exceeds
    the range of a conditional branch; at level 2 an inverted branch over a far jump always
    succeeds within 2^30 bytes of code. *)
Theorem forward_branch_links s label ls rs1 rs2 f3 : linked s label ls ->
  shape_wf (ShB rs1 rs2 f3) -> Position s + 12 < 2 ^ 30 ->
  (forall distance, distance = kNearJump \/ far_branch_level_ s = 0 ->
   if IsBTypeImm (link_offset (Position s) (ls br_b)) then
     exists s', EmitBranch rs1 rs2 label f3 distance s = Ok (tt, s') /\
       linked s' label (with_branch s ls (ShB rs1 rs2 f3))
   else EmitBranch rs1 rs2 label f3 distance s =
        Err (if is_near distance then FatalError else BranchOffsetError)) /\
  (2 <= far_branch_level_ s ->
   exists g s', InvertFunct3 f3 = Ok g /\ (forall a b, branch_cond g a b = negb (branch_cond f3 a b)) /\
     EmitBranch rs1 rs2 label f3 kFarJump s = Ok (tt, s') /\
     linked s' label (with_branch (skipped s 12 rs1 rs2 g) ls ShFar)).
Proof.
  intros L Hw Hs. split.
  - intros distance Hd. rewrite (EmitBranch_near s label ls L rs1 rs2 f3 distance Hw Hd).
    destruct (IsBTypeImm (link_offset (Position s) (ls br_b))) eqn:E; [|done].
    eexists. split; [done|]. apply linked_branched; [done | done | done | by apply aligned_words |].
    cbn [shape_size]. lia.
  - intros Hl. pose proof Hw as (H1' & H2' & H3).
    destruct (InvertFunct3_spec f3 H3) as (g & Hg & Hgi & Hgc).
    assert (Position (skipped s 12 rs1 rs2 g) = Position s + 4) as Hp
      by (unfold skipped; by rewrite Position_append, length_le_bytes).
    assert (linked (skipped s 12 rs1 rs2 g) label ls) as L1.
    { apply linked_append; rewrite ?length_le_bytes; [done | by apply aligned_words | lia]. }
    exists g. eexists. split; [done|]. split; [done|].
    split; [by apply (EmitBranch_far s label ls L rs1 rs2 f3 g)|].
    apply linked_branched; [done | done | | by apply aligned_words | rewrite Hp; cbn; lia].
    by apply (link_fits_far _ label); [|rewrite Hp; lia].
Qed.

(** C29: a conditional branch to a bound label within reach, in whichever of its three
    lengths the distance selects, transfers control to the label exactly when its
    condition holds. *)
Theorem backward_branch_reaches_label rs1 rs2 label f3 distance s :
  0 <= rs1 < 32 -> 0 <= rs2 < 32 -> In f3 branch_functs -> bound_label s label ->
  branches_to (EmitBranch rs1 rs2 label f3 distance) s label
    (fun r => branch_cond f3 (r rs1) (r rs2)) (fun r => r).
Proof. apply EmitBranch_to. Qed.

(** C24: [LoadImmediate] emits at most eight words that leave exactly the given constant in
    the register, for every constant of the target's width. *)
Theorem load_immediate_loads reg imm : 0 <= reg < 32 -> reg <> ZR ->
  - 2 ^ (XLEN - 1) <= imm < 2 ^ (XLEN - 1) ->
  computes 8 (LoadImmediate reg imm) (fun r => xset r reg imm).
Proof. apply LoadImmediate_computes. Qed.

(** C25: [AddBranchOverflow], for every choice of its registers other than [ZR] and the two
    scratch registers, [rd] equal to an operand or the operands equal included, branches to the
    label exactly when the signed sum overflows; [rd] receives the wrapped sum and only it and
    the scratch registers change.  The label is one bound before within reach, or one bound
    later: its branch is then linked to the label, and the code does this once [Bind] has
    resolved it, whatever was emitted in between. *)
Theorem add_branch_overflow rd rs1 rs2 d s :
  0 <= rd < 32 -> 0 <= rs1 < 32 -> 0 <= rs2 < 32 -> rd <> ZR -> rs1 <> ZR -> rs2 <> ZR ->
  rd ∉ [TMP; TMP2] -> rs1 ∉ [TMP; TMP2] -> rs2 ∉ [TMP; TMP2] -> full s ->
  dest_distance d = kFarJump -> in_reach d 8 s ->
  checks_overflow_at d (AddBranchOverflow rd rs1 rs2 (dest_label d)) s rd
    (fun r => intx (r rs1) + intx (r rs2)).
Proof. rewrite !not_elem_of_cons. intros. apply AddBranchOverflow_checks; tauto. Qed.

(** [SubtractBranchOverflow] on three different registers branches to the label exactly
    when the signed difference overflows, and [rd] receives the wrapped difference. *)
Theorem subtract_branch_overflow rd rs1 rs2 d s :
  0 <= rd < 32 -> 0 <= rs1 < 32 -> 0 <= rs2 < 32 -> rd <> ZR ->
  rd <> rs1 -> rd <> rs2 -> rs1 <> rs2 ->
  rd ∉ [TMP; TMP2] -> rs1 ∉ [TMP; TMP2] -> rs2 ∉ [TMP; TMP2] -> full s ->
  dest_distance d = kFarJump -> in_reach d 8 s ->
  checks_overflow_at d (SubtractBranchOverflow rd rs1 rs2 (dest_label d)) s rd
    (fun r => intx (r rs1) - intx (r rs2)).
Proof. rewrite !not_elem_of_cons. intros. apply SubtractBranchOverflow_checks; tauto. Qed.

(** C26: [MultiplyBranchOverflow], whose code compares the high word of the product with the
    sign of the low word, branches exactly when the signed product does not fit a word, for
    every choice of its registers other than the two scratch registers and [ZR] as
    destination; [rd] receives the low word, and only it and the scratch registers change.
    The label is one bound before within reach, or one bound later. *)
Theorem multiply_branch_overflow rd rs1 rs2 d s :
  0 <= rd < 32 -> 0 <= rs1 < 32 -> 0 <= rs2 < 32 -> rd <> ZR ->
  rd ∉ [TMP; TMP2] -> rs1 ∉ [TMP; TMP2] -> rs2 ∉ [TMP; TMP2] -> full s ->
  dest_distance d = kFarJump -> in_reach d 8 s ->
  checks_overflow_at d (MultiplyBranchOverflow rd rs1 rs2 (dest_label d)) s rd
    (fun r => intx (r rs1) * intx (r rs2)).
Proof. rewrite !not_elem_of_cons. intros. apply MultiplyBranchOverflow_checks; tauto. Qed.

(** [AddImmediateBranchOverflow] branches exactly when adding the constant overflows,
    provided the destination differs from the operand or the constant fits the
    instruction. *)
Theorem add_immediate_branch_overflow rd rs1 imm label s :
  0 <= rd < 32 -> 0 <= rs1 < 32 -> rd <> ZR -> rs1 <> ZR -> rd <> TMP2 -> rs1 <> TMP2 ->
  - 2 ^ (XLEN - 1) <= imm < 2 ^ (XLEN - 1) -> full s -> reachable 12 s label ->
  rd <> rs1 \/ IsITypeImm imm = true ->
  checks_overflow (AddImmediateBranchOverflow rd rs1 imm label) s label rd
    (fun r => intx (r rs1) + imm).
Proof. apply AddImmediateBranchOverflow_checks. Qed.

(** C31: [CompareRegisters] followed by [BranchIf] branches exactly when the condition holds
    of the two registers, for each of the ten comparisons, and leaves no comparison pending.
    The label is one bound before within reach of a branch whose distance is not declared, or
    one bound later, whether the branch is declared near or not; in the second case the branch
    is linked to the label and goes to where [Bind] puts it. *)
Theorem branch_if_registers condition left right d s : In condition comparisons ->
  0 <= left < 32 -> 0 <= right < 32 -> full s -> deferred_compare_ s = kNone -> in_reach d 0 s ->
  compares_branches_at d
    (_ ← CompareRegisters left right; BranchIf condition (dest_label d) (dest_distance d)) s
    (fun r => holds condition (r left) (r right)) (fun r => r).
Proof.
  intros Hc Hl Hr Hs Hn Hb. eapply compares_branches_at_intro; [by apply CompareRegisters_ok | done |].
  apply branch_register_at; auto using in_reach_deferred.
Qed.

(** [CompareImmediate] followed by [BranchIf] compares with any constant of the
    target's width; a constant other than zero is left in [TMP2]. *)
Theorem branch_if_immediate condition left imm label s : In condition comparisons ->
  0 <= left < 32 -> left <> TMP2 -> - 2 ^ (XLEN - 1) <= imm < 2 ^ (XLEN - 1) -> full s ->
  deferred_compare_ s = kNone -> reachable 8 s label ->
  compares_branches (_ ← CompareImmediate left imm; BranchIf condition label kFarJump) s label
    (fun r => holds condition (r left) (uintx imm))
    (fun r => if imm =? 0 then r else xset r TMP2 imm).
Proof.
  intros Hc Hl Ht Hi Hs Hn Hb. eapply compares_branches_intro; [by apply CompareImmediate_ok | done |].
  apply branch_immediate_to; auto using reachable_deferred.
Qed.

(** C32: [CompareRegisters] or [CompareImmediate] followed by [SetIf] leaves one in [rd] if
    the condition holds and zero otherwise, for each of the ten comparisons and every
    constant, except that the unsigned comparisons that add one to the constant exclude the
    constant -1. *)
Theorem set_if_condition condition rd left s : In condition comparisons ->
  0 <= rd < 32 -> rd <> ZR -> 0 <= left < 32 -> full s -> deferred_compare_ s = kNone ->
  (forall right, 0 <= right < 32 ->
   compares_sets (_ ← CompareRegisters left right; SetIf condition rd) s
     (fun r => xset r rd (b2z (holds condition (r left) (r right))))) /\
  (forall imm, left <> TMP2 -> - 2 ^ (XLEN - 1) <= imm < 2 ^ (XLEN - 1) -> set_imm_ok condition imm ->
   compares_sets (_ ← CompareImmediate left imm; SetIf condition rd) s
     (fun r => xset (set_constant r imm) rd (b2z (holds condition (r left) (uintx imm))))).
Proof.
  intros. split; intros.
  - eapply compares_sets_intro; [by apply CompareRegisters_ok|].
    by apply (SetIf_register (with_deferred s kCompareReg left right _)).
  - eapply compares_sets_intro; [by apply CompareImmediate_ok|].
    by apply (SetIf_immediate (with_deferred s kCompareImm left _ imm)).
Qed.

(** C33: [LoadFromOffset] and [StoreToOffset] access an operand of each size at
    [base + offset], for every offset of 32 bits the target reaches, and fail exactly when
    the simulated access does. *)
Theorem load_store_at_offset rd base offset sz T s : 0 <= rd < 32 -> 0 <= base < 32 -> base <> ZR ->
  base <> TMP2 -> reaches offset -> full s ->
  (load_size sz = Some T -> exists code, emits (LoadFromOffset rd base offset sz) s code /\
   forall st, sim_wf st -> pc_ st + Z.of_nat (length code) < 2 ^ XLEN ->
     code_at (mem_ st) (pc_ st) code ->
     exists n, steps n st =
       (v ← MemoryRead T (with_xregs st (address_regs (xregs_ st) base offset))
              (uintx (xregs_ st base + offset)) (address_base base offset);
        Ok (advance st n (Z.of_nat (length code)) (xset (address_regs (xregs_ st) base offset) rd v)))) /\
  (store_size sz = Some T -> exists code, emits (StoreToOffset rd base offset sz) s code /\
   forall st, sim_wf st -> pc_ st + Z.of_nat (length code) < 2 ^ XLEN ->
     code_at (mem_ st) (pc_ st) code ->
     exists n, steps n st =
       (st' ← MemoryWrite T (with_xregs st (address_regs (xregs_ st) base offset))
                (uintx (xregs_ st base + offset)) (address_regs (xregs_ st) base offset rd)
                (address_base base offset);
        Ok (advance st' n (Z.of_nat (length code)) (xregs_ st')))).
Proof. intros. split; intros; [by apply LoadFromOffset_performs | by apply StoreToOffset_performs]. Qed.

(** Pushing a register and popping into another one moves the value: with room on the
    stack the pair runs without error, the stack pointer is restored, and the only change
    of memory is the word below it. *)
Theorem push_then_pop r r' s : 0 <= r < 32 -> r <> SP -> 0 <= r' < 32 -> r' <> SP -> full s ->
  exists code, emits (_ ← PushRegister r; PopRegister r') s code /\
  forall st, sim_wf st -> pc_ st + Z.of_nat (length code) < 2 ^ XLEN ->
    code_at (mem_ st) (pc_ st) code -> stack_room st code ->
    exists n m, store_as uintx_t (mem_ st) (xregs_ st SP - kWordSize) (xregs_ st r) = Ok m /\
      steps n st = Ok (advance (with_mem st m) n (Z.of_nat (length code))
                         (xset (xregs_ st) r' (xregs_ st r))).
Proof. apply push_pop_steps. Qed.

(** [ExtendAndSmiTagValue] leaves twice the value its operand size denotes, sign or
    zero extended: the tagged small integer. *)
Theorem extend_and_tag rd rn sz : 0 <= rd < 32 -> rd <> ZR -> 0 <= rn < 32 ->
  (forall v, extend sz v <> None) ->
  computes 2 (ExtendAndSmiTagValue rd rn sz)
    (fun r => xset r rd (2 * default 0 (extend sz (r rn)))).
Proof. apply ExtendAndSmiTagValue_computes. Qed.

(** [SmiUntag] after [SmiTag] restores every value of a small integer's range, and
    code for the pair computes that. *)
Theorem smi_tag_untag dst src : 0 <= dst < 32 -> dst <> ZR -> 0 <= src < 32 ->
  exists f, computes 2 (_ ← SmiTag dst src; SmiUntag dst dst) f /\
  forall r, regs_wf r -> - 2 ^ (XLEN - 2) <= intx (r src) < 2 ^ (XLEN - 2) ->
    intx (f r dst) = intx (r src) /\ forall i, i <> dst -> f r i = r i.
Proof.
  intros Hd Hz Hs. eexists. split.
  - apply (computes_bind 1 1); [by apply SmiTag_computes | by apply SmiUntag_computes].
  - intros r [_ Hr] Hv. cbn beta. split; [|intros i Hi; by rewrite !xset_other].
    pose proof (smi_roundtrip (intx (r src)) Hv) as E.
    rewrite uintx_intx, (uintx_small (r src)) in E by apply Hr.
    by rewrite !xset_same, intx_uintx, E, intx_idem.
Qed.

(** [BranchIfSmi] and [BranchIfNotSmi] branch on the tag bit of the register. *)
Theorem branch_on_smi reg label s : 0 <= reg < 32 -> reg <> TMP2 -> full s -> reachable 1 s label ->
  branches_to (BranchIfSmi reg label kFarJump) s label (fun r => r reg mod 2 =? 0)
    (fun r => xset r TMP2 (r reg mod 2)) /\
  branches_to (BranchIfNotSmi reg label kFarJump) s label (fun r => negb (r reg mod 2 =? 0))
    (fun r => xset r TMP2 (r reg mod 2)).
Proof. intros. split; [by apply BranchIfSmi_to | by apply BranchIfNotSmi_to]. Qed.

(** [ReserveAlignedFrameSpace] lowers the stack pointer by at least the frame's size,
    to a multiple of the activation frames' alignment. *)
Theorem reserve_aligned_frame frame : 0 <= frame < 2 ^ 11 ->
  exists f, computes 2 (ReserveAlignedFrameSpace frame) f /\
  forall r, regs_wf r -> frame + 16 <= r SP ->
    f r SP mod ActivationFrameAlignment = 0 /\ r SP - frame - 16 < f r SP <= r SP - frame /\
    forall i, i <> SP -> f r i = r i.
Proof.
  intros Hf. eexists. split; [by apply ReserveAlignedFrameSpace_computes|].
  intros r [_ Hr] Hsp. cbn beta zeta. specialize (Hr SP).
  rewrite xset_same, (uintx_small (r SP - frame)) by (done || lia).
  pose proof (Z.mod_pos_bound (r SP - frame) 16 ltac:(lia)).
  rewrite uintx_small by lia. split_and!; [|lia | lia | intros i Hi; by rewrite xset_other].
  unfold ActivationFrameAlignment. by rewrite Zminus_mod_idemp_r, Z.sub_diag.
Qed.
End Properties.

(** ** Instances *)

#[local] Existing Instances rv64 canonical_nan quiet_host.

Ltac concrete := first [done  | by apply backward_full | by apply fresh_full
  | by apply backward_reachable; lia | by apply fresh_in_reach; lia | by vm_compute | by left | by right; left | by right; right; left
  | by rewrite !not_elem_of_cons; repeat split; try apply not_elem_of_nil].

Lemma emitted_code_is_callable_witness : exists code fuel st',
  emits (_ ← LoadImmediate A0 42; ret) fresh code /\
  CallX fuel 4096 1 2 3 4 (simulator_at 0 (memory_of 4096 code)) = Some (Ok (42, st')).
Proof.
  destruct (emitted_code_is_callable 8 (LoadImmediate A0 42) (fun r => xset r A0 42) fresh)
    as (code & E & HC); [by apply LoadImmediate_computes | concrete | |].
  - intros r i _ Hi. apply xset_other. destruct Hi as [Hi| ->]; [|done].
    apply callee_saved_args in Hi; tauto.
  - assert (code = [19; 5; 160; 2; 130; 128]) as -> by (vm_compute in E; congruence).
    destruct (HC (simulator_at 0 (memory_of 4096 [19; 5; 160; 2; 130; 128])) 4096 1 2 3 4)
      as (fuel & st' & HX & _); [|done | done | apply memory_of_code |].
    + apply simulator_at_wf; [by vm_compute|]. apply memory_of_wf. by repeat constructor.
    + rewrite xset_same in HX by done. eauto 10.
Defined.

Lemma bind_resolves_branches_witness : exists s', Bind 0 one_branch = Ok (tt, s') /\
  labels_ s' 0 = bound_at 4 /\ bytes_at (buffer_ s') 0 (shape_bytes some_shape 4).
Proof.
  destruct (bind_resolves_branches one_branch 0 one_entry one_branch_linked one_branch_redirectable)
    as (s' & E & Hl & _ & _ & Hb & _).
  exists s'. split; [done|]. split; [done|]. apply (Hb 0 some_shape). by left.
Defined.

Lemma bound_branch_reaches_label_witness : exists s' n r, Bind 0 one_branch = Ok (tt, s') /\
  let st := simulator_at 4096 (memory_of 4096 (buffer_ s')) in
  steps n st = Ok (advance st n 4 r).
Proof.
  set (s' := bound_state one_branch 0 one_entry).
  pose proof (Bind_linked _ _ _ one_branch_linked one_branch_redirectable) as E. fold s' in E.
  destruct (bound_branch_reaches_label one_branch 0 one_entry s' 0 some_shape one_branch_linked
    one_branch_redirectable E ltac:(by left) I (simulator_at 4096 (memory_of 4096 (buffer_ s'))) 4096)
    as (n & r & _ & _ & Hs); [|done | done | done | apply memory_of_code |].
  - apply simulator_at_wf; [by vm_compute|]. apply memory_of_wf. vm_compute. by repeat constructor.
  - exists s', n, r. done.
Defined.

Lemma forward_branch_links_witness : exists s',
  EmitBranch A0 A1 0 Funct3.BEQ kNearJump fresh = Ok (tt, s') /\ linked s' 0 one_entry.
Proof.
  exact (proj1 (forward_branch_links fresh 0 no_branches A0 A1 Funct3.BEQ fresh_linked some_shape_wf eq_refl)
    kNearJump (or_introl eq_refl)).
Defined.

Lemma backward_branch_reaches_label_witness :
  branches_to (EmitBranch A0 A1 0 Funct3.BLT kFarJump) backward 0
    (fun r => branch_cond Funct3.BLT (r A0) (r A1)) (fun r => r).
Proof.
  apply backward_branch_reaches_label; [done | done | by right; right; left |].
  by apply (reachable_bound 0), backward_reachable; lia.
Defined.

Lemma load_immediate_loads_witness :
  computes 8 (LoadImmediate A0 0x123456789ABCDEF) (fun r => xset r A0 0x123456789ABCDEF).
Proof. apply load_immediate_loads; concrete. Defined.

(** A label bound four bytes before, and a new one. *)
Lemma add_branch_overflow_witness :
  checks_overflow (AddBranchOverflow A0 A0 A1 0) backward 0 A0 (fun r => intx (r A0) + intx (r A1)) /\
  checks_overflow_at (Unbound 0 no_branches kFarJump) (AddBranchOverflow A0 A0 A1 0) fresh A0
    (fun r => intx (r A0) + intx (r A1)).
Proof.
  split; [apply (add_branch_overflow A0 A0 A1 (Bound 0) backward)
         |apply (add_branch_overflow A0 A0 A1 (Unbound 0 no_branches kFarJump) fresh)]; concrete.
Defined.

Lemma subtract_branch_overflow_witness :
  checks_overflow (SubtractBranchOverflow A0 A1 A2 0) backward 0 A0
    (fun r => intx (r A1) - intx (r A2)).
Proof. apply (subtract_branch_overflow A0 A1 A2 (Bound 0) backward); concrete. Defined.

Lemma multiply_branch_overflow_witness :
  checks_overflow (MultiplyBranchOverflow A0 A0 A0 0) backward 0 A0
    (fun r => intx (r A0) * intx (r A0)).
Proof. apply (multiply_branch_overflow A0 A0 A0 (Bound 0) backward); concrete. Defined.

Lemma add_immediate_branch_overflow_witness :
  checks_overflow (AddImmediateBranchOverflow A0 A1 (2 ^ 40) 0) backward 0 A0
    (fun r => intx (r A1) + 2 ^ 40).
Proof. apply add_immediate_branch_overflow; concrete. Defined.

Lemma branch_if_registers_witness :
  compares_branches (_ ← CompareRegisters A0 A1; BranchIf Condition.EQUAL 0 kFarJump) backward 0
    (fun r => r A0 =? r A1) (fun r => r) /\
  compares_branches_at (Unbound 0 no_branches kNearJump)
    (_ ← CompareRegisters A0 A1; BranchIf Condition.LESS 0 kNearJump) fresh
    (fun r => intx (r A0) <? intx (r A1)) (fun r => r).
Proof.
  split; [apply (branch_if_registers Condition.EQUAL A0 A1 (Bound 0) backward)
         |apply (branch_if_registers Condition.LESS A0 A1 (Unbound 0 no_branches kNearJump) fresh)]; concrete.
Defined.

Lemma branch_if_immediate_witness :
  compares_branches (_ ← CompareImmediate A0 (-7); BranchIf Condition.NOT_EQUAL 0 kFarJump) backward 0
    (fun r => negb (r A0 =? uintx (-7))) (fun r => xset r TMP2 (-7)).
Proof. apply (branch_if_immediate Condition.NOT_EQUAL A0 (-7) 0 backward); concrete. Defined.

Lemma set_if_condition_witness :
  compares_sets (_ ← CompareImmediate A1 (2 ^ 20); SetIf Condition.EQUAL A0) fresh
    (fun r => xset (set_constant r (2 ^ 20)) A0 (b2z (r A1 =? uintx (2 ^ 20)))).
Proof. apply (set_if_condition Condition.EQUAL A0 A1 fresh); concrete. Defined.

(** The code the instances of loads, stores and stack operations run. *)
Definition load_code : list Z := [131; 165; 5; 255].
Definition push_pop_code : list Z := [97; 17; 42; 224; 130; 101; 33; 1].

Lemma load_store_at_offset_witness : exists n, let st := stack_simulator load_code in
  emits (LoadFromOffset A1 A1 (-16) kFourBytes) fresh load_code /\
  steps n st = Ok (advance st n 4 (xset (xregs_ st) A1 0x07070707)).
Proof.
  destruct (proj1 (load_store_at_offset A1 A1 (-16) kFourBytes int32_t fresh ltac:(concrete) ltac:(concrete)
    ltac:(concrete) ltac:(concrete) ltac:(concrete) ltac:(concrete)) eq_refl) as (code & E & HC).
  assert (code = load_code) as -> by (vm_compute in E; by injection E as <-).
  destruct (HC (stack_simulator load_code)) as (n & Hs);
    [apply stack_simulator_wf; by repeat constructor | done | apply stack_simulator_code |].
  exists n. split; [done|]. rewrite Hs. reflexivity.
Defined.

Lemma push_then_pop_witness : exists n m, let st := stack_simulator push_pop_code in
  emits (_ ← PushRegister A0; PopRegister A1) fresh push_pop_code /\
  steps n st = Ok (advance (with_mem st m) n 8 (xset (xregs_ st) A1 0)).
Proof.
  destruct (push_then_pop A0 A1 fresh) as (code & E & HC); [concrete..|].
  assert (code = push_pop_code) as -> by (vm_compute in E; by injection E as <-).
  destruct (HC (stack_simulator push_pop_code)) as (n & m & _ & Hs);
    [apply stack_simulator_wf; by repeat constructor | done | apply stack_simulator_code | |].
  - split; [done | done | by apply stack_simulator_mapped | by left].
  - exists n, m. split; [done|]. exact Hs.
Defined.

Lemma extend_and_tag_witness :
  computes 2 (ExtendAndSmiTagValue A0 A1 kUnsignedByte) (fun r => xset r A0 (2 * uwrap 8 (r A1))).
Proof. by apply (extend_and_tag A0 A1 kUnsignedByte). Defined.

Lemma smi_tag_untag_witness : exists f, computes 2 (_ ← SmiTag A0 A1; SmiUntag A0 A0) f /\
  intx (f (fun i => if i =? A1 then 12345 else 0) A0) = 12345.
Proof.
  destruct (smi_tag_untag A0 A1) as (f & C & Hf); [done..|]. exists f. split; [done|].
  destruct (Hf (fun i => if i =? A1 then 12345 else 0)) as [E _]; [|by vm_compute | done].
  split; [done|]. intros i. by destruct (i =? A1).
Defined.

Lemma branch_on_smi_witness :
  branches_to (BranchIfSmi A0 0 kFarJump) backward 0 (fun r => r A0 mod 2 =? 0)
    (fun r => xset r TMP2 (r A0 mod 2)).
Proof. refine (proj1 (branch_on_smi A0 0 backward _ _ _ _)); concrete. Defined.

Lemma reserve_aligned_frame_witness : exists f, computes 2 (ReserveAlignedFrameSpace 40) f /\
  f (xregs_ (stack_simulator [])) SP mod 16 = 0.
Proof.
  destruct (reserve_aligned_frame 40 ltac:(done)) as (f & C & Hf). exists f. split; [done|].
  apply (Hf (xregs_ (stack_simulator []))); [|done]. by apply stack_simulator_wf.
Defined.
