(* ===== verification/ObjectProps.v ===== *)
(** * Properties of frames, register saving and object access

    What the emitted code of [PushRegisters] and [PopRegisters], [EnterFrame] and
    [LeaveFrame], [LoadClassIdMayBeSmi] and [StoreBarrier] does when it runs. *)
From S2P Require Import Prelude Utils Constants EncodingFacts Words CWords Memory Float.
From S2P Require Import SimState SimInteger SimFloat Simulator Exec SimFacts Effects AsmState.
From S2P Require Import MicroAssembler Emission Computes Macros MacroFacts Accesses Offsets FloatAccesses.
From S2P Require Import Programs Stack Frames ObjectHeader WriteBarrier ObjectMacros Labels Forward Barriers HeaderAccess Instances.

Section Properties.
Context `{Target} `{HostFloat} `{Host}.

(** C21: [PushRegisters] of any set of registers, any code that keeps the stack pointer and
    the saved area, and [PopRegisters] of the same set leave every register of the set and
    the stack pointer with their original values and touch no other integer register; the
    pushed code changes no memory outside the saved area. *)
Theorem save_restore_registers regs s s2 : full s -> full s2 -> saved_size regs <> 0 ->
  ContainsRegister regs SP = false ->
  exists code code2, PushRegisters regs s = Ok (tt, append s code) /\
  PopRegisters regs s2 = Ok (tt, append s2 code2) /\
  forall st, sim_wf st -> pc_ st + Z.of_nat (length code) < 2 ^ XLEN ->
  code_at (mem_ st) (pc_ st) code ->
  save_room (rev (reg_slots regs)) (saved_size regs) st (pc_ st) (Z.of_nat (length code)) ->
  let sp := xregs_ st SP - saved_size regs in
  exists n m, steps n st = Ok (advance (with_mem st m) n (Z.of_nat (length code)) (xset (xregs_ st) SP sp)) /\
  (forall i, i < sp \/ xregs_ st SP <= i -> m !! i = mem_ st !! i) /\
  forall st2, sim_wf st2 -> pc_ st2 + Z.of_nat (length code2) < 2 ^ XLEN ->
  code_at (mem_ st2) (pc_ st2) code2 -> xregs_ st2 SP = sp -> stack_base_ st2 = stack_base_ st ->
  same_bytes m (mem_ st2) sp (saved_size regs) ->
  exists n2 st3, steps n2 st2 = Ok st3 /\ pc_ st3 = pc_ st2 + Z.of_nat (length code2) /\
    mem_ st3 = mem_ st2 /\ xregs_ st3 SP = xregs_ st SP /\
    (forall r, 0 <= r < 32 -> ContainsRegister regs r = true -> xregs_ st3 r = xregs_ st r) /\
    (forall r, 0 <= r < 32 -> r <> SP -> ContainsRegister regs r = false -> xregs_ st3 r = xregs_ st2 r) /\
    (forall r, 0 <= r < 32 -> ContainsFpuRegister regs r = true -> fregs_ st3 r = fregs_ st r) /\
    (forall r, 0 <= r < 32 -> ContainsFpuRegister regs r = false -> fregs_ st3 r = fregs_ st2 r).
Proof.
  intros Hs Hs2 Hnz Hsp.
  destruct (PushRegisters_implements regs Hnz s Hs) as (code & E & R).
  destruct (PopRegisters_implements regs Hnz s2 Hs2) as (code2 & E2 & R2).
  exists code, code2. split_and!; [done | done |]. intros st Hwf Hpc Hc Hroom sp.
  assert (forall o, XSlot SP o ∉ reg_slots regs) as Hno.
  { intros o Ho. destruct (proj1 (xslot_member regs SP) (ex_intro _ o Ho)) as [_ Hf]. congruence. }
  destruct (save_steps (rev (reg_slots regs)) (saved_size regs)) with (code := code) (st := st)
    as (n & m & Hn & Hsv & Hm); [| | | | done..|].
  { apply Forall_rev, reg_slots_inside. }
  { apply pairs_rev; [intros x y; unfold slots_apart; tauto | apply reg_slots_apart]. }
  { intros o. rewrite list_elem_of_In, <- in_rev, <- list_elem_of_In. apply Hno. }
  { apply saved_size_bound. }
  exists n, m. split_and!; [done | done |]. intros st2 Hwf2 Hpc2 Hc2 Esp Eb Hsame.
  destruct (restore_steps (reg_slots regs) (saved_size regs)) with (code := code2) (st0 := st) (st := st2)
    as (n2 & st3 & Hn2 & [Eq HX HXo HD HDo]); [apply reg_slots_inside | apply reg_slots_apart | done
      | apply saved_size_bound | done | done | done | done | done | | |].
  { rewrite Esp, Eb. destruct Hroom. unfold sp. lia. }
  { apply Forall_forall. intros x Hx. rewrite Esp. apply (saved_same _ m).
    - pose proof (reg_slots_inside regs) as Hi. rewrite Forall_forall in Hi. destruct (Hi x Hx).
      eapply same_bytes_sub; [| |exact Hsame]; lia.
    - rewrite Forall_forall in Hsv. apply Hsv. by rewrite <- in_rev. }
  pose proof (proj2 (wf_regs st Hwf) SP) as Hspb. pose proof (wf_pc st2 Hwf2).
  eexists n2, _. split; [exact Hn2|]. rewrite Eq. cbn [advance pc_ mem_ xregs_ fregs_ with_pc with_xregs with_fregs with_instret].
  split_and!.
  - apply uintx_small. lia.
  - done.
  - rewrite xset_same, Esp by done. unfold sp. rewrite uintx_small; lia.
  - intros r Hr Hin. destruct (proj2 (xslot_member regs r) (conj Hr Hin)) as [o Ho].
    rewrite xset_other by (intros ->; by apply (Hno o)). by apply (HX r o).
  - intros r Hr Hns Hin. rewrite xset_other by done. apply HXo. intros o Ho.
    destruct (proj1 (xslot_member regs r) (ex_intro _ o Ho)). congruence.
  - intros r Hr Hin. destruct (proj2 (dslot_member regs r) (conj Hr Hin)) as [o Ho]. by apply (HD r o).
  - intros r Hr Hin. apply HDo. intros o Ho.
    destruct (proj1 (dslot_member regs r) (ex_intro _ o Ho)). congruence.
Qed.

(** C34: [EnterFrame] reserves the frame, links it through the saved frame pointer and return
    address and changes no memory outside it; whatever the body does to the stack pointer,
    as long as it keeps the frame pointer and the two saved words, [LeaveFrame] brings back
    the caller's stack pointer, frame pointer and return address. *)
Theorem enter_leave_frame k s s2 : frame_size_ok k -> full s -> full s2 ->
  exists code code2, EnterFrame k s = Ok (tt, append s code) /\ LeaveFrame s2 = Ok (tt, append s2 code2) /\
  forall st, sim_wf st -> pc_ st + Z.of_nat (length code) < 2 ^ XLEN ->
  code_at (mem_ st) (pc_ st) code ->
  save_room (frame_slots k) (k + 2 * kWordSize) st (pc_ st) (Z.of_nat (length code)) ->
  let sp := xregs_ st SP - (k + 2 * kWordSize) in
  exists n m, steps n st = Ok (advance (with_mem st m) n (Z.of_nat (length code)) (frame_regs (xregs_ st) k)) /\
  (forall i, i < sp \/ xregs_ st SP <= i -> m !! i = mem_ st !! i) /\
  forall st2, sim_wf st2 -> pc_ st2 + Z.of_nat (length code2) < 2 ^ XLEN ->
  code_at (mem_ st2) (pc_ st2) code2 -> xregs_ st2 FP = sp + k -> stack_base_ st2 = stack_base_ st ->
  same_bytes m (mem_ st2) (sp + k) (2 * kWordSize) ->
  exists n2 R, steps n2 st2 = Ok (advance st2 n2 (Z.of_nat (length code2)) R) /\
    R SP = xregs_ st SP /\ R FP = xregs_ st FP /\ R RA = xregs_ st RA /\
    forall i, i <> SP -> i <> FP -> i <> RA -> R i = xregs_ st2 i.
Proof.
  intros Hk Hs Hs2. pose proof kWordSize_pos.
  destruct (EnterFrame_implements k Hk s Hs) as (code & E & R).
  destruct (LeaveFrame_implements s2 Hs2) as (code2 & E2 & R2).
  exists code, code2. split_and!; [done | done |]. intros st Hwf Hpc Hc Hroom sp.
  destruct (enter_steps k code st Hk R Hwf Hpc Hc Hroom) as (n & m & Hn & Hsv & Hm).
  exists n, m. split_and!; [done | done |]. intros st2 Hwf2 Hpc2 Hc2 Efp Eb Hsame.
  assert (sp + k = xregs_ st SP - 2 * kWordSize) as Esp by (unfold sp; lia).
  destruct (leave_steps code2 st st2 R2 Hwf Hwf2 Hpc2 Hc2) as (n2 & R' & Hn2 & E3 & E4 & E5 & E6).
  - rewrite Efp, Eb, Esp. destruct Hroom. lia.
  - rewrite Efp, Esp. rewrite Forall_forall in Hsv |- *. intros x Hx.
    apply (saved_same _ m); [|by apply Hsv].
    eapply same_bytes_sub; [| |exact Hsame]; rewrite Esp;
      destruct Hx as [<-|[<-|[]]]; cbn [slot_off slot_size]; lia.
  - exists n2, R'. split_and!; [done | rewrite E3, Efp, Esp; lia | done | done | done].
Qed.

(** The code of [LoadClassIdMayBeSmi] leaves the class identifier of a value: the Smi
    class for a small integer, which it does not dereference, and the class identifier field
    of the header otherwise.  It changes no other register than the result and the scratch
    register, and no memory. *)
Theorem load_class_id done result object s : 0 <= result < 32 -> 0 <= object < 32 -> result <> ZR ->
  result <> object -> result <> TMP2 -> object <> TMP2 ->
  full s -> aligned_at s (Position s) -> Position s + 16 < 2 ^ 31 ->
  exists code, LoadClassIdMayBeSmi done result object s =
    Ok (tt, with_label (append s code) done (bound_at (Position s + Z.of_nat (length code)))) /\
  forall st tags, sim_wf st -> pc_ st + Z.of_nat (length code) < 2 ^ XLEN ->
  code_at (mem_ st) (pc_ st) code -> 0 <= tags < 2 ^ XLEN ->
  (xregs_ st object mod 2 = 1 -> object_at st object tags) ->
  exists n R, steps n st = Ok (advance st n (Z.of_nat (length code)) R) /\
    R result = class_of (xregs_ st object) tags /\
    forall i, i <> result -> i <> TMP2 -> R i = xregs_ st i.
Proof.
  intros Hr Ho Hz H1' H2' H3' Hs Ha Hp.
  destruct (LoadClassIdMayBeSmi_performs done result object Hr Ho H1' H2' H3' s Hs Ha Hp) as (code & _ & E & X).
  exists code. split; [exact E|]. intros st tags Hwf Hpc Hc Ht O.
  destruct (class_items_run (pc_ st) (Z.of_nat (length code)) st result object tags) as (R & b & Hsame & Hres & Hrun);
    [apply Hwf | done..|].
  destruct (performs_runs code _ st _ b X Hwf Hpc Hc Hrun) as [n Hn].
  exists n, R. split_and!; [|done | done]. rewrite Hn. by destruct st.
Qed.

(** C17: the emitted write barrier tests what the runtime's barrier tests.  The code of
    [StoreBarrier] consists of a test with the preparation of the call, the call of the
    barrier stub, and the end.  For a pointer stored into an object the call is reached,
    with its arguments prepared, exactly when [barrier_needed] holds for the two headers and
    the thread's mask; for a small integer and otherwise the code is skipped to its end,
    only the scratch registers having changed. *)
Theorem store_barrier_code invoke done can object value s :
  0 <= object < 32 -> 0 <= value < 32 -> object <> value -> object <> RA -> value <> RA ->
  object <> TMP -> object <> TMP2 -> value <> TMP -> value <> TMP2 ->
  (forall r s, 0 <= r < 32 -> full s -> exists code, invoke r s = Ok (tt, append s code)) ->
  (forall r, short 48 (invoke r)) ->
  full s -> aligned_at s (Position s) -> Position s + 112 < 2 ^ 31 ->
  exists test call finish, let code := test ++ call ++ finish in
  StoreBarrier invoke done object value can s =
    Ok (tt, with_label (append s code) done (bound_at (Position s + Z.of_nat (length code)))) /\
  code_of (invoke (call_object object value)) call /\ realizes finish (finish_ops object value) /\
  forall st otags vtags, sim_wf st -> pc_ st + Z.of_nat (length code) < 2 ^ XLEN ->
  code_at (mem_ st) (pc_ st) test -> object_at st object otags ->
  (xregs_ st value mod 2 = 1 -> object_at st value vtags) ->
  (can = kValueIsNotSmi -> xregs_ st value mod 2 = 1) -> 0 <= xregs_ st WRITE_BARRIER_MASK < 64 ->
  exists R, scratched (xregs_ st) R /\
  if (xregs_ st value mod 2 =? 1) && barrier_needed otags vtags (xregs_ st WRITE_BARRIER_MASK) then
    forall st', runs (pc_ st) (Z.of_nat (length test)) (prepare_ops object value) (with_xregs st R) st' ->
    exists n, steps n st = Ok (advance st' n (Z.of_nat (length test)) (xregs_ st'))
  else exists n, steps n st = Ok (advance st n (Z.of_nat (length code)) R).
Proof.
  intros Ho Hv H1' H2' H3' H4' H5' H6' H7' He Hi Hs Ha Hp.
  destruct (StoreBarrier_performs invoke He Hi done can object value) with (s := s)
    as (code & _ & E & test & rest & -> & X & call & finish & -> & Hcall & Hfin); [done..|].
  exists test, call, finish. cbv zeta. split_and!; [done | done | done |].
  intros st otags vtags Hwf Hpc Hc Oo Ov Hcan Hm. destruct X as [_ X].
  destruct (barrier_test_runs (pc_ st) (Z.of_nat (length test)) can st object value otags vtags)
    as (R & Hsc & Hrun); [apply Hwf | done..|].
  exists R. split; [done|]. rewrite !length_app in *.
  destruct ((xregs_ st value mod 2 =? 1) && _); cbn [negb] in Hrun.
  - intros st' Hruns. destruct (X st st' false) as [n Hn]; [done | lia | lia | done | | by exists n].
    eapply run_items_through; [exact Hrun|]. by apply run_items_do.
  - destruct (X st (with_xregs st R) true) as [n Hn]; [done | lia | lia | done | by apply run_items_exit |].
    exists n. rewrite Hn. by destruct st.
Qed.
End Properties.

(** ** Instances *)

#[local] Existing Instances rv64 canonical_nan quiet_host.

(** [a0] and [fa0]. *)
Definition some_registers : RegisterSet := {| cpu_registers_ := 2 ^ A0; fpu_registers_ := 2 ^ 10 |}.
Definition save_code : list Z := Eval vm_compute in emitted (PushRegisters some_registers) fresh.
Definition restore_code : list Z := Eval vm_compute in emitted (PopRegisters some_registers) fresh.
Definition enter_code : list Z := Eval vm_compute in emitted (EnterFrame 8) fresh.
Definition leave_code : list Z := Eval vm_compute in emitted LeaveFrame fresh.

Lemma save_restore_registers_witness : exists n n2 st1 st3,
  let st := stack_simulator (save_code ++ restore_code) in
  steps n st = Ok st1 /\ steps n2 st1 = Ok st3 /\
  xregs_ st3 SP = 65536 /\ xregs_ st3 A0 = xregs_ st A0 /\ fregs_ st3 10 = fregs_ st 10.
Proof.
  destruct (save_restore_registers some_registers fresh fresh) as (c1 & c2 & E1 & E2 & HC);
    [apply fresh_full | apply fresh_full | by vm_compute | done |].
  assert (c1 = save_code) as -> by (rewrite (emitted_is _ _ c1 _ E1) by done; by vm_compute).
  assert (c2 = restore_code) as -> by (rewrite (emitted_is _ _ c2 _ E2) by done; by vm_compute). clear E1 E2.
  set (st := stack_simulator (save_code ++ restore_code)).
  assert (sim_wf st) as Hwf by (apply stack_simulator_wf; by repeat constructor).
  destruct (stack_code_at save_code restore_code) as [Hc1 Hc2].
  destruct (HC st) as (n & m & Hn & Hm & HC2); [done | done | exact Hc1 | |].
  - split; [by vm_compute | by vm_compute | by apply stack_simulator_mapped | by left; vm_compute |].
    intros r o _. by vm_compute.
  - destruct (HC2 _ (steps_wf quiet_host_keeps_wf _ _ _ Hwf Hn)) as (n2 & st3 & Hn2 & _ & _ & E1 & E2 & _ & E3 & _);
      [by vm_compute | | by vm_compute | done | done |].
    + eapply code_at_kept; [|exact Hc2]. intros i Hi. apply Hm. left. cbn in Hi. rewrite uintx_small in Hi by by vm_compute.
      assert (xregs_ st SP - saved_size some_registers = 65520) as -> by by vm_compute. lia.
    + eexists n, n2, _, st3. split; [exact Hn|]. split; [exact Hn2|].
      split; [exact E1|]. split; [by apply E2 | by apply E3].
Defined.

Lemma enter_leave_frame_witness : exists n n2 st1 R,
  let st := stack_simulator (enter_code ++ leave_code) in
  steps n st = Ok st1 /\ xregs_ st1 SP = 65512 /\ xregs_ st1 FP = 65520 /\
  steps n2 st1 = Ok (advance st1 n2 (Z.of_nat (length leave_code)) R) /\
  R SP = 65536 /\ R FP = xregs_ st FP /\ R RA = xregs_ st RA.
Proof.
  destruct (enter_leave_frame 8 fresh fresh) as (c1 & c2 & E1 & E2 & HC);
    [done | apply fresh_full | apply fresh_full |].
  assert (c1 = enter_code) as -> by (rewrite (emitted_is _ _ c1 _ E1) by done; by vm_compute).
  assert (c2 = leave_code) as -> by (rewrite (emitted_is _ _ c2 _ E2) by done; by vm_compute). clear E1 E2.
  set (st := stack_simulator (enter_code ++ leave_code)).
  assert (sim_wf st) as Hwf by (apply stack_simulator_wf; by repeat constructor).
  destruct (stack_code_at enter_code leave_code) as [Hc1 Hc2].
  destruct (HC st) as (n & m & Hn & Hm & HC2); [done | done | exact Hc1 | |].
  - split; [by vm_compute | by vm_compute | by apply stack_simulator_mapped | by left; vm_compute |].
    intros r o [? |[? |[]%elem_of_nil]%elem_of_cons]%elem_of_cons; done.
  - destruct (HC2 _ (steps_wf quiet_host_keeps_wf _ _ _ Hwf Hn)) as (n2 & R & Hn2 & E1 & E2 & E3 & _);
      [by vm_compute | | by vm_compute | done | done |].
    + eapply code_at_kept; [|exact Hc2]. intros i Hi. apply Hm. left. cbn in Hi. rewrite uintx_small in Hi by by vm_compute.
      assert (xregs_ st SP - (8 + 2 * kWordSize) = 65512) as -> by by vm_compute. lia.
    + eexists n, n2, _, R. split; [exact Hn|]. split; [by vm_compute|]. split; [by vm_compute|].
      split; [exact Hn2|]. split; [exact E1|]. by split.
Defined.

(** Objects at 32768 and 36864: an old one that is not remembered and a new one of class 42. *)
Definition old_tags : Z := 24.
Definition new_tags : Z := 4 + 42 * 2 ^ 16.
Definition heap_simulator (code : list Z) : Simulator :=
  {| pc_ := 4096;
     xregs_ := fun i => if i =? A0 then 32769 else if i =? A1 then 36865 else if i =? WRITE_BARRIER_MASK then 6 else 0;
     instret_ := 0; reserved_address_ := 0; reserved_value_ := 0; fregs_ := fun _ => 0;
     fcsr_ := 0; stack_limit_ := 0; overflow_stack_limit_ := 0; stack_base_ := 65536;
     random_ := 1; mem_ := memory_of 4096 code ∪ (memory_of 32768 (le_bytes 8 old_tags) ∪ memory_of 36864 (le_bytes 8 new_tags));
     redirections_ := [] |}.

Lemma heap_simulator_wf code : Forall (fun b => 0 <= b < 256) code -> sim_wf (heap_simulator code).
Proof.
  intros Hc. split; cbn [pc_ xregs_ instret_ mem_ heap_simulator]; [|done | done |].
  - split; [done|]. intros i. by destruct (i =? A0), (i =? A1), (i =? WRITE_BARRIER_MASK).
  - apply map_Forall_union_2; [by apply memory_of_wf|].
    apply map_Forall_union_2; apply memory_of_wf, le_bytes_bound.
Qed.

Lemma heap_simulator_code code : code_at (mem_ (heap_simulator code)) 4096 code.
Proof. intros i b Hi. apply lookup_union_Some_raw. left. by apply memory_of_code. Qed.

Lemma heap_simulator_objects code : Z.of_nat (length code) <= 200 ->
  object_at (heap_simulator code) A0 old_tags /\ object_at (heap_simulator code) A1 new_tags.
Proof.
  intros Hl.
  assert (forall a, 5000 <= a -> memory_of 4096 code !! a = None) as Hn by (intros a Ha; apply memory_of_above; lia).
  split; (split; [done | by vm_compute |]).
  - change (code_at (mem_ (heap_simulator code)) 32768 (le_bytes 8 old_tags)). intros i b Hi.
    apply lookup_union_Some_raw. right. split; [apply Hn; lia|].
    apply lookup_union_Some_raw. left. by apply (memory_of_code 32768 (le_bytes 8 old_tags)).
  - change (code_at (mem_ (heap_simulator code)) 36864 (le_bytes 8 new_tags)). intros i b Hi.
    apply lookup_union_Some_raw. right. split; [apply Hn; lia|].
    apply lookup_union_Some_raw. right. split; [|by apply (memory_of_code 36864 (le_bytes 8 new_tags))].
    apply memory_of_above. rewrite length_le_bytes. lia.
Qed.

Definition class_code : list Z := Eval vm_compute in emitted (LoadClassIdMayBeSmi 0 A2 A1) fresh.
Definition record_object (r : Z) : asm unit := mv A2 r.
Definition barrier_bytes : list Z := Eval vm_compute in
  emitted (StoreBarrier record_object 0 A0 A1 kValueCanBeSmi) fresh.

Lemma load_class_id_witness : exists n R, let st := heap_simulator class_code in
  steps n st = Ok (advance st n (Z.of_nat (length class_code)) R) /\ R A2 = 42.
Proof.
  destruct (load_class_id 0 A2 A1 fresh) as (code & E & HC); [done.. | apply fresh_full | done | done |].
  assert (code = class_code) as -> by (rewrite (emitted_is _ _ code _ E) by done; by vm_compute).
  destruct (HC (heap_simulator class_code) new_tags) as (n & R & Hn & Hr & _).
  - apply heap_simulator_wf. by repeat constructor.
  - done.
  - apply heap_simulator_code.
  - done.
  - intros _. by apply heap_simulator_objects.
  - exists n, R. split; [exact Hn|]. rewrite Hr. by vm_compute.
Defined.

(** The store of a new object into an old one reaches the call. *)
Lemma store_barrier_code_witness : exists n test R, let st := heap_simulator barrier_bytes in
  (exists rest, barrier_bytes = test ++ rest) /\
  steps n st = Ok (advance st n (Z.of_nat (length test)) R) /\ R A0 = 32769 /\ R A1 = 36865.
Proof.
  destruct (store_barrier_code record_object 0 kValueCanBeSmi A0 A1 fresh)
    as (test & call & finish & E & _ & _ & HC); [done..| | | apply fresh_full | done | done |].
  - intros r s Hr Hs. destruct (implements_addi A2 r 0 ltac:(done) Hr ltac:(done) s Hs) as (c & Ec & _). by exists c.
  - intros r. apply (short_weaken _ 4); [done | apply addi_short].
  - assert (test ++ call ++ finish = barrier_bytes) as Eb by (rewrite (emitted_is _ _ (test ++ call ++ finish) _ E) by done; by vm_compute).
    rewrite Eb in HC.
    destruct (HC (heap_simulator barrier_bytes) old_tags new_tags) as (R & Hsc & Hn).
    + apply heap_simulator_wf. by repeat constructor.
    + by vm_compute.
    + pose proof (heap_simulator_code barrier_bytes) as Hc. rewrite <- Eb in Hc at 2. by apply code_at_app in Hc as [? _].
    + by apply heap_simulator_objects.
    + intros _. by apply heap_simulator_objects.
    + intros Hcan. discriminate Hcan.
    + clear. by vm_compute.
    + assert ((xregs_ (heap_simulator barrier_bytes) A1 mod 2 =? 1) &&
        barrier_needed old_tags new_tags (xregs_ (heap_simulator barrier_bytes) WRITE_BARRIER_MASK) = true) as Eq by by vm_compute.
      rewrite Eq in Hn. destruct (Hn _ eq_refl) as [n Hs]. exists n, test, R.
      split; [by exists (call ++ finish)|]. split; [exact Hs|]. split; by apply Hsc.
Defined.
