(* ===== verification/HeapProps.v ===== *)
(** * Properties of the heap

    Object headers, the write barrier of the runtime, and parallel marking. *)
From S2P Require Import Prelude Utils Constants Words SimState Exec Macros ObjectHeader PointerBlocks WorkLists WriteBarrier Instances.

Section Properties.
Context `{Target}.

(** The fields of an object header are independent: an update of one field with a value
    that fits succeeds, the field then decodes to that value, and every other field of the
    header keeps its value. *)
Theorem header_fields_independent f v tags : In f header_fields -> 0 <= v < 2 ^ size f ->
  0 <= tags < 2 ^ XLEN ->
  exists tags', update f v tags = Ok tags' /\ 0 <= tags' < 2 ^ XLEN /\ decode f tags' = v /\
  forall g, In g header_fields -> g <> f -> decode g tags' = decode g tags.
Proof.
  intros Hf Hv Ht. pose proof header_fields_wf as Hw. rewrite Forall_forall in Hw.
  assert (exists tags', update f v tags = Ok tags') as [tags' E].
  { unfold update, encode. rewrite ASSERT_bind; [by eexists|].
    apply Z.eqb_eq, decode_encode; [by apply Hw | done]. }
  pose proof (update_word f v tags tags' (Hw f Hf) Hv Ht E) as Ht'.
  exists tags'. split_and!; [done | lia | lia | by eapply update_same; [apply Hw | | |] |].
  intros g Hg Hn. apply (update_other f g v tags tags'); auto.
  destruct (ForallOrdPairs_In header_fields_disjoint f g Hf Hg) as [E'|[Hd|Hd]];
    [by subst | done | unfold disjoint_fields in *; tauto].
Qed.

(** C18: [StorePointer] of a valid pointer into a field of an object without card marking
    succeeds and keeps the heap invariant: old objects that hold pointers to new objects are
    in the store buffer, block sizes and barrier mask are consistent; fields other than the
    one written keep their values, and while marking is in progress an old object stored
    into an old object ends up marked, and on the marking stack unless it was marked before,
    or on the deferred marking stack. *)
Theorem store_pointer_keeps_heap h this o i v : heap_inv h -> objects h !! this = Some o ->
  card_remembered o = false -> (i < length (fields_ o))%nat -> pointer_ok (objects h) v ->
  exists h', StorePointer this i v h = Ok h' /\ heap_inv h' /\
    same_fields (set_field h this i v) h' /\
    (forall a, v = a + kHeapObjectTag -> is_Some (objects h !! a) -> incremental_ok h h' this a).
Proof. apply StorePointer_spec. Qed.

(** C19: when the tasks of a parallel mark have all left [WaitForWork], in any interleaving
    of their steps, no work is left: the count of busy tasks is zero, the shared stack and
    all work lists are empty, and every pointer pushed was popped. *)
Theorem marking_finishes_all_work kSize st0 st : (0 < kSize)%nat -> initial kSize st0 ->
  mark_steps kSize st0 st -> Forall (fun t => at_ t = Done) (tasks st) ->
  num_busy st = 0 /\ contents (stacks st) = [] /\ task_contents (tasks st) = [] /\
  pushed_ st ≡ₚ popped_ st.
Proof.
  intros Hk H0 Hs Hd. apply (all_done kSize); [|done]. by eapply steps_inv.
Qed.

(** C20: parallel marking ends, with tasks that sleep in [Wait] until they are notified.  From
    every reachable state, no run in which nothing more is pushed and no task wakes without a
    notification is infinite, none is stuck before all tasks are done (a sleeping task is not
    forgotten: when the last busy task leaves, all are notified), and one that ends has popped
    all pointers that were pushed.  A step that puts the first block on an empty shared stack
    wakes one of the sleeping tasks, if there are any. *)
Theorem marking_terminates kSize st0 st : (0 < kSize)%nat -> initial kSize st0 ->
  mark_steps kSize st0 st ->
  Acc (fun a b => drain_step kSize b a) st /\
  (~ Forall (fun t => at_ t = Done) (tasks st) -> exists st', drain_step kSize st st') /\
  (exists st', drain_steps kSize st st' /\ Forall (fun t => at_ t = Done) (tasks st') /\
     pushed_ st' = pushed_ st /\ popped_ st' ≡ₚ pushed_ st) /\
  (forall st', mark_step kSize st st' -> contents (stacks st) = [] -> contents (stacks st') <> [] ->
     Exists (fun t => at_ t = Waiting) (tasks st) ->
     exists i, at_ <$> tasks st !! i = Some Waiting /\ at_ <$> tasks st' !! i = Some Notified).
Proof.
  intros Hk H0 Hs. destruct (steps_inv kSize Hk st0 st H0 Hs) as [Hi Ha].
  split_and!; [by apply drain_acc | by apply can_drain | |].
  - destruct (drain_completes kSize Hk st Hi Ha) as (st' & Hr & Hi' & Hd & Hp).
    exists st'. split_and!; [done | done | done |]. rewrite <- Hp. symmetry. by apply (all_done kSize st').
  - intros st' Hstep Hc Hc' (u & [j Hu]%list_elem_of_lookup & Hau)%list.Exists_exists.
    by apply (first_block_wakes kSize Hk st st' j u).
Qed.
End Properties.

(** ** Instances *)

#[local] Existing Instance rv64.

Lemma header_fields_independent_witness : exists tags', update ClassIdTag 42 4 = Ok tags' /\
  decode ClassIdTag tags' = 42 /\ decode NewBit tags' = decode NewBit 4.
Proof.
  destruct (header_fields_independent ClassIdTag 42 4) as (t & E & _ & D & G); [|done | done |].
  - unfold header_fields. cbn. tauto.
  - exists t. split; [done|]. split; [done|]. apply G; [|done]. unfold header_fields. cbn. tauto.
Defined.

(** An old object with one field and a new one, outside of marking. *)
Definition no_blocks : Stacks := {| stack_ := {| full_ := []; partial_ := [] |}; global_empty_ := [] |}.
Lemma no_blocks_wf k : stacks_wf k no_blocks.
Proof. split; [constructor | constructor | constructor | apply Nat.le_0_l]. Qed.
Definition some_heap : Heap :=
  {| objects := {[32768 := {| tags_ := 26; fields_ := [0] |}; 36872 := {| tags_ := 4; fields_ := [] |}]};
     store_buffer := no_blocks; marking_stack := stack_ no_blocks; deferred_marking_stack := stack_ no_blocks;
     empty_marking_blocks := []; store_buffer_block_ := Some []; marking_stack_block_ := None;
     deferred_marking_stack_block_ := None; write_barrier_mask_ := kGenerationalBarrierMask;
     interrupt_scheduled := false |}.

Lemma some_heap_objects a o : objects some_heap !! a = Some o ->
  (a = 32768 /\ o = {| tags_ := 26; fields_ := [0] |}) \/ (a = 36872 /\ o = {| tags_ := 4; fields_ := [] |}).
Proof.
  cbn. intros [[<- <-]|[_ [<- <-]%lookup_singleton_Some]]%lookup_insert_Some; auto.
Qed.

Lemma some_heap_inv : heap_inv some_heap.
Proof.
  split.
  - split; [apply no_blocks_wf | apply no_blocks_wf | apply no_blocks_wf | | by vm_compute | by vm_compute | by vm_compute].
    exists []. split; [done | apply store_buffer_size].
  - split.
    + intros a o [[-> ->]|[-> ->]]%some_heap_objects; done.
    + intros a o [[-> ->]|[-> ->]]%some_heap_objects; [right | left]; by vm_compute.
    + intros a o v [[-> ->]|[-> ->]]%some_heap_objects Hv; cbn in Hv; [|by apply elem_of_nil in Hv].
      apply list_elem_of_singleton in Hv as ->. by left.
    + intros a o [[-> ->]|[-> ->]]%some_heap_objects; by vm_compute.
    + intros a o v [[-> ->]|[-> ->]]%some_heap_objects; cbn; [|by intros _ _ ?%elem_of_nil].
      intros _ _ ->%list_elem_of_singleton (a & Ha & Hn). exfalso. unfold kHeapObjectTag in Ha.
      replace a with (-1) in Hn by lia. by vm_compute in Hn.
Qed.

(** The new object is stored into the old one, which is then remembered. *)
Lemma store_pointer_keeps_heap_witness : exists h', StorePointer 32768 0 36873 some_heap = Ok h' /\
  heap_inv h' /\ buffered h' = [32769].
Proof.
  destruct (store_pointer_keeps_heap some_heap 32768 {| tags_ := 26; fields_ := [0] |} 0 36873)
    as (h' & E & Hi & _); [apply some_heap_inv | done | done | cbn; lia | right; by exists 36872|].
  exists h'. split; [exact E|]. split; [exact Hi|]. vm_compute in E. by injection E as <-.
Defined.

(** One task and one pointer on the shared stack. *)
Definition one_pointer : Stacks := {| stack_ := {| full_ := []; partial_ := [[7]] |}; global_empty_ := [] |}.
Definition drained : Stacks := {| stack_ := {| full_ := []; partial_ := [] |}; global_empty_ := [[]] |}.
Definition one_task (s : Stacks) (p : phase) (busy : Z) (popped : list ObjectPtr) : marking :=
  {| stacks := s; tasks := [{| at_ := p; list_ := {| local_output_ := []; local_input_ := [] |} |}];
     num_busy := busy; pushed_ := [7]; popped_ := popped |}.

Lemma one_task_initial : initial 64 (one_task one_pointer NotStarted 0 []).
Proof.
  split_and!; try done; [|by repeat constructor]. split; [constructor | | constructor | apply Nat.le_0_l].
  constructor; [cbn; lia | constructor].
Qed.

Lemma one_task_runs : mark_steps 64 (one_task one_pointer NotStarted 0 []) (one_task drained SawEmpty 1 [7]).
Proof.
  eapply steps_next; [eapply steps_next; [eapply steps_next; [apply steps_refl|]|]|]; apply step_drain.
  - by apply (step_start 64 (one_task one_pointer NotStarted 0 []) 0).
  - by eapply (step_pop 64 (one_task one_pointer Working 1 []) 0 {| local_output_ := []; local_input_ := [] |}
             false {| local_output_ := []; local_input_ := [] |} drained 7 _ eq_refl); [|constructor].
  - by eapply (step_pop_none 64 (one_task drained Working 1 [7]) 0 {| local_output_ := []; local_input_ := [] |}
             false {| local_output_ := []; local_input_ := [] |} drained _ eq_refl); [|constructor].
Qed.

Lemma marking_finishes_all_work_witness :
  mark_steps 64 (one_task one_pointer NotStarted 0 []) (one_task drained Done 0 [7]) /\
  pushed_ (one_task drained Done 0 [7]) ≡ₚ popped_ (one_task drained Done 0 [7]).
Proof.
  assert (mark_steps 64 (one_task one_pointer NotStarted 0 []) (one_task drained Done 0 [7])) as Hs.
  { eapply steps_next; [apply one_task_runs|]. apply step_drain.
    by eapply (step_enter 64 (one_task drained SawEmpty 1 [7]) 0 {| local_output_ := []; local_input_ := [] |}
      true (Return None) drained 0 false {| at_ := Done; list_ := {| local_output_ := []; local_input_ := [] |} |}
      drained _ eq_refl); [| |constructor]. }
  split; [exact Hs|].
  apply (marking_finishes_all_work 64 (one_task one_pointer NotStarted 0 []) (one_task drained Done 0 [7]));
    [lia | apply one_task_initial | exact Hs | by repeat constructor].
Defined.

Lemma marking_terminates_witness : exists st', drain_steps 64 (one_task one_pointer NotStarted 0 []) st' /\
  Forall (fun t => at_ t = Done) (tasks st') /\ popped_ st' ≡ₚ [7].
Proof.
  destruct (marking_terminates 64 (one_task one_pointer NotStarted 0 []) (one_task one_pointer NotStarted 0 []))
    as (_ & _ & (st' & Hr & Hd & _ & Hp) & _); [lia | apply one_task_initial | apply steps_refl |].
  exists st'. split; [exact Hr|]. split; [exact Hd | exact Hp].
Defined.
