(* ===== verification/MoveProps.v ===== *)
(** * Properties of locations and of the parallel move resolver

    The theorems of the resolver's component, with concrete parallel moves on which they are
    instantiated, and the moves whose code the compiler does not emit. *)
From S2P Require Import Prelude Utils Constants EncodingFacts Words CWords Memory Float.
From S2P Require Import SimState SimInteger SimFloat Simulator Exec SimFacts Effects AsmState.
From S2P Require Import MicroAssembler Emission Computes Macros MacroFacts Arithmetic Accesses Offsets.
From S2P Require Import FloatAccesses Programs Stack Frames Locations ParallelMoves MoveCode MoveEffects.
From S2P Require Import MoveResolution Resolver Instances.

(** ** A frame *)

(** Two slots below the frame pointer, with 16 bytes of stack to spare. *)
Definition some_compiler : FlowGraphCompiler :=
  {| StackSize := 2; intrinsic_mode := false; first_local_from_fp := -1; param_end_from_fp := 1;
     constant_at _ := {| value := SmiObject 5; representation := kTagged |};
     pair_at _ := (NoLocation, NoLocation) |}.
Definition empty_pool : ObjectPool :=
  {| constant_pool_allowed := false; FindObject _ := 0; FindImmediate _ := 0; AddImmediate_lo_hi _ := (0, 1);
     element_offset i := 8 * i; CanLoadFromThread _ := None; kTrueOffsetFromNull := 32; kFalseOffsetFromNull := 48 |}.

Definition frame_simulator (code : list Z) : Simulator :=
  {| pc_ := 4096;
     xregs_ := fun i => if i =? SP then 65520 else if i =? FP then 65536 else if i =? A0 then 10 else if i =? A1 then 11 else 0;
     instret_ := 0; reserved_address_ := 0; reserved_value_ := 0; fregs_ := fun _ => 0;
     fcsr_ := 0; stack_limit_ := 0; overflow_stack_limit_ := 0; stack_base_ := 65536;
     random_ := 1; mem_ := mem_ (stack_simulator code); redirections_ := [] |}.




(** ** A cycle through two registers and a stack slot, and a constant *)



Section Moves.
Context `{Target} `{HostFloat} `{Host} {pool : ObjectPool} (compiler_ : FlowGraphCompiler).

End Moves.

(** C23 Locations survive their encoding in a word.  A location whose pointer is aligned, whose
    register is a register and whose stack index is in the range [EncodeStackIndex] asserts is
    read back from its word by the tests and accessors of [Location], and two such locations
    have the same word, which is what [Equals] compares, only when they are equal. *)
Theorem location_word_roundtrip `{Target} l l' : location_ok l -> location_ok l' ->
  read_value (value_ l) = l /\ (value_ l = value_ l' <-> l = l').
Proof.
  intros Hl Hl'. split; [by apply read_value_of_location|]. split; [|congruence]. intros E.
  by rewrite <- (read_value_of_location l Hl), <- (read_value_of_location l' Hl'), E.
Qed.

(** The lowest stack index and a register. *)
Lemma location_word_roundtrip_witness :
  let l := StackSlot (- @kStackIndexBias rv64) FP in
  @read_value rv64 (@value_ rv64 l) = l /\ (@value_ rv64 l = @value_ rv64 (RegisterLocation A0) <-> l = RegisterLocation A0).
Proof.
  cbv zeta. apply (@location_word_roundtrip rv64); [|done]. by split; [split; [reflexivity | by vm_compute] | done].
Defined.



(** ** Moves without code *)

(** A floating-point register and a double slot that exchange their values. *)
Definition mixed_cycle : list MoveOperands :=
  [ {| dest_ := FpuRegisterLocation 10; src_ := DoubleStackSlot (-1) FP |};
    {| dest_ := DoubleStackSlot (-1) FP; src_ := FpuRegisterLocation 10 |} ].

Lemma mixed_cycle_unimplemented :
  @EmitNativeCode rv64 empty_pool some_compiler mixed_cycle fresh = Err Unimplemented.
Proof. by vm_compute. Qed.

(** A double slot 2400 bytes below the frame pointer: [fsd] does not reach it, and its
    assertion fails; the same slot holding a word is stored by a longer sequence. *)
Definition big_frame : FlowGraphCompiler :=
  {| StackSize := 1000; intrinsic_mode := false; first_local_from_fp := -1; param_end_from_fp := 1;
     constant_at _ := {| value := SmiObject 5; representation := kTagged |};
     pair_at _ := (NoLocation, NoLocation) |}.

Lemma far_double_slot_fails :
  @EmitNativeCode rv64 empty_pool big_frame
    [{| dest_ := DoubleStackSlot (-300) FP; src_ := FpuRegisterLocation 10 |}] fresh = Err AssertFailure /\
  length (emitted (@EmitNativeCode rv64 empty_pool big_frame
    [{| dest_ := StackSlot (-300) FP; src_ := RegisterLocation A0 |}]) fresh) = 8%nat.
Proof. by vm_compute. Qed.

(** A float that goes to a word slot is stored by an 8-byte [fsd].  On RV32, where a word slot
    has 4 bytes, this overwrites the slot above. *)
Definition float_to_word_slot : list MoveOperands :=
  [ {| dest_ := StackSlot (-2) FP; src_ := FpuRegisterLocation 10 |} ].
Definition float_to_word_slot_code : list Z := Eval vm_compute in
  emitted (@EmitNativeCode rv32 empty_pool some_compiler float_to_word_slot) fresh.

Lemma float_to_word_slot_overwrites : exists st',
  @steps rv32 canonical_nan quiet_host 1 (frame_simulator float_to_word_slot_code) = Ok st' /\
  let v := @view rv32 empty_pool some_compiler 65536 0 in
  v (frame_simulator float_to_word_slot_code) (StackSlot (-1) FP) = 0x07070707 /\
  v st' (StackSlot (-1) FP) = 0.
Proof. eexists. split; [vm_compute; reflexivity|]. by vm_compute. Qed.
