(* ===== verification/SafepointProps.v ===== *)
(** * Properties of safepoints

    What an operation at a safepoint may rely on, that the protocol's assertions hold, and that
    it does not deadlock. *)
From S2P Require Import Prelude Constants Words Macros ObjectHeader Safepoint SafepointInvariant SafepointSteps.
From S2P Require Import SafepointOperations SafepointSchedule Instances.

Section Progress.
Context `{Target}.
Implicit Types (g : IsolateGroup) (t x : nat) (l L : SafepointLevel).

(** What can end a wait: a thread that can go on in the protocol, one whose operation is not
    over, or one that is asked to stop and has not come to a safepoint of that level. *)
Definition unblocks g y : Prop :=
  (exists r, proceed y g = Some r) \/ phase_ (threads_ g y) = Operating \/
  exists l, requested g l y = true /\ is_at g l y = false /\ (phase_ (threads_ g y) = Running \/ phase_ (threads_ g y) = Safe).

Lemma guarded_true b r : b = true -> exists r', guarded b r = Some r'.
Proof. intros ->. by eexists. Qed.

(** Whoever holds [threads_lock] can go on, so a thread that needs it waits for one that can. *)
Lemma lock_unblocks g t (f : result IsolateGroup) : Inv g -> (lock_free t g = true -> proceed t g = Some f) -> exists y, unblocks g y.
Proof.
  intros Hinv Hf. destruct (lock_free t g) eqn:E; [exists t; left; eauto|]. unfold lock_free in E.
  destruct (threads_lock_ g) as [y|] eqn:El; [|done]. exists y. left. pose proof El as Hh. apply (inv_lock g Hinv) in Hh. unfold holds in Hh. unfold proceed.
  destruct (phase_ (threads_ g y)) as [| | | | | |l []| | | | |]; try done; try (by eexists).
  apply guarded_true. unfold lock_free. by rewrite El, Nat.eqb_refl.
Qed.

(** A thread that is asked to stop and has not stopped at the level. *)
Lemma unparked_unblocks g l : Inv g -> 0 < unparked g l ->
  (forall x, requested g l x = true -> stopped (phase_ (threads_ g x)) = true -> is_at g l x = false -> exists y, unblocks g y) ->
  exists y, unblocks g y.
Proof.
  intros Hinv Hu Hstop. unfold unparked in Hu. destruct (List.filter _ _) as [|x rest] eqn:E; [done|].
  assert (x ∈ List.filter (fun y => requested g l y && negb (is_at g l y)) (active_list_ g)) as Hx by (rewrite E; left).
  apply list_elem_of_In, filter_In in Hx as [Hx%list_elem_of_In [Hr Hat%negb_true_iff]%andb_true_iff].
  destruct (stopped (phase_ (threads_ g x))) eqn:Es; [by eapply Hstop|]. exists x.
  apply (thread_active _ _ (inv_thread g Hinv x)) in Hx. destruct (phase_ (threads_ g x)) eqn:Ep; try done.
  - right. right. exists l. by rewrite Ep; split_and!; [| |left].
  - left. unfold proceed. rewrite Ep. by eexists.
Qed.

Lemma Asleep_or (w : Waiting) : w = Asleep \/ w <> Asleep.
Proof. destruct w; auto. Qed.

Lemma parking_unblocks g o l : Inv g -> phase_ (threads_ g o) = Parking l ->
  (forall x, requested g l x = true -> stopped (phase_ (threads_ g x)) = true -> is_at g l x = false -> exists y, unblocks g y) ->
  exists y, unblocks g y.
Proof.
  intros Hinv Ep Hstop. destruct (Z.leb_spec (num_threads_not_parked_ (handlers_ g l)) 0) as [Hn|Hn].
  - exists o. left. unfold proceed. rewrite Ep. apply guarded_true. by apply Z.leb_le.
  - rewrite (inv_num g Hinv) in Hn. by apply (unparked_unblocks g l Hinv Hn).
Qed.

(** The owner of the level for collections goes on. *)
Lemma gc_owner_unblocks g o : Inv g -> owner_ (handlers_ g kGC) = Some o -> exists y, unblocks g y.
Proof.
  intros Hinv Ho. apply (inv_own g Hinv) in Ho. unfold owns in Ho. pose proof (thread_phase _ _ (inv_thread g Hinv o)) as Hph. unfold phase_ok in Hph.
  destruct (phase_ (threads_ g o)) as [| | | | | | |L todo|L|L todo w| |L todo] eqn:Ep; try done.
  - exists o. left. unfold proceed. rewrite Ep. by eexists.
  - apply bool_decide_eq_true in Ho as <-. apply (parking_unblocks g o kGC Hinv Ep). intros x _ Hs Hat.
    rewrite (stopped_at g x kGC (inv_thread g Hinv x) Hs) in Hat. by destruct (current_safepoint_level (threads_ g x)).
  - apply bool_decide_eq_true in Ho as <-. destruct Hph as (_ & -> & Hh).
    assert (w = Awake) as ->.
    { destruct w; try done. pose proof (inv_sleep g Hinv o) as Hs. unfold sleeps_well in Hs. rewrite Ep in Hs.
      destruct Hs as (l & Hl & _). by apply elem_of_nil in Hl. }
    eapply (lock_unblocks g o); [done|]. intros Hl. unfold proceed. rewrite Ep, Hl. reflexivity.
  - exists o. right. by left.
  - exists o. left. unfold proceed. rewrite Ep. by eexists.
Qed.

Lemma continuing_unblocks g y L todo : phase_ (threads_ g y) = Continuing L todo -> exists y, unblocks g y.
Proof. intros Ep. exists y. left. unfold proceed. rewrite Ep. by eexists. Qed.

Lemma busy_gc_unblocks g : Inv g -> busy g kGC -> exists y, unblocks g y.
Proof.
  intros Hinv [Ho|(y & L & todo & Hy)]; [|by eapply continuing_unblocks].
  destruct (owner_ (handlers_ g kGC)) as [o|] eqn:E; [by eapply gc_owner_unblocks | done].
Qed.

(** Stopped threads that an operation at the higher level still waits for: those in a runtime
    call without support for deoptimization. *)
Lemma stopped_low_unblocks g x : Inv g -> stopped (phase_ (threads_ g x)) = true -> requested g kGCAndDeopt x = true ->
  is_at g kGCAndDeopt x = false -> exists y, unblocks g y.
Proof.
  intros Hinv Hs Hr Hat. pose proof Hat as Hlow. rewrite (stopped_at g x kGCAndDeopt (inv_thread g Hinv x) Hs) in Hlow.
  assert (current_safepoint_level (threads_ g x) = kGC) as Hc by (by destruct (current_safepoint_level (threads_ g x))).
  pose proof (thread_phase _ _ (inv_thread g Hinv x)) as Hph. unfold phase_ok in Hph. pose proof (inv_sleep g Hinv x) as Hsl. unfold sleeps_well in Hsl.
  assert (forall l, owner_ (handlers_ g l) = Some x -> l = kGC -> exists y, unblocks g y) as Hgc.
  { intros l Ho ->. by eapply gc_owner_unblocks. }
  assert (forall L, phase_ (threads_ g x) = Operating \/ owns (threads_ g x) L = true -> exists y, unblocks g y) as Hown.
  { intros L [Hop|Ho]; [exists x; right; by left|]. apply (inv_own g Hinv) in Ho. destruct L; [by eapply gc_owner_unblocks|].
    destruct (requested_owner g kGCAndDeopt x Hinv Hr) as (o & Eo & Hne & _). congruence. }
  destruct (phase_ (threads_ g x)) as [| | | | |w|l w|L todo|L|L todo w| |L todo] eqn:Ep; try done.
  - exists x. right. right. exists kGCAndDeopt. split_and!; [done | done | by right].
  - destruct (Asleep_or w) as [->|Hw].
    + destruct Hph as [_ Hq]. specialize (Hq eq_refl). unfold IsSafepointRequested in Hq. rewrite Hc in Hq. cbn in Hq. rewrite orb_false_r in Hq.
      destruct (requested_owner g kGC x Hinv Hq) as (o & Eo & _). by eapply gc_owner_unblocks.
    + exists x. left. unfold proceed. rewrite Ep. destruct w; [by eexists | done | by eexists].
  - destruct (Asleep_or w) as [->|Hw].
    + destruct l; [by apply busy_gc_unblocks|]. destruct Hph as [_ Hle]. by rewrite Hc in Hle.
    + eapply (lock_unblocks g x); [done|]. intros Hl. unfold proceed. rewrite Ep, Hl. destruct w; [reflexivity | done | reflexivity].
  - apply (Hown L). right. unfold owns. rewrite Ep. by apply bool_decide_eq_true.
  - apply (Hown L). right. unfold owns. rewrite Ep. by apply bool_decide_eq_true.
  - apply (Hown L). right. unfold owns. rewrite Ep. by apply bool_decide_eq_true.
  - apply (Hown kGC). by left.
  - by eapply continuing_unblocks.
Qed.

Lemma owner_unblocks g l o : Inv g -> owner_ (handlers_ g l) = Some o -> exists y, unblocks g y.
Proof.
  intros Hinv Ho. destruct l; [by eapply gc_owner_unblocks|]. apply (inv_own g Hinv) in Ho. unfold owns in Ho.
  pose proof (thread_phase _ _ (inv_thread g Hinv o)) as Hph. unfold phase_ok in Hph.
  pose proof (inv_sleep g Hinv o) as Hsl. unfold sleeps_well in Hsl.
  destruct (phase_ (threads_ g o)) as [| | | | | | |L todo|L|L todo w| |L todo] eqn:Ep; try done.
  - exists o. left. unfold proceed. rewrite Ep. by eexists.
  - apply bool_decide_eq_true in Ho as <-. apply (parking_unblocks g o kGCAndDeopt Hinv Ep). intros x Hr Hs Hat.
    by apply (stopped_low_unblocks g x).
  - apply bool_decide_eq_true in Ho as <-. destruct Hph as (_ & -> & Hh). destruct (Asleep_or w) as [->|Hw].
    + destruct Hsl as (l & Hl & Hb). apply list_elem_of_singleton in Hl as ->. by apply busy_gc_unblocks.
    + eapply (lock_unblocks g o); [done|]. intros Hl. unfold proceed. rewrite Ep, Hl. destruct w; [done | done | reflexivity].
  - exists o. right. by left.
  - by eapply continuing_unblocks.
Qed.

Lemma busy_unblocks g l : Inv g -> busy g l -> exists y, unblocks g y.
Proof.
  intros Hinv [Ho|(y & L & todo & Hy)]; [|by eapply continuing_unblocks].
  destruct (owner_ (handlers_ g l)) as [o|] eqn:E; [by eapply owner_unblocks | done].
Qed.

(** A thread inside the protocol: it waits, or has the next step to take. *)
Definition in_protocol (p : Phase) : bool :=
  match p with Unscheduled | Running | Safe | Operating => false | _ => true end.

Lemma in_protocol_unblocks g x : Inv g -> in_protocol (phase_ (threads_ g x)) = true -> exists y, unblocks g y.
Proof.
  intros Hinv Hp. pose proof (inv_sleep g Hinv x) as Hsl. unfold sleeps_well in Hsl.
  pose proof (thread_phase _ _ (inv_thread g Hinv x)) as Hph. unfold phase_ok in Hph.
  assert (forall l, owns (threads_ g x) l = true -> exists y, unblocks g y) as Hown.
  { intros l Ho. apply (inv_own g Hinv) in Ho. by eapply owner_unblocks. }
  destruct (phase_ (threads_ g x)) as [|b w| | | |w|l w|L todo|L|L todo w| |L todo] eqn:Ep; try done.
  - destruct (Asleep_or w) as [->|Hw]; [destruct Hsl as [_ [Hb|Hb]]; by eapply busy_unblocks|].
    eapply (lock_unblocks g x); [done|]. intros Hl. unfold proceed. rewrite Ep, Hl. destruct w; [reflexivity | done | reflexivity].
  - exists x. left. unfold proceed. rewrite Ep. by eexists.
  - destruct (Asleep_or w) as [->|Hw].
    + destruct Hph as [_ Hq]. apply existsb_exists in Hq as (l & _ & Hq); [|done].
      destruct (requested_owner g l x Hinv Hq) as (o & Eo & _). by eapply owner_unblocks.
    + exists x. left. unfold proceed. rewrite Ep. destruct w; [by eexists | done | by eexists].
  - destruct (Asleep_or w) as [->|Hw]; [by eapply busy_unblocks|].
    eapply (lock_unblocks g x); [done|]. intros Hl. unfold proceed. rewrite Ep, Hl. destruct w; [reflexivity | done | reflexivity].
  - apply (Hown L). unfold owns. rewrite Ep. by apply bool_decide_eq_true.
  - apply (Hown L). unfold owns. rewrite Ep. by apply bool_decide_eq_true.
  - apply (Hown L). unfold owns. rewrite Ep. by apply bool_decide_eq_true.
  - by eapply continuing_unblocks.
Qed.
End Progress.


Section Properties.
Context `{Target}.
Implicit Types (g : IsolateGroup) (t x : nat) (l L : SafepointLevel).

(** A thread an operation wants to stop, and whose level it has settled, is stopped there. *)
Lemma settled_stopped g t l x : Inv g -> settled (threads_ g t) l = true -> requested g l x = true ->
  is_at g l x = true /\ stopped (phase_ (threads_ g x)) = true.
Proof.
  intros Hinv Hset Hr. pose proof (inv_settled g Hinv l t Hset) as Hu.
  pose proof Hr as (Hact & _)%(inv_req g Hinv).
  assert (is_at g l x = true) as Hat.
  { destruct (is_at g l x) eqn:E; [done|]. exfalso. unfold unparked in Hu.
    assert (In x (List.filter (fun y => requested g l y && negb (is_at g l y)) (active_list_ g))) as Hin.
    { apply filter_In. split; [by apply list_elem_of_In|]. by rewrite Hr, E. }
    destruct (List.filter _ _); [done | cbn in Hu; lia]. }
  split; [done|]. destruct (stopped (phase_ (threads_ g x))) eqn:Es; [done|]. exfalso.
  rewrite (not_stopped_at g x l (inv_thread g Hinv x)) in Hat; [done | | done].
  by apply (thread_active _ _ (inv_thread g Hinv x)).
Qed.

(** C5 While the body of a thread's safepoint operation runs, the outermost one being at level
    [L], every other scheduled thread of the isolate group that does not bypass safepoints is
    requested to stop and is stopped at a safepoint of level [L], in a native, blocked or
    parked state of the protocol and not in Dart or VM code; the thread owns all levels up to
    [L]; and no other thread is in the body of an operation, at whatever level. *)
Theorem safepoint_operation_exclusive g t L : reachable g -> phase_ (threads_ g t) = Operating ->
  outermost (scopes_ (threads_ g t)) = Some L ->
  (forall x, x ∈ active_list_ g -> x <> t -> BypassSafepoints (threads_ g x) = false ->
     IsSafepointLevelRequested (safepoint_state_ (threads_ g x)) L = true /\
     IsAtSafepoint (threads_ g x) L = true /\ stopped (phase_ (threads_ g x)) = true) /\
  (forall l, level_le l L = true -> owner_ (handlers_ g l) = Some t) /\
  forall x, phase_ (threads_ g x) = Operating -> x = t.
Proof.
  intros Hinv%reachable_inv Hp HL. split_and!.
  - intros x Hx Hne Hb. assert (requested g L x = true) as Hr.
    { apply (inv_req g Hinv). split_and!; [done | done|]. exists t. split; [done|]. unfold wants. rewrite Hp. by apply bool_decide_eq_true. }
    destruct (settled_stopped g t L x Hinv) as [Hat Hs]; [|done|by split_and!].
    unfold settled. rewrite Hp. by apply bool_decide_eq_true.
  - intros l Hl. apply (inv_own g Hinv). unfold owns. by rewrite Hp, HL.
  - intros x Hx. assert (forall y, phase_ (threads_ g y) = Operating -> owner_ (handlers_ g kGC) = Some y) as Hown.
    { intros y Hy. apply (inv_own g Hinv). unfold owns. rewrite Hy. pose proof (thread_phase _ _ (inv_thread g Hinv y)) as Hph.
      unfold phase_ok in Hph. rewrite Hy in Hph. destruct Hph as (_ & nested & L' & -> & _). rewrite outermost_app. by destruct L'. }
    apply Hown in Hx, Hp. congruence.
Qed.

(** C22 No assertion of the safepoint code fails: from every state of an isolate group that can
    be reached, whatever thread takes a step, one its callers may ask for or one inside the
    protocol, and whatever the others are doing, the step succeeds. *)
Theorem safepoint_assertions_hold g t a r : reachable g -> allowed t a g = true -> exec t a g = Some r ->
  exists g', r = Ok g' /\ reachable g'.
Proof.
  intros Hr Ha Hx. destruct (exec_step g t a r (reachable_inv g Hr) Ha Hx) as (g' & -> & _). exists g'. split; [done|].
  by eapply reachable_step.
Qed.

(** C6 The protocol does not deadlock: when some thread is inside it, waiting for a safepoint
    to end, for a level, for a lock, for the threads to park or to be scheduled, then some
    thread can take the next step of the protocol, or is in the body of an operation, or was
    asked to stop at a level, has not, and is at liberty to do so (it runs, or is in native code
    within a runtime call that cannot deoptimize). *)
Theorem safepoint_no_deadlock g x : reachable g -> in_protocol (phase_ (threads_ g x)) = true ->
  exists y, (exists r, proceed y g = Some r) \/ phase_ (threads_ g y) = Operating \/
    exists l, IsSafepointLevelRequested (safepoint_state_ (threads_ g y)) l = true /\ IsAtSafepoint (threads_ g y) l = false /\
      (phase_ (threads_ g y) = Running \/ phase_ (threads_ g y) = Safe).
Proof. intros Hinv%reachable_inv Hp. exact (in_protocol_unblocks g x Hinv Hp). Qed.

(** ** A run *)

Fixpoint run (steps : list (nat * action)) (g : IsolateGroup) : option IsolateGroup :=
  match steps with
  | [] => Some g
  | (t, a) :: steps =>
      if allowed t a g then match exec t a g with Some (Ok g) => run steps g | _ => None end else None
  end.

Lemma run_reachable steps g g' : reachable g -> run steps g = Some g' -> reachable g'.
Proof.
  revert g. induction steps as [|[t a] steps IH]; intros g Hg; cbn; [by intros [= ->]|].
  destruct (allowed t a g) eqn:Ea; [|done]. destruct (exec t a g) as [[g1|]|] eqn:Ex; try done.
  intros Hr. by eapply IH; [eapply reachable_step|].
Qed.

Definition new_group : IsolateGroup :=
  let T := {| safepoint_state_ := 0; execution_state_ := kThreadInNative; runtime_call_deopt_ability_ := kCanLazyDeopt;
              no_safepoint_scope_depth_ := 0; phase_ := Unscheduled; returns_to_ := kThreadInVM; scopes_ := [] |} in
  {| threads_ := fun _ => T; active_list_ := [];
     handlers_ := fun _ => {| owner_ := None; operation_count_ := 0; num_threads_not_parked_ := 0 |}; threads_lock_ := None |}.
Definition after (steps : list (nat * action)) : IsolateGroup := default new_group (run steps new_group).

Lemma after_reachable steps : reachable (after steps).
Proof.
  assert (reachable new_group) as Hn by by apply reachable_initial. unfold after. destruct (run steps new_group) eqn:E; [|done].
  by eapply run_reachable.
Qed.
End Properties.

#[local] Existing Instance rv64.

(** Thread 1 goes to native code, thread 2 runs Dart code, and thread 0 begins an operation;
    thread 2 is requested to stop, and finds out when it returns to the runtime. *)
Definition requesting_run : list (nat * action) :=
  [(0%nat, Schedule false); (1%nat, Schedule false); (2%nat, Schedule false); (1%nat, Transit VMToNative);
   (2%nat, Transit VMToGenerated); (0%nat, BeginOperation kGCAndDeopt); (0%nat, Proceed); (0%nat, Proceed);
   (0%nat, Proceed); (0%nat, Proceed); (0%nat, Proceed)].
Definition operating_run : list (nat * action) :=
  requesting_run ++ [(2%nat, Transit GeneratedToVM); (2%nat, Proceed); (0%nat, Proceed); (0%nat, Proceed)].

Lemma safepoint_operation_exclusive_witness :
  phase_ (threads_ (after operating_run) 0%nat) = Operating /\ active_list_ (after operating_run) = [2; 1; 0]%nat /\
  IsAtSafepoint (threads_ (after operating_run) 2%nat) kGCAndDeopt = true /\
  IsAtSafepoint (threads_ (after operating_run) 1%nat) kGCAndDeopt = true.
Proof.
  destruct (safepoint_operation_exclusive (after operating_run) 0%nat kGCAndDeopt (after_reachable _)) as (Hs & _); [by vm_compute..|].
  split; [by vm_compute|]. split; [by vm_compute|].
  split; (apply Hs; [| done | by vm_compute]); apply list_elem_of_In; by vm_compute; auto.
Defined.

Lemma safepoint_assertions_hold_witness :
  phase_ (threads_ (after requesting_run) 2%nat) = Running /\ execution_state_ (threads_ (after requesting_run) 2%nat) = kThreadInGenerated /\
  exists g', exec 2%nat (Transit GeneratedToVM) (after requesting_run) = Some (Ok g') /\ reachable g'.
Proof.
  split; [by vm_compute|]. split; [by vm_compute|].
  assert (exists r, exec 2%nat (Transit GeneratedToVM) (after requesting_run) = Some r) as [r Hr].
  { unfold exec. replace (phase_ (threads_ (after requesting_run) 2%nat)) with Running by by vm_compute. by eexists. }
  destruct (safepoint_assertions_hold (after requesting_run) 2%nat (Transit GeneratedToVM) r (after_reachable _)) as (g' & -> & Hg);
    [by vm_compute | done |]. by exists g'.
Defined.

Lemma safepoint_no_deadlock_witness :
  phase_ (threads_ (after requesting_run) 0%nat) = Parking kGCAndDeopt /\
  exists y, (exists r, proceed y (after requesting_run) = Some r) \/ phase_ (threads_ (after requesting_run) y) = Operating \/
    exists l, IsSafepointLevelRequested (safepoint_state_ (threads_ (after requesting_run) y)) l = true /\
      IsAtSafepoint (threads_ (after requesting_run) y) l = false /\
      (phase_ (threads_ (after requesting_run) y) = Running \/ phase_ (threads_ (after requesting_run) y) = Safe).
Proof.
  split; [by vm_compute|]. by apply (safepoint_no_deadlock (after requesting_run) 0%nat (after_reachable _)); vm_compute.
Defined.
