(* ===== verification/FreeListProps.v ===== *)
(** * Properties of the free list and of the sweeper

    The theorems of the component, with a small page on which they are instantiated. *)
From S2P Require Import Prelude Utils Constants Words Exec Macros ObjectHeader WriteBarrier BitSet FreeList FreeListInvariant FreeListSteps FreeListAllocation.
From S2P Require Import FreeListSearch FreeListRequests FreeListClient Sweeper SweeperProofs Instances.

(** ** A page of eight words *)

Definition small_pages : Pages := {| PageSize := 4096 |}.

Lemma small_pages_ok : @page_size_ok rv64 small_pages.
Proof. exists 12. by vm_compute. Qed.

Definition base : Z := 524352.
Definition no_lists : list (list block) := replicate 129 [].
Definition empty_list : FreeList :=
  {| top_ := 0; end_ := 0; unaccounted_size_ := 0; free_map_ := @BitSet_Reset rv64 kNumLists; free_lists_ := replicate 129 0;
     freelist_search_budget_ := kInitialFreeListSearchBudget; last_free_small_size_ := -1 |}.
Definition space_of (l : list Z) : Space :=
  {| freelist_ := empty_list; words_ := list_to_map (imap (fun i v => (base + 8 * Z.of_nat i, v)) l); writable_ _ := true |}.

Lemma space_inv l : @Inv rv64 (space_of l) no_lists.
Proof.
  destruct (@Reset_spec rv64 (space_of l) eq_refl) as (s' & E & _ & _ & Hi & _). injection E as <-. exact Hi.
Qed.
Lemma space_free l : regions (freelist_ (space_of l)) no_lists = [].
Proof. by vm_compute. Qed.

Lemma base_words x : within (base, 64) x = true -> x mod 8 = 0 -> exists i, (i < 8)%nat /\ x = base + 8 * Z.of_nat i.
Proof.
  rewrite within_range. cbn [fst snd]. intros Hx Hm. pose proof (Z.div_mod x 8 ltac:(done)) as E. rewrite Hm, Z.add_0_r in E. unfold base in *.
  exists (Z.to_nat (x / 8 - 65544)). lia.
Qed.

Lemma space_mapped l b : length l = 8%nat -> base <= fst b -> fst b + snd b <= base + 64 -> @mapped rv64 (words_ (space_of l)) b.
Proof.
  intros Hl H1 H2 x Hx Hm. destruct (base_words x) as (i & Hi & ->); [rewrite within_range in *; cbn; lia | done|].
  destruct l as [|v0 [|v1 [|v2 [|v3 [|v4 [|v5 [|v6 [|v7 [|]]]]]]]]]; try done.
  do 8 (destruct i as [|i]; [by eexists|]). lia.
Qed.

(** ** Allocation *)

(** C11 [TryAllocateLocked] refines the allocation of a block from a set of free bytes: it always
    returns, keeps the lists, their map and the largest small size in order, and either hands
    out an aligned block of the size asked for that was free and no longer is, or returns 0,
    which it does only when no small block is large enough.  Only words that stay free change.
    On a protected list the pages of the block become writable and no other page does; on a list
    that is not protected no page changes. *)
Theorem try_allocate_correct `{Target} {pages : Pages} s L size is_protected : page_size_ok -> Inv s L -> size_ok size ->
  (is_protected = false -> free_writable s L) ->
  exists r s' L', TryAllocateLocked size is_protected s = Ok (r, s') /\ Inv s' L' /\
    (if r =? 0 then no_small_fits L size /\ forall x, cover (regions (freelist_ s') L') x = cover (regions (freelist_ s) L) x
     else block_ok (r, size) /\ mapped (words_ s') (r, size) /\
       forall x, cover (regions (freelist_ s) L) x = cover (regions (freelist_ s') L') x + Z.b2z (within (r, size) x)) /\
    changes (fun x => 0 < cover (regions (freelist_ s') L') x) (words_ s) (words_ s') /\
    (if is_protected then
       (r <> 0 -> forall x, within (r, size) x = true -> writable_ s' (x / PageSize) = true) /\
       (forall p, writable_ s' p = true -> writable_ s p = true \/ exists x, r <> 0 /\ within (r, size) x = true /\ p = x / PageSize)
     else forall p, writable_ s' p = writable_ s p).
Proof.
  intros Hp Hi Hs Hf. destruct (TryAllocateLocked_spec Hp s L size is_protected Hi Hs Hf) as (r & s' & L' & E & [A1 A2 A3 A4 A5 A6 A7 A8] & Hn).
  exists r, s', L'. split_and!; try done.
  - destruct (Z.eqb_spec r 0); [split; auto | auto].
  - destruct is_protected; auto.
Qed.

(** A page with one free block. *)
Definition zero_page : Space := space_of (replicate 8 0).
Definition freed_page : Space := match @FreeLocked rv64 small_pages base 64 zero_page with Ok (_, s) => s | Err _ => zero_page end.

Lemma base_ok n : n = 16 \/ n = 32 \/ n = 64 -> @block_ok rv64 (base, n).
Proof. intros [-> |[-> | ->]]; by split; vm_compute. Qed.

Lemma freed_page_inv : exists L, @Inv rv64 freed_page L /\ @free_writable small_pages freed_page L.
Proof.
  destruct (@FreeLocked_spec rv64 small_pages zero_page no_lists (base, 64) (space_inv _) (base_ok 64 ltac:(lia))) as (s & L & E & Ha).
  - by apply space_mapped.
  - intros x. unfold zero_page. rewrite space_free. cbn [cover]. destruct (within _ x); cbn [Z.b2z]; lia.
  - by intros x _.
  - exists L. assert (freed_page = s) as -> by (unfold freed_page; cbn [fst snd] in E; by rewrite E). split; [apply Ha|].
    intros x _. by rewrite (added_writable _ _ _ _ _ Ha).
Qed.

(** The block is split: the first half is handed out. *)
Lemma try_allocate_correct_witness : exists r s', @TryAllocateLocked rv64 small_pages 32 true freed_page = Ok (r, s') /\ r = base /\ writable_ s' (base / 4096) = true.
Proof.
  destruct freed_page_inv as (L & Hi & Hf).
  destruct (@try_allocate_correct rv64 small_pages freed_page L 32 true) as (r & s' & L' & E & _ & _ & _ & Hw & _).
  - exact small_pages_ok.
  - exact Hi.
  - by split; vm_compute.
  - by intros _.
  - exists r, s'. assert (r = base) as ->.
    { assert (match @TryAllocateLocked rv64 small_pages 32 true freed_page with Ok (r, _) => r | Err _ => 0 end = base) as Eb by by vm_compute.
      by rewrite E in Eb. }
    split; [exact E|]. split; [done|]. by apply (Hw ltac:(done) base).
Defined.

(** ** Clients *)

(** C7 Whatever a client of the free list does (allocate, promote, free, give up or iterate the
    bump region, write to its blocks, in any order), its next request returns: no assertion
    fails, no word outside of memory and no page without permission is accessed.  Its blocks
    never overlap each other or the free space, a request leaves the words of the blocks the
    client keeps alone, and no byte of memory is lost: bytes that were free or owned stay so. *)
Theorem free_list_client_safe `{Target} {pages : Pages} data_locked fresh_page s0 L0 B0 s B : page_size_ok ->
  (forall size, size_ok size -> allocator size (data_locked size)) -> (forall size, size_ok size -> allocator size (fresh_page size)) ->
  owned s0 L0 B0 -> rtc (client data_locked fresh_page) (s0, B0) (s, B) ->
  exists L, owned s L B /\
    (forall x, is_Some (words_ s0 !! word_of x) -> cover (B ++ regions (freelist_ s) L) x = cover (B0 ++ regions (freelist_ s0) L0) x) /\
    forall q, valid s B q -> exists B' s', run data_locked fresh_page q B s = Ok (B', s') /\
      forall b x, b ∈ B -> b ∈ B' -> within b x = true -> x mod kWordSize = 0 -> (forall v, q <> Write x v) -> words_ s' !! x = words_ s !! x.
Proof.
  intros Hp Hd Hf Ho Hst. destruct (client_reaches Hp data_locked fresh_page Hd Hf s0 L0 B0 s B Ho Hst) as (L & HL & Hc). exists L. split_and!.
  - done.
  - intros x Hx. apply (Hc x Hx).
  - intros q Hq. destruct (valid_request Hp data_locked fresh_page Hd Hf q s L B HL Hq) as (B' & s' & L' & E & _ & _ & Hfr). by exists B', s'.
Qed.

(** Large requests go to the lists, and there are no new pages. *)
Definition from_lists (size : Z) : heap Z := @TryAllocateLocked rv64 small_pages size false.
Definition no_pages (_ : Z) : heap Z := mret 0.

Lemma no_pages_allocator size : @allocator rv64 small_pages size (no_pages size).
Proof. intros s L Hr. exists 0, s, L, nothing. split; [done | by apply serves_none]. Qed.

(** The client owns the page, frees it, and asks for two blocks. *)
Definition history : list request := [Free 0; Allocate 32; Promote 16].
Definition after (l : list request) : list block * Space :=
  fold_left (fun '(B, s) q => match @run rv64 small_pages from_lists no_pages q B s with Ok (B', s') => (B', s') | Err _ => (B, s) end) l
    ([(base, 64)], zero_page).

Lemma history_steps : rtc (@client rv64 small_pages from_lists no_pages) (zero_page, [(base, 64)]) ((after history).2, (after history).1).
Proof.
  assert (forall n q, history !! n = Some q -> @client rv64 small_pages from_lists no_pages ((after (take n history)).2, (after (take n history)).1)
    ((after (take (S n) history)).2, (after (take (S n) history)).1)) as Hn.
  { intros n q Hq. apply client_step with q; destruct n as [|[|[|n]]]; try done; injection Hq as <-; by vm_compute. }
  apply (rtc_l _ _ ((after (take 1 history)).2, (after (take 1 history)).1)); [exact (Hn 0%nat _ eq_refl)|].
  apply (rtc_l _ _ ((after (take 2 history)).2, (after (take 2 history)).1)); [exact (Hn 1%nat _ eq_refl)|].
  apply rtc_once. exact (Hn 2%nat _ eq_refl).
Qed.

Lemma free_list_client_safe_witness :
  (after history).1 = [(base + 32, 16); (base, 32)] /\ @owned rv64 small_pages zero_page no_lists [(base, 64)] /\
  exists L, @owned rv64 small_pages (after history).2 L (after history).1.
Proof.
  assert (@owned rv64 small_pages zero_page no_lists [(base, 64)]) as Ho.
  { split.
    - split; [apply space_inv | by split_and!; vm_compute | by intros x _].
    - intros x. unfold zero_page. rewrite space_free. cbn [app cover]. destruct (within _ x); cbn [Z.b2z]; lia.
    - intros b ->%list_elem_of_singleton. split_and!; [by apply base_ok; lia | by apply space_mapped | done]. }
  split; [by vm_compute|]. split; [done|].
  destruct (@free_list_client_safe rv64 small_pages from_lists no_pages zero_page no_lists [(base, 64)] (after history).2 (after history).1) as (L & HL & _).
  - exact small_pages_ok.
  - intros size Hs. by apply (TryAllocateLocked_allocator small_pages_ok).
  - intros size _. apply no_pages_allocator.
  - done.
  - apply history_steps.
  - by exists L.
Defined.

(** ** Sweeping *)

(** C8 Sweeping a page always ends, adds to the free list exactly the bytes of the unmarked
    objects (nothing when no object is marked: the page is then free as a whole), and keeps the
    free list in order.  The marked objects keep their words and lose their marks, no word
    outside of the page changes, and the result is the number of bytes in use and whether there
    are any. *)
Theorem sweep_page_correct `{Target} {pages : Pages} HeapSizeFromClass page s L l : local_sizes HeapSizeFromClass ->
  sweepable HeapSizeFromClass page s L (object_start page) l ->
  exists s' L', SweepPage HeapSizeFromClass page s = Ok (live_bytes l, negb (all_dead l), s') /\ Inv s' L' /\
    (forall x, cover (regions (freelist_ s') L') x =
       cover (regions (freelist_ s) L) x + (if all_dead l then 0 else cover (dead (object_start page) l) x)) /\
    live_kept (words_ s) (words_ s') (object_start page) l /\
    (forall x, within (object_start page, span l) x = false -> words_ s' !! x = words_ s !! x) /\ writable_ s' = writable_ s.
Proof.
  intros Hl Hsw. destruct (SweepPage_spec HeapSizeFromClass Hl page s L l Hsw) as (s' & L' & E & [A1 A2 A3 A4 A5 A6]). exists s', L'. split_and!; try done.
  intros x Hx. apply (changes_other _ _ _ A5). by rewrite Hx.
Qed.

(** Sweeping a large page returns the number of words of its object when it is marked, and 0
    when it is not; it clears the mark and changes nothing else but the fillers behind the
    object, and the free list not at all. *)
Theorem sweep_large_page_correct `{Target} {pages : Pages} HeapSizeFromClass page s o l : local_sizes HeapSizeFromClass -> sizes_by_class HeapSizeFromClass ->
  large_page HeapSizeFromClass page s o l ->
  exists s', SweepLargePage HeapSizeFromClass page s = Ok (if marked o then o_size o / kWordSize else 0, s') /\
    words_ s' !! object_start page = Some (if marked o then UpdateBool OldAndNotMarkedBit true (o_tags o) else o_tags o) /\
    (forall x, x <> object_start page -> within (object_start page + o_size o, span l) x = false -> words_ s' !! x = words_ s !! x) /\
    freelist_ s' = freelist_ s /\ writable_ s' = writable_ s.
Proof.
  intros Hl Hc Hp. destruct (SweepLargePage_spec HeapSizeFromClass Hl page Hc s o l Hp) as (s' & E & Ht & C & Hf & Hw). exists s'. split_and!; try done.
  intros x Hx Hn. apply (changes_other _ _ _ C). rewrite Hn. by intros [?|?].
Qed.

(** Headers of objects of 16 and 32 bytes. *)
Definition header16 (mark : bool) : Z := (if mark then 0 else 2) + 1 * 256.
Definition header32 (mark : bool) : Z := (if mark then 0 else 2) + 2 * 256.
Definition small_page : OldPage := {| page_address := 524288; object_start := base; object_end := base + 64; is_executable := false; is_image_page := false |}.

(** A marked object and two that are not. *)
Definition three_objects : list object :=
  [{| o_size := 32; o_tags := header32 true |}; {| o_size := 16; o_tags := header16 false |}; {| o_size := 16; o_tags := header16 false |}].
Definition marked_page : Space := space_of [header32 true; 1; 2; 3; header16 false; 4; header16 false; 5].
Definition sizes (_ : gmap Z Z) (_ _ : Z) : Z := 32.

Lemma page_of x : within (base, 64) x = true -> x .& kOldPageMask = 524288.
Proof.
  intros Hx%within_range. cbn [fst snd] in Hx. unfold base, kOldPageMask, kOldPageSize in *. rewrite <- Z.ldiff_land. change (512 * 1024 - 1) with (Z.ones 19).
  rewrite Z.ldiff_ones_r, Z.shiftr_div_pow2, Z.shiftl_mul_pow2 by done. assert (x / 2 ^ 19 = 1) as ->; [|done]. symmetry. apply Z.div_unique_pos with (x - 524288); lia.
Qed.

Lemma three_objects_sweepable : @sweepable rv64 small_pages sizes small_page marked_page no_lists base three_objects.
Proof.
  assert (forall a n, base <= a -> a + n <= base + 64 -> @mapped rv64 (words_ marked_page) (a, n)) as Hm by (intros a n ? ?; by apply space_mapped).
  split.
  - apply space_inv.
  - repeat (split; [by vm_compute|]; split; [by split; vm_compute|]; split; [apply Hm; by vm_compute|]; split; [by left; vm_compute|]). done.
  - intros x. unfold marked_page. rewrite space_free. cbn [app cover]. destruct (within _ x); cbn [Z.b2z]; lia.
  - done.
  - intros x Hx. by apply page_of.
  - done.
  - by vm_compute.
  - done.
Qed.

Lemma sweep_page_correct_witness : exists s' L', @SweepPage rv64 small_pages sizes small_page marked_page = Ok (32, true, s') /\ @Inv rv64 s' L' /\
  (forall x, cover (regions (freelist_ s') L') x = cover (@dead rv64 base three_objects) x) /\ words_ s' !! base = Some (header32 false).
Proof.
  destruct (@sweep_page_correct rv64 small_pages sizes small_page marked_page no_lists three_objects) as (s' & L' & E & Hi & Hc & Hl & _).
  - by intros w w' a tags n Hs _.
  - exact three_objects_sweepable.
  - exists s', L'. split_and!; [exact E | exact Hi | |].
    + intros x. rewrite Hc. unfold marked_page. rewrite space_free. done.
    + destruct (Hl (base, 32) (header32 true)) as [Hv _]; [left | by vm_compute | exact Hv].
Defined.

(** A marked object and a filler. *)
Definition large_space : Space := space_of [header32 true; 1; 2; 3; header32 false; 4; 5; 6].

Lemma sweep_large_page_correct_witness : exists s', @SweepLargePage rv64 small_pages sizes small_page large_space = Ok (4, s') /\
  words_ s' !! base = Some (header32 false) /\ words_ s' !! (base + 8) = Some 1.
Proof.
  destruct (@sweep_large_page_correct rv64 small_pages sizes small_page large_space {| o_size := 32; o_tags := header32 true |} [{| o_size := 32; o_tags := header32 false |}])
    as (s' & E & Ht & Hw & _).
  - by intros w w' a tags n Hs _.
  - done.
  - assert (forall a n, base <= a -> a + n <= base + 64 -> @mapped rv64 (words_ large_space) (a, n)) as Hm by (intros a n ? ?; by apply space_mapped).
    split.
    + repeat (split; [by vm_compute|]; split; [by split; vm_compute|]; split; [apply Hm; by vm_compute|]; split; [by left; vm_compute|]). done.
    + by vm_compute.
    + by vm_compute.
    + by apply Forall_singleton.
    + done.
    + by apply page_of.
    + done.
    + done.
  - exists s'. split; [exact E|]. split; [exact Ht|]. rewrite Hw by done. by vm_compute.
Defined.
