(* ===== verification/DataStreamProps.v ===== *)
(** * Properties of the data streams

    What is written can be read back, and the unrolled readers agree with the loop. *)
From S2P Require Import Prelude Utils Constants Memory DataStream DataStreamReading DataStreamWriting Instances.

(** ** Items *)

(** How a number is written and read. *)
Inductive format :=
| FByte
| FInt (T : ctype)
| FUnsigned (T : ctype)
| FRaw (T : ctype)
| FLEB128 (T : ctype)
| FSLEB128 (T : ctype)
| FWord.

Inductive item :=
| Number (f : format) (v : Z)
| Bytes (bs : list Z)
| Padding (alignment : Z).

(** A value of the type [T]. *)
Definition is_value (T : ctype) (v : Z) : Prop := width (bits_of T) /\ cast T v = v.

Section Items.
Context `{Target} {A : Allocator}.

Definition number_ok (f : format) (v : Z) : Prop :=
  match f with
  | FByte => 0 <= v < 256
  | FInt T => is_value T v /\ is_signed T = true
  | FUnsigned T | FLEB128 T => is_value T v /\ 0 <= v
  | FRaw T | FSLEB128 T => is_value T v
  | FWord => 0 <= v < 2 ^ XLEN
  end.
Definition item_ok (i : item) : Prop :=
  match i with Number f v => number_ok f v | Bytes _ => True | Padding a => exists k, 0 <= k /\ a = 2 ^ k end.

Definition write_number (f : format) (v : Z) : writer unit :=
  match f with
  | FByte => WriteByte v
  | FInt _ => Write v
  | FUnsigned _ => WriteUnsigned v
  | FRaw T => RawWrite T v
  | FLEB128 T => WriteLEB128 T v
  | FSLEB128 T => WriteSLEB128 T v
  | FWord => WriteWordWith32BitWrites v
  end.
Definition read_number (f : format) : reader Z :=
  match f with
  | FByte => ReadByte
  | FInt T => Read T
  | FUnsigned T => ReadUnsigned T
  | FRaw T => RawRead T
  | FLEB128 T => ReadLEB128 T
  | FSLEB128 T => ReadSLEB128 T
  | FWord => ReadWordWith32BitReads
  end.

Definition write_item (i : item) : writer unit :=
  match i with Number f v => write_number f v | Bytes bs => WriteBytes bs | Padding a => _ ← Align a; mret tt end.

(** The item read where one like [i] is expected: its format, its length, its alignment. *)
Definition read_item (i : item) : reader item :=
  match i with
  | Number f _ => v ← read_number f; mret (Number f v)
  | Bytes bs => bs ← ReadBytes (Z.of_nat (length bs)); mret (Bytes bs)
  | Padding a => _ ← ReadStream_Align a; mret (Padding a)
  end.

Fixpoint write_items (l : list item) : writer unit :=
  match l with [] => mret tt | i :: l => _ ← write_item i; write_items l end.
Fixpoint read_items (l : list item) : reader (list item) :=
  match l with [] => mret [] | i :: l => i ← read_item i; l ← read_items l; mret (i :: l) end.
End Items.

Section Roundtrip.
Context `{Target} {A : Allocator} {laws : AllocatorLaws A}.

(** What is appended is what is read. *)
Definition number_roundtrip (w : writer unit) (r : reader Z) (v : Z) : Prop :=
  exists bs, (forall s, stream_wf s -> appends s w tt bs) /\ forall p, reads p r bs v.

Lemma value_range T v : is_value T v -> in_range (bits_of T) (is_signed T) v /\ 0 < bits_of T.
Proof.
  intros [Hn E]. assert (0 < bits_of T) as Hpos by (unfold width in Hn; lia). split; [|done]. rewrite <- E. unfold cast, in_range.
  destruct (is_signed T); [by apply swrap_bound | by apply uwrap_bound].
Qed.
Lemma value_nonneg T v : is_value T v -> 0 <= v -> in_range (bits_of T) false v.
Proof.
  intros Hv Hpos. destruct (value_range T v Hv) as [Hr Hn]. unfold in_range in *. destruct (is_signed T); [|done].
  assert (2 ^ (bits_of T - 1) <= 2 ^ bits_of T) by (apply Z.pow_le_mono_r; lia). lia.
Qed.

Lemma int_roundtrip T v : is_value T v -> is_signed T = true -> number_roundtrip (Write v) (Read T) v.
Proof using laws.
  intros Hv Hs. destruct (value_range T v Hv) as [Hr _]. rewrite Hs in Hr. destruct Hv as [Hn E].
  destruct (write_data_appends 11 v (in_groups _ _ _ Hn Hr) ltac:(lia)) as (bs & Hd & Ha). exists bs. split; [done|]. intros p. rewrite <- E. by apply (reads_data T true).
Qed.

Lemma unsigned_roundtrip T v : is_value T v -> 0 <= v -> number_roundtrip (WriteUnsigned v) (ReadUnsigned T) v.
Proof using laws.
  intros Hv Hpos. pose proof (value_nonneg T v Hv Hpos) as Hr. destruct Hv as [Hn E].
  destruct (write_unsigned_appends 11 v (in_groups _ _ _ Hn Hr) ltac:(lia)) as (bs & Hd & Ha). exists bs. split.
  - intros s Hs. eapply appends_step; [apply assert_ok; by apply Z.leb_le | by apply Ha].
  - intros p. rewrite <- E. by apply (reads_data T false).
Qed.

Lemma raw_roundtrip T v : is_value T v -> number_roundtrip (RawWrite T v) (RawRead T) v.
Proof using laws.
  intros Hv. destruct (value_range T v Hv) as [_ Hpos]. destruct Hv as [Hn E]. unfold RawWrite, RawRead. destruct (Z.eqb_spec (bits_of T) 8) as [E8|E8].
  - exists [uwrap 8 v]. split; [intros s Hs; by apply WriteByte_appends|]. intros p. rewrite <- E at 2. rewrite <- (cast_wrap T v Hpos), E8. apply reads_map, reads_byte.
  - assert (in_range (bits_of T) true (swrap (bits_of T) v)) as Hr by (by apply swrap_bound).
    destruct (write_data_appends 11 _ (in_groups _ _ _ Hn Hr) ltac:(lia)) as (bs & Hd & Ha). exists bs. split; [done|]. intros p.
    assert (cast T (swrap (bits_of T) v) = v) as Ev by (rewrite <- (cast_wrap T) by done; rewrite uwrap_swrap, cast_wrap by done; done).
    pose proof (reads_raw T true _ bs p Hn E8 Hr eq_refl Hd) as Hread. rewrite Ev in Hread. unfold RawRead in Hread. by rewrite (proj2 (Z.eqb_neq _ _)) in Hread by done.
Qed.

Lemma leb_roundtrip T v : is_value T v -> 0 <= v -> number_roundtrip (WriteLEB128 T v) (ReadLEB128 T) v.
Proof using laws.
  intros Hv Hpos. pose proof (value_nonneg T v Hv Hpos) as Hr. destruct Hv as [Hn E].
  destruct (write_leb128_appends 11 v (in_groups _ _ _ Hn Hr) ltac:(lia)) as (bs & Hd & Ha). exists bs. split.
  - intros s Hs. eapply appends_step; [|by apply Ha]. destruct (is_signed T); [apply assert_ok; by apply Z.leb_le | done].
  - intros p. rewrite <- E. by apply reads_leb128.
Qed.

Lemma sleb_roundtrip T v : is_value T v -> number_roundtrip (WriteSLEB128 T v) (ReadSLEB128 T) v.
Proof using laws.
  intros Hv. destruct (value_range T v Hv) as [_ Hpos]. destruct Hv as [Hn E].
  assert (in_range (bits_of T) true (swrap (bits_of T) v)) as Hr by (by apply swrap_bound).
  destruct (write_sleb128_appends (bits_of T) 11 _ Hn Hr (in_groups _ _ _ Hn Hr) ltac:(lia)) as (bs & Hd & Ha). exists bs. split; [done|]. intros p.
  assert (cast T (swrap (bits_of T) v) = v) as Ev by (rewrite <- (cast_wrap T) by done; rewrite uwrap_swrap, cast_wrap by done; done).
  rewrite <- Ev. by apply reads_sleb128.
Qed.

(** The words of [WriteWordWith32BitWrites]. *)
Lemma words_roundtrip n : forall j v r, 0 <= j -> 0 <= v -> 32 * (j + Z.of_nat n) = XLEN -> r = v mod 2 ^ (32 * j) ->
  exists bs, (forall s, stream_wf s -> appends s (write_words n j v) tt bs) /\ forall p, reads p (read_words n j r) bs (v mod 2 ^ XLEN).
Proof using laws.
  induction n as [|n IH]; intros j v r Hj Hv Hn ->; cbn [write_words read_words].
  - exists []. split; [intros; by apply appends_ret|]. intros p. replace XLEN with (32 * j) by lia. apply reads_ret.
  - set (w := uwrap 32 (v >> (j * 32))). assert (0 <= w < 2 ^ 32) as Hw by (by apply uwrap_bound). rewrite Z.land_ones, Z.mod_small by (done || lia).
    destruct (raw_roundtrip uint32_t w) as (bs & Ha & Hr); [split; [by right; right; left | by apply uwrap_small]|].
    assert (0 < 2 ^ (32 * j)) by (apply Z.pow_pos_nonneg; lia).
    destruct (IH (j + 1) v (v mod 2 ^ (32 * (j + 1))) ltac:(lia) Hv ltac:(lia) eq_refl) as (bs' & Ha' & Hr'). exists (bs ++ bs'). split.
    + intros s Hs. eapply appends_bind; [by apply Ha|]. intros s' Hs' _ _. by apply Ha'.
    + intros p. eapply reads_bind; [apply Hr|]. apply (reads_step _ _ _ _ (uwrap XLEN (w << (j * 32)))); [apply reads_shift; lia|].
      replace (v mod 2 ^ (32 * j) .| uwrap XLEN (w << (j * 32))) with (v mod 2 ^ (32 * (j + 1))); [apply Hr'|].
      pose proof (Z.mod_pos_bound v (2 ^ (32 * j)) ltac:(lia)). replace (j * 32) with (32 * j) by lia. rewrite lor_high by lia.
      replace (32 * (j + 1)) with (32 * j + 32) by lia. rewrite Z.pow_add_r, Z.rem_mul_r by lia.
      unfold w, uwrap at 2. rewrite Z.shiftr_div_pow2 by lia. replace (j * 32) with (32 * j) by lia.
      assert (2 ^ (32 * j) * 2 ^ 32 <= 2 ^ XLEN) by (rewrite <- Z.pow_add_r by lia; apply Z.pow_le_mono_r; lia).
      pose proof (Z.mod_pos_bound (v / 2 ^ (32 * j)) (2 ^ 32) ltac:(done)). rewrite uwrap_small by nia. lia.
Qed.

Lemma split_word_roundtrip v : 0 <= v < 2 ^ XLEN -> number_roundtrip (WriteWordWith32BitWrites v) ReadWordWith32BitReads v.
Proof using laws.
  intros Hv. destruct (words_roundtrip (Z.to_nat (XLEN / 32)) 0 v 0) as (bs & Ha & Hr); [done | lia | unfold XLEN; by destruct TARGET_64 | by rewrite Z.mod_1_r|].
  exists bs. split; [done|]. intros p. rewrite <- (Z.mod_small v (2 ^ XLEN)) by done. apply Hr.
Qed.

Lemma number_correct f v : number_ok f v -> number_roundtrip (write_number f v) (read_number f) v.
Proof using laws.
  destruct f; cbn [number_ok write_number read_number].
  - intros Hv. exists [v]. split; [intros; by apply byte_appends | intros; apply reads_byte].
  - intros []. by apply int_roundtrip.
  - intros []. by apply unsigned_roundtrip.
  - apply raw_roundtrip.
  - intros []. by apply leb_roundtrip.
  - apply sleb_roundtrip.
  - apply split_word_roundtrip.
Qed.

Lemma reads_bytes p bs : reads p (ReadBytes (Z.of_nat (length bs))) bs bs.
Proof.
  intros pre post _. unfold ReadBytes, this, mbind, M_bind. rewrite assert_ok by (apply Z.leb_le; unfold read_end_; cbn; rewrite !length_app; lia).
  assert (read_at (at_ pre (bs ++ post)) (read_current_ (at_ pre (bs ++ post)) + Z.of_nat (length bs)) = at_ (pre ++ bs) post) as E.
  { unfold read_at, at_. cbn. f_equal; [by rewrite app_assoc | rewrite length_app; lia]. }
  destruct (Z.eqb_spec (Z.of_nat (length bs)) 0) as [Hz|Hz]; cbn [negb].
  - destruct bs; [|done]. unfold mret, M_ret, set_current. by rewrite E.
  - unfold peek_bytes. cbn [read_current_ read_buffer_ at_]. rewrite (proj2 (Z.ltb_ge _ _)) by lia. cbn [orb].
    rewrite (proj2 (Z.ltb_ge _ _)) by (unfold read_end_; cbn; rewrite !length_app; lia). unfold set_current, mret, M_ret. rewrite <- E.
    by rewrite !Nat2Z.id, drop_app_length, take_app_length.
Qed.

Lemma reads_padding p k n bs : RoundUp p (2 ^ k) = Ok (p + n) -> Z.of_nat (length bs) = n -> reads p (ReadStream_Align (2 ^ k)) bs tt.
Proof.
  intros E Hl pre post Hp. unfold ReadStream_Align, Advance, this, value_of, mbind, M_bind. cbn [read_current_ at_]. rewrite Hp, E. replace (p + n - p) with n by lia.
  rewrite assert_ok by (apply Z.leb_le; unfold read_end_; cbn; rewrite !length_app; lia). unfold set_current, read_at, at_. cbn. do 2 f_equal.
  f_equal; [by rewrite app_assoc | rewrite length_app; lia].
Qed.

Lemma item_correct i s : item_ok i -> stream_wf s -> exists bs, appends s (write_item i) tt bs /\ reads (Z.of_nat (length (contents s))) (read_item i) bs i.
Proof using laws.
  intros Hi Hs. destruct i as [f v|bs|a]; cbn [item_ok write_item read_item] in *.
  - destruct (number_correct f v Hi) as (bs & Ha & Hr). exists bs. split; [by apply Ha|]. by apply (reads_map _ _ (Number f)).
  - exists bs. split; [by apply WriteBytes_appends|]. apply (reads_map _ _ Bytes), reads_bytes.
  - destruct Hi as (k & Hk & ->). destruct (Align_appends s k Hs Hk) as (n & E & Hn & Ha). exists (replicate (Z.to_nat n) 0). split.
    + rewrite <- (app_nil_r (replicate _ _)). apply (appends_bind _ _ _ n); [done|]. intros. by apply appends_ret.
    + apply (reads_map _ _ (fun _ => Padding (2 ^ k)) _ tt). eapply reads_padding; [done|]. rewrite length_replicate. lia.
Qed.

Lemma items_correct items s : Forall item_ok items -> stream_wf s ->
  (exists s' bs, write_items items s = Ok (tt, s') /\ stream_wf s' /\ contents s' = contents s ++ bs /\ reads (Z.of_nat (length (contents s))) (read_items items) bs items) \/
  (write_items items s = Err OutOfMemoryError /\ exists old n, realloc old n = None).
Proof using laws.
  intros Hi. revert s. induction Hi as [|i items Hi _ IH]; intros s Hs; [left; exists s, []; rewrite app_nil_r; split_and!; try done; apply reads_ret|].
  destruct (item_correct i s Hi Hs) as (bs & [(s1 & E & Hw & _ & Hc)|[E Hno]] & Hr); [|right; split; [cbn [write_items]; unfold mbind, M_bind; by rewrite E | done]].
  assert (write_items (i :: items) s = write_items items s1) as -> by (cbn [write_items]; unfold mbind, M_bind; by rewrite E). cbn [read_items].
  destruct (IH s1 Hw) as [(s2 & bs' & E2 & Hw2 & Hc2 & Hr')|?]; [left; exists s2, (bs ++ bs') | by right]. rewrite Hc2, Hc, app_assoc. split_and!; try done.
  apply (reads_bind _ _ _ _ _ i); [done|]. apply (reads_map _ _ (cons i)). rewrite Hc, length_app, Nat2Z.inj_add in Hr'. done.
Qed.

(** C9 What is written to a stream of any kind, with any buffer, is read back: writing bytes,
    numbers in each format, and padding either runs out of memory or appends bytes from which
    the readers, at the position of the first of them, return the same bytes and numbers and
    stop behind the last, whatever follows. *)
Theorem stream_roundtrip items s : Forall item_ok items -> stream_wf s ->
  (exists s' bs, write_items items s = Ok (tt, s') /\ stream_wf s' /\ contents s' = contents s ++ bs /\
     forall post, read_items items {| read_buffer_ := contents s' ++ post; read_current_ := Z.of_nat (length (contents s)) |} =
       Ok (items, {| read_buffer_ := contents s' ++ post; read_current_ := Z.of_nat (length (contents s')) |})) \/
  (write_items items s = Err OutOfMemoryError /\ exists old n, realloc old n = None).
Proof using laws.
  intros Hi Hs. destruct (items_correct items s Hi Hs) as [(s' & bs & E & Hw & Hc & Hr)|?]; [left | by right]. exists s', bs. split_and!; try done.
  intros post. pose proof (Hr (contents s) post eq_refl) as Er. unfold at_ in Er. by rewrite app_assoc, <- Hc in Er.
Qed.
End Roundtrip.

(** ** The unrolled readers *)

Section Unrolled.
Context `{Target}.

(** The readers [Read16], [Read32] and [Read64] and the widths they read. *)
Definition unrolled_reader (n end_byte_marker : Z) : reader Z :=
  if n =? 16 then Read16 end_byte_marker else if n =? 32 then Read32 end_byte_marker else Read64 end_byte_marker.

Lemma ReadByte_returns st b st' : DEBUG = true -> ReadByte st = Ok (b, st') ->
  read_buffer_ st' = read_buffer_ st /\ read_current_ st' = read_current_ st + 1 /\ 0 <= read_current_ st < read_end_ st /\ b ∈ read_buffer_ st.
Proof.
  intros Hd. unfold ReadByte, this, assert_, ASSERT, next_byte, mbind, M_bind. rewrite Hd. cbn [andb]. destruct (Z.ltb_spec (read_current_ st) (read_end_ st)); [|done]. cbn [negb].
  destruct (Z.ltb_spec (read_current_ st) 0); [done|]. destruct (_ !! _) eqn:E; [|done]. intros [= <- <-]. cbn. split_and!; try done; try lia. by eapply list_elem_of_lookup_2.
Qed.

(** The loop of [Read] from a byte that is read next. *)
Definition read_rest (fuel : nat) (n end_byte_marker r s : Z) : reader Z :=
  b ← ReadByte;
  if b <=? kMaxUnsignedDataPerByte then read_data fuel n end_byte_marker r s b
  else
    part ← shift_left n (uwrap n (b - end_byte_marker)) s;
    mret (r .| part).

Lemma unrolled_rest n m bodies e : DEBUG = true -> forall r s st x st' fuel, consecutive s bodies e -> read_end_ st < Z.of_nat fuel + read_current_ st ->
  unrolled n m bodies e r st = Ok (x, st') -> exists y, read_rest fuel n m r s st = Ok (y, st') /\ x = uwrap n y.
Proof.
  intros Hd. induction bodies as [|bit bodies IH]; intros r s st x st' fuel Hc Hf E; cbn [unrolled] in E; apply M_bind_Ok in E as (b & st1 & Eb & E);
    destruct (ReadByte_returns _ _ _ Hd Eb) as (B1 & B2 & B3 & B4); unfold read_rest, mbind at 1, M_bind at 1; rewrite Eb, Z.leb_antisym.
  - cbn in Hc. subst e. apply M_bind_Ok in E as ([] & st2 & Ea & E). unfold assert_, ASSERT in Ea. rewrite Hd in Ea. destruct (kMaxUnsignedDataPerByte <? b); [|done]. cbn in Ea. injection Ea as <-.
    apply M_bind_Ok in E as (part & st3 & Ep & E). injection E as <- <-. cbn [negb]. unfold mbind, M_bind. rewrite Ep. by eexists.
  - destruct Hc as [-> Hc]. destruct (kMaxUnsignedDataPerByte <? b); cbn [negb]; apply M_bind_Ok in E as (part & st3 & Ep & E).
    + injection E as <- <-. unfold mbind, M_bind. rewrite Ep. by eexists.
    + assert (st3 = st1) as -> by (unfold shift_left in Ep; destruct (_ <? _); [by injection Ep | done]). destruct fuel as [|fuel]; [unfold read_end_ in *; lia|].
      destruct (IH _ _ _ _ _ fuel Hc ltac:(unfold read_end_ in *; rewrite B1, B2; lia) E) as (y & Ey & Hx). exists y. split; [|done].
      cbn [read_data]. unfold mbind at 1, M_bind at 1. rewrite Ep. exact Ey.
Qed.

(** C10 The unrolled readers are the loop: with assertions on, where [Read16], [Read32] or [Read64]
    returns, on any bytes at any position, [Read<T>] of a type of that width returns the same
    bits and stops at the same position. *)
Theorem unrolled_read_is_read T end_byte_marker st bits st' : DEBUG = true -> Forall (fun b => 0 <= b < 256) (read_buffer_ st) -> bits_of T = 16 \/ bits_of T = 32 \/ bits_of T = 64 ->
  unrolled_reader (bits_of T) end_byte_marker st = Ok (bits, st') -> Read_marked T end_byte_marker st = Ok (cast T bits, st').
Proof.
  intros Hd Hb Hn E. set (n := bits_of T) in *. assert (0 < n) as Hpos by lia.
  assert (exists bodies e, UNROLLED n end_byte_marker bodies e st = Ok (bits, st') /\ consecutive 7 bodies e) as (bodies & e & E' & Hc).
  { unfold unrolled_reader in E. destruct Hn as [Hn|[Hn|Hn]]; rewrite Hn in *; cbn [Z.eqb Pos.eqb] in E; eexists _, _; (split; [exact E|]); cbn; by split_and!. }
  clear E. unfold UNROLLED in E'. apply M_bind_Ok in E' as (b & st1 & Eb & E). destruct (ReadByte_returns _ _ _ Hd Eb) as (B1 & B2 & B3 & B4).
  unfold Read_marked. fold n. unfold mbind at 1, M_bind at 1. rewrite Eb. change kMaxUnsignedDataPerByte with 127 in *. destruct (Z.ltb_spec 127 b); [by injection E as <- <-|].
  destruct (unrolled_rest n end_byte_marker bodies e Hd b 7 st1 bits st' (length (read_buffer_ st1)) Hc) as (y & Ey & ->); [unfold read_end_ in *; lia | done|].
  unfold this, mbind at 1, M_bind at 1. cbn [read_data].
  rewrite list.Forall_forall in Hb. specialize (Hb b B4). assert (2 ^ 8 <= 2 ^ n) by (apply Z.pow_le_mono_r; lia).
  assert (shift_left n b 0 st1 = Ok (b, st1)) as Es by (unfold shift_left; rewrite (proj2 (Z.ltb_lt _ _)), Z.shiftl_0_r, uwrap_small by lia; done).
  unfold read_rest in Ey. unfold mbind at 1 2, M_bind at 1 2. rewrite Es, Z.lor_0_l. change (0 + kDataBitsPerByte) with 7. rewrite Ey. unfold mret, M_ret. by rewrite cast_wrap.
Qed.
End Unrolled.

(** ** A small stream *)

(** An allocator with enough memory: the old bytes, then zeros. *)
Definition plenty : Allocator := {| realloc old n := Some (take (Z.to_nat n) (default [] old) ++ replicate (Z.to_nat n - length (default [] old)) 0) |}.

Definition small_items : list item :=
  [Number FByte 200; Number (FInt int32_t) (-70000); Padding 8; Number (FUnsigned uint16_t) 65535; Number (FRaw uint64_t) (2 ^ 63 + 5); Bytes [1; 2; 3];
   Number (FLEB128 int32_t) 300; Number (FSLEB128 int64_t) (-129); Number FWord (2 ^ 64 - 2)].

Lemma plenty_laws : AllocatorLaws plenty.
Proof.
  split.
  - intros old n b Hn [= <-]. rewrite length_app, length_take, length_replicate. lia.
  - intros old n b i [= <-] Hi Hn. rewrite lookup_app_l by (rewrite length_take; lia). apply lookup_take_lt. lia.
Qed.

Lemma is_value_intro n sg v : width n -> (cast (CType n sg) v =? v) = true -> is_value (CType n sg) v.
Proof. intros Hn E. split; [done | by apply Z.eqb_eq]. Qed.

Lemma small_items_ok : Forall (@item_ok rv64) small_items.
Proof.
  assert (width 16 /\ width 32 /\ width 64) as (W16 & W32 & W64) by (unfold width; lia).
  unfold small_items. repeat match goal with |- Forall _ (_ :: _) => apply Forall_cons_2 | |- Forall _ [] => apply Forall_nil_2 end; cbn [item_ok number_ok].
  - lia.
  - split; [by apply is_value_intro | done].
  - by exists 3.
  - split; [by apply is_value_intro | lia].
  - by apply is_value_intro.
  - done.
  - split; [by apply is_value_intro | lia].
  - by apply is_value_intro.
  - by vm_compute.
Qed.

Lemma unrolled_read_is_read_witness :
  @Read_marked rv64 int16_t kEndByteMarker {| read_buffer_ := [9; 100; 200; 7]; read_current_ := 1 |} = Ok (1124, {| read_buffer_ := [9; 100; 200; 7]; read_current_ := 3 |}).
Proof.
  apply (@unrolled_read_is_read rv64 int16_t kEndByteMarker _ 1124); [done | by repeat (apply Forall_cons_2; [done|]) | by left | by vm_compute].
Defined.

Definition small_stream : WriteStream := @new_stream rv64 StreamingWriteStream 8.

Lemma stream_roundtrip_witness : exists s' bs, @write_items rv64 plenty small_items small_stream = Ok (tt, s') /\ contents s' = bs /\
  @read_items rv64 small_items {| read_buffer_ := bs; read_current_ := 0 |} = Ok (small_items, {| read_buffer_ := bs; read_current_ := Z.of_nat (length bs) |}).
Proof.
  destruct (@new_stream_wf rv64 StreamingWriteStream 8) as [Hw _]; [by vm_compute|].
  destruct (@stream_roundtrip rv64 plenty plenty_laws small_items small_stream small_items_ok Hw) as [(s' & bs & E & _ & Hs & Hr)|[_ (old & n & E)]]; [|discriminate E].
  exists s', bs. change (contents small_stream) with (@nil Z) in *. split; [done|]. split; [done|]. pose proof (Hr []) as Er. rewrite app_nil_r, Hs in Er. exact Er.
Defined.
