(* ===== verification/RangeProps.v ===== *)
(** * Properties of integer ranges

    What a range says of a value, and that the operations on ranges say no more than is true: the
    inferred range of an operation has its result, an operation that is said not to overflow does
    not, a bounds check that is removed would not have failed. *)
From S2P Require Import Prelude Utils Constants RangeAnalysis Instances.

(** ** What ranges mean *)

Definition is_int64 (v : Z) : Prop := kMinInt64 <= v <= kMaxInt64.

Section Meaning.
Context `{Target} `{FlowGraph} (rho : Z -> Z).

Definition is_smi (v : Z) : Prop := kSmiMin <= v <= kSmiMax.

(** The value of a boundary that is not infinite, when definitions have the values [rho]. *)
Definition val (b : RangeBoundary) : Z := match b with kConstant c => c | kSymbol d o => rho d + o | _ => 0 end.

Definition lower (b : RangeBoundary) (v : Z) : Prop :=
  match b with kNegativeInfinity => True | kConstant _ | kSymbol _ _ => val b <= v | _ => False end.
Definition upper (b : RangeBoundary) (v : Z) : Prop :=
  match b with kPositiveInfinity => True | kConstant _ | kSymbol _ _ => v <= val b | _ => False end.
Definition contains (r : Range) (v : Z) : Prop := lower (min_ r) v /\ upper (max_ r) v.

(** Constants are 64-bit numbers, symbols are small integers with an offset that cannot wrap. *)
Definition boundary_ok (b : RangeBoundary) : Prop :=
  match b with
  | kConstant c => is_int64 c
  | kSymbol d o => IsValidOffsetForSymbolicRangeBoundary o = true /\ is_smi (rho d)
  | _ => False
  end.
Definition range_ok (r : Range) : Prop := boundary_ok (min_ r) /\ boundary_ok (max_ r).

(** A symbol comes before the definition whose range it is in. *)
Definition before (rank : Z -> nat) (b : RangeBoundary) (d : Z) : Prop :=
  match b with kSymbol s _ => (rank s < rank d)%nat | _ => True end.

(** The values [rho] of the definitions agree with the instructions and are in the ranges; no
    definition depends on itself except through a phi; the fuel is that of the longest chain. *)
Record sound (rank : Z -> nat) (fuel : nat) (range_of : ranges) : Prop := {
  s_fuel : forall d, (S (rank d) < fuel)%nat;
  s_range : forall d r, range_of d = Some r -> range_ok r /\ contains r (rho d) /\ before rank (min_ r) d /\ before rank (max_ r) d;
  s_constant : forall d v, definition d = ConstantInstr (Smi v) -> rho d = v /\ is_smi v;
  s_mint : forall d v, definition d = ConstantInstr (Mint v) -> rho d = v /\ is_int64 v;
  s_constraint : forall d value c, definition d = ConstraintInstr value c -> rho d = rho value /\ (rank value < rank d)%nat;
  s_binary : forall d op l r, definition d = BinarySmiOpInstr op l r ->
    is_smi (rho l) /\ is_smi (rho r) /\ (rank l < rank d)%nat /\ (rank r < rank d)%nat /\
    (op = kADD -> rho d = rho l + rho r) /\ (op = kSUB -> rho d = rho l - rho r) /\
    forall o, definition l = ConstantInstr o \/ definition r = ConstantInstr o -> exists v, o = Smi v;
  s_redefined : forall d e, RedefinedValue d = Some e -> definition d = OtherInstr /\ rho d = rho e /\ (rank e < rank d)%nat;
  s_array : forall d, IsArrayLength d = true -> is_smi (rho d);
  s_cse : forall a b, cse_equal a b = true -> rho a = rho b;
  s_other : forall d e, RedefinedValue d = Some e ->
    exists r, infer_other d = Ok r /\ range_ok r /\ contains r (rho d) /\ before rank (min_ r) d /\ before rank (max_ r) d
}.
End Meaning.

(** ** Boundaries *)

Lemma smi_bounds `{Target} : exists k, 0 < k /\ kSmiMax = k - 1 /\ kSmiMin = - k /\ 2 ^ 30 <= k <= 2 ^ 62.
Proof. unfold kSmiMax, kSmiMin, kSmiBits, XLEN. destruct TARGET_64; [exists (2 ^ 62) | exists (2 ^ 30)]; by vm_compute. Qed.

Lemma IsSmi_spec `{Target} v : IsSmi v = true <-> is_smi v.
Proof.
  unfold IsSmi, is_smi, IsInt, kSmiMin, kSmiMax, kSmiBits, XLEN. destruct TARGET_64; cbn [bits_of is_signed int64_t].
  - change (64 <=? 64 - 2 + 1) with false. change (cast _ (- cast _ _)) with (- 2 ^ 62). change (cast _ _) with (2 ^ 62). change (1 << (64 - 2)) with (2 ^ 62).
    rewrite andb_true_iff, Z.leb_le, Z.ltb_lt. lia.
  - change (64 <=? 32 - 2 + 1) with false. change (cast _ (- cast _ _)) with (- 2 ^ 30). change (cast _ _) with (2 ^ 30). change (1 << (32 - 2)) with (2 ^ 30).
    rewrite andb_true_iff, Z.leb_le, Z.ltb_lt. lia.
Qed.

Lemma valid_offset `{Target} o : IsValidOffsetForSymbolicRangeBoundary o = true <-> kMinInt64 - kSmiMin <= o <= kMaxInt64 - kSmiMax.
Proof.
  unfold IsValidOffsetForSymbolicRangeBoundary. destruct (Z.ltb_spec (kMaxInt64 - kSmiMax) o), (Z.ltb_spec o (kMinInt64 - kSmiMin)); cbn [orb]; split; intros; done || lia.
Qed.

Lemma WillAddOverflow_spec a b : WillAddOverflow a b = false -> is_int64 a -> is_int64 b -> is_int64 (a + b).
Proof.
  unfold WillAddOverflow, is_int64. destruct (Z.ltb_spec 0 b), (Z.ltb_spec (kMaxInt64 - b) a), (Z.ltb_spec b 0), (Z.ltb_spec a (kMinInt64 - b)); cbn [andb orb]; done || lia.
Qed.
Lemma WillSubOverflow_spec a b : WillSubOverflow a b = false -> is_int64 a -> is_int64 b -> is_int64 (a - b).
Proof.
  unfold WillSubOverflow, is_int64. destruct (Z.ltb_spec 0 b), (Z.ltb_spec a (kMinInt64 + b)), (Z.ltb_spec b 0), (Z.ltb_spec (kMaxInt64 + b) a); cbn [andb orb]; done || lia.
Qed.

(** ** Arithmetic *)

Lemma shiftr_value a s x t : 0 <= s <= t -> (0 <= a -> a <= x -> a >> t <= x >> s) /\ (a <= x -> x <= 0 -> a >> s <= x >> t).
Proof.
  intros Hs. rewrite !Z.shiftr_div_pow2 by lia. assert (0 < 2 ^ s) as Hp by (apply Z.pow_pos_nonneg; lia). assert (2 ^ s <= 2 ^ t) as Hle by (apply Z.pow_le_mono_r; lia). split; intros H1 H2.
  - transitivity (a / 2 ^ s); [apply Z.div_le_compat_l; lia | apply Z.div_le_mono; lia].
  - transitivity (x / 2 ^ s); [apply Z.div_le_mono; lia|]. pose proof (Z.div_mod x (2 ^ s) ltac:(lia)). pose proof (Z.mod_pos_bound x (2 ^ s) Hp).
    apply Z.div_le_lower_bound; [lia|]. nia.
Qed.

Lemma shiftr_int64 x s : 0 <= s -> is_int64 x -> is_int64 (x >> s) /\ (63 < s -> x >> s = if 0 <=? x then 0 else -1).
Proof.
  intros Hs Hx. unfold is_int64, kMinInt64, kMaxInt64 in *. rewrite Z.shiftr_div_pow2 by done. assert (1 <= 2 ^ s) as Hp by (pose proof (Z.pow_pos_nonneg 2 s); lia). split.
  - pose proof (Z.div_mod x (2 ^ s) ltac:(lia)). pose proof (Z.mod_pos_bound x (2 ^ s) ltac:(lia)). nia.
  - intros H63. assert (2 ^ 64 <= 2 ^ s) by (apply Z.pow_le_mono_r; lia). destruct (Z.leb_spec 0 x); [apply Z.div_small; lia|]. symmetry. apply Z.div_unique_pos with (x + 2 ^ s); lia.
Qed.

Lemma land_le a b : 0 <= b -> 0 <= a .& b <= b.
Proof.
  intros Hb. split; [apply Z.land_nonneg; by right|]. assert (Z.ldiff (a .& b) b = 0) as E.
  { apply Z.bits_inj'. intros i Hi. rewrite Z.ldiff_spec, Z.land_spec, Z.bits_0. by destruct (Z.testbit a i), (Z.testbit b i). }
  pose proof (Z.sub_nocarry_ldiff b (a .& b) E). pose proof (proj2 (Z.ldiff_nonneg b (a .& b)) (or_introl Hb)). lia.
Qed.

(** A number of [n] bits and a sign is one of which only the sign is left behind [n] bits. *)
Lemma sign_bits n x : 0 <= n -> - 2 ^ n <= x < 2 ^ n <-> x >> n = 0 \/ x >> n = -1.
Proof.
  intros Hn. rewrite Z.shiftr_div_pow2 by done. assert (0 < 2 ^ n) by (apply Z.pow_pos_nonneg; lia). pose proof (Z.div_mod x (2 ^ n) ltac:(lia)). pose proof (Z.mod_pos_bound x (2 ^ n) ltac:(lia)). nia.
Qed.
Lemma bitwise_bits n a b : 0 <= n -> - 2 ^ n <= a < 2 ^ n -> - 2 ^ n <= b < 2 ^ n ->
  - 2 ^ n <= a .& b < 2 ^ n /\ - 2 ^ n <= a .| b < 2 ^ n /\ - 2 ^ n <= a .^ b < 2 ^ n.
Proof.
  intros Hn. rewrite !sign_bits by done. rewrite Z.shiftr_land, Z.shiftr_lor, Z.shiftr_lxor. intros [-> | ->] [-> | ->]; cbn; split_and!; by auto.
Qed.

Lemma halve_spec n x r : 0 < n -> 0 < x < 2 ^ (n + n) -> let '(x', r') := halve n (x, r) in 0 < x' < 2 ^ n /\ Z.log2 x + r = Z.log2 x' + r'.
Proof.
  intros Hn Hx. unfold halve. assert (0 < 2 ^ n) as Hp by (apply Z.pow_pos_nonneg; lia). rewrite Z.pow_add_r in Hx by lia.
  pose proof (Z.shiftr_div_pow2 x n ltac:(lia)) as E. pose proof (Z.div_mod x (2 ^ n) ltac:(lia)). pose proof (Z.mod_pos_bound x (2 ^ n) Hp).
  destruct (Z.eqb_spec (x >> n) 0) as [Hz|Hz]; cbn [negb]; [split; [nia | done]|]. split; [nia|]. rewrite Z.log2_shiftr by lia.
  assert (n <= Z.log2 x) by (apply Z.log2_le_pow2; nia). lia.
Qed.
Lemma HighestBit_log2 v : 0 < v < 2 ^ 63 -> HighestBit v = Z.log2 v.
Proof.
  intros Hv. unfold HighestBit. rewrite (proj2 (Z.ltb_lt _ _)), uwrap_small by lia.
  pose proof (halve_spec 32 v 0 ltac:(lia) ltac:(lia)) as H1. destruct (halve 32 (v, 0)) as [x1 r1]. pose proof (halve_spec 16 x1 r1 ltac:(lia) ltac:(lia)) as H2. destruct (halve 16 _) as [x2 r2].
  pose proof (halve_spec 8 x2 r2 ltac:(lia) ltac:(lia)) as H3. destruct (halve 8 _) as [x3 r3]. pose proof (halve_spec 4 x3 r3 ltac:(lia) ltac:(lia)) as H4. destruct (halve 4 _) as [x4 r4].
  pose proof (halve_spec 2 x4 r4 ltac:(lia) ltac:(lia)) as H5. destruct (halve 2 _) as [x5 r5]. assert (Z.log2 x5 = if 1 <? x5 then 1 else 0) as E5.
  { assert (x5 = 1 \/ x5 = 2 \/ x5 = 3) as [-> | [-> | ->]] by lia; reflexivity. }
  destruct (1 <? x5); lia.
Qed.
Lemma BitLength_spec x : is_int64 x -> 0 <= BitLength x <= 63 /\ - 2 ^ BitLength x <= x < 2 ^ BitLength x.
Proof.
  intros Hx. unfold BitLength. destruct (shiftr_int64 x 63 ltac:(lia) Hx) as [_ _]. assert (x >> 63 = if 0 <=? x then 0 else -1) as E.
  { unfold is_int64, kMinInt64, kMaxInt64 in Hx. rewrite Z.shiftr_div_pow2 by done. destruct (Z.leb_spec 0 x); [apply Z.div_small; lia|]. symmetry. apply Z.div_unique_pos with (x + 2 ^ 63); lia. }
  set (y := x .^ (x >> 63)). assert (0 <= y < 2 ^ 63 /\ (0 <= x -> y = x) /\ (x < 0 -> y = - x - 1)) as (Hy & Y1 & Y2).
  { unfold y. rewrite E. unfold is_int64, kMinInt64, kMaxInt64 in Hx. destruct (Z.leb_spec 0 x); [rewrite Z.lxor_0_r; lia|]. rewrite Z.lxor_m1_r. unfold Z.lnot. lia. }
  destruct (Z.eqb_spec y 0) as [Hz|Hz]; [change (2 ^ 0) with 1; lia|]. rewrite HighestBit_log2 by lia. pose proof (Z.log2_nonneg y). destruct (Z.log2_spec y ltac:(lia)) as [_ Hlt]. unfold Z.succ in Hlt.
  assert (Z.log2 y < 63) by (apply Z.log2_lt_pow2; lia). lia.
Qed.

Lemma to_unsigned `{Target} a b v : a <= v <= b -> is_int64 a -> is_int64 b ->
  exists p q, ConvertRangeToUnsigned a b = Ok (p, q) /\ 0 <= p <= uwrap 64 v /\ uwrap 64 v <= q < 2 ^ 64.
Proof.
  intros Hv Ha Hb. unfold ConvertRangeToUnsigned. rewrite ASSERT_bind by (apply Z.leb_le; lia). pose proof (uwrap_bound 64 ltac:(lia) v). unfold is_int64, kMinInt64, kMaxInt64 in *.
  assert (forall x, - 2 ^ 63 <= x < 0 -> uwrap 64 x = x + 2 ^ 64) as Hneg by (intros x Hx; symmetry; apply Z.mod_unique_pos with (-1); lia).
  assert (forall x, 0 <= x < 2 ^ 63 -> uwrap 64 x = x) as Hpos by (intros x Hx; apply uwrap_small; lia).
  destruct (Z.ltb_spec a 0), (Z.leb_spec 0 b); cbn [andb]; eexists _, _; (split; [reflexivity|]); [lia | rewrite !Hneg by lia; lia | rewrite !Hpos by lia; lia | lia].
Qed.
Lemma to_signed `{Target} p q w : 0 <= p <= w -> w <= q < 2 ^ 64 ->
  exists a b, ConvertRangeToSigned p q = Ok (a, b) /\ a <= swrap 64 w <= b /\ is_int64 a /\ is_int64 b.
Proof.
  intros Hp Hq. unfold ConvertRangeToSigned. rewrite ASSERT_bind by (apply Z.leb_le; lia). change (uwrap 64 kMinInt64) with (2 ^ 63).
  assert (forall x, is_int64 (swrap 64 x)) as Hi by (intros x; pose proof (swrap_bound 64 ltac:(lia) x); unfold is_int64, kMinInt64, kMaxInt64; lia).
  assert (forall x, 0 <= x < 2 ^ 64 -> swrap 64 x = if x <? 2 ^ 63 then x else x - 2 ^ 64) as Hs by (intros x Hx; by rewrite swrap_of_unsigned by lia).
  destruct ((p <=? kMaxInt64) && (2 ^ 63 <=? q)) eqn:E.
  - exists kMinInt64, kMaxInt64. split; [done|]. split; [apply Hi|]. split; by vm_compute.
  - exists (swrap 64 p), (swrap 64 q). split; [done|]. split; [|split; apply Hi]. rewrite !Hs by lia. clear Hi Hs. unfold kMaxInt64 in E.
    apply andb_false_iff in E as [E|E]; apply Z.leb_gt in E; destruct (Z.ltb_spec p (2 ^ 63)), (Z.ltb_spec w (2 ^ 63)), (Z.ltb_spec q (2 ^ 63)); lia.
Qed.

Section Facts.
Context `{Target} `{FlowGraph} (rho : Z -> Z) (rank : Z -> nat) (fuel : nat) (range_of : ranges).
Context (Hg : sound rho rank fuel range_of).

Abbreviation val := (val rho).
Abbreviation lower := (lower rho).
Abbreviation upper := (upper rho).
Abbreviation contains := (contains rho).
Abbreviation boundary_ok := (boundary_ok rho).
Abbreviation range_ok := (range_ok rho).

Lemma smi_int64 v : is_smi v -> is_int64 v.
Proof. unfold is_smi, is_int64, kMinInt64, kMaxInt64. destruct smi_bounds as (k & Hk & -> & -> & Hb). lia. Qed.

Lemma offset_int64 o v : IsValidOffsetForSymbolicRangeBoundary o = true -> is_smi v -> is_int64 o /\ is_int64 (v + o).
Proof. rewrite valid_offset. unfold is_smi, is_int64, kMinInt64, kMaxInt64. destruct smi_bounds as (k & Hk & -> & -> & Hb). lia. Qed.

Lemma val_int64 b : boundary_ok b -> is_int64 (val b).
Proof. destruct b; cbn; try done. intros [Ho Hs]. by apply offset_int64. Qed.

Lemma ok_cases b : boundary_ok b -> IsInfinity b = false /\ IsUnknown b = false /\ (forall v, lower b v <-> val b <= v) /\ (forall v, upper b v <-> v <= val b).
Proof. by destruct b. Qed.

(** The sizes are parts of the 64-bit numbers. *)
Lemma size_int64 size : kMinInt64 <= min_value size <= 0 /\ 0 <= max_value size <= kMaxInt64.
Proof. destruct smi_bounds as (k & Hk & E1 & E2 & Hb). destruct size; cbn; rewrite ?E1, ?E2; unfold kMinInt64, kMaxInt64; lia. Qed.

(** A constant lower bound of the values of [b], or no bound. *)
Definition bounds_below (l : RangeBoundary) (v : Z) : Prop := l = kNegativeInfinity \/ exists c, l = kConstant c /\ is_int64 c /\ c <= v.
Definition bounds_above (u : RangeBoundary) (v : Z) : Prop := u = kPositiveInfinity \/ exists c, u = kConstant c /\ is_int64 c /\ v <= c.

Lemma Clamp_below size l v : bounds_below l v -> min_value size <= v ->
  exists c, Clamp size l = kConstant c /\ c <= v /\ min_value size <= c <= max_value size.
Proof.
  pose proof (size_int64 size). intros [->|(c & -> & Hc & Hle)] Hv; cbn [Clamp]; [exists (min_value size); split; [done | lia]|].
  destruct (Z.leb_spec c (min_value size)); [exists (min_value size); split; [done | lia]|].
  destruct (Z.leb_spec (max_value size) c); [exists (max_value size) | exists c]; (split; [done | lia]).
Qed.
Lemma Clamp_above size u v : bounds_above u v -> v <= max_value size ->
  exists c, Clamp size u = kConstant c /\ v <= c /\ min_value size <= c <= max_value size.
Proof.
  pose proof (size_int64 size). intros [->|(c & -> & Hc & Hle)] Hv; cbn [Clamp]; [exists (max_value size); split; [done | lia]|].
  destruct (Z.leb_spec c (min_value size)); [exists (min_value size); split; [done | lia]|].
  destruct (Z.leb_spec (max_value size) c); [exists (max_value size) | exists c]; (split; [done | lia]).
Qed.

Lemma Boundary_Add_below a b v w : bounds_below a v -> bounds_below b w -> exists l, Boundary_Add a b kNegativeInfinity = Ok l /\ bounds_below l (v + w).
Proof.
  unfold Boundary_Add. intros [->|(c & -> & Hc & Hv)]; [by eexists; split; [|left]|]. intros [->|(e & -> & He & Hw)]; [by eexists; split; [|left]|]. cbn [IsInfinity orb IsNegativeInfinity IsPositiveInfinity IsConstant andb value_].
  rewrite ASSERT_bind by done. destruct (WillAddOverflow c e) eqn:E; [by eexists; split; [|left]|]. eexists. split; [done|]. right. eexists. split; [done|].
  split; [by apply WillAddOverflow_spec | lia].
Qed.
Lemma Boundary_Add_above a b v w : bounds_above a v -> bounds_above b w -> exists u, Boundary_Add a b kPositiveInfinity = Ok u /\ bounds_above u (v + w).
Proof.
  unfold Boundary_Add. intros [->|(c & -> & Hc & Hv)]; [by eexists; split; [|left]|]. intros [->|(e & -> & He & Hw)]; [by eexists; split; [|left]|]. cbn [IsInfinity orb IsNegativeInfinity IsPositiveInfinity IsConstant andb value_].
  rewrite ASSERT_bind by done. destruct (WillAddOverflow c e) eqn:E; [by eexists; split; [|left]|]. eexists. split; [done|]. right. eexists. split; [done|].
  split; [by apply WillAddOverflow_spec | lia].
Qed.
Lemma Boundary_Sub_below a b v w : bounds_below a v -> bounds_above b w -> exists l, Boundary_Sub a b kNegativeInfinity = Ok l /\ bounds_below l (v - w).
Proof.
  unfold Boundary_Sub. intros [->|(c & -> & Hc & Hv)]; [by eexists; split; [|left]|]. intros [->|(e & -> & He & Hw)]; [by eexists; split; [|left]|]. cbn [IsInfinity orb IsNegativeInfinity IsPositiveInfinity IsConstant andb value_].
  rewrite ASSERT_bind by done. destruct (WillSubOverflow c e) eqn:E; [by eexists; split; [|left]|]. eexists. split; [done|]. right. eexists. split; [done|].
  split; [by apply WillSubOverflow_spec | lia].
Qed.
Lemma Boundary_Sub_above a b v w : bounds_above a v -> bounds_below b w -> exists u, Boundary_Sub a b kPositiveInfinity = Ok u /\ bounds_above u (v - w).
Proof.
  unfold Boundary_Sub. intros [->|(c & -> & Hc & Hv)]; [by eexists; split; [|left]|]. intros [->|(e & -> & He & Hw)]; [by eexists; split; [|left]|]. cbn [IsInfinity orb IsNegativeInfinity IsPositiveInfinity IsConstant andb value_].
  rewrite ASSERT_bind by done. destruct (WillSubOverflow c e) eqn:E; [by eexists; split; [|left]|]. eexists. split; [done|]. right. eexists. split; [done|].
  split; [by apply WillSubOverflow_spec | lia].
Qed.

(** The fuel a boundary needs. *)
Definition depth (b : RangeBoundary) : nat := match b with kSymbol d _ => S (S (rank d)) | _ => 1 end.

Lemma lower_bound_spec n : forall b, boundary_ok b -> (depth b <= n)%nat -> exists l, lower_bound range_of n b = Ok l /\ bounds_below l (val b).
Proof using Hg.
  induction n as [|n IH]; intros b Hb Hn; [destruct b; cbn in Hn; lia|]. destruct b as [| | |d o|c]; try done.
  - destruct Hb as [Ho Hs]. destruct (offset_int64 o (rho d) Ho Hs) as [Hoi _]. cbn [lower_bound IsInfinity IsNegativeInfinity IsPositiveInfinity IsConstant orb symbol IsSymbol value_ offset].
    unfold symbol. rewrite ASSERT_true by done. cbn [mbind result_bind value_].
    assert (exists m, match range_of d with None => Ok (MinConstant kRangeBoundarySmi)
      | Some r => l ← lower_bound range_of n (min_ r); Ok (Clamp kRangeBoundarySmi l) end = Ok m /\ bounds_below m (rho d)) as (m & -> & Hm).
    { destruct (range_of d) as [r|] eqn:Er.
      - destruct (s_range _ _ _ _ Hg d r Er) as ([Hr _] & [Hc _] & Hbef & _). destruct (IH (min_ r) Hr) as (l & -> & Hl).
        { cbn [depth] in Hn. destruct (min_ r); cbn in *; lia. }
        destruct (ok_cases _ Hr) as (_ & _ & Hlow & _). apply Hlow in Hc. eexists. split; [done|].
        assert (bounds_below l (rho d)) as Hl' by (destruct Hl as [->|(c & -> & Hi & Hle)]; [by left | right; exists c; split; [done | split; [done | lia]]]).
        destruct (Clamp_below kRangeBoundarySmi l (rho d) Hl' (proj1 Hs)) as (c & -> & Hle & Hr2). right. exists c. split; [done|]. split; [by apply smi_int64 | done].
      - eexists. split; [done|]. right. exists kSmiMin. split; [done|]. split; [apply smi_int64; unfold is_smi in *; lia | apply Hs]. }
    cbn [mbind result_bind]. destruct (Boundary_Add_below m (kConstant o) (rho d) o Hm) as (l & -> & Hl); [right; by exists o|]. by exists l.
  - exists (kConstant c). split; [done|]. right. by exists c.
Qed.

Lemma upper_bound_spec n : forall b, boundary_ok b -> (depth b <= n)%nat -> exists u, upper_bound range_of n b = Ok u /\ bounds_above u (val b).
Proof using Hg.
  induction n as [|n IH]; intros b Hb Hn; [destruct b; cbn in Hn; lia|]. destruct b as [| | |d o|c]; try done.
  - destruct Hb as [Ho Hs]. destruct (offset_int64 o (rho d) Ho Hs) as [Hoi _]. cbn [upper_bound IsInfinity IsNegativeInfinity IsPositiveInfinity IsConstant orb symbol IsSymbol value_ offset].
    unfold symbol. rewrite ASSERT_true by done. cbn [mbind result_bind value_].
    assert (exists m, match range_of d with None => Ok (MaxConstant kRangeBoundarySmi)
      | Some r => u ← upper_bound range_of n (max_ r); Ok (Clamp kRangeBoundarySmi u) end = Ok m /\ bounds_above m (rho d)) as (m & -> & Hm).
    { destruct (range_of d) as [r|] eqn:Er.
      - destruct (s_range _ _ _ _ Hg d r Er) as ([_ Hr] & [_ Hc] & _ & Hbef). destruct (IH (max_ r) Hr) as (u & -> & Hu).
        { cbn [depth] in Hn. destruct (max_ r); cbn in *; lia. }
        destruct (ok_cases _ Hr) as (_ & _ & _ & Hup). apply Hup in Hc. eexists. split; [done|].
        assert (bounds_above u (rho d)) as Hu' by (destruct Hu as [->|(c & -> & Hi & Hle)]; [by left | right; exists c; split; [done | split; [done | lia]]]).
        destruct (Clamp_above kRangeBoundarySmi u (rho d) Hu' (proj2 Hs)) as (c & -> & Hle & Hr2). right. exists c. split; [done|]. split; [by apply smi_int64 | done].
      - eexists. split; [done|]. right. exists kSmiMax. split; [done|]. split; [apply smi_int64; unfold is_smi in *; lia | apply Hs]. }
    cbn [mbind result_bind]. destruct (Boundary_Add_above m (kConstant o) (rho d) o Hm) as (u & -> & Hu); [right; by exists o|]. by exists u.
  - exists (kConstant c). split; [done|]. right. by exists c.
Qed.

Lemma depth_fuel b : (depth b <= fuel)%nat.
Proof using Hg. pose proof (s_fuel _ _ _ _ Hg 0). destruct b as [| | |d o|c]; cbn; try lia. pose proof (s_fuel _ _ _ _ Hg d). lia. Qed.

Lemma LowerBound_spec b : boundary_ok b -> exists l, LowerBound fuel range_of b = Ok l /\ bounds_below l (val b).
Proof using Hg. intros Hb. apply lower_bound_spec; [done | apply depth_fuel]. Qed.
Lemma UpperBound_spec b : boundary_ok b -> exists u, UpperBound fuel range_of b = Ok u /\ bounds_above u (val b).
Proof using Hg. intros Hb. apply upper_bound_spec; [done | apply depth_fuel]. Qed.

(** ** Bounds of the values of a range *)

Lemma contains_int64 r v : range_ok r -> contains r v -> is_int64 v.
Proof.
  intros [H1 H2] [Hl Hu]. apply (ok_cases _ H1) in Hl. apply (ok_cases _ H2) in Hu. pose proof (val_int64 _ H1). pose proof (val_int64 _ H2). unfold is_int64 in *. lia.
Qed.

Lemma LowerBound_range r v : range_ok r -> contains r v -> exists l, LowerBound fuel range_of (min_ r) = Ok l /\ bounds_below l v.
Proof using Hg.
  intros [H1 H2] [Hl Hu]. destruct (LowerBound_spec (min_ r) H1) as (l & E & Hb). apply (ok_cases _ H1) in Hl. exists l. split; [done|].
  destruct Hb as [->|(c & -> & Hc & Hle)]; [by left|]. right. exists c. split; [done|]. split; [done | lia].
Qed.
Lemma UpperBound_range r v : range_ok r -> contains r v -> exists u, UpperBound fuel range_of (max_ r) = Ok u /\ bounds_above u v.
Proof using Hg.
  intros [H1 H2] [Hl Hu]. destruct (UpperBound_spec (max_ r) H2) as (u & E & Hb). apply (ok_cases _ H2) in Hu. exists u. split; [done|].
  destruct Hb as [->|(c & -> & Hc & Hle)]; [by left|]. right. exists c. split; [done|]. split; [done | lia].
Qed.

Lemma int64_bounds r v : range_ok r -> contains r v ->
  exists lo hi, min_int64 fuel range_of r = Ok lo /\ max_int64 fuel range_of r = Ok hi /\ lo <= v <= hi /\ is_int64 lo /\ is_int64 hi /\
    ConstantMax fuel range_of kRangeBoundaryInt64 (Some r) = Ok (kConstant hi).
Proof using Hg.
  intros Hr Hc. pose proof (contains_int64 r v Hr Hc) as Hv. destruct (LowerBound_range r v Hr Hc) as (l & El & Hl). destruct (UpperBound_range r v Hr Hc) as (u & Eu & Hu).
  destruct (Clamp_below kRangeBoundaryInt64 l v Hl (proj1 Hv)) as (lo & Elo & Hlo & Hlo2). destruct (Clamp_above kRangeBoundaryInt64 u v Hu (proj2 Hv)) as (hi & Ehi & Hhi & Hhi2).
  exists lo, hi. unfold min_int64, max_int64, ConstantMin, ConstantMax. rewrite El, Eu. cbn [mbind result_bind]. rewrite Elo, Ehi. unfold ConstantValue. cbn [IsConstant value_].
  rewrite !ASSERT_bind by done. split_and!; try done; lia.
Qed.

(** The tests hold of the constant bounds. *)
Lemma Clamp_int64 c : is_int64 c -> Clamp kRangeBoundaryInt64 (kConstant c) = kConstant c.
Proof.
  intros Hc. unfold is_int64 in Hc. cbn [Clamp min_value max_value]. destruct (Z.leb_spec c kMinInt64); [unfold MinConstant; cbn; f_equal; lia|].
  destruct (Z.leb_spec kMaxInt64 c); [unfold MaxConstant; cbn; f_equal; lia | done].
Qed.
Lemma greater_spec r v k lo : range_ok r -> contains r v -> min_int64 fuel range_of r = Ok lo ->
  exists t, OnlyGreaterThanOrEqualTo fuel range_of r k = Ok t /\ (t = true -> k <= lo).
Proof using Hg.
  intros Hr Hc Elo. destruct (LowerBound_range r v Hr Hc) as (l & El & Hl). unfold OnlyGreaterThanOrEqualTo. unfold min_int64, ConstantMin in Elo. rewrite El in *. cbn [mbind result_bind] in *.
  destruct Hl as [->|(c & -> & Hci & Hle)]; [by exists false|]. rewrite Clamp_int64 in Elo by done. unfold ConstantValue in *. cbn [IsConstant IsNegativeInfinity value_] in *.
  rewrite ASSERT_bind in * by done. injection Elo as ->. cbn [mbind result_bind]. eexists. split; [done|]. by rewrite Z.leb_le.
Qed.
Lemma less_spec r v k hi : range_ok r -> contains r v -> max_int64 fuel range_of r = Ok hi ->
  exists t, OnlyLessThanOrEqualTo fuel range_of r k = Ok t /\ (t = true -> hi <= k).
Proof using Hg.
  intros Hr Hc Ehi. destruct (UpperBound_range r v Hr Hc) as (u & Eu & Hu). unfold OnlyLessThanOrEqualTo. unfold max_int64, ConstantMax in Ehi. rewrite Eu in *. cbn [mbind result_bind] in *.
  destruct Hu as [->|(c & -> & Hci & Hle)]; [by exists false|]. rewrite Clamp_int64 in Ehi by done. unfold ConstantValue in *. cbn [IsConstant IsPositiveInfinity value_] in *.
  rewrite ASSERT_bind in * by done. injection Ehi as ->. cbn [mbind result_bind]. eexists. split; [done|]. by rewrite Z.leb_le.
Qed.

(** ** Symbols *)

Lemma FromDefinition_spec d o : IsValidOffsetForSymbolicRangeBoundary o = true -> is_smi (rho d) ->
  exists b, FromDefinition d o = Ok b /\ boundary_ok b /\ val b = rho d + o /\ (b = kSymbol d o \/ IsConstant b = true).
Proof using Hg.
  intros Ho Hs. destruct (offset_int64 o (rho d) Ho Hs) as [_ Hi]. unfold FromDefinition.
  assert (exists b, (_ ← ASSERT (IsValidOffsetForSymbolicRangeBoundary o); Ok (kSymbol d o)) = Ok b /\ boundary_ok b /\ val b = rho d + o /\ (b = kSymbol d o \/ IsConstant b = true)) as Hsym.
  { exists (kSymbol d o). rewrite ASSERT_bind by done. split_and!; try done. by left. }
  destruct (definition d) as [[v|v|]| | |] eqn:E; try exact Hsym. destruct (s_constant _ _ _ _ Hg d v E) as [<- _]. exists (kConstant (rho d + o)). split_and!; try done. by right.
Qed.

Lemma symbolic_add_spec d o c : boundary_ok (kSymbol d o) -> is_int64 c ->
  exists r, symbolic_add (kSymbol d o) (kConstant c) = Ok r /\ forall b, r = Some b -> boundary_ok b /\ val b = rho d + o + c.
Proof using Hg.
  intros [Ho Hs] Hc. unfold symbolic_add. cbn [offset value_]. destruct (WillAddOverflow o c); [by eexists|]. destruct (IsValidOffsetForSymbolicRangeBoundary (o + c)) eqn:E; [|by eexists]. cbn [negb].
  destruct (FromDefinition_spec d (o + c) E Hs) as (b & -> & Hb & Hv & _). cbn [mbind result_bind]. eexists. split; [done|]. intros b' [= <-]. split; [done | lia].
Qed.
Lemma SymbolicAdd_spec a b : boundary_ok a -> boundary_ok b -> exists r, SymbolicAdd a b = Ok r /\ forall c, r = Some c -> boundary_ok c /\ val c = val a + val b.
Proof using Hg.
  intros Ha Hb. destruct a as [| | |d o|c], b as [| | |d' o'|c']; try done; unfold SymbolicAdd; cbn [IsSymbol IsConstant andb]; try by eexists.
  - by apply symbolic_add_spec.
  - destruct (symbolic_add_spec d' o' c Hb Ha) as (r & -> & Hr). eexists. split; [done|]. intros x Hx. destruct (Hr x Hx) as [? E]. split; [done|]. cbn in *. lia.
Qed.
Lemma SymbolicSub_spec a b : boundary_ok a -> boundary_ok b -> exists r, SymbolicSub a b = Ok r /\ forall c, r = Some c -> boundary_ok c /\ val c = val a - val b.
Proof using Hg.
  intros Ha Hb. destruct a as [| | |d o|c], b as [| | |d' o'|c']; try done; unfold SymbolicSub; cbn [IsSymbol IsConstant andb]; try by eexists.
  destruct Ha as [Ho Hs]. cbn [offset value_]. destruct (WillSubOverflow o c'); [by eexists|]. destruct (IsValidOffsetForSymbolicRangeBoundary (o - c')) eqn:E; [|by eexists]. cbn [negb].
  destruct (FromDefinition_spec d (o - c') E Hs) as (b & -> & Hbo & Hv & _). cbn [mbind result_bind]. eexists. split; [done|]. intros b' [= <-]. split; [done|]. cbn [RangeProps.val] in *. lia.
Qed.

(** ** Operations *)

(** The boundaries are those of a range that has [e], unless one is infinite. *)
Definition piece_below (b : RangeBoundary) (e : Z) : Prop := IsUnknown b = false /\ (IsInfinity b = true \/ boundary_ok b /\ lower b e).
Definition piece_above (b : RangeBoundary) (e : Z) : Prop := IsUnknown b = false /\ (IsInfinity b = true \/ boundary_ok b /\ upper b e).
Definition op_sound (m : result (RangeBoundary * RangeBoundary)) (e : Z) : Prop :=
  exists mn mx, m = Ok (mn, mx) /\ piece_below mn e /\ piece_above mx e.

Lemma below_piece l e : bounds_below l e -> piece_below l e.
Proof. intros [->|(c & -> & Hc & Hle)]; split; try done; [by left | right; by split]. Qed.
Lemma above_piece u e : bounds_above u e -> piece_above u e.
Proof. intros [->|(c & -> & Hc & Hle)]; split; try done; [by left | right; by split]. Qed.
Lemma constants_sound m lo hi e : m = Ok (kConstant lo, kConstant hi) -> lo <= e <= hi -> is_int64 lo -> is_int64 hi -> op_sound m e.
Proof. intros -> He Hlo Hhi. eexists _, _. split; [done|]. split; (split; [done|]; right; split; [done | cbn; lia]). Qed.
Lemma infinite_sound m mx e : m = Ok (kNegativeInfinity, mx) -> piece_above mx e -> op_sound m e.
Proof. intros -> Hmx. eexists _, _. split; [done|]. split; [|done]. split; [done | by left]. Qed.

Lemma left_boundary_spec d r a b : range_ok r -> contains r a -> rho d = a -> b = min_ r \/ b = max_ r ->
  exists c, left_boundary (Some d) b = Ok c /\ boundary_ok c /\ (b = min_ r -> val c <= a) /\ (b = max_ r -> a <= val c).
Proof using Hg.
  intros [H1 H2] [Hl Hu] Hd Hb. apply (ok_cases _ H1) in Hl. apply (ok_cases _ H2) in Hu. unfold left_boundary. destruct (IsArrayLength d) eqn:E.
  - destruct (FromDefinition_spec d 0) as (c & -> & Hc & Hv & _); [apply valid_offset; destruct smi_bounds as (k & ? & -> & -> & ?); unfold kMinInt64, kMaxInt64; lia | by apply (s_array _ _ _ _ Hg)|].
    exists c. split_and!; try done; lia.
  - exists b. split; [done|]. split; [by destruct Hb as [-> | ->]|]. split; by intros ->.
Qed.

(** A symbolic boundary if there is one, and a constant one otherwise. *)
Lemma symbolic_below (s : option RangeBoundary) m e : (forall c, s = Some c -> boundary_ok c /\ val c <= e) -> (exists l, m = Ok l /\ bounds_below l e) ->
  exists mn, match s with Some min => Ok min | None => m end = Ok mn /\ piece_below mn e.
Proof.
  intros Hs (l & -> & Hl). destruct s as [c|]; [|exists l; split; [done | by apply below_piece]]. destruct (Hs c eq_refl) as [Hc Hv]. destruct (ok_cases _ Hc) as (_ & Hun & Hlow & _).
  exists c. split; [done|]. split; [done|]. right. split; [done | by apply Hlow].
Qed.
Lemma symbolic_above (s : option RangeBoundary) m e : (forall c, s = Some c -> boundary_ok c /\ e <= val c) -> (exists u, m = Ok u /\ bounds_above u e) ->
  exists mx, match s with Some max => Ok max | None => m end = Ok mx /\ piece_above mx e.
Proof.
  intros Hs (u & -> & Hu). destruct s as [c|]; [|exists u; split; [done | by apply above_piece]]. destruct (Hs c eq_refl) as [Hc Hv]. destruct (ok_cases _ Hc) as (_ & Hun & _ & Hup).
  exists c. split; [done|]. split; [done|]. right. split; [done | by apply Hup].
Qed.

Lemma Range_Add_sound l r d a b : range_ok l -> range_ok r -> contains l a -> contains r b -> rho d = a -> op_sound (Range_Add fuel range_of l r (Some d)) (a + b).
Proof using Hg.
  intros Hl Hr Ha Hb Hd. unfold Range_Add. destruct (left_boundary_spec d l a (min_ l) Hl Ha Hd ltac:(by left)) as (lmin & -> & Hlmin & Vlmin & _). cbn [mbind result_bind].
  destruct (left_boundary_spec d l a (max_ l) Hl Ha Hd ltac:(by right)) as (lmax & -> & Hlmax & _ & Vlmax). cbn [mbind result_bind]. specialize (Vlmin eq_refl). specialize (Vlmax eq_refl).
  pose proof Hb as [Hb1 Hb2]. apply (ok_cases _ (proj1 Hr)) in Hb1. apply (ok_cases _ (proj2 Hr)) in Hb2.
  destruct (LowerBound_range l a Hl Ha) as (x & Ex & Hx). destruct (LowerBound_range r b Hr Hb) as (y & Ey & Hy).
  destruct (UpperBound_range l a Hl Ha) as (x' & Ex' & Hx'). destruct (UpperBound_range r b Hr Hb) as (y' & Ey' & Hy'). rewrite Ex, Ey, Ex', Ey'.
  destruct (SymbolicAdd_spec lmin (min_ r) Hlmin (proj1 Hr)) as (smin & -> & Hsmin). destruct (SymbolicAdd_spec lmax (max_ r) Hlmax (proj2 Hr)) as (smax & -> & Hsmax). cbn [mbind result_bind].
  destruct (symbolic_below smin (Boundary_Add x y kNegativeInfinity) (a + b)) as (mn & -> & Hmn); [intros c Hc; destruct (Hsmin c Hc); split; [done | lia] | by apply Boundary_Add_below|].
  destruct (symbolic_above smax (Boundary_Add y' x' kPositiveInfinity) (b + a)) as (mx & -> & Hmx); [intros c Hc; destruct (Hsmax c Hc); split; [done | lia] | by apply Boundary_Add_above|].
  rewrite (Z.add_comm b a) in Hmx. cbn [mbind result_bind]. by exists mn, mx.
Qed.

Lemma Range_Sub_sound l r d a b : range_ok l -> range_ok r -> contains l a -> contains r b -> rho d = a -> op_sound (Range_Sub fuel range_of l r (Some d)) (a - b).
Proof using Hg.
  intros Hl Hr Ha Hb Hd. unfold Range_Sub. destruct (left_boundary_spec d l a (min_ l) Hl Ha Hd ltac:(by left)) as (lmin & -> & Hlmin & Vlmin & _). cbn [mbind result_bind].
  destruct (left_boundary_spec d l a (max_ l) Hl Ha Hd ltac:(by right)) as (lmax & -> & Hlmax & _ & Vlmax). cbn [mbind result_bind]. specialize (Vlmin eq_refl). specialize (Vlmax eq_refl).
  pose proof Hb as [Hb1 Hb2]. apply (ok_cases _ (proj1 Hr)) in Hb1. apply (ok_cases _ (proj2 Hr)) in Hb2.
  destruct (LowerBound_range l a Hl Ha) as (x & Ex & Hx). destruct (LowerBound_range r b Hr Hb) as (y & Ey & Hy).
  destruct (UpperBound_range l a Hl Ha) as (x' & Ex' & Hx'). destruct (UpperBound_range r b Hr Hb) as (y' & Ey' & Hy'). rewrite Ex, Ey, Ex', Ey'.
  destruct (SymbolicSub_spec lmin (max_ r) Hlmin (proj2 Hr)) as (smin & -> & Hsmin). destruct (SymbolicSub_spec lmax (min_ r) Hlmax (proj1 Hr)) as (smax & -> & Hsmax). cbn [mbind result_bind].
  destruct (symbolic_below smin (Boundary_Sub x y' kNegativeInfinity) (a - b)) as (mn & -> & Hmn); [intros c Hc; destruct (Hsmin c Hc); split; [done | lia] | by apply Boundary_Sub_below|].
  destruct (symbolic_above smax (Boundary_Sub x' y kPositiveInfinity) (a - b)) as (mx & -> & Hmx); [intros c Hc; destruct (Hsmax c Hc); split; [done | lia] | by apply Boundary_Sub_above|].
  cbn [mbind result_bind]. by exists mn, mx.
Qed.

(** Absolute values, saturated. *)
Lemma abs_saturated x : is_int64 x -> 0 <= AbsWithSaturation x <= kMaxInt64 /\ (x <> kMinInt64 -> AbsWithSaturation x = Z.abs x) /\ (x = kMinInt64 -> AbsWithSaturation x = kMaxInt64).
Proof. unfold is_int64, AbsWithSaturation, kMinInt64, kMaxInt64. intros Hx. destruct (Z.ltb_spec x 0); [destruct (Z.eqb_spec x (- 2 ^ 63))|]; lia. Qed.
Lemma abs_bounds r v lo hi : min_int64 fuel range_of r = Ok lo -> max_int64 fuel range_of r = Ok hi -> lo <= v <= hi -> is_int64 lo -> is_int64 hi ->
  exists m M, ConstantAbsMax fuel range_of r = Ok M /\ ConstantAbsMin fuel range_of r = Ok m /\ 0 <= m <= M /\ M <= kMaxInt64 /\
    (lo <> kMinInt64 -> Z.abs v <= M /\ Z.abs lo <= M) /\ (0 <= lo -> m = lo /\ M = hi) /\ (hi <= 0 -> lo <> kMinInt64 -> m = - hi) /\ (lo = kMinInt64 -> M = kMaxInt64).
Proof.
  intros El Eh Hv Hlo Hhi. unfold ConstantAbsMax, ConstantAbsMin. rewrite El, Eh. cbn [mbind result_bind]. eexists _, _. split; [done|]. split; [done|].
  destruct (abs_saturated lo Hlo) as (A1 & A2 & A3). destruct (abs_saturated hi Hhi) as (B1 & B2 & B3). unfold is_int64, Maximum, Minimum, kMinInt64, kMaxInt64 in *.
  destruct (Z.ltb_spec (AbsWithSaturation hi) (AbsWithSaturation lo)), (Z.ltb_spec (AbsWithSaturation lo) (AbsWithSaturation hi)); lia.
Qed.

Lemma mul_abs a b M M' : Z.abs a <= M -> Z.abs b <= M' -> Z.abs (a * b) <= M * M'.
Proof. intros Ha Hb. rewrite Z.abs_mul. apply Z.mul_le_mono_nonneg; lia. Qed.
Lemma mul_mono a b a' b' : 0 <= a <= a' -> 0 <= b <= b' -> 0 <= a * b <= a' * b'.
Proof. intros Ha Hb. split; [apply Z.mul_nonneg_nonneg; lia | apply Z.mul_le_mono_nonneg; lia]. Qed.
Lemma mul_guard M M' : 0 <= M -> 0 <= M' -> (M =? 0) || (M' <=? Z.quot kMaxInt64 M) = true -> M * M' <= kMaxInt64.
Proof.
  intros HM HM' Ez. destruct (Z.eq_dec M 0) as [->|Hne]; [by vm_compute|]. rewrite (proj2 (Z.eqb_neq _ _)) in Ez by done. apply Z.leb_le in Ez.
  rewrite Z.quot_div_nonneg in Ez by (unfold kMaxInt64; lia). pose proof (Z.mul_div_le kMaxInt64 M ltac:(lia)). pose proof (Z.mul_le_mono_nonneg_l _ _ M HM Ez). lia.
Qed.

Lemma Range_Mul_sound l r a b : range_ok l -> range_ok r -> contains l a -> contains r b -> op_sound (Range_Mul fuel range_of l r) (a * b).
Proof using Hg.
  intros Hl Hr Ha Hb. destruct (int64_bounds l a Hl Ha) as (lo & hi & El & Eh & Hv & Hlo & Hhi & _). destruct (int64_bounds r b Hr Hb) as (lo' & hi' & El' & Eh' & Hv' & Hlo' & Hhi' & _).
  destruct (abs_bounds l a lo hi El Eh Hv Hlo Hhi) as (m & M & EM & Em & HmM & HM & Habs & Hpos & Hneg & Hsat).
  destruct (abs_bounds r b lo' hi' El' Eh' Hv' Hlo' Hhi') as (m' & M' & EM' & Em' & HmM' & HM' & Habs' & Hpos' & Hneg' & Hsat').
  assert (0 <= M) as M0 by (clear -HmM; lia). assert (0 <= M') as M0' by (clear -HmM'; lia). unfold Range_Mul. rewrite EM, EM'. cbn [mbind result_bind].
  assert (exists t, either (OnlyPositiveOrZero fuel range_of l r) (OnlyNegativeOrZero fuel range_of l r) = Ok t /\ (t = true -> (0 <= lo /\ 0 <= lo') \/ (hi <= 0 /\ hi' <= 0))) as (t & -> & Ht).
  { unfold either, OnlyPositiveOrZero, OnlyNegativeOrZero, both. destruct (greater_spec l a 0 lo Hl Ha El) as (t1 & -> & H1). destruct (greater_spec r b 0 lo' Hr Hb El') as (t2 & -> & H2).
    destruct (less_spec l a 0 hi Hl Ha Eh) as (t3 & -> & H3). destruct (less_spec r b 0 hi' Hr Hb Eh') as (t4 & -> & H4). cbn [mbind result_bind].
    destruct t1, t2; cbn; try (eexists; split; [done|]; by auto); (destruct t3, t4; cbn; eexists; (split; [done|]); by auto). }
  cbn [mbind result_bind]. assert (- kSmiMin < kMaxInt64) as Hsmi by (destruct smi_bounds as (k & ? & _ & -> & ?); unfold kMaxInt64; lia).
  destruct (_ && _ && _) eqn:Eg.
  - apply andb_true_iff in Eg as [Eg Ez]. apply andb_true_iff in Eg as [E1 E2]. apply Z.leb_le in E1, E2.
    pose proof (mul_guard M M' M0 M0' Ez) as HMM.
    assert (lo <> kMinInt64 /\ lo' <> kMinInt64) as [N1 N2] by (split; intros E0; [specialize (Hsat E0); clear -Hsat E1 Hsmi | specialize (Hsat' E0); clear -Hsat' E2 Hsmi]; lia).
    pose proof (mul_abs a b M M' (proj1 (Habs N1)) (proj1 (Habs' N2))) as Hprod. pose proof (Z.mul_nonneg_nonneg M M' M0 M0') as HMM0.
    assert (is_int64 (M * M') /\ is_int64 (- (M * M'))) as [I1 I2] by (clear -HMM HMM0; unfold is_int64, kMinInt64, kMaxInt64 in *; lia).
    destruct t; [|apply (constants_sound _ (- (M * M')) (M * M')); [reflexivity | clear -Hprod; lia | exact I2 | exact I1]]. rewrite Em, Em'. cbn [mbind result_bind].
    assert (0 <= m * m' <= a * b) as Hmm.
    { destruct (Ht eq_refl) as [[P1 P2]|[P1 P2]].
      - destruct (Hpos P1) as [-> _]. destruct (Hpos' P2) as [-> _]. apply mul_mono; clear -Hv Hv' P1 P2; lia.
      - rewrite (Hneg P1 N1), (Hneg' P2 N2). replace (a * b) with ((- a) * (- b)) by (clear; lia). apply mul_mono; clear -Hv Hv' P1 P2; lia. }
    apply (constants_sound _ (m * m') (M * M')); [reflexivity | clear -Hprod Hmm; lia | clear -Hmm Hprod I1; unfold is_int64, kMinInt64 in *; lia | exact I1].
  - destruct t; [|by eapply infinite_sound; [done | split; [done | by left]]]. eexists _, _. split; [done|]. split; [|by split; [|left]]. split; [done|]. right. split; [by vm_compute|].
    cbn. destruct (Ht eq_refl) as [[P1 P2]|[P1 P2]]; [|replace (a * b) with ((- a) * (- b)) by (clear; lia)]; apply Z.mul_nonneg_nonneg; clear -Hv Hv' P1 P2; lia.
Qed.

Lemma Range_TruncDiv_sound l r a b : range_ok l -> range_ok r -> contains l a -> contains r b -> op_sound (Range_TruncDiv fuel range_of l r) (Z.quot a b).
Proof using Hg.
  intros Hl Hr Ha Hb. destruct (int64_bounds l a Hl Ha) as (lo & hi & El & Eh & Hv & Hlo & Hhi & _). destruct (int64_bounds r b Hr Hb) as (lo' & hi' & El' & Eh' & Hv' & Hlo' & Hhi' & _).
  destruct (abs_bounds l a lo hi El Eh Hv Hlo Hhi) as (m & M & EM & Em & _ & _ & _ & Hpos & _ & _).
  destruct (abs_bounds r b lo' hi' El' Eh' Hv' Hlo' Hhi') as (m' & M' & EM' & Em' & _ & _ & _ & Hpos' & _ & _).
  unfold Range_TruncDiv, both. destruct (greater_spec l a 0 lo Hl Ha El) as (t1 & -> & H1). destruct (greater_spec r b 1 lo' Hr Hb El') as (t2 & -> & H2). cbn [mbind result_bind].
  destruct t1; [|by eapply infinite_sound; [done | split; [done | by left]]]. destruct t2; [|by eapply infinite_sound; [done | split; [done | by left]]].
  cbn [mbind result_bind]. rewrite EM, Em, EM', Em'. cbn [mbind result_bind]. specialize (H1 eq_refl). specialize (H2 eq_refl). destruct (Hpos H1) as [-> ->]. destruct (Hpos' ltac:(clear -H2; lia)) as [-> ->].
  clear Hpos Hpos'. assert (lo ÷ hi' <= a ÷ b <= hi ÷ lo' /\ 0 <= lo ÷ hi' /\ hi ÷ lo' <= hi) as (Hq & Hq0 & Hq1).
  { rewrite !Z.quot_div_nonneg by lia. split_and!.
    - transitivity (lo / b); [apply Z.div_le_compat_l; lia | apply Z.div_le_mono; lia].
    - transitivity (hi / b); [apply Z.div_le_mono; lia | apply Z.div_le_compat_l; lia].
    - apply Z.div_pos; lia.
    - apply Z.div_le_upper_bound; [lia|]. nia. }
  eapply constants_sound; [reflexivity | exact Hq | |]; unfold is_int64 in *; assert (kMinInt64 <= 0) by (by vm_compute); lia.
Qed.

Lemma Range_Mod_sound r a b : range_ok r -> contains r b -> b <> 0 -> op_sound (Range_Mod fuel range_of r) (a mod Z.abs b).
Proof using Hg.
  intros Hr Hb Hne. destruct (int64_bounds r b Hr Hb) as (lo & hi & El & Eh & Hv & Hlo & Hhi & _). destruct (abs_bounds r b lo hi El Eh Hv Hlo Hhi) as (m & M & EM & Em & HmM & HM & Habs & _).
  unfold Range_Mod. rewrite El, EM. cbn [mbind result_bind]. pose proof (Z.mod_pos_bound a (Z.abs b) ltac:(lia)) as Hmod. assert (Z.abs b <= 2 ^ 63) as Hb63 by (clear -Hv Hlo Hhi; unfold is_int64, kMinInt64, kMaxInt64 in *; lia).
  destruct (Z.eqb_spec lo kMinInt64) as [E|E]; cbn [negb mbind result_bind].
  - eapply constants_sound; [reflexivity | | by vm_compute | by vm_compute]. clear -Hmod Hb63. unfold kMaxInt64. lia.
  - destruct (Habs E) as [A1 _]. eapply constants_sound; [reflexivity | | by vm_compute |]; unfold Maximum; destruct (Z.ltb_spec 0 (M - 1)); clear -Hmod A1 HM HmM H1; unfold is_int64, kMinInt64, kMaxInt64 in *; lia.
Qed.

(** Shift counts. *)
Lemma shift_bounds r b : range_ok r -> contains r b -> 0 <= b -> exists s t, shift_min fuel range_of r = Ok s /\ shift_max fuel range_of r = Ok t /\ 0 <= s <= b /\ b <= t.
Proof using Hg.
  intros Hr Hb Hpos. destruct (int64_bounds r b Hr Hb) as (lo & hi & El & Eh & Hv & _). unfold shift_min, shift_max. rewrite El, Eh. cbn [mbind result_bind]. eexists _, _. split; [done|]. split; [done|].
  unfold Maximum. destruct (Z.ltb_spec 0 lo), (Z.ltb_spec 0 hi); lia.
Qed.

Lemma Boundary_Shl_spec x s ov : is_int64 x -> 0 <= s -> exists b, Boundary_Shl (kConstant x) s ov = Ok b /\ (b = ov \/ b = kConstant (x * 2 ^ s) /\ is_int64 (x * 2 ^ s)).
Proof.
  intros Hx Hs. unfold Boundary_Shl. cbn [IsConstant value_]. rewrite !ASSERT_bind by (done || by apply Z.leb_le). destruct (Z.eqb_spec x 0) as [->|Hne]; [eexists; split; [done | right; by rewrite Z.mul_0_l]|].
  destruct (Z.eqb_spec s 0) as [->|Hs0]; cbn [orb].
  { eexists. split; [done|]. right. rewrite Z.shiftl_0_r, Z.mul_1_r. split; [|done]. by rewrite swrap_small by (unfold is_int64, kMinInt64, kMaxInt64 in Hx; lia). }
  destruct (Z.ltb_spec 0 (64 - s)); cbn [andb]; [|by eexists; split; [|left]]. destruct (IsInt int64_t (64 - s) x) eqn:E; [|by eexists; split; [|left]]. eexists. split; [done|]. right.
  unfold IsInt in E. cbn [bits_of is_signed int64_t] in E. rewrite (proj2 (Z.leb_gt _ _)) in E by lia.
  assert (2 ^ (64 - s - 1) * 2 ^ s = 2 ^ 63) as Ep by (rewrite <- Z.pow_add_r by lia; f_equal; lia). assert (0 < 2 ^ (64 - s - 1)) by (apply Z.pow_pos_nonneg; lia). assert (2 ^ 1 <= 2 ^ s) by (apply Z.pow_le_mono_r; lia).
  assert (cast int64_t (1 << (64 - s - 1)) = 2 ^ (64 - s - 1) /\ cast int64_t (- 2 ^ (64 - s - 1)) = - 2 ^ (64 - s - 1)) as [E1 E2].
  { rewrite Z.shiftl_1_l. unfold cast. cbn [is_signed bits_of int64_t]. rewrite !swrap_small by nia. done. }
  rewrite E1, E2 in E. apply andb_true_iff in E as [L U]. apply Z.leb_le in L. apply Z.ltb_lt in U. rewrite Z.shiftl_mul_pow2 by done.
  assert (is_int64 (x * 2 ^ s)) as Hi by (unfold is_int64, kMinInt64, kMaxInt64; nia). split; [|done]. rewrite swrap_small by (unfold is_int64, kMinInt64, kMaxInt64 in Hi; lia). done.
Qed.

Lemma shl_mono x y s t : 0 <= s <= t -> x <= y -> (0 <= x -> x * 2 ^ s <= y * 2 ^ t) /\ (x <= 0 -> x * 2 ^ t <= y * 2 ^ s).
Proof. intros Hs Hxy. assert (0 < 2 ^ s) by (apply Z.pow_pos_nonneg; lia). assert (2 ^ s <= 2 ^ t) by (apply Z.pow_le_mono_r; lia). nia. Qed.

Lemma Range_Shl_sound l r a b : range_ok l -> range_ok r -> contains l a -> contains r b -> 0 <= b -> op_sound (Range_Shl fuel range_of l r) (a << b).
Proof using Hg.
  intros Hl Hr Ha Hb Hpos. destruct (int64_bounds l a Hl Ha) as (lo & hi & El & Eh & Hv & Hlo & Hhi & _). destruct (shift_bounds r b Hr Hb Hpos) as (s & t & Es & Et & Hs & Ht).
  unfold Range_Shl. rewrite El, Eh, Es, Et, Z.shiftl_mul_pow2 by done. cbn [mbind result_bind]. set (smin := if 0 <? lo then s else t). set (smax := if 0 <? hi then t else s).
  destruct (Boundary_Shl_spec lo smin (infinity_of lo) Hlo) as (mn & -> & Hmn); [unfold smin; destruct (0 <? lo); lia|].
  destruct (Boundary_Shl_spec hi smax (infinity_of hi) Hhi) as (mx & -> & Hmx); [unfold smax; destruct (0 <? hi); lia|]. cbn [mbind result_bind]. exists mn, mx. split; [done|].
  destruct (shl_mono lo a s b ltac:(lia) (proj1 Hv)) as [L1 _]. destruct (shl_mono lo a b t ltac:(lia) (proj1 Hv)) as [_ L2].
  destruct (shl_mono a hi b t ltac:(lia) (proj2 Hv)) as [U1 _]. destruct (shl_mono a hi s b ltac:(lia) (proj2 Hv)) as [_ U2]. split.
  - destruct Hmn as [->|[-> Hi]]; [unfold infinity_of; destruct (0 <? lo); split; try done; by left|]. split; [done|]. right. split; [done|]. cbn. unfold smin. destruct (Z.ltb_spec 0 lo); [apply L1; lia | apply L2; lia].
  - destruct Hmx as [->|[-> Hi]]; [unfold infinity_of; destruct (0 <? hi); split; try done; by left|]. split; [done|]. right. split; [done|]. cbn. unfold smax. destruct (Z.ltb_spec 0 hi) as [Hh|Hh]; [|apply U2; lia].
    destruct (Z.le_gt_cases 0 a); [apply U1; lia|]. assert (0 < 2 ^ b) by (apply Z.pow_pos_nonneg; lia). assert (0 < 2 ^ t) by (apply Z.pow_pos_nonneg; lia). nia.
Qed.

Lemma Boundary_Shr_spec x s : is_int64 x -> 0 <= s -> Boundary_Shr (kConstant x) s = Ok (kConstant (x >> s)) /\ is_int64 (x >> s).
Proof.
  intros Hx Hs. destruct (shiftr_int64 x s Hs Hx) as [Hi H63]. split; [|done]. unfold Boundary_Shr. cbn [IsConstant value_]. rewrite !ASSERT_bind by (done || by apply Z.leb_le).
  destruct (Z.leb_spec s 63); [done|]. by rewrite H63 by done.
Qed.
Lemma Range_Shr_sound l r a b : range_ok l -> range_ok r -> contains l a -> contains r b -> 0 <= b -> op_sound (Range_Shr fuel range_of l r) (a >> b).
Proof using Hg.
  intros Hl Hr Ha Hb Hpos. destruct (int64_bounds l a Hl Ha) as (lo & hi & El & Eh & Hv & Hlo & Hhi & _). destruct (shift_bounds r b Hr Hb Hpos) as (s & t & Es & Et & Hs & Ht).
  unfold Range_Shr. rewrite El, Eh, Es, Et. cbn [mbind result_bind]. set (smin := if 0 <? lo then t else s). set (smax := if 0 <? hi then s else t).
  destruct (Boundary_Shr_spec lo smin Hlo) as [-> I1]; [unfold smin; destruct (0 <? lo); lia|]. destruct (Boundary_Shr_spec hi smax Hhi) as [-> I2]; [unfold smax; destruct (0 <? hi); lia|].
  cbn [mbind result_bind]. apply (constants_sound _ (lo >> smin) (hi >> smax)); [done | | done | done]. unfold smin, smax. split.
  - destruct (Z.ltb_spec 0 lo); [apply (shiftr_value lo b a t); lia|]. transitivity (lo >> b); [apply (shiftr_value lo s lo b); lia|]. rewrite !Z.shiftr_div_pow2 by done. apply Z.div_le_mono; [apply Z.pow_pos_nonneg|]; lia.
  - destruct (Z.ltb_spec 0 hi); [|apply (shiftr_value a b hi t); lia]. transitivity (hi >> b); [|apply (shiftr_value hi s hi b); lia]. rewrite !Z.shiftr_div_pow2 by done. apply Z.div_le_mono; [apply Z.pow_pos_nonneg|]; lia.
Qed.

Lemma Range_Ushr_sound l r a b : range_ok l -> range_ok r -> contains l a -> contains r b -> 0 <= b -> op_sound (Range_Ushr fuel range_of l r) (swrap 64 (uwrap 64 a >> b)).
Proof using Hg.
  intros Hl Hr Ha Hb Hpos. destruct (int64_bounds l a Hl Ha) as (lo & hi & El & Eh & Hv & Hlo & Hhi & _). destruct (shift_bounds r b Hr Hb Hpos) as (s & t & Es & Et & Hs & Ht).
  unfold Range_Ushr. rewrite El, Eh, Es, Et. cbn [mbind result_bind]. destruct (to_unsigned lo hi a Hv Hlo Hhi) as (p & q & -> & Hp & Hq). cbn [mbind result_bind]. set (u := uwrap 64 a) in *.
  assert (forall x n, 0 <= n -> 0 <= x < 2 ^ 64 -> (if 64 <=? n then 0 else x >> n) = x >> n) as Hbig.
  { intros x n Hn Hx. destruct (Z.leb_spec 64 n); [|done]. rewrite Z.shiftr_div_pow2 by done. symmetry. apply Z.div_small. assert (2 ^ 64 <= 2 ^ n) by (apply Z.pow_le_mono_r; lia). lia. }
  rewrite !Hbig by lia. assert (p >> t <= u >> b) by (apply (shiftr_value p b u t); lia). assert (u >> b <= q >> s) by (apply (shiftr_value u s q b); lia).
  assert (0 <= p >> t) by (apply Z.shiftr_nonneg; lia). assert (q >> s <= q) by (rewrite <- (Z.shiftr_0_r q) at 2; apply (shiftr_value q 0 q s); lia).
  destruct (to_signed (p >> t) (q >> s) (u >> b)) as (x & y & -> & He & Hx & Hy); [lia | lia|]. cbn [mbind result_bind]. by eapply constants_sound.
Qed.

(** The bits of the values of a range. *)
Lemma BitSize_spec r v : range_ok r -> contains r v -> exists n, BitSize fuel range_of r = Ok n /\ 0 <= n <= 63 /\ - 2 ^ n <= v < 2 ^ n.
Proof using Hg.
  intros Hr Hv. destruct (int64_bounds r v Hr Hv) as (lo & hi & El & Eh & Hlh & Hlo & Hhi & _). unfold BitSize. rewrite El, Eh. cbn [mbind result_bind]. eexists. split; [done|].
  destruct (BitLength_spec lo Hlo) as [L1 L2]. destruct (BitLength_spec hi Hhi) as [U1 U2]. set (m := BitLength lo) in *. set (k := BitLength hi) in *. unfold Maximum. destruct (Z.ltb_spec k m).
  - assert (2 ^ k <= 2 ^ m) by (apply Z.pow_le_mono_r; lia). lia.
  - assert (2 ^ m <= 2 ^ k) by (apply Z.pow_le_mono_r; lia). lia.
Qed.

Lemma BitwiseOp_sound l r a b e : range_ok l -> range_ok r -> contains l a -> contains r b -> e = a .& b \/ e = a .| b \/ e = a .^ b -> op_sound (BitwiseOp fuel range_of l r) e.
Proof using Hg.
  intros Hl Hr Ha Hb He. destruct (int64_bounds l a Hl Ha) as (lo & hi & El & Eh & Hv & _). destruct (int64_bounds r b Hr Hb) as (lo' & hi' & El' & Eh' & Hv' & _).
  destruct (BitSize_spec l a Hl Ha) as (n & En & Hn & Hna). destruct (BitSize_spec r b Hr Hb) as (n' & En' & Hn' & Hnb). unfold BitwiseOp. rewrite En, En'. cbn [mbind result_bind].
  unfold both, IsPositive. destruct (greater_spec l a 0 lo Hl Ha El) as (t1 & -> & H1). destruct (greater_spec r b 0 lo' Hr Hb El') as (t2 & -> & H2). cbn [mbind result_bind].
  set (k := Maximum n n'). assert (0 <= k <= 63 /\ n <= k /\ n' <= k) as (Hk & K1 & K2) by (unfold k, Maximum; destruct (Z.ltb_spec n' n); lia).
  assert (2 ^ n <= 2 ^ k) by (apply Z.pow_le_mono_r; lia). assert (2 ^ n' <= 2 ^ k) by (apply Z.pow_le_mono_r; lia). assert (2 ^ k <= 2 ^ 63) by (apply Z.pow_le_mono_r; lia).
  assert (- 2 ^ k <= e < 2 ^ k) as Hek by (destruct (bitwise_bits k a b) as (B1 & B2 & B3); [lia | lia | lia|]; destruct He as [-> | [-> | ->]]; lia).
  assert (0 <= a -> 0 <= b -> 0 <= e) as Hpos.
  { intros P1 P2. destruct He as [-> | [-> | ->]]; [apply Z.land_nonneg; by left | by apply Z.lor_nonneg | apply Z.lxor_nonneg; lia]. }
  rewrite Z.shiftl_1_l, !swrap_small by lia. assert (is_int64 0 /\ is_int64 (2 ^ k - 1) /\ is_int64 (- 2 ^ k)) as (I1 & I2 & I3) by (unfold is_int64, kMinInt64, kMaxInt64; lia).
  destruct t1; [|cbn [mbind result_bind]; eapply constants_sound; [reflexivity | lia | done | done]].
  cbn [mbind result_bind]. destruct t2; (eapply constants_sound; [reflexivity | | done | done]); [|lia]. specialize (H1 eq_refl). specialize (H2 eq_refl). lia.
Qed.

Lemma Range_And_sound l r a b : range_ok l -> range_ok r -> contains l a -> contains r b -> op_sound (Range_And fuel range_of l r) (a .& b).
Proof using Hg.
  intros Hl Hr Ha Hb. destruct (int64_bounds l a Hl Ha) as (lo & hi & El & Eh & Hv & _ & Hhi & Em). destruct (int64_bounds r b Hr Hb) as (lo' & hi' & El' & Eh' & Hv' & _ & Hhi' & Em').
  assert (is_int64 0) as I0 by (by vm_compute). unfold Range_And. rewrite El', Em', El, Em. cbn [mbind result_bind]. destruct (Z.leb_spec 0 lo').
  - pose proof (land_le a b ltac:(lia)). eapply constants_sound; [reflexivity | lia | done | done].
  - destruct (Z.leb_spec 0 lo); [|by apply (BitwiseOp_sound l r a b); auto]. rewrite Z.land_comm. pose proof (land_le b a ltac:(lia)). eapply constants_sound; [reflexivity | lia | done | done].
Qed.
End Facts.

(** ** The result of an operation *)

(** The exact result of an integer operation, if it does not throw; [kUSHR] shifts the 64 bits of
    its operand.  The result of a 64-bit operation is this number with the wrap-around. *)
Definition exact (op : TokenKind) (a b : Z) : option Z :=
  match op with
  | kADD => Some (a + b)
  | kSUB => Some (a - b)
  | kMUL => Some (a * b)
  | kTRUNCDIV => if b =? 0 then None else Some (Z.quot a b)
  | kMOD => if b =? 0 then None else Some (a mod Z.abs b)
  | kSHL => if b <? 0 then None else Some (a << b)
  | kSHR => if b <? 0 then None else Some (a >> b)
  | kUSHR => if b <? 0 then None else Some (swrap 64 (uwrap 64 a >> b))
  | kBIT_AND => Some (a .& b)
  | kBIT_OR => Some (a .| b)
  | kBIT_XOR => Some (a .^ b)
  | _ => None
  end.

Section Operations.
Context `{Target} `{FlowGraph} (rho : Z -> Z) (rank : Z -> nat) (fuel : nat) (range_of : ranges).
Context (Hg : sound rho rank fuel range_of).

Lemma operation_sound op l r d a b e : range_ok rho l -> range_ok rho r -> contains rho l a -> contains rho r b -> rho d = a -> exact op a b = Some e ->
  exists m, operation fuel range_of op l r (Some d) = Some m /\ op_sound rho m e.
Proof using Hg.
  intros Hl Hr Ha Hb Hd He. destruct op; cbn [exact operation] in *; try discriminate He;
    repeat match type of He with (if ?c then _ else _) = _ => destruct c eqn:E; [discriminate He|] end; injection He as <-; (eexists; split; [reflexivity|]).
  - by eapply Range_Add_sound.
  - by eapply Range_Sub_sound.
  - by eapply Range_Mul_sound.
  - by eapply Range_TruncDiv_sound.
  - eapply Range_Mod_sound; try done. by apply Z.eqb_neq.
  - eapply Range_Shl_sound; try done. by apply Z.ltb_ge.
  - eapply Range_Shr_sound; try done. by apply Z.ltb_ge.
  - eapply Range_Ushr_sound; try done. by apply Z.ltb_ge.
  - by eapply Range_And_sound.
  - eapply BitwiseOp_sound; try done. auto.
  - eapply BitwiseOp_sound; try done. auto.
Qed.

(** The range has the exact result, or is that of all 64-bit numbers. *)
Lemma BinaryOp_sound op l r d a b e : range_ok rho l -> range_ok rho r -> contains rho l a -> contains rho r b -> rho d = a -> exact op a b = Some e ->
  exists range, BinaryOp fuel range_of op l r (Some d) = Ok range /\ range_ok rho range /\ (contains rho range e \/ range = Full kRangeBoundaryInt64).
Proof using Hg.
  intros Hl Hr Ha Hb Hd He. destruct (operation_sound op l r d a b e Hl Hr Ha Hb Hd He) as (m & Em & mn & mx & -> & [Un Hmn] & [Ux Hmx]). unfold BinaryOp.
  assert (forall x, range_ok rho x -> IsFinite x = true) as Hfin by (intros x [X1 X2]; unfold IsFinite; by rewrite (proj1 (ok_cases rho _ X1)), (proj1 (ok_cases rho _ X2))).
  rewrite !ASSERT_bind by (by apply Hfin). rewrite Em. cbn [mbind result_bind]. rewrite ASSERT_bind by (by rewrite Un, Ux). unfold new_Range. rewrite Un, Ux.
  assert (range_ok rho (Full kRangeBoundaryInt64)) as Hfull by (split; by vm_compute).
  destruct (IsInfinity mn) eqn:In; [|destruct (IsInfinity mx) eqn:Ix].
  - rewrite ASSERT_bind by (by destruct mn). rewrite ASSERT_bind by done. cbn [orb]. eexists. split; [done|]. split; [done | by right].
  - rewrite ASSERT_bind by (by destruct mn, mx). rewrite ASSERT_bind by done. cbn [orb]. eexists. split; [done|]. split; [done | by right].
  - destruct Hmn as [?|[Bn Ln]]; [congruence|]. destruct Hmx as [?|[Bx Lx]]; [congruence|]. rewrite ASSERT_bind.
    + rewrite ASSERT_bind by done. cbn [orb]. eexists. split; [done|]. split; [by split | left; by split].
    + destruct mn, mx; try done. cbn in *. apply Z.leb_le. lia.
Qed.

Lemma Overflowed_constant size c : Overflowed fuel size (kConstant c) = Ok (negb ((min_value size <=? c) && (c <=? max_value size))).
Proof.
  pose proof (size_int64 size). unfold Overflowed, Equals. cbn [IsConstantOrInfinity IsConstant IsInfinity IsNegativeInfinity IsPositiveInfinity orb andb Clamp]. rewrite ASSERT_bind by done.
  destruct (Z.leb_spec c (min_value size)); [|destruct (Z.leb_spec (max_value size) c)]; cbn [MinConstant MaxConstant IsConstant value_ mbind result_bind]; do 2 f_equal;
    rewrite ?andb_true_l; repeat match goal with |- context [?x =? ?y] => destruct (Z.eqb_spec x y) | |- context [?x <=? ?y] => destruct (Z.leb_spec x y) end; cbn [andb]; done || lia.
Qed.
Lemma Overflowed_below size l v : bounds_below l v -> exists t, Overflowed fuel size l = Ok t /\ (t = false -> exists c, l = kConstant c /\ min_value size <= c <= max_value size).
Proof.
  intros [->|(c & -> & _ & _)]; [by exists true; unfold Overflowed; rewrite ASSERT_bind by done|]. rewrite Overflowed_constant. eexists. split; [done|]. intros Ht. apply negb_false_iff, andb_true_iff in Ht as [L U].
  apply Z.leb_le in L, U. by exists c.
Qed.
Lemma Overflowed_above size u v : bounds_above u v -> exists t, Overflowed fuel size u = Ok t /\ (t = false -> exists c, u = kConstant c /\ min_value size <= c <= max_value size).
Proof.
  intros [->|(c & -> & _ & _)]; [by exists true; unfold Overflowed; rewrite ASSERT_bind by done|]. rewrite Overflowed_constant. eexists. split; [done|]. intros Ht. apply negb_false_iff, andb_true_iff in Ht as [L U].
  apply Z.leb_le in L, U. by exists c.
Qed.

Lemma Fits_spec size r : range_ok rho r -> exists t, Fits fuel range_of size r = Ok t /\
  (t = true -> (forall v, contains rho r v -> min_value size <= v <= max_value size) /\ min_value size <= val rho (min_ r)).
Proof using Hg.
  intros [H1 H2]. destruct (LowerBound_spec rho rank fuel range_of Hg (min_ r) H1) as (l & El & Hl). destruct (UpperBound_spec rho rank fuel range_of Hg (max_ r) H2) as (u & Eu & Hu).
  destruct (Overflowed_below size l _ Hl) as (t1 & E1 & T1). destruct (Overflowed_above size u _ Hu) as (t2 & E2 & T2). unfold Fits. rewrite El. cbn [mbind result_bind]. rewrite E1. cbn [mbind result_bind].
  destruct t1; cbn [negb]; [by exists false|]. rewrite Eu. cbn [mbind result_bind]. rewrite E2. cbn [mbind result_bind]. eexists. split; [done|]. destruct t2; [done|]. intros _.
  destruct (T1 eq_refl) as (c & -> & Hc). destruct (T2 eq_refl) as (c' & -> & Hc'). destruct Hl as [?|(x & [= <-] & _ & Hx)]; [done|]. destruct Hu as [?|(y & [= <-] & _ & Hy)]; [done|].
  split; [|lia]. intros v [Hv1 Hv2]. apply (ok_cases rho _ H1) in Hv1. apply (ok_cases rho _ H2) in Hv2. lia.
Qed.

Lemma Clamp_ok size b : boundary_ok rho b -> boundary_ok rho (Clamp size b).
Proof.
  pose proof (size_int64 size). destruct b as [| | |d o|c]; cbn [Clamp]; try done. intros Hc. destruct (c <=? min_value size); [cbn; unfold is_int64; lia|]. destruct (max_value size <=? c); [cbn; unfold is_int64; lia | done].
Qed.
Lemma Range_Clamp_spec size r : range_ok rho r -> range_ok rho (Range_Clamp size r) /\
  forall v, contains rho r v -> min_value size <= v <= max_value size -> contains rho (Range_Clamp size r) v.
Proof.
  intros [H1 H2]. split; [split; by apply Clamp_ok|]. intros v [L U] Hv. split; cbn [Range_Clamp min_ max_].
  - destruct (min_ r) as [| | |d o|c]; cbn [Clamp] in *; try done. cbn in L. destruct (Z.leb_spec c (min_value size)); [cbn; lia|]. destruct (Z.leb_spec (max_value size) c); cbn; lia.
  - destruct (max_ r) as [| | |d o|c]; cbn [Clamp] in *; try done. cbn in U. destruct (Z.leb_spec c (min_value size)); [cbn; lia|]. destruct (Z.leb_spec (max_value size) c); cbn; lia.
Qed.
End Operations.

(** C4 The range inferred for an integer operation is sound: for operands in their ranges, whose
    symbols have the values [rho], [InferRangeHelper] returns without a failed assertion, the
    inferred range has the 64-bit result if that is of the size of the operation, and an operation
    on less than 64 bits that is said not to overflow does not: its exact result is of that size. *)
Theorem inferred_range_sound `{Target} `{FlowGraph} rho rank fuel range_of op l r d size a b e : sound rho rank fuel range_of ->
  range_ok rho l -> range_ok rho r -> contains rho l a -> contains rho r b -> rho d = a -> exact op a b = Some e ->
  exists range can_overflow, InferRangeHelper fuel range_of op (Some l) (Some r) d size = Ok (Some (range, can_overflow)) /\ range_ok rho range /\
    (min_value size <= swrap 64 e <= max_value size -> contains rho range (swrap 64 e)) /\
    (can_overflow = false -> size <> kRangeBoundaryInt64 -> min_value size <= e <= max_value size).
Proof.
  intros Hg Hl Hr Ha Hb Hd He. destruct (BinaryOp_sound rho rank fuel range_of Hg op l r d a b e Hl Hr Ha Hb Hd He) as (range & E & Hok & Hc).
  destruct (Fits_spec rho rank fuel range_of Hg size range Hok) as (t & Et & Ht). destruct (Range_Clamp_spec rho size range Hok) as [Hok' Hclamp].
  exists (Range_Clamp size range), (negb t). unfold InferRangeHelper. destruct (ok_cases rho _ (proj1 Hl)) as (_ & -> & _). destruct (ok_cases rho _ (proj1 Hr)) as (_ & -> & _). cbn [orb].
  rewrite E. cbn [mbind result_bind]. rewrite ASSERT_bind by (by destruct (ok_cases rho _ (proj1 Hok)) as (_ & -> & _)). rewrite Et. split; [done|]. split; [done|]. split.
  - intros Hs. apply Hclamp; [|done]. destruct Hc as [Hc| ->].
    + pose proof (contains_int64 rho range e Hok Hc) as Hi. rewrite swrap_small by (unfold is_int64, kMinInt64, kMaxInt64 in Hi; lia). done.
    + pose proof (swrap_bound 64 ltac:(lia) e). split; cbn; unfold kMinInt64, kMaxInt64; lia.
  - intros Hf Hsz. apply negb_false_iff in Hf. destruct (Ht Hf) as [Hfit Hmin]. destruct Hc as [Hc| ->]; [by apply Hfit|]. exfalso. cbn in Hmin. destruct smi_bounds as (k & Hk & _ & E2 & Hb2).
    destruct size; cbn in Hmin; rewrite ?E2 in Hmin; unfold kMinInt64 in Hmin; try done; lia.
Qed.

(** ** Canonical boundaries *)

Section Canonical.
Context `{Target} `{FlowGraph} (rho : Z -> Z) (rank : Z -> nat) (fuel : nat) (range_of : ranges).
Context (Hg : sound rho rank fuel range_of).

(** The length of the chains that start at a boundary. *)
Definition chain (b : RangeBoundary) : nat := match b with kSymbol d _ => S (rank d) | _ => 0 end.

Lemma chain_fuel b : (chain b < fuel)%nat.
Proof using Hg. pose proof (s_fuel _ _ _ _ Hg 0). destruct b as [| | |d o|c]; cbn; try lia. apply (s_fuel _ _ _ _ Hg). Qed.

Lemma UnwrapConstraint_spec n : forall d, (rank d < n)%nat -> exists e, UnwrapConstraint n d = Ok e /\ rho e = rho d.
Proof using Hg.
  induction n as [|n IH]; intros d Hd; [lia|]. cbn [UnwrapConstraint]. destruct (definition d) eqn:E; try by eexists. destruct (s_constraint _ _ _ _ Hg _ _ _ E) as [Ev Hr].
  destruct (IH value ltac:(lia)) as (e & -> & He). exists e. split; [done | congruence].
Qed.

Lemma DependOnSameSymbol_spec a b : exists t, DependOnSameSymbol fuel a b = Ok t /\ (t = true -> IsSymbol a = true /\ IsSymbol b = true /\ rho (value_ a) = rho (value_ b)).
Proof using Hg.
  unfold DependOnSameSymbol. destruct (IsSymbol a), (IsSymbol b); cbn [andb]; try by exists false. unfold AreEqualDefinitions.
  destruct (UnwrapConstraint_spec fuel (value_ a)) as (x & -> & Hx); [pose proof (s_fuel _ _ _ _ Hg (value_ a)); lia|].
  destruct (UnwrapConstraint_spec fuel (value_ b)) as (y & -> & Hy); [pose proof (s_fuel _ _ _ _ Hg (value_ b)); lia|]. cbn [mbind result_bind]. eexists. split; [done|].
  intros Ht. split_and!; try done. rewrite <- Hx, <- Hy. apply orb_true_iff in Ht as [Ht|Ht]; [apply Z.eqb_eq in Ht; by f_equal | by apply (s_cse _ _ _ _ Hg)].
Qed.

Lemma Smi_value_spec d o : definition d = ConstantInstr o -> (exists v, o = Smi v) -> Smi_value o = Ok (rho d).
Proof using Hg. intros E [v ->]. by destruct (s_constant _ _ _ _ Hg d v E) as [-> _]. Qed.

Lemma canonicalize_spec n : forall s o, (rank s < n)%nat -> is_smi (rho s) -> exists c, canonicalize n s o = Ok c /\
  forall s' o', c = Some (s', o') -> rho s' + o' = rho s + o /\ is_smi (rho s') /\ (rank s' <= rank s)%nat.
Proof using Hg.
  induction n as [|n IH]; intros s o Hn Hs; [lia|].
  assert (exists c, @Ok (option (Z * Z)) (Some (s, o)) = Ok c /\ forall s' o', c = Some (s', o') -> rho s' + o' = rho s + o /\ is_smi (rho s') /\ (rank s' <= rank s)%nat) as Hstop.
  { eexists. split; [done|]. by intros s' o' [= <- <-]. }
  assert (forall x y (Hx : is_smi (rho x)) (Hr : (rank x < rank s)%nat) (Hv : rho x + y = rho s + o), exists c, canonicalize n x y = Ok c /\
    forall s' o', c = Some (s', o') -> rho s' + o' = rho s + o /\ is_smi (rho s') /\ (rank s' <= rank s)%nat) as Hstep.
  { intros x y Hx Hr Hv. destruct (IH x y ltac:(lia) Hx) as (c & E & Hc). exists c. split; [done|]. intros s' o' Hs'. destruct (Hc s' o' Hs') as (E1 & E2 & E3). split; [lia|]. split; [done | lia]. }
  assert (exists c, @Ok (option (Z * Z)) None = Ok c /\ forall s' o', c = Some (s', o') -> rho s' + o' = rho s + o /\ is_smi (rho s') /\ (rank s' <= rank s)%nat) as Hnone by by eexists.
  cbn [canonicalize]. destruct (definition s) as [ob|value c|op l r|] eqn:E; try exact Hstop.
  - destruct (s_constraint _ _ _ _ Hg _ _ _ E) as [Ev Hr]. apply Hstep; [by rewrite <- Ev | done | lia].
  - destruct (s_binary _ _ _ _ Hg _ _ _ _ E) as (Hl & Hr & Rl & Rr & Hadd & Hsub & Hconst). destruct op; try exact Hstop.
    + specialize (Hadd eq_refl). destruct (definition r) as [ob| | |] eqn:Er.
      1: rewrite (Smi_value_spec r ob Er) by (apply Hconst; by right); cbn [mbind result_bind]; destruct (WillAddOverflow _ _); [exact Hnone | apply Hstep; [done | done | lia]].
      all: destruct (definition l) as [ob| | |] eqn:El; try exact Hstop; rewrite (Smi_value_spec l ob El) by (apply Hconst; by left); cbn [mbind result_bind];
        (destruct (WillAddOverflow _ _); [exact Hnone | apply Hstep; [done | done | lia]]).
    + specialize (Hsub eq_refl). destruct (definition r) as [ob| | |] eqn:Er; try exact Hstop.
      rewrite (Smi_value_spec r ob Er) by (apply Hconst; by right). cbn [mbind result_bind]. destruct (WillSubOverflow _ _); [exact Hnone | apply Hstep; [done | done | lia]].
Qed.

Lemma CanonicalizeBoundary_spec a ov : boundary_ok rho a -> exists c, CanonicalizeBoundary fuel a ov = Ok c /\
  (c = ov \/ boundary_ok rho c /\ val rho c = val rho a /\ (chain c <= chain a)%nat).
Proof using Hg.
  intros Ha. unfold CanonicalizeBoundary. destruct a as [| | |d o|c]; try done; [|by exists (kConstant c); split; [|right]]. cbn [IsConstant IsInfinity IsNegativeInfinity IsPositiveInfinity orb symbol IsSymbol value_ offset].
  unfold symbol. rewrite ASSERT_bind by done. cbn [mbind result_bind value_]. destruct Ha as [Ho Hs]. destruct (canonicalize_spec fuel d o) as (c & -> & Hc); [pose proof (s_fuel _ _ _ _ Hg d); lia | done|]. cbn [mbind result_bind].
  destruct c as [[s o']|]; [|by exists ov; split; [|left]]. destruct (Hc s o' eq_refl) as (Ev & Hs' & Hr). destruct (IsValidOffsetForSymbolicRangeBoundary o') eqn:Eo; cbn [negb]; [|by exists ov; split; [|left]].
  destruct (FromDefinition_spec rho rank fuel range_of Hg s o' Eo Hs') as (b & -> & Hb & Vb & Sb). exists b. split; [done|]. right. split; [done|]. split; [rewrite Vb; cbn; lia|].
  destruct Sb as [->|Hcst]; [cbn; lia | destruct b; try done; cbn; lia].
Qed.

Lemma canonical_of_spec bound ov a d : boundary_ok rho bound -> IsSymbol bound = true -> before rank bound d -> a = kSymbol d (offset a) ->
  exists c, canonical_of fuel bound ov a = Ok (Some c) /\ (c = ov \/ boundary_ok rho c /\ val rho c = val rho bound + offset a /\ (chain c < chain a)%nat).
Proof using Hg.
  intros Hb Hsym Hbef Ea. unfold canonical_of. destruct bound as [| | |s o|]; try done. cbn [offset value_ before] in *. destruct Hb as [Ho Hs].
  destruct (WillAddOverflow o (offset a)); [by eexists; split; [|left]|]. destruct (IsValidOffsetForSymbolicRangeBoundary (o + offset a)) eqn:Eo; cbn [negb]; [|by eexists; split; [|left]].
  destruct (FromDefinition_spec rho rank fuel range_of Hg s (o + offset a) Eo Hs) as (b & -> & Hbk & Vb & Sb). cbn [mbind result_bind].
  destruct (CanonicalizeBoundary_spec b ov Hbk) as (c & -> & Hc). cbn [mbind result_bind]. exists c. split; [done|]. destruct Hc as [->|(Hok & Hv & Hch)]; [by left | right].
  split; [done|]. split; [cbn [val] in *; lia|]. rewrite Ea. destruct Sb as [->|Hcst]; [cbn in *; lia | destruct b; try done; cbn in *; lia].
Qed.

Lemma CanonicalizeMaxBoundary_spec a : exists c, CanonicalizeMaxBoundary fuel range_of a = Ok c /\
  forall c', c = Some c' -> (c' = kPositiveInfinity \/ boundary_ok rho c') /\ (forall v, upper rho a v -> upper rho c' v) /\ (chain c' < chain a)%nat.
Proof using Hg.
  unfold CanonicalizeMaxBoundary. destruct a as [| | |d o|c]; try by eexists. cbn [IsSymbol negb value_]. destruct (range_of d) as [r|] eqn:Er; [|by eexists].
  destruct (s_range _ _ _ _ Hg d r Er) as ([_ Hr] & [_ Hc] & _ & Hbef). destruct (IsSymbol (max_ r)) eqn:Es; cbn [negb]; [|by eexists].
  destruct (canonical_of_spec (max_ r) kPositiveInfinity (kSymbol d o) d Hr Es Hbef eq_refl) as (c & -> & Hcc). eexists. split; [done|]. intros c' [= <-].
  destruct Hcc as [->|(Hok & Hv & Hch)]; [split; [by left|]; split; [done | cbn; lia]|]. split; [by right|]. split; [|done]. intros v Hu. apply (ok_cases rho _ Hok). apply (ok_cases rho _ Hr) in Hc. cbn in Hu. cbn [offset] in Hv. lia.
Qed.
Lemma CanonicalizeMinBoundary_spec a : exists c, CanonicalizeMinBoundary fuel range_of a = Ok c /\
  forall c', c = Some c' -> (c' = kNegativeInfinity \/ boundary_ok rho c') /\ (forall v, lower rho a v -> lower rho c' v) /\ (chain c' < chain a)%nat.
Proof using Hg.
  unfold CanonicalizeMinBoundary. destruct a as [| | |d o|c]; try by eexists. cbn [IsSymbol negb value_]. destruct (range_of d) as [r|] eqn:Er; [|by eexists].
  destruct (s_range _ _ _ _ Hg d r Er) as ([Hr _] & [Hc _] & Hbef & _). destruct (IsSymbol (min_ r)) eqn:Es; cbn [negb]; [|by eexists].
  destruct (canonical_of_spec (min_ r) kNegativeInfinity (kSymbol d o) d Hr Es Hbef eq_refl) as (c & -> & Hcc). eexists. split; [done|]. intros c' [= <-].
  destruct Hcc as [->|(Hok & Hv & Hch)]; [split; [by left|]; split; [done | cbn; lia]|]. split; [by right|]. split; [|done]. intros v Hu. apply (ok_cases rho _ Hok). apply (ok_cases rho _ Hr) in Hc. cbn in Hu. cbn [offset] in Hv. lia.
Qed.

(** The loop ends, and keeps what its steps keep. *)
Lemma same_symbol_spec opa opb (I J : RangeBoundary -> Prop) :
  (forall a, I a -> exists c, opa a = Ok c /\ forall c', c = Some c' -> I c' /\ (chain c' < chain a)%nat) ->
  (forall b, J b -> exists c, opb b = Ok c /\ forall c', c = Some c' -> J c' /\ (chain c' < chain b)%nat) ->
  forall n a b, I a -> J b -> (chain a + chain b < n)%nat -> exists c, same_symbol fuel n opa opb a b = Ok c /\
    forall a' b', c = Some (a', b') -> I a' /\ J b' /\ IsSymbol a' = true /\ IsSymbol b' = true /\ rho (value_ a') = rho (value_ b').
Proof using Hg.
  intros Ha Hb. induction n as [|n IH]; intros a b Ia Jb Hn; [lia|]. cbn [same_symbol]. destruct (DependOnSameSymbol_spec a b) as (t & -> & Ht). cbn [mbind result_bind]. destruct t.
  { eexists. split; [done|]. intros a' b' [= <- <-]. by destruct (Ht eq_refl) as (? & ? & ?). }
  destruct (Ha a Ia) as (ca & -> & Hca). cbn [mbind result_bind]. destruct ca as [a'|]; [destruct (Hca a' eq_refl) as [I' Hc']; apply IH; [done | done | lia]|].
  destruct (Hb b Jb) as (cb & -> & Hcb). cbn [mbind result_bind]. destruct cb as [b'|]; [destruct (Hcb b' eq_refl) as [J' Hc']; apply IH; [done | done | lia]|]. by eexists.
Qed.
End Canonical.

(** ** Bounds checks *)

Section Redundant.
Context `{Target} `{FlowGraph} (rho : Z -> Z) (rank : Z -> nat) (fuel : nat).

Lemma ConstantValue_constant c : ConstantValue (kConstant c) = Ok c.
Proof. unfold ConstantValue. by rewrite ASSERT_bind. Qed.

Lemma Clamp_constant size l v : bounds_below l v \/ bounds_above l v -> exists c, Clamp size l = kConstant c /\ min_value size <= c <= max_value size /\
  (bounds_below l v -> min_value size < c -> c <= v) /\ (bounds_above l v -> c < max_value size -> v <= c).
Proof.
  pose proof (size_int64 size). assert (forall c0, exists c, Clamp size (kConstant c0) = kConstant c /\ min_value size <= c <= max_value size /\ (min_value size < c -> c <= c0) /\ (c < max_value size -> c0 <= c)) as Hc0.
  { intros c0. cbn [Clamp]. destruct (Z.leb_spec c0 (min_value size)); [exists (min_value size); split; [done | lia]|]. destruct (Z.leb_spec (max_value size) c0); [exists (max_value size) | exists c0]; (split; [done | lia]). }
  intros [[->|(c0 & -> & _ & Hle)]|[->|(c0 & -> & _ & Hle)]].
  - exists (min_value size). split; [done|]. split; [lia|]. split; [lia|]. by intros [?|(? & ? & _)].
  - destruct (Hc0 c0) as (c & E & Hr & H1' & H2'). exists c. split; [done|]. split; [done|]. split; [lia|]. intros [?|(x & [= <-] & _ & Hx)]; [done | lia].
  - exists (max_value size). split; [done|]. split; [lia|]. split; [by intros [?|(? & ? & _)] | lia].
  - destruct (Hc0 c0) as (c & E & Hr & H1' & H2'). exists c. split; [done|]. split; [done|]. split; [|lia]. intros [?|(x & [= <-] & _ & Hx)]; [done | lia].
Qed.

(** The upper bound of an index, of which only the range is known. *)
Lemma index_upper range_of index r : sound rho rank fuel range_of -> range_of index = Some r ->
  exists max mu, FromDefinition index 0 = Ok max /\ upper rho max (rho index) /\ UpperBound fuel range_of max = Ok (kConstant mu) /\ (mu < kSmiMax -> rho index <= mu).
Proof.
  intros Hg Er. pose proof (s_fuel _ _ _ _ Hg index) as Hf. assert (exists mu, UpperBound fuel range_of (kSymbol index 0) = Ok (kConstant mu) /\ (mu < kSmiMax -> rho index <= mu)) as (mu & Emu & Hmu).
  { unfold UpperBound. destruct fuel as [|n] eqn:En; [lia|]. cbn [upper_bound IsInfinity IsNegativeInfinity IsPositiveInfinity IsConstant orb]. unfold symbol. rewrite ASSERT_bind by done. cbn [mbind result_bind value_ offset].
    rewrite Er. destruct (s_range _ _ _ _ Hg index r Er) as ([_ Hr] & [_ Hc] & _ & Hbef). destruct (upper_bound_spec rho rank (S n) range_of Hg n (max_ r) Hr) as (u & -> & Hu).
    { destruct (max_ r); cbn in *; lia. }
    apply (ok_cases rho _ Hr) in Hc. cbn [mbind result_bind].
    assert (bounds_above u (rho index)) as Hu' by (destruct Hu as [->|(c & -> & Hi & Hle)]; [by left | right; exists c; split; [done | split; [done | lia]]]).
    destruct (Clamp_constant kRangeBoundarySmi u (rho index) (or_intror Hu')) as (c & -> & Hcr & _ & Hcv). specialize (Hcv Hu'). cbn [min_value max_value] in *.
    assert (WillAddOverflow c 0 = false) as Ho by done. unfold Boundary_Add. cbn [IsInfinity IsNegativeInfinity IsPositiveInfinity orb IsConstant andb value_]. rewrite ASSERT_bind by done. rewrite Ho.
    eexists. split; [done|]. rewrite Z.add_0_r. done. }
  unfold FromDefinition. assert (exists max mu, (_ ← ASSERT (IsValidOffsetForSymbolicRangeBoundary 0); Ok (kSymbol index 0)) = Ok max /\ upper rho max (rho index) /\
    UpperBound fuel range_of max = Ok (kConstant mu) /\ (mu < kSmiMax -> rho index <= mu)) as Hsym.
  { exists (kSymbol index 0), mu. rewrite ASSERT_bind by (apply valid_offset; destruct smi_bounds as (k & ? & -> & -> & ?); unfold kMinInt64, kMaxInt64; lia). split; [done|]. split; [cbn; lia | done]. }
  destruct (definition index) as [[v|v|]| | |] eqn:E; try exact Hsym. destruct (s_constant _ _ _ _ Hg index v E) as [<- _]. exists (kConstant (rho index + 0)), (rho index + 0).
  split; [done|]. split; [cbn; lia|]. split; [|lia]. unfold UpperBound. by destruct fuel; [lia|].
Qed.

Lemma compare_ranges_spec range_of index length r : sound rho rank fuel range_of -> range_of index = Some r -> is_smi (rho length) ->
  exists t, compare_ranges fuel range_of r index length = Ok t /\ (t = true -> 0 <= rho index < rho length).
Proof.
  intros Hg Er Hlen. destruct (s_range _ _ _ _ Hg index r Er) as (Hr & Hc & _ & _). destruct (LowerBound_range rho rank fuel range_of Hg r _ Hr Hc) as (l & El & Hl).
  destruct (Clamp_constant kRangeBoundarySmi l (rho index) (or_introl Hl)) as (c & Ec & Hcr & Hcv & _). specialize (Hcv Hl). cbn [min_value max_value] in *.
  unfold compare_ranges, ConstantMin. rewrite El. cbn [mbind result_bind]. rewrite Ec. rewrite ConstantValue_constant. cbn [mbind result_bind].
  destruct (Z.ltb_spec c 0) as [|Hc0]; [by exists false|]. assert (0 <= rho index) as Hpos by (destruct smi_bounds as (k & ? & _ & E2 & ?); lia).
  destruct (index_upper range_of index r Hg Er) as (max & mu & -> & Hmax & Emu & Hmu). cbn [mbind result_bind]. rewrite Emu. cbn [mbind result_bind].
  destruct (FromDefinition_spec rho rank fuel range_of Hg length 0) as (al & -> & Hal & Val & _); [apply valid_offset; destruct smi_bounds as (k & ? & -> & -> & ?); unfold kMinInt64, kMaxInt64; lia | done|]. cbn [mbind result_bind].
  destruct (LowerBound_spec rho rank fuel range_of Hg al Hal) as (ll & -> & Hll). cbn [mbind result_bind]. destruct (OverflowedSmi (kConstant mu) || OverflowedSmi ll) eqn:Eo; [by exists false|]. apply orb_false_iff in Eo as [_ Eo].
  destruct Hll as [->|(cl & -> & _ & Hcl)]; [done|]. rewrite !ConstantValue_constant. cbn [mbind result_bind].
  destruct (Z.ltb_spec mu cl) as [Hul|Hul]; [exists true; split; [done|]; intros _; unfold is_smi in Hlen; lia|].
  destruct (CanonicalizeBoundary_spec rho rank fuel range_of Hg al kPositiveInfinity Hal) as (cb & -> & Hcb). cbn [mbind result_bind]. destruct (OverflowedSmi cb) eqn:Ecb; [by exists false|].
  destruct Hcb as [->|(Hcb & Vcb & _)]; [done|].
  destruct (same_symbol_spec rho rank fuel range_of Hg (CanonicalizeMaxBoundary fuel range_of) (CanonicalizeMinBoundary fuel range_of) (fun x => upper rho x (rho index)) (fun x => lower rho x (rho length))) with (n := (fuel + fuel + 1)%nat) (a := max) (b := cb)
    as (res & -> & Hres).
  - intros a Ha. destruct (CanonicalizeMaxBoundary_spec rho rank fuel range_of Hg a) as (x & E & Hx). exists x. split; [done|]. intros x' E'. destruct (Hx x' E') as (_ & Hu & Hch). split; [by apply Hu | done].
  - intros b Hb. destruct (CanonicalizeMinBoundary_spec rho rank fuel range_of Hg b) as (x & E & Hx). exists x. split; [done|]. intros x' E'. destruct (Hx x' E') as (_ & Hu & Hch). split; [by apply Hu | done].
  - done.
  - apply (ok_cases rho _ Hcb). lia.
  - pose proof (chain_fuel rho rank fuel range_of Hg max). pose proof (chain_fuel rho rank fuel range_of Hg cb). lia.
  - cbn [mbind result_bind]. eexists. split; [done|]. destruct res as [[a' b']|]; [|done]. destruct (Hres a' b' eq_refl) as (Ia & Jb & Sa & Sb & Erho). destruct a', b'; try done. cbn in *. rewrite Z.ltb_lt. lia.
Qed.

Lemma OriginalDefinition_spec range_of n : sound rho rank fuel range_of -> forall d, (rank d < n)%nat -> exists e, OriginalDefinition n d = Ok e /\ rho e = rho d /\ (RedefinedValue d = None -> e = d).
Proof.
  intros Hg. induction n as [|n IH]; intros d Hd; [lia|]. cbn [OriginalDefinition]. destruct (RedefinedValue d) as [x|] eqn:E; [|by exists d]. destruct (s_redefined _ _ _ _ Hg d x E) as (_ & Ev & Hr).
  destruct (IH x ltac:(lia)) as (e & -> & He & _). exists e. split; [done|]. split; [congruence | done].
Qed.
Lemma SmiConstant_spec range_of d : sound rho rank fuel range_of -> exists c, SmiConstant fuel d = Ok c /\
  forall v, c = Some v -> rho d = v /\ is_smi v /\ (RedefinedValue d = None -> definition d = ConstantInstr (Smi v)).
Proof.
  intros Hg. unfold SmiConstant. destruct (OriginalDefinition_spec range_of fuel Hg d) as (e & -> & He & Hsame); [pose proof (s_fuel _ _ _ _ Hg d); lia|]. cbn [mbind result_bind]. eexists. split; [done|].
  intros v Hv. destruct (definition e) as [[w|w|]| | |] eqn:E; try done. injection Hv as ->. destruct (s_constant _ _ _ _ Hg e v E) as [E1 E2]. split; [congruence|]. split; [done|]. intros Hn. by rewrite <- (Hsame Hn).
Qed.

Lemma sound_set_range range_of d r : sound rho rank fuel range_of -> range_ok rho r /\ contains rho r (rho d) /\ before rank (min_ r) d /\ before rank (max_ r) d ->
  sound rho rank fuel (set_range range_of d r).
Proof.
  intros Hg Hr. destruct Hg. split; try done. intros x r'. unfold set_range. destruct (Z.eqb_spec x d) as [->|]; [by intros [= <-] | apply s_range0].
Qed.

Lemma index_range_spec range_of index : sound rho rank fuel range_of -> exists ro range_of', index_range fuel range_of index = Ok (ro, range_of') /\
  sound rho rank fuel range_of' /\ forall r, ro = Some r -> range_of' index = Some r.
Proof.
  intros Hg. unfold index_range. destruct (range_of index) as [r|] eqn:Er; [exists (Some r), range_of; split_and!; try done; by intros ? [= <-]|].
  destruct (SmiConstant_spec range_of index Hg) as (c & -> & Hc). cbn [mbind result_bind]. destruct c as [v|]; [|by exists None, range_of]. destruct (Hc v eq_refl) as (Ev & Hv & Hdef).
  rewrite (proj2 (IsSmi_spec v)) by done. cbn [negb].
  assert (exists r, InferRange index = Ok r /\ range_ok rho r /\ contains rho r (rho index) /\ before rank (min_ r) index /\ before rank (max_ r) index) as (r & -> & Hr).
  { unfold InferRange. destruct (RedefinedValue index) as [e|] eqn:Ee; [destruct (s_redefined _ _ _ _ Hg index e Ee) as (-> & _); by apply (s_other _ _ _ _ Hg index e)|].
    rewrite Hdef by done. cbn [ConstantInstr_InferRange]. unfold new_Range. rewrite ASSERT_bind by done. cbn [IsInfinity IsNegativeInfinity IsPositiveInfinity orb]. eexists. split; [done|].
    pose proof (smi_int64 v Hv). split; [by split|]. split; [split; cbn; lia | done]. }
  cbn [mbind result_bind]. rewrite ASSERT_bind by (destruct (ok_cases rho _ (proj1 (proj1 Hr))) as (_ & -> & _); done). exists (Some r), (set_range range_of index r). split; [done|].
  split; [by apply sound_set_range|]. intros ? [= <-]. unfold set_range. by rewrite Z.eqb_refl.
Qed.
End Redundant.

(** C3 A bounds check that range analysis calls redundant cannot fail: if the ranges are sound for
    the values of the definitions and the length is a small integer, the decision is reached
    without a failed assertion, leaves the ranges sound, and when it is that the check is
    redundant, then 0 <= index < length. *)
Theorem redundant_check_sound `{Target} `{FlowGraph} rho rank fuel range_of index length : sound rho rank fuel range_of -> is_smi (rho length) ->
  exists redundant range_of', IsRedundantBasedOnRangeInformation fuel range_of index length = Ok (redundant, range_of') /\
    sound rho rank fuel range_of' /\ (redundant = true -> 0 <= rho index < rho length).
Proof.
  intros Hg Hlen. unfold IsRedundantBasedOnRangeInformation. destruct (SmiConstant_spec rho rank fuel range_of index Hg) as (ci & -> & Hi). destruct (SmiConstant_spec rho rank fuel range_of length Hg) as (cl & -> & Hl). cbn [mbind result_bind].
  destruct (index_range_spec rho rank fuel range_of index Hg) as (ro & range_of' & E & Hg' & Hro).
  assert (exists redundant range_of'', ('(range, g) ← index_range fuel range_of index; match range with None => Ok (false, g) | Some r => redundant ← compare_ranges fuel g r index length; Ok (redundant, g) end) = Ok (redundant, range_of'') /\
    sound rho rank fuel range_of'' /\ (redundant = true -> 0 <= rho index < rho length)) as Hcmp.
  { rewrite E. cbn [mbind result_bind]. destruct ro as [r|]; [|by exists false, range_of']. destruct (compare_ranges_spec rho rank fuel range_of' index length r Hg' (Hro r eq_refl) Hlen) as (t & -> & Ht). by exists t, range_of'. }
  destruct ci as [vi|]; [|exact Hcmp]. destruct cl as [vl|]; [|exact Hcmp]. destruct (Hi vi eq_refl) as [-> _]. destruct (Hl vl eq_refl) as [-> _]. eexists _, _. split; [done|]. split; [done|].
  rewrite andb_true_iff, Z.leb_le, Z.ltb_lt. done.
Qed.

(** ** Intersection and join *)

Section Lattice.
Context `{Target} `{FlowGraph} (rho : Z -> Z) (rank : Z -> nat) (fuel : nat) (range_of : ranges).
Context (Hg : sound rho rank fuel range_of).

Lemma Equals_spec a b : boundary_ok rho a -> boundary_ok rho b -> exists t, Equals fuel a b = Ok t /\ (t = true -> val rho a = val rho b).
Proof using Hg.
  intros Ha Hb. unfold Equals. destruct a as [| | |d o|c], b as [| | |d' o'|c']; try done; cbn [IsConstant IsInfinity IsNegativeInfinity IsPositiveInfinity IsSymbol IsUnknown orb andb offset value_ val]; try by eexists.
  - destruct (Z.eqb_spec o o') as [->|]; [|by eexists]. destruct (DependOnSameSymbol_spec rho rank fuel range_of Hg (kSymbol d o') (kSymbol d' o')) as (t & -> & Ht). exists t. split; [done|]. intros Hd. destruct (Ht Hd) as (_ & _ & E). cbn in E. lia.
  - eexists. split; [done|]. apply Z.eqb_eq.
Qed.

(** The two boundaries after canonicalization bound what they bounded. *)
Lemma compare_min a b v w : boundary_ok rho a -> boundary_ok rho b -> val rho a <= v -> val rho b <= w ->
  exists c, CanonicalizeForComparison fuel a b (CanonicalizeMinBoundary fuel range_of) = Ok c /\ forall a' b', c = Some (a', b') ->
    boundary_ok rho a' /\ boundary_ok rho b' /\ val rho a' <= v /\ val rho b' <= w /\ val rho a' - offset a' = val rho b' - offset b'.
Proof using Hg.
  intros Ha Hb Hv Hw. unfold CanonicalizeForComparison. destruct (negb (IsSymbol a) || negb (IsSymbol b)); [by eexists|].
  assert (forall x u, exists c, CanonicalizeMinBoundary fuel range_of x = Ok c /\ forall c', c = Some c' -> ((c' = kNegativeInfinity \/ boundary_ok rho c') /\ (lower rho x u -> lower rho c' u)) /\ (chain rank c' < chain rank x)%nat) as Hop.
  { intros x u. destruct (CanonicalizeMinBoundary_spec rho rank fuel range_of Hg x) as (c & E & Hc). exists c. split; [done|]. intros c' E'. destruct (Hc c' E') as (H1' & H2' & H3'). split; [split; [done | apply H2'] | done]. }
  destruct (same_symbol_spec rho rank fuel range_of Hg (CanonicalizeMinBoundary fuel range_of) (CanonicalizeMinBoundary fuel range_of) (fun x => (x = kNegativeInfinity \/ boundary_ok rho x) /\ lower rho x v)
    (fun x => (x = kNegativeInfinity \/ boundary_ok rho x) /\ lower rho x w)) with (n := (fuel + fuel + 1)%nat) (a := a) (b := b) as (c & -> & Hc).
  - intros x [_ Hx]. destruct (Hop x v) as (c & E & Hc). exists c. split; [done|]. intros c' E'. destruct (Hc c' E') as ([K1 K2] & K3). auto.
  - intros x [_ Hx]. destruct (Hop x w) as (c & E & Hc). exists c. split; [done|]. intros c' E'. destruct (Hc c' E') as ([K1 K2] & K3). auto.
  - split; [by right | by apply (ok_cases rho _ Ha)].
  - split; [by right | by apply (ok_cases rho _ Hb)].
  - pose proof (chain_fuel rho rank fuel range_of Hg a). pose proof (chain_fuel rho rank fuel range_of Hg b). lia.
  - exists c. split; [done|]. intros a' b' E. destruct (Hc a' b' E) as ([[->|Oa] La] & [[->|Ob] Lb] & Sa & Sb & Er); try done. apply (ok_cases rho _ Oa) in La. apply (ok_cases rho _ Ob) in Lb.
    split_and!; try done. destruct a', b'; try done. cbn in *. lia.
Qed.
Lemma compare_max a b v w : boundary_ok rho a -> boundary_ok rho b -> v <= val rho a -> w <= val rho b ->
  exists c, CanonicalizeForComparison fuel a b (CanonicalizeMaxBoundary fuel range_of) = Ok c /\ forall a' b', c = Some (a', b') ->
    boundary_ok rho a' /\ boundary_ok rho b' /\ v <= val rho a' /\ w <= val rho b' /\ val rho a' - offset a' = val rho b' - offset b'.
Proof using Hg.
  intros Ha Hb Hv Hw. unfold CanonicalizeForComparison. destruct (negb (IsSymbol a) || negb (IsSymbol b)); [by eexists|].
  assert (forall x u, exists c, CanonicalizeMaxBoundary fuel range_of x = Ok c /\ forall c', c = Some c' -> ((c' = kPositiveInfinity \/ boundary_ok rho c') /\ (upper rho x u -> upper rho c' u)) /\ (chain rank c' < chain rank x)%nat) as Hop.
  { intros x u. destruct (CanonicalizeMaxBoundary_spec rho rank fuel range_of Hg x) as (c & E & Hc). exists c. split; [done|]. intros c' E'. destruct (Hc c' E') as (H1' & H2' & H3'). split; [split; [done | apply H2'] | done]. }
  destruct (same_symbol_spec rho rank fuel range_of Hg (CanonicalizeMaxBoundary fuel range_of) (CanonicalizeMaxBoundary fuel range_of) (fun x => (x = kPositiveInfinity \/ boundary_ok rho x) /\ upper rho x v)
    (fun x => (x = kPositiveInfinity \/ boundary_ok rho x) /\ upper rho x w)) with (n := (fuel + fuel + 1)%nat) (a := a) (b := b) as (c & -> & Hc).
  - intros x [_ Hx]. destruct (Hop x v) as (c & E & Hc). exists c. split; [done|]. intros c' E'. destruct (Hc c' E') as ([K1 K2] & K3). auto.
  - intros x [_ Hx]. destruct (Hop x w) as (c & E & Hc). exists c. split; [done|]. intros c' E'. destruct (Hc c' E') as ([K1 K2] & K3). auto.
  - split; [by right | by apply (ok_cases rho _ Ha)].
  - split; [by right | by apply (ok_cases rho _ Hb)].
  - pose proof (chain_fuel rho rank fuel range_of Hg a). pose proof (chain_fuel rho rank fuel range_of Hg b). lia.
  - exists c. split; [done|]. intros a' b' E. destruct (Hc a' b' E) as ([[->|Oa] La] & [[->|Ob] Lb] & Sa & Sb & Er); try done. apply (ok_cases rho _ Oa) in La. apply (ok_cases rho _ Ob) in Lb.
    split_and!; try done. destruct a', b'; try done. cbn in *. lia.
Qed.

Lemma LowerBound_in_spec size b : boundary_ok rho b -> exists c, LowerBound_in fuel range_of size b = Ok c /\ min_value size <= c <= max_value size /\ (min_value size <= val rho b -> c <= val rho b).
Proof using Hg.
  intros Hb. destruct (LowerBound_spec rho rank fuel range_of Hg b Hb) as (l & El & Hl). unfold LowerBound_in. rewrite El. cbn [mbind result_bind].
  destruct (Clamp_constant size l _ (or_introl Hl)) as (c & -> & Hr & Hc & _). rewrite ConstantValue_constant. exists c. split; [done|]. split; [done|]. intros Hm. specialize (Hc Hl). lia.
Qed.
Lemma UpperBound_in_spec size b : boundary_ok rho b -> exists c, UpperBound_in fuel range_of size b = Ok c /\ min_value size <= c <= max_value size /\ (val rho b <= max_value size -> val rho b <= c).
Proof using Hg.
  intros Hb. destruct (UpperBound_spec rho rank fuel range_of Hg b Hb) as (u & Eu & Hu). unfold UpperBound_in. rewrite Eu. cbn [mbind result_bind].
  destruct (Clamp_constant size u _ (or_intror Hu)) as (c & -> & Hr & _ & Hc). rewrite ConstantValue_constant. exists c. split; [done|]. split; [done|]. intros Hm. specialize (Hc Hu). lia.
Qed.

Lemma IntersectionMin_spec a b v : boundary_ok rho a -> boundary_ok rho b -> val rho a <= v -> val rho b <= v ->
  exists c, IntersectionMin fuel range_of a b = Ok c /\ boundary_ok rho c /\ val rho c <= v.
Proof using Hg.
  intros Ha Hb Hv Hw. unfold IntersectionMin. rewrite !ASSERT_bind by (by destruct a, b). destruct (Equals_spec a b Ha Hb) as (t & -> & _). cbn [mbind result_bind].
  destruct t; [by exists a|]. destruct (IsMinimumOrBelow _ a); [by exists b|]. destruct (IsMinimumOrBelow _ b); [by exists a|]. destruct (compare_min a b v v Ha Hb Hv Hw) as (c & -> & Hc). cbn [mbind result_bind].
  destruct c as [[a' b']|]; [destruct (Hc a' b' eq_refl) as (Oa & Ob & La & Lb & _); destruct (_ <=? _); by eexists|].
  destruct (LowerBound_in_spec kRangeBoundarySmi a Ha) as (x & -> & _). destruct (LowerBound_in_spec kRangeBoundarySmi b Hb) as (y & -> & _). cbn [mbind result_bind]. destruct (_ <=? _); by eexists.
Qed.
Lemma IntersectionMax_spec a b v : boundary_ok rho a -> boundary_ok rho b -> v <= val rho a -> v <= val rho b ->
  exists c, IntersectionMax fuel range_of a b = Ok c /\ boundary_ok rho c /\ v <= val rho c.
Proof using Hg.
  intros Ha Hb Hv Hw. unfold IntersectionMax. rewrite !ASSERT_bind by (by destruct a, b). destruct (Equals_spec a b Ha Hb) as (t & -> & _). cbn [mbind result_bind].
  destruct t; [by exists a|]. destruct (IsMaximumOrAbove _ a); [by exists b|]. destruct (IsMaximumOrAbove _ b); [by exists a|]. destruct (compare_max a b v v Ha Hb Hv Hw) as (c & -> & Hc). cbn [mbind result_bind].
  destruct c as [[a' b']|]; [destruct (Hc a' b' eq_refl) as (Oa & Ob & La & Lb & _); destruct (_ <=? _); by eexists|].
  destruct (UpperBound_in_spec kRangeBoundarySmi a Ha) as (x & -> & _). destruct (UpperBound_in_spec kRangeBoundarySmi b Hb) as (y & -> & _). cbn [mbind result_bind]. destruct (_ <=? _); by eexists.
Qed.

Lemma new_Range_ok min max : boundary_ok rho min -> boundary_ok rho max -> new_Range min max = Ok {| min_ := min; max_ := max |}.
Proof.
  intros Hmin Hmax. destruct (ok_cases rho _ Hmin) as (I1 & U1 & _). destruct (ok_cases rho _ Hmax) as (I2 & U2 & _). unfold new_Range. rewrite U1, U2, I1, I2. by rewrite ASSERT_bind.
Qed.
Lemma contains_iff r v : range_ok rho r -> contains rho r v <-> val rho (min_ r) <= v <= val rho (max_ r).
Proof. intros [H1 H2]. destruct (ok_cases rho _ H1) as (_ & _ & L & _). destruct (ok_cases rho _ H2) as (_ & _ & _ & U). unfold contains. rewrite L, U. done. Qed.

Lemma Intersect_spec r1 r2 v : range_ok rho r1 -> range_ok rho r2 -> contains rho r1 v -> contains rho r2 v -> exists r, Intersect fuel range_of r1 r2 = Ok r /\ range_ok rho r /\ contains rho r v.
Proof using Hg.
  intros H1 H2 C1 C2. apply (contains_iff _ _ H1) in C1. apply (contains_iff _ _ H2) in C2. unfold Intersect.
  destruct (IntersectionMin_spec (min_ r1) (min_ r2) v) as (mn & -> & On & Ln); [apply H1 | apply H2 | lia | lia|]. destruct (IntersectionMax_spec (max_ r1) (max_ r2) v) as (mx & -> & Ox & Lx); [apply H1 | apply H2 | lia | lia|].
  cbn [mbind result_bind]. rewrite new_Range_ok by done. eexists. split; [done|]. assert (range_ok rho {| min_ := mn; max_ := mx |}) as Hok by by split. split; [done|]. by apply contains_iff.
Qed.

Lemma IsUnsatisfiable_spec r v : range_ok rho r -> contains rho r v -> IsUnsatisfiable fuel range_of r = Ok false.
Proof using Hg.
  intros Hr Hc. destruct (int64_bounds rho rank fuel range_of Hg r v Hr Hc) as (lo & hi & El & Eh & Hv & _). apply (contains_iff _ _ Hr) in Hc. unfold IsUnsatisfiable.
  destruct (ok_cases rho _ (proj1 Hr)) as (I1 & _). destruct (ok_cases rho _ (proj2 Hr)) as (I2 & _). apply orb_false_iff in I1 as [_ ->]. apply orb_false_iff in I2 as [-> _]. cbn [orb]. rewrite El, Eh. cbn [mbind result_bind].
  rewrite (proj2 (Z.ltb_ge _ _)) by lia. destruct (DependOnSameSymbol_spec rho rank fuel range_of Hg (min_ r) (max_ r)) as (t & -> & Ht). cbn [mbind result_bind]. destruct t; [|done]. destruct (Ht eq_refl) as (S1 & S2 & E).
  cbn [andb]. f_equal. apply Z.ltb_ge. destruct (min_ r), (max_ r); try done. cbn in *. lia.
Qed.

(** What holds of a value after a comparison with the definition [b]. *)
Definition holds (op : TokenKind) (x y : Z) : Prop :=
  match op with kEQ => x = y | kNE => x <> y | kLT => x < y | kGT => x > y | kLTE => x <= y | kGTE => x >= y | _ => False end.

Lemma ConstraintSmiRange_spec op b v : is_smi (rho b) -> is_smi v -> holds op v (rho b) -> exists c, ConstraintSmiRange op b = Ok c /\ range_ok rho c /\ contains rho c v.
Proof using Hg.
  intros Hb Hv Hop. assert (forall o, -1 <= o <= 1 -> IsValidOffsetForSymbolicRangeBoundary o = true) as Ho.
  { intros o Hr. apply valid_offset. destruct smi_bounds as (k & ? & -> & -> & ?). unfold kMinInt64, kMaxInt64. lia. }
  assert (is_int64 kSmiMin /\ is_int64 kSmiMax) as [I1 I2] by (destruct smi_bounds as (k & ? & -> & -> & ?); unfold is_int64, kMinInt64, kMaxInt64; lia).
  assert (forall mn mx, boundary_ok rho mn -> boundary_ok rho mx -> val rho mn <= v <= val rho mx -> exists c, new_Range mn mx = Ok c /\ range_ok rho c /\ contains rho c v) as Hnew.
  { intros mn mx On Ox Hvv. rewrite new_Range_ok by done. eexists. split; [done|]. assert (range_ok rho {| min_ := mn; max_ := mx |}) as Hok by by split. split; [done | by apply contains_iff]. }
  destruct op; cbn [holds] in Hop; try done; cbn [ConstraintSmiRange]; unfold is_smi in Hv;
    try (destruct (FromDefinition_spec rho rank fuel range_of Hg b 0 (Ho 0 ltac:(lia)) Hb) as (x & -> & Ox & Vx & _));
    try (destruct (FromDefinition_spec rho rank fuel range_of Hg b (-1) (Ho (-1) ltac:(lia)) Hb) as (y & -> & Oy & Vy & _));
    try (destruct (FromDefinition_spec rho rank fuel range_of Hg b 1 (Ho 1 ltac:(lia)) Hb) as (z & -> & Oz & Vz & _)); cbn [mbind result_bind].
  - apply Hnew; [done | done | lia].
  - eexists. split; [done|]. split; [by split | split; cbn; lia].
  - apply Hnew; [done | done | cbn [MinConstant val min_value]; lia].
  - apply Hnew; [done | done | cbn [MaxConstant val max_value]; lia].
  - apply Hnew; [done | done | cbn [MinConstant val min_value]; lia].
  - apply Hnew; [done | done | cbn [MaxConstant val max_value]; lia].
Qed.
End Lattice.

(** C12 A constraint after a comparison is sound: when the comparison of the value of [value] with
    that of [boundary] holds, the constraint's range exists, and the range inferred for the
    constrained definition has the value.  In particular the range is not found unsatisfiable, so
    only code that is never reached is taken for unreachable. *)
Theorem constraint_range_sound `{Target} `{FlowGraph} rho rank fuel range_of op value boundary : sound rho rank fuel range_of ->
  is_smi (rho value) -> is_smi (rho boundary) -> holds op (rho value) (rho boundary) ->
  exists c, ConstraintSmiRange op boundary = Ok c /\
    match GetSmiRange range_of value with
    | None => ConstraintInstr_InferRange fuel range_of value c = Ok None
    | Some _ => exists r, ConstraintInstr_InferRange fuel range_of value c = Ok (Some r) /\ range_ok rho r /\ contains rho r (rho value)
    end.
Proof.
  intros Hg Hv Hb Hop. destruct (ConstraintSmiRange_spec rho rank fuel range_of Hg op boundary (rho value) Hb Hv Hop) as (c & -> & Oc & Cc). exists c. split; [done|]. unfold ConstraintInstr_InferRange.
  destruct (GetSmiRange range_of value) as [vr|] eqn:Eg; [|done]. assert (range_ok rho vr /\ contains rho vr (rho value)) as [Ov Cv].
  { unfold GetSmiRange in Eg. destruct (range_of value) as [r|] eqn:Er; [injection Eg as <-; by destruct (s_range _ _ _ _ Hg value r Er) as (? & ? & _)|]. destruct (IsSmiType value); [done|]. injection Eg as <-.
    assert (is_int64 kSmiMin /\ is_int64 kSmiMax) as [I1 I2] by (destruct smi_bounds as (k & ? & -> & -> & ?); unfold is_int64, kMinInt64, kMaxInt64; lia). split; [by split | by split; cbn; apply Hv]. }
  destruct (ok_cases rho _ (proj1 Ov)) as (_ & -> & _). destruct (Intersect_spec rho rank fuel range_of Hg vr c (rho value) Ov Oc Cv Cc) as (r & -> & Or & Cr). cbn [mbind result_bind].
  rewrite (IsUnsatisfiable_spec rho rank fuel range_of Hg r (rho value)) by done. cbn [mbind result_bind]. by exists r.
Qed.

(** ** Joins *)

Section Joins.
Context `{Target} `{FlowGraph} (rho : Z -> Z) (rank : Z -> nat) (fuel : nat) (range_of : ranges) (size : RangeSize).
Context (Hg : sound rho rank fuel range_of).

(** A boundary whose value is of the size. *)
Definition sized (b : RangeBoundary) : Prop := boundary_ok rho b /\ min_value size <= val rho b <= max_value size.

Lemma constant_ok c : min_value size <= c <= max_value size -> boundary_ok rho (kConstant c).
Proof. pose proof (size_int64 size). cbn. unfold is_int64. lia. Qed.

(** A test that is made only when needed. *)
Lemma guarded_test (c : bool) (m : result bool) : (exists t, m = Ok t) -> exists t, (if c then m else Ok true) = Ok t /\ (t = false -> c = true).
Proof. intros [t ->]. destruct c; eexists; (split; [done|]); by intros. Qed.
Lemma lower_test b : boundary_ok rho b -> exists t, (l ← LowerBound fuel range_of b; Overflowed fuel size l) = Ok t.
Proof using Hg.
  intros Hb. destruct (LowerBound_spec rho rank fuel range_of Hg b Hb) as (l & -> & Hl). cbn [mbind result_bind]. destruct (Overflowed_below fuel size l _ Hl) as (t & -> & _). by eexists.
Qed.
Lemma upper_test b : boundary_ok rho b -> exists t, (u ← UpperBound fuel range_of b; Overflowed fuel size u) = Ok t.
Proof using Hg.
  intros Hb. destruct (UpperBound_spec rho rank fuel range_of Hg b Hb) as (u & -> & Hu). cbn [mbind result_bind]. destruct (Overflowed_above fuel size u _ Hu) as (t & -> & _). by eexists.
Qed.

Lemma JoinMin_spec a b : sized a -> sized b -> exists c, JoinMin fuel range_of a b size = Ok c /\ boundary_ok rho c /\ val rho c <= val rho a /\ val rho c <= val rho b.
Proof using Hg.
  intros [Ha Sa] [Hb Sb]. unfold JoinMin. destruct (Equals_spec rho rank fuel range_of Hg a b Ha Hb) as (t & -> & Ht). cbn [mbind result_bind]. destruct t; [exists b; specialize (Ht eq_refl); split_and!; done || lia|].
  destruct (compare_min rho rank fuel range_of Hg a b (val rho a) (val rho b) Ha Hb ltac:(lia) ltac:(lia)) as (c & -> & Hc). cbn [mbind result_bind]. destruct c as [[a' b']|].
  { destruct (Hc a' b' eq_refl) as (Oa & Ob & La & Lb & Ed). destruct (Z.leb_spec (offset a') (offset b')); eexists; (split; [done|]); (split; [done | lia]). }
  destruct (LowerBound_in_spec rho rank fuel range_of Hg size a Ha) as (ia & -> & Ria & Via). destruct (LowerBound_in_spec rho rank fuel range_of Hg size b Hb) as (ib & -> & Rib & Vib).
  destruct (UpperBound_in_spec rho rank fuel range_of Hg size a Ha) as (sa & -> & _ & Vsa). destruct (UpperBound_in_spec rho rank fuel range_of Hg size b Hb) as (sb & -> & _ & Vsb). cbn [mbind result_bind].
  destruct (guarded_test (sa <=? ib) _ (lower_test a Ha)) as (t1 & -> & T1). cbn [mbind result_bind]. destruct t1; cbn [negb]; [|specialize (T1 eq_refl); apply Z.leb_le in T1; exists a; split_and!; done || lia].
  destruct (guarded_test (sb <=? ia) _ (lower_test b Hb)) as (t2 & -> & T2). cbn [mbind result_bind]. destruct t2; cbn [negb]; [|specialize (T2 eq_refl); apply Z.leb_le in T2; exists b; split_and!; done || lia].
  eexists. split; [done|]. unfold Minimum. cbn [val]. destruct (Z.ltb_spec ia ib); (split; [by apply constant_ok | lia]).
Qed.
Lemma JoinMax_spec a b : sized a -> sized b -> exists c, JoinMax fuel range_of a b size = Ok c /\ boundary_ok rho c /\ val rho a <= val rho c /\ val rho b <= val rho c.
Proof using Hg.
  intros [Ha Sa] [Hb Sb]. unfold JoinMax. destruct (Equals_spec rho rank fuel range_of Hg a b Ha Hb) as (t & -> & Ht). cbn [mbind result_bind]. destruct t; [exists b; specialize (Ht eq_refl); split_and!; done || lia|].
  destruct (compare_max rho rank fuel range_of Hg a b (val rho a) (val rho b) Ha Hb ltac:(lia) ltac:(lia)) as (c & -> & Hc). cbn [mbind result_bind]. destruct c as [[a' b']|].
  { destruct (Hc a' b' eq_refl) as (Oa & Ob & La & Lb & Ed). destruct (Z.leb_spec (offset b') (offset a')); eexists; (split; [done|]); (split; [done | lia]). }
  destruct (LowerBound_in_spec rho rank fuel range_of Hg size a Ha) as (ia & -> & _ & Via). destruct (LowerBound_in_spec rho rank fuel range_of Hg size b Hb) as (ib & -> & _ & Vib).
  destruct (UpperBound_in_spec rho rank fuel range_of Hg size a Ha) as (sa & -> & Rsa & Vsa). destruct (UpperBound_in_spec rho rank fuel range_of Hg size b Hb) as (sb & -> & Rsb & Vsb). cbn [mbind result_bind].
  destruct (guarded_test (sa <=? ib) _ (upper_test b Hb)) as (t1 & -> & T1). cbn [mbind result_bind]. destruct t1; cbn [negb]; [|specialize (T1 eq_refl); apply Z.leb_le in T1; exists b; split_and!; done || lia].
  destruct (guarded_test (sb <=? ia) _ (upper_test a Ha)) as (t2 & -> & T2). cbn [mbind result_bind]. destruct t2; cbn [negb]; [|specialize (T2 eq_refl); apply Z.leb_le in T2; exists a; split_and!; done || lia].
  eexists. split; [done|]. unfold Maximum. cbn [val]. destruct (Z.ltb_spec sb sa); (split; [by apply constant_ok | lia]).
Qed.

Lemma DependsOnSymbol_spec b s : boundary_ok rho b -> exists t, DependsOnSymbol fuel b s = Ok t /\ (t = true -> is_smi (rho s)).
Proof using Hg.
  intros Hb. unfold DependsOnSymbol. destruct b as [| | |d o|c]; try done; [|by exists false]. cbn [IsSymbol value_]. destruct (UnwrapConstraint_spec rho rank fuel range_of Hg fuel d) as (e & -> & He); [pose proof (s_fuel _ _ _ _ Hg d); lia|].
  cbn [mbind result_bind]. eexists. split; [done|]. intros Ht. apply Z.eqb_eq in Ht as <-. rewrite He. exact (proj2 Hb).
Qed.

(** The range joined: that of the definition, or the definition itself. *)
Lemma joined_range range d r : range_ok rho range -> sized (min_ r) -> sized (max_ r) -> contains rho r (rho d) -> exists other,
  (unwrapped ← UnwrapConstraint fuel d; depends ← either (DependsOnSymbol fuel (min_ range) unwrapped) (DependsOnSymbol fuel (max_ range) unwrapped);
   if depends : bool then b ← FromDefinition d 0; new_Range b b else Ok r) = Ok other /\ sized (min_ other) /\ sized (max_ other) /\ contains rho other (rho d).
Proof using Hg.
  intros [R1 R2] S1 S2 Hc. destruct (UnwrapConstraint_spec rho rank fuel range_of Hg fuel d) as (e & -> & He); [pose proof (s_fuel _ _ _ _ Hg d); lia|]. cbn [mbind result_bind].
  destruct (DependsOnSymbol_spec (min_ range) e R1) as (t1 & E1 & T1). destruct (DependsOnSymbol_spec (max_ range) e R2) as (t2 & E2 & T2). unfold either. rewrite E1, E2. cbn [mbind result_bind].
  assert (is_smi (rho e) -> exists other, (b ← FromDefinition d 0; new_Range b b) = Ok other /\ sized (min_ other) /\ sized (max_ other) /\ contains rho other (rho d)) as Hsym.
  { intros Hs. rewrite He in Hs. destruct (FromDefinition_spec rho rank fuel range_of Hg d 0) as (b & -> & Ob & Vb & _); [apply valid_offset; destruct smi_bounds as (k & ? & -> & -> & ?); unfold kMinInt64, kMaxInt64; lia | done|].
    cbn [mbind result_bind]. rewrite (new_Range_ok rho) by done. eexists. split; [done|]. apply (contains_iff rho r _ (conj (proj1 S1) (proj1 S2))) in Hc.
    assert (sized b) as Sb by (split; [done | destruct S1 as [_ ?], S2 as [_ ?]; lia]). split; [done|]. split; [done|]. apply contains_iff; [by split | cbn; lia]. }
  destruct t1; [apply Hsym; by apply T1|]. destruct t2; [apply Hsym; by apply T2|]. by exists r.
Qed.
End Joins.

(** C13 The join of the range of a phi with that of an input covers both: if the ranges have values
    and their boundaries have values of the phi's size, the join has every value of the old range
    and the value of the input. *)
Theorem join_covers `{Target} `{FlowGraph} rho rank fuel range_of size range d r w : sound rho rank fuel range_of ->
  sized rho size (min_ range) -> sized rho size (max_ range) -> sized rho size (min_ r) -> sized rho size (max_ r) -> contains rho range w -> contains rho r (rho d) ->
  exists result, Join fuel range_of range d (Some r) size = Ok result /\ range_ok rho result /\ forall v, contains rho range v \/ v = rho d -> contains rho result v.
Proof.
  intros Hg R1 R2 S1 S2 Hw Hd. assert (range_ok rho range) as Or by (split; [apply R1 | apply R2]). destruct (joined_range rho rank fuel range_of size Hg range d r Or S1 S2 Hd) as (other & E & O1 & O2 & Ho).
  unfold Join. destruct (ok_cases rho _ (proj1 S1)) as (_ & -> & _). destruct (ok_cases rho _ (proj1 R1)) as (_ & -> & _).
  apply result_bind_Ok in E as (uw & -> & E). cbn [mbind result_bind]. apply result_bind_Ok in E as (dep & -> & E). cbn [mbind result_bind]. rewrite E. cbn [mbind result_bind]. clear E.
  assert (range_ok rho other) as Oo by (split; [apply O1 | apply O2]). pose proof Hw as Hw'. apply (contains_iff _ _ _ Or) in Hw'. pose proof Ho as Ho'. apply (contains_iff _ _ _ Oo) in Ho'.
  destruct (LowerBound_in_spec rho rank fuel range_of Hg size (min_ range) (proj1 R1)) as (ir & -> & _ & Vir). destruct (LowerBound_in_spec rho rank fuel range_of Hg size (min_ other) (proj1 O1)) as (io & -> & _ & Vio).
  destruct (UpperBound_in_spec rho rank fuel range_of Hg size (max_ range) (proj1 R2)) as (sr & -> & _ & Vsr). destruct (UpperBound_in_spec rho rank fuel range_of Hg size (max_ other) (proj1 O2)) as (so & -> & _ & Vso). cbn [mbind result_bind].
  pose proof (proj2 R1). pose proof (proj2 R2). pose proof (proj2 O1). pose proof (proj2 O2).
  assert (forall mn mx, boundary_ok rho mn -> boundary_ok rho mx -> val rho mn <= val rho (min_ range) -> val rho mn <= val rho (min_ other) -> val rho (max_ range) <= val rho mx -> val rho (max_ other) <= val rho mx ->
    range_ok rho {| min_ := mn; max_ := mx |} /\ forall v, contains rho range v \/ v = rho d -> contains rho {| min_ := mn; max_ := mx |} v) as Hcover.
  { intros mn mx On Ox L1 L2 U1 U2. assert (range_ok rho {| min_ := mn; max_ := mx |}) as Hok by by split. split; [done|]. intros v Hv. apply (contains_iff _ _ _ Hok). cbn [min_ max_].
    destruct Hv as [Hv| ->]; [apply (contains_iff _ _ _ Or) in Hv; lia | lia]. }
  destruct (Z.leb_spec sr io); [|destruct (Z.leb_spec so ir)].
  - unfold set_max. destruct (ok_cases rho _ (proj1 O2)) as (-> & _). eexists. split; [done|]. apply Hcover; [apply R1 | apply O2 | lia | lia | lia | lia].
  - unfold set_min. destruct (ok_cases rho _ (proj1 O1)) as (-> & _). eexists. split; [done|]. apply Hcover; [apply O1 | apply R2 | lia | lia | lia | lia].
  - destruct (JoinMin_spec rho rank fuel range_of size Hg _ _ R1 O1) as (mn & -> & On & L1 & L2). destruct (JoinMax_spec rho rank fuel range_of size Hg _ _ R2 O2) as (mx & -> & Ox & U1 & U2). cbn [mbind result_bind].
    rewrite (new_Range_ok rho) by done. eexists. split; [done|]. by apply Hcover.
Qed.

(** ** Widening *)

Section Widening.
Context `{Target} `{FlowGraph} (rho : Z -> Z) (rank : Z -> nat) (fuel : nat) (range_of : ranges) (size : RangeSize).
Context (Hg : sound rho rank fuel range_of).

Lemma ConstantMin_sized r : sized rho size (min_ r) -> exists c, ConstantMin fuel range_of size (Some r) = Ok (kConstant c) /\ c <= val rho (min_ r) /\ min_value size <= c <= max_value size.
Proof using Hg.
  intros [Ho Hs]. destruct (LowerBound_spec rho rank fuel range_of Hg (min_ r) Ho) as (l & El & Hl). unfold ConstantMin. rewrite El. cbn [mbind result_bind].
  destruct (Clamp_below size l _ Hl (proj1 Hs)) as (c & -> & Hc & Hr). by exists c.
Qed.
Lemma ConstantMax_sized r : sized rho size (max_ r) -> exists c, ConstantMax fuel range_of size (Some r) = Ok (kConstant c) /\ val rho (max_ r) <= c /\ min_value size <= c <= max_value size.
Proof using Hg.
  intros [Ho Hs]. destruct (UpperBound_spec rho rank fuel range_of Hg (max_ r) Ho) as (u & Eu & Hu). unfold ConstantMax. rewrite Eu. cbn [mbind result_bind].
  destruct (Clamp_above size u _ Hu (proj2 Hs)) as (c & -> & Hc & Hr). by exists c.
Qed.

Lemma WidenMin_spec range new_range : sized rho size (min_ range) -> sized rho size (min_ new_range) ->
  exists c, WidenMin fuel range_of range new_range size = Ok c /\ boundary_ok rho c /\ val rho c <= val rho (min_ new_range) /\ val rho c <= val rho (min_ range) /\
    (c = min_ range \/ ConstantMin fuel range_of size (Some range) = Ok c \/ c = MinConstant size).
Proof using Hg.
  intros S1 S2. pose proof S1 as [O1 V1]. pose proof S2 as [O2 V2]. pose proof (size_int64 size). assert (boundary_ok rho (MinConstant size)) as Omin by (cbn; unfold is_int64; lia).
  destruct (ConstantMin_sized range S1) as (c1 & E1 & C1 & R1). destruct (ConstantMin_sized new_range S2) as (c2 & E2 & C2 & R2). unfold WidenMin. cbv zeta.
  set (m := if IsSymbol (min_ range) then _ else _). assert (exists s, m = Ok s /\ forall b, s = Some b -> boundary_ok rho b /\ val rho b <= val rho (min_ new_range) /\ val rho b <= val rho (min_ range) /\ (b = min_ range \/ b = MinConstant size)) as (s & -> & Hs).
  { unfold m. destruct (IsSymbol (min_ range)) eqn:Es; [|by eexists]. destruct (lower_test rho rank fuel range_of size Hg (min_ range) O1) as (t & Et). apply result_bind_Ok in Et as (l & -> & Eo). cbn [mbind result_bind]. rewrite Eo. cbn [mbind result_bind].
    destruct t; [eexists; split; [done|]; intros b [= <-]; split_and!; [done | cbn; lia | cbn; lia | by right]|]. destruct (DependOnSameSymbol_spec rho rank fuel range_of Hg (min_ range) (min_ new_range)) as (t & -> & Ht). cbn [mbind result_bind].
    destruct t; [|destruct (UpperBound_in_spec rho rank fuel range_of Hg size (min_ range) O1) as (u & -> & _ & Vu); destruct (LowerBound_in_spec rho rank fuel range_of Hg size (min_ new_range) O2) as (x & -> & _ & Vx); cbn [mbind result_bind];
      eexists; (split; [done|]); intros b; destruct (Z.leb_spec u x); [intros [= <-]; split_and!; [done | lia | lia | by left] | done]].
    destruct (Ht eq_refl) as (Y1 & Y2 & Er). eexists. split; [done|]. intros b [= <-]. destruct (Z.leb_spec (offset (min_ range)) (offset (min_ new_range))); [|split_and!; [done | cbn; lia | cbn; lia | by right]].
    split_and!; [done | | lia | by left]. destruct (min_ range), (min_ new_range); try done. cbn in *. lia. }
  cbn [mbind result_bind]. destruct s as [b|]; [destruct (Hs b eq_refl) as (? & ? & ? & ?); exists b; split_and!; [done..|tauto]|]. rewrite E1, E2. cbn [mbind result_bind]. rewrite !ConstantValue_constant. cbn [mbind result_bind].
  eexists. split; [done|]. destruct (Z.leb_spec c1 c2); (split_and!; [try done; by apply (constant_ok rho size) | cbn; lia | cbn; lia | auto]).
Qed.
Lemma WidenMax_spec range new_range : sized rho size (max_ range) -> sized rho size (max_ new_range) ->
  exists c, WidenMax fuel range_of range new_range size = Ok c /\ boundary_ok rho c /\ val rho (max_ new_range) <= val rho c /\ val rho (max_ range) <= val rho c /\
    (c = max_ range \/ ConstantMax fuel range_of size (Some range) = Ok c \/ c = MaxConstant size).
Proof using Hg.
  intros S1 S2. pose proof S1 as [O1 V1]. pose proof S2 as [O2 V2]. pose proof (size_int64 size). assert (boundary_ok rho (MaxConstant size)) as Omax by (cbn; unfold is_int64; lia).
  destruct (ConstantMax_sized range S1) as (c1 & E1 & C1 & R1). destruct (ConstantMax_sized new_range S2) as (c2 & E2 & C2 & R2). unfold WidenMax. cbv zeta.
  set (m := if IsSymbol (max_ range) then _ else _). assert (exists s, m = Ok s /\ forall b, s = Some b -> boundary_ok rho b /\ val rho (max_ new_range) <= val rho b /\ val rho (max_ range) <= val rho b /\ (b = max_ range \/ b = MaxConstant size)) as (s & -> & Hs).
  { unfold m. destruct (IsSymbol (max_ range)) eqn:Es; [|by eexists]. destruct (upper_test rho rank fuel range_of size Hg (max_ range) O1) as (t & Et). apply result_bind_Ok in Et as (l & -> & Eo). cbn [mbind result_bind]. rewrite Eo. cbn [mbind result_bind].
    destruct t; [eexists; split; [done|]; intros b [= <-]; split_and!; [done | cbn; lia | cbn; lia | by right]|]. destruct (DependOnSameSymbol_spec rho rank fuel range_of Hg (max_ range) (max_ new_range)) as (t & -> & Ht). cbn [mbind result_bind].
    destruct t; [|destruct (LowerBound_in_spec rho rank fuel range_of Hg size (max_ range) O1) as (x & -> & _ & Vx); destruct (UpperBound_in_spec rho rank fuel range_of Hg size (max_ new_range) O2) as (u & -> & _ & Vu); cbn [mbind result_bind];
      eexists; (split; [done|]); intros b; destruct (Z.leb_spec u x); [intros [= <-]; split_and!; [done | lia | lia | by left] | done]].
    destruct (Ht eq_refl) as (Y1 & Y2 & Er). eexists. split; [done|]. intros b [= <-]. destruct (Z.leb_spec (offset (max_ new_range)) (offset (max_ range))); [|split_and!; [done | cbn; lia | cbn; lia | by right]].
    split_and!; [done | | lia | by left]. destruct (max_ range), (max_ new_range); try done. cbn in *. lia. }
  cbn [mbind result_bind]. destruct s as [b|]; [destruct (Hs b eq_refl) as (? & ? & ? & ?); exists b; split_and!; [done..|tauto]|]. rewrite E1, E2. cbn [mbind result_bind]. rewrite !ConstantValue_constant. cbn [mbind result_bind].
  eexists. split; [done|]. destruct (Z.leb_spec c2 c1); (split_and!; [try done; by apply (constant_ok rho size) | cbn; lia | cbn; lia | auto]).
Qed.

(** A boundary at the end of the size was widened; any other is kept. *)
Lemma NarrowMin_spec range new_range : sized rho size (min_ range) -> sized rho size (min_ new_range) ->
  NarrowMin fuel range_of range new_range size = Ok (if IsMinimumOrBelow size (min_ range) then min_ new_range else min_ range) /\
  (IsMinimumOrBelow size (min_ range) = true -> val rho (min_ range) = min_value size).
Proof using Hg.
  intros S1 S2. assert (IsMinimumOrBelow size (min_ range) = true -> val rho (min_ range) = min_value size) as Hx.
  { destruct S1 as [O1 V1]. destruct (min_ range); cbn in *; try done. rewrite Z.leb_le. lia. }
  split; [|done]. unfold NarrowMin. destruct (ConstantMin_sized range S1) as (c1 & -> & C1 & R1). destruct (ConstantMin_sized new_range S2) as (c2 & -> & C2 & R2).
  cbn [mbind result_bind]. rewrite !ConstantValue_constant. cbn [mbind result_bind]. f_equal.
  destruct (IsMinimumOrBelow size (min_ range)); [|by destruct (c2 <? c1)]. specialize (Hx eq_refl). by rewrite (proj2 (Z.ltb_ge _ _)) by lia.
Qed.
Lemma NarrowMax_spec range new_range : sized rho size (max_ range) -> sized rho size (max_ new_range) ->
  NarrowMax fuel range_of range new_range size = Ok (if IsMaximumOrAbove size (max_ range) then max_ new_range else max_ range) /\
  (IsMaximumOrAbove size (max_ range) = true -> val rho (max_ range) = max_value size).
Proof using Hg.
  intros S1 S2. assert (IsMaximumOrAbove size (max_ range) = true -> val rho (max_ range) = max_value size) as Hx.
  { destruct S1 as [O1 V1]. destruct (max_ range); cbn in *; try done. rewrite Z.leb_le. lia. }
  split; [|done]. unfold NarrowMax. destruct (ConstantMax_sized range S1) as (c1 & -> & C1 & R1). destruct (ConstantMax_sized new_range S2) as (c2 & -> & C2 & R2).
  cbn [mbind result_bind]. rewrite !ConstantValue_constant. cbn [mbind result_bind]. f_equal.
  destruct (IsMaximumOrAbove size (max_ range)); [|by destruct (c1 <? c2)]. specialize (Hx eq_refl). by rewrite (proj2 (Z.ltb_ge _ _)) by lia.
Qed.
End Widening.

(** C14 Updating the range of a phi, for ranges whose four boundaries have values within the
    phi's size.  Widening returns a range that has every value of the old and of the newly
    inferred range, and each boundary is the old one, the constant that bounds it, or the end
    of the size, so that repeated widening stops.  Narrowing returns a range inside the old one
    that has every value of both, and it takes a new boundary exactly where the old one is the
    end of the size. *)
Theorem phi_update_sound `{Target} `{FlowGraph} rho rank fuel range_of size range new_range : sound rho rank fuel range_of ->
  sized rho size (min_ range) -> sized rho size (max_ range) -> sized rho size (min_ new_range) -> sized rho size (max_ new_range) ->
  (exists r, update_phi fuel range_of WIDEN range new_range size = Ok r /\ range_ok rho r /\
     (forall v, contains rho range v \/ contains rho new_range v -> contains rho r v) /\
     (min_ r = min_ range \/ ConstantMin fuel range_of size (Some range) = Ok (min_ r) \/ min_ r = MinConstant size) /\
     (max_ r = max_ range \/ ConstantMax fuel range_of size (Some range) = Ok (max_ r) \/ max_ r = MaxConstant size)) /\
  (exists r, update_phi fuel range_of NARROW range new_range size = Ok r /\ range_ok rho r /\
     (forall v, contains rho range v -> contains rho new_range v -> contains rho r v) /\
     (forall v, contains rho r v -> contains rho range v) /\
     min_ r = (if IsMinimumOrBelow size (min_ range) then min_ new_range else min_ range) /\
     max_ r = (if IsMaximumOrAbove size (max_ range) then max_ new_range else max_ range)).
Proof.
  intros Hg S1 S2 S3 S4. assert (range_ok rho new_range) as Onew by (split; [apply S3 | apply S4]). assert (range_ok rho range) as Oold by (split; [apply S1 | apply S2]).
  pose proof (fun v => contains_iff rho range v Oold) as Cold. pose proof (fun v => contains_iff rho new_range v Onew) as Cnew. split; cbn [update_phi].
  - destruct (WidenMin_spec rho rank fuel range_of size Hg range new_range S1 S3) as (mn & -> & On & Ln & Ln' & Wn). destruct (WidenMax_spec rho rank fuel range_of size Hg range new_range S2 S4) as (mx & -> & Ox & Lx & Lx' & Wx).
    cbn [mbind result_bind]. rewrite (new_Range_ok rho) by done. eexists. split; [done|]. assert (range_ok rho {| min_ := mn; max_ := mx |}) as Hok by by split.
    split_and!; [done | | done | done]. intros v. rewrite Cold, Cnew, (contains_iff _ _ _ Hok). cbn [min_ max_]. lia.
  - destruct (NarrowMin_spec rho rank fuel range_of size Hg range new_range S1 S3) as [-> Wn]. destruct (NarrowMax_spec rho rank fuel range_of size Hg range new_range S2 S4) as [-> Wx].
    cbn [mbind result_bind]. destruct S1 as [O1 V1], S2 as [O2 V2], S3 as [O3 V3], S4 as [O4 V4]. rewrite (new_Range_ok rho); [|by destruct (IsMinimumOrBelow _ _) | by destruct (IsMaximumOrAbove _ _)].
    eexists. split; [done|]. match goal with |- range_ok rho ?r /\ _ => assert (range_ok rho r) as Hok by (split; cbn [min_ max_]; [by destruct (IsMinimumOrBelow _ _) | by destruct (IsMaximumOrAbove _ _)]) end.
    split_and!; [done | | | done | done]; intros v; rewrite Cold, ?Cnew, (contains_iff _ _ _ Hok); cbn [min_ max_]; destruct (IsMinimumOrBelow _ _), (IsMaximumOrAbove _ _);
      try specialize (Wn eq_refl); try specialize (Wx eq_refl); lia.
Qed.

(** ** A small graph *)

(** 1 is the length of an array, 2 an index below it, 3 the constant 1, 4 the sum of 2 and 3. *)
Definition small_graph : FlowGraph := {|
  definition d := if d =? 3 then ConstantInstr (Smi 1) else if d =? 4 then BinarySmiOpInstr kADD 2 3 else OtherInstr;
  RedefinedValue _ := None;
  IsArrayLength d := d =? 1;
  IsSmiType _ := true;
  cse_equal _ _ := false;
  infer_other _ := Err Unreachable
|}.
Definition small_values (d : Z) : Z := if d =? 1 then 10 else if d =? 2 then 4 else if d =? 3 then 1 else if d =? 4 then 5 else 0.
Definition small_rank (d : Z) : nat := if d =? 2 then 1 else if d =? 4 then 2 else 0.
Definition length_range : Range := {| min_ := kConstant 0; max_ := kConstant 1000 |}.
Definition below_length : Range := {| min_ := kConstant 0; max_ := kSymbol 1 (-1) |}.
Definition small_ranges : ranges := fun d => if d =? 1 then Some length_range else if d =? 2 then Some below_length else None.

Lemma below_length_ok : @range_ok rv64 small_values below_length /\ contains small_values below_length 4.
Proof. by vm_compute. Qed.

Lemma small_sound : @sound rv64 small_graph small_values small_rank 5 small_ranges.
Proof.
  split; cbn [small_graph definition RedefinedValue IsArrayLength cse_equal infer_other]; try done.
  - intros d. unfold small_rank. destruct (d =? 2), (d =? 4); lia.
  - intros d r. unfold small_ranges. destruct (Z.eqb_spec d 1) as [->|]; [intros [= <-]; by vm_compute|]. destruct (Z.eqb_spec d 2) as [->|]; [intros [= <-] | done]. split_and!; by vm_compute.
  - intros d v. destruct (Z.eqb_spec d 3) as [->|]; [intros [= <-]; by vm_compute|]. by destruct (d =? 4).
  - intros d v. destruct (d =? 3); [done|]. by destruct (d =? 4).
  - intros d v c. destruct (d =? 3); [done|]. by destruct (d =? 4).
  - intros d op l r. destruct (Z.eqb_spec d 3) as [->|]; [done|]. destruct (Z.eqb_spec d 4) as [->|]; [|done]. intros [= <- <- <-]. split_and!; try (by vm_compute); try (vm_compute; lia). intros o [Ho|Ho]; [done|]. injection Ho as <-. by eexists.
  - intros d. destruct (Z.eqb_spec d 1) as [->|]; [intros _; by vm_compute | done].
Qed.

Lemma redundant_check_sound_witness : exists range_of', @IsRedundantBasedOnRangeInformation rv64 small_graph 5 small_ranges 2 1 = Ok (true, range_of') /\ 0 <= small_values 2 < small_values 1.
Proof.
  destruct (@redundant_check_sound rv64 small_graph small_values small_rank 5 small_ranges 2 1 small_sound ltac:(by vm_compute)) as (redundant & range_of' & E & _ & Hr).
  destruct redundant; [exists range_of'; split; [exact E | by apply Hr] | vm_compute in E; discriminate E].
Defined.

Lemma inferred_range_sound_witness : exists range, @InferRangeHelper rv64 small_graph 5 small_ranges kADD (Some below_length) (Some {| min_ := kConstant 1; max_ := kConstant 1 |}) 2 kRangeBoundarySmi = Ok (Some (range, false)) /\
  contains small_values range 5.
Proof.
  destruct (@inferred_range_sound rv64 small_graph small_values small_rank 5 small_ranges kADD below_length {| min_ := kConstant 1; max_ := kConstant 1 |} 2 kRangeBoundarySmi 4 1 5 small_sound
    (proj1 below_length_ok) ltac:(by vm_compute) (proj2 below_length_ok) ltac:(by vm_compute) eq_refl eq_refl) as (range & o & E & _ & Hc & _).
  destruct o; [vm_compute in E; discriminate E|]. exists range. split; [exact E | apply Hc; by vm_compute].
Defined.

Lemma constraint_range_sound_witness : exists r, (c ← @ConstraintSmiRange rv64 small_graph kLT 1; @ConstraintInstr_InferRange rv64 small_graph 5 small_ranges 2 c) = Ok (Some r) /\ contains small_values r 4.
Proof.
  destruct (@constraint_range_sound rv64 small_graph small_values small_rank 5 small_ranges kLT 2 1 small_sound ltac:(by vm_compute) ltac:(by vm_compute) ltac:(by vm_compute)) as (c & E & Hc).
  rewrite E. destruct Hc as (r & Er & _ & Hr). by exists r.
Defined.

Lemma join_covers_witness : exists r, @Join rv64 small_graph 5 small_ranges {| min_ := kConstant 7; max_ := kSymbol 1 2 |} 2 (Some below_length) kRangeBoundarySmi = Ok r /\
  contains small_values r 8 /\ contains small_values r 4.
Proof.
  destruct (@join_covers rv64 small_graph small_values small_rank 5 small_ranges kRangeBoundarySmi {| min_ := kConstant 7; max_ := kSymbol 1 2 |} 2 below_length 8 small_sound ltac:(by vm_compute) ltac:(by vm_compute) ltac:(by vm_compute)
    ltac:(by vm_compute) ltac:(by vm_compute) (proj2 below_length_ok)) as (r & E & _ & Hc).
  exists r. split; [exact E|]. split; apply Hc; [left; by vm_compute | by right].
Defined.

(** A phi of range [0, 3] for which [0, length - 1] is inferred: its range becomes [0, MaxSmi]. *)
Lemma phi_update_sound_witness : exists r, @update_phi rv64 small_graph 5 small_ranges WIDEN {| min_ := kConstant 0; max_ := kConstant 3 |} below_length kRangeBoundarySmi = Ok r /\ contains small_values r 4.
Proof.
  destruct (@phi_update_sound rv64 small_graph small_values small_rank 5 small_ranges kRangeBoundarySmi {| min_ := kConstant 0; max_ := kConstant 3 |} below_length small_sound ltac:(by vm_compute) ltac:(by vm_compute) ltac:(by vm_compute)
    ltac:(by vm_compute)) as [(r & E & _ & Hc & _) _].
  exists r. split; [exact E|]. apply Hc. right. exact (proj2 below_length_ok).
Defined.

(** ** A join that does not cover

    A phi of a value known to be above [s] and of the largest small integer gets the range
    [s + 1, MaxSmi], although its value is [s] when [s] is the largest small integer: the range
    that is kept is taken to have a value. *)
Definition extreme_values (d : Z) : Z := @kSmiMax rv64.
Lemma join_misses_value : let above_s := {| min_ := kSymbol 1 1; max_ := kConstant (@kSmiMax rv64) |} in let largest := {| min_ := kConstant (@kSmiMax rv64); max_ := kConstant (@kSmiMax rv64) |} in
  contains extreme_values largest (extreme_values 2) /\
  exists r, @Join rv64 small_graph 5 (fun _ => None) above_s 2 (Some largest) kRangeBoundarySmi = Ok r /\ ~ contains extreme_values r (extreme_values 2).
Proof. cbv zeta. split; [by vm_compute|]. eexists. split; [vm_compute; reflexivity|]. intros [Hl _]. vm_compute in Hl. by apply Hl. Qed.

(** Widening keeps the boundary [s + 1] of such a range for the same reason, and the phi's range
    misses the value it is widened for. *)
Lemma widen_misses_value : let above_s := {| min_ := kSymbol 1 1; max_ := kConstant (@kSmiMax rv64) |} in let largest := {| min_ := kConstant (@kSmiMax rv64); max_ := kConstant (@kSmiMax rv64) |} in
  contains extreme_values largest (extreme_values 2) /\
  exists r, @update_phi rv64 small_graph 5 (fun _ => None) WIDEN above_s largest kRangeBoundarySmi = Ok r /\ ~ contains extreme_values r (extreme_values 2).
Proof. cbv zeta. split; [by vm_compute|]. eexists. split; [vm_compute; reflexivity|]. intros [Hl _]. vm_compute in Hl. by apply Hl. Qed.
