(* ===== verification/SimulatorProps.v ===== *)
(** * Properties of the simulator

    The theorems about the simulator itself: the invariant of its state, execution and calls,
    memory and atomic accesses, the arithmetic of words, and the immediate fields it shares
    with the assembler. *)
From S2P Require Import Prelude Utils Constants EncodingFacts Words CWords Memory Float.
From S2P Require Import SimState SimInteger SimFloat Simulator Exec SimFacts SimCalls.
From S2P Require Import Arithmetic Stack Accesses AsmState Emission Computes EndToEnd Instances.

(** ** Checked accesses *)

Section Guards.
Context `{Target}.

(** The [n] bytes at [addr] are in the live part of the simulator's stack; they avoid the
    first page and what [~kPageSize] leaves of the end of the address space. *)
Definition in_live_stack (st : Simulator) (addr n : Z) : Prop :=
  xregs_ st SP <= addr /\ addr + n <= stack_base_ st.
Definition off_guard_pages (addr n : Z) : Prop := 16384 <= addr /\ addr + n < 2 ^ XLEN - 16385.

(** What a debug build asks of an access through the register [base]; a release build asks
    nothing. *)
Definition permitted (st : Simulator) (addr n base : Z) : Prop :=
  DEBUG = true ->
  if decide (base = SP \/ base = FP) then in_live_stack st addr n else off_guard_pages addr n.
Definition guard_error (base : Z) : error :=
  if decide (base = SP \/ base = FP) then StackAccessError else BadMemoryAccessError.

Definition is_ok {A} (r : result A) : Prop := exists x, r = Ok x.

Lemma uintx_guard : uintx (Z.lnot (16 * KB)) = 2 ^ XLEN - 16385.
Proof. unfold uintx, XLEN. by destruct TARGET_64. Qed.

Lemma check_access_spec T st addr base : 0 <= addr -> 0 <= sizeof T -> addr + sizeof T < 2 ^ XLEN ->
  (permitted st addr (sizeof T) base /\ check_access T st addr base = Ok tt) \/
  (~ permitted st addr (sizeof T) base /\ check_access T st addr base = Err (guard_error base)).
Proof.
  intros Ha Hz Hs. unfold permitted, guard_error, check_access, get_xreg.
  destruct DEBUG; [|by left]. rewrite uintx_guard, uintx_small by lia. change (16 * KB) with 16384.
  unfold in_live_stack, off_guard_pages. case_decide as Hb.
  - replace ((base =? SP) || (base =? FP)) with true by (destruct Hb as [-> | ->]; done).
    destruct (Z.ltb_spec (stack_base_ st) (addr + sizeof T)), (Z.ltb_spec addr (xregs_ st SP)); cbn;
      [right | right | right | left]; (split; [|done]); lia.
  - replace ((base =? SP) || (base =? FP)) with false
      by (symmetry; apply orb_false_iff; rewrite !Z.eqb_neq; tauto).
    destruct (Z.ltb_spec addr 16384), (Z.leb_spec (2 ^ XLEN - 16385) (addr + sizeof T)); cbn;
      [right | right | right | left]; (split; [|done]); lia.
Qed.

Lemma mem_store_maps m addr n v m' : mem_store m addr n v = Ok m' -> mapped m addr n.
Proof.
  intros Hs i Hi. apply (mem_store_dom _ _ _ _ _ i Hs). apply mem_store_load, mem_load_mapped in Hs.
  by apply Hs.
Qed.

Lemma mem_load_maps m addr n : mapped m addr n -> exists v, mem_load m addr n = Ok v.
Proof.
  revert addr. induction n as [|n IH]; intros addr Hm; cbn [mem_load]; [eauto|].
  destruct (Hm addr) as [b ->]; [lia|]. destruct (IH (addr + 1)) as [v ->]; [|eauto].
  intros i Hi. apply Hm. lia.
Qed.
End Guards.

Section Properties.
Context `{Target} `{HostFloat} `{Host}.

(** What the assembler and the simulator agree on about an immediate field. *)
Definition immediate_roundtrip (Is : Z -> bool) (Encode : Z -> result Z) (Decode : Z -> Z) : Prop :=
  forall imm, Is imm = true -> exists e, Encode imm = Ok e /\ Decode e = imm.

(** C27: every instruction, compressed or not, keeps the simulator's state well formed:
    registers and program counter are words of the target, [x0] is zero, the instruction
    counter has 64 bits and memory holds bytes; host calls are assumed to do so too. *)
Theorem step_keeps_state_wf st st' : host_keeps_wf -> sim_wf st -> step st = Ok st' -> sim_wf st'.
Proof. intros Hh. by apply step_wf. Qed.

(** C28: [Call] runs the code in one state, fixed by the state before the call: the program
    counter at the entry, the end marker as return address, the stack pointer rounded down
    to 16 bytes, the parameters in [A0] to [A3] (or converted in [FA0] to [FA3]), every other
    field as before.  When the run ends there with [sp], [gp], [tp], [s0] to [s11] and [fs0]
    to [fs11] as on entry, [Call] returns the run's [A0] (or [FA0]) and its state with the
    stack pointer of before; these registers are then as before the call.  When one of them
    differs, a debug build reports such a register.  A run that fails or needs more fuel does
    the same to the call. *)
Theorem call_runs_entry_and_checks entry p0 p1 p2 p3 fr fa st : sim_wf st ->
  exists st0, call_entry entry p0 p1 p2 p3 fa st st0 /\ sim_wf st0 /\
  forall fuel, let r := Call fuel entry p0 p1 p2 p3 fr fa st in
  match Execute fuel st0 with
  | None => r = None
  | Some (Err e) => r = Some (Err e)
  | Some (Ok st1) =>
      (keeps_saved st0 st1 -> exists st',
         r = Some (Ok (int64 (if fr then fp_to_int binary64 (fregs_ st1 FA0) else xregs_ st1 A0), st')) /\
         st' = with_xregs st1 (xregs_ st') /\ (forall i, i <> SP -> xregs_ st' i = xregs_ st1 i) /\
         forall i, i ∈ abi_saved -> xregs_ st' i = xregs_ st i) /\
      (DEBUG = true -> ~ keeps_saved st0 st1 -> exists i, r = Some (Err (NotPreservedError i)) /\
         ((i ∈ abi_saved /\ xregs_ st1 i <> xregs_ st0 i) \/
          (i ∈ abi_saved_fp /\ fregs_ st1 i <> fregs_ st0 i)))
  end.
Proof.
  intros Hwf. pose proof (entered_call_entry entry p0 p1 p2 p3 fa st Hwf) as C.
  exists (entered_call entry p0 p1 p2 p3 fa st). split; [done|]. split; [by apply entered_call_wf|].
  intros fuel r. pose proof (Call_outcome entry p0 p1 p2 p3 fr fa st Hwf fuel) as Ho.
  cbv zeta in Ho. fold r in Ho. destruct (Execute fuel _) as [[st1|e]|]; [|done..].
  destruct Ho as [Hok Herr]. split; [|done]. intros Hk.
  destruct (Hok Hk) as (st' & E & Hr & Hsp & Hx). exists st'. do 3 (split; [done|]). intros i Hi.
  destruct (decide (i = SP)) as [->|Hn]; [done|]. rewrite Hx by done. destruct Hk as [Hk _].
  rewrite Hk by done. by eapply call_entry_saved.
Qed.

(** Preparing a call saves the registers as they are and gives new values to volatile
    registers only: memory, the program counter, every other register and the well-formed
    state are kept. *)
Theorem prepare_call_keeps_saved st : sim_wf st ->
  fst (PrepareCall st) = SavePreservedRegisters st /\
  same_but_volatile st (snd (PrepareCall st)) /\ sim_wf (snd (PrepareCall st)) /\
  forall i, callee_saved i -> xregs_ (snd (PrepareCall st)) i = xregs_ st i.
Proof.
  intros Hwf. destruct (PrepareCall_frame st) as [Hp Hf]. split_and!; [done..| |].
  - by apply PrepareCall_wf.
  - intros i Hi%callee_saved_not_volatile. by apply Hf.
Qed.

(** Looking a host function up and registering it keeps one entry per function and per
    address, drops none, and the address it hands out leads back to the function. *)
Theorem redirection_roundtrip l fresh f k c : redirections_ok l ->
  ~ In fresh (map address_of_ecall_instruction l) ->
  let '(r, l') := Redirection_Get l fresh f k c in
  redirections_ok l' /\ (forall x, In x l -> In x l') /\
  FunctionForRedirect l' (address_of_ecall_instruction r) = f /\
  FromECallInstruction l' (address_of_ecall_instruction r) = Ok r.
Proof.
  intros Hl Hf. pose proof (Redirection_Get_spec l fresh f k c Hl Hf) as Hg.
  destruct (Redirection_Get l fresh f k c) as [r l']. destruct Hg as (Hl' & Hr & <- & Hm).
  destruct (FunctionForRedirect_entry l' r Hl' Hr). done.
Qed.

(** C35: a store-conditional after a load-reserved of the same address, with no write in
    between, stores and reports success; one at another address reports failure and
    leaves memory alone. *)
Theorem load_reserved_store_conditional T st lr sc st1 : atomic_type T ->
  InterpretLR T st lr = Ok st1 ->
  (get_xreg st1 (rs1 sc) = get_xreg st (rs1 lr) ->
   exists m, store_as T (mem_ st) (get_xreg st (rs1 lr)) (cast T (get_xreg st1 (rs2 sc))) = Ok m /\
     InterpretSC T st1 sc = Ok (set_xreg (with_mem st1 m) (rd sc) 0)) /\
  (forall addr, atomic_address T st1 sc = Ok addr -> addr <> reserved_address_ st1 ->
     InterpretSC T st1 sc = Ok (set_xreg st1 (rd sc) 1)).
Proof.
  intros HT E. split; [intros Ea; by apply (LR_SC_stores T st lr sc st1)|].
  intros addr. apply SC_other_fails.
Qed.

(** C36: an access to the [sizeof T] bytes at [addr], which end below 2^XLEN, succeeds
    exactly when they are mapped and, in a debug build, lie in the live part of the stack
    (through [SP] or [FP]) or off the guarded first and last pages (through another register).
    A write can then be read back through the same register at either signedness and changes
    no other byte; an access the guards refuse, read or write, reports the stack error or the
    memory error. *)
Theorem memory_access_exact T st addr v base : byte_type T -> 0 <= addr ->
  addr + sizeof T < 2 ^ XLEN ->
  (permitted st addr (sizeof T) base -> mapped (mem_ st) addr (Z.to_nat (sizeof T)) ->
   is_ok (MemoryRead T st addr base) /\
   exists m, MemoryWrite T st addr v base = Ok (with_mem st m) /\
   (forall b, MemoryRead (CType (bits_of T) b) (with_mem st m) addr base =
      Ok (cast (CType (bits_of T) b) v)) /\
   forall a, a < addr \/ addr + sizeof T <= a -> m !! a = mem_ st !! a) /\
  (~ permitted st addr (sizeof T) base ->
   MemoryRead T st addr base = Err (guard_error base) /\
   MemoryWrite T st addr v base = Err (guard_error base)) /\
  (~ mapped (mem_ st) addr (Z.to_nat (sizeof T)) ->
   ~ is_ok (MemoryRead T st addr base) /\ ~ is_ok (MemoryWrite T st addr v base)).
Proof.
  intros HT Ha Hs. pose proof (sizeof_pos T HT) as [Hz _].
  pose proof (check_access_spec T st addr base Ha ltac:(lia) Hs) as Hc.
  split_and!.
  - intros Hp Hm. destruct Hc as [[_ Hc]|[]]; [|done].
    destruct (mem_load_maps _ _ _ Hm) as [w Hl]. destruct (store_as_mapped T (mem_ st) addr v Hm) as [m Hst].
    split; [eexists; unfold MemoryRead, load_as; by rewrite Hc; cbn; rewrite Hl|].
    exists m. split; [unfold MemoryWrite; by rewrite Hc; cbn; rewrite Hst|]. split.
    + intros b. unfold MemoryRead.
      change (check_access (CType (bits_of T) b) (with_mem st m) addr base)
        with (check_access T st addr base). rewrite Hc. cbn. by apply (store_load_as T (mem_ st)).
    + intros a Hout. apply (mem_store_other _ _ _ _ _ _ Hst). lia.
  - intros Hp. destruct Hc as [[]|[_ Hc]]; [done|]. unfold MemoryRead, MemoryWrite. by rewrite Hc.
  - intros Hm. split.
    + intros (x & (u & _ & (w & Hl & _)%result_bind_Ok)%result_bind_Ok).
      by apply Hm, (mem_load_mapped _ _ _ _ Hl).
    + intros (x & (u & _ & (m & Hst & _)%result_bind_Ok)%result_bind_Ok).
      by apply Hm, (mem_store_maps _ _ _ _ _ Hst).
Qed.

(** C37: the high-word multiplications built from half words compute the high word of the
    exact double-width product: unsigned, signed and mixed. *)
Theorem multiply_high a b : - 2 ^ (XLEN - 1) <= a < 2 ^ (XLEN - 1) ->
  - 2 ^ (XLEN - 1) <= b < 2 ^ (XLEN - 1) ->
  mulh a b = a * b / 2 ^ XLEN /\
  mulhu (uintx a) (uintx b) = uintx a * uintx b / 2 ^ XLEN /\
  mulhsu a (uintx b) = uintx (a * uintx b / 2 ^ XLEN).
Proof.
  intros Ha Hb. split_and!; [by apply mulh_high | apply mulhu_high | apply mulhsu_high];
    auto using uintx_bound.
Qed.

(** C38: division and remainder satisfy the division equation for all operands, a zero
    divisor and the overflowing quotient included: signed ones modulo the word size, with a
    remainder smaller than the divisor and of the dividend's sign, unsigned ones exactly, with
    a remainder below the divisor.  All results are words; division by zero gives the word of
    all ones and the dividend as remainder. *)
Theorem divide_remainder a b : - 2 ^ (XLEN - 1) <= a < 2 ^ (XLEN - 1) ->
  - 2 ^ (XLEN - 1) <= b < 2 ^ (XLEN - 1) -> let ua := uintx a in let ub := uintx b in
  (uintx (div a b * b + rem a b) = uintx a /\
   - 2 ^ (XLEN - 1) <= div a b < 2 ^ (XLEN - 1) /\
   - 2 ^ (XLEN - 1) <= rem a b < 2 ^ (XLEN - 1) /\
   (b <> 0 -> Z.abs (rem a b) < Z.abs b /\ 0 <= rem a b * a)) /\
  (divu ua ub * ub + remu ua ub = ua /\
   0 <= divu ua ub < 2 ^ XLEN /\ 0 <= remu ua ub < 2 ^ XLEN /\ (b <> 0 -> remu ua ub < ub)) /\
  (b = 0 -> uintx (div a b) = 2 ^ XLEN - 1 /\ divu ua ub = 2 ^ XLEN - 1 /\
     rem a b = a /\ remu ua ub = ua).
Proof.
  intros Ha Hb. split; [by apply div_rem_spec|]. split.
  - pose proof (divu_remu_spec (uintx a) (uintx b) (uintx_bound a) (uintx_bound b)) as (? & ? & ? & Hr).
    split_and!; try tauto. intros Hz. apply Hr. intros E. apply Hz.
    rewrite <- (intx_small b Hb), <- intx_uintx, E. apply intx_small.
    pose proof (Z.pow_pos_nonneg 2 (XLEN - 1) ltac:(lia) ltac:(destruct XLEN_cases; lia)). lia.
  - intros ->. unfold div, divu, rem, remu. change (uintx 0) with (uwrap XLEN 0).
    rewrite (uwrap_small XLEN XLEN_pos) by (pose proof (pow2_pos XLEN XLEN_pos); lia).
    cbn [Z.eqb]. split_and!; [|done..]. unfold uintx, XLEN. by destruct TARGET_64.
Qed.

(** C39: each immediate the assembler accepts is encoded without error and decoded to itself
    by the simulator: of the I, S, B, U and J formats of full instructions (an upper
    immediate being a value of [intptr_t]), shift amounts, and every compressed format. *)
Theorem immediates_roundtrip :
  immediate_roundtrip IsITypeImm EncodeITypeImm DecodeITypeImm /\
  immediate_roundtrip IsSTypeImm EncodeSTypeImm DecodeSTypeImm /\
  immediate_roundtrip (fun imm => IsUTypeImm imm && (cast intptr_t imm =? imm))
    EncodeUTypeImm DecodeUTypeImm /\
  immediate_roundtrip (fun n => (0 <=? n) && (n <? XLEN)) EncodeShamt DecodeShamt /\
  immediate_roundtrip IsBTypeImm EncodeBTypeImm DecodeBTypeImm /\
  immediate_roundtrip IsJTypeImm EncodeJTypeImm DecodeJTypeImm /\
  immediate_roundtrip IsCBImm EncodeCBImm DecodeCBImm /\
  immediate_roundtrip IsCJImm EncodeCJImm DecodeCJImm /\
  immediate_roundtrip IsCIImm EncodeCIImm DecodeCIImm /\
  immediate_roundtrip IsCUImm EncodeCUImm DecodeCUImm /\
  immediate_roundtrip IsCI16Imm EncodeCI16Imm DecodeCI16Imm /\
  immediate_roundtrip IsCI4SPNImm EncodeCI4SPNImm DecodeCI4SPNImm /\
  immediate_roundtrip IsCMem4Imm EncodeCMem4Imm DecodeCMem4Imm /\
  immediate_roundtrip IsCMem8Imm EncodeCMem8Imm DecodeCMem8Imm /\
  immediate_roundtrip IsCSPLoad4Imm EncodeCSPLoad4Imm DecodeCSPLoad4Imm /\
  immediate_roundtrip IsCSPLoad8Imm EncodeCSPLoad8Imm DecodeCSPLoad8Imm /\
  immediate_roundtrip IsCSPStore4Imm EncodeCSPStore4Imm DecodeCSPStore4Imm /\
  immediate_roundtrip IsCSPStore8Imm EncodeCSPStore8Imm DecodeCSPStore8Imm.
Proof.
  unfold immediate_roundtrip. split_and!; intros imm;
    [apply ITypeImm_roundtrip | apply STypeImm_roundtrip | apply UTypeImm_roundtrip | apply Shamt_roundtrip | apply BTypeImm_roundtrip | apply JTypeImm_roundtrip | apply CBImm_roundtrip | apply CJImm_roundtrip | apply CIImm_roundtrip | apply CUImm_roundtrip | apply CI16Imm_roundtrip | apply CI4SPNImm_roundtrip | apply CMem4Imm_roundtrip | apply CMem8Imm_roundtrip | apply CSPLoad4Imm_roundtrip | apply CSPLoad8Imm_roundtrip | apply CSPStore4Imm_roundtrip | apply CSPStore8Imm_roundtrip].
Qed.

(** C40: a single-precision value written to a register is read back unchanged, a register
    that holds a double outside the boxed range reads as the canonical NaN, and writing one
    register leaves the others alone. *)
Theorem nan_boxing st r v : 0 <= v < 2 ^ 32 ->
  get_fregs (set_fregs st r v) r = v /\
  (forall d, 0 <= d < kNaNBox -> get_fregs (set_fregd st r d) r = 0x7fc00000) /\
  forall i, i <> r -> get_fregd (set_fregs st r v) i = get_fregd st i.
Proof.
  intros Hv. split_and!.
  - unfold get_fregs, set_fregs. cbn. unfold array_set. rewrite Z.eqb_refl. by apply boxed_read.
  - intros d Hd. unfold get_fregs, set_fregd. cbn. unfold array_set. rewrite Z.eqb_refl.
    by rewrite (unboxed_read d Hd).
  - intros i Hi. cbn. unfold array_set. by rewrite (proj2 (Z.eqb_neq i r) Hi).
Qed.
End Properties.

(** ** Instances *)

#[local] Existing Instances rv64 canonical_nan quiet_host.

(** [ret], loaded at the program counter of a simulator with a stack. *)
Definition ret_code : list Z := [130; 128].
Lemma ret_simulator_wf : sim_wf (stack_simulator ret_code).
Proof. apply stack_simulator_wf. by repeat constructor. Qed.

Lemma step_keeps_state_wf_witness : exists st',
  step (stack_simulator ret_code) = Ok st' /\ pc_ st' = 0 /\ sim_wf st'.
Proof.
  eexists. split; [reflexivity|]. split; [reflexivity|].
  eapply step_keeps_state_wf; [apply quiet_host_keeps_wf | apply ret_simulator_wf | reflexivity].
Defined.

Lemma ret_code_returns : returns ret_code.
Proof.
  destruct (ret_returns fresh fresh_full) as (code & E & Hr).
  assert (code = ret_code) as <- by (vm_compute in E; by injection E as <-). done.
Qed.

(** A call of the code returns its first parameter. *)
Lemma call_runs_entry_and_checks_witness : exists fuel st',
  Call fuel 4096 7 2 3 4 false false (stack_simulator ret_code) = Some (Ok (7, st')) /\
  forall i, i ∈ abi_saved -> xregs_ st' i = xregs_ (stack_simulator ret_code) i.
Proof.
  destruct (call_runs_entry_and_checks 4096 7 2 3 4 false false (stack_simulator ret_code)
    ret_simulator_wf) as (st0 & C & Hwf & Hr). pose proof (ce_rest _ _ _ _ _ _ _ _ C) as Er.
  destruct (executes_returns [] (fun r => r) ret_code st0) as (fuel & ir & E & _);
    [apply executes_nil | apply ret_code_returns | done | | | |].
  - by rewrite Er.
  - rewrite Er. apply stack_simulator_code.
  - rewrite (ce_ra _ _ _ _ _ _ _ _ C). by vm_compute.
  - exists fuel. specialize (Hr fuel). rewrite E in Hr. destruct Hr as [Hr _].
    destruct Hr as (st' & Ho & _ & _ & Hs); [by split|]. exists st'. split; [|exact Hs].
    pose proof (ce_args _ _ _ _ _ _ _ _ C eq_refl) as [= Ha _]. rewrite Ho.
    cbn [xregs_ with_instret with_pc with_xregs]. by rewrite Ha.
Defined.

Lemma prepare_call_keeps_saved_witness :
  same_but_volatile (stack_simulator ret_code) (snd (PrepareCall (stack_simulator ret_code))).
Proof. apply (prepare_call_keeps_saved (stack_simulator ret_code)), ret_simulator_wf. Defined.

Lemma redirection_roundtrip_witness :
  let '(r, l') := Redirection_Get [] 4096 77 kRuntimeCall 1 in
  FunctionForRedirect l' (address_of_ecall_instruction r) = 77.
Proof.
  apply (redirection_roundtrip [] 4096 77 kRuntimeCall 1); [split; constructor | by intros []].
Defined.

(** [lr.w a0, (a1)] and [sc.w a2, a0, (a1)]. *)
Lemma load_reserved_store_conditional_witness : exists st1 m,
  InterpretLR int32_t (stack_simulator []) 0x1005A52F = Ok st1 /\
  InterpretSC int32_t st1 0x18A5A62F = Ok (set_xreg (with_mem st1 m) A2 0).
Proof.
  assert (exists st1, InterpretLR int32_t (stack_simulator []) 0x1005A52F = Ok st1 /\
    get_xreg st1 (rs1 0x18A5A62F) = 65520) as (st1 & E & Ea) by (eexists; split; reflexivity).
  destruct (load_reserved_store_conditional int32_t (stack_simulator []) 0x1005A52F 0x18A5A62F st1
    (or_introl eq_refl) E) as [Hs _].
  destruct (Hs Ea) as (m & _ & Hm). by exists st1, m.
Defined.

Lemma memory_access_exact_witness : let st := set_xreg (stack_simulator []) SP 65520 in
  (exists m, MemoryWrite int32_t st 65520 (-2) SP = Ok (with_mem st m) /\
     MemoryRead int32_t (with_mem st m) 65520 SP = Ok (-2)) /\
  MemoryWrite int32_t st 65516 (-2) SP = Err StackAccessError.
Proof.
  intros st. split.
  - destruct (memory_access_exact int32_t st 65520 (-2) SP) as (Hw & _); [done | done | by vm_compute |].
    destruct Hw as (_ & m & E & Hr & _); [done | by apply stack_simulator_mapped |].
    exists m. split; [done|]. apply (Hr true).
  - apply (memory_access_exact int32_t st 65516 (-2) SP); [done | done | by vm_compute |].
    intros Hp. by destruct (Hp eq_refl).
Defined.

Lemma multiply_high_witness : mulh (-3) 5 = -1.
Proof. rewrite (proj1 (multiply_high (-3) 5 ltac:(by vm_compute) ltac:(by vm_compute))). done. Defined.

Lemma divide_remainder_witness : uintx (div (-7) 2 * 2 + rem (-7) 2) = uintx (-7).
Proof. apply (divide_remainder (-7) 2); by vm_compute. Defined.

Lemma nan_boxing_witness : get_fregs (set_fregs (stack_simulator []) 3 0x3f800000) 3 = 0x3f800000.
Proof. by apply (nan_boxing (stack_simulator []) 3 0x3f800000). Defined.
